(* ===== verification/_CoqProject ===== *)
-Q . S2P
Prelude.v
IscTree.v
IscHeap.v
EvTimers.v
CText.v
NsName.v
NsUnpack.v
NsText.v
NsPack.v
NsLabels.v
ResComp.v
NsParse.v
NsDomain.v
ResMkquery.v
NsTtl.v
Base64.v
Inet4.v
Inet6.v
Semaphore.v
Des.v
EvWaits.v
RwLock.v
McsLock.v
McsFifo.v
Clipping.v
RegionBand.v
RegionRows.v
RegionOp.v
RegionSet.v
RingBuffer.v
BList.v
BListOps.v
TimeOfDay.v
Calendar.v
CalendarOps.v
CalendarWeek.v
DateTime.v
Utf8.v
Utf8Conv.v
Utf8Convert.v
BString.v
BStringShare.v
BStringEdit.v
BStringOps.v
BStringFind.v
BStringReplace.v
BStringEscape.v
BStringWorld.v
BStringCases.v
StringRefs.v
StringList.v
StringListOps.v
StringListRun.v
StringListCases.v
