(* ===== verification/Prelude.v ===== *)
(** * BHAPI: the C and C++ core

    BHAPI is an implementation of the BeOS and Haiku application interface for
    other systems.  This library models the parts of it that carry logic of
    their own: in C, the name resolver of the network kit (src/
    kits/network/netresolv, below NR), with its event library and containers,
    the mail kit's cipher, the kernel kit's semaphores of a single thread, and
    the read-write and queue locks of the threads for Windows; in C++, the
    regions of the interface kit, the strings, lists and dates of the support
    kit, the text encodings and the kernel's ring buffer.  All paths are below
    src/src.

    * Files and sources

    - Prelude.v: results of C calls, integers of fixed width, memory, loops,
      and the lemmas, hints and tactics that the other files share; CText.v:
      the C library's characters, strings and number formats.
    - IscTree.v, NR/isc/tree.c: the AVL tree.  IscHeap.v, NR/isc/heap.c: the
      priority queue; the type class of a queue's order and index callback is
      the interface that EvTimers.v, NR/isc/ev_timers.c with the timer cases of
      NR/isc/eventlib.c, instantiates with timers in a shared memory.
      EvWaits.v, NR/isc/ev_waits.c with the wait cases of eventlib.c: linked
      lists in memory.
    - NsName.v, NR/nameser/ns_name.c: all functions.  Their theorems are in
      NsUnpack.v (wire to memory), NsText.v (text), NsPack.v (compression) and
      NsLabels.v (counting, comparing).  ResComp.v, NR/resolv/res_comp.c: the
      resolver's entry to them.  NsParse.v, NR/nameser/ns_parse.c and
      ns_netint.c: messages; it calls NsName and ResComp.  ResMkquery.v,
      NR/resolv/res_mkquery.c: making queries with ResComp, read back with
      NsParse.  NsDomain.v, NR/nameser/ns_samedomain.c: domains and their
      ancestors.  NsTtl.v, NR/nameser/ns_ttl.c: times to live.
    - Base64.v, NR/irs/base64.c.  Inet4.v, NR/inet: inet_pton.c, inet_ntop.c,
      inet_addr.c, inet_network.c, inet_neta.c, inet_lnaof.c, inet_netof.c and
      inet_makeaddr.c.  Inet6.v: the IPv6 parts of the first two, which call
      Inet4 for the embedded dotted quad.
    - Semaphore.v, os/sem.c.  Des.v, kits/mail/des.c.  RwLock.v,
      wrappers/win32/pthreads/pthread_rwlock_*.c.  McsLock.v, ptw32_MCS_lock.c
      beside them, with its theorems in McsFifo.v.
    - Clipping.v, kits/interface/private/clipping.h: rectangles.  Regions,
      kits/interface/RegionSupport.cpp, are lists of rectangles in bands:
      RegionBand.v, what the operations do to one band; RegionRows.v, the set
      of points of a list of bands; RegionOp.v, the walk over two regions
      ([miRegionOp]) that takes the operation on bands as a parameter;
      RegionSet.v, union, intersection and the rest, which instantiate it, and
      the queries.  The members of the region class that the file calls
      ([MakeEmpty], [_SetSize], assignment) and [realloc] are the type class
      [RegionClass], with the laws [RegionClassOk] of a class with enough
      memory.
    - RingBuffer.v, os/private/util/ring_buffer.cpp.
    - BList.v, kits/support/List.cpp, over a heap of blocks; BListOps.v: its
      refinement of lists.
    - TimeOfDay.v, Calendar.v and DateTime.v, kits/support/DateTime.cpp: the
      classes BTime, BDate and BDateTime.  What the operations of BDate do is
      in CalendarOps.v (days, months, order) and CalendarWeek.v (weeks, years).
    - Utf8.v, kits/textencoding/UTF8.cpp: characters of UTF-8 text.  Utf8Conv.v,
      kits/textencoding/utf8_functions.cpp: the older functions, and conversion
      between UTF-8, UTF-16 and UTF-32, with their theorems in Utf8Convert.v.
      The class BString that collects a result is an interface there.
    - Strings, kits/support/String.cpp and private/StringPrivate.cpp, share
      blocks with a count until one of them is changed.  BString.v: the heap of
      blocks, the C library on it, construction, assignment and copying on
      write, and the invariant ([owners_ok]: every block has as many owners as
      it counts); BStringShare.v: what these do.  BStringEdit.v: the other
      operations that read or change a string in place, with their theorems in
      BStringOps.v (growing, shrinking) and BStringFind.v (searching).
      BStringReplace.v: replacing, sets of bytes and escaping, and what
      replacing does; BStringEscape.v: searching without case and escaping.
      BStringWorld.v: sequences of calls on many strings.  BStringCases.v:
      inputs on which the code goes wrong.
    - Lists of strings, kits/support/StringList.cpp: StringRefs.v, references to
      blocks; StringList.v, the operations over BList and BString, and
      BString::Split; StringListOps.v, what they do; StringListRun.v, sequences
      of calls and flattening; StringListCases.v, where they go wrong.

    A definition has the name of the function it translates, or the function's
    name with the part of it in a suffix ([_body] for one turn of a loop,
    [_loop] for the loop).

    * How C is modelled

    - A call returns an [outcome]: a value, an error return with [errno], or a
      [Fault], which stands for undefined behaviour (an access outside an
      object, a null or stale pointer, an overflow of a signed integer) and
      for a failed assertion.  Theorems that a call returns exclude [Fault].
    - [int] has 32 bits, [long], [size_t] and pointers 64, [char] is signed and
      bytes have 8 bits; conversions wrap where C says so.  An object of bytes
      is a list, a pointer into it an offset, and a write pointer that only
      advances is the list of what was stored, with the room there was.
    - Objects that are shared or linked live in finite maps from addresses
      (EvTimers.v, EvWaits.v), and allocation is an argument, so that its
      failure is a case.  Callbacks, allocation, the clock and what other
      libraries do are parameters, with what the code relies on as
      hypotheses.
    - The blocks of strings and those of lists of pointers are two heaps, whose
      cells may be unset.  [malloc] and [realloc] are a type class with laws
      and may move a block at any time, so that a stale pointer faults; a
      statement about strings ends in [exhausted] where an allocation may
      fail.  [BList] goes on with the address of an array after [realloc] may
      have moved it: its theorem says that this is the one [Fault] of the
      operations it covers ([stale]).  The law that rules it out,
      [ReallocStays], is an assumption of the theorems on lists of strings
      only.  A reference argument that may be the object itself is a case of
      its own ([sref]).
    - Threads are interleaved by a step relation: between calls of mutexes and
      conditions in RwLock.v, between accesses to shared memory in McsLock.v.
    - Constants of system headers have the values that the protocols give
      them: [NS_*] and [IN_CLASS*] from RFC 1035 and the BSD headers.  The
      numbers of address families are parameters, and the bit fields of
      [HEADER] a class (ResMkquery.v).

    * Bounds

    The theorems on regions hold up to 4000 rectangles in two regions together,
    for which the code's sizes in [int32_t] do not overflow, and for a
    destination that is neither of them; that the ring buffer is a queue up to
    2^30 bytes, with the calls whose sum overflows for any greater one told
    exactly ([ring_sum_overflow]); those on dates up to the year
    five million ([YEAR_MAX]), the day 1827000000 ([JD_MAX]), up to which the
    Julian day fits an [int32_t], and for [Time_t] a process whose time zone is
    UTC; that text converted to UTF-16 or UTF-32 is
    read back up to 2^29 characters; a length given to [utf8_convert] may also
    be negative or INT_MAX, and the theorem says what happens then.  Strings are below 2^31 bytes, and those in
    which something is replaced or escaped below 2^30, with a result that
    fits an [int32_t] ([fits]); changing the case is for ASCII, outside of which
    the code is undefined.  The list's theorems are about lists without a
    minimum count.

    * Loops and fuel

    Recursion is structural on lists or on a counter where the code's is.
    Where it is not, the loop has fuel.  [unpack_fuel] is the size of the
    message and of the destination: a turn stores a byte or counts towards the
    bound on pointers.  [skip_fuel] is the distance to the end, which every
    turn shortens.  The search in a wait list has the number of lists, none of
    which is passed twice.  That this is enough is part of the theorems, which
    state results that are not [NoFuel].  [ns_name_pack] takes its fuel as an
    argument because the source has no bound: it follows the pointers of the
    names already in the message, and a pointer to itself makes it loop for
    ever; its theorem asks for names that are well formed.

    * What the theorems show

    - Containers: every operation of the tree keeps it ordered and balanced
      and refines operations on an ordered list, also where an allocation
      fails and nothing is inserted; every operation of the heap
      keeps it a heap with the indices its elements were told, and draining it
      sorts.
    - Events: timers stay a heap of exactly those set, whatever is called;
      the wait lists refine a machine with a queue per tag for every sequence
      of calls, whoever waits for a tag is called after it is done, and
      destruction frees what is queued.
    - Names and messages: no function leaves its buffers except as the
      findings say; unpacking follows the grammar of names; text and wire
      forms, and packing and unpacking, are inverse; a message that the parser
      accepts has four sections of records that follow each other; a query
      that the resolver makes is read back by it.  Domains are compared by their
      labels.
    - Text forms: addresses, times to live and base 64 are read back as
      written, and malformed input is told, but for a byte from 0x80 on behind
      the first padding character of base 64, which the code hands to
      [isspace] as a negative number.  Characters are decoded from UTF-8,
      found by their index, and kept by conversions between the encodings; on
      any bytes the conversions stay inside the text and the result.
    - Regions: union, intersection, difference and the exclusive or have the
      points of the set operation and keep the canonical form (bands from top
      to bottom, from left to right, no two that could be one); containment
      and overlap answer for the points.
    - Buffers and lists: the ring buffer refines a queue of bytes, a list in a
      block of memory a list - unless the address of the array has become
      stale.
    - Strings: any calls that meet their conditions ([call_ok]), on any number
      of strings that share blocks, have the results that they have on values,
      change no other string and neither lose nor free a block too early;
      replacing is the textbook replacement from left to right, searching
      finds the first and the last occurrence, and escaping is undone by
      unescaping. A list of strings refines a list of texts and counts as an
      owner of each; flattened, it is read back.
    - Dates: valid dates and Julian days correspond one to one over the change
      of calendar; adding days and months, comparing and the number of the
      week agree with the calendar; seconds since 1970 are read back.
    - Systems: the table of semaphores refines a finite map; the cipher's
      decryption undoes its encryption for whole buffers; readers and writers
      exclude each other and never deadlock in any interleaving; the queue
      lock goes from one to the next in the order of arrival, reaches everybody
      and closes its events, as long as no node is used twice.

    Where the code departs from what it means to do, a lemma next to the
    definition shows it on an input (for example [ns_name_unpack2_overread],
    [dn_find_diverges], [inet_pton4_wraps], [sem_samples],
    [makecanon_three_backslashes], [timedrdlock_overflow],
    [mcs_reuse_faults], the lemmas of BStringCases.v and StringListCases.v).

    * Not modelled

    The C++ kits and the kernel but for the files above, servers, tracker and
    preferences; drivers and
    vendored libraries; wrappers for other systems but for the locks above.
    Of the resolver: configuration, sockets, databases and printing (resolv,
    irs, dst, most of eventlib.c), which is input and output around the code
    above, and networks in text (the inet_net and inet_cidr files).  Of
    regions: the class BRegion that RegionSupport.cpp uses, which the repository
    does not hold in that form, and a destination that is one of the sources.  Of lists: sorting, which calls
    [qsort].  Of dates: archives, the clock and the names of days and months.
    Of strings: formats ([snprintf], [sscanf] and floating point numbers), Adopt,
    which needs a member that is defined nowhere, and sorting a list.  The
    members Length and String, and the comparison of two strings, are declared
    in the repository without a definition; they are type classes with laws.
    Of text: utf8_conversions.cpp, which calls iconv.  Of the locks:
    destruction and static initialisation, and the mutexes and conditions
    underneath, whose contract is assumed in the step relation; and the barriers
    (pthread_barrier_wait.c) with the transfer of a queue lock's node, which
    only they use. *)
From Stdlib Require Import ZArith Lia List Bool.
From stdpp Require Import base tactics list numbers gmap.
Local Open Scope Z_scope.

(** ** Results of C calls

    [Ok a] is a normal return, [Err e] the error return of a function (-1 or
    NULL) with [errno] set to [e].  [Fault] is an access outside the object a
    pointer designates, a NULL dereference or a failed assertion; [NoFuel]
    says that the bound given to a loop of the model was too small.  The last
    two are never results of the code: theorems exclude them. *)

Inductive errno : Type :=
| EMSGSIZE | EINVAL | ENOENT | EISDIR | ENAMETOOLONG | ENODEV | ENOMEM
| EAFNOSUPPORT | ENOSPC | EEXIST
| ENONE. (* a failure that leaves [errno] alone *)

#[export] Instance errno_eq_dec : EqDecision errno.
Proof. solve_decision. Defined.

Inductive outcome (A : Type) : Type :=
| Ok (a : A)
| Err (e : errno)
| Fault
| NoFuel.

Arguments Ok {A} a.
Arguments Err {A} e.
Arguments Fault {A}.
Arguments NoFuel {A}.

#[export] Instance outcome_eq_dec {A} `{EqDecision A} : EqDecision (outcome A).
Proof. solve_decision. Defined.

Definition obind {A B} (m : outcome A) (k : A -> outcome B) : outcome B :=
  match m with
  | Ok a => k a
  | Err e => Err e
  | Fault => Fault
  | NoFuel => NoFuel
  end.

Declare Scope c_scope.
Delimit Scope c_scope with c.

Notation "x <- m ;; k" := (obind m (fun x => k))
  (at level 100, m at next level, right associativity) : c_scope.
Notation "'let!' p ':=' m 'in' k" := (obind m (fun x => match x with p => k end))
  (at level 10, p pattern, m at level 200, k at level 200) : c_scope.
Notation "m ;;; k" := (obind m (fun _ => k))
  (at level 100, right associativity) : c_scope.
Local Open Scope c_scope.

(** [assert(b)]: a failed assertion aborts the process. *)
Definition cassert (b : bool) : outcome unit := if b then Ok tt else Fault.

(** A computation that returns normally with a result in [Q], or fails with an
    error the code reports; it neither leaves an object nor runs out of fuel. *)
Definition safe {A} (Q : A -> Prop) (m : outcome A) : Prop :=
  match m with
  | Ok a => Q a
  | Err _ => True
  | Fault | NoFuel => False
  end.

(** The same, without an error return. *)
Definition total {A} (Q : A -> Prop) (m : outcome A) : Prop :=
  match m with
  | Ok a => Q a
  | _ => False
  end.

Lemma safe_bind {A B} (Q : B -> Prop) (m : outcome A) (k : A -> outcome B) :
  safe (fun a => safe Q (k a)) m -> safe Q (obind m k).
Proof. destruct m; simpl; auto. Qed.

Lemma safe_mono {A} (P Q : A -> Prop) (m : outcome A) :
  safe P m -> (forall a, P a -> Q a) -> safe Q m.
Proof. destruct m; simpl; auto. Qed.

Lemma total_bind {A B} (Q : B -> Prop) (m : outcome A) (k : A -> outcome B) :
  total (fun a => total Q (k a)) m -> total Q (obind m k).
Proof. destruct m; simpl; auto. Qed.

Lemma total_mono {A} (P Q : A -> Prop) (m : outcome A) :
  total P m -> (forall a, P a -> Q a) -> total Q m.
Proof. destruct m; simpl; auto. Qed.

Lemma total_safe {A} (Q : A -> Prop) (m : outcome A) : total Q m -> safe Q m.
Proof. destruct m; simpl; tauto. Qed.

Lemma total_ok {A} (Q : A -> Prop) (m : outcome A) :
  total Q m <-> exists a, m = Ok a /\ Q a.
Proof.
  split.
  - destruct m; simpl; intros; try contradiction. eauto.
  - intros (a & -> & H). exact H.
Qed.

Lemma obind_ok {A B} (m : outcome A) (k : A -> outcome B) b :
  obind m k = Ok b <-> exists a, m = Ok a /\ k a = Ok b.
Proof.
  split.
  - destruct m; simpl; intros; try discriminate. eauto.
  - intros (a & -> & H). exact H.
Qed.

Lemma obind_assoc {A B C} (m : outcome A) (f : A -> outcome B) (g : B -> outcome C) :
  obind (obind m f) g = obind m (fun x => obind (f x) g).
Proof. destruct m; reflexivity. Qed.

(** ** Integers of fixed width *)

Definition INT_MAX : Z := 2147483647.
Definition INT_MIN : Z := -2147483648.

(** Conversion to an unsigned type of [w] bits. *)
Definition uwrap (w x : Z) : Z := x mod 2 ^ w.
Definition u8 : Z -> Z := uwrap 8.
Definition u16 : Z -> Z := uwrap 16.
Definition u32 : Z -> Z := uwrap 32.
Definition u64 : Z -> Z := uwrap 64.

(** Conversion to a signed type of [w] bits (two's complement). *)
Definition swrap (w x : Z) : Z := (x + 2 ^ (w - 1)) mod 2 ^ w - 2 ^ (w - 1).
Definition i32 : Z -> Z := swrap 32.

(** The value of a plain [char] holding the byte [b], on an ABI whose [char]
    is signed (x86). *)
Definition schar (b : Z) : Z := if b <? 128 then b else b - 256.

(** [assert(INT_MIN <= x && x <= INT_MAX)] *)
Definition assert_int (x : Z) : outcome unit :=
  cassert ((INT_MIN <=? x) && (x <=? INT_MAX)).

(** The sum of two [int]s, undefined when it overflows. *)
Definition add_int (a b : Z) : outcome Z := assert_int (a + b);;; Ok (a + b).

Definition byte_ok (b : Z) : Prop := 0 <= b < 256.
Definition bytes_ok (l : list Z) : Prop := Forall byte_ok l.

(** The bytes of a C string up to its terminator. *)
Definition cstr_ok (s : list Z) : Prop := Forall (fun b => 0 < b < 256) s.

#[export] Instance byte_ok_dec b : Decision (byte_ok b).
Proof. unfold byte_ok. apply _. Defined.

#[export] Instance bytes_ok_dec l : Decision (bytes_ok l).
Proof. unfold bytes_ok. apply _. Defined.

#[export] Instance cstr_ok_dec s : Decision (cstr_ok s).
Proof. unfold cstr_ok. apply _. Defined.

Definition zlen {A} (l : list A) : Z := Z.of_nat (length l).

(** ** Memory

    An object is the list of its bytes, a pointer into it an offset.  Reading
    or writing at an offset outside the list is a [Fault]. *)

Definition rd {A} (m : list A) (i : Z) : outcome A :=
  if i <? 0 then Fault
  else match m !! Z.to_nat i with
       | Some b => Ok b
       | None => Fault
       end.

(** [memcpy] out of an object: [n] bytes from offset [i]. *)
Definition rdn {A} (m : list A) (i n : Z) : outcome (list A) :=
  if (i <? 0) || (n <? 0) || (zlen m <? i + n) then Fault
  else Ok (take (Z.to_nat n) (drop (Z.to_nat i) m)).

Definition wr {A} (m : list A) (i : Z) (b : A) : outcome (list A) :=
  if (i <? 0) || (zlen m <=? i) then Fault
  else Ok (<[Z.to_nat i := b]> m).

(** [memcpy] into an object. *)
Definition wrn {A} (m : list A) (i : Z) (bs : list A) : outcome (list A) :=
  if (i <? 0) || (zlen m <? i + zlen bs) then Fault
  else Ok (take (Z.to_nat i) m ++ bs ++ drop (Z.to_nat i + length bs) m).

(** A destination of [cap] bytes that is filled from its start: [out] is what
    has been stored so far and the write pointer stands at [zlen out], so
    [*p++ = b] appends, and is a [Fault] when the destination is full. *)
Definition push (cap : Z) (out : list Z) (b : Z) : outcome (list Z) :=
  if zlen out <? cap then Ok (out ++ [b]) else Fault.

Definition pushn (cap : Z) (out bs : list Z) : outcome (list Z) :=
  if zlen out + zlen bs <=? cap then Ok (out ++ bs) else Fault.

(** ** Loops

    [loop fuel body s] runs [body] until it leaves the loop with [inr]. *)

Fixpoint loop {S R} (fuel : nat) (body : S -> outcome (S + R)) (s : S) : outcome R :=
  match fuel with
  | O => NoFuel
  | Datatypes.S fuel =>
      r <- body s;;
      match r with
      | inl s' => loop fuel body s'
      | inr v => Ok v
      end
  end.

Section LoopRules.
Context {S R : Type} (body : S -> outcome (S + R)).

(** Total correctness: an invariant and a measure that decreases. *)
Lemma loop_safe (Inv : S -> Prop) (mu : S -> nat) (Q : R -> Prop) :
  (forall s, Inv s ->
     safe (fun r => match r with
                    | inl s' => Inv s' /\ (mu s' < mu s)%nat
                    | inr v => Q v
                    end) (body s)) ->
  forall fuel s, Inv s -> (mu s < fuel)%nat -> safe Q (loop fuel body s).
Proof.
  intros Hstep fuel. induction fuel as [|fuel IH]; intros s Hs Hmu; [lia|].
  simpl. apply safe_bind. eapply safe_mono; [apply Hstep, Hs|].
  intros [s'|v]; simpl; [|auto]. intros [Hs' Hlt]. apply IH; [done|lia].
Qed.

Lemma loop_total (Inv : S -> Prop) (mu : S -> nat) (Q : R -> Prop) :
  (forall s, Inv s ->
     total (fun r => match r with
                     | inl s' => Inv s' /\ (mu s' < mu s)%nat
                     | inr v => Q v
                     end) (body s)) ->
  forall fuel s, Inv s -> (mu s < fuel)%nat -> total Q (loop fuel body s).
Proof.
  intros Hstep fuel. induction fuel as [|fuel IH]; intros s Hs Hmu; [lia|].
  simpl. apply total_bind. eapply total_mono; [apply Hstep, Hs|].
  intros [s'|v]; simpl; [|auto]. intros [Hs' Hlt]. apply IH; [done|lia].
Qed.

(** More fuel does not change a result. *)
Lemma loop_fuel_mono fuel k s r :
  loop fuel body s = r -> r <> NoFuel -> loop (fuel + k) body s = r.
Proof.
  revert s. induction fuel as [|fuel IH]; intros s; simpl; [congruence|].
  destruct (body s) as [[s'|v]|e| |]; simpl; auto.
Qed.

Lemma loop_fuel_le fuel fuel' s r :
  (fuel <= fuel')%nat -> loop fuel body s = r -> r <> NoFuel ->
  loop fuel' body s = r.
Proof.
  intros Hle H Hr. replace fuel' with (fuel + (fuel' - fuel))%nat by lia.
  by apply loop_fuel_mono.
Qed.

(** Running one iteration. *)
Lemma loop_next fuel s s' :
  body s = Ok (inl s') -> loop (Datatypes.S fuel) body s = loop fuel body s'.
Proof. intros H. simpl. by rewrite H. Qed.

Lemma loop_exit fuel s v :
  body s = Ok (inr v) -> loop (Datatypes.S fuel) body s = Ok v.
Proof. intros H. simpl. by rewrite H. Qed.

Lemma loop_err fuel s e :
  body s = Err e -> loop (Datatypes.S fuel) body s = Err e.
Proof. intros H. simpl. by rewrite H. Qed.
End LoopRules.

(** ** Facts about memory *)

Lemma zlen_nonneg {A} (l : list A) : 0 <= zlen l.
Proof. unfold zlen. lia. Qed.

Lemma zlen_nil {A} : zlen (@nil A) = 0.
Proof. reflexivity. Qed.

Lemma zlen_cons {A} (x : A) l : zlen (x :: l) = zlen l + 1.
Proof. unfold zlen. simpl. lia. Qed.

Lemma zlen_app {A} (l k : list A) : zlen (l ++ k) = zlen l + zlen k.
Proof. unfold zlen. rewrite length_app. lia. Qed.

Lemma zlen_snoc {A} (l : list A) x : zlen (l ++ [x]) = zlen l + 1.
Proof. rewrite zlen_app. reflexivity. Qed.

Lemma zlen_map {A B} (f : A -> B) l : zlen (map f l) = zlen l.
Proof. unfold zlen. by rewrite length_map. Qed.

Lemma zlen_insert {A} (l : list A) i x : zlen (<[i:=x]> l) = zlen l.
Proof. unfold zlen. by rewrite length_insert. Qed.

Create Rewrite HintDb zlen.
#[export] Hint Rewrite @zlen_nil @zlen_cons @zlen_app @zlen_map @zlen_insert : zlen.

(** Normalise lengths everywhere and let [lia] know they are not negative. *)
Ltac zlen_facts :=
  repeat match goal with
  | |- context [zlen ?l] =>
      lazymatch goal with
      | _ : 0 <= zlen l |- _ => fail
      | _ => pose proof (zlen_nonneg l)
      end
  | _ : context [zlen ?l] |- _ =>
      lazymatch goal with
      | _ : 0 <= zlen l |- _ => fail
      | _ => pose proof (zlen_nonneg l)
      end
  end.

Ltac zl := autorewrite with zlen in *; zlen_facts; lia.

Lemma rd_ok {A} (m : list A) i : 0 <= i < zlen m -> exists b, rd m i = Ok b.
Proof.
  intros H. unfold rd, zlen in *. destruct (Z.ltb_spec i 0); [lia|].
  destruct (lookup_lt_is_Some_2 m (Z.to_nat i)) as [b Hb]; [lia|].
  rewrite Hb. eauto.
Qed.

Lemma rd_inv {A} (m : list A) i b :
  rd m i = Ok b -> 0 <= i < zlen m /\ m !! Z.to_nat i = Some b.
Proof.
  unfold rd, zlen. destruct (Z.ltb_spec i 0); [done|].
  destruct (m !! Z.to_nat i) eqn:E; [|done]. intros [= ->].
  apply lookup_lt_Some in E as Hl. split; [lia|done].
Qed.

Lemma rd_lookup {A} (m : list A) i b :
  0 <= i -> m !! Z.to_nat i = Some b -> rd m i = Ok b.
Proof. intros Hi Hb. unfold rd. destruct (Z.ltb_spec i 0); [lia|]. by rewrite Hb. Qed.

Lemma rd_total {A} (P : A -> Prop) (m : list A) i :
  Forall P m -> 0 <= i < zlen m -> total P (rd m i).
Proof.
  intros HP Hi. destruct (rd_ok m i Hi) as [b Hb]. rewrite Hb. simpl.
  apply rd_inv in Hb as [_ Hb]. eapply Forall_lookup_1; eauto.
Qed.

Lemma rd_fault {A} (m : list A) i : i < 0 \/ zlen m <= i -> rd m i = Fault.
Proof.
  intros H. unfold rd, zlen in *. destruct (Z.ltb_spec i 0); [done|].
  rewrite lookup_ge_None_2; [done|lia].
Qed.

Lemma rd_app_l {A} (l k : list A) i : 0 <= i < zlen l -> rd (l ++ k) i = rd l i.
Proof.
  intros H. unfold rd, zlen in *. destruct (Z.ltb_spec i 0); [lia|].
  rewrite lookup_app_l; [done|lia].
Qed.

Lemma rd_app_r {A} (l k : list A) i : zlen l <= i -> rd (l ++ k) i = rd k (i - zlen l).
Proof.
  intros H. unfold rd, zlen in *.
  destruct (Z.ltb_spec i 0); [lia|]. destruct (Z.ltb_spec (i - Z.of_nat (length l)) 0); [lia|].
  rewrite lookup_app_r by lia.
  replace (Z.to_nat i - length l)%nat with (Z.to_nat (i - Z.of_nat (length l))) by lia.
  done.
Qed.

(** Reading just after a known prefix. *)
Lemma rd_mid {A} (l k : list A) x i : i = zlen l -> rd (l ++ x :: k) i = Ok x.
Proof.
  intros ->. rewrite rd_app_r by lia. rewrite Z.sub_diag. reflexivity.
Qed.

Lemma swrap_id w x : 0 < w -> - 2 ^ (w - 1) <= x < 2 ^ (w - 1) -> swrap w x = x.
Proof.
  intros Hw Hx. unfold swrap. rewrite Z.mod_small; [lia|].
  replace (2 ^ w) with (2 * 2 ^ (w - 1)) by (rewrite <- Z.pow_succ_r by lia; f_equal; lia). lia.
Qed.

Lemma rdn_mid {A} (l x k : list A) i n :
  i = zlen l -> n = zlen x -> rdn (l ++ x ++ k) i n = Ok x.
Proof.
  intros -> ->. unfold rdn, zlen.
  rewrite !length_app.
  destruct (Z.ltb_spec (Z.of_nat (length l)) 0); [lia|].
  destruct (Z.ltb_spec (Z.of_nat (length x)) 0); [lia|].
  destruct (Z.ltb_spec (Z.of_nat (length l + (length x + length k)))
              (Z.of_nat (length l) + Z.of_nat (length x))); [lia|]. simpl.
  rewrite !Nat2Z.id. rewrite drop_app_length, take_app_length. done.
Qed.

Lemma wrn_mid {A} (l x y k : list A) i :
  i = zlen l -> length x = length y -> wrn (l ++ x ++ k) i y = Ok (l ++ y ++ k).
Proof.
  intros -> Hl. unfold wrn, zlen. rewrite !length_app.
  destruct (Z.ltb_spec (Z.of_nat (length l)) 0); [lia|].
  destruct (Z.ltb_spec (Z.of_nat (length l + (length x + length k)))
              (Z.of_nat (length l) + Z.of_nat (length y))); [lia|]. simpl.
  rewrite Nat2Z.id, take_app_length, <- Hl, <- length_app, (app_assoc l x k), drop_app_length. done.
Qed.

Lemma rdn_total {A} (m : list A) i n :
  0 <= i -> 0 <= n -> i + n <= zlen m ->
  total (fun bs => zlen bs = n /\ (forall P, Forall P m -> Forall P bs)) (rdn m i n).
Proof.
  intros Hi Hn Hm. unfold rdn, zlen in *.
  destruct (Z.ltb_spec i 0); [lia|]. destruct (Z.ltb_spec n 0); [lia|].
  destruct (Z.ltb_spec (Z.of_nat (length m)) (i + n)); [lia|]. simpl. split.
  - rewrite length_take, length_drop. lia.
  - intros P HP. by apply Forall_take, Forall_drop.
Qed.

Lemma push_ok cap out b : zlen out < cap -> push cap out b = Ok (out ++ [b]).
Proof. intros H. unfold push. by rewrite (proj2 (Z.ltb_lt _ _) H). Qed.

Lemma push_inv cap out b out' :
  push cap out b = Ok out' -> zlen out < cap /\ out' = out ++ [b].
Proof. unfold push. destruct (Z.ltb_spec (zlen out) cap); [|done]. intros [= <-]. done. Qed.

Lemma pushn_ok cap out bs :
  zlen out + zlen bs <= cap -> pushn cap out bs = Ok (out ++ bs).
Proof. intros H. unfold pushn. by rewrite (proj2 (Z.leb_le _ _) H). Qed.

Lemma assert_int_ok x : INT_MIN <= x <= INT_MAX -> assert_int x = Ok tt.
Proof.
  intros H. unfold assert_int, cassert.
  destruct (Z.leb_spec INT_MIN x), (Z.leb_spec x INT_MAX); try lia. done.
Qed.

Lemma add_int_ok a b : INT_MIN <= a + b <= INT_MAX -> add_int a b = Ok (a + b).
Proof. intros H. unfold add_int. by rewrite assert_int_ok. Qed.

Lemma add_int_over a b : a + b < INT_MIN \/ INT_MAX < a + b -> add_int a b = Fault.
Proof.
  intros H. unfold add_int, assert_int, cassert.
  destruct (Z.leb_spec INT_MIN (a + b)), (Z.leb_spec (a + b) INT_MAX); try lia; done.
Qed.

Lemma wr_ok {A} (m : list A) i b :
  0 <= i < zlen m -> wr m i b = Ok (<[Z.to_nat i := b]> m).
Proof.
  intros H. unfold wr. destruct (Z.ltb_spec i 0); [lia|].
  destruct (Z.leb_spec (zlen m) i); [lia|]. done.
Qed.

Lemma wr_mid {A} (l : list A) x k i b : i = zlen l -> wr (l ++ x :: k) i b = Ok (l ++ b :: k).
Proof.
  intros ->. rewrite wr_ok by zl. f_equal. unfold zlen. rewrite Nat2Z.id.
  rewrite insert_app_r_alt by lia. by rewrite Nat.sub_diag.
Qed.

Lemma wr_mid_next {A} (l : list A) x y k i b :
  i = zlen l + 1 -> wr (l ++ x :: y :: k) i b = Ok (l ++ x :: b :: k).
Proof.
  intros ->. change (x :: y :: k) with ([x] ++ y :: k). rewrite app_assoc.
  rewrite wr_mid by zl. by rewrite <- app_assoc.
Qed.

Lemma rd_wr_eq {A} (m : list A) i b : 0 <= i < zlen m -> rd (<[Z.to_nat i := b]> m) i = Ok b.
Proof.
  intros H. unfold rd, zlen in *. destruct (Z.ltb_spec i 0); [lia|].
  rewrite list_lookup_insert_eq; [done|lia].
Qed.

Lemma rd_wr_ne {A} (m : list A) i j b :
  0 <= i -> i <> j -> rd (<[Z.to_nat i := b]> m) j = rd m j.
Proof.
  intros Hi H. unfold rd. destruct (Z.ltb_spec j 0); [done|].
  rewrite list_lookup_insert_ne; [done|lia].
Qed.

(** ** Facts about integers and bits *)

Lemma uwrap_id w x : 0 <= x < 2 ^ w -> uwrap w x = x.
Proof. intros. by apply Z.mod_small. Qed.

Lemma uwrap_range w x : 0 <= w -> 0 <= uwrap w x < 2 ^ w.
Proof. intros. apply Z.mod_pos_bound. lia. Qed.

(** Two bit fields that do not overlap: [|] is [+]. *)
Lemma lor_shiftl_add a b n :
  0 <= n -> 0 <= b < 2 ^ n -> Z.lor (Z.shiftl a n) b = a * 2 ^ n + b.
Proof.
  intros Hn Hb. rewrite <- Z.lxor_lor, <- Z.add_nocarry_lxor, Z.shiftl_mul_pow2; [done|done| |].
  all: apply Z.bits_inj'; intros i Hi; rewrite Z.land_spec, Z.bits_0;
    destruct (Z.lt_ge_cases i n);
    [ rewrite Z.shiftl_spec_low by lia; done
    | replace (Z.testbit b i) with false; [by rewrite andb_false_r|];
      symmetry; rewrite <- (Z.mod_small b (2 ^ n)) by lia; by apply Z.mod_pow2_bits_high ].
Qed.

(** A list seen from its end. *)
Lemma list_last_cases {A} (l : list A) : l = [] \/ exists k x, l = k ++ [x].
Proof. induction l as [|x k _] using rev_ind; eauto. Qed.

Lemma rev_snoc {A} (l : list A) x : rev (l ++ [x]) = x :: rev l.
Proof. apply rev_app_distr. Qed.

(** Prove a fact about every byte by evaluating it. *)
Fixpoint upto (n : nat) : list Z :=
  match n with O => [] | Datatypes.S n => upto n ++ [Z.of_nat n] end.

Lemma upto_spec n z : 0 <= z < Z.of_nat n -> z ∈ upto n.
Proof.
  induction n as [|n IH]; intros H; [lia|]. cbn [upto]. apply elem_of_app.
  destruct (Z.eq_dec z (Z.of_nat n)) as [->|]; [right; by left|left; apply IH; lia].
Qed.

Lemma forall_upto (P : Z -> bool) n :
  forallb P (upto n) = true -> forall z, 0 <= z < Z.of_nat n -> P z = true.
Proof.
  intros H z Hz. rewrite forallb_forall in H. apply H, list_elem_of_In, upto_spec, Hz.
Qed.

(** ** Automation

    [inv_ok] takes apart hypotheses that say that a computation returned;
    [bcase] splits on the boolean guards of the goal, and of the hypotheses,
    leaving the comparison as a proposition. *)

Ltac inv_ok :=
  repeat match goal with
  | H : obind _ _ = Ok _ |- _ =>
      apply obind_ok in H; destruct H as (? & ? & H)
  | H : Ok _ = Ok _ |- _ => injection H as H; subst
  | H : inl _ = inl _ |- _ => injection H as H; subst
  | H : inr _ = inr _ |- _ => injection H as H; subst
  | H : (_, _) = (_, _) |- _ => injection H as H; subst
  | H : Err _ = Ok _ |- _ => discriminate H
  | H : Fault = Ok _ |- _ => discriminate H
  | H : NoFuel = Ok _ |- _ => discriminate H
  | H : rd _ _ = Ok _ |- _ => apply rd_inv in H as [? H]
  | H : push _ _ _ = Ok _ |- _ => apply push_inv in H as [? H]
  end.

Ltac zbool :=
  repeat match goal with
  | H : (_ <? _) = true |- _ => apply Z.ltb_lt in H
  | H : (_ <? _) = false |- _ => apply Z.ltb_ge in H
  | H : (_ <=? _) = true |- _ => apply Z.leb_le in H
  | H : (_ <=? _) = false |- _ => apply Z.leb_gt in H
  | H : (_ =? _) = true |- _ => apply Z.eqb_eq in H
  | H : (_ =? _) = false |- _ => apply Z.eqb_neq in H
  | H : (_ && _) = true |- _ => apply andb_true_iff in H as [? ?]
  | H : (_ || _) = false |- _ => apply orb_false_iff in H as [? ?]
  | H : negb _ = true |- _ => apply negb_true_iff in H
  | H : negb _ = false |- _ => apply negb_false_iff in H
  end.

Ltac bcase :=
  match goal with
  | |- context [if ?b then _ else _] => destruct b eqn:?; zbool
  end.

Ltac bcase_in H :=
  match type of H with
  | context [if ?b then _ else _] => destruct b eqn:?; zbool
  end.

(** Decide the guards whose value follows by arithmetic. *)
Ltac bdecide :=
  repeat match goal with
  | |- context [?a <? ?b] =>
      first [ rewrite (proj2 (Z.ltb_lt a b)) by zl
            | rewrite (proj2 (Z.ltb_ge a b)) by zl ]
  | |- context [?a <=? ?b] =>
      first [ rewrite (proj2 (Z.leb_le a b)) by zl
            | rewrite (proj2 (Z.leb_gt a b)) by zl ]
  | |- context [?a =? ?b] =>
      first [ rewrite (proj2 (Z.eqb_eq a b)) by zl
            | rewrite (proj2 (Z.eqb_neq a b)) by zl ]
  end.

(** Drop a conversion to an unsigned type of a number that fits it, innermost
    first. *)
Ltac uwrap_inner :=
  match goal with
  | |- context [uwrap ?w ?x] =>
      lazymatch x with
      | context [uwrap] => fail
      | _ => rewrite (uwrap_id w x) by lia
      end
  end.

Create HintDb cmem.
#[export] Hint Resolve zlen_nonneg rd_lookup push_ok pushn_ok assert_int_ok wr_ok : cmem.
Create Rewrite HintDb cmem_rw.
#[export] Hint Rewrite @rd_wr_eq @rd_wr_ne using lia : cmem_rw.
