(* ===== verification/IscTree.v ===== *)
(** * isc/tree.c: the AVL tree of the ISC library

    The nodes of [isc/tree.c] (left, data, bal, right) as an inductive type; a
    [tree **] argument becomes the tree that is passed and returned, and the
    flags the functions share through [int *] arguments are threaded.  The
    calls of the user's routine [pfv_uar] / [pfv_delete] are recorded in order
    in a log.  Following a NULL child is a [Fault].

    The theorems: [tree_add] and [tree_delete] never follow a NULL child on a
    well-formed tree, keep the tree height-balanced and ordered, and implement
    insertion into and deletion from the sorted list of the tree's data,
    whether or not an allocation succeeds ([tree_refines]); [tree_srch] finds exactly what that list holds; the
    height of a tree is logarithmic in its size. *)
From Stdlib Require Import ZArith Lia List Bool Sorting.Sorted.
From stdpp Require Import base tactics list numbers sorting.
From S2P Require Import Prelude.
Local Open Scope Z_scope.
Local Open Scope c_scope.

(** What [pfi_compare] must satisfy: the sign of its result is that of a total
    preorder. *)
Class CompareLaws {A : Type} (cmp : A -> A -> Z) : Prop := {
  cmp_antisym : forall a b, Z.sgn (cmp a b) = - Z.sgn (cmp b a);
  cmp_trans : forall a b c, cmp a b < 0 -> cmp b c < 0 -> cmp a c < 0;
  cmp_eq_l : forall a b c, cmp a b = 0 -> Z.sgn (cmp a c) = Z.sgn (cmp b c);
}.

Section Tree.
  Context {A : Type} (pfi_compare : A -> A -> Z).

Inductive tree : Type :=
| E
| T (left : tree) (data : A) (bal : Z) (right : tree).

(** [tree_init]: the empty tree, a NULL root. *)
Definition tree_init : tree := E.

Fixpoint tree_srch (t : tree) (p_user : A) : option A :=
  match t with
  | E => None
  | T l d _ r =>
      let i_comp := pfi_compare p_user d in
      if 0 <? i_comp then tree_srch r p_user
      else if i_comp <? 0 then tree_srch l p_user
      else Some d
  end.

(** [tree_trav]: in-order traversal with a routine that may stop it; the data
    it was called on, and its last answer. *)
Fixpoint tree_trav (t : tree) (pfi_uar : A -> bool) : bool * list A :=
  match t with
  | E => (true, [])
  | T l d _ r =>
      let '(ok1, log1) := tree_trav l pfi_uar in
      if negb ok1 then (false, log1)
      else if negb (pfi_uar d) then (false, log1 ++ [d])
      else
        let '(ok2, log2) := tree_trav r pfi_uar in
        (ok2, log1 ++ d :: log2)
  end.

(** [tree_mung]: frees the tree in post-order; the data [pfv_uar] is called on. *)
Fixpoint tree_mung (t : tree) (pfv_uar : bool) : tree * list A :=
  match t with
  | E => (E, [])
  | T l d _ r =>
      let '(_, log1) := tree_mung l pfv_uar in
      let '(_, log2) := tree_mung r pfv_uar in
      (E, log1 ++ log2 ++ (if pfv_uar then [d] else []))
  end.

(** ** Insertion *)

(** [sprout], after the left subtree has grown: the new subtree and
    [*pi_balance]. *)
Definition sprout_left_grown (l : tree) (d : A) (bal : Z) (r : tree)
  : outcome (tree * bool) :=
  if bal =? 1 then Ok (T l d 0 r, false)
  else if bal =? 0 then Ok (T l d (-1) r, true)
  else if bal =? -1 then
    match l with
    | E => Fault
    | T p1l p1d p1bal p1r =>
        if p1bal =? -1 then               (* LL *)
          Ok (T p1l p1d 0 (T p1r d 0 r), false)
        else                               (* double LR *)
          match p1r with
          | E => Fault
          | T p2l p2d p2bal p2r =>
              let pbal := if p2bal =? -1 then 1 else 0 in
              let p1bal' := if p2bal =? 1 then -1 else 0 in
              Ok (T (T p1l p1d p1bal' p2l) p2d 0 (T p2r d pbal r), false)
          end
    end
  else Ok (T l d bal r, true).

(** The mirror image, after the right subtree has grown. *)
Definition sprout_right_grown (l : tree) (d : A) (bal : Z) (r : tree)
  : outcome (tree * bool) :=
  if bal =? -1 then Ok (T l d 0 r, false)
  else if bal =? 0 then Ok (T l d 1 r, true)
  else if bal =? 1 then
    match r with
    | E => Fault
    | T p1l p1d p1bal p1r =>
        if p1bal =? 1 then                (* RR *)
          Ok (T (T l d 0 p1l) p1d 0 p1r, false)
        else                               (* double RL *)
          match p1l with
          | E => Fault
          | T p2l p2d p2bal p2r =>
              let pbal := if p2bal =? 1 then -1 else 0 in
              let p1bal' := if p2bal =? -1 then 1 else 0 in
              Ok (T (T l d pbal p2l) p2d 0 (T p2r p1d p1bal' p1r), false)
          end
    end
  else Ok (T l d bal r, true).

(** What [sprout] leaves behind: the subtree, whether it returned a node,
    [*pi_balance], and the data given to [pfv_delete]. *)
Record sprouted : Type := Sprouted {
  sp_tree : tree;
  sp_sub : bool;
  sp_balance : bool;
  sp_log : list A;
}.

(** [memget_ok] says whether [memget] has memory for the node; [pi_balance] is
    the flag on entry. *)
Fixpoint sprout (t : tree) (p_data : A) (pi_balance memget_ok pfv_delete : bool)
  : outcome sprouted :=
  match t with
  | E =>
      if memget_ok then Ok (Sprouted (T E p_data 0 E) true true [])
      else Ok (Sprouted E false pi_balance [])
  | T l d bal r =>
      let cmp := pfi_compare p_data d in
      if cmp <? 0 then
        s <- sprout l p_data pi_balance memget_ok pfv_delete;;
        if sp_sub s && sp_balance s then
          p <- sprout_left_grown (sp_tree s) d bal r;;
          Ok (Sprouted p.1 (sp_sub s) p.2 (sp_log s))
        else Ok (Sprouted (T (sp_tree s) d bal r) (sp_sub s) (sp_balance s) (sp_log s))
      else if 0 <? cmp then
        s <- sprout r p_data pi_balance memget_ok pfv_delete;;
        if sp_sub s && sp_balance s then
          p <- sprout_right_grown l d bal (sp_tree s);;
          Ok (Sprouted p.1 (sp_sub s) p.2 (sp_log s))
        else Ok (Sprouted (T l d bal (sp_tree s)) (sp_sub s) (sp_balance s) (sp_log s))
      else
        Ok (Sprouted (T l p_data bal r) true false (if pfv_delete then [d] else []))
  end.

(** [tree_add]: the new tree, the returned data (NULL when there is no
    memory), and the data given to [pfv_uar]. *)
Definition tree_add (t : tree) (p_user : A) (memget_ok pfv_uar : bool)
  : outcome (tree * option A * list A) :=
  s <- sprout t p_user false memget_ok pfv_uar;;
  Ok (sp_tree s, if sp_sub s then Some p_user else None, sp_log s).

(** ** Deletion *)

(** [bal_L]: the left branch has shrunk; [*pi_balance] is TRUE on entry. *)
Definition bal_L (t : tree) : outcome (tree * bool) :=
  match t with
  | E => Fault
  | T l d bal r =>
      if bal =? -1 then Ok (T l d 0 r, true)
      else if bal =? 0 then Ok (T l d 1 r, false)
      else if bal =? 1 then
        match r with
        | E => Fault
        | T p1l p1d b1 p1r =>
            if 0 <=? b1 then               (* single RR *)
              if b1 =? 0 then Ok (T (T l d 1 p1l) p1d (-1) p1r, false)
              else Ok (T (T l d 0 p1l) p1d 0 p1r, true)
            else                            (* double RL *)
              match p1l with
              | E => Fault
              | T p2l p2d b2 p2r =>
                  let pbal := if b2 =? 1 then -1 else 0 in
                  let p1bal := if b2 =? -1 then 1 else 0 in
                  Ok (T (T l d pbal p2l) p2d 0 (T p2r p1d p1bal p1r), true)
              end
        end
      else Ok (t, true)
  end.

(** [bal_R]: the right branch has shrunk. *)
Definition bal_R (t : tree) : outcome (tree * bool) :=
  match t with
  | E => Fault
  | T l d bal r =>
      if bal =? 1 then Ok (T l d 0 r, true)
      else if bal =? 0 then Ok (T l d (-1) r, false)
      else if bal =? -1 then
        match l with
        | E => Fault
        | T p1l p1d b1 p1r =>
            if b1 <=? 0 then               (* single LL *)
              if b1 =? 0 then Ok (T p1l p1d 1 (T p1r d (-1) r), false)
              else Ok (T p1l p1d 0 (T p1r d 0 r), true)
            else                            (* double LR *)
              match p1r with
              | E => Fault
              | T p2l p2d b2 p2r =>
                  let pbal := if b2 =? -1 then 1 else 0 in
                  let p1bal := if b2 =? 1 then -1 else 0 in
                  Ok (T (T p1l p1d p1bal p2l) p2d 0 (T p2r d pbal r), true)
              end
        end
      else Ok (t, true)
  end.

(** [del]: unlinks the rightmost node of [*ppr_r].  The subtree, the data that
    moves into [*ppr_q], and [*pi_balance].  Every call ends in the branch that
    sets [*pi_balance] and [*pi_uar_called] to TRUE. *)
Fixpoint del (t : tree) : outcome (tree * A * bool) :=
  match t with
  | E => Fault
  | T l d bal r =>
      match r with
      | T _ _ _ _ =>
          s <- del r;;
          let '(r', m, pi_balance) := s in
          if (pi_balance : bool) then
            p <- bal_R (T l d bal r');;
            Ok (p.1, m, p.2)
          else Ok (T l d bal r', m, pi_balance)
      | E => Ok (l, d, true)
      end
  end.

(** What [delete] leaves behind: the subtree, its return value, [*pi_balance],
    and the data given to [pfv_uar]. *)
Record deleted : Type := Deleted {
  dl_tree : tree;
  dl_ret : bool;
  dl_balance : bool;
  dl_log : list A;
}.

(** [i_uar_called] is FALSE whenever the node is found: only [del] sets it, on
    behalf of the node whose data it overwrites. *)
Fixpoint delete (t : tree) (p_user : A) (pfv_uar pi_balance : bool) : outcome deleted :=
  match t with
  | E => Ok (Deleted E false pi_balance [])
  | T l d bal r =>
      let i_comp := pfi_compare d p_user in
      if 0 <? i_comp then
        s <- delete l p_user pfv_uar pi_balance;;
        if dl_balance s then
          p <- bal_L (T (dl_tree s) d bal r);;
          Ok (Deleted p.1 (dl_ret s) p.2 (dl_log s))
        else Ok (Deleted (T (dl_tree s) d bal r) (dl_ret s) (dl_balance s) (dl_log s))
      else if i_comp <? 0 then
        s <- delete r p_user pfv_uar pi_balance;;
        if dl_balance s then
          p <- bal_R (T l d bal (dl_tree s));;
          Ok (Deleted p.1 (dl_ret s) p.2 (dl_log s))
        else Ok (Deleted (T l d bal (dl_tree s)) (dl_ret s) (dl_balance s) (dl_log s))
      else
        let log := if pfv_uar then [d] else [] in
        match r, l with
        | E, _ => Ok (Deleted l true true log)
        | _, E => Ok (Deleted r true true log)
        | _, _ =>
            s <- del l;;
            let '(l', m, bal_flag) := s in
            if (bal_flag : bool) then
              p <- bal_L (T l' m bal r);;
              Ok (Deleted p.1 true p.2 log)
            else Ok (Deleted (T l' m bal r) true bal_flag log)
        end
  end.

Definition tree_delete (t : tree) (p_user : A) (pfv_uar : bool)
  : outcome (tree * bool * list A) :=
  s <- delete t p_user pfv_uar false;;
  Ok (dl_tree s, dl_ret s, dl_log s).

(** ** Specification *)

(** The data of a tree in order. *)
Fixpoint inorder (t : tree) : list A :=
  match t with
  | E => []
  | T l d _ r => inorder l ++ d :: inorder r
  end.

(** [avl t h]: [t] has height [h], every [bal] field is the difference of the
    heights of its children, and that difference is at most one. *)
Inductive avl : tree -> Z -> Prop :=
| avl_E : avl E 0
| avl_T l d b r hl hr :
    avl l hl -> avl r hr -> b = hr - hl -> -1 <= b <= 1 ->
    avl (T l d b r) (1 + Z.max hl hr).

Definition before (a b : A) : Prop := pfi_compare a b < 0.

Definition wf (t : tree) : Prop :=
  (exists h, avl t h) /\ StronglySorted before (inorder t).

(** The sorted list that a tree implements. *)
Fixpoint linsert (x : A) (l : list A) : list A :=
  match l with
  | [] => [x]
  | y :: l' =>
      if pfi_compare x y <? 0 then x :: l
      else if 0 <? pfi_compare x y then y :: linsert x l'
      else x :: l'
  end.

Definition lfind (x : A) (l : list A) : option A :=
  List.find (fun y => pfi_compare x y =? 0) l.

Definition lremove (x : A) (l : list A) : list A :=
  List.filter (fun y => negb (pfi_compare x y =? 0)) l.
End Tree.

Arguments E {A}.
Arguments T {A} left data bal right.
Arguments tree_init {A}.
Arguments avl {A} _ _.
Arguments inorder {A} !t.

Create HintDb isc_tree.

Section TreeHeight.
  Context {A : Type}.
  Implicit Types (t l r : tree (A:=A)) (d : A).

Lemma avl_node l r d b hl hr h :
  avl l hl -> avl r hr -> b = hr - hl -> -1 <= b <= 1 -> h = 1 + Z.max hl hr ->
  avl (T l d b r) h.
Proof. intros ? ? ? ? ->. by constructor. Qed.

Lemma avl_height_nonneg t h : avl t h -> 0 <= h.
Proof. induction 1; lia. Qed.

Lemma avl_leaf_height t h : avl t h -> h = 0 -> t = E.
Proof. destruct 1 as [|? ? ? ? ? ? H1 H2]; [done|].
  apply avl_height_nonneg in H1, H2. lia. Qed.

(** A subtree that has grown is a fresh leaf or leans to one side. *)
Definition leans t : Prop :=
  match t with
  | E => False
  | T l _ b r => b <> 0 \/ (l = E /\ r = E)
  end.

(** Take well-formedness apart down to the nodes the code looks at. *)
Ltac avl_inv :=
  repeat match goal with
  | H : avl E _ |- _ => inversion H; clear H; subst
  | H : avl (T _ _ _ _) _ |- _ => inversion H; clear H; subst
  end.

Ltac avl_pos :=
  repeat match goal with
  | H : avl ?t ?h |- _ =>
      lazymatch goal with
      | _ : 0 <= h |- _ => fail
      | _ => pose proof (avl_height_nonneg t h H)
      end
  end.

Ltac avl_build := repeat (eapply avl_node; try eassumption); try (done || lia).

Ltac inorder_eq := cbn; repeat (rewrite <- app_assoc; cbn); done.

Lemma sprout_left_grown_spec l d bal r hl hr :
  avl l (hl + 1) -> avl r hr -> bal = hr - hl -> -1 <= bal <= 1 ->
  leans l ->
  total (fun p => avl p.1 (1 + Z.max hl hr + Z.b2z p.2) /\
                  inorder p.1 = inorder l ++ d :: inorder r /\
                  (p.2 = true -> leans p.1))
        (sprout_left_grown l d bal r).
Proof.
  intros Hl Hr Hb Hb1 Hln. unfold sprout_left_grown.
  repeat (bcase; cbn [total fst snd]); try (zbool; lia).
  1,2: repeat split; [avl_build; simpl; lia|intros; simpl in *; try lia; done].
  destruct l as [|p1l p1d p1b p1r]; [done|]. cbn in Hln.
  repeat (bcase; cbn [total fst snd]).
  - avl_inv. repeat split; [avl_build; simpl; lia|inorder_eq|done].
  - destruct p1r as [|p2l p2d p2b p2r]; cbn [total fst snd]; avl_inv; avl_pos.
    + destruct Hln as [?|[-> ?]]; avl_inv; lia.
    + repeat split; [|inorder_eq|done].
      destruct Hln as [?|[? ?]]; [|done].
      avl_build; repeat case_match; zbool; simpl; lia.
Qed.

Lemma sprout_right_grown_spec l d bal r hl hr :
  avl l hl -> avl r (hr + 1) -> bal = hr - hl -> -1 <= bal <= 1 ->
  leans r ->
  total (fun p => avl p.1 (1 + Z.max hl hr + Z.b2z p.2) /\
                  inorder p.1 = inorder l ++ d :: inorder r /\
                  (p.2 = true -> leans p.1))
        (sprout_right_grown l d bal r).
Proof.
  intros Hl Hr Hb Hb1 Hln. unfold sprout_right_grown.
  repeat (bcase; cbn [total fst snd]); try (zbool; lia).
  1,2: repeat split; [avl_build; simpl; lia|intros; simpl in *; try lia; done].
  destruct r as [|p1l p1d p1b p1r]; [done|]. cbn in Hln.
  repeat (bcase; cbn [total fst snd]).
  - avl_inv. repeat split; [avl_build; simpl; lia|inorder_eq|done].
  - destruct p1l as [|p2l p2d p2b p2r]; cbn [total fst snd]; avl_inv; avl_pos.
    + destruct Hln as [?|[? ->]]; avl_inv; lia.
    + repeat split; [|inorder_eq|done].
      destruct Hln as [?|[? ?]]; [|done].
      avl_build; repeat case_match; zbool; simpl; lia.
Qed.

(** The left subtree has lost one level: [bal] still describes the old one. *)
Lemma bal_L_spec l d bal r hl hr :
  avl l (hl - 1) -> avl r hr -> bal = hr - hl -> -1 <= bal <= 1 ->
  total (fun p => avl p.1 (1 + Z.max hl hr - Z.b2z p.2) /\
                  inorder p.1 = inorder l ++ d :: inorder r)
        (bal_L (T l d bal r)).
Proof.
  intros Hl Hr Hb Hb1. unfold bal_L.
  repeat (bcase; cbn [total fst snd]); try (zbool; lia).
  1,2: split; [avl_build; simpl; lia|done].
  destruct r as [|p1l p1d p1b p1r]; [avl_inv; avl_pos; lia|].
  repeat (bcase; cbn [total fst snd]).
  1,2: avl_inv; avl_pos; split; [avl_build; simpl; lia|inorder_eq].
  destruct p1l as [|p2l p2d p2b p2r]; cbn [total fst snd]; avl_inv; avl_pos; [lia|].
  split; [|inorder_eq].
  avl_build; repeat case_match; zbool; simpl; lia.
Qed.

Lemma bal_R_spec l d bal r hl hr :
  avl l hl -> avl r (hr - 1) -> bal = hr - hl -> -1 <= bal <= 1 ->
  total (fun p => avl p.1 (1 + Z.max hl hr - Z.b2z p.2) /\
                  inorder p.1 = inorder l ++ d :: inorder r)
        (bal_R (T l d bal r)).
Proof.
  intros Hl Hr Hb Hb1. unfold bal_R.
  repeat (bcase; cbn [total fst snd]); try (zbool; lia).
  1,2: split; [avl_build; simpl; lia|done].
  destruct l as [|p1l p1d p1b p1r]; [avl_inv; avl_pos; lia|].
  repeat (bcase; cbn [total fst snd]).
  1,2: avl_inv; avl_pos; split; [avl_build; simpl; lia|inorder_eq].
  destruct p1r as [|p2l p2d p2b p2r]; cbn [total fst snd]; avl_inv; avl_pos; [lia|].
  split; [|inorder_eq].
  avl_build; repeat case_match; zbool; simpl; lia.
Qed.

(** [del] takes the last datum of the tree off. *)
Lemma del_spec t h :
  avl t h -> t <> E ->
  total (fun s => let '(t', m, b) := s in
                  avl t' (h - Z.b2z b) /\ inorder t = inorder t' ++ [m])
        (del t).
Proof.
  intros Ht. induction Ht as [|l d b r hl hr Hl IHl Hr IHr Hb Hb1]; [done|]. intros _.
  cbn [del]. destruct r as [|rl rd rb rr].
  - avl_inv. cbn [total]. split; [|done]. replace (1 + _ - _) with hl; [done|].
    apply avl_height_nonneg in Hl. simpl. lia.
  - apply total_bind. eapply total_mono; [by apply IHr|].
    intros [[r' m] []] [Hr' Hin].
    + apply total_bind.
      eapply total_mono; [by apply (bal_R_spec l d b r' hl hr)|].
      intros [p bp] [Hp Hpin]. cbn [total fst snd] in *. split; [done|].
      rewrite Hpin, <- app_assoc. cbn [inorder app] in *. by rewrite Hin.
    + cbn [total]. split.
      * eapply avl_node; eauto; simpl in *; lia.
      * cbn [inorder] in *. rewrite Hin, <- app_assoc. done.
Qed.
End TreeHeight.

#[export] Hint Constructors avl : isc_tree.

Section TreeOrder.
  Context {A : Type} (cmp : A -> A -> Z) `{Hcmp : !CompareLaws cmp}.
  Implicit Types (t : tree (A:=A)) (d x y : A) (l r : list A).
  Notation "a ≺ b" := (before cmp a b) (at level 70).

(** The laws of the comparison, in the forms [lia] uses. *)
Lemma cmp_gt_lt a b : 0 < cmp a b <-> cmp b a < 0.
Proof. pose proof (cmp_antisym a b). lia. Qed.

Lemma cmp_eq_sym a b : cmp a b = 0 <-> cmp b a = 0.
Proof. pose proof (cmp_antisym a b). lia. Qed.

Lemma before_gt y d x : y ≺ d -> 0 < cmp x d -> 0 < cmp x y.
Proof.
  unfold before. rewrite !cmp_gt_lt. intros. by eapply cmp_trans.
Qed.

Lemma before_eq y d x : y ≺ d -> cmp x d = 0 -> 0 < cmp x y.
Proof.
  unfold before. intros H1 H2. pose proof (cmp_eq_l x d y H2).
  pose proof (cmp_antisym d y). lia.
Qed.

Lemma after_lt y d x : d ≺ y -> cmp x d < 0 -> cmp x y < 0.
Proof. unfold before. intros. by eapply cmp_trans. Qed.

Lemma after_eq y d x : d ≺ y -> cmp x d = 0 -> cmp x y < 0.
Proof. unfold before. intros H1 H2. pose proof (cmp_eq_l x d y H2). lia. Qed.

#[local] Hint Resolve before_gt before_eq after_lt after_eq : isc_tree.

(** A sorted list around one of its elements. *)
Definition around (l : list A) d (r : list A) : Prop :=
  Forall (fun y => y ≺ d) l /\ Forall (fun y => d ≺ y) r.

Lemma sorted_around l d r :
  StronglySorted (before cmp) (l ++ d :: r) <->
  around l d r /\ StronglySorted (before cmp) l /\ StronglySorted (before cmp) r.
Proof.
  rewrite StronglySorted_app. unfold around. rewrite !Forall_forall. split.
  - intros (Hlr & Hl & Hr). inversion Hr as [|? ? Hr' Hd]; subst.
    rewrite Forall_forall in Hd. repeat split; try done.
    intros y Hy. apply Hlr; [done|by left].
  - intros ([Hld Hdr] & Hl & Hr). repeat split; try done.
    + intros y z Hy [->|Hz]%elem_of_cons; [auto|].
      eapply cmp_trans; [apply Hld, Hy|apply Hdr, Hz].
    + constructor; [done|]. by rewrite Forall_forall.
Qed.

(** Insertion into a sorted list on either side of [d]. *)
Lemma linsert_left x l d r :
  cmp x d < 0 -> linsert cmp x (l ++ d :: r) = linsert cmp x l ++ d :: r.
Proof.
  intros Hx. induction l as [|y l IH]; simpl.
  - bdecide. done.
  - repeat bcase; rewrite ?IH; done.
Qed.

Lemma linsert_right x l d r :
  0 < cmp x d -> Forall (fun y => y ≺ d) l ->
  linsert cmp x (l ++ d :: r) = l ++ d :: linsert cmp x r.
Proof.
  intros Hx. induction 1 as [|y l Hy Hl IH]; simpl.
  - bdecide. done.
  - pose proof (before_gt _ _ _ Hy Hx). bdecide. by rewrite IH.
Qed.

Lemma linsert_here x l d r :
  cmp x d = 0 -> Forall (fun y => y ≺ d) l ->
  linsert cmp x (l ++ d :: r) = l ++ x :: r.
Proof.
  intros Hx. induction 1 as [|y l Hy Hl IH]; simpl.
  - bdecide. done.
  - pose proof (before_eq _ _ _ Hy Hx). bdecide. by rewrite IH.
Qed.

(** Search. *)
Lemma find_none_Forall (p : A -> bool) l :
  Forall (fun y => p y = false) l -> List.find p l = None.
Proof. induction 1 as [|y l Hy Hl IH]; simpl; [done|]. by rewrite Hy. Qed.

Lemma find_app_none (p : A -> bool) l k :
  Forall (fun y => p y = false) l -> List.find p (l ++ k) = List.find p k.
Proof. induction 1 as [|y l Hy Hl IH]; simpl; [done|]. by rewrite Hy. Qed.

Lemma filter_all (p : A -> bool) l :
  Forall (fun y => p y = true) l -> List.filter p l = l.
Proof. induction 1 as [|y l Hy Hl IH]; simpl; [done|]. by rewrite Hy, IH. Qed.

Lemma find_app_first (p : A -> bool) l k :
  Forall (fun y => p y = false) k -> List.find p (l ++ k) = List.find p l.
Proof.
  intros Hk. induction l as [|y l IH]; simpl; [by apply find_none_Forall|].
  by destruct (p y).
Qed.

(** What the three outcomes of a comparison say about both sides of a node. *)
Lemma around_lt x l d r :
  around l d r -> cmp x d < 0 -> Forall (fun y => cmp x y < 0) (d :: r).
Proof.
  intros [_ Hr] Hx. constructor; [done|].
  eapply Forall_impl; [apply Hr|]. intros y Hy. cbn in Hy. eauto with isc_tree.
Qed.

Lemma around_gt x l d r :
  around l d r -> 0 < cmp x d -> Forall (fun y => 0 < cmp x y) (l ++ [d]).
Proof.
  intros [Hl _] Hx. apply Forall_app_2; [|by repeat constructor].
  eapply Forall_impl; [apply Hl|]. intros y Hy. cbn in Hy. eauto with isc_tree.
Qed.

Lemma around_eq x l d r :
  around l d r -> cmp x d = 0 ->
  Forall (fun y => 0 < cmp x y) l /\ Forall (fun y => cmp x y < 0) r.
Proof.
  intros [Hl Hr] Hx. split; (eapply Forall_impl; [eassumption|]); intros y Hy; cbn in Hy; eauto with isc_tree.
Qed.
End TreeOrder.

Section TreeCorrect.
  Context {A : Type} (cmp : A -> A -> Z) `{Hcmp : !CompareLaws cmp}.
  Implicit Types (t : tree (A:=A)) (d x y : A) (l r : list A).

(** The data the user's routine sees when [o] leaves the tree. *)
Definition uar_log (uar : bool) (o : option A) : list A :=
  match o with Some a => if uar then [a] else [] | None => [] end.

(** The sorted-list operations at a node, by the outcome of the comparison. *)
Lemma lfind_left x l d r :
  around cmp l d r -> cmp x d < 0 -> lfind cmp x (l ++ d :: r) = lfind cmp x l.
Proof.
  intros Ha Hx. apply find_app_first.
  eapply Forall_impl; [by eapply around_lt|]. intros y Hy. cbn in Hy. by bdecide.
Qed.

Lemma lfind_right x l d r :
  around cmp l d r -> 0 < cmp x d -> lfind cmp x (l ++ d :: r) = lfind cmp x r.
Proof.
  intros Ha Hx. unfold lfind. change (d :: r) with ([d] ++ r). rewrite app_assoc.
  apply find_app_none.
  eapply Forall_impl; [by eapply around_gt|]. intros y Hy. cbn in Hy. by bdecide.
Qed.

Lemma lfind_here x l d r :
  around cmp l d r -> cmp x d = 0 -> lfind cmp x (l ++ d :: r) = Some d.
Proof.
  intros Ha Hx. destruct (around_eq cmp _ _ _ _ Ha Hx) as [Hl _].
  unfold lfind. rewrite find_app_none; [cbn; by bdecide|].
  eapply Forall_impl; [apply Hl|]. intros y Hy. cbn in Hy. by bdecide.
Qed.

Lemma lremove_left x l d r :
  around cmp l d r -> cmp x d < 0 -> lremove cmp x (l ++ d :: r) = lremove cmp x l ++ d :: r.
Proof.
  intros Ha Hx. unfold lremove. rewrite List.filter_app. f_equal. apply filter_all.
  eapply Forall_impl; [by eapply around_lt|]. intros y Hy. cbn in Hy. by bdecide.
Qed.

Lemma lremove_right x l d r :
  around cmp l d r -> 0 < cmp x d -> lremove cmp x (l ++ d :: r) = l ++ d :: lremove cmp x r.
Proof.
  intros Ha Hx. unfold lremove. change (d :: r) with ([d] ++ r). rewrite app_assoc.
  rewrite List.filter_app, filter_all; [by rewrite <- app_assoc|].
  eapply Forall_impl; [by eapply around_gt|]. intros y Hy. cbn in Hy. by bdecide.
Qed.

Lemma lremove_here x l d r :
  around cmp l d r -> cmp x d = 0 -> lremove cmp x (l ++ d :: r) = l ++ r.
Proof.
  intros Ha Hx. destruct (around_eq cmp _ _ _ _ Ha Hx) as [Hl Hr].
  unfold lremove. rewrite List.filter_app. cbn. bdecide. cbn. f_equal; apply filter_all.
  - eapply Forall_impl; [apply Hl|]. intros y Hy. cbn in Hy. by bdecide.
  - eapply Forall_impl; [apply Hr|]. intros y Hy. cbn in Hy. by bdecide.
Qed.

Lemma sprout_spec t h x pi_balance uar :
  avl t h -> StronglySorted (before cmp) (inorder t) ->
  total (fun s =>
    sp_sub s = true /\
    avl (sp_tree s) (h + Z.b2z (sp_balance s)) /\
    inorder (sp_tree s) = linsert cmp x (inorder t) /\
    (sp_balance s = true -> leans (sp_tree s)) /\
    sp_log s = uar_log uar (lfind cmp x (inorder t)))
  (sprout cmp t x pi_balance true uar).
Proof.
  intros Ht. induction Ht as [|l d b r hl hr Hl IHl Hr IHr Hb Hb1]; intros Hs.
  - cbn. repeat split; [by apply (avl_node _ _ _ _ 0 0); auto with isc_tree|auto].
  - cbn [inorder] in Hs. apply sorted_around in Hs as (Ha & Hsl & Hsr); [|done].
    cbn [sprout inorder]. bcase; [|bcase].
    + rewrite linsert_left, lfind_left by done.
      apply total_bind. eapply total_mono; [by apply IHl|].
      intros s (Hsub & Havl & Hin & Hln & Hlog). rewrite Hsub. cbn [andb].
      destruct (sp_balance s) eqn:Eb.
      * apply total_bind.
        eapply total_mono; [by apply (sprout_left_grown_spec _ d b r hl hr); auto|].
        intros p (Hp & Hpin & Hpln). cbn. repeat split; try done. by rewrite Hpin, Hin.
      * cbn. repeat split; try done; [|by rewrite Hin]. simpl in Havl.
        eapply avl_node; eauto; lia.
    + rewrite linsert_right, lfind_right by (done || apply Ha).
      apply total_bind. eapply total_mono; [by apply IHr|].
      intros s (Hsub & Havl & Hin & Hln & Hlog). rewrite Hsub. cbn [andb].
      destruct (sp_balance s) eqn:Eb.
      * apply total_bind.
        eapply total_mono; [by apply (sprout_right_grown_spec l d b _ hl hr); auto|].
        intros p (Hp & Hpin & Hpln). cbn. repeat split; try done. by rewrite Hpin, Hin.
      * cbn. repeat split; try done; [|by rewrite Hin]. simpl in Havl.
        eapply avl_node; eauto; lia.
    + rewrite linsert_here, lfind_here by (lia || done || apply Ha).
      cbn. repeat split; try done. eapply avl_node; eauto; lia.
Qed.

(** Without memory for a new node only an existing datum is replaced. *)
Lemma sprout_nomem t x uar :
  StronglySorted (before cmp) (inorder t) -> lfind cmp x (inorder t) = None ->
  sprout cmp t x false false uar = Ok (Sprouted t false false []).
Proof.
  induction t as [|l IHl d b r IHr]; intros Hs Hf; [done|].
  cbn [inorder] in Hs, Hf. apply sorted_around in Hs as (Ha & Hsl & Hsr); [|done].
  cbn [sprout]. bcase; [|bcase].
  - rewrite lfind_left in Hf by done. by rewrite IHl.
  - rewrite lfind_right in Hf by done. by rewrite IHr.
  - rewrite lfind_here in Hf; [done|done|lia].
Qed.

(** A datum that is replaced needs no memory. *)
Lemma sprout_found t x pi_balance memget_ok uar :
  StronglySorted (before cmp) (inorder t) -> is_Some (lfind cmp x (inorder t)) ->
  sprout cmp t x pi_balance memget_ok uar = sprout cmp t x pi_balance true uar.
Proof.
  induction t as [|l IHl d b r IHr]; intros Hs Hf; [by destruct Hf|].
  cbn [inorder] in Hs, Hf. apply sorted_around in Hs as (Ha & Hsl & Hsr); [|done].
  cbn [sprout]. bcase; [|bcase]; [| |done].
  - rewrite lfind_left in Hf by done. by rewrite IHl.
  - rewrite lfind_right in Hf by done. by rewrite IHr.
Qed.

Lemma delete_spec t h x uar :
  avl t h -> StronglySorted (before cmp) (inorder t) ->
  total (fun s =>
    avl (dl_tree s) (h - Z.b2z (dl_balance s)) /\
    inorder (dl_tree s) = lremove cmp x (inorder t) /\
    dl_ret s = bool_decide (is_Some (lfind cmp x (inorder t))) /\
    dl_log s = uar_log uar (lfind cmp x (inorder t)))
  (delete cmp t x uar false).
Proof.
  intros Ht. induction Ht as [|l d b r hl hr Hl IHl Hr IHr Hb Hb1]; intros Hs.
  { cbn. repeat split; auto with isc_tree. }
  cbn [inorder] in Hs. apply sorted_around in Hs as (Ha & Hsl & Hsr); [|done].
  cbn [delete inorder]. bcase; [|bcase].
  - rewrite lremove_left, lfind_left by (done || by apply cmp_gt_lt).
    apply total_bind. eapply total_mono; [by apply IHl|].
    intros s (Havl & Hin & Hret & Hlog). destruct (dl_balance s) eqn:Eb.
    + apply total_bind.
      eapply total_mono; [by apply (bal_L_spec _ d b r hl hr); auto|].
      intros p (Hp & Hpin). cbn. repeat split; try done. by rewrite Hpin, Hin.
    + cbn. repeat split; try done; [|by rewrite Hin]. simpl in Havl.
      eapply avl_node; eauto; lia.
  - rewrite lremove_right, lfind_right by (done || by apply cmp_gt_lt).
    apply total_bind. eapply total_mono; [by apply IHr|].
    intros s (Havl & Hin & Hret & Hlog). destruct (dl_balance s) eqn:Eb.
    + apply total_bind.
      eapply total_mono; [by apply (bal_R_spec l d b _ hl hr); auto|].
      intros p (Hp & Hpin). cbn. repeat split; try done. by rewrite Hpin, Hin.
    + cbn. repeat split; try done; [|by rewrite Hin]. simpl in Havl.
      eapply avl_node; eauto; lia.
  - assert (Hx : cmp x d = 0) by (apply cmp_eq_sym; [done|lia]).
    rewrite lremove_here, lfind_here by done.
    pose proof (avl_height_nonneg _ _ Hl). pose proof (avl_height_nonneg _ _ Hr).
    destruct r as [|rl rd rb rr]; [|destruct l as [|ll ld lb lr]].
    + inversion Hr; subst. cbn. rewrite app_nil_r. repeat split; try done.
      replace (1 + _ - _) with hl by lia. done.
    + inversion Hl; subst. cbn [total dl_tree dl_balance Z.b2z]. repeat split; try done.
      replace (1 + _ - _) with hr by lia. done.
    + apply total_bind. eapply total_mono; [by eapply del_spec|].
      intros [[l' m] []] [Hl' Hin].
      * apply total_bind. eapply total_mono; [by eapply bal_L_spec|].
        intros p (Hp & Hpin). cbn [total dl_tree dl_balance dl_ret dl_log].
        repeat split; try done. cbn [inorder] in *. rewrite Hpin, Hin, <- app_assoc. done.
      * cbn [total dl_tree dl_balance dl_ret dl_log]. repeat split; try done.
        -- cbn [Z.b2z] in *. eapply avl_node; eauto; lia.
        -- cbn [inorder] in Hin |- *. rewrite Hin, <- app_assoc. done.
Qed.

Lemma tree_srch_spec t x :
  StronglySorted (before cmp) (inorder t) -> tree_srch cmp t x = lfind cmp x (inorder t).
Proof.
  induction t as [|l IHl d b r IHr]; intros Hs; [done|].
  cbn [inorder] in Hs. apply sorted_around in Hs as (Ha & Hsl & Hsr); [|done].
  cbn [tree_srch inorder]. bcase; [|bcase].
  - by rewrite lfind_right, IHr.
  - by rewrite lfind_left, IHl.
  - symmetry. apply lfind_here; [done|lia].
Qed.
End TreeCorrect.

(** ** The store a tree implements

    [SortedStore] is what the users of the tree rely on: a store of data, at
    most one per key, that implements the sorted list [store_elems].  An
    insertion is given the answer of the allocator: without memory only a
    datum whose key is there already is stored. *)

Definition storable {A} (cmp : A -> A -> Z) (memget_ok : bool) (x : A) (l : list A) : bool :=
  memget_ok || bool_decide (is_Some (lfind cmp x l)).

Definition lput {A} (cmp : A -> A -> Z) (memget_ok : bool) (x : A) (l : list A) : list A :=
  if storable cmp memget_ok x l then linsert cmp x l else l.

Class SortedStore {A : Type} (cmp : A -> A -> Z) (C : Type) := {
  store_elems : C -> list A;
  store_wf : C -> Prop;
  store_add : C -> bool -> A -> outcome C;
  store_remove : C -> A -> outcome C;
  store_find : C -> A -> option A;
  store_sorted : forall c, store_wf c -> StronglySorted (before cmp) (store_elems c);
  store_add_ok : forall c ok x, store_wf c ->
    total (fun c' => store_wf c' /\ store_elems c' = lput cmp ok x (store_elems c))
          (store_add c ok x);
  store_remove_ok : forall c x, store_wf c ->
    total (fun c' => store_wf c' /\ store_elems c' = lremove cmp x (store_elems c))
          (store_remove c x);
  store_find_ok : forall c x, store_wf c ->
    store_find c x = lfind cmp x (store_elems c);
}.

Inductive store_op (A : Type) : Type :=
| OpAdd (memget_ok : bool) (x : A)
| OpRemove (x : A).
Arguments OpAdd {A} memget_ok x.
Arguments OpRemove {A} x.

Section Store.
  Context {A : Type} (cmp : A -> A -> Z) `{Hcmp : !CompareLaws cmp}.
  Implicit Types (t : tree (A:=A)) (x y : A) (l : list A).

Lemma linsert_Forall (P : A -> Prop) x l : P x -> Forall P l -> Forall P (linsert cmp x l).
Proof.
  intros Hx. induction 1 as [|y l Hy Hl IH]; simpl; [by repeat constructor|].
  repeat bcase; repeat constructor; auto.
Qed.

Lemma linsert_sorted x l :
  StronglySorted (before cmp) l -> StronglySorted (before cmp) (linsert cmp x l).
Proof.
  induction 1 as [|y l Hl IH Hy]; simpl; [by repeat constructor|].
  repeat bcase.
  - constructor; [by constructor|]. constructor; [done|].
    eapply Forall_impl; [apply Hy|]. intros z Hz. cbn in Hz. by eapply after_lt.
  - constructor; [done|]. apply linsert_Forall; [|done]. by apply cmp_gt_lt.
  - constructor; [done|].
    eapply Forall_impl; [apply Hy|]. intros z Hz. cbn in Hz. eapply after_eq; eauto; lia.
Qed.

Lemma lremove_sorted x l :
  StronglySorted (before cmp) l -> StronglySorted (before cmp) (lremove cmp x l).
Proof.
  induction 1 as [|y l Hl IH Hy]; simpl; [constructor|].
  destruct (negb _); [|done]. constructor; [done|].
  apply List.Forall_forall. intros z Hz. apply filter_In in Hz as [Hz _].
  by eapply List.Forall_forall in Hy.
Qed.

(** Lookup after insertion and removal: a finite map up to the comparison. *)
Lemma lfind_linsert x y l :
  StronglySorted (before cmp) l ->
  lfind cmp y (linsert cmp x l) = if cmp y x =? 0 then Some x else lfind cmp y l.
Proof.
  intros Hs. induction Hs as [|z l Hl IH Hz]; simpl; [done|].
  destruct (Z.ltb_spec (cmp x z) 0); [simpl; by destruct (Z.eqb_spec (cmp y x) 0)|].
  destruct (Z.ltb_spec 0 (cmp x z)); simpl.
  - rewrite IH. destruct (Z.eqb_spec (cmp y z) 0) as [Hyz|], (Z.eqb_spec (cmp y x) 0) as [Hyx|]; auto.
    exfalso. apply (cmp_eq_sym cmp) in Hyz. pose proof (cmp_eq_l y x z Hyx).
    pose proof (cmp_antisym y z). lia.
  - unfold lfind. simpl.
    destruct (Z.eqb_spec (cmp y x) 0) as [Hyx|Hyx]; [done|].
    destruct (Z.eqb_spec (cmp y z) 0) as [Hyz|]; [|done].
    exfalso. apply Hyx. assert (Hxz : cmp x z = 0) by lia.
    pose proof (cmp_eq_l y z x Hyz). pose proof (cmp_antisym x z). lia.
Qed.

Lemma lfind_lremove x y l :
  lfind cmp y (lremove cmp x l) = if cmp y x =? 0 then None else lfind cmp y l.
Proof.
  induction l as [|z l IH]; simpl; [by case_match|].
  destruct (Z.eqb_spec (cmp x z) 0) as [Hxz|Hxz]; simpl; rewrite IH; clear IH.
  - destruct (Z.eqb_spec (cmp y x) 0) as [|Hyx]; [done|].
    destruct (Z.eqb_spec (cmp y z) 0) as [Hyz|]; [|done]. exfalso.
    pose proof (cmp_eq_l y z x Hyz). pose proof (cmp_antisym x z). lia.
  - destruct (Z.eqb_spec (cmp y z) 0) as [Hyz|]; [|done].
    destruct (Z.eqb_spec (cmp y x) 0) as [Hyx|]; [|done]. exfalso.
    pose proof (cmp_eq_l y x z Hyx). lia.
Qed.

Context {C : Type} `{!SortedStore cmp C}.

(** A sequence of operations on a store, and on the list it implements. *)
Fixpoint store_run (ops : list (store_op A)) (c : C) : outcome C :=
  match ops with
  | [] => Ok c
  | OpAdd ok x :: ops => c' <- store_add c ok x;; store_run ops c'
  | OpRemove x :: ops => c' <- store_remove c x;; store_run ops c'
  end.

Definition list_run (ops : list (store_op A)) (l : list A) : list A :=
  fold_left (fun l op => match op with
                         | OpAdd ok x => lput cmp ok x l
                         | OpRemove x => lremove cmp x l
                         end) ops l.

Lemma store_run_ok ops c :
  store_wf c ->
  total (fun c' => store_wf c' /\ store_elems c' = list_run ops (store_elems c))
        (store_run ops c).
Proof.
  revert c. induction ops as [|[ok x|x] ops IH]; intros c Hc; [done| |].
  - cbn [store_run]. apply total_bind. eapply total_mono; [by apply store_add_ok|].
    intros c' [Hc' He]. eapply total_mono; [by apply IH|]. intros c'' [? ->]. by rewrite He.
  - cbn [store_run]. apply total_bind. eapply total_mono; [by apply store_remove_ok|].
    intros c' [Hc' He]. eapply total_mono; [by apply IH|]. intros c'' [? ->]. by rewrite He.
Qed.
End Store.

Section TreeTheorems.
  Context {A : Type} (cmp : A -> A -> Z) `{Hcmp : !CompareLaws cmp}.
  Implicit Types (t : tree (A:=A)) (x y : A).

Lemma tree_add_total t x memget_ok uar :
  wf cmp t ->
  total (fun p => p.1.2 = (if storable cmp memget_ok x (inorder t) then Some x else None) /\
                  p.2 = uar_log uar (lfind cmp x (inorder t)) /\
                  wf cmp p.1.1 /\ inorder p.1.1 = lput cmp memget_ok x (inorder t) /\
                  (storable cmp memget_ok x (inorder t) = false -> p.1.1 = t))
        (tree_add cmp t x memget_ok uar).
Proof.
  intros [[h Ht] Hs]. unfold lput. destruct (storable _ _ _ _) eqn:Hst.
  - assert (E : sprout cmp t x false memget_ok uar = sprout cmp t x false true uar).
    { destruct memget_ok; [done|]. apply (sprout_found cmp); [done|]. by apply bool_decide_eq_true in Hst. }
    unfold tree_add. rewrite E. apply total_bind.
    eapply total_mono; [by apply (sprout_spec cmp t h)|].
    intros s (Hsub & Havl & Hin & _ & Hlog). cbn. rewrite Hsub.
    split_and!; [done|done|split; [eauto|rewrite Hin; by apply linsert_sorted]|done|done].
  - apply orb_false_iff in Hst as [-> Hf]. apply bool_decide_eq_false, eq_None_not_Some in Hf.
    unfold tree_add. rewrite sprout_nomem by done. cbn. rewrite Hf.
    split_and!; [done|by destruct uar|by split; [exists h|]|done|done].
Qed.

Lemma tree_delete_total t x uar :
  wf cmp t ->
  total (fun p => p.1.2 = bool_decide (is_Some (lfind cmp x (inorder t))) /\
                  p.2 = uar_log uar (lfind cmp x (inorder t)) /\
                  wf cmp p.1.1 /\ inorder p.1.1 = lremove cmp x (inorder t))
        (tree_delete cmp t x uar).
Proof.
  intros [[h Ht] Hs]. unfold tree_delete. apply total_bind.
  eapply total_mono; [by apply (delete_spec cmp t h)|].
  intros s (Havl & Hin & Hret & Hlog). cbn.
  repeat split; eauto. rewrite Hin. by apply lremove_sorted.
Qed.

Lemma tree_init_wf : wf cmp tree_init.
Proof. split; [exists 0; constructor|constructor]. Qed.

(** The tree as an instance of the interface of its users. *)
#[refine] #[export] Instance tree_store : SortedStore cmp (tree (A:=A)) := {|
  store_elems := inorder;
  store_wf := wf cmp;
  store_add t ok x := p <- tree_add cmp t x ok false;; Ok p.1.1;
  store_remove t x := p <- tree_delete cmp t x false;; Ok p.1.1;
  store_find := tree_srch cmp;
|}.
Proof.
  - by intros t [_ ?].
  - intros t ok x Ht. apply total_bind. eapply total_mono; [by apply tree_add_total|]. by intros ? (_ & _ & ? & ? & _).
  - intros t x Ht. apply total_bind. eapply total_mono; [by apply tree_delete_total|]. by intros ? (_ & _ & ?).
  - intros t x [_ Hs]. by apply tree_srch_spec.
Defined.

(** The routines that visit the whole tree. *)
Lemma tree_trav_all t : tree_trav t (fun _ => true) = (true, inorder t).
Proof.
  induction t as [|l IHl d b r IHr]; [done|]. cbn [tree_trav]. by rewrite IHl, IHr.
Qed.

Lemma tree_mung_all t : (tree_mung t true).1 = E /\ Permutation (tree_mung t true).2 (inorder t).
Proof.
  induction t as [|l [_ IHl] d b r [_ IHr]]; [done|]. cbn [tree_mung inorder].
  destruct (tree_mung l true) as [? log1], (tree_mung r true) as [? log2]. cbn in *.
  split; [done|]. rewrite IHl, IHr. by rewrite (Permutation_app_comm (inorder r) [d]).
Qed.

(** A tree of height [h] holds at least [2^(h/2) - 1] data. *)
Lemma avl_size t h : avl t h -> 2 ^ (h / 2) <= zlen (inorder t) + 1.
Proof.
  induction 1 as [|l d b r hl hr Hl IHl Hr IHr Hb Hb1]; [done|].
  pose proof (avl_height_nonneg _ _ Hl). pose proof (avl_height_nonneg _ _ Hr).
  cbn [inorder]. autorewrite with zlen. set (h := 1 + Z.max hl hr).
  assert (Hh : 2 ^ (h / 2) <= 2 * 2 ^ ((h - 2) / 2) \/ h < 2).
  { destruct (Z.lt_ge_cases h 2); [by right|left].
    replace h with (h - 2 + 1 * 2) at 1 by lia.
    rewrite Z.div_add, Z.pow_add_r by (try apply Z.div_pos; lia). lia. }
  destruct Hh as [Hh|Hh].
  - assert (2 ^ ((h - 2) / 2) <= 2 ^ (hl / 2)) by (apply Z.pow_le_mono_r, Z.div_le_mono; lia).
    assert (2 ^ ((h - 2) / 2) <= 2 ^ (hr / 2)) by (apply Z.pow_le_mono_r, Z.div_le_mono; lia).
    lia.
  - replace (h / 2) with 0 by (symmetry; apply Z.div_small; lia). zl.
Qed.
(** C2: [tree_add] on a well-formed tree never follows a NULL child, whether
    or not [memget] has memory.  When it has, or when the key is in the tree
    already, it returns the datum it was given, inserts it in order or replaces
    the one with the same key, and hands exactly the replaced datum to
    [pfv_uar]; when it has none and the key is new, it returns NULL, calls
    nothing and the tree is the same.  The tree stays ordered and balanced
    with correct [bal] fields. *)
Theorem tree_add_correct t x memget_ok uar :
  wf cmp t ->
  exists t', tree_add cmp t x memget_ok uar
             = Ok (t', if storable cmp memget_ok x (inorder t) then Some x else None,
                   uar_log uar (lfind cmp x (inorder t))) /\
    wf cmp t' /\ inorder t' = lput cmp memget_ok x (inorder t) /\
    (storable cmp memget_ok x (inorder t) = false -> t' = t).
Proof.
  intros Ht.
  destruct (proj1 (total_ok _ _) (tree_add_total t x memget_ok uar Ht)) as ([[t' o] log] & -> & H).
  cbn in H. destruct H as (-> & -> & ?). eauto.
Qed.

(** C3: [tree_delete] on a well-formed tree never follows a NULL child; it
    removes exactly the datum with the given key, says whether there was one,
    keeps the tree ordered and balanced, and calls [pfv_uar] once, on the
    removed datum. *)
Theorem tree_delete_correct t x uar :
  wf cmp t ->
  exists t', tree_delete cmp t x uar
             = Ok (t', bool_decide (is_Some (lfind cmp x (inorder t))),
                   uar_log uar (lfind cmp x (inorder t))) /\
    wf cmp t' /\ inorder t' = lremove cmp x (inorder t).
Proof.
  intros Ht.
  destruct (proj1 (total_ok _ _) (tree_delete_total t x uar Ht)) as ([[t' o] log] & -> & H).
  cbn in H. destruct H as (-> & -> & ? & ?). eauto.
Qed.

(** C4: after any sequence of insertions, each with or without memory, and
    deletions that starts from [tree_init], no NULL child was followed,
    [tree_srch] finds for every key what the same sequence leaves in a sorted
    list, where an insertion without memory changes the list only when the key
    is in it, [tree_trav] visits exactly that list in order, and the tree is
    balanced: with [n] data its height [h] satisfies [2^(h/2) <= n + 1]. *)
Theorem tree_history ops :
  exists t, store_run (C:=tree (A:=A)) cmp ops tree_init = Ok t /\
    (forall x, tree_srch cmp t x = lfind cmp x (list_run cmp ops [])) /\
    tree_trav t (fun _ => true) = (true, list_run cmp ops []) /\
    exists h, avl t h /\ 2 ^ (h / 2) <= zlen (list_run cmp ops []) + 1.
Proof.
  pose proof (store_run_ok (SortedStore0:=tree_store) cmp ops tree_init tree_init_wf) as Hrun.
  apply total_ok in Hrun as (t & -> & [[h Ht] Hs] & He).
  cbn in He. exists t. split; [done|]. rewrite <- He, tree_trav_all. split.
  - intros x. by apply tree_srch_spec.
  - split; [done|]. exists h. split; [done|]. by apply avl_size.
Qed.

(** What [tree_srch] finds is a map: insertion binds the key of its datum,
    deletion unbinds it, and neither changes what any other key finds. *)
Theorem tree_srch_update t x y t' log :
  wf cmp t ->
  (tree_add cmp t x true false = Ok (t', Some x, log) ->
   tree_srch cmp t' y = if cmp y x =? 0 then Some x else tree_srch cmp t y) /\
  (forall found, tree_delete cmp t x false = Ok (t', found, log) ->
   tree_srch cmp t' y = if cmp y x =? 0 then None else tree_srch cmp t y).
Proof.
  intros Ht. pose proof (proj2 Ht) as Hs. rewrite (tree_srch_spec cmp t y) by done. split.
  - intros Hadd. pose proof (tree_add_total t x true false Ht) as H. rewrite Hadd in H.
    destruct H as (_ & _ & [_ Hs'] & Hin & _). cbn in *. unfold lput in Hin. cbn in Hin.
    by rewrite tree_srch_spec, Hin, lfind_linsert.
  - intros found Hdel. pose proof (tree_delete_total t x false Ht) as H. rewrite Hdel in H.
    destruct H as (_ & _ & [_ Hs'] & Hin). cbn in *.
    by rewrite tree_srch_spec, Hin, lfind_lremove.
Qed.
End TreeTheorems.

(** ** Witnesses: integers in their order. *)

#[export] Instance Zsub_compare_laws : CompareLaws Z.sub.
Proof. split; lia. Qed.

Definition tree_123 : tree (A:=Z) := T (T E 1 0 E) 2 0 (T E 3 0 E).

Lemma tree_123_wf : wf Z.sub tree_123.
Proof.
  split.
  - exists 2. repeat (apply (avl_T _ _ _ _ 1 1) || apply (avl_T _ _ _ _ 0 0) || constructor); lia.
  - repeat constructor; unfold before; lia.
Qed.

Lemma tree_add_correct_witness :
  (exists t', tree_add Z.sub tree_123 4 true true = Ok (t', Some 4, []) /\
    wf Z.sub t' /\ inorder t' = [1; 2; 3; 4] /\ (true = false -> t' = tree_123)) /\
  (exists t', tree_add Z.sub tree_123 4 false true = Ok (t', None, []) /\
    wf Z.sub t' /\ inorder t' = [1; 2; 3] /\ (false = false -> t' = tree_123)).
Proof.
  split; [exact (tree_add_correct Z.sub tree_123 4 true true tree_123_wf)|
          exact (tree_add_correct Z.sub tree_123 4 false true tree_123_wf)].
Defined.

Lemma tree_delete_correct_witness :
  exists t', tree_delete Z.sub tree_123 2 true = Ok (t', true, [2]) /\
    wf Z.sub t' /\ inorder t' = [1; 3].
Proof. exact (tree_delete_correct Z.sub tree_123 2 true tree_123_wf). Defined.

Lemma tree_history_witness :
  exists t, store_run (C:=tree (A:=Z)) Z.sub [OpAdd true 2; OpAdd true 3; OpAdd false 2; OpAdd true 4; OpAdd false 5; OpRemove 3] tree_init = Ok t /\
    (forall x, tree_srch Z.sub t x = lfind Z.sub x [2; 4]) /\
    tree_trav t (fun _ => true) = (true, [2; 4]) /\
    exists h, avl t h /\ 2 ^ (h / 2) <= zlen [2; 4] + 1.
Proof. exact (tree_history Z.sub [OpAdd true 2; OpAdd true 3; OpAdd false 2; OpAdd true 4; OpAdd false 5; OpRemove 3]). Defined.

Lemma tree_srch_update_witness :
  tree_srch Z.sub (T (T E 1 0 E) 2 1 (T E 3 1 (T E 4 0 E))) 4 = Some 4 /\
  tree_srch Z.sub (T (T E 1 0 E) 3 0 E) 2 = tree_srch Z.sub (T (T E 1 0 E) 3 (-1) E) 2.
Proof.
  split; [|done].
  exact (proj1 (tree_srch_update Z.sub tree_123 4 4 (T (T E 1 0 E) 2 1 (T E 3 1 (T E 4 0 E))) []
                  tree_123_wf) eq_refl).
Defined.
