(* ===== verification/IscHeap.v ===== *)
(** * isc/heap.c: the priority queue of the ISC library

    The heap array is a list of slots, [None] for memory that [realloc] left
    uninitialised (slot 0 is never used); reading such a slot, or a slot
    outside the array, is a [Fault].  The queue stores pointers of a type [A]
    to objects in a store [St] of its client: the callbacks [higher_priority]
    and [index] read and update that store, as the C callbacks do.  Whether
    [malloc] and [realloc] find memory is an argument.  A return of -1 is the
    pair of the [errno] and the state it leaves behind.

    [HeapClient] is the interface between the queue and its client; under it
    every operation same the array a heap, same its contents as a
    multiset, and leaves every element with its current index. *)
From Stdlib Require Import ZArith Lia List Bool.
From stdpp Require Import base tactics list numbers sets sorting.
From S2P Require Import Prelude.
Local Open Scope Z_scope.
Local Open Scope c_scope.

Section Heap.
  Context {A St : Type}.

Record heap_context : Type := mk_heap {
  array_size : Z;
  array_size_increment : Z;
  heap_size : Z;
  heap : list (option A);
  higher_priority : St -> A -> A -> outcome bool;
  index : option (A -> Z -> St -> outcome St);
}.

Definition heap_parent (i : Z) : Z := Z.shiftr i 1.
Definition heap_left (i : Z) : Z := Z.shiftl i 1.

Definition ARRAY_SIZE_INCREMENT : Z := 512.

Definition set_heap (ctx : heap_context) (h : list (option A)) : heap_context :=
  mk_heap ctx.(array_size) ctx.(array_size_increment) ctx.(heap_size) h
          ctx.(higher_priority) ctx.(index).

Definition set_heap_size (ctx : heap_context) (n : Z) : heap_context :=
  mk_heap ctx.(array_size) ctx.(array_size_increment) n ctx.(heap)
          ctx.(higher_priority) ctx.(index).

(** [heap_new]: NULL callbacks, and [malloc], may fail. *)
Definition heap_new (hp : option (St -> A -> A -> outcome bool))
    (idx : option (A -> Z -> St -> outcome St)) (array_size_inc : Z) (mem : bool)
    : option heap_context :=
  match hp with
  | None => None
  | Some hp =>
      if negb mem then None
      else Some (mk_heap 0
                   (if array_size_inc =? 0 then ARRAY_SIZE_INCREMENT else array_size_inc)
                   0 [] hp idx)
  end.

(** [heap_free]: the answer, and the arrays that are released. *)
Definition heap_free (ctx : option heap_context) : option errno * list (list (option A)) :=
  match ctx with
  | None => (Some EINVAL, [])
  | Some ctx => (None, match ctx.(heap) with [] => [] | h => [h] end)
  end.

(** [heap_resize]: [array_size] grows before [realloc] is asked. *)
Definition heap_resize (ctx : heap_context) (mem : bool)
    : outcome (option errno * heap_context) :=
  let size := ctx.(array_size) + ctx.(array_size_increment) in
  assert_int size;;;
  let grown h := mk_heap size ctx.(array_size_increment) ctx.(heap_size) h
                         ctx.(higher_priority) ctx.(index) in
  if negb mem || (size <? 0) then Ok (Some ENOMEM, grown ctx.(heap))
  else
    let h := take (Z.to_nat size) ctx.(heap) in
    Ok (None, grown (h ++ replicate (Z.to_nat size - length h) None)).

(** [ctx->heap[i]] as a value. *)
Definition slot (h : list (option A)) (i : Z) : outcome A :=
  o <- rd h i;;
  match o with Some x => Ok x | None => Fault end.

Definition call_index (ctx : heap_context) (x : A) (i : Z) (st : St) : outcome St :=
  match ctx.(index) with
  | None => Ok st
  | Some f => f x i st
  end.

(** [ctx->heap[i] = x; if (ctx->index != NULL) (ctx->index)(ctx->heap[i], i)] *)
Definition put (ctx : heap_context) (h : list (option A)) (st : St) (i : Z) (x : A)
    : outcome (list (option A) * St) :=
  h' <- wr h i (Some x);;
  st' <- call_index ctx x i st;;
  Ok (h', st').

Definition float_up_body (ctx : heap_context) (elt : A)
    (s : list (option A) * St * Z)
    : outcome (list (option A) * St * Z + list (option A) * St) :=
  let '(h, st, i) := s in
  let p := heap_parent i in
  b <- (if 1 <? i then y <- slot h p;; ctx.(higher_priority) st elt y else Ok false);;
  if b : bool then
    y <- slot h p;;
    hs <- put ctx h st i y;;
    Ok (inl (hs, p))
  else
    hs <- put ctx h st i elt;;
    Ok (inr hs).

Definition float_up (ctx : heap_context) (st : St) (i : Z) (elt : A)
    : outcome (heap_context * St) :=
  hs <- loop (S (Z.to_nat i)) (float_up_body ctx elt) (ctx.(heap), st, i);;
  Ok (set_heap ctx hs.1, hs.2).

(** The smaller of the (at most) two children of [i]. *)
Definition sink_child (ctx : heap_context) (h : list (option A)) (st : St) (i : Z)
    : outcome Z :=
  let j := heap_left i in
  if j <? ctx.(heap_size) then
    y1 <- slot h (j + 1);;
    y0 <- slot h j;;
    b <- ctx.(higher_priority) st y1 y0;;
    Ok (if b : bool then j + 1 else j)
  else Ok j.

Definition sink_down_body (ctx : heap_context) (elt : A)
    (s : list (option A) * St * Z)
    : outcome (list (option A) * St * Z + list (option A) * St) :=
  let '(h, st, i) := s in
  if i <=? Z.quot ctx.(heap_size) 2 then
    j <- sink_child ctx h st i;;
    y <- slot h j;;
    b <- ctx.(higher_priority) st elt y;;
    if b : bool then
      hs <- put ctx h st i elt;;
      Ok (inr hs)
    else
      hs <- put ctx h st i y;;
      Ok (inl (hs, j))
  else
    hs <- put ctx h st i elt;;
    Ok (inr hs).

Definition sink_down (ctx : heap_context) (st : St) (i : Z) (elt : A)
    : outcome (heap_context * St) :=
  hs <- loop (S (Z.to_nat (ctx.(heap_size) - i))) (sink_down_body ctx elt)
          (ctx.(heap), st, i);;
  Ok (set_heap ctx hs.1, hs.2).

(** What an operation leaves: [None] for a return of 0, [Some errno] for -1. *)
Definition heap_ret : Type := option errno * option heap_context * St.

Definition heap_insert (ctx : option heap_context) (st : St) (elt : option A) (mem : bool)
    : outcome heap_ret :=
  match ctx, elt with
  | Some c, Some x =>
      let i := c.(heap_size) + 1 in
      assert_int i;;;
      let c := set_heap_size c i in
      let! (err, c) := (if c.(array_size) <=? i then heap_resize c mem else Ok (None, c)) in
      match err with
      | Some e => Ok (Some e, Some c, st)
      | None => let! (c, st) := float_up c st i x in Ok (None, Some c, st)
      end
  | _, _ => Ok (Some EINVAL, ctx, st)
  end.

Definition heap_delete (ctx : option heap_context) (st : St) (i : Z) : outcome heap_ret :=
  match ctx with
  | None => Ok (Some EINVAL, ctx, st)
  | Some c =>
      if (i <? 1) || (c.(heap_size) <? i) then Ok (Some EINVAL, ctx, st)
      else if i =? c.(heap_size) then
        Ok (None, Some (set_heap_size c (c.(heap_size) - 1)), st)
      else
        elt <- slot c.(heap) c.(heap_size);;
        let c := set_heap_size c (c.(heap_size) - 1) in
        y <- slot c.(heap) i;;
        less <- c.(higher_priority) st elt y;;
        h <- wr c.(heap) i (Some elt);;
        let c := set_heap c h in
        x <- slot c.(heap) i;;
        let! (c, st) := (if less : bool then float_up c st i x else sink_down c st i x) in
        Ok (None, Some c, st)
  end.

Definition heap_increased (ctx : option heap_context) (st : St) (i : Z) : outcome heap_ret :=
  match ctx with
  | None => Ok (Some EINVAL, ctx, st)
  | Some c =>
      if (i <? 1) || (c.(heap_size) <? i) then Ok (Some EINVAL, ctx, st)
      else
        x <- slot c.(heap) i;;
        let! (c, st) := float_up c st i x in
        Ok (None, Some c, st)
  end.

Definition heap_decreased (ctx : option heap_context) (st : St) (i : Z) : outcome heap_ret :=
  match ctx with
  | None => Ok (Some EINVAL, ctx, st)
  | Some c =>
      if (i <? 1) || (c.(heap_size) <? i) then Ok (Some EINVAL, ctx, st)
      else
        x <- slot c.(heap) i;;
        let! (c, st) := sink_down c st i x in
        Ok (None, Some c, st)
  end.

(** [heap_element]: [Err EINVAL] is the return of NULL. *)
Definition heap_element (ctx : option heap_context) (i : Z) : outcome A :=
  match ctx with
  | None => Err EINVAL
  | Some c =>
      if (i <? 1) || (c.(heap_size) <? i) then Err EINVAL else slot c.(heap) i
  end.

(** [heap_for_each]: the action may change the client's store. *)
Fixpoint for_each_slots (h : list (option A)) (action : A -> St -> outcome St)
    (i : Z) (n : nat) (st : St) : outcome St :=
  match n with
  | O => Ok st
  | S n =>
      x <- slot h i;;
      st <- action x st;;
      for_each_slots h action (i + 1) n st
  end.

Definition heap_for_each (ctx : option heap_context) (action : option (A -> St -> outcome St))
    (st : St) : outcome (option errno * St) :=
  match ctx, action with
  | Some c, Some action =>
      st <- for_each_slots c.(heap) action 1 (Z.to_nat c.(heap_size)) st;;
      Ok (None, st)
  | _, _ => Ok (Some EINVAL, st)
  end.

End Heap.
Arguments heap_context : clear implicits.
Arguments heap_ret : clear implicits.

(** ** The heap order on the list of the elements

    [get c i] is the element at heap subscript [i], counted from 1. *)

Local Ltac zdiv := Z.to_euclidean_division_equations; lia.

Section Order.
  Context {A : Type} (P : A -> A -> bool) (L : A -> Prop).
  Context (P_irrefl : forall x, L x -> P x x = false)
          (P_trans : forall x y z, L x -> L y -> L z ->
             P x y = true -> P y z = true -> P x z = true)
          (P_ntrans : forall x y z, L x -> L y -> L z ->
             P x y = false -> P y z = false -> P x z = false).

Definition get (c : list A) (i : Z) : option A :=
  if i <? 1 then None else c !! Z.to_nat (i - 1).

Definition ordered (c : list A) : Prop :=
  forall k x y, 2 <= k -> get c k = Some x -> get c (k / 2) = Some y -> P x y = false.

(** Ordered but for [i] and its parent. *)
Definition up_inv (c : list A) (i : Z) : Prop :=
  (forall k x y, 2 <= k -> k <> i -> get c k = Some x -> get c (k / 2) = Some y ->
     P x y = false) /\
  (forall k x y, k / 2 = i -> 2 <= i -> get c k = Some x -> get c (i / 2) = Some y ->
     P x y = false).

(** Ordered but for [i] and its children. *)
Definition down_inv (c : list A) (i : Z) : Prop :=
  (forall k x y, 2 <= k -> k / 2 <> i -> get c k = Some x -> get c (k / 2) = Some y ->
     P x y = false) /\
  (forall k x y, k / 2 = i -> 2 <= i -> get c k = Some x -> get c (i / 2) = Some y ->
     P x y = false).

Definition swap (c : list A) (i : Z) (y : A) (j : Z) (x : A) : list A :=
  <[Z.to_nat (i - 1) := y]> (<[Z.to_nat (j - 1) := x]> c).

Lemma get_range c i x : get c i = Some x -> 1 <= i <= zlen c.
Proof.
  unfold get, zlen. bcase; [done|]. intros H%lookup_lt_Some. lia.
Qed.

Lemma get_lookup c i x : get c i = Some x -> c !! Z.to_nat (i - 1) = Some x.
Proof. unfold get. by bcase. Qed.

Lemma get_is_some c i : 1 <= i <= zlen c -> exists x, get c i = Some x.
Proof.
  unfold get, zlen. intros H. bcase; [lia|].
  destruct (lookup_lt_is_Some_2 c (Z.to_nat (i - 1))) as [x Hx]; [lia|]. eauto.
Qed.

Lemma get_set c i x k :
  1 <= i <= zlen c ->
  get (<[Z.to_nat (i - 1) := x]> c) k = if k =? i then Some x else get c k.
Proof.
  unfold get, zlen. intros Hi. destruct (Z.eqb_spec k i) as [->|Hk].
  - bcase; [lia|]. apply list_lookup_insert_eq. lia.
  - bcase; [done|]. apply list_lookup_insert_ne. lia.
Qed.

Lemma get_swap c i y j x k :
  1 <= i <= zlen c -> 1 <= j <= zlen c ->
  get (swap c i y j x) k = if k =? i then Some y else if k =? j then Some x else get c k.
Proof.
  intros Hi Hj. unfold swap. rewrite !get_set; [done|done|]. by autorewrite with zlen.
Qed.

Lemma get_live c i x : Forall L c -> get c i = Some x -> L x.
Proof. intros HL H%get_lookup. by eapply Forall_lookup_1. Qed.

Lemma zlen_swap c i y j x : zlen (swap c i y j x) = zlen c.
Proof. unfold swap. by autorewrite with zlen. Qed.

Lemma swap_perm c i j x y :
  get c i = Some x -> get c j = Some y -> i <> j -> Permutation (swap c i y j x) c.
Proof.
  intros Hx Hy Hij.
  pose proof (get_range _ _ _ Hx). pose proof (get_range _ _ _ Hy).
  apply get_lookup in Hx, Hy. apply Permutation_inj. unfold swap.
  set (m := Z.to_nat (i - 1)) in *. set (n := Z.to_nat (j - 1)) in *.
  assert (m <> n) by lia. split; [by rewrite !length_insert|].
  exists (fun k => if decide (k = m) then n else if decide (k = n) then m else k). split.
  - intros a b. repeat case_decide; subst; congruence || lia.
  - intros k. repeat case_decide; subst.
    + rewrite list_lookup_insert_eq; [done|].
      rewrite length_insert. by eapply lookup_lt_Some.
    + rewrite list_lookup_insert_ne by done.
      rewrite list_lookup_insert_eq; [done|]. by eapply lookup_lt_Some.
    + by rewrite !list_lookup_insert_ne by done.
Qed.

Lemma P_asym x y : L x -> L y -> P x y = true -> P y x = false.
Proof.
  intros Hx Hy H. destruct (P y x) eqn:E; [|done].
  rewrite <- (P_irrefl x Hx). symmetry. by apply (P_trans x y x).
Qed.

Local Ltac live := match goal with
  | HL : Forall L ?c |- L ?x => first [done | eapply (get_live c); [exact HL|eassumption]]
  end.

Local Ltac getcase :=
  repeat match goal with
  | H : context [?a =? ?b] |- _ => destruct (Z.eqb_spec a b); try lia
  end; simplify_eq.

Lemma up_step c i e y :
  Forall L c -> up_inv c i -> 2 <= i -> get c i = Some e -> get c (i / 2) = Some y ->
  P e y = true -> up_inv (swap c i y (i / 2) e) (i / 2).
Proof.
  intros HL [Ho Hg] Hi He Hy HP.
  pose proof (get_range _ _ _ He). pose proof (get_range _ _ _ Hy).
  assert (Hlt : i / 2 < i) by (apply Z.div_lt; lia).
  split.
  - intros k x z Hk Hki. rewrite !get_swap by lia. intros Hx Hz.
    assert (k / 2 < k) by (apply Z.div_lt; lia).
    destruct (Z.eqb_spec k i) as [->|Hne]; getcase.
    + apply P_asym; auto; live.
    + by apply (Hg k).
    + destruct (P x z) eqn:E; [|done]. exfalso.
      assert (P x y = true) by (apply (P_trans x z y); auto; live).
      assert (P x y = false); [|congruence].
      apply (Ho k); auto. replace (k / 2) with (i / 2) by done. done.
    + by apply (Ho k).
  - intros k x z Hk Hp2. rewrite !get_swap by lia. intros Hx Hz.
    assert (i / 2 / 2 < i / 2) by (apply Z.div_lt; lia).
    assert (Hpar : P y z = false).
    { apply (Ho (i / 2)); auto; [lia|]. getcase; done. }
    destruct (Z.eqb_spec k i) as [->|Hne]; getcase; auto.
    apply (P_ntrans x y z); auto; try live.
    apply (Ho k); auto; [zdiv|]. by rewrite Hk.
Qed.

Lemma up_done c i e :
  up_inv c i -> get c i = Some e ->
  (2 <= i -> forall y, get c (i / 2) = Some y -> P e y = false) -> ordered c.
Proof.
  intros [Ho _] He Hd k x y Hk Hx Hy.
  destruct (Z.eq_dec k i) as [->|Hne]; [|by apply (Ho k)].
  simplify_eq. auto.
Qed.

(** [j] is a child of [i] and no child of [i] has priority over it. *)
Definition best_child (c : list A) (i j : Z) : Prop :=
  j / 2 = i /\ forall k x y, k / 2 = i -> get c k = Some x -> get c j = Some y ->
                             P x y = false.

Lemma down_step c i j e y :
  Forall L c -> down_inv c i -> 1 <= i -> best_child c i j ->
  get c i = Some e -> get c j = Some y -> P e y = false ->
  down_inv (swap c i y j e) j.
Proof.
  intros HL [Ho Hg] Hi [Hj Hb] He Hy HP.
  pose proof (get_range _ _ _ He). pose proof (get_range _ _ _ Hy).
  assert (Hlt : i < j) by zdiv.
  split.
  - intros k x z Hk Hkj. rewrite !get_swap by lia. intros Hx Hz.
    assert (k / 2 < k) by (apply Z.div_lt; lia).
    destruct (Z.eqb_spec k i) as [->|Hne]; getcase.
    + by apply (Hg j).
    + done.
    + by apply (Hb k).
    + by apply (Ho k).
  - intros k x z Hk Hj2. rewrite Hj, !get_swap by lia. intros Hx Hz.
    assert (k / 2 < k).
    { zdiv. }
    getcase. apply (Ho k); auto; [zdiv|lia].
Qed.

Lemma down_done c i e :
  Forall L c -> down_inv c i -> get c i = Some e ->
  (forall j y, j / 2 = i -> get c j = Some y -> P y e = false) -> ordered c.
Proof.
  intros HL [Ho _] He Hd k x y Hk Hx Hy.
  destruct (Z.eq_dec (k / 2) i) as [<-|Hne]; [|by apply (Ho k)].
  simplify_eq. by apply (Hd k).
Qed.

Lemma best_done c i j e y :
  Forall L c -> get c i = Some e -> best_child c i j -> get c j = Some y ->
  P e y = true -> forall k x, k / 2 = i -> get c k = Some x -> P x e = false.
Proof.
  intros HL He [Hj Hb] Hy HP k x Hk Hx. destruct (P x e) eqn:E; [|done].
  assert (P x y = true) by (apply (P_trans x e y); auto; live).
  rewrite (Hb k x y) in *; auto.
Qed.

(** The first element of a heap: nothing has priority over it. *)
Lemma ordered_first c r :
  Forall L c -> ordered c -> get c 1 = Some r -> Forall (fun x => P x r = false) c.
Proof.
  intros HL Ho Hr.
  assert (H : forall n k x, (Z.to_nat k <= n)%nat -> get c k = Some x -> P x r = false).
  { induction n as [|n IH]; intros k x Hk Hx; pose proof (get_range _ _ _ Hx); [lia|].
    destruct (Z.eq_dec k 1) as [->|]; [simplify_eq; apply P_irrefl; live|].
    assert (1 <= k / 2) by (apply Z.div_le_lower_bound; lia).
    assert (k / 2 < k) by (apply Z.div_lt; lia).
    destruct (get_is_some c (k / 2)) as [y Hy]; [lia|].
    apply (P_ntrans x y r); try live; [by apply (Ho k); try lia|].
    apply (IH (k / 2)); [lia|done]. }
  apply Forall_lookup. intros k x Hx. apply (H (S k) (Z.of_nat (S k))); [lia|].
  unfold get. bcase; [lia|]. by replace (Z.to_nat (Z.of_nat (S k) - 1)) with k by lia.
Qed.

End Order.

(** ** The interface between the queue and its client

    [live st x] says that [x] points to an object of the store [st], [prio]
    and [pos] are the order and the index field that the callbacks read and
    write, and [same st st'] that two stores differ in index fields only.
    [higher_priority] is a strict weak order on live objects, and [index]
    writes the index of its object and nothing else. *)

Class HeapClient {A St : Type} (hp : St -> A -> A -> outcome bool)
    (idx : option (A -> Z -> St -> outcome St)) : Type := {
  live : St -> A -> Prop;
  prio : St -> A -> A -> bool;
  pos : St -> A -> Z;
  same : St -> St -> Prop;
  same_refl : forall st, same st st;
  same_trans : forall st1 st2 st3, same st1 st2 -> same st2 st3 -> same st1 st3;
  same_live : forall st st' x, same st st' -> live st' x <-> live st x;
  same_prio : forall st st' x y, same st st' -> prio st' x y = prio st x y;
  hp_ok : forall st x y, live st x -> live st y -> hp st x y = Ok (prio st x y);
  prio_irrefl : forall st x, live st x -> prio st x x = false;
  prio_trans : forall st x y z, live st x -> live st y -> live st z ->
    prio st x y = true -> prio st y z = true -> prio st x z = true;
  prio_ntrans : forall st x y z, live st x -> live st y -> live st z ->
    prio st x y = false -> prio st y z = false -> prio st x z = false;
  idx_ok : forall f st x i, idx = Some f -> live st x ->
    total (fun st' => same st st' /\ pos st' x = i /\
                      (forall y, y <> x -> pos st' y = pos st y))
          (f x i st);
}.

Section Client.
  Context {A St : Type} {hp : St -> A -> A -> outcome bool}
          {idx : option (A -> Z -> St -> outcome St)} `{!HeapClient hp idx}.
  Implicit Types (st : St) (c : list A) (ctx : heap_context A St).

(** The array holds [c], and the store the indices of [c], but at [holes]. *)
Definition repx c (holes : list Z) (h : list (option A)) : Prop :=
  forall k x, k ∉ holes -> get c k = Some x -> rd h k = Ok (Some x).

Definition tracked st c (holes : list Z) : Prop :=
  idx <> None -> forall k x, k ∉ holes -> get c k = Some x -> pos st x = k.

(** The queue [ctx] holds [c]. *)
Record heap_rep ctx st c : Prop := {
  wf_hp : ctx.(higher_priority) = hp;
  wf_index : ctx.(index) = idx;
  wf_size : ctx.(heap_size) = zlen c;
  wf_array : ctx.(array_size) = zlen ctx.(heap);
  wf_room : zlen c < zlen ctx.(heap) \/ zlen ctx.(heap) = 0 /\ c = [];
  wf_increment : 2 <= ctx.(array_size_increment);
  wf_rep : repx c [] ctx.(heap);
  wf_tracked : tracked st c [];
  wf_live : Forall (live st) c;
  wf_nodup : NoDup c;
}.

(** The queue [ctx] holds [c], in heap order. *)
Definition heap_wf ctx st c : Prop := heap_rep ctx st c /\ ordered (prio st) c.

(** What an operation returns that leaves the queue with the elements [c]. *)
Definition queue_post st c (r : heap_context A St * St) : Prop :=
  exists c', Permutation c' c /\ heap_wf r.1 r.2 c' /\ same st r.2.

Lemma slot_rep c holes h k x :
  repx c holes h -> k ∉ holes -> get c k = Some x -> slot h k = Ok x.
Proof. intros H Hk Hx. unfold slot. by rewrite (H k x Hk Hx). Qed.

Lemma put_spec ctx st c i holes h x :
  ctx.(index) = idx -> repx c (i :: holes) h -> tracked st c (i :: holes) ->
  NoDup c -> live st x -> get c i = Some x -> 0 <= i < zlen h ->
  total (fun r => zlen r.1 = zlen h /\ repx c holes r.1 /\ tracked r.2 c holes /\
                  same st r.2)
        (put ctx h st i x).
Proof.
  intros Hidx Hrep Htr Hnd Hl Hx Hi. unfold put. rewrite wr_ok by done. simpl.
  assert (Hrep' : repx c holes (<[Z.to_nat i:=Some x]> h)).
  { intros k y Hk Hy. destruct (Z.eq_dec k i) as [->|Hne].
    - rewrite rd_wr_eq by done. congruence.
    - rewrite rd_wr_ne by lia. apply Hrep; set_solver. }
  unfold call_index. destruct ctx.(index) as [f|] eqn:Ef; simpl.
  - apply total_bind. eapply total_mono; [by apply (idx_ok f st x i)|].
    intros st' (H1 & H3 & H4). simpl. autorewrite with zlen.
    split_and!; try done.
    intros _ k y Hk Hy. destruct (Z.eq_dec k i) as [->|Hne]; [congruence|].
    rewrite H4; [apply Htr; [congruence|set_solver|done]|].
    intros ->. apply Hne. apply get_lookup in Hx as Hx', Hy as Hy'.
    pose proof (NoDup_lookup _ _ _ _ Hnd Hx' Hy').
    pose proof (get_range _ _ _ Hx). pose proof (get_range _ _ _ Hy). lia.
  - autorewrite with zlen. split_and!; auto using same_refl. by intros [].
Qed.

(** What the two loops maintain: the array holds a permutation [c] of [c0]
    but for the hole at [i], where the element [e] belongs. *)
Definition hole_inv (st0 : St) (c0 : list A) (N : Z) (e : A) (c : list A)
    (s : list (option A) * St * Z) : Prop :=
  let '(h, st, i) := s in
  Permutation c c0 /\ get c i = Some e /\ zlen h = N /\
  repx c [i] h /\ tracked st c [i] /\ same st0 st.

Definition loop_post (st0 : St) (c0 : list A) (N : Z) (r : list (option A) * St) : Prop :=
  exists c, Permutation c c0 /\ zlen r.1 = N /\ repx c [] r.1 /\ tracked r.2 c [] /\
            same st0 r.2 /\ ordered (prio st0) c.

Section Loops.
  Context (ctx : heap_context A St) (st0 : St) (c0 : list A) (N : Z).
  Context (Hhp : ctx.(higher_priority) = hp) (Hidx : ctx.(index) = idx)
          (Hlive : Forall (live st0) c0) (Hnd : NoDup c0) (HN : zlen c0 < N).

Lemma hole_live c st x k : Permutation c c0 -> same st0 st -> get c k = Some x -> live st x.
Proof.
  intros Hp Hk Hx. apply (same_live _ _ _ Hk). apply (get_live _ c k); [by rewrite Hp|done].
Qed.

Lemma perm_zlen c : Permutation c c0 -> zlen c = zlen c0.
Proof. intros H. unfold zlen. by rewrite H. Qed.

(** Filling the hole. *)
Lemma hole_fill e c h st i :
  hole_inv st0 c0 N e c (h, st, i) -> ordered (prio st0) c ->
  total (loop_post st0 c0 N) (put ctx h st i e).
Proof.
  intros (Hp & He & Hh & Hr & Ht & Hk) Ho. pose proof (perm_zlen c Hp).
  pose proof (get_range _ _ _ He).
  eapply total_mono; [apply (put_spec ctx st c i []); auto|].
  - by rewrite Hp.
  - by eapply hole_live.
  - lia.
  - intros [h' st'] (H1 & H2 & H3 & H4). simpl in *. exists c. split_and!; try done.
    + simpl. by rewrite H1.
    + by apply (same_trans st0 st).
Qed.

Lemma hole_exit {T} (K : T -> Prop) e c h st i :
  hole_inv st0 c0 N e c (h, st, i) -> ordered (prio st0) c ->
  total (fun r => match r with inl s' => K s' | inr v => loop_post st0 c0 N v end)
    (hs <- put ctx h st i e;; Ok (inr hs)).
Proof.
  intros Hi Ho. apply total_bind. eapply total_mono; [by apply (hole_fill e c h st i)|done].
Qed.

(** Moving the element [y] at [j] into the hole at [i]. *)
Lemma hole_move e c h st i j y :
  hole_inv st0 c0 N e c (h, st, i) -> get c j = Some y -> i <> j ->
  total (fun r => hole_inv st0 c0 N e (swap c i y j e) (r, j)) (put ctx h st i y).
Proof.
  intros (Hp & He & Hh & Hr & Ht & Hk) Hy Hij. pose proof (perm_zlen c Hp).
  pose proof (get_range _ _ _ He). pose proof (get_range _ _ _ Hy).
  assert (Hp' : Permutation (swap c i y j e) c0) by (by rewrite swap_perm).
  eapply total_mono; [apply (put_spec ctx st (swap c i y j e) i [j]); auto|].
  - intros k x Hn Hx. rewrite get_swap in Hx by lia. apply Hr; [set_solver|].
    destruct (Z.eqb_spec k i); [set_solver|]. destruct (Z.eqb_spec k j); [set_solver|done].
  - intros Hi k x Hn Hx. rewrite get_swap in Hx by lia. apply Ht; [done|set_solver|].
    destruct (Z.eqb_spec k i); [set_solver|]. destruct (Z.eqb_spec k j); [set_solver|done].
  - by rewrite Hp'.
  - by apply (hole_live c st y j).
  - rewrite get_swap by lia. by rewrite Z.eqb_refl.
  - lia.
  - intros [h' st'] (E1 & E2 & E3 & E4). simpl in *. split_and!; try done.
    + rewrite get_swap by lia. destruct (Z.eqb_spec j i); [done|]. by rewrite Z.eqb_refl.
    + by rewrite E1.
    + by apply (same_trans st0 st).
Qed.

Lemma hole_hp c st x y k l :
  Permutation c c0 -> same st0 st -> get c k = Some x -> get c l = Some y ->
  ctx.(higher_priority) st x y = Ok (prio st0 x y).
Proof.
  intros Hp Hk Hx Hy. rewrite Hhp, hp_ok by (by eapply hole_live; eauto).
  f_equal. by apply same_prio.
Qed.

Lemma perm_live c : Permutation c c0 -> Forall (live st0) c.
Proof. intros ->. done. Qed.

Lemma float_up_loop e c h st i fuel :
  hole_inv st0 c0 N e c (h, st, i) -> up_inv (prio st0) c i -> (Z.to_nat i < fuel)%nat ->
  total (loop_post st0 c0 N) (loop fuel (float_up_body ctx e) (h, st, i)).
Proof.
  intros Hinv Hup Hf.
  apply (loop_total _ (fun s => exists c, hole_inv st0 c0 N e c s /\ up_inv (prio st0) c s.2)
           (fun s => Z.to_nat s.2)); [|by exists c|done].
  clear c h st i fuel Hinv Hup Hf. intros [[h st] i] (c & Hinv & Hup). simpl in *.
  unfold heap_parent. rewrite Z.shiftr_div_pow2 by lia. change (2 ^ 1) with 2.
  pose proof Hinv as (Hp & He & Hh & Hr & Ht & Hk). pose proof (perm_zlen c Hp).
  pose proof (get_range _ _ _ He). destruct (Z.ltb_spec 1 i) as [Hi|Hi]; cbn [obind].
  - assert (1 <= i / 2) by (apply Z.div_le_lower_bound; lia).
    assert (i / 2 < i) by (apply Z.div_lt; lia).
    destruct (get_is_some c (i / 2)) as [y Hy]; [lia|].
    assert (Hs : slot h (i / 2) = Ok y) by (eapply slot_rep; eauto; set_solver by lia).
    rewrite Hs. cbn [obind]. rewrite (hole_hp c st e y i (i / 2)) by done. cbn [obind].
    destruct (prio st0 e y) eqn:HP.
    + apply total_bind. eapply total_mono; [apply (hole_move e c h st i (i / 2) y); auto; lia|].
      intros [h' st'] Hinv'. simpl. split; [|lia]. exists (swap c i y (i / 2) e).
      split; [done|]. eapply up_step; eauto using perm_live;
        [apply prio_irrefl|apply prio_trans|apply prio_ntrans|lia].
    + eapply hole_exit; [done|]. eapply up_done; eauto. intros _ y' Hy'. congruence.
  - eapply hole_exit; [done|]. eapply up_done; eauto. lia.
Qed.

Context (Hsize : ctx.(heap_size) = zlen c0).

Lemma sink_child_spec e c h st i :
  hole_inv st0 c0 N e c (h, st, i) -> 1 <= i -> 2 * i <= zlen c ->
  total (fun j => best_child (prio st0) c i j /\ i < j <= zlen c) (sink_child ctx h st i).
Proof.
  intros (Hp & He & Hh & Hr & Ht & Hk) Hi1 Hi. unfold sink_child, heap_left.
  pose proof (perm_zlen c Hp). rewrite Z.shiftl_mul_pow2 by lia. change (2 ^ 1) with 2.
  assert (Hcase : forall k, k / 2 = i -> k = i * 2 \/ k = i * 2 + 1) by (intros; zdiv).
  assert (Hl : forall k x, Permutation c c0 -> get c k = Some x -> live st0 x).
  { intros k x _ Hx. eapply hole_live; eauto using same_refl. }
  destruct (get_is_some c (i * 2)) as [y0 H0]; [lia|].
  destruct (Z.ltb_spec (i * 2) (heap_size ctx)) as [Hj|Hj].
  - destruct (get_is_some c (i * 2 + 1)) as [y1 H1]; [lia|].
    rewrite (slot_rep c [i] h _ y1), (slot_rep c [i] h _ y0) by (auto; set_solver by lia).
    cbn [obind]. rewrite (hole_hp c st y1 y0 (i * 2 + 1) (i * 2)) by done. cbn [obind].
    destruct (prio st0 y1 y0) eqn:HP; cbn [total]; (split; [|lia]); (split; [zdiv|]);
      intros k x y [-> | ->]%Hcase Hx Hy; simplify_eq; eauto using prio_irrefl.
    eapply (P_asym _ (live st0)); eauto using prio_irrefl, prio_trans.
  - cbn [total]. split; [|lia]. split; [zdiv|].
    intros k x y [-> | ->]%Hcase Hx Hy; simplify_eq; eauto using prio_irrefl.
    pose proof (get_range _ _ _ Hx). lia.
Qed.

Lemma sink_down_loop e c h st i fuel :
  hole_inv st0 c0 N e c (h, st, i) -> down_inv (prio st0) c i ->
  (Z.to_nat (zlen c0 - i) < fuel)%nat ->
  total (loop_post st0 c0 N) (loop fuel (sink_down_body ctx e) (h, st, i)).
Proof.
  intros Hinv Hdn Hf.
  apply (loop_total _ (fun s => exists c, hole_inv st0 c0 N e c s /\ down_inv (prio st0) c s.2)
           (fun s => Z.to_nat (zlen c0 - s.2))); [|by exists c|done].
  clear c h st i fuel Hinv Hdn Hf. intros [[h st] i] (c & Hinv & Hdn). simpl in *.
  pose proof Hinv as (Hp & He & Hh & Hr & Ht & Hk). pose proof (perm_zlen c Hp).
  pose proof (get_range _ _ _ He). pose proof (perm_live c Hp) as Hlc.
  rewrite Hsize, Z.quot_div_nonneg by lia.
  destruct (Z.leb_spec i (zlen c0 / 2)) as [Hi|Hi].
  - assert (2 * i <= zlen c) by zdiv.
    apply total_bind. eapply total_mono; [by apply (sink_child_spec e c h st i); try lia|].
    intros j [Hb Hj]. simpl. destruct (get_is_some c j) as [y Hy]; [lia|].
    rewrite (slot_rep c [i] h _ y) by (auto; set_solver by lia).
    cbn [obind]. rewrite (hole_hp c st e y i j) by done. cbn [obind].
    destruct (prio st0 e y) eqn:HP.
    + eapply hole_exit; [done|]. apply (down_done (prio st0) (live st0) c i e Hlc Hdn He).
      intros k x Hk2 Hx.
      by eapply (best_done (prio st0) (live st0)); eauto using prio_irrefl, prio_trans.
    + apply total_bind. eapply total_mono; [apply (hole_move e c h st i j y); auto; lia|].
      intros [h' st'] Hinv'. simpl. split; [|lia]. exists (swap c i y j e).
      split; [done|]. by eapply (down_step (prio st0) (live st0)); eauto; lia.
  - eapply hole_exit; [done|]. apply (down_done (prio st0) (live st0) c i e Hlc Hdn He).
    intros k x Hk2 Hx. pose proof (get_range _ _ _ Hx). zdiv.
Qed.

(** The queue with its array replaced by what a loop returns. *)
Lemma loop_post_queue r :
  loop_post st0 c0 N r -> ctx.(array_size) = N -> 2 <= ctx.(array_size_increment) ->
  queue_post st0 c0 (set_heap ctx r.1, r.2).
Proof.
  destruct r as [h st]. intros (c & Hp & Hh & Hr & Ht & Hk & Ho) HA Hinc.
  simpl in *. exists c. pose proof (perm_zlen c Hp). split; [done|]. split; [|done].
  split; [split; cbn; auto; try lia|].
  - eapply Forall_impl; [by apply perm_live|]. intros x Hx. by apply (same_live _ _ _ Hk).
  - by rewrite Hp.
  - intros k x y Hk2' Hx Hy. simpl. rewrite (same_prio _ _ _ _ Hk). by apply (Ho k).
Qed.
End Loops.

Lemma float_up_total ctx st c i e :
  ctx.(higher_priority) = hp -> ctx.(index) = idx -> ctx.(heap_size) = zlen c ->
  ctx.(array_size) = zlen ctx.(heap) -> zlen c < zlen ctx.(heap) ->
  2 <= ctx.(array_size_increment) -> Forall (live st) c -> NoDup c ->
  repx c [i] ctx.(heap) -> tracked st c [i] -> get c i = Some e ->
  up_inv (prio st) c i ->
  total (queue_post st c) (float_up ctx st i e).
Proof.
  intros. unfold float_up. apply total_bind.
  eapply total_mono; [eapply (float_up_loop ctx st c (zlen (heap ctx))); eauto|].
  - unfold hole_inv. split_and!; auto using same_refl.
  - intros r Hr. by eapply loop_post_queue.
Qed.

Lemma sink_down_total ctx st c i e :
  ctx.(higher_priority) = hp -> ctx.(index) = idx -> ctx.(heap_size) = zlen c ->
  ctx.(array_size) = zlen ctx.(heap) -> zlen c < zlen ctx.(heap) ->
  2 <= ctx.(array_size_increment) -> Forall (live st) c -> NoDup c ->
  repx c [i] ctx.(heap) -> tracked st c [i] -> get c i = Some e ->
  down_inv (prio st) c i ->
  total (queue_post st c) (sink_down ctx st i e).
Proof.
  intros Hhp Hidx Hsz. intros. unfold sink_down. apply total_bind.
  eapply total_mono; [eapply (sink_down_loop ctx st c (zlen (heap ctx))); eauto|].
  - unfold hole_inv. split_and!; auto using same_refl.
  - lia.
  - intros r Hr. by eapply loop_post_queue.
Qed.

Lemma rep_hole ctx st c i : heap_rep ctx st c -> repx c [i] ctx.(heap) /\ tracked st c [i].
Proof.
  intros [_ _ _ _ _ _ Hr Ht _ _]. split.
  - intros k x _ Hx. by apply Hr; [set_solver|].
  - intros Hi k x _ Hx. by apply Ht; [|set_solver|].
Qed.

Lemma rep_slot ctx st c i x :
  heap_rep ctx st c -> get c i = Some x -> slot ctx.(heap) i = Ok x.
Proof. intros H Hx. eapply slot_rep; [apply H|set_solver|done]. Qed.

Lemma rep_room ctx st c i x : heap_rep ctx st c -> get c i = Some x -> zlen c < zlen ctx.(heap).
Proof.
  intros H Hx%get_range. destruct (wf_room _ _ _ H) as [|[_ ->]]; [done|].
  rewrite zlen_nil in Hx. lia.
Qed.

Lemma rep_guard ctx st c i x :
  heap_rep ctx st c -> get c i = Some x -> (i <? 1) || (ctx.(heap_size) <? i) = false.
Proof.
  intros H Hx%get_range. rewrite (wf_size _ _ _ H).
  apply orb_false_iff. split; apply Z.ltb_ge; lia.
Qed.

(** ** The operations *)

Lemma get_snoc c x k : get (c ++ [x]) k = if k =? zlen c + 1 then Some x else get c k.
Proof.
  unfold get, zlen. destruct (Z.eqb_spec k (Z.of_nat (length c) + 1)) as [->|Hk].
  - bcase; [lia|]. rewrite lookup_app_r by lia.
    by replace (Z.to_nat _ - length c)%nat with 0%nat by lia.
  - bcase; [done|]. destruct (decide (Z.to_nat (k - 1) < length c)%nat).
    + by rewrite lookup_app_l.
    + rewrite (lookup_ge_None_2 c) by lia. apply lookup_ge_None_2. rewrite length_app. simpl. lia.
Qed.

(** Room for one more element. *)
Lemma heap_room ctx st c mem :
  heap_rep ctx st c ->
  ctx.(array_size) + ctx.(array_size_increment) <= INT_MAX ->
  mem = true \/ zlen c + 1 < ctx.(array_size) ->
  let c1 := set_heap_size ctx (zlen c + 1) in
  total (fun r => r.1 = None /\ r.2.(higher_priority) = hp /\ r.2.(index) = idx /\
                  r.2.(heap_size) = zlen c + 1 /\ r.2.(array_size) = zlen r.2.(heap) /\
                  zlen c + 1 < zlen r.2.(heap) /\ 2 <= r.2.(array_size_increment) /\
                  repx c [] r.2.(heap))
    (if c1.(array_size) <=? zlen c + 1 then heap_resize c1 mem else Ok (None, c1)).
Proof.
  intros [Hhp Hidx Hsz Harr Hroom Hinc Hrep _ _ _] Hmax Hmem c1. subst c1. cbn.
  zlen_facts. destruct (Z.leb_spec (array_size ctx) (zlen c + 1)) as [Hle|Hlt]; cbn.
  - destruct Hmem as [->|]; [|lia]. unfold heap_resize. cbn.
    rewrite assert_int_ok by (unfold INT_MIN; lia). cbn.
    destruct (Z.ltb_spec (array_size ctx + array_size_increment ctx) 0); [lia|]. cbn.
    rewrite (take_ge (heap ctx)) by (unfold zlen in *; lia).
    set (h := _ ++ _). assert (zlen h = array_size ctx + array_size_increment ctx).
    { subst h. unfold zlen in *. rewrite length_app, length_replicate. lia. }
    split_and!; try done; try lia.
    + destruct Hroom as [|[? ->]]; [lia|]. rewrite zlen_nil in *. lia.
    + intros k x Hk Hx. subst h. pose proof (get_range _ _ _ Hx). rewrite rd_app_l; auto.
      destruct Hroom as [|[? ->]]; [lia|]. rewrite zlen_nil in *. lia.
  - split_and!; try done. lia.
Qed.

Lemma heap_insert_total ctx st c x mem :
  heap_wf ctx st c -> live st x -> x ∉ c ->
  ctx.(array_size) + ctx.(array_size_increment) <= INT_MAX ->
  mem = true \/ zlen c + 1 < ctx.(array_size) ->
  total (fun r => r.1.1 = None /\ exists ctx', r.1.2 = Some ctx' /\
                  queue_post st (x :: c) (ctx', r.2))
        (heap_insert (Some ctx) st (Some x) mem).
Proof.
  intros [Hr Ho] Hx Hn Hmax Hmem. pose proof (heap_room ctx st c mem Hr Hmax Hmem) as Hroom.
  pose proof Hr as [Hhp Hidx Hsz Harr Hrm Hinc Hrep Htr Hlv Hnd]. unfold heap_insert.
  assert (zlen c + 1 <= INT_MAX).
  { destruct Hrm as [|[? ->]]; [lia|]. unfold INT_MAX. rewrite zlen_nil. lia. }
  rewrite Hsz, assert_int_ok by (zlen_facts; unfold INT_MIN; lia). cbn [obind].
  apply total_bind. eapply total_mono; [exact Hroom|]. clear Hroom.
  intros [err ctx'] (H0 & H1 & H2 & H3 & H4 & H5 & H6 & H7). cbn in *. subst err.
  apply total_bind. eapply total_mono.
  - apply (float_up_total ctx' st (c ++ [x]) (zlen c + 1) x); auto.
    + by rewrite zlen_snoc.
    + by rewrite zlen_snoc.
    + apply Forall_app. auto.
    + apply NoDup_app. split_and!; [done|set_solver|apply NoDup_singleton].
    + intros k y Hk Hy. rewrite get_snoc in Hy. apply H7; [set_solver|].
      destruct (Z.eqb_spec k (zlen c + 1)); [set_solver|done].
    + intros Hi k y Hk Hy. rewrite get_snoc in Hy. apply Htr; [done|set_solver|].
      destruct (Z.eqb_spec k (zlen c + 1)); [set_solver|done].
    + by rewrite get_snoc, Z.eqb_refl.
    + split; intros k y z; rewrite !get_snoc.
      * intros Hk Hne. destruct (Z.eqb_spec k (zlen c + 1)); [done|]. intros Hy Hz.
        pose proof (get_range _ _ _ Hy). bcase_in Hz; [zdiv|]. by apply (Ho k).
      * intros Hk H2i Hy. destruct (Z.eqb_spec k (zlen c + 1)); [zdiv|].
        pose proof (get_range _ _ _ Hy). zdiv.
  - intros [ctx2 st2] (c' & Hp & Hw & Hk). cbn. split; [done|]. exists ctx2.
    split; [done|]. exists c'. split; [|done]. rewrite Hp. by rewrite Permutation_app_comm.
Qed.

(** The client changed the priority of the element at [i] only. *)
Definition reprioritised (P P' : A -> A -> bool) (x : A) : Prop :=
  forall y z, y <> x -> z <> x -> P' y z = P y z.

Lemma get_ne c i k x y : NoDup c -> get c i = Some x -> get c k = Some y -> k <> i -> y <> x.
Proof.
  intros Hnd Hx Hy Hne ->. pose proof (get_range _ _ _ Hx). pose proof (get_range _ _ _ Hy).
  apply get_lookup in Hx, Hy. pose proof (NoDup_lookup _ _ _ _ Hnd Hx Hy). lia.
Qed.

Lemma grandparent_ordered P (L : A -> Prop) c i k y z :
  (forall x y z, L x -> L y -> L z -> P x y = false -> P y z = false -> P x z = false) ->
  Forall L c -> ordered P c -> k / 2 = i -> 2 <= i -> get c k = Some y ->
  get c (i / 2) = Some z -> P y z = false.
Proof.
  intros Hnt HL Ho Hk Hi Hy Hz. pose proof (get_range _ _ _ Hy).
  destruct (get_is_some c i) as [x Hx]; [zdiv|].
  apply (Hnt y x z); [by eapply get_live|by eapply get_live|by eapply get_live| |].
  - apply (Ho k); [zdiv|done|]. by rewrite Hk.
  - by apply (Ho i).
Qed.

Lemma increased_up_inv P P' (L : A -> Prop) c i x :
  (forall x y z, L x -> L y -> L z -> P x y = false -> P y z = false -> P x z = false) ->
  Forall L c -> NoDup c -> ordered P c -> get c i = Some x -> reprioritised P P' x ->
  (forall y, P y x = false -> P' y x = false) -> up_inv P' c i.
Proof.
  intros Hnt HL Hnd Ho Hx Hre Hinc. split; intros k y z.
  - intros Hk Hne Hy Hz. pose proof (get_ne c i k x y Hnd Hx Hy Hne).
    destruct (Z.eq_dec (k / 2) i) as [<-|Hp].
    + simplify_eq. apply Hinc. by apply (Ho k).
    + rewrite Hre; [by apply (Ho k)|done|by eapply get_ne].
  - intros Hk Hi Hy Hz. rewrite Hre.
    + by apply (grandparent_ordered P L c i k).
    + eapply (get_ne c i k); eauto. zdiv.
    + eapply (get_ne c i (i / 2)); eauto. zdiv.
Qed.

Lemma decreased_down_inv P P' (L : A -> Prop) c i x :
  (forall x y z, L x -> L y -> L z -> P x y = false -> P y z = false -> P x z = false) ->
  Forall L c -> NoDup c -> ordered P c -> get c i = Some x -> reprioritised P P' x ->
  (forall y, P x y = false -> P' x y = false) -> down_inv P' c i.
Proof.
  intros Hnt HL Hnd Ho Hx Hre Hinc. split; intros k y z.
  - intros Hk Hne Hy Hz. destruct (Z.eq_dec k i) as [->|Hki].
    + simplify_eq. apply Hinc. by apply (Ho i).
    + rewrite Hre; [by apply (Ho k)|by eapply get_ne|by eapply get_ne].
  - intros Hk Hi Hy Hz. rewrite Hre.
    + by apply (grandparent_ordered P L c i k).
    + eapply (get_ne c i k); eauto. zdiv.
    + eapply (get_ne c i (i / 2)); eauto. zdiv.
Qed.

Lemma heap_increased_total ctx st c i x :
  heap_rep ctx st c -> get c i = Some x -> up_inv (prio st) c i ->
  total (fun r => r.1.1 = None /\ exists ctx', r.1.2 = Some ctx' /\ queue_post st c (ctx', r.2))
        (heap_increased (Some ctx) st i).
Proof.
  intros H Hx Hup. unfold heap_increased. rewrite (rep_guard ctx st c i x) by done.
  rewrite (rep_slot ctx st c i x) by done. cbn [obind].
  destruct (rep_hole ctx st c i H). pose proof (rep_room ctx st c i x H Hx). destruct H.
  apply total_bind. eapply total_mono; [by apply (float_up_total ctx st c i x)|].
  intros [ctx' st'] Hq. cbn. eauto.
Qed.

Lemma heap_decreased_total ctx st c i x :
  heap_rep ctx st c -> get c i = Some x -> down_inv (prio st) c i ->
  total (fun r => r.1.1 = None /\ exists ctx', r.1.2 = Some ctx' /\ queue_post st c (ctx', r.2))
        (heap_decreased (Some ctx) st i).
Proof.
  intros H Hx Hup. unfold heap_decreased. rewrite (rep_guard ctx st c i x) by done.
  rewrite (rep_slot ctx st c i x) by done. cbn [obind].
  destruct (rep_hole ctx st c i H). pose proof (rep_room ctx st c i x H Hx). destruct H.
  apply total_bind. eapply total_mono; [by apply (sink_down_total ctx st c i x)|].
  intros [ctx' st'] Hq. cbn. eauto.
Qed.

(** Deletion moves the last element [e] into the place of [x]. *)
Lemma get_last c e i x :
  get (c ++ [e]) i = Some x -> i <> zlen c + 1 -> get c i = Some x.
Proof. rewrite get_snoc. intros H Hi. destruct (Z.eqb_spec i (zlen c + 1)); [done|done]. Qed.

Lemma get_init c e k y : get c k = Some y -> get (c ++ [e]) k = Some y.
Proof.
  intros H. rewrite get_snoc. pose proof (get_range _ _ _ H).
  destruct (Z.eqb_spec k (zlen c + 1)); [lia|done].
Qed.

Lemma delete_perm c e i x :
  get c i = Some x -> Permutation (x :: <[Z.to_nat (i - 1) := e]> c) (c ++ [e]).
Proof.
  intros Hx. pose proof (get_range _ _ _ Hx).
  assert (Hn : Z.to_nat (zlen c + 1 - 1) = (length c + 0)%nat) by (unfold zlen; lia).
  rewrite <- (swap_perm (c ++ [e]) i (zlen c + 1) x e).
  - unfold swap. rewrite Hn, insert_app_r. cbn [list_insert insert].
    rewrite insert_app_l by (unfold zlen in *; lia).
    by rewrite (Permutation_app_comm _ [x]).
  - by apply get_init.
  - by rewrite get_snoc, Z.eqb_refl.
  - lia.
Qed.
Lemma ordered_prefix P c e : ordered P (c ++ [e]) -> ordered P c.
Proof. intros Ho k x y Hk Hx Hy. apply (Ho k); eauto using get_init. Qed.

Lemma delete_inv (P : A -> A -> bool) (L : A -> Prop) c e i x :
  (forall x, L x -> P x x = false) ->
  (forall x y z, L x -> L y -> L z -> P x y = true -> P y z = true -> P x z = true) ->
  (forall x y z, L x -> L y -> L z -> P x y = false -> P y z = false -> P x z = false) ->
  Forall L (c ++ [e]) -> ordered P c -> get c i = Some x ->
  if P e x then up_inv P (<[Z.to_nat (i - 1) := e]> c) i
  else down_inv P (<[Z.to_nat (i - 1) := e]> c) i.
Proof.
  intros Hir Htr Hnt HL Ho Hx. pose proof (get_range _ _ _ Hx).
  assert (HLc : Forall L c) by (by apply Forall_app in HL as [? _]).
  assert (HLe : L e) by (apply Forall_app in HL as [_ HL]; by inversion HL).
  assert (Hlv : forall k y, get c k = Some y -> L y) by (intros; by eapply get_live).
  pose proof (Hlv _ _ Hx) as HLx.
  assert (Hgp : forall k y z, k / 2 = i -> 2 <= i ->
    get (<[Z.to_nat (i - 1) := e]> c) k = Some y ->
    get (<[Z.to_nat (i - 1) := e]> c) (i / 2) = Some z -> P y z = false).
  { intros k y z Hk Hi. rewrite !get_set by lia.
    destruct (Z.eqb_spec k i); [zdiv|]. destruct (Z.eqb_spec (i / 2) i); [zdiv|].
    intros Hy Hz. by apply (grandparent_ordered P L c i k). }
  destruct (P e x) eqn:HP; (split; [|exact Hgp]); intros k y z Hk Hne;
    rewrite !get_set by lia.
  - destruct (Z.eqb_spec k i) as [|_]; [done|]. destruct (Z.eqb_spec (k / 2) i) as [Hp|_];
      [|by apply (Ho k)].
    intros Hy [= <-]. destruct (P y e) eqn:E; [|done].
    rewrite <- (Ho k y x); [symmetry; eapply (Htr y e x); eauto|done|done|by rewrite Hp].
  - destruct (Z.eqb_spec (k / 2) i) as [|_]; [done|].
    destruct (Z.eqb_spec k i) as [->|_]; [|by apply (Ho k)].
    intros [= <-] Hz. eapply (Hnt e x z); eauto.
Qed.

Lemma rep_prefix ctx st c e :
  heap_rep ctx st (c ++ [e]) -> heap_rep (set_heap_size ctx (zlen c)) st c.
Proof.
  intros [Hhp Hidx Hsz Harr Hrm Hinc Hrep Htr Hlv Hnd].
  apply Forall_app in Hlv as [Hlv _]. apply NoDup_app in Hnd as [Hnd _].
  assert (zlen c < zlen ctx.(heap)).
  { destruct Hrm as [Hrm|[_ Hrm]]; [rewrite zlen_snoc in Hrm; lia|by destruct c]. }
  split; cbn; auto.
  - intros k x Hk Hx. apply Hrep; [done|by apply get_init].
  - intros Hi k x Hk Hx. apply Htr; [done|done|by apply get_init].
Qed.

(** Overwriting the element at [i]. *)
Lemma rep_overwrite ctx st c i e :
  heap_rep ctx st c -> 1 <= i <= zlen c -> zlen c < zlen ctx.(heap) ->
  repx (<[Z.to_nat (i - 1) := e]> c) [i] (<[Z.to_nat i := Some e]> ctx.(heap)) /\
  tracked st (<[Z.to_nat (i - 1) := e]> c) [i] /\
  rd (<[Z.to_nat i := Some e]> ctx.(heap)) i = Ok (Some e).
Proof.
  intros [_ _ _ _ _ _ Hrep Htr _ _] Hi Hr. split_and!.
  - intros k x Hk Hx. rewrite get_set in Hx by done.
    destruct (Z.eqb_spec k i); [set_solver|]. rewrite rd_wr_ne by lia. by apply Hrep; [set_solver|].
  - intros Hix k x Hk Hx. rewrite get_set in Hx by done.
    destruct (Z.eqb_spec k i); [set_solver|]. by apply Htr; [|set_solver|].
  - apply rd_wr_eq. lia.
Qed.

Lemma heap_delete_total ctx st c i x :
  heap_wf ctx st c -> get c i = Some x ->
  total (fun r => r.1.1 = None /\ exists ctx' c', r.1.2 = Some ctx' /\
                  Permutation (x :: c') c /\ queue_post st c' (ctx', r.2))
        (heap_delete (Some ctx) st i).
Proof.
  intros [Hr Ho] Hx. unfold heap_delete. rewrite (rep_guard ctx st c i x) by done.
  pose proof (get_range _ _ _ Hx) as Hi. pose proof (rep_room ctx st c i x Hr Hx) as Hroom.
  destruct c as [|e c _] using rev_ind; [rewrite zlen_nil in Hi; lia|].
  rewrite (wf_size _ _ _ Hr), zlen_snoc in *.
  assert (He : get (c ++ [e]) (zlen c + 1) = Some e) by (by rewrite get_snoc, Z.eqb_refl).
  pose proof (rep_prefix ctx st c e Hr) as Hr1. pose proof (ordered_prefix _ c e Ho) as Ho1.
  replace (zlen c + 1 - 1) with (zlen c) by lia.
  destruct (Z.eqb_spec i (zlen c + 1)) as [->|Hne].
  - cbn. split; [done|]. exists (set_heap_size ctx (zlen c)), c. simplify_eq.
    split_and!; [done|by rewrite Permutation_app_comm|]. exists c. split_and!; auto using same_refl; done.
  - apply get_last in Hx; [|done]. rewrite (rep_slot ctx st _ _ e Hr He). cbn [obind].
    rewrite (rep_slot _ st c i x Hr1 Hx). cbn [obind].
    pose proof (get_live (live st) _ _ _ (wf_live _ _ _ Hr) He) as HLe.
    pose proof (get_live (live st) _ _ _ (wf_live _ _ _ Hr1) Hx) as HLx.
    rewrite (wf_hp _ _ _ Hr1), hp_ok by done. cbn [obind set_heap_size heap].
    rewrite wr_ok by lia. cbn [obind].
    destruct (rep_overwrite _ st c i e Hr1) as (Hrep & Htr & Hrd); [lia|cbn; lia|].
    cbn [set_heap_size heap] in *. unfold slot at 1. cbn [set_heap heap]. rewrite Hrd. cbn [obind].
    pose proof (delete_inv (prio st) (live st) c e i x (prio_irrefl st) (prio_trans st)
                  (prio_ntrans st) (wf_live _ _ _ Hr) Ho1 Hx) as Hinv.
    pose proof (delete_perm c e i x Hx) as Hp. pose proof Hr1 as [? ? ? ? ? ? ? ? ? ?]. cbn in *.
    assert (Hnd : NoDup (<[Z.to_nat (i - 1) := e]> c)).
    { pose proof (wf_nodup _ _ _ Hr) as Hnd. rewrite <- Hp in Hnd. by inversion Hnd. }
    assert (Hlv : Forall (live st) (<[Z.to_nat (i - 1) := e]> c)).
    { pose proof (wf_live _ _ _ Hr) as Hlv. rewrite <- Hp in Hlv. by inversion Hlv. }
    set (c' := <[Z.to_nat (i - 1):=e]> c) in *.
    assert (Hc' : zlen c' = zlen c) by (subst c'; by autorewrite with zlen).
    assert (Hgi : get c' i = Some e) by (subst c'; rewrite get_set by lia; by rewrite Z.eqb_refl).
    apply total_bind. eapply (total_mono (queue_post st c')).
    + destruct (prio st e x).
      * apply (float_up_total _ st c' i e); cbn; autorewrite with zlen; auto; lia.
      * apply (sink_down_total _ st c' i e); cbn; autorewrite with zlen; auto; lia.
    + intros [ctx' st'] Hq. cbn. split; [done|]. eauto.
Qed.

Lemma heap_element_total ctx st c i x :
  heap_rep ctx st c -> get c i = Some x -> heap_element (Some ctx) i = Ok x.
Proof.
  intros Hr Hx. unfold heap_element. rewrite (rep_guard ctx st c i x) by done.
  by apply (rep_slot ctx st c).
Qed.

Lemma heap_element_none ctx st c i :
  heap_rep ctx st c -> get c i = None -> heap_element (Some ctx) i = Err EINVAL.
Proof.
  intros Hr Hx. unfold heap_element. rewrite (wf_size _ _ _ Hr).
  destruct (Z.ltb_spec i 1); [done|]. destruct (Z.ltb_spec (zlen c) i); [done|].
  destruct (get_is_some c i) as [y Hy]; [lia|congruence].
Qed.

(** [heap_for_each] runs the action on every element, from the first. *)
Lemma heap_for_each_total (action : A -> St -> outcome St) ctx st c :
  heap_rep ctx st c ->
  heap_for_each (Some ctx) (Some action) st =
  (st' <- foldl (fun m x => s <- m;; action x s) (Ok st) c;; Ok (None, st')).
Proof.
  intros Hr. unfold heap_for_each. rewrite (wf_size _ _ _ Hr). unfold zlen. rewrite Nat2Z.id.
  f_equal.
  assert (H : forall d pre m, pre ++ d = c ->
    (s <- m;; for_each_slots ctx.(heap) action (zlen pre + 1) (length d) s) =
    foldl (fun m x => s <- m;; action x s) m d).
  { induction d as [|x d IH]; intros pre m Hc; cbn; [by destruct m|].
    rewrite <- (IH (pre ++ [x])), zlen_snoc by (by rewrite <- app_assoc).
    destruct m as [s| | |]; cbn; auto. rewrite (rep_slot ctx st c _ x); [done|done|].
    subst c. unfold get. bcase; [zl|]. rewrite list_lookup_middle; [done|unfold zlen; lia]. }
  exact (H c [] (Ok st) eq_refl).
Qed.
End Client.

Section HeapTheorems.
  Context {A St : Type} {hp : St -> A -> A -> outcome bool}
          {idx : option (A -> Z -> St -> outcome St)} `{!HeapClient hp idx}.
  Implicit Types (st : St) (c : list A) (ctx : heap_context A St).

(** Taking the first element until none is left. *)
Fixpoint drain (n : nat) ctx st : outcome (list A) :=
  match n with
  | O => Ok []
  | S n =>
      x <- heap_element (Some ctx) 1;;
      let! (_, ctx', st) := heap_delete (Some ctx) st 1 in
      match ctx' with
      | None => Fault
      | Some ctx => l <- drain n ctx st;; Ok (x :: l)
      end
  end.

Lemma drain_total n ctx st c :
  heap_wf ctx st c -> length c = n ->
  total (fun l => Permutation l c /\ StronglySorted (fun x y => prio st y x = false) l)
        (drain n ctx st).
Proof.
  revert ctx st c. induction n as [|n IH]; intros ctx st c Hw Hn.
  { destruct c; [|done]. split; constructor. }
  destruct (get_is_some c 1) as [x Hx]; [unfold zlen; lia|]. cbn [drain].
  rewrite (heap_element_total ctx st c 1 x) by (auto; apply Hw). cbn [obind].
  apply total_bind. eapply total_mono; [by apply (heap_delete_total ctx st c 1 x)|].
  intros [[err o] st'] (_ & ctx' & c' & Ho & Hp & c2 & Hp2 & Hw2 & Hk). cbn in *. subst o.
  apply total_bind. eapply total_mono; [apply (IH ctx' st' c2 Hw2)|].
  { apply Permutation_length in Hp, Hp2. cbn in *. lia. }
  intros l [Hl Hs]. cbn. split; [by rewrite Hl, Hp2|]. constructor.
  - clear Hl. induction Hs as [|y l Hs IHs Hf]; constructor; [done|].
    eapply Forall_impl; [exact Hf|]. intros z. cbn. by rewrite (same_prio _ _ _ _ Hk).
  - pose proof (ordered_first (prio st) (live st) (prio_irrefl st) (prio_ntrans st) c x
                  (wf_live _ _ _ (proj1 Hw)) (proj2 Hw) Hx) as Hf.
    rewrite <- Hp in Hf. inversion Hf; subst. by rewrite Hl, Hp2.
Qed.

(** C7: [heap_insert] of a live element that the queue does not hold returns
    0, same the array a heap whose first element has the highest priority,
    adds exactly that element, and leaves every element with its current
    subscript in its index field.  It needs memory only when the array is
    full. *)
Theorem heap_insert_correct ctx st c x mem :
  heap_wf ctx st c -> live st x -> x ∉ c ->
  ctx.(array_size) + ctx.(array_size_increment) <= INT_MAX ->
  mem = true \/ zlen c + 1 < ctx.(array_size) ->
  exists ctx' st' c', heap_insert (Some ctx) st (Some x) mem = Ok (None, Some ctx', st') /\
    Permutation c' (x :: c) /\ heap_wf ctx' st' c' /\ same st st'.
Proof.
  intros. destruct (proj1 (total_ok _ _) (heap_insert_total ctx st c x mem ltac:(done)
    ltac:(done) ltac:(done) ltac:(done) ltac:(done))) as ([[err o] st'] & -> & H').
  cbn in H'. destruct H' as (-> & ctx' & -> & c' & ? & ? & ?). cbn in *. naive_solver.
Qed.

(** C8: [heap_delete] of a subscript of the queue returns 0, removes exactly
    the element that stood there, and same the array a heap with correct
    index fields. *)
Theorem heap_delete_correct ctx st c i x :
  heap_wf ctx st c -> get c i = Some x ->
  exists ctx' st' c', heap_delete (Some ctx) st i = Ok (None, Some ctx', st') /\
    Permutation (x :: c') c /\ heap_wf ctx' st' c' /\ same st st'.
Proof.
  intros Hw Hx. destruct (proj1 (total_ok _ _) (heap_delete_total ctx st c i x Hw Hx))
    as ([[err o] st'] & -> & H').
  cbn in H'. destruct H' as (-> & ctx' & c1 & -> & Hp & c' & Hc' & ? & ?). cbn in *.
  exists ctx', st', c'. split; [done|]. split; [by rewrite Hc'|done].
Qed.

(** Taking the first element of a queue until it is empty gives all of its
    elements in the order of their priorities. *)
Theorem heap_drain_sorted ctx st c :
  heap_wf ctx st c ->
  exists l, drain (length c) ctx st = Ok l /\ Permutation l c /\
            StronglySorted (fun x y => prio st y x = false) l.
Proof. intros Hw. exact (proj1 (total_ok _ _) (drain_total _ ctx st c Hw eq_refl)). Qed.

(** When [realloc] fails, [heap_insert] returns -1 but leaves [heap_size]
    incremented: the queue then claims an element that was never stored, and
    [heap_element] of the new subscript reads beyond the array. *)
Theorem heap_insert_nomem_counts ctx st c x :
  heap_wf ctx st c -> ctx.(array_size) <= zlen c + 1 ->
  ctx.(array_size) + ctx.(array_size_increment) <= INT_MAX ->
  exists ctx', heap_insert (Some ctx) st (Some x) false = Ok (Some ENOMEM, Some ctx', st) /\
    ctx'.(heap_size) = zlen c + 1 /\ ctx'.(heap) = ctx.(heap) /\
    heap_element (Some ctx') (zlen c + 1) = Fault.
Proof.
  intros [[Hhp Hidx Hsz Harr Hrm Hinc Hrep Htr Hlv Hnd] _] Hfull Hmax.
  zlen_facts. assert (zlen c + 1 <= INT_MAX) by (destruct Hrm as [|[? ->]]; [lia|done]).
  unfold heap_insert. rewrite Hsz, assert_int_ok by (unfold INT_MIN; lia). cbn.
  rewrite (proj2 (Z.leb_le _ _)) by lia. unfold heap_resize. cbn.
  rewrite assert_int_ok by (unfold INT_MIN; lia). cbn. eexists. split_and!; [done..|].
  cbn. rewrite (proj2 (Z.ltb_ge _ _)) by lia. rewrite (proj2 (Z.ltb_ge _ _)) by lia. cbn.
  unfold slot. rewrite rd_fault; [done|lia].
Qed.

(** A queue created with an [array_size_increment] of 1 has room for one
    slot when the first element arrives; the element goes to subscript 1,
    beyond that slot. *)
Theorem heap_increment_one_overflows x st ctx :
  heap_new (Some hp) idx 1 true = Some ctx ->
  heap_insert (Some ctx) st (Some x) true = Fault.
Proof. intros [= <-]. reflexivity. Qed.
End HeapTheorems.

(** ** Witnesses: integers in their order, whose indices the store lists. *)

Definition Z_hp (st : list (Z * Z)) (x y : Z) : outcome bool := Ok (x <? y).
Definition Z_index (x i : Z) (st : list (Z * Z)) : outcome (list (Z * Z)) := Ok ((x, i) :: st).

Fixpoint Z_pos (st : list (Z * Z)) (x : Z) : Z :=
  match st with
  | [] => 0
  | (y, i) :: st => if x =? y then i else Z_pos st x
  end.

#[refine] #[export] Instance Z_client : HeapClient Z_hp (Some Z_index) := {|
  live _ _ := True;
  prio _ x y := x <? y;
  pos := Z_pos;
  same _ _ := True;
|}.
Proof.
  - done.
  - done.
  - done.
  - done.
  - done.
  - intros _ x _. apply Z.ltb_irrefl.
  - intros _ x y z _ _ _ Hx Hy. zbool. apply Z.ltb_lt. lia.
  - intros _ x y z _ _ _ Hx Hy. zbool. apply Z.ltb_ge. lia.
  - intros f st x i [= <-] _. cbn. split_and!; [done|by rewrite Z.eqb_refl|].
    intros y Hy. by destruct (Z.eqb_spec y x).
Defined.

Definition Z_queue : heap_context Z (list (Z * Z)) :=
  mk_heap 4 4 2 [None; Some 3; Some 5; None] Z_hp (Some Z_index).

Definition Z_store : list (Z * Z) := [(5, 2); (3, 1)].

Lemma Z_queue_cases k x : get [3; 5] k = Some x -> k = 1 /\ x = 3 \/ k = 2 /\ x = 5.
Proof.
  intros H. pose proof (get_range _ _ _ H) as Hk. unfold zlen in Hk. cbn in Hk.
  assert (k = 1 \/ k = 2) as [-> | ->] by lia; cbn in H; injection H as <-; auto.
Qed.

Lemma Z_queue_wf : heap_wf Z_queue Z_store [3; 5].
Proof.
  split.
  - split; try done.
    + by left.
    + intros k x _ [[-> ->]|[-> ->]]%Z_queue_cases; done.
    + intros _ k x _ [[-> ->]|[-> ->]]%Z_queue_cases; done.
    + repeat constructor.
    + apply (bool_decide_unpack _). by vm_compute.
  - intros k x y Hk [[-> ->]|[-> ->]]%Z_queue_cases; [lia|].
    cbn. by intros [= <-].
Qed.

Lemma heap_insert_correct_witness :
  exists ctx' st' c', heap_insert (Some Z_queue) Z_store (Some 1) false
                      = Ok (None, Some ctx', st') /\
    Permutation c' [1; 3; 5] /\ heap_wf ctx' st' c' /\ same Z_store st'.
Proof.
  apply (heap_insert_correct Z_queue Z_store [3; 5] 1 false Z_queue_wf I).
  - set_solver.
  - by vm_compute.
  - by right.
Defined.

Lemma heap_delete_correct_witness :
  exists ctx' st' c', heap_delete (Some Z_queue) Z_store 1 = Ok (None, Some ctx', st') /\
    Permutation (3 :: c') [3; 5] /\ heap_wf ctx' st' c' /\ same Z_store st'.
Proof. exact (heap_delete_correct Z_queue Z_store [3; 5] 1 3 Z_queue_wf eq_refl). Defined.

Lemma heap_drain_sorted_witness :
  exists l, drain 2 Z_queue Z_store = Ok l /\ Permutation l [3; 5] /\
            StronglySorted (fun x y => (y <? x) = false) l.
Proof. exact (heap_drain_sorted Z_queue Z_store [3; 5] Z_queue_wf). Defined.

Lemma Z_empty_wf : heap_wf (mk_heap 0 4 0 [] Z_hp (Some Z_index)) [] [].
Proof.
  assert (Hn : forall k x, get (@nil Z) k = Some x -> False).
  { intros k x H%get_range. rewrite zlen_nil in H. lia. }
  split; [split; try done|].
  - by right.
  - intros k x _ Hx. destruct (Hn k x Hx).
  - intros _ k x _ Hx. destruct (Hn k x Hx).
  - apply NoDup_nil_2.
  - intros k x y _ Hx. destruct (Hn k x Hx).
Qed.

Lemma heap_insert_nomem_counts_witness :
  exists ctx', heap_insert (Some (mk_heap 0 4 0 [] Z_hp (Some Z_index))) [] (Some 7) false
               = Ok (Some ENOMEM, Some ctx', []) /\
    ctx'.(heap_size) = 1 /\ ctx'.(heap) = [] /\ heap_element (Some ctx') 1 = Fault.
Proof.
  apply (heap_insert_nomem_counts _ [] [] 7 Z_empty_wf); by vm_compute.
Defined.

Lemma heap_increment_one_overflows_witness :
  heap_insert (heap_new (Some Z_hp) (Some Z_index) 1 true) [] (Some 7) true = Fault.
Proof.
  exact (heap_increment_one_overflows (hp:=Z_hp) (idx:=Some Z_index) 7 []
           (mk_heap 0 1 0 [] Z_hp (Some Z_index)) eq_refl).
Defined.
