(* ===== verification/EvTimers.v ===== *)
(** * isc/ev_timers.c: the timers of the event library

    [struct timespec] arithmetic with [long] overflow as a [Fault], and the
    timers of an event context: the queue of [isc/heap.c] holding pointers to
    [evTimer] objects, which its callbacks [due_sooner] and [set_index] read
    and write through the pointers, and which the operations below change in
    place while they are queued.  The memory is a finite map per type of
    object; following a pointer to no object is a [Fault].  [memget] is an
    argument: the pointer it returns, if any, and the old contents of that
    memory.  A user's timer function is an argument that may change the
    context.  Debug output is not modelled.

    The theorems: the arithmetic; the instance of the interface of the queue;
    and that setting, resetting, clearing and rescheduling timers keeps the
    queue a heap of exactly the timers that are set, each with its own
    index. *)
From Stdlib Require Import ZArith Lia List Bool String.
From stdpp Require Import base tactics list numbers sets gmap.
From S2P Require Import Prelude IscHeap.
Local Open Scope Z_scope.
Local Open Scope c_scope.

Definition MILLION : Z := 1000000.
Definition BILLION : Z := 1000000000.

Definition LONG_MAX : Z := 9223372036854775807.
Definition LONG_MIN : Z := -9223372036854775808.

(** The result of signed [long] arithmetic. *)
Definition clong (x : Z) : outcome Z :=
  if (LONG_MIN <=? x) && (x <=? LONG_MAX) then Ok x else Fault.

Record timespec : Type := mk_timespec { tv_sec : Z; tv_nsec : Z }.
Record timeval : Type := mk_timeval { tv_sec' : Z; tv_usec : Z }.

#[export] Instance timespec_eq_dec : EqDecision timespec.
Proof. solve_decision. Defined.

Definition evConsTime (sec nsec : Z) : timespec := mk_timespec sec nsec.

Definition evAddTime (addend1 addend2 : timespec) : outcome timespec :=
  sec <- clong (addend1.(tv_sec) + addend2.(tv_sec));;
  nsec <- clong (addend1.(tv_nsec) + addend2.(tv_nsec));;
  if BILLION <=? nsec then
    sec <- clong (sec + 1);;
    nsec <- clong (nsec - BILLION);;
    Ok (mk_timespec sec nsec)
  else Ok (mk_timespec sec nsec).

Definition evSubTime (minuend subtrahend : timespec) : outcome timespec :=
  sec <- clong (minuend.(tv_sec) - subtrahend.(tv_sec));;
  if subtrahend.(tv_nsec) <=? minuend.(tv_nsec) then
    nsec <- clong (minuend.(tv_nsec) - subtrahend.(tv_nsec));;
    Ok (mk_timespec sec nsec)
  else
    d <- clong (BILLION - subtrahend.(tv_nsec));;
    nsec <- clong (d + minuend.(tv_nsec));;
    sec <- clong (sec - 1);;
    Ok (mk_timespec sec nsec).

Definition evCmpTime (a b : timespec) : outcome Z :=
  x <- clong (a.(tv_sec) - b.(tv_sec));;
  x <- (if x =? 0 then clong (a.(tv_nsec) - b.(tv_nsec)) else Ok x);;
  Ok (if x <? 0 then -1 else if 0 <? x then 1 else 0).

Definition evTimeSpec (tv : timeval) : outcome timespec :=
  nsec <- clong (tv.(tv_usec) * 1000);;
  Ok (mk_timespec tv.(tv_sec') nsec).

Definition evTimeVal (ts : timespec) : timeval :=
  mk_timeval ts.(tv_sec) (Z.quot ts.(tv_nsec) 1000).

(** ** The memory and the context *)

Definition EV_TMR_RATE : Z := 1.

Record evTimer : Type := mk_evTimer {
  func : Z;
  uap : Z;
  due : timespec;
  inter : timespec;
  index : Z;
  mode : Z;
}.

Record idle_timer : Type := mk_idle {
  i_func : Z;
  i_uap : Z;
  lastTouched : timespec;
  max_idle : timespec;
  timer : Z;
}.

Notation tstore := (gmap Z evTimer).

Definition set_index (what : Z) (i : Z) (st : tstore) : outcome tstore :=
  match st !! what with
  | None => Fault
  | Some t =>
      Ok (<[what := mk_evTimer t.(func) t.(uap) t.(due) t.(inter) i t.(mode)]> st)
  end.

Definition due_sooner (st : tstore) (a b : Z) : outcome bool :=
  match st !! a, st !! b with
  | Some a_timer, Some b_timer =>
      c <- evCmpTime a_timer.(due) b_timer.(due);;
      Ok (c <? 0)
  | _, _ => Fault
  end.

(** The part of [evContext_p] that the timers use: [cur] is the timer that is
    being dispatched, [timers] the queue; [mem] and [idle_mem] are the memory
    of the [evTimer] and [idle_timer] objects. *)
Record evContext_p : Type := mk_ev {
  cur : option Z;
  lastEventTime : timespec;
  timers : option (heap_context Z tstore);
  mem : tstore;
  idle_mem : gmap Z idle_timer;
}.

Definition set_timers (ctx : evContext_p) (h : option (heap_context Z tstore)) (st : tstore)
    : evContext_p :=
  mk_ev ctx.(cur) ctx.(lastEventTime) h st ctx.(idle_mem).

Definition set_mem (ctx : evContext_p) (st : tstore) : evContext_p :=
  set_timers ctx ctx.(timers) st.

Definition set_idle (ctx : evContext_p) (m : gmap Z idle_timer) : evContext_p :=
  mk_ev ctx.(cur) ctx.(lastEventTime) ctx.(timers) ctx.(mem) m.

Definition set_inter (t : evTimer) (d : timespec) : evTimer :=
  mk_evTimer t.(func) t.(uap) t.(due) d t.(index) t.(mode).

Definition set_mode (t : evTimer) (m : Z) : evTimer :=
  mk_evTimer t.(func) t.(uap) t.(due) t.(inter) t.(index) m.

(** [p->field] *)
Definition deref {T} (m : gmap Z T) (p : Z) : outcome T :=
  match m !! p with Some t => Ok t | None => Fault end.

(** 0, or -1 with [errno]. *)
Definition ev_ret : Type := option errno * evContext_p.

(** [heap_element(ctx->timers, i) == p] *)
Definition element_is (ctx : evContext_p) (i p : Z) : outcome bool :=
  match heap_element ctx.(timers) i with
  | Ok q => Ok (q =? p)
  | Err _ => Ok false
  | Fault => Fault
  | NoFuel => NoFuel
  end.

Definition bad_time (t : timespec) : bool :=
  (t.(tv_sec) <? 0) || (t.(tv_nsec) <? 0) || (BILLION <=? t.(tv_nsec)).

(** [evCreateTimers] *)
Definition evCreateTimers (m : bool) : option (heap_context Z tstore) :=
  heap_new (Some due_sooner) (Some set_index) 2048 m.

Definition free_timer (what : Z) (st : tstore) : outcome tstore :=
  t <- deref st what;;
  Ok (delete what st).

Definition evDestroyTimers (ctx : evContext_p) : outcome evContext_p :=
  let! (_, st) := heap_for_each ctx.(timers) (Some free_timer) ctx.(mem) in
  Ok (set_timers ctx None st).

(** [evSetTimer]: [now] is what [evNowTime] reads, [new] the fresh memory.
    The second component is [opaqueID->opaque] after the call. *)
Definition evSetTimer (ctx : evContext_p) (f u : Z) (d i : timespec)
    (now : timespec) (new : option (Z * evTimer)) (grow : bool)
    : outcome (option errno * option Z * evContext_p) :=
  if bad_time d then Ok (Some EINVAL, None, ctx)
  else if bad_time i then Ok (Some EINVAL, None, ctx)
  else
    let d := if (d.(tv_sec) =? 0) && (d.(tv_nsec) =? 0) then now else d in
    match new with
    | None => Ok (Some ENOMEM, None, ctx)
    | Some (id, junk) =>
        let st := <[id := mk_evTimer f u d i junk.(index) junk.(mode)]> ctx.(mem) in
        let! (err, h, st) := heap_insert ctx.(timers) st (Some id) grow in
        match err with
        | Some e => Ok (Some e, None, set_timers ctx h st)
        | None => Ok (None, Some id, set_timers ctx h st)
        end
    end.

Definition evClearTimer (ctx : evContext_p) (del : Z) : outcome ev_ret :=
  if bool_decide (ctx.(cur) = Some del) then
    t <- deref ctx.(mem) del;;
    Ok (None, set_mem ctx (<[del := set_inter t (evConsTime 0 0)]> ctx.(mem)))
  else
    t <- deref ctx.(mem) del;;
    b <- element_is ctx t.(index) del;;
    if negb b then Ok (Some ENOENT, ctx)
    else
      let! (err, h, st) := heap_delete ctx.(timers) ctx.(mem) t.(index) in
      match err with
      | Some e => Ok (Some e, set_timers ctx h st)
      | None => Ok (None, set_timers ctx h (delete del st))
      end.

Definition evConfigTimer (ctx : evContext_p) (id : Z) (param : string) : outcome ev_ret :=
  t <- deref ctx.(mem) id;;
  b <- element_is ctx t.(index) id;;
  if negb b then Ok (Some ENOENT, ctx)
  else if String.eqb param "rate" then
    Ok (None, set_mem ctx (<[id := set_mode t (Z.lor t.(mode) EV_TMR_RATE)]> ctx.(mem)))
  else if String.eqb param "interval" then
    Ok (None, set_mem ctx (<[id := set_mode t (Z.land t.(mode) (Z.lnot EV_TMR_RATE))]> ctx.(mem)))
  else Ok (Some EINVAL, ctx).

Definition evResetTimer (ctx : evContext_p) (id : Z) (f u : Z) (d i : timespec)
    : outcome ev_ret :=
  t <- deref ctx.(mem) id;;
  b <- element_is ctx t.(index) id;;
  if negb b then Ok (Some ENOENT, ctx)
  else if bad_time d then Ok (Some EINVAL, ctx)
  else if bad_time i then Ok (Some EINVAL, ctx)
  else
    let old_due := t.(due) in
    let st := <[id := mk_evTimer f u d i t.(index) t.(mode)]> ctx.(mem) in
    c <- evCmpTime d old_due;;
    if c =? -1 then
      let! (err, h, st) := heap_increased ctx.(timers) st t.(index) in
      Ok (err, set_timers ctx h st)
    else if c =? 0 then Ok (None, set_mem ctx st)
    else if c =? 1 then
      let! (err, h, st) := heap_decreased ctx.(timers) st t.(index) in
      Ok (err, set_timers ctx h st)
    else Ok (None, set_mem ctx st).

(** ** Idle timers.  [idle_timeout] is the address of the function below. *)

Definition evSetIdleTimer (idle_timeout : Z) (ctx : evContext_p) (f u : Z)
    (maxi : timespec) (now : timespec) (new_tt : option (Z * idle_timer))
    (new : option (Z * evTimer)) (grow : bool)
    : outcome (option errno * option Z * evContext_p) :=
  match new_tt with
  | None => Ok (Some ENOMEM, None, ctx)
  | Some (itp, junk) =>
      let ctx := set_idle ctx
        (<[itp := mk_idle f u ctx.(lastEventTime) maxi junk.(timer)]> ctx.(idle_mem)) in
      d <- evAddTime ctx.(lastEventTime) maxi;;
      let! (err, oid, ctx) := evSetTimer ctx idle_timeout itp d maxi now new grow in
      match err with
      | Some e => Ok (Some e, oid, set_idle ctx (delete itp ctx.(idle_mem)))
      | None =>
          match oid with
          | None => Fault
          | Some id =>
              t <- deref ctx.(idle_mem) itp;;
              Ok (None, Some id, set_idle ctx
                (<[itp := mk_idle t.(i_func) t.(i_uap) t.(lastTouched) t.(max_idle) id]>
                   ctx.(idle_mem)))
          end
      end
  end.

Definition evClearIdleTimer (ctx : evContext_p) (id : Z) : outcome ev_ret :=
  del <- deref ctx.(mem) id;;
  let ctx := set_idle ctx (delete del.(uap) ctx.(idle_mem)) in
  evClearTimer ctx id.

Definition evResetIdleTimer (idle_timeout : Z) (ctx : evContext_p) (id : Z) (f u : Z)
    (maxi : timespec) : outcome ev_ret :=
  t <- deref ctx.(mem) id;;
  it <- deref ctx.(idle_mem) t.(uap);;
  let ctx := set_idle ctx
    (<[t.(uap) := mk_idle f u ctx.(lastEventTime) maxi it.(timer)]> ctx.(idle_mem)) in
  d <- evAddTime ctx.(lastEventTime) maxi;;
  evResetTimer ctx id idle_timeout t.(uap) d maxi.

Definition evTouchIdleTimer (ctx : evContext_p) (id : Z) : outcome ev_ret :=
  t <- deref ctx.(mem) id;;
  it <- deref ctx.(idle_mem) t.(uap);;
  Ok (None, set_idle ctx
    (<[t.(uap) := mk_idle it.(i_func) it.(i_uap) ctx.(lastEventTime) it.(max_idle)
                    it.(timer)]> ctx.(idle_mem))).

(** [idle_timeout]: the timer function of an idle timer; [call] runs a user's
    function. *)
Definition idle_timeout (call : Z -> Z -> timespec -> timespec -> evContext_p -> outcome evContext_p)
    (ctx : evContext_p) (this : Z) : outcome evContext_p :=
  it <- deref ctx.(idle_mem) this;;
  idle <- evSubTime ctx.(lastEventTime) it.(lastTouched);;
  c <- evCmpTime idle it.(max_idle);;
  if 0 <=? c then
    t <- deref ctx.(mem) it.(timer);;
    ctx <- call it.(i_func) it.(i_uap) t.(due) it.(max_idle) ctx;;
    it <- deref ctx.(idle_mem) this;;
    t <- deref ctx.(mem) it.(timer);;
    let ctx := set_mem ctx (<[it.(timer) := set_inter t (evConsTime 0 0)]> ctx.(mem)) in
    Ok (set_idle ctx (delete this ctx.(idle_mem)))
  else
    i <- evSubTime it.(max_idle) idle;;
    t <- deref ctx.(mem) it.(timer);;
    Ok (set_mem ctx (<[it.(timer) := set_inter t i]> ctx.(mem))).

(** The Timer case of [evDrop] (isc/eventlib.c): after a timer's function has
    run, the timer is deleted or set to its next interval. *)
Definition evDrop_timer (ctx : evContext_p) (this : Z) : outcome evContext_p :=
  t <- deref ctx.(mem) this;;
  b <- element_is ctx t.(index) this;;
  if negb b then Ok ctx
  else if (t.(inter).(tv_sec) =? 0) && (t.(inter).(tv_nsec) =? 0) then
    r <- evClearTimer ctx this;;
    Ok r.2
  else
    d <- evAddTime (if negb (Z.land t.(mode) EV_TMR_RATE =? 0) then t.(due)
                    else ctx.(lastEventTime)) t.(inter);;
    r <- evResetTimer ctx this t.(func) t.(uap) d t.(inter);;
    Ok r.2.

(** The Timer case of [evDispatch], with the [evDrop] that ends it. *)
Definition evDispatch_timer (call : Z -> Z -> timespec -> timespec -> evContext_p -> outcome evContext_p)
    (ctx : evContext_p) (this : Z) : outcome evContext_p :=
  let ctx := mk_ev (Some this) ctx.(lastEventTime) ctx.(timers) ctx.(mem) ctx.(idle_mem) in
  t <- deref ctx.(mem) this;;
  ctx <- call t.(func) t.(uap) t.(due) t.(inter) ctx;;
  let ctx := mk_ev None ctx.(lastEventTime) ctx.(timers) ctx.(mem) ctx.(idle_mem) in
  evDrop_timer ctx this.

(** ** Time *)

Definition time_ok (t : timespec) : Prop :=
  0 <= t.(tv_sec) <= LONG_MAX /\ 0 <= t.(tv_nsec) < BILLION.

Definition ns (t : timespec) : Z := t.(tv_sec) * BILLION + t.(tv_nsec).

Lemma clong_ok x : LONG_MIN <= x <= LONG_MAX -> clong x = Ok x.
Proof. intros. unfold clong. by rewrite !(proj2 (Z.leb_le _ _)) by lia. Qed.

Local Ltac tunf :=
  unfold time_ok, ns, BILLION, LONG_MAX, LONG_MIN in *; cbn [tv_sec tv_nsec] in *.

Lemma bad_time_ok t : bad_time t = false -> t.(tv_sec) <= LONG_MAX -> time_ok t.
Proof. unfold bad_time. intros H Hm. zbool. split; lia. Qed.

Lemma bad_time_false t : time_ok t -> bad_time t = false.
Proof.
  intros [? ?]. unfold bad_time. rewrite !(proj2 (Z.ltb_ge _ _)) by lia.
  by rewrite (proj2 (Z.leb_gt _ _)) by lia.
Qed.

Lemma evCmpTime_ns a b :
  time_ok a -> time_ok b -> evCmpTime a b = Ok (Z.sgn (ns a - ns b)).
Proof.
  intros Ha Hb. unfold evCmpTime. rewrite clong_ok by (tunf; lia). cbn [obind].
  destruct (Z.eqb_spec (tv_sec a - tv_sec b) 0) as [E|E].
  - rewrite clong_ok by (tunf; lia). cbn [obind]. f_equal.
    repeat bcase; destruct (Z.sgn_spec (ns a - ns b)) as [[? ->]|[[? ->]|[? ->]]];
      tunf; lia.
  - cbn [obind]. f_equal.
    repeat bcase; destruct (Z.sgn_spec (ns a - ns b)) as [[? ->]|[[? ->]|[? ->]]];
      tunf; lia.
Qed.

Lemma ns_inj a b : time_ok a -> time_ok b -> ns a = ns b -> a = b.
Proof. destruct a, b. tunf. intros. assert (tv_sec0 = tv_sec1) by lia. f_equal; lia. Qed.

Lemma evAddTime_ns a b :
  time_ok a -> time_ok b -> a.(tv_sec) + b.(tv_sec) < LONG_MAX ->
  total (fun x => time_ok x /\ ns x = ns a + ns b) (evAddTime a b).
Proof.
  intros Ha Hb Hm. unfold evAddTime. rewrite !clong_ok by (tunf; lia). cbn [obind].
  destruct (Z.leb_spec BILLION (tv_nsec a + tv_nsec b));
    [rewrite !clong_ok by (tunf; lia)|]; cbn; tunf; lia.
Qed.

Lemma evSubTime_ns a b :
  time_ok a -> time_ok b -> ns b <= ns a ->
  total (fun x => time_ok x /\ ns x = ns a - ns b) (evSubTime a b).
Proof.
  intros Ha Hb Hm. unfold evSubTime. rewrite clong_ok by (tunf; lia). cbn [obind].
  destruct (Z.leb_spec (tv_nsec b) (tv_nsec a)); repeat (rewrite clong_ok by (tunf; lia); cbn [obind]);
    cbn; tunf; lia.
Qed.

(** ** The timers as the client of the queue *)

Definition t_live (st : tstore) (x : Z) : Prop :=
  match st !! x with Some t => time_ok t.(due) | None => False end.

Definition t_prio (st : tstore) (x y : Z) : bool :=
  match st !! x, st !! y with
  | Some a, Some b => ns a.(due) <? ns b.(due)
  | _, _ => false
  end.

Definition t_pos (st : tstore) (x : Z) : Z :=
  match st !! x with Some t => t.(index) | None => 0 end.

(** A timer but for its index. *)
Definition strip (t : evTimer) : Z * Z * timespec * timespec * Z :=
  (t.(func), t.(uap), t.(due), t.(inter), t.(mode)).

Definition t_same (st st' : tstore) : Prop :=
  forall x, strip <$> st' !! x = strip <$> st !! x.

Lemma t_same_live st st' x : t_same st st' -> t_live st' x <-> t_live st x.
Proof.
  intros H. unfold t_live. specialize (H x).
  destruct (st !! x) as [a|], (st' !! x) as [a'|]; try discriminate H; [|done].
  injection H as _ _ H _ _. by rewrite H.
Qed.

Lemma t_same_prio st st' x y : t_same st st' -> t_prio st' x y = t_prio st x y.
Proof.
  intros H. unfold t_prio. pose proof (H x) as Hx. pose proof (H y) as Hy.
  destruct (st !! x) as [a|], (st' !! x) as [a'|]; try discriminate Hx; [|done].
  injection Hx as _ _ Hx _ _.
  destruct (st !! y) as [b|], (st' !! y) as [b'|]; try discriminate Hy; [|done].
  injection Hy as _ _ Hy _ _. by rewrite Hx, Hy.
Qed.

Lemma due_sooner_ok st x y :
  t_live st x -> t_live st y -> due_sooner st x y = Ok (t_prio st x y).
Proof.
  unfold t_live, due_sooner, t_prio. destruct (st !! x) as [a|]; [|done].
  destruct (st !! y) as [b|]; [|done]. intros Ha Hb.
  rewrite evCmpTime_ns by done. cbn [obind]. f_equal.
  destruct (Z.ltb_spec (ns (due a)) (ns (due b))); [apply Z.ltb_lt|apply Z.ltb_ge]; lia.
Qed.

Lemma set_index_ok st x i :
  t_live st x ->
  total (fun st' => t_same st st' /\ t_pos st' x = i /\
                    (forall y, y <> x -> t_pos st' y = t_pos st y)) (set_index x i st).
Proof.
  unfold t_live, set_index. destruct (st !! x) as [t|] eqn:E; [|done]. intros _. cbn.
  split_and!.
  - intros y. destruct (decide (y = x)) as [->|]; [by simplify_map_eq|by simplify_map_eq].
  - unfold t_pos. by simplify_map_eq.
  - intros y Hy. unfold t_pos. by simplify_map_eq.
Qed.

#[refine] #[export] Instance timer_client : HeapClient due_sooner (Some set_index) := {|
  live := t_live;
  prio := t_prio;
  pos := t_pos;
  same := t_same;
|}.
Proof.
  - by intros st x.
  - intros st1 st2 st3 H1 H2 x. by rewrite H2.
  - apply t_same_live.
  - intros; by apply t_same_prio.
  - apply due_sooner_ok.
  - intros st x. unfold t_prio. destruct (st !! x); [|done]. intros _. apply Z.ltb_irrefl.
  - intros st x y z. unfold t_prio, t_live.
    destruct (st !! x), (st !! y), (st !! z); try done. intros _ _ _ H1 H2. zbool.
    apply Z.ltb_lt. lia.
  - intros st x y z. unfold t_prio, t_live.
    destruct (st !! x), (st !! y), (st !! z); try done. intros _ _ _ H1 H2. zbool.
    apply Z.ltb_ge. lia.
  - intros f st x i [= <-]. apply set_index_ok.
Defined.

Lemma t_ntrans st x y z :
  t_live st x -> t_live st y -> t_live st z ->
  t_prio st x y = false -> t_prio st y z = false -> t_prio st x z = false.
Proof. apply (prio_ntrans (HeapClient:=timer_client) st). Qed.

(** The queue of the context holds exactly the timers [c]. *)
Definition ev_wf (ctx : evContext_p) (c : list Z) : Prop :=
  exists h, ctx.(timers) = Some h /\ heap_wf h ctx.(mem) c /\
            h.(array_size) + h.(array_size_increment) <= INT_MAX.

(** The queue looks only at the objects it points to. *)
Lemma heap_wf_ext h st st' c :
  heap_wf h st c -> (forall x, x ∈ c -> st' !! x = st !! x) -> heap_wf h st' c.
Proof.
  intros [[H1 H2 H3 H4 H5 H6 H7 H8 H9 H10] Ho] Hst.
  assert (Hg : forall k x, get c k = Some x -> st' !! x = st !! x).
  { intros k x Hx%get_lookup. eapply Hst, list_elem_of_lookup_2, Hx. }
  split; [split; auto|].
  - intros Hi k x Hk Hx. cbn. unfold t_pos. rewrite (Hg k) by done. by apply H8.
  - apply Forall_forall. intros x Hx. rewrite Forall_forall in H9. specialize (H9 x Hx).
    cbn in *. unfold t_live in *. by rewrite Hst.
  - intros k x y Hk Hx Hy. cbn. unfold t_prio. rewrite (Hg k x), (Hg (k / 2) y) by done.
    by apply (Ho k).
Qed.

Lemma rep_timer h st c x :
  heap_rep h st c -> x ∈ c ->
  exists k t, get c k = Some x /\ st !! x = Some t /\ t.(index) = k /\ time_ok t.(due).
Proof.
  intros [_ _ _ _ _ _ _ Htr Hlv _] Hx. pose proof Hx as [n Hn]%list_elem_of_lookup_1.
  assert (Hk : get c (Z.of_nat (S n)) = Some x).
  { unfold get. bcase; [lia|]. by replace (Z.to_nat (Z.of_nat (S n) - 1)) with n by lia. }
  rewrite Forall_forall in Hlv. specialize (Hlv x Hx). cbn in Hlv. unfold t_live in Hlv.
  destruct (st !! x) as [t|] eqn:Ht; [|done].
  exists (Z.of_nat (S n)), t. split_and!; auto.
  pose proof (Htr ltac:(done) _ x (not_elem_of_nil _) Hk) as Hp. cbn in Hp.
  unfold t_pos in Hp. by rewrite Ht in Hp.
Qed.

Lemma element_is_true ctx h k x c :
  ctx.(timers) = Some h -> heap_rep h ctx.(mem) c -> get c k = Some x ->
  element_is ctx k x = Ok true.
Proof.
  intros Ht Hr Hx. unfold element_is.
  rewrite Ht, (heap_element_total h ctx.(mem) c k x) by done. by rewrite Z.eqb_refl.
Qed.

Lemma element_is_false ctx h k x c :
  ctx.(timers) = Some h -> heap_rep h ctx.(mem) c -> x ∉ c ->
  element_is ctx k x = Ok false.
Proof.
  intros Ht Hr Hx. unfold element_is. rewrite Ht.
  destruct (get c k) as [y|] eqn:Hy.
  - rewrite (heap_element_total h ctx.(mem) c k y) by done. f_equal. apply Z.eqb_neq.
    intros ->. apply Hx. by apply get_lookup, list_elem_of_lookup_2 in Hy.
  - by rewrite (heap_element_none h ctx.(mem) c k).
Qed.

(** Setting a timer that is not in the queue. *)
Lemma evSetTimer_total ctx c f u d i now id junk :
  ev_wf ctx c -> time_ok d -> time_ok i -> time_ok now -> ctx.(mem) !! id = None ->
  total (fun r => r.1.1 = None /\ r.1.2 = Some id /\ r.2.(cur) = ctx.(cur) /\
           r.2.(lastEventTime) = ctx.(lastEventTime) /\
           (exists h, r.2.(timers) = Some h /\
              exists c', Permutation c' (id :: c) /\ heap_wf h r.2.(mem) c') /\
           forall x, strip <$> r.2.(mem) !! x
             = if decide (x = id) then
                 Some (f, u, if (d.(tv_sec) =? 0) && (d.(tv_nsec) =? 0) then now else d, i,
                       junk.(mode))
               else strip <$> ctx.(mem) !! x)
        (evSetTimer ctx f u d i now (Some (id, junk)) true).
Proof.
  intros (h & Ht & Hw & Hm) Hd Hi Hnow Hid. unfold evSetTimer.
  rewrite !bad_time_false by done. set (d' := if _ && _ then now else d).
  assert (Hd' : time_ok d') by (subst d'; by case_match).
  set (t := mk_evTimer f u d' i junk.(index) junk.(mode)).
  set (st := <[id := t]> ctx.(mem)). rewrite Ht.
  assert (Hn : id ∉ c).
  { intros Hc. destruct (rep_timer h _ c id (proj1 Hw) Hc) as (? & ? & ? & ? & ?). congruence. }
  assert (Hw' : heap_wf h st c).
  { apply (heap_wf_ext h ctx.(mem)); [done|]. intros x Hx. subst st.
    rewrite lookup_insert_ne by congruence. done. }
  apply total_bind. eapply total_mono; [apply (heap_insert_total h st c id true); auto|].
  - cbn. unfold t_live, st. by simplify_map_eq.
  - intros [[err o] st'] (He & h' & Ho' & c' & Hp & Hw2 & Hs). cbn in *. subst err o.
    split_and!; try done; [by exists h'; eauto|]. intros x. rewrite Hs. subst st.
    case_decide; subst; by simplify_map_eq.
Qed.

(** Changing the fields of a queued timer, but for its index, leaves the queue
    a heap but for the place of that timer. *)
Lemma rep_reset h st c id t t' :
  heap_rep h st c -> st !! id = Some t -> t'.(index) = t.(index) -> time_ok t'.(due) ->
  heap_rep h (<[id := t']> st) c.
Proof.
  intros [H1 H2 H3 H4 H5 H6 H7 H8 H9 H10] Hid Hi Hd. split; auto.
  - intros Hx k x Hk Hg. rewrite <- (H8 Hx k x Hk Hg). cbn. unfold t_pos.
    destruct (decide (x = id)) as [->|]; by simplify_map_eq.
  - eapply Forall_impl; [exact H9|]. intros x. cbn. unfold t_live.
    destruct (decide (x = id)) as [->|]; by simplify_map_eq.
Qed.

Lemma reset_reprioritised st id t' :
  reprioritised (t_prio st) (t_prio (<[id := t']> st)) id.
Proof. intros y z Hy Hz. unfold t_prio. by simplify_map_eq. Qed.

Lemma reset_sooner st id t t' y :
  st !! id = Some t -> ns t'.(due) <= ns t.(due) ->
  t_prio st y id = false -> t_prio (<[id := t']> st) y id = false.
Proof.
  intros Hid Hd. unfold t_prio. simplify_map_eq.
  destruct (decide (y = id)) as [->|]; simplify_map_eq; [intros; apply Z.ltb_irrefl|].
  destruct (st !! y); [|done]. intros. zbool. apply Z.ltb_ge. lia.
Qed.

Lemma reset_later st id t t' y :
  st !! id = Some t -> ns t.(due) <= ns t'.(due) ->
  t_prio st id y = false -> t_prio (<[id := t']> st) id y = false.
Proof.
  intros Hid Hd. unfold t_prio. simplify_map_eq.
  destruct (decide (y = id)) as [->|]; simplify_map_eq; [intros; apply Z.ltb_irrefl|].
  destruct (st !! y); [|done]. intros. zbool. apply Z.ltb_ge. lia.
Qed.

Lemma evResetTimer_total ctx c id f u d i :
  ev_wf ctx c -> id ∈ c -> time_ok d -> time_ok i ->
  total (fun r => r.1 = None /\ r.2.(cur) = ctx.(cur) /\
           r.2.(lastEventTime) = ctx.(lastEventTime) /\
           (exists h, r.2.(timers) = Some h /\
              exists c', Permutation c' c /\ heap_wf h r.2.(mem) c') /\
           forall x, strip <$> r.2.(mem) !! x
             = if decide (x = id) then
                 (fun t => (f, u, d, i, t.(mode))) <$> ctx.(mem) !! id
               else strip <$> ctx.(mem) !! x)
        (evResetTimer ctx id f u d i).
Proof.
  intros (h & Ht & [Hr Ho] & Hm) Hc Hd Hi. unfold evResetTimer, deref.
  destruct (rep_timer h _ c id Hr Hc) as (k & t & Hk & Hid & Hix & Htd).
  rewrite Hid. cbn [obind]. rewrite Hix.
  rewrite (element_is_true ctx h k id c) by done. cbn [obind negb].
  rewrite !bad_time_false by done. rewrite evCmpTime_ns by done. cbn [obind].
  set (t' := mk_evTimer f u d i k t.(mode)). set (st := <[id := t']> ctx.(mem)).
  assert (Hr' : heap_rep h st c) by (by apply (rep_reset h _ c id t)).
  pose proof (reset_reprioritised ctx.(mem) id t') as Hre.
  assert (Hst : forall x st', t_same st st' -> strip <$> st' !! x =
    if decide (x = id) then Some (f, u, d, i, t.(mode)) else strip <$> ctx.(mem) !! x).
  { intros x st' Hs. rewrite Hs. subst st. case_decide; subst; by simplify_map_eq. }
  destruct (Z.sgn_spec (ns d - ns (due t))) as [[Hlt ->]|[[Heq ->]|[Hlt ->]]]; cbn [Z.eqb Pos.eqb].
  - rewrite Ht. apply total_bind. eapply total_mono.
    + apply (heap_decreased_total h st c k id Hr' Hk).
      apply (decreased_down_inv (t_prio ctx.(mem)) _ (t_live ctx.(mem)) c k id); auto;
        [apply t_ntrans|apply Hr|apply Hr|].
      intros y. apply (reset_later _ id t t'); [done|]. cbn. lia.
    + intros [[err o] st'] (He & h' & Ho' & c' & Hp & Hw2 & Hs). cbn in *. subst err o. by split_and!; eauto.
  - cbn. split_and!; try done; [|by intros x; apply Hst]. exists h. split; [done|]. exists c.
    split; [done|]. split; [done|].
    apply (up_done (t_prio st) c k id); [|done|].
    + apply (increased_up_inv (t_prio ctx.(mem)) _ (t_live ctx.(mem)) c k id); auto;
        [apply t_ntrans|apply Hr|apply Hr|].
      intros y. apply (reset_sooner _ id t t'); [done|]. cbn. lia.
    + intros H2 y Hy. apply (reset_later _ id t t'); [done|cbn; lia|]. by apply (Ho k).
  - rewrite Ht. apply total_bind. eapply total_mono.
    + apply (heap_increased_total h st c k id Hr' Hk).
      apply (increased_up_inv (t_prio ctx.(mem)) _ (t_live ctx.(mem)) c k id); auto;
        [apply t_ntrans|apply Hr|apply Hr|].
      intros y. apply (reset_sooner _ id t t'); [done|]. cbn. lia.
    + intros [[err o] st'] (He & h' & Ho' & c' & Hp & Hw2 & Hs). cbn in *. subst err o. by split_and!; eauto.
Qed.

Lemma evClearTimer_total ctx c id :
  ev_wf ctx c -> id ∈ c -> ctx.(cur) <> Some id ->
  total (fun r => r.1 = None /\ r.2.(cur) = ctx.(cur) /\
           (exists h c', r.2.(timers) = Some h /\ Permutation (id :: c') c /\
                         heap_wf h r.2.(mem) c') /\
           forall x, strip <$> r.2.(mem) !! x
             = if decide (x = id) then None else strip <$> ctx.(mem) !! x)
        (evClearTimer ctx id).
Proof.
  intros (h & Ht & Hw & Hm) Hc Hcur. unfold evClearTimer, deref.
  rewrite bool_decide_eq_false_2 by done.
  destruct (rep_timer h _ c id (proj1 Hw) Hc) as (k & t & Hk & Hid & Hix & Htd).
  rewrite Hid. cbn [obind]. rewrite Hix.
  rewrite (element_is_true ctx h k id c) by (done || apply Hw). cbn [obind negb]. rewrite Ht.
  apply total_bind. eapply total_mono; [by apply (heap_delete_total h ctx.(mem) c k id)|].
  intros [[err o] st'] (He & h' & c1 & Ho' & Hp1 & c' & Hp & Hw2 & Hs). cbn in *. subst err o.
  assert (Hp' : Permutation (id :: c') c) by (by rewrite Hp).
  pose proof (wf_nodup _ _ _ (proj1 Hw)) as Hnd. rewrite <- Hp' in Hnd.
  apply NoDup_cons in Hnd as [Hni _].
  split_and!; try done.
  - exists h', c'. split_and!; try done. apply (heap_wf_ext h' st'); [done|].
    intros x Hx. apply lookup_delete_ne. congruence.
  - intros x. case_decide; subst; simplify_map_eq; [done|]. by rewrite Hs.
Qed.

(** ** Claims *)

(** [evAddTime], [evSubTime] and [evCmpTime] are addition, subtraction and
    comparison of numbers of nanoseconds, and keep [tv_nsec] below a billion,
    when the seconds do not overflow. *)
Theorem ev_time_arithmetic a b :
  time_ok a -> time_ok b -> a.(tv_sec) + b.(tv_sec) < LONG_MAX ->
  evCmpTime a b = Ok (Z.sgn (ns a - ns b)) /\
  (exists x, evAddTime a b = Ok x /\ time_ok x /\ ns x = ns a + ns b /\
             evSubTime x b = Ok a).
Proof.
  intros Ha Hb Hm. split; [by apply evCmpTime_ns|].
  destruct (proj1 (total_ok _ _) (evAddTime_ns a b Ha Hb Hm)) as (x & -> & Hx & Hns).
  exists x. split_and!; try done.
  destruct (proj1 (total_ok _ _) (evSubTime_ns x b Hx Hb ltac:(tunf; lia)))
    as (y & -> & Hy & Hny).
  f_equal. apply ns_inj; auto. lia.
Qed.

(** Setting a timer with valid times returns 0 and its id; the queue is a
    heap by due time of the timers it held and the new one, every timer knows
    its place in it, a due time of zero means "now", and no other timer
    changes. *)
Theorem evSetTimer_correct ctx c f u d i now id junk :
  ev_wf ctx c -> time_ok d -> time_ok i -> time_ok now -> ctx.(mem) !! id = None ->
  exists ctx' h c', evSetTimer ctx f u d i now (Some (id, junk)) true
                    = Ok (None, Some id, ctx') /\
    ctx'.(timers) = Some h /\ Permutation c' (id :: c) /\ heap_wf h ctx'.(mem) c' /\
    forall x, strip <$> ctx'.(mem) !! x
      = if decide (x = id) then
          Some (f, u, if (d.(tv_sec) =? 0) && (d.(tv_nsec) =? 0) then now else d, i,
                junk.(mode))
        else strip <$> ctx.(mem) !! x.
Proof.
  intros H1 H2 H3 H4 H5.
  destruct (proj1 (total_ok _ _) (evSetTimer_total ctx c f u d i now id junk H1 H2 H3 H4 H5))
    as ([[err o] ctx'] & -> & He & Ho & _ & _ & (h & Hh & c' & Hp & Hw) & Hm).
  cbn in *. subst. eauto 10.
Qed.

(** C9: resetting a queued timer to valid times, whether sooner or later than
    before, returns 0 and keeps the queue a heap by due time of the same
    timers; the timer has its new function, argument and times and keeps its
    mode, and no other timer changes. *)
Theorem evResetTimer_correct ctx c id f u d i :
  ev_wf ctx c -> id ∈ c -> time_ok d -> time_ok i ->
  exists ctx' h c', evResetTimer ctx id f u d i = Ok (None, ctx') /\
    ctx'.(timers) = Some h /\ Permutation c' c /\ heap_wf h ctx'.(mem) c' /\
    forall x, strip <$> ctx'.(mem) !! x
      = if decide (x = id) then (fun t => (f, u, d, i, t.(mode))) <$> ctx.(mem) !! id
        else strip <$> ctx.(mem) !! x.
Proof.
  intros H1 H2 H3 H4.
  destruct (proj1 (total_ok _ _) (evResetTimer_total ctx c id f u d i H1 H2 H3 H4))
    as ([err ctx'] & -> & He & _ & _ & (h & Hh & c' & Hp & Hw) & Hm).
  cbn in *. subst. eauto 10.
Qed.

(** After a timer has run, [evDrop] removes and frees it when its interval
    is zero; otherwise it stays, due one interval after its last due time in
    rate mode and after the time of the event otherwise, and the queue stays a
    heap by due time. *)
Theorem evDrop_timer_correct ctx c id t :
  ev_wf ctx c -> id ∈ c -> ctx.(cur) = None -> ctx.(mem) !! id = Some t ->
  time_ok t.(inter) -> time_ok ctx.(lastEventTime) ->
  let base := if Z.testbit t.(mode) 0 then t.(due) else ctx.(lastEventTime) in
  base.(tv_sec) + t.(inter).(tv_sec) < LONG_MAX ->
  exists ctx' h c', evDrop_timer ctx id = Ok ctx' /\
    ctx'.(timers) = Some h /\ heap_wf h ctx'.(mem) c' /\
    if ns t.(inter) =? 0 then Permutation (id :: c') c /\ ctx'.(mem) !! id = None
    else Permutation c' c /\
         exists t', ctx'.(mem) !! id = Some t' /\ ns t'.(due) = ns base + ns t.(inter) /\
                    t'.(inter) = t.(inter) /\ t'.(func) = t.(func) /\ t'.(uap) = t.(uap).
Proof.
  intros Hw Hc Hcur Hid Hti Hl base Hb. pose proof Hw as (h & Ht & Hh & Hm).
  destruct (rep_timer h _ c id (proj1 Hh) Hc) as (k & t0 & Hk & Hid0 & Hix & Htd).
  simplify_eq. unfold evDrop_timer, deref. rewrite Hid. cbn [obind].
  rewrite (element_is_true ctx h _ id c) by (done || apply Hh). cbn [obind negb].
  assert (Hbase : negb (Z.land (mode t) EV_TMR_RATE =? 0) = Z.testbit (mode t) 0).
  { change EV_TMR_RATE with (Z.ones 1). rewrite Z.land_ones by lia. change (2 ^ 1) with 2.
    rewrite Z.bit0_odd. rewrite (Zmod_odd (mode t)). by destruct (Z.odd (mode t)). }
  destruct (Z.eqb_spec (ns (inter t)) 0) as [Hz|Hz].
  - replace (_ && _) with true by (symmetry; apply andb_true_iff; split; apply Z.eqb_eq; tunf; lia).
    destruct (proj1 (total_ok _ _) (evClearTimer_total ctx c id Hw Hc ltac:(congruence)))
      as ([err ctx'] & -> & _ & _ & (h' & c' & Hh' & Hp & Hw') & Hmem).
    cbn in *. exists ctx', h', c'. split_and!; try done.
    specialize (Hmem id). rewrite decide_True in Hmem by done.
    by destruct (mem ctx' !! id).
  - replace (_ && _) with false
      by (symmetry; apply andb_false_iff; destruct (Z.eq_dec (tv_sec (inter t)) 0);
          [right|left]; apply Z.eqb_neq; tunf; lia).
    rewrite Hbase. fold base. assert (Hbo : time_ok base) by (subst base; by case_match).
    destruct (proj1 (total_ok _ _) (evAddTime_ns base (inter t) Hbo Hti Hb)) as (d & -> & Hd & Hnd).
    cbn [obind].
    destruct (proj1 (total_ok _ _) (evResetTimer_total ctx c id (func t) (uap t) d (inter t)
       Hw Hc Hd Hti)) as ([err ctx'] & -> & _ & _ & _ & (h' & Hh' & c' & Hp & Hw') & Hmem).
    cbn in *. exists ctx', h', c'. split_and!; try done.
    specialize (Hmem id). rewrite decide_True, Hid in Hmem by done. cbn in Hmem.
    destruct (mem ctx' !! id) as [t'|]; [|done]. injection Hmem as H1 H2 H3 H4 H5.
    exists t'. split_and!; auto. congruence.
Qed.

(** ** Witnesses: a context with two timers. *)

Definition ev_t1 : evTimer := mk_evTimer 100 0 (mk_timespec 5 0) (mk_timespec 2 0) 1 0.
Definition ev_t2 : evTimer := mk_evTimer 101 0 (mk_timespec 6 0) (mk_timespec 0 0) 2 0.
Definition ev_mem : tstore := {[ 1 := ev_t1; 2 := ev_t2 ]}.
Definition ev_ctx : evContext_p :=
  mk_ev None (mk_timespec 5 500)
    (Some (mk_heap 2048 2048 2 (None :: Some 1 :: Some 2 :: replicate 2045 None)
             due_sooner (Some set_index))) ev_mem ∅.

Lemma ev_ctx_cases k x : get [1; 2] k = Some x -> k = x /\ (x = 1 \/ x = 2).
Proof.
  intros H. pose proof (get_range _ _ _ H) as Hk. unfold zlen in Hk. cbn in Hk.
  assert (k = 1 \/ k = 2) as [-> | ->] by lia; cbn in H; injection H as <-; auto.
Qed.

Lemma ev_ctx_wf : ev_wf ev_ctx [1; 2].
Proof.
  eexists. split; [reflexivity|]. split; [|by vm_compute].
  split.
  - split; try done.
    + by left.
    + intros k x _ [-> [-> | ->]]%ev_ctx_cases; done.
    + intros _ k x _ [-> [-> | ->]]%ev_ctx_cases; done.
    + repeat constructor; done.
    + apply (bool_decide_unpack _). by vm_compute.
  - intros k x y Hk [-> [-> | ->]]%ev_ctx_cases; [lia|].
    cbn. by intros [= <-].
Qed.

Lemma ev_time_arithmetic_witness :
  evCmpTime (mk_timespec 3 999999999) (mk_timespec 0 1) = Ok 1 /\
  (exists x, evAddTime (mk_timespec 3 999999999) (mk_timespec 0 1) = Ok x /\ time_ok x /\
             ns x = 4000000000 /\ evSubTime x (mk_timespec 0 1) = Ok (mk_timespec 3 999999999)).
Proof. apply (ev_time_arithmetic (mk_timespec 3 999999999) (mk_timespec 0 1)); repeat split; done. Defined.

Lemma evSetTimer_correct_witness :
  exists ctx' h c', evSetTimer ev_ctx 102 7 (mk_timespec 0 0) (mk_timespec 1 0)
      (mk_timespec 4 0) (Some (3, ev_t1)) true = Ok (None, Some 3, ctx') /\
    ctx'.(timers) = Some h /\ Permutation c' [3; 1; 2] /\ heap_wf h ctx'.(mem) c' /\
    forall x, strip <$> ctx'.(mem) !! x
      = if decide (x = 3) then Some (102, 7, mk_timespec 4 0, mk_timespec 1 0, 0)
        else strip <$> ev_mem !! x.
Proof.
  apply (evSetTimer_correct ev_ctx [1; 2] 102 7 (mk_timespec 0 0) (mk_timespec 1 0)
           (mk_timespec 4 0) 3 ev_t1 ev_ctx_wf); try reflexivity; repeat split; done.
Defined.

Lemma evResetTimer_correct_witness :
  exists ctx' h c', evResetTimer ev_ctx 1 100 0 (mk_timespec 9 0) (mk_timespec 2 0)
                    = Ok (None, ctx') /\
    ctx'.(timers) = Some h /\ Permutation c' [1; 2] /\ heap_wf h ctx'.(mem) c' /\
    forall x, strip <$> ctx'.(mem) !! x
      = if decide (x = 1) then
          (fun t => (100, 0, mk_timespec 9 0, mk_timespec 2 0, t.(mode))) <$> ev_mem !! 1
        else strip <$> ev_mem !! x.
Proof.
  apply (evResetTimer_correct ev_ctx [1; 2] 1 100 0 (mk_timespec 9 0) (mk_timespec 2 0)
           ev_ctx_wf); [set_solver|repeat split; done..].
Defined.

Lemma evDrop_timer_correct_witness :
  exists ctx' h c', evDrop_timer ev_ctx 1 = Ok ctx' /\
    ctx'.(timers) = Some h /\ heap_wf h ctx'.(mem) c' /\
    Permutation c' [1; 2] /\
    exists t', ctx'.(mem) !! 1 = Some t' /\ ns t'.(due) = 7000000500 /\
               t'.(inter) = mk_timespec 2 0 /\ t'.(func) = 100 /\ t'.(uap) = 0.
Proof.
  apply (evDrop_timer_correct ev_ctx [1; 2] 1 ev_t1 ev_ctx_wf);
    [set_solver|reflexivity|reflexivity|repeat split; done..].
Defined.
