(* ===== verification/CText.v ===== *)
(** * C strings and characters

    The functions of the C library that the modelled files use on text, in
    the C locale: a string is the list of its bytes before the terminator. *)
From Stdlib Require Import ZArith Lia List Bool Ascii String.
From stdpp Require Import base tactics list numbers.
From S2P Require Import Prelude.
Local Open Scope Z_scope.
Local Open Scope c_scope.

(** A literal. *)
Fixpoint str (s : string) : list Z :=
  match s with
  | EmptyString => []
  | String c s => Z.of_N (N_of_ascii c) :: str s
  end.

Definition isdigit (c : Z) : bool := (48 <=? c) && (c <=? 57).
Definition isupper (c : Z) : bool := (65 <=? c) && (c <=? 90).
Definition islower (c : Z) : bool := (97 <=? c) && (c <=? 122).
Definition isalpha (c : Z) : bool := isupper c || islower c.
Definition isascii (c : Z) : bool := (0 <=? c) && (c <? 128).
Definition isspace (c : Z) : bool := (c =? 32) || ((9 <=? c) && (c <=? 13)).
Definition isprint (c : Z) : bool := (32 <=? c) && (c <=? 126).
Definition isxdigit (c : Z) : bool :=
  isdigit c || ((65 <=? c) && (c <=? 70)) || ((97 <=? c) && (c <=? 102)).
Definition tolower (c : Z) : Z := if isupper c then c + 32 else c.
Definition toupper (c : Z) : Z := if islower c then c - 32 else c.

(** The argument of the functions of <ctype.h> when it is a plain [char],
    which is signed: they are undefined for negative values but [EOF]. *)
Definition ctype_arg (b : Z) : outcome Z := if schar b <? -1 then Fault else Ok (schar b).

(** The value of a hexadecimal digit. *)
Definition xval (c : Z) : Z :=
  if isdigit c then c - 48
  else if islower c then c - 97 + 10
  else c - 65 + 10.

(** [strchr(s, c)] as an index; the terminator is part of the string. *)
Fixpoint strchr (s : list Z) (c : Z) : option Z :=
  match s with
  | [] => if c =? 0 then Some 0 else None
  | b :: s => if b =? c then Some 0 else Z.succ <$> strchr s c
  end.

(** [strlen] of the string that starts an object; without a terminator in the
    object it is a [Fault]. *)
Fixpoint strlen (m : list Z) : outcome Z :=
  match m with
  | [] => Fault
  | b :: m => if b =? 0 then Ok 0 else n <- strlen m;; Ok (1 + n)
  end.

Definition xdigits_l : list Z := str "0123456789abcdef".

Definition xdigits_u : list Z := str "0123456789ABCDEF".

(** The digits of [v] in a base, most significant first; [fuel] bounds their
    number. *)
Fixpoint digits_of (fuel : nat) (base : Z) (v : Z) : list Z :=
  match fuel with
  | O => []
  | S fuel =>
      if v <? base then [v] else digits_of fuel base (v / base) ++ [v mod base]
  end.

Definition digit_char (d : Z) : Z := if d <? 10 then 48 + d else 87 + d.

(** [%u] and [%x] of a number of at most 64 bits. *)
Definition fmt_u (v : Z) : list Z := map digit_char (digits_of 20 10 v).
Definition fmt_x (v : Z) : list Z := map digit_char (digits_of 16 16 v).

(** [%d] *)
Definition fmt_d (v : Z) : list Z := if v <? 0 then 45 :: fmt_u (- v) else fmt_u v.

(** A minimal width, filled with zeros: [%02x], [%03u]. *)
Definition pad0 (w : nat) (s : list Z) : list Z := replicate (w - length s) 48 ++ s.

(** [sprintf] at the write pointer of a destination of [cap] bytes: the text
    and its terminator are written, the pointer then advances over the text. *)
Definition sprintf_at (cap : Z) (out s : list Z) : outcome (list Z) :=
  if zlen out + zlen s + 1 <=? cap then Ok (out ++ s) else Fault.

(** [strcasecmp] and [strncasecmp] on bytes: 0 when they agree. *)
Fixpoint strcasecmp (a b : list Z) : Z :=
  match a, b with
  | [], [] => 0
  | [], y :: _ => - tolower y
  | x :: _, [] => tolower x
  | x :: a, y :: b =>
      if tolower x =? tolower y then strcasecmp a b else tolower x - tolower y
  end.

(** [strncasecmp] of two objects that may hold zero bytes: the comparison
    ends at a zero byte of both. *)
Fixpoint strncasecmp (m1 : list Z) (i : Z) (m2 : list Z) (j : Z) (n : nat) : outcome Z :=
  match n with
  | O => Ok 0
  | S n =>
      x <- rd m1 i;;
      y <- rd m2 j;;
      if negb (tolower x =? tolower y) then Ok (tolower x - tolower y)
      else if x =? 0 then Ok 0
      else strncasecmp m1 (i + 1) m2 (j + 1) n
  end.

(** [strtol(s, &end, 10)] on a string that starts with a digit. *)
Fixpoint strtol_digits (acc : Z) (s : list Z) : Z * list Z :=
  match s with
  | c :: s' =>
      if isdigit c then strtol_digits (Z.min (acc * 10 + (c - 48)) 9223372036854775807) s'
      else (acc, s)
  | [] => (acc, [])
  end.

(** ** Facts *)

Lemma cstr_bytes s : cstr_ok s -> bytes_ok s.
Proof. apply Forall_impl. unfold byte_ok. lia. Qed.

Lemma digits_of_range fuel base v :
  1 < base -> 0 <= v -> Forall (fun d => 0 <= d < base) (digits_of fuel base v).
Proof.
  intros Hb. revert v. induction fuel as [|fuel IH]; intros v Hv; [constructor|].
  cbn [digits_of]. bcase; [repeat constructor; lia|].
  apply Forall_app. split; [apply IH; apply Z.div_pos; lia|].
  repeat constructor; apply Z.mod_pos_bound; lia.
Qed.

(** The number that a list of digits denotes. *)
Definition number (base : Z) (ds : list Z) : Z := fold_left (fun a d => a * base + d) ds 0.

Lemma number_snoc base ds d : number base (ds ++ [d]) = number base ds * base + d.
Proof. unfold number. by rewrite fold_left_app. Qed.

Lemma digits_of_number fuel base v :
  1 < base -> 0 <= v < base ^ Z.of_nat fuel -> number base (digits_of fuel base v) = v.
Proof.
  intros Hb. revert v. induction fuel as [|fuel IH]; intros v Hv; [cbn in *; lia|].
  cbn [digits_of]. bcase; [unfold number; cbn; lia|].
  rewrite number_snoc, IH.
  - pose proof (Z.div_mod v base). lia.
  - rewrite Nat2Z.inj_succ, Z.pow_succ_r in Hv by lia.
    split; [apply Z.div_pos; lia|apply Z.div_lt_upper_bound; lia].
Qed.

Lemma digits_of_nonnil fuel base v : digits_of (S fuel) base v <> [].
Proof. cbn [digits_of]. bcase; [done|]. by destruct (digits_of fuel base (v / base)). Qed.

Lemma digit_char_u d : 0 <= d < 10 -> digit_char d = 48 + d.
Proof. intros. unfold digit_char. bcase; lia. Qed.

Lemma tolower_idem c : tolower (tolower c) = tolower c.
Proof.
  unfold tolower. destruct (isupper c) eqn:E; [|by rewrite E].
  unfold isupper in *. zbool. rewrite (proj2 (Z.leb_gt (c + 32) 90)) by lia.
  by rewrite andb_false_r.
Qed.

Lemma strlen_cstr s rest : cstr_ok s -> strlen (s ++ 0 :: rest) = Ok (zlen s).
Proof.
  induction 1 as [|b s Hb Hs IH]; [done|]. cbn [app strlen].
  rewrite (proj2 (Z.eqb_neq b 0)) by lia. rewrite IH. cbn [obind]. f_equal. unfold zlen. cbn. lia.
Qed.
