(* ===== verification/NsName.v ===== *)
(** * nameser/ns_name.c: domain names on the wire and in text

    Every function of the file.  A message, or a name in memory, is the list
    of its bytes and a pointer into it an offset; [eom] is an offset too, which
    may be less than the size of the object.  A destination that is filled
    from its start is the list of the bytes stored so far with its capacity
    [dstsiz]; storing beyond it, and reading beyond the source, is a [Fault].
    Text is a C string.  [Err e] is the return of -1 with [errno] set to [e]. *)
From Stdlib Require Import ZArith Lia List Bool String.
From stdpp Require Import base tactics list numbers.
From S2P Require Import Prelude CText.
Local Open Scope Z_scope.
Local Open Scope c_scope.

Definition NS_CMPRSFLGS : Z := 192.
Definition NS_TYPE_ELT : Z := 64.
Definition DNS_LABELTYPE_BITSTRING : Z := 65.
Definition MAXCDNAME : Z := 255.
Definition NS_MAXCDNAME : Z := 255.

(** The bits of a length byte that tell its kind. *)
Definition flags_of (n : Z) : Z := Z.land n NS_CMPRSFLGS.

Definition special (ch : Z) : bool :=
  (ch =? 34) || (ch =? 46) || (ch =? 59) || (ch =? 92) || (ch =? 40) || (ch =? 41) ||
  (ch =? 64) || (ch =? 36).

Definition printable (ch : Z) : bool := (32 <? ch) && (ch <? 127).

Definition mklower (ch : Z) : Z := if (65 <=? ch) && (ch <=? 90) then ch + 32 else ch.

Definition digits : list Z := str "0123456789".

(** [digitvalue], for the characters that [isxdigit] accepts. *)
Definition digitvalue (c : Z) : Z := xval c.

(** [labellen]: the number of bytes after the byte at [lp], or -1. *)
Definition labellen (m : list Z) (lp : Z) : outcome Z :=
  l <- rd m lp;;
  if flags_of l =? NS_CMPRSFLGS then Ok (-1)
  else if flags_of l =? NS_TYPE_ELT then
    if l =? DNS_LABELTYPE_BITSTRING then
      b <- rd m (lp + 1);;
      let bitlen := if b =? 0 then 256 else b in
      Ok (Z.quot (bitlen + 7) 8 + 1)
    else Ok (-1)
  else Ok l.

(** [decode_bitstring]: [None] is its return of -1. *)
Definition decode_body (src : list Z) (eom : Z) (s : Z * Z * list Z)
    : outcome (Z * Z * list Z + Z * Z * list Z) :=
  let '(b, cp, dn) := s in
  if 7 <? b then
    c <- rd src cp;;
    dn <- sprintf_at eom dn (pad0 2 (fmt_x c));;
    Ok (inl (b - 8, cp + 1, dn))
  else Ok (inr (b, cp, dn)).

Definition decode_bitstring (src : list Z) (cp : Z) (dn : list Z) (eom : Z)
    : outcome (option (Z * list Z)) :=
  c <- rd src cp;;
  let blen := if c =? 0 then 256 else c in
  let plen := Z.quot (blen + 3) 4 + 6 + (if 99 <? blen then 3 else if 9 <? blen then 2 else 1) in
  if eom <=? zlen dn + plen then Ok None
  else
    dn <- sprintf_at eom dn (str "\[x");;
    let! (b, cp, dn) := loop 34 (decode_body src eom) (blen, cp + 1, dn) in
    let! (cp, dn) :=
      (if 4 <? b then
         tc <- rd src cp;;
         dn <- sprintf_at eom dn
                 (pad0 2 (fmt_x (u32 (Z.land (schar tc) (Z.shiftl 255 (8 - b))))));;
         Ok (cp + 1, dn)
       else if 0 <? b then
         tc <- rd src cp;;
         dn <- sprintf_at eom dn
                 (fmt_x (Z.land (Z.land (Z.shiftr (u32 (schar tc)) 4) 15)
                                (Z.shiftl 15 (4 - b))));;
         Ok (cp + 1, dn)
       else Ok (cp, dn)) in
    dn <- sprintf_at eom dn (str "/" ++ fmt_d blen ++ str "]");;
    Ok (Some (cp, dn)).

(** ** [ns_name_ntop] *)

Definition ntop_char (eom : Z) (dn : list Z) (c : Z) : outcome (list Z) :=
  if special c then
    if eom <=? zlen dn + 1 then Err EMSGSIZE
    else dn <- push eom dn 92;; push eom dn c
  else if negb (printable c) then
    if eom <=? zlen dn + 3 then Err EMSGSIZE
    else
      dn <- push eom dn 92;;
      d1 <- rd digits (Z.quot c 100);; dn <- push eom dn d1;;
      d2 <- rd digits (Z.quot (Z.rem c 100) 10);; dn <- push eom dn d2;;
      d3 <- rd digits (Z.rem c 10);; push eom dn d3
  else if eom <=? zlen dn then Err EMSGSIZE
  else push eom dn c.

(** The loop over the [l] bytes of a label. *)
Fixpoint ntop_label (src : list Z) (eom cp : Z) (dn : list Z) (l : nat)
    : outcome (Z * list Z) :=
  match l with
  | O => Ok (cp, dn)
  | S l =>
      c <- rd src cp;;
      dn <- ntop_char eom dn c;;
      ntop_label src eom (cp + 1) dn l
  end.

Definition ntop_body (src : list Z) (eom : Z) (s : Z * list Z)
    : outcome (Z * list Z + list Z) :=
  let '(cp, dn) := s in
  n <- rd src cp;;
  if n =? 0 then Ok (inr dn)
  else if flags_of n =? NS_CMPRSFLGS then Err EMSGSIZE
  else
    dn <- (if negb (zlen dn =? 0) then
             if eom <=? zlen dn then Err EMSGSIZE else push eom dn 46
           else Ok dn);;
    l <- labellen src cp;;
    if l <? 0 then Err EMSGSIZE
    else if eom <=? zlen dn + l then Err EMSGSIZE
    else if flags_of n =? NS_TYPE_ELT then
      if negb (n =? DNS_LABELTYPE_BITSTRING) then Err EINVAL
      else
        m <- decode_bitstring src (cp + 1) dn eom;;
        match m with
        | None => Err EMSGSIZE
        | Some (cp, dn) => Ok (inl (cp, dn))
        end
    else
      r <- ntop_label src eom (cp + 1) dn (Z.to_nat l);;
      Ok (inl r).

(** The text and its terminator; the return value is their number. *)
Definition ns_name_ntop (src : list Z) (dstsiz : Z) : outcome (list Z) :=
  dn <- loop (S (length src)) (ntop_body src dstsiz) (0, []);;
  dn <- (if zlen dn =? 0 then
           if dstsiz <=? zlen dn then Err EMSGSIZE else push dstsiz dn 46
         else Ok dn);;
  if dstsiz <=? zlen dn then Err EMSGSIZE
  else
    dn <- push dstsiz dn 0;;
    assert_int (zlen dn);;;
    Ok dn.

(** ** [ns_name_pton2]

    [done] is what is stored before the byte at [label], [cur] what is stored
    after it, so that [bp - dst] is [zlen done + 1 + zlen cur]. *)

Record pton_state : Type := mk_pton {
  p_src : list Z;
  p_done : list Z;
  p_cur : list Z;
  p_escaped : bool;
}.

Definition p_bp (s : pton_state) : Z := zlen s.(p_done) + 1 + zlen s.(p_cur).

(** [encode_bitsring]: the digits are collected in [value] and stored from
    [*dst + 1] on; [lft] is [end - cp]. *)
Record bits_state : Type := mk_bits {
  b_cp : list Z;
  b_left : Z;
  b_tp : list Z;
  b_afterslash : bool;
  b_beg_blen : option (list Z);
  b_value : Z;
  b_count : Z;
  b_tbcount : Z;
}.

(** What the loop leaves: the rest of the text, [end - cp], the bytes,
    [value], [tbcount] and [blen]. *)
Definition bits_body (room : Z) (s : bits_state)
    : outcome (bits_state + (list Z * Z * list Z * Z * Z * Z)) :=
  let '(mk_bits cp lft tp afterslash beg value count tbcount) := s in
  if negb ((0 <? lft) && (zlen tp <? room)) then
    Ok (inr (cp, lft, tp, value, tbcount, 0))
  else
    let c := match cp with [] => 0 | c :: _ => c end in
    if c =? 93 then
      blen <- (if afterslash then
                 match beg with
                 | None => Err EINVAL
                 | Some b =>
                     let '(v, e) := strtol_digits 0 b in
                     if match e with 93 :: _ => true | _ => false end then Ok (i32 v)
                     else Err EINVAL
                 end
               else Ok 0);;
      tp <- (if negb (count =? 0) then push room tp (Z.land (i32 (value * 16)) 255)
             else Ok tp);;
      Ok (inr (tl cp, lft - 1, tp, value, tbcount, blen))
    else if c =? 47 then
      Ok (inl (mk_bits (tl cp) (lft - 1) tp true beg value count tbcount))
    else if afterslash then
      if negb (isdigit c) then Err EINVAL
      else match beg with
           | None =>
               if c =? 48 then Err EINVAL
               else Ok (inl (mk_bits (tl cp) (lft - 1) tp afterslash (Some cp) value
                               count tbcount))
           | Some _ =>
               Ok (inl (mk_bits (tl cp) (lft - 1) tp afterslash beg value count tbcount))
           end
    else if negb (isxdigit c) then Err EINVAL
    else
      let value := i32 (i32 (value * 16) + digitvalue c) in
      let count := count + 4 in
      let tbcount := tbcount + 4 in
      if 256 <? tbcount then Err EINVAL
      else if count =? 8 then
        tp <- push room tp (u8 value);;
        Ok (inl (mk_bits (tl cp) (lft - 1) tp afterslash beg value 0 tbcount))
      else Ok (inl (mk_bits (tl cp) (lft - 1) tp afterslash beg value count tbcount)).

(** [room] is [eom - 1 - *dst].  The result: the text after the closing
    bracket, [**dst], and the bytes stored after it; [**labelp] becomes
    [DNS_LABELTYPE_BITSTRING]. *)
Definition encode_bitsring (bp : list Z) (lft room : Z)
    : outcome (list Z * Z * list Z) :=
  if lft <? 2 then Err EINVAL
  else match bp with
  | 120 :: cp =>
      if negb (isxdigit (match cp with [] => 0 | c :: _ => c end)) then Err EINVAL
      else
        let! (cp, lft, tp, value, tbcount, blen) :=
          loop (S (Z.to_nat lft)) (bits_body room)
               (mk_bits cp (lft - 1) [] false None 0 0 0) in
        if (lft <=? 0) || (room <=? zlen tp) then Err EMSGSIZE
        else
          blen <-
            (if 0 <? blen then
               if negb (Z.land (blen + 3) (Z.lnot 3) =? tbcount) then Err EINVAL
               else
                 let traillen := tbcount - blen in
                 if negb (Z.land (i32 (Z.shiftl value (8 - traillen))) 255 =? 0) then
                   Err EINVAL
                 else Ok blen
             else Ok tbcount);;
          let blen := if blen =? 256 then 0 else blen in
          Ok (cp, u8 blen, tp)
  | _ => Err EINVAL
  end.

(** The value of a decimal digit, for [strchr(digits, c)]. *)
Definition digit_at (src : list Z) : option (Z * list Z) :=
  match src with
  | [] => None
  | c :: src => match strchr digits c with Some d => Some (d, src) | None => None end
  end.

(** [*bp++ = c] *)
Definition pton_store (eom : Z) (s : pton_state) (src : list Z) (c : Z)
    : outcome (pton_state + Z * list Z) :=
  if eom <=? p_bp s then Err EMSGSIZE
  else Ok (inl (mk_pton src s.(p_done) (s.(p_cur) ++ [u8 c]) false)).

(** The code after the loop, from the label [done: ]; [c] is stored at
    [label].  The result is the return value and the bytes of [dst]. *)
Definition pton_finish (eom : Z) (dn cur : list Z) (c : Z) : outcome (Z * list Z) :=
  if eom <=? zlen dn then Err EMSGSIZE
  else
    let out := dn ++ u8 c :: cur in
    out <- (if negb (c =? 0) then
              if eom <=? zlen out then Err EMSGSIZE else push eom out 0
            else Ok out);;
    if MAXCDNAME <? zlen out then Err EMSGSIZE else Ok (0, out).

Definition pton_dot (eom : Z) (s : pton_state) (src : list Z)
    : outcome (pton_state + Z * list Z) :=
  let c := zlen s.(p_cur) in
  if negb (flags_of c =? 0) then Err EMSGSIZE
  else if eom <=? zlen s.(p_done) then Err EMSGSIZE
  else
    let out := s.(p_done) ++ u8 c :: s.(p_cur) in
    match src with
    | [] =>
        out <- (if negb (c =? 0) then
                  if eom <=? zlen out then Err EMSGSIZE else push eom out 0
                else Ok out);;
        if MAXCDNAME <? zlen out then Err EMSGSIZE else Ok (inr (1, out))
    | b :: _ =>
        if (c =? 0) || (b =? 46) then Err EMSGSIZE
        else Ok (inl (mk_pton src out [] false))
    end.

Definition pton_escape (eom : Z) (s : pton_state) (c : Z) (src : list Z)
    : outcome (pton_state + Z * list Z) :=
  if c =? 91 then
    match strchr src 93 with
    | None => Err EINVAL
    | Some i =>
        let! (src, blen, bytes) := encode_bitsring src (i + 2) (eom - (p_bp s + 1)) in
        let out := s.(p_done) ++ DNS_LABELTYPE_BITSTRING :: s.(p_cur) ++ blen :: bytes in
        match src with
        | [] => r <- pton_finish eom out [] 0;; Ok (inr r)
        | 46 :: src => Ok (inl (mk_pton src out [] false))
        | _ => Err EINVAL
        end
    end
  else
    match strchr digits c with
    | Some d1 =>
        match digit_at src with
        | None => Err EMSGSIZE
        | Some (d2, src) =>
            match digit_at src with
            | None => Err EMSGSIZE
            | Some (d3, src) =>
                let n := d1 * 100 + d2 * 10 + d3 in
                if 255 <? n then Err EMSGSIZE else pton_store eom s src n
            end
        end
    | None => pton_store eom s src c
    end.

Definition pton_body (eom : Z) (s : pton_state) : outcome (pton_state + Z * list Z) :=
  match s.(p_src) with
  | [] =>
      let c := zlen s.(p_cur) in
      if negb (flags_of c =? 0) then Err EMSGSIZE
      else r <- pton_finish eom s.(p_done) s.(p_cur) c;; Ok (inr r)
  | c :: src =>
      if s.(p_escaped) then pton_escape eom s c src
      else if c =? 92 then Ok (inl (mk_pton src s.(p_done) s.(p_cur) true))
      else if c =? 46 then pton_dot eom s src
      else pton_store eom s src c
  end.

(** The return value and the bytes of [dst]; [*dstlen] is their number. *)
Definition ns_name_pton2 (src : list Z) (dstsiz : Z) : outcome (Z * list Z) :=
  loop (S (length src)) (pton_body dstsiz) (mk_pton src [] [] false).

Definition ns_name_pton (src : list Z) (dstsiz : Z) : outcome (Z * list Z) :=
  ns_name_pton2 src dstsiz.

(** ** [ns_name_ntol] *)

Fixpoint ntol_label (src : list Z) (eom cp : Z) (dn : list Z) (l : nat)
    : outcome (Z * list Z) :=
  match l with
  | O => Ok (cp, dn)
  | S l =>
      c <- rd src cp;;
      dn <- push eom dn (if isascii c && isupper c then tolower c else c);;
      ntol_label src eom (cp + 1) dn l
  end.

Definition ntol_body (src : list Z) (eom : Z) (s : Z * list Z)
    : outcome (Z * list Z + list Z) :=
  let '(cp, dn) := s in
  n <- rd src cp;;
  if n =? 0 then Ok (inr dn)
  else if flags_of n =? NS_CMPRSFLGS then Err EMSGSIZE
  else
    dn <- push eom dn n;;
    l <- labellen src cp;;
    if l <? 0 then Err EMSGSIZE
    else if eom <=? zlen dn + l then Err EMSGSIZE
    else
      r <- ntol_label src eom (cp + 1) dn (Z.to_nat l);;
      Ok (inl r).

Definition ns_name_ntol (src : list Z) (dstsiz : Z) : outcome (list Z) :=
  if dstsiz <=? 0 then Err EMSGSIZE
  else
    dn <- loop (S (length src)) (ntol_body src dstsiz) (0, []);;
    dn <- push dstsiz dn 0;;
    assert_int (zlen dn);;;
    Ok dn.

(** ** [ns_name_unpack2] *)

Record unpack_state : Type := mk_unpack {
  u_srcp : Z;
  u_dst : list Z;
  u_len : Z;
  u_checked : Z;
}.

Definition unpack_body (msg : list Z) (eom src dstlim : Z) (s : unpack_state)
    : outcome (unpack_state + Z * list Z) :=
  n <- rd msg s.(u_srcp);;
  let srcp := s.(u_srcp) + 1 in
  if n =? 0 then
    dst <- push dstlim s.(u_dst) 0;;
    if s.(u_len) <? 0 then
      assert_int (srcp - src);;;
      Ok (inr (srcp - src, dst))
    else Ok (inr (s.(u_len), dst))
  else if (flags_of n =? 0) || (flags_of n =? NS_TYPE_ELT) then
    l <- labellen msg (srcp - 1);;
    if l <? 0 then Err EMSGSIZE
    else if (dstlim <=? zlen s.(u_dst) + l + 1) || (eom <=? srcp + l) then Err EMSGSIZE
    else
      dst <- push dstlim s.(u_dst) n;;
      bytes <- rdn msg srcp l;;
      dst <- pushn dstlim dst bytes;;
      Ok (inl (mk_unpack (srcp + l) dst s.(u_len) (s.(u_checked) + (l + 1))))
  else if flags_of n =? NS_CMPRSFLGS then
    if eom <=? srcp then Err EMSGSIZE
    else
      len <- (if s.(u_len) <? 0 then
                assert_int (srcp - src + 1);;; Ok (srcp - src + 1)
              else Ok s.(u_len));;
      b <- rd msg srcp;;
      let srcp := Z.lor (Z.shiftl (Z.land n 63) 8) (Z.land b 255) in
      if (srcp <? 0) || (eom <=? srcp) then Err EMSGSIZE
      else
        let checked := s.(u_checked) + 2 in
        if eom <=? checked then Err EMSGSIZE
        else Ok (inl (mk_unpack srcp s.(u_dst) len checked))
  else Err EMSGSIZE.

Definition unpack_fuel (eom dstsiz : Z) : nat := S (Z.to_nat eom + Z.to_nat dstsiz).

(** The octets consumed at [src] and the bytes stored at [dst]; [*dstlen] is
    the number of the latter. *)
Definition ns_name_unpack2 (msg : list Z) (eom src dstsiz : Z) : outcome (Z * list Z) :=
  if (src <? 0) || (eom <=? src) then Err EMSGSIZE
  else loop (unpack_fuel eom dstsiz) (unpack_body msg eom src dstsiz)
            (mk_unpack src [] (-1) 0).

Definition ns_name_unpack (msg : list Z) (eom src dstsiz : Z) : outcome (Z * list Z) :=
  ns_name_unpack2 msg eom src dstsiz.

Definition ns_name_uncompress (msg : list Z) (eom src dstsiz : Z) : outcome (Z * list Z) :=
  let! (n, tmp) := ns_name_unpack msg eom src NS_MAXCDNAME in
  dst <- ns_name_ntop tmp dstsiz;;
  Ok (n, dst).

(** ** [dn_find] and [ns_name_pack]

    [msg] is the message being built, [dnptrs] the offsets in it of the names
    already there. *)

(** Two labels of [n] bytes, without regard to case. *)
Fixpoint same_label (m1 : list Z) (i : Z) (m2 : list Z) (j : Z) (n : nat) : outcome bool :=
  match n with
  | O => Ok true
  | S n =>
      x <- rd m1 i;;
      y <- rd m2 j;;
      if negb (mklower x =? mklower y) then Ok false
      else same_label m1 (i + 1) m2 (j + 1) n
  end.

Inductive find_result : Type := Found | Next | Illegal.

(** The comparison of [domain] (from [dn]) with the name at [cp]. *)
Definition find_body (domain msg : list Z) (s : Z * Z)
    : outcome ((Z * Z) + find_result) :=
  let '(dn, cp) := s in
  n <- rd msg cp;;
  if n =? 0 then Ok (inr Next)
  else if flags_of n =? 0 then
    n <- labellen msg cp;;
    d <- rd domain dn;;
    if negb (n =? d) then Ok (inr Next)
    else
      b <- same_label domain (dn + 1) msg (cp + 1) (Z.to_nat n);;
      if negb b then Ok (inr Next)
      else
        let dn := dn + 1 + n in
        let cp := cp + 1 + n in
        d <- rd domain dn;;
        c <- (if d =? 0 then rd msg cp else Ok 0);;
        if (d =? 0) && (c =? 0) then Ok (inr Found)
        else if negb (d =? 0) then Ok (inl (dn, cp))
        else Ok (inr Next)
  else if flags_of n =? NS_CMPRSFLGS then
    b <- rd msg (cp + 1);;
    Ok (inl (dn, Z.lor (Z.shiftl (Z.land n 63) 8) b))
  else Ok (inr Illegal).

(** The loop over the names that end the name at [sp]: [Some r] when the
    search ends with [r]. *)
Definition suffix_body (fuel : nat) (domain : list Z) (dn0 : Z) (msg : list Z) (sp : Z)
    : outcome (Z + option Z) :=
  b <- rd msg sp;;
  if negb (b =? 0) && (flags_of b =? 0) && (sp <? 16384) then
    r <- loop fuel (find_body domain msg) (dn0, sp);;
    match r with
    | Found => assert_int sp;;; Ok (inr (Some sp))
    | Illegal => Ok (inr (Some (-1)))
    | Next => Ok (inl (sp + (b + 1)))
    end
  else Ok (inr None).

(** [dn_find]: the offset of a name equal to the one at [dn0] of [domain], or
    -1; [fuel] bounds the comparison of one name. *)
Fixpoint dn_find (fuel : nat) (domain : list Z) (dn0 : Z) (msg : list Z) (dnptrs : list Z)
    : outcome Z :=
  match dnptrs with
  | [] => Ok (-1)
  | sp :: dnptrs =>
      r <- loop (S (length msg)) (suffix_body fuel domain dn0 msg) sp;;
      match r with
      | Some v => Ok v
      | None => dn_find fuel domain dn0 msg dnptrs
      end
  end.

(** The check that the name at [srcp] is legal. *)
Definition legal_body (src : list Z) (s : Z * Z) : outcome (Z * Z + unit) :=
  let '(srcp, l) := s in
  n <- rd src srcp;;
  if flags_of n =? NS_CMPRSFLGS then Err EMSGSIZE
  else
    l0 <- labellen src srcp;;
    if l0 <? 0 then Err EINVAL
    else
      let l := l + (l0 + 1) in
      if MAXCDNAME <? l then Err EMSGSIZE
      else if negb (n =? 0) then Ok (inl (srcp + (l0 + 1), l))
      else Ok (inr tt).

(** The message buffer, the write pointer [dstp], the pointers that end the
    list, the source pointer and [first]. *)
Record pack_state : Type := mk_pack {
  k_msg : list Z;
  k_dstp : Z;
  k_ptrs : list Z;
  k_srcp : Z;
  k_first : bool;
}.

(** What [ns_name_pack] leaves: the return value or [errno], the buffer and
    the list. *)
Record pack_ret : Type := mk_packed {
  r_val : Z + errno;
  r_msg : list Z;
  r_ptrs : list Z;
}.

(** [cleanup:] the list ends again where it ended. *)
Definition pack_cleanup (ptrs0 : list Z) (msg : list Z) : pack_ret :=
  mk_packed (inr EMSGSIZE) msg ptrs0.

(** One label.  [msgp] says whether there is a list to search, [lastdnptr] is
    the number of its slots (after the one for the message) if the list may be
    extended. *)
Definition pack_body (fuel : nat) (src : list Z) (dst eob : Z) (msgp : bool)
    (lastdnptr : option Z) (ptrs0 : list Z) (s : pack_state)
    : outcome (pack_state + pack_ret) :=
  n <- rd src s.(k_srcp);;
  l <- (if negb (n =? 0) && msgp then dn_find fuel src s.(k_srcp) s.(k_msg) ptrs0
        else Ok (-1));;
  if 0 <=? l then
    if eob <=? s.(k_dstp) + 1 then Ok (inr (pack_cleanup ptrs0 s.(k_msg)))
    else
      msg <- wr s.(k_msg) s.(k_dstp) (u8 (Z.lor (Z.shiftr l 8) NS_CMPRSFLGS));;
      msg <- wr msg (s.(k_dstp) + 1) (Z.rem l 256);;
      let dstp := s.(k_dstp) + 2 in
      assert_int (dstp - dst);;;
      Ok (inr (mk_packed (inl (dstp - dst)) msg s.(k_ptrs)))
  else
    let save := negb (n =? 0) && msgp &&
                match lastdnptr with
                | None => false
                | Some slots => zlen s.(k_ptrs) <? slots - 1
                end && (s.(k_dstp) <? 16384) && s.(k_first) in
    let ptrs := if save then s.(k_ptrs) ++ [s.(k_dstp)] else s.(k_ptrs) in
    let first := if save then false else s.(k_first) in
    if flags_of n =? NS_CMPRSFLGS then Ok (inr (pack_cleanup ptrs0 s.(k_msg)))
    else
      n <- labellen src s.(k_srcp);;
      if eob <=? s.(k_dstp) + 1 + n then Ok (inr (pack_cleanup ptrs0 s.(k_msg)))
      else
        bytes <- rdn src s.(k_srcp) (n + 1);;
        msg <- wrn s.(k_msg) s.(k_dstp) bytes;;
        let dstp := s.(k_dstp) + (n + 1) in
        if negb (n =? 0) then
          Ok (inl (mk_pack msg dstp ptrs (s.(k_srcp) + (n + 1)) first))
        else if eob <? dstp then Ok (inr (pack_cleanup ptrs0 msg))
        else
          assert_int (dstp - dst);;;
          Ok (inr (mk_packed (inl (dstp - dst)) msg ptrs)).

(** [msg] is the buffer the pointers point into, of which [dst] to
    [dst + dstsiz] is the destination; [dnptrs] is [None] when the list or its
    first element is NULL. *)
Definition ns_name_pack (fuel : nat) (src : list Z) (msg : list Z) (dst dstsiz : Z)
    (dnptrs : option (list Z)) (lastdnptr : option Z) : outcome pack_ret :=
  let ptrs0 := match dnptrs with Some p => p | None => [] end in
  let msgp := match dnptrs with Some _ => true | None => false end in
  match loop (S (length src)) (legal_body src) (0, 0) with
  | Err e => Ok (mk_packed (inr e) msg ptrs0)
  | Fault => Fault
  | NoFuel => NoFuel
  | Ok _ =>
      loop (S (length src))
           (pack_body fuel src dst (dst + dstsiz) msgp lastdnptr ptrs0)
           (mk_pack msg dst ptrs0 0 true)
  end.

Definition ns_name_compress (fuel : nat) (src : list Z) (msg : list Z) (dst dstsiz : Z)
    (dnptrs : option (list Z)) (lastdnptr : option Z) : outcome pack_ret :=
  let ptrs0 := match dnptrs with Some p => p | None => [] end in
  match ns_name_pton src NS_MAXCDNAME with
  | Ok (_, tmp) => ns_name_pack fuel tmp msg dst (i32 dstsiz) dnptrs lastdnptr
  | Err e => Ok (mk_packed (inr e) msg ptrs0)
  | Fault => Fault
  | NoFuel => NoFuel
  end.

(** [ns_name_rollback]: the list after the element for the message. *)
Fixpoint ns_name_rollback (src : Z) (dnptrs : list Z) : list Z :=
  match dnptrs with
  | [] => []
  | p :: dnptrs => if src <=? p then [] else p :: ns_name_rollback src dnptrs
  end.

(** ** [ns_name_skip] *)

Definition skip_body (m : list Z) (eom : Z) (cp : Z) : outcome (Z + Z) :=
  if eom <=? cp then Ok (inr cp)
  else
    n <- rd m cp;;
    let cp := cp + 1 in
    if n =? 0 then Ok (inr cp)
    else if flags_of n =? 0 then Ok (inl (cp + n))
    else if flags_of n =? NS_TYPE_ELT then
      l <- labellen m (cp - 1);;
      if l <? 0 then Err EMSGSIZE else Ok (inl (cp + l))
    else if flags_of n =? NS_CMPRSFLGS then Ok (inr (cp + 1))
    else Err EMSGSIZE.

Definition skip_fuel (eom : Z) (cp : Z) : nat := S (Z.to_nat (eom - cp)).

(** The new value of the pointer. *)
Definition ns_name_skip (m : list Z) (ptr eom : Z) : outcome Z :=
  cp <- loop (skip_fuel eom ptr) (skip_body m eom) ptr;;
  if eom <? cp then Err EMSGSIZE else Ok cp.

(** ** [ns_name_length], [ns_name_labels], [ns_name_eq], [ns_name_owned],
    [ns_name_map]

    A [size_t] that counts down below zero is not read again. *)

Definition length_body (m : list Z) (s : Z * Z) : outcome (Z * Z + Z) :=
  let '(nname, namesiz) := s in
  if negb (0 <? namesiz) then Ok (inr nname)
  else
    let namesiz := namesiz - 1 in
    n <- rd m nname;;
    let nname := nname + 1 in
    if n =? 0 then Ok (inr nname)
    else if negb (flags_of n =? 0) then Err EISDIR
    else if namesiz <? n then Err EMSGSIZE
    else Ok (inl (nname + n, namesiz - n)).

Definition ns_name_length (m : list Z) (namesiz : Z) : outcome Z :=
  loop (S (Z.to_nat namesiz)) (length_body m) (0, namesiz).

Definition labels_body (m : list Z) (s : Z * Z * Z) : outcome (Z * Z * Z + Z) :=
  let '(nname, namesiz, ret) := s in
  if negb (0 <? namesiz) then Ok (inr ret)
  else
    let namesiz := namesiz - 1 in
    n <- rd m nname;;
    let nname := nname + 1 in
    if n =? 0 then Ok (inr ret)
    else if negb (flags_of n =? 0) then Err EISDIR
    else if namesiz <? n then Err EMSGSIZE
    else Ok (inl (nname + n, namesiz - n, ret + 1)).

Definition ns_name_labels (m : list Z) (namesiz : Z) : outcome Z :=
  ret <- loop (S (Z.to_nat namesiz)) (labels_body m) (0, namesiz, 0);;
  Ok (ret + 1).

Definition eq_body (a : list Z) (sa : Z) (b : list Z) (sb : Z) (s : Z * Z)
    : outcome (Z * Z + Z) :=
  let '(pa, pb) := s in
  ac <- rd a pa;;
  bc <- rd b pb;;
  if negb (ac =? 0) && negb (bc =? 0) then
    if negb (flags_of ac =? 0) || negb (flags_of bc =? 0) then Err EISDIR
    else if (sa <=? pa + ac) || (sb <=? pb + bc) then Err EMSGSIZE
    else if negb (ac =? bc) then Ok (inr 0)
    else
      r <- strncasecmp a (pa + 1) b (pb + 1) (Z.to_nat ac);;
      if negb (r =? 0) then Ok (inr 0)
      else Ok (inl (pa + 1 + ac, pb + 1 + bc))
  else Ok (inr (if (ac =? 0) && (bc =? 0) then 1 else 0)).

Definition ns_name_eq (a : list Z) (sa : Z) (b : list Z) (sb : Z) : outcome Z :=
  loop (S (length a)) (eq_body a sa b sb) (0, 0).

(** An element of a map is the label its [base] and [len] designate. *)
Fixpoint owned_loop (a b : list (list Z)) (bn : nat) : outcome Z :=
  match bn with
  | O => Ok 1
  | S bn =>
      match a, b with
      | la :: a, lb :: b =>
          if negb (zlen la =? zlen lb) then Ok 0
          else
            r <- strncasecmp la 0 lb 0 (length la);;
            if negb (r =? 0) then Ok 0 else owned_loop a b bn
      | _, _ => Fault
      end
  end.

Definition ns_name_owned (a : list (list Z)) (an : Z) (b : list (list Z)) (bn : Z)
    : outcome Z :=
  if an <? bn then Ok 0 else owned_loop a b (Z.to_nat bn).

(** [ns_name_map]: the elements stored in the map, of which there are as many
    as the return value says. *)
Fixpoint ns_name_map (fuel : nat) (m : list Z) (nname namelen : Z) (mapsize : Z)
    : outcome (list (list Z)) :=
  match fuel with
  | O => NoFuel
  | S fuel =>
      n <- rd m nname;;
      let nname := nname + 1 in
      let namelen := u64 (namelen - 1) in
      if n =? 0 then
        if 0 <? namelen then Err EMSGSIZE else Ok []
      else if negb (flags_of n =? 0) then Err EISDIR
      else if namelen <? n then Err EMSGSIZE
      else
        map <- ns_name_map fuel m (nname + n) (namelen - n) mapsize;;
        if mapsize <=? zlen map then Err ENAMETOOLONG
        else
          base <- rdn m nname n;;
          Ok (map ++ [base])
  end.
