(* ===== verification/NsUnpack.v ===== *)
(** * nameser/ns_name.c: reading names from messages

    Theorems about [ns_name_unpack2] and [ns_name_skip] on arbitrary, possibly
    hostile, messages: they stay inside the message (but for one case, proved
    to be reachable) and the destination (but for the root where there is no
    room at all), they terminate on compression loops, what they store is
    what the message's compressed name expands to, and they agree on where
    the name ends. *)
From Stdlib Require Import ZArith Lia List Bool String.
From stdpp Require Import base tactics list numbers.
From S2P Require Import Prelude CText NsName.
Local Open Scope Z_scope.
Local Open Scope c_scope.

(** ** Length bytes *)

Lemma flags_byte n : byte_ok n -> flags_of n = n / 64 * 64.
Proof.
  intros H. apply Z.eqb_eq.
  exact (forall_upto (fun n => flags_of n =? n / 64 * 64) 256 ltac:(by vm_compute) n H).
Qed.

Lemma flags_cases n :
  byte_ok n ->
  (flags_of n = 0 /\ n < 64) \/ (flags_of n = 64 /\ 64 <= n < 128) \/
  (flags_of n = 128 /\ 128 <= n < 192) \/ (flags_of n = 192 /\ 192 <= n).
Proof.
  intros H. rewrite flags_byte by done. unfold byte_ok in H.
  Z.to_euclidean_division_equations. lia.
Qed.

Lemma rd_byte m i b : bytes_ok m -> rd m i = Ok b -> byte_ok b.
Proof. intros Hm [_ Hb]%rd_inv. unfold bytes_ok in Hm. by eapply Forall_lookup_1 in Hm. Qed.

Lemma labellen_small m i n : rd m i = Ok n -> flags_of n = 0 -> labellen m i = Ok n.
Proof. intros Hr Hf. unfold labellen. by rewrite Hr; cbn; rewrite Hf. Qed.

Lemma labellen_total m i n :
  bytes_ok m -> rd m i = Ok n -> (n = 65 -> i + 1 < zlen m) ->
  total (fun l => l <= 191 /\ (flags_of n = 0 -> l = n)) (labellen m i).
Proof.
  intros Hm Hr Hn. unfold labellen. rewrite Hr. cbn [obind].
  pose proof (rd_byte m i n Hm Hr) as Hb.
  destruct (flags_cases n Hb) as [[-> ?]|[[-> ?]|[[-> ?]|[-> ?]]]]; cbn; try (split; lia).
  unfold DNS_LABELTYPE_BITSTRING. destruct (Z.eqb_spec n 65) as [->|]; cbn; [|lia].
  apply rd_inv in Hr as [? _]. destruct (rd_ok m (i + 1)) as [b Hb1]; [lia|].
  rewrite Hb1. cbn. pose proof (rd_byte _ _ _ Hm Hb1) as Hb2. unfold byte_ok in Hb2.
  split; [|lia]. destruct (b =? 0); [by vm_compute|].
  rewrite Z.quot_div_nonneg by lia. Z.to_euclidean_division_equations. lia.
Qed.

(** The target of a compression pointer. *)
Definition ptr_target (n b : Z) : Z := Z.lor (Z.shiftl (Z.land n 63) 8) (Z.land b 255).

Lemma ptr_target_nonneg n b : byte_ok b -> 0 <= ptr_target n b.
Proof.
  intros Hb. unfold ptr_target. apply Z.lor_nonneg. split.
  - apply Z.shiftl_nonneg, Z.land_nonneg. lia.
  - apply Z.land_nonneg. lia.
Qed.

(** ** The name at an offset of a message

    [expands m off es]: following compression pointers, the name at [off] has
    the labels [es], each with its length byte. *)
Inductive expands (m : list Z) : Z -> list (list Z) -> Prop :=
| exp_root off :
    rd m off = Ok 0 -> expands m off []
| exp_label off n l bytes es :
    rd m off = Ok n -> n <> 0 -> flags_of n = 0 \/ flags_of n = NS_TYPE_ELT ->
    labellen m off = Ok l -> 0 <= l -> rdn m (off + 1) l = Ok bytes ->
    expands m (off + 1 + l) es -> expands m off ((n :: bytes) :: es)
| exp_ptr off n b es :
    rd m off = Ok n -> flags_of n = NS_CMPRSFLGS -> rd m (off + 1) = Ok b ->
    expands m (ptr_target n b) es -> expands m off es.

(** The wire form of a list of labels with their length bytes. *)
Definition wire_of (es : list (list Z)) : list Z := concat es ++ [0].

(** [ends m off e]: without following pointers, the name at [off] ends before
    [e]. *)
Inductive ends (m : list Z) : Z -> Z -> Prop :=
| end_root off : rd m off = Ok 0 -> ends m off (off + 1)
| end_label off n l e :
    rd m off = Ok n -> n <> 0 -> flags_of n = 0 \/ flags_of n = NS_TYPE_ELT ->
    labellen m off = Ok l -> 0 <= l -> ends m (off + 1 + l) e -> ends m off e
| end_ptr off n :
    rd m off = Ok n -> flags_of n = NS_CMPRSFLGS -> ends m off (off + 2).

Section Unpack.
Context (m : list Z) (eom : Z).
Context (Hm : bytes_ok m) (Heom : 0 <= eom <= zlen m) (Hint : eom <= INT_MAX).
(** A length byte of an extended label may be followed by a read. *)
Context (Hlast : eom < zlen m \/ rd m (eom - 1) <> Ok 65).

Lemma labellen_inside i n :
  0 <= i < eom -> rd m i = Ok n ->
  total (fun l => l <= 191 /\ (flags_of n = 0 -> l = n)) (labellen m i).
Proof.
  intros Hi Hr. apply labellen_total; auto. intros ->.
  destruct Hlast as [?|Hl]; [lia|]. destruct (Z.eq_dec i (eom - 1)) as [->|]; [done|lia].
Qed.

Definition unpack_inv (src dstlim : Z) (s : unpack_state) : Prop :=
  0 <= s.(u_srcp) < eom /\
  (s.(u_dst) = [] \/ zlen s.(u_dst) < dstlim) /\ 0 <= s.(u_checked) /\
  (exists es0, s.(u_dst) = concat es0 /\
     forall es, expands m s.(u_srcp) es -> expands m src (es0 ++ es)) /\
  if s.(u_len) <? 0 then
    src <= s.(u_srcp) /\ forall e, ends m s.(u_srcp) e -> ends m src e
  else 0 < s.(u_len) /\ src + s.(u_len) <= eom /\ ends m src (src + s.(u_len)).

Definition unpack_post (src dstsiz : Z) (r : Z * list Z) : Prop :=
  0 < r.1 /\ src + r.1 <= eom /\ zlen r.2 <= dstsiz /\ ends m src (src + r.1) /\
  exists es, expands m src es /\ r.2 = wire_of es.

Definition unpack_measure (dstlim : Z) (s : unpack_state) : nat :=
  (Z.to_nat (dstlim - zlen s.(u_dst)) + Z.to_nat (eom - s.(u_checked)))%nat.

Lemma unpack_root src dstlim s :
  1 <= dstlim -> 0 <= src -> unpack_inv src dstlim s -> rd m s.(u_srcp) = Ok 0 ->
  total (unpack_post src dstlim)
    (dst <- push dstlim s.(u_dst) 0;;
     if s.(u_len) <? 0 then
       assert_int (s.(u_srcp) + 1 - src);;; Ok (s.(u_srcp) + 1 - src, dst)
     else Ok (s.(u_len), dst)).
Proof.
  intros Hd Hs (Hp & Hdst & _ & (es0 & He & Hex) & Hlen) Hr.
  rewrite push_ok by (destruct Hdst as [-> | ?]; zl). cbn [obind].
  assert (Hz : zlen (u_dst s ++ [0]) <= dstlim) by (destruct Hdst as [-> | ?]; zl).
  assert (Hx : exists es, expands m src es /\ u_dst s ++ [0] = wire_of es).
  { exists es0. split; [|by rewrite He]. rewrite <- (app_nil_r es0). by apply Hex, exp_root. }
  destruct (u_len s <? 0) eqn:E.
  - destruct Hlen as [Hsrc He2]. rewrite assert_int_ok by (unfold INT_MIN; lia). cbn.
    split_and!; auto; cbn; try lia. replace (src + _) with (s.(u_srcp) + 1) by lia.
    by apply He2, end_root.
  - destruct Hlen as (? & ? & ?). by split_and!.
Qed.

Lemma unpack_label src dstlim s n :
  0 <= src -> unpack_inv src dstlim s -> rd m s.(u_srcp) = Ok n -> n <> 0 ->
  flags_of n = 0 \/ flags_of n = NS_TYPE_ELT ->
  safe (fun r => match r with
                 | inl s' => unpack_inv src dstlim s' /\
                             (unpack_measure dstlim s' < unpack_measure dstlim s)%nat
                 | inr v => unpack_post src dstlim v
                 end)
    (l <- labellen m s.(u_srcp);;
     if l <? 0 then Err EMSGSIZE
     else if (dstlim <=? zlen s.(u_dst) + l + 1) || (eom <=? s.(u_srcp) + 1 + l) then Err EMSGSIZE
     else
       dst <- push dstlim s.(u_dst) n;;
       bytes <- rdn m (s.(u_srcp) + 1) l;;
       dst <- pushn dstlim dst bytes;;
       Ok (inl (mk_unpack (s.(u_srcp) + 1 + l) dst s.(u_len) (s.(u_checked) + (l + 1))))).
Proof.
  intros Hs (Hp & Hdst & Hc & (es0 & He & Hex) & Hlen) Hr Hn Hf.
  destruct (proj1 (total_ok _ _) (labellen_inside _ n Hp Hr)) as (l & Hl & Hl63 & Hln).
  rewrite Hl. cbn [obind]. bcase; [done|].
  destruct (_ || _) eqn:E; [done|]. zbool. zlen_facts.
  rewrite push_ok by zl. cbn [obind].
  destruct (proj1 (total_ok _ _) (rdn_total m (u_srcp s + 1) l ltac:(lia) ltac:(lia) ltac:(lia)))
    as (bytes & Hb & Hbl & _).
  rewrite Hb. cbn [obind]. rewrite pushn_ok by zl. cbn [obind safe]. split.
  - split_and!; cbn; try lia; [right; zl| |].
    + exists (es0 ++ [n :: bytes]). split.
      * rewrite concat_app. cbn. by rewrite app_nil_r, He, <- app_assoc.
      * intros es Hes. rewrite <- app_assoc. cbn. apply Hex.
        by eapply exp_label.
    + destruct (u_len s <? 0); [|done]. destruct Hlen as [Hsrc He2]. split; [lia|].
      intros e Hends. eapply He2, end_label; eauto.
  - unfold unpack_measure. cbn. autorewrite with zlen. lia.
Qed.

Lemma unpack_ptr src dstlim s n :
  0 <= src -> unpack_inv src dstlim s -> rd m s.(u_srcp) = Ok n ->
  flags_of n = NS_CMPRSFLGS ->
  safe (fun r => match r with
                 | inl s' => unpack_inv src dstlim s' /\
                             (unpack_measure dstlim s' < unpack_measure dstlim s)%nat
                 | inr v => unpack_post src dstlim v
                 end)
    (if eom <=? s.(u_srcp) + 1 then Err EMSGSIZE
     else
       len <- (if s.(u_len) <? 0 then
                 assert_int (s.(u_srcp) + 1 - src + 1);;; Ok (s.(u_srcp) + 1 - src + 1)
               else Ok s.(u_len));;
       b <- rd m (s.(u_srcp) + 1);;
       let srcp := Z.lor (Z.shiftl (Z.land n 63) 8) (Z.land b 255) in
       if (srcp <? 0) || (eom <=? srcp) then Err EMSGSIZE
       else
         let checked := s.(u_checked) + 2 in
         if eom <=? checked then Err EMSGSIZE
         else Ok (inl (mk_unpack srcp s.(u_dst) len checked))).
Proof.
  intros Hs (Hp & Hdst & Hc & (es0 & He & Hex) & Hlen) Hr Hf.
  destruct (Z.leb_spec eom (u_srcp s + 1)) as [|Hlt]; [done|].
  destruct (rd_ok m (u_srcp s + 1) ltac:(lia)) as [b Hb].
  set (len := if u_len s <? 0 then u_srcp s + 1 - src + 1 else u_len s).
  assert (Hlen' : 0 < len /\ src + len <= eom /\ ends m src (src + len)).
  { subst len. destruct (u_len s <? 0) eqn:E; [|done]. destruct Hlen as [Hsrc He2].
    split_and!; [lia|lia|]. replace (src + _) with (u_srcp s + 2) by lia.
    apply He2. by eapply end_ptr. }
  replace (if u_len s <? 0 then _ else _) with (Ok len : outcome Z).
  2:{ subst len. destruct (u_len s <? 0) eqn:E; [|done]. destruct Hlen as [Hsrc He2].
      by rewrite assert_int_ok by (unfold INT_MIN; lia). }
  cbn [obind]. rewrite Hb. cbn [obind]. fold (ptr_target n b).
  destruct (_ || _) eqn:E; [done|]. zbool.
  destruct (Z.leb_spec eom (u_checked s + 2)) as [|Hck]; [done|]. cbn. split.
  - split_and!; cbn; auto; try lia.
    + exists es0. split; [done|]. intros es Hes. by eapply Hex, exp_ptr.
    + rewrite (proj2 (Z.ltb_ge _ _)) by lia. done.
  - unfold unpack_measure. cbn. lia.
Qed.

Lemma ns_name_unpack2_total src dstsiz :
  1 <= dstsiz -> safe (unpack_post src dstsiz) (ns_name_unpack2 m eom src dstsiz).
Proof.
  intros Hd. unfold ns_name_unpack2. destruct (_ || _) eqn:E; [done|]. zbool.
  apply (loop_safe _ (unpack_inv src dstsiz) (unpack_measure dstsiz)).
  - intros s Hinv. pose proof Hinv as (Hp & _). unfold unpack_body.
    destruct (rd_ok m (u_srcp s) ltac:(lia)) as [n Hn]. rewrite Hn. cbn [obind].
    replace (u_srcp s + 1 - 1) with (u_srcp s) by lia.
    destruct (Z.eqb_spec n 0) as [->|Hn0].
    { pose proof (unpack_root src dstsiz s Hd ltac:(lia) Hinv Hn) as Hroot.
      destruct (push dstsiz (u_dst s) 0) as [dst| | |]; cbn in *; try done.
      destruct (u_len s <? 0); [|done]. by destruct (assert_int _). }
    destruct (flags_cases n (rd_byte _ _ _ Hm Hn)) as [[Hf ?]|[[Hf ?]|[[Hf ?]|[Hf ?]]]].
    + rewrite Hf. cbn [Z.eqb orb]. apply unpack_label; auto; lia.
    + rewrite Hf. cbn [Z.eqb orb Pos.eqb NS_TYPE_ELT]. apply unpack_label; auto; lia.
    + by rewrite Hf.
    + rewrite Hf. cbn [Z.eqb orb Pos.eqb NS_TYPE_ELT NS_CMPRSFLGS].
      apply unpack_ptr; auto; lia.
  - split_and!; cbn; try lia; [by left| |].
    + exists []. by split.
    + by split.
  - unfold unpack_measure, unpack_fuel. cbn. rewrite zlen_nil. lia.
Qed.
(** *** Without room

    A label never fits, and a pointer writes nothing: the only thing that is
    written is the zero that ends the root, which is not compared with the end
    of the destination. *)
Lemma unpack_no_room_step src s :
  0 <= src -> unpack_inv src 1 s -> u_dst s = [] ->
  (exists e, unpack_body m eom src 0 s = Err e)
  \/ (unpack_body m eom src 0 s = Fault /\ exists es, expands m src es /\ wire_of es = [0])
  \/ (exists s', unpack_body m eom src 0 s = Ok (inl s') /\ unpack_inv src 1 s' /\ u_dst s' = []
        /\ (Z.to_nat (eom - s'.(u_checked)) < Z.to_nat (eom - s.(u_checked)))%nat).
Proof.
  intros Hs Hinv Hd. pose proof Hinv as (Hp & _ & _ & (es0 & He & Hex) & _). unfold unpack_body.
  destruct (rd_ok m (u_srcp s) ltac:(lia)) as [n Hn]. rewrite Hn. cbn [obind].
  replace (u_srcp s + 1 - 1) with (u_srcp s) by lia. rewrite Hd.
  destruct (Z.eqb_spec n 0) as [->|Hn0].
  { right; left. split; [done|]. exists es0. rewrite Hd in He. unfold wire_of. rewrite <- He. split; [|done].
    rewrite <- (app_nil_r es0). by apply Hex, exp_root. }
  destruct (flags_cases n (rd_byte _ _ _ Hm Hn)) as [[Hf ?]|[[Hf ?]|[[Hf ?]|[Hf ?]]]]; rewrite Hf;
    cbn [Z.eqb orb Pos.eqb NS_TYPE_ELT NS_CMPRSFLGS]; [| |by left; eexists|].
  1, 2: destruct (proj1 (total_ok _ _) (labellen_inside _ n Hp Hn)) as (l & -> & _); cbn [obind];
    left; destruct (Z.ltb_spec l 0); [by eexists|]; change (zlen (@nil Z)) with 0;
    rewrite (proj2 (Z.leb_le 0 (0 + l + 1))) by lia; by eexists.
  pose proof (unpack_ptr src 1 s n Hs Hinv Hn Hf) as Hst. rewrite Hd in Hst.
  match type of Hst with safe _ ?e => destruct e as [[s'|v]|e'| |] eqn:E end; cbn [safe] in Hst; [|exfalso|by left; eexists|done..].
  - right; right. exists s'. split; [done|].
    assert (Hd' : u_dst s' = []).
    { clear Hst. destruct (eom <=? u_srcp s + 1); [done|]. apply obind_ok in E as (len & _ & E).
      apply obind_ok in E as (b & _ & E). cbv zeta in E. destruct (_ || _); [done|].
      destruct (eom <=? u_checked s + 2); [done|]. by injection E as <-. }
    destruct Hst as [Hi Hmu]. split; [done|]. split; [done|]. unfold unpack_measure in Hmu.
    rewrite Hd, Hd' in Hmu. lia.
  - clear Hst. destruct (eom <=? u_srcp s + 1); [done|]. apply obind_ok in E as (len & _ & E).
    apply obind_ok in E as (b & _ & E). cbv zeta in E. destruct (_ || _); [done|].
    by destruct (eom <=? u_checked s + 2).
Qed.

Lemma unpack_no_room src :
  (exists e, ns_name_unpack2 m eom src 0 = Err e)
  \/ (ns_name_unpack2 m eom src 0 = Fault /\ exists es, expands m src es /\ wire_of es = [0]).
Proof.
  unfold ns_name_unpack2. destruct (_ || _) eqn:E; [by left; eexists|]. zbool.
  assert (Hgo : forall fuel s, unpack_inv src 1 s -> u_dst s = [] -> (Z.to_nat (eom - s.(u_checked)) < fuel)%nat ->
    (exists e, loop fuel (unpack_body m eom src 0) s = Err e)
    \/ (loop fuel (unpack_body m eom src 0) s = Fault /\ exists es, expands m src es /\ wire_of es = [0])).
  { intros fuel. induction fuel as [|fuel IH]; intros s Hinv Hd Hf; [lia|]. cbn [loop].
    destruct (unpack_no_room_step src s ltac:(lia) Hinv Hd) as [[e ->]|[[-> Hr]|(s' & -> & Hinv' & Hd' & Hlt)]];
      [by left; eexists|by right|]. cbn [obind]. apply IH; [done|done|lia]. }
  apply Hgo; [|done|unfold unpack_fuel; cbn; lia].
  split_and!; cbn; try lia; [by left| |by split]. exists []. by split.
Qed.
End Unpack.

(** ** Names without compression *)

Definition label_ok (l : list Z) : Prop := 1 <= zlen l <= 63 /\ bytes_ok l.

#[export] Instance label_ok_dec l : Decision (label_ok l).
Proof. unfold label_ok. apply _. Defined.

(** A label with its length byte, and the wire form of a name. *)
Definition enc (l : list Z) : list Z := zlen l :: l.
Definition wire (ls : list (list Z)) : list Z := wire_of (map enc ls).

Lemma wire_cons l ls : wire (l :: ls) = zlen l :: l ++ wire ls.
Proof. unfold wire, wire_of. cbn. by rewrite <- app_assoc. Qed.

Lemma wire_nil : wire [] = [0].
Proof. reflexivity. Qed.

Lemma zlen_wire_cons l ls : zlen (wire (l :: ls)) = zlen l + 1 + zlen (wire ls).
Proof. rewrite wire_cons. autorewrite with zlen. lia. Qed.

Lemma zlen_wire_pos ls : 1 <= zlen (wire ls).
Proof. unfold wire, wire_of. autorewrite with zlen. zlen_facts. lia. Qed.

Lemma wire_length_labels ls :
  Forall label_ok ls -> Z.of_nat (length ls) * 2 + 1 <= zlen (wire ls).
Proof.
  induction 1 as [|l ls [Hl _] _ IH]; [by vm_compute|].
  rewrite zlen_wire_cons. cbn [length]. lia.
Qed.

Lemma label_flags l : label_ok l -> flags_of (zlen l) = 0.
Proof.
  intros [Hl _]. rewrite flags_byte by (unfold byte_ok; lia).
  by rewrite Z.div_small by lia.
Qed.

(** Reading the wire form of a name inside a message. *)
Lemma rd_wire pre l ls post i :
  i = zlen pre -> rd (pre ++ wire (l :: ls) ++ post) i = Ok (zlen l).
Proof. intros. rewrite wire_cons. by apply rd_mid. Qed.

Lemma rd_wire_root pre post i : i = zlen pre -> rd (pre ++ wire [] ++ post) i = Ok 0.
Proof. intros. by apply rd_mid. Qed.

Lemma rdn_wire pre l ls post i :
  i = zlen pre + 1 -> rdn (pre ++ wire (l :: ls) ++ post) i (zlen l) = Ok l.
Proof.
  intros. rewrite wire_cons. cbn. rewrite <- app_assoc.
  change (pre ++ zlen l :: l ++ wire ls ++ post) with (pre ++ [zlen l] ++ l ++ wire ls ++ post).
  rewrite app_assoc. apply rdn_mid; [|done]. autorewrite with zlen. lia.
Qed.

(** Moving on to the next label. *)
Lemma wire_step pre l ls post :
  pre ++ wire (l :: ls) ++ post = (pre ++ enc l) ++ wire ls ++ post.
Proof. rewrite wire_cons. unfold enc. cbn. by rewrite <- !app_assoc. Qed.

Lemma unpack_wire_loop eom src dstlim ls : forall pre post fuel dst checked,
  Forall label_ok ls -> (length ls < fuel)%nat ->
  zlen pre + zlen (wire ls) <= eom -> zlen dst + zlen (wire ls) <= dstlim ->
  0 <= src <= zlen pre -> 0 <= eom <= INT_MAX ->
  loop fuel (unpack_body (pre ++ wire ls ++ post) eom src dstlim)
       (mk_unpack (zlen pre) dst (-1) checked)
  = Ok (zlen pre + zlen (wire ls) - src, dst ++ wire ls).
Proof.
  induction ls as [|l ls IH]; intros pre post fuel dst checked Hls Hf He Hd Hs Hi;
    (destruct fuel as [|fuel]; [cbn in Hf; lia|]).
  - rewrite wire_nil in *. autorewrite with zlen in *. zlen_facts. apply loop_exit.
    unfold unpack_body. cbn [u_srcp u_dst u_len app]. rewrite rd_mid by done. cbn [obind Z.eqb].
    rewrite push_ok by lia. cbn [obind]. cbn [Z.ltb Z.compare].
    rewrite assert_int_ok by (unfold INT_MIN; lia). cbn [obind]. do 3 f_equal; lia.
  - inversion Hls as [|? ? Hl Hls']; subst. pose proof Hl as [Hz _].
    rewrite zlen_wire_cons in *. pose proof (zlen_wire_pos ls). zlen_facts.
    pose proof (rd_wire pre l ls post (zlen pre) eq_refl) as Hr.
    erewrite loop_next.
    2:{ unfold unpack_body. cbn [u_srcp u_dst u_len u_checked]. rewrite Hr. cbn [obind].
        bdecide. rewrite (label_flags l Hl). cbn [Z.eqb orb].
        replace (zlen pre + 1 - 1) with (zlen pre) by lia.
        rewrite (labellen_small _ _ (zlen l)) by (done || by apply label_flags).
        cbn [obind]. bdecide. cbn [orb]. rewrite push_ok by lia. cbn [obind].
        rewrite rdn_wire by done. cbn [obind]. rewrite pushn_ok by zl. reflexivity. }
    rewrite wire_step. replace (zlen pre + 1 + zlen l) with (zlen (pre ++ enc l)) by (unfold enc; zl).
    rewrite IH; auto; [|cbn in Hf; lia|unfold enc; zl|zl|unfold enc; zl].
    rewrite wire_cons. unfold enc. autorewrite with zlen.
    rewrite <- !app_assoc. cbn. do 2 f_equal. lia.
Qed.

Lemma unpack_wire_total pre ls post dstsiz :
  Forall label_ok ls -> zlen (wire ls) <= dstsiz ->
  zlen (pre ++ wire ls ++ post) <= INT_MAX ->
  ns_name_unpack2 (pre ++ wire ls ++ post) (zlen (pre ++ wire ls ++ post)) (zlen pre) dstsiz
  = Ok (zlen (wire ls), wire ls).
Proof.
  intros Hls Hd Hi. unfold ns_name_unpack2. pose proof (zlen_wire_pos ls).
  pose proof (wire_length_labels ls Hls). zlen_facts. autorewrite with zlen in *.
  bdecide. cbn [orb]. rewrite unpack_wire_loop; auto; try zl.
  - rewrite app_nil_l. repeat f_equal. lia.
  - unfold unpack_fuel. lia.
Qed.

(** ** The compressed name of a message determines its labels and its end *)

Lemma expands_det m off es es' : expands m off es -> expands m off es' -> es = es'.
Proof.
  intros H. revert es'. induction H as [off Hr|off n l bytes es Hr Hn Hf Hl H0 Hb _ IH
                                       |off n b es Hr Hf Hb _ IH]; intros es' H';
    inversion H' as [? Hr'|? n' l' bytes' es2 Hr' Hn' Hf' Hl' H0' Hb' He'
                    |? n' b' es2 Hr' Hf' Hb' He']; subst;
    rewrite Hr in Hr'; simplify_eq; try done;
    try (unfold NS_CMPRSFLGS, NS_TYPE_ELT in *; intuition congruence).
  - rewrite Hl in Hl'. simplify_eq. rewrite Hb in Hb'. simplify_eq. f_equal. by apply IH.
  - rewrite Hb in Hb'. simplify_eq. by apply IH.
Qed.

Lemma ends_after m off e : ends m off e -> off < e.
Proof. induction 1; lia. Qed.

Lemma skip_loop m eom off e : ends m off e -> forall fuel,
  e <= eom -> 0 <= off -> (Z.to_nat (eom - off) < fuel)%nat ->
  loop fuel (skip_body m eom) off = Ok e.
Proof.
  intros He. induction He as [off Hr|off n l e Hr Hn Hf Hl H0 He IH|off n Hr Hf];
    intros fuel Hle Hoff Hfuel; (destruct fuel as [|fuel]; [lia|]).
  - apply loop_exit. unfold skip_body. bdecide. by rewrite Hr.
  - pose proof (ends_after _ _ _ He). rewrite (loop_next _ _ _ (off + 1 + l)).
    + apply IH; lia.
    + unfold skip_body. bdecide. rewrite Hr. cbn [obind]. bdecide.
      destruct Hf as [Hf|Hf].
      * rewrite (labellen_small _ _ n) in Hl by done. injection Hl as <-. by rewrite Hf.
      * rewrite Hf. cbn. replace (off + 1 - 1) with off by lia. rewrite Hl. cbn. by bdecide.
  - apply loop_exit. unfold skip_body. bdecide. rewrite Hr. cbn [obind].
    destruct (Z.eqb_spec n 0) as [->|]; [done|]. rewrite Hf. cbn. do 2 f_equal. lia.
Qed.

Lemma skip_ends m eom off e :
  ends m off e -> 0 <= off -> e <= eom -> ns_name_skip m off eom = Ok e.
Proof.
  intros He H0 Hle. pose proof (ends_after _ _ _ He). unfold ns_name_skip.
  rewrite (skip_loop m eom off e) by (auto; unfold skip_fuel; lia). cbn [obind].
  by rewrite (proj2 (Z.ltb_ge _ _)) by lia.
Qed.

(** ** Claims *)

(** C1: on any message, however malformed, [ns_name_unpack2] terminates
    without reading outside the message, provided that a byte can be read
    behind [eom] or the last byte of the message is not 0x41, and without
    writing more than [dstsiz] bytes, provided that there is room for at least
    one.  When it succeeds, the name at [src] ends (without following
    pointers) exactly after the octets it says it consumed, and what it stored
    is the uncompressed form of the labels the name expands to.  Without any
    room, [dstsiz = 0], it fails unless the name is the root, and then it
    writes the zero of the root outside the destination. *)
Theorem ns_name_unpack2_correct m eom src dstsiz :
  bytes_ok m -> 0 <= eom <= zlen m -> eom <= INT_MAX ->
  eom < zlen m \/ rd m (eom - 1) <> Ok 65 -> 0 <= dstsiz ->
  (exists e, ns_name_unpack2 m eom src dstsiz = Err e) \/
  (exists len dst es, ns_name_unpack2 m eom src dstsiz = Ok (len, dst) /\
     0 < len /\ src + len <= eom /\ zlen dst <= dstsiz /\ ends m src (src + len) /\
     expands m src es /\ dst = wire_of es) \/
  (dstsiz = 0 /\ ns_name_unpack2 m eom src dstsiz = Fault /\
     exists es, expands m src es /\ wire_of es = [0]).
Proof.
  intros H1 H2 H3 H4 H5. destruct (Z.eq_dec dstsiz 0) as [->|Hd].
  { destruct (unpack_no_room m eom H1 H2 H3 H4 src) as [?|?]; [by left|by right; right]. }
  pose proof (ns_name_unpack2_total m eom H1 H2 H3 H4 src dstsiz ltac:(lia)) as H.
  destruct (ns_name_unpack2 m eom src dstsiz) as [[len dst]|e| |]; cbn in H; try done.
  - right; left. destruct H as (? & ? & ? & ? & es & ? & ?). exists len, dst, es. by split_and!.
  - left. by exists e.
Qed.

(** The length byte of an extended label may be the last byte of the
    message; the function then reads one byte beyond it. *)
Theorem ns_name_unpack2_overread dstsiz m :
  ns_name_unpack2 (m ++ [65]) (zlen (m ++ [65])) (zlen m) dstsiz = Fault.
Proof.
  zlen_facts. unfold ns_name_unpack2. autorewrite with zlen. bdecide. cbn [orb].
  unfold unpack_fuel. cbn [loop]. unfold unpack_body at 1. cbn [u_srcp].
  rewrite rd_mid by done. cbn [obind]. change (65 =? 0) with false.
  change ((flags_of 65 =? 0) || (flags_of 65 =? NS_TYPE_ELT)) with true. cbv iota.
  replace (zlen m + 1 - 1) with (zlen m) by lia.
  unfold labellen. rewrite rd_mid by done. cbn [obind].
  change (flags_of 65 =? NS_CMPRSFLGS) with false. change (flags_of 65 =? NS_TYPE_ELT) with true.
  change (65 =? DNS_LABELTYPE_BITSTRING) with true. cbv iota.
  rewrite (rd_fault _ (zlen m + 1)); [done|]. right. zl.
Qed.

(** [ns_name_unpack2] succeeds on every uncompressed name that fits its
    destination, and stores it unchanged. *)
Theorem ns_name_unpack2_wire pre ls post dstsiz :
  Forall label_ok ls -> zlen (wire ls) <= dstsiz ->
  zlen (pre ++ wire ls ++ post) <= INT_MAX ->
  ns_name_unpack2 (pre ++ wire ls ++ post) (zlen (pre ++ wire ls ++ post)) (zlen pre) dstsiz
  = Ok (zlen (wire ls), wire ls).
Proof. apply unpack_wire_total. Qed.

(** Wherever [ns_name_unpack2] reads a name, [ns_name_skip] skips exactly
    the octets it consumed. *)
Theorem ns_name_skip_unpack m eom src dstsiz len dst :
  bytes_ok m -> 0 <= eom <= zlen m -> eom <= INT_MAX ->
  eom < zlen m \/ rd m (eom - 1) <> Ok 65 -> 1 <= dstsiz ->
  ns_name_unpack2 m eom src dstsiz = Ok (len, dst) ->
  ns_name_skip m src eom = Ok (src + len).
Proof.
  intros H1 H2 H3 H4 H5 Hu. pose proof (ns_name_unpack2_total m eom H1 H2 H3 H4 src dstsiz H5) as H.
  rewrite Hu in H. destruct H as (? & ? & _ & He & _). cbn in *. apply skip_ends; auto.
  unfold ns_name_unpack2 in Hu. destruct (_ || _) eqn:E in Hu; [done|]. by zbool.
Qed.

(** ** Witnesses *)

(** "a.bc" at 0, and at 6 "d" followed by a pointer to the label "bc". *)
Definition sample_msg : list Z := [1; 97; 2; 98; 99; 0; 1; 100; 192; 2].

Lemma ns_name_unpack2_correct_witness :
  (exists e, ns_name_unpack2 sample_msg 10 6 255 = Err e) \/
  (exists len dst es, ns_name_unpack2 sample_msg 10 6 255 = Ok (len, dst) /\
     0 < len /\ 6 + len <= 10 /\ zlen dst <= 255 /\ ends sample_msg 6 (6 + len) /\
     expands sample_msg 6 es /\ dst = wire_of es) \/
  (255 = 0 /\ ns_name_unpack2 sample_msg 10 6 255 = Fault /\
     exists es, expands sample_msg 6 es /\ wire_of es = [0]).
Proof.
  apply (ns_name_unpack2_correct sample_msg 10 6 255).
  - apply (bool_decide_unpack _). by vm_compute.
  - by vm_compute.
  - by vm_compute.
  - right. by vm_compute.
  - done.
Defined.

Lemma ns_name_unpack2_wire_witness :
  ns_name_unpack2 sample_msg 10 0 6 = Ok (6, [1; 97; 2; 98; 99; 0]).
Proof.
  apply (ns_name_unpack2_wire [] [[97]; [98; 99]] [1; 100; 192; 2] 6).
  - apply (bool_decide_unpack _). by vm_compute.
  - by vm_compute.
  - by vm_compute.
Defined.

Lemma ns_name_skip_unpack_witness : ns_name_skip sample_msg 6 10 = Ok 10.
Proof.
  apply (ns_name_skip_unpack sample_msg 10 6 255 4 [1; 100; 2; 98; 99; 0]).
  - apply (bool_decide_unpack _). by vm_compute.
  - by vm_compute.
  - by vm_compute.
  - right. by vm_compute.
  - done.
  - by vm_compute.
Defined.
