(* ===== verification/NsText.v ===== *)
(** * nameser/ns_name.c: names in text

    [text ls] is the presentation form of a list of labels; [ns_name_ntop]
    produces it whenever it fits, [ns_name_pton2] reads it back.  On arbitrary
    text [ns_name_pton2] stays within its destination and its string. *)
From Stdlib Require Import ZArith Lia List Bool String.
From stdpp Require Import base tactics list numbers.
From S2P Require Import Prelude CText NsName NsUnpack.
Local Open Scope Z_scope.
Local Open Scope c_scope.

(** ** The presentation form *)

Definition dec3 (c : Z) : list Z := [48 + c / 100; 48 + c / 10 mod 10; 48 + c mod 10].

Definition text_char (c : Z) : list Z :=
  if special c then [92; c] else if printable c then [c] else 92 :: dec3 c.

Definition text_label (l : list Z) : list Z := concat (map text_char l).

Fixpoint text_rest (ls : list (list Z)) : list Z :=
  match ls with
  | [] => []
  | l :: ls => 46 :: text_label l ++ text_rest ls
  end.

Definition text (ls : list (list Z)) : list Z :=
  match ls with
  | [] => [46]
  | l :: ls => text_label l ++ text_rest ls
  end.

(** ** [ns_name_ntop] *)

Lemma text_char_len c : 1 <= zlen (text_char c).
Proof. unfold text_char. repeat case_match; unfold zlen; cbn; lia. Qed.

Lemma text_label_len l : zlen l <= zlen (text_label l).
Proof.
  induction l as [|c l IH]; [done|]. unfold text_label in *. cbn.
  pose proof (text_char_len c). zl.
Qed.

Lemma rd_digits d : 0 <= d < 10 -> rd digits d = Ok (48 + d).
Proof.
  intros H.
  pose proof (forall_upto (fun d => bool_decide (rd digits d = Ok (48 + d))) 10
                ltac:(by vm_compute) d ltac:(lia)) as Hd.
  by apply bool_decide_eq_true in Hd.
Qed.

Lemma ntop_char_spec eom dn c :
  byte_ok c -> zlen dn + zlen (text_char c) <= eom ->
  ntop_char eom dn c = Ok (dn ++ text_char c).
Proof.
  unfold byte_ok, ntop_char, text_char. intros Hc Hd. zlen_facts. destruct (special c).
  - change (zlen [92; c]) with 2 in Hd. bdecide. rewrite push_ok by lia. cbn [obind].
    rewrite push_ok by zl. by rewrite <- app_assoc.
  - destruct (printable c); cbn [negb].
    + change (zlen [c]) with 1 in Hd. bdecide. by rewrite push_ok by lia.
    + change (zlen (92 :: dec3 c)) with 4 in Hd. bdecide.
      rewrite !Z.rem_mod_nonneg, !Z.quot_div_nonneg by (try apply Z.mod_pos_bound; lia).
      pose proof (Z.mod_pos_bound c 100). pose proof (Z.mod_pos_bound c 10).
      assert (0 <= c / 100 < 10) by (Z.to_euclidean_division_equations; lia).
      assert (E : c mod 100 / 10 = c / 10 mod 10) by (Z.to_euclidean_division_equations; lia).
      rewrite E. pose proof (Z.mod_pos_bound (c / 10) 10).
      rewrite push_ok by lia. cbn [obind]. rewrite rd_digits by lia. cbn [obind].
      rewrite push_ok by zl. cbn [obind]. rewrite rd_digits by lia. cbn [obind].
      rewrite push_ok by zl. cbn [obind]. rewrite rd_digits by lia. cbn [obind].
      rewrite push_ok by zl. by rewrite <- !app_assoc.
Qed.

(** When the text does not fit, the character is refused or fills the
    destination. *)
Lemma ntop_char_full eom dn c :
  byte_ok c -> eom < zlen dn + zlen (text_char c) -> ntop_char eom dn c = Err EMSGSIZE.
Proof.
  unfold byte_ok, ntop_char, text_char. intros Hc Hd. zlen_facts. destruct (special c).
  - change (zlen [92; c]) with 2 in Hd. by bdecide.
  - destruct (printable c); cbn [negb].
    + change (zlen [c]) with 1 in Hd. by bdecide.
    + change (zlen (92 :: dec3 c)) with 4 in Hd. by bdecide.
Qed.

Lemma ntop_label_spec src eom l : forall pre post dn cp,
  src = pre ++ l ++ post -> cp = zlen pre -> bytes_ok l -> 0 <= eom ->
  zlen dn <= eom ->
  ntop_label src eom cp dn (length l) =
  if zlen dn + zlen (text_label l) <=? eom then Ok (cp + zlen l, dn ++ text_label l)
  else Err EMSGSIZE.
Proof.
  induction l as [|c l IH]; intros pre post dn cp -> -> Hl He Hd.
  { cbn. rewrite app_nil_r. change (zlen []) with 0. bdecide. do 2 f_equal. lia. }
  inversion Hl as [|? ? Hc Hl']; subst. cbn [ntop_label length].
  change (text_label (c :: l)) with (text_char c ++ text_label l).
  cbn [app]. rewrite rd_mid by done. cbn [obind].
  pose proof (text_label_len l). zlen_facts.
  destruct (Z.leb_spec (zlen dn + zlen (text_char c)) eom) as [Hf|Hf].
  - rewrite ntop_char_spec by done. cbn [obind].
    rewrite (IH (pre ++ [c]) post); [|by rewrite <- app_assoc|zl|done|done|zl].
    rewrite <- app_assoc. autorewrite with zlen.
    repeat match goal with |- context [?a <=? eom] => destruct (Z.leb_spec a eom); try lia end.
    + do 2 f_equal. lia.
    + done.
  - rewrite ntop_char_full by done. cbn [obind]. autorewrite with zlen. by bdecide.
Qed.

(** A computation of [full] in a destination of [eom] bytes. *)
Definition fits_or (eom : Z) (full : list Z) (m : outcome (list Z)) : Prop :=
  (m = Ok full /\ zlen full <= eom) \/ (m = Err EMSGSIZE /\ eom <= zlen full).

(** The separator before a label. *)
Definition sep (dn : list Z) : list Z := match dn with [] => [] | _ => [46] end.

Lemma ntop_body_label eom pre l ls post dn :
  label_ok l -> zlen dn <= eom ->
  let full := dn ++ sep dn ++ text_label l in
  let m := ntop_body (pre ++ wire (l :: ls) ++ post) eom (zlen pre, dn) in
  (m = Ok (inl (zlen (pre ++ enc l), full)) /\ zlen full <= eom) \/
  (m = Err EMSGSIZE /\ eom <= zlen full).
Proof.
  intros Hl Hd full m. pose proof Hl as [Hz Hb].
  pose proof (rd_wire pre l ls post (zlen pre) eq_refl) as Hr.
  pose proof (text_label_len l). zlen_facts.
  assert (Hm : m =
    (dn' <- (if negb (zlen dn =? 0) then
              if eom <=? zlen dn then Err EMSGSIZE else push eom dn 46
            else Ok dn);;
    if eom <=? zlen dn' + zlen l then Err EMSGSIZE
    else r <- ntop_label (pre ++ wire (l :: ls) ++ post) eom (zlen pre + 1) dn' (length l);;
         Ok (inl r))).
  { subst m. unfold ntop_body. rewrite Hr. cbn [obind]. bdecide. rewrite (label_flags l Hl).
    cbn [Z.eqb NS_CMPRSFLGS NS_TYPE_ELT].
    rewrite (labellen_small _ _ _ Hr) by (by apply label_flags).
    destruct (if negb (zlen dn =? 0) then _ else _) as [dn'|e| |]; cbn [obind]; try done.
    bdecide.
    by replace (Z.to_nat (zlen l)) with (length l) by (unfold zlen; lia). }
  assert (Hdn : (dn = [] \/ dn <> [] /\ zlen dn <> 0)).
  { destruct dn; [by left|right]. split; [done|zl]. }
  assert (Hsep : (if negb (zlen dn =? 0) then
              if eom <=? zlen dn then Err EMSGSIZE else push eom dn 46
            else Ok dn) = if eom <? zlen (dn ++ sep dn) then Err EMSGSIZE else Ok (dn ++ sep dn)).
  { destruct Hdn as [-> |[Hne Hnz]].
    - cbn. change (zlen []) with 0 in *. by bdecide.
    - replace (sep dn) with [46] by (by destruct dn). autorewrite with zlen. bdecide. cbn.
      destruct (Z.leb_spec eom (zlen dn)); bdecide; [done|]. by rewrite push_ok by lia. }
  subst full. rewrite app_assoc, (zlen_app (dn ++ sep dn)). rewrite Hm, Hsep. clear Hm Hsep. set (d := dn ++ sep dn).
  zlen_facts. destruct (Z.ltb_spec eom (zlen d)); cbn [obind]; [right; split; [done|lia]|].
  destruct (Z.leb_spec eom (zlen d + zlen l)); [right; split; [done|lia]|].
  rewrite (ntop_label_spec _ eom l (pre ++ [zlen l]) (wire ls ++ post));
    [|rewrite wire_cons; cbn; by rewrite <- !app_assoc|zl|done|lia|lia].
  destruct (Z.leb_spec (zlen d + zlen (text_label l)) eom); cbn [obind].
  - left. split; [|lia]. do 3 f_equal. unfold enc. zl.
  - right. split; [done|lia].
Qed.

Lemma ntop_loop eom ls : forall pre post fuel dn,
  Forall label_ok ls -> (length ls < fuel)%nat -> dn <> [] -> zlen dn <= eom ->
  fits_or eom (dn ++ text_rest ls)
    (loop fuel (ntop_body (pre ++ wire ls ++ post) eom) (zlen pre, dn)).
Proof.
  induction ls as [|l ls IH]; intros pre post fuel dn Hls Hf Hdn Hd;
    (destruct fuel as [|fuel]; [cbn in Hf; lia|]).
  - left. rewrite app_nil_r. split; [|done]. apply loop_exit. unfold ntop_body.
    by rewrite rd_wire_root.
  - inversion Hls as [|? ? Hl Hls']; subst. cbn [text_rest].
    pose proof (ntop_body_label eom pre l ls post dn Hl Hd) as [[Hb Hz]|[Hb Hz]];
      replace (sep dn) with [46] in * by (by destruct dn).
    + rewrite (loop_next _ _ _ _ Hb), wire_step.
      replace (dn ++ 46 :: text_label l ++ text_rest ls)
        with ((dn ++ [46] ++ text_label l) ++ text_rest ls) by (by rewrite <- !app_assoc).
      apply IH; [done|cbn in Hf; lia|by destruct dn|done].
    + right. split; [by apply loop_err|]. zlen_facts. zl.
Qed.

Lemma text_rest_start l ls : label_ok l -> text_label l ++ text_rest ls <> [].
Proof.
  intros [Hz _]. pose proof (text_label_len l). destruct (text_label l); [zl|done].
Qed.

Lemma ns_name_ntop_total ls post dstsiz :
  Forall label_ok ls -> 0 <= dstsiz -> dstsiz <= INT_MAX ->
  ns_name_ntop (wire ls ++ post) dstsiz =
  if zlen (text ls) <? dstsiz then Ok (text ls ++ [0]) else Err EMSGSIZE.
Proof.
  intros Hls H0 Hi. unfold ns_name_ntop.
  assert (Hfin : forall full m, fits_or dstsiz full m -> full <> [] ->
    (dn <- m;;
     dn <- (if zlen dn =? 0 then
              if dstsiz <=? zlen dn then Err EMSGSIZE else push dstsiz dn 46 else Ok dn);;
     if dstsiz <=? zlen dn then Err EMSGSIZE
     else dn <- push dstsiz dn 0;; assert_int (zlen dn);;; Ok dn) =
    if zlen full <? dstsiz then Ok (full ++ [0]) else Err EMSGSIZE).
  { intros full m [[-> Hz]|[-> Hz]] Hne; cbn [obind]; [|by bdecide].
    assert (zlen full <> 0) by (destruct full; [done|zl]). bdecide. cbn [obind].
    destruct (Z.ltb_spec (zlen full) dstsiz); bdecide; [|done].
    rewrite push_ok by done. cbn [obind]. zlen_facts.
    rewrite assert_int_ok; [done|]. autorewrite with zlen. unfold INT_MIN. lia. }
  destruct ls as [|l ls].
  - cbn [length loop]. unfold ntop_body at 1. rewrite (rd_mid [] post 0) by done.
    cbn [obind Z.eqb]. change (zlen (@nil Z)) with 0. change (text []) with [46].
    change (zlen [46]) with 1. cbn [Z.eqb].
    destruct (Z.leb_spec dstsiz 0); [by bdecide|]. rewrite push_ok by (change (zlen []) with 0; lia).
    cbn [obind app]. change (zlen [46]) with 1. destruct (Z.ltb_spec 1 dstsiz); bdecide; [|done].
    by rewrite push_ok.
  - inversion Hls as [|? ? Hl Hls']; subst. apply (Hfin (text_label l ++ text_rest ls)).
    2:{ by apply text_rest_start. }
    pose proof (ntop_body_label dstsiz [] l ls post [] Hl ltac:(by cbn)) as Hb.
    change (zlen (@nil Z)) with 0 in Hb. cbn [sep app] in Hb.
    destruct Hb as [[Hb Hz]|[Hb Hz]].
    + rewrite (loop_next _ _ _ _ Hb).
      replace (wire (l :: ls) ++ post) with (enc l ++ wire ls ++ post)
        by (rewrite wire_cons; unfold enc; cbn; by rewrite <- app_assoc).
      apply ntop_loop; [done| | |done].
      * rewrite !length_app. pose proof (wire_length_labels ls Hls'). unfold zlen in *. lia.
      * intros E. apply (text_rest_start l [] Hl). cbn. by rewrite E.
    + right. split; [by apply loop_err|]. zl.
Qed.

(** ** [ns_name_pton2] *)

Lemma strchr_digits c d : byte_ok c -> strchr digits c = Some d -> 48 <= c < 58 \/ c = 0.
Proof.
  intros Hc Hs.
  pose proof (forall_upto (fun c => match strchr digits c with
     | Some _ => ((48 <=? c) && (c <? 58)) || (c =? 0) | None => true end) 256
     ltac:(by vm_compute) c Hc) as H.
  cbn beta in H. rewrite Hs in H. apply orb_true_iff in H as [H|H]; zbool; lia.
Qed.

Lemma strchr_digit d : 0 <= d < 10 -> strchr digits (48 + d) = Some d.
Proof.
  intros H.
  pose proof (forall_upto (fun d => bool_decide (strchr digits (48 + d) = Some d)) 10
                ltac:(by vm_compute) d ltac:(lia)) as Hd.
  by apply bool_decide_eq_true in Hd.
Qed.

Lemma digit_at_char d src : 0 <= d < 10 -> digit_at (48 + d :: src) = Some (d, src).
Proof. intros H. unfold digit_at. by rewrite strchr_digit. Qed.

Lemma u8_byte c : byte_ok c -> u8 c = c.
Proof. intros. by apply uwrap_id. Qed.

(** Reading one character of a label. *)
Lemma pton_char eom c rest dn cur fuel :
  byte_ok c -> zlen dn + 1 + zlen cur < eom ->
  (length (text_char c ++ rest) < fuel)%nat ->
  exists fuel', (length rest < fuel')%nat /\
    loop fuel (pton_body eom) (mk_pton (text_char c ++ rest) dn cur false) =
    loop fuel' (pton_body eom) (mk_pton rest dn (cur ++ [c]) false).
Proof.
  intros Hc Hr Hf. unfold text_char in *.
  assert (Hst : forall s src, p_bp s < eom ->
     pton_store eom s src c = Ok (inl (mk_pton src s.(p_done) (s.(p_cur) ++ [c]) false))).
  { intros s src Hs. unfold pton_store. bdecide. by rewrite u8_byte. }
  destruct (special c) eqn:Es.
  - destruct fuel as [|[|fuel]]; [cbn in Hf; lia..|]. exists fuel. split; [cbn in Hf; lia|].
    rewrite (loop_next _ _ _ (mk_pton (c :: rest) dn cur true)) by done.
    apply loop_next. unfold pton_body. cbn [p_src p_escaped]. unfold pton_escape.
    unfold special in Es. destruct (Z.eqb_spec c 91) as [->|]; [done|].
    destruct (strchr digits c) eqn:Ed.
    + apply strchr_digits in Ed as [Hd | ->]; [|done|done].
      exfalso. repeat (apply orb_true_iff in Es as [Es|Es]); apply Z.eqb_eq in Es; lia.
    + by apply Hst.
  - destruct (printable c) eqn:Ep.
    + destruct fuel as [|fuel]; [cbn in Hf; lia|]. exists fuel. split; [cbn in Hf; lia|].
      apply loop_next. unfold pton_body. cbn [p_src p_escaped app]. unfold special in Es. zbool.
      bdecide. by apply Hst.
    + destruct fuel as [|[|fuel]]; [cbn in Hf; lia..|]. exists fuel. split; [cbn in Hf; lia|].
      rewrite (loop_next _ _ _ (mk_pton (dec3 c ++ rest) dn cur true)) by done.
      apply loop_next. unfold byte_ok in Hc. unfold dec3. cbn [app].
      pose proof (Z.mod_pos_bound (c / 10) 10). pose proof (Z.mod_pos_bound c 10).
      assert (0 <= c / 100 < 10) by (Z.to_euclidean_division_equations; lia).
      unfold pton_body. cbn [p_src p_escaped]. unfold pton_escape. bdecide.
      rewrite strchr_digit by lia. rewrite !digit_at_char by lia.
      replace (c / 100 * 100 + c / 10 mod 10 * 10 + c mod 10) with c
        by (Z.to_euclidean_division_equations; lia).
      bdecide. by apply Hst.
Qed.

Lemma pton_label eom rest dn l : forall cur fuel,
  bytes_ok l -> zlen dn + 1 + zlen cur + zlen l <= eom ->
  (length (text_label l ++ rest) < fuel)%nat ->
  exists fuel', (length rest < fuel')%nat /\
    loop fuel (pton_body eom) (mk_pton (text_label l ++ rest) dn cur false) =
    loop fuel' (pton_body eom) (mk_pton rest dn (cur ++ l) false).
Proof.
  induction l as [|c l IH]; intros cur fuel Hl Hz Hf.
  { exists fuel. by rewrite app_nil_r. }
  inversion Hl as [|? ? Hc Hl']; subst. autorewrite with zlen in Hz. zlen_facts.
  change (text_label (c :: l)) with (text_char c ++ text_label l) in *.
  rewrite <- app_assoc in *.
  destruct (pton_char eom c (text_label l ++ rest) dn cur fuel Hc ltac:(lia) Hf) as (f1 & Hf1 & ->).
  destruct (IH (cur ++ [c]) f1 Hl' ltac:(zl) Hf1) as (f2 & Hf2 & ->).
  exists f2. by rewrite <- app_assoc.
Qed.

(** The first character of a label's text is not a dot. *)
Lemma text_label_first l rest :
  label_ok l -> exists b src, text_label l ++ rest = b :: src /\ b <> 46.
Proof.
  intros [Hz _]. destruct l as [|c l]; [change (zlen []) with 0 in Hz; lia|].
  unfold text_label. cbn [map concat]. unfold text_char at 1.
  destruct (special c) eqn:Es; [by eexists _, _|]. unfold special in Es. zbool.
  destruct (printable c); cbn; eexists _, _; (split; [reflexivity|lia]).
Qed.

Lemma pton_loop eom ls : forall dn l fuel,
  Forall label_ok (l :: ls) -> zlen dn + zlen (wire (l :: ls)) <= eom ->
  zlen dn + zlen (wire (l :: ls)) <= 255 ->
  (length (text_label l ++ text_rest ls) < fuel)%nat ->
  loop fuel (pton_body eom) (mk_pton (text_label l ++ text_rest ls) dn [] false)
  = Ok (0, dn ++ wire (l :: ls)).
Proof.
  induction ls as [|l2 ls IH]; intros dn l fuel Hls He H255 Hf;
    inversion Hls as [|? ? Hl Hls']; subst; pose proof Hl as [Hz Hb];
    rewrite zlen_wire_cons in *; zlen_facts.
  - change (zlen (wire [])) with 1 in *.
    destruct (pton_label eom (text_rest []) dn l [] fuel Hb ltac:(zl) Hf) as (f1 & Hf1 & ->).
    destruct f1 as [|f1]; [lia|]. apply loop_exit. unfold pton_body. cbn [p_src p_done p_cur app text_rest].
    rewrite (label_flags l Hl). cbn [Z.eqb negb]. unfold pton_finish. bdecide. cbn [negb].
    autorewrite with zlen. bdecide. rewrite push_ok by zl. cbn [obind].
    autorewrite with zlen. unfold MAXCDNAME. bdecide. cbn [obind].
    rewrite u8_byte by (unfold byte_ok; lia). rewrite wire_cons, <- app_assoc. done.
  - pose proof (zlen_wire_pos (l2 :: ls)).
    destruct (pton_label eom (text_rest (l2 :: ls)) dn l [] fuel Hb ltac:(zl) Hf) as (f1 & Hf1 & ->).
    cbn [text_rest] in *. destruct f1 as [|f1]; [lia|].
    inversion Hls' as [|? ? Hl2 _]; subst.
    destruct (text_label_first l2 (text_rest ls) Hl2) as (b & src & Hsrc & Hb46).
    rewrite (loop_next _ _ _ (mk_pton (text_label l2 ++ text_rest ls) (dn ++ enc l) [] false)).
    + rewrite (IH (dn ++ enc l) l2 f1); auto.
      * rewrite <- app_assoc. do 3 f_equal. rewrite (wire_cons l). done.
      * unfold enc. zl.
      * unfold enc. zl.
      * cbn in Hf1. lia.
    + unfold pton_body. cbn [p_src p_escaped p_done p_cur app]. bdecide. unfold pton_dot.
      cbn [p_src p_escaped p_done p_cur app]. rewrite (label_flags l Hl). cbn [Z.eqb negb].
      bdecide. rewrite Hsrc. bdecide. cbn [orb]. rewrite u8_byte by (unfold byte_ok; lia). done.
Qed.

Lemma ns_name_pton2_text ls dstsiz :
  Forall label_ok ls -> zlen (wire ls) <= dstsiz -> zlen (wire ls) <= 255 ->
  ns_name_pton2 (text ls) dstsiz = Ok (if bool_decide (ls = []) then 1 else 0, wire ls).
Proof.
  intros Hls Hd H255. unfold ns_name_pton2. destruct ls as [|l ls].
  - rewrite bool_decide_eq_true_2 by done. change (zlen (wire [])) with 1 in Hd.
    apply loop_exit. unfold pton_body. cbn [p_src p_escaped Z.eqb Pos.eqb]. unfold pton_dot.
    cbn [p_src p_done p_cur]. change (zlen (@nil Z)) with 0. bdecide. done.
  - rewrite bool_decide_eq_false_2 by done. cbn [text]. by rewrite pton_loop by (zl || auto).
Qed.

(** ** Arbitrary text *)

Lemma strchr_le s c i : strchr s c = Some i -> 0 <= i <= zlen s.
Proof.
  revert i. induction s as [|b s IH]; intros i; cbn.
  - case_match; [|done]. intros [= <-]. done.
  - case_match; [intros [= <-]; zl|]. destruct (strchr s c) as [j|]; [|done].
    intros [= <-]. pose proof (IH j eq_refl). zl.
Qed.

Definition bits_post (room : Z) (n : nat) (r : list Z * Z * list Z * Z * Z * Z) : Prop :=
  let '(cp, lft, tp, value, tbcount, blen) := r in (length cp <= n)%nat.

Lemma bits_body_safe room n s :
  (length s.(b_cp) <= n)%nat ->
  safe (fun r => match r with
                 | inl s' => (length s'.(b_cp) <= n)%nat /\ (Z.to_nat s'.(b_left) < Z.to_nat s.(b_left))%nat
                 | inr v => bits_post room n v
                 end) (bits_body room s).
Proof.
  destruct s as [cp lft tp af beg value count tb]. cbn [b_cp b_left]. intros Hn.
  assert (Htl : (length (tl cp) <= n)%nat) by (destruct cp; cbn in *; lia).
  unfold bits_body. destruct (negb _) eqn:E; [done|].
  apply negb_false_iff, andb_true_iff in E as [E1 E2]. zbool.
  assert (Hl : (Z.to_nat (lft - 1) < Z.to_nat lft)%nat) by lia.
  repeat first
    [ done
    | match goal with
      | |- safe _ (obind (push _ _ _) _) => rewrite push_ok by done
      | |- safe _ (obind (if ?b then _ else _) _) => destruct b
      | |- safe _ (obind (match ?b with _ => _ end) _) => destruct b
      | |- safe _ (if ?b then _ else _) => destruct b
      | |- safe _ (match ?b with _ => _ end) => destruct b
      | |- context [match strtol_digits ?a ?b with _ => _ end] => destruct (strtol_digits a b)
      end
    | progress cbn [obind] ].
Qed.

Lemma encode_bitsring_safe bp lft room :
  safe (fun r => (length r.1.1 <= length bp)%nat /\ zlen r.2 < room) (encode_bitsring bp lft room).
Proof.
  unfold encode_bitsring. destruct (lft <? 2); [done|].
  destruct bp as [|b cp]; [done|]. destruct (Z.eq_dec b 120) as [->|Hb].
  2:{ repeat case_match; subst; done. }
  destruct (negb _); [done|]. apply safe_bind. eapply safe_mono.
  - apply (loop_safe _ (fun s => (length s.(b_cp) <= length cp)%nat) (fun s => Z.to_nat s.(b_left))
             (bits_post room (length cp))).
    + intros s Hs. by apply bits_body_safe.
    + done.
    + cbn. destruct (Z.le_gt_cases lft 0); lia.
  - intros [[[[[cp' lft'] tp] value] tb] blen] Hp. cbn in Hp.
    destruct (_ || _) eqn:E; [done|]. zbool.
    repeat match goal with
    | |- safe _ (obind (if ?b then _ else _) _) => destruct b
    end; cbn; try done; split; cbn; lia.
Qed.

Definition pton_inv (eom : Z) (s : pton_state) : Prop :=
  s.(p_cur) = [] \/ p_bp s <= eom.

Definition pton_post (eom : Z) (r : Z * list Z) : Prop :=
  (r.1 = 0 \/ r.1 = 1) /\ zlen r.2 <= eom /\ zlen r.2 <= 255.

Definition pton_step_ok (eom : Z) (n : nat) (r : pton_state + Z * list Z) : Prop :=
  match r with
  | inl s' => pton_inv eom s' /\ (length s'.(p_src) < n)%nat
  | inr v => pton_post eom v
  end.

Lemma pton_store_safe eom s src c n :
  (length src < n)%nat -> safe (pton_step_ok eom n) (pton_store eom s src c).
Proof.
  intros Hn. unfold pton_store. destruct (Z.leb_spec eom (p_bp s)); [done|].
  split; [|done]. right. unfold p_bp in *. cbn. zl.
Qed.

(** The terminator and the check of the length of the whole name. *)
Lemma pton_end_safe {R} (Q : R -> Prop) eom out c k :
  zlen out <= eom ->
  (forall out', zlen out' <= eom -> zlen out' <= 255 -> safe Q (k out')) ->
  safe Q (out <- (if negb (c =? 0) then
                    if eom <=? zlen out then Err EMSGSIZE else push eom out 0
                  else Ok out);;
          if MAXCDNAME <? zlen out then Err EMSGSIZE else k out).
Proof.
  intros Ho Hk. unfold MAXCDNAME. destruct (negb (c =? 0)); cbn [obind].
  - destruct (Z.leb_spec eom (zlen out)); [done|]. rewrite push_ok by done. cbn [obind].
    destruct (Z.ltb_spec 255 (zlen (out ++ [0]))); [done|]. apply Hk; zl.
  - destruct (Z.ltb_spec 255 (zlen out)); [done|]. by apply Hk.
Qed.

Lemma pton_finish_safe eom dn cur c :
  cur = [] \/ zlen dn + 1 + zlen cur <= eom ->
  safe (pton_post eom) (pton_finish eom dn cur c).
Proof.
  intros Hc. unfold pton_finish. destruct (Z.leb_spec eom (zlen dn)); [done|].
  apply pton_end_safe; [destruct Hc as [-> |]; zl|].
  intros out' H1 H2. split; [by left|done].
Qed.

Lemma pton_dot_safe eom s src n :
  pton_inv eom s -> (length src < n)%nat -> safe (pton_step_ok eom n) (pton_dot eom s src).
Proof.
  intros Hi Hn. unfold pton_dot. destruct (negb _); [done|].
  destruct (Z.leb_spec eom (zlen s.(p_done))); [done|].
  destruct src as [|b src].
  - apply (pton_end_safe (pton_step_ok eom n)).
    + destruct Hi as [-> |Hi]; [zl|]. unfold p_bp in Hi. zl.
    + intros out' H1 H2. cbn. split; [by right|done].
  - destruct (_ || _); [done|]. split; [by left|done].
Qed.

Lemma digit_at_len src d rest : digit_at src = Some (d, rest) -> (length rest < length src)%nat.
Proof.
  unfold digit_at. destruct src; [done|]. case_match; [|done]. intros [= _ <-]. cbn. lia.
Qed.

Lemma pton_escape_safe eom s c src n :
  (length src < n)%nat -> safe (pton_step_ok eom n) (pton_escape eom s c src).
Proof.
  intros Hn. unfold pton_escape. destruct (c =? 91).
  - destruct (strchr src 93) as [i|]; [|done]. apply safe_bind.
    eapply safe_mono; [apply encode_bitsring_safe|].
    intros [[src' blen] bytes] [Hlen Hroom]. cbn in Hlen, Hroom.
    destruct src' as [|b src'].
    + apply safe_bind. eapply safe_mono; [apply pton_finish_safe; by left|]. done.
    + destruct (Z.eq_dec b 46) as [->|]; [|repeat case_match; subst; done].
      split; [by left|]. cbn in *. lia.
  - destruct (strchr digits c); [|by apply pton_store_safe].
    destruct (digit_at src) as [[d2 src2]|] eqn:E2; [|done]. apply digit_at_len in E2.
    destruct (digit_at src2) as [[d3 src3]|] eqn:E3; [|done]. apply digit_at_len in E3.
    destruct (255 <? _); [done|]. apply pton_store_safe. lia.
Qed.

Lemma pton_body_safe eom s :
  pton_inv eom s ->
  safe (fun r => match r with
                 | inl s' => pton_inv eom s' /\ (length s'.(p_src) < length s.(p_src))%nat
                 | inr v => pton_post eom v
                 end) (pton_body eom s).
Proof.
  intros Hi. unfold pton_body. destruct (p_src s) as [|c src] eqn:Es.
  - destruct (negb _); [done|]. apply safe_bind.
    eapply safe_mono; [by apply pton_finish_safe|done].
  - assert (Hn : (length src < length (c :: src))%nat) by (cbn; lia).
    destruct (p_escaped s); [by apply (pton_escape_safe eom s c src)|].
    destruct (c =? 92); [by split|].
    destruct (c =? 46); [by apply (pton_dot_safe eom s src)|]. by apply (pton_store_safe eom s src c).
Qed.

Lemma ns_name_pton2_safe src dstsiz :
  safe (pton_post dstsiz) (ns_name_pton2 src dstsiz).
Proof.
  apply (loop_safe _ (pton_inv dstsiz) (fun s => length s.(p_src))).
  - intros s Hs. by apply pton_body_safe.
  - by left.
  - cbn. lia.
Qed.

(** ** Claims *)

(** [ns_name_ntop] of a name of valid labels writes its presentation form
    and a terminator when they fit, and fails with EMSGSIZE exactly when they
    do not; it never writes beyond [dstsiz] bytes. *)
Theorem ns_name_ntop_correct ls post dstsiz :
  Forall label_ok ls -> 0 <= dstsiz -> dstsiz <= INT_MAX ->
  ns_name_ntop (wire ls ++ post) dstsiz =
  if zlen (text ls) <? dstsiz then Ok (text ls ++ [0]) else Err EMSGSIZE.
Proof. apply ns_name_ntop_total. Qed.

(** C5: what [ns_name_ntop] prints of a name [ns_name_pton2] reads back as the
    same name, whatever bytes its labels hold; the root is reported as fully
    qualified, any other name as not. *)
Theorem ns_name_round_trip ls post siz dst :
  Forall label_ok ls -> zlen (wire ls) <= 255 -> 0 <= siz -> siz <= INT_MAX ->
  ns_name_ntop (wire ls ++ post) siz = Ok dst ->
  exists txt, dst = txt ++ [0] /\
    forall dstsiz, zlen (wire ls) <= dstsiz ->
      ns_name_pton2 txt dstsiz = Ok (if bool_decide (ls = []) then 1 else 0, wire ls).
Proof.
  intros Hls H255 H0 Hi. rewrite ns_name_ntop_total by done.
  destruct (zlen (text ls) <? siz); [|done]. intros [= <-]. exists (text ls). split; [done|].
  intros dstsiz Hd. by apply ns_name_pton2_text.
Qed.

(** On any text whatever [ns_name_pton2] terminates, reads within the
    string and writes within its destination; when it succeeds it returns 0 or
    1 and has stored at most 255 bytes. *)
Theorem ns_name_pton2_bounds src dstsiz :
  (exists e, ns_name_pton2 src dstsiz = Err e) \/
  (exists r out, ns_name_pton2 src dstsiz = Ok (r, out) /\ (r = 0 \/ r = 1) /\
     zlen out <= dstsiz /\ zlen out <= 255).
Proof.
  pose proof (ns_name_pton2_safe src dstsiz) as H.
  destruct (ns_name_pton2 src dstsiz) as [[r out]|e| |]; cbn in H; try done.
  - right. destruct H as (? & ? & ?). eauto 10.
  - left. eauto.
Qed.

(** A bit-string label that follows other characters of a label is
    accepted, and its type byte overwrites the length of that label: the
    stored bytes do not read back as a name of that text. *)
Theorem ns_name_pton2_midlabel_bitstring :
  ns_name_pton2 (str "a\[xfe/7]") 255 = Ok (0, [65; 97; 7; 254; 0]) /\
  ns_name_ntop [65; 97; 7; 254; 0] 255 = Fault.
Proof. split; by vm_compute. Qed.

(** [decode_bitstring] extends the sign of the last byte: the 7 bits
    1111111 are printed as the three digits 1fe, which [ns_name_pton2] does not
    accept for a length of 7. *)
Theorem decode_bitstring_sign :
  ns_name_pton2 (str "\[xfe/7]") 255 = Ok (0, [65; 7; 254; 0]) /\
  ns_name_ntop [65; 7; 254; 0] 255 = Ok (str "\[x1fe/7]" ++ [0]) /\
  ns_name_pton2 (str "\[x1fe/7]") 255 = Err EINVAL.
Proof. split_and!; by vm_compute. Qed.

(** ** Witnesses *)

Definition sample_labels : list (list Z) := [str "a.b"; [0; 200]; str "com"].

Lemma sample_labels_ok : Forall label_ok sample_labels.
Proof. apply (bool_decide_unpack _). by vm_compute. Qed.

Lemma ns_name_ntop_correct_witness :
  ns_name_ntop (wire sample_labels ++ [9]) 40 = Ok (str "a\.b.\000\200.com" ++ [0]).
Proof. exact (ns_name_ntop_correct sample_labels [9] 40 sample_labels_ok ltac:(done) ltac:(done)). Defined.

Lemma ns_name_round_trip_witness :
  exists txt, str "a\.b.\000\200.com" ++ [0] = txt ++ [0] /\
    forall dstsiz, 12 <= dstsiz -> ns_name_pton2 txt dstsiz = Ok (0, wire sample_labels).
Proof.
  exact (ns_name_round_trip sample_labels [] 40 (str "a\.b.\000\200.com" ++ [0])
           sample_labels_ok ltac:(by vm_compute) ltac:(done) ltac:(done) ltac:(by vm_compute)).
Defined.
