(* ===== verification/NsPack.v ===== *)
(** * nameser/ns_name.c: compression

    [dn_find] and [ns_name_pack] on a message whose earlier names are intact:
    they terminate, stay inside the message, and what they write expands to
    the labels of the name that was packed, up to case, with the list of
    pointers ready for the next name. *)
From Stdlib Require Import ZArith Lia List Bool String.
From stdpp Require Import base tactics list numbers.
From S2P Require Import Prelude CText NsName NsUnpack.
Local Open Scope Z_scope.
Local Open Scope c_scope.

(** [expands] with the number of length bytes and pointers that are visited. *)
Inductive expands_n (m : list Z) : nat -> Z -> list (list Z) -> Prop :=
| xn_root off :
    rd m off = Ok 0 -> expands_n m 0 off []
| xn_label k off n l bytes es :
    rd m off = Ok n -> n <> 0 -> flags_of n = 0 \/ flags_of n = NS_TYPE_ELT ->
    labellen m off = Ok l -> 0 <= l -> rdn m (off + 1) l = Ok bytes ->
    expands_n m k (off + 1 + l) es -> expands_n m (S k) off ((n :: bytes) :: es)
| xn_ptr k off n b es :
    rd m off = Ok n -> flags_of n = NS_CMPRSFLGS -> rd m (off + 1) = Ok b ->
    expands_n m k (ptr_target n b) es -> expands_n m (S k) off es.

Lemma expands_n_expands m k off es : expands_n m k off es -> expands m off es.
Proof. induction 1; [by apply exp_root|by eapply exp_label|by eapply exp_ptr]. Qed.

(** ** Extending a message *)

Lemma rd_ext {A} (m x : list A) i b : rd m i = Ok b -> rd (m ++ x) i = Ok b.
Proof.
  intros H. pose proof H as [Hi _]%rd_inv. by rewrite rd_app_l.
Qed.

Lemma rdn_ext {A} (m x : list A) i n bs : rdn m i n = Ok bs -> rdn (m ++ x) i n = Ok bs.
Proof.
  unfold rdn. rewrite zlen_app. zlen_facts.
  destruct (Z.ltb_spec i 0); [done|]. destruct (Z.ltb_spec n 0); [done|].
  destruct (Z.ltb_spec (zlen m) (i + n)); [done|].
  destruct (Z.ltb_spec (zlen m + zlen x) (i + n)); [lia|]. cbn.
  intros [= <-]. f_equal. unfold zlen in *.
  rewrite drop_app_le by lia. rewrite take_app_le; [done|]. rewrite length_drop. lia.
Qed.

Lemma labellen_ext m x i l : labellen m i = Ok l -> labellen (m ++ x) i = Ok l.
Proof.
  unfold labellen. destruct (rd m i) as [n| | |] eqn:E; [|done..].
  rewrite (rd_ext _ x _ _ E). cbn [obind]. repeat case_match; try done.
  destruct (rd m (i + 1)) as [b| | |] eqn:E1; [|done..]. by rewrite (rd_ext _ x _ _ E1).
Qed.

Lemma expands_n_ext m x k off es : expands_n m k off es -> expands_n (m ++ x) k off es.
Proof.
  induction 1; [apply xn_root|eapply xn_label|eapply xn_ptr];
    eauto using rd_ext, rdn_ext, labellen_ext.
Qed.

Lemma expands_n_range m k off es : expands_n m k off es -> 0 <= off < zlen m.
Proof. destruct 1; by apply rd_inv in H as [? _]. Qed.

(** ** [dn_find] *)

(** Labels, with their length bytes, that differ in case only. *)
Definition ci (e e' : list Z) : Prop := map mklower e = map mklower e'.

#[export] Instance ci_equiv : Equivalence ci.
Proof. split; unfold ci; [intros ?|intros ???|intros ?????]; congruence. Qed.

Lemma rd_lookup_ok {A} (m : list A) i b : rd m i = Ok b -> m !! Z.to_nat i = Some b.
Proof. by intros [_ ?]%rd_inv. Qed.

Lemma rdn_split {A} (m : list A) i n bs :
  rdn m i n = Ok bs -> exists pre post, m = pre ++ bs ++ post /\ i = zlen pre /\ n = zlen bs.
Proof.
  unfold rdn. destruct (Z.ltb_spec i 0); [done|]. destruct (Z.ltb_spec n 0); [done|].
  destruct (Z.ltb_spec (zlen m) (i + n)); [done|]. cbn. intros [= <-]. unfold zlen in *.
  exists (take (Z.to_nat i) m), (drop (Z.to_nat n) (drop (Z.to_nat i) m)).
  rewrite take_drop, take_drop. rewrite !length_take, length_drop. split; [done|]. lia.
Qed.

Lemma same_label_spec m1 m2 : forall a b p1 q1 p2 q2 i j,
  m1 = p1 ++ a ++ q1 -> m2 = p2 ++ b ++ q2 -> i = zlen p1 -> j = zlen p2 ->
  length a = length b ->
  same_label m1 i m2 j (length a) = Ok (bool_decide (map mklower a = map mklower b)).
Proof.
  induction a as [|x a IH]; intros [|y b] p1 q1 p2 q2 i j -> -> -> -> Hl; try done.
  injection Hl as Hl. cbn [same_label length]. cbn [app]. rewrite !rd_mid by done. cbn [obind].
  destruct (Z.eqb_spec (mklower x) (mklower y)) as [E|E]; cbn [negb].
  - rewrite (IH b (p1 ++ [x]) q1 (p2 ++ [y]) q2); try (rewrite <- ?app_assoc; done || zl).
    f_equal. apply bool_decide_ext. cbn. split; [intros ->; by rewrite E|by intros [= _ ?]].
  - f_equal. symmetry. apply bool_decide_eq_false_2. cbn. by intros [= ? _].
Qed.

Lemma rd_wire_head pre ls i :
  i = zlen pre -> rd (pre ++ wire ls) i = Ok (match ls with [] => 0 | l :: _ => zlen l end).
Proof. intros ->. destruct ls; [by apply rd_mid|]. rewrite wire_cons. by apply rd_mid. Qed.

Lemma label_nonzero l : label_ok l -> zlen l <> 0.
Proof. intros [? _]. lia. Qed.

Lemma expands_n_root m k off es : rd m off = Ok 0 -> expands_n m k off es -> es = [].
Proof. intros Hr H. destruct H; congruence || done || idtac. rewrite Hr in H. by injection H as <-. Qed.

Lemma find_loop m k cp es : expands_n m k cp es -> bytes_ok m ->
  forall fuel pre ls, (k < fuel)%nat -> Forall label_ok ls -> ls <> [] ->
  total (fun r => r = Found -> Forall2 ci es (map enc ls))
        (loop fuel (find_body (pre ++ wire ls) m) (zlen pre, cp)).
Proof.
  intros H Hm. induction H as [off Hr|k off n l bytes es Hr Hn Hf Hl H0 Hb He IH
                              |k off n b es Hr Hf Hb He IH];
    intros fuel pre ls Hfuel Hls Hne; (destruct fuel as [|fuel]; [lia|]).
  - erewrite loop_exit; [|unfold find_body; rewrite Hr; reflexivity]. by intros [=].
  - destruct (Z.eq_dec (flags_of n) 0) as [Hf0|Hf0].
    2:{ erewrite loop_exit with (v := Illegal); [by intros [=]|]. unfold find_body.
        rewrite Hr. cbn [obind]. destruct Hf as [|Hf]; [done|]. bdecide. by rewrite Hf. }
    rewrite (labellen_small _ _ _ Hr Hf0) in Hl. injection Hl as <-.
    destruct ls as [|lb ls]; [done|]. inversion Hls as [|? ? Hlb Hls']; subst.
    destruct (rdn_split _ _ _ _ Hb) as (p2 & q2 & Hsplit & Hoff & Hlen).
    cbn [loop]. unfold find_body at 1. rewrite Hr. cbn [obind]. bdecide. rewrite ?Hf0. cbn [Z.eqb].
    rewrite (labellen_small _ _ _ Hr Hf0). cbn [obind].
    rewrite rd_wire_head by done. cbn [obind].
    destruct (Z.eqb_spec n (zlen lb)) as [->|]; cbn [negb obind]; [|by intros [=]].
    replace (Z.to_nat (zlen lb)) with (length lb) by (unfold zlen; lia).
    rewrite (same_label_spec _ _ lb bytes (pre ++ [zlen lb]) (wire ls) p2 q2); try done;
      [|by rewrite wire_cons, <- app_assoc|zl|unfold zlen in Hlen; lia].
    cbn [obind]. destruct (bool_decide_reflect (map mklower lb = map mklower bytes)) as [Hci|Hci];
      cbn [negb obind]; [|by intros [=]].
    assert (Hce : ci (zlen lb :: bytes) (enc lb)) by (unfold ci, enc; cbn; by rewrite Hci).
    replace (pre ++ wire (lb :: ls)) with ((pre ++ enc lb) ++ wire ls)
      by (rewrite wire_cons; unfold enc; cbn; by rewrite <- app_assoc).
    replace (zlen pre + 1 + zlen lb) with (zlen (pre ++ enc lb)) by (unfold enc; zl).
    rewrite rd_wire_head by done. cbn [obind].
    destruct ls as [|l2 ls].
    + cbn [Z.eqb]. pose proof (expands_n_range _ _ _ _ He) as Hrg.
      destruct (rd_ok m (off + 1 + zlen lb) Hrg) as [c Hc].
      rewrite Hc. cbn [obind andb]. destruct (Z.eqb_spec c 0) as [->|]; cbn [obind].
      * intros _. rewrite (expands_n_root _ _ _ _ Hc He). by repeat constructor.
      * by intros [=].
    + pose proof (label_nonzero l2 ltac:(by inversion Hls')). bdecide. cbn [obind andb negb].
      eapply total_mono; [apply (IH fuel (pre ++ enc lb) (l2 :: ls)); [lia|done|done]|].
      intros r Hr2 Hfound. constructor; [done|by apply Hr2].
  - erewrite loop_next.
    2:{ unfold find_body. rewrite Hr. cbn [obind]. destruct (Z.eqb_spec n 0) as [->|]; [done|].
        rewrite Hf. cbn. rewrite Hb. reflexivity. }
    replace (Z.lor _ b) with (ptr_target n b); [by apply IH; [lia|..]|].
    unfold ptr_target. f_equal. pose proof (rd_byte _ _ _ Hm Hb) as Hbb. unfold byte_ok in Hbb.
    change 255 with (Z.ones 8). rewrite Z.land_ones by lia. by rewrite Z.mod_small.
Qed.

(** The names that the list of pointers designates. *)
Definition names_ok (m : list Z) (fuel : nat) (ptrs : list Z) : Prop :=
  Forall (fun p => exists k es, (k < fuel)%nat /\ expands_n m k p es) ptrs.

(** What a search may return for the labels [ls]. *)
Definition target_ok (m : list Z) (fuel : nat) (ls : list (list Z)) (v : Z) : Prop :=
  v = -1 \/ (0 <= v < 16384 /\
             exists k es, (k < fuel)%nat /\ expands_n m k v es /\ Forall2 ci es (map enc ls)).

Section Find.
Context (m x : list Z) (fuel : nat) (pre : list Z) (ls : list (list Z)).
Context (Hm : bytes_ok (m ++ x)) (Hls : Forall label_ok ls) (Hne : ls <> [])
        (Hint : zlen m <= INT_MAX).

Lemma suffix_loop sp k es :
  expands_n m k sp es -> (k < fuel)%nat ->
  total (fun r => match r with Some v => target_ok m fuel ls v | None => True end)
    (loop (S (length (m ++ x))) (suffix_body fuel (pre ++ wire ls) (zlen pre) (m ++ x)) sp).
Proof.
  intros He Hk. pose proof (expands_n_range _ _ _ _ He) as Hrg.
  apply (loop_total _ (fun sp => exists k es, (k < fuel)%nat /\ expands_n m k sp es)
           (fun sp => Z.to_nat (zlen m - sp)));
    [|by exists k, es|unfold zlen; rewrite length_app; lia].
  clear sp k es He Hk Hrg. intros sp (k & es & Hk & He).
  pose proof (expands_n_range _ _ _ _ He) as Hr. destruct (rd_ok m sp Hr) as [b Hb].
  pose proof (rd_byte _ _ _ Hm (rd_ext m x sp b Hb)) as Hbb. unfold byte_ok in Hbb.
  unfold suffix_body. rewrite (rd_ext _ x _ _ Hb). cbn [obind].
  destruct (negb (b =? 0) && (flags_of b =? 0) && (sp <? 16384)) eqn:E; [|done].
  apply andb_true_iff in E as [[E1 E2]%andb_true_iff E3]. zbool.
  apply total_bind. eapply total_mono.
  { apply (find_loop (m ++ x) k sp es); eauto using expands_n_ext. }
  intros [| |] Hfound; [| |by left].
  - rewrite assert_int_ok by (unfold INT_MIN; lia). right. split; [lia|].
    exists k, es. auto.
  - inversion He as [? Hr0|? ? n l ? es' Hr0 ? ? Hl ? ? He'|? ? n ? ? Hr0 Hf]; subst;
      rewrite Hb in Hr0; simplify_eq.
    + rewrite (labellen_small _ _ _ Hb E2) in Hl. injection Hl as <-. split; [|lia].
      eexists _, es'. split; [|by replace (sp + (n + 1)) with (sp + 1 + n) by lia]. lia.
    + rewrite E2 in Hf. done.
Qed.

Lemma dn_find_total ptrs :
  names_ok m fuel ptrs ->
  total (target_ok m fuel ls) (dn_find fuel (pre ++ wire ls) (zlen pre) (m ++ x) ptrs).
Proof.
  induction 1 as [|p ptrs (k & es & Hk & He) _ IH]; [by left|]. cbn [dn_find].
  apply total_bind. eapply total_mono; [by apply (suffix_loop p k es)|].
  intros [v|] Hv; [done|exact IH].
Qed.
End Find.

(** ** [ns_name_pack] *)

Lemma wr_app {A} (m : list A) b b' x i :
  i = zlen m -> wr (m ++ b :: x) i b' = Ok ((m ++ [b']) ++ x).
Proof.
  intros ->. zlen_facts. rewrite wr_ok by zl. f_equal. unfold zlen. rewrite Nat2Z.id.
  rewrite insert_app_r_alt by lia. rewrite Nat.sub_diag. cbn. by rewrite <- app_assoc.
Qed.

Lemma wrn_app {A} (m bs x y : list A) i :
  i = zlen m -> zlen y = zlen bs -> wrn (m ++ y ++ x) i bs = Ok ((m ++ bs) ++ x).
Proof.
  intros -> Hl. unfold wrn. zlen_facts. autorewrite with zlen. bdecide. cbn [orb]. f_equal.
  unfold zlen in *. rewrite !Nat2Z.id. rewrite take_app_length, <- app_assoc. do 2 f_equal.
  rewrite <- drop_drop, drop_app_length. replace (length bs) with (length y) by lia.
  by rewrite drop_app_length.
Qed.

(** Splitting the room that is left. *)
Lemma room_split {A} (x : list A) n :
  0 <= n <= zlen x -> exists y z, x = y ++ z /\ zlen y = n.
Proof.
  intros H. exists (take (Z.to_nat n) x), (drop (Z.to_nat n) x). unfold zlen in *.
  rewrite take_drop, length_take. split; [done|lia].
Qed.

(** The labels written so far. *)
Definition body (ls : list (list Z)) : list Z := concat (map enc ls).

Lemma body_snoc ls l : body (ls ++ [l]) = body ls ++ enc l.
Proof. unfold body. rewrite map_app, concat_app. cbn. by rewrite app_nil_r. Qed.

Lemma body_wire ls ls' : body ls ++ wire ls' = wire (ls ++ ls').
Proof. unfold body, wire, wire_of. by rewrite map_app, concat_app, app_assoc. Qed.

Lemma zlen_enc l : zlen (enc l) = zlen l + 1.
Proof. unfold enc. zl. Qed.

(** A name that starts with labels [d] and goes on as the name behind them. *)
Lemma expands_body d : forall pre post k es,
  Forall label_ok d -> expands_n (pre ++ body d ++ post) k (zlen (pre ++ body d)) es ->
  expands_n (pre ++ body d ++ post) (length d + k) (zlen pre) (map enc d ++ es).
Proof.
  induction d as [|l d IH]; intros pre post k es Hd He.
  { cbn in *. by rewrite app_nil_r in He. }
  inversion Hd as [|? ? Hl Hd']; subst. pose proof Hl as [Hz _].
  assert (Hsp : pre ++ body (l :: d) ++ post = (pre ++ enc l) ++ body d ++ post).
  { unfold body. cbn. by rewrite <- !app_assoc. }
  assert (Hsp2 : pre ++ body (l :: d) = (pre ++ enc l) ++ body d).
  { unfold body. cbn. by rewrite <- !app_assoc. }
  rewrite Hsp, Hsp2 in *. apply IH in He; [|done].
  assert (Hr : rd ((pre ++ enc l) ++ body d ++ post) (zlen pre) = Ok (zlen l)).
  { rewrite <- app_assoc. unfold enc. by apply rd_mid. }
  cbn [length Nat.add map app]. eapply (xn_label _ _ _ (zlen l) (zlen l)); eauto.
  - lia.
  - left. by apply label_flags.
  - apply labellen_small; [done|by apply label_flags].
  - lia.
  - rewrite <- app_assoc. unfold enc. cbn. change (zlen l :: l ++ body d ++ post)
      with ([zlen l] ++ l ++ body d ++ post). rewrite app_assoc. apply rdn_mid; [zl|done].
  - replace (zlen pre + 1 + zlen l) with (zlen (pre ++ enc l)) by (rewrite zlen_app, zlen_enc; lia).
    done.
Qed.

(** A compression pointer to [v], as it is written. *)
Definition ptr_hi (v : Z) : Z := u8 (Z.lor (Z.shiftr v 8) NS_CMPRSFLGS).
Definition ptr_lo (v : Z) : Z := Z.rem v 256.

Lemma ptr_hi_val v : 0 <= v < 16384 -> ptr_hi v = v / 256 + 192.
Proof.
  intros Hv. unfold ptr_hi. rewrite Z.shiftr_div_pow2 by lia. change (2 ^ 8) with 256.
  assert (0 <= v / 256 < 64) by (Z.to_euclidean_division_equations; lia).
  rewrite Z.lor_comm. change NS_CMPRSFLGS with (Z.shiftl 3 6).
  rewrite lor_shiftl_add by lia. unfold u8. rewrite uwrap_id by lia. lia.
Qed.

Lemma ptr_written v :
  0 <= v < 16384 -> flags_of (ptr_hi v) = NS_CMPRSFLGS /\ ptr_target (ptr_hi v) (ptr_lo v) = v /\
  byte_ok (ptr_hi v) /\ byte_ok (ptr_lo v).
Proof.
  intros Hv. rewrite ptr_hi_val by done. unfold ptr_lo. rewrite Z.rem_mod_nonneg by lia.
  assert (0 <= v / 256 < 64) by (Z.to_euclidean_division_equations; lia).
  pose proof (Z.mod_pos_bound v 256 ltac:(lia)).
  assert (Hb : byte_ok (v / 256 + 192)) by (unfold byte_ok; lia). split_and!; auto.
  - destruct (flags_cases _ Hb) as [[? ?]|[[? ?]|[[? ?]|[? ?]]]]; try lia. done.
  - unfold ptr_target.
    change 63 with (Z.ones 6). change 255 with (Z.ones 8). rewrite !Z.land_ones by lia.
    rewrite lor_shiftl_add by (try apply Z.mod_pos_bound; lia).
    change (2 ^ 6) with 64. change (2 ^ 8) with 256. rewrite (Z.mod_small (v mod 256)) by lia.
    Z.to_euclidean_division_equations. lia.
Qed.

Lemma names_ok_ext m x f f' ptrs :
  names_ok m f ptrs -> (f <= f')%nat -> names_ok (m ++ x) f' ptrs.
Proof.
  intros H Hf. eapply Forall_impl; [|exact H]. intros p (k & es & Hk & He).
  exists k, es. split; [lia|by apply expands_n_ext].
Qed.

(** What a pack of the labels [ls] at the end of [m] returns. *)
Definition pack_post (m : list Z) (fuel : nat) (ls : list (list Z)) (room : Z)
    (ptrs0 : list Z) (size : Z) (r : pack_ret) : Prop :=
  zlen r.(r_msg) = size /\
  match r.(r_val) with
  | inr e => e = EMSGSIZE /\ r.(r_ptrs) = ptrs0
  | inl n => exists out post k es, r.(r_msg) = m ++ out ++ post /\ zlen out = n /\ 0 < n <= room /\
      (k < fuel + 129)%nat /\ expands_n (m ++ out) k (zlen m) es /\ Forall2 ci es (map enc ls) /\
      names_ok (m ++ out) (fuel + 129) r.(r_ptrs)
  end.

Section Pack.
Context (m : list Z) (fuel : nat) (ptrs0 : list Z) (eob : Z) (msgp : bool)
        (last : option Z) (all : list (list Z)) (size : Z).
Context (Hnames : names_ok m fuel ptrs0) (Hall : Forall label_ok all)
        (Hall255 : zlen (wire all) <= 255).
Context (Hsize : eob <= size) (Hint : size <= INT_MAX) (Heob : zlen m <= eob).

(** The pointer that was added, if any, is to a label written so far. *)
Definition ptrs_inv (d : list (list Z)) (ptrs : list Z) (first : bool) : Prop :=
  ptrs = ptrs0 \/ first = false /\
  exists d1 d2, d = d1 ++ d2 /\ ptrs = ptrs0 ++ [zlen (m ++ body d1)].

Definition pack_inv (d ls : list (list Z)) (s : pack_state) : Prop :=
  all = d ++ ls /\
  (exists x, s.(k_msg) = (m ++ body d) ++ x /\ bytes_ok s.(k_msg)) /\
  zlen s.(k_msg) = size /\
  s.(k_dstp) = zlen (m ++ body d) /\ s.(k_dstp) <= eob /\
  s.(k_srcp) = zlen (body d) /\ ptrs_inv d s.(k_ptrs) s.(k_first).

Lemma labels_few (ls : list (list Z)) :
  Forall label_ok ls -> zlen (wire ls) <= 255 -> (length ls <= 127)%nat.
Proof. intros H Hz. pose proof (wire_length_labels ls H). lia. Qed.

(** The end of a successful pack: [d] has been written, and [tail], which
    expands to [es]. *)
Lemma pack_finish d tail post ptrs first k es :
  Forall label_ok d -> (length d <= 127)%nat -> (k <= S fuel)%nat ->
  expands_n ((m ++ body d) ++ tail) k (zlen (m ++ body d)) es ->
  Forall2 ci (map enc d ++ es) (map enc all) -> ptrs_inv d ptrs first ->
  0 < zlen tail -> zlen (m ++ body d ++ tail) <= eob ->
  zlen (((m ++ body d) ++ tail) ++ post) = size ->
  pack_post m fuel all (eob - zlen m) ptrs0 size
    (mk_packed (inl (zlen (m ++ body d) + zlen tail - zlen m))
               (((m ++ body d) ++ tail) ++ post) ptrs).
Proof.
  intros Hd Hlen Hk He Hci Hp Ht Hroom Hs. split; [done|]. cbn [r_val r_msg r_ptrs].
  rewrite <- app_assoc in He.
  assert (Hx : forall d1 d2, d = d1 ++ d2 -> exists k' es', (k' < fuel + 129)%nat /\
    expands_n (m ++ body d ++ tail) k' (zlen (m ++ body d1)) es').
  { intros d1 d2 ->. rewrite length_app in Hlen. apply Forall_app in Hd as [Hd1 Hd2].
    assert (Hb : body (d1 ++ d2) = body d1 ++ body d2)
      by (unfold body; by rewrite map_app, concat_app).
    rewrite Hb in He. rewrite <- app_assoc, (app_assoc m), (app_assoc m) in He.
    apply expands_body in He; [|done]. eexists _, _. split; [|rewrite Hb, <- app_assoc, app_assoc; exact He].
    lia. }
  exists (body d ++ tail), post, (length d + k)%nat, (map enc d ++ es). split_and!; auto.
  - by rewrite <- !app_assoc.
  - zl.
  - zlen_facts. zl.
  - autorewrite with zlen in *. lia.
  - lia.
  - by apply expands_body.
  - destruct Hp as [-> |(_ & d1 & d2 & -> & ->)].
    + eapply names_ok_ext; [done|lia].
    + apply Forall_app. split; [eapply names_ok_ext; [done|lia]|].
      repeat constructor. destruct (Hx d1 d2 eq_refl) as (k' & es' & ? & ?). eauto.
Qed.

Lemma pack_cleanup_post msg : zlen msg = size ->
  pack_post m fuel all (eob - zlen m) ptrs0 size (pack_cleanup ptrs0 msg).
Proof. by intros. Qed.

Lemma pack_loop ls : forall d s dfuel,
  pack_inv d ls s -> (length ls < dfuel)%nat ->
  total (pack_post m fuel all (eob - zlen m) ptrs0 size)
    (loop dfuel (pack_body fuel (wire all) (zlen m) eob msgp last ptrs0) s).
Proof.
  induction ls as [|l ls IH]; intros d s dfuel (Hal & (x & Hx & Hbytes) & Hsz & Hdp & Hde & Hsp & Hp) Hf;
    (destruct dfuel as [|dfuel]; [cbn in Hf; lia|]); cbn [loop].
  - rewrite app_nil_r in Hal. subst d. pose proof (labels_few all Hall Hall255).
    assert (Hw : wire all = body all ++ wire []) by (by rewrite body_wire, app_nil_r).
    assert (Hr : rd (wire all) (k_srcp s) = Ok 0) by (rewrite Hsp, Hw; by apply rd_mid).
    unfold pack_body at 1. rewrite Hr. cbn [obind Z.eqb negb andb].
    change (0 <=? -1) with false. cbv iota. change (flags_of 0 =? NS_CMPRSFLGS) with false. cbv iota.
    rewrite (labellen_small _ _ 0) by done. cbn [obind].
    destruct (Z.leb_spec eob (k_dstp s + 1 + 0)); [by apply pack_cleanup_post|].
    rewrite Hsp, Hw, (rdn_mid (body all) [0] []) by done. cbn [obind].
    rewrite Hx, zlen_app in Hsz. zlen_facts.
    destruct x as [|b x]; [rewrite zlen_nil in Hsz; lia|].
    rewrite Hx. change (b :: x) with ([b] ++ x). rewrite wrn_app by done. cbn [obind Z.eqb negb].
    destruct (Z.ltb_spec eob (k_dstp s + (0 + 1))); [lia|].
    rewrite assert_int_ok by (unfold INT_MIN; rewrite Hdp in *; zl). cbn [obind total].
    rewrite Hdp. apply (pack_finish all [0] x (k_ptrs s) (k_first s) 0 []); auto; try lia.
    + apply xn_root. by apply rd_mid.
    + by rewrite app_nil_r.
    + change (zlen [0]) with 1. lia.
    + autorewrite with zlen in *. change (zlen [0]) with 1. lia.
    + zl.
  - pose proof Hall as Hal2. rewrite Hal in Hal2. apply Forall_app in Hal2 as [Hd Hls].
    pose proof (Forall_inv Hls) as Hl. pose proof Hl as [Hz Hlb].
    assert (Hlen : (length d <= 127)%nat).
    { pose proof (labels_few all Hall Hall255) as H. rewrite Hal, length_app in H. lia. }
    assert (Hw : wire all = body d ++ wire (l :: ls)) by (by rewrite body_wire, <- Hal).
    assert (Hr : rd (wire all) (k_srcp s) = Ok (zlen l)) by (rewrite Hsp, Hw; by apply rd_wire_head).
    unfold pack_body at 1. rewrite Hr. cbn [obind].
    assert (Hfind : total (target_ok m fuel (l :: ls))
      (if negb (zlen l =? 0) && msgp then dn_find fuel (wire all) (k_srcp s) (k_msg s) ptrs0
       else Ok (-1))).
    { destruct (_ && _); [|by left]. rewrite Hx, <- app_assoc in Hbytes.
      rewrite Hsp, Hw, Hx, <- app_assoc. apply dn_find_total; auto. lia. }
    apply total_ok in Hfind as (v & -> & Hv). cbn [obind].
    destruct Hv as [-> |(Hv & k & es & Hk & He & Hci)].
    + change (0 <=? -1) with false. cbv iota. rewrite (label_flags l Hl).
      change (0 =? NS_CMPRSFLGS) with false. cbv iota.
      rewrite (labellen_small _ _ _ Hr) by (by apply label_flags). cbn [obind].
      destruct (Z.leb_spec eob (k_dstp s + 1 + zlen l)); [by apply pack_cleanup_post|].
      replace (rdn (wire all) (k_srcp s) (zlen l + 1)) with (Ok (enc l)).
      2:{ rewrite Hw, wire_cons, Hsp. change (zlen l :: l ++ wire ls) with (enc l ++ wire ls).
          by rewrite rdn_mid by (rewrite ?zlen_enc; done). }
      cbn [obind]. rewrite Hx, zlen_app in Hsz.
      destruct (room_split x (zlen l + 1) ltac:(lia)) as (y & z & -> & Hy).
      rewrite Hx. rewrite wrn_app by (rewrite ?zlen_enc; done). cbn [obind]. bdecide.
      cbn [negb obind]. apply (IH (d ++ [l])); [|cbn in Hf; lia].
      unfold pack_inv. cbn [k_msg k_dstp k_srcp k_ptrs]. rewrite body_snoc. split_and!.
      * by rewrite <- app_assoc.
      * exists z. rewrite <- (app_assoc m (body d)). split; [done|].
        unfold bytes_ok in *. rewrite Hx, !Forall_app in Hbytes.
        destruct Hbytes as [[? ?] [? ?]]. rewrite !Forall_app. split_and!; auto.
        constructor; [unfold byte_ok; lia|done].
      * autorewrite with zlen in *. rewrite zlen_enc. lia.
      * rewrite Hdp, app_assoc, (zlen_app _ (enc l)), zlen_enc. lia.
      * lia.
      * rewrite Hsp, zlen_app, zlen_enc. lia.
      * cbn [k_first]. destruct Hp as [Hp|(Hfi & d1 & d2 & -> & Hp)].
        -- destruct (_ && _); [right|left; done]. split; [done|].
           exists d, [l]. by rewrite Hp, Hdp.
        -- rewrite Hfi, andb_false_r. right. split; [done|].
           exists d1, (d2 ++ [l]). by rewrite <- app_assoc.
    + destruct (Z.leb_spec 0 v); [|lia].
      destruct (Z.leb_spec eob (k_dstp s + 1)); [by apply pack_cleanup_post|].
      rewrite Hx, zlen_app in Hsz.
      pose proof Hdp as Hdp'.
      destruct x as [|b1 [|b2 x]]; autorewrite with zlen in Hsz, Hdp'; zlen_facts; try lia.
      rewrite Hx. fold (ptr_hi v) (ptr_lo v). rewrite wr_app by done. cbn [obind].
      rewrite wr_app by (rewrite zlen_snoc; lia). cbn [obind].
      rewrite assert_int_ok by (unfold INT_MIN; rewrite Hdp in *; zl). cbn [obind total].
      destruct (ptr_written v Hv) as (Hp1 & Hp2 & Hp3 & Hp4).
      replace (((((m ++ body d) ++ [ptr_hi v]) ++ [ptr_lo v]) ++ x))
        with (((m ++ body d) ++ [ptr_hi v; ptr_lo v]) ++ x) by (by rewrite <- !app_assoc).
      rewrite Hdp.
      change (zlen (m ++ body d) + 2) with (zlen (m ++ body d) + zlen [ptr_hi v; ptr_lo v]).
      apply (pack_finish d _ x (k_ptrs s) (k_first s) (S k) es); auto; try lia.
      * apply (xn_ptr _ _ _ (ptr_hi v) (ptr_lo v)); [by apply rd_mid|done| |].
        -- change [ptr_hi v; ptr_lo v] with ([ptr_hi v] ++ [ptr_lo v]). rewrite app_assoc.
           apply rd_mid. zl.
        -- rewrite Hp2, <- app_assoc. by apply expands_n_ext.
      * rewrite Hal, map_app. apply Forall2_app; [|done]. reflexivity.
      * change (zlen [ptr_hi v; ptr_lo v]) with 2. lia.
      * autorewrite with zlen in *. lia.
      * autorewrite with zlen in *. lia.
Qed.
End Pack.

Lemma legal_wire ls pre fuel l0 :
  Forall label_ok ls -> (length ls < fuel)%nat -> l0 = zlen pre ->
  zlen (pre ++ wire ls) <= 255 ->
  loop fuel (legal_body (pre ++ wire ls)) (zlen pre, l0) = Ok tt.
Proof.
  intros Hls. revert pre fuel l0. induction Hls as [|l ls Hl Hls IH]; intros pre fuel l0 Hf -> Hz;
    (destruct fuel as [|fuel]; [cbn in Hf; lia|]).
  - change (wire []) with [0] in *. autorewrite with zlen in Hz.
    apply loop_exit. unfold legal_body. rewrite rd_mid by done. cbn [obind].
    change (flags_of 0 =? NS_CMPRSFLGS) with false. cbv iota.
    rewrite (labellen_small _ _ 0) by (by try apply rd_mid). cbn [obind].
    unfold MAXCDNAME. by bdecide.
  - pose proof Hl as [Hl1 Hl2].
    assert (Hr : rd (pre ++ wire (l :: ls)) (zlen pre) = Ok (zlen l)) by (by apply rd_wire_head).
    erewrite loop_next.
    2:{ unfold legal_body. rewrite Hr. cbn [obind]. rewrite (label_flags l Hl).
        change (0 =? NS_CMPRSFLGS) with false. cbv iota.
        rewrite (labellen_small _ _ _ Hr) by (by apply label_flags). cbn [obind].
        pose proof (zlen_wire_pos ls). rewrite zlen_app, zlen_wire_cons in Hz. zlen_facts.
        unfold MAXCDNAME. bdecide. reflexivity. }
    rewrite wire_cons in *. unfold enc in *.
    replace (pre ++ zlen l :: l ++ wire ls) with ((pre ++ enc l) ++ wire ls) in *
      by (unfold enc; cbn; by rewrite <- app_assoc).
    replace (zlen pre + (zlen l + 1)) with (zlen (pre ++ enc l)) by (rewrite zlen_app, zlen_enc; lia).
    apply IH; [cbn in Hf; lia|done|done].
Qed.

Lemma ci_wire es ls : Forall2 ci es (map enc ls) -> ci (wire_of es) (wire ls).
Proof.
  unfold wire, wire_of, ci. intros H. rewrite !map_app. f_equal.
  induction H as [|e e' es es' He _ IH]; [done|]. cbn. rewrite !map_app, IH. f_equal. exact He.
Qed.

Lemma ns_name_pack_total m x fuel ptrs ls dstsiz last :
  names_ok m fuel ptrs -> Forall label_ok ls -> zlen (wire ls) <= 255 ->
  bytes_ok (m ++ x) -> 0 <= dstsiz <= zlen x -> zlen (m ++ x) <= INT_MAX ->
  total (pack_post m fuel ls dstsiz ptrs (zlen (m ++ x)))
    (ns_name_pack fuel (wire ls) (m ++ x) (zlen m) dstsiz (Some ptrs) last).
Proof.
  intros Hn Hls H255 Hb Hd Hi. unfold ns_name_pack. pose proof (wire_length_labels ls Hls) as Hll.
  assert (Hlen : (length ls < S (length (wire ls)))%nat) by (unfold zlen in Hll; lia).
  rewrite (legal_wire ls [] _ 0) by done.
  replace dstsiz with (zlen m + dstsiz - zlen m) at 1 by lia.
  apply (pack_loop m fuel ptrs (zlen m + dstsiz) true last ls (zlen (m ++ x))) with (d := []) (ls := ls);
    auto; try (rewrite zlen_app; lia); try lia.
  unfold pack_inv. cbn [k_msg k_dstp k_srcp k_ptrs k_first]. change (body []) with (@nil Z).
  rewrite app_nil_r. split_and!; auto; try lia; [by exists x|by left].
Qed.

(** C6: packing a name behind a message whose listed names are intact always
    terminates and stays inside the buffer.  Either it fails, with EMSGSIZE
    and the list of pointers as it was; or the message is unchanged up to the
    new name, the octets written expand, through the compression pointers, to
    the labels of the packed name up to case, [ns_name_unpack2] can only read
    that name back from them, and every pointer of the new list designates an
    intact name. *)
Theorem ns_name_pack_correct m x fuel ptrs ls dstsiz last :
  names_ok m fuel ptrs -> Forall label_ok ls -> zlen (wire ls) <= 255 ->
  bytes_ok (m ++ x) -> 0 <= dstsiz <= zlen x -> zlen (m ++ x) <= INT_MAX ->
  exists r, ns_name_pack fuel (wire ls) (m ++ x) (zlen m) dstsiz (Some ptrs) last = Ok r /\
    match r.(r_val) with
    | inr e => e = EMSGSIZE /\ r.(r_ptrs) = ptrs
    | inl n => exists out post es,
        r.(r_msg) = m ++ out ++ post /\ zlen out = n /\ 0 < n <= dstsiz /\
        expands r.(r_msg) (zlen m) es /\ Forall2 ci es (map enc ls) /\
        (forall eom siz len dst, 0 <= eom <= zlen r.(r_msg) -> 1 <= siz ->
           eom < zlen r.(r_msg) \/ rd r.(r_msg) (eom - 1) <> Ok 65 -> bytes_ok r.(r_msg) ->
           ns_name_unpack2 r.(r_msg) eom (zlen m) siz = Ok (len, dst) -> ci dst (wire ls)) /\
        names_ok (m ++ out) (fuel + 129) r.(r_ptrs)
    end.
Proof.
  intros H1 H2 H3 H4 H5 H6.
  destruct (proj1 (total_ok _ _) (ns_name_pack_total m x fuel ptrs ls dstsiz last H1 H2 H3 H4 H5 H6))
    as (r & -> & Hsz & H). exists r. split; [done|]. destruct (r_val r) as [n|e]; [|done].
  destruct H as (out & post & k & es & Hm & Hn & Hr & Hk & He & Hci & Hp).
  exists out, post, es.
  assert (Hex : expands (r_msg r) (zlen m) es).
  { rewrite Hm, app_assoc. eapply expands_n_expands. by apply expands_n_ext. }
  split_and!; auto; try lia. intros eom siz len dst Heom Hs Hlast Hbr Hu.
  pose proof (ns_name_unpack2_total (r_msg r) eom Hbr Heom ltac:(lia) Hlast (zlen m) siz Hs) as Hsafe.
  rewrite Hu in Hsafe. destruct Hsafe as (_ & _ & _ & _ & es' & Hes' & Hd). cbn in Hd. subst dst.
  rewrite (expands_det _ _ _ _ Hes' Hex). by apply ci_wire.
Qed.

(** Two pointers of a hostile message that designate each other make
    [dn_find] run forever: no bound on the comparison is enough. *)
Theorem dn_find_diverges fuel :
  dn_find fuel [1; 97; 1; 98; 0] 0 [1; 97; 192; 2] [0] = NoFuel.
Proof.
  assert (H : forall f, loop f (find_body [1; 97; 1; 98; 0] [1; 97; 192; 2]) (2, 2) = NoFuel).
  { induction f as [|f IH]; [done|]. rewrite (loop_next _ _ _ (2, 2)) by done. exact IH. }
  cbn [dn_find length loop]. unfold suffix_body at 1. cbn [rd obind].
  change (rd [1; 97; 192; 2] 0) with (Ok 1 : outcome Z). cbn [obind].
  change (negb (1 =? 0) && (flags_of 1 =? 0) && (0 <? 16384)) with true. cbv iota.
  replace (loop fuel _ (0, 0)) with (@NoFuel find_result); [reflexivity|].
  destruct fuel as [|f]; [done|]. rewrite (loop_next _ _ _ (2, 2)) by done. by rewrite H.
Qed.

(** ** Witnesses *)

Lemma expands_labels ls : forall pre post,
  Forall label_ok ls ->
  expands_n (pre ++ wire ls ++ post) (length ls) (zlen pre) (map enc ls).
Proof.
  intros pre post Hls. unfold wire, wire_of. fold (body ls). rewrite <- app_assoc.
  rewrite <- (app_nil_r (map enc ls)), <- (Nat.add_0_r (length ls)).
  apply expands_body; [done|]. apply xn_root. rewrite app_assoc. by apply rd_mid.
Qed.

Definition packed_msg : list Z := wire [str "www"; str "ExAmple"; str "com"].

Lemma packed_msg_names : names_ok packed_msg 4 [0].
Proof.
  repeat constructor. exists 3%nat, (map enc [str "www"; str "ExAmple"; str "com"]).
  split; [lia|]. pose proof (expands_labels [str "www"; str "ExAmple"; str "com"] [] []) as H.
  rewrite app_nil_r in H. apply H. apply (bool_decide_unpack _). by vm_compute.
Qed.

Definition packed : outcome pack_ret :=
  ns_name_pack 4 (wire [str "FTP"; str "example"; str "COM"]) (packed_msg ++ replicate 9 0) 17 8
    (Some [0]) (Some 5).

Lemma ns_name_pack_correct_witness :
  exists r, packed = Ok r /\
    match r.(r_val) with
    | inr e => e = EMSGSIZE /\ r.(r_ptrs) = [0]
    | inl n => exists out post es,
        r.(r_msg) = packed_msg ++ out ++ post /\ zlen out = n /\ 0 < n <= 8 /\
        expands r.(r_msg) 17 es /\
        Forall2 ci es (map enc [str "FTP"; str "example"; str "COM"]) /\
        (forall eom siz len dst, 0 <= eom <= zlen r.(r_msg) -> 1 <= siz ->
           eom < zlen r.(r_msg) \/ rd r.(r_msg) (eom - 1) <> Ok 65 -> bytes_ok r.(r_msg) ->
           ns_name_unpack2 r.(r_msg) eom 17 siz = Ok (len, dst) ->
           ci dst (wire [str "FTP"; str "example"; str "COM"])) /\
        names_ok (packed_msg ++ out) (4 + 129) r.(r_ptrs)
    end.
Proof.
  apply (ns_name_pack_correct packed_msg (replicate 9 0) 4 [0]
           [str "FTP"; str "example"; str "COM"] 8 (Some 5) packed_msg_names).
  - apply (bool_decide_unpack _). by vm_compute.
  - by vm_compute.
  - apply (bool_decide_unpack _). by vm_compute.
  - by vm_compute.
  - by vm_compute.
Defined.

Lemma packed_octets : exists m, packed = Ok (mk_packed (inl 6) m [0; 17]).
Proof. eexists. vm_compute. reflexivity. Qed.
