(* ===== verification/NsLabels.v ===== *)
(** * nameser/ns_name.c: counting, mapping and comparing uncompressed names

    [ns_name_length], [ns_name_labels] and [ns_name_map] on the wire form of a
    name, the comparison of [ns_name_eq] and the ownership test of
    [ns_name_owned], and two inputs they do not handle. *)
From Stdlib Require Import ZArith Lia List Bool String.
From stdpp Require Import base tactics list numbers.
From S2P Require Import Prelude CText NsName NsUnpack.
Local Open Scope Z_scope.
Local Open Scope c_scope.

Lemma length_loop ls : forall pre post fuel siz,
  Forall label_ok ls -> (length ls < fuel)%nat -> zlen (wire ls) <= siz ->
  loop fuel (length_body (pre ++ wire ls ++ post)) (zlen pre, siz)
  = Ok (zlen (pre ++ wire ls)).
Proof.
  induction ls as [|l ls IH]; intros pre post fuel siz Hls Hf Hs;
    (destruct fuel as [|fuel]; [cbn in Hf; lia|]).
  - change (zlen (wire [])) with 1 in Hs. apply loop_exit. unfold length_body. bdecide.
    cbn [negb]. rewrite rd_wire_root by done. cbn [obind Z.eqb]. rewrite zlen_app. done.
  - inversion Hls as [|? ? Hl Hls']; subst. pose proof Hl as [Hz _].
    rewrite zlen_wire_cons in Hs. pose proof (zlen_wire_pos ls).
    rewrite (loop_next _ _ _ (zlen pre + 1 + zlen l, siz - 1 - zlen l)).
    + rewrite wire_step. replace (zlen pre + 1 + zlen l) with (zlen (pre ++ enc l)) by (unfold enc; zl).
      rewrite IH; [|done|cbn in Hf; lia|lia]. do 2 f_equal. rewrite wire_cons, <- app_assoc. done.
    + unfold length_body. bdecide. cbn [negb]. rewrite rd_wire by done. cbn [obind]. bdecide.
      rewrite (label_flags l Hl). cbn [Z.eqb negb]. bdecide. done.
Qed.

Lemma labels_loop ls : forall pre post fuel siz ret,
  Forall label_ok ls -> (length ls < fuel)%nat -> zlen (wire ls) <= siz ->
  loop fuel (labels_body (pre ++ wire ls ++ post)) (zlen pre, siz, ret)
  = Ok (ret + Z.of_nat (length ls)).
Proof.
  induction ls as [|l ls IH]; intros pre post fuel siz ret Hls Hf Hs;
    (destruct fuel as [|fuel]; [cbn in Hf; lia|]).
  - change (zlen (wire [])) with 1 in Hs. apply loop_exit. unfold labels_body. bdecide.
    cbn [negb]. rewrite rd_wire_root by done. cbn [obind Z.eqb length]. do 2 f_equal. lia.
  - inversion Hls as [|? ? Hl Hls']; subst. pose proof Hl as [Hz _].
    rewrite zlen_wire_cons in Hs. pose proof (zlen_wire_pos ls).
    rewrite (loop_next _ _ _ (zlen pre + 1 + zlen l, siz - 1 - zlen l, ret + 1)).
    + rewrite wire_step. replace (zlen pre + 1 + zlen l) with (zlen (pre ++ enc l)) by (unfold enc; zl).
      rewrite IH; [|done|cbn in Hf; lia|lia]. f_equal. cbn [length]. lia.
    + unfold labels_body. bdecide. cbn [negb]. rewrite rd_wire by done. cbn [obind]. bdecide.
      rewrite (label_flags l Hl). cbn [Z.eqb negb]. bdecide. done.
Qed.

Lemma map_fuel ls : forall pre post fuel mapsize,
  Forall label_ok ls -> (length ls < fuel)%nat -> zlen (wire ls) <= 255 ->
  ns_name_map fuel (pre ++ wire ls ++ post) (zlen pre) (zlen (wire ls)) mapsize
  = if Z.of_nat (length ls) <=? Z.max 0 mapsize then Ok (rev ls) else Err ENAMETOOLONG.
Proof.
  induction ls as [|l ls IH]; intros pre post fuel mapsize Hls Hf Hs;
    (destruct fuel as [|fuel]; [cbn in Hf; lia|]); cbn [ns_name_map].
  - rewrite rd_wire_root by done. cbn [obind Z.eqb]. cbn [length rev]. by bdecide.
  - inversion Hls as [|? ? Hl Hls']; subst. pose proof Hl as [Hz _].
    rewrite zlen_wire_cons in *. pose proof (zlen_wire_pos ls).
    assert (Hu : u64 (zlen l + 1 + zlen (wire ls) - 1) = zlen l + zlen (wire ls)).
    { unfold u64. rewrite uwrap_id by lia. lia. }
    rewrite rd_wire by done. cbn [obind]. bdecide. rewrite (label_flags l Hl), Hu. cbn [Z.eqb negb].
    bdecide. rewrite rdn_wire by done. rewrite wire_step.
    replace (zlen pre + 1 + zlen l) with (zlen (pre ++ enc l)) by (unfold enc; zl).
    replace (zlen l + zlen (wire ls) - zlen l) with (zlen (wire ls)) by lia.
    rewrite IH; [|done|cbn in Hf; lia|lia]. cbn [length rev].
    destruct (Z.leb_spec (Z.of_nat (length ls)) (Z.max 0 mapsize)); cbn [obind].
    + replace (zlen (rev ls)) with (Z.of_nat (length ls)) by (unfold zlen; by rewrite length_rev).
      destruct (Z.leb_spec mapsize (Z.of_nat (length ls))); cbn [obind]; by bdecide.
    + by bdecide.
Qed.

(** ** Comparison *)

(** The bytes of a label that [strncasecmp] looks at. *)
Fixpoint upto_zero (l : list Z) : list Z :=
  match l with
  | [] => []
  | c :: l => if c =? 0 then [] else c :: upto_zero l
  end.

Definition same_text (a b : list Z) : bool :=
  (zlen a =? zlen b) && bool_decide (map tolower (upto_zero a) = map tolower (upto_zero b)).

Lemma tolower_zero c : byte_ok c -> tolower c = 0 -> c = 0.
Proof. unfold byte_ok, tolower. intros H. bcase; lia. Qed.

Lemma strncasecmp_spec a : forall b p1 q1 p2 q2 i j,
  bytes_ok a -> bytes_ok b -> length a = length b -> i = zlen p1 -> j = zlen p2 ->
  exists r, strncasecmp (p1 ++ a ++ q1) i (p2 ++ b ++ q2) j (length a) = Ok r /\
    (r =? 0) = bool_decide (map tolower (upto_zero a) = map tolower (upto_zero b)).
Proof.
  induction a as [|x a IH]; intros [|y b] p1 q1 p2 q2 i j Ha Hb Hl -> ->; try done.
  { by exists 0. }
  injection Hl as Hl. inversion Ha as [|? ? Hx Ha']; subst. inversion Hb as [|? ? Hy Hb']; subst.
  cbn [strncasecmp length app upto_zero]. rewrite !rd_mid by done. cbn [obind].
  destruct (Z.eqb_spec (tolower x) (tolower y)) as [E|E]; cbn [negb].
  - destruct (Z.eqb_spec x 0) as [->|Hx0].
    + assert (y = 0) as -> by (apply tolower_zero; [done|by rewrite <- E]). by exists 0.
    + assert (y <> 0) by (intros ->; by apply tolower_zero in E). bdecide.
      destruct (IH b (p1 ++ [x]) q1 (p2 ++ [y]) q2 (zlen p1 + 1) (zlen p2 + 1) Ha' Hb' Hl
                  ltac:(zl) ltac:(zl)) as (r & Hr & Hrb).
      exists r. rewrite <- !app_assoc in Hr. split; [exact Hr|]. rewrite Hrb.
      apply bool_decide_ext. cbn. split; [intros ->; by rewrite E|by intros [= _ ?]].
  - exists (tolower x - tolower y). split; [done|]. rewrite bool_decide_eq_false_2.
    + apply Z.eqb_neq. lia.
    + destruct (Z.eqb_spec x 0) as [->|], (Z.eqb_spec y 0) as [->|]; cbn; try done.
      by intros [= ? _].
Qed.

Fixpoint same_names (a b : list (list Z)) : bool :=
  match a, b with
  | [], [] => true
  | x :: a, y :: b => same_text x y && same_names a b
  | _, _ => false
  end.

Lemma eq_loop a : forall b p1 q1 p2 q2 fuel,
  Forall label_ok a -> Forall label_ok b -> (length a < fuel)%nat ->
  loop fuel (eq_body (p1 ++ wire a ++ q1) (zlen (p1 ++ wire a)) (p2 ++ wire b ++ q2)
               (zlen (p2 ++ wire b))) (zlen p1, zlen p2)
  = Ok (if same_names a b then 1 else 0).
Proof.
  induction a as [|x a IH]; intros b p1 q1 p2 q2 fuel Ha Hb Hf;
    (destruct fuel as [|fuel]; [cbn in Hf; lia|]).
  - apply loop_exit. unfold eq_body. rewrite rd_wire_root by done. cbn [obind].
    destruct b as [|y b].
    + by rewrite rd_wire_root by done.
    + inversion Hb as [|? ? [Hy _] _]; subst. rewrite rd_wire by done. cbn [obind Z.eqb negb andb].
      by bdecide.
  - inversion Ha as [|? ? Hx Ha']; subst. pose proof Hx as [Hxz Hxb].
    destruct b as [|y b].
    + apply loop_exit. unfold eq_body. rewrite rd_wire, rd_wire_root by done. cbn [obind].
      bdecide. done.
    + inversion Hb as [|? ? Hy Hb']; subst. pose proof Hy as [Hyz Hyb].
      pose proof (zlen_wire_pos a). pose proof (zlen_wire_pos b).
      cbn [loop]. unfold eq_body at 1. rewrite !rd_wire by done. cbn [obind].
      rewrite !zlen_app, !zlen_wire_cons. bdecide. cbn [negb andb orb].
      rewrite (label_flags x Hx), (label_flags y Hy). cbn [Z.eqb negb orb]. bdecide. cbn [orb].
      cbn [same_names]. unfold same_text. destruct (Z.eqb_spec (zlen x) (zlen y)) as [Exy|];
        cbn [negb andb]; [|done].
      destruct (strncasecmp_spec x y (p1 ++ [zlen x]) (wire a ++ q1) (p2 ++ [zlen y]) (wire b ++ q2)
                  (zlen p1 + 1) (zlen p2 + 1) Hxb Hyb ltac:(unfold zlen in Exy; lia)
                  ltac:(zl) ltac:(zl)) as (r & Hr & Hrb).
      replace ((p1 ++ [zlen x]) ++ x ++ wire a ++ q1) with (p1 ++ wire (x :: a) ++ q1) in Hr
        by (rewrite wire_cons; cbn; by rewrite <- !app_assoc).
      replace ((p2 ++ [zlen y]) ++ y ++ wire b ++ q2) with (p2 ++ wire (y :: b) ++ q2) in Hr
        by (rewrite wire_cons; cbn; by rewrite <- !app_assoc).
      replace (Z.to_nat (zlen x)) with (length x) by (unfold zlen; lia).
      rewrite Hr. cbn [obind]. rewrite Hrb. destruct (bool_decide _); cbn [negb andb obind]; [|done].
      rewrite !wire_step.
      replace (zlen p1 + 1 + zlen x) with (zlen (p1 ++ enc x)) by (unfold enc; zl).
      replace (zlen p2 + 1 + zlen x) with (zlen (p2 ++ enc y)) by (unfold enc; zl).
      rewrite <- (IH b (p1 ++ enc x) q1 (p2 ++ enc y) q2 fuel); [|done|done|cbn in Hf; lia].
      f_equal; [f_equal; rewrite zlen_app; unfold enc; autorewrite with zlen; lia|].
      f_equal. unfold enc. zl.
Qed.

(** [b] is a prefix of [a], both from the top of the hierarchy. *)
Fixpoint owned_by (a b : list (list Z)) : bool :=
  match b, a with
  | [], _ => true
  | y :: b, x :: a => same_text x y && owned_by a b
  | _, [] => false
  end.

Lemma owned_spec a : forall b,
  Forall bytes_ok a -> Forall bytes_ok b -> (length b <= length a)%nat ->
  owned_loop a b (length b) = Ok (if owned_by a b then 1 else 0).
Proof.
  induction a as [|x a IH]; intros [|y b] Ha Hb Hl; cbn in Hl; try lia; try done.
  inversion Ha; inversion Hb; subst. cbn [owned_loop length owned_by]. unfold same_text.
  destruct (Z.eqb_spec (zlen x) (zlen y)) as [Exy|]; cbn [negb andb]; [|done].
  destruct (strncasecmp_spec x y [] [] [] [] 0 0) as (r & Hr & Hrb); auto;
    [unfold zlen in Exy; lia|].
  rewrite !app_nil_l, !app_nil_r in Hr. rewrite Hr. cbn [obind]. rewrite Hrb.
  destruct (bool_decide _); cbn [negb andb]; [|done]. apply IH; auto. lia.
Qed.

(** ** Claims *)

(** Of the wire form of a name, [ns_name_length] returns the length,
    [ns_name_labels] the number of labels with the root, and [ns_name_map]
    the labels from the top of the hierarchy down, or ENAMETOOLONG when there
    are more of them than the map holds. *)
Theorem ns_name_counts ls post mapsize :
  Forall label_ok ls -> zlen (wire ls) <= 255 -> 0 <= mapsize ->
  (forall siz, zlen (wire ls) <= siz ->
     ns_name_length (wire ls ++ post) siz = Ok (zlen (wire ls)) /\
     ns_name_labels (wire ls ++ post) siz = Ok (Z.of_nat (length ls) + 1)) /\
  ns_name_map 129 (wire ls ++ post) 0 (zlen (wire ls)) mapsize
  = if Z.of_nat (length ls) <=? mapsize then Ok (rev ls) else Err ENAMETOOLONG.
Proof.
  intros Hls H255 Hm. pose proof (wire_length_labels ls Hls) as Hlen. split.
  - intros siz Hs. unfold ns_name_length, ns_name_labels.
    rewrite (length_loop ls [] post), (labels_loop ls [] post) by (done || lia).
    split; [done|]. cbn [obind]. f_equal; lia.
  - rewrite (map_fuel ls [] post) by (done || lia). by rewrite Z.max_r by lia.
Qed.

(** [ns_name_eq] returns 1 exactly when the names have the same number of
    labels, of the same lengths and the same text up to case before the first
    zero byte; [ns_name_owned] returns 1 exactly when the labels of the second
    map are in this sense the topmost labels of the first. *)
Theorem ns_name_eq_owned a b q1 q2 :
  Forall label_ok a -> Forall label_ok b ->
  ns_name_eq (wire a ++ q1) (zlen (wire a)) (wire b ++ q2) (zlen (wire b))
  = Ok (if same_names a b then 1 else 0) /\
  ns_name_owned (rev a) (Z.of_nat (length a)) (rev b) (Z.of_nat (length b))
  = Ok (if owned_by (rev a) (rev b) then 1 else 0).
Proof.
  intros Ha Hb. pose proof (wire_length_labels a Ha). split.
  - unfold ns_name_eq. apply (eq_loop a b [] q1 [] q2); auto. unfold zlen in *. rewrite length_app. lia.
  - assert (Hbytes : forall l, Forall label_ok l -> Forall bytes_ok (rev l)).
    { intros l Hl. apply Forall_rev. eapply Forall_impl; [|exact Hl]. by intros x [_ ?]. }
    unfold ns_name_owned. destruct (Z.ltb_spec (Z.of_nat (length a)) (Z.of_nat (length b))) as [Hlt|Hge].
    + assert (Hf : forall x y, (length x < length y)%nat -> owned_by x y = false).
      { induction x as [|c x IH]; intros [|d y] Hxy; cbn in Hxy; try lia; try done.
        cbn. rewrite IH by lia. by rewrite andb_false_r. }
      by rewrite Hf by (rewrite !length_rev; lia).
    + rewrite Nat2Z.id. rewrite <- (length_rev b). apply owned_spec; auto. rewrite !length_rev. lia.
Qed.

(** Labels that differ only behind a zero byte are taken for equal. *)
Theorem ns_name_eq_zero_byte :
  ns_name_eq (wire [[97; 0; 98]]) 5 (wire [[97; 0; 99]]) 5 = Ok 1 /\
  ns_name_owned [[97; 0; 98]] 1 [[97; 0; 99]] 1 = Ok 1.
Proof. split; by vm_compute. Qed.

(** A name that ends without a root label makes [ns_name_map] read the
    byte behind it. *)
Theorem ns_name_map_overread l mapsize :
  label_ok l -> ns_name_map 129 (enc l) 0 (zlen (enc l)) mapsize = Fault.
Proof.
  intros Hl. pose proof Hl as [Hz _]. unfold enc. cbn [ns_name_map].
  change (zlen l :: l) with ([] ++ zlen l :: l). rewrite rd_mid by done. cbn [obind app].
  rewrite zlen_cons. bdecide. rewrite (label_flags l Hl). cbn [Z.eqb negb].
  unfold u64. rewrite uwrap_id by lia. bdecide.
  rewrite rd_fault by (right; zl). done.
Qed.

(** ** Witnesses *)

Definition two_labels : list (list Z) := [str "Ab"; str "c"].

Lemma two_labels_ok : Forall label_ok two_labels.
Proof. apply (bool_decide_unpack _). by vm_compute. Qed.

Lemma ns_name_counts_witness :
  (forall siz, 6 <= siz ->
     ns_name_length (wire two_labels ++ [7]) siz = Ok 6 /\
     ns_name_labels (wire two_labels ++ [7]) siz = Ok 3) /\
  ns_name_map 129 (wire two_labels ++ [7]) 0 6 2 = Ok [str "c"; str "Ab"].
Proof. exact (ns_name_counts two_labels [7] 2 two_labels_ok ltac:(by vm_compute) ltac:(done)). Defined.

Lemma ns_name_eq_owned_witness :
  ns_name_eq (wire two_labels) 6 (wire [str "aB"; str "C"]) 6 = Ok 1 /\
  ns_name_owned [str "c"; str "Ab"] 2 [str "C"; str "aB"] 2 = Ok 1.
Proof.
  pose proof (ns_name_eq_owned two_labels [str "aB"; str "C"] [] [] two_labels_ok
    ltac:(apply (bool_decide_unpack _); by vm_compute)) as H.
  exact H.
Defined.

Lemma ns_name_map_overread_witness : ns_name_map 129 [1; 97] 0 2 10 = Fault.
Proof. apply (ns_name_map_overread [97] 10). apply (bool_decide_unpack _). by vm_compute. Defined.
