(* ===== verification/ResComp.v ===== *)
(** * resolv/res_comp.c: the resolver's name routines

    [dn_expand], [dn_comp] and [dn_skipname] over [nameser/ns_name.c], and the
    predicates that say which names are acceptable for which records.  Text is
    the list of its bytes; a plain [char] is signed. *)
From Stdlib Require Import ZArith Lia List Bool String.
From stdpp Require Import base tactics list numbers.
From S2P Require Import Prelude CText NsName NsUnpack.
Local Open Scope Z_scope.
Local Open Scope c_scope.

(** The size of the compressed name and the bytes of [dst]. *)
Definition dn_expand (msg : list Z) (eom src dstsiz : Z) : outcome (Z * list Z) :=
  let! (n, dst) := ns_name_uncompress msg eom src dstsiz in
  c <- rd dst 0;;
  if (0 <? n) && (c =? 46) then
    dst <- wr dst 0 0;;
    Ok (n, dst)
  else Ok (n, dst).

Definition dn_comp (fuel : nat) (src : list Z) (msg : list Z) (dst dstsiz : Z)
    (dnptrs : option (list Z)) (lastdnptr : option Z) : outcome pack_ret :=
  ns_name_compress fuel src msg dst dstsiz dnptrs lastdnptr.

Definition dn_skipname (m : list Z) (ptr eom : Z) : outcome Z :=
  ptr' <- ns_name_skip m ptr eom;;
  assert_int (ptr' - ptr);;;
  Ok (ptr' - ptr).

(** ** Character sets *)

Definition PERIOD : Z := 46.
Definition hyphenchar (c : Z) : bool := (c =? 45) || (c =? 95).
Definition bslashchar (c : Z) : bool := c =? 92.
Definition periodchar (c : Z) : bool := c =? PERIOD.
Definition asterchar (c : Z) : bool := c =? 42.
Definition alphachar (c : Z) : bool :=
  ((65 <=? c) && (c <=? 90)) || ((97 <=? c) && (c <=? 122)).
Definition digitchar (c : Z) : bool := (48 <=? c) && (c <=? 57).
Definition borderchar (c : Z) : bool := alphachar c || digitchar c.
Definition middlechar (c : Z) : bool := borderchar c || hyphenchar c.
Definition domainchar (c : Z) : bool := (32 <? c) && (c <? 127).

(** The loop of [res_hnok]: [ch] is the character that is looked at, [pch] the
    one before it. *)
Fixpoint hnok_loop (pch : Z) (dn : list Z) : bool :=
  match dn with
  | [] => true
  | b :: dn' =>
      let ch := schar b in
      let nch := match dn' with [] => 0 | n :: _ => schar n end in
      if periodchar ch then hnok_loop ch dn'
      else if periodchar pch then
        if negb (borderchar ch) then false else hnok_loop ch dn'
      else if periodchar nch || (nch =? 0) then
        if negb (borderchar ch) then false else hnok_loop ch dn'
      else if negb (middlechar ch) then false else hnok_loop ch dn'
  end.

Definition res_hnok (dn : list Z) : bool := hnok_loop PERIOD dn.

Definition res_ownok (dn : list Z) : bool :=
  match dn with
  | b0 :: dn1 =>
      if asterchar (schar b0) then
        match dn1 with
        | [] => true
        | b1 :: dn2 => if periodchar (schar b1) then res_hnok dn2 else res_hnok dn
        end
      else res_hnok dn
  | [] => res_hnok dn
  end.

Fixpoint mailok_loop (escaped : bool) (dn : list Z) : bool :=
  match dn with
  | [] => false
  | b :: dn =>
      let ch := schar b in
      if negb (domainchar ch) then false
      else if negb escaped && periodchar ch then res_hnok dn
      else mailok_loop (if escaped then false else bslashchar ch) dn
  end.

Definition res_mailok (dn : list Z) : bool :=
  match dn with
  | [] => true
  | _ => mailok_loop false dn
  end.

Fixpoint res_dnok (dn : list Z) : bool :=
  match dn with
  | [] => true
  | b :: dn => if negb (domainchar (schar b)) then false else res_dnok dn
  end.

(** ** Host names

    A label of a host name has a letter or digit at both ends, and letters,
    digits, hyphens and underscores between them. *)
Definition host_label (l : list Z) : bool :=
  match l with
  | [] => true
  | c :: _ => borderchar c && forallb middlechar l && borderchar (List.last l 0)
  end.

Definition nodot (l : list Z) : Prop := Forall (fun c => 0 < c < 128 /\ c <> PERIOD) l.

(** A text cut at its dots. *)
Fixpoint dotted (ls : list (list Z)) : list Z :=
  match ls with
  | [] => []
  | [l] => l
  | l :: ls => l ++ PERIOD :: dotted ls
  end.

Lemma schar_small c : c < 128 -> schar c = c.
Proof. intros H. unfold schar. by rewrite (proj2 (Z.ltb_lt _ _) H). Qed.

Lemma border_middle c : borderchar c = true -> middlechar c = true.
Proof. unfold middlechar. by intros ->. Qed.

(** Inside a label, after its first character. *)
Lemma hnok_inside l : forall pch rest,
  nodot l -> pch <> PERIOD -> (rest = [] \/ exists r, rest = PERIOD :: r) ->
  hnok_loop pch (l ++ rest) =
  forallb middlechar l && (match l with [] => true | _ => borderchar (List.last l 0) end) &&
  hnok_loop (match l with [] => pch | _ => List.last l 0 end) rest.
Proof.
  induction l as [|c l IH]; intros pch rest Hl Hp Hr; [done|].
  inversion Hl as [|? ? [Hc Hcd] Hl']; subst. cbn [app hnok_loop].
  rewrite schar_small by lia. unfold periodchar at 1 2. bdecide.
  destruct l as [|d l].
  - cbn [app forallb List.last].
    assert (Hn : periodchar (match rest with [] => 0 | n :: _ => schar n end) ||
                 (match rest with [] => 0 | n :: _ => schar n end =? 0) = true).
    { by destruct Hr as [-> | [r ->]]. }
    rewrite Hn. destruct (borderchar c) eqn:E; cbn [negb andb].
    + by rewrite (border_middle c E).
    + by rewrite andb_false_r.
  - cbn [app]. inversion Hl' as [|? ? [Hd Hdd] Hl'']; subst. rewrite (schar_small d) by lia.
    unfold periodchar at 1. bdecide. cbn [orb].
    change (forallb middlechar (c :: d :: l)) with (middlechar c && forallb middlechar (d :: l)).
    change (List.last (c :: d :: l) 0) with (List.last (d :: l) 0).
    destruct (middlechar c); cbn [negb]; [|done].
    change (d :: l ++ rest) with ((d :: l) ++ rest). by rewrite (IH c rest Hl' Hcd Hr).
Qed.

Lemma hnok_label l rest :
  nodot l -> (rest = [] \/ exists r, rest = PERIOD :: r) ->
  hnok_loop PERIOD (l ++ rest) =
  host_label l && match rest with [] => true | _ :: r => hnok_loop PERIOD r end.
Proof.
  intros Hl Hr. destruct l as [|c l].
  { destruct Hr as [-> | [r ->]]; done. }
  inversion Hl as [|? ? [Hc Hcd] Hl']; subst. cbn [app hnok_loop].
  rewrite schar_small by lia. unfold periodchar at 1. bdecide.
  change (periodchar PERIOD) with true. cbv iota. unfold host_label.
  destruct (borderchar c) eqn:E; cbn [negb andb]; [|done].
  rewrite (hnok_inside l c rest Hl' Hcd Hr). cbn [forallb]. rewrite (border_middle c E). cbn [andb].
  assert (Hrest : forall p, hnok_loop p rest = match rest with [] => true | _ :: r => hnok_loop PERIOD r end).
  { intros p. by destruct Hr as [-> | [r ->]]. }
  rewrite Hrest. destruct l as [|d l]; cbn [forallb andb].
  - cbn [List.last]. by rewrite E.
  - done.
Qed.

Lemma res_hnok_dotted ls : Forall nodot ls -> res_hnok (dotted ls) = forallb host_label ls.
Proof.
  unfold res_hnok. induction 1 as [|l ls Hl Hls IH]; [done|].
  destruct ls as [|l2 ls].
  - cbn [dotted forallb]. rewrite <- (app_nil_r l) at 1. rewrite hnok_label by auto. done.
  - change (dotted (l :: l2 :: ls)) with (l ++ PERIOD :: dotted (l2 :: ls)).
    rewrite hnok_label by eauto. by rewrite IH.
Qed.

(** [res_hnok] accepts a text exactly when each of its dot-separated
    labels is empty or has a letter or digit at both ends and letters, digits,
    hyphens and underscores in between; [res_ownok] accepts the same with an
    asterisk as first label. *)
Theorem res_hnok_correct ls :
  Forall nodot ls ->
  res_hnok (dotted ls) = forallb host_label ls /\
  res_ownok (42 :: PERIOD :: dotted ls) = forallb host_label ls.
Proof. intros H. split; by apply res_hnok_dotted. Qed.

Lemma res_hnok_correct_witness :
  res_hnok (str "www.ex-am_ple.c0m") = true /\ res_ownok (str "*.www.ex-am_ple.c0m") = true.
Proof.
  apply (res_hnok_correct [str "www"; str "ex-am_ple"; str "c0m"]).
  repeat constructor; done.
Defined.
