(* ===== verification/NsParse.v ===== *)
(** * nameser/ns_parse.c and ns_netint.c: walking a DNS message

    A message handle [ns_msg] keeps the counts and the start of each section
    and the position of the next record.  Its operations return the new handle
    together with the result or the [errno], because a failed call may have
    moved the position.  A pointer into the message is its offset, NULL is
    [None].

    The theorems: [ns_initparse] never reads outside the message, and a handle
    it accepts describes a message whose four sections follow each other
    exactly; [ns_parserr2] then never leaves the message either, keeps the
    handle consistent whatever happens, and record number [n] of a section is
    the same whether it is asked for directly or reached step by step. *)
From Stdlib Require Import ZArith Lia List Bool String.
From stdpp Require Import base tactics list numbers.
From S2P Require Import Prelude CText NsName NsUnpack ResComp.
Local Open Scope Z_scope.
Local Open Scope c_scope.

(** ** ns_netint.c *)

Definition ns_get16 (m : list Z) (p : Z) : outcome Z :=
  b0 <- rd m p;;
  b1 <- rd m (p + 1);;
  Ok (Z.lor (Z.shiftl b0 8) b1).

Definition ns_get32 (m : list Z) (p : Z) : outcome Z :=
  b0 <- rd m p;;
  b1 <- rd m (p + 1);;
  b2 <- rd m (p + 2);;
  b3 <- rd m (p + 3);;
  Ok (Z.lor (Z.lor (Z.lor (Z.shiftl b0 24) (Z.shiftl b1 16)) (Z.shiftl b2 8)) b3).

Definition ns_put16 (src : Z) : list Z := [u8 (Z.shiftr src 8); u8 src].

Definition ns_put32 (src : Z) : list Z :=
  [u8 (Z.shiftr src 24); u8 (Z.shiftr src 16); u8 (Z.shiftr src 8); u8 src].

(** ** ns_parse.c *)

Definition NS_INT16SZ : Z := 2.
Definition NS_INT32SZ : Z := 4.
Definition NS_MAXDNAME : Z := 1025.
Definition NS_MAXNNAME : Z := 256.
Definition ns_s_qd : Z := 0.
Definition ns_s_max : Z := 4.

(** [_ns_flagdata]: mask and shift. *)
Definition ns_flagdata : list (Z * Z) :=
  [(32768, 15); (30720, 11); (1024, 10); (512, 9); (256, 8); (128, 7); (64, 6); (32, 5);
   (16, 4); (15, 0); (0, 0); (0, 0); (0, 0); (0, 0); (0, 0); (0, 0)].

Record ns_msg : Type := mk_msg {
  m_msg : list Z;
  m_eom : Z;
  m_id : Z;
  m_flags : Z;
  m_counts : list Z;
  m_sections : list (option Z);
  m_sect : Z;
  m_rrnum : Z;
  m_ptr : option Z;
}.

Record ns_rr2 : Type := mk_rr {
  rr_name : list Z;
  rr_type : Z;
  rr_class : Z;
  rr_ttl : Z;
  rr_rdlength : Z;
  rr_rdata : option Z;
}.

Definition ns_msg_getflag (handle : ns_msg) (flag : Z) : outcome Z :=
  let! (mask, shift) := rd ns_flagdata flag in
  Ok (Z.shiftr (Z.land handle.(m_flags) mask) shift).

(** One record of [ns_skiprr]. *)
Definition skiprr_one (m : list Z) (eom section ptr : Z) : outcome Z :=
  b <- (match dn_skipname m ptr eom with Err _ => Err EMSGSIZE | r => r end);;
  let ptr := ptr + (b + NS_INT16SZ + NS_INT16SZ) in
  if negb (section =? ns_s_qd) then
    if eom <? ptr + NS_INT32SZ + NS_INT16SZ then Err EMSGSIZE
    else
      let ptr := ptr + NS_INT32SZ in
      rdlength <- ns_get16 m ptr;;
      Ok (ptr + NS_INT16SZ + rdlength)
  else Ok ptr.

Fixpoint skiprr_loop (m : list Z) (eom section ptr : Z) (count : nat) : outcome Z :=
  match count with
  | O => Ok ptr
  | S count =>
      ptr <- skiprr_one m eom section ptr;;
      skiprr_loop m eom section ptr count
  end.

Definition ns_skiprr (m : list Z) (ptr eom section count : Z) : outcome Z :=
  let optr := ptr in
  ptr <- skiprr_loop m eom section ptr (Z.to_nat count);;
  if eom <? ptr then Err EMSGSIZE
  else
    assert_int (ptr - optr);;;
    Ok (ptr - optr).

Definition setsection (h : ns_msg) (sect : Z) : outcome ns_msg :=
  if sect =? ns_s_max then
    Ok (mk_msg h.(m_msg) h.(m_eom) h.(m_id) h.(m_flags) h.(m_counts) h.(m_sections) sect (-1)
               None)
  else
    p <- rd h.(m_sections) sect;;
    Ok (mk_msg h.(m_msg) h.(m_eom) h.(m_id) h.(m_flags) h.(m_counts) h.(m_sections) sect 0 p).

(** [NS_GET16(x, msg)] behind the check of [ns_initparse]. *)
Definition get16_checked (m : list Z) (eom p : Z) : outcome Z :=
  if eom <? p + NS_INT16SZ then Err EMSGSIZE else ns_get16 m p.

(** The second loop of [ns_initparse]: sections [i], [i + 1], ... *)
Fixpoint init_sections (m : list Z) (eom : Z) (i : Z) (counts : list Z) (p : Z)
    : outcome (list (option Z) * Z) :=
  match counts with
  | [] => Ok ([], p)
  | c :: counts =>
      if c =? 0 then
        let! (secs, p') := init_sections m eom (i + 1) counts p in
        Ok (None :: secs, p')
      else
        b <- ns_skiprr m p eom i c;;
        let! (secs, p') := init_sections m eom (i + 1) counts (p + b) in
        Ok (Some p :: secs, p')
  end.

Definition ns_initparse (m : list Z) (msglen : Z) : outcome ns_msg :=
  let eom := msglen in
  id <- get16_checked m eom 0;;
  flags <- get16_checked m eom 2;;
  c0 <- get16_checked m eom 4;;
  c1 <- get16_checked m eom 6;;
  c2 <- get16_checked m eom 8;;
  c3 <- get16_checked m eom 10;;
  let! (secs, p) := init_sections m eom 0 [c0; c1; c2; c3] 12 in
  if negb (p =? eom) then Err EMSGSIZE
  else setsection (mk_msg m eom id flags [c0; c1; c2; c3] secs 0 0 None) ns_s_max.

(** A call on a handle: its new state, and the result or the [errno]. *)
Definition parse_ret (A : Type) : Type := ns_msg * (A + errno).

Definition set_pos (h : ns_msg) (rrnum : Z) (p : option Z) : ns_msg :=
  mk_msg h.(m_msg) h.(m_eom) h.(m_id) h.(m_flags) h.(m_counts) h.(m_sections) h.(m_sect) rrnum p.

(** "Make section right" and "Make rrnum right". *)
Definition parse_seek (h : ns_msg) (section rrnum : Z) : outcome (parse_ret unit) :=
  if (section <? 0) || (ns_s_max <=? section) then Ok (h, inr ENODEV)
  else
    h <- (if negb (section =? h.(m_sect)) then setsection h section else Ok h);;
    let rrnum := if rrnum =? -1 then h.(m_rrnum) else rrnum in
    count <- rd h.(m_counts) section;;
    if (rrnum <? 0) || (count <=? rrnum) then Ok (h, inr ENODEV)
    else
      h <- (if rrnum <? h.(m_rrnum) then setsection h section else Ok h);;
      if h.(m_rrnum) <? rrnum then
        match h.(m_ptr) with
        | None => Fault
        | Some p =>
            match ns_skiprr h.(m_msg) p h.(m_eom) section (rrnum - h.(m_rrnum)) with
            | Ok b => Ok (set_pos h rrnum (Some (p + b)), inl tt)
            | Err e => Ok (h, inr e)
            | Fault => Fault
            | NoFuel => NoFuel
            end
        end
      else Ok (h, inl tt).

(** "Do the parse", with the name read by [expand]. *)
Definition parse_record (expand : list Z -> Z -> Z -> outcome (Z * list Z))
    (h : ns_msg) (section : Z) : outcome (parse_ret ns_rr2) :=
  match h.(m_ptr) with
  | None => Fault
  | Some p =>
      match expand h.(m_msg) h.(m_eom) p with
      | Err e => Ok (h, inr e)
      | Fault => Fault
      | NoFuel => NoFuel
      | Ok (b, name) =>
          let p := p + b in
          if h.(m_eom) <? p + NS_INT16SZ + NS_INT16SZ then
            Ok (set_pos h h.(m_rrnum) (Some p), inr EMSGSIZE)
          else
            type <- ns_get16 h.(m_msg) p;;
            class <- ns_get16 h.(m_msg) (p + 2);;
            let p := p + 4 in
            let finish rr p : outcome (parse_ret ns_rr2) :=
              let rrnum := h.(m_rrnum) + 1 in
              let h := set_pos h rrnum (Some p) in
              count <- rd h.(m_counts) section;;
              h <- (if count <? rrnum then setsection h (section + 1) else Ok h);;
              Ok (h, inl rr) in
            if section =? ns_s_qd then finish (mk_rr name type class 0 0 None) p
            else if h.(m_eom) <? p + NS_INT32SZ + NS_INT16SZ then
              Ok (set_pos h h.(m_rrnum) (Some p), inr EMSGSIZE)
            else
              ttl <- ns_get32 h.(m_msg) p;;
              rdlength <- ns_get16 h.(m_msg) (p + 4);;
              let p := p + 6 in
              if h.(m_eom) <? p + rdlength then
                Ok (set_pos h h.(m_rrnum) (Some p), inr EMSGSIZE)
              else finish (mk_rr name type class ttl rdlength (Some p)) (p + rdlength)
      end
  end.

Definition ns_parserr (h : ns_msg) (section rrnum : Z) : outcome (parse_ret ns_rr2) :=
  let! (h, r) := parse_seek h section rrnum in
  match r with
  | inr e => Ok (h, inr e)
  | inl _ => parse_record (fun m eom p => dn_expand m eom p NS_MAXDNAME) h section
  end.

Definition ns_parserr2 (h : ns_msg) (section rrnum : Z) : outcome (parse_ret ns_rr2) :=
  let! (h, r) := parse_seek h section rrnum in
  match r with
  | inr e => Ok (h, inr e)
  | inl _ => parse_record (fun m eom p => ns_name_unpack2 m eom p NS_MAXNNAME) h section
  end.

(** ** Records of a message *)

Lemma get16_total m p :
  bytes_ok m -> 0 <= p -> p + 2 <= zlen m -> total (fun v => 0 <= v < 65536) (ns_get16 m p).
Proof.
  intros Hm Hp Hz. unfold ns_get16.
  destruct (rd_ok m p ltac:(lia)) as [b0 H0]. destruct (rd_ok m (p + 1) ltac:(lia)) as [b1 H1].
  rewrite H0, H1. cbn. pose proof (rd_byte _ _ _ Hm H0) as B0. pose proof (rd_byte _ _ _ Hm H1) as B1.
  unfold byte_ok in *. rewrite lor_shiftl_add by lia. lia.
Qed.

Lemma get32_total m p :
  bytes_ok m -> 0 <= p -> p + 4 <= zlen m -> total (fun v => 0 <= v) (ns_get32 m p).
Proof.
  intros Hm Hp Hz. unfold ns_get32.
  destruct (rd_ok m p ltac:(lia)) as [b0 H0]. destruct (rd_ok m (p + 1) ltac:(lia)) as [b1 H1].
  destruct (rd_ok m (p + 2) ltac:(lia)) as [b2 H2]. destruct (rd_ok m (p + 3) ltac:(lia)) as [b3 H3].
  rewrite H0, H1, H2, H3. cbn.
  pose proof (rd_byte _ _ _ Hm H0) as B0. pose proof (rd_byte _ _ _ Hm H1) as B1.
  pose proof (rd_byte _ _ _ Hm H2) as B2. pose proof (rd_byte _ _ _ Hm H3) as B3.
  unfold byte_ok in *. repeat (apply Z.lor_nonneg; split); try apply Z.shiftl_nonneg; lia.
Qed.

Section Records.
Context (m : list Z) (eom : Z).
Context (Hm : bytes_ok m) (Heom : 0 <= eom <= zlen m) (Hint : eom <= INT_MAX).
Context (Hlast : eom < zlen m \/ rd m (eom - 1) <> Ok 65).

(** The record of section [s] at [p] ends at [q]. *)
Definition rec_at (s p q : Z) : Prop :=
  exists e, ends m p e /\
    if s =? ns_s_qd then q = e + 4
    else e + 10 <= eom /\ exists r, ns_get16 m (e + 8) = Ok r /\ q = e + 10 + r.

(** [n] records of section [s] from [p] to [q]. *)
Fixpoint recs (s : Z) (n : nat) (p q : Z) : Prop :=
  match n with
  | O => p = q
  | S n => exists p', rec_at s p p' /\ recs s n p' q
  end.

Lemma ends_det p e e' : ends m p e -> ends m p e' -> e = e'.
Proof.
  intros H. revert e'. induction H as [off Hr|off n l e Hr Hn Hf Hl H0 _ IH|off n Hr Hf];
    intros e' H'; inversion H' as [? Hr'|? n' l' ? Hr' Hn' Hf' Hl' H0' He'|? n' Hr' Hf']; subst;
    rewrite Hr in Hr'; simplify_eq; try done;
    try (unfold NS_CMPRSFLGS, NS_TYPE_ELT in *; intuition congruence).
  rewrite Hl in Hl'. simplify_eq. by apply IH.
Qed.

Lemma rec_at_det s p q q' : rec_at s p q -> rec_at s p q' -> q = q'.
Proof.
  intros (e & He & Hq) (e' & He' & Hq'). rewrite (ends_det _ _ _ He' He) in Hq'.
  destruct (s =? ns_s_qd); [lia|]. destruct Hq as (_ & r & Hr & ->), Hq' as (_ & r' & Hr' & ->).
  congruence.
Qed.

Lemma recs_det s n p q q' : recs s n p q -> recs s n p q' -> q = q'.
Proof.
  revert p. induction n as [|n IH]; intros p; [by intros -> ->|].
  intros (p1 & H1 & R1) (p2 & H2 & R2). rewrite (rec_at_det _ _ _ _ H2 H1) in R2. eauto.
Qed.

Lemma recs_app s n k p q r : recs s n p q -> recs s k q r -> recs s (n + k) p r.
Proof.
  revert p. induction n as [|n IH]; intros p; [by intros ->|].
  intros (p1 & H1 & R1) R2. exists p1. split; [done|by apply IH].
Qed.

Lemma recs_split s n k p r : recs s (n + k) p r -> exists q, recs s n p q /\ recs s k q r.
Proof.
  revert p. induction n as [|n IH]; intros p; [by exists p|].
  intros (p1 & H1 & R1). destruct (IH p1 R1) as (q & Hq & Hr). exists q. split; [by exists p1|done].
Qed.

Lemma rec_at_after s p q : 0 <= p -> p <= eom -> rec_at s p q -> p < q.
Proof.
  intros Hp Hpe (e & He & Hq). apply ends_after in He. destruct (s =? ns_s_qd); [lia|].
  destruct Hq as (He10 & r & Hr & ->).
  pose proof (get16_total m (e + 8) Hm ltac:(lia) ltac:(lia)) as Hg. rewrite Hr in Hg. cbn in Hg. lia.
Qed.

Lemma rec_at_le s p q : 0 <= p -> rec_at s p q -> p <= q.
Proof.
  intros Hp (e & He & Hq). apply ends_after in He. destruct (s =? ns_s_qd); [lia|].
  destruct Hq as (He10 & r & Hr & ->).
  pose proof (get16_total m (e + 8) Hm ltac:(lia) ltac:(lia)) as Hg. rewrite Hr in Hg. cbn in Hg. lia.
Qed.

Lemma recs_le s n p q : 0 <= p -> recs s n p q -> p <= q.
Proof.
  revert p. induction n as [|n IH]; intros p Hp; [intros ->; lia|].
  intros (p1 & H1 & R1). apply rec_at_le in H1; [|done]. apply IH in R1; lia.
Qed.

(** ** [ns_skiprr] *)

Lemma skip_safe p :
  0 <= p -> safe (fun q => p <= q <= eom /\ (q = eom \/ ends m p q)) (ns_name_skip m p eom).
Proof.
  intros Hp. unfold ns_name_skip. apply safe_bind. eapply safe_mono.
  - apply (loop_safe _ (fun cp => p <= cp /\ forall e, ends m cp e -> ends m p e)
             (fun cp => Z.to_nat (eom - cp)) (fun q => p <= q /\ (eom <= q \/ ends m p q))).
    + intros cp [Hcp Hends]. unfold skip_body. destruct (Z.leb_spec eom cp); [cbn; split; [lia|by left]|].
      destruct (rd_ok m cp ltac:(lia)) as [n Hn]. rewrite Hn. cbn [obind].
      pose proof (rd_byte _ _ _ Hm Hn) as Hb. unfold byte_ok in Hb.
      destruct (Z.eqb_spec n 0) as [->|Hn0]; [cbn; split; [lia|right; by apply Hends, end_root]|].
      destruct (flags_cases n Hb) as [[Hf Hr]|[[Hf Hr]|[[Hf Hr]|[Hf Hr]]]]; rewrite Hf; cbn [Z.eqb Pos.eqb NS_TYPE_ELT NS_CMPRSFLGS].
      * cbn. split; [|lia]. split; [lia|]. intros e He. apply Hends.
        eapply (end_label _ _ n n); eauto; [by apply labellen_small|lia].
      * replace (cp + 1 - 1) with cp by lia.
        destruct (proj1 (total_ok _ _) (labellen_inside m eom Hm Heom Hlast cp n ltac:(lia) Hn))
          as (l & Hl & _). rewrite Hl. cbn [obind]. destruct (Z.ltb_spec l 0); [done|]. cbn.
        split; [|lia]. split; [lia|]. intros e He. apply Hends. eapply end_label; eauto.
      * done.
      * cbn. split; [lia|]. right. replace (cp + 1 + 1) with (cp + 2) by lia.
        apply Hends. by eapply end_ptr.
    + split; [lia|done].
    + unfold skip_fuel. lia.
  - intros q [Hq Hq2]. destruct (Z.ltb_spec eom q); [done|]. cbn. split; [lia|].
    destruct Hq2; [left; lia|by right].
Qed.

Lemma skiprr_one_safe s p :
  0 <= p -> safe (fun q => p < q /\ (q <= eom -> rec_at s p q)) (skiprr_one m eom s p).
Proof.
  intros Hp. unfold skiprr_one, dn_skipname. pose proof (skip_safe p Hp) as Hs.
  destruct (ns_name_skip m p eom) as [e|err| |]; cbn in Hs |- *; try done.
  destruct Hs as [Hr Hends]. rewrite assert_int_ok by (unfold INT_MIN; lia). cbn [obind].
  unfold NS_INT16SZ, NS_INT32SZ. destruct (s =? ns_s_qd) eqn:E; cbn [negb].
  - cbn. split; [lia|]. intros Hle. destruct Hends as [|Hends]; [lia|]. exists e.
    split; [done|]. rewrite E. lia.
  - destruct (Z.ltb_spec eom (p + (e - p + 2 + 2) + 4 + 2)); [done|].
    replace (p + (e - p + 2 + 2) + 4) with (e + 8) by lia.
    destruct (proj1 (total_ok _ _) (get16_total m (e + 8) Hm ltac:(lia) ltac:(lia))) as (r & Hg & Hr2).
    rewrite Hg. cbn. split; [lia|]. intros Hle. destruct Hends as [|Hends]; [lia|].
    exists e. split; [done|]. rewrite E. split; [lia|]. exists r. split; [done|lia].
Qed.

Lemma skiprr_loop_safe s n : forall p,
  0 <= p -> safe (fun q => p <= q /\ (q <= eom -> recs s n p q)) (skiprr_loop m eom s p n).
Proof.
  induction n as [|n IH]; intros p Hp; [cbn; split; [lia|done]|]. cbn [skiprr_loop].
  apply safe_bind. eapply safe_mono; [by apply skiprr_one_safe|]. intros p' [Hlt Hrec].
  eapply safe_mono; [apply IH; lia|]. intros q [Hle Hrecs]. split; [lia|]. intros Hq.
  exists p'. split; [apply Hrec; lia|by apply Hrecs].
Qed.

Lemma ns_skiprr_safe s p n :
  0 <= p -> safe (fun b => 0 <= b /\ p + b <= eom /\ recs s (Z.to_nat n) p (p + b))
                 (ns_skiprr m p eom s n).
Proof.
  intros Hp. unfold ns_skiprr. apply safe_bind. eapply safe_mono; [by apply skiprr_loop_safe|].
  intros q [Hle Hrecs]. destruct (Z.ltb_spec eom q); [done|].
  rewrite assert_int_ok by (unfold INT_MIN; lia). cbn. replace (p + (q - p)) with q by lia.
  split_and!; [lia|lia|by apply Hrecs].
Qed.

(** [ns_skiprr] finds the end of records that are there. *)
Lemma skiprr_one_rec s p q : 0 <= p -> q <= eom -> rec_at s p q -> skiprr_one m eom s p = Ok q.
Proof.
  intros Hp Hq (e & He & Hrec). pose proof (ends_after _ _ _ He). unfold skiprr_one, dn_skipname.
  assert (e <= eom).
  { destruct (s =? ns_s_qd); [lia|]. lia. }
  rewrite (skip_ends m eom p e) by done. cbn [obind].
  rewrite assert_int_ok by (unfold INT_MIN; lia). cbn [obind]. unfold NS_INT16SZ, NS_INT32SZ.
  destruct (s =? ns_s_qd); cbn [negb]; [f_equal; lia|].
  destruct Hrec as (He10 & r & Hr & ->). destruct (Z.ltb_spec eom (p + (e - p + 2 + 2) + 4 + 2)); [lia|].
  replace (p + (e - p + 2 + 2) + 4) with (e + 8) by lia. rewrite Hr. cbn. f_equal. lia.
Qed.

Lemma skiprr_loop_recs s n : forall p q,
  0 <= p -> q <= eom -> recs s n p q -> skiprr_loop m eom s p n = Ok q.
Proof.
  induction n as [|n IH]; intros p q Hp Hq; [by intros ->|]. intros (p1 & H1 & R1).
  pose proof (rec_at_le _ _ _ Hp H1). pose proof (recs_le s n p1 q ltac:(lia) R1) as Hle. cbn [skiprr_loop].
  rewrite (skiprr_one_rec s p p1) by (done || lia). cbn [obind]. apply IH; (done || lia).
Qed.

Lemma ns_skiprr_recs s n p q :
  0 <= p -> 0 <= n -> q <= eom -> recs s (Z.to_nat n) p q -> ns_skiprr m p eom s n = Ok (q - p).
Proof.
  intros Hp Hn Hq Hr. unfold ns_skiprr. rewrite (skiprr_loop_recs s _ p q) by done. cbn [obind].
  pose proof (recs_le _ _ _ _ Hp Hr). destruct (Z.ltb_spec eom q); [lia|].
  by rewrite assert_int_ok by (unfold INT_MIN; lia).
Qed.

(** ** Consistent handles *)

(** The sections from number [i] on follow each other from [p] to the end of
    the message. *)
Fixpoint layout (i : Z) (counts : list Z) (secs : list (option Z)) (p : Z) : Prop :=
  match counts, secs with
  | [], [] => p = eom
  | c :: counts, sec :: secs =>
      0 <= c /\ sec = (if c =? 0 then None else Some p) /\
      exists q, recs i (Z.to_nat c) p q /\ layout (i + 1) counts secs q
  | _, _ => False
  end.

(** The position of a handle: none, or record [m_rrnum] of the section. *)
Definition position_ok (h : ns_msg) : Prop :=
  (h.(m_sect) = ns_s_max /\ h.(m_rrnum) = -1 /\ h.(m_ptr) = None) \/
  (0 <= h.(m_sect) < ns_s_max /\
   exists c sec, rd h.(m_counts) h.(m_sect) = Ok c /\ rd h.(m_sections) h.(m_sect) = Ok sec /\
     0 <= h.(m_rrnum) <= c /\
     match sec with
     | None => h.(m_ptr) = None
     | Some s => exists p, h.(m_ptr) = Some p /\ recs h.(m_sect) (Z.to_nat h.(m_rrnum)) s p
     end).

Definition msg_wf (h : ns_msg) : Prop :=
  h.(m_msg) = m /\ h.(m_eom) = eom /\ zlen h.(m_counts) = 4 /\ zlen h.(m_sections) = 4 /\
  layout 0 h.(m_counts) h.(m_sections) 12 /\ position_ok h.

Lemma layout_le i counts : forall secs p, 0 <= p -> layout i counts secs p -> p <= eom.
Proof.
  revert i. induction counts as [|c counts IH]; intros i [|sec secs] p Hp H; try done; [cbn in H; lia|].
  destruct H as (Hc & _ & q & Hr & Hl). pose proof (recs_le _ _ _ _ Hp Hr).
  apply IH in Hl; lia.
Qed.

Lemma layout_nth counts : forall i secs p k c,
  0 <= p -> layout i counts secs p -> counts !! k = Some c ->
  exists s q, secs !! k = Some (if c =? 0 then None else Some s) /\ 0 <= c /\ 0 <= s /\ q <= eom /\
              recs (i + Z.of_nat k) (Z.to_nat c) s q.
Proof.
  induction counts as [|c0 counts IH]; intros i [|sec secs] p k c Hp Hl Hk; try done.
  destruct Hl as (Hc & Hsec & q & Hr & Hl). pose proof (recs_le _ _ _ _ Hp Hr).
  destruct k as [|k].
  - cbn in Hk. simplify_eq. exists p, q. rewrite Z.add_0_r. split_and!; auto.
    by apply layout_le in Hl; [|lia].
  - destruct (IH (i + 1) secs q k c ltac:(lia) Hl Hk) as (s & q' & ? & ? & ? & ? & ?).
    exists s, q'. replace (i + Z.of_nat (S k)) with (i + 1 + Z.of_nat k) by lia. by split_and!.
Qed.

Lemma init_sections_safe counts : forall i p,
  0 <= p -> p <= eom -> Forall (fun c => 0 <= c) counts ->
  safe (fun r => p <= r.2 <= eom /\ zlen r.1 = zlen counts /\ (r.2 = eom -> layout i counts r.1 p))
       (init_sections m eom i counts p).
Proof.
  induction counts as [|c counts IH]; intros i p Hp Hpe Hc.
  { cbn. split_and!; [lia|lia|done|done]. }
  inversion Hc as [|? ? Hc0 Hc']; subst. cbn [init_sections]. destruct (Z.eqb_spec c 0) as [->|Hne].
  - apply safe_bind. eapply safe_mono; [by apply (IH (i + 1) p)|].
    intros [secs q] (Hq & Hlen & Hl). cbn in *. split_and!; [lia|lia|zl|].
    intros Hqe. split_and!; [lia|done|]. exists p. split; [done|by apply Hl].
  - apply safe_bind. eapply safe_mono; [by apply (ns_skiprr_safe i p c)|].
    intros b (Hb & Hpb & Hrecs). apply safe_bind.
    eapply safe_mono; [apply (IH (i + 1) (p + b)); auto; lia|].
    intros [secs q] (Hq & Hlen & Hl). cbn in *. split_and!; [lia|lia|zl|].
    intros Hqe. rewrite (proj2 (Z.eqb_neq c 0) Hne). split_and!; [lia|done|].
    exists (p + b). split; [done|by apply Hl].
Qed.

Lemma get16_checked_safe p :
  0 <= p -> safe (fun v => 0 <= v < 65536 /\ p + 2 <= eom) (get16_checked m eom p).
Proof.
  intros Hp. unfold get16_checked, NS_INT16SZ. destruct (Z.ltb_spec eom (p + 2)); [done|].
  apply total_safe. eapply total_mono; [apply get16_total; (done || lia)|]. cbn. lia.
Qed.

Lemma ns_initparse_safe : safe (fun h => msg_wf h /\ h.(m_sect) = ns_s_max) (ns_initparse m eom).
Proof.
  unfold ns_initparse.
  do 6 (apply safe_bind; eapply safe_mono; [apply get16_checked_safe; lia|]; intros ? [? ?]).
  apply safe_bind. eapply safe_mono.
  { apply (init_sections_safe _ 0 12); [lia|lia|]. repeat constructor; lia. }
  intros [secs p] (Hp & Hlen & Hl). cbn in Hp, Hlen, Hl.
  destruct (Z.eqb_spec p eom) as [->|]; cbn [negb]; [|done]. cbn. split; [|done].
  split_and!; try done; [by apply Hl|]. by left.
Qed.

(** The start of a section and its number of records. *)
Definition section_at (h : ns_msg) (s c p : Z) : Prop :=
  rd h.(m_counts) s = Ok c /\ rd h.(m_sections) s = Ok (if c =? 0 then None else Some p).

Lemma wf_section h s :
  msg_wf h -> 0 <= s < ns_s_max ->
  exists c p q, section_at h s c p /\ 0 <= c /\ 0 <= p /\ q <= eom /\ recs s (Z.to_nat c) p q.
Proof.
  intros (_ & _ & Hc & Hs & Hl & _) Hr. unfold ns_s_max in Hr.
  destruct (rd_ok h.(m_counts) s ltac:(lia)) as [c Hrc].
  pose proof Hrc as [_ Hlk]%rd_inv.
  destruct (layout_nth _ 0 _ 12 _ _ ltac:(lia) Hl Hlk) as (p & q & Hsec & ? & ? & ? & Hrecs).
  exists c, p, q. replace (0 + Z.of_nat (Z.to_nat s)) with s in Hrecs by lia.
  split_and!; auto. split; [done|]. apply rd_lookup; [lia|done].
Qed.

Definition same_msg (h h' : ns_msg) : Prop :=
  h'.(m_counts) = h.(m_counts) /\ h'.(m_sections) = h.(m_sections).

Lemma setsection_total h s :
  msg_wf h -> 0 <= s < ns_s_max ->
  total (fun h' => msg_wf h' /\ h'.(m_sect) = s /\ h'.(m_rrnum) = 0 /\ same_msg h h')
        (setsection h s).
Proof.
  intros Hw Hs. destruct (wf_section h s Hw Hs) as (c & p & q & [Hc Hsec] & Hc0 & _).
  destruct Hw as (? & ? & ? & ? & ? & _). unfold setsection.
  destruct (Z.eqb_spec s ns_s_max); [lia|]. rewrite Hsec. cbn. split_and!; try done.
  split_and!; try done. right. split; [done|]. exists c, (if c =? 0 then None else Some p).
  cbn. split_and!; try done; try lia. destruct (c =? 0); [done|]. by exists p.
Qed.

Lemma set_pos_wf h n p c s0 :
  msg_wf h -> section_at h h.(m_sect) c s0 -> 0 <= h.(m_sect) < ns_s_max ->
  0 <= n <= c -> c <> 0 -> recs h.(m_sect) (Z.to_nat n) s0 p ->
  msg_wf (set_pos h n (Some p)).
Proof.
  intros (? & ? & ? & ? & ? & _) [Hc Hsec] Hs Hn Hne Hr. unfold msg_wf. cbn.
  split_and!; try done. right. split; [done|]. cbn.
  rewrite (proj2 (Z.eqb_neq c 0) Hne) in Hsec.
  exists c, (Some s0). split_and!; try done; try lia. by exists p.
Qed.

(** The number that a call asks for: -1 is the next one. *)
Definition asked (h : ns_msg) (section rrnum : Z) : Z :=
  if rrnum =? -1 then if section =? h.(m_sect) then h.(m_rrnum) else 0 else rrnum.

Lemma parse_seek_total h section rrnum :
  msg_wf h ->
  total (fun r => msg_wf r.1 /\ same_msg h r.1 /\
    match r.2 with
    | inr e => e = ENODEV /\ forall c, rd h.(m_counts) section = Ok c -> 0 <= section ->
                 asked h section rrnum < 0 \/ c <= asked h section rrnum
    | inl _ => 0 <= section < ns_s_max /\ r.1.(m_sect) = section /\
        r.1.(m_rrnum) = asked h section rrnum /\
        exists c s0 p, section_at h section c s0 /\ 0 <= asked h section rrnum < c /\
          r.1.(m_ptr) = Some p /\ recs section (Z.to_nat (asked h section rrnum)) s0 p
    end)
    (parse_seek h section rrnum).
Proof.
  intros Hw. unfold parse_seek. destruct (_ || _) eqn:E.
  { cbn. split_and!; try done. intros c [Hc _]%rd_inv H0. destruct Hw as (_ & _ & H4 & _).
    apply orb_true_iff in E as [E|E]; zbool; unfold ns_s_max in *; lia. }
  zbool. assert (Hs : 0 <= section < ns_s_max) by lia.
  apply total_bind. eapply (total_mono (fun h' => msg_wf h' /\ h'.(m_sect) = section /\ same_msg h h' /\
     (if rrnum =? -1 then h'.(m_rrnum) else rrnum) = asked h section rrnum)).
  { unfold asked. destruct (Z.eqb_spec section (m_sect h)) as [->|Hne]; cbn [negb].
    - by split_and!.
    - eapply total_mono; [by apply setsection_total|]. intros h' (? & ? & Hr & ?).
      rewrite Hr. by split_and!. }
  intros h1 (Hw1 & Hs1 & [Hc1 Hse1] & ->). set (n := asked h section rrnum).
  destruct (wf_section h1 section Hw1 Hs) as (c & s0 & q & Hsec & Hc & Hs0 & Hq & Hrecs).
  pose proof Hsec as [Hcnt Hsc]. rewrite Hcnt. cbn [obind].
  assert (Hsm : same_msg h h1) by done.
  destruct ((n <? 0) || (c <=? n)) eqn:En.
  { cbn. split_and!; try done. intros c' Hc' _. rewrite <- Hc1, Hcnt in Hc'. simplify_eq.
    apply orb_true_iff in En as [En|En]; zbool; lia. }
  zbool. assert (Hsec0 : section_at h section c s0) by (unfold section_at; by rewrite <- Hc1, <- Hse1).
  apply total_bind. eapply (total_mono (fun h' => msg_wf h' /\ h'.(m_sect) = section /\
     h'.(m_rrnum) <= n /\ same_msg h1 h')).
  { destruct (Z.ltb_spec n (m_rrnum h1)); [|by split_and!].
    eapply total_mono; [by apply setsection_total|]. intros h' (? & ? & Hr & ?).
    rewrite Hr. split_and!; try done; lia. }
  intros h2 (Hw2 & Hs2 & Hle & [Hc2 Hse2]).
  assert (Hsm2 : same_msg h h2) by (split; congruence).
  assert (Hsec2 : section_at h2 section c s0) by (unfold section_at; by rewrite Hc2, Hse2).
  pose proof Hw2 as (Hm2 & He2 & _ & _ & _ & Hpos). rewrite Hm2, He2.
  destruct Hpos as [[Hx _]|(_ & c' & sec & Hc' & Hsec' & Hrr & Hptr)]; [rewrite Hs2 in Hx; lia|].
  rewrite Hs2, (proj1 Hsec2) in Hc'. injection Hc' as <-. rewrite Hs2, (proj2 Hsec2) in Hsec'.
  injection Hsec' as <-.
  destruct (Z.eqb_spec c 0); [lia|]. destruct Hptr as (p & Hp & Hrp).
  rewrite Hs2 in Hrp. replace (Z.to_nat c) with (Z.to_nat n + (Z.to_nat c - Z.to_nat n))%nat in Hrecs by lia.
  apply recs_split in Hrecs as (p' & Hp' & Hq').
  pose proof (recs_le _ _ _ _ Hs0 Hrp). pose proof (recs_le _ _ _ _ Hs0 Hp').
  pose proof (recs_le section _ p' q ltac:(lia) Hq').
  destruct (Z.ltb_spec (m_rrnum h2) n) as [Hlt|Hge].
  - rewrite Hp. pose proof Hp' as Hp2.
    replace (Z.to_nat n) with (Z.to_nat (m_rrnum h2) + Z.to_nat (n - m_rrnum h2))%nat in Hp2 by lia.
    apply recs_split in Hp2 as (p1 & Hp1 & Hp2). rewrite (recs_det _ _ _ _ _ Hp1 Hrp) in Hp2.
    rewrite (ns_skiprr_recs section _ p p') by (done || lia). cbn.
    replace (p + (p' - p)) with p' by lia. split.
    { apply (set_pos_wf h2 n p' c s0); rewrite ?Hs2; (done || lia). }
    split; [done|]. split_and!; try done; try lia. exists c, s0, p'. by split_and!.
  - assert (Hn : m_rrnum h2 = n) by lia. cbn. split; [done|]. split; [done|].
    split_and!; try done; try lia. exists c, s0, p. rewrite <- Hn. split_and!; try done; lia.
Qed.

(** The record at [p] of section [s], with its name in wire form. *)
Definition rr2_at (s p : Z) : outcome ns_rr2 :=
  let! (b, name) := ns_name_unpack2 m eom p NS_MAXNNAME in
  let e := p + b in
  type <- ns_get16 m e;;
  class <- ns_get16 m (e + 2);;
  if s =? ns_s_qd then Ok (mk_rr name type class 0 0 None)
  else
    ttl <- ns_get32 m (e + 4);;
    rdlength <- ns_get16 m (e + 8);;
    Ok (mk_rr name type class ttl rdlength (Some (e + 10))).

Lemma parse_record_total h s c s0 n p :
  msg_wf h -> h.(m_sect) = s -> 0 <= s < ns_s_max -> h.(m_rrnum) = n -> section_at h s c s0 ->
  0 <= n < c -> h.(m_ptr) = Some p -> recs s (Z.to_nat n) s0 p ->
  total (fun r => msg_wf r.1 /\ same_msg h r.1 /\
    match rr2_at s p with
    | Ok rr => r.2 = inl rr /\ r.1.(m_sect) = s /\ r.1.(m_rrnum) = n + 1
    | Err e => r.2 = inr e /\ r.1 = h
    | _ => False
    end)
    (parse_record (fun m eom p => ns_name_unpack2 m eom p NS_MAXNNAME) h s).
Proof.
  intros Hw Hs Hsr Hrr Hsec Hn Hp Hrp. unfold parse_record, rr2_at. rewrite Hp.
  pose proof Hw as (Hm1 & He1 & _). rewrite Hm1, He1.
  destruct (wf_section h s Hw Hsr) as (c' & s0' & q & Hsec' & Hc & Hs0 & Hq & Hrecs).
  assert (c' = c /\ s0' = s0) as [-> ->].
  { destruct Hsec as [H1 H2], Hsec' as [H3 H4]. rewrite H1 in H3. simplify_eq.
    rewrite H2 in H4. destruct (Z.eqb_spec c' 0); [lia|]. by simplify_eq. }
  replace (Z.to_nat c) with (Z.to_nat n + S (Z.to_nat c - Z.to_nat n - 1))%nat in Hrecs by lia.
  apply recs_split in Hrecs as (p1 & Hp1 & pe & Hpe & Hrest).
  rewrite (recs_det _ _ _ _ _ Hp1 Hrp) in Hpe.
  pose proof (recs_le _ _ _ _ Hs0 Hrp). pose proof (rec_at_le s p pe ltac:(lia) Hpe).
  pose proof (recs_le s _ pe q ltac:(lia) Hrest).
  assert (Hwf : msg_wf (set_pos h (n + 1) (Some pe))).
  { apply (set_pos_wf h (n + 1) pe c s0); rewrite ?Hs; try done; try lia.
    replace (Z.to_nat (n + 1)) with (Z.to_nat n + 1)%nat by lia.
    apply (recs_app s _ 1 s0 p pe); [done|]. by exists pe. }
  pose proof (ns_name_unpack2_total m eom Hm Heom Hint Hlast p NS_MAXNNAME ltac:(done)) as Hu.
  destruct (ns_name_unpack2 m eom p NS_MAXNNAME) as [[b name]|e| |]; cbn [safe] in Hu; try done.
  destruct Hu as (Hb & Hpb & _ & Hends & _). cbn [fst] in *. cbn [obind].
  destruct Hpe as (e & He & Hrec). rewrite (ends_det _ _ _ He Hends) in Hrec. clear e He.
  unfold NS_INT16SZ, NS_INT32SZ.
  assert (Hbnd : p + b + 4 <= eom) by (destruct (s =? ns_s_qd); lia).
  destruct (Z.ltb_spec eom (p + b + 2 + 2)); [lia|].
  destruct (proj1 (total_ok _ _) (get16_total m (p + b) Hm ltac:(lia) ltac:(lia))) as (ty & -> & _).
  destruct (proj1 (total_ok _ _) (get16_total m (p + b + 2) Hm ltac:(lia) ltac:(lia))) as (cl & -> & _).
  cbn [obind]. rewrite Hrr.
  assert (Hcnt : rd h.(m_counts) s = Ok c) by apply Hsec.
  destruct (s =? ns_s_qd).
  - subst pe. cbn [set_pos m_counts]. rewrite Hcnt. cbn [obind].
    destruct (Z.ltb_spec c (n + 1)); [lia|]. cbn. by split_and!.
  - destruct Hrec as (He10 & r & Hr & ->).
    destruct (Z.ltb_spec eom (p + b + 4 + 4 + 2)); [lia|].
    destruct (proj1 (total_ok _ _) (get32_total m (p + b + 4) Hm ltac:(lia) ltac:(lia))) as (ttl & -> & _).
    replace (p + b + 4 + 4) with (p + b + 8) by lia. rewrite Hr. cbn [obind].
    replace (p + b + 4 + 6) with (p + b + 10) by lia.
    destruct (Z.ltb_spec eom (p + b + 10 + r)); [lia|].
    cbn [set_pos m_counts]. rewrite Hcnt. cbn [obind].
    destruct (Z.ltb_spec c (n + 1)); [lia|]. cbn. by split_and!.
Qed.

Lemma ns_parserr2_total h section rrnum :
  msg_wf h ->
  total (fun r => msg_wf r.1 /\ same_msg h r.1 /\
    ((r.2 = inr ENODEV /\ forall c, rd h.(m_counts) section = Ok c -> 0 <= section ->
        asked h section rrnum < 0 \/ c <= asked h section rrnum) \/
     exists c s0 p, section_at h section c s0 /\ 0 <= asked h section rrnum < c /\
       recs section (Z.to_nat (asked h section rrnum)) s0 p /\
       match rr2_at section p with
       | Ok rr => r.2 = inl rr /\ r.1.(m_sect) = section /\
                  r.1.(m_rrnum) = asked h section rrnum + 1
       | Err e => r.2 = inr e
       | _ => False
       end))
    (ns_parserr2 h section rrnum).
Proof.
  intros Hw. unfold ns_parserr2. apply total_bind. eapply total_mono; [by apply parse_seek_total|].
  intros [h1 [[]|e]] (Hw1 & Hsm & H); cbn [fst snd] in *.
  2:{ destruct H as [-> H]. cbn. split_and!; try done. by left. }
  destruct H as (Hs & Hs1 & Hr1 & c & s0 & p & Hsec & Hn & Hp & Hrp).
  assert (Hsec1 : section_at h1 section c s0).
  { unfold section_at in *. destruct Hsm as [-> ->]. done. }
  eapply total_mono; [by apply (parse_record_total h1 section c s0 (asked h section rrnum) p)|].
  intros [h2 r] (Hw2 & [Hsm1 Hsm2] & H2). cbn [fst snd] in *. split; [done|]. split.
  { destruct Hsm. split; congruence. }
  right. exists c, s0, p. split; [done|]. split; [done|]. split; [done|].
  destruct (rr2_at section p); try done. by destruct H2.
Qed.
End Records.

(** ** Claims *)

(** On any message, [ns_initparse] stays inside it and terminates, when a
    byte can be read behind the message or its last byte is not 0x41.  A handle
    it accepts describes the message completely: each section starts where the
    one before it ends, the last one ends at the end of the message, a section
    pointer is NULL exactly for an empty section, and no section is
    selected. *)
Theorem ns_initparse_correct m eom :
  bytes_ok m -> 0 <= eom <= zlen m -> eom <= INT_MAX ->
  eom < zlen m \/ rd m (eom - 1) <> Ok 65 ->
  (exists e, ns_initparse m eom = Err e) \/
  (exists h, ns_initparse m eom = Ok h /\ msg_wf m eom h /\ h.(m_sect) = ns_s_max /\
     layout m eom 0 h.(m_counts) h.(m_sections) 12).
Proof.
  intros H1 H2 H3 H4. pose proof (ns_initparse_safe m eom H1 H2 H3 H4) as H.
  destruct (ns_initparse m eom) as [h|e| |]; cbn in H; try done.
  - right. exists h. destruct H as [Hw Hs]. pose proof Hw as (_ & _ & _ & _ & Hl & _).
    by split_and!.
  - left. by exists e.
Qed.

(** C33: on a consistent handle to a message that can be read one byte behind
    [eom] or that does not end in the byte 0x41 (a name at the very end that
    leads into such a byte makes the code read the label's length behind it),
    whatever its position, [ns_parserr2] for any section and record number
    never leaves the memory of the message and leaves a consistent handle with
    the same sections.  It answers ENODEV when the number asked for (-1
    meaning the next one) is not that of a record of the section, and only
    then; otherwise the answer, be it a record or an error, depends only on
    where that record starts, and a success moves on to the next one. *)
Theorem ns_parserr2_correct m eom h section rrnum :
  bytes_ok m -> 0 <= eom <= zlen m -> eom <= INT_MAX ->
  eom < zlen m \/ rd m (eom - 1) <> Ok 65 -> msg_wf m eom h ->
  exists h' r, ns_parserr2 h section rrnum = Ok (h', r) /\ msg_wf m eom h' /\ same_msg h h' /\
    ((r = inr ENODEV /\ forall c, rd h.(m_counts) section = Ok c -> 0 <= section ->
        asked h section rrnum < 0 \/ c <= asked h section rrnum) \/
     exists c s0 p, section_at h section c s0 /\ 0 <= asked h section rrnum < c /\
       recs m eom section (Z.to_nat (asked h section rrnum)) s0 p /\
       match rr2_at m eom section p with
       | Ok rr => r = inl rr /\ h'.(m_sect) = section /\ h'.(m_rrnum) = asked h section rrnum + 1
       | Err e => r = inr e
       | _ => False
       end).
Proof.
  intros H1 H2 H3 H4 Hw.
  destruct (proj1 (total_ok _ _) (ns_parserr2_total m eom H1 H2 H3 H4 h section rrnum Hw))
    as ([h' r] & -> & H). by exists h', r.
Qed.

(** ** Witnesses: one question and one address record. *)

Definition sample_dns : list Z :=
  [18; 52; 129; 128; 0; 1; 0; 1; 0; 0; 0; 0] ++
  wire [str "a"; str "org"] ++ [0; 1; 0; 1] ++
  [192; 12; 0; 1; 0; 1; 0; 0; 14; 16; 0; 4; 10; 0; 0; 7].

Lemma sample_dns_ok :
  bytes_ok sample_dns /\ 0 <= 39 <= zlen sample_dns /\ 39 <= INT_MAX /\
  (39 < zlen sample_dns \/ rd sample_dns (39 - 1) <> Ok 65).
Proof.
  split_and!; try by vm_compute.
  - apply (bool_decide_unpack _). by vm_compute.
  - right. by vm_compute.
Qed.

Definition sample_handle : ns_msg :=
  mk_msg sample_dns 39 4660 33152 [1; 1; 0; 0] [Some 12; Some 23; None; None] 4 (-1) None.

Lemma ns_initparse_correct_witness :
  ns_initparse sample_dns 39 = Ok sample_handle /\
  ((exists e, ns_initparse sample_dns 39 = Err e) \/
   (exists h, ns_initparse sample_dns 39 = Ok h /\ msg_wf sample_dns 39 h /\ h.(m_sect) = ns_s_max /\
     layout sample_dns 39 0 h.(m_counts) h.(m_sections) 12)).
Proof.
  split; [by vm_compute|].
  destruct sample_dns_ok as (H1 & H2 & H3 & H4). by apply (ns_initparse_correct sample_dns 39).
Defined.

Lemma sample_handle_wf : msg_wf sample_dns 39 sample_handle.
Proof.
  destruct sample_dns_ok as (H1 & H2 & H3 & H4).
  pose proof (ns_initparse_safe sample_dns 39 H1 H2 H3 H4) as H.
  replace (ns_initparse sample_dns 39) with (Ok sample_handle) in H by (by vm_compute).
  apply H.
Qed.

Lemma ns_parserr2_correct_witness :
  exists h' r, ns_parserr2 sample_handle 1 0 = Ok (h', r) /\ msg_wf sample_dns 39 h' /\
    same_msg sample_handle h' /\
    ((r = inr ENODEV /\ forall c, rd sample_handle.(m_counts) 1 = Ok c -> 0 <= 1 ->
        asked sample_handle 1 0 < 0 \/ c <= asked sample_handle 1 0) \/
     exists c s0 p, section_at sample_handle 1 c s0 /\ 0 <= asked sample_handle 1 0 < c /\
       recs sample_dns 39 1 (Z.to_nat (asked sample_handle 1 0)) s0 p /\
       match rr2_at sample_dns 39 1 p with
       | Ok rr => r = inl rr /\ h'.(m_sect) = 1 /\ h'.(m_rrnum) = asked sample_handle 1 0 + 1
       | Err e => r = inr e
       | _ => False
       end).
Proof.
  destruct sample_dns_ok as (H1 & H2 & H3 & H4).
  exact (ns_parserr2_correct sample_dns 39 sample_handle 1 0 H1 H2 H3 H4 sample_handle_wf).
Defined.
