(* ===== verification/NsDomain.v ===== *)
(** * nameser/ns_samedomain.c: domains and their ancestors

    [ns_samedomain], [ns_subdomain], [ns_makecanon] and [ns_samename].  Text is
    the list of its bytes; an argument of the code is that list with a
    terminator.  The counts of [strlen] are below [INT_MAX] in the theorems,
    where the code converts one to [int].

    The specification splits a name at its unescaped dots, from left to right;
    the code finds whether a dot is escaped by counting the backslashes before
    it, from right to left. *)
From Stdlib Require Import ZArith Lia List Bool String.
From stdpp Require Import base tactics list numbers.
From S2P Require Import Prelude CText NsName NsLabels NsParse.
Local Open Scope Z_scope.
Local Open Scope c_scope.

Definition DOT : Z := 46.
Definition BSLASH : Z := 92.

(** [s] as an object. *)
Definition cstr (s : list Z) : list Z := s ++ [0].

(** The loop that looks at the backslashes before index [i]. *)
Fixpoint escaped_loop (m : list Z) (i : nat) (escaped : bool) : outcome bool :=
  match i with
  | O => Ok escaped
  | S i =>
      c <- rd m (Z.of_nat i);;
      if c =? BSLASH then escaped_loop m i (negb escaped) else Ok escaped
  end.

(** Ignore a trailing label separator: the length without it. *)
Definition trailing_sep (m : list Z) (la : Z) : outcome Z :=
  if la =? 0 then Ok la
  else
    c <- rd m (la - 1);;
    if c =? DOT then
      escaped <- escaped_loop m (Z.to_nat (la - 1)) false;;
      Ok (if escaped : bool then la else la - 1)
    else Ok la.

(** [ns_samedomain] once [b] is known not to be the longer. *)
Definition samedomain_rest (ma mb : list Z) (la lb : Z) : outcome bool :=
  if lb =? la then
    r <- strncasecmp ma 0 mb 0 (Z.to_nat lb);;
    Ok (r =? 0)
  else
    let diff := i32 (la - lb) in
    if diff <? 2 then Ok false
    else
      c <- rd ma (diff - 1);;
      if negb (c =? DOT) then Ok false
      else
        escaped <- escaped_loop ma (Z.to_nat (diff - 1)) false;;
        if escaped : bool then Ok false
        else
          r <- strncasecmp ma diff mb 0 (Z.to_nat lb);;
          Ok (r =? 0).

Definition ns_samedomain (a b : list Z) : outcome bool :=
  let ma := cstr a in
  let mb := cstr b in
  la <- trailing_sep ma (zlen a);;
  lb <- trailing_sep mb (zlen b);;
  if lb =? 0 then Ok true
  else if la <? lb then Ok false
  else samedomain_rest ma mb la lb.

(** The loop of [ns_makecanon] on the copy [m], and where it stops. *)
Fixpoint canon_loop (m : list Z) (n : nat) : outcome (list Z * Z) :=
  match n with
  | O => Ok (m, 0)
  | S k =>
      c <- rd m (Z.of_nat k);;
      if c =? DOT then
        stop <- (if (2 <=? n)%nat then
                   c2 <- rd m (Z.of_nat n - 2);;
                   if c2 =? BSLASH then
                     if (n <? 3)%nat then Ok true
                     else c3 <- rd m (Z.of_nat n - 3);; Ok (negb (c3 =? BSLASH))
                   else Ok false
                 else Ok false);;
        if stop : bool then Ok (m, Z.of_nat n)
        else m <- wr m (Z.of_nat k) 0;; canon_loop m k
      else Ok (m, Z.of_nat n)
  end.

(** The contents of [dst] after the call. *)
Definition ns_makecanon (src dst : list Z) (dstsize : Z) : outcome (list Z) :=
  let n := zlen src in
  if dstsize <? n + 2 then Err EMSGSIZE
  else
    dst <- wrn dst 0 (cstr src);;
    let! (dst, n) := canon_loop dst (length src) in
    dst <- wr dst n DOT;;
    wr dst (n + 1) 0.

(** The string at the start of an object. *)
Definition string_at (m : list Z) : outcome (list Z) := n <- strlen m;; rdn m 0 n.

(** 1, 0 or -1; [ta] and [tb] are what the arrays on the stack hold. *)
Definition ns_samename (ta tb a b : list Z) : outcome Z :=
  match (ta <- ns_makecanon a ta NS_MAXDNAME;; tb <- ns_makecanon b tb NS_MAXDNAME;; Ok (ta, tb)) with
  | Ok (ta, tb) =>
      sa <- string_at ta;;
      sb <- string_at tb;;
      Ok (if strcasecmp sa sb =? 0 then 1 else 0)
  | Err _ => Ok (-1)
  | Fault => Fault
  | NoFuel => NoFuel
  end.

Definition ns_subdomain (ta tb a b : list Z) : outcome bool :=
  r <- ns_samename ta tb a b;;
  if r =? 1 then Ok false else ns_samedomain a b.

(** ** Labels *)

(** Whether the text ends after a backslash that escapes what comes next. *)
Fixpoint scan (esc : bool) (s : list Z) : bool :=
  match s with
  | [] => esc
  | c :: s => scan (negb esc && (c =? BSLASH)) s
  end.

(** The labels of a name, as they are written. *)
Fixpoint labels_from (cur : list Z) (esc : bool) (s : list Z) : list (list Z) :=
  match s with
  | [] => [cur]
  | c :: s =>
      if negb esc && (c =? DOT) then cur :: labels_from [] false s
      else labels_from (cur ++ [c]) (negb esc && (c =? BSLASH)) s
  end.

Definition labels (s : list Z) : list (list Z) := labels_from [] false s.

(** The name without a trailing separator. *)
Definition strip (s : list Z) : list Z :=
  match rev s with
  | c :: r => if (c =? DOT) && negb (scan false (rev r)) then rev r else s
  | [] => s
  end.

Definition lower (s : list Z) : list Z := map tolower s.

(** [a] is at or below [b]: the labels of [b], whatever their case, end those
    of [a].  A single empty label in front does not count. *)
Definition below (a b : list Z) : Prop :=
  strip b = [] \/
  exists p, labels (lower (strip a)) = p ++ labels (lower (strip b)) /\ p <> [[]].

(** *** Escapes *)

Lemma scan_snoc esc s c : scan esc (s ++ [c]) = negb (scan esc s) && (c =? BSLASH).
Proof. revert esc. induction s as [|x s IH]; intros esc; cbn; [done|apply IH]. Qed.

Lemma scan_app esc s t : scan esc (s ++ t) = scan (scan esc s) t.
Proof. revert esc. induction s as [|x s IH]; intros esc; cbn; [done|apply IH]. Qed.

(** Counting backwards agrees with reading forwards. *)
Lemma escaped_loop_scan s : forall rest e,
  escaped_loop (s ++ rest) (length s) e = Ok (xorb e (scan false s)).
Proof.
  induction s as [|c s IH] using rev_ind; intros rest e; [cbn; by rewrite xorb_false_r|].
  rewrite length_app, Nat.add_1_r, <- app_assoc. cbn [escaped_loop app].
  rewrite rd_mid by done. cbn [obind]. rewrite scan_snoc.
  destruct (c =? BSLASH); [|by rewrite andb_false_r, xorb_false_r].
  rewrite IH, andb_true_r. f_equal. by destruct e, (scan false s).
Qed.

Lemma tolower_special c d : (d = DOT \/ d = BSLASH) -> (tolower c =? d) = (c =? d).
Proof. unfold tolower, isupper. intros [-> | ->]; unfold DOT, BSLASH; bcase; lia. Qed.

Lemma scan_lower esc s : scan esc (lower s) = scan esc s.
Proof. revert esc. induction s as [|c s IH]; intros esc; cbn; [done|]. by rewrite IH, tolower_special by auto. Qed.

(** *** Splitting *)

Lemma labels_from_dot s : forall cur esc t, scan esc s = false ->
  labels_from cur esc (s ++ DOT :: t) = labels_from cur esc s ++ labels t.
Proof.
  induction s as [|c s IH]; intros cur esc t E; cbn in E; cbn [app labels_from]; [by subst esc|].
  destruct (negb esc && (c =? DOT)) eqn:D; [|by apply IH].
  apply andb_true_iff in D as [N ->%Z.eqb_eq]. rewrite N in E. cbn. f_equal. by apply IH.
Qed.

Lemma labels_from_cut s : forall cur esc p q, p <> [] -> q <> [] -> labels_from cur esc s = p ++ q ->
  exists s1 t, s = s1 ++ DOT :: t /\ scan esc s1 = false /\ labels_from cur esc s1 = p /\ labels t = q.
Proof.
  induction s as [|c s IH]; intros cur esc p q Hp Hq H; cbn in H.
  - destruct p as [|x [|]]; [done|destruct q|]; done.
  - destruct (negb esc && (c =? DOT)) eqn:D.
    + apply andb_true_iff in D as [N%negb_true_iff ->%Z.eqb_eq]. subst esc.
      destruct p as [|x p]; [done|]. injection H as <- H. destruct p as [|y p].
      * exists [], s. split_and!; done.
      * destruct (IH [] false (y :: p) q ltac:(done) Hq H) as (s1 & t & -> & E & L & T).
        exists (DOT :: s1), t. split_and!; try done. cbn. by rewrite L.
    + destruct (IH _ _ p q Hp Hq H) as (s1 & t & -> & E & L & T). exists (c :: s1), t.
      split_and!; try done. cbn. by rewrite D.
Qed.

Lemma labels_from_nonnil cur esc s : labels_from cur esc s <> [].
Proof. revert cur esc. induction s as [|c s IH]; intros cur esc; cbn; [done|]. by destruct (negb esc && (c =? DOT)). Qed.

(** A name is what its labels are joined to. *)
Fixpoint join (ls : list (list Z)) : list Z :=
  match ls with
  | [] => []
  | [l] => l
  | l :: ls => l ++ DOT :: join ls
  end.

Lemma join_labels_from s : forall cur esc, join (labels_from cur esc s) = cur ++ s.
Proof.
  induction s as [|c s IH]; intros cur esc; cbn [labels_from]; [by rewrite app_nil_r|].
  destruct (negb esc && (c =? DOT)) eqn:D.
  - apply andb_true_iff in D as [_ ->%Z.eqb_eq].
    assert (forall l ls, ls <> [] -> join (l :: ls) = l ++ DOT :: join ls) as J by (by intros l []).
    rewrite J by apply labels_from_nonnil. by rewrite IH.
  - by rewrite IH, <- app_assoc.
Qed.

Lemma labels_inj s t : labels s = labels t -> s = t.
Proof. intros H%(f_equal join). unfold labels in H. by rewrite !join_labels_from in H. Qed.

(** The labels of [b] end those of [a] when [a] is [b], or ends with it after
    an unescaped dot. *)
Lemma labels_suffix a b : (exists p, labels a = p ++ labels b /\ p <> [[]]) <->
  a = b \/ exists s, s <> [] /\ a = s ++ DOT :: b /\ scan false s = false.
Proof.
  split.
  - intros (p & H & N). destruct p as [|l p]; [left; by apply labels_inj|right].
    destruct (labels_from_cut a [] false (l :: p) (labels b) ltac:(done) (labels_from_nonnil _ _ _) H)
      as (s1 & t & -> & E & L & T). apply labels_inj in T as ->. exists s1. split_and!; try done.
    intros ->. by destruct N.
  - intros [->|(s & N & -> & E)]; [by exists []|]. exists (labels s). split; [by apply labels_from_dot|].
    intros H. apply (f_equal join) in H. unfold labels in H. by rewrite join_labels_from in H.
Qed.

(** *** [ns_samedomain] *)

Lemma strip_snoc s c : strip (s ++ [c]) = if (c =? DOT) && negb (scan false s) then s else s ++ [c].
Proof. unfold strip. by rewrite rev_unit, rev_involutive. Qed.

(** A prefix of the name, whose length the code computes. *)
Lemma strip_prefix s : strip s `prefix_of` s.
Proof.
  destruct s as [|c s _] using rev_ind; [done|]. rewrite strip_snoc.
  destruct ((c =? DOT) && negb (scan false s)); [by exists [c]|done].
Qed.

Lemma trailing_sep_strip s : exists t,
  trailing_sep (cstr s) (zlen s) = Ok (zlen (strip s)) /\ cstr s = strip s ++ t.
Proof.
  destruct (strip_prefix s) as [t Et]. exists (t ++ [0]). split.
  2:{ unfold cstr. rewrite Et at 1. by rewrite <- app_assoc. }
  clear t Et. unfold trailing_sep, cstr. destruct s as [|c s _] using rev_ind; [done|].
  rewrite zlen_snoc, strip_snoc. bdecide. replace (zlen s + 1 - 1) with (zlen s) by lia.
  rewrite <- app_assoc. cbn [app]. rewrite rd_mid by done. cbn [obind].
  destruct (c =? DOT) eqn:D; cbn [andb]; [|by rewrite zlen_snoc].
  unfold zlen at 1. rewrite Nat2Z.id, escaped_loop_scan. cbn [obind xorb].
  destruct (scan false s); cbn [negb]; f_equal; zl.
Qed.

Lemma upto_zero_cstr s : cstr_ok s -> upto_zero s = s.
Proof. induction 1 as [|c s H _ IH]; [done|]. cbn. rewrite (proj2 (Z.eqb_neq c 0)) by lia. by rewrite IH. Qed.

(** A comparison of texts of the same length inside two strings. *)
Lemma strncasecmp_mid p1 a q1 b q2 i n : cstr_ok a -> cstr_ok b -> length a = length b -> i = zlen p1 -> n = length a ->
  exists r, strncasecmp (p1 ++ a ++ q1) i (b ++ q2) 0 n = Ok r /\ ((r =? 0) = true <-> lower a = lower b).
Proof.
  intros A B L Hi ->. destruct (strncasecmp_spec a b p1 q1 [] q2 i 0) as (r & E & H); auto using cstr_bytes.
  exists r. split; [exact E|]. rewrite H, !upto_zero_cstr by done. apply bool_decide_eq_true.
Qed.

Lemma below_longer a b : strip b <> [] -> below a b <->
  lower (strip a) = lower (strip b) \/
  exists s, s <> [] /\ lower (strip a) = s ++ DOT :: lower (strip b) /\ scan false s = false.
Proof. intros N. unfold below. rewrite labels_suffix. tauto. Qed.

Lemma length_lower s : length (lower s) = length s.
Proof. apply length_map. Qed.

Lemma samedomain_same x y p q : cstr_ok x -> cstr_ok y -> zlen y = zlen x ->
  exists r, samedomain_rest (x ++ p) (y ++ q) (zlen x) (zlen y) = Ok r /\ (r = true <-> lower x = lower y).
Proof.
  intros X Y L. unfold samedomain_rest. bdecide.
  destruct (strncasecmp_mid [] x p y q 0 (Z.to_nat (zlen y)) X Y) as (r & E & H); [unfold zlen in L; lia|done|unfold zlen in *; lia|].
  cbn [app] in E. rewrite E. cbn. by exists (r =? 0).
Qed.

Lemma samedomain_longer s c y0 y p q : cstr_ok (s ++ c :: y0) -> cstr_ok y -> length y0 = length y ->
  zlen (s ++ c :: y0) <= INT_MAX ->
  exists r, samedomain_rest ((s ++ c :: y0) ++ p) (y ++ q) (zlen (s ++ c :: y0)) (zlen y) = Ok r /\
    (r = true <-> s <> [] /\ c = DOT /\ scan false s = false /\ lower y0 = lower y).
Proof.
  intros X Y L M. apply Forall_app in X as [_ X]. apply Forall_inv_tail in X.
  assert (zlen y0 = zlen y) by (unfold zlen; lia). unfold samedomain_rest.
  assert (zlen (s ++ c :: y0) - zlen y = zlen s + 1) as -> by zl. unfold i32. rewrite swrap_id by (unfold INT_MAX in M; zl).
  bdecide. destruct (decide (s = [])) as [->|Ns].
  { bdecide. exists false. split; [done|]. naive_solver. }
  assert (0 < zlen s) by (destruct s; [done|zl]). bdecide.
  replace (zlen s + 1 - 1) with (zlen s) by lia. rewrite <- app_assoc. cbn [app]. rewrite rd_mid by done. cbn [obind].
  destruct (Z.eqb_spec c DOT) as [->|Nc]; cbn [negb]; [|exists false; naive_solver].
  unfold zlen at 1. rewrite Nat2Z.id, escaped_loop_scan. cbn [obind xorb].
  destruct (scan false s); [exists false; naive_solver|].
  destruct (strncasecmp_mid (s ++ [DOT]) y0 p y q (zlen s + 1) (Z.to_nat (zlen y)) X Y) as (r & E & Hr);
    [done|zl|unfold zlen; lia|].
  rewrite <- app_assoc in E. cbn [app] in E. rewrite E. cbn. exists (r =? 0). split; [done|]. rewrite Hr. naive_solver.
Qed.

Lemma lower_cut s c y0 y : length y0 = length y ->
  (s <> [] /\ c = DOT /\ scan false s = false /\ lower y0 = lower y) <->
  (exists t, t <> [] /\ lower (s ++ c :: y0) = t ++ DOT :: lower y /\ scan false t = false).
Proof.
  intros L. unfold lower. rewrite map_app. cbn [map]. split.
  - intros (N & -> & E & ->). exists (map tolower s). split_and!; [by destruct s|done|].
    change (scan false (lower s) = false). by rewrite scan_lower.
  - intros (t & N & H & E). apply app_inj_2 in H as [<- H]; [|cbn; by rewrite !length_map, L].
    injection H as Hc Hy. split_and!; try done; [by intros ->|..].
    + apply Z.eqb_eq. rewrite <- (tolower_special c DOT) by auto. by rewrite Hc.
    + rewrite <- scan_lower. exact E.
Qed.

Lemma samedomain_total a b : cstr_ok a -> cstr_ok b -> zlen a <= INT_MAX ->
  exists r, ns_samedomain a b = Ok r /\ (r = true <-> below a b).
Proof.
  intros A B M. unfold ns_samedomain.
  destruct (trailing_sep_strip a) as (ta & -> & ->). destruct (trailing_sep_strip b) as (tb & -> & ->). cbn [obind].
  pose proof (strip_prefix a) as Pa. pose proof (strip_prefix b) as Pb.
  pose proof (below_longer a b) as BL. unfold below in BL at 1 |- * at 1.
  assert (X : cstr_ok (strip a)) by (destruct Pa as [k E]; rewrite E in A; apply Forall_app in A as [A _]; exact A).
  assert (Y : cstr_ok (strip b)) by (destruct Pb as [k E]; rewrite E in B; apply Forall_app in B as [B _]; exact B).
  assert (L : zlen (strip a) <= zlen a) by (apply prefix_length in Pa; unfold zlen; lia).
  revert BL X Y L. generalize (strip a) (strip b). intros x y BL X Y L.
  destruct (Z.eqb_spec (zlen y) 0) as [Z0|Z0].
  { exists true. split; [done|]. split; [|done]. intros _. left. destruct y; [done|zl]. }
  assert (y <> []) as Ny by (by intros ->). setoid_rewrite (BL Ny). destruct (Z.ltb_spec (zlen x) (zlen y)) as [Lt|Ge].
  { exists false. split; [done|]. split; [done|].
    intros [E|(s & _ & E & _)]; apply (f_equal length) in E; rewrite ?length_app in E; cbn in E; rewrite !length_lower in E; unfold zlen in Lt; lia. }
  destruct (Z.eq_dec (zlen y) (zlen x)) as [Eq|Ne].
  - destruct (samedomain_same x y ta tb X Y Eq) as (r & E & H). exists r. split; [exact E|]. rewrite H.
    split; [by left|]. intros [?|(s & _ & E' & _)]; [done|].
    apply (f_equal length) in E'; rewrite length_app in E'; cbn in E'; rewrite !length_lower in E'; unfold zlen in Eq; lia.
  - assert (exists s c y0, x = s ++ c :: y0 /\ length y0 = length y) as (s & c & y0 & -> & Ly).
    { exists (take (length x - length y - 1) x).
      destruct (drop (length x - length y - 1) x) as [|c y0] eqn:D;
        apply (f_equal length) in D as D'; rewrite length_drop in D'; cbn in D'; unfold zlen in *; [lia|].
      exists c, y0. split; [by rewrite <- D, take_drop|lia]. }
    destruct (samedomain_longer s c y0 y ta tb X Y Ly ltac:(lia)) as (r & E & H). exists r. split; [exact E|].
    rewrite H, lower_cut by done. split; [by right|]. intros [E'|?]; [|done].
    apply (f_equal length) in E'. rewrite !length_lower, length_app in E'. cbn in E'. lia.
Qed.

(** C35: [ns_samedomain] returns for every two strings of fewer than 2^31
    characters, without leaving them, and says whether the labels of the second
    name, its trailing separator aside and whatever the case, end those of the
    first; the root is above every name. *)
Theorem ns_samedomain_correct a b : cstr_ok a -> cstr_ok b -> zlen a <= INT_MAX ->
  exists r, ns_samedomain a b = Ok r /\ (r = true <-> below a b).
Proof. apply samedomain_total. Qed.

Lemma ns_samedomain_correct_witness : exists r,
  ns_samedomain (str "Host.fooBar.top.") (str "foobar.TOP") = Ok r /\
  (r = true <-> below (str "Host.fooBar.top.") (str "foobar.TOP")) /\ r = true.
Proof.
  destruct (ns_samedomain_correct (str "Host.fooBar.top.") (str "foobar.TOP")) as (r & E & H);
    [first [vm_compute; discriminate|vm_compute; repeat constructor; discriminate]..|].
  exists r. split; [exact E|]. split; [exact H|]. vm_compute in E. congruence.
Defined.

(** *** Canonical names *)

(** The same as [strip] for all trailing separators, the text backwards; and as
    the code has it, which looks at two characters only. *)
Fixpoint bare_rev (r : list Z) : list Z :=
  match r with
  | c :: r' => if (c =? DOT) && negb (scan false (rev r')) then bare_rev r' else r
  | [] => []
  end.

Definition bare (s : list Z) : list Z := rev (bare_rev (rev s)).

Definition looks_escaped (r : list Z) : bool :=
  match r with
  | c :: r => (c =? BSLASH) && negb (match r with c2 :: _ => c2 =? BSLASH | [] => false end)
  | [] => false
  end.

Fixpoint canon_rev (r : list Z) : list Z :=
  match r with
  | c :: r' => if (c =? DOT) && negb (looks_escaped r') then canon_rev r' else r
  | [] => []
  end.

Definition canon (s : list Z) : list Z := rev (canon_rev (rev s)) ++ [DOT].

(** Three backslashes in a row. *)
Fixpoint three_rev (r : list Z) : bool :=
  match r with
  | a :: ((b :: c :: _) as r') => (a =? BSLASH) && (b =? BSLASH) && (c =? BSLASH) || three_rev r'
  | _ => false
  end.

Definition three_backslashes (s : list Z) : bool := three_rev (rev s).

Lemma three_rev_tail c r : three_rev (c :: r) = false -> three_rev r = false.
Proof. destruct r as [|a [|b r]]; [done..|]. cbn. intros H. by apply orb_false_iff in H as [_ H]. Qed.

Lemma looks_escaped_scan r : three_rev r = false -> looks_escaped r = scan false (rev r).
Proof.
  destruct r as [|a [|b [|c r]]]; [done|..]; intros H; cbn [rev]; rewrite !scan_snoc; cbn [looks_escaped].
  - cbn. by destruct (a =? BSLASH).
  - cbn. by destruct (a =? BSLASH), (b =? BSLASH).
  - cbn in H. apply orb_false_iff in H as [H _].
    destruct (a =? BSLASH), (b =? BSLASH), (c =? BSLASH), (scan false (rev r)); done.
Qed.

Lemma canon_bare s : three_backslashes s = false -> canon s = bare s ++ [DOT].
Proof.
  unfold three_backslashes, canon, bare. intros H. f_equal. f_equal.
  induction (rev s) as [|c r IH]; [done|]. apply three_rev_tail in H. cbn.
  by rewrite looks_escaped_scan, IH by done.
Qed.

Lemma canon_stop s rest n : n = S (length s) ->
  (if (2 <=? n)%nat then
     c2 <- rd (s ++ rest) (Z.of_nat n - 2);;
     if c2 =? BSLASH then
       if (n <? 3)%nat then Ok true
       else c3 <- rd (s ++ rest) (Z.of_nat n - 3);; Ok (negb (c3 =? BSLASH))
     else Ok false
   else Ok false) = Ok (looks_escaped (rev s)).
Proof.
  intros ->. destruct s as [|x s _] using rev_ind; [done|].
  rewrite rev_unit, length_app, Nat.add_1_r, <- app_assoc. cbn [app looks_escaped]. cbn [Nat.leb].
  rewrite rd_mid by (unfold zlen; lia). cbn [obind]. destruct (x =? BSLASH); cbn [andb]; [|done].
  destruct s as [|y s _] using rev_ind; [done|].
  rewrite rev_unit, length_app, Nat.add_1_r, <- app_assoc. cbn [app].
  rewrite rd_mid by (unfold zlen; lia). cbn [obind].
  by replace (S (S (S (length s))) <? 3)%nat with false by (symmetry; apply Nat.ltb_ge; lia).
Qed.

Lemma canon_loop_spec s : forall rest, exists zs,
  canon_loop (s ++ rest) (length s) = Ok (rev (canon_rev (rev s)) ++ zs ++ rest, zlen (canon_rev (rev s))) /\
  length s = (length (canon_rev (rev s)) + length zs)%nat.
Proof.
  induction s as [|c s IH] using rev_ind; intros rest; [by exists []|].
  rewrite rev_unit, length_app, Nat.add_1_r, <- app_assoc. cbn [canon_loop app canon_rev].
  rewrite rd_mid by done. cbn [obind]. rewrite canon_stop by done. cbn [obind].
  destruct (c =? DOT) eqn:D; cbn [andb].
  - destruct (looks_escaped (rev s)); cbn [negb].
    + exists []. cbn [app length]. rewrite length_rev. split; [|lia]. cbn [rev]. rewrite rev_involutive, <- app_assoc.
      unfold zlen. cbn [length]. by rewrite length_rev.
    + rewrite wr_mid by done. cbn [obind]. destruct (IH (0 :: rest)) as (zs & E & L). rewrite E.
      exists (zs ++ [0]). rewrite <- app_assoc, length_app. cbn. split; [done|lia].
  - exists []. cbn [app length]. rewrite length_rev. split; [|lia]. cbn [rev]. rewrite rev_involutive, <- app_assoc.
    unfold zlen. cbn [length]. by rewrite length_rev.
Qed.

(** The canonical copy of a name that fits, and the error of one that does
    not. *)
Lemma ns_makecanon_spec src dst dstsize : dstsize <= zlen dst ->
  (zlen src + 2 <= dstsize -> exists rest, ns_makecanon src dst dstsize = Ok (canon src ++ 0 :: rest)) /\
  (dstsize < zlen src + 2 -> ns_makecanon src dst dstsize = Err EMSGSIZE).
Proof.
  intros D. unfold ns_makecanon. split; intros H; bdecide; [|done].
  destruct (canon_loop_spec src (0 :: drop (length src + 1) dst)) as (zs & E & L).
  assert (wrn dst 0 (cstr src) = Ok (src ++ 0 :: drop (length src + 1) dst)) as ->.
  { unfold wrn, cstr. bdecide. cbn [Z.to_nat]. rewrite take_0. cbn [app]. rewrite length_app, <- app_assoc. done. }
  cbn [obind]. rewrite E. cbn [obind]. unfold canon.
  set (t := rev (canon_rev (rev src))) in *. assert (zlen (canon_rev (rev src)) = zlen t) as -> by (unfold zlen, t; by rewrite length_rev).
  assert (exists x y r, zs ++ 0 :: drop (length src + 1) dst = x :: y :: r) as (x & y & r & ->).
  { assert (0 < zlen (drop (length src + 1) dst)) by (unfold zlen in *; rewrite length_drop; lia).
    destruct (drop (length src + 1) dst) as [|d0 ds]; [zl|]. destruct zs as [|z0 [|z1 zs]]; cbn; eauto. }
  rewrite wr_mid by done. cbn [obind]. rewrite wr_mid_next by done. exists r. by rewrite <- app_assoc.
Qed.

Lemma canon_rev_suffix r : exists k, r = k ++ canon_rev r.
Proof.
  induction r as [|c r [k IH]]; [by exists []|]. cbn. destruct ((c =? DOT) && negb (looks_escaped r)); [|by exists []].
  exists (c :: k). cbn. by rewrite <- IH.
Qed.

Lemma canon_cstr s : cstr_ok s -> cstr_ok (canon s).
Proof.
  intros H. unfold canon. apply Forall_app. split; [|by repeat constructor].
  apply Forall_rev. destruct (canon_rev_suffix (rev s)) as [k E]. apply Forall_rev in H. rewrite E in H.
  apply Forall_app in H as [_ H]. exact H.
Qed.

Lemma string_at_cstr s rest : cstr_ok s -> string_at (s ++ 0 :: rest) = Ok s.
Proof.
  intros H. unfold string_at. rewrite strlen_cstr by done. cbn [obind].
  exact (rdn_mid [] s (0 :: rest) 0 (zlen s) eq_refl eq_refl).
Qed.

Lemma strcasecmp_zero a : forall b, cstr_ok a -> cstr_ok b -> strcasecmp a b = 0 <-> lower a = lower b.
Proof.
  assert (P : forall c, 0 < c < 256 -> 0 < tolower c) by (intros c H; unfold tolower, isupper; bcase; lia).
  induction a as [|x a IH]; intros [|y b] A B; cbn; [done|..].
  - apply Forall_inv, P in B. split; [lia|done].
  - apply Forall_inv, P in A. split; [lia|done].
  - destruct (Z.eqb_spec (tolower x) (tolower y)) as [E|E].
    + rewrite IH by (by eapply Forall_inv_tail). split; [intros H; by rewrite E; f_equal|by intros [= _ ?]].
    + split; [lia|by intros [= ? _]].
Qed.

Lemma lower_snoc_dot s t : lower (s ++ [DOT]) = lower (t ++ [DOT]) <-> lower s = lower t.
Proof.
  unfold lower. rewrite !map_app. cbn [map]. split; [|by intros ->].
  intros H. by apply app_inj_tail in H as [H _].
Qed.

(** [ns_samename] compares two names that fit its arrays without leaving
    them: 1 when they are the same whatever the case, all trailing separators
    aside, and 0 otherwise; [ns_subdomain] then says that the first is below
    the second and another.  The names have no three backslashes in a row,
    with which the code can take an escaped dot for a separator. *)
Theorem ns_samename_correct ta tb a b :
  cstr_ok a -> cstr_ok b -> zlen a + 2 <= NS_MAXDNAME -> zlen b + 2 <= NS_MAXDNAME ->
  zlen ta = NS_MAXDNAME -> zlen tb = NS_MAXDNAME ->
  three_backslashes a = false -> three_backslashes b = false ->
  (ns_samename ta tb a b = Ok 1 /\ lower (bare a) = lower (bare b) \/
   ns_samename ta tb a b = Ok 0 /\ lower (bare a) <> lower (bare b)) /\
  exists r, ns_subdomain ta tb a b = Ok r /\ (r = true <-> below a b /\ lower (bare a) <> lower (bare b)).
Proof.
  intros A B La Lb Ta Tb Wa Wb.
  assert (S : ns_samename ta tb a b = Ok 1 /\ lower (bare a) = lower (bare b) \/
              ns_samename ta tb a b = Ok 0 /\ lower (bare a) <> lower (bare b)).
  { unfold ns_samename.
    destruct (proj1 (ns_makecanon_spec a ta NS_MAXDNAME ltac:(lia)) La) as [ra ->].
    destruct (proj1 (ns_makecanon_spec b tb NS_MAXDNAME ltac:(lia)) Lb) as [rb ->]. cbn [obind].
    rewrite !string_at_cstr by (by apply canon_cstr). cbn [obind].
    pose proof (strcasecmp_zero (canon a) (canon b) (canon_cstr a A) (canon_cstr b B)) as Z0.
    rewrite !canon_bare in * by done. rewrite lower_snoc_dot in Z0.
    destruct (Z.eqb_spec (strcasecmp (bare a ++ [DOT]) (bare b ++ [DOT])) 0); [left|right]; tauto. }
  split; [exact S|]. unfold ns_subdomain.
  destruct (samedomain_total a b A B ltac:(unfold NS_MAXDNAME, INT_MAX in *; lia)) as (r & E & H).
  destruct S as [[-> S]|[-> S]]; cbn [obind Z.eqb Pos.eqb].
  - exists false. split; [done|]. split; [done|tauto].
  - exists r. split; [exact E|]. tauto.
Qed.

Lemma ns_samename_correct_witness :
  ns_samename (replicate 1025 0) (replicate 1025 255) (str "Foo.") (str "foo..") = Ok 1 /\
  exists r, ns_subdomain (replicate 1025 0) (replicate 1025 255) (str "Foo.") (str "foo..") = Ok r /\ r <> true.
Proof.
  destruct (ns_samename_correct (replicate 1025 0) (replicate 1025 255) (str "Foo.") (str "foo..")) as [S (r & E & H)];
    [first [reflexivity|vm_compute; discriminate|vm_compute; repeat constructor; discriminate]..|].
  destruct S as [[S _]|[_ S]]; [|by destruct S].
  split; [exact S|]. exists r. split; [exact E|]. intros T. apply H in T as [_ T]. by apply T.
Defined.

(** The names that the code takes wrongly: the escaped backslash and the
    escaped dot of one label are canonical without a separator behind them. *)
Example makecanon_three_backslashes :
  canon (str "foo\.") = str "foo\.." /\ canon (str "foo\\\.") = str "foo\\\." /\
  bare (str "foo\\\.") ++ [DOT] = str "foo\\\..".
Proof. vm_compute. done. Qed.
