(* ===== verification/ResMkquery.v ===== *)
(** * resolv/res_mkquery.c: making queries

    [res_nmkquery], [res_nopt] and [res_nopt_rdata].  The buffer is an object
    of bytes, a pointer into it an offset; a result is the length and the
    buffer.  [res_nrandomid] is the argument [id], and of the options of the
    resolver's state the two that are read are arguments.  [HEADER] is a struct
    of bit fields of a system header; where the three bit fields lie is the
    class [Header], with the layout of RFC 1035 as its law.

    The theorems: a query for a name is read back by [ns_initparse] and
    [ns_parserr2] as one question with that name, type and class; the OPT
    record that is appended is read back as such. *)
From Stdlib Require Import ZArith Lia List Bool String.
From stdpp Require Import base tactics list numbers.
From S2P Require Import Prelude CText NsName NsUnpack NsText NsPack ResComp NsParse.
Local Open Scope Z_scope.
Local Open Scope c_scope.

Definition HFIXEDSZ : Z := 12.
Definition QFIXEDSZ : Z := 4.
Definition RRFIXEDSZ : Z := 10.
Definition QUERY : Z := 0.
Definition IQUERY : Z := 1.
Definition NS_NOTIFY_OP : Z := 4.
Definition NOERROR : Z := 0.
Definition T_NULL : Z := 10.
Definition ns_t_opt : Z := 41.
Definition NS_OPT_DNSSEC_OK : Z := 32768.
Definition USHRT_MAX : Z := 65535.

(** The bit fields of [HEADER], in the third and fourth bytes of the message. *)
Inductive hdr_field : Type := h_opcode | h_rd | h_rcode.

Definition rfc1035_field (f : hdr_field) (v : Z) (b : Z * Z) : Z * Z :=
  match f with
  | h_opcode => (Z.lor (Z.land (fst b) 135) (Z.shiftl (Z.land v 15) 3), snd b)
  | h_rd => (Z.lor (Z.land (fst b) 254) (Z.land v 1), snd b)
  | h_rcode => (fst b, Z.lor (Z.land (snd b) 240) (Z.land v 15))
  end.

Class Header : Type := {
  hdr_set : hdr_field -> Z -> Z * Z -> Z * Z;
  hdr_law : forall f v b, byte_ok (fst b) -> byte_ok (snd b) -> hdr_set f v b = rfc1035_field f v b
}.

#[export] Instance rfc1035_header : Header := {| hdr_set := rfc1035_field; hdr_law _ _ _ _ _ := eq_refl |}.

Section Make.
Context `{Header}.

(** [assert(...); return (int)(cp - buf);] *)
Definition finish (buf : list Z) (cp : Z) : outcome (Z * list Z) :=
  assert_int cp;;;
  Ok (cp, buf).

(** The header, the identifier last drawn. *)
Definition mkquery_header (buf : list Z) (id op : Z) (recurse : bool) : outcome (list Z) :=
  buf <- wrn buf 0 (replicate 12 0);;
  buf <- wrn buf 0 (ns_put16 id);;
  b2 <- rd buf 2;;
  b3 <- rd buf 3;;
  let b := hdr_set h_opcode op (b2, b3) in
  let b := hdr_set h_rd (if recurse then 1 else 0) b in
  let b := hdr_set h_rcode NOERROR b in
  wrn buf 2 [fst b; snd b].

(** The additional record for the completion domain. *)
Definition mkquery_completion (fuel : nat) (data : list Z) (class : Z) (buf : list Z) (ptrs : list Z)
    (cp ep : Z) : outcome (Z * list Z) :=
  if ep - cp <? RRFIXEDSZ then Err ENONE
  else
    r <- dn_comp fuel data buf cp (i32 (ep - cp - RRFIXEDSZ)) (Some ptrs) (Some 19);;
    match r.(r_val) with
    | inr e => Err e
    | inl n =>
        let cp := cp + n in
        buf <- wrn r.(r_msg) cp (ns_put16 T_NULL);;
        buf <- wrn buf (cp + 2) (ns_put16 class);;
        buf <- wrn buf (cp + 4) (ns_put32 0);;
        buf <- wrn buf (cp + 8) (ns_put16 0);;
        buf <- wrn buf 10 (ns_put16 1);;
        finish buf (cp + 10)
    end.

Definition mkquery_question (fuel : nat) (op : Z) (dname : list Z) (class type : Z) (data : option (list Z))
    (buf : list Z) (cp ep : Z) : outcome (Z * list Z) :=
  if ep - cp <? QFIXEDSZ then Err ENONE
  else
    r <- dn_comp fuel dname buf cp (i32 (ep - cp - QFIXEDSZ)) (Some []) (Some 19);;
    match r.(r_val) with
    | inr e => Err e
    | inl n =>
        let cp := cp + n in
        buf <- wrn r.(r_msg) cp (ns_put16 type);;
        buf <- wrn buf (cp + 2) (ns_put16 class);;
        buf <- wrn buf 4 (ns_put16 1);;
        match data with
        | Some data =>
            if op =? QUERY then finish buf (cp + 4)
            else mkquery_completion fuel data class buf r.(r_ptrs) (cp + 4) ep
        | None => finish buf (cp + 4)
        end
    end.

Definition mkquery_inverse (class type : Z) (data : option (list Z)) (datalen : Z)
    (buf : list Z) (cp ep : Z) : outcome (Z * list Z) :=
  if ep - cp <? 1 + RRFIXEDSZ + datalen then Err ENONE
  else
    buf <- wr buf cp 0;;
    buf <- wrn buf (cp + 1) (ns_put16 type);;
    buf <- wrn buf (cp + 3) (ns_put16 class);;
    buf <- wrn buf (cp + 5) (ns_put32 0);;
    buf <- wrn buf (cp + 9) (ns_put16 datalen);;
    let! (buf, cp) :=
      (if negb (datalen =? 0) then
         match data with
         | None => Fault
         | Some data =>
             bytes <- rdn data 0 datalen;;
             buf <- wrn buf (cp + 11) bytes;;
             Ok (buf, cp + 11 + datalen)
         end
       else Ok (buf, cp + 11)) in
    buf <- wrn buf 6 (ns_put16 1);;
    finish buf cp.

(** [fuel] is that of the search for a name to point to. *)
Definition res_nmkquery (fuel : nat) (id : Z) (recurse : bool) (op : Z) (dname : list Z) (class type : Z)
    (data : option (list Z)) (datalen : Z) (buf : option (list Z)) (buflen : Z) : outcome (Z * list Z) :=
  match buf with
  | None => Err ENONE
  | Some buf =>
      if buflen <? HFIXEDSZ then Err ENONE
      else
        buf <- mkquery_header buf id op recurse;;
        let cp := HFIXEDSZ in
        let ep := buflen in
        if (op =? QUERY) || (op =? NS_NOTIFY_OP) then mkquery_question fuel op dname class type data buf cp ep
        else if op =? IQUERY then mkquery_inverse class type data datalen buf cp ep
        else Err ENONE
  end.
End Make.

(** The OPT record of EDNS0, behind the [n0] bytes of a message. *)
Definition res_nopt (dnssec : bool) (n0 : Z) (buf : list Z) (buflen anslen : Z) : outcome (Z * list Z) :=
  let cp := n0 in
  let ep := buflen in
  if ep - cp <? 1 + RRFIXEDSZ then Err ENONE
  else
    buf <- wr buf cp 0;;
    buf <- wrn buf (cp + 1) (ns_put16 ns_t_opt);;
    let anslen := if 65535 <? anslen then 65535 else anslen in
    buf <- wrn buf (cp + 3) (ns_put16 anslen);;
    buf <- wr buf (cp + 5) NOERROR;;
    buf <- wr buf (cp + 6) 0;;
    let flags := if dnssec then Z.lor 0 NS_OPT_DNSSEC_OK else 0 in
    buf <- wrn buf (cp + 7) (ns_put16 flags);;
    buf <- wrn buf (cp + 9) (ns_put16 0);;
    arcount <- ns_get16 buf 10;;
    buf <- wrn buf 10 (ns_put16 (u16 (arcount + 1)));;
    finish buf (cp + 11).

(** One option behind [n0]; [rdata] is where the data of the record starts. *)
Definition res_nopt_rdata (n0 : Z) (buf : list Z) (buflen rdata code len : Z) (data : list Z)
    : outcome (Z * list Z) :=
  let cp := n0 in
  let ep := buflen in
  if ep - cp <? 4 + len then Err ENONE
  else if (rdata <? 2) || (ep <=? rdata) then Err ENONE
  else
    buf <- wrn buf cp (ns_put16 code);;
    buf <- wrn buf (cp + 2) (ns_put16 len);;
    bytes <- rdn data 0 len;;
    buf <- wrn buf (cp + 4) bytes;;
    let cp := cp + 4 + len in
    cassert ((0 <=? cp - rdata) && (cp - rdata <=? USHRT_MAX));;;
    buf <- wrn buf (rdata - 2) (ns_put16 (u16 (cp - rdata)));;
    finish buf cp.

(** ** Writing at the end *)

Lemma wrn_room {A} (m x bs : list A) i :
  i = zlen m -> zlen bs <= zlen x -> wrn (m ++ x) i bs = Ok ((m ++ bs) ++ drop (length bs) x).
Proof.
  intros -> H. destruct (room_split x (zlen bs) ltac:(pose proof (zlen_nonneg bs); lia)) as (y & z & -> & L).
  rewrite wrn_app by done. unfold zlen in L. apply Nat2Z.inj in L. by rewrite <- L, drop_app_length.
Qed.

Lemma wr_room {A} (m x : list A) b i : i = zlen m -> 1 <= zlen x -> wr (m ++ x) i b = Ok ((m ++ [b]) ++ drop 1 x).
Proof. intros -> H. destruct x as [|y x]; [zl|]. rewrite wr_mid by done. by rewrite <- app_assoc. Qed.

Lemma zlen_drop {A} n (x : list A) : Z.of_nat n <= zlen x -> zlen (drop n x) = zlen x - Z.of_nat n.
Proof. unfold zlen. rewrite length_drop. lia. Qed.

Lemma zlen_put16 v : zlen (ns_put16 v) = 2.
Proof. done. Qed.

Lemma get16_put16 v pre post i : i = zlen pre -> 0 <= v < 65536 -> ns_get16 (pre ++ ns_put16 v ++ post) i = Ok v.
Proof.
  intros -> Hv. unfold ns_get16, ns_put16. cbn [app]. rewrite rd_mid by done. cbn [obind].
  change (u8 (Z.shiftr v 8) :: u8 v :: post) with ([u8 (Z.shiftr v 8)] ++ u8 v :: post). rewrite app_assoc.
  rewrite rd_mid by zl. cbn [obind]. f_equal. unfold u8, uwrap. rewrite Z.shiftr_div_pow2 by lia.
  change (2 ^ 8) with 256. pose proof (Z.mod_pos_bound v 256). rewrite lor_shiftl_add by lia. change (2 ^ 8) with 256.
  rewrite (Z.mod_small (v / 256)) by (split; [apply Z.div_pos; lia|apply Z.div_lt_upper_bound; lia]).
  pose proof (Z.div_mod v 256). lia.
Qed.

(** ** A name with nothing to point to *)

Section Plain.
Variables (m : list Z) (fuel : nat) (eob : Z) (last : option Z) (all : list (list Z)).
Hypothesis Hall : Forall label_ok all.
Hypothesis H255 : zlen (wire all) <= 255.
Hypothesis Heob : zlen m + zlen (wire all) < eob.
Hypothesis Hint : eob <= INT_MAX.

Lemma pack_plain_loop ls : forall d x ptrs first dfuel,
  all = d ++ ls -> (length ls < dfuel)%nat -> eob <= zlen (m ++ body d ++ x) ->
  exists ptrs', loop dfuel (pack_body fuel (wire all) (zlen m) eob true last [])
      (mk_pack (m ++ body d ++ x) (zlen (m ++ body d)) ptrs (zlen (body d)) first)
    = Ok (mk_packed (inl (zlen (wire all))) (m ++ wire all ++ drop (length (wire ls)) x) ptrs').
Proof.
  induction ls as [|l ls IH]; intros d x ptrs first dfuel E Hf He; (destruct dfuel as [|dfuel]; [cbn in Hf; lia|]).
  - rewrite app_nil_r in E. subst d.
    assert (Hw : wire all = body all ++ [0]) by done.
    assert (Hr : rd (wire all) (zlen (body all)) = Ok 0) by (rewrite Hw; by apply rd_mid).
    rewrite Hw in Heob. autorewrite with zlen in *. zlen_facts.
    exists ptrs. apply loop_exit. unfold pack_body. cbn [k_srcp k_dstp k_msg k_ptrs k_first]. rewrite Hr. cbn [obind Z.eqb negb andb].
    change (0 <=? -1) with false. cbv iota. change (flags_of 0 =? NS_CMPRSFLGS) with false. cbv iota.
    rewrite (labellen_small _ _ 0) by done. cbn [obind]. bdecide.
    rewrite Hw at 1. rewrite (rdn_mid (body all) [0] []) by done. cbn [obind].
    rewrite app_assoc, wrn_room by zl. cbn [obind Z.eqb negb]. bdecide.
    rewrite assert_int_ok by (unfold INT_MIN; zl). cbn [obind]. do 3 f_equal; [f_equal; rewrite Hw; zl|].
    rewrite Hw, <- !app_assoc. done.
  - pose proof Hall as Hal2. rewrite E in Hal2. apply Forall_app in Hal2 as [Hd Hls].
    pose proof (Forall_inv Hls) as Hl. pose proof Hl as [Hz Hlb].
    assert (Hw : wire all = body d ++ wire (l :: ls)) by (by rewrite body_wire, <- E).
    assert (Hr : rd (wire all) (zlen (body d)) = Ok (zlen l)) by (rewrite Hw; by apply rd_wire_head).
    assert (Hle : zlen (wire all) = zlen (body d) + (zlen l + 1) + zlen (wire ls)) by (rewrite Hw, zlen_app, zlen_wire_cons; lia).
    pose proof (zlen_wire_pos ls). autorewrite with zlen in He. zlen_facts.
    cbn [loop]. unfold pack_body at 1. cbn [k_srcp k_dstp k_msg k_ptrs k_first]. rewrite Hr. cbn [obind].
    assert ((if negb (zlen l =? 0) && true then dn_find fuel (wire all) (zlen (body d)) (m ++ body d ++ x) [] else Ok (-1)) = Ok (-1))
      as -> by (by destruct (negb (zlen l =? 0))).
    cbn [obind]. change (0 <=? -1) with false. cbv iota. rewrite (label_flags l Hl).
    change (0 =? NS_CMPRSFLGS) with false. cbv iota.
    rewrite (labellen_small _ _ _ Hr) by (by apply label_flags). cbn [obind]. rewrite zlen_app. bdecide.
    assert (rdn (wire all) (zlen (body d)) (zlen l + 1) = Ok (enc l)) as ->.
    { rewrite Hw, wire_cons. change (zlen l :: l ++ wire ls) with (enc l ++ wire ls).
      by rewrite rdn_mid by (rewrite ?zlen_enc; done). }
    cbn [obind]. rewrite app_assoc, wrn_room by (rewrite ?zlen_enc; zl). cbn [obind]. bdecide. cbn [negb obind].
    destruct (IH (d ++ [l]) (drop (length (enc l)) x)
      (if negb false && true && match last with Some slots => zlen ptrs <? slots - 1 | None => false end && (zlen m + zlen (body d) <? 16384) && first
       then ptrs ++ [zlen m + zlen (body d)] else ptrs)
      (if negb false && true && match last with Some slots => zlen ptrs <? slots - 1 | None => false end && (zlen m + zlen (body d) <? 16384) && first
       then false else first) dfuel) as [ptrs' IH']; [by rewrite <- app_assoc|cbn in Hf; lia|..].
    { rewrite body_snoc. autorewrite with zlen. rewrite zlen_enc, zlen_drop by (pose proof (zlen_enc l); unfold zlen in *; lia).
      pose proof (zlen_enc l). unfold zlen in *. lia. }
    exists ptrs'. rewrite body_snoc, <- app_assoc in IH'. rewrite drop_drop in IH'.
    replace (length (wire (l :: ls))) with (length (enc l) + length (wire ls))%nat
      by (rewrite wire_cons; change (zlen l :: l ++ wire ls) with (enc l ++ wire ls); by rewrite length_app).
    rewrite <- IH'. rewrite <- !app_assoc. do 2 f_equal. f_equal; rewrite ?app_assoc, ?zlen_app, ?zlen_enc; lia.
    all: by rewrite zlen_app, zlen_enc.
Qed.
End Plain.

(** [dn_comp] writes the wire form of a name that fits, with a byte to spare. *)
Lemma dn_comp_plain m x dst fuel ls dstsiz last : dst = zlen m ->
  Forall label_ok ls -> zlen (wire ls) <= 255 -> zlen (wire ls) < dstsiz <= zlen x -> zlen (m ++ x) <= INT_MAX ->
  exists ptrs, dn_comp fuel (text ls) (m ++ x) dst dstsiz (Some []) last =
    Ok (mk_packed (inl (zlen (wire ls))) (m ++ wire ls ++ drop (length (wire ls)) x) ptrs).
Proof.
  intros -> Hls H255 Hd Hi. unfold dn_comp, ns_name_compress, ns_name_pton, NS_MAXCDNAME.
  rewrite ns_name_pton2_text by (done || lia). unfold ns_name_pack, i32. zlen_facts.
  rewrite zlen_app in Hi. rewrite swrap_id by (unfold INT_MAX in Hi; lia).
  pose proof (wire_length_labels ls Hls) as Hll.
  assert (Hlen : (length ls < S (length (wire ls)))%nat) by (unfold zlen in Hll; lia).
  rewrite (legal_wire ls [] _ 0) by done.
  destruct (pack_plain_loop m fuel (zlen m + dstsiz) last ls Hls ltac:(lia) ltac:(lia) ls [] x [] true (S (length (wire ls))))
    as [ptrs E]; [done|done|cbn; zl|].
  cbn [body app] in E. change (body []) with (@nil Z) in E. rewrite app_nil_r in E. by exists ptrs.
Qed.

(** ** The messages *)

Definition header_bytes (id flags qd an ns ar : Z) : list Z :=
  ns_put16 id ++ ns_put16 flags ++ ns_put16 qd ++ ns_put16 an ++ ns_put16 ns ++ ns_put16 ar.

Definition query_flags (op : Z) (recurse : bool) : Z := op * 2048 + (if recurse then 256 else 0).

Definition question_bytes (ls : list (list Z)) (type class : Z) : list Z :=
  wire ls ++ ns_put16 type ++ ns_put16 class.

Definition opt_bytes (anslen flags : Z) (rdata : list Z) : list Z :=
  wire [] ++ ns_put16 ns_t_opt ++ ns_put16 anslen ++ [0; 0] ++ ns_put16 flags ++ ns_put16 (zlen rdata) ++ rdata.

Lemma zlen_header id flags qd an ns ar : zlen (header_bytes id flags qd an ns ar) = 12.
Proof. done. Qed.

Lemma zlen_question ls type class : zlen (question_bytes ls type class) = zlen (wire ls) + 4.
Proof. unfold question_bytes. autorewrite with zlen. rewrite !zlen_put16. lia. Qed.

Lemma zlen_opt anslen flags rdata : zlen (opt_bytes anslen flags rdata) = zlen rdata + 11.
Proof. unfold opt_bytes. autorewrite with zlen. rewrite !zlen_put16. change (zlen (wire [])) with 1. lia. Qed.

Lemma finish_ok buf cp : 0 <= cp <= INT_MAX -> finish buf cp = Ok (cp, buf).
Proof. intros. unfold finish. by rewrite assert_int_ok by (unfold INT_MIN; lia). Qed.

Section Queries.
Context `{Header}.

Lemma mkquery_header_bytes buf id op recurse : 12 <= zlen buf -> op = QUERY \/ op = IQUERY \/ op = NS_NOTIFY_OP ->
  mkquery_header buf id op recurse = Ok (header_bytes id (query_flags op recurse) 0 0 0 0 ++ drop 12 buf).
Proof.
  intros L O. unfold mkquery_header. change buf with ([] ++ buf) at 1.
  rewrite wrn_room by (done || exact L). cbn [obind app]. change (length (replicate 12 0)) with 12%nat.
  set (x := drop 12 buf). cbn [replicate app].
  change (0 :: 0 :: 0 :: 0 :: 0 :: 0 :: 0 :: 0 :: 0 :: 0 :: 0 :: 0 :: x) with ([] ++ [0; 0] ++ ([0; 0; 0; 0; 0; 0; 0; 0; 0; 0] ++ x)).
  rewrite wrn_mid by done. cbn [obind app].
  replace (rd (ns_put16 id ++ _) 2) with (Ok 0) by reflexivity. cbn [obind].
  replace (rd (ns_put16 id ++ _) 3) with (Ok 0) by reflexivity. cbn [obind].
  rewrite (hdr_law h_opcode) by (cbn; unfold byte_ok; lia).
  assert (exists b, hdr_set h_rcode NOERROR (hdr_set h_rd (if recurse then 1 else 0) (rfc1035_field h_opcode op (0, 0))) = b /\
            [fst b; snd b] = ns_put16 (query_flags op recurse)) as (b & -> & Eb).
  { eexists. split; [reflexivity|].
    destruct O as [-> |[-> | ->]], recurse; rewrite (hdr_law h_rd) by (split; vm_compute; done);
      rewrite (hdr_law h_rcode) by (split; vm_compute; done); reflexivity. }
  rewrite Eb. exact (wrn_mid (ns_put16 id) [0; 0] (ns_put16 (query_flags op recurse)) _ 2 eq_refl eq_refl).
Qed.

(** A query that fits, with a byte to spare, is the header, the question and
    what the buffer held behind. *)
Lemma res_nmkquery_bytes fuel id recurse op ls class type datalen buf buflen :
  op = QUERY \/ op = NS_NOTIFY_OP -> Forall label_ok ls -> zlen (wire ls) <= 255 ->
  16 + zlen (wire ls) < buflen <= zlen buf -> zlen buf <= INT_MAX ->
  exists rest, res_nmkquery fuel id recurse op (text ls) class type None datalen (Some buf) buflen =
    Ok (16 + zlen (wire ls),
        header_bytes id (query_flags op recurse) 1 0 0 0 ++ question_bytes ls type class ++ rest) /\
    rest = drop (16 + length (wire ls)) buf /\ zlen rest = zlen buf - (16 + zlen (wire ls)).
Proof.
  intros O Hls H255 L M. pose proof (zlen_wire_pos ls). unfold res_nmkquery, HFIXEDSZ. bdecide.
  rewrite mkquery_header_bytes by (lia || tauto). cbn [obind].
  replace ((op =? QUERY) || (op =? NS_NOTIFY_OP)) with true by (by destruct O as [-> | ->]).
  unfold mkquery_question, QFIXEDSZ, i32. bdecide. rewrite swrap_id by (unfold INT_MAX in M; lia).
  set (h := header_bytes id (query_flags op recurse) 0 0 0 0). assert (Lx : zlen (drop 12 buf) = zlen buf - 12) by (rewrite zlen_drop; lia).
  destruct (dn_comp_plain h (drop 12 buf) 12 fuel ls (buflen - 12 - 4) (Some 19) eq_refl Hls H255) as [ptrs ->].
  { lia. }
  { rewrite zlen_app, Lx. change (zlen h) with 12. lia. }
  cbn [obind r_val r_msg]. set (x := drop (length (wire ls)) (drop 12 buf)).
  assert (Lr : zlen x = zlen buf - 12 - zlen (wire ls)) by (unfold x; rewrite zlen_drop; unfold zlen in *; lia).
  rewrite app_assoc, wrn_room by (rewrite ?zlen_put16; change 12 with (zlen h); zl). cbn [obind].
  change (length (ns_put16 type)) with 2%nat. assert (L2 : zlen (drop 2 x) = zlen x - 2) by (rewrite zlen_drop; lia).
  rewrite wrn_room by (rewrite ?L2, ?zlen_app, ?zlen_put16; change (zlen h) with 12; lia).
  cbn [obind]. unfold h, header_bytes, question_bytes. rewrite <- !app_assoc.
  match goal with |- context [wrn (?i ++ ?f ++ ?q ++ ?r) 4 ?b] =>
    replace (wrn (i ++ f ++ q ++ r) 4 b) with (Ok (i ++ f ++ b ++ r)) end.
  2:{ rewrite !(app_assoc (ns_put16 id)). by rewrite wrn_mid. }
  cbn [obind]. rewrite finish_ok by lia. eexists. replace (12 + zlen (wire ls) + 4) with (16 + zlen (wire ls)) by lia. split; [by rewrite <- !app_assoc|].
  change (length (ns_put16 class)) with 2%nat. split; [|rewrite zlen_drop; lia].
  unfold x. rewrite !drop_drop. f_equal. lia.
Qed.
End Queries.

Lemma wr_app1 {A} (m : list A) b b' x i : i = zlen m -> wr (m ++ [b] ++ x) i b' = Ok ((m ++ [b']) ++ x).
Proof. apply wr_app. Qed.

(** Appending the OPT record, and an option to its data. *)
Lemma res_nopt_bytes dnssec id flags qd an ns ar b x n0 buflen anslen :
  n0 = 12 + zlen b -> 0 <= ar < 65536 -> n0 + 11 <= buflen <= n0 + zlen x -> buflen <= INT_MAX ->
  res_nopt dnssec n0 (header_bytes id flags qd an ns ar ++ b ++ x) buflen anslen =
    Ok (n0 + 11, header_bytes id flags qd an ns (u16 (ar + 1)) ++ b ++
                 opt_bytes (Z.min 65535 anslen) (if dnssec then NS_OPT_DNSSEC_OK else 0) [] ++ drop 11 x).
Proof.
  intros -> Har L M. pose proof (zlen_nonneg b). unfold res_nopt, RRFIXEDSZ. bdecide.
  assert (exists x0 x1 x2 x3 x4 x5 x6 x7 x8 x9 x10 y, x = [x0] ++ [x1; x2] ++ [x3; x4] ++ [x5] ++ [x6] ++ [x7; x8] ++ [x9; x10] ++ y)
    as (x0 & x1 & x2 & x3 & x4 & x5 & x6 & x7 & x8 & x9 & x10 & y & ->).
  { do 11 (destruct x as [|? x]; [autorewrite with zlen in *; lia|]). by eexists _, _, _, _, _, _, _, _, _, _, _, x. }
  replace (if 65535 <? anslen then 65535 else anslen) with (Z.min 65535 anslen) by (bcase; lia).
  set (h := header_bytes id flags qd an ns ar). assert (Lh : zlen h = 12) by done.
  rewrite app_assoc. rewrite (wr_app1 (h ++ b) x0) by zl. cbn [obind].
  rewrite wrn_app by (rewrite ?zlen_put16; zl). cbn [obind].
  rewrite wrn_app by (rewrite ?zlen_app, ?zlen_put16; try done; zl). cbn [obind].
  rewrite wr_app1 by (rewrite ?zlen_app, ?zlen_put16; zl). cbn [obind].
  rewrite wr_app1 by (rewrite ?zlen_app, ?zlen_put16; zl). cbn [obind].
  rewrite wrn_app by (rewrite ?zlen_app, ?zlen_put16; try done; zl). cbn [obind].
  rewrite wrn_app by (rewrite ?zlen_app, ?zlen_put16; try done; zl). cbn [obind].
  unfold h, header_bytes. rewrite <- !app_assoc.
  match goal with |- context [ns_get16 (?p1 ++ ?p2 ++ ?p3 ++ ?p4 ++ ?p5 ++ ?q ++ ?r) 10] =>
    set (tail := r); replace (ns_get16 (p1 ++ p2 ++ p3 ++ p4 ++ p5 ++ q ++ tail) 10) with (Ok ar) end.
  2:{ symmetry. exact (get16_put16 ar (ns_put16 id ++ ns_put16 flags ++ ns_put16 qd ++ ns_put16 an ++ ns_put16 ns) tail 10 eq_refl Har). }
  cbn [obind].
  match goal with |- context [wrn (?p1 ++ ?p2 ++ ?p3 ++ ?p4 ++ ?p5 ++ ?q ++ ?r) 10 ?v] =>
    replace (wrn (p1 ++ p2 ++ p3 ++ p4 ++ p5 ++ q ++ r) 10 v) with (Ok (p1 ++ p2 ++ p3 ++ p4 ++ p5 ++ v ++ r)) end.
  2:{ symmetry. exact (wrn_mid (ns_put16 id ++ ns_put16 flags ++ ns_put16 qd ++ ns_put16 an ++ ns_put16 ns) (ns_put16 ar)
                        (ns_put16 (u16 (ar + 1))) tail 10 eq_refl eq_refl). }
  cbn [obind]. rewrite finish_ok by lia. done.
Qed.

Lemma res_nopt_rdata_bytes p anslen flags rd x n0 buflen rdata code data :
  2 <= zlen p -> rdata = zlen p + 11 -> n0 = rdata + zlen rd -> rdata < buflen ->
  n0 + 4 + zlen data <= buflen <= n0 + zlen x -> buflen <= INT_MAX -> zlen rd + 4 + zlen data <= 65535 ->
  res_nopt_rdata n0 (p ++ opt_bytes anslen flags rd ++ x) buflen rdata code (zlen data) data =
    Ok (n0 + 4 + zlen data,
        p ++ opt_bytes anslen flags (rd ++ ns_put16 code ++ ns_put16 (zlen data) ++ data) ++ drop (4 + length data) x).
Proof.
  intros Hp -> -> Hb L M H16. pose proof (zlen_nonneg rd). pose proof (zlen_nonneg data). unfold res_nopt_rdata. bdecide. cbn [orb].
  set (q := p ++ wire [] ++ ns_put16 ns_t_opt ++ ns_put16 anslen ++ [0; 0] ++ ns_put16 flags).
  assert (Lq : zlen q = zlen p + 9) by (unfold q; rewrite !zlen_app; rewrite !zlen_put16; change (zlen (wire [])) with 1; change (zlen [0; 0]) with 2; lia).
  assert (forall r y, p ++ opt_bytes anslen flags r ++ y = q ++ ns_put16 (zlen r) ++ r ++ y) as E
    by (intros; unfold q, opt_bytes; by rewrite <- !app_assoc).
  rewrite !E. clear E. rewrite !app_assoc. rewrite wrn_room by (rewrite ?zlen_app, ?zlen_put16; lia). cbn [obind].
  change (length (ns_put16 code)) with 2%nat. assert (L2 : zlen (drop 2 x) = zlen x - 2) by (rewrite zlen_drop; lia).
  rewrite wrn_room by (rewrite ?L2, ?zlen_app, ?zlen_put16; lia). cbn [obind].
  change (length (ns_put16 (zlen data))) with 2%nat. rewrite drop_drop.
  assert (L4 : zlen (drop (2 + 2) x) = zlen x - 4) by (rewrite zlen_drop; lia).
  assert (rdn data 0 (zlen data) = Ok data) as ->
    by (pose proof (rdn_mid [] data [] 0 (zlen data) eq_refl eq_refl) as R; cbn [app] in R; by rewrite app_nil_r in R).
  cbn [obind]. rewrite wrn_room by (rewrite ?L4, ?zlen_app, ?zlen_put16; lia). cbn [obind]. rewrite drop_drop.
  unfold USHRT_MAX. bdecide. cbn [andb cassert obind].
  set (new := rd ++ ns_put16 code ++ ns_put16 (zlen data) ++ data).
  assert (Ln : zlen new = zlen rd + 4 + zlen data) by (unfold new; rewrite !zlen_app, !zlen_put16; lia).
  replace (u16 _) with (zlen new) by (unfold u16, uwrap; rewrite Z.mod_small; [lia|change (2 ^ 16) with 65536; lia]).
  replace ((((((q ++ ns_put16 (zlen rd)) ++ rd) ++ ns_put16 code) ++ ns_put16 (zlen data)) ++ data) ++ drop (2 + 2 + length data) x)
    with (q ++ ns_put16 (zlen rd) ++ new ++ drop (2 + 2 + length data) x) by (unfold new; by rewrite <- !app_assoc).
  rewrite wrn_mid by (done || lia). cbn [obind]. rewrite finish_ok by lia.
  unfold new. by rewrite <- !app_assoc.
Qed.

(** ** Reading them back *)

Lemma ends_wire ls : forall pre post p, Forall label_ok ls -> p = zlen pre ->
  ends (pre ++ wire ls ++ post) p (p + zlen (wire ls)).
Proof.
  induction ls as [|l ls IH]; intros pre post p Hls ->.
  - apply end_root. by apply rd_mid.
  - pose proof (Forall_inv Hls) as Hl. pose proof Hl as [Hz _].
    pose proof (rd_wire pre l ls post (zlen pre) eq_refl) as Hr.
    eapply (end_label _ _ (zlen l) (zlen l)); [exact Hr|lia|left; by apply label_flags|..].
    + apply (labellen_small _ _ _ Hr). by apply label_flags.
    + lia.
    + rewrite wire_step, zlen_wire_cons. replace (zlen pre + (zlen l + 1 + zlen (wire ls)))
        with (zlen pre + 1 + zlen l + zlen (wire ls)) by lia.
      apply IH; [by eapply Forall_inv_tail|rewrite zlen_app, zlen_enc; lia].
Qed.

Lemma unpack_wire_at pre ls post eom : Forall label_ok ls -> zlen (wire ls) <= NS_MAXNNAME ->
  zlen pre + zlen (wire ls) <= eom <= INT_MAX -> eom <= zlen (pre ++ wire ls ++ post) ->
  ns_name_unpack2 (pre ++ wire ls ++ post) eom (zlen pre) NS_MAXNNAME = Ok (zlen (wire ls), wire ls).
Proof.
  intros Hls Hd He Hm. unfold ns_name_unpack2, NS_MAXNNAME in *. pose proof (zlen_wire_pos ls).
  pose proof (wire_length_labels ls Hls). zlen_facts. bdecide. cbn [orb].
  rewrite unpack_wire_loop; auto; try zl.
  - rewrite app_nil_l. repeat f_equal. lia.
  - unfold unpack_fuel. autorewrite with zlen in *. lia.
Qed.

Lemma get32_put16 v pre post i : i = zlen pre -> 0 <= v < 65536 -> ns_get32 (pre ++ [0; 0] ++ ns_put16 v ++ post) i = Ok v.
Proof.
  intros -> Hv. pose proof (get16_put16 v (pre ++ [0; 0]) post (zlen pre + 2) ltac:(zl) Hv) as G.
  rewrite <- app_assoc in G. unfold ns_get16, ns_get32 in *. cbn [app] in *.
  rewrite rd_mid by done. cbn [obind].
  assert (rd (pre ++ 0 :: 0 :: ns_put16 v ++ post) (zlen pre + 1) = Ok 0) as ->.
  { change (0 :: 0 :: ?y) with ([0] ++ 0 :: y). rewrite app_assoc. apply rd_mid. zl. }
  cbn [obind]. replace (zlen pre + 3) with (zlen pre + 2 + 1) by lia.
  apply obind_ok in G as (b2 & -> & G). apply obind_ok in G as (b3 & -> & G). cbn [obind].
  injection G as G. by rewrite !Z.shiftl_0_l, !Z.lor_0_l, G.
Qed.

Section Parse.
Variables (id flags ar type class eom : Z) (ls : list (list Z)) (opt rest : list Z).
Hypothesis Hid : 0 <= id < 65536.
Hypothesis Hflags : 0 <= flags < 65536.
Hypothesis Htype : 0 <= type < 65536.
Hypothesis Hclass : 0 <= class < 65536.
Hypothesis Hls : Forall label_ok ls.
Hypothesis H255 : zlen (wire ls) <= 255.

Let m := header_bytes id flags 1 0 0 ar ++ question_bytes ls type class ++ opt ++ rest.
Let q_end := 16 + zlen (wire ls).

(** The record of the section of additional records, if there is one. *)
Hypothesis Hopt : (ar = 0 /\ opt = []) \/
  exists a f rd, ar = 1 /\ opt = opt_bytes a f rd /\ 0 <= a < 65536 /\ 0 <= f < 65536 /\ zlen rd < 65536.
Hypothesis Heom : eom = q_end + zlen opt.
Hypothesis Hint : zlen m <= INT_MAX.
Hypothesis Hbytes : bytes_ok m.

Lemma m_question : m = header_bytes id flags 1 0 0 ar ++ wire ls ++ ns_put16 type ++ ns_put16 class ++ opt ++ rest.
Proof. unfold m, question_bytes. by rewrite <- !app_assoc. Qed.

Lemma m_length : eom <= zlen m.
Proof. unfold m. rewrite !zlen_app, zlen_header, zlen_question, Heom. unfold q_end. pose proof (zlen_nonneg rest). lia. Qed.

Lemma question_rec : recs m eom ns_s_qd 1 12 q_end.
Proof.
  exists q_end. split; [|done]. exists (12 + zlen (wire ls)). split; [|cbn; unfold q_end; lia].
  rewrite m_question. by apply ends_wire.
Qed.

Lemma opt_rec : recs m eom 3 (Z.to_nat ar) q_end eom.
Proof.
  destruct Hopt as [[Ea Ho]|(a & f & rd & Ea & Ho & Ha & Hf & Hrd)]; rewrite Ea.
  { change (q_end = eom). rewrite Heom, Ho. change (zlen (@nil Z)) with 0. lia. }
  pose proof (zlen_nonneg rd) as Nrd.
  exists eom. split; [|done]. exists (q_end + 1).
  assert (Em : m = (header_bytes id flags 1 0 0 ar ++ question_bytes ls type class) ++ wire [] ++
      (ns_put16 ns_t_opt ++ ns_put16 a ++ [0; 0] ++ ns_put16 f ++ ns_put16 (zlen rd) ++ rd) ++ rest).
  { unfold m. rewrite Ho. unfold opt_bytes. by rewrite <- !app_assoc. }
  set (h := header_bytes id flags 1 0 0 ar ++ question_bytes ls type class) in *.
  assert (Lh : zlen h = q_end) by (unfold h; rewrite zlen_app, zlen_header, zlen_question; unfold q_end; lia).
  split; [rewrite Em; exact (ends_wire [] h _ q_end (Forall_nil_2 _) (eq_sym Lh))|].
  cbn [Z.eqb ns_s_qd]. rewrite Heom, Ho, zlen_opt. split; [lia|]. exists (zlen rd). split; [|lia].
  rewrite Em. replace (q_end + 1 + 8) with (zlen (h ++ wire [] ++ ns_put16 ns_t_opt ++ ns_put16 a ++ [0; 0] ++ ns_put16 f))
    by (rewrite !zlen_app, Lh, !zlen_put16; change (zlen (wire [])) with 1; change (zlen [0; 0]) with 2; lia).
  rewrite <- (get16_put16 (zlen rd) (h ++ wire [] ++ ns_put16 ns_t_opt ++ ns_put16 a ++ [0; 0] ++ ns_put16 f) (rd ++ rest) _ eq_refl) by lia.
  by rewrite <- !app_assoc.
Qed.

(** The message has one question and [ar] additional records. *)
Lemma query_sections : init_sections m eom 0 [1; 0; 0; ar] 12 =
  Ok ([Some 12; None; None; if ar =? 0 then None else Some q_end], eom).
Proof.
  pose proof m_length. pose proof (zlen_wire_pos ls). pose proof (zlen_nonneg opt).
  assert (Ha : ar = 0 \/ ar = 1) by (destruct Hopt as [[-> _]|(? & ? & ? & -> & _)]; auto).
  assert (He : 0 <= eom <= zlen m) by (unfold q_end in *; lia).
  cbn [init_sections Z.eqb Z.add Pos.add Pos.eqb].
  rewrite (ns_skiprr_recs m eom Hbytes He ltac:(lia) 0 1 12 q_end) by (try apply question_rec; unfold q_end in *; lia).
  cbn [obind]. replace (12 + (q_end - 12)) with q_end by lia.
  destruct Ha as [Ea|Ea]; rewrite Ea at 1 2; cbn [Z.eqb Pos.eqb obind].
  - pose proof opt_rec as R. rewrite Ea in R. cbn in R. rewrite R. done.
  - pose proof opt_rec as R. rewrite Ea. change (0 + 1 + 1 + 1) with 3.
    rewrite (ns_skiprr_recs m eom Hbytes He ltac:(lia) 3 1 q_end eom) by (try (by rewrite Ea in R); unfold q_end in *; lia).
    cbn [obind]. replace (q_end + (eom - q_end)) with eom by lia. done.
Qed.

Definition parsed : ns_msg :=
  mk_msg m eom id flags [1; 0; 0; ar] [Some 12; None; None; if ar =? 0 then None else Some q_end] ns_s_max (-1) None.

Lemma ar_cases : ar = 0 \/ ar = 1.
Proof. destruct Hopt as [[Ea _]|(? & ? & ? & Ea & _)]; auto. Qed.

(** The fields of the header. *)
Lemma header_get16 i v pre post : header_bytes id flags 1 0 0 ar = pre ++ ns_put16 v ++ post -> i = zlen pre -> 0 <= v < 65536 ->
  i + 2 <= 12 -> get16_checked m eom i = Ok v.
Proof.
  intros E -> Hv L. unfold get16_checked, NS_INT16SZ. pose proof (zlen_wire_pos ls). pose proof (zlen_nonneg opt).
  unfold q_end in Heom. bdecide. unfold m. rewrite E, <- !app_assoc. by apply get16_put16.
Qed.

Lemma query_initparse : ns_initparse m eom = Ok parsed.
Proof.
  pose proof ar_cases as Ha. unfold ns_initparse.
  set (t := ns_put16 1 ++ ns_put16 0 ++ ns_put16 0 ++ ns_put16 ar).
  rewrite (header_get16 0 id [] (ns_put16 flags ++ t)) by (done || lia). cbn [obind].
  rewrite (header_get16 2 flags (ns_put16 id) t) by (done || lia). cbn [obind].
  rewrite (header_get16 4 1 (ns_put16 id ++ ns_put16 flags) (ns_put16 0 ++ ns_put16 0 ++ ns_put16 ar)) by (done || lia). cbn [obind].
  rewrite (header_get16 6 0 (ns_put16 id ++ ns_put16 flags ++ ns_put16 1) (ns_put16 0 ++ ns_put16 ar)) by (done || lia). cbn [obind].
  rewrite (header_get16 8 0 (ns_put16 id ++ ns_put16 flags ++ ns_put16 1 ++ ns_put16 0) (ns_put16 ar)) by (done || lia). cbn [obind].
  rewrite (header_get16 10 ar (ns_put16 id ++ ns_put16 flags ++ ns_put16 1 ++ ns_put16 0 ++ ns_put16 0) []) by (done || lia). cbn [obind].
  rewrite query_sections. cbn [obind]. by rewrite Z.eqb_refl.
Qed.

Lemma query_question : exists h', ns_parserr2 parsed ns_s_qd 0 = Ok (h', inl (mk_rr (wire ls) type class 0 0 None)).
Proof.
  pose proof m_length as Lm. pose proof (zlen_wire_pos ls). pose proof (zlen_nonneg opt).
  unfold ns_parserr2, parse_seek. cbn [parsed m_sect m_counts m_sections m_rrnum m_ptr].
  change ((ns_s_qd <? 0) || (ns_s_max <=? ns_s_qd)) with false. change (negb (ns_s_qd =? ns_s_max)) with true. cbv iota.
  unfold setsection at 1. change (ns_s_qd =? ns_s_max) with false. cbv iota. cbn [parsed m_sections m_msg m_eom m_id m_flags m_counts].
  change (rd [Some 12; None; None; if ar =? 0 then None else Some q_end] ns_s_qd) with (Ok (Some 12)).
  cbn [obind m_counts m_rrnum m_ptr]. change (rd [1; 0; 0; ar] ns_s_qd) with (Ok 1). cbn [obind].
  change (0 =? -1) with false. cbv iota. change ((0 <? 0) || (1 <=? 0)) with false. cbv iota.
  change (0 <? 0) with false. cbv iota. cbn [obind m_rrnum]. change (0 <? 0) with false. cbv iota. cbn [obind].
  unfold parse_record. cbn [m_ptr m_msg m_eom].
  assert (ns_name_unpack2 m eom 12 NS_MAXNNAME = Ok (zlen (wire ls), wire ls)) as ->.
  { rewrite m_question. apply unpack_wire_at; try done; unfold NS_MAXNNAME; rewrite <- ?m_question; unfold q_end in *; try lia.
    change (zlen (header_bytes _ _ _ _ _ _)) with 12. lia. }
  cbn [obind]. unfold NS_INT16SZ. unfold q_end in Heom. bdecide.
  assert (ns_get16 m (12 + zlen (wire ls)) = Ok type) as ->.
  { rewrite m_question, app_assoc. apply get16_put16; [by rewrite zlen_app|done]. }
  assert (ns_get16 m (12 + zlen (wire ls) + 2) = Ok class) as ->.
  { rewrite m_question, !app_assoc, <- (app_assoc _ opt rest), <- (app_assoc _ (ns_put16 class)).
    apply get16_put16; [by rewrite !zlen_app|done]. }
  cbn [obind]. change (ns_s_qd =? ns_s_qd) with true. cbv iota. by eexists.
Qed.

Lemma query_opt a f dat : ar = 1 -> opt = opt_bytes a f dat -> 0 <= a < 65536 -> 0 <= f < 65536 -> zlen dat < 65536 ->
  (exists h', ns_parserr2 parsed 3 0 = Ok (h', inl (mk_rr [0] ns_t_opt a f (zlen dat) (Some (q_end + 11))))) /\
  rdn m (q_end + 11) (zlen dat) = Ok dat.
Proof.
  intros Ea Ho Ha Hf Hrd. pose proof m_length as Lm. pose proof (zlen_wire_pos ls) as Lw. pose proof (zlen_nonneg dat).
  pose proof (f_equal zlen Ho) as Lo. rewrite zlen_opt in Lo.
  set (h := header_bytes id flags 1 0 0 ar ++ question_bytes ls type class).
  assert (Lh : zlen h = q_end) by (unfold h; rewrite zlen_app, zlen_header, zlen_question; unfold q_end; lia).
  assert (Em : m = h ++ wire [] ++ ns_put16 ns_t_opt ++ ns_put16 a ++ [0; 0] ++ ns_put16 f ++ ns_put16 (zlen dat) ++ dat ++ rest).
  { unfold m, h. rewrite Ho. unfold opt_bytes. by rewrite <- !app_assoc. }
  assert (Rd : rdn m (q_end + 11) (zlen dat) = Ok dat).
  { rewrite Em, !app_assoc, <- (app_assoc _ dat rest). apply rdn_mid; [|done].
    rewrite !zlen_app, Lh, !zlen_put16. change (zlen (wire [])) with 1. change (zlen [0; 0]) with 2. lia. }
  split; [|exact Rd].
  unfold ns_parserr2, parse_seek. cbn [parsed m_sect m_counts m_sections m_rrnum m_ptr].
  change ((3 <? 0) || (ns_s_max <=? 3)) with false. change (negb (3 =? ns_s_max)) with true. cbv iota.
  unfold setsection at 1. change (3 =? ns_s_max) with false. cbv iota. cbn [parsed m_sections m_msg m_eom m_id m_flags m_counts].
  rewrite Ea. change (rd [Some 12; None; None; if 1 =? 0 then None else Some q_end] 3) with (Ok (Some q_end)).
  cbn [obind m_counts m_rrnum m_ptr]. change (rd [1; 0; 0; 1] 3) with (Ok 1). cbn [obind].
  change (0 =? -1) with false. cbv iota. change ((0 <? 0) || (1 <=? 0)) with false. cbv iota.
  change (0 <? 0) with false. cbv iota. cbn [obind m_rrnum]. change (0 <? 0) with false. cbv iota. cbn [obind].
  unfold parse_record. cbn [m_ptr m_msg m_eom].
  assert (ns_name_unpack2 m eom q_end NS_MAXNNAME = Ok (1, [0])) as ->.
  { rewrite Em, <- Lh. change (Ok (1, [0])) with (Ok (zlen (wire []), wire [])).
    apply unpack_wire_at; [constructor|done|..|]; rewrite <- ?Em; rewrite ?Lh; change (zlen (wire [])) with 1; lia. }
  cbn [obind]. unfold NS_INT16SZ, NS_INT32SZ. bdecide.
  set (p1 := h ++ wire []). assert (L1 : zlen p1 = q_end + 1) by (unfold p1; rewrite zlen_app, Lh; done).
  assert (ns_get16 m (q_end + 1) = Ok ns_t_opt) as ->.
  { rewrite Em, app_assoc. by apply get16_put16. }
  assert (ns_get16 m (q_end + 1 + 2) = Ok a) as ->.
  { rewrite Em. fold p1. rewrite app_assoc, app_assoc. fold p1. apply get16_put16; [rewrite zlen_app, L1, zlen_put16; lia|done]. }
  cbn [obind]. change (3 =? ns_s_qd) with false. cbv iota. bdecide.
  assert (ns_get32 m (q_end + 1 + 4) = Ok f) as ->.
  { rewrite Em. replace (h ++ wire [] ++ ns_put16 ns_t_opt ++ ns_put16 a ++ [0; 0] ++ ns_put16 f ++ ns_put16 (zlen dat) ++ dat ++ rest)
      with ((p1 ++ ns_put16 ns_t_opt ++ ns_put16 a) ++ [0; 0] ++ ns_put16 f ++ (ns_put16 (zlen dat) ++ dat ++ rest))
      by (unfold p1; by rewrite <- !app_assoc).
    apply get32_put16; [rewrite !zlen_app, L1, !zlen_put16; lia|done]. }
  assert (ns_get16 m (q_end + 1 + 4 + 4) = Ok (zlen dat)) as ->.
  { rewrite Em. replace (h ++ wire [] ++ ns_put16 ns_t_opt ++ ns_put16 a ++ [0; 0] ++ ns_put16 f ++ ns_put16 (zlen dat) ++ dat ++ rest)
      with ((p1 ++ ns_put16 ns_t_opt ++ ns_put16 a ++ [0; 0] ++ ns_put16 f) ++ ns_put16 (zlen dat) ++ (dat ++ rest))
      by (unfold p1; by rewrite <- !app_assoc).
    apply get16_put16; [rewrite !zlen_app, L1, !zlen_put16; change (zlen [0; 0]) with 2; lia|lia]. }
  cbn [obind]. bdecide. cbn [set_pos m_rrnum m_counts m_msg m_eom m_id m_flags m_sections m_sect].
  change (0 + 1) with 1. change (rd [1; 0; 0; 1] 3) with (Ok 1). cbn [obind]. change (1 <? 1) with false. cbv iota. cbn [obind].
  eexists. do 3 f_equal. f_equal. f_equal. lia.
Qed.
End Parse.

(** ** Claims *)

Lemma bytes_put16 v : bytes_ok (ns_put16 v).
Proof. repeat constructor; apply Z.mod_pos_bound; lia. Qed.

Lemma bytes_wire ls : Forall label_ok ls -> bytes_ok (wire ls).
Proof.
  induction 1 as [|l ls [Hz Hb] _ IH]; [by repeat constructor|]. rewrite wire_cons.
  constructor; [unfold byte_ok; lia|]. apply Forall_app. by split.
Qed.

Lemma bytes_header id flags qd an ns ar : bytes_ok (header_bytes id flags qd an ns ar).
Proof. unfold header_bytes, bytes_ok. rewrite !Forall_app. split_and!; apply bytes_put16. Qed.

Lemma bytes_question ls type class : Forall label_ok ls -> bytes_ok (question_bytes ls type class).
Proof. intros H. unfold question_bytes, bytes_ok. rewrite !Forall_app. split_and!; [by apply bytes_wire|apply bytes_put16..]. Qed.

Lemma bytes_opt a f dat : bytes_ok dat -> bytes_ok (opt_bytes a f dat).
Proof.
  intros H. unfold opt_bytes, bytes_ok. rewrite !Forall_app.
  split_and!; try apply bytes_put16; try done; by repeat constructor.
Qed.

Lemma query_flags_range op recurse : op = QUERY \/ op = NS_NOTIFY_OP -> 0 <= query_flags op recurse < 65536.
Proof. intros [-> | ->]; by destruct recurse. Qed.

(** C34: [res_nmkquery] turns a name, a type and a class into a message that the
    parser accepts as a whole: it has the identifier, the opcode and the
    recursion flag that were asked for and one question, which is read back
    with that name, type and class.  The name may be any that is made of legal
    labels; the buffer needs room for the message and one byte. *)
Theorem res_nmkquery_round_trip `{Header} fuel id recurse op ls class type datalen buf buflen :
  op = QUERY \/ op = NS_NOTIFY_OP -> Forall label_ok ls -> zlen (wire ls) <= 255 ->
  0 <= id < 65536 -> 0 <= type < 65536 -> 0 <= class < 65536 ->
  16 + zlen (wire ls) < buflen <= zlen buf -> zlen buf <= INT_MAX -> bytes_ok buf ->
  exists buf' h h',
    res_nmkquery fuel id recurse op (text ls) class type None datalen (Some buf) buflen = Ok (16 + zlen (wire ls), buf') /\
    zlen buf' = zlen buf /\ ns_initparse buf' (16 + zlen (wire ls)) = Ok h /\
    h.(m_id) = id /\ h.(m_counts) = [1; 0; 0; 0] /\
    ns_msg_getflag h 1 = Ok op /\ ns_msg_getflag h 4 = Ok (if recurse then 1 else 0) /\
    ns_parserr2 h ns_s_qd 0 = Ok (h', inl (mk_rr (wire ls) type class 0 0 None)).
Proof.
  intros O Hls H255 Hid Ht Hc L M B.
  destruct (res_nmkquery_bytes fuel id recurse op ls class type datalen buf buflen O Hls H255 L M) as (rest & E & Er & Lr).
  set (m := header_bytes id (query_flags op recurse) 1 0 0 0 ++ question_bytes ls type class ++ [] ++ rest).
  assert (Lm : zlen m = zlen buf) by (unfold m; rewrite !zlen_app, zlen_header, zlen_question, Lr; change (zlen (@nil Z)) with 0; lia).
  assert (Bm : bytes_ok m).
  { unfold m, bytes_ok. rewrite !Forall_app. split_and!; [apply bytes_header|by apply bytes_question|done|].
    rewrite Er. by apply Forall_drop. }
  set (h := parsed id (query_flags op recurse) 0 type class (16 + zlen (wire ls)) ls [] rest).
  pose proof (query_flags_range op recurse O) as Fr.
  assert (P : ns_initparse m (16 + zlen (wire ls)) = Ok h).
  { apply query_initparse; auto; change (zlen (@nil Z)) with 0; fold m; lia. }
  destruct (query_question id (query_flags op recurse) 0 type class (16 + zlen (wire ls)) ls [] rest) as [h' Q];
    auto; try (change (zlen (@nil Z)) with 0; fold m; lia).
  exists m, h, h'. split; [exact E|]. split; [exact Lm|]. split; [exact P|]. split_and!; try done.
  - by destruct O as [-> | ->], recurse.
  - by destruct O as [-> | ->], recurse.
Qed.

(** A query with an OPT record. *)
Definition edns_message (id flags : Z) (ls : list (list Z)) (type class a f : Z) (d r : list Z) : list Z :=
  header_bytes id flags 1 0 0 1 ++ question_bytes ls type class ++ opt_bytes a f d ++ r.

Lemma edns_parse id flags ls type class a f d r n :
  Forall label_ok ls -> zlen (wire ls) <= 255 ->
  0 <= id < 65536 -> 0 <= flags < 65536 -> 0 <= type < 65536 -> 0 <= class < 65536 ->
  0 <= a < 65536 -> 0 <= f < 65536 -> zlen d < 65536 -> bytes_ok d -> bytes_ok r ->
  n = 16 + zlen (wire ls) + 11 + zlen d -> n + zlen r <= INT_MAX ->
  let m := edns_message id flags ls type class a f d r in
  exists h q o, ns_initparse m n = Ok h /\ h.(m_counts) = [1; 0; 0; 1] /\
    ns_parserr2 h ns_s_qd 0 = Ok (q, inl (mk_rr (wire ls) type class 0 0 None)) /\
    ns_parserr2 h 3 0 = Ok (o, inl (mk_rr [0] ns_t_opt a f (zlen d) (Some (16 + zlen (wire ls) + 11)))) /\
    rdn m (16 + zlen (wire ls) + 11) (zlen d) = Ok d.
Proof.
  intros Hls H255 Hid Hf Ht Hc Ha Hff Hd Bd Br -> M m.
  assert (Lm : zlen m = 16 + zlen (wire ls) + 11 + zlen d + zlen r)
    by (unfold m, edns_message; rewrite !zlen_app, zlen_header, zlen_question, zlen_opt; lia).
  assert (Bm : bytes_ok m).
  { unfold m, edns_message, bytes_ok. rewrite !Forall_app. split_and!; [apply bytes_header|by apply bytes_question|by apply bytes_opt|done]. }
  assert (Ho : (1 = 0 /\ opt_bytes a f d = []) \/
    exists a' f' d', 1 = 1 /\ opt_bytes a f d = opt_bytes a' f' d' /\ 0 <= a' < 65536 /\ 0 <= f' < 65536 /\ zlen d' < 65536)
    by (right; exists a, f, d; auto).
  assert (Le : 16 + zlen (wire ls) + 11 + zlen d = 16 + zlen (wire ls) + zlen (opt_bytes a f d)) by (rewrite zlen_opt; lia).
  set (h := parsed id flags 1 type class (16 + zlen (wire ls) + 11 + zlen d) ls (opt_bytes a f d) r).
  assert (P : ns_initparse m (16 + zlen (wire ls) + 11 + zlen d) = Ok h) by (apply query_initparse; auto; change (zlen m <= INT_MAX); lia).
  destruct (query_question id flags 1 type class (16 + zlen (wire ls) + 11 + zlen d) ls (opt_bytes a f d) r) as [q Q]; auto; [change (zlen m <= INT_MAX); lia|].
  destruct (query_opt id flags 1 type class (16 + zlen (wire ls) + 11 + zlen d) ls (opt_bytes a f d) r) with (a := a) (f := f) (dat := d)
    as [[o O] R]; auto; [change (zlen m <= INT_MAX); lia|].
  exists h, q, o. split_and!; done.
Qed.

(** The OPT record that [res_nopt] appends to a query, and the option that
    [res_nopt_rdata] puts into it, are read back: the message has one more
    additional record, the question is as it was, and the record has the root
    as name, type OPT, the answer size (at most 65535) as class, the DNSSEC flag
    in the TTL, and the option as data. *)
Theorem res_nopt_round_trip (dnssec : bool) id flags ls type class x n0 buflen anslen code data :
  Forall label_ok ls -> zlen (wire ls) <= 255 ->
  0 <= id < 65536 -> 0 <= flags < 65536 -> 0 <= type < 65536 -> 0 <= class < 65536 -> 0 <= anslen ->
  n0 = 16 + zlen (wire ls) -> n0 + 15 + zlen data <= buflen <= n0 + zlen x -> n0 + zlen x <= INT_MAX ->
  zlen data <= 65531 -> bytes_ok x -> bytes_ok data ->
  let buf := header_bytes id flags 1 0 0 0 ++ question_bytes ls type class ++ x in
  let do_flag := if dnssec then NS_OPT_DNSSEC_OK else 0 in
  exists buf1 buf2 h1 h2 q a1 a2,
    res_nopt dnssec n0 buf buflen anslen = Ok (n0 + 11, buf1) /\
    ns_initparse buf1 (n0 + 11) = Ok h1 /\ h1.(m_counts) = [1; 0; 0; 1] /\
    ns_parserr2 h1 3 0 = Ok (a1, inl (mk_rr [0] ns_t_opt (Z.min 65535 anslen) do_flag 0 (Some (n0 + 11)))) /\
    res_nopt_rdata (n0 + 11) buf1 buflen (n0 + 11) code (zlen data) data = Ok (n0 + 15 + zlen data, buf2) /\
    ns_initparse buf2 (n0 + 15 + zlen data) = Ok h2 /\ h2.(m_counts) = [1; 0; 0; 1] /\
    ns_parserr2 h2 ns_s_qd 0 = Ok (q, inl (mk_rr (wire ls) type class 0 0 None)) /\
    ns_parserr2 h2 3 0 = Ok (a2, inl (mk_rr [0] ns_t_opt (Z.min 65535 anslen) do_flag (4 + zlen data) (Some (n0 + 11)))) /\
    rdn buf2 (n0 + 11) (4 + zlen data) = Ok (ns_put16 code ++ ns_put16 (zlen data) ++ data).
Proof.
  intros Hls H255 Hid Hf Ht Hc Ha -> L M D Bx Bd buf do_flag.
  pose proof (zlen_nonneg data). pose proof (zlen_wire_pos ls). set (n0 := 16 + zlen (wire ls)) in *.
  set (dat := ns_put16 code ++ ns_put16 (zlen data) ++ data).
  assert (Ld : zlen dat = 4 + zlen data) by (unfold dat; rewrite !zlen_app, !zlen_put16; lia).
  assert (Bdat : bytes_ok dat) by (unfold dat, bytes_ok; rewrite !Forall_app; split_and!; [apply bytes_put16..|done]).
  assert (L11 : zlen (drop 11 x) = zlen x - 11) by (rewrite zlen_drop; lia).
  assert (Hd : 0 <= do_flag < 65536) by (unfold do_flag; by destruct dnssec).
  set (msg := edns_message id flags ls type class (Z.min 65535 anslen) do_flag).
  assert (E1 : res_nopt dnssec n0 buf buflen anslen = Ok (n0 + 11, msg [] (drop 11 x))).
  { unfold buf. rewrite res_nopt_bytes; [done|rewrite zlen_question; unfold n0; lia|lia..]. }
  assert (E2 : res_nopt_rdata (n0 + 11) (msg [] (drop 11 x)) buflen (n0 + 11) code (zlen data) data =
               Ok (n0 + 15 + zlen data, msg dat (drop (4 + length data) (drop 11 x)))).
  { unfold msg, edns_message. rewrite !(app_assoc (header_bytes _ _ _ _ _ _)).
    rewrite res_nopt_rdata_bytes; rewrite ?zlen_app, ?zlen_header, ?zlen_question; change (zlen (@nil Z)) with 0; try (unfold n0; lia).
    cbn [app]. do 2 f_equal. lia. }
  destruct (edns_parse id flags ls type class (Z.min 65535 anslen) do_flag [] (drop 11 x) (n0 + 11)) as (h1 & q1 & a1 & P1 & C1 & _ & A1 & _);
    auto; try (change (zlen (@nil Z)) with 0); try (unfold n0; lia); [by constructor|by apply Forall_drop|].
  destruct (edns_parse id flags ls type class (Z.min 65535 anslen) do_flag dat (drop (4 + length data) (drop 11 x)) (n0 + 15 + zlen data))
    as (h2 & q2 & a2 & P2 & C2 & Q2 & A2 & R2); auto; try (unfold n0; lia); try (by apply Forall_drop, Forall_drop).
  { rewrite zlen_drop, L11 by (unfold zlen in *; lia). unfold zlen in *. lia. }
  exists (msg [] (drop 11 x)), (msg dat (drop (4 + length data) (drop 11 x))), h1, h2, q2, a1, a2.
  rewrite Ld in A2, R2. split_and!; done.
Qed.

(** ** Witnesses: a query for the address of www.be, with a cookie. *)

Definition www_be : list (list Z) := [str "www"; str "be"].

Ltac closed_fact := first [reflexivity|vm_compute; discriminate|vm_compute; repeat constructor; discriminate|
  split; vm_compute; (discriminate || reflexivity)].

Lemma res_nmkquery_round_trip_witness : exists buf' h h',
  res_nmkquery 4 258 true QUERY (str "www.be") 1 1 None 0 (Some (replicate 40 255)) 30 = Ok (24, buf') /\
  ns_initparse buf' 24 = Ok h /\ ns_parserr2 h ns_s_qd 0 = Ok (h', inl (mk_rr (wire www_be) 1 1 0 0 None)).
Proof.
  destruct (res_nmkquery_round_trip 4 258 true QUERY www_be 1 1 0 (replicate 40 255) 30)
    as (buf' & h & h' & E & _ & P & _ & _ & _ & _ & R); [by left|closed_fact..|].
  exists buf', h, h'. split; [exact E|]. split; [exact P|exact R].
Defined.

Lemma res_nopt_round_trip_witness : exists buf1 buf2 h2 a2,
  res_nopt true 24 (header_bytes 258 256 1 0 0 0 ++ question_bytes www_be 1 1 ++ replicate 60 0) 84 4096 = Ok (35, buf1) /\
  res_nopt_rdata 35 buf1 84 35 10 8 (str "cookie42") = Ok (47, buf2) /\
  ns_parserr2 h2 3 0 = Ok (a2, inl (mk_rr [0] ns_t_opt 4096 NS_OPT_DNSSEC_OK 12 (Some 35))).
Proof.
  destruct (res_nopt_round_trip true 258 256 www_be 1 1 (replicate 60 0) 24 84 4096 10 (str "cookie42"))
    as (buf1 & buf2 & h1 & h2 & q & a1 & a2 & E1 & _ & _ & _ & E2 & _ & _ & _ & A & _); [closed_fact..|].
  exists buf1, buf2, h2, a2. split; [exact E1|]. split; [exact E2|exact A].
Defined.
