(* ===== verification/NsTtl.v ===== *)
(** * nameser/ns_ttl.c: times to live in text

    [ns_format_ttl] and [ns_parse_ttl].  [u_long] has 64 bits; a return of -1
    that leaves [errno] alone is [None].  The theorem is the round trip. *)
From Stdlib Require Import ZArith Lia List Bool String.
From stdpp Require Import base tactics list numbers.
From S2P Require Import Prelude CText.
Local Open Scope Z_scope.
Local Open Scope c_scope.

(** [fmt1]: the text written so far and the room that is left. *)
Definition fmt1 (t : Z) (s : Z) (st : list Z * Z) : option (list Z * Z) :=
  let '(buf, buflen) := st in
  let tmp := fmt_d t ++ [s] in
  let len := zlen tmp in
  if buflen <? len + 1 then None
  else Some (buf ++ tmp, buflen - len).

(** [if (t) { T(fmt1(t, s, &dst, &dstlen)); x++; }] *)
Definition fmt_unit (cond : bool) (t s : Z) (st : option (list Z * Z * Z))
    : option (list Z * Z * Z) :=
  match st with
  | None => None
  | Some (buf, buflen, x) =>
      if cond then
        match fmt1 t s (buf, buflen) with
        | None => None
        | Some (buf, buflen) => Some (buf, buflen, x + 1)
        end
      else Some (buf, buflen, x)
  end.

Definition nonzero (t : Z) : bool := negb (t =? 0).

(** The text in [dst]; the return value is its length. *)
Definition ns_format_ttl (src dstlen : Z) : option (list Z) :=
  let secs := i32 (src mod 60) in let src := src / 60 in
  let mins := i32 (src mod 60) in let src := src / 60 in
  let hours := i32 (src mod 24) in let src := src / 24 in
  let days := i32 (src mod 7) in let src := src / 7 in
  let weeks := i32 src in
  let st := Some ([], dstlen, 0) in
  let st := fmt_unit (nonzero weeks) weeks 87 st in
  let st := fmt_unit (nonzero days) days 68 st in
  let st := fmt_unit (nonzero hours) hours 72 st in
  let st := fmt_unit (nonzero mins) mins 77 st in
  let st := fmt_unit (nonzero secs ||
                      negb (nonzero weeks || nonzero days || nonzero hours || nonzero mins))
                     secs 83 st in
  match st with
  | None => None
  | Some (buf, _, x) =>
      if 1 <? x then
        Some (map (fun ch => if isascii ch && isupper ch then tolower ch else ch) buf)
      else Some buf
  end.

(** The [switch]: how many seconds the unit stands for, by falling through. *)
Definition ttl_unit (ch : Z) (tmp : Z) : option Z :=
  if ch =? 87 then Some (u64 (u64 (u64 (u64 (tmp * 7) * 24) * 60) * 60))
  else if ch =? 68 then Some (u64 (u64 (u64 (tmp * 24) * 60) * 60))
  else if ch =? 72 then Some (u64 (u64 (tmp * 60) * 60))
  else if ch =? 77 then Some (u64 (tmp * 60))
  else if ch =? 83 then Some tmp
  else None.

Fixpoint parse_ttl_loop (src : list Z) (ttl tmp digits : Z) (dirty : bool) : outcome Z :=
  match src with
  | [] =>
      if 0 <? digits then
        if dirty then Err EINVAL else Ok (u64 (ttl + tmp))
      else if negb dirty then Err EINVAL
      else Ok ttl
  | b :: src =>
      let ch := schar b in
      if negb (isascii ch) || negb (isprint ch) then Err EINVAL
      else if isdigit ch then
        parse_ttl_loop src ttl (u64 (u64 (tmp * 10) + (ch - 48))) (digits + 1) dirty
      else if digits =? 0 then Err EINVAL
      else
        let ch := if islower ch then toupper ch else ch in
        match ttl_unit ch tmp with
        | None => Err EINVAL
        | Some tmp => parse_ttl_loop src (u64 (ttl + tmp)) 0 0 true
        end
  end.

Definition ns_parse_ttl (src : list Z) : outcome Z := parse_ttl_loop src 0 0 0 false.

(** ** The round trip *)

Lemma u64_u64_mul x k d : u64 (u64 (x * k) + d) = u64 (x * k + d).
Proof. unfold u64, uwrap. by rewrite Zplus_mod_idemp_l. Qed.

Lemma digit_char_parse d :
  0 <= d < 10 ->
  digit_char d = 48 + d /\ schar (48 + d) = 48 + d /\
  negb (isascii (48 + d)) || negb (isprint (48 + d)) = false /\ isdigit (48 + d) = true.
Proof.
  intros H. rewrite digit_char_u by done. split; [done|].
  unfold schar, isascii, isprint, isdigit. by bdecide.
Qed.

Lemma parse_digits ds : forall rest ttl tmp digits dirty,
  Forall (fun d => 0 <= d < 10) ds -> 0 <= tmp ->
  parse_ttl_loop (map digit_char ds ++ rest) ttl (u64 tmp) digits dirty =
  parse_ttl_loop rest ttl (u64 (fold_left (fun a d => a * 10 + d) ds tmp)) (digits + zlen ds) dirty.
Proof.
  induction ds as [|d ds IH]; intros rest ttl tmp digits dirty Hds Ht.
  { cbn. by rewrite Z.add_0_r. }
  inversion Hds as [|? ? Hd Hds']; subst. cbn [map app parse_ttl_loop].
  destruct (digit_char_parse d Hd) as (-> & -> & -> & ->). cbn [fold_left].
  replace (u64 (u64 (u64 tmp * 10) + (48 + d - 48))) with (u64 (tmp * 10 + d)).
  - rewrite IH by (done || lia). f_equal. zl.
  - rewrite u64_u64_mul. unfold u64, uwrap.
    rewrite (Zplus_mod (tmp mod 2 ^ 64 * 10)), Zmult_mod_idemp_l, <- Zplus_mod. f_equal. lia.
Qed.

Lemma parse_number t rest ttl dirty :
  0 <= t <= INT_MAX ->
  parse_ttl_loop (fmt_d t ++ rest) ttl 0 0 dirty =
  parse_ttl_loop rest ttl t (zlen (digits_of 20 10 t)) dirty.
Proof.
  intros Ht. unfold fmt_d. rewrite (proj2 (Z.ltb_ge _ _)) by lia. unfold fmt_u.
  pose proof (parse_digits (digits_of 20 10 t) rest ttl 0 0 dirty) as Hp.
  change (u64 0) with 0 in Hp. rewrite Hp by (try apply digits_of_range; lia).
  fold (number 10 (digits_of 20 10 t)). unfold INT_MAX in Ht.
  rewrite digits_of_number by lia. unfold u64. rewrite uwrap_id by lia. done.
Qed.

Lemma digits_of_pos v : 0 < zlen (digits_of 20 10 v).
Proof.
  pose proof (digits_of_nonnil 19 10 v) as H. zlen_facts.
  destruct (digits_of 20 10 v); [done|zl].
Qed.

(** Units in the order they are printed, with their letter and value. *)
Definition unit_ok (s k : Z) : Prop :=
  (s = 87 /\ k = 604800) \/ (s = 68 /\ k = 86400) \/ (s = 72 /\ k = 3600) \/
  (s = 77 /\ k = 60) \/ (s = 83 /\ k = 1).

Lemma ttl_unit_value s k t :
  unit_ok s k -> 0 <= t -> t * k < 2 ^ 64 -> ttl_unit s t = Some (t * k).
Proof.
  intros Hu Ht Hk. unfold ttl_unit.
  destruct Hu as [[-> ->]|[[-> ->]|[[-> ->]|[[-> ->]|[-> ->]]]]]; bdecide; f_equal;
    unfold u64; repeat uwrap_inner; lia.
Qed.

(** The text of one unit, as printed and in lower case. *)
Lemma parse_unit (low : bool) s k t rest ttl dirty :
  unit_ok s k -> 0 <= t <= INT_MAX -> 0 <= ttl -> ttl + t * k < 2 ^ 64 ->
  parse_ttl_loop (fmt_d t ++ (if low then s + 32 else s) :: rest) ttl 0 0 dirty =
  parse_ttl_loop rest (ttl + t * k) 0 0 true.
Proof.
  intros Hu Ht Httl Hk. rewrite parse_number by done. cbn [parse_ttl_loop].
  pose proof (digits_of_pos t).
  assert (Hc : forall c, c = s \/ c = s + 32 ->
    schar c = c /\ negb (isascii c) || negb (isprint c) = false /\ isdigit c = false /\
    (if islower c then toupper c else c) = s).
  { intros c Hc. unfold unit_ok in Hu.
    destruct Hc as [-> | ->]; destruct Hu as [[-> _]|[[-> _]|[[-> _]|[[-> _]|[-> _]]]]];
      vm_compute; done. }
  destruct (Hc (if low then s + 32 else s)) as (-> & -> & -> & ->); [destruct low; auto|].
  bdecide. rewrite (ttl_unit_value s k t) by (done || lia). unfold u64.
  rewrite uwrap_id; [done|]. destruct Hu as [[_ ->]|[[_ ->]|[[_ ->]|[[_ ->]|[_ ->]]]]]; lia.
Qed.

(** What is printed: for each unit that is not zero its number and letter. *)
Fixpoint units_text (low : bool) (us : list (Z * Z * Z)) : list Z :=
  match us with
  | [] => []
  | (t, s, k) :: us => fmt_d t ++ (if low then s + 32 else s) :: units_text low us
  end.

Definition units_value (us : list (Z * Z * Z)) : Z :=
  fold_right (fun '(t, s, k) a => t * k + a) 0 us.

Definition units_ok (us : list (Z * Z * Z)) : Prop :=
  Forall (fun '(t, s, k) => unit_ok s k /\ 0 <= t <= INT_MAX) us.

Lemma units_value_nonneg us : units_ok us -> 0 <= units_value us.
Proof.
  induction 1 as [|[[t s] k] us [Hu Ht] _ IH]; [done|]. cbn. fold (units_value us) in *.
  destruct Hu as [[_ ->]|[[_ ->]|[[_ ->]|[[_ ->]|[_ ->]]]]]; lia.
Qed.

Lemma parse_units low us : forall ttl,
  units_ok us -> us <> [] -> 0 <= ttl -> ttl + units_value us < 2 ^ 64 ->
  forall dirty, parse_ttl_loop (units_text low us) ttl 0 0 dirty = Ok (ttl + units_value us).
Proof.
  induction us as [|[[t s] k] us IH]; intros ttl Hok Hne Httl Hv dirty; [done|].
  inversion Hok as [|? ? Hx Hok']; subst. cbn in Hx, Hv. destruct Hx as [Hu Ht]. fold (units_value us) in Hv.
  pose proof (units_value_nonneg us Hok').
  assert (0 <= t * k) by (destruct Hu as [[_ ->]|[[_ ->]|[[_ ->]|[[_ ->]|[_ ->]]]]]; lia).
  cbn [units_text]. rewrite (parse_unit low s k) by (done || lia).
  cbn. fold (units_value us). destruct us as [|u us].
  - cbn. f_equal. lia.
  - rewrite IH by (done || lia). f_equal. lia.
Qed.

(** The calls of [fmt1]: the units that are printed. *)
Definition fmt_units (us : list (Z * Z * Z)) (dstlen : Z) : option (list Z * Z * Z) :=
  fold_left (fun st '(t, s, k) => fmt_unit true t s st) us (Some ([], dstlen, 0)).

Lemma fmt_units_snoc us t s k dstlen :
  fmt_units (us ++ [(t, s, k)]) dstlen = fmt_unit true t s (fmt_units us dstlen).
Proof. unfold fmt_units. by rewrite fold_left_app. Qed.

Lemma units_text_snoc low us t s k :
  units_text low (us ++ [(t, s, k)]) = units_text low us ++ fmt_d t ++ [if low then s + 32 else s].
Proof.
  induction us as [|[[t' s'] k'] us IH]; [done|]. cbn. by rewrite IH, <- app_assoc.
Qed.

Lemma units_value_app us vs : units_value (us ++ vs) = units_value us + units_value vs.
Proof.
  unfold units_value. rewrite fold_right_app.
  induction us as [|[[t s] k] us IH]; cbn; [done|]. rewrite IH. lia.
Qed.

Lemma fmt_units_spec us dstlen :
  us <> [] ->
  fmt_units us dstlen =
  if zlen (units_text false us) <? dstlen
  then Some (units_text false us, dstlen - zlen (units_text false us), zlen us) else None.
Proof.
  induction us as [|[[t s] k] us IH] using rev_ind; [done|]. intros _.
  rewrite fmt_units_snoc, units_text_snoc.
  assert (E : fmt_units us dstlen =
    if (zlen us =? 0) || (zlen (units_text false us) <? dstlen)
    then Some (units_text false us, dstlen - zlen (units_text false us), zlen us) else None).
  { destruct us as [|u us]; [cbn; by rewrite Z.sub_0_r|].
    rewrite IH by done. bdecide. done. }
  clear IH. rewrite E. clear E. unfold fmt_unit, fmt1.
  pose proof (zlen_nonneg (fmt_d t)). set (n := zlen (units_text false us)) in *.
  destruct ((zlen us =? 0) || (n <? dstlen)) eqn:Ec.
  - rewrite (zlen_app (fmt_d t)). change (zlen [s]) with 1.
    destruct (Z.ltb_spec (dstlen - n) (zlen (fmt_d t) + 1 + 1)); bdecide; [done|].
    do 2 f_equal; [f_equal|]; subst n; zl.
  - apply orb_false_iff in Ec as [_ Ec]. zbool. subst n. by bdecide.
Qed.

(** The units of a time, in order: those that are not zero, or the seconds. *)
Definition unit_if (cond : bool) (t s k : Z) : list (Z * Z * Z) := if cond then [(t, s, k)] else [].

Lemma fmt_unit_if cond t s k us dstlen :
  fmt_unit cond t s (fmt_units us dstlen) = fmt_units (us ++ unit_if cond t s k) dstlen.
Proof.
  destruct cond; cbn [unit_if]; [by rewrite fmt_units_snoc|]. rewrite app_nil_r.
  by destruct (fmt_units us dstlen) as [[[b r] x]|].
Qed.

Lemma i32_id x : 0 <= x <= INT_MAX -> i32 x = x.
Proof. unfold INT_MAX. intros H. unfold i32, swrap. rewrite Z.mod_small by lia. lia. Qed.

Lemma fmt_d_lower t :
  0 <= t -> map (fun ch => if isascii ch && isupper ch then tolower ch else ch) (fmt_d t) = fmt_d t.
Proof.
  intros Ht. unfold fmt_d. bdecide. unfold fmt_u. rewrite map_map. apply map_ext_in.
  intros d Hd. assert (0 <= d < 10).
  { pose proof (digits_of_range 20 10 t ltac:(lia) Ht) as Hr. rewrite List.Forall_forall in Hr.
    by apply Hr. }
  rewrite digit_char_u by done. unfold isupper. bdecide. by rewrite andb_false_r.
Qed.

Lemma units_text_lower us :
  units_ok us ->
  map (fun ch => if isascii ch && isupper ch then tolower ch else ch) (units_text false us) =
  units_text true us.
Proof.
  induction 1 as [|[[t s] k] us [Hu Ht] _ IH]; [done|]. cbn [units_text].
  rewrite map_app, fmt_d_lower by lia. cbn [map]. rewrite IH. do 2 f_equal.
  destruct Hu as [[-> _]|[[-> _]|[[-> _]|[[-> _]|[-> _]]]]]; reflexivity.
Qed.

Definition ttl_units (v : Z) : list (Z * Z * Z) :=
  let secs := v mod 60 in let mins := v / 60 mod 60 in let hours := v / 60 / 60 mod 24 in
  let days := v / 60 / 60 / 24 mod 7 in let weeks := v / 60 / 60 / 24 / 7 in
  unit_if (nonzero weeks) weeks 87 604800 ++ unit_if (nonzero days) days 68 86400 ++
  unit_if (nonzero hours) hours 72 3600 ++ unit_if (nonzero mins) mins 77 60 ++
  unit_if (nonzero secs || negb (nonzero weeks || nonzero days || nonzero hours || nonzero mins))
    secs 83 1.

Lemma unit_if_ok cond t s k : unit_ok s k -> 0 <= t <= INT_MAX -> units_ok (unit_if cond t s k).
Proof. intros. unfold unit_if. destruct cond; constructor; [tauto|constructor]. Qed.

Lemma ttl_units_ok v : 0 <= v -> v / 604800 <= INT_MAX -> units_ok (ttl_units v).
Proof.
  intros Hv Hw. unfold units_ok, ttl_units, INT_MAX in *.
  repeat (apply Forall_app; split); apply unit_if_ok; try (unfold unit_ok; lia);
    unfold INT_MAX; Z.to_euclidean_division_equations; lia.
Qed.

Lemma unit_if_value t s k : units_value (unit_if (nonzero t) t s k) = t * k.
Proof. unfold unit_if, nonzero. destruct (Z.eqb_spec t 0) as [->|]; cbn; lia. Qed.

Lemma ttl_units_value v : units_value (ttl_units v) = v.
Proof.
  unfold ttl_units. rewrite !units_value_app, !unit_if_value.
  match goal with |- context [unit_if (?a || ?b) ?t ?s ?k] =>
    replace (units_value (unit_if (a || b) t s k)) with t end.
  - Z.to_euclidean_division_equations; lia.
  - unfold nonzero at 1. destruct (Z.eqb_spec (v mod 60) 0) as [->|]; cbn [negb orb]; [|cbn; lia].
    unfold unit_if. by destruct (negb _).
Qed.

Lemma ttl_units_nonnil v : ttl_units v <> [].
Proof.
  unfold ttl_units. do 4 (destruct (nonzero _); [done|]). by rewrite orb_true_r.
Qed.

Lemma ns_format_ttl_units v dstlen (us := ttl_units v) (s := units_text (1 <? zlen us) us) :
  0 <= v -> v / 604800 <= INT_MAX ->
  ns_format_ttl v dstlen = if zlen s <? dstlen then Some s else None.
Proof.
  intros Hv Hw.
  assert (Hi : forall x, 0 <= x <= INT_MAX -> i32 x = x) by apply i32_id.
  assert (Hok : units_ok us) by (by apply ttl_units_ok).
  unfold ns_format_ttl. unfold INT_MAX in *.
  rewrite !Hi by (Z.to_euclidean_division_equations; lia).
  change (Some ([], dstlen, 0)) with (fmt_units [] dstlen).
  rewrite (fmt_unit_if _ _ _ 604800), (fmt_unit_if _ _ _ 86400), (fmt_unit_if _ _ _ 3600),
    (fmt_unit_if _ _ _ 60), (fmt_unit_if _ _ _ 1).
  cbn [app]. rewrite <- !app_assoc. fold (ttl_units v). fold us.
  rewrite fmt_units_spec by apply ttl_units_nonnil.
  assert (Hs : zlen s = zlen (units_text false us)).
  { subst s. destruct (1 <? zlen us); [|done].
    rewrite <- units_text_lower by done. unfold zlen. by rewrite length_map. }
  rewrite Hs. bcase; [|done]. subst s. destruct (1 <? zlen us); [|done].
  by rewrite units_text_lower.
Qed.

(** Formatting and parsing a time to live agree.  Whatever number of
    seconds [ns_format_ttl] is given (with a number of weeks that is an
    [int]), there is one text for it: [ns_format_ttl] writes that text
    exactly when it fits the buffer with its terminator, and [ns_parse_ttl]
    reads the number back from it. *)
Theorem ns_ttl_round_trip v :
  0 <= v < 2 ^ 64 -> v / 604800 <= INT_MAX ->
  exists s,
    (forall dstlen, ns_format_ttl v dstlen = if zlen s <? dstlen then Some s else None) /\
    ns_parse_ttl s = Ok v.
Proof.
  intros Hv Hw. exists (units_text (1 <? zlen (ttl_units v)) (ttl_units v)).
  split; [intros; apply ns_format_ttl_units; lia|].
  pose proof (ttl_units_value v) as Ev. unfold ns_parse_ttl.
  rewrite parse_units; [by rewrite Ev|apply ttl_units_ok; lia|apply ttl_units_nonnil|lia|lia].
Qed.

(** A day, an hour and five seconds: ["1d1h5s"]. *)
Lemma ns_ttl_round_trip_witness :
  ns_format_ttl 90005 7 = Some (str "1d1h5s") /\ ns_format_ttl 90005 6 = None /\
  exists s, ns_format_ttl 90005 100 = Some s /\ ns_parse_ttl s = Ok 90005.
Proof.
  split; [reflexivity|]. split; [reflexivity|].
  destruct (ns_ttl_round_trip 90005) as (s & H & Hp);
    [lia|vm_compute; discriminate|].
  exists s. split; [|exact Hp].
  pose proof (H 7) as H7. rewrite (H 100). revert H7.
  destruct (Z.ltb_spec (zlen s) 7), (Z.ltb_spec (zlen s) 100); (reflexivity || discriminate || lia).
Defined.
