(* ===== verification/Base64.v ===== *)
(** * irs/base64.c: base 64

    [b64_ntop] and [b64_pton].  The text is a C string; the source of
    [b64_ntop] is the list of its bytes, the target of [b64_pton] an object
    of [targsize] bytes that is written in place.  Both return -1 without
    setting [errno].  What follows a pad character is read as a plain [char],
    so that [isspace] is undefined for some of it. *)
From Stdlib Require Import ZArith Lia List Bool String.
From stdpp Require Import base tactics list numbers.
From S2P Require Import Prelude CText.
Local Open Scope Z_scope.
Local Open Scope c_scope.

Definition Base64 : list Z :=
  str "ABCDEFGHIJKLMNOPQRSTUVWXYZabcdefghijklmnopqrstuvwxyz0123456789+/".
Definition Pad64 : Z := 61.

Definition output0 (a : Z) : Z := u8 (Z.shiftr a 2).
Definition output1 (a b : Z) : Z := u8 (Z.shiftl (Z.land a 3) 4 + Z.shiftr b 4).
Definition output2 (b c : Z) : Z := u8 (Z.shiftl (Z.land b 15) 2 + Z.shiftr c 6).
Definition output3 (c : Z) : Z := Z.land c 63.

(** [Assert(v < 64)], then [Base64[v]]. *)
Definition digit64 (v : Z) : outcome Z :=
  cassert (v <? 64);;;
  rd Base64 v.

(** The loop over whole groups of three bytes; what is left, and the text. *)
Fixpoint b64_ntop_loop (targsize : Z) (src target : list Z) : outcome (list Z * list Z) :=
  match src with
  | a :: b :: c :: src =>
      c0 <- digit64 (output0 a);;
      c1 <- digit64 (output1 a b);;
      c2 <- digit64 (output2 b c);;
      c3 <- digit64 (output3 c);;
      if targsize <? zlen target + 4 then Err ENONE
      else
        target <- pushn targsize target [c0; c1; c2; c3];;
        b64_ntop_loop targsize src target
  | _ => Ok (src, target)
  end.

(** "Now we worry about padding": the one or two bytes that are left. *)
Definition b64_ntop_pad (targsize : Z) (src target : list Z) : outcome (list Z) :=
  match src with
  | [] => Ok target
  | a :: src' =>
      let b := default 0 (head src') in
      c0 <- digit64 (output0 a);;
      c1 <- digit64 (output1 a b);;
      c2 <- digit64 (output2 b 0);;
      if targsize <? zlen target + 4 then Err ENONE
      else pushn targsize target [c0; c1; if zlen src =? 1 then Pad64 else c2; Pad64]
  end.

(** The result is the text; the code returns its length. *)
Definition b64_ntop (src : list Z) (targsize : Z) : outcome (list Z) :=
  r <- b64_ntop_loop targsize src [];;
  let '(src, target) := r in
  target <- b64_ntop_pad targsize src target;;
  if targsize <=? zlen target then Err ENONE
  else
    pushn targsize target [0];;;
    cassert (zlen target <=? INT_MAX);;;
    Ok target.

(** [target[i] |= v] *)
Definition or_at (target : list Z) (i v : Z) : outcome (list Z) :=
  x <- rd target i;;
  wr target i (u8 (Z.lor x v)).

Record b64_state := B64State {
  b64_automaton : Z;       (* [state] *)
  b64_tarindex : Z;
  b64_target : list Z }.

(** One digit, with value [pos - Base64]. *)
Definition b64_digit (pos : Z) (s : b64_state) : outcome b64_state :=
  let '(B64State state tarindex target) := s in
  let targsize := zlen target in
  if state =? 0 then
    if targsize <=? tarindex then Err ENONE
    else
      target <- wr target tarindex (u8 (Z.shiftl (u8 pos) 2));;
      Ok (B64State 1 tarindex target)
  else if state =? 1 then
    if targsize <=? tarindex + 1 then Err ENONE
    else
      target <- or_at target tarindex (Z.shiftr pos 4);;
      target <- wr target (tarindex + 1) (u8 (Z.shiftl (Z.land pos 15) 4));;
      Ok (B64State 2 (tarindex + 1) target)
  else if state =? 2 then
    if targsize <=? tarindex + 1 then Err ENONE
    else
      target <- or_at target tarindex (Z.shiftr pos 2);;
      target <- wr target (tarindex + 1) (u8 (Z.shiftl (Z.land pos 3) 6));;
      Ok (B64State 3 (tarindex + 1) target)
  else if state =? 3 then
    if targsize <=? tarindex then Err ENONE
    else
      target <- or_at target tarindex (u8 pos);;
      Ok (B64State 0 (tarindex + 1) target)
  else Fault.

(** The loop: the character it ends with, what follows it, and the state. *)
Fixpoint b64_pton_loop (src : list Z) (s : b64_state) : outcome (Z * list Z * b64_state) :=
  match src with
  | [] => Ok (0, [], s)
  | ch :: src =>
      if isspace ch then b64_pton_loop src s
      else if ch =? Pad64 then Ok (ch, src, s)
      else
        match strchr Base64 ch with
        | None => Err ENONE
        | Some pos => s <- b64_digit pos s;; b64_pton_loop src s
        end
  end.

(** [ch = ( u_char ) *src++] until it is no white space: what is left then,
    from that character on. *)
Fixpoint skip_space (src : list Z) : list Z :=
  match src with
  | [] => []
  | ch :: src' => if isspace ch then skip_space src' else src
  end.

(** [ch = *src++; for (; ch != '\0'; ch = (u_char) *src++) if (!isspace(ch)) break;]:
    the first character, behind a pad character, is a plain [char]. *)
Definition skip_plain (src : list Z) : outcome (list Z) :=
  match src with
  | [] => Ok []
  | ch :: src' =>
      c <- ctype_arg ch;;
      Ok (if isspace c then skip_space src' else src)
  end.

(** "Is there anything but whitespace after it?", and the check of the bits
    that slopped past the last full byte. *)
Definition b64_pad_end (src : list Z) (s : b64_state) : outcome unit :=
  src <- skip_plain src;;
  match src with
  | _ :: _ => Err ENONE
  | [] =>
      x <- rd (b64_target s) (b64_tarindex s);;
      if negb (x =? 0) then Err ENONE else Ok tt
  end.

(** After the first pad character. *)
Definition b64_pad (src : list Z) (s : b64_state) : outcome unit :=
  let state := b64_automaton s in
  if (state =? 0) || (state =? 1) then Err ENONE
  else if state =? 2 then
    src <- skip_plain src;;
    match src with
    | ch :: src => if negb (ch =? Pad64) then Err ENONE else b64_pad_end src s
    | [] => Err ENONE
    end
  else b64_pad_end src s.

(** The number of bytes stored, and the target. *)
Definition b64_pton (src target : list Z) : outcome (Z * list Z) :=
  r <- b64_pton_loop src (B64State 0 0 target);;
  let '(ch, src, s) := r in
  (if ch =? Pad64 then b64_pad src s
   else if negb (b64_automaton s =? 0) then Err ENONE else Ok tt);;;
  cassert (b64_tarindex s <=? INT_MAX);;;
  Ok (b64_tarindex s, b64_target s).

Example b64_ntop_ex : b64_ntop (str "any carnal pleas") 25 = Ok (str "YW55IGNhcm5hbCBwbGVhcw==").
Proof. reflexivity. Qed.
Example b64_pton_ex :
  b64_pton (str " YQ= = ") [7; 7; 7] = Ok (1, [97; 0; 7]) /\ b64_pton (str "YR==") [7; 7; 7] = Err ENONE /\
  b64_pton (str "YQ= " ++ [128]) [7; 7; 7] = Err ENONE /\ b64_pton (str "YQ=" ++ [128]) [7; 7; 7] = Fault.
Proof. by vm_compute. Qed.

(** ** The encoding *)

Definition char64 (v : Z) : Z := nth (Z.to_nat v) Base64 0.

(** The text of a list of bytes. *)
Fixpoint enc64 (src : list Z) : list Z :=
  match src with
  | [] => []
  | [a] => [char64 (a / 4); char64 (a mod 4 * 16); Pad64; Pad64]
  | [a; b] => [char64 (a / 4); char64 (a mod 4 * 16 + b / 16); char64 (b mod 16 * 4); Pad64]
  | a :: b :: c :: src =>
      [char64 (a / 4); char64 (a mod 4 * 16 + b / 16); char64 (b mod 16 * 4 + c / 64);
       char64 (c mod 64)] ++ enc64 src
  end.

(** A text without its white space. *)
Definition strip (s : list Z) : list Z := List.filter (fun c => negb (isspace c)) s.

(** What decoding leaves in the target: the bytes, and a zero after them when
    they do not fill the last group. *)
Fixpoint fill (src target : list Z) : option (list Z) :=
  match src, target with
  | [], _ => Some target
  | [a], _ :: _ :: target => Some (a :: 0 :: target)
  | [a; b], _ :: _ :: _ :: target => Some (a :: b :: 0 :: target)
  | a :: b :: c :: src, _ :: _ :: _ :: target => (fun t => a :: b :: c :: t) <$> fill src target
  | _, _ => None
  end.

Lemma triple_ind (P : list Z -> Prop) :
  P [] -> (forall a, P [a]) -> (forall a b, P [a; b]) ->
  (forall a b c l, P l -> P (a :: b :: c :: l)) -> forall l, P l.
Proof.
  intros H0 H1 H2 H3. fix IH 1. intros [|a [|b [|c l]]]; [done|apply H1|apply H2|apply H3, IH].
Qed.

Lemma char64_digit v : 0 <= v < 64 -> digit64 v = Ok (char64 v).
Proof.
  intros Hv. apply (forall_upto (fun v => bool_decide (digit64 v = Ok (char64 v))) 64) in Hv;
    [by apply bool_decide_eq_true in Hv|reflexivity].
Qed.

Lemma char64_spec v :
  0 <= v < 64 ->
  strchr Base64 (char64 v) = Some v /\ isspace (char64 v) = false /\ (char64 v =? Pad64) = false.
Proof.
  intros Hv.
  apply (forall_upto (fun v => bool_decide (strchr Base64 (char64 v) = Some v) &&
    negb (isspace (char64 v)) && negb (char64 v =? Pad64)) 64) in Hv; [|reflexivity].
  apply andb_true_iff in Hv as [[H1 H2]%andb_true_iff H3].
  apply bool_decide_eq_true in H1. apply negb_true_iff in H2, H3. done.
Qed.

Lemma strchr_nth s : forall c i, c <> 0 -> strchr s c = Some i ->
  0 <= i < zlen s /\ nth (Z.to_nat i) s 0 = c.
Proof.
  induction s as [|b s IH]; intros c i Hc; cbn [strchr]; [by destruct (Z.eqb_spec c 0)|].
  destruct (Z.eqb_spec b c) as [->|Hb]; [intros [= <-]; split; [zl|done]|].
  destruct (strchr s c) as [j|] eqn:E; [|done]. cbn. intros [= <-].
  destruct (IH c j Hc E) as [Hj <-]. split; [zl|].
  by replace (Z.to_nat (Z.succ j)) with (S (Z.to_nat j)) by lia.
Qed.

Lemma strchr_char64 c v : c <> 0 -> strchr Base64 c = Some v -> 0 <= v < 64 /\ c = char64 v.
Proof. intros Hc H. by destruct (strchr_nth _ _ _ Hc H) as [? <-]. Qed.

Lemma outputs a b c :
  byte_ok a -> byte_ok b -> byte_ok c ->
  output0 a = a / 4 /\ output1 a b = a mod 4 * 16 + b / 16 /\
  output2 b c = b mod 16 * 4 + c / 64 /\ output3 c = c mod 64.
Proof.
  intros Ha Hb Hc. unfold byte_ok in *. unfold output0, output1, output2, output3, u8.
  change 3 with (Z.ones 2). change 15 with (Z.ones 4). change 63 with (Z.ones 6).
  rewrite !Z.land_ones, !Z.shiftr_div_pow2, !Z.shiftl_mul_pow2 by lia.
  rewrite !uwrap_id by (Z.to_euclidean_division_equations; lia). done.
Qed.

(** ** Encoding *)

Lemma b64_ntop_from targsize src : forall target,
  bytes_ok src ->
  (r <- b64_ntop_loop targsize src target;;
   let '(src, target) := r in b64_ntop_pad targsize src target) =
  if targsize <? zlen target + zlen (enc64 src) then
    if decide (src = []) then Ok target else Err ENONE
  else Ok (target ++ enc64 src).
Proof.
  induction src as [|a|a b|a b c src IH] using triple_ind; intros target Hs.
  - cbn [b64_ntop_loop obind b64_ntop_pad enc64]. rewrite app_nil_r, decide_True by done.
    by destruct (_ <? _).
  - apply Forall_cons_iff in Hs as [Ha _]. cbn [b64_ntop_loop obind b64_ntop_pad head default].
    destruct (outputs a 0 0 Ha) as (-> & -> & -> & _); [done|done|].
    unfold byte_ok in *.
    rewrite !char64_digit by (Z.to_euclidean_division_equations; lia).
    cbn [obind]. change (zlen [a] =? 1) with true. cbn [enc64].
    change (zlen [_; _; _; _]) with 4. destruct (Z.ltb_spec targsize (zlen target + 4)); [done|].
    rewrite pushn_ok by zl. change (0 / 16) with 0. by rewrite Z.add_0_r.
  - apply Forall_cons_iff in Hs as [Ha [Hb _]%Forall_cons_iff].
    cbn [b64_ntop_loop obind b64_ntop_pad]. change (default 0 (head [b])) with b.
    destruct (outputs a b 0 Ha Hb) as (-> & -> & -> & _); [unfold byte_ok; lia|].
    unfold byte_ok in *.
    rewrite !char64_digit by (Z.to_euclidean_division_equations; lia).
    cbn [obind]. change (zlen [a; b] =? 1) with false. cbn [enc64].
    change (zlen [_; _; _; _]) with 4. destruct (Z.ltb_spec targsize (zlen target + 4)); [done|].
    rewrite pushn_ok by zl. change (0 / 64) with 0. by rewrite Z.add_0_r.
  - apply Forall_cons_iff in Hs as [Ha [Hb [Hc Hs]%Forall_cons_iff]%Forall_cons_iff].
    cbn [b64_ntop_loop enc64]. destruct (outputs a b c Ha Hb Hc) as (-> & -> & -> & ->).
    unfold byte_ok in *.
    rewrite !char64_digit by (Z.to_euclidean_division_equations; lia). cbn [obind].
    rewrite decide_False by done. pose proof (zlen_nonneg (enc64 src)).
    rewrite zlen_app. change (zlen [_; _; _; _]) with 4.
    destruct (Z.ltb_spec targsize (zlen target + 4)); cbn [obind]; [by bdecide|].
    rewrite pushn_ok by zl. cbn [obind]. rewrite IH by done.
    rewrite zlen_app. change (zlen [_; _; _; _]) with 4. rewrite <- !app_assoc, !Z.add_assoc.
    destruct (Z.ltb_spec targsize (zlen target + 4 + zlen (enc64 src))); [|done].
    destruct (decide (src = [])) as [->|]; [|done]. change (zlen (enc64 [])) with 0 in *. lia.
Qed.

(** Encoding writes the base 64 text of the bytes, with its padding, when
    the text and its terminator fit the target, and fails otherwise; it never
    writes outside the target, and none of its assertions fails. *)
Theorem b64_ntop_correct src targsize :
  bytes_ok src -> zlen (enc64 src) <= INT_MAX ->
  b64_ntop src targsize =
  if targsize <=? zlen (enc64 src) then Err ENONE else Ok (enc64 src).
Proof.
  intros Hs Hmax. pose proof (b64_ntop_from targsize src [] Hs) as H.
  unfold b64_ntop. destruct (b64_ntop_loop targsize src []) as [[src' target]|e| |]; cbn [obind] in *;
    [rewrite H|..].
  all: revert H; change (zlen (@nil Z)) with 0; rewrite ?Z.add_0_l;
    destruct (Z.ltb_spec targsize (zlen (enc64 src)));
    [destruct (decide (src = [])) as [->|]|]; intros Heq; try discriminate Heq.
  all: cbn [obind app].
  - by bdecide.
  - by bdecide.
  - bcase; [done|]. rewrite pushn_ok by zl. cbn [obind]. unfold cassert. by bdecide.
  - injection Heq as <-. by bdecide.
Qed.

(** Three bytes and one over. *)
Lemma b64_ntop_correct_witness :
  b64_ntop [255; 0; 128; 65] 9 = Ok (str "/wCAQQ==") /\ b64_ntop [255; 0; 128; 65] 8 = Err ENONE.
Proof.
  split; (etransitivity; [apply b64_ntop_correct; [repeat constructor; lia|vm_compute; discriminate]
                         |reflexivity]).
Defined.

(** ** Decoding: white space does not matter *)

Lemma strip_skip_space s : strip (skip_space s) = strip s.
Proof. induction s as [|c s IH]; cbn; [done|]. by destruct (isspace c) eqn:E; cbn; rewrite ?E. Qed.

Lemma skip_space_strip s : skip_space (strip s) = strip s.
Proof.
  induction s as [|c s IH]; cbn; [done|]. destruct (isspace c) eqn:E; cbn; [done|by rewrite E].
Qed.

Lemma skip_space_cons s :
  match skip_space s with
  | [] => strip s = []
  | c :: r => strip s = c :: strip r
  end.
Proof. induction s as [|c s IH]; cbn; [done|]. by destruct (isspace c) eqn:E; cbn; rewrite ?E. Qed.

(** Padding with every character taken for an unsigned one. *)
Definition pad_end_u (src : list Z) (s : b64_state) : outcome unit :=
  match skip_space src with
  | _ :: _ => Err ENONE
  | [] => x <- rd (b64_target s) (b64_tarindex s);; if negb (x =? 0) then Err ENONE else Ok tt
  end.

Definition pad_u (src : list Z) (s : b64_state) : outcome unit :=
  if (b64_automaton s =? 0) || (b64_automaton s =? 1) then Err ENONE
  else if b64_automaton s =? 2 then
    match skip_space src with
    | ch :: src => if negb (ch =? Pad64) then Err ENONE else pad_end_u src s
    | [] => Err ENONE
    end
  else pad_end_u src s.

(** Somewhere a pad character is followed by a byte that is a negative [char]
    other than [EOF]. *)
Definition pad_high (s : list Z) : Prop := exists p c q, s = p ++ Pad64 :: c :: q /\ 128 <= c < 255.

Lemma skip_plain_cases src :
  bytes_ok src -> skip_plain src = Ok (skip_space src) \/ skip_plain src = Fault /\ pad_high (Pad64 :: src).
Proof.
  destruct src as [|c src]; [by left|]. intros Hb. inversion Hb as [|? ? Hc _]; subst. unfold byte_ok in Hc.
  unfold skip_plain, ctype_arg, schar. cbn [skip_space]. destruct (Z.ltb_spec c 128) as [Hlt|Hge].
  - left. by rewrite (proj2 (Z.ltb_ge c (-1))) by lia.
  - destruct (Z.ltb_spec (c - 256) (-1)); [right|left].
    + split; [done|]. exists [], c, src. split; [done|lia].
    + cbn [obind]. by replace c with 255 by lia.
Qed.

Lemma pad_high_app p s : pad_high s -> pad_high (p ++ s).
Proof. intros (p' & c & q & -> & Hc). exists (p ++ p'), c, q. by rewrite app_assoc. Qed.

Lemma skip_space_suffix s : exists p, s = p ++ skip_space s.
Proof.
  induction s as [|c s [p E]]; cbn; [by exists []|]. destruct (isspace c); [|by exists []].
  exists (c :: p). by rewrite E at 1.
Qed.

Lemma b64_pad_end_cases src st :
  bytes_ok src -> b64_pad_end src st = pad_end_u src st \/ b64_pad_end src st = Fault /\ pad_high (Pad64 :: src).
Proof.
  intros Hb. unfold b64_pad_end, pad_end_u. destruct (skip_plain_cases src Hb) as [->|[-> H]]; [by left|by right].
Qed.

Lemma b64_pad_cases src st :
  bytes_ok src -> b64_pad src st = pad_u src st \/ b64_pad src st = Fault /\ pad_high (Pad64 :: src).
Proof.
  intros Hb. unfold b64_pad, pad_u. destruct (_ || _); [by left|].
  destruct (_ =? 2); [|by apply b64_pad_end_cases].
  destruct (skip_plain_cases src Hb) as [->|[-> H]]; [|by right]. cbn [obind].
  destruct (skip_space_suffix src) as [p E]. destruct (skip_space src) as [|c r] eqn:Es; [by left|].
  destruct (Z.eqb_spec c Pad64) as [->|]; cbn [negb]; [|by left].
  destruct (b64_pad_end_cases r st) as [->|[-> H]]; [|by left|right].
  - rewrite E in Hb. apply Forall_app in Hb as [_ Hb]. by inversion Hb.
  - split; [done|]. rewrite E, app_comm_cons. by apply pad_high_app.
Qed.

Lemma pad_end_u_strip s st : pad_end_u (strip s) st = pad_end_u s st.
Proof.
  unfold pad_end_u. rewrite skip_space_strip. pose proof (skip_space_cons s) as H.
  destruct (skip_space s); by rewrite H.
Qed.

Lemma pad_u_strip s st : pad_u (strip s) st = pad_u s st.
Proof.
  unfold pad_u. rewrite skip_space_strip. pose proof (skip_space_cons s) as H.
  rewrite pad_end_u_strip. destruct (_ || _); [done|]. destruct (_ =? 2); [|done].
  destruct (skip_space s) as [|c r]; rewrite H; [done|]. destruct (negb _); [done|].
  apply pad_end_u_strip.
Qed.

Definition b64_finish (r : Z * list Z * b64_state) : outcome (Z * list Z) :=
  let '(ch, src, s) := r in
  (if ch =? Pad64 then pad_u src s
   else if negb (b64_automaton s =? 0) then Err ENONE else Ok tt);;;
  cassert (b64_tarindex s <=? INT_MAX);;;
  Ok (b64_tarindex s, b64_target s).

(** Decoding from a state of the loop. *)
Definition b64_from (src : list Z) (s : b64_state) : outcome (Z * list Z) :=
  r <- b64_pton_loop src s;; b64_finish r.

Lemma b64_from_strip s : forall st, b64_from s st = b64_from (strip s) st.
Proof.
  unfold b64_from. induction s as [|c s IH]; intros st; [done|]. cbn [b64_pton_loop strip List.filter].
  destruct (isspace c) eqn:E; cbn [negb]; [apply IH|]. cbn [b64_pton_loop]. rewrite E.
  destruct (c =? Pad64) eqn:Ep.
  - cbn [obind b64_finish]. rewrite Ep. fold (strip s). by rewrite pad_u_strip.
  - destruct (strchr Base64 c); [|done]. by destruct (b64_digit z st); cbn [obind].
Qed.

(** Where the loop stops. *)
Lemma b64_loop_stop s : forall st r,
  b64_pton_loop s st = Ok r -> r.1.1 = 0 \/ r.1.1 = Pad64 /\ exists p, s = p ++ Pad64 :: r.1.2.
Proof.
  induction s as [|c s IH]; intros st r E; cbn [b64_pton_loop] in E; [injection E as <-; by left|].
  destruct (isspace c).
  { destruct (IH _ _ E) as [?|[? [p ->]]]; [by left|right]. split; [done|]. by exists (c :: p). }
  destruct (Z.eqb_spec c Pad64) as [->|]; [injection E as <-; right; split; [done|by exists []]|].
  destruct (strchr Base64 c) as [pos|]; [|done]. apply obind_ok in E as (st' & _ & E).
  destruct (IH _ _ E) as [?|[? [p ->]]]; [by left|right]. split; [done|]. by exists (c :: p).
Qed.

Lemma b64_pton_cases s target :
  bytes_ok s -> b64_pton s target = b64_from s (B64State 0 0 target) \/ b64_pton s target = Fault /\ pad_high s.
Proof.
  intros Hb. unfold b64_pton, b64_from. destruct (b64_pton_loop _ _) as [[[ch src] st]| | |] eqn:E; [|by left..].
  cbn [obind]. destruct (b64_loop_stop _ _ _ E) as [H|[H [p Ep]]]; cbn [fst snd] in *; subst ch; [by left|].
  unfold b64_finish. rewrite Z.eqb_refl.
  destruct (b64_pad_cases src st) as [->|[-> H]]; [|by left|right].
  - rewrite Ep in Hb. apply Forall_app in Hb as [_ Hb]. by inversion Hb.
  - split; [done|]. rewrite Ep. by apply pad_high_app.
Qed.

(** ** One digit *)

Lemma or_at_mid l x k i v : i = zlen l -> or_at (l ++ x :: k) i v = Ok (l ++ u8 (Z.lor x v) :: k).
Proof. intros H. unfold or_at. rewrite rd_mid by done. cbn [obind]. by apply wr_mid. Qed.

(** Bits that do not overlap. *)
Lemma lor_low a b n k :
  0 <= n -> k = 2 ^ n -> 0 <= b < k -> 0 <= a * k + b < 256 -> u8 (Z.lor (a * k) b) = a * k + b.
Proof.
  intros Hn -> Hb H. pose proof (lor_shiftl_add a b n Hn Hb) as E.
  rewrite Z.shiftl_mul_pow2 in E by lia. rewrite E. by apply uwrap_id.
Qed.

Section Digits.
Variable pre : list Z.
Variable v : Z.
Hypothesis Hv : 0 <= v < 64.

Lemma b64_digit_0 post :
  b64_digit v (B64State 0 (zlen pre) (pre ++ post)) =
  match post with
  | _ :: post => Ok (B64State 1 (zlen pre) (pre ++ v * 4 :: post))
  | [] => Err ENONE
  end.
Proof.
  unfold b64_digit. cbn [Z.eqb Pos.eqb]. destruct post as [|x post]; bdecide; [done|].
  unfold u8. rewrite (uwrap_id 8 v) by lia. rewrite Z.shiftl_mul_pow2, uwrap_id by lia.
  by rewrite wr_mid.
Qed.

Lemma b64_digit_1 u post :
  0 <= u < 64 ->
  b64_digit v (B64State 1 (zlen pre) (pre ++ u * 4 :: post)) =
  match post with
  | _ :: post => Ok (B64State 2 (zlen pre + 1) (pre ++ u * 4 + v / 16 :: v mod 16 * 16 :: post))
  | [] => Err ENONE
  end.
Proof.
  intros Hu. unfold b64_digit. cbn [Z.eqb Pos.eqb]. destruct post as [|x post]; bdecide; [done|].
  change 15 with (Z.ones 4). rewrite Z.land_ones, Z.shiftr_div_pow2, Z.shiftl_mul_pow2 by lia.
  rewrite or_at_mid by done. cbn [obind]. rewrite wr_mid_next by done. cbn [obind].
  rewrite (lor_low u (v / 2 ^ 4) 2) by (reflexivity || (Z.to_euclidean_division_equations; lia)).
  unfold u8. by rewrite uwrap_id by (Z.to_euclidean_division_equations; lia).
Qed.

Lemma b64_digit_2 w post :
  0 <= w < 16 ->
  b64_digit v (B64State 2 (zlen pre) (pre ++ w * 16 :: post)) =
  match post with
  | _ :: post => Ok (B64State 3 (zlen pre + 1) (pre ++ w * 16 + v / 4 :: v mod 4 * 64 :: post))
  | [] => Err ENONE
  end.
Proof.
  intros Hw. unfold b64_digit. cbn [Z.eqb Pos.eqb]. destruct post as [|x post]; bdecide; [done|].
  change 3 with (Z.ones 2). rewrite Z.land_ones, Z.shiftr_div_pow2, Z.shiftl_mul_pow2 by lia.
  rewrite or_at_mid by done. cbn [obind]. rewrite wr_mid_next by done. cbn [obind].
  rewrite (lor_low w (v / 2 ^ 2) 4) by (reflexivity || (Z.to_euclidean_division_equations; lia)).
  unfold u8. by rewrite uwrap_id by (Z.to_euclidean_division_equations; lia).
Qed.

Lemma b64_digit_3 w post :
  0 <= w < 4 ->
  b64_digit v (B64State 3 (zlen pre) (pre ++ w * 64 :: post)) =
  Ok (B64State 0 (zlen pre + 1) (pre ++ w * 64 + v :: post)).
Proof.
  intros Hw. unfold b64_digit. cbn [Z.eqb Pos.eqb]. bdecide.
  rewrite or_at_mid by done. cbn [obind]. unfold u8. rewrite (uwrap_id 8 v) by lia.
  rewrite (lor_low w v 6) by (reflexivity || lia). done.
Qed.
End Digits.

(** ** Texts that are encodings *)

(** A digit and its value. *)
Definition dig (c v : Z) : Prop :=
  0 <= v < 64 /\ c = char64 v /\ strchr Base64 c = Some v /\ isspace c = false /\ c =? Pad64 = false.

Lemma dig_intro v : 0 <= v < 64 -> dig (char64 v) v.
Proof. intros Hv. destruct (char64_spec v Hv). unfold dig. tauto. Qed.

(** What a character other than white space is. *)
Lemma char_cases c :
  0 < c -> isspace c = false ->
  c = Pad64 \/ (c =? Pad64 = false /\ strchr Base64 c = None) \/ exists v, dig c v.
Proof.
  intros Hc Hs. destruct (c =? Pad64) eqn:E; [zbool; by left|right].
  destruct (strchr Base64 c) as [v|] eqn:Ev; [right|by left].
  exists v. destruct (strchr_char64 c v) as [Hv ->]; [lia|done|]. by apply dig_intro.
Qed.

(** The group that three, two and one byte are encoded in. *)
Inductive group : list Z -> list Z -> Prop :=
| group_1 c1 c2 v1 v2 : dig c1 v1 -> dig c2 v2 -> v2 mod 16 = 0 ->
    group [v1 * 4 + v2 / 16] [c1; c2; Pad64; Pad64]
| group_2 c1 c2 c3 v1 v2 v3 : dig c1 v1 -> dig c2 v2 -> dig c3 v3 -> v3 mod 4 = 0 ->
    group [v1 * 4 + v2 / 16; v2 mod 16 * 16 + v3 / 4] [c1; c2; c3; Pad64].

Inductive encoding : list Z -> list Z -> Prop :=
| encoding_nil : encoding [] []
| encoding_last src s : group src s -> encoding src s
| encoding_full c1 c2 c3 c4 v1 v2 v3 v4 src s :
    dig c1 v1 -> dig c2 v2 -> dig c3 v3 -> dig c4 v4 -> encoding src s ->
    encoding (v1 * 4 + v2 / 16 :: v2 mod 16 * 16 + v3 / 4 :: v3 mod 4 * 64 + v4 :: src)
             (c1 :: c2 :: c3 :: c4 :: s).

Lemma encoding_enc64 src s : encoding src s <-> bytes_ok src /\ s = enc64 src.
Proof.
  split.
  - induction 1 as [|src s H|c1 c2 c3 c4 v1 v2 v3 v4 src s (? & -> & _) (? & -> & _) (? & -> & _)
      (? & -> & _) _ [IHb ->]]; [split; [constructor|done]| |].
    + destruct H as [c1 c2 v1 v2 (? & -> & _) (? & -> & _) Hz
        |c1 c2 c3 v1 v2 v3 (? & -> & _) (? & -> & _) (? & -> & _) Hz];
        (split; [repeat constructor; unfold byte_ok; Z.to_euclidean_division_equations; lia|]);
        cbn [enc64]; repeat f_equal; Z.to_euclidean_division_equations; lia.
    + split; [unfold bytes_ok; rewrite !Forall_cons_iff; unfold byte_ok; repeat (split; [|]);
                try exact IHb; Z.to_euclidean_division_equations; lia|].
      cbn [enc64 app]; repeat f_equal; Z.to_euclidean_division_equations; lia.
  - intros [Hb ->]. induction src as [|a|a b|a b c src IH] using triple_ind.
    + constructor.
    + apply Forall_cons_iff in Hb as [Ha _]. unfold byte_ok in Ha. apply encoding_last.
      cbn [enc64]. replace [a] with [a / 4 * 4 + a mod 4 * 16 / 16]
        by (f_equal; Z.to_euclidean_division_equations; lia).
      apply group_1; try apply dig_intro; Z.to_euclidean_division_equations; lia.
    + apply Forall_cons_iff in Hb as [Ha [Hb _]%Forall_cons_iff]. unfold byte_ok in Ha, Hb.
      apply encoding_last. cbn [enc64].
      replace [a; b] with [a / 4 * 4 + (a mod 4 * 16 + b / 16) / 16;
        (a mod 4 * 16 + b / 16) mod 16 * 16 + b mod 16 * 4 / 4]
        by (repeat f_equal; Z.to_euclidean_division_equations; lia).
      apply group_2; try apply dig_intro; Z.to_euclidean_division_equations; lia.
    + apply Forall_cons_iff in Hb as [Ha [Hb [Hc Hs]%Forall_cons_iff]%Forall_cons_iff].
      unfold byte_ok in Ha, Hb, Hc. cbn [enc64 app].
      replace (a :: b :: c :: src) with (a / 4 * 4 + (a mod 4 * 16 + b / 16) / 16 ::
        (a mod 4 * 16 + b / 16) mod 16 * 16 + (b mod 16 * 4 + c / 64) / 4 ::
        (b mod 16 * 4 + c / 64) mod 4 * 64 + c mod 64 :: src)
        by (repeat f_equal; Z.to_euclidean_division_equations; lia).
      apply encoding_full; try apply dig_intro; try (by apply IH);
        Z.to_euclidean_division_equations; lia.
Qed.

(** A byte above 127 is in no encoding. *)
Lemma enc64_ascii src : bytes_ok src -> Forall (fun c => c < 128) (enc64 src).
Proof.
  assert (Hd : forall v, 0 <= v < 64 -> char64 v < 128).
  { intros v Hv. apply Z.ltb_lt. by apply (forall_upto (fun v => char64 v <? 128) 64). }
  intros Hb. induction src as [|a|a b|a b c src IH] using triple_ind; cbn [enc64 app];
    unfold bytes_ok in Hb; rewrite ?Forall_cons_iff in Hb; unfold byte_ok in Hb; repeat constructor;
    try (apply Hd; Z.to_euclidean_division_equations; lia). apply IH. tauto.
Qed.

Lemma pad_high_no_encoding s src : pad_high s -> bytes_ok src -> strip s <> enc64 src.
Proof.
  intros (p & c & q & -> & Hc) Hb E. pose proof (enc64_ascii src Hb) as Ha. rewrite <- E in Ha.
  rewrite List.Forall_forall in Ha. specialize (Ha c). unfold strip in Ha. rewrite List.filter_In in Ha.
  enough (c < 128) by lia. apply Ha. split; [rewrite in_app_iff; simpl; auto|].
  unfold isspace. bdecide. done.
Qed.

(** ** Decoding *)

(** What decoding the text [s] behind [pre] must give. *)
Definition decodes (pre post s : list Z) (r : outcome (Z * list Z)) : Prop :=
  match r with
  | Ok (n, t) => exists src q, encoding src s /\ fill src post = Some q /\
                               n = zlen pre + zlen src /\ t = pre ++ q
  | Err _ => forall src, encoding src s -> fill src post = None
  | Fault | NoFuel => False
  end.

Lemma b64_from_end st : b64_from [] st = b64_finish (0, [], st).
Proof. done. Qed.

Lemma b64_from_pad s st : b64_from (Pad64 :: s) st = b64_finish (Pad64, s, st).
Proof. done. Qed.

Lemma b64_from_bad c s st :
  isspace c = false -> c =? Pad64 = false -> strchr Base64 c = None -> b64_from (c :: s) st = Err ENONE.
Proof. intros H1 H2 H3. unfold b64_from. cbn [b64_pton_loop]. by rewrite H1, H2, H3. Qed.

Lemma b64_from_dig c v s st : dig c v -> b64_from (c :: s) st = (st <- b64_digit v st;; b64_from s st).
Proof.
  intros (_ & _ & H3 & H1 & H2). unfold b64_from. cbn [b64_pton_loop]. rewrite H1, H2, H3.
  by destruct (b64_digit v st).
Qed.

Lemma dig_fun c v v' : dig c v -> dig c v' -> v = v'.
Proof. intros (_ & _ & H & _) (_ & _ & H' & _). congruence. Qed.

Lemma dig_not_pad v : ~ dig Pad64 v.
Proof. by intros (_ & _ & _ & _ & H). Qed.

Lemma dig_not_none c v : strchr Base64 c = None -> ~ dig c v.
Proof. intros H (_ & _ & H' & _). congruence. Qed.

(** [src] is not an encoding of this text, or the target has no room. *)
Ltac no_encoding :=
  let src := fresh in let H := fresh in
  intros src H; inversion H; subst; clear H; try done;
  try match goal with G : group _ _ |- _ => inversion G; subst; clear G end;
  try done;
  repeat match goal with
  | D : dig Pad64 _ |- _ => by destruct (dig_not_pad _ D)
  | E : strchr Base64 ?c = None, D : dig ?c _ |- _ => by destruct (dig_not_none _ _ E D)
  | D : dig ?c ?v, D' : dig ?c ?v' |- _ => pose proof (dig_fun _ _ _ D D'); subst; clear D'
  end.

Lemma skip_space_id s : Forall (fun c => isspace c = false) s -> skip_space s = s.
Proof. intros H. destruct s as [|c s]; [done|]. inversion H as [|? ? Hc _]. cbn. by rewrite Hc. Qed.

Lemma pad_end_u_spec s st pre x post :
  Forall (fun c => isspace c = false) s ->
  pad_end_u s (B64State st (zlen pre) (pre ++ x :: post)) =
  if bool_decide (s = []) && (x =? 0) then Ok tt else Err ENONE.
Proof.
  intros Hs. unfold pad_end_u. rewrite skip_space_id by done. destruct s; [|done].
  cbn [b64_target b64_tarindex]. rewrite rd_mid by done. cbn. by destruct (x =? 0).
Qed.

(** The end of a text whose last group has two or three digits. *)
Lemma b64_finish_2 s pre w post :
  Forall (fun c => isspace c = false) s -> zlen pre <= INT_MAX ->
  b64_finish (Pad64, s, B64State 2 (zlen pre) (pre ++ w * 16 :: post)) =
  if bool_decide (s = [Pad64]) && (w =? 0) then Ok (zlen pre, pre ++ w * 16 :: post) else Err ENONE.
Proof.
  intros Hs Hmax. unfold b64_finish, pad_u. cbn [Z.eqb Pos.eqb Pad64 b64_automaton orb].
  rewrite skip_space_id by done. destruct s as [|c s]; [done|].
  destruct (Z.eqb_spec c Pad64) as [->|Hc]; cbn [negb].
  - inversion Hs as [|? ? _ Hs']; subst. rewrite pad_end_u_spec by done.
    destruct s as [|c' s]; [|by rewrite bool_decide_false].
    rewrite !bool_decide_true by done. cbn [andb].
    destruct (Z.eqb_spec w 0), (Z.eqb_spec (w * 16) 0); try lia; [|done].
    cbn [obind b64_tarindex b64_target]. unfold cassert. by bdecide.
  - rewrite bool_decide_false by congruence. done.
Qed.

Lemma b64_finish_3 s pre w post :
  Forall (fun c => isspace c = false) s -> zlen pre <= INT_MAX ->
  b64_finish (Pad64, s, B64State 3 (zlen pre) (pre ++ w * 64 :: post)) =
  if bool_decide (s = []) && (w =? 0) then Ok (zlen pre, pre ++ w * 64 :: post) else Err ENONE.
Proof.
  intros Hs Hmax. unfold b64_finish, pad_u. cbn [Z.eqb Pos.eqb Pad64 b64_automaton orb].
  rewrite pad_end_u_spec by done.
  destruct (Z.eqb_spec w 0), (Z.eqb_spec (w * 64) 0); try lia; rewrite ?andb_false_r; [|done].
  rewrite !andb_true_r. case_bool_decide; [|done].
  cbn [obind b64_tarindex b64_target]. unfold cassert. by bdecide.
Qed.

(** A text whose characters are neither white space nor zero. *)
Definition plain (s : list Z) : Prop := Forall (fun c => isspace c = false /\ 0 < c) s.

Definition decodes_all (s : list Z) : Prop := forall pre post,
  zlen pre + zlen s <= INT_MAX ->
  decodes pre post s (b64_from s (B64State 0 (zlen pre) (pre ++ post))).

Lemma plain_space s : plain s -> Forall (fun c => isspace c = false) s.
Proof. apply List.Forall_impl. tauto. Qed.

Section Group.
Variables (c1 c2 v1 v2 : Z) (pre : list Z) (x1 : Z).
Hypothesis D1 : dig c1 v1.
Hypothesis D2 : dig c2 v2.
Let a := v1 * 4 + v2 / 16.

(** After three digits. *)
Lemma decodes_3 c3 v3 s x2 x3 post (b := v2 mod 16 * 16 + v3 / 4) :
  dig c3 v3 -> plain s -> zlen pre + zlen s + 3 <= INT_MAX ->
  (forall c4 s', s = c4 :: s' -> decodes_all s') ->
  decodes pre (x1 :: x2 :: x3 :: post) (c1 :: c2 :: c3 :: s)
    (b64_from s (B64State 3 (zlen (pre ++ [a; b])) ((pre ++ [a; b]) ++ v3 mod 4 * 64 :: post))).
Proof.
  intros D3 Hs Hmax Hrec. pose proof (zlen_nonneg s).
  destruct s as [|c4 s]; [rewrite b64_from_end; cbn; no_encoding|].
  inversion Hs as [|? ? [Hc4 Hp4] Hs']; subst.
  destruct (char_cases c4) as [->|[[E4 E4']|[v4 D4]]]; [done|done| | |].
  - rewrite b64_from_pad, b64_finish_3 by (try apply plain_space; zl || done).
    destruct (bool_decide (s = []) && (v3 mod 4 =? 0)) eqn:E.
    + apply andb_true_iff in E as [E%bool_decide_eq_true E']. zbool. subst s. rewrite E'.
      exists [a; b], (a :: b :: 0 :: post). split_and!; [|done|zl|by rewrite <- app_assoc].
      apply encoding_last. by constructor.
    + no_encoding. rewrite bool_decide_true in E by done. cbn [andb] in E. zbool. congruence.
  - rewrite b64_from_bad by done. no_encoding.
  - rewrite (b64_from_dig c4 v4) by done.
    rewrite b64_digit_3 by (apply D4 || (Z.to_euclidean_division_equations; lia)). cbn [obind].
    set (c := v3 mod 4 * 64 + v4).
    replace (zlen (pre ++ [a; b]) + 1) with (zlen (pre ++ [a; b; c])) by zl.
    replace ((pre ++ [a; b]) ++ c :: post) with ((pre ++ [a; b; c]) ++ post) by (by rewrite <- !app_assoc).
    assert (Hd : decodes_all s) by (by eapply Hrec). specialize (Hd (pre ++ [a; b; c]) post).
    destruct (b64_from _ _) as [[n t]|e| |]; cbn [decodes] in *; try (apply Hd; zl).
    + destruct Hd as (src & q & He & Hf & -> & ->); [zl|].
      exists (a :: b :: c :: src), (a :: b :: c :: q).
      split_and!; [by constructor| |zl|by rewrite <- app_assoc].
      cbn [fill]. by rewrite Hf.
    + intros src Hsrc. inversion Hsrc as [|? ? G|? ? ? ? w1 w2 w3 w4 src' s' W1 W2 W3 W4 Hsrc']; subst.
      { inversion G; subst; by destruct (dig_not_pad v4). }
      cbn [fill]. rewrite (Hd ltac:(zl) src' Hsrc'). done.
Qed.

(** After two digits. *)
Lemma decodes_2 s x2 post :
  plain s -> zlen pre + zlen s + 2 <= INT_MAX ->
  (forall c3 c4 s', s = c3 :: c4 :: s' -> decodes_all s') ->
  decodes pre (x1 :: x2 :: post) (c1 :: c2 :: s)
    (b64_from s (B64State 2 (zlen (pre ++ [a])) ((pre ++ [a]) ++ v2 mod 16 * 16 :: post))).
Proof.
  intros Hs Hmax Hrec. pose proof (zlen_nonneg s).
  destruct s as [|c3 s]; [rewrite b64_from_end; cbn; no_encoding|].
  inversion Hs as [|? ? [Hc3 Hp3] Hs']; subst.
  destruct (char_cases c3) as [->|[[E3 E3']|[v3 D3]]]; [done|done| | |].
  - rewrite b64_from_pad, b64_finish_2 by (try apply plain_space; zl || done).
    destruct (bool_decide (s = [Pad64]) && (v2 mod 16 =? 0)) eqn:E.
    + apply andb_true_iff in E as [E%bool_decide_eq_true E']. zbool. subst s. rewrite E'.
      exists [a], (a :: 0 :: post). split_and!; [|done|zl|by rewrite <- app_assoc].
      apply encoding_last. by constructor.
    + no_encoding. rewrite bool_decide_true in E by done. cbn [andb] in E. zbool. congruence.
  - rewrite b64_from_bad by done. no_encoding.
  - rewrite (b64_from_dig c3 v3) by done.
    rewrite b64_digit_2 by (apply D3 || (Z.to_euclidean_division_equations; lia)).
    destruct post as [|x3 post]; cbn [obind]; [no_encoding|].
    set (b := v2 mod 16 * 16 + v3 / 4).
    replace (zlen (pre ++ [a]) + 1) with (zlen (pre ++ [a; b])) by zl.
    replace ((pre ++ [a]) ++ b :: v3 mod 4 * 64 :: post)
      with ((pre ++ [a; b]) ++ v3 mod 4 * 64 :: post) by (by rewrite <- !app_assoc).
    apply decodes_3; [done|done|zl|]. intros c4 s' ->. by eapply Hrec.
Qed.
End Group.

Lemma b64_decodes n : forall s, (length s <= n)%nat -> plain s -> decodes_all s.
Proof.
  induction n as [|n IH]; intros s Hn Hs pre post Hmax.
  all: destruct s as [|c1 s]; [|cbn in Hn; try lia].
  1, 2: cbn; unfold cassert; rewrite (proj2 (Z.leb_le _ _)) by zl;
    exists [], post; split_and!; [constructor|done|zl|done].
  inversion Hs as [|? ? [Hc1 Hp1] Hs1]; subst. pose proof (zlen_nonneg s).
  destruct (char_cases c1) as [->|[[E1 E1']|[v1 D1]]]; [done|done| | |].
  { rewrite b64_from_pad. cbn. no_encoding. }
  { rewrite b64_from_bad by done. no_encoding. }
  rewrite (b64_from_dig c1 v1) by done. rewrite b64_digit_0 by apply D1.
  destruct post as [|x1 post]; cbn [obind]; [no_encoding|].
  destruct s as [|c2 s]; [rewrite b64_from_end; cbn; no_encoding|].
  inversion Hs1 as [|? ? [Hc2 Hp2] Hs2]; subst.
  destruct (char_cases c2) as [->|[[E2 E2']|[v2 D2]]]; [done|done| | |].
  { rewrite b64_from_pad. cbn. no_encoding. }
  { rewrite b64_from_bad by done. no_encoding. }
  rewrite (b64_from_dig c2 v2) by done. rewrite b64_digit_1 by (apply D2 || apply D1).
  destruct post as [|x2 post]; cbn [obind]; [no_encoding|].
  set (a := v1 * 4 + v2 / 16) in *.
  replace (zlen pre + 1) with (zlen (pre ++ [a])) by zl.
  replace (pre ++ a :: v2 mod 16 * 16 :: post)
    with ((pre ++ [a]) ++ v2 mod 16 * 16 :: post) by (by rewrite <- !app_assoc).
  apply decodes_2; [done|done|done|zl|]. intros c3 c4 s' ->. apply IH; [cbn in Hn; lia|].
  by inversion Hs2 as [|? ? _ Hs3]; inversion Hs3.
Qed.

(** C36: decoding accepts exactly the texts that encoding writes, with white
    space anywhere: when [b64_pton] returns, the text without its white space
    is the encoding of the bytes it stored, so that the bits that are padded
    out are zero and nothing follows the padding; when it fails, the text is
    no encoding of bytes that fit the target (the last group takes a byte more
    than it stores).  It never leaves the target.  It is undefined only for
    texts, none of them an encoding, in which a byte from 0x80 to 0xfe follows
    a pad character at once: it is handed to [isspace] as a negative plain
    [char].  The text is terminated and at most [INT_MAX] long. *)
Theorem b64_pton_correct s target :
  cstr_ok s -> zlen s <= INT_MAX ->
  match b64_pton s target with
  | Ok (n, t) => exists src, bytes_ok src /\ strip s = enc64 src /\ fill src target = Some t /\
                             n = zlen src
  | Err _ => forall src, bytes_ok src -> strip s = enc64 src -> fill src target = None
  | Fault => pad_high s /\ forall src, bytes_ok src -> strip s <> enc64 src
  | NoFuel => False
  end.
Proof.
  intros Hs Hmax. destruct (b64_pton_cases s target) as [->|[-> H]]; [by apply cstr_bytes| |].
  2: { split; [done|]. intros src Hb. by apply pad_high_no_encoding. }
  rewrite b64_from_strip.
  assert (Hp : plain (strip s) /\ zlen (strip s) <= zlen s).
  { clear Hmax. induction Hs as [|c s Hc _ [IH1 IH2]]; [split; [constructor|done]|]. cbn [strip List.filter].
    fold (strip s). destruct (isspace c) eqn:E; cbn [negb]; [split; [done|zl]|].
    split; [constructor; [split; [done|lia]|done]|zl]. }
  destruct Hp as [Hp Hl].
  pose proof (b64_decodes _ _ (Nat.le_refl _) Hp [] target) as Hd.
  change (zlen (@nil Z)) with 0 in Hd. cbn [app] in Hd.
  destruct (b64_from _ _) as [[n t]|e| |]; cbn [decodes] in Hd.
  - destruct Hd as (src & q & He & Hf & -> & ->); [lia|]. apply encoding_enc64 in He as [Hb He].
    by exists src.
  - intros src Hb He. apply Hd; [lia|]. by apply encoding_enc64.
  - exfalso. apply Hd; lia.
  - apply Hd; lia.
Qed.

(** [" YQ= ="] is the byte ['a'], and needs a target of two bytes. *)
Lemma b64_pton_correct_witness :
  (exists src, strip (str " YQ= =") = enc64 src /\ fill src [7; 7; 7] = Some [97; 0; 7]) /\
  b64_pton (str "YQ==") [7] = Err ENONE /\ b64_pton (str "YQ=" ++ [128]) [7; 7; 7] = Fault.
Proof.
  split; [|by vm_compute].
  assert (H : cstr_ok (str " YQ= =")) by (repeat constructor; lia).
  pose proof (b64_pton_correct (str " YQ= =") [7; 7; 7] H ltac:(vm_compute; discriminate)) as Hc.
  replace (b64_pton (str " YQ= =") [7; 7; 7]) with (Ok (1, [97; 0; 7])) in Hc by reflexivity.
  destruct Hc as (src & _ & He & Hf & _). by exists src.
Defined.
