(* ===== verification/Inet4.v ===== *)
(** * inet: IPv4 addresses

    [inet_pton4] and [inet_ntop4] of inet/inet_pton.c and inet/inet_ntop.c,
    [inet_aton] and [inet_addr] (inet/inet_addr.c), [inet_network],
    [inet_neta], [inet_lnaof], [inet_netof] and [inet_makeaddr].

    A string is read through [cur], the character at the read pointer, zero
    at the terminator.  [uint32_t] values wrap; the address functions that
    return or take a [struct in_addr] have the four bytes of its network
    order.  A parser that returns 0 is [None]. *)
From Stdlib Require Import ZArith Lia List Bool String.
From stdpp Require Import base tactics list numbers.
From S2P Require Import Prelude CText.
Local Open Scope Z_scope.
Local Open Scope c_scope.

Definition cur (s : list Z) : Z := hd 0 s.

(** [htonl] and the bytes of the result, and back. *)
Definition htonl_bytes (v : Z) : list Z :=
  [Z.land (Z.shiftr v 24) 255; Z.land (Z.shiftr v 16) 255; Z.land (Z.shiftr v 8) 255; Z.land v 255].

Definition ntohl_bytes (bs : list Z) : Z :=
  match bs with
  | [a; b; c; d] => Z.lor (Z.shiftl a 24) (Z.lor (Z.shiftl b 16) (Z.lor (Z.shiftl c 8) d))
  | _ => 0
  end.

(** ** inet_pton.c *)

(** The prefix of a number: its base, and the text from its first digit. *)
Definition pton4_base (s : list Z) : option (Z * list Z) :=
  let c := cur s in
  if negb (isdigit c) then None
  else if c =? 48 then
    let s := tl s in
    let c := cur s in
    if (c =? 120) || (c =? 88) then Some (16, tl s)
    else if isdigit c && negb (c =? 57) then Some (8, s)
    else Some (10, s)
  else Some (10, s).

(** Its digits. *)
Fixpoint pton4_digits (base val : Z) (s : list Z) : Z * list Z :=
  match s with
  | [] => (val, [])
  | c :: s' =>
      if isdigit c then
        let digit := c - 48 in
        if base <=? digit then (val, s)
        else pton4_digits base (u32 (u32 (val * base) + digit)) s'
      else if (base =? 16) && isxdigit c then
        let digit := c + 10 - (if islower c then 97 else 65) in
        if 16 <=? digit then (val, s)
        else pton4_digits base (u32 (Z.lor (Z.shiftl val 4) digit)) s'
      else (val, s)
  end.

(** One turn of [for (;;)]: a number, and the dot after it.  The loop ends
    with the last number, the rest of the text and [parts]. *)
Definition pton4_body (pton : bool) (st : list Z * list Z)
    : outcome ((list Z * list Z) + option (Z * list Z * list Z)) :=
  let '(s, parts) := st in
  match pton4_base s with
  | None => Ok (inr None)
  | Some (base, s) =>
      if pton && negb (base =? 10) then Ok (inr None)
      else
        let '(val, s) := pton4_digits base 0 s in
        if cur s =? 46 then
          if 3 <=? zlen parts then Ok (inr None)
          else Ok (inl (tl s, parts ++ [val]))
        else Ok (inr (Some (val, s, parts)))
  end.

(** "Concoct the address according to the number of parts specified." *)
Definition pton4_concoct (pton : bool) (val : Z) (parts : list Z) : option Z :=
  if pton && negb (zlen parts + 1 =? 4) then None
  else
    match parts with
    | [] => Some val
    | [p0] =>
        if (255 <? p0) || (16777215 <? val) then None else Some (Z.lor val (u32 (Z.shiftl p0 24)))
    | [p0; p1] =>
        if (255 <? Z.lor p0 p1) || (65535 <? val) then None
        else Some (Z.lor val (Z.lor (u32 (Z.shiftl p0 24)) (u32 (Z.shiftl p1 16))))
    | [p0; p1; p2] =>
        if 255 <? Z.lor (Z.lor (Z.lor p0 p1) p2) val then None
        else Some (Z.lor val (Z.lor (Z.lor (u32 (Z.shiftl p0 24)) (u32 (Z.shiftl p1 16)))
                                    (u32 (Z.shiftl p2 8))))
    | _ => Some val
    end.

(** The four bytes stored in [dst]. *)
Definition inet_pton4 (src : list Z) (pton : bool) : outcome (option (list Z)) :=
  r <- loop 5 (pton4_body pton) (src, []);;
  match r with
  | None => Ok None
  | Some (val, s, parts) =>
      if negb (cur s =? 0) && negb (isspace (cur s)) then Ok None
      else
        match pton4_concoct pton val parts with
        | None => Ok None
        | Some val => Ok (Some (htonl_bytes val))
        end
  end.

(** ** inet_ntop.c *)

Definition dotted (bs : list Z) : list Z :=
  match bs with
  | [a; b; c; d] => fmt_u a ++ 46 :: fmt_u b ++ 46 :: fmt_u c ++ 46 :: fmt_u d
  | _ => []
  end.

(** [snprintf] cuts the text to the 15 characters that [tmp] holds, and
    returns its full length; [strlcpy] cuts it to [size - 1]. *)
Definition inet_ntop4 (src : list Z) (size : Z) : outcome (list Z) :=
  let text := dotted src in
  let tmp := take 15 text in
  let l := zlen text in
  if (l <=? 0) || (size <=? u32 l) then Err ENONE
  else Ok (take (Z.to_nat (size - 1)) tmp).

(** ** inet_addr.c *)

Definition aton_base (s : list Z) : option (Z * bool * list Z) :=
  let c := cur s in
  if negb (isdigit c) then None
  else if c =? 48 then
    let s := tl s in
    let c := cur s in
    if (c =? 120) || (c =? 88) then Some (16, false, tl s)
    else Some (8, true, s)
  else Some (10, false, s).

(** The digits; [digit] says whether there was one.  [None] is [return (0)]. *)
Fixpoint aton_digits (base val : Z) (digit : bool) (s : list Z) : option (Z * bool * list Z) :=
  match s with
  | [] => Some (val, digit, [])
  | c :: s' =>
      if isascii c && isdigit c then
        if (base =? 8) && ((c =? 56) || (c =? 57)) then None
        else aton_digits base (u32 (u32 (val * base) + (c - 48))) true s'
      else if (base =? 16) && isascii c && isxdigit c then
        aton_digits base
          (u32 (Z.lor (Z.shiftl val 4) (c + 10 - (if islower c then 97 else 65)))) true s'
      else Some (val, digit, s)
  end.

Definition aton_body (st : list Z * list Z)
    : outcome ((list Z * list Z) + option (Z * bool * list Z * list Z)) :=
  let '(s, parts) := st in
  match aton_base s with
  | None => Ok (inr None)
  | Some (base, digit, s) =>
      match aton_digits base 0 digit s with
      | None => Ok (inr None)
      | Some (val, digit, s) =>
          if cur s =? 46 then
            if (3 <=? zlen parts) || (255 <? val) then Ok (inr None)
            else Ok (inl (tl s, parts ++ [u8 val]))
          else Ok (inr (Some (val, digit, s, parts)))
      end
  end.

Definition aton_concoct (val : Z) (parts : list Z) : option Z :=
  match parts with
  | [] => Some val
  | [p0] => if 16777215 <? val then None else Some (Z.lor val (u32 (Z.shiftl p0 24)))
  | [p0; p1] =>
      if 65535 <? val then None
      else Some (Z.lor val (Z.lor (u32 (Z.shiftl p0 24)) (Z.shiftl p1 16)))
  | [p0; p1; p2] =>
      if 255 <? val then None
      else Some (Z.lor val (Z.lor (Z.lor (u32 (Z.shiftl p0 24)) (Z.shiftl p1 16)) (Z.shiftl p2 8)))
  | _ => Some val
  end.

Definition inet_aton (cp : list Z) : outcome (option (list Z)) :=
  r <- loop 5 aton_body (cp, []);;
  match r with
  | None => Ok None
  | Some (val, digit, s, parts) =>
      let c := cur s in
      if negb (c =? 0) && (negb (isascii c) || negb (isspace c)) then Ok None
      else if negb digit then Ok None
      else
        match aton_concoct val parts with
        | None => Ok None
        | Some val => Ok (Some (htonl_bytes val))
        end
  end.

Definition INADDR_NONE : Z := 4294967295.

(** The bytes of the [in_addr_t]. *)
Definition inet_addr (cp : list Z) : outcome (list Z) :=
  r <- inet_aton cp;;
  match r with
  | Some bs => Ok bs
  | None => Ok (htonl_bytes INADDR_NONE)
  end.

(** ** inet_network.c *)

(** The prefix of a part: whether a digit was seen, the base, and the rest. *)
Definition network_prefix (s : list Z) : bool * Z * list Z :=
  let '(digit, base, s) := if cur s =? 48 then (true, 8, tl s) else (false, 10, s) in
  if (cur s =? 120) || (cur s =? 88) then (false, 16, tl s) else (digit, base, s).

Fixpoint network_digits (base val : Z) (digit : bool) (s : list Z) : option (Z * bool * list Z) :=
  match s with
  | [] => Some (val, digit, [])
  | c :: s' =>
      if isdigit c then
        if (base =? 8) && ((c =? 56) || (c =? 57)) then None
        else network_digits base (u32 (u32 (val * base) + (c - 48))) true s'
      else if (base =? 16) && isxdigit c then
        network_digits base
          (u32 (u32 (Z.shiftl val 4) + (c + 10 - (if islower c then 97 else 65)))) true s'
      else Some (val, digit, s)
  end.

(** From [again:] to the next; the loop ends with all the parts. *)
Definition network_body (st : list Z * list Z)
    : outcome ((list Z * list Z) + option (list Z)) :=
  let '(s, parts) := st in
  let '(digit, base, s) := network_prefix s in
  match network_digits base 0 digit s with
  | None => Ok (inr None)
  | Some (val, digit, s) =>
      if negb digit then Ok (inr None)
      else if (4 <=? zlen parts) || (255 <? val) then Ok (inr None)
      else if cur s =? 46 then Ok (inl (tl s, parts ++ [val]))
      else if negb (cur s =? 0) && negb (isspace (cur s)) then Ok (inr None)
      else
        let parts := parts ++ [val] in
        if 4 <? zlen parts then Ok (inr None) else Ok (inr (Some parts))
  end.

Definition inet_network (cp : list Z) : outcome Z :=
  r <- loop 6 network_body (cp, []);;
  match r with
  | None => Ok INADDR_NONE
  | Some parts =>
      Ok (fold_left (fun val p => Z.lor (u32 (Z.shiftl val 8)) (Z.land p 255)) parts 0)
  end.

(** ** inet_neta.c, for a [u_long] of [w] bits *)

(** [zlen out] characters stand in the destination of [size] bytes. *)
Definition neta_body (w size : Z) (st : Z * list Z) : outcome ((Z * list Z) + list Z) :=
  let '(src, out) := st in
  if Z.land src 4294967295 =? 0 then Ok (inr out)
  else
    let b := u8 (Z.shiftr (Z.land src 4278190080) 24) in
    let src := uwrap w (Z.shiftl src 8) in
    if negb (b =? 0) || negb (src =? 0) then
      let advance := zlen (fmt_u b) in
      if (advance <=? 0) || (size - zlen out <=? advance) then Err EMSGSIZE
      else
        let out := out ++ fmt_u b in
        if negb (src =? 0) then
          if size <=? zlen out + 1 then Err EMSGSIZE else Ok (inl (src, out ++ [46]))
        else Ok (inl (src, out))
    else Ok (inl (src, out)).

Definition inet_neta (w src size : Z) : outcome (list Z) :=
  if src =? 0 then
    if size <? 8 then Err EMSGSIZE else Ok (str "0.0.0.0")
  else if size <=? 0 then Err EMSGSIZE
  else loop 5 (neta_body w size) (src, []).

(** ** inet_lnaof.c, inet_netof.c, inet_makeaddr.c

    The classes of [<netinet/in.h>]. *)

Definition IN_CLASSA (i : Z) : bool := Z.land i 2147483648 =? 0.
Definition IN_CLASSB (i : Z) : bool := Z.land i 3221225472 =? 2147483648.
Definition IN_CLASSA_NET : Z := 4278190080.
Definition IN_CLASSB_NET : Z := 4294901760.
Definition IN_CLASSC_NET : Z := 4294967040.
Definition IN_CLASSA_HOST : Z := 16777215.
Definition IN_CLASSB_HOST : Z := 65535.
Definition IN_CLASSC_HOST : Z := 255.

Definition inet_lnaof (s_addr : list Z) : Z :=
  let i := ntohl_bytes s_addr in
  if IN_CLASSA i then Z.land i IN_CLASSA_HOST
  else if IN_CLASSB i then Z.land i IN_CLASSB_HOST
  else Z.land i IN_CLASSC_HOST.

Definition inet_netof (s_addr : list Z) : Z :=
  let i := ntohl_bytes s_addr in
  if IN_CLASSA i then Z.shiftr (Z.land i IN_CLASSA_NET) 24
  else if IN_CLASSB i then Z.shiftr (Z.land i IN_CLASSB_NET) 16
  else Z.shiftr (Z.land i IN_CLASSC_NET) 8.

Definition inet_makeaddr (net host : Z) : list Z :=
  let addr :=
    if net <? 128 then Z.lor (u32 (Z.shiftl net 24)) (Z.land host IN_CLASSA_HOST)
    else if net <? 65536 then Z.lor (u32 (Z.shiftl net 16)) (Z.land host IN_CLASSB_HOST)
    else if net <? 16777216 then Z.lor (u32 (Z.shiftl net 8)) (Z.land host IN_CLASSC_HOST)
    else Z.lor net host in
  htonl_bytes addr.

Example inet4_ex :
  inet_pton4 (str "192.5.5.240 x") true = Ok (Some [192; 5; 5; 240]) /\
  inet_pton4 (str "010.1") false = Ok (Some [8; 0; 0; 1]) /\
  inet_aton (str "0xc0.5.1281") = Ok (Some [192; 5; 5; 1]) /\
  inet_network (str "192.5.5") = Ok 12584197 /\
  inet_neta 32 12584197 20 = Ok (str "0.192.5.5") /\
  inet_neta 64 12584197 20 = Ok (str "0.192.5.5.").
Proof. repeat split. Qed.

(** ** Decimal numbers in text *)

Definition digits_ok (ds : list Z) : Prop := Forall (fun d => 0 <= d < 10) ds.

Lemma digits_of_head fuel v :
  0 < v < 10 ^ Z.of_nat fuel -> exists d ds, digits_of fuel 10 v = d :: ds /\ 1 <= d.
Proof.
  revert v. induction fuel as [|fuel IH]; intros v Hv; [cbn in Hv; lia|].
  rewrite Nat2Z.inj_succ, Z.pow_succ_r in Hv by lia. cbn [digits_of].
  destruct (Z.ltb_spec v 10); [exists v, []; split; [done|lia]|].
  destruct (IH (v / 10)) as (d & ds & -> & Hd); [Z.to_euclidean_division_equations; lia|].
  exists d, (ds ++ [v mod 10]). done.
Qed.

(** The decimal text of a number: ["0"], or digits the first of which is not
    zero. *)
Lemma number_text v :
  0 <= v < 2 ^ 32 ->
  (v = 0 /\ fmt_u v = [48]) \/
  exists d ds, fmt_u v = map digit_char (d :: ds) /\ 1 <= d < 10 /\ digits_ok (d :: ds) /\
               number 10 (d :: ds) = v.
Proof.
  intros Hv.
  pose proof (digits_of_range 20 10 v ltac:(lia) ltac:(lia)) as Hr.
  pose proof (digits_of_number 20 10 v ltac:(lia) ltac:(lia)) as Hn.
  destruct (Z.eq_dec v 0) as [->|Hz]; [by left|right].
  destruct (digits_of_head 20 v) as (d & ds & E & Hd); [lia|].
  unfold fmt_u. rewrite E in *. exists d, ds. inversion Hr as [|? ? Hd' Hds]; subst.
  split; [done|]. split; [lia|]. by split.
Qed.

Lemma uwrap_mul_add w x k d : uwrap w (uwrap w (uwrap w x * k) + d) = uwrap w (x * k + d).
Proof.
  unfold uwrap. rewrite Zplus_mod_idemp_l.
  rewrite (Zplus_mod (x mod 2 ^ w * k)), Zmult_mod_idemp_l, <- Zplus_mod. done.
Qed.

Lemma digit_char_facts d :
  0 <= d < 10 ->
  isdigit (digit_char d) = true /\ isascii (digit_char d) = true /\ digit_char d - 48 = d.
Proof. intros H. rewrite digit_char_u by done. unfold isdigit, isascii. by bdecide; auto with lia. Qed.

(** What may follow a number in an address. *)
Definition stop (s : list Z) : Prop :=
  isdigit (cur s) = false /\ cur s <> 120 /\ cur s <> 88.

Lemma pton4_digits_dec ds rest : forall val,
  digits_ok ds -> stop rest ->
  pton4_digits 10 (u32 val) (map digit_char ds ++ rest) =
  (u32 (fold_left (fun a d => a * 10 + d) ds val), rest).
Proof.
  induction ds as [|d ds IH]; intros val Hds Hs.
  - destruct rest as [|c rest]; [done|]. destruct Hs as [Hd _]. cbn in Hd |- *. by rewrite Hd.
  - inversion Hds as [|? ? Hx Hds']; subst. destruct (digit_char_facts d Hx) as (E & _ & Ed).
    cbn [map app pton4_digits fold_left]. rewrite E, Ed, (proj2 (Z.leb_gt _ _)) by lia.
    rewrite <- (IH (val * 10 + d)) by done. unfold u32. by rewrite uwrap_mul_add.
Qed.

Lemma aton_digits_dec ds rest : forall val digit,
  digits_ok ds -> stop rest ->
  aton_digits 10 (u32 val) digit (map digit_char ds ++ rest) =
  Some (u32 (fold_left (fun a d => a * 10 + d) ds val), digit || negb (bool_decide (ds = [])), rest).
Proof.
  intros val digit Hds Hs. revert val digit.
  induction ds as [|d ds IH]; intros val digit.
  - rewrite bool_decide_true by done. rewrite orb_false_r.
    destruct rest as [|c rest]; [done|]. destruct Hs as [Hd _]. cbn in Hd |- *.
    by rewrite Hd, andb_false_r.
  - inversion Hds as [|? ? Hx Hds']; subst. destruct (digit_char_facts d Hx) as (E & E' & Ed).
    cbn [map app aton_digits fold_left]. rewrite E, E', Ed. cbn [andb Z.eqb Pos.eqb].
    unfold u32 in *. rewrite uwrap_mul_add, IH by done. cbn [orb]. rewrite bool_decide_false by done.
    by rewrite orb_true_r.
Qed.

Lemma network_digits_dec ds rest : forall val digit,
  digits_ok ds -> stop rest ->
  network_digits 10 (u32 val) digit (map digit_char ds ++ rest) =
  Some (u32 (fold_left (fun a d => a * 10 + d) ds val), digit || negb (bool_decide (ds = [])), rest).
Proof.
  intros val digit Hds Hs. revert val digit.
  induction ds as [|d ds IH]; intros val digit.
  - rewrite bool_decide_true by done. rewrite orb_false_r.
    destruct rest as [|c rest]; [done|]. destruct Hs as [Hd _]. cbn in Hd |- *. by rewrite Hd.
  - inversion Hds as [|? ? Hx Hds']; subst. destruct (digit_char_facts d Hx) as (E & E' & Ed).
    cbn [map app network_digits fold_left]. rewrite E, Ed. cbn [andb Z.eqb Pos.eqb].
    unfold u32 in *. rewrite uwrap_mul_add, IH by done. cbn [orb]. rewrite bool_decide_false by done.
    by rewrite orb_true_r.
Qed.

(** A number in decimal, read by each of the parsers. *)
Section Byte.
Variables (v : Z) (rest : list Z).
Hypothesis Hv : 0 <= v < 2 ^ 32.
Hypothesis Hs : stop rest.

Lemma byte_number ds : number 10 ds = v -> u32 (fold_left (fun a d => a * 10 + d) ds 0) = v.
Proof. intros <-. fold (number 10 ds). apply uwrap_id. lia. Qed.

Lemma fmt_u_head d ds : 1 <= d < 10 ->
  isdigit (digit_char d) = true /\ digit_char d =? 48 = false /\ digit_char d =? 120 = false /\
  digit_char d =? 88 = false /\ cur (map digit_char (d :: ds) ++ rest) = digit_char d.
Proof.
  intros Hd. cbn. rewrite digit_char_u by lia. unfold isdigit. by bdecide.
Qed.

Lemma pton4_number :
  exists s, pton4_base (fmt_u v ++ rest) = Some (10, s) /\ pton4_digits 10 0 s = (v, rest).
Proof.
  destruct (number_text v Hv) as [[-> ->]|(d & ds & -> & Hd & Hds & Hn)].
  - exists rest. destruct Hs as (H1 & H2 & H3). unfold pton4_base.
    cbn [app cur hd tl]. rewrite H1. change (isdigit 48) with true. change (48 =? 48) with true.
    cbn [negb andb]. rewrite !(proj2 (Z.eqb_neq _ _)) by done. split; [done|].
    apply (pton4_digits_dec [] rest 0); [constructor|done].
  - exists (map digit_char (d :: ds) ++ rest). destruct (fmt_u_head d ds Hd) as (E1 & E2 & _ & _ & E3).
    unfold pton4_base. rewrite E3, E1, E2. split; [done|].
    change 0 with (u32 0). rewrite pton4_digits_dec by done. by rewrite byte_number.
Qed.

Lemma aton_number :
  exists base digit s, aton_base (fmt_u v ++ rest) = Some (base, digit, s) /\
                       aton_digits base 0 digit s = Some (v, true, rest).
Proof.
  destruct (number_text v Hv) as [[-> ->]|(d & ds & -> & Hd & Hds & Hn)].
  - exists 8, true, rest. destruct Hs as (H1 & H2 & H3). unfold aton_base.
    cbn [app cur hd tl]. change (isdigit 48) with true. change (48 =? 48) with true.
    cbn [negb]. rewrite !(proj2 (Z.eqb_neq _ _)) by done. split; [done|].
    destruct rest as [|c r]; [done|]. cbn in H1 |- *. by rewrite H1, andb_false_r.
  - exists 10, false, (map digit_char (d :: ds) ++ rest).
    destruct (fmt_u_head d ds Hd) as (E1 & E2 & _ & _ & E3).
    unfold aton_base. rewrite E3, E1, E2. split; [done|].
    change 0 with (u32 0). rewrite aton_digits_dec by done. by rewrite byte_number.
Qed.

Lemma network_number :
  exists base digit s, network_prefix (fmt_u v ++ rest) = (digit, base, s) /\
                       network_digits base 0 digit s = Some (v, true, rest).
Proof.
  destruct (number_text v Hv) as [[-> ->]|(d & ds & -> & Hd & Hds & Hn)].
  - exists 8, true, rest. destruct Hs as (H1 & H2 & H3). unfold network_prefix.
    cbn [app cur hd tl]. change (48 =? 48) with true.
    cbv iota beta zeta. rewrite !(proj2 (Z.eqb_neq _ _)) by done. split; [done|].
    destruct rest as [|c r]; [done|]. cbn in H1 |- *. by rewrite H1.
  - exists 10, false, (map digit_char (d :: ds) ++ rest).
    destruct (fmt_u_head d ds Hd) as (_ & E1 & E2 & E3 & E4).
    unfold network_prefix. rewrite E4, E1. cbv iota beta zeta. rewrite E4, E2, E3. split; [done|].
    change 0 with (u32 0). rewrite network_digits_dec by done. by rewrite byte_number.
Qed.
End Byte.

(** ** The bytes of an address *)

Lemma lor_range a b n : 0 <= n -> 0 <= a < 2 ^ n -> 0 <= b < 2 ^ n -> 0 <= Z.lor a b < 2 ^ n.
Proof.
  intros Hn Ha Hb. assert (H0 : 0 <= Z.lor a b) by (apply Z.lor_nonneg; lia). split; [done|].
  destruct (Z.eq_dec (Z.lor a b) 0) as [->|Hz]; [lia|].
  destruct (Z.eq_dec n 0) as [->|]; [replace a with 0 in * by lia; replace b with 0 in * by lia; done|].
  apply Z.log2_lt_pow2; [lia|]. rewrite Z.log2_lor by lia.
  apply Z.max_lub_lt.
  - destruct (Z.eq_dec a 0) as [->|]; [cbn; lia|]. apply Z.log2_lt_pow2; lia.
  - destruct (Z.eq_dec b 0) as [->|]; [cbn; lia|]. apply Z.log2_lt_pow2; lia.
Qed.

Lemma ntohl_value a b c d :
  bytes_ok [a; b; c; d] ->
  ntohl_bytes [a; b; c; d] = a * 2 ^ 24 + (b * 2 ^ 16 + (c * 2 ^ 8 + d)).
Proof.
  intros H. unfold bytes_ok in H. rewrite !Forall_cons_iff in H. unfold byte_ok in H.
  destruct H as (Ha & Hb & Hc & Hd & _). unfold ntohl_bytes.
  rewrite (lor_shiftl_add c d 8), (lor_shiftl_add b), (lor_shiftl_add a) by lia. done.
Qed.

Lemma htonl_value v :
  0 <= v < 2 ^ 32 ->
  htonl_bytes v = [v / 2 ^ 24; v / 2 ^ 16 mod 256; v / 2 ^ 8 mod 256; v mod 256].
Proof.
  intros Hv. unfold htonl_bytes. change 255 with (Z.ones 8).
  rewrite !Z.land_ones, !Z.shiftr_div_pow2 by lia.
  rewrite (Z.mod_small (v / 2 ^ 24)) by (Z.to_euclidean_division_equations; lia). done.
Qed.

Lemma htonl_ntohl a b c d :
  bytes_ok [a; b; c; d] -> htonl_bytes (ntohl_bytes [a; b; c; d]) = [a; b; c; d].
Proof.
  intros H. rewrite ntohl_value by done. unfold bytes_ok in H. rewrite !Forall_cons_iff in H.
  unfold byte_ok in H. destruct H as (Ha & Hb & Hc & Hd & _). rewrite htonl_value by lia.
  repeat f_equal; Z.to_euclidean_division_equations; lia.
Qed.

Lemma ntohl_htonl v : 0 <= v < 2 ^ 32 -> ntohl_bytes (htonl_bytes v) = v.
Proof.
  intros Hv. rewrite htonl_value by done. rewrite ntohl_value.
  - Z.to_euclidean_division_equations; lia.
  - unfold bytes_ok. rewrite !Forall_cons_iff. unfold byte_ok.
    repeat (split; [Z.to_euclidean_division_equations; lia|]). constructor.
Qed.

(** The parts put together, in the order of the parsers. *)
Lemma parts_value a b c d :
  bytes_ok [a; b; c; d] ->
  Z.lor d (Z.lor (Z.lor (u32 (Z.shiftl a 24)) (u32 (Z.shiftl b 16))) (u32 (Z.shiftl c 8))) =
  ntohl_bytes [a; b; c; d].
Proof.
  intros H. unfold bytes_ok in H. rewrite !Forall_cons_iff in H. unfold byte_ok in H.
  destruct H as (Ha & Hb & Hc & Hd & _). unfold u32.
  rewrite !uwrap_id by (rewrite Z.shiftl_mul_pow2; lia). unfold ntohl_bytes.
  rewrite (Z.lor_comm d), <- !Z.lor_assoc. done.
Qed.

Lemma lor_shl32 x y :
  0 <= x < 2 ^ 24 -> 0 <= y < 256 -> Z.lor (u32 (Z.shiftl x 8)) y = x * 256 + y.
Proof.
  intros Hx Hy. unfold u32. rewrite uwrap_id by (rewrite Z.shiftl_mul_pow2; lia).
  by rewrite lor_shiftl_add by lia.
Qed.

(** ** Dotted quads *)

(** What may follow an address: nothing, or white space and anything. *)
Definition tail_ok (s : list Z) : Prop := s = [] \/ isspace (cur s) = true.

Lemma tail_stop s : tail_ok s -> stop s /\ cur s =? 46 = false.
Proof.
  intros [->|H]; [done|]. unfold stop, isdigit, isspace in *.
  destruct (Z.eqb_spec (cur s) 32) as [->|]; [done|]. cbn [orb] in H. zbool.
  split; [split; [|lia]|lia]. all: bdecide; done.
Qed.

Lemma byte_32 v : byte_ok v -> 0 <= v < 2 ^ 32.
Proof. unfold byte_ok. lia. Qed.

Lemma dot_stop s : stop (46 :: s).
Proof. done. Qed.

Section Quad.
Variables (a b c d : Z) (tail : list Z).
Hypothesis Hb : bytes_ok [a; b; c; d].
Hypothesis Ht : tail_ok tail.

Lemma quad_bytes : byte_ok a /\ byte_ok b /\ byte_ok c /\ byte_ok d.
Proof.
  unfold bytes_ok in Hb. rewrite !Forall_cons_iff in Hb. tauto.
Qed.

Lemma tail_end : negb (cur tail =? 0) && negb (isspace (cur tail)) = false.
Proof. destruct Ht as [->|H]; [done|]. by rewrite H, andb_false_r. Qed.

Lemma aton_end :
  negb (cur tail =? 0) && (negb (isascii (cur tail)) || negb (isspace (cur tail))) = false.
Proof.
  destruct Ht as [->|H]; [done|]. rewrite H. replace (isascii (cur tail)) with true;
    [by rewrite andb_false_r|]. unfold isspace, isascii in *.
  destruct (Z.eqb_spec (cur tail) 32) as [->|]; [done|]. cbn [orb] in H. zbool. by bdecide.
Qed.

Lemma pton4_dot pton v s parts :
  byte_ok v -> zlen parts < 3 ->
  pton4_body pton (fmt_u v ++ 46 :: s, parts) = Ok (inl (s, parts ++ [v])).
Proof.
  intros Hv Hp. unfold pton4_body.
  destruct (pton4_number v (46 :: s) (byte_32 v Hv) (dot_stop s)) as (s' & -> & ->).
  rewrite andb_false_r. cbn [cur hd tl]. by bdecide.
Qed.

Lemma inet_pton4_quad pton :
  inet_pton4 (dotted [a; b; c; d] ++ tail) pton = Ok (Some [a; b; c; d]).
Proof.
  destruct quad_bytes as (Ha & Hb' & Hc & Hd). unfold inet_pton4, dotted.
  destruct (tail_stop tail Ht) as [Hs Hdot].
  rewrite <- !app_assoc, <- !app_comm_cons, <- !app_assoc, <- !app_comm_cons, <- !app_assoc, <- app_comm_cons.
  rewrite (loop_next _ _ _ _ (pton4_dot pton a _ [] Ha eq_refl)).
  rewrite (loop_next _ _ _ _ (pton4_dot pton b _ [a] Hb' eq_refl)).
  rewrite (loop_next _ _ _ _ (pton4_dot pton c _ [a; b] Hc eq_refl)).
  rewrite (loop_exit _ _ _ (Some (d, tail, [a; b; c]))).
  2: { unfold pton4_body. destruct (pton4_number d tail (byte_32 d Hd) Hs) as (s' & -> & ->).
       by rewrite andb_false_r, Hdot. }
  cbn [obind]. rewrite tail_end. unfold pton4_concoct.
  change (zlen [a; b; c] + 1 =? 4) with true. rewrite andb_false_r.
  assert (0 <= Z.lor (Z.lor (Z.lor a b) c) d < 2 ^ 8) by (repeat apply lor_range; done).
  rewrite (proj2 (Z.ltb_ge _ _)) by lia. by rewrite parts_value, htonl_ntohl.
Qed.

Lemma aton_dot v s parts :
  byte_ok v -> zlen parts < 3 ->
  aton_body (fmt_u v ++ 46 :: s, parts) = Ok (inl (s, parts ++ [v])).
Proof.
  intros Hv Hp. unfold aton_body.
  destruct (aton_number v (46 :: s) (byte_32 v Hv) (dot_stop s)) as (base & digit & s' & -> & ->).
  cbn [cur hd tl]. unfold byte_ok in Hv. unfold u8. rewrite uwrap_id by lia. by bdecide.
Qed.

Lemma inet_aton_quad : inet_aton (dotted [a; b; c; d] ++ tail) = Ok (Some [a; b; c; d]).
Proof.
  destruct quad_bytes as (Ha & Hb' & Hc & Hd). unfold inet_aton, dotted.
  destruct (tail_stop tail Ht) as [Hs Hdot].
  rewrite <- !app_assoc, <- !app_comm_cons, <- !app_assoc, <- !app_comm_cons, <- !app_assoc, <- app_comm_cons.
  rewrite (loop_next _ _ _ _ (aton_dot a _ [] Ha eq_refl)).
  rewrite (loop_next _ _ _ _ (aton_dot b _ [a] Hb' eq_refl)).
  rewrite (loop_next _ _ _ _ (aton_dot c _ [a; b] Hc eq_refl)).
  rewrite (loop_exit _ _ _ (Some (d, true, tail, [a; b; c]))).
  2: { unfold aton_body. destruct (aton_number d tail (byte_32 d Hd) Hs) as (base & digit & s' & -> & ->).
       by rewrite Hdot. }
  cbn [obind].
  rewrite aton_end. unfold aton_concoct. unfold byte_ok in *.
  rewrite (proj2 (Z.ltb_ge _ _)) by lia. cbn [negb].
  pose proof (parts_value a b c d Hb) as Hv. unfold u32 in *.
  rewrite (uwrap_id 32 (Z.shiftl b 16)), (uwrap_id 32 (Z.shiftl c 8)) in Hv
    by (rewrite Z.shiftl_mul_pow2; lia).
  by rewrite Hv, htonl_ntohl.
Qed.

Lemma network_dot v s parts :
  byte_ok v -> zlen parts < 4 ->
  network_body (fmt_u v ++ 46 :: s, parts) = Ok (inl (s, parts ++ [v])).
Proof.
  intros Hv Hp. unfold network_body.
  destruct (network_number v (46 :: s) (byte_32 v Hv) (dot_stop s)) as (base & digit & s' & -> & ->).
  cbn [cur hd tl negb]. unfold byte_ok in Hv. by bdecide.
Qed.

Lemma inet_network_quad :
  inet_network (dotted [a; b; c; d] ++ tail) = Ok (ntohl_bytes [a; b; c; d]).
Proof.
  destruct quad_bytes as (Ha & Hb' & Hc & Hd). unfold inet_network, dotted.
  destruct (tail_stop tail Ht) as [Hs Hdot].
  rewrite <- !app_assoc, <- !app_comm_cons, <- !app_assoc, <- !app_comm_cons, <- !app_assoc, <- app_comm_cons.
  rewrite (loop_next _ _ _ _ (network_dot a _ [] Ha eq_refl)).
  rewrite (loop_next _ _ _ _ (network_dot b _ [a] Hb' eq_refl)).
  rewrite (loop_next _ _ _ _ (network_dot c _ [a; b] Hc eq_refl)).
  rewrite (loop_exit _ _ _ (Some [a; b; c; d])).
  2: { unfold network_body. destruct (network_number d tail (byte_32 d Hd) Hs) as (base & digit & s' & -> & ->).
       rewrite Hdot, tail_end. unfold byte_ok in Hd. change (4 <=? zlen [a; b; c]) with false.
       by bdecide. }
  cbn [obind fold_left]. f_equal. rewrite ntohl_value by done. unfold byte_ok in *.
  change 255 with (Z.ones 8). rewrite !Z.land_ones, !(Z.mod_small _ (2 ^ 8)) by lia.
  rewrite (lor_shl32 0 a), (lor_shl32 (0 * 256 + a) b), (lor_shl32 ((0 * 256 + a) * 256 + b) c),
    (lor_shl32 (((0 * 256 + a) * 256 + b) * 256 + c) d) by lia. lia.
Qed.
End Quad.

(** A dot after the last part. *)
Lemma inet_network_dot a b c d :
  bytes_ok [a; b; c; d] -> inet_network (dotted [a; b; c; d] ++ [46]) = Ok INADDR_NONE.
Proof.
  intros Hb. destruct (quad_bytes a b c d Hb) as (Ha & Hb' & Hc & Hd). unfold inet_network, dotted.
  repeat (rewrite <- app_assoc; cbn [app]).
  rewrite (loop_next _ _ _ _ (network_dot a _ [] Ha eq_refl)).
  rewrite (loop_next _ _ _ _ (network_dot b _ [a] Hb' eq_refl)).
  rewrite (loop_next _ _ _ _ (network_dot c _ [a; b] Hc eq_refl)).
  rewrite (loop_next _ _ _ _ (network_dot d _ [a; b; c] Hd eq_refl)).
  by rewrite (loop_exit _ _ _ None).
Qed.

Lemma fmt_byte_len v : byte_ok v -> 1 <= zlen (fmt_u v) <= 3.
Proof.
  intros Hv.
  assert (H : (1 <=? zlen (fmt_u v)) && (zlen (fmt_u v) <=? 3) = true).
  { apply (forall_upto (fun v => (1 <=? zlen (fmt_u v)) && (zlen (fmt_u v) <=? 3)) 256);
      [reflexivity|exact Hv]. }
  zbool. lia.
Qed.

Lemma dotted_len a b c d : bytes_ok [a; b; c; d] -> 7 <= zlen (dotted [a; b; c; d]) <= 15.
Proof.
  intros H. destruct (quad_bytes a b c d H) as (Ha & Hb & Hc & Hd).
  pose proof (fmt_byte_len a Ha). pose proof (fmt_byte_len b Hb).
  pose proof (fmt_byte_len c Hc). pose proof (fmt_byte_len d Hd).
  unfold dotted. zl.
Qed.

Lemma inet_ntop4_quad a b c d size :
  bytes_ok [a; b; c; d] -> 0 <= size ->
  inet_ntop4 [a; b; c; d] size =
  if zlen (dotted [a; b; c; d]) <? size then Ok (dotted [a; b; c; d]) else Err ENONE.
Proof.
  intros Hb Hsize. pose proof (dotted_len a b c d Hb). unfold inet_ntop4, u32.
  rewrite uwrap_id by lia. rewrite (proj2 (Z.leb_gt _ 0)) by lia. cbn [orb].
  rewrite Z.leb_antisym. destruct (Z.ltb_spec (zlen (dotted [a; b; c; d])) size); cbn [negb]; [|done].
  f_equal. unfold zlen in *. rewrite !take_ge; [done|lia|rewrite ?length_take; lia].
Qed.

(** An IPv4 address survives the trip through text.  [inet_ntop4] writes
    the dotted quad of four bytes when it fits with its terminator (and
    otherwise returns NULL, without setting [errno]); every parser reads the
    same address from it: [inet_pton4] in both modes and [inet_aton], also
    when white space and then anything follows, and [inet_network] as a
    number. *)
Theorem inet4_round_trip a b c d size tail :
  bytes_ok [a; b; c; d] -> tail_ok tail -> 0 <= size ->
  inet_ntop4 [a; b; c; d] size =
    (if zlen (dotted [a; b; c; d]) <? size then Ok (dotted [a; b; c; d]) else Err ENONE) /\
  (forall pton, inet_pton4 (dotted [a; b; c; d] ++ tail) pton = Ok (Some [a; b; c; d])) /\
  inet_aton (dotted [a; b; c; d] ++ tail) = Ok (Some [a; b; c; d]) /\
  inet_network (dotted [a; b; c; d] ++ tail) = Ok (ntohl_bytes [a; b; c; d]).
Proof.
  intros Hb Ht Hsize. split; [by apply inet_ntop4_quad|].
  split; [intros; by apply inet_pton4_quad|].
  split; [by apply inet_aton_quad|by apply inet_network_quad].
Qed.

Lemma inet4_round_trip_witness :
  inet_ntop4 [192; 0; 2; 255] 16 = Ok (str "192.0.2.255") /\
  inet_pton4 (str "192.0.2.255 up") true = Ok (Some [192; 0; 2; 255]).
Proof.
  destruct (inet4_round_trip 192 0 2 255 16 (str " up")) as (H1 & H2 & _);
    [repeat constructor; done|right; reflexivity|lia|].
  split; [exact H1|exact (H2 true)].
Defined.

(** ** Shorthand *)

(** The text of an address in parts, and its value: every part but the last
    is a byte, the last fills the rest. *)
Definition parts_text (ps : list Z) (v : Z) : list Z :=
  fold_right (fun p s => fmt_u p ++ 46 :: s) (fmt_u v) ps.

Definition parts_addr (ps : list Z) (v : Z) : Z :=
  match ps with
  | [] => v
  | [a] => a * 2 ^ 24 + v
  | [a; b] => a * 2 ^ 24 + (b * 2 ^ 16 + v)
  | [a; b; c] => a * 2 ^ 24 + (b * 2 ^ 16 + (c * 2 ^ 8 + v))
  | _ => 0
  end.

Definition shorthand (ps : list Z) (v : Z) : option (list Z) :=
  if v <? 2 ^ (32 - 8 * zlen ps) then Some (htonl_bytes (parts_addr ps v)) else None.

(** Running a loop over the parts before the last. *)
Lemma loop_parts {R} (body : list Z * list Z -> outcome ((list Z * list Z) + R)) ps v tail r fuel :
  (forall p s parts, byte_ok p -> zlen parts < 3 ->
     body (fmt_u p ++ 46 :: s, parts) = Ok (inl (s, parts ++ [p]))) ->
  body (fmt_u v ++ tail, ps) = Ok (inr r) -> bytes_ok ps -> zlen ps <= 3 ->
  (length ps < fuel)%nat ->
  loop fuel body (parts_text ps v ++ tail, []) = Ok r.
Proof.
  intros Hdot Hlast Hps Hlen.
  cut (forall qs qs' fuel, ps = qs' ++ qs -> (length qs < fuel)%nat ->
    loop fuel body (parts_text qs v ++ tail, qs') = Ok r); [intros H; by apply (H ps [])|].
  clear fuel. induction qs as [|q qs IH]; intros qs' fuel E Hf; (destruct fuel as [|fuel]; [lia|]).
  - rewrite app_nil_r in E. subst qs'. by apply loop_exit.
  - cbn [parts_text fold_right]. fold (parts_text qs v). rewrite <- app_assoc, <- app_comm_cons.
    assert (Hl : zlen ps = zlen qs' + zlen qs + 1) by (subst ps; zl). pose proof (zlen_nonneg qs).
    rewrite (loop_next _ _ _ (parts_text qs v ++ tail, qs' ++ [q])).
    + apply IH; [by rewrite <- app_assoc|cbn in Hf; lia].
    + apply Hdot; [|lia]. subst ps. apply Forall_app in Hps as [_ Hps]. by inversion Hps.
Qed.

Lemma ps_cases (ps : list Z) : zlen ps <= 3 ->
  ps = [] \/ (exists a, ps = [a]) \/ (exists a b, ps = [a; b]) \/ (exists a b c, ps = [a; b; c]).
Proof.
  destruct ps as [|a [|b [|c [|d ps]]]]; intros H; eauto 8.
  pose proof (zlen_nonneg ps). zlen_facts. unfold zlen in *. cbn in *. lia.
Qed.

Lemma lor_tail v n k : 0 <= n -> 0 <= v < 2 ^ n -> Z.lor v (Z.shiftl k n) = k * 2 ^ n + v.
Proof. intros. by rewrite Z.lor_comm, lor_shiftl_add. Qed.

Lemma concoct_value ps v :
  bytes_ok ps -> 0 <= v < 2 ^ 32 -> zlen ps <= 3 ->
  aton_concoct v ps = (if v <? 2 ^ (32 - 8 * zlen ps) then Some (parts_addr ps v) else None) /\
  pton4_concoct false v ps = aton_concoct v ps.
Proof.
  intros Hps Hv Hlen. destruct (ps_cases ps Hlen) as [->|[(a & ->)|[(a & b & ->)|(a & b & c & ->)]]];
    unfold bytes_ok in Hps; rewrite ?Forall_cons_iff in Hps; unfold byte_ok in Hps;
    cbn [aton_concoct pton4_concoct parts_addr andb].
  - change (2 ^ (32 - 8 * zlen (@nil Z))) with (2 ^ 32). by bdecide.
  - change (2 ^ (32 - 8 * zlen [a])) with (2 ^ 24). rewrite (proj2 (Z.ltb_ge 255 a)) by lia. cbn [orb].
    rewrite Z.ltb_antisym. replace (v <=? 16777215) with (v <? 2 ^ 24) by
      (destruct (Z.ltb_spec v (2 ^ 24)), (Z.leb_spec v 16777215); lia).
    destruct (Z.ltb_spec v (2 ^ 24)); [|done]. cbn [negb]. unfold u32.
    rewrite uwrap_id by (rewrite Z.shiftl_mul_pow2; lia). by rewrite lor_tail by lia.
  - change (2 ^ (32 - 8 * zlen [a; b])) with (2 ^ 16).
    assert (0 <= Z.lor a b < 2 ^ 8) by (apply lor_range; lia).
    rewrite (proj2 (Z.ltb_ge 255 _)) by lia. cbn [orb].
    rewrite Z.ltb_antisym. replace (v <=? 65535) with (v <? 2 ^ 16) by
      (destruct (Z.ltb_spec v (2 ^ 16)), (Z.leb_spec v 65535); lia).
    destruct (Z.ltb_spec v (2 ^ 16)); [|done]. cbn [negb]. unfold u32.
    rewrite !uwrap_id by (rewrite Z.shiftl_mul_pow2; lia).
    rewrite (Z.lor_comm (Z.shiftl a 24)), Z.lor_assoc, (lor_tail v 16 b), (lor_tail _ 24 a) by lia. done.
  - change (2 ^ (32 - 8 * zlen [a; b; c])) with (2 ^ 8).
    assert (Hp : 0 <= Z.lor (Z.lor a b) c < 2 ^ 8) by (repeat apply lor_range; lia).
    assert (E : 255 <? Z.lor (Z.lor (Z.lor a b) c) v = (255 <? v)).
    { destruct (Z.ltb_spec 255 v).
      - apply Z.ltb_lt. apply Z.nle_gt. intros Hle.
        assert (v < 2 ^ 8); [|lia]. destruct (Z.eq_dec v 0) as [->|]; [done|].
        apply Z.log2_lt_pow2; [lia|]. apply Z.le_lt_trans with (Z.log2 (Z.lor (Z.lor (Z.lor a b) c) v)).
        + rewrite (Z.log2_lor _ v) by lia. lia.
        + apply Z.log2_lt_pow2; [|lia]. assert (0 <= Z.lor (Z.lor (Z.lor a b) c) v) by (apply Z.lor_nonneg; lia).
          assert (Z.lor (Z.lor (Z.lor a b) c) v <> 0) by (rewrite Z.lor_eq_0_iff; lia). lia.
      - apply Z.ltb_ge. assert (0 <= Z.lor (Z.lor (Z.lor a b) c) v < 2 ^ 8) by (apply lor_range; lia). lia. }
    rewrite E, Z.ltb_antisym. replace (v <=? 255) with (v <? 2 ^ 8) by
      (destruct (Z.ltb_spec v (2 ^ 8)), (Z.leb_spec v 255); lia).
    destruct (Z.ltb_spec v (2 ^ 8)); [|done]. cbn [negb]. unfold u32.
    rewrite !uwrap_id by (rewrite Z.shiftl_mul_pow2; lia).
    rewrite (Z.lor_comm _ (Z.shiftl c 8)), Z.lor_assoc, (lor_tail v 8 c) by lia.
    rewrite (Z.lor_comm (Z.shiftl a 24)), Z.lor_assoc, (lor_tail _ 16 b), (lor_tail _ 24 a) by lia. done.
Qed.

(** An address in one to four decimal parts, each part but the last a
    byte, stands for the bytes of these parts followed by the last part in
    the 32, 24, 16 or 8 bits that are left, and is no address when the last
    part is too big for them.  [inet_aton] and [inet_pton4] without [pton]
    agree on that; with [pton] only four parts are an address. *)
Theorem inet_aton_shorthand ps v tail :
  bytes_ok ps -> zlen ps <= 3 -> 0 <= v < 2 ^ 32 -> tail_ok tail ->
  inet_aton (parts_text ps v ++ tail) = Ok (shorthand ps v) /\
  inet_pton4 (parts_text ps v ++ tail) false = Ok (shorthand ps v) /\
  inet_pton4 (parts_text ps v ++ tail) true = Ok (if zlen ps =? 3 then shorthand ps v else None).
Proof.
  intros Hps Hlen Hv Ht. destruct (tail_stop tail Ht) as [Hs Hdot].
  destruct (concoct_value ps v Hps Hv Hlen) as [Hc Hc'].
  assert (Hf : (length ps < 5)%nat) by (unfold zlen in Hlen; lia). split; [|].
  - unfold inet_aton. rewrite (loop_parts _ ps v tail (Some (v, true, tail, ps))); try done.
    + cbn [obind negb]. rewrite aton_end by done. rewrite Hc. unfold shorthand.
      by destruct (v <? _).
    + intros. by apply aton_dot.
    + unfold aton_body. destruct (aton_number v tail Hv Hs) as (base & digit & s' & -> & ->).
      by rewrite Hdot.
  - assert (Hp : forall pton, inet_pton4 (parts_text ps v ++ tail) pton =
      Ok (htonl_bytes <$> pton4_concoct pton v ps)).
    { intros pton. unfold inet_pton4.
      rewrite (loop_parts _ ps v tail (Some (v, tail, ps))); try done.
      - cbn [obind]. rewrite tail_end by done. by destruct (pton4_concoct pton v ps).
      - intros. by apply pton4_dot.
      - unfold pton4_body. destruct (pton4_number v tail Hv Hs) as (s' & -> & ->).
        by rewrite andb_false_r, Hdot. }
    rewrite !Hp, Hc', Hc. unfold shorthand. split; [by destruct (v <? _)|].
    unfold pton4_concoct. destruct (Z.eqb_spec (zlen ps) 3) as [E|E].
    + rewrite (proj2 (Z.eqb_eq (zlen ps + 1) 4)) by lia. cbn [negb andb].
      change (Ok (htonl_bytes <$> pton4_concoct false v ps) = Ok (shorthand ps v)).
      rewrite Hc', Hc. unfold shorthand. by destruct (v <? _).
    + by rewrite (proj2 (Z.eqb_neq (zlen ps + 1) 4)) by lia.
Qed.

Lemma inet_aton_shorthand_witness :
  inet_aton (str "10.258") = Ok (Some [10; 0; 1; 2]) /\ inet_aton (str "10.16777216") = Ok None.
Proof.
  destruct (inet_aton_shorthand [10] 258 []) as (H1 & _);
    [repeat constructor; done|done|lia|by left|].
  destruct (inet_aton_shorthand [10] 16777216 []) as (H2 & _);
    [repeat constructor; done|done|lia|by left|].
  split; [exact H1|exact H2].
Defined.

(** ** Classes *)

Lemma land_low x n m : m = Z.ones n -> 0 <= n -> Z.land x m = x mod 2 ^ n.
Proof. intros -> Hn. by apply Z.land_ones. Qed.

(** The bits of a mask above the low [n] ones. *)
Lemma land_high x n m :
  m = 2 ^ 32 - 2 ^ n -> 0 <= n <= 32 -> 0 <= x < 2 ^ 32 -> Z.land x m = x / 2 ^ n * 2 ^ n.
Proof.
  intros -> Hn Hx. rewrite <- Z.shiftl_mul_pow2, <- Z.shiftr_div_pow2 by lia.
  apply Z.bits_inj'. intros i Hi.
  replace (2 ^ 32 - 2 ^ n) with (Z.shiftl (Z.ones (32 - n)) n).
  2: { rewrite Z.shiftl_mul_pow2, Z.ones_equiv by lia. unfold Z.pred.
       rewrite Z.mul_add_distr_r, <- Z.pow_add_r by lia. replace (32 - n + n) with 32 by lia. lia. }
  rewrite Z.land_spec, !Z.shiftl_spec by lia.
  destruct (Z.lt_ge_cases i n).
  - rewrite !(Z.testbit_neg_r _ (i - n)) by lia. by rewrite andb_false_r.
  - rewrite Z.shiftr_spec by lia. replace (i - n + n) with i by lia.
    destruct (Z.lt_ge_cases i 32).
    + rewrite Z.ones_spec_low by lia. by rewrite andb_true_r.
    + rewrite Z.ones_spec_high by lia. rewrite andb_false_r. symmetry.
      rewrite <- (Z.mod_small x (2 ^ 32)) by lia. apply Z.mod_pow2_bits_high. lia.
Qed.

Lemma classes i :
  0 <= i < 2 ^ 32 ->
  IN_CLASSA i = (i <? 2 ^ 31) /\ (2 ^ 31 <= i -> IN_CLASSB i = (i <? 3 * 2 ^ 30)).
Proof.
  intros Hi. unfold IN_CLASSA, IN_CLASSB. rewrite (land_high i 31), (land_high i 30) by lia. split.
  - destruct (Z.ltb_spec i (2 ^ 31)), (Z.eqb_spec (i / 2 ^ 31 * 2 ^ 31) 0);
      try done; Z.to_euclidean_division_equations; lia.
  - intros Hi'. destruct (Z.ltb_spec i (3 * 2 ^ 30)), (Z.eqb_spec (i / 2 ^ 30 * 2 ^ 30) 2147483648);
      try done; Z.to_euclidean_division_equations; lia.
Qed.

Lemma makeaddr_join net host n :
  0 <= n -> 0 <= net -> 0 <= host < 2 ^ n -> net * 2 ^ n < 2 ^ 32 ->
  Z.lor (u32 (Z.shiftl net n)) host = net * 2 ^ n + host.
Proof.
  intros Hn Hnet Hh Hb. unfold u32.
  rewrite uwrap_id by (rewrite Z.shiftl_mul_pow2 by lia; nia). by apply lor_shiftl_add.
Qed.

(** The number of host bits of an address. *)
Definition host_bits (i : Z) : Z :=
  if i <? 2 ^ 31 then 24 else if i <? 3 * 2 ^ 30 then 16 else 8.

Lemma lnaof_netof i :
  0 <= i < 2 ^ 32 ->
  inet_lnaof (htonl_bytes i) = i mod 2 ^ host_bits i /\
  inet_netof (htonl_bytes i) = i / 2 ^ host_bits i.
Proof.
  intros Hi. unfold inet_lnaof, inet_netof, host_bits. rewrite ntohl_htonl by done.
  destruct (classes i Hi) as [-> HB].
  destruct (Z.ltb_spec i (2 ^ 31)) as [H|H]; [|rewrite HB by done; destruct (Z.ltb_spec i (3 * 2 ^ 30))].
  all: split; [by apply land_low|].
  1: rewrite (land_high i 24) by done.
  2: rewrite (land_high i 16) by done.
  3: rewrite (land_high i 8) by done.
  all: by rewrite Z.shiftr_div_pow2, Z.div_mul by lia.
Qed.

Lemma makeaddr_back i :
  0 <= i < 2 ^ 32 ->
  inet_makeaddr (i / 2 ^ host_bits i) (i mod 2 ^ host_bits i) = htonl_bytes i.
Proof.
  intros Hi. unfold inet_makeaddr. f_equal. unfold host_bits.
  destruct (Z.ltb_spec i (2 ^ 31)); [|destruct (Z.ltb_spec i (3 * 2 ^ 30))].
  - rewrite (proj2 (Z.ltb_lt _ 128)) by (Z.to_euclidean_division_equations; lia).
    rewrite (land_low _ 24), makeaddr_join by (done || (Z.to_euclidean_division_equations; lia)).
    Z.to_euclidean_division_equations; lia.
  - rewrite (proj2 (Z.ltb_ge _ 128)), (proj2 (Z.ltb_lt _ 65536))
      by (Z.to_euclidean_division_equations; lia).
    rewrite (land_low _ 16), makeaddr_join by (done || (Z.to_euclidean_division_equations; lia)).
    Z.to_euclidean_division_equations; lia.
  - rewrite (proj2 (Z.ltb_ge _ 128)), (proj2 (Z.ltb_ge _ 65536)), (proj2 (Z.ltb_lt _ 16777216))
      by (Z.to_euclidean_division_equations; lia).
    rewrite (land_low _ 8), makeaddr_join by (done || (Z.to_euclidean_division_equations; lia)).
    Z.to_euclidean_division_equations; lia.
Qed.

(** The network numbers of classes A, B and C, and their host bits. *)
Definition class_net (net : Z) : Prop :=
  0 <= net < 2 ^ 7 \/ 2 ^ 15 <= net < 3 * 2 ^ 14 \/ 3 * 2 ^ 22 <= net < 2 ^ 24.

Definition net_bits (net : Z) : Z := if net <? 2 ^ 7 then 24 else if net <? 2 ^ 16 then 16 else 8.

Lemma makeaddr_value net host (n := net_bits net) (i := net * 2 ^ n + host mod 2 ^ n) :
  0 <= host < 2 ^ 32 -> class_net net ->
  inet_makeaddr net host = htonl_bytes i /\ 0 <= i < 2 ^ 32 /\ host_bits i = n.
Proof.
  intros Hh Hnet. subst i n. unfold class_net in Hnet. unfold inet_makeaddr, host_bits, net_bits.
  change 128 with (2 ^ 7). change 65536 with (2 ^ 16).
  destruct (Z.ltb_spec net (2 ^ 7)); [|destruct (Z.ltb_spec net (2 ^ 16))].
  1: rewrite (land_low _ 24) by done. 2: rewrite (land_low _ 16) by done.
  3: rewrite (proj2 (Z.ltb_lt net 16777216)) by lia; rewrite (land_low _ 8) by done.
  all: rewrite makeaddr_join by (Z.to_euclidean_division_equations; lia).
  all: split; [done|]; split; [Z.to_euclidean_division_equations; lia|].
  all: repeat case_match; zbool; try done; Z.to_euclidean_division_equations; lia.
Qed.

(** The class functions take an address apart and put it together.  The
    network and local parts of every address give it back through
    [inet_makeaddr]; and an address made from a network number of class A, B
    or C and a host number has this network number, and the host number cut
    to the bits of its class. *)
Theorem inet_class_split :
  (forall i, 0 <= i < 2 ^ 32 ->
     inet_makeaddr (inet_netof (htonl_bytes i)) (inet_lnaof (htonl_bytes i)) = htonl_bytes i) /\
  (forall net host, 0 <= host < 2 ^ 32 ->
     class_net net ->
     inet_netof (inet_makeaddr net host) = net /\
     inet_lnaof (inet_makeaddr net host) = host mod 2 ^ net_bits net).
Proof.
  split.
  - intros i Hi. destruct (lnaof_netof i Hi) as [-> ->]. by apply makeaddr_back.
  - intros net host Hh Hnet. destruct (makeaddr_value net host Hh Hnet) as (-> & Hr & Hn).
    destruct (lnaof_netof _ Hr) as [-> ->]. rewrite Hn.
    assert (0 < 2 ^ net_bits net) by (apply Z.pow_pos_nonneg; unfold net_bits; repeat case_match; lia).
    split.
    + rewrite Z.div_add_l, Z.div_small by (try apply Z.mod_pos_bound; lia). lia.
    + rewrite Z.add_comm, Z_mod_plus_full. apply Z.mod_mod. lia.
Qed.

(** 10.1.2.3, and network 192.5.5 with a host number too big for it. *)
Lemma inet_class_split_witness :
  inet_makeaddr (inet_netof [10; 1; 2; 3]) (inet_lnaof [10; 1; 2; 3]) = [10; 1; 2; 3] /\
  inet_netof (inet_makeaddr 12584197 257) = 12584197.
Proof.
  split.
  - exact (proj1 inet_class_split 167838211 ltac:(lia)).
  - exact (proj1 (proj2 inet_class_split 12584197 257 ltac:(lia) ltac:(unfold class_net; lia))).
Defined.

(** ** inet_neta *)

(** The text without its leading quad when nothing is zero: what [inet_neta]
    writes for a number whose last byte is not zero, and the dot that a
    [u_long] of 64 bits, which still holds the bits that were shifted out,
    makes it add. *)
Definition neta_text (w v : Z) : list Z :=
  dotted (htonl_bytes v) ++ if w =? 32 then [] else [46].

Lemma neta_byte v : 0 <= v < 2 ^ 64 ->
  u8 (Z.shiftr (Z.land v 4278190080) 24) = v / 2 ^ 24 mod 256.
Proof.
  intros Hv. apply Z.bits_inj'. intros i Hi. unfold u8, uwrap. change 256 with (2 ^ 8).
  destruct (Z.lt_ge_cases i 8); [|by rewrite !Z.mod_pow2_bits_high by lia].
  rewrite !Z.mod_pow2_bits_low, <- Z.shiftr_div_pow2, !Z.shiftr_spec, Z.land_spec by lia.
  change 4278190080 with (Z.shiftl (Z.ones 8) 24).
  by rewrite Z.shiftl_spec, Z.ones_spec_low, andb_true_r by lia.
Qed.

Lemma neta_turn w size src out :
  0 <= src < 2 ^ 64 -> src mod 2 ^ 32 <> 0 -> zlen out + 4 < size ->
  neta_body w size (src, out) =
  Ok (inl (if uwrap w (src * 256) =? 0 then
             if src / 2 ^ 24 mod 256 =? 0 then (0, out) else (0, out ++ fmt_u (src / 2 ^ 24 mod 256))
           else (uwrap w (src * 256), out ++ fmt_u (src / 2 ^ 24 mod 256) ++ [46]))).
Proof.
  intros Hs Hl Hsize. unfold neta_body. change 4294967295 with (Z.ones 32).
  rewrite Z.land_ones, (proj2 (Z.eqb_neq (src mod 2 ^ 32) 0)) by lia.
  rewrite neta_byte, Z.shiftl_mul_pow2 by lia. change (2 ^ 8) with 256.
  set (b := src / 2 ^ 24 mod 256). set (src' := uwrap w (src * 256)).
  assert (Hb : byte_ok b) by (unfold byte_ok; apply Z.mod_pos_bound; lia).
  pose proof (fmt_byte_len b Hb). rewrite (proj2 (Z.leb_gt (zlen (fmt_u b)) 0)) by lia.
  rewrite (proj2 (Z.leb_gt (size - zlen out) _)) by lia. cbn [orb].
  rewrite (proj2 (Z.leb_gt size _)) by zl.
  destruct (Z.eqb_spec src' 0) as [->|], (Z.eqb_spec b 0); cbn [negb orb]; rewrite <- ?app_assoc; done.
Qed.

Lemma neta_done w size src out : src mod 2 ^ 32 = 0 -> neta_body w size (src, out) = Ok (inr out).
Proof.
  intros H. unfold neta_body. change 4294967295 with (Z.ones 32). by rewrite Z.land_ones, H by lia.
Qed.

(** A turn that leaves something to print. *)
Lemma neta_next w size src out src' b :
  0 <= src < 2 ^ 64 -> src mod 2 ^ 32 <> 0 -> zlen out + 4 < size ->
  uwrap w (src * 256) = src' -> src' <> 0 -> src / 2 ^ 24 mod 256 = b ->
  neta_body w size (src, out) = Ok (inl (src', out ++ fmt_u b ++ [46])).
Proof.
  intros H1 H2 H3 H4 H5 H6. rewrite neta_turn, H4, H6 by done. by rewrite (proj2 (Z.eqb_neq src' 0)).
Qed.

Ltac neta_step s b :=
  erewrite (loop_next _ _ _ (s, _));
  [|apply (neta_next _ _ _ _ s b);
    [ | |zl| | | ]; unfold uwrap; repeat match goal with x := _ : Z |- _ => subst x end; Z.to_euclidean_division_equations; lia].

Section Neta.
Variables v size : Z.
Hypothesis Hv : 0 < v < 2 ^ 32.
Hypothesis Hd : v mod 256 <> 0.
Hypothesis Hsize : 17 <= size.
Let a := v / 2 ^ 24.
Let b := v / 2 ^ 16 mod 256.
Let c := v / 2 ^ 8 mod 256.
Let d := v mod 256.

Lemma neta_lens :
  1 <= zlen (fmt_u a) <= 3 /\ 1 <= zlen (fmt_u b) <= 3 /\ 1 <= zlen (fmt_u c) <= 3 /\
  1 <= zlen (fmt_u d) <= 3.
Proof.
  assert (Hr : byte_ok a /\ byte_ok b /\ byte_ok c /\ byte_ok d).
  { unfold byte_ok, a, b, c, d. Z.to_euclidean_division_equations; lia. }
  destruct Hr as (? & ? & ? & ?). auto using fmt_byte_len.
Qed.

Lemma neta_32 : inet_neta 32 v size = Ok (dotted [a; b; c; d]).
Proof.
  destruct neta_lens as (Ha & Hb & Hc & Hd'). unfold inet_neta. bdecide.
  neta_step (v * 2 ^ 8 mod 2 ^ 32) a. neta_step (v * 2 ^ 16 mod 2 ^ 32) b.
  neta_step (v * 2 ^ 24 mod 2 ^ 32) c.
  erewrite loop_next; [|apply neta_turn; [| |zl]; Z.to_euclidean_division_equations; lia].
  replace (uwrap 32 (v * 2 ^ 24 mod 2 ^ 32 * 256)) with 0
    by (unfold uwrap; Z.to_euclidean_division_equations; lia).
  replace (v * 2 ^ 24 mod 2 ^ 32 / 2 ^ 24 mod 256) with d
    by (unfold d; Z.to_euclidean_division_equations; lia).
  change (0 =? 0) with true. rewrite (proj2 (Z.eqb_neq d 0)) by done.
  rewrite (loop_exit _ _ _ _ (neta_done 32 size 0 _ eq_refl)). cbn [dotted app].
  by rewrite <- !app_assoc.
Qed.

Lemma neta_64 : inet_neta 64 v size = Ok (dotted [a; b; c; d] ++ [46]).
Proof.
  destruct neta_lens as (Ha & Hb & Hc & Hd'). unfold inet_neta. bdecide.
  neta_step (v * 2 ^ 8) a. neta_step (v * 2 ^ 16) b. neta_step (v * 2 ^ 24) c.
  neta_step (v * 2 ^ 32) d.
  rewrite (loop_exit _ _ _ _ (neta_done 64 size (v * 2 ^ 32) _ (Z_mod_mult _ _))). cbn [dotted app].
  by repeat (rewrite <- app_assoc; cbn [app]).
Qed.
End Neta.

(** A network number whose last byte is not zero is written by
    [inet_neta] as a dotted quad when [u_long] has 32 bits, and [inet_network]
    reads the number back.  When [u_long] has 64 bits the bits shifted out of
    the low half stay, so that a dot follows the quad, and [inet_network]
    rejects the text. *)
Theorem inet_neta_network v size :
  0 < v < 2 ^ 32 -> v mod 256 <> 0 -> 17 <= size ->
  (exists s, inet_neta 32 v size = Ok s /\ inet_network s = Ok v) /\
  (exists s, inet_neta 64 v size = Ok (s ++ [46]) /\ inet_network s = Ok v /\
             inet_network (s ++ [46]) = Ok INADDR_NONE).
Proof.
  intros Hv Hd Hsize.
  pose proof (htonl_value v ltac:(lia)) as E. pose proof (ntohl_htonl v ltac:(lia)) as E'.
  rewrite E in E'.
  assert (Hb : bytes_ok [v / 2 ^ 24; v / 2 ^ 16 mod 256; v / 2 ^ 8 mod 256; v mod 256]).
  { unfold bytes_ok. rewrite !Forall_cons_iff. unfold byte_ok.
    repeat (split; [Z.to_euclidean_division_equations; lia|]). constructor. }
  assert (Hn : inet_network (dotted [v / 2 ^ 24; v / 2 ^ 16 mod 256; v / 2 ^ 8 mod 256; v mod 256]) = Ok v).
  { rewrite <- (app_nil_r (dotted _)), inet_network_quad by (done || by left). by rewrite E'. }
  split; eexists; [split; [by apply neta_32|done]|split; [by apply neta_64|split; [done|]]].
  by apply inet_network_dot.
Qed.

Lemma inet_neta_network_witness :
  (exists s, inet_neta 32 12584197 20 = Ok s /\ inet_network s = Ok 12584197) /\
  inet_neta 64 12584197 20 = Ok (str "0.192.5.5.").
Proof.
  split; [|reflexivity].
  apply (inet_neta_network 12584197 20); [lia|vm_compute; discriminate|lia].
Defined.

(** ** What the parsers let through *)

(** A part of a dotted quad wraps at 32 bits before it is compared with 255,
    so that ["4294967297.2.3.4"] is 1.2.3.4 for [inet_pton]; so is a part with
    a leading zero before a 9, and anything after white space. *)
Theorem inet_pton4_wraps :
  inet_pton4 (str "4294967297.2.3.4") true = Ok (Some [1; 2; 3; 4]) /\
  inet_pton4 (str "09.2.3.4") true = Ok (Some [9; 2; 3; 4]) /\
  inet_pton4 (str "1.2.3.4 is not an address") true = Ok (Some [1; 2; 3; 4]).
Proof. repeat split. Qed.

(** [digit] is looked at after the last part only: an earlier part may be a
    hexadecimal prefix without digits, and any part wraps. *)
Theorem inet_aton_accepts :
  inet_aton (str "0x.1") = Ok (Some [0; 0; 0; 1]) /\ inet_aton (str "0x") = Ok None /\
  inet_aton (str "4294967297") = Ok (Some [0; 0; 0; 1]).
Proof. repeat split. Qed.
