(* ===== verification/Inet6.v ===== *)
(** * inet: IPv6 addresses

    [inet_ntop6] and [inet_pton6] (inet/inet_ntop.c, inet/inet_pton.c) and the
    functions that choose by address family.  [words_of], [best_run] and
    [shift_up] are the passages that inet/inet_cidr_ntop.c and
    inet/inet_cidr_pton.c repeat. *)
From Stdlib Require Import ZArith Lia List Bool String.
From stdpp Require Import base tactics list numbers.
From S2P Require Import Prelude CText Inet4.
Local Open Scope Z_scope.
Local Open Scope c_scope.

(** ** inet_ntop.c *)

(** [words[i / 2] |= src[i] << ((1 - (i % 2)) << 3)] *)
Fixpoint words_of (src : list Z) : list Z :=
  match src with
  | hi :: lo :: src => Z.lor (Z.shiftl hi 8) lo :: words_of src
  | _ => []
  end.

(** A run of zero words: [base], -1 for none, and [len]. *)
Definition run : Type := Z * Z.

Definition longer (best cur : run) : run :=
  if negb (cur.1 =? -1) && ((best.1 =? -1) || (best.2 <? cur.2)) then cur else best.

Fixpoint scan_runs (i : Z) (words : list Z) (best cur : run) : run * run :=
  match words with
  | [] => (best, cur)
  | w :: words =>
      if w =? 0 then
        scan_runs (i + 1) words best
          (if cur.1 =? -1 then (i, 1) else (cur.1, cur.2 + 1))
      else if negb (cur.1 =? -1) then scan_runs (i + 1) words (longer best cur) (-1, cur.2)
      else scan_runs (i + 1) words best cur
  end.

Definition best_run (words : list Z) : run :=
  let '(best, cur) := scan_runs 0 words (-1, 0) (-1, 0) in
  let best := longer best cur in
  if negb (best.1 =? -1) && (best.2 <? 2) then (-1, best.2) else best.

(** "Are we inside the best run of 0x00's?" *)
Definition in_run (best : run) (i : Z) : bool :=
  negb (best.1 =? -1) && (best.1 <=? i) && (i <? best.1 + best.2).

(** "Is this address an encapsulated IPv4?" *)
Definition encapsulated (best : run) (words : list Z) (i : Z) : bool :=
  (i =? 6) && (best.1 =? 0) &&
  ((best.2 =? 6) || ((best.2 =? 7) && negb (nth 7 words 0 =? 1)) ||
   ((best.2 =? 5) && (nth 5 words 0 =? 65535))).

Definition ntop6_cap : Z := 46.

(** The loop over the words from index [i]; [out] is the text in [tmp]. *)
Fixpoint ntop6_loop (best : run) (words src : list Z) (i : Z) (ws out : list Z)
    : outcome (list Z) :=
  match ws with
  | [] => Ok out
  | w :: ws =>
      if in_run best i then
        out <- (if i =? best.1 then push ntop6_cap out 58 else Ok out);;
        ntop6_loop best words src (i + 1) ws out
      else
        out <- (if i =? 0 then Ok out
                else if ntop6_cap <=? zlen out + 1 then Err ENOSPC
                else push ntop6_cap out 58);;
        if encapsulated best words i then
          match inet_ntop4 (drop 12 src) (ntop6_cap - zlen out) with
          | Ok text => Ok (out ++ text)
          | _ => Err ENOSPC
          end
        else
          let advance := zlen (fmt_x w) in
          if (advance <=? 0) || (ntop6_cap - zlen out <=? advance) then Err ENOSPC
          else ntop6_loop best words src (i + 1) ws (out ++ fmt_x w)
  end.

Definition inet_ntop6 (src : list Z) (size : Z) : outcome (list Z) :=
  let words := words_of src in
  let best := best_run words in
  out <- ntop6_loop best words src 0 words [];;
  out <- (if negb (best.1 =? -1) && (best.1 + best.2 =? 8) then
            if ntop6_cap <=? zlen out + 1 then Err ENOSPC else push ntop6_cap out 58
          else Ok out);;
  if ntop6_cap <=? zlen out + 1 then Err ENOSPC
  else
    push ntop6_cap out 0;;;
    if size <? zlen out + 1 then Err ENOSPC
    else Ok out.

(** ** inet_pton.c *)

(** [strchr] in [xdigits_l], then in [xdigits_u]. *)
Definition xdigit_pos (ch : Z) : option Z :=
  match strchr xdigits_l ch with
  | Some p => Some p
  | None => strchr xdigits_u ch
  end.

(** [*tp++ = (u_char) (val >> 8) & 0xff; *tp++ = (u_char) val & 0xff;] *)
Definition put_word (tmp : list Z) (tp val : Z) : outcome (list Z) :=
  tmp <- wr tmp tp (Z.land (u8 (Z.shiftr val 8)) 255);;
  wr tmp (tp + 1) (Z.land (u8 val) 255).

Record pton6_state := Pton6 {
  p6_tmp : list Z;
  p6_tp : Z;
  p6_colonp : option Z;
  p6_seen : Z;       (* [seen_xdigits] *)
  p6_val : Z }.

(** [None] is [return (0)]. *)
Fixpoint pton6_loop (src curtok : list Z) (s : pton6_state) : outcome (option pton6_state) :=
  let '(Pton6 tmp tp colonp seen val) := s in
  match src with
  | [] => Ok (Some s)
  | ch :: src =>
      match xdigit_pos ch with
      | Some d =>
          let val := u32 (Z.lor (u32 (Z.shiftl val 4)) d) in
          if 4 <? seen + 1 then Ok None
          else pton6_loop src curtok (Pton6 tmp tp colonp (seen + 1) val)
      | None =>
          if ch =? 58 then
            let curtok := src in
            if seen =? 0 then
              match colonp with
              | Some _ => Ok None
              | None => pton6_loop src curtok (Pton6 tmp tp (Some tp) seen val)
              end
            else if cur src =? 0 then Ok None
            else if 16 <? tp + 2 then Ok None
            else
              tmp <- put_word tmp tp val;;
              pton6_loop src curtok (Pton6 tmp (tp + 2) colonp 0 0)
          else if (ch =? 46) && (tp + 4 <=? 16) then
            r <- inet_pton4 curtok true;;
            match r with
            | Some bs =>
                tmp <- wrn tmp tp bs;;
                Ok (Some (Pton6 tmp (tp + 4) colonp 0 val))
            | None => Ok None
            end
          else Ok None
      end
  end.

(** [for (i = 1; i <= n; i++) { endp[- i] = colonp[n - i]; colonp[n - i] = 0; }];
    [k] turns are left. *)
Fixpoint shift_up (k : nat) (i : Z) (tmp : list Z) (endp colonp n : Z) : outcome (list Z) :=
  match k with
  | O => Ok tmp
  | S k =>
      b <- rd tmp (colonp + (n - i));;
      tmp <- wr tmp (endp - i) b;;
      tmp <- wr tmp (colonp + (n - i)) 0;;
      shift_up k (i + 1) tmp endp colonp n
  end.

(** After the loop. *)
Definition pton6_finish (s : pton6_state) : outcome (option (list Z)) :=
  let '(Pton6 tmp tp colonp seen val) := s in
  let endp := 16 in
  if negb (seen =? 0) && (endp <? tp + 2) then Ok None
  else
    tmp <- (if negb (seen =? 0) then put_word tmp tp val else Ok tmp);;
    let tp := if negb (seen =? 0) then tp + 2 else tp in
    match colonp with
    | Some colonp =>
        let n := tp - colonp in
        if tp =? endp then Ok None
        else
          tmp <- shift_up (Z.to_nat n) 1 tmp endp colonp n;;
          Ok (Some tmp)
    | None => if negb (tp =? endp) then Ok None else Ok (Some tmp)
    end.

Definition inet_pton6 (src : list Z) : outcome (option (list Z)) :=
  let start := (if cur src =? 58 then
                  if cur (tl src) =? 58 then Some (tl src) else None
                else Some src) in
  match start with
  | None => Ok None
  | Some src =>
      r <- pton6_loop src src (Pton6 (replicate 16 0) 0 None 0 0);;
      match r with
      | None => Ok None
      | Some s => pton6_finish s
      end
  end.

Example inet6_ex1 : inet_ntop6 [32;1;13;184;0;0;0;0;0;0;0;0;0;0;0;1] 46 = Ok (str "2001:db8::1").
Proof. reflexivity. Qed.
Example inet6_ex2 : inet_ntop6 ([0;0;0;0;0;0;0;0;0;0;255;255;192;0;2;1]) 46 = Ok (str "::ffff:192.0.2.1").
Proof. reflexivity. Qed.
Example inet6_ex3 : inet_pton6 (str "2001:DB8::1") = Ok (Some [32;1;13;184;0;0;0;0;0;0;0;0;0;0;0;1]) /\
  inet_pton6 (str "::ffff:192.0.2.1") = Ok (Some [0;0;0;0;0;0;0;0;0;0;255;255;192;0;2;1]) /\
  inet_pton6 (str "::") = Ok (Some (replicate 16 0)) /\ inet_pton6 (str "1:2") = Ok None.
Proof. repeat split. Qed.

(** ** By family, for the numbers that the system gives the two *)

Section Family.
Variables AF_INET AF_INET6 : Z.

(** 1, or 0 with nothing stored. *)
Definition inet_pton (af : Z) (src : list Z) : outcome (option (list Z)) :=
  if af =? AF_INET then inet_pton4 src true
  else if af =? AF_INET6 then inet_pton6 src
  else Err EAFNOSUPPORT.

Definition inet_ntop (af : Z) (src : list Z) (size : Z) : outcome (list Z) :=
  if af =? AF_INET then inet_ntop4 src size
  else if af =? AF_INET6 then inet_ntop6 src size
  else Err EAFNOSUPPORT.
End Family.

(** ** Reading the pieces of a text *)

Definition word_ok (w : Z) : Prop := 0 <= w < 65536.
Definition word_bytes (w : Z) : list Z := [w / 256; w mod 256].
Definition bytes_of (ws : list Z) : list Z := flat_map word_bytes ws.

(** [tmp], zeroed, after [out] was stored from its start. *)
Definition mem (out : list Z) : list Z := out ++ replicate (16 - length out) 0.

Lemma mem_len out : zlen out <= 16 -> zlen (mem out) = 16.
Proof. unfold mem, zlen. rewrite length_app, length_replicate. lia. Qed.

Lemma mem_split out k :
  zlen out + Z.of_nat k <= 16 -> mem out = out ++ replicate k 0 ++ replicate (16 - length out - k) 0.
Proof. unfold mem, zlen. intros H. rewrite <- replicate_add. do 2 f_equal. lia. Qed.

Lemma put_word_mem out w :
  word_ok w -> zlen out + 2 <= 16 ->
  put_word (mem out) (zlen out) w = Ok (mem (out ++ word_bytes w)).
Proof.
  intros Hw Ho. unfold word_ok in Hw. unfold put_word. change 255 with (Z.ones 8).
  rewrite !Z.land_ones, Z.shiftr_div_pow2 by lia. unfold u8, uwrap.
  rewrite !Z.mod_mod by lia. rewrite (Z.mod_small (w / 2 ^ 8)) by (Z.to_euclidean_division_equations; lia).
  rewrite (mem_split out 2) by lia. cbn [replicate app].
  rewrite wr_mid by done. cbn [obind]. rewrite wr_mid_next by done. f_equal.
  unfold mem, word_bytes. rewrite <- app_assoc. cbn [app]. rewrite length_app. cbn [length].
  change (2 ^ 8) with 256. do 4 f_equal. lia.
Qed.

Lemma wrn_mem out bs :
  zlen out + zlen bs <= 16 -> wrn (mem out) (zlen out) bs = Ok (mem (out ++ bs)).
Proof.
  intros H. unfold wrn. rewrite mem_len by zl. bdecide. cbn [orb]. f_equal.
  unfold mem, zlen in *. rewrite Nat2Z.id, take_app_length, length_app, drop_app_add.
  rewrite drop_replicate, <- app_assoc. do 3 f_equal. lia.
Qed.

Lemma digits_of_len fuel base v k :
  1 < base -> 0 <= v < base ^ Z.of_nat k -> (1 <= k)%nat -> (length (digits_of fuel base v) <= k)%nat.
Proof.
  intros Hb. revert v k. induction fuel as [|fuel IH]; intros v k Hv Hk; [cbn; lia|].
  cbn [digits_of]. destruct (Z.ltb_spec v base); [cbn; lia|]. destruct k as [|k]; [lia|].
  rewrite Nat2Z.inj_succ, Z.pow_succ_r in Hv by lia. rewrite length_app. cbn.
  assert (Hk' : (1 <= k)%nat).
  { destruct k; [cbn in Hv; lia|lia]. }
  pose proof (IH (v / base) k) as H'. specialize (H' ltac:(split;
    [apply Z.div_pos; lia|apply Z.div_lt_upper_bound; lia]) Hk'). lia.
Qed.

Definition hexes_ok (ds : list Z) : Prop := Forall (fun d => 0 <= d < 16) ds.

Lemma hex_text w :
  word_ok w ->
  exists ds, fmt_x w = map digit_char ds /\ hexes_ok ds /\ 1 <= zlen ds <= 4 /\ number 16 ds = w.
Proof.
  intros Hw. unfold word_ok in Hw. exists (digits_of 16 16 w). split; [done|].
  split; [apply digits_of_range; lia|]. split.
  - pose proof (digits_of_len 16 16 w 4 ltac:(lia) ltac:(lia) ltac:(lia)).
    pose proof (digits_of_nonnil 15 16 w) as Hn. destruct (digits_of 16 16 w); [done|].
    unfold zlen. cbn in *. lia.
  - apply digits_of_number; lia.
Qed.

Lemma fmt_x_len w : word_ok w -> 1 <= zlen (fmt_x w) <= 4.
Proof. intros Hw. destruct (hex_text w Hw) as (ds & -> & _ & H & _). unfold zlen in *. by rewrite length_map. Qed.

Lemma xdigit_pos_digit d : 0 <= d < 16 -> xdigit_pos (digit_char d) = Some d.
Proof.
  intros Hd.
  apply (forall_upto (fun d => bool_decide (xdigit_pos (digit_char d) = Some d)) 16) in Hd;
    [|reflexivity].
  by apply bool_decide_eq_true in Hd.
Qed.

Lemma pton6_digits ds rest curtok tmp tp colonp : forall seen val,
  hexes_ok ds -> 0 <= seen -> seen + zlen ds <= 4 -> 0 <= val < 16 ^ seen ->
  pton6_loop (map digit_char ds ++ rest) curtok (Pton6 tmp tp colonp seen val) =
  pton6_loop rest curtok
    (Pton6 tmp tp colonp (seen + zlen ds) (fold_left (fun a d => a * 16 + d) ds val)).
Proof.
  induction ds as [|d ds IH]; intros seen val Hds Hs Hl Hv.
  { cbn. by rewrite Z.add_0_r. }
  inversion Hds as [|? ? Hd Hds']; subst. pose proof (zlen_nonneg ds). zlen_facts.
  assert (Hl' : zlen (d :: ds) = zlen ds + 1) by zl.
  cbn [map app pton6_loop fold_left]. rewrite xdigit_pos_digit by done.
  rewrite (proj2 (Z.ltb_ge _ _)) by lia.
  assert (Hp : 16 ^ seen * 16 = 16 ^ (seen + 1)) by (rewrite Z.pow_add_r by lia; lia).
  assert (16 ^ (seen + 1) <= 16 ^ 4) by (apply Z.pow_le_mono_r; lia).
  assert (E : u32 (Z.lor (u32 (Z.shiftl val 4)) d) = val * 16 + d).
  { unfold u32. rewrite (uwrap_id 32 (Z.shiftl val 4)) by (rewrite Z.shiftl_mul_pow2; lia).
    rewrite lor_shiftl_add by lia. rewrite uwrap_id; lia. }
  rewrite E, IH by (done || lia). f_equal. f_equal. lia.
Qed.

(** A word, read from the start of a piece. *)
Lemma pton6_word w rest curtok tmp tp colonp :
  word_ok w ->
  pton6_loop (fmt_x w ++ rest) curtok (Pton6 tmp tp colonp 0 0) =
  pton6_loop rest curtok (Pton6 tmp tp colonp (zlen (fmt_x w)) w).
Proof.
  intros Hw. destruct (hex_text w Hw) as (ds & -> & Hds & Hl & Hn).
  rewrite pton6_digits by (done || lia). fold (number 16 ds). rewrite Hn.
  by replace (zlen (map digit_char ds)) with (0 + zlen ds) by (unfold zlen; by rewrite length_map).
Qed.

(** From a state of the loop between two pieces to the end. *)
Definition pton6_from (src curtok tmp : list Z) (tp : Z) (colonp : option Z)
    : outcome (option (list Z)) :=
  r <- pton6_loop src curtok (Pton6 tmp tp colonp 0 0);;
  match r with
  | None => Ok None
  | Some s => pton6_finish s
  end.

Lemma pton6_finish_val tmp tp colonp val :
  pton6_finish (Pton6 tmp tp colonp 0 val) = pton6_finish (Pton6 tmp tp colonp 0 0).
Proof. done. Qed.

Section From.
Variables (out : list Z) (w : Z) (colonp : option Z).
Hypothesis Hw : word_ok w.
Hypothesis Ho : zlen out + 2 <= 16.

Lemma from_word_colon rest curtok :
  cur rest <> 0 ->
  pton6_from (fmt_x w ++ 58 :: rest) curtok (mem out) (zlen out) colonp =
  pton6_from rest rest (mem (out ++ word_bytes w)) (zlen out + 2) colonp.
Proof.
  intros Hr. unfold pton6_from. rewrite pton6_word by done. pose proof (fmt_x_len w Hw).
  cbn [pton6_loop]. change (xdigit_pos 58) with (@None Z). change (58 =? 58) with true.
  cbv iota. rewrite (proj2 (Z.eqb_neq (zlen (fmt_x w)) 0)) by lia.
  rewrite (proj2 (Z.eqb_neq (cur rest) 0)), (proj2 (Z.ltb_ge 16 _)) by lia.
  by rewrite put_word_mem.
Qed.

Lemma from_word_end curtok :
  pton6_from (fmt_x w) curtok (mem out) (zlen out) colonp =
  pton6_finish (Pton6 (mem (out ++ word_bytes w)) (zlen out + 2) colonp 0 0).
Proof.
  unfold pton6_from. rewrite <- (app_nil_r (fmt_x w)), pton6_word by done.
  pose proof (fmt_x_len w Hw). cbn [pton6_loop obind]. unfold pton6_finish. cbn [Z.eqb negb].
  rewrite (proj2 (Z.eqb_neq (zlen (fmt_x w)) 0)) by lia. cbn [negb andb].
  rewrite (proj2 (Z.ltb_ge 16 _)) by lia. rewrite put_word_mem by done. done.
Qed.
End From.

(** ["::"] after a piece, or at the start. *)
Lemma from_colon rest curtok tmp tp :
  pton6_from (58 :: rest) curtok tmp tp None = pton6_from rest rest tmp tp (Some tp).
Proof. done. Qed.

(** Words with colons between them. *)
Fixpoint joinc (ws : list Z) : list Z :=
  match ws with
  | [] => []
  | [w] => fmt_x w
  | w :: ws => fmt_x w ++ 58 :: joinc ws
  end.

Lemma joinc_cons w w' ws : joinc (w :: w' :: ws) = fmt_x w ++ 58 :: joinc (w' :: ws).
Proof. done. Qed.

Lemma fmt_x_cur w s : word_ok w -> cur (fmt_x w ++ s) <> 0 /\ cur (fmt_x w ++ s) =? 58 = false.
Proof.
  intros Hw. destruct (hex_text w Hw) as (ds & -> & Hds & Hl & _).
  destruct ds as [|d ds]; [by destruct Hl|]. inversion Hds; subst. cbn [map app cur hd]. unfold digit_char.
  bcase; split; bdecide; lia || done.
Qed.

Lemma joinc_cur w ws s :
  word_ok w -> cur (joinc (w :: ws) ++ s) <> 0 /\ cur (joinc (w :: ws) ++ s) =? 58 = false.
Proof.
  intros Hw. destruct ws as [|w' ws]; [by apply fmt_x_cur|]. rewrite joinc_cons, <- app_assoc.
  by apply fmt_x_cur.
Qed.

Lemma bytes_of_len ws : zlen (bytes_of ws) = 2 * zlen ws.
Proof. induction ws as [|w ws IH]; [done|]. cbn [bytes_of flat_map]. fold (bytes_of ws). unfold word_bytes. zl. Qed.

Lemma from_joinc ws : forall out curtok colonp,
  ws <> [] -> Forall word_ok ws -> zlen out + 2 * zlen ws <= 16 ->
  pton6_from (joinc ws) curtok (mem out) (zlen out) colonp =
  pton6_finish (Pton6 (mem (out ++ bytes_of ws)) (zlen out + 2 * zlen ws) colonp 0 0).
Proof.
  induction ws as [|w ws IH]; intros out curtok colonp Hne Hws Hl; [done|].
  inversion Hws as [|? ? Hw Hws']; subst. pose proof (zlen_nonneg ws).
  assert (El : zlen (w :: ws) = zlen ws + 1) by zl.
  destruct ws as [|w' ws].
  - cbn [joinc]. rewrite from_word_end by (done || lia). done.
  - rewrite joinc_cons, from_word_colon;
      [|done|lia|rewrite <- (app_nil_r (joinc _)); apply joinc_cur; by inversion Hws'].
    replace (zlen out + 2) with (zlen (out ++ word_bytes w)) by (unfold word_bytes; zl).
    rewrite IH by (done || (unfold word_bytes; zl)).
    cbn [bytes_of flat_map]. rewrite <- app_assoc. f_equal. f_equal. unfold word_bytes. zl.
Qed.

(** Words and then ["::"]. *)
Lemma from_joinc_colons ws rest : forall out curtok,
  ws <> [] -> Forall word_ok ws -> zlen out + 2 * zlen ws <= 16 ->
  pton6_from (joinc ws ++ 58 :: 58 :: rest) curtok (mem out) (zlen out) None =
  pton6_from rest rest (mem (out ++ bytes_of ws)) (zlen out + 2 * zlen ws)
             (Some (zlen out + 2 * zlen ws)).
Proof.
  induction ws as [|w ws IH]; intros out curtok Hne Hws Hl; [done|].
  inversion Hws as [|? ? Hw Hws']; subst. pose proof (zlen_nonneg ws).
  assert (El : zlen (w :: ws) = zlen ws + 1) by zl.
  destruct ws as [|w' ws].
  - cbn [joinc]. rewrite from_word_colon by (done || lia). rewrite from_colon. done.
  - rewrite joinc_cons, <- app_assoc, <- app_comm_cons, from_word_colon;
      [|done|lia|apply joinc_cur; by inversion Hws'].
    replace (zlen out + 2) with (zlen (out ++ word_bytes w)) by (unfold word_bytes; zl).
    rewrite IH by (done || (unfold word_bytes; zl)).
    cbn [bytes_of flat_map]. rewrite <- app_assoc.
    replace (zlen (out ++ word_bytes w) + 2 * zlen (w' :: ws)) with (zlen out + 2 * zlen (w :: w' :: ws))
      by (unfold word_bytes; zl). done.
Qed.

(** An IPv4 address at the end. *)
Lemma from_dotted out a b c d colonp :
  bytes_ok [a; b; c; d] -> zlen out + 4 <= 16 ->
  pton6_from (dotted [a; b; c; d]) (dotted [a; b; c; d]) (mem out) (zlen out) colonp =
  pton6_finish (Pton6 (mem (out ++ [a; b; c; d])) (zlen out + 4) colonp 0 0).
Proof.
  intros Hb Ho. destruct (quad_bytes a b c d Hb) as (Ha & _). unfold pton6_from.
  pose proof (inet_pton4_quad a b c d [] Hb (or_introl eq_refl) true) as Hp. rewrite app_nil_r in Hp.
  set (tok := dotted [a; b; c; d]) at 2. unfold dotted.
  pose proof (fmt_byte_len a Ha) as Hlen.
  assert (Hds : exists ds, fmt_u a = map digit_char ds /\ hexes_ok ds /\ zlen ds <= 3).
  { exists (digits_of 20 10 a). split; [done|]. split.
    - eapply List.Forall_impl; [|apply digits_of_range; unfold byte_ok in *; lia]. cbn. lia.
    - unfold fmt_u in Hlen. rewrite zlen_map in Hlen. lia. }
  destruct Hds as (ds & -> & Hds & Hl).
  rewrite pton6_digits by (done || lia). cbn [pton6_loop].
  change (xdigit_pos 46) with (@None Z). change (46 =? 58) with false. change (46 =? 46) with true.
  cbv iota. rewrite (proj2 (Z.leb_le _ 16)) by lia. cbn [andb]. fold tok. subst tok. rewrite Hp.
  cbn [obind]. rewrite wrn_mem by done. done.
Qed.

(** ** The shift *)

Lemma shift_up_spec b : forall a k moved rest,
  (0 < k)%nat ->
  shift_up (length b) (zlen moved + 1) (a ++ b ++ replicate k 0 ++ moved ++ rest)
           (zlen a + zlen b + Z.of_nat k + zlen moved) (zlen a) (zlen b + zlen moved) =
  Ok (a ++ replicate k 0 ++ b ++ moved ++ rest).
Proof.
  induction b as [|x b IH] using rev_ind; intros a k moved rest Hk; [done|].
  rewrite length_app, Nat.add_1_r. cbn [shift_up]. rewrite zlen_snoc.
  destruct k as [|k]; [lia|].
  replace (a ++ (b ++ [x]) ++ replicate (S k) 0 ++ moved ++ rest)
    with ((a ++ b) ++ x :: replicate k 0 ++ 0 :: moved ++ rest).
  2: { rewrite replicate_S_end. by repeat (rewrite <- app_assoc; cbn [app]). }
  rewrite rd_mid by zl. cbn [obind].
  replace ((a ++ b) ++ x :: replicate k 0 ++ 0 :: moved ++ rest)
    with (((a ++ b) ++ x :: replicate k 0) ++ 0 :: moved ++ rest)
    by (by repeat (rewrite <- app_assoc; cbn [app])).
  rewrite wr_mid by (unfold zlen; rewrite ?length_app, ?length_cons, ?length_replicate; cbn; lia).
  cbn [obind].
  replace (((a ++ b) ++ x :: replicate k 0) ++ x :: moved ++ rest)
    with ((a ++ b) ++ x :: replicate k 0 ++ x :: moved ++ rest)
    by (by repeat (rewrite <- app_assoc; cbn [app])).
  rewrite wr_mid by zl. cbn [obind].
  pose proof (IH a (S k) (x :: moved) rest ltac:(lia)) as IH'.
  replace (zlen (x :: moved) + 1) with (zlen moved + 1 + 1) in IH' by zl.
  replace (zlen b + zlen (x :: moved)) with (zlen b + 1 + zlen moved) in IH' by zl.
  replace (zlen a + zlen b + Z.of_nat (S k) + zlen (x :: moved))
    with (zlen a + (zlen b + 1) + Z.of_nat (S k) + zlen moved) in IH' by zl.
  cbn [replicate app] in IH'. cbn [replicate app].
  replace ((a ++ b) ++ 0 :: replicate k 0 ++ x :: moved ++ rest)
    with (a ++ b ++ 0 :: replicate k 0 ++ x :: moved ++ rest) by (by rewrite <- app_assoc).
  rewrite IH'. by repeat (rewrite <- app_assoc; cbn [app]).
Qed.

Lemma finish_run a b :
  zlen (a ++ b) < 16 ->
  pton6_finish (Pton6 (mem (a ++ b)) (zlen (a ++ b)) (Some (zlen a)) 0 0) =
  Ok (Some (a ++ replicate (16 - length (a ++ b)) 0 ++ b)).
Proof.
  intros H. unfold pton6_finish. cbn [Z.eqb negb andb obind].
  rewrite (proj2 (Z.eqb_neq (zlen (a ++ b)) 16)) by lia.
  replace (zlen (a ++ b) - zlen a) with (zlen b) by zl.
  replace (Z.to_nat (zlen b)) with (length b) by (unfold zlen; lia).
  pose proof (shift_up_spec b a (16 - length (a ++ b)) [] []) as Hs.
  change (zlen (@nil Z)) with 0 in Hs. rewrite !app_nil_r in Hs. rewrite !Z.add_0_r in Hs.
  replace (zlen a + zlen b + Z.of_nat (16 - length (a ++ b))) with 16 in Hs.
  2: { unfold zlen in *. rewrite length_app in *. lia. }
  unfold mem. rewrite <- app_assoc. change (0 + 1) with 1 in Hs. rewrite Hs; [done|].
  unfold zlen in H. lia.
Qed.

Lemma finish_full out : zlen out = 16 -> pton6_finish (Pton6 (mem out) 16 None 0 0) = Ok (Some out).
Proof.
  intros H. unfold pton6_finish. cbn [Z.eqb negb andb obind Pos.eqb].
  do 2 f_equal. unfold mem. replace (16 - length out)%nat with 0%nat by (unfold zlen in H; lia).
  cbn. by rewrite app_nil_r.
Qed.

Lemma bytes_of_app ws ws' : bytes_of (ws ++ ws') = bytes_of ws ++ bytes_of ws'.
Proof. unfold bytes_of. by rewrite flat_map_app. Qed.

Lemma bytes_of_zeros l : bytes_of (replicate l 0) = replicate (2 * l) 0.
Proof.
  induction l as [|l IH]; [done|]. replace (2 * S l)%nat with (S (S (2 * l))) by lia.
  cbn [replicate bytes_of flat_map]. fold (bytes_of (replicate l 0)). by rewrite IH.
Qed.

(** ** Reading a whole address *)

Lemma inet_pton6_from s :
  cur s =? 58 = false -> inet_pton6 s = pton6_from s s (mem []) 0 None.
Proof. intros H. unfold inet_pton6. by rewrite H. Qed.

Lemma inet_pton6_colons s : inet_pton6 (58 :: 58 :: s) = pton6_from s s (mem []) 0 (Some 0).
Proof. done. Qed.

Lemma parse_plain ws :
  Forall word_ok ws -> zlen ws = 8 -> inet_pton6 (joinc ws) = Ok (Some (bytes_of ws)).
Proof.
  intros Hws Hl. destruct ws as [|w ws]; [done|].
  rewrite inet_pton6_from; [|rewrite <- (app_nil_r (joinc _)); apply joinc_cur; by inversion Hws].
  pose proof (from_joinc (w :: ws) [] (joinc (w :: ws)) None) as E. change (zlen (@nil Z)) with 0 in E.
  rewrite E by (done || lia). replace (0 + 2 * zlen (w :: ws)) with 16 by lia.
  cbn [app]. apply finish_full. rewrite bytes_of_len. lia.
Qed.

Lemma parse_run pre l post :
  Forall word_ok pre -> Forall word_ok post -> (0 < l)%nat ->
  zlen pre + Z.of_nat l + zlen post = 8 ->
  inet_pton6 (joinc pre ++ 58 :: 58 :: joinc post) =
  Ok (Some (bytes_of (pre ++ replicate l 0 ++ post))).
Proof.
  intros Hpre Hpost Hl Hlen. pose proof (zlen_nonneg pre). pose proof (zlen_nonneg post).
  transitivity (pton6_from (joinc post) (joinc post) (mem (bytes_of pre)) (zlen (bytes_of pre))
                           (Some (zlen (bytes_of pre)))).
  - destruct pre as [|w pre]; [done|].
    rewrite inet_pton6_from by (apply joinc_cur; by inversion Hpre).
    pose proof (from_joinc_colons (w :: pre) (joinc post) [] (joinc (w :: pre) ++ 58 :: 58 :: joinc post)) as E.
    change (zlen (@nil Z)) with 0 in E. rewrite E by (done || lia). by rewrite bytes_of_len.
  - transitivity (pton6_finish (Pton6 (mem (bytes_of pre ++ bytes_of post))
      (zlen (bytes_of pre ++ bytes_of post)) (Some (zlen (bytes_of pre))) 0 0)).
    + destruct post as [|w post].
      * rewrite app_nil_r. done.
      * rewrite from_joinc by (done || (rewrite bytes_of_len; lia)).
        by rewrite (zlen_app (bytes_of pre)), (bytes_of_len (w :: post)).
    + assert (E : zlen (bytes_of pre ++ bytes_of post) = 16 - 2 * Z.of_nat l)
        by (rewrite zlen_app, !bytes_of_len; lia).
      rewrite finish_run by lia. rewrite !bytes_of_app, bytes_of_zeros.
      do 5 f_equal. unfold zlen in E. lia.
Qed.

Lemma parse_v4 a b c d :
  bytes_ok [a; b; c; d] ->
  inet_pton6 (58 :: 58 :: dotted [a; b; c; d]) = Ok (Some (replicate 12 0 ++ [a; b; c; d])) /\
  inet_pton6 (58 :: 58 :: fmt_x 65535 ++ 58 :: dotted [a; b; c; d]) =
    Ok (Some (replicate 10 0 ++ [255; 255; a; b; c; d])).
Proof.
  intros Hb. rewrite !inet_pton6_colons. split.
  - rewrite (from_dotted []) by done. cbn [app]. apply (finish_run [] [a; b; c; d]). done.
  - rewrite (from_word_colon [] 65535);
      [|done|done|destruct (quad_bytes a b c d Hb) as (Ha & _); unfold dotted].
    + rewrite (from_dotted (word_bytes 65535)) by done. apply (finish_run [] [255; 255; a; b; c; d]). done.
    + destruct (number_text a (byte_32 a Ha)) as [[_ ->]|(x & ds & -> & Hx & _)]; [done|].
      cbn. rewrite digit_char_u by lia. lia.
Qed.

(** ** The run of zero words that is left out *)

(** [l] zero words from index [b]. *)
Definition zeros (ws : list Z) (b l : nat) : bool :=
  ((b + l <=? length ws)%nat && forallb (Z.eqb 0) (take l (drop b ws))).

Definition norm (w : Z) : Z := if w =? 0 then 0 else 1.

Lemma scan_runs_norm ws : forall i best cur,
  scan_runs i (map norm ws) best cur = scan_runs i ws best cur.
Proof.
  induction ws as [|w ws IH]; intros i best cur; [done|]. cbn [map scan_runs].
  replace (norm w =? 0) with (w =? 0) by (unfold norm; by destruct (w =? 0)).
  by rewrite !IH.
Qed.

Lemma zeros_norm ws b l : zeros (map norm ws) b l = zeros ws b l.
Proof.
  unfold zeros. rewrite length_map, skipn_map, firstn_map. f_equal.
  induction (take l (drop b ws)) as [|w k IH]; [done|]. cbn [map forallb]. rewrite IH.
  f_equal. unfold norm. rewrite (Z.eqb_sym 0 w). by destruct (w =? 0).
Qed.

Lemma zeros_split ws b l :
  zeros ws b l = true -> (b + l <= length ws)%nat /\ ws = take b ws ++ replicate l 0 ++ drop (b + l) ws.
Proof.
  unfold zeros. intros H. apply andb_true_iff in H as [Hl%Nat.leb_le H]. split; [done|].
  rewrite <- (take_drop b ws) at 1. f_equal. rewrite <- (take_drop l (drop b ws)) at 1.
  rewrite drop_drop. f_equal. symmetry. apply replicate_as_Forall. split; [rewrite length_take, length_drop; lia|].
  apply List.Forall_forall. intros w Hw. rewrite forallb_forall in H. specialize (H w Hw).
  by apply Z.eqb_eq in H.
Qed.

Fixpoint patterns (n : nat) : list (list Z) :=
  match n with
  | O => [[]]
  | S n => map (cons 0) (patterns n) ++ map (cons 1) (patterns n)
  end.

Lemma norm_pattern ws : In (map norm ws) (patterns (length ws)).
Proof.
  induction ws as [|w ws IH]; [by left|]. cbn [map length patterns]. apply in_or_app.
  destruct (w =? 0) eqn:E; [left|right].
  - replace (norm w) with 0 by (unfold norm; by rewrite E). by apply in_map.
  - replace (norm w) with 1 by (unfold norm; by rewrite E). by apply in_map.
Qed.

(** No run is longer than [best], and none of its length starts before it;
    when there is no [best], no run has two words. *)
Definition is_best (ws : list Z) (best : run) (b l : nat) : bool :=
  if best.1 =? -1 then (l <=? 1)%nat
  else (l <? Z.to_nat best.2)%nat ||
       ((l =? Z.to_nat best.2)%nat && (Z.to_nat best.1 <=? b)%nat).

Definition best_is_run (ws : list Z) (best : run) : bool :=
  (best.1 =? -1) ||
  ((0 <=? best.1) && (2 <=? best.2) && zeros ws (Z.to_nat best.1) (Z.to_nat best.2)).

Lemma best_run_norm ws : best_run (map norm ws) = best_run ws.
Proof. unfold best_run. by rewrite scan_runs_norm. Qed.

Lemma best_run_spec ws :
  length ws = 8%nat ->
  best_is_run ws (best_run ws) = true /\
  forall b l, zeros ws b l = true -> is_best ws (best_run ws) b l = true.
Proof.
  intros Hl.
  assert (H : forallb (fun p => best_is_run p (best_run p) &&
    forallb (fun b => forallb (fun l => implb (zeros p b l) (is_best p (best_run p) b l)) (seq 0 9))
      (seq 0 9)) (patterns 8) = true) by (vm_compute; done).
  rewrite forallb_forall in H. pose proof (norm_pattern ws) as Hp. rewrite Hl in Hp.
  specialize (H _ Hp). apply andb_true_iff in H as [H1 H2].
  rewrite best_run_norm in *. split.
  - unfold best_is_run in *. by rewrite zeros_norm in H1.
  - intros b l Hz. assert (Hb : (b + l <= 8)%nat).
    { rewrite <- Hl. by apply zeros_split in Hz as [? _]. }
    rewrite forallb_forall in H2. specialize (H2 b). rewrite forallb_forall in H2.
    specialize (H2 ltac:(apply in_seq; lia) l ltac:(apply in_seq; lia)).
    rewrite zeros_norm, Hz in H2. exact H2.
Qed.

(** ** Writing *)

Definition colons (ws : list Z) : list Z := flat_map (fun w => 58 :: fmt_x w) ws.

Lemma joinc_colons w ws : joinc (w :: ws) = fmt_x w ++ colons ws.
Proof.
  revert w. induction ws as [|w' ws IH]; intros w; [cbn; by rewrite app_nil_r|].
  rewrite joinc_cons, IH. done.
Qed.

Lemma colons_len ws : Forall word_ok ws -> zlen (colons ws) <= 5 * zlen ws.
Proof.
  induction 1 as [|w ws Hw _ IH]; [done|]. cbn [colons flat_map]. fold (colons ws).
  pose proof (fmt_x_len w Hw). zl.
Qed.

Lemma joinc_len ws : Forall word_ok ws -> zlen (joinc ws) <= 5 * zlen ws.
Proof.
  destruct 1 as [|w ws Hw Hws]; [done|]. rewrite joinc_colons. pose proof (fmt_x_len w Hw).
  pose proof (colons_len ws Hws). zl.
Qed.

Section Write.
Variables (best : run) (words src : list Z).

(** Words outside the run, after the first. *)
Lemma loop_words ws : forall rest i out,
  Forall word_ok ws -> 0 < i ->
  (forall j, i <= j < i + zlen ws -> in_run best j = false /\ encapsulated best words j = false) ->
  zlen out + 5 * zlen ws < ntop6_cap ->
  ntop6_loop best words src i (ws ++ rest) out =
  ntop6_loop best words src (i + zlen ws) rest (out ++ colons ws).
Proof.
  induction ws as [|w ws IH]; intros rest i out Hws Hi Hj Hcap.
  { cbn [app colons flat_map]. rewrite app_nil_r. change (zlen (@nil Z)) with 0.
    by rewrite Z.add_0_r. }
  inversion Hws as [|? ? Hw Hws']; subst. pose proof (zlen_nonneg ws).
  assert (El : zlen (w :: ws) = zlen ws + 1) by zl. pose proof (fmt_x_len w Hw).
  cbn [app ntop6_loop]. destruct (Hj i) as [-> ->]; [lia|].
  rewrite (proj2 (Z.eqb_neq i 0)), (proj2 (Z.leb_gt ntop6_cap _)), push_ok by lia. cbn [obind].
  rewrite (proj2 (Z.leb_gt (zlen (fmt_x w)) 0)), (proj2 (Z.leb_gt (ntop6_cap - _) _)) by zl.
  cbn [orb]. rewrite IH; [|done|lia|intros j ?; apply Hj; lia|zl].
  rewrite El. replace (i + 1 + zlen ws) with (i + (zlen ws + 1)) by lia.
  cbn [colons flat_map]. by repeat (rewrite <- app_assoc; cbn [app]).
Qed.

(** Words from the start. *)
Lemma loop_first ws rest :
  ws <> [] -> Forall word_ok ws -> 5 * zlen ws < ntop6_cap ->
  (forall j, 0 <= j < zlen ws -> in_run best j = false /\ encapsulated best words j = false) ->
  ntop6_loop best words src 0 (ws ++ rest) [] =
  ntop6_loop best words src (zlen ws) rest (joinc ws).
Proof.
  intros Hne Hws Hcap Hj. destruct ws as [|w ws]; [done|].
  inversion Hws as [|? ? Hw Hws']; subst. pose proof (zlen_nonneg ws).
  assert (El : zlen (w :: ws) = zlen ws + 1) by zl. pose proof (fmt_x_len w Hw).
  cbn [app ntop6_loop]. destruct (Hj 0) as [-> ->]; [lia|]. cbn [Z.eqb obind].
  rewrite (proj2 (Z.leb_gt (zlen (fmt_x w)) 0)) by lia.
  rewrite (proj2 (Z.leb_gt (ntop6_cap - _) _)) by (unfold ntop6_cap; zl). cbn [orb].
  rewrite loop_words; [|done|lia|intros j ?; apply Hj; lia|zl]. rewrite El, joinc_colons. cbn [app].
  f_equal. lia.
Qed.

(** Inside the run, after its start. *)
Lemma loop_skip m : forall rest i out,
  best.1 <> -1 -> best.1 < i -> i + Z.of_nat m <= best.1 + best.2 ->
  ntop6_loop best words src i (replicate m 0 ++ rest) out =
  ntop6_loop best words src (i + Z.of_nat m) rest out.
Proof.
  induction m as [|m IH]; intros rest i out Hb Hi Hm; [cbn; by rewrite Z.add_0_r|].
  cbn [replicate app ntop6_loop]. unfold in_run at 1. bdecide. cbn [negb andb obind].
  rewrite IH by lia. f_equal. lia.
Qed.

Lemma loop_run l rest out :
  0 <= best.1 -> best.2 = Z.of_nat l -> (0 < l)%nat -> zlen out < ntop6_cap ->
  ntop6_loop best words src best.1 (replicate l 0 ++ rest) out =
  ntop6_loop best words src (best.1 + best.2) rest (out ++ [58]).
Proof.
  intros Hb El Hl Hcap. destruct l as [|l]; [lia|]. cbn [replicate app ntop6_loop].
  unfold in_run at 1. rewrite (proj2 (Z.eqb_neq best.1 (-1))), (proj2 (Z.leb_le best.1 best.1)),
    (proj2 (Z.ltb_lt best.1 _)), Z.eqb_refl by lia.
  cbn [negb andb]. rewrite push_ok by done. cbn [obind]. rewrite loop_skip by lia. f_equal. lia.
Qed.

Lemma outside_run j :
  best.1 = -1 \/ j < best.1 \/ best.1 + best.2 <= j -> in_run best j = false.
Proof.
  intros H. unfold in_run. destruct (Z.eqb_spec best.1 (-1)); [done|]. cbn [negb andb].
  destruct (Z.leb_spec best.1 j), (Z.ltb_spec j (best.1 + best.2)); try done. lia.
Qed.

Lemma not_encapsulated j :
  j <> 6 \/ best.1 <> 0 \/ (best.2 < 5 \/ best.2 = 5 /\ nth 5 words 0 <> 65535 \/ 7 < best.2) ->
  encapsulated best words j = false.
Proof.
  intros H. unfold encapsulated.
  destruct (Z.eqb_spec j 6); [|done]. destruct (Z.eqb_spec best.1 0); [|done]. cbn [andb].
  destruct (Z.eqb_spec best.2 6); [lia|]. destruct (Z.eqb_spec best.2 7); [lia|].
  destruct (Z.eqb_spec best.2 5); [|done]. cbn [andb orb]. apply Z.eqb_neq. lia.
Qed.
End Write.

(** The text of an address: its words, or ["::"] for a run [l] of them, with
    the last two words in dotted quad notation for an IPv4 address. *)
Definition text6 (pre : list Z) (l : nat) (post : list Z) (v4 : list Z) : list Z :=
  match l with
  | O => joinc (pre ++ post)
  | _ =>
      if (zlen pre =? 0) && (Z.of_nat l =? 6) then 58 :: 58 :: dotted v4
      else if (zlen pre =? 0) && (Z.of_nat l =? 5) && (nth 0 post 0 =? 65535) then
        58 :: 58 :: fmt_x 65535 ++ 58 :: dotted v4
      else joinc pre ++ 58 :: 58 :: joinc post
  end.

Lemma words_of_spec src :
  bytes_ok src -> length src = 16%nat ->
  length (words_of src) = 8%nat /\ Forall word_ok (words_of src) /\ bytes_of (words_of src) = src.
Proof.
  intros Hb Hl. do 16 (destruct src as [|? src]; [done|]). destruct src; [|done]. clear Hl.
  unfold bytes_ok in Hb. rewrite !Forall_cons_iff in Hb. unfold byte_ok in Hb. cbn [words_of].
  split; [done|].
  assert (E : forall x y, 0 <= x < 256 /\ 0 <= y < 256 -> Z.lor (Z.shiftl x 8) y = x * 256 + y).
  { intros x y [Hx Hy]. by rewrite lor_shiftl_add by lia. }
  rewrite !E by tauto. clear E. split.
  - repeat constructor; lia.
  - cbn. repeat f_equal; Z.to_euclidean_division_equations; lia.
Qed.

(** The end of [inet_ntop6], when the loop left [out]. *)
Lemma ntop6_end src size best out trail :
  best = best_run (words_of src) ->
  ntop6_loop best (words_of src) src 0 (words_of src) [] = Ok out ->
  trail = (if negb (best.1 =? -1) && (best.1 + best.2 =? 8) then [58] else []) ->
  zlen out < 44 -> 0 <= size ->
  inet_ntop6 src size =
  if zlen (out ++ trail) <? size then Ok (out ++ trail) else Err ENOSPC.
Proof.
  intros -> Hl -> Ho Hs. unfold inet_ntop6. rewrite Hl. cbn [obind].
  set (t := negb _ && _).
  assert (E : (if t then if ntop6_cap <=? zlen out + 1 then Err ENOSPC else push ntop6_cap out 58
               else Ok out) = Ok (out ++ if t then [58] else [])).
  { destruct t; [|by rewrite app_nil_r]. unfold ntop6_cap.
    rewrite (proj2 (Z.leb_gt _ _)), push_ok by lia. done. }
  rewrite E. cbn [obind]. set (o := out ++ _).
  assert (zlen o <= 44) by (subst o; destruct t; zl).
  unfold ntop6_cap. rewrite (proj2 (Z.leb_gt _ _)), push_ok by lia. cbn [obind].
  rewrite Z.ltb_antisym. destruct (Z.ltb_spec (zlen o) size), (Z.leb_spec (zlen o + 1) size);
    try done; lia.
Qed.

Lemma quad_of src :
  length src = 16%nat -> bytes_ok src ->
  exists a b c d, drop 12 src = [a; b; c; d] /\ bytes_ok [a; b; c; d].
Proof.
  intros Hl Hb. pose proof (Forall_drop byte_ok 12 src Hb) as Hd.
  do 16 (destruct src as [|? src]; [done|]). destruct src; [|done]. cbn [drop] in *.
  eexists _, _, _, _. by split.
Qed.

(** The IPv4 address at the end. *)
Lemma ntop6_v4 best words src x post out a b c d :
  drop 12 src = [a; b; c; d] -> bytes_ok [a; b; c; d] -> zlen out <= 20 ->
  in_run best 6 = false -> encapsulated best words 6 = true ->
  ntop6_loop best words src 6 (x :: post) out = Ok (out ++ 58 :: dotted [a; b; c; d]).
Proof.
  intros E4 Hq Ho Hr He. pose proof (dotted_len a b c d Hq) as Hdl.
  cbn [ntop6_loop]. rewrite Hr, He. cbn [Z.eqb].
  rewrite (proj2 (Z.leb_gt ntop6_cap _)), push_ok by (unfold ntop6_cap; lia). cbn [obind].
  rewrite E4, inet_ntop4_quad by (done || (unfold ntop6_cap; zl)).
  rewrite (proj2 (Z.ltb_lt _ _)) by (unfold ntop6_cap; zl). by rewrite <- app_assoc.
Qed.

(** From the end of the run. *)
Lemma ntop6_post src pre l post a b c d :
  drop 12 src = [a; b; c; d] -> bytes_ok [a; b; c; d] ->
  Forall word_ok pre -> Forall word_ok post -> (2 <= l)%nat ->
  zlen pre + Z.of_nat l + zlen post = 8 ->
  let ws := pre ++ replicate l 0 ++ post in
  let best := (zlen pre, Z.of_nat l) in
  exists out, ntop6_loop best ws src (zlen pre + Z.of_nat l) post (joinc pre ++ [58]) = Ok out /\
    zlen out < 44 /\
    out ++ (if zlen pre + Z.of_nat l =? 8 then [58] else []) = text6 pre l post [a; b; c; d].
Proof.
  intros E4 Hq Hpre Hpost Hl Hs ws best.
  pose proof (zlen_nonneg pre) as Hp0. pose proof (zlen_nonneg post) as Hq0.
  pose proof (joinc_len pre Hpre) as Hp1. pose proof (colons_len post Hpost) as Hq1.
  pose proof (dotted_len a b c d Hq) as Hdl. unfold text6.
  destruct l as [|l']; [lia|]. set (l := S l') in *.
  destruct ((zlen pre =? 0) && (Z.of_nat l =? 6)) eqn:E6;
    [|destruct ((zlen pre =? 0) && (Z.of_nat l =? 5) && (nth 0 post 0 =? 65535)) eqn:E5].
  - zbool. assert (pre = []) as -> by (destruct pre; [done|zl]).
    destruct post as [|x post]; [zl|]. change (zlen (@nil Z)) with 0 in *.
    exists (58 :: 58 :: dotted [a; b; c; d]).
    replace (0 + Z.of_nat l) with 6 in * by lia.
    split; [|split; [zl|by rewrite app_nil_r]].
    rewrite (ntop6_v4 _ _ _ x post _ a b c d); try done; [apply outside_run; cbn; lia|].
    unfold encapsulated. cbn [fst snd best]. by rewrite (proj2 (Z.eqb_eq (Z.of_nat l) 6)) by lia.
  - apply andb_true_iff in E5 as [E5 Hff%Z.eqb_eq]. zbool.
    assert (pre = []) as -> by (destruct pre; [done|zl]).
    destruct post as [|x [|y post]]; [zl|zl|]. cbn [nth] in Hff. subst x.
    change (zlen (@nil Z)) with 0 in *.
    exists (58 :: 58 :: fmt_x 65535 ++ 58 :: dotted [a; b; c; d]).
    assert (El : l = 5%nat) by lia. replace (0 + Z.of_nat l) with 5 in * by lia.
    pose proof (fmt_x_len 65535 ltac:(done)).
    split; [|split; [zl|by rewrite app_nil_r]].
    change (65535 :: y :: post) with ([65535] ++ y :: post).
    rewrite loop_words; try done.
    + change (5 + zlen [65535]) with 6.
      rewrite (ntop6_v4 _ _ _ y post _ a b c d); try done; [apply outside_run; cbn; lia|].
      subst ws best. by rewrite El.
    + by inversion Hpost; constructor.
    + intros j Hj. change (zlen [65535]) with 1 in Hj.
      split; [apply outside_run; cbn; lia|apply not_encapsulated; lia].
  - exists ((joinc pre ++ [58]) ++ colons post). rewrite <- (app_nil_r post) at 1.
    rewrite loop_words; [|done|lia| |unfold ntop6_cap; zl].
    + split; [by cbn|]. split; [zl|]. destruct (Z.eqb_spec (zlen pre + Z.of_nat l) 8).
      * destruct post; [|zl]. by repeat (rewrite <- app_assoc; cbn [app]).
      * destruct post as [|x post]; [zl|]. rewrite joinc_colons, app_nil_r.
        by repeat (rewrite <- app_assoc; cbn [app]).
    + intros j Hj. split; [apply outside_run; cbn; lia|]. apply not_encapsulated. cbn [fst snd best].
      destruct (Z.eqb_spec (zlen pre) 0) as [Hz|]; [|lia]. cbn [andb] in E6, E5.
      assert (pre = []) as -> by (destruct pre; [done|zl]).
      destruct (Z.eqb_spec (Z.of_nat l) 6); [done|].
      destruct (Z.eqb_spec (Z.of_nat l) 5) as [H5|]; [|lia]. right. right. right. left.
      split; [done|]. cbn [andb] in E5. zbool. assert (El : l = 5%nat) by lia.
      subst ws. rewrite El. by destruct post.
Qed.

(** The loop, for the run [pre] words from the start. *)
Lemma ntop6_run src pre l post :
  Forall word_ok pre -> Forall word_ok post -> (2 <= l)%nat -> length src = 16%nat ->
  bytes_ok src -> length (pre ++ replicate l 0 ++ post) = 8%nat ->
  let ws := pre ++ replicate l 0 ++ post in
  let best := (zlen pre, Z.of_nat l) in
  exists out, ntop6_loop best ws src 0 ws [] = Ok out /\ zlen out < 44 /\
    out ++ (if zlen pre + Z.of_nat l =? 8 then [58] else []) = text6 pre l post (drop 12 src).
Proof.
  intros Hpre Hpost Hl Hsrc Hb Hlen ws best. pose proof (zlen_nonneg pre). pose proof (zlen_nonneg post).
  rewrite !length_app, length_replicate in Hlen.
  assert (Hs : zlen pre + Z.of_nat l + zlen post = 8) by (unfold zlen; lia).
  pose proof (joinc_len pre Hpre). pose proof (colons_len post Hpost).
  assert (E : ntop6_loop best ws src 0 ws [] =
              ntop6_loop best ws src (zlen pre + Z.of_nat l) post (joinc pre ++ [58])).
  { transitivity (ntop6_loop best ws src (zlen pre) (replicate l 0 ++ post) (joinc pre)).
    - destruct (decide (pre = [])) as [->|Hne]; [done|]. unfold ws at 2.
      assert (0 < zlen pre) by (destruct pre; [done|zl]).
      rewrite loop_first; [done|done|done|unfold ntop6_cap; lia|].
      intros j Hj. split; [apply outside_run; cbn; lia|apply not_encapsulated; cbn; lia].
    - change (zlen pre) with best.1. change (Z.of_nat l) with best.2.
      apply loop_run; cbn; [lia|done|lia|unfold ntop6_cap; lia]. }
  rewrite E. clear E. destruct (quad_of src Hsrc Hb) as (a & b & c & d & E4 & Hq).
  destruct (ntop6_post src pre l post a b c d) as (out & Ho1 & Ho2 & Ho3); try done.
  exists out. by rewrite E4.
Qed.

(** The words of an address around the run that is left out: none when no two
    words in a row are zero, and else the first of the longest runs. *)
Definition split6 (ws pre : list Z) (l : nat) (post : list Z) : Prop :=
  ws = pre ++ replicate l 0 ++ post /\ (l = 0%nat \/ (2 <= l)%nat) /\
  forall b l', zeros ws b l' = true ->
    (l' <= Nat.max l 1)%nat /\ (l' = l -> (2 <= l)%nat -> (length pre <= b)%nat).

Lemma ntop6_text src :
  bytes_ok src -> length src = 16%nat ->
  exists pre l post, split6 (words_of src) pre l post /\
    forall size, 0 <= size ->
      inet_ntop6 src size =
      if zlen (text6 pre l post (drop 12 src)) <? size
      then Ok (text6 pre l post (drop 12 src)) else Err ENOSPC.
Proof.
  intros Hb Hsrc. destruct (words_of_spec src Hb Hsrc) as (Hl & Hw & _).
  destruct (best_run_spec (words_of src) Hl) as [Hr Hbest]. unfold best_is_run in Hr.
  destruct (best_run (words_of src)) as [b l] eqn:Eb. cbn [fst snd] in *.
  destruct (Z.eqb_spec b (-1)) as [->|Hb1].
  - exists (words_of src), 0%nat, []. split.
    { split; [by rewrite app_nil_r|]. split; [by left|]. intros b' l' Hz.
      apply Hbest in Hz. unfold is_best in Hz. cbn in Hz. apply Nat.leb_le in Hz. lia. }
    intros size Hsize. pose proof (joinc_len (words_of src) Hw) as Hj.
    assert (E8 : zlen (words_of src) = 8) by (unfold zlen; lia).
    unfold text6. cbn [replicate app]. rewrite app_nil_r.
    rewrite (ntop6_end src size (-1, l) (joinc (words_of src)) []); [|done| |done|lia|done].
    { by rewrite app_nil_r. }
    rewrite <- (app_nil_r (words_of src)) at 2. rewrite loop_first; try done.
    + intros He. by rewrite He in Hl.
    + unfold ntop6_cap. lia.
    + intros j Hj'. split; [apply outside_run; by left|apply not_encapsulated; cbn; lia].
  - cbn [orb] in Hr. apply andb_true_iff in Hr as [Hr Hz]. zbool.
    destruct (zeros_split _ _ _ Hz) as [Hlen Hsplit].
    set (pre := take (Z.to_nat b) (words_of src)) in *.
    set (post := drop (Z.to_nat b + Z.to_nat l) (words_of src)) in *.
    assert (Hpre : zlen pre = b) by (unfold zlen, pre; rewrite length_take; lia).
    exists pre, (Z.to_nat l), post. split.
    { split; [done|]. split; [right; lia|]. intros b' l' Hz'. apply Hbest in Hz'.
      unfold is_best in Hz'. cbn [fst snd] in Hz'. rewrite (proj2 (Z.eqb_neq b (-1))) in Hz' by done.
      unfold zlen in Hpre. apply orb_true_iff in Hz' as [Hz'%Nat.ltb_lt|Hz'].
      - lia.
      - apply andb_true_iff in Hz' as [Hz1%Nat.eqb_eq Hz2%Nat.leb_le]. lia. }
    intros size Hsize.
    destruct (ntop6_run src pre (Z.to_nat l) post) as (out & Ho1 & Ho2 & Ho3);
      [by apply Forall_take|by apply Forall_drop|lia|done|done|by rewrite <- Hsplit|].
    rewrite <- Hsplit, Hpre, Z2Nat.id in Ho1 by lia. rewrite Hpre, Z2Nat.id in Ho3 by lia.
    rewrite <- Ho3. apply (ntop6_end src size (b, l)); try done. cbn [fst snd].
    by rewrite (proj2 (Z.eqb_neq b (-1))) by done.
Qed.

(** The last words are the IPv4 address. *)
Lemma parse_text6 src pre l post :
  bytes_ok src -> length src = 16%nat -> split6 (words_of src) pre l post ->
  inet_pton6 (text6 pre l post (drop 12 src)) = Ok (Some src).
Proof.
  intros Hb Hsrc (Hsplit & Hl2 & _). destruct (words_of_spec src Hb Hsrc) as (Hl & Hw & Hbytes).
  rewrite Hsplit in Hl, Hw, Hbytes. apply Forall_app in Hw as [Hpre [_ Hpost]%Forall_app].
  destruct (quad_of src Hsrc Hb) as (a & b & c & d & E4 & Hq).
  rewrite !length_app, length_replicate in Hl. unfold text6. destruct l as [|l'].
  { cbn [replicate app] in *. rewrite parse_plain; [by rewrite Hbytes|by apply Forall_app|].
    unfold zlen. rewrite length_app. lia. }
  set (l := S l') in *. destruct (parse_v4 a b c d Hq) as [P1 P2].
  assert (Hd : src = take 12 src ++ [a; b; c; d]) by (by rewrite <- E4, take_drop).
  destruct ((zlen pre =? 0) && (Z.of_nat l =? 6)) eqn:E6;
    [|destruct ((zlen pre =? 0) && (Z.of_nat l =? 5) && (nth 0 post 0 =? 65535)) eqn:E5].
  - zbool. assert (pre = []) as -> by (destruct pre; [done|zl]). rewrite E4, P1. do 2 f_equal.
    assert (E : l = 6%nat) by lia. rewrite E in Hbytes.
    assert (T : take 12 src = replicate 12 0) by (by rewrite <- Hbytes). by rewrite Hd, T.
  - apply andb_true_iff in E5 as [E5 Hff%Z.eqb_eq]. zbool.
    assert (pre = []) as -> by (destruct pre; [done|zl]). rewrite E4, P2. do 2 f_equal.
    assert (E : l = 5%nat) by lia. rewrite E in Hbytes.
    destruct post as [|x post]; [cbn in Hl; lia|]. cbn [nth] in Hff. subst x.
    assert (T : take 12 src = replicate 10 0 ++ [255; 255]) by (by rewrite <- Hbytes).
    by rewrite Hd, T.
  - rewrite (parse_run pre l post); [by rewrite Hbytes|done|done|lia|unfold zlen; lia].
Qed.

(** C32: an IPv6 address survives the trip through text.  For every 16 bytes
    there is a text, the words in hexadecimal with the first of the longest
    runs of zero words (of two or more) left out, that [inet_ntop6] writes
    exactly when it fits the buffer with its terminator (and fails with
    [ENOSPC] otherwise), and [inet_pton6] reads the same 16 bytes from it. *)
Theorem inet6_round_trip src :
  bytes_ok src -> length src = 16%nat ->
  exists pre l post, split6 (words_of src) pre l post /\
    let s := text6 pre l post (drop 12 src) in
    (forall size, 0 <= size ->
       inet_ntop6 src size = if zlen s <? size then Ok s else Err ENOSPC) /\
    inet_pton6 s = Ok (Some src).
Proof.
  intros Hb Hl. destruct (ntop6_text src Hb Hl) as (pre & l & post & Hs & Ht).
  exists pre, l, post. split; [done|]. split; [done|]. by apply parse_text6.
Qed.

(** 2001:db8::1:0:0:1 has two runs of two zero words: the first is left out. *)
Lemma inet6_round_trip_witness :
  inet_ntop6 [32;1;13;184;0;0;0;0;0;1;0;0;0;0;0;1] 18 = Ok (str "2001:db8::1:0:0:1") /\
  exists s, inet_ntop6 [32;1;13;184;0;0;0;0;0;1;0;0;0;0;0;1] 100 = Ok s /\
            inet_pton6 s = Ok (Some [32;1;13;184;0;0;0;0;0;1;0;0;0;0;0;1]).
Proof.
  split; [reflexivity|].
  destruct (inet6_round_trip [32;1;13;184;0;0;0;0;0;1;0;0;0;0;0;1]) as (pre & l & post & _ & H & P);
    [repeat constructor; done|done|].
  eexists. split; [|exact P]. pose proof (H 18 ltac:(lia)) as H18. rewrite (H 100) by lia.
  revert H18. match goal with |- context [text6 ?a ?b ?c ?d] => set (s := text6 a b c d) end.
  destruct (Z.ltb_spec (zlen s) 18), (Z.ltb_spec (zlen s) 100); intros H18;
    (reflexivity || (exfalso; lia) || (vm_compute in H18; discriminate H18)).
Defined.

(** The comment of [inet_pton6] says that "::" in a full address is silently
    ignored; the code rejects it. *)
Theorem inet_pton6_full_colons :
  inet_pton6 (str "1:2:3:4:5:6:7::8") = Ok None /\ inet_pton6 (str "1:2:3:4:5:6:7:8") <> Ok None.
Proof. split; [reflexivity|vm_compute; discriminate]. Qed.
