(* ===== verification/Semaphore.v ===== *)
(** * os/sem.c: semaphores of a single thread

    The table of fake semaphores in the second half of the file (the first
    half forwards the calls to the kernel).  A table is the list of its
    entries; [strdup], the clock and [snooze_until] are parameters, and an
    acquisition that would block says which of them it called.  The abstract
    machine at the end has a finite map from the identifiers in use to a name
    and a count; the theorem is that the table refines it. *)
From Stdlib Require Import ZArith Lia List Bool String.
From stdpp Require Import base tactics list numbers gmap sets.
From S2P Require Import Prelude CText.
Local Open Scope Z_scope.
Local Open Scope c_scope.

Inductive status : Type :=
| B_OK | B_ERROR | B_NO_MEMORY | B_BAD_VALUE | B_BAD_SEM_ID | B_NO_MORE_SEMS | B_BAD_TEAM_ID
| B_WOULD_BLOCK | B_TIMED_OUT | B_ENTRY_NOT_FOUND
| B_OTHER (code : Z).

#[export] Instance status_eq_dec : EqDecision status.
Proof. solve_decision. Defined.

Record semaphore := Semaphore {
  sem_name : option (list Z);     (* NULL is [None] *)
  sem_count : Z;
  sem_inUse : bool }.

Definition kSemaphoreCount : Z := 40960.

(** [static semaphore sSemaphores[kSemaphoreCount]], zeroed. *)
Definition sSemaphores : list semaphore :=
  replicate (Z.to_nat kSemaphoreCount) (Semaphore None 0 false).

Definition B_INFINITE_TIMEOUT : Z := 9223372036854775807.
Definition B_OS_NAME_LENGTH : Z := 32.

(** [sSemaphores[i]] *)
Definition sem_at (t : list semaphore) (i : Z) : outcome semaphore := rd t i.

Definition check_sem (t : list semaphore) (id : Z) : outcome bool :=
  if (id <? 0) || (kSemaphoreCount <=? id) then Ok false
  else
    s <- sem_at t id;;
    Ok (sem_inUse s).

(** What an acquisition calls outside the file. *)
Inductive sem_call : Type :=
| Debugger                       (* [debugger("Would block ...")] *)
| Snooze (until : Z).            (* [snooze_until(until, B_SYSTEM_TIMEBASE)] *)

Record sem_info := SemInfo {
  info_sem : Z;
  info_team : Z;
  info_name : list Z;
  info_count : Z;
  info_latest_holder : Z }.

Section Sem.
Variable strdup : list Z -> option (list Z).
Variables B_RELATIVE_TIMEOUT B_ABSOLUTE_TIMEOUT : Z.
Variable system_time : Z.
Variable snooze_until : Z -> status.

(** The loop of [create_sem] from index [i], over [rest]. *)
Fixpoint create_loop (t : list semaphore) (count : Z) (name : option (list Z)) (i : Z)
    (rest : list semaphore) : outcome (list semaphore * (Z + status)) :=
  match rest with
  | [] => Ok (t, inr B_NO_MORE_SEMS)
  | sem :: rest =>
      if negb (sem_inUse sem) then
        match strdup (default (str "unnamed sem") name) with
        | None =>
            t <- wr t i (Semaphore None (sem_count sem) false);;
            Ok (t, inr B_NO_MEMORY)
        | Some dup =>
            t <- wr t i (Semaphore (Some dup) count true);;
            Ok (t, inl i)
        end
      else create_loop t count name (i + 1) rest
  end.

Definition create_sem (t : list semaphore) (count : Z) (name : option (list Z))
    : outcome (list semaphore * (Z + status)) :=
  create_loop t count name 0 (take (Z.to_nat kSemaphoreCount) t).

Definition delete_sem (t : list semaphore) (id : Z) : outcome (list semaphore * status) :=
  ok <- check_sem t id;;
  if negb ok then Ok (t, B_BAD_SEM_ID)
  else
    sem <- sem_at t id;;
    t <- wr t id (Semaphore None (sem_count sem) false);;
    Ok (t, B_OK).

(** [timeout] after its adjustment, or that there is none. *)
Definition acquire_timeout (flags timeout : Z) : option Z + status :=
  let timeout := if timeout <? 0 then 0 else timeout in
  if negb (Z.land flags B_RELATIVE_TIMEOUT =? 0) then
    if timeout =? 0 then inr B_WOULD_BLOCK
    else if (B_INFINITE_TIMEOUT <? timeout) || (B_INFINITE_TIMEOUT - timeout <=? system_time)
    then inl None
    else inl (Some (timeout + system_time))
  else if negb (Z.land flags B_ABSOLUTE_TIMEOUT =? 0) then inl (Some timeout)
  else inl None.

Definition acquire_sem_etc (t : list semaphore) (id count flags timeout : Z)
    : outcome (list semaphore * status * list sem_call) :=
  ok <- check_sem t id;;
  if negb ok then Ok (t, B_BAD_SEM_ID, [])
  else if count <=? 0 then Ok (t, B_BAD_VALUE, [])
  else
    sem <- sem_at t id;;
    if count <=? sem_count sem then
      t <- wr t id (Semaphore (sem_name sem) (sem_count sem - count) (sem_inUse sem));;
      Ok (t, B_OK, [])
    else
      match acquire_timeout flags timeout with
      | inr e => Ok (t, e, [])
      | inl None => Ok (t, B_ERROR, [Debugger])
      | inl (Some until) =>
          let error := snooze_until until in
          if negb (bool_decide (error = B_OK)) then Ok (t, error, [Snooze until])
          else Ok (t, B_TIMED_OUT, [Snooze until])
      end.

Definition acquire_sem (t : list semaphore) (id : Z)
    : outcome (list semaphore * status * list sem_call) :=
  acquire_sem_etc t id 1 0 0.

(** An overflow of the [int32_t] count is undefined. *)
Definition release_sem_etc (t : list semaphore) (id count flags : Z)
    : outcome (list semaphore * status) :=
  ok <- check_sem t id;;
  if negb ok then Ok (t, B_BAD_SEM_ID)
  else if count <=? 0 then Ok (t, B_BAD_VALUE)
  else
    sem <- sem_at t id;;
    assert_int (sem_count sem + count);;;
    t <- wr t id (Semaphore (sem_name sem) (sem_count sem + count) (sem_inUse sem));;
    Ok (t, B_OK).

Definition release_sem (t : list semaphore) (id : Z) : outcome (list semaphore * status) :=
  release_sem_etc t id 1 0.

(** The number stored in [*threadCount], unless the pointer is NULL. *)
Definition get_sem_count (t : list semaphore) (id : Z) (threadCount : bool)
    : outcome (Z + status) :=
  ok <- check_sem t id;;
  if negb ok then Ok (inr B_BAD_SEM_ID)
  else if negb threadCount then Ok (inr B_BAD_VALUE)
  else
    sem <- sem_at t id;;
    Ok (inl (sem_count sem)).

Definition set_sem_owner (t : list semaphore) (id team : Z) : outcome status :=
  ok <- check_sem t id;;
  if negb ok then Ok B_BAD_SEM_ID else Ok B_OK.

(** [strlcpy] of the name; a NULL name is not a string. *)
Definition get_sem_info (t : list semaphore) (id : Z) (info : bool) : outcome (sem_info + status) :=
  ok <- check_sem t id;;
  if negb ok then Ok (inr B_BAD_SEM_ID)
  else if negb info then Ok (inr B_BAD_VALUE)
  else
    sem <- sem_at t id;;
    match sem_name sem with
    | None => Fault
    | Some name =>
        Ok (inl (SemInfo id 1 (take (Z.to_nat (B_OS_NAME_LENGTH - 1)) name) (sem_count sem) (-1)))
    end.

(** The loop from [i]; [k] bounds the turns. *)
Fixpoint next_loop (t : list semaphore) (k : nat) (i : Z) (info : bool)
    : outcome (option Z * (sem_info + status)) :=
  match k with
  | O => NoFuel
  | S k =>
      if kSemaphoreCount <=? i then Ok (None, inr B_ENTRY_NOT_FOUND)
      else
        s <- sem_at t i;;
        if sem_inUse s then
          r <- get_sem_info t i info;;
          Ok (Some (i + 1), r)
        else next_loop t k (i + 1) info
  end.

(** The new cookie, if it was stored, and the result. *)
Definition get_next_sem_info (t : list semaphore) (team cookie : Z) (info : bool)
    : outcome (option Z * (sem_info + status)) :=
  if (team <? 0) || (2 <? team) then Ok (None, inr B_BAD_TEAM_ID)
  else next_loop t (Z.to_nat (kSemaphoreCount - cookie) + 1) cookie info.

(** ** Operations as data *)

Inductive sem_op : Type :=
| Create (count : Z) (name : option (list Z))
| Delete (id : Z)
| Acquire (id count flags timeout : Z)
| Release (id count flags : Z)
| GetCount (id : Z) (threadCount : bool)
| SetOwner (id team : Z)
| GetInfo (id : Z) (info : bool)
| NextInfo (team cookie : Z) (info : bool).

Inductive sem_result : Type :=
| RCreate (r : Z + status)
| RStatus (s : status)
| RAcquire (s : status) (calls : list sem_call)
| RCount (r : Z + status)
| RInfo (r : sem_info + status)
| RNext (cookie : option Z) (r : sem_info + status).

Definition sem_step (t : list semaphore) (op : sem_op) : outcome (list semaphore * sem_result) :=
  match op with
  | Create count name => r <- create_sem t count name;; Ok (r.1, RCreate r.2)
  | Delete id => r <- delete_sem t id;; Ok (r.1, RStatus r.2)
  | Acquire id count flags timeout =>
      r <- acquire_sem_etc t id count flags timeout;; Ok (r.1.1, RAcquire r.1.2 r.2)
  | Release id count flags => r <- release_sem_etc t id count flags;; Ok (r.1, RStatus r.2)
  | GetCount id b => r <- get_sem_count t id b;; Ok (t, RCount r)
  | SetOwner id team => r <- set_sem_owner t id team;; Ok (t, RStatus r)
  | GetInfo id b => r <- get_sem_info t id b;; Ok (t, RInfo r)
  | NextInfo team cookie b =>
      r <- get_next_sem_info t team cookie b;; Ok (t, RNext r.1 r.2)
  end.

(** ** The abstract machine: the semaphores in use, with name and count *)

Notation sems := (gmap Z (list Z * Z)).

(** The least index from [i] that satisfies [P], of [n]. *)
Fixpoint least (P : Z -> bool) (i : Z) (n : nat) : option Z :=
  match n with
  | O => None
  | S n => if P i then Some i else least P (i + 1) n
  end.

Definition used (m : sems) (i : Z) : bool := bool_decide (is_Some (m !! i)).

Definition sem_info_of (id : Z) (s : list Z * Z) : sem_info :=
  SemInfo id 1 (take (Z.to_nat (B_OS_NAME_LENGTH - 1)) s.1) s.2 (-1).

Definition info_result (m : sems) (id : Z) (info : bool) : sem_info + status :=
  match m !! id with
  | None => inr B_BAD_SEM_ID
  | Some s => if info then inl (sem_info_of id s) else inr B_BAD_VALUE
  end.

Definition abs_step (m : sems) (op : sem_op) : outcome (sems * sem_result) :=
  match op with
  | Create count name =>
      match least (fun i => negb (used m i)) 0 (Z.to_nat kSemaphoreCount) with
      | None => Ok (m, RCreate (inr B_NO_MORE_SEMS))
      | Some i =>
          match strdup (default (str "unnamed sem") name) with
          | None => Ok (m, RCreate (inr B_NO_MEMORY))
          | Some dup => Ok (<[i := (dup, count)]> m, RCreate (inl i))
          end
      end
  | Delete id =>
      if used m id then Ok (delete id m, RStatus B_OK) else Ok (m, RStatus B_BAD_SEM_ID)
  | Acquire id count flags timeout =>
      match m !! id with
      | None => Ok (m, RAcquire B_BAD_SEM_ID [])
      | Some (name, have) =>
          if count <=? 0 then Ok (m, RAcquire B_BAD_VALUE [])
          else if count <=? have then Ok (<[id := (name, have - count)]> m, RAcquire B_OK [])
          else
            match acquire_timeout flags timeout with
            | inr e => Ok (m, RAcquire e [])
            | inl None => Ok (m, RAcquire B_ERROR [Debugger])
            | inl (Some until) =>
                Ok (m, RAcquire (if decide (snooze_until until = B_OK) then B_TIMED_OUT
                                 else snooze_until until) [Snooze until])
            end
      end
  | Release id count _ =>
      match m !! id with
      | None => Ok (m, RStatus B_BAD_SEM_ID)
      | Some (name, have) =>
          if count <=? 0 then Ok (m, RStatus B_BAD_VALUE)
          else assert_int (have + count);;; Ok (<[id := (name, have + count)]> m, RStatus B_OK)
      end
  | GetCount id b =>
      Ok (m, RCount match m !! id with
                    | None => inr B_BAD_SEM_ID
                    | Some s => if b then inl s.2 else inr B_BAD_VALUE
                    end)
  | SetOwner id _ => Ok (m, RStatus (if used m id then B_OK else B_BAD_SEM_ID))
  | GetInfo id b => Ok (m, RInfo (info_result m id b))
  | NextInfo team cookie b =>
      if (team <? 0) || (2 <? team) then Ok (m, RNext None (inr B_BAD_TEAM_ID))
      else if cookie <? 0 then Fault
      else
        match least (used m) cookie (Z.to_nat (kSemaphoreCount - cookie)) with
        | None => Ok (m, RNext None (inr B_ENTRY_NOT_FOUND))
        | Some i => Ok (m, RNext (Some (i + 1)) (info_result m i b))
        end
  end.

Fixpoint sem_run {S} (step : S -> sem_op -> outcome (S * sem_result)) (s : S) (ops : list sem_op)
    : outcome (S * list sem_result) :=
  match ops with
  | [] => Ok (s, [])
  | op :: ops =>
      r <- step s op;;
      r' <- sem_run step r.1 ops;;
      Ok (r'.1, r.2 :: r'.2)
  end.

(** ** The refinement *)

Definition entry (s : semaphore) : option (list Z * Z) :=
  if sem_inUse s then
    match sem_name s with
    | Some name => Some (name, sem_count s)
    | None => None
    end
  else None.

Definition entry_ok (s : semaphore) : Prop := sem_inUse s = true -> sem_name s <> None.

Definition represents (t : list semaphore) (m : sems) : Prop :=
  zlen t = kSemaphoreCount /\ Forall entry_ok t /\
  forall i, m !! i = if i <? 0 then None else t !! Z.to_nat i ≫= entry.

Lemma represents_at t m i :
  represents t m -> 0 <= i < kSemaphoreCount ->
  exists s, sem_at t i = Ok s /\ entry_ok s /\ m !! i = entry s.
Proof.
  intros (Hl & Hok & Hm) Hi. unfold sem_at. destruct (rd_ok t i) as [s Hs]; [lia|].
  exists s. split; [done|]. apply rd_inv in Hs as [Hb Hs]. split.
  - rewrite Forall_lookup in Hok. by eapply Hok.
  - rewrite Hm. bdecide. by rewrite Hs.
Qed.

Lemma represents_out t m i :
  represents t m -> i < 0 \/ kSemaphoreCount <= i -> m !! i = None.
Proof.
  intros (Hl & _ & Hm) Hi. rewrite Hm. destruct (Z.ltb_spec i 0); [done|].
  rewrite lookup_ge_None_2; [done|]. unfold zlen in Hl. lia.
Qed.

Lemma entry_used s : entry_ok s -> sem_inUse s = bool_decide (is_Some (entry s)).
Proof.
  unfold entry_ok, entry. destruct (sem_inUse s), (sem_name s) as [n|]; intros H.
  - by rewrite bool_decide_true.
  - by destruct H.
  - by rewrite bool_decide_false by (by intros []).
  - by rewrite bool_decide_false by (by intros []).
Qed.

Lemma check_sem_used t m id : represents t m -> check_sem t id = Ok (used m id).
Proof.
  intros H. unfold check_sem, used.
  destruct (Z.ltb_spec id 0); [|destruct (Z.leb_spec kSemaphoreCount id)]; cbn [orb].
  1, 2: rewrite (represents_out t m id) by (done || lia); by rewrite bool_decide_false by (by intros []).
  destruct (represents_at t m id) as (s & -> & Hs & ->); [done|lia|]. cbn [obind].
  by rewrite entry_used.
Qed.

(** An identifier in use and its entry. *)
Lemma used_entry t m id :
  represents t m -> used m id = true ->
  exists name have, sem_at t id = Ok (Semaphore (Some name) have true) /\
    m !! id = Some (name, have) /\ 0 <= id < kSemaphoreCount.
Proof.
  intros H Hu. apply bool_decide_eq_true in Hu.
  destruct (decide (id < 0 \/ kSemaphoreCount <= id)) as [Ho|Ho].
  { rewrite (represents_out t m id H Ho) in Hu. by destruct Hu. }
  destruct (represents_at t m id H) as (s & Hs & _ & Hm); [lia|]. rewrite Hm in Hu |- *.
  unfold entry in *. destruct s as [[name|] have [|]]; cbn in *; try by destruct Hu.
  exists name, have. split_and!; try done; lia.
Qed.

Lemma unused_entry m id : used m id = false -> m !! id = None.
Proof. intros Hu%bool_decide_eq_false. by apply eq_None_not_Some. Qed.

Lemma represents_update t m id s :
  represents t m -> 0 <= id < kSemaphoreCount -> entry_ok s ->
  wr t id s = Ok (<[Z.to_nat id := s]> t) /\
  represents (<[Z.to_nat id := s]> t) (partial_alter (fun _ => entry s) id m).
Proof.
  intros (Hl & Hok & Hm) Hid Hs. split; [apply wr_ok; lia|]. split; [by rewrite zlen_insert|].
  split; [by apply Forall_insert|]. intros i. destruct (decide (i = id)) as [->|Hne].
  - rewrite lookup_partial_alter_eq, list_lookup_insert_eq by (unfold zlen in Hl; lia).
    by bdecide.
  - rewrite lookup_partial_alter_ne, Hm by done. destruct (Z.ltb_spec i 0); [done|].
    by rewrite list_lookup_insert_ne by lia.
Qed.

Definition refines (r : outcome (list semaphore * sem_result)) (a : outcome (sems * sem_result))
    : Prop :=
  match r, a with
  | Ok (t, x), Ok (m, y) => x = y /\ represents t m
  | Fault, Fault => True
  | _, _ => False
  end.

Lemma create_loop_least count name t m :
  represents t m -> forall rest i,
  0 <= i -> i + zlen rest <= kSemaphoreCount -> (forall k, rest !! k = t !! (Z.to_nat i + k)%nat \/ rest !! k = None) ->
  refines (r <- create_loop t count name i rest;; Ok (r.1, RCreate r.2))
    match least (fun i => negb (used m i)) i (length rest) with
    | None => Ok (m, RCreate (inr B_NO_MORE_SEMS))
    | Some i =>
        match strdup (default (str "unnamed sem") name) with
        | None => Ok (m, RCreate (inr B_NO_MEMORY))
        | Some dup => Ok (<[i := (dup, count)]> m, RCreate (inl i))
        end
    end.
Proof.
  intros H. induction rest as [|s rest IH]; intros i Hi Hl Hrest; [done|].
  cbn [create_loop length least]. pose proof (zlen_nonneg rest).
  assert (El : zlen (s :: rest) = zlen rest + 1) by zl.
  destruct (represents_at t m i H) as (s' & Hs' & Hok & Hm); [lia|].
  assert (s' = s) as ->.
  { apply rd_inv in Hs' as [_ Hs']. destruct (Hrest 0%nat) as [E|E]; [|done].
    rewrite Nat.add_0_r, Hs' in E. by injection E. }
  assert (Eu : used m i = sem_inUse s) by (unfold used; by rewrite Hm, entry_used).
  rewrite Eu. destruct (sem_inUse s) eqn:Ei; cbn [negb].
  - apply IH; [lia|lia|]. intros k. destruct (Hrest (S k)) as [E|E]; [left|by right].
    change (rest !! k) with ((s :: rest) !! S k). rewrite E. f_equal. lia.
  - assert (Hm' : m !! i = None) by (rewrite Hm; unfold entry; by rewrite Ei).
    destruct (strdup _) as [dup|].
    + destruct (represents_update t m i (Semaphore (Some dup) count true) H) as [-> Hr]; [lia|done|].
      done.
    + destruct (represents_update t m i (Semaphore None (sem_count s) false) H) as [-> Hr]; [lia|done|].
      split; [done|]. cbn [entry] in Hr. change (partial_alter _ i m) with (delete i m) in Hr.
      by rewrite delete_id in Hr.
Qed.

Lemma next_loop_least t m b : represents t m -> forall k i,
  0 <= i -> (Z.to_nat (kSemaphoreCount - i) < k)%nat ->
  next_loop t k i b =
  match least (used m) i (Z.to_nat (kSemaphoreCount - i)) with
  | None => Ok (None, inr B_ENTRY_NOT_FOUND)
  | Some j => Ok (Some (j + 1), info_result m j b)
  end.
Proof.
  intros H. induction k as [|k IH]; intros i Hi Hk; [lia|]. cbn [next_loop].
  destruct (Z.leb_spec kSemaphoreCount i).
  { by replace (Z.to_nat (kSemaphoreCount - i)) with 0%nat by lia. }
  destruct (represents_at t m i H) as (s & Hs & Hok & Hm); [lia|]. rewrite Hs. cbn [obind].
  replace (Z.to_nat (kSemaphoreCount - i)) with (S (Z.to_nat (kSemaphoreCount - (i + 1)))) by lia.
  cbn [least]. assert (Eu : used m i = sem_inUse s) by (unfold used; by rewrite Hm, entry_used).
  rewrite Eu. destruct (sem_inUse s) eqn:Ei; [|apply IH; lia].
  unfold get_sem_info. rewrite (check_sem_used t m i H), Eu. cbn [obind negb].
  unfold info_result. rewrite Hm. unfold entry. rewrite Ei.
  destruct (sem_name s) as [name|] eqn:En; [|by destruct (Hok Ei)].
  destruct b; [|done]. rewrite Hs. cbn [obind]. by rewrite En.
Qed.

(** The entry behind an identifier, on both sides. *)
Ltac sem_entry t m id H :=
  rewrite (check_sem_used t m id H); cbn [obind];
  destruct (used m id) eqn:Hu; cbn [negb]; [|by rewrite ?(unused_entry m id Hu)];
  destruct (used_entry t m id H Hu) as (name & have & Hs & Hm & Hid); rewrite ?Hm, ?Hs; cbn [obind].

Section Step.
Variables (t : list semaphore) (m : sems).
Hypothesis H : represents t m.

Lemma step_create count name : refines (sem_step t (Create count name)) (abs_step m (Create count name)).
Proof.
  cbn [sem_step abs_step]. unfold create_sem. pose proof H as (Hl & _ & _).
  rewrite take_ge by (unfold zlen in Hl; lia).
  replace (Z.to_nat kSemaphoreCount) with (length t) by (unfold zlen in Hl; lia).
  apply create_loop_least; [done|lia|lia|]. intros k. by left.
Qed.

Lemma step_delete id : refines (sem_step t (Delete id)) (abs_step m (Delete id)).
Proof.
  cbn [sem_step abs_step]. unfold delete_sem. sem_entry t m id H. cbn [sem_count].
  by destruct (represents_update t m id (Semaphore None have false) H) as [-> Hr].
Qed.

Lemma step_acquire id count flags timeout :
  refines (sem_step t (Acquire id count flags timeout)) (abs_step m (Acquire id count flags timeout)).
Proof.
  cbn [sem_step abs_step]. unfold acquire_sem_etc. sem_entry t m id H.
  destruct (count <=? 0); [done|]. cbn [obind sem_count sem_name sem_inUse].
  destruct (count <=? have).
  - by destruct (represents_update t m id (Semaphore (Some name) (have - count) true) H) as [-> Hr].
  - destruct (acquire_timeout flags timeout) as [[until|]|e]; [|done|done].
    case_bool_decide as Hb; case_decide; by cbn [negb].
Qed.

Lemma step_release id count flags :
  refines (sem_step t (Release id count flags)) (abs_step m (Release id count flags)).
Proof.
  cbn [sem_step abs_step]. unfold release_sem_etc. sem_entry t m id H.
  destruct (count <=? 0); [done|]. cbn [obind sem_count sem_name sem_inUse].
  unfold assert_int, cassert. destruct (_ && _); [|done]. cbn [obind].
  by destruct (represents_update t m id (Semaphore (Some name) (have + count) true) H) as [-> Hr].
Qed.

Lemma step_query id b team :
  refines (sem_step t (GetCount id b)) (abs_step m (GetCount id b)) /\
  refines (sem_step t (SetOwner id team)) (abs_step m (SetOwner id team)) /\
  refines (sem_step t (GetInfo id b)) (abs_step m (GetInfo id b)).
Proof.
  cbn [sem_step abs_step]. split_and!.
  - unfold get_sem_count. sem_entry t m id H. by destruct b.
  - unfold set_sem_owner. rewrite (check_sem_used t m id H). cbn [obind]. by destruct (used m id).
  - unfold get_sem_info, info_result. sem_entry t m id H. by destruct b.
Qed.

Lemma step_next team cookie b :
  refines (sem_step t (NextInfo team cookie b)) (abs_step m (NextInfo team cookie b)).
Proof.
  cbn [sem_step abs_step]. unfold get_next_sem_info. destruct ((team <? 0) || (2 <? team)); [done|].
  destruct (Z.ltb_spec cookie 0).
  - rewrite Nat.add_1_r. cbn [next_loop]. rewrite (proj2 (Z.leb_gt _ _)) by (unfold kSemaphoreCount; lia).
    unfold sem_at, rd. by bdecide.
  - rewrite (next_loop_least t m b H) by lia. by destruct (least _ _ _).
Qed.
End Step.

Lemma sem_step_refines t m op : represents t m -> refines (sem_step t op) (abs_step m op).
Proof.
  intros H. destruct op as [| | | |id b|id team|id b|];
    auto using step_create, step_delete, step_acquire, step_release, step_next.
  - apply (step_query t m H id b 0).
  - apply (step_query t m H id true team).
  - apply (step_query t m H id b 0).
Qed.

Lemma represents_start : represents sSemaphores ∅.
Proof.
  unfold sSemaphores. split; [unfold zlen; rewrite length_replicate; apply Z2Nat.id; done|]. split.
  - by apply Forall_replicate.
  - intros i. rewrite lookup_empty. destruct (i <? 0); [done|].
    destruct (replicate _ _ !! Z.to_nat i) as [s|] eqn:E; [|done].
    by apply lookup_replicate in E as [-> _].
Qed.

(** Two runs with the same results. *)
Definition run_refines (r : outcome (list semaphore * list sem_result))
    (a : outcome (sems * list sem_result)) : Prop :=
  match r, a with
  | Ok (t, x), Ok (m, y) => x = y /\ represents t m
  | Fault, Fault => True
  | _, _ => False
  end.

Lemma sem_run_refines ops : forall t m,
  represents t m -> run_refines (sem_run sem_step t ops) (sem_run abs_step m ops).
Proof.
  induction ops as [|op ops IH]; intros t m H; [done|]. cbn [sem_run].
  pose proof (sem_step_refines t m op H) as Hs.
  destruct (sem_step t op) as [[t' x]| | |], (abs_step m op) as [[m' y]| | |]; try done.
  destruct Hs as [-> Hs]. cbn [obind fst snd]. specialize (IH t' m' Hs).
  destruct (sem_run sem_step t' ops) as [[t'' x']| | |], (sem_run abs_step m' ops) as [[m'' y']| | |];
    try done. destruct IH as [-> IH]. done.
Qed.

(** C37: the table of semaphores refines the finite map of those in use.  Any
    sequence of calls from the table at start returns what the abstract
    machine returns, in which a semaphore is a name and a count: a new one
    takes the least identifier that is free, an acquisition either takes its
    count away, and then the count stays not negative, or changes nothing and
    says how it would have waited, and an identifier that is not in use is
    refused.  The table is accessed outside its bounds for a negative cookie
    and a count overflows exactly where the abstract machine says so. *)
Theorem sem_table_refines ops :
  run_refines (sem_run sem_step sSemaphores ops) (sem_run abs_step ∅ ops).
Proof. apply sem_run_refines, represents_start. Qed.
End Sem.

(** [strdup] that succeeds, no timeouts, a clock that stands still. *)
Definition sample_run (ops : list sem_op) : outcome (list semaphore * list sem_result) :=
  sem_run (sem_step Some 8 16 0 (fun _ => B_OK)) sSemaphores ops.

(** An identifier is used again after it was deleted; the third acquisition
    would block; a negative cookie reads before the table. *)
Theorem sem_samples :
  snd <$> match sample_run [Create 1 None; Create 2 None; Delete 0; Create 5 None; Acquire 1 1 0 0;
                            Acquire 1 2 8 0] with Ok r => Some r | _ => None end =
    Some [RCreate (inl 0); RCreate (inl 1); RStatus B_OK; RCreate (inl 0); RAcquire B_OK [];
          RAcquire B_WOULD_BLOCK []] /\
  sample_run [NextInfo 0 (-1) true] = Fault /\
  sample_run [Create INT_MAX None; Release 0 1 0] = Fault.
Proof. split_and!; vm_compute; reflexivity. Qed.
