(* ===== verification/Des.v ===== *)
(** * mail/des.c: the Data Encryption Standard

    [unsigned long] has 64 bits; the key register [KnL] and the buffers are
    lists.  The theorem is that decryption undoes encryption, block by block
    and for a whole buffer; the validation set of the file is an example. *)
From Stdlib Require Import ZArith Lia List Bool String Setoid Morphisms.
From stdpp Require Import base tactics list numbers.
From S2P Require Import Prelude CText.
Local Open Scope Z_scope.
Local Open Scope c_scope.

Definition DES_ENCRYPT : Z := 0.
Definition DES_DECRYPT : Z := 1.

Definition ZOIDBERG_KEY : list Z := str "Zoidberg".

(** ** Tables *)

Definition bytebit : list Z :=
  [128; 64; 32; 16; 8; 4; 2; 1].

Definition pc1 : list Z :=
  [56; 48; 40; 32; 24; 16; 8; 0; 57; 49; 41; 33; 25; 17;
   9; 1; 58; 50; 42; 34; 26; 18; 10; 2; 59; 51; 43; 35;
   62; 54; 46; 38; 30; 22; 14; 6; 61; 53; 45; 37; 29; 21;
   13; 5; 60; 52; 44; 36; 28; 20; 12; 4; 27; 19; 11; 3].

Definition totrot : list Z :=
  [1; 2; 4; 6; 8; 10; 12; 14; 15; 17; 19; 21; 23; 25; 27; 28].

Definition pc2 : list Z :=
  [13; 16; 10; 23; 0; 4; 2; 27; 14; 5; 20; 9;
   22; 18; 11; 3; 25; 7; 15; 6; 26; 19; 12; 1;
   40; 51; 30; 36; 46; 54; 29; 39; 50; 44; 32; 47;
   43; 48; 38; 55; 33; 52; 45; 41; 49; 35; 28; 31].

Definition SP1 : list Z :=
  [16843776; 0; 65536; 16843780; 16842756; 66564; 4; 65536;
   1024; 16843776; 16843780; 1024; 16778244; 16842756; 16777216; 4;
   1028; 16778240; 16778240; 66560; 66560; 16842752; 16842752; 16778244;
   65540; 16777220; 16777220; 65540; 0; 1028; 66564; 16777216;
   65536; 16843780; 4; 16842752; 16843776; 16777216; 16777216; 1024;
   16842756; 65536; 66560; 16777220; 1024; 4; 16778244; 66564;
   16843780; 65540; 16842752; 16778244; 16777220; 1028; 66564; 16843776;
   1028; 16778240; 16778240; 0; 65540; 66560; 0; 16842756].

Definition SP2 : list Z :=
  [2148565024; 2147516416; 32768; 1081376; 1048576; 32; 2148532256; 2147516448;
   2147483680; 2148565024; 2148564992; 2147483648; 2147516416; 1048576; 32; 2148532256;
   1081344; 1048608; 2147516448; 0; 2147483648; 32768; 1081376; 2148532224;
   1048608; 2147483680; 0; 1081344; 32800; 2148564992; 2148532224; 32800;
   0; 1081376; 2148532256; 1048576; 2147516448; 2148532224; 2148564992; 32768;
   2148532224; 2147516416; 32; 2148565024; 1081376; 32; 32768; 2147483648;
   32800; 2148564992; 1048576; 2147483680; 1048608; 2147516448; 2147483680; 1048608;
   1081344; 0; 2147516416; 32800; 2147483648; 2148532256; 2148565024; 1081344].

Definition SP3 : list Z :=
  [520; 134349312; 0; 134348808; 134218240; 0; 131592; 134218240;
   131080; 134217736; 134217736; 131072; 134349320; 131080; 134348800; 520;
   134217728; 8; 134349312; 512; 131584; 134348800; 134348808; 131592;
   134218248; 131584; 131072; 134218248; 8; 134349320; 512; 134217728;
   134349312; 134217728; 131080; 520; 131072; 134349312; 134218240; 0;
   512; 131080; 134349320; 134218240; 134217736; 512; 0; 134348808;
   134218248; 131072; 134217728; 134349320; 8; 131592; 131584; 134217736;
   134348800; 134218248; 520; 134348800; 131592; 8; 134348808; 131584].

Definition SP4 : list Z :=
  [8396801; 8321; 8321; 128; 8396928; 8388737; 8388609; 8193;
   0; 8396800; 8396800; 8396929; 129; 0; 8388736; 8388609;
   1; 8192; 8388608; 8396801; 128; 8388608; 8193; 8320;
   8388737; 1; 8320; 8388736; 8192; 8396928; 8396929; 129;
   8388736; 8388609; 8396800; 8396929; 129; 0; 0; 8396800;
   8320; 8388736; 8388737; 1; 8396801; 8321; 8321; 128;
   8396929; 129; 1; 8192; 8388609; 8193; 8396928; 8388737;
   8193; 8320; 8388608; 8396801; 128; 8388608; 8192; 8396928].

Definition SP5 : list Z :=
  [256; 34078976; 34078720; 1107296512; 524288; 256; 1073741824; 34078720;
   1074266368; 524288; 33554688; 1074266368; 1107296512; 1107820544; 524544; 1073741824;
   33554432; 1074266112; 1074266112; 0; 1073742080; 1107820800; 1107820800; 33554688;
   1107820544; 1073742080; 0; 1107296256; 34078976; 33554432; 1107296256; 524544;
   524288; 1107296512; 256; 33554432; 1073741824; 34078720; 1107296512; 1074266368;
   33554688; 1073741824; 1107820544; 34078976; 1074266368; 256; 33554432; 1107820544;
   1107820800; 524544; 1107296256; 1107820800; 34078720; 0; 1074266112; 1107296256;
   524544; 33554688; 1073742080; 524288; 0; 1074266112; 34078976; 1073742080].

Definition SP6 : list Z :=
  [536870928; 541065216; 16384; 541081616; 541065216; 16; 541081616; 4194304;
   536887296; 4210704; 4194304; 536870928; 4194320; 536887296; 536870912; 16400;
   0; 4194320; 536887312; 16384; 4210688; 536887312; 16; 541065232;
   541065232; 0; 4210704; 541081600; 16400; 4210688; 541081600; 536870912;
   536887296; 16; 541065232; 4210688; 541081616; 4194304; 16400; 536870928;
   4194304; 536887296; 536870912; 16400; 536870928; 541081616; 4210688; 541065216;
   4210704; 541081600; 0; 541065232; 16; 16384; 541065216; 4210704;
   16384; 4194320; 536887312; 0; 541081600; 536870912; 4194320; 536887312].

Definition SP7 : list Z :=
  [2097152; 69206018; 67110914; 0; 2048; 67110914; 2099202; 69208064;
   69208066; 2097152; 0; 67108866; 2; 67108864; 69206018; 2050;
   67110912; 2099202; 2097154; 67110912; 67108866; 69206016; 69208064; 2097154;
   69206016; 2048; 2050; 69208066; 2099200; 2; 67108864; 2099200;
   67108864; 2099200; 2097152; 67110914; 67110914; 69206018; 69206018; 2;
   2097154; 67108864; 67110912; 2097152; 69208064; 2050; 2099202; 69208064;
   2050; 67108866; 69208066; 69206016; 2099200; 0; 2; 69208066;
   0; 2099202; 69206016; 2048; 67108866; 67110912; 2048; 2097154].

Definition SP8 : list Z :=
  [268439616; 4096; 262144; 268701760; 268435456; 268439616; 64; 268435456;
   262208; 268697600; 268701760; 266240; 268701696; 266304; 4096; 64;
   268697600; 268435520; 268439552; 4160; 266240; 262208; 268697664; 268701696;
   4160; 0; 0; 268697664; 268435520; 268439552; 266304; 262144;
   266304; 262144; 268701696; 4096; 64; 268697664; 4096; 266304;
   268439552; 64; 268435520; 268697600; 268697664; 268435456; 262144; 268439616;
   0; 268701760; 262208; 268435520; 268697600; 268439552; 268439616; 0;
   268701760; 266240; 266240; 4160; 4160; 262208; 268435456; 268701696].

Definition bigbyte : list Z :=
  [8388608; 4194304; 2097152; 1048576; 524288; 262144;
   131072; 65536; 32768; 16384; 8192; 4096;
   2048; 1024; 512; 256; 128; 64;
   32; 16; 8; 4; 2; 1].

(** A table indexed by a number that is in range. *)
Definition tab (t : list Z) (i : Z) : Z := nth (Z.to_nat i) t 0.

(** ** The key schedule *)

Definition pc1m_of (key : list Z) : list Z :=
  map (fun l => if Z.land (tab key (Z.shiftr l 3)) (tab bytebit (Z.land l 7)) =? 0 then 0 else 1) pc1.

(** [pcr], the bits rotated for round [i]: the two halves by [totrot[i]]. *)
Definition pcr_of (pc1m : list Z) (i : nat) : list Z :=
  let rot := tab totrot (Z.of_nat i) in
  map (fun j => let l := Z.of_nat j + rot in
                if l <? 28 then tab pc1m l else tab pc1m (l - 28)) (seq 0 28) ++
  map (fun j => let l := Z.of_nat j + rot in
                if l <? 56 then tab pc1m l else tab pc1m (l - 28)) (seq 28 28).

(** [for (j ...) if (pcr[pc2[j + off]]) kn |= bigbyte[j];] *)
Definition kn_of (pcr : list Z) (off : nat) : Z :=
  fold_left (fun kn j =>
    if tab pcr (tab pc2 (Z.of_nat (j + off))) =? 0 then kn
    else Z.lor kn (tab bigbyte (Z.of_nat j))) (seq 0 24) 0.

(** The two words of round [i]. *)
Definition kn_pair (key : list Z) (i : nat) : Z * Z :=
  let pcr := pcr_of (pc1m_of key) i in
  (kn_of pcr 0, kn_of pcr 24).

(** [kn]: the words of round [i] at [m] and [m + 1]. *)
Definition kn_fill (pair : nat -> Z * Z) (edf : Z) : list Z :=
  fold_left (fun kn i =>
    let m := if edf =? DES_DECRYPT then (2 * (15 - i))%nat else (2 * i)%nat in
    <[(m + 1)%nat := (pair i).2]> (<[m := (pair i).1]> kn)) (seq 0 16) (replicate 32 0).

(** [cookey]: the words of a round from its two raw words. *)
Definition cook (raw0 raw1 : Z) : Z * Z :=
  (Z.lor (Z.lor (Z.lor (Z.shiftl (Z.land raw0 16515072) 6) (Z.shiftl (Z.land raw0 4032) 10))
                (Z.shiftr (Z.land raw1 16515072) 10)) (Z.shiftr (Z.land raw1 4032) 6),
   Z.lor (Z.lor (Z.lor (Z.shiftl (Z.land raw0 258048) 12) (Z.shiftl (Z.land raw0 63) 16))
                (Z.shiftr (Z.land raw1 258048) 4)) (Z.land raw1 63)).

Fixpoint cookey (kn : list Z) : list Z :=
  match kn with
  | raw0 :: raw1 :: kn => (cook raw0 raw1).1 :: (cook raw0 raw1).2 :: cookey kn
  | _ => []
  end.

(** The key register copied out, and loaded with the 32 words at [from]. *)
Definition des_cpkey (KnL : list Z) : list Z := KnL.
Definition des_usekey (from : list Z) : list Z := take 32 from.

(** [des_setkey]: the key register afterwards. *)
Definition des_setkey (key : list Z) (edf : Z) : list Z :=
  des_usekey (cookey (kn_fill (kn_pair key) edf)).

(** ** Blocks *)

Definition scrunch (b : list Z) : Z * Z :=
  let w i := Z.lor (Z.lor (Z.lor (Z.shiftl (Z.land (tab b i) 255) 24)
                                 (Z.shiftl (Z.land (tab b (i + 1)) 255) 16))
                          (Z.shiftl (Z.land (tab b (i + 2)) 255) 8))
                   (Z.land (tab b (i + 3)) 255) in
  (w 0, w 4).

Definition unscrun (work : Z * Z) : list Z :=
  let bytes w := [Z.land (Z.shiftr w 24) 255; Z.land (Z.shiftr w 16) 255;
                  Z.land (Z.shiftr w 8) 255; Z.land w 255] in
  bytes work.1 ++ bytes work.2.

(** [work = ((a >> n) ^ b) & m; b ^= work; a ^= (work << n);] *)
Definition exchange (n m : Z) (ab : Z * Z) : Z * Z :=
  let '(a, b) := ab in
  let work := Z.land (Z.lxor (Z.shiftr a n) b) m in
  (Z.lxor a (u64 (Z.shiftl work n)), Z.lxor b work).

Definition swap (ab : Z * Z) : Z * Z := (ab.2, ab.1).

(** The same with the two in the other roles. *)
Definition exchange_r (n m : Z) (ab : Z * Z) : Z * Z := swap (exchange n m (swap ab)).

(** [work = (leftt ^ right) & 0xaaaaaaaa; leftt ^= work; right ^= work;] *)
Definition mix (lr : Z * Z) : Z * Z :=
  let '(leftt, rgt) := lr in
  let work := Z.land (Z.lxor leftt rgt) 2863311530 in
  (Z.lxor leftt work, Z.lxor rgt work).

(** [((x << 1) | ((x >> 31) & 1)) & 0xffffffff] *)
Definition rotl1 (x : Z) : Z :=
  Z.land (Z.lor (u64 (Z.shiftl x 1)) (Z.land (Z.shiftr x 31) 1)) 4294967295.

(** [(x << 31) | (x >> 1)] *)
Definition rotr1 (x : Z) : Z := Z.lor (u64 (Z.shiftl x 31)) (Z.shiftr x 1).

(** [desfunc] before the rounds, on [(leftt, right)]. *)
Definition initial (lr : Z * Z) : Z * Z :=
  let lr := exchange 4 252645135 lr in
  let lr := exchange 16 65535 lr in
  let lr := exchange_r 2 858993459 lr in
  let lr := exchange_r 8 16711935 lr in
  let lr := (lr.1, rotl1 lr.2) in
  let lr := mix lr in
  (rotl1 lr.1, lr.2).

(** After the rounds. *)
Definition final (lr : Z * Z) : Z * Z :=
  let lr := (lr.1, rotr1 lr.2) in
  let lr := mix lr in
  let lr := (rotr1 lr.1, lr.2) in
  let lr := exchange 8 16711935 lr in
  let lr := exchange 2 858993459 lr in
  let lr := exchange_r 16 65535 lr in
  exchange_r 4 252645135 lr.

(** [fval] of one half of a round, from the other half and two keys. *)
Definition fval (rgt k0 k1 : Z) : Z :=
  let work := Z.lxor (Z.lor (u64 (Z.shiftl rgt 28)) (Z.shiftr rgt 4)) k0 in
  let f := tab SP7 (Z.land work 63) in
  let f := Z.lor f (tab SP5 (Z.land (Z.shiftr work 8) 63)) in
  let f := Z.lor f (tab SP3 (Z.land (Z.shiftr work 16) 63)) in
  let f := Z.lor f (tab SP1 (Z.land (Z.shiftr work 24) 63)) in
  let work := Z.lxor rgt k1 in
  let f := Z.lor f (tab SP8 (Z.land work 63)) in
  let f := Z.lor f (tab SP6 (Z.land (Z.shiftr work 8) 63)) in
  let f := Z.lor f (tab SP4 (Z.land (Z.shiftr work 16) 63)) in
  Z.lor f (tab SP2 (Z.land (Z.shiftr work 24) 63)).

(** [n] rounds; reading past the keys is a [Fault]. *)
Fixpoint rounds (n : nat) (keys : list Z) (lr : Z * Z) : outcome (Z * Z) :=
  match n with
  | O => Ok lr
  | S n =>
      match keys with
      | k0 :: k1 :: k2 :: k3 :: keys =>
          let '(leftt, rgt) := lr in
          let leftt := Z.lxor leftt (fval rgt k0 k1) in
          let rgt := Z.lxor rgt (fval leftt k2 k3) in
          rounds n keys (leftt, rgt)
      | _ => Fault
      end
  end.

(** [block[0]] and [block[1]] afterwards: the halves change places. *)
Definition desfunc (block : Z * Z) (keys : list Z) : outcome (Z * Z) :=
  lr <- rounds 8 keys (initial block);;
  Ok (swap (final lr)).

(** One block: the eight bytes stored at [outblock]. *)
Definition des_crypt (KnL inblock : list Z) : outcome (list Z) :=
  work <- desfunc (scrunch inblock) KnL;;
  Ok (unscrun work).

(** [while (length-- > 0)]: the blocks from [off] on, [in] and [out] being
    different objects. *)
Fixpoint crypt_blocks (KnL : list Z) (n : nat) (off : Z) (inb out : list Z) : outcome (list Z) :=
  match n with
  | O => Ok out
  | S n =>
      b <- rdn inb off 8;;
      c <- des_crypt KnL b;;
      out <- wrn out off c;;
      crypt_blocks KnL n (off + 8) inb out
  end.

Definition des_decrypt (inb : list Z) (length : Z) (out : list Z) : outcome (list Z) :=
  let KnL := des_setkey ZOIDBERG_KEY DES_DECRYPT in
  _ <- assert_int (length + 7);;
  crypt_blocks KnL (Z.to_nat (Z.quot (length + 7) 8)) 0 inb out.

Definition des_encrypt (inb out : list Z) : outcome (list Z) :=
  len <- strlen inb;;
  let length := i32 (u64 (len + 7) / 8) in
  let KnL := des_setkey ZOIDBERG_KEY DES_ENCRYPT in
  crypt_blocks KnL (Z.to_nat length) 0 inb out.

(** The validation set at the end of the file. *)
Example des_validation :
  des_crypt (des_setkey [1; 35; 69; 103; 137; 171; 205; 239] DES_ENCRYPT)
            [1; 35; 69; 103; 137; 171; 205; 231] = Ok [201; 87; 68; 37; 106; 94; 211; 29].
Proof. vm_compute. reflexivity. Qed.

(** ** Words up to their low 32 bits *)

Definition eq32 (x y : Z) : Prop := forall i, 0 <= i < 32 -> Z.testbit x i = Z.testbit y i.

Definition eq32p (p q : Z * Z) : Prop := eq32 p.1 q.1 /\ eq32 p.2 q.2.

#[export] Instance eq32_equivalence : Equivalence eq32.
Proof.
  split; unfold eq32.
  - done.
  - intros x y H i Hi. symmetry. auto.
  - intros x y z H H' i Hi. etransitivity; auto.
Qed.

#[export] Instance eq32p_equivalence : Equivalence eq32p.
Proof.
  split; unfold eq32p.
  - intros x. split; reflexivity.
  - intros x y [H H']. by split; symmetry.
  - intros x y z [H1 H2] [H3 H4]. split; etransitivity; eauto.
Qed.

Definition range32 (x : Z) : Prop := 0 <= x < 2 ^ 32.
Definition range32p (p : Z * Z) : Prop := range32 p.1 /\ range32 p.2.

Lemma eq32_mod x y : eq32 x y <-> x mod 2 ^ 32 = y mod 2 ^ 32.
Proof.
  split.
  - intros H. apply Z.bits_inj'. intros i Hi. destruct (Z.lt_ge_cases i 32).
    + rewrite !Z.mod_pow2_bits_low by lia. apply H. lia.
    + by rewrite !Z.mod_pow2_bits_high by lia.
  - intros H i Hi. rewrite <- (Z.mod_pow2_bits_low x 32), <- (Z.mod_pow2_bits_low y 32) by lia.
    by rewrite H.
Qed.

Lemma eq32_eq x y : range32 x -> range32 y -> eq32 x y -> x = y.
Proof. intros Hx Hy H%eq32_mod. unfold range32 in *. rewrite !Z.mod_small in H; done. Qed.

Lemma range32_bits x : 0 <= x -> (forall i, 32 <= i -> Z.testbit x i = false) -> range32 x.
Proof.
  intros H0 H. replace x with (x mod 2 ^ 32); [apply Z.mod_pos_bound; lia|].
  apply Z.bits_inj'. intros i Hi. destruct (Z.lt_ge_cases i 32).
  - by rewrite Z.mod_pow2_bits_low by lia.
  - rewrite Z.mod_pow2_bits_high, H by lia. done.
Qed.

Lemma bits_range32 x i : range32 x -> 32 <= i -> Z.testbit x i = false.
Proof.
  intros Hx Hi. unfold range32 in Hx. rewrite <- (Z.mod_small x (2 ^ 32)) by lia.
  apply Z.mod_pow2_bits_high. lia.
Qed.

Lemma range32_lxor x y : range32 x -> range32 y -> range32 (Z.lxor x y).
Proof.
  intros Hx Hy. apply range32_bits.
  - apply Z.lxor_nonneg. unfold range32 in *. lia.
  - intros i Hi. by rewrite Z.lxor_spec, !bits_range32.
Qed.

Lemma range32_land x y : range32 y -> range32 (Z.land x y).
Proof.
  intros Hy. apply range32_bits.
  - apply Z.land_nonneg. unfold range32 in *. lia.
  - intros i Hi. rewrite Z.land_spec, (bits_range32 y) by done. apply andb_false_r.
Qed.

Lemma range32_lor x y : range32 x -> range32 y -> range32 (Z.lor x y).
Proof.
  intros Hx Hy. apply range32_bits.
  - apply Z.lor_nonneg. unfold range32 in *. lia.
  - intros i Hi. by rewrite Z.lor_spec, !bits_range32.
Qed.

Lemma u64_shiftl_bit x n i :
  0 <= i < 64 -> Z.testbit (u64 (Z.shiftl x n)) i = Z.testbit x (i - n).
Proof.
  intros Hi. unfold u64, uwrap. rewrite Z.mod_pow2_bits_low by lia. apply Z.shiftl_spec. lia.
Qed.

(** ** The steps of the permutations *)

(** A mask for an exchange by [n]: its bits stay below 32 when shifted. *)
Definition mask_ok (n m : Z) : Prop := 0 <= n /\ forall i, Z.testbit m i = true -> 0 <= i /\ i + n < 32.

Lemma exchange_bits n m a b i :
  mask_ok n m -> 0 <= i < 32 ->
  Z.testbit (exchange n m (a, b)).1 i =
    xorb (Z.testbit a i) (xorb (Z.testbit a i) (Z.testbit b (i - n)) && Z.testbit m (i - n)) /\
  Z.testbit (exchange n m (a, b)).2 i =
    xorb (Z.testbit b i) (xorb (Z.testbit a (i + n)) (Z.testbit b i) && Z.testbit m i).
Proof.
  intros [Hn Hm] Hi. cbn [exchange fst snd]. rewrite !Z.lxor_spec, u64_shiftl_bit by lia.
  rewrite !Z.land_spec, !Z.lxor_spec, (Z.shiftr_spec a n i) by lia. split; [|done].
  destruct (Z.testbit m (i - n)) eqn:E; [|by rewrite !andb_false_r].
  apply Hm in E as [E _]. rewrite Z.shiftr_spec by done. by replace (i - n + n) with i by lia.
Qed.

Section Exchange.
Variables n m : Z.
Hypothesis Hm : mask_ok n m.

Lemma exchange_involutive p : eq32p (exchange n m (exchange n m p)) p.
Proof.
  destruct p as [a b]. rewrite (surjective_pairing (exchange n m (a, b))).
  split; intros i Hi; cbn [fst snd].
  - rewrite (proj1 (exchange_bits n m _ _ i Hm Hi)).
    rewrite (proj1 (exchange_bits n m a b i Hm Hi)).
    destruct (Z.testbit m (i - n)) eqn:E; [|by rewrite !andb_false_r, !xorb_false_r].
    destruct Hm as [Hn Hm']. destruct (Hm' _ E) as [E1 E2].
    rewrite (proj2 (exchange_bits n m a b (i - n) Hm ltac:(lia))).
    replace (i - n + n) with i by lia. rewrite E, !andb_true_r.
    by destruct (Z.testbit a i), (Z.testbit b (i - n)).
  - rewrite (proj2 (exchange_bits n m _ _ i Hm Hi)).
    rewrite (proj2 (exchange_bits n m a b i Hm Hi)).
    destruct (Z.testbit m i) eqn:E; [|by rewrite !andb_false_r, !xorb_false_r].
    destruct Hm as [Hn Hm']. destruct (Hm' _ E) as [E1 E2].
    rewrite (proj1 (exchange_bits n m a b (i + n) Hm ltac:(lia))).
    replace (i + n - n) with i by lia. rewrite E, !andb_true_r.
    by destruct (Z.testbit a (i + n)), (Z.testbit b i).
Qed.

#[export] Instance exchange_proper : Proper (eq32p ==> eq32p) (exchange n m).
Proof.
  intros [a b] [a' b'] [Ha Hb]. cbn in Ha, Hb. split; intros i Hi.
  - rewrite !(proj1 (exchange_bits n m _ _ i Hm Hi)). rewrite (Ha i Hi).
    destruct (Z.testbit m (i - n)) eqn:E; [|by rewrite !andb_false_r].
    destruct Hm as [Hn Hm']. destruct (Hm' _ E) as [E1 E2]. by rewrite (Hb (i - n)) by lia.
  - rewrite !(proj2 (exchange_bits n m _ _ i Hm Hi)). rewrite (Hb i Hi).
    destruct (Z.testbit m i) eqn:E; [|by rewrite !andb_false_r].
    destruct Hm as [Hn Hm']. destruct (Hm' _ E) as [E1 E2]. by rewrite (Ha (i + n)) by lia.
Qed.
End Exchange.

#[export] Instance swap_proper : Proper (eq32p ==> eq32p) swap.
Proof. intros [a b] [a' b'] [Ha Hb]. by split. Qed.

Lemma exchange_r_involutive n m p : mask_ok n m -> eq32p (exchange_r n m (exchange_r n m p)) p.
Proof.
  intros Hm. unfold exchange_r at 1. unfold exchange_r.
  replace (swap (swap (exchange n m (swap p)))) with (exchange n m (swap p)) by (by destruct (exchange _ _ _)).
  rewrite exchange_involutive by done. by destruct p.
Qed.

Lemma exchange_r_proper n m : mask_ok n m -> Proper (eq32p ==> eq32p) (exchange_r n m).
Proof. intros Hm p q H. unfold exchange_r. apply swap_proper, exchange_proper, swap_proper; done. Qed.

Lemma mix_involutive p : eq32p (mix (mix p)) p.
Proof.
  destruct p as [a b]. split; intros i Hi; cbn [mix fst snd];
    rewrite !Z.lxor_spec, !Z.land_spec, !Z.lxor_spec, !Z.land_spec, !Z.lxor_spec;
    by destruct (Z.testbit a i), (Z.testbit b i), (Z.testbit 2863311530 i).
Qed.

#[export] Instance mix_proper : Proper (eq32p ==> eq32p) mix.
Proof.
  intros [a b] [a' b'] [Ha Hb]. cbn in Ha, Hb. split; intros i Hi; cbn [mix fst snd];
    by rewrite !Z.lxor_spec, !Z.land_spec, !Z.lxor_spec, (Ha i Hi), (Hb i Hi).
Qed.

Lemma rotl1_bit x i : 0 <= i < 32 ->
  Z.testbit (rotl1 x) i = if i =? 0 then Z.testbit x 31 else Z.testbit x (i - 1).
Proof.
  intros Hi. unfold rotl1. change 4294967295 with (Z.ones 32).
  rewrite Z.land_spec, Z.ones_spec_low, andb_true_r, Z.lor_spec, u64_shiftl_bit, Z.land_spec by lia.
  change 1 with (Z.ones 1) at 2. rewrite Z.testbit_ones by lia.
  destruct (Z.eqb_spec i 0) as [->|Hne].
  - rewrite (Z.testbit_neg_r x (0 - 1)), Z.shiftr_spec by lia. cbn [orb]. by rewrite andb_true_r.
  - rewrite (proj2 (Z.ltb_ge i 1)) by lia. by rewrite !andb_false_r, orb_false_r.
Qed.

Lemma rotr1_bit x i : range32 x -> 0 <= i < 32 ->
  Z.testbit (rotr1 x) i = if i =? 31 then Z.testbit x 0 else Z.testbit x (i + 1).
Proof.
  intros Hx Hi. unfold rotr1. rewrite Z.lor_spec, u64_shiftl_bit, Z.shiftr_spec by lia.
  destruct (Z.eqb_spec i 31) as [->|Hne].
  - rewrite (bits_range32 x (31 + 1)) by (done || lia). by rewrite orb_false_r.
  - by rewrite (Z.testbit_neg_r x (i - 31)) by lia.
Qed.

#[export] Instance rotl1_proper : Proper (eq32 ==> eq32) rotl1.
Proof. intros x y H i Hi. rewrite !rotl1_bit by done. case_match; zbool; apply H; lia. Qed.

Lemma range32_rotl1 x : range32 (rotl1 x).
Proof. by apply range32_land. Qed.

Lemma rotl1_rotr1 x : range32 x -> eq32 (rotl1 (rotr1 x)) x.
Proof.
  intros Hx i Hi. rewrite rotl1_bit by done. destruct (Z.eqb_spec i 0) as [->|].
  - by rewrite rotr1_bit.
  - rewrite rotr1_bit by (done || lia). rewrite (proj2 (Z.eqb_neq _ 31)) by lia. f_equal. lia.
Qed.

Lemma rotr1_rotl1 x : eq32 (rotr1 (rotl1 x)) x.
Proof.
  intros i Hi. rewrite rotr1_bit by (done || apply range32_rotl1).
  destruct (Z.eqb_spec i 31) as [->|].
  - by rewrite rotl1_bit.
  - rewrite rotl1_bit by lia. rewrite (proj2 (Z.eqb_neq _ 0)) by lia. f_equal. lia.
Qed.

(** ** The initial permutation and its inverse *)

Lemma mask_okb n m :
  0 <= n -> 0 <= m < 2 ^ (32 - n) -> n <= 32 -> mask_ok n m.
Proof.
  intros Hn Hm Hn'. split; [done|]. intros i Hi.
  destruct (Z.lt_ge_cases i 0); [by rewrite Z.testbit_neg_r in Hi|].
  split; [done|]. apply Z.nle_gt. intros Hle.
  rewrite <- (Z.mod_small m (2 ^ (32 - n))), Z.mod_pow2_bits_high in Hi by lia. done.
Qed.

Lemma mask4 : mask_ok 4 252645135. Proof. apply mask_okb; lia. Qed.
Lemma mask16 : mask_ok 16 65535. Proof. apply mask_okb; lia. Qed.
Lemma mask2 : mask_ok 2 858993459. Proof. apply mask_okb; lia. Qed.
Lemma mask8 : mask_ok 8 16711935. Proof. apply mask_okb; lia. Qed.

#[export] Hint Resolve mask4 mask16 mask2 mask8 : des.

(** The four exchanges, and the rotations with the mixing between them. *)
Definition exchanges (p : Z * Z) : Z * Z :=
  exchange_r 8 16711935 (exchange_r 2 858993459 (exchange 16 65535 (exchange 4 252645135 p))).

Definition exchanges_back (p : Z * Z) : Z * Z :=
  exchange 4 252645135 (exchange 16 65535 (exchange_r 2 858993459 (exchange_r 8 16711935 p))).

Definition turn (p : Z * Z) : Z * Z :=
  let q := mix (p.1, rotl1 p.2) in (rotl1 q.1, q.2).

Definition turn_back (p : Z * Z) : Z * Z :=
  let q := mix (rotr1 p.1, p.2) in (q.1, rotr1 q.2).

Lemma initial_eq p : initial p = turn (exchanges p).
Proof. done. Qed.

Lemma mix_swap p : mix (swap p) = swap (mix p).
Proof. destruct p as [a b]. unfold mix, swap. cbn [fst snd]. by rewrite (Z.lxor_comm b a). Qed.

Lemma final_eq p : swap (final p) = exchanges_back (turn_back (swap p)).
Proof.
  destruct p as [l r]. unfold final, exchanges_back, turn_back, exchange_r, swap. cbn [fst snd].
  pose proof (mix_swap (rotr1 r, l)) as E. unfold swap in E. cbn [fst snd] in E.
  rewrite E. destruct (mix (rotr1 r, l)) as [a b]. cbn [fst snd].
  by rewrite <- !surjective_pairing.
Qed.

#[local] Opaque exchange exchange_r.

Lemma exchanges_proper :
  Proper (eq32p ==> eq32p) exchanges /\ Proper (eq32p ==> eq32p) exchanges_back.
Proof.
  pose proof (exchange_proper _ _ mask4) as P4. pose proof (exchange_proper _ _ mask16) as P16.
  pose proof (exchange_r_proper _ _ mask2) as P2. pose proof (exchange_r_proper _ _ mask8) as P8.
  split; intros p q H; [by apply P8, P2, P16, P4|by apply P4, P16, P2, P8].
Qed.

Lemma exchanges_inverse p : eq32p (exchanges (exchanges_back p)) p /\ eq32p (exchanges_back (exchanges p)) p.
Proof.
  pose proof (exchange_proper _ _ mask4) as P4. pose proof (exchange_proper _ _ mask16) as P16.
  pose proof (exchange_r_proper _ _ mask2) as P2. pose proof (exchange_r_proper _ _ mask8) as P8.
  unfold exchanges, exchanges_back. split.
  - etransitivity; [apply P8, P2, P16, (exchange_involutive _ _ mask4)|].
    etransitivity; [apply P8, P2, (exchange_involutive _ _ mask16)|].
    etransitivity; [apply P8, (exchange_r_involutive _ _ _ mask2)|].
    apply (exchange_r_involutive _ _ _ mask8).
  - etransitivity; [apply P4, P16, P2, (exchange_r_involutive _ _ _ mask8)|].
    etransitivity; [apply P4, P16, (exchange_r_involutive _ _ _ mask2)|].
    etransitivity; [apply P4, (exchange_involutive _ _ mask16)|].
    apply (exchange_involutive _ _ mask4).
Qed.

Lemma range32p_mix p : range32p p -> range32p (mix p).
Proof. destruct p as [a b]. intros [Ha Hb]. split; cbn in *; apply range32_lxor; try done; by apply range32_land. Qed.

Lemma turn_proper : Proper (eq32p ==> eq32p) turn.
Proof.
  intros p q [H1 H2]. unfold turn.
  assert (Hm : eq32p (mix (p.1, rotl1 p.2)) (mix (q.1, rotl1 q.2))).
  { apply mix_proper. split; cbn; [done|by rewrite H2]. }
  destruct Hm as [Hm1 Hm2]. split; cbn; [by rewrite Hm1|done].
Qed.

Lemma turn_turn_back p : range32p p -> eq32p (turn (turn_back p)) p.
Proof.
  intros [H1 H2]. unfold turn, turn_back. set (q := mix (rotr1 p.1, p.2)). cbn [fst snd].
  assert (Hq : range32 q.2).
  { unfold q. cbn. apply range32_lxor; [done|]. by apply range32_land. }
  assert (E : eq32p (mix (q.1, rotl1 (rotr1 q.2))) (rotr1 p.1, p.2)).
  { transitivity (mix q); [|apply mix_involutive]. apply mix_proper. split; cbn; [done|].
    by apply rotl1_rotr1. }
  destruct E as [E1 E2]. split; cbn [fst snd] in *; [|done]. rewrite E1. by apply rotl1_rotr1.
Qed.

Lemma turn_back_turn p : eq32p (turn_back (turn p)) p.
Proof.
  unfold turn, turn_back. set (q := mix (p.1, rotl1 p.2)). cbn [fst snd].
  assert (E : eq32p (mix (rotr1 (rotl1 q.1), q.2)) (p.1, rotl1 p.2)).
  { transitivity (mix q); [|apply mix_involutive]. apply mix_proper. split; cbn; [|done].
    apply rotr1_rotl1. }
  assert (Hr : range32 (mix (rotr1 (rotl1 q.1), q.2)).2).
  { cbn. apply range32_lxor; [|by apply range32_land]. unfold q. cbn.
    apply range32_lxor; [apply range32_rotl1|by apply range32_land]. }
  destruct E as [E1 E2]. split; cbn [fst snd] in *; [done|].
  rewrite (eq32_eq _ _ Hr (range32_rotl1 _) E2). apply rotr1_rotl1.
Qed.

(** [desfunc] without rounds, on the halves in the order the rounds leave. *)
Lemma initial_final p : range32p p -> eq32p (initial (swap (final (swap p)))) p.
Proof.
  intros Hp. rewrite initial_eq, final_eq. replace (swap (swap p)) with p by (by destruct p).
  transitivity (turn (turn_back p)); [|by apply turn_turn_back].
  apply turn_proper, exchanges_inverse.
Qed.

Lemma final_initial p : eq32p (swap (final (swap (initial p)))) p.
Proof.
  rewrite final_eq, initial_eq. replace (swap (swap (turn (exchanges p)))) with (turn (exchanges p))
    by (by destruct (turn (exchanges p))).
  transitivity (exchanges_back (exchanges p)); [|apply exchanges_inverse].
  apply (proj2 exchanges_proper), turn_back_turn.
Qed.

Lemma range32p_initial p : range32p (initial p).
Proof.
  rewrite initial_eq. unfold turn. split; cbn [fst snd]; [apply range32_rotl1|].
  cbn. apply range32_lxor; [apply range32_rotl1|by apply range32_land].
Qed.

(** ** The rounds *)

Definition flat (ks : list (Z * Z)) : list Z := flat_map (fun k => [k.1; k.2]) ks.

(** A half round that changes the places of the halves. *)
Definition half (lr k : Z * Z) : Z * Z := (lr.2, Z.lxor lr.1 (fval lr.2 k.1 k.2)).

Lemma rounds_half n : forall ks lr,
  length ks = (2 * n)%nat -> rounds n (flat ks) lr = Ok (fold_left half ks lr).
Proof.
  induction n as [|n IH]; intros ks lr Hl; [by destruct ks|].
  destruct ks as [|k [|k' ks]]; [done|cbn in Hl; lia|].
  cbn [flat flat_map app rounds]. fold (flat ks). destruct lr as [l r].
  rewrite IH by (cbn in Hl; lia). done.
Qed.

Lemma half_back lr k : half (swap (half lr k)) k = swap lr.
Proof.
  destruct lr as [l r]. unfold half. cbn.
  by rewrite Z.lxor_assoc, Z.lxor_nilpotent, Z.lxor_0_r.
Qed.

Lemma rounds_back ks : forall lr,
  fold_left half (rev ks) (swap (fold_left half ks lr)) = swap lr.
Proof.
  induction ks as [|k ks IH]; intros lr; [done|]. cbn [rev fold_left].
  rewrite fold_left_app, IH. cbn [fold_left]. apply half_back.
Qed.

Lemma tab_range t i : Forall range32 t -> range32 (tab t i).
Proof.
  intros Ht. unfold tab. destruct (nth_in_or_default (Z.to_nat i) t 0) as [Hi| ->]; [|done].
  rewrite List.Forall_forall in Ht. by apply Ht.
Qed.

Lemma SP_range : Forall (Forall range32) [SP1; SP2; SP3; SP4; SP5; SP6; SP7; SP8].
Proof.
  assert (H : forallb (forallb (fun x => (0 <=? x) && (x <? 2 ^ 32)))
                [SP1; SP2; SP3; SP4; SP5; SP6; SP7; SP8] = true) by reflexivity.
  apply List.Forall_forall. intros t Ht. rewrite forallb_forall in H. specialize (H t Ht).
  apply List.Forall_forall. intros x Hx. rewrite forallb_forall in H. specialize (H x Hx).
  unfold range32. zbool. lia.
Qed.

Lemma fval_range r k0 k1 : range32 (fval r k0 k1).
Proof.
  pose proof SP_range as H. rewrite !List.Forall_cons_iff in H.
  destruct H as (H1 & H2 & H3 & H4 & H5 & H6 & H7 & H8 & _).
  unfold fval. repeat apply range32_lor; by apply tab_range.
Qed.

Lemma rounds_range ks : forall lr, range32p lr -> range32p (fold_left half ks lr).
Proof.
  induction ks as [|k ks IH]; intros [l r] [Hl Hr]; [done|]. cbn [fold_left]. apply IH.
  split; cbn in *; [done|]. apply range32_lxor; [done|apply fval_range].
Qed.

(** The schedule for decryption is the other one backwards. *)
Lemma des_setkey_flat key :
  let ks := map (fun i => cook (kn_pair key i).1 (kn_pair key i).2) (seq 0 16) in
  des_setkey key DES_ENCRYPT = flat ks /\ des_setkey key DES_DECRYPT = flat (rev ks).
Proof. unfold des_setkey. generalize (kn_pair key). intros pair. split; reflexivity. Qed.

Lemma pair32_eq p q : range32p p -> range32p q -> eq32p p q -> p = q.
Proof.
  destruct p, q. intros [P1 P2] [Q1 Q2] [E1 E2]. cbn [fst snd] in *.
  f_equal; by apply eq32_eq.
Qed.

Lemma range32p_swap p : range32p p -> range32p (swap p).
Proof. intros []. by split. Qed.

(** [desfunc] with a schedule, and with the schedule backwards. *)
Lemma desfunc_inverse ks p q :
  length ks = 16%nat -> desfunc p (flat ks) = Ok q ->
  forall q', eq32p q q' -> range32p q' ->
  exists p', desfunc q' (flat (rev ks)) = Ok p' /\ eq32p p' p.
Proof.
  intros Hl Hq q' Hq' Hr. unfold desfunc in *. rewrite rounds_half in Hq |- * by (rewrite ?length_rev; lia).
  cbn [obind] in *. injection Hq as <-. eexists. split; [done|].
  set (x := fold_left half ks (initial p)) in *.
  assert (Hx : range32p x) by apply rounds_range, range32p_initial.
  assert (E : eq32p (initial q') (swap x)).
  { pose proof (initial_final (swap x)) as E. replace (swap (swap x)) with x in E by (by destruct x).
    assert (Hsx : range32p (swap x)) by (destruct x, Hx; by split).
    transitivity (initial (swap (final x))); [|by apply E].
    rewrite !initial_eq. by apply turn_proper, (proj1 exchanges_proper). }
  assert (E' : initial q' = swap x).
  { apply pair32_eq; [apply range32p_initial|by apply range32p_swap|done]. }
  rewrite E'. unfold x. rewrite rounds_back. apply final_initial.
Qed.

(** ** Blocks and buffers *)

Definition word8 (b : list Z) : Prop := bytes_ok b /\ length b = 8%nat.

Lemma byte_and x : byte_ok x -> Z.land x 255 = x.
Proof.
  intros H. unfold byte_ok in H. change 255 with (Z.ones 8). rewrite Z.land_ones by lia. apply Z.mod_small. lia.
Qed.

Lemma low_byte x : byte_ok (Z.land x 255).
Proof. change 255 with (Z.ones 8). rewrite Z.land_ones by lia. unfold byte_ok. apply Z.mod_pos_bound. lia. Qed.

Lemma byte_bit x i : byte_ok x -> 8 <= i -> Z.testbit x i = false.
Proof.
  intros Hx Hi. unfold byte_ok in Hx. rewrite <- (Z.mod_small x (2 ^ 8)) by lia.
  apply Z.mod_pow2_bits_high. lia.
Qed.

(** The word of four bytes, and its bytes. *)
Definition word4 (a b c d : Z) : Z :=
  Z.lor (Z.lor (Z.lor (Z.shiftl a 24) (Z.shiftl b 16)) (Z.shiftl c 8)) d.

Lemma word4_arith a b c d :
  byte_ok a -> byte_ok b -> byte_ok c -> byte_ok d ->
  word4 a b c d = ((a * 256 + b) * 256 + c) * 256 + d.
Proof.
  intros Ha Hb Hc Hd. unfold byte_ok in *. unfold word4.
  replace (Z.shiftl a 24) with (Z.shiftl (Z.shiftl (Z.shiftl a 8) 8) 8) by (by rewrite !Z.shiftl_shiftl).
  replace (Z.shiftl b 16) with (Z.shiftl (Z.shiftl b 8) 8) by (by rewrite Z.shiftl_shiftl).
  rewrite <- !Z.shiftl_lor. rewrite !(lor_shiftl_add _ _ 8) by lia. lia.
Qed.

Lemma word4_bytes a b c d :
  byte_ok a -> byte_ok b -> byte_ok c -> byte_ok d ->
  let w := word4 a b c d in
  range32 w /\ [Z.land (Z.shiftr w 24) 255; Z.land (Z.shiftr w 16) 255;
                Z.land (Z.shiftr w 8) 255; Z.land w 255] = [a; b; c; d].
Proof.
  intros Ha Hb Hc Hd. cbv zeta. rewrite word4_arith by done. unfold byte_ok, range32 in *. split; [lia|].
  change 255 with (Z.ones 8). rewrite !Z.land_ones, !Z.shiftr_div_pow2 by lia.
  repeat f_equal; Z.to_euclidean_division_equations; lia.
Qed.

Lemma bytes_word4 w :
  word4 (Z.land (Z.shiftr w 24) 255) (Z.land (Z.shiftr w 16) 255)
        (Z.land (Z.shiftr w 8) 255) (Z.land w 255) = w mod 2 ^ 32.
Proof.
  rewrite word4_arith by apply low_byte.
  change 255 with (Z.ones 8). rewrite !Z.land_ones, !Z.shiftr_div_pow2 by lia.
  Z.to_euclidean_division_equations; lia.
Qed.

Ltac eight b Hl := destruct b as [|? [|? [|? [|? [|? [|? [|? [|? [|? ?]]]]]]]]]; try discriminate Hl.

Lemma scrunch_eight a0 a1 a2 a3 a4 a5 a6 a7 :
  let m x := Z.land x 255 in
  scrunch [a0; a1; a2; a3; a4; a5; a6; a7] =
  (word4 (m a0) (m a1) (m a2) (m a3), word4 (m a4) (m a5) (m a6) (m a7)).
Proof. reflexivity. Qed.

(** A block is the two words it is scrunched into. *)
Lemma scrunch_words b :
  word8 b -> exists a0 a1 a2 a3 a4 a5 a6 a7, b = [a0; a1; a2; a3; a4; a5; a6; a7] /\
    bytes_ok b /\ scrunch b = (word4 a0 a1 a2 a3, word4 a4 a5 a6 a7).
Proof.
  intros [Hb Hl]. eight b Hl. repeat eexists; [done|].
  rewrite scrunch_eight. unfold bytes_ok in Hb.
  rewrite !List.Forall_cons_iff in Hb. destruct Hb as (? & ? & ? & ? & ? & ? & ? & ? & _).
  by rewrite !byte_and.
Qed.

Lemma range32p_scrunch b : word8 b -> range32p (scrunch b).
Proof.
  intros (a0 & a1 & a2 & a3 & a4 & a5 & a6 & a7 & -> & Hb & ->)%scrunch_words. unfold bytes_ok in Hb.
  rewrite !List.Forall_cons_iff in Hb. destruct Hb as (? & ? & ? & ? & ? & ? & ? & ? & _).
  split; by apply word4_bytes.
Qed.

Lemma unscrun_scrunch b : word8 b -> unscrun (scrunch b) = b.
Proof.
  intros (a0 & a1 & a2 & a3 & a4 & a5 & a6 & a7 & -> & Hb & ->)%scrunch_words. unfold bytes_ok in Hb.
  rewrite !List.Forall_cons_iff in Hb. destruct Hb as (? & ? & ? & ? & ? & ? & ? & ? & _).
  unfold unscrun. cbn [fst snd].
  pose proof (proj2 (word4_bytes a0 a1 a2 a3 ltac:(done) ltac:(done) ltac:(done) ltac:(done))) as ->.
  by pose proof (proj2 (word4_bytes a4 a5 a6 a7 ltac:(done) ltac:(done) ltac:(done) ltac:(done))) as ->.
Qed.

Lemma word8_unscrun p : word8 (unscrun p).
Proof. split; [|done]. unfold unscrun, bytes_ok. cbn [app]. repeat constructor; apply low_byte. Qed.

Lemma scrunch_unscrun p : scrunch (unscrun p) = (p.1 mod 2 ^ 32, p.2 mod 2 ^ 32).
Proof.
  rewrite <- !bytes_word4. unfold unscrun. cbn [app]. rewrite scrunch_eight. cbv zeta.
  by rewrite !(byte_and (Z.land _ _)) by apply low_byte.
Qed.

Lemma eq32p_mod p : eq32p p (p.1 mod 2 ^ 32, p.2 mod 2 ^ 32) /\ range32p (p.1 mod 2 ^ 32, p.2 mod 2 ^ 32).
Proof.
  split; split; cbn [fst snd]; try (apply eq32_mod; by rewrite Z.mod_mod by lia);
    apply Z.mod_pos_bound; lia.
Qed.

Lemma unscrun_proper p q : eq32p p q -> unscrun p = unscrun q.
Proof.
  intros [H1%eq32_mod H2%eq32_mod]. transitivity (unscrun (scrunch (unscrun p))).
  - symmetry. apply unscrun_scrunch, word8_unscrun.
  - rewrite scrunch_unscrun, H1, H2, <- scrunch_unscrun. apply unscrun_scrunch, word8_unscrun.
Qed.

Lemma desfunc_ok ks p : length ks = 16%nat -> exists q, desfunc p (flat ks) = Ok q.
Proof. intros Hl. unfold desfunc. rewrite rounds_half by lia. cbn [obind]. eauto. Qed.

(** One block is encrypted, and decrypted with the schedule backwards. *)
Lemma des_crypt_inverse ks b :
  length ks = 16%nat -> word8 b ->
  exists c, des_crypt (flat ks) b = Ok c /\ word8 c /\ des_crypt (flat (rev ks)) c = Ok b.
Proof.
  intros Hl Hb. unfold des_crypt. destruct (desfunc_ok ks (scrunch b) Hl) as [q Hq]. rewrite Hq.
  cbn [obind]. eexists. split; [done|]. split; [apply word8_unscrun|].
  rewrite scrunch_unscrun. destruct (eq32p_mod q) as [E R].
  destruct (desfunc_inverse ks _ _ Hl Hq _ E R) as (p' & -> & Hp'). cbn [obind].
  by rewrite (unscrun_proper _ _ Hp'), unscrun_scrunch.
Qed.

(** Whole buffers: [bs] are the blocks read, [cs] the blocks written. *)
Lemma crypt_blocks_ok KnL bs cs :
  Forall2 (fun b c => des_crypt KnL b = Ok c /\ length b = 8%nat /\ length c = 8%nat) bs cs ->
  forall off ipre ipost opre body opost,
  off = zlen ipre -> off = zlen opre -> length body = (8 * length bs)%nat ->
  crypt_blocks KnL (length bs) off (ipre ++ concat bs ++ ipost) (opre ++ body ++ opost) =
  Ok (opre ++ concat cs ++ opost).
Proof.
  induction 1 as [|b c bs cs (Hc & Hb & Hcl) H IH]; intros off ipre ipost opre body opost Hi Ho Hl.
  - by destruct body.
  - cbn [concat length crypt_blocks]. rewrite <- app_assoc, rdn_mid by (done || unfold zlen; by rewrite Hb).
    cbn [obind]. rewrite Hc. cbn [obind]. cbn [length] in Hl.
    rewrite <- (take_drop 8 body), <- (app_assoc (take 8 body)).
    assert (Ht : length (take 8 body) = 8%nat) by (rewrite length_take; lia).
    rewrite wrn_mid by (done || by rewrite Ht, Hcl). cbn [obind].
    rewrite (app_assoc ipre), (app_assoc opre c), IH; [by rewrite <- !app_assoc| | |].
    + unfold zlen in *. rewrite length_app. lia.
    + unfold zlen in *. rewrite length_app. lia.
    + rewrite length_drop. lia.
Qed.

Lemma blocks_of n : forall l, bytes_ok l -> length l = (8 * n)%nat ->
  exists bs, l = concat bs /\ length bs = n /\ Forall word8 bs.
Proof.
  induction n as [|n IH]; intros l Hb Hl.
  - exists []. by destruct l.
  - destruct (IH (drop 8 l)) as (bs & E & Hn & Hw).
    + by apply Forall_drop.
    + rewrite length_drop. lia.
    + exists (take 8 l :: bs). cbn [concat length]. rewrite <- E, take_drop, Hn. split; [done|]. split; [done|].
      constructor; [|done]. split; [by apply Forall_take|]. rewrite length_take. lia.
Qed.

(** Ciphertext blocks [cs] of [bs]: the second schedule takes them back. *)
Definition coded (ks : list (Z * Z)) (b c : list Z) : Prop :=
  des_crypt (flat ks) b = Ok c /\ word8 c /\ des_crypt (flat (rev ks)) c = Ok b.

Lemma blocks_coded ks bs :
  length ks = 16%nat -> Forall word8 bs -> exists cs, Forall2 (coded ks) bs cs.
Proof.
  intros Hl. induction 1 as [|b bs Hb _ [cs IH]]; [by exists []|].
  destruct (des_crypt_inverse ks b Hl Hb) as (c & Hc). exists (c :: cs). by constructor.
Qed.

Lemma coded_crypt ks bs cs :
  Forall word8 bs -> Forall2 (coded ks) bs cs ->
  Forall2 (fun b c => des_crypt (flat ks) b = Ok c /\ length b = 8%nat /\ length c = 8%nat) bs cs /\
  Forall2 (fun b c => des_crypt (flat (rev ks)) b = Ok c /\ length b = 8%nat /\ length c = 8%nat) cs bs.
Proof.
  intros Hb H. induction H as [|b c bs cs (H1 & [_ H2] & H3) H IH]; [by split; constructor|].
  apply Forall_cons_iff in Hb as [[_ Hl] Hb]. destruct (IH Hb) as [I1 I2]. by split; constructor.
Qed.

Lemma crypt_start KnL n bs cs inb out :
  Forall2 (fun b c => des_crypt KnL b = Ok c /\ length b = 8%nat /\ length c = 8%nat) bs cs ->
  length bs = n -> take (8 * n) inb = concat bs -> (8 * n <= length out)%nat ->
  crypt_blocks KnL n 0 inb out = Ok (concat cs ++ drop (8 * n) out).
Proof.
  intros H Hn Hi Ho. rewrite <- (take_drop (8 * n) inb), <- (take_drop (8 * n) out), Hi at 1.
  replace n with (length bs) at 1. apply (crypt_blocks_ok KnL bs cs H 0 [] _ []); [done|done|].
  rewrite length_take. lia.
Qed.

Lemma length_concat8 {P : list Z -> list Z -> Prop} bs cs :
  Forall2 (fun b c => P b c /\ length b = 8%nat /\ length c = 8%nat) bs cs ->
  length (concat cs) = (8 * length bs)%nat.
Proof. induction 1 as [|b c bs cs (_ & _ & Hc) H IH]; [done|]. cbn. rewrite length_app, Hc, IH. lia. Qed.

(** C38: what [des_encrypt] makes of a C string, [des_decrypt] of its length
    makes the string again: both run for every string whose buffers hold the
    last block, whole blocks are written and nothing behind them, and the
    decrypted bytes are the first [size] bytes of the plain text's buffer,
    what lies behind its terminator in the last block included. *)
Theorem des_round_trip s rest out back :
  cstr_ok s -> bytes_ok rest -> zlen s <= INT_MAX - 7 ->
  let size := (zlen s + 7) / 8 * 8 in
  size <= zlen (s ++ 0 :: rest) -> size <= zlen out -> size <= zlen back ->
  exists c,
    des_encrypt (s ++ 0 :: rest) out = Ok (c ++ drop (Z.to_nat size) out) /\ zlen c = size /\
    des_decrypt (c ++ drop (Z.to_nat size) out) (zlen s) back =
      Ok (take (Z.to_nat size) (s ++ 0 :: rest) ++ drop (Z.to_nat size) back).
Proof.
  intros Hs Hr Hmax size Hi Ho Hb. pose proof (zlen_nonneg s) as H0.
  assert (Hq : 0 <= (zlen s + 7) / 8) by (apply Z.div_pos; lia).
  set (n := Z.to_nat ((zlen s + 7) / 8)). assert (Hsz : size = 8 * Z.of_nat n) by (subst size n; lia).
  assert (Hn : Z.to_nat size = (8 * n)%nat) by lia. rewrite Hn.
  destruct (des_setkey_flat ZOIDBERG_KEY) as [Ke Kd]. cbv zeta in Ke, Kd.
  set (ks := map _ (seq 0 16)) in *. assert (Hks : length ks = 16%nat) by done. clearbody ks.
  set (inb := s ++ 0 :: rest) in *.
  assert (Hok : bytes_ok inb).
  { apply Forall_app. split; [eapply List.Forall_impl; [|done]; cbn; unfold byte_ok; lia|]. constructor; [done|done]. }
  destruct (blocks_of n (take (8 * n) inb)) as (bs & E & Hl & Hw).
  { by apply Forall_take. } { rewrite length_take. unfold zlen in Hi. lia. }
  destruct (blocks_coded ks bs Hks Hw) as (cs & Hc). destruct (coded_crypt ks bs cs Hw Hc) as [C1 C2].
  assert (Lc := length_concat8 _ _ C1). rewrite Hl in Lc.
  exists (concat cs). split; [|split].
  - unfold des_encrypt. rewrite (strlen_cstr s rest Hs : strlen inb = _). cbn [obind].
    replace (i32 (u64 (zlen s + 7) / 8)) with ((zlen s + 7) / 8).
    { rewrite Ke. apply (crypt_start _ n bs cs _ _ C1 Hl E). unfold zlen in Ho. lia. }
    unfold u64, i32, INT_MAX in *. rewrite uwrap_id by lia. symmetry. apply swrap_id; [lia|].
    Z.to_euclidean_division_equations; lia.
  - unfold zlen. rewrite Lc. lia.
  - unfold des_decrypt. rewrite assert_int_ok by (unfold INT_MIN, INT_MAX in *; lia). cbn [obind].
    rewrite Z.quot_div_nonneg by lia. rewrite Kd, E.
    apply (crypt_start _ n cs bs _ _ C2).
    + rewrite <- Hl. symmetry. by eapply Forall2_length.
    + rewrite take_app_le by lia. apply firstn_all2. lia.
    + unfold zlen in Hb. lia.
Qed.

Lemma des_round_trip_witness :
  let s := str "secret!" in
  cstr_ok s /\ exists c,
    des_encrypt (s ++ [0]) (repeat 255 9) = Ok (c ++ [255]) /\ zlen c = 8 /\
    des_decrypt (c ++ [255]) 7 (repeat 255 8) = Ok (s ++ [0]).
Proof.
  assert (Hs : cstr_ok (str "secret!")) by (vm_compute; repeat constructor).
  split; [exact Hs|].
  apply (des_round_trip (str "secret!") [] (repeat 255 9) (repeat 255 8) Hs); vm_compute; (constructor || discriminate).
Defined.
