(* ===== verification/EvWaits.v ===== *)
(** * isc/ev_waits.c: functions that wait for a tag

    The wait lists of an event context, with the [Wait] cases of [evGetNext],
    [evDispatch], [evDrop] and [evDestroy].  The lists are linked through
    pointers: the memory is one finite map of the [evWait] objects and one of
    the [evWaitList] objects, and following a pointer to no object is a
    [Fault].  [memget] is an argument of the operation, the address it returns
    if any.  Debug output is not modelled.

    The abstract machine has a queue of identifiers for each tag and one of
    those that are ready; the theorems are that the linked lists refine it for
    every sequence of calls, and that what waited for a tag is called after
    [evDo], in its order and once. *)
From Stdlib Require Import ZArith Lia List Bool.
From stdpp Require Import base tactics list numbers gmap sets.
From S2P Require Import Prelude.
Local Open Scope Z_scope.
Local Open Scope c_scope.

Record evWait := EvWait {
  w_func : Z;
  w_uap : Z;
  w_tag : Z;
  w_next : option Z }.

Record evWaitList := EvWaitList {
  l_first : option Z;
  l_last : option Z;
  l_prev : option Z;
  l_next : option Z }.

Notation wmem := (gmap Z evWait).
Notation lmem := (gmap Z evWaitList).

(** The part of [evContext_p] that the waits use, and the memory. *)
Record ev_waits := EvWaits {
  waits : wmem;
  wlists : lmem;
  waitLists : option Z;
  done_first : option Z;       (* [waitDone] *)
  done_last : option Z }.

(** [*p], [p->next = q], and [memput(p)]. *)
Definition deref {T} (m : gmap Z T) (p : Z) : outcome T :=
  match m !! p with Some t => Ok t | None => Fault end.

Definition set_next (m : wmem) (p : Z) (q : option Z) : outcome wmem :=
  w <- deref m p;;
  Ok (<[p := EvWait (w_func w) (w_uap w) (w_tag w) q]> m).

Definition memput {T} (m : gmap Z T) (p : Z) : outcome (gmap Z T) :=
  _ <- deref m p;;
  Ok (delete p m).

Definition set_l_next (m : lmem) (p : Z) (q : option Z) : outcome lmem :=
  l <- deref m p;;
  Ok (<[p := EvWaitList (l_first l) (l_last l) (l_prev l) q]> m).

Definition set_l_prev (m : lmem) (p : Z) (q : option Z) : outcome lmem :=
  l <- deref m p;;
  Ok (<[p := EvWaitList (l_first l) (l_last l) q (l_next l)]> m).

Definition set_l_queue (m : lmem) (p : Z) (q : option Z * option Z) : outcome lmem :=
  l <- deref m p;;
  Ok (<[p := EvWaitList q.1 q.2 (l_prev l) (l_next l)]> m).

(** ** Wait lists *)

(** The loop of [evGetWaitList]; no list is passed twice, so the number of
    lists is fuel enough. *)
Fixpoint find_list (fuel : nat) (m : wmem) (ls : lmem) (this : option Z) (tag : Z)
    : outcome (option Z) :=
  match this with
  | None => Ok None
  | Some p =>
      match fuel with
      | O => NoFuel
      | S fuel =>
          l <- deref ls p;;
          hit <- (match l_first l with
                  | None => Ok false
                  | Some f => w <- deref m f;; Ok (w_tag w =? tag)
                  end);;
          if hit : bool then Ok (Some p) else find_list fuel m ls (l_next l) tag
      end
  end.

(** [new] is what [memget] returns. *)
Definition evNewWaitList (ctx : ev_waits) (new : option Z) : outcome (option Z * ev_waits) :=
  match new with
  | None => Ok (None, ctx)
  | Some p =>
      let ls := <[p := EvWaitList None None None (waitLists ctx)]> (wlists ctx) in
      ls <- (match waitLists ctx with Some q => set_l_prev ls q (Some p) | None => Ok ls end);;
      Ok (Some p, EvWaits (waits ctx) ls (Some p) (done_first ctx) (done_last ctx))
  end.

Definition evFreeWaitList (ctx : ev_waits) (this : Z) : outcome ev_waits :=
  l <- deref (wlists ctx) this;;
  let! (head, ls) :=
    match l_prev l with
    | Some q => ls <- set_l_next (wlists ctx) q (l_next l);; Ok (waitLists ctx, ls)
    | None => Ok (l_next l, wlists ctx)
    end in
  ls <- (match l_next l with Some q => set_l_prev ls q (l_prev l) | None => Ok ls end);;
  ls <- memput ls this;;
  Ok (EvWaits (waits ctx) ls head (done_first ctx) (done_last ctx)).

(** [should_create] carries what [memget] returns when it is true. *)
Definition evGetWaitList (ctx : ev_waits) (tag : Z) (should_create : option (option Z))
    : outcome (option Z * ev_waits) :=
  this <- find_list (size (wlists ctx)) (waits ctx) (wlists ctx) (waitLists ctx) tag;;
  match this, should_create with
  | None, Some new => evNewWaitList ctx new
  | _, _ => Ok (this, ctx)
  end.

(** ** Queues of functions: a first and a last *)

(** [if (last != NULL) last->next = first'; else first = first'; last = last';] *)
Definition enqueue (m : wmem) (q q' : option Z * option Z) : outcome (wmem * (option Z * option Z)) :=
  match q.2 with
  | Some l => m <- set_next m l q'.1;; Ok (m, (q.1, q'.2))
  | None => Ok (m, (q'.1, q'.2))
  end.

(** The loops of [evUnwait]: [id] is taken out of the queue, or is not in it. *)
Fixpoint unlink (fuel : nat) (m : wmem) (q : option Z * option Z) (prev this : option Z) (id : Z)
    : outcome (option (wmem * (option Z * option Z))) :=
  match this with
  | None => Ok None
  | Some p =>
      match fuel with
      | O => NoFuel
      | S fuel =>
          w <- deref m p;;
          if p =? id then
            let! (m, first) := match prev with
                               | Some r => m <- set_next m r (w_next w);; Ok (m, q.1)
                               | None => Ok (m, w_next w)
                               end in
            Ok (Some (m, (first, if bool_decide (q.2 = Some p) then prev else q.2)))
          else unlink fuel m q (Some p) (w_next w) id
      end
  end.

(** ** The operations *)

(** What an operation returns: 0, with an identifier or a call where it has
    one, or -1 with [errno]. *)
Inductive wresult : Type :=
| WOk
| WId (id : Z)                (* [evWaitFor]: the new identifier *)
| WEvent (id : Z)             (* [evGetNext]: an event for it *)
| WCall (func uap tag : Z)
| WNothing                    (* [evGetNext] goes on to the timers *)
| WErr (e : errno).

Definition evWaitFor (ctx : ev_waits) (tag func uap : Z) (new_list new : option Z)
    : outcome (ev_waits * wresult) :=
  let! (wl, ctx) := evGetWaitList ctx tag (Some new_list) in
  match new with
  | None => Ok (ctx, WErr ENOMEM)
  | Some p =>
      let m := <[p := EvWait func uap tag None]> (waits ctx) in
      match wl with
      | None => Fault
      | Some wl =>
          l <- deref (wlists ctx) wl;;
          let! (m, q) := enqueue m (l_first l, l_last l) (Some p, Some p) in
          ls <- set_l_queue (wlists ctx) wl q;;
          Ok (EvWaits m ls (waitLists ctx) (done_first ctx) (done_last ctx), WId p)
      end
  end.

Definition evDo (ctx : ev_waits) (tag : Z) : outcome (ev_waits * wresult) :=
  let! (wl, ctx) := evGetWaitList ctx tag None in
  match wl with
  | None => Ok (ctx, WErr ENOENT)
  | Some wl =>
      l <- deref (wlists ctx) wl;;
      cassert (bool_decide (is_Some (l_first l)));;;
      let! (m, q) := enqueue (waits ctx) (done_first ctx, done_last ctx) (l_first l, l_last l) in
      ctx <- evFreeWaitList (EvWaits m (wlists ctx) (waitLists ctx) q.1 q.2) wl;;
      Ok (ctx, WOk)
  end.

(** The first half of [evUnwait]: in the list of its tag. *)
Definition unwait_waiting (ctx : ev_waits) (id : Z) : outcome (option ev_waits) :=
  this <- deref (waits ctx) id;;
  let! (wl, ctx) := evGetWaitList ctx (w_tag this) None in
  match wl with
  | None => Ok None
  | Some wl =>
      l <- deref (wlists ctx) wl;;
      r <- unlink (size (waits ctx)) (waits ctx) (l_first l, l_last l) None (l_first l) id;;
      match r with
      | None => Ok None
      | Some (m, q) =>
          ls <- set_l_queue (wlists ctx) wl q;;
          let ctx := EvWaits m ls (waitLists ctx) (done_first ctx) (done_last ctx) in
          ctx <- (match q.1 with None => evFreeWaitList ctx wl | Some _ => Ok ctx end);;
          Ok (Some ctx)
      end
  end.

(** The second: among those that are ready. *)
Definition unwait_done (ctx : ev_waits) (id : Z) : outcome (option ev_waits) :=
  r <- unlink (size (waits ctx)) (waits ctx) (done_first ctx, done_last ctx) None (done_first ctx) id;;
  match r with
  | None => Ok None
  | Some (m, q) => Ok (Some (EvWaits m (wlists ctx) (waitLists ctx) q.1 q.2))
  end.

Definition evUnwait (ctx : ev_waits) (id : Z) : outcome (ev_waits * wresult) :=
  r <- unwait_waiting ctx id;;
  r <- (match r with Some ctx => Ok (Some ctx) | None => unwait_done ctx id end);;
  match r with
  | None => Ok (ctx, WErr ENOENT)
  | Some ctx =>
      m <- memput (waits ctx) id;;
      Ok (EvWaits m (wlists ctx) (waitLists ctx) (done_first ctx) (done_last ctx), WOk)
  end.

Definition evDefer (ctx : ev_waits) (func uap : Z) (new : option Z) : outcome (ev_waits * wresult) :=
  match new with
  | None => Ok (ctx, WErr ENOMEM)
  | Some p =>
      let m := <[p := EvWait func uap 0 None]> (waits ctx) in
      let! (m, q) := enqueue m (done_first ctx, done_last ctx) (Some p, Some p) in
      Ok (EvWaits m (wlists ctx) (waitLists ctx) q.1 q.2, WOk)
  end.

(** The [Wait] case of [evGetNext]: [new] is whether the event could be
    allocated. *)
Definition evGetNext_wait (ctx : ev_waits) (new : bool) : outcome (ev_waits * wresult) :=
  match done_first ctx with
  | None => Ok (ctx, WNothing)
  | Some p =>
      if negb new then Ok (ctx, WErr ENOMEM)
      else
        w <- deref (waits ctx) p;;
        let first := w_next w in
        let last := match first with None => None | Some _ => done_last ctx end in
        Ok (EvWaits (waits ctx) (wlists ctx) (waitLists ctx) first last, WEvent p)
  end.

(** [evDispatch] calls the function with its arguments, *)
Definition evDispatch_call (ctx : ev_waits) (this : Z) : outcome (ev_waits * wresult) :=
  w <- deref (waits ctx) this;;
  Ok (ctx, WCall (w_func w) (w_uap w) (w_tag w)).

(** and [evDrop] then frees it. *)
Definition evDrop_wait (ctx : ev_waits) (this : Z) : outcome (ev_waits * wresult) :=
  m <- memput (waits ctx) this;;
  Ok (EvWaits m (wlists ctx) (waitLists ctx) (done_first ctx) (done_last ctx), WOk).

(** The loops of [evDestroy] that free functions, with what is left of [revs]
    (at zero or below it stays there). *)
Fixpoint free_waits (revs : nat) (m : wmem) (this : option Z) : outcome (wmem * nat) :=
  match revs with
  | O => Ok (m, O)
  | S revs =>
      match this with
      | None => Ok (m, revs)
      | Some p =>
          w <- deref m p;;
          m <- memput m p;;
          free_waits revs m (w_next w)
      end
  end.

(** The number of lists is fuel enough here too. *)
Fixpoint free_lists (fuel revs : nat) (m : wmem) (ls : lmem) (this : option Z)
    : outcome (wmem * lmem * nat) :=
  match revs with
  | O => Ok (m, ls, O)
  | S revs =>
      match this with
      | None => Ok (m, ls, revs)
      | Some p =>
          match fuel with
          | O => NoFuel
          | S fuel =>
              l <- deref ls p;;
              let! (m, revs) := free_waits revs m (l_first l) in
              ls <- memput ls p;;
              free_lists fuel revs m ls (l_next l)
          end
      end
  end.

Definition evDestroy_waits (ctx : ev_waits) (revs : nat) : outcome (wmem * lmem) :=
  let! (m, ls, revs) := free_lists (size (wlists ctx)) revs (waits ctx) (wlists ctx) (waitLists ctx) in
  let! (m, revs) := free_waits revs m (done_first ctx) in
  Ok (m, ls).

(** [evCreate] *)
Definition evCreate_waits : ev_waits := EvWaits ∅ ∅ None None None.

(** ** Operations as data, and the abstract machine *)

Inductive wait_op : Type :=
| WaitFor (tag func uap : Z) (new_list new : option Z)
| Do (tag : Z)
| Unwait (id : Z)
| Defer (func uap : Z) (new : option Z)
| GetNext (new : bool)
| Call (id : Z)
| DropWait (id : Z).

Definition wait_step (ctx : ev_waits) (op : wait_op) : outcome (ev_waits * wresult) :=
  match op with
  | WaitFor tag func uap new_list new => evWaitFor ctx tag func uap new_list new
  | Do tag => evDo ctx tag
  | Unwait id => evUnwait ctx id
  | Defer func uap new => evDefer ctx func uap new
  | GetNext new => evGetNext_wait ctx new
  | Call id => evDispatch_call ctx id
  | DropWait id => evDrop_wait ctx id
  end.

(** Who waits for a tag, who is ready, and what every identifier stands for
    (function, argument, tag). *)
Record aw := Aw {
  a_waiting : gmap Z (list Z);
  a_ready : list Z;
  a_entry : gmap Z (Z * Z * Z) }.

Definition aw_start : aw := Aw ∅ [] ∅.

Definition without (id : Z) (ids : list Z) : list Z := filter (fun i => i <> id) ids.

(** The queue of a tag; an empty one is none. *)
Definition put_queue (q : gmap Z (list Z)) (tag : Z) (ids : list Z) : gmap Z (list Z) :=
  match ids with [] => delete tag q | _ => <[tag := ids]> q end.

Definition queue_of (a : aw) (tag : Z) : list Z := default [] (a_waiting a !! tag).

Definition aw_step (a : aw) (op : wait_op) : outcome (aw * wresult) :=
  match op with
  | WaitFor tag func uap new_list new =>
      match new with
      | None => Ok (a, WErr ENOMEM)
      | Some p =>
          if bool_decide (a_waiting a !! tag = None /\ new_list = None) then Fault
          else Ok (Aw (<[tag := queue_of a tag ++ [p]]> (a_waiting a)) (a_ready a)
                      (<[p := (func, uap, tag)]> (a_entry a)), WId p)
      end
  | Do tag =>
      match a_waiting a !! tag with
      | None => Ok (a, WErr ENOENT)
      | Some ids => Ok (Aw (delete tag (a_waiting a)) (a_ready a ++ ids) (a_entry a), WOk)
      end
  | Unwait id =>
      match a_entry a !! id with
      | None => Fault
      | Some (_, _, tag) =>
          if bool_decide (id ∈ queue_of a tag) then
            Ok (Aw (put_queue (a_waiting a) tag (without id (queue_of a tag))) (a_ready a)
                   (delete id (a_entry a)), WOk)
          else if bool_decide (id ∈ a_ready a) then
            Ok (Aw (a_waiting a) (without id (a_ready a)) (delete id (a_entry a)), WOk)
          else Ok (a, WErr ENOENT)
      end
  | Defer func uap new =>
      match new with
      | None => Ok (a, WErr ENOMEM)
      | Some p => Ok (Aw (a_waiting a) (a_ready a ++ [p]) (<[p := (func, uap, 0)]> (a_entry a)), WOk)
      end
  | GetNext new =>
      match a_ready a with
      | [] => Ok (a, WNothing)
      | id :: ids => if new then Ok (Aw (a_waiting a) ids (a_entry a), WEvent id) else Ok (a, WErr ENOMEM)
      end
  | Call id =>
      match a_entry a !! id with
      | None => Fault
      | Some (func, uap, tag) => Ok (a, WCall func uap tag)
      end
  | DropWait id =>
      match a_entry a !! id with
      | None => Fault
      | Some _ => Ok (Aw (a_waiting a) (a_ready a) (delete id (a_entry a)), WOk)
      end
  end.

(** [memget] returns memory that is not in use, and an event is dropped after
    it was taken out of its queue. *)
Definition legal (ctx : ev_waits) (a : aw) (op : wait_op) : Prop :=
  match op with
  | WaitFor _ _ _ new_list new =>
      (forall p, new_list = Some p -> wlists ctx !! p = None) /\
      (forall p, new = Some p -> waits ctx !! p = None)
  | Defer _ _ new => forall p, new = Some p -> waits ctx !! p = None
  | DropWait id => id ∉ a_ready a /\ forall tag, id ∉ queue_of a tag
  | _ => True
  end.

(** ** What the links represent *)

(** From [p] the [next] pointers pass through [ids] and arrive at [q]. *)
Fixpoint path (m : wmem) (p : option Z) (ids : list Z) (q : option Z) : Prop :=
  match ids with
  | [] => p = q
  | i :: ids => p = Some i /\ exists w, m !! i = Some w /\ path m (w_next w) ids q
  end.

(** A queue with its [first] and its [last]. *)
Definition queue (m : wmem) (q : option Z * option Z) (ids : list Z) : Prop :=
  path m q.1 ids None /\ q.2 = last ids.

(** The doubly linked list of lists. *)
Fixpoint dpath (ls : lmem) (prev p : option Z) (ps : list Z) (prev' q : option Z) : Prop :=
  match ps with
  | [] => p = q /\ prev = prev'
  | i :: ps => p = Some i /\ exists l, ls !! i = Some l /\ l_prev l = prev /\
                 dpath ls (Some i) (l_next l) ps prev' q
  end.

Definition w_info (w : evWait) : Z * Z * Z := (w_func w, w_uap w, w_tag w).

(** [w_tag] of an object is [tag]. *)
Definition tagged (m : wmem) (tag i : Z) : Prop := exists w, m !! i = Some w /\ w_tag w = tag.

Definition dlist (ls : lmem) (p : option Z) (ps : list Z) : Prop := dpath ls None p ps (last ps) None.

(** A list, by its address: its tag, and who is in it. *)
Notation wlist := (Z * (Z * list Z))%type.

Definition queue_at (ctx : ev_waits) (x : wlist) : Prop :=
  exists l, wlists ctx !! x.1 = Some l /\ queue (waits ctx) (l_first l, l_last l) x.2.2.

(** The lists that are not empty: one is empty when its first function could
    not be allocated, and is then never used again. *)
Definition entries (lists : list wlist) : list (Z * list Z) := filter (fun e => e.2 <> []) lists.*2.

Record links_ok (ctx : ev_waits) (ps : list Z) : Prop := {
  links_path : dlist (wlists ctx) (waitLists ctx) ps;
  links_dom : forall p, is_Some (wlists ctx !! p) <-> p ∈ ps;
  links_nodup : NoDup ps }.

Record content (ctx : ev_waits) (a : aw) (lists : list wlist) : Prop := {
  c_queues : Forall (queue_at ctx) lists;
  c_ready : queue (waits ctx) (done_first ctx, done_last ctx) (a_ready a);
  c_nodup : NoDup (mjoin lists.*2.*2 ++ a_ready a);
  c_entry : a_entry a = w_info <$> waits ctx;
  c_tags : Forall (fun x => Forall (tagged (waits ctx) x.2.1) x.2.2) lists;
  c_tags_nodup : NoDup (entries lists).*1;
  c_waiting : a_waiting a = list_to_map (entries lists) }.

Definition represents (ctx : ev_waits) (a : aw) : Prop :=
  exists lists, links_ok ctx lists.*1 /\ content ctx a lists.

(** ** Queues *)

Lemma path_frame m m' ids : forall p q,
  (forall i, i ∈ ids -> m' !! i = m !! i) -> path m p ids q -> path m' p ids q.
Proof.
  induction ids as [|i ids IH]; intros p q Hm; [done|]. intros (-> & w & Hw & H).
  split; [done|]. exists w. rewrite Hm by set_solver. split; [done|]. apply IH; [|done]. set_solver.
Qed.

Lemma path_app m a : forall p b q,
  path m p (a ++ b) q <-> exists r, path m p a r /\ path m r b q.
Proof.
  induction a as [|i a IH]; intros p b q; cbn [app path].
  - split; [by eauto|]. by intros (r & -> & H).
  - split.
    + intros (-> & w & Hw & (r & H1 & H2)%IH). exists r. split; [|done]. eauto.
    + intros (r & (-> & w & Hw & H1) & H2). split; [done|]. exists w. split; [done|]. apply IH. eauto.
Qed.

Lemma path_dom m p ids q i : path m p ids q -> i ∈ ids -> is_Some (m !! i).
Proof.
  revert p. induction ids as [|j ids IH]; intros p; [by intros _ ?%elem_of_nil|].
  intros (-> & w & Hw & H) [->|Hi]%elem_of_cons; eauto.
Qed.

Lemma queue_frame m m' q ids :
  (forall i, i ∈ ids -> m' !! i = m !! i) -> queue m q ids -> queue m' q ids.
Proof. intros Hm [H ?]. split; [by eapply path_frame|done]. Qed.

Lemma last_snoc_inv (ids : list Z) l : last ids = Some l -> exists a, ids = a ++ [l].
Proof. intros H. by apply last_Some in H. Qed.

Lemma deref_ok {T} (m : gmap Z T) p x : m !! p = Some x -> deref m p = Ok x.
Proof. intros H. unfold deref. by rewrite H. Qed.

(** An object keeps what it is but for its [next]. *)
Definition same_info (m m' : wmem) : Prop := w_info <$> m' = w_info <$> m.

Lemma same_info_tagged m m' tag i : same_info m m' -> tagged m tag i <-> tagged m' tag i.
Proof.
  intros H. unfold same_info in H. assert (E : (w_info <$> m' !! i) = (w_info <$> m !! i)).
  { by rewrite <- !lookup_fmap, H. }
  unfold tagged. split; intros (w & Hw & <-); rewrite Hw in E; cbn in E.
  - destruct (m' !! i) as [w'|]; [|done]. cbn in E. exists w'. split; [done|]. unfold w_info in E. congruence.
  - destruct (m !! i) as [w'|]; [|done]. cbn in E. exists w'. split; [done|]. unfold w_info in E. congruence.
Qed.

Lemma set_next_ok (m : wmem) l w q :
  m !! l = Some w -> exists m', set_next m l q = Ok m' /\ same_info m m' /\
    m' !! l = Some (EvWait (w_func w) (w_uap w) (w_tag w) q) /\ forall i, i <> l -> m' !! i = m !! i.
Proof.
  intros Hw. unfold set_next, deref. rewrite Hw. cbn [obind]. eexists. split; [done|].
  split_and!.
  - unfold same_info. rewrite fmap_insert. apply insert_id. by rewrite lookup_fmap, Hw.
  - by simplify_map_eq.
  - intros i Hi. by simplify_map_eq.
Qed.

(** Changing the [next] of the end of a path. *)
Lemma path_redirect m p a l w q q' m' :
  path m p (a ++ [l]) q -> l ∉ a -> m !! l = Some w ->
  m' !! l = Some (EvWait (w_func w) (w_uap w) (w_tag w) q') -> (forall i, i <> l -> m' !! i = m !! i) ->
  path m' p (a ++ [l]) q'.
Proof.
  intros (r & H1 & (-> & w' & Hw' & _))%path_app Hl Hw Hm' Hf. apply path_app. exists (Some l). split.
  - eapply path_frame; [|done]. intros i Hi. apply Hf. congruence.
  - split; [done|]. eexists. split; [done|]. done.
Qed.

(** [enqueue]: one queue behind the other. *)
Lemma enqueue_ok m q q' ids ids' :
  queue m q ids -> queue m q' ids' -> ids' <> [] -> NoDup (ids ++ ids') ->
  exists m' q'', enqueue m q q' = Ok (m', q'') /\ same_info m m' /\ queue m' q'' (ids ++ ids') /\
    forall i, i ∉ ids -> m' !! i = m !! i.
Proof.
  intros [Hp Hl] [Hp' Hl'] Hne Hnd. unfold enqueue. destruct q as [f l], q' as [f' l']. cbn [fst snd] in *.
  assert (El : last (ids ++ ids') = l').
  { subst l'. rewrite last_app. destruct (last ids') eqn:E; [done|]. by apply last_None in E. }
  destruct l as [l|].
  - symmetry in Hl. apply last_snoc_inv in Hl as [a ->].
    pose proof (path_dom _ _ _ _ l Hp ltac:(set_solver)) as [w Hw].
    destruct (set_next_ok m l w f' Hw) as (m' & -> & Hs & Hm' & Hf). cbn [obind].
    apply NoDup_app in Hnd as (Hnd & Hd & _). apply NoDup_app in Hnd as (_ & Hla & _).
    eexists _, _. split; [done|]. split; [done|]. split; [|intros i Hi; apply Hf; set_solver].
    split; [|cbn; by rewrite El]. cbn [fst]. apply path_app. exists f'. split.
    + eapply path_redirect; try done. intros Hin. by apply (Hla l Hin), list_elem_of_singleton.
    + eapply path_frame; [|done]. intros i Hi. apply Hf. intros ->. by apply (Hd l ltac:(set_solver)).
  - symmetry in Hl. apply last_None in Hl as ->. eexists _, _. split; [done|]. split; [done|].
    split; [|done]. cbn [app]. by split.
Qed.

Lemma without_id (id : Z) (ids : list Z) : id ∉ ids -> without id ids = ids.
Proof.
  unfold without. induction ids as [|i ids IH]; [done|]. intros H.
  rewrite filter_cons_True by (intros ->; set_solver). f_equal. apply IH. set_solver.
Qed.

Lemma without_mid (id : Z) (a b : list Z) : NoDup (a ++ id :: b) -> without id (a ++ id :: b) = a ++ b.
Proof.
  intros (_ & Hd & Hb)%NoDup_app. apply NoDup_cons in Hb as [Hb _].
  unfold without. rewrite filter_app, filter_cons_False by (intros H; by apply H).
  f_equal; apply without_id; [|done]. intros Hi. by apply (Hd id Hi), list_elem_of_here.
Qed.

Lemma unlink_loop id m q all : forall rest a fuel,
  all = a ++ rest -> NoDup all -> path m q.1 a (head rest) -> path m (head rest) rest None ->
  q.2 = last all -> id ∉ a -> (length rest <= fuel)%nat ->
  if bool_decide (id ∈ rest) then
    exists m' q', unlink fuel m q (last a) (head rest) id = Ok (Some (m', q')) /\ same_info m m' /\
      queue m' q' (without id all) /\ forall i, i ∉ all -> m' !! i = m !! i
  else unlink fuel m q (last a) (head rest) id = Ok None.
Proof.
  induction rest as [|p rest IH]; intros a fuel -> Hnd Ha Hr Hq Hid Hf.
  { rewrite bool_decide_eq_false_2 by apply not_elem_of_nil. by destruct fuel. }
  destruct fuel as [|fuel]; [cbn in Hf; lia|]. cbn [head path unlink] in *.
  destruct Hr as (_ & w & Hw & Hr). rewrite !(deref_ok _ _ _ Hw). cbn [obind].
  assert (En : w_next w = head rest).
  { destruct rest; [done|]. by destruct Hr as [Hr _]. }
  destruct (Z.eqb_spec p id) as [->|Hne].
  - rewrite bool_decide_eq_true_2 by set_solver. rewrite without_mid by done.
    assert (Hlast : (if bool_decide (q.2 = Some id) then last a else q.2) = last (a ++ rest)).
    { rewrite Hq, !last_app, last_cons. destruct (last rest) as [l|] eqn:El.
      - rewrite bool_decide_eq_false_2; [done|]. intros [= ->]. apply last_Some_elem_of in El.
        apply NoDup_app in Hnd as (_ & _ & [Hn _]%NoDup_cons). done.
      - by rewrite bool_decide_eq_true_2. }
    rewrite Hlast. apply NoDup_app in Hnd as (Hda & Hd & Hdr). apply NoDup_cons in Hdr as [Hir Hdr].
    destruct (last a) as [r|] eqn:El.
    + apply last_snoc_inv in El as [a' ->].
      pose proof (path_dom _ _ _ _ r Ha ltac:(set_solver)) as [wr Hwr].
      destruct (set_next_ok m r wr (w_next w) Hwr) as (m' & -> & Hs & Hm' & Hfr). cbn [obind].
      eexists _, _. split; [done|]. split; [done|]. split; [|intros i Hi; apply Hfr; set_solver].
      split; [|done]. cbn [fst]. apply path_app. exists (w_next w). split.
      * eapply path_redirect; try done. intros Hin.
        apply NoDup_app in Hda as (_ & Hx & _). by apply (Hx r Hin), list_elem_of_singleton.
      * eapply path_frame; [|done]. intros i Hi. apply Hfr. intros ->.
        apply (Hd r ltac:(set_solver)). set_solver.
    + apply last_None in El as ->. cbn [obind]. eexists _, _. split; [done|]. split; [done|].
      split; [|done]. by split.
  - specialize (IH (a ++ [p]) fuel). rewrite last_snoc in IH. rewrite En.
    replace (bool_decide (id ∈ p :: rest)) with (bool_decide (id ∈ rest))
      by (apply bool_decide_ext; set_solver).
    rewrite (cons_middle p a rest), app_assoc in *.
    apply IH; try done; [|by rewrite <- En|set_solver|cbn [length] in Hf; lia].
    apply path_app. exists (Some p). split; [done|]. rewrite <- En. cbn [path]. eauto.
Qed.

Lemma unlink_ok id m q ids fuel :
  queue m q ids -> NoDup ids -> (length ids <= fuel)%nat ->
  if bool_decide (id ∈ ids) then
    exists m' q', unlink fuel m q None q.1 id = Ok (Some (m', q')) /\ same_info m m' /\
      queue m' q' (without id ids) /\ forall i, i ∉ ids -> m' !! i = m !! i
  else unlink fuel m q None q.1 id = Ok None.
Proof.
  intros [Hp Hl] Hnd Hf. assert (E : q.1 = head ids) by (destruct ids; [done|by destruct Hp]).
  rewrite E in *. apply (unlink_loop id m q ids ids []); try done; set_solver.
Qed.

(** ** The list of lists *)

Definition links (l : evWaitList) : option Z * option Z := (l_prev l, l_next l).
Definition ends (l : evWaitList) : option Z * option Z := (l_first l, l_last l).

Lemma dpath_frame ls ls' ps : forall pv p pv' q,
  (forall i, i ∈ ps -> links <$> ls' !! i = links <$> ls !! i) ->
  dpath ls pv p ps pv' q -> dpath ls' pv p ps pv' q.
Proof.
  induction ps as [|i ps IH]; intros pv p pv' q Hf; [done|]. intros (-> & l & Hl & <- & H).
  split; [done|]. specialize (Hf i ltac:(set_solver)) as Hi. rewrite Hl in Hi. cbn in Hi.
  destruct (ls' !! i) as [l'|]; [|done]. cbn in Hi. injection Hi as Hp Hn.
  exists l'. split_and!; [done|done|]. rewrite Hn. apply IH; [|done]. set_solver.
Qed.

Lemma dpath_app ls a : forall pv p b pv' q,
  dpath ls pv p (a ++ b) pv' q <-> exists rv r, dpath ls pv p a rv r /\ dpath ls rv r b pv' q.
Proof.
  induction a as [|i a IH]; intros pv p b pv' q; cbn [app dpath].
  - split; [by eauto|]. by intros (rv & r & [-> ->] & H).
  - split.
    + intros (-> & l & Hl & Hp & (rv & r & H1 & H2)%IH). exists rv, r. split; [|done]. eauto.
    + intros (rv & r & (-> & l & Hl & Hp & H1) & H2). split; [done|]. exists l. split_and!; try done.
      apply IH. eauto.
Qed.

Lemma dpath_end ls a : forall pv p rv r,
  dpath ls pv p a rv r -> rv = match last a with Some l => Some l | None => pv end.
Proof.
  induction a as [|i a IH]; intros pv p rv r; [by intros [_ ->]|].
  intros (-> & l & Hl & Hp & H). rewrite (IH _ _ _ _ H), last_cons. by destruct (last a).
Qed.

Lemma dpath_dom ls ps pv p pv' q i : dpath ls pv p ps pv' q -> i ∈ ps -> is_Some (ls !! i).
Proof.
  revert pv p. induction ps as [|j ps IH]; intros pv p; [by intros _ ?%elem_of_nil|].
  intros (-> & l & Hl & _ & H) [->|Hi]%elem_of_cons; eauto.
Qed.

(** [l]: an update of one object that changes what [f] does not look at. *)
Lemma fmap_insert_same {T} (f : evWaitList -> T) (ls : lmem) p l l' i :
  ls !! p = Some l -> f l' = f l -> f <$> <[p := l']> ls !! i = f <$> ls !! i.
Proof.
  intros Hl Hf. destruct (decide (i = p)) as [->|Hne]; simplify_map_eq; [|done]. cbn. by rewrite Hf.
Qed.

Lemma set_l_next_ok ls pv p a l rv r q :
  dpath ls pv p (a ++ [l]) rv r -> l ∉ a ->
  exists ls', set_l_next ls l q = Ok ls' /\ dpath ls' pv p (a ++ [l]) rv q /\
    (forall i, i <> l -> ls' !! i = ls !! i) /\ (forall i, ends <$> ls' !! i = ends <$> ls !! i).
Proof.
  intros H Hl. destruct (dpath_dom _ _ _ _ _ _ l H ltac:(set_solver)) as [w Hw].
  unfold set_l_next. rewrite (deref_ok _ _ _ Hw). cbn [obind]. eexists. split; [done|].
  apply dpath_app in H as (rv' & r' & H1 & (-> & w' & Hw' & Hp & H2)). split_and!.
  - apply dpath_app. exists rv', (Some l). split.
    + eapply dpath_frame; [|done]. intros i Hi. by rewrite lookup_insert_ne by congruence.
    + split; [done|]. eexists. split; [by simplify_map_eq|]. split; [cbn; congruence|]. cbn. split; [done|].
      by destruct H2.
  - intros i Hi. by simplify_map_eq.
  - intros i. by eapply fmap_insert_same.
Qed.

Lemma set_l_prev_ok ls pv p b rv r pv' :
  dpath ls pv (Some p) (p :: b) rv r -> p ∉ b ->
  exists ls', set_l_prev ls p pv' = Ok ls' /\ dpath ls' pv' (Some p) (p :: b) rv r /\
    (forall i, i <> p -> ls' !! i = ls !! i) /\ (forall i, ends <$> ls' !! i = ends <$> ls !! i).
Proof.
  intros (_ & l & Hl & Hp & H) Hb. unfold set_l_prev. rewrite (deref_ok _ _ _ Hl). cbn [obind].
  eexists. split; [done|]. split_and!.
  - split; [done|]. eexists. split; [by simplify_map_eq|]. split; [done|]. cbn [l_next].
    eapply dpath_frame; [|done]. intros i Hi. by rewrite lookup_insert_ne by congruence.
  - intros i Hi. by simplify_map_eq.
  - intros i. by eapply fmap_insert_same.
Qed.

Definition with_lists (ctx : ev_waits) (ls : lmem) (head : option Z) : ev_waits :=
  EvWaits (waits ctx) ls head (done_first ctx) (done_last ctx).

Lemma evNewWaitList_ok ctx p ps :
  dlist (wlists ctx) (waitLists ctx) ps -> NoDup ps -> wlists ctx !! p = None ->
  exists ls l, evNewWaitList ctx (Some p) = Ok (Some p, with_lists ctx ls (Some p)) /\
    dlist ls (Some p) (p :: ps) /\ ls !! p = Some l /\ ends l = (None, None) /\
    forall i, i <> p -> ends <$> ls !! i = ends <$> wlists ctx !! i.
Proof.
  intros H Hnd Hp. unfold evNewWaitList, dlist in *.
  assert (Hni : p ∉ ps). { intros Hi. destruct (dpath_dom _ _ _ _ _ _ p H Hi). congruence. }
  set (l := EvWaitList None None None (waitLists ctx)). set (ls := <[p := l]> (wlists ctx)).
  assert (Hls : dpath ls None (waitLists ctx) ps (last ps) None).
  { eapply dpath_frame; [|done]. intros i Hi. subst ls. by rewrite lookup_insert_ne by congruence. }
  destruct ps as [|q ps].
  - destruct Hls as [E _]. rewrite E. cbn [obind]. exists ls, l. split; [done|].
    assert (Hl : ls !! p = Some l) by (subst ls; by simplify_map_eq). split_and!; try done.
    + split; [done|]. exists l. split_and!; try done.
    + intros i Hi. subst ls. by simplify_map_eq.
  - pose proof Hls as [E _]. rewrite E in *. apply NoDup_cons in Hnd as [Hq Hnd].
    destruct (set_l_prev_ok _ _ _ _ _ _ (Some p) Hls Hq) as (ls' & -> & Hd & Hf & He). cbn [obind].
    assert (Hl : ls' !! p = Some l).
    { rewrite Hf by set_solver. subst ls. by simplify_map_eq. }
    exists ls', l. split; [done|]. split_and!; try done.
    + split; [done|]. exists l. split_and!; try done. subst l. cbn [l_next]. by rewrite E.
    + intros i Hi. rewrite He. subst ls. by simplify_map_eq.
Qed.

Lemma evFreeWaitList_ok ctx a p b :
  dlist (wlists ctx) (waitLists ctx) (a ++ p :: b) -> NoDup (a ++ p :: b) ->
  exists ls head, evFreeWaitList ctx p = Ok (with_lists ctx ls head) /\ dlist ls head (a ++ b) /\
    ls !! p = None /\ forall i, i <> p -> ends <$> ls !! i = ends <$> wlists ctx !! i.
Proof.
  intros H Hnd. unfold evFreeWaitList, dlist in *.
  apply NoDup_app in Hnd as (Hda & Hd & Hdb). apply NoDup_cons in Hdb as [Hpb Hdb].
  apply dpath_app in H as (rv & r & Ha & (-> & l & Hl & Hpv & Hb)).
  rewrite (deref_ok _ _ _ Hl). cbn [obind]. rewrite Hpv. clear Hpv.
  assert (Hpa : p ∉ a) by (intros Hi; by apply (Hd p Hi), list_elem_of_here).
  (* the part before [p] *)
  assert (S1 : exists head ls1,
    match rv with Some q => ls <- set_l_next (wlists ctx) q (l_next l);; Ok (waitLists ctx, ls)
                | None => Ok (l_next l, wlists ctx) end = Ok (head, ls1) /\
    dpath ls1 None head a rv (l_next l) /\ (forall i, i ∉ a -> ls1 !! i = wlists ctx !! i) /\
    forall i, ends <$> ls1 !! i = ends <$> wlists ctx !! i).
  { pose proof (dpath_end _ _ _ _ _ _ Ha) as E. destruct (last a) as [q|] eqn:El.
    - apply last_snoc_inv in El as [a' ->]. subst rv. cbv beta iota.
      apply NoDup_app in Hda as (_ & Hq & _).
      assert (Hqa : q ∉ a') by (intros Hi; by apply (Hq q Hi), list_elem_of_singleton).
      destruct (set_l_next_ok _ _ _ _ _ _ _ (l_next l) Ha Hqa) as (ls' & Es & H1 & H2 & H3).
      rewrite Es. cbn [obind].
      eexists _, _. split; [done|]. split_and!; try done. intros i Hi. apply H2. set_solver.
    - apply last_None in El as ->. subst rv. eexists _, _. split; [done|]. by split_and!. }
  destruct S1 as (head & ls1 & -> & Ha1 & Hf1 & He1). cbn [obind].
  assert (Hb1 : dpath ls1 (Some p) (l_next l) b (last (a ++ p :: b)) None).
  { eapply dpath_frame; [|done]. intros i Hi. rewrite Hf1; [done|]. intros Hi'. apply (Hd i Hi'). set_solver. }
  (* the part behind it *)
  assert (S2 : exists ls2,
    match l_next l with Some q => set_l_prev ls1 q rv | None => Ok ls1 end = Ok ls2 /\
    dpath ls2 rv (l_next l) b (last (a ++ b)) None /\ (forall i, i ∉ b -> ls2 !! i = ls1 !! i) /\
    forall i, ends <$> ls2 !! i = ends <$> ls1 !! i).
  { pose proof (dpath_end _ _ _ _ _ _ Ha) as E. destruct b as [|q b].
    - destruct Hb1 as [-> _]. eexists. split; [done|]. split_and!; try done. rewrite app_nil_r. cbn.
      split; [done|]. rewrite E. by destruct (last a).
    - pose proof Hb1 as [En _]. rewrite En in *. apply NoDup_cons in Hdb as [Hqb Hdb].
      destruct (set_l_prev_ok _ _ _ _ _ _ rv Hb1 Hqb) as (ls' & -> & H1 & H2 & H3).
      eexists. split; [done|]. split_and!; try done.
      + replace (last (a ++ q :: b)) with (last (a ++ p :: q :: b)); [done|]. by rewrite !last_app.
      + intros i Hi. apply H2. set_solver. }
  destruct S2 as (ls2 & -> & Hb2 & Hf2 & He2). cbn [obind].
  assert (Hl2 : ls2 !! p = Some l) by (by rewrite Hf2, Hf1).
  unfold memput. rewrite (deref_ok _ _ _ Hl2). cbn [obind].
  eexists _, _. split; [done|]. split_and!.
  - apply dpath_app. exists rv, (l_next l). split.
    + eapply dpath_frame; [|exact Ha1]. intros i Hi. rewrite lookup_delete_ne by congruence.
      rewrite Hf2; [done|]. intros Hi'. apply (Hd i Hi). set_solver.
    + eapply dpath_frame; [|done]. intros i Hi. by rewrite lookup_delete_ne by congruence.
  - by rewrite lookup_delete_eq.
  - intros i Hi. rewrite lookup_delete_ne by done. by rewrite He2.
Qed.

(** ** The content, whatever the order of the lists *)

Lemma entries_perm l l' : l ≡ₚ l' -> entries l ≡ₚ entries l'.
Proof. intros H. unfold entries. by rewrite H. Qed.

Lemma entries_cons p t ids l :
  entries ((p, (t, ids)) :: l) = if decide (ids = []) then entries l else (t, ids) :: entries l.
Proof.
  unfold entries. rewrite fmap_cons. cbn [snd]. destruct (decide (ids = [])) as [->|H].
  - rewrite filter_cons_False; [done|]. intros H. by apply H.
  - by rewrite filter_cons_True.
Qed.

Lemma content_perm ctx a l l' : l ≡ₚ l' -> content ctx a l -> content ctx a l'.
Proof.
  intros Hp [C1 C2 C3 C4 C5 C6 C7]. split; try done.
  - by rewrite <- Hp.
  - by rewrite <- Hp.
  - by rewrite <- Hp.
  - by rewrite <- (entries_perm _ _ Hp).
  - rewrite C7. apply list_to_map_proper; [done|]. by apply entries_perm.
Qed.

Lemma queue_at_frame ctx ctx' x :
  (forall i, i ∈ x.2.2 -> waits ctx' !! i = waits ctx !! i) ->
  ends <$> wlists ctx' !! x.1 = ends <$> wlists ctx !! x.1 -> queue_at ctx x -> queue_at ctx' x.
Proof.
  intros Hw He (l & Hl & Hq). rewrite Hl in He. cbn in He. destruct (wlists ctx' !! x.1) as [l'|] eqn:El; [|done].
  cbn in He. injection He as Hf Hla. exists l'. split; [done|]. rewrite Hf, Hla. by eapply queue_frame.
Qed.

Lemma tagged_frame m m' tag i : m' !! i = m !! i -> tagged m tag i -> tagged m' tag i.
Proof. intros H (w & Hw & Ht). exists w. by rewrite H. Qed.

(** Whoever is in a queue is in memory. *)
Lemma content_dom ctx a lists i :
  content ctx a lists -> i ∈ mjoin lists.*2.*2 ++ a_ready a -> is_Some (waits ctx !! i).
Proof.
  intros C [Hi|Hi]%elem_of_app; [|by eapply path_dom; [apply (c_ready _ _ _ C)|]].
  apply list_elem_of_join in Hi as (ids & Hi & (e & -> & (x & -> & Hx)%list_elem_of_fmap)%list_elem_of_fmap).
  pose proof (c_queues _ _ _ C) as Hq. rewrite Forall_forall in Hq. destruct (Hq x Hx) as (l & _ & Hp & _).
  by eapply path_dom.
Qed.

(** Everyone in the lists. *)
Notation members lists := (mjoin lists.*2.*2).

Lemma elem_of_members (x : wlist) (lists : list wlist) i : x ∈ lists -> i ∈ x.2.2 -> i ∈ members lists.
Proof.
  intros Hx Hi. apply list_elem_of_join. exists x.2.2. split; [done|]. by do 2 apply list_elem_of_fmap_2.
Qed.

(** Another memory, with another queue of ready functions, in which the lists
    have not changed. *)
Lemma content_frame ctx ctx' w r e r' e' lists :
  content ctx (Aw w r e) lists ->
  (forall i, i ∈ members lists -> waits ctx' !! i = waits ctx !! i) ->
  (forall p, p ∈ lists.*1 -> ends <$> wlists ctx' !! p = ends <$> wlists ctx !! p) ->
  queue (waits ctx') (done_first ctx', done_last ctx') r' ->
  NoDup r' -> (forall i, i ∈ r' -> i ∉ members lists) -> e' = w_info <$> waits ctx' ->
  content ctx' (Aw w r' e') lists.
Proof.
  intros [C1 C2 C3 C4 C5 C6 C7] Hw Hl Hr Hnd Hd He. split; cbn [a_ready a_entry a_waiting] in *; try done.
  - rewrite !Forall_forall in *. intros x Hx. eapply queue_at_frame; [| |by apply C1].
    + intros i Hi. apply Hw. by eapply elem_of_members.
    + apply Hl. by apply list_elem_of_fmap_2.
  - apply NoDup_app in C3 as (C3 & _ & _). apply NoDup_app. split_and!; [done| |done].
    intros i Hi Hi'. by apply (Hd i Hi').
  - apply Forall_forall. intros x Hx. rewrite Forall_forall in C5. specialize (C5 x Hx).
    rewrite Forall_forall in C5 |- *. intros i Hi. eapply tagged_frame; [|by apply C5].
    apply Hw. by eapply elem_of_members.
Qed.

(** One list and the others. *)
Lemma content_cons ctx w r e p t ids rest :
  content ctx (Aw w r e) ((p, (t, ids)) :: rest) <->
  exists w', content ctx (Aw w' r e) rest /\
    queue_at ctx (p, (t, ids)) /\ Forall (tagged (waits ctx) t) ids /\ NoDup ids /\
    (forall i, i ∈ ids -> i ∉ members rest ++ r) /\
    (if decide (ids = []) then w = w' else w = <[t := ids]> w' /\ w' !! t = None).
Proof.
  split.
  - intros [C1 C2 C3 C4 C5 C6 C7]. cbn [a_ready a_entry a_waiting] in *.
    apply Forall_cons in C1 as [C1 C1']. apply Forall_cons in C5 as [C5 C5'].
    rewrite !fmap_cons in C3. cbn [snd] in C3. cbn [mjoin list_join] in C3. rewrite <- app_assoc in C3.
    apply NoDup_app in C3 as (C3 & C3d & C3').
    rewrite entries_cons in C6, C7. exists (list_to_map (entries rest)).
    destruct (decide (ids = [])) as [Hids|Hids].
    + split_and!; done.
    + apply NoDup_cons in C6 as [C6 C6']. split_and!; try done.
      by apply not_elem_of_list_to_map_1.
  - intros (w' & [C1 C2 C3 C4 C5 C6 C7] & Hq & Ht & Hnd & Hd & Hw). cbn [a_ready a_entry a_waiting] in *.
    split; cbn [a_ready a_entry a_waiting] in *; try done.
    + by constructor.
    + rewrite !fmap_cons. cbn [snd]. cbn [mjoin list_join]. rewrite <- app_assoc. apply NoDup_app. by split_and!.
    + by constructor.
    + rewrite entries_cons. destruct (decide (ids = [])); [done|]. destruct Hw as [_ Hw]. constructor; [|done].
      rewrite C7 in Hw. by apply not_elem_of_list_to_map_2 in Hw.
    + rewrite entries_cons. destruct (decide (ids = [])); [congruence|]. destruct Hw as [-> _].
      by rewrite list_to_map_cons, C7.
Qed.

(** ** The search for a list *)

Lemma queue_head m q ids : queue m q ids -> q.1 = head ids.
Proof. intros [H _]. destruct ids; [done|]. by destruct H as [H _]. Qed.

Lemma find_list_loop ctx tag lists : forall pv p pv' fuel,
  dpath (wlists ctx) pv p lists.*1 pv' None -> Forall (queue_at ctx) lists ->
  Forall (fun x => Forall (tagged (waits ctx) x.2.1) x.2.2) lists -> (length lists <= fuel)%nat ->
  exists o, find_list fuel (waits ctx) (wlists ctx) p tag = Ok o /\
    match o with
    | Some p => exists l1 ids l2, lists = l1 ++ (p, (tag, ids)) :: l2 /\ ids <> []
    | None => tag ∉ (entries lists).*1
    end.
Proof.
  induction lists as [|[i [t ids]] lists IH]; intros pv p pv' fuel Hd Hq Ht Hf.
  { destruct Hd as [-> _]. exists None. split; [by destruct fuel|]. apply not_elem_of_nil. }
  destruct fuel as [|fuel]; [cbn in Hf; lia|]. destruct Hd as (-> & l & Hl & _ & Hd). cbn [fst] in Hl.
  apply Forall_cons in Hq as [(l' & Hl' & Hq) Hq']. cbn [fst snd] in *.
  apply Forall_cons in Ht as [Ht Ht']. cbn [fst snd] in *. assert (l' = l) as -> by congruence.
  cbn [find_list]. rewrite (deref_ok _ _ _ Hl). cbn [obind]. rewrite entries_cons.
  apply queue_head in Hq. cbn [fst] in Hq. rewrite Hq.
  destruct (IH _ _ _ fuel Hd Hq' Ht' ltac:(cbn in Hf; lia)) as (o & Ho & Hspec).
  assert (Hnext : match o with Some p => exists l1 ids' l2, (i, (t, ids)) :: lists = l1 ++ (p, (tag, ids')) :: l2 /\ ids' <> []
                  | None => tag ∉ (entries lists).*1 end).
  { destruct o as [p|]; [|done]. destruct Hspec as (l1 & ids' & l2 & -> & Hne). by exists ((i, (t, ids)) :: l1), ids', l2. }
  destruct ids as [|j ids]; cbn [head].
  { rewrite decide_True by done. cbn [obind]. eauto. }
  apply Forall_cons in Ht as [(w & Hw & Hwt) _]. rewrite (deref_ok _ _ _ Hw). cbn [obind]. rewrite Hwt.
  rewrite decide_False by done. destruct (Z.eqb_spec t tag) as [->|Hne].
  - exists (Some i). split; [done|]. by exists [], (j :: ids), lists.
  - exists o. split; [done|]. destruct o; [done|]. cbn. apply not_elem_of_cons. by split.
Qed.

Lemma links_size ctx ps : links_ok ctx ps -> (length ps <= size (wlists ctx))%nat.
Proof.
  intros [_ Hd Hn]. rewrite <- size_dom, <- (size_list_to_set (C := gset Z) ps) by done.
  apply subseteq_size. intros p Hp. apply elem_of_list_to_set in Hp. by apply elem_of_dom, Hd.
Qed.

(** [evGetWaitList] without creation. *)
Lemma evGetWaitList_ok ctx a lists tag :
  links_ok ctx lists.*1 -> content ctx a lists ->
  exists o, find_list (size (wlists ctx)) (waits ctx) (wlists ctx) (waitLists ctx) tag = Ok o /\
    match o with
    | Some p => exists l1 ids l2, lists = l1 ++ (p, (tag, ids)) :: l2 /\ ids <> [] /\ a_waiting a !! tag = Some ids
    | None => a_waiting a !! tag = None
    end.
Proof.
  intros HL HC. pose proof (links_size _ _ HL) as Hs. rewrite length_fmap in Hs.
  destruct (find_list_loop ctx tag lists None (waitLists ctx) _ _ (links_path _ _ HL)
              (c_queues _ _ _ HC) (c_tags _ _ _ HC) Hs) as (o & Ho & Hspec).
  exists o. split; [done|]. rewrite (c_waiting _ _ _ HC). destruct o as [p|].
  - destruct Hspec as (l1 & ids & l2 & -> & Hne). exists l1, ids, l2. split_and!; [done|done|].
    apply elem_of_list_to_map_1; [apply HC|]. unfold entries. apply list_elem_of_filter. split; [done|].
    apply (list_elem_of_fmap_2 snd _ (p, (tag, ids))). set_solver.
  - by apply not_elem_of_list_to_map_1.
Qed.

(** A list in the middle, as the first. *)
Lemma content_focus ctx w r e l1 p t ids l2 :
  ids <> [] -> content ctx (Aw w r e) (l1 ++ (p, (t, ids)) :: l2) ->
  exists w', w = <[t := ids]> w' /\ w' !! t = None /\ content ctx (Aw w' r e) (l1 ++ l2) /\
    queue_at ctx (p, (t, ids)) /\ Forall (tagged (waits ctx) t) ids /\ NoDup ids /\
    forall i, i ∈ ids -> i ∉ members (l1 ++ l2) ++ r.
Proof.
  intros Hne H. eapply content_perm in H; [|symmetry; apply Permutation_middle].
  apply content_cons in H as (w' & H & Hq & Ht & Hn & Hd & Hw). rewrite decide_False in Hw by done.
  destruct Hw as [-> Hw]. by exists w'.
Qed.

(** ** The operations refine the abstract ones *)

Definition step_refines (r : outcome (ev_waits * wresult)) (ar : outcome (aw * wresult)) : Prop :=
  match r, ar with
  | Ok (ctx, x), Ok (a, y) => x = y /\ represents ctx a
  | Fault, Fault => True
  | _, _ => False
  end.

Lemma free_links ctx l1 p l2 :
  links_ok ctx (l1 ++ p :: l2) ->
  exists ls head, evFreeWaitList ctx p = Ok (with_lists ctx ls head) /\
    links_ok (with_lists ctx ls head) (l1 ++ l2) /\
    forall q, q <> p -> ends <$> ls !! q = ends <$> wlists ctx !! q.
Proof.
  intros [Hp Hd Hn]. destruct (evFreeWaitList_ok ctx l1 p l2 Hp Hn) as (ls & head & -> & Hp' & Hlp & He).
  exists ls, head. split; [done|]. split; [|done]. rewrite <- Permutation_middle in Hn.
  apply NoDup_cons in Hn as [Hpn Hn]. split; [done| |done]. cbn [wlists with_lists]. intros q.
  destruct (decide (q = p)) as [->|Hne].
  - rewrite Hlp. split; [by intros [? ?]|intros Hq; by destruct (Hpn Hq)].
  - assert (E : is_Some (ls !! q) <-> is_Some (wlists ctx !! q)).
    { rewrite <- (fmap_is_Some ends), He by done. apply fmap_is_Some. }
    rewrite E, Hd. set_solver.
Qed.

Lemma members_not_head (p q : Z) l1 l2 :
  NoDup (l1 ++ p :: l2) -> q ∈ l1 ++ l2 -> q <> p.
Proof. intros Hn Hq ->. rewrite <- Permutation_middle in Hn. by apply NoDup_cons in Hn as [? _]. Qed.

Lemma evDo_refines ctx a tag : represents ctx a -> step_refines (evDo ctx tag) (aw_step a (Do tag)).
Proof.
  intros (lists & HL & HC). unfold evDo, evGetWaitList. cbn [aw_step].
  destruct (evGetWaitList_ok _ _ _ tag HL HC) as (o & -> & Ho). destruct o as [p|]; cbn [obind]; cycle 1.
  { rewrite Ho. split; [done|]. by exists lists. }
  destruct Ho as (l1 & ids & l2 & -> & Hne & Hw), a as [w r e]. cbn [a_waiting a_ready a_entry] in *. rewrite Hw.
  apply content_focus in HC as (w' & -> & Hw' & HC & (l & Hl & Hq) & Ht & Hn & Hd); [|done].
  cbn [fst snd] in *. rewrite (deref_ok _ _ _ Hl). cbn [obind].
  pose proof (queue_head _ _ _ Hq) as Hh. cbn [fst] in Hh.
  rewrite bool_decide_eq_true_2 by (rewrite Hh; destruct ids; [done|by eexists]). cbn [cassert obind].
  pose proof (c_nodup _ _ _ HC) as Hnd. cbn [a_ready] in Hnd. apply NoDup_app in Hnd as (Hnm & Hdm & Hnr).
  destruct (enqueue_ok (waits ctx) (done_first ctx, done_last ctx) (l_first l, l_last l) r ids)
    as (m' & q' & -> & Hs & Hq' & Hf); [by apply (c_ready _ _ _ HC)|done|done| |].
  { apply NoDup_app. split_and!; [done| |done]. intros i Hi Hi'. apply (Hd i Hi'). set_solver. }
  cbn [obind]. rewrite fmap_app, fmap_cons in HL. cbn [fst] in HL.
  destruct (free_links (EvWaits m' (wlists ctx) (waitLists ctx) q'.1 q'.2) l1.*1 p l2.*1)
    as (ls & head & -> & HL' & He); [destruct HL; by split|].
  cbn [obind with_lists step_refines]. split; [done|]. exists (l1 ++ l2). rewrite fmap_app. split; [done|].
  rewrite delete_insert_id by done.
  eapply content_frame; [exact HC| | | | | |].
  - cbn. intros i Hi. apply Hf. intros Hi'. by apply (Hdm i Hi).
  - cbn [wlists with_lists]. intros q Hi. rewrite He; [done|]. eapply members_not_head; [apply HL|].
    by rewrite <- fmap_app.
  - cbn. by destruct q'.
  - apply NoDup_app. split_and!; [done| |done]. intros i Hi Hi'. apply (Hd i Hi'). set_solver.
  - intros i [Hi|Hi]%elem_of_app; [|intros Hi'; apply (Hd i Hi); set_solver]. intros Hi'. by apply (Hdm i Hi').
  - cbn. rewrite Hs. apply HC.
Qed.

(** An object that [memget] returned. *)
Lemma queue_new (m : wmem) p f u t : queue (<[p := EvWait f u t None]> m) (Some p, Some p) [p].
Proof. split; [|done]. split; [done|]. eexists. split; [by simplify_map_eq|done]. Qed.

Lemma content_fresh ctx a lists p i :
  content ctx a lists -> waits ctx !! p = None -> i ∈ members lists ++ a_ready a -> i <> p.
Proof. intros HC Hp Hi ->. destruct (content_dom _ _ _ _ HC Hi). congruence. Qed.

Lemma fresh_insert_ne ctx a lists p x :
  content ctx a lists -> waits ctx !! p = None ->
  forall i, i ∈ members lists ++ a_ready a -> <[p := x]> (waits ctx) !! i = waits ctx !! i.
Proof. intros HC Hp i Hi. apply lookup_insert_ne. symmetry. by eapply content_fresh. Qed.

Lemma evDefer_refines ctx a func uap new :
  represents ctx a -> legal ctx a (Defer func uap new) ->
  step_refines (evDefer ctx func uap new) (aw_step a (Defer func uap new)).
Proof.
  intros (lists & HL & HC) Hleg. cbn in Hleg. destruct new as [p|]; [|by split; [|exists lists]].
  specialize (Hleg p eq_refl). unfold evDefer. cbn [aw_step].
  pose proof (c_nodup _ _ _ HC) as Hnd. apply NoDup_app in Hnd as (Hnm & Hdm & Hnr).
  assert (Hp : p ∉ members lists ++ a_ready a) by (intros Hi; by apply (content_fresh _ _ _ p p HC Hleg)).
  destruct (enqueue_ok (<[p := EvWait func uap 0 None]> (waits ctx)) (done_first ctx, done_last ctx)
              (Some p, Some p) (a_ready a) [p]) as (m' & q' & -> & Hs & Hq' & Hf).
  - eapply queue_frame; [|by apply (c_ready _ _ _ HC)]. intros i Hi. eapply fresh_insert_ne; try done. set_solver.
  - apply queue_new.
  - done.
  - apply NoDup_app. split_and!; [done| |by apply NoDup_singleton]. intros i Hi ->%list_elem_of_singleton. set_solver.
  - cbn [obind step_refines]. split; [done|]. exists lists. split; [by destruct HL|]. destruct a as [w r e].
    cbn [a_waiting a_ready a_entry] in *. eapply content_frame; [exact HC| |done| | | |]; cbn [waits].
    + intros i Hi. rewrite Hf by (intros Hi'; by apply (Hdm i Hi)).
      eapply fresh_insert_ne; try done. set_solver.
    + cbn. by destruct q'.
    + apply NoDup_app. split_and!; [done| |by apply NoDup_singleton]. intros i Hi ->%list_elem_of_singleton. set_solver.
    + intros i [Hi| ->%list_elem_of_singleton]%elem_of_app; [|set_solver]. intros Hi'. by apply (Hdm i Hi').
    + rewrite Hs, fmap_insert. f_equal. apply HC.
Qed.

Lemma evGetNext_refines ctx a new :
  represents ctx a -> step_refines (evGetNext_wait ctx new) (aw_step a (GetNext new)).
Proof.
  intros (lists & HL & HC). unfold evGetNext_wait. cbn [aw_step].
  pose proof (c_ready _ _ _ HC) as [Hp Hl]. cbn [fst snd] in *. destruct a as [w r e]. cbn [a_ready] in *.
  destruct r as [|i r]; cbn [path] in Hp.
  { rewrite Hp. split; [done|]. by exists lists. }
  destruct Hp as (E & x & Hx & Hp). rewrite E. destruct new; cbn [negb]; [|by split; [|exists lists]].
  rewrite (deref_ok _ _ _ Hx). cbn [obind step_refines a_waiting a_entry]. split; [done|].
  exists lists. split; [by destruct HL|].
  pose proof (c_nodup _ _ _ HC) as Hnd. cbn [a_ready] in Hnd. apply NoDup_app in Hnd as (Hnm & Hdm & Hnr).
  apply NoDup_cons in Hnr as [Hi Hnr].
  eapply content_frame; [exact HC|done|done| |done| |apply HC].
  - cbn. split; [done|]. cbn [snd]. destruct r as [|j r].
    + cbn in Hp. by rewrite Hp.
    + destruct Hp as [-> _]. rewrite Hl. by rewrite last_cons_cons.
  - intros j Hj Hj'. apply (Hdm j Hj'). set_solver.
Qed.

Lemma represents_entry ctx a : represents ctx a -> a_entry a = w_info <$> waits ctx.
Proof. intros (lists & _ & HC). apply HC. Qed.

Lemma evDispatch_refines ctx a id :
  represents ctx a -> step_refines (evDispatch_call ctx id) (aw_step a (Call id)).
Proof.
  intros H. unfold evDispatch_call, deref. cbn [aw_step]. rewrite (represents_entry _ _ H), lookup_fmap.
  by destruct (waits ctx !! id) as [[]|].
Qed.

(** What is in no queue can be freed. *)
Lemma content_free ctx w r e lists id :
  content ctx (Aw w r e) lists -> id ∉ members lists ++ r ->
  content (EvWaits (delete id (waits ctx)) (wlists ctx) (waitLists ctx) (done_first ctx) (done_last ctx))
    (Aw w r (delete id e)) lists.
Proof.
  intros HC Hid. pose proof (c_nodup _ _ _ HC) as Hnd. cbn [a_ready] in Hnd.
  apply NoDup_app in Hnd as (Hnm & Hdm & Hnr).
  eapply content_frame; [exact HC| |done| |done| |]; cbn [waits].
  - intros i Hi. apply lookup_delete_ne. set_solver.
  - eapply queue_frame; [|by apply (c_ready _ _ _ HC)]. cbn [a_ready]. intros i Hi. apply lookup_delete_ne. set_solver.
  - intros i Hi Hi'. by apply (Hdm i Hi').
  - rewrite fmap_delete. f_equal. apply HC.
Qed.

Lemma members_entries (lists : list wlist) i : i ∈ members lists -> exists t ids, (t, ids) ∈ entries lists /\ i ∈ ids.
Proof.
  intros (ids & Hi & ([t ids'] & -> & Hx)%list_elem_of_fmap)%list_elem_of_join. exists t, ids'. split; [|done].
  unfold entries. apply list_elem_of_filter. split; [|done]. cbn in *. intros ->. set_solver.
Qed.

Lemma evDrop_refines ctx a id :
  represents ctx a -> legal ctx a (DropWait id) ->
  step_refines (evDrop_wait ctx id) (aw_step a (DropWait id)).
Proof.
  intros H [Hr Ht]. unfold evDrop_wait, memput, deref. cbn [aw_step].
  pose proof (represents_entry _ _ H) as He. rewrite He, lookup_fmap.
  destruct (waits ctx !! id) as [x|] eqn:Hx; [|done]. cbn. split; [done|]. rewrite <- He.
  destruct H as (lists & HL & HC). exists lists. split; [by destruct HL|]. destruct a as [w r e].
  apply content_free; [done|]. intros [(t & ids & Hti & Hi)%members_entries|Hi]%elem_of_app; [|done].
  apply (Ht t). unfold queue_of. rewrite (c_waiting _ _ _ HC).
  erewrite (elem_of_list_to_map_1 (entries lists) t ids); [done|apply HC|done].
Qed.

(** The machine represents [a], and [id] is in no queue any more. *)
Definition unqueued (ctx : ev_waits) (a : aw) (id : Z) : Prop :=
  exists lists, links_ok ctx lists.*1 /\ content ctx a lists /\ id ∉ members lists ++ a_ready a.

Lemma path_size m p ids q : path m p ids q -> NoDup ids -> (length ids <= size m)%nat.
Proof.
  intros H Hn. rewrite <- size_dom, <- (size_list_to_set (C := gset Z) ids) by done.
  apply subseteq_size. intros i Hi%elem_of_list_to_set. by apply elem_of_dom; eapply path_dom.
Qed.

Lemma elem_of_without id i (ids : list Z) : i ∈ without id ids <-> i <> id /\ i ∈ ids.
Proof. unfold without. by rewrite list_elem_of_filter. Qed.

(** A list put back with other members. *)
Lemma content_put ctx w' r e l1 p t ids l2 :
  content ctx (Aw w' r e) (l1 ++ l2) -> w' !! t = None -> queue_at ctx (p, (t, ids)) ->
  Forall (tagged (waits ctx) t) ids -> NoDup ids -> (forall i, i ∈ ids -> i ∉ members (l1 ++ l2) ++ r) ->
  content ctx (Aw (put_queue w' t ids) r e) (l1 ++ (p, (t, ids)) :: l2).
Proof.
  intros HC Hw Hq Ht Hn Hd. eapply content_perm; [apply Permutation_middle|].
  apply content_cons. exists w'. split_and!; try done. destruct (decide (ids = [])) as [->|Hne].
  - cbn. by apply delete_id.
  - by destruct ids.
Qed.

Lemma content_drop_empty ctx w r e l1 p t l2 :
  content ctx (Aw w r e) (l1 ++ (p, (t, [])) :: l2) -> content ctx (Aw w r e) (l1 ++ l2).
Proof.
  intros H. eapply content_perm in H; [|symmetry; apply Permutation_middle].
  apply content_cons in H as (w' & H & _ & _ & _ & _ & Hw). by rewrite decide_True in Hw by done; subst w'.
Qed.

(** The lists, when one of them has other members. *)
Lemma set_l_queue_ok ctx m p l q :
  wlists ctx !! p = Some l ->
  exists ls l', set_l_queue (wlists ctx) p q = Ok ls /\ ls !! p = Some l' /\ ends l' = q /\
    (forall i, i <> p -> ls !! i = wlists ctx !! i) /\
    forall ps, links_ok ctx ps -> links_ok (EvWaits m ls (waitLists ctx) (done_first ctx) (done_last ctx)) ps.
Proof.
  intros Hl. unfold set_l_queue. rewrite (deref_ok _ _ _ Hl). cbn [obind]. eexists _, _. split; [done|].
  split; [by simplify_map_eq|]. split; [by destruct q|]. split; [intros i Hi; by simplify_map_eq|].
  intros ps [H1 H2 H3]. split; [| |done]; cbn [wlists waitLists].
  - eapply dpath_frame; [|done]. intros i _. by eapply fmap_insert_same.
  - intros i. rewrite <- H2. destruct (decide (i = p)) as [->|]; simplify_map_eq; [|done].
    split; by eexists.
Qed.

Lemma unwait_waiting_ok ctx a id x :
  represents ctx a -> waits ctx !! id = Some x ->
  let ids := queue_of a (w_tag x) in
  if decide (id ∈ ids) then
    exists ctx1, unwait_waiting ctx id = Ok (Some ctx1) /\ is_Some (waits ctx1 !! id) /\
      unqueued ctx1 (Aw (put_queue (a_waiting a) (w_tag x) (without id ids)) (a_ready a) (a_entry a)) id
  else unwait_waiting ctx id = Ok None.
Proof.
  intros (lists & HL & HC) Hx. cbv zeta. unfold unwait_waiting, evGetWaitList, queue_of.
  rewrite (deref_ok _ _ _ Hx). cbn [obind].
  destruct (evGetWaitList_ok _ _ _ (w_tag x) HL HC) as (o & -> & Ho). destruct o as [p|]; cbn [obind]; cycle 1.
  { rewrite Ho. cbn [default]. rewrite decide_False; [done|apply not_elem_of_nil]. }
  destruct Ho as (l1 & ids & l2 & -> & Hne & Hw), a as [w r e]. cbn [a_waiting a_ready a_entry] in *. rewrite Hw.
  change (default [] (Some ids)) with ids. set (t := w_tag x) in *.
  apply content_focus in HC as (w' & -> & Hw' & HC & (l & Hl & Hq) & Ht & Hn & Hd); [|done].
  cbn [fst snd] in *. rewrite (deref_ok _ _ _ Hl). cbn [obind].
  pose proof (unlink_ok id (waits ctx) _ ids (size (waits ctx)) Hq Hn ltac:(eapply path_size; [apply Hq|done])) as Hu.
  cbn [fst] in Hu. destruct (decide (id ∈ ids)) as [Hin|Hin];
    [rewrite bool_decide_eq_true_2 in Hu by done|rewrite bool_decide_eq_false_2 in Hu by done; by rewrite Hu].
  destruct Hu as (m' & q' & -> & Hs & Hq' & Hf). cbn [obind].
  destruct (set_l_queue_ok ctx m' p l q' Hl) as (ls & l' & -> & Hl' & He & Hlf & Hlinks). cbn [obind].
  set (ctx1 := EvWaits m' ls (waitLists ctx) (done_first ctx) (done_last ctx)) in *.
  apply Hlinks in HL. rewrite fmap_app, fmap_cons in HL. cbn [fst] in HL.
  pose proof (c_nodup _ _ _ HC) as Hnd. cbn [a_ready] in Hnd. apply NoDup_app in Hnd as (Hnm & Hdm & Hnr).
  assert (HC1 : content ctx1 (Aw (put_queue w' t (without id ids)) r e) (l1 ++ (p, (t, without id ids)) :: l2)).
  { apply content_put; [|done| | | |].
    - eapply content_frame; [exact HC| | | |done| |]; cbn [waits ctx1 wlists].
      + intros i Hi. apply Hf. intros Hi'. apply (Hd i Hi'). set_solver.
      + intros i Hi. rewrite Hlf; [done|]. eapply members_not_head; [apply HL|]. by rewrite <- fmap_app.
      + eapply queue_frame; [|by apply (c_ready _ _ _ HC)]. cbn. intros i Hi. apply Hf. intros Hi'.
        apply (Hd i Hi'). set_solver.
      + intros i Hi Hi'. by apply (Hdm i Hi').
      + rewrite Hs. apply HC.
    - exists l'. split; [done|]. replace (l_first l', l_last l') with q' by (by rewrite <- He). done.
    - apply Forall_forall. intros i [_ Hi]%elem_of_without. rewrite Forall_forall in Ht.
      apply (same_info_tagged _ _ _ _ Hs). by apply Ht.
    - by apply NoDup_filter.
    - intros i [_ Hi]%elem_of_without. by apply Hd. }
  assert (Hid1 : is_Some (m' !! id)).
  { apply (fmap_is_Some w_info). rewrite <- lookup_fmap, Hs, lookup_fmap, Hx. by eexists. }
  assert (Hout : id ∉ members (l1 ++ l2) ++ r) by (by apply Hd).
  assert (Hput : put_queue (<[t:=ids]> w') t (without id ids) = put_queue w' t (without id ids)).
  { unfold put_queue. destruct (without id ids); [by rewrite delete_insert_eq|by rewrite insert_insert_eq]. }
  rewrite Hput. pose proof (queue_head _ _ _ Hq') as Hh. rewrite Hh.
  destruct (without id ids) as [|j ids'] eqn:Ew; cbn [head].
  - destruct (free_links ctx1 l1.*1 p l2.*1 HL) as (ls' & head & -> & HL' & He'). cbn [obind].
    eexists. split; [done|]. split; [done|]. exists (l1 ++ l2). rewrite fmap_app. split; [done|]. split; [|done].
    apply content_drop_empty in HC1.
    eapply content_frame; [exact HC1|done| | | | |]; cbn [waits with_lists].
    + cbn [wlists with_lists]. intros i Hi. rewrite He'; [done|].
      eapply members_not_head; [apply HL|]. by rewrite <- fmap_app.
    + apply (c_ready _ _ _ HC1).
    + done.
    + intros i Hi Hi'. by apply (Hdm i Hi').
    + apply HC1.
  - cbn [obind]. eexists. split; [done|]. split; [done|].
    exists (l1 ++ (p, (t, j :: ids')) :: l2). rewrite fmap_app, fmap_cons. split; [done|]. split; [done|].
    intros [Hi|Hi]%elem_of_app; [|cbn in Hi; set_solver]. rewrite <- Permutation_middle in Hi.
    cbn [fmap list_fmap mjoin list_join snd] in Hi. apply elem_of_app in Hi as [Hi|Hi]; [|set_solver].
    rewrite <- Ew in Hi. by apply elem_of_without in Hi as [].
Qed.

Lemma unwait_done_ok ctx a id x :
  represents ctx a -> waits ctx !! id = Some x -> id ∉ queue_of a (w_tag x) ->
  if decide (id ∈ a_ready a) then
    exists ctx1, unwait_done ctx id = Ok (Some ctx1) /\ is_Some (waits ctx1 !! id) /\
      unqueued ctx1 (Aw (a_waiting a) (without id (a_ready a)) (a_entry a)) id
  else unwait_done ctx id = Ok None.
Proof.
  intros (lists & HL & HC) Hx Hnw. unfold unwait_done.
  pose proof (c_ready _ _ _ HC) as Hq.
  pose proof (c_nodup _ _ _ HC) as Hnd. apply NoDup_app in Hnd as (Hnm & Hdm & Hnr).
  pose proof (unlink_ok id (waits ctx) _ _ (size (waits ctx)) Hq Hnr (path_size _ _ _ _ (proj1 Hq) Hnr)) as Hu.
  cbn [fst] in Hu. destruct (decide (id ∈ a_ready a)) as [Hin|Hin];
    [rewrite bool_decide_eq_true_2 in Hu by done|rewrite bool_decide_eq_false_2 in Hu by done; by rewrite Hu].
  destruct Hu as (m' & q' & -> & Hs & Hq' & Hf). cbn [obind]. eexists. split; [done|]. cbn [waits]. split.
  { apply (fmap_is_Some w_info). rewrite <- lookup_fmap, Hs, lookup_fmap, Hx. by eexists. }
  exists lists. split; [by destruct HL|]. destruct a as [w r e]. cbn [a_waiting a_ready a_entry] in *. split.
  - eapply content_frame; [exact HC| |done| | | |]; cbn [waits].
    + intros i Hi. apply Hf. by apply Hdm.
    + cbn. by destruct q'.
    + by apply NoDup_filter.
    + intros i [_ Hi]%elem_of_without Hi'. by apply (Hdm i Hi').
    + rewrite Hs. apply HC.
  - intros [Hi|[Hi _]%elem_of_without]%elem_of_app; [|done]. by apply (Hdm id Hi).
Qed.

Lemma unqueued_free ctx a id x :
  unqueued ctx a id -> waits ctx !! id = Some x ->
  exists m, memput (waits ctx) id = Ok m /\
    represents (EvWaits m (wlists ctx) (waitLists ctx) (done_first ctx) (done_last ctx))
      (Aw (a_waiting a) (a_ready a) (delete id (a_entry a))).
Proof.
  intros (lists & HL & HC & Hid) Hx. unfold memput. rewrite (deref_ok _ _ _ Hx). cbn [obind].
  eexists. split; [done|]. exists lists. split; [by destruct HL|]. destruct a. by apply content_free.
Qed.

Lemma evUnwait_refines ctx a id :
  represents ctx a -> step_refines (evUnwait ctx id) (aw_step a (Unwait id)).
Proof.
  intros H. unfold evUnwait. cbn [aw_step]. pose proof (represents_entry _ _ H) as He.
  destruct (a_entry a !! id) as [[[f u] t]|] eqn:E; rewrite He, lookup_fmap in E; cycle 1.
  { destruct (waits ctx !! id) eqn:Hx; [done|]. unfold unwait_waiting, deref. by rewrite Hx. }
  destruct (waits ctx !! id) as [x|] eqn:Hx; [|done]. cbn in E.
  assert (Ht : w_tag x = t) by (unfold w_info in E; congruence).
  pose proof (unwait_waiting_ok _ _ _ _ H Hx) as Hw. cbv zeta in Hw. rewrite Ht in Hw.
  destruct (decide (id ∈ queue_of a t)) as [Hin|Hin].
  - rewrite bool_decide_eq_true_2 by done. destruct Hw as (ctx1 & -> & [y Hy] & Hu). cbn [obind].
    destruct (unqueued_free _ _ _ _ Hu Hy) as (m & -> & Hm). cbn [obind]. by split.
  - rewrite bool_decide_eq_false_2 by done. rewrite Hw. cbn [obind].
    pose proof (unwait_done_ok _ _ _ _ H Hx ltac:(by rewrite Ht)) as Hd.
    destruct (decide (id ∈ a_ready a)) as [Hir|Hir].
    + rewrite bool_decide_eq_true_2 by done. destruct Hd as (ctx1 & -> & [y Hy] & Hu). cbn [obind].
      destruct (unqueued_free _ _ _ _ Hu Hy) as (m & -> & Hm). cbn [obind]. by split.
    + rewrite bool_decide_eq_false_2 by done. rewrite Hd. by split.
Qed.

(** [evWaitFor] when the list is there: one more behind those in it. *)
Lemma waitfor_list ctx w' r e l1 p t ids l2 l new f u :
  links_ok ctx (l1 ++ (p, (t, ids)) :: l2).*1 -> content ctx (Aw w' r e) (l1 ++ l2) -> w' !! t = None ->
  wlists ctx !! p = Some l -> queue (waits ctx) (ends l) ids ->
  Forall (tagged (waits ctx) t) ids -> NoDup ids ->
  (forall i, i ∈ ids -> i ∉ members (l1 ++ l2) ++ r) -> waits ctx !! new = None ->
  exists m q ls, enqueue (<[new := EvWait f u t None]> (waits ctx)) (ends l) (Some new, Some new) = Ok (m, q) /\
    set_l_queue (wlists ctx) p q = Ok ls /\
    represents (EvWaits m ls (waitLists ctx) (done_first ctx) (done_last ctx))
      (Aw (<[t := ids ++ [new]]> w') r (<[new := (f, u, t)]> e)).
Proof.
  intros HL HC Hw Hl Hq Ht Hn Hd Hnew. set (x := EvWait f u t None).
  assert (Hni : forall i, i ∈ members (l1 ++ l2) ++ r -> i <> new) by (intros i Hi; by eapply content_fresh).
  assert (Hnids : new ∉ ids).
  { intros Hi. rewrite Forall_forall in Ht. destruct (Ht new Hi) as (y & Hy & _). congruence. }
  pose proof (c_nodup _ _ _ HC) as Hnd. cbn [a_ready] in Hnd. apply NoDup_app in Hnd as (Hnm & Hdm & Hnr).
  destruct (enqueue_ok (<[new := x]> (waits ctx)) (ends l) (Some new, Some new) ids [new])
    as (m & q & -> & Hs & Hq' & Hf).
  - eapply queue_frame; [|done]. intros i Hi. apply lookup_insert_ne. congruence.
  - apply queue_new.
  - done.
  - apply NoDup_app. split_and!; [done| |by apply NoDup_singleton].
    intros i Hi ->%list_elem_of_singleton. by apply Hnids.
  - destruct (set_l_queue_ok ctx m p l q Hl) as (ls & l' & Els & Hl' & He & Hlf & Hlinks).
    exists m, q, ls. split; [done|]. split; [done|]. set (ctx1 := EvWaits _ _ _ _ _) in *.
    exists (l1 ++ (p, (t, ids ++ [new])) :: l2). apply Hlinks in HL.
    rewrite fmap_app, fmap_cons in HL |- *. split; [done|].
    replace (<[t:=ids ++ [new]]> w') with (put_queue w' t (ids ++ [new])) by (by destruct ids).
    assert (Hm : forall i, i ∉ ids -> i <> new -> m !! i = waits ctx !! i).
    { intros i Hi Hi'. rewrite Hf by done. by apply lookup_insert_ne. }
    apply content_put; [|done| | | |].
    + eapply content_frame; [exact HC| | | |done| |]; cbn [waits ctx1 wlists].
      * intros i Hi. apply Hm; [intros Hi'; apply (Hd i Hi')|apply Hni]; set_solver.
      * intros i Hi. rewrite Hlf; [done|]. eapply members_not_head; [apply HL|]. by rewrite <- fmap_app.
      * eapply queue_frame; [|by apply (c_ready _ _ _ HC)]. cbn. intros i Hi.
        apply Hm; [intros Hi'; apply (Hd i Hi')|apply Hni]; set_solver.
      * intros i Hi Hi'. by apply (Hdm i Hi').
      * rewrite Hs, fmap_insert. f_equal. apply HC.
    + exists l'. split; [done|]. by replace (l_first l', l_last l') with q.
    + apply Forall_forall. intros i Hi. apply (same_info_tagged _ _ _ _ Hs).
      apply elem_of_app in Hi as [Hi| ->%list_elem_of_singleton].
      * rewrite Forall_forall in Ht. eapply tagged_frame; [|by apply Ht]. apply lookup_insert_ne. congruence.
      * exists x. split; [by simplify_map_eq|done].
    + apply NoDup_app. split_and!; [done| |by apply NoDup_singleton].
      intros i Hi ->%list_elem_of_singleton. by apply Hnids.
    + intros i [Hi| ->%list_elem_of_singleton]%elem_of_app; [by apply Hd|]. intros Hi. by apply (Hni new Hi).
Qed.

(** The new list of [evNewWaitList]: the content is what it was. *)
Lemma new_list_ok ctx a lists p :
  links_ok ctx lists.*1 -> content ctx a lists -> wlists ctx !! p = None ->
  exists ls l, evNewWaitList ctx (Some p) = Ok (Some p, with_lists ctx ls (Some p)) /\
    ls !! p = Some l /\ ends l = (None, None) /\
    (forall t, links_ok (with_lists ctx ls (Some p)) ((p, (t, [])) :: lists).*1) /\
    content (with_lists ctx ls (Some p)) a lists.
Proof.
  intros [Hp Hd Hn] HC Hnew.
  destruct (evNewWaitList_ok ctx p _ Hp Hn Hnew) as (ls & l & -> & Hdl & Hl & He & Hf).
  assert (Hni : p ∉ lists.*1) by (intros Hi; apply Hd in Hi as [? ?]; congruence).
  exists ls, l. split; [done|]. split; [done|]. split; [done|]. split.
  - intros t. split; [done| |by constructor]. cbn [wlists with_lists]. intros q. rewrite fmap_cons. cbn [fst].
    destruct (decide (q = p)) as [->|Hne].
    + rewrite Hl. split; [intros _; set_solver|by eexists].
    + rewrite elem_of_cons, <- Hd, <- (fmap_is_Some ends), Hf, fmap_is_Some by done. naive_solver.
  - pose proof (c_nodup _ _ _ HC) as Hnd. apply NoDup_app in Hnd as (Hnm & Hdm & Hnr). destruct a as [w r e].
    eapply content_frame; [exact HC|done| |apply HC|done| |apply HC].
    + cbn [wlists with_lists]. intros q Hq. apply Hf. congruence.
    + intros i Hi Hi'. by apply (Hdm i Hi').
Qed.

Lemma evWaitFor_refines ctx a tag func uap new_list new :
  represents ctx a -> legal ctx a (WaitFor tag func uap new_list new) ->
  step_refines (evWaitFor ctx tag func uap new_list new) (aw_step a (WaitFor tag func uap new_list new)).
Proof.
  intros (lists & HL & HC) [Hlist Hnew]. unfold evWaitFor, evGetWaitList.
  destruct (evGetWaitList_ok _ _ _ tag HL HC) as (o & -> & Ho). cbn [obind aw_step]. destruct o as [p|]; cbn [obind].
  - destruct new as [n|]; [|by split; [|exists lists]]. specialize (Hnew n eq_refl).
    destruct Ho as (l1 & ids & l2 & -> & Hne & Hw), a as [w r e]. unfold queue_of. cbn [a_waiting a_ready a_entry] in *.
    rewrite Hw, bool_decide_eq_false_2 by (intros [? _]; done).
    apply content_focus in HC as (w' & -> & Hw' & HC & (l & Hl & Hq) & Ht & Hn & Hd); [|done].
    cbn [fst snd] in *. rewrite (deref_ok _ _ _ Hl). cbn [obind].
    destruct (waitfor_list ctx w' r e l1 p tag ids l2 l n func uap HL HC Hw' Hl Hq Ht Hn Hd Hnew)
      as (m & q & ls & E1 & E2 & Hrep).
    unfold ends in E1. rewrite E1. cbn [obind]. rewrite E2. cbn [obind step_refines]. split; [done|].
    rewrite insert_insert_eq. exact Hrep.
  - destruct new_list as [p|]; cbn [evNewWaitList obind].
    + specialize (Hlist p eq_refl).
      destruct (new_list_ok ctx a lists p HL HC Hlist) as (ls1 & l & E & Hl & Hends & HL1 & HC1).
      cbn [evNewWaitList] in E. rewrite E. clear E. cbn [obind].
      destruct new as [n|]; cycle 1.
      { split; [done|]. exists ((p, (tag, [])) :: lists). split; [apply HL1|]. destruct a as [w r e].
        apply content_cons. exists w. split_and!; try done; [|constructor|set_solver].
        exists l. split; [done|]. injection Hends as -> ->. done. }
      specialize (Hnew n eq_refl). destruct a as [w r e]. unfold queue_of. cbn [a_waiting a_ready a_entry] in *.
      rewrite bool_decide_eq_false_2 by (intros [_ ?]; done). cbn [wlists with_lists].
      rewrite (deref_ok _ _ _ Hl). cbn [obind].
      destruct (waitfor_list (with_lists ctx ls1 (Some p)) w r e [] p tag [] lists l n func uap
                  (HL1 tag) HC1 Ho Hl) as (m & q & ls & E1 & E2 & Hrep); try done.
      * rewrite Hends. done.
      * constructor.
      * set_solver.
      * unfold ends in E1. cbn [waits with_lists] in E1 |- *. rewrite E1. cbn [obind].
        cbn [wlists with_lists] in E2. rewrite E2. cbn [obind step_refines]. split; [done|].
        rewrite Ho. exact Hrep.
    + destruct new as [n|]; [|by split; [|exists lists]]. by rewrite bool_decide_eq_true_2.
Qed.

Lemma wait_step_refines ctx a op :
  represents ctx a -> legal ctx a op -> step_refines (wait_step ctx op) (aw_step a op).
Proof.
  intros H Hl. destruct op; cbn [wait_step].
  - by apply evWaitFor_refines.
  - by apply evDo_refines.
  - by apply evUnwait_refines.
  - by apply evDefer_refines.
  - by apply evGetNext_refines.
  - by apply evDispatch_refines.
  - by apply evDrop_refines.
Qed.

(** ** Runs *)

Fixpoint aw_run (a : aw) (ops : list wait_op) : outcome (aw * list wresult) :=
  match ops with
  | [] => Ok (a, [])
  | op :: ops =>
      let! (a, r) := aw_step a op in
      let! (a, rs) := aw_run a ops in
      Ok (a, r :: rs)
  end.

(** The sequences of calls from [evCreate] on, and what they return. *)
Inductive wait_run : list wait_op -> list wresult -> ev_waits -> Prop :=
| wait_run_start : wait_run [] [] evCreate_waits
| wait_run_step ops rs ctx a op ctx' r :
    wait_run ops rs ctx -> aw_run aw_start ops = Ok (a, rs) -> legal ctx a op ->
    wait_step ctx op = Ok (ctx', r) -> wait_run (ops ++ [op]) (rs ++ [r]) ctx'.

Lemma represents_create : represents evCreate_waits aw_start.
Proof.
  exists []. split; split; cbn; try done; try constructor; try (by constructor).
  - by intros [? ?].
  - intros H. by apply elem_of_nil in H.
Qed.

Lemma aw_run_app ops : forall a ops' a' rs,
  aw_run a (ops ++ ops') = Ok (a', rs) <->
  exists a1 rs1 rs2, aw_run a ops = Ok (a1, rs1) /\ aw_run a1 ops' = Ok (a', rs2) /\ rs = rs1 ++ rs2.
Proof.
  induction ops as [|op ops IH]; intros a ops' a' rs; cbn [app aw_run].
  - split.
    + intros H. by exists a, [], rs.
    + intros (a1 & rs1 & rs2 & [= <- <-] & H & ->). done.
  - destruct (aw_step a op) as [[a0 r]| | |]; cbn [obind]; try (split; [done|by intros (? & ? & ? & ? & _)]).
    split.
    + destruct (aw_run a0 (ops ++ ops')) as [[a2 rs0]| | |] eqn:E; cbn [obind]; try done. intros [= <- <-].
      apply IH in E as (a1 & rs1 & rs2 & -> & H2 & ->). cbn [obind]. by exists a1, (r :: rs1), rs2.
    + intros (a1 & rs1 & rs2 & H1 & H2 & ->). destruct (aw_run a0 ops) as [[a2 rs0]| | |] eqn:E; try done.
      cbn [obind] in H1. injection H1 as <- <-.
      replace (aw_run a0 (ops ++ ops')) with (Ok (a', rs0 ++ rs2)); [done|]. symmetry. apply IH. exists a2, rs0, rs2. by split_and!.
Qed.

Lemma wait_run_rep ops rs ctx :
  wait_run ops rs ctx -> exists a, aw_run aw_start ops = Ok (a, rs) /\ represents ctx a.
Proof.
  induction 1 as [|ops rs ctx a op ctx' r Hrun (a' & Ha' & Hrep) Ha Hleg Hstep].
  - exists aw_start. split; [done|apply represents_create].
  - rewrite Ha in Ha'. injection Ha' as <-. pose proof (wait_step_refines _ _ _ Hrep Hleg) as Hs.
    rewrite Hstep in Hs. destruct (aw_step a op) as [[a2 y]| | |] eqn:E; try done. destruct Hs as [-> Hs].
    exists a2. split; [|done]. apply aw_run_app. exists a, rs, [y]. split; [done|]. split; [|done].
    cbn. by rewrite E.
Qed.

(** ** The order of the ready functions *)

(** At most [k] others are ready before [id]. *)
Definition ready_behind (a : aw) (id : Z) (k : nat) : Prop :=
  exists xs ys, a_ready a = xs ++ id :: ys /\ (length xs <= k)%nat.

Definition is_fetch (op : wait_op) : bool := match op with GetNext true => true | _ => false end.

(** The calls of [evGetNext] whose event can be allocated. *)
Definition fetches (ops : list wait_op) : nat := length (List.filter is_fetch ops).

Lemma ready_behind_app a id k w r e :
  ready_behind a id k -> ready_behind (Aw w (a_ready a ++ r) e) id k.
Proof. intros (xs & ys & E & Hl). exists xs, (ys ++ r). split; [|done]. cbn. by rewrite E, <- app_assoc. Qed.

Lemma ready_behind_without a id j k w e :
  j <> id -> ready_behind a id k -> ready_behind (Aw w (without j (a_ready a)) e) id k.
Proof.
  intros Hne (xs & ys & E & Hl). exists (without j xs), (without j ys). cbn. unfold without in *. split.
  - by rewrite E, filter_app, filter_cons_True by congruence.
  - etransitivity; [apply length_filter|done].
Qed.

(** No call but its own removal overtakes [id]; a fetch brings it forward. *)
Lemma ready_step a op a' r id k :
  aw_step a op = Ok (a', r) -> op <> Unwait id -> ready_behind a id k ->
  if is_fetch op then r = WEvent id \/ exists k', k = S k' /\ ready_behind a' id k'
  else ready_behind a' id k.
Proof.
  intros Hs Hop Hb. assert (Hsame : forall w e, ready_behind (Aw w (a_ready a) e) id k) by done.
  destruct op as [tag f u nl new|tag|j|f u new|new|j|j]; cbn [aw_step is_fetch] in *.
  - destruct new as [p|]; [|by injection Hs as <- <-]. case_bool_decide; [done|]. injection Hs as <- <-. apply Hsame.
  - destruct (a_waiting a !! tag); injection Hs as <- <-; [|done]. by apply ready_behind_app.
  - destruct (a_entry a !! j) as [[[f u] t]|]; [|done]. repeat case_bool_decide; injection Hs as <- <-; [done| |done].
    apply ready_behind_without; [congruence|done].
  - destruct new as [p|]; injection Hs as <- <-; [|done]. by apply ready_behind_app.
  - destruct Hb as (xs & ys & E & Hl). rewrite E in Hs. destruct xs as [|x xs]; cbn [app] in Hs.
    + destruct new; injection Hs as <- <-; [by left|]. by exists [], ys.
    + destruct new; injection Hs as <- <-.
      * right. destruct k as [|k]; [cbn in Hl; lia|]. exists k. split; [done|]. exists xs, ys. split; [done|].
        cbn in Hl. lia.
      * by exists (x :: xs), ys.
  - destruct (a_entry a !! j) as [[[f u] t]|]; [|done]. by injection Hs as <- <-.
  - destruct (a_entry a !! j); [|done]. injection Hs as <- <-. apply Hsame.
Qed.

Lemma ready_fetched id ops : forall a a' rs k,
  aw_run a ops = Ok (a', rs) -> Unwait id ∉ ops -> ready_behind a id k -> (k < fetches ops)%nat ->
  WEvent id ∈ rs.
Proof.
  induction ops as [|op ops IH]; intros a a' rs k Hr Hn Hb Hk; [cbn in Hk; lia|].
  cbn [aw_run] in Hr. destruct (aw_step a op) as [[a1 r]| | |] eqn:E; try done. cbn [obind] in Hr.
  destruct (aw_run a1 ops) as [[a2 rs']| | |] eqn:E'; try done. cbn [obind] in Hr. injection Hr as <- <-.
  apply not_elem_of_cons in Hn as [Hop Hn]. pose proof (ready_step _ _ _ _ _ _ E (not_eq_sym Hop) Hb) as Hs.
  unfold fetches in *. cbn [List.filter] in Hk. destruct (is_fetch op).
  - destruct Hs as [->|(k' & -> & Hs)]; [apply list_elem_of_here|]. apply list_elem_of_further.
    eapply IH; try done. cbn in Hk. lia.
  - apply list_elem_of_further. by eapply IH.
Qed.

(** ** Destruction *)

Lemma free_waits_ok ids : forall revs m p,
  path m p ids None -> NoDup ids ->
  exists m' k, free_waits revs m p = Ok (m', k) /\ (forall i, i ∉ ids -> m' !! i = m !! i) /\
    ((length ids < revs)%nat -> (forall i, i ∈ ids -> m' !! i = None) /\ k = (revs - length ids - 1)%nat).
Proof.
  induction ids as [|i ids IH]; intros revs m p Hp Hn.
  - cbn in Hp. subst p. exists m, (revs - 1)%nat. split; [|split; [done|]].
    + destruct revs; cbn; rewrite ?Nat.sub_0_r; done.
    + intros _. split; [intros i Hi; by apply elem_of_nil in Hi|cbn; lia].
  - destruct Hp as (-> & w & Hw & Hp). apply NoDup_cons in Hn as [Hi Hn]. destruct revs as [|revs].
    { exists m, 0%nat. split; [done|]. split; [done|]. cbn. lia. }
    cbn [free_waits]. unfold memput. rewrite !(deref_ok _ _ _ Hw). cbn [obind].
    destruct (IH revs (delete i m) (w_next w)) as (m' & k & -> & Hf & Hk); [|done|].
    { eapply path_frame; [|done]. intros j Hj. apply lookup_delete_ne. congruence. }
    eexists _, _. split; [done|]. split.
    + intros j Hj. apply not_elem_of_cons in Hj as [Hj Hj']. rewrite Hf by done. by apply lookup_delete_ne.
    + intros Hr. destruct Hk as [Hk ->]; [cbn in Hr; lia|]. split; [|cbn; lia].
      intros j [->|Hj]%elem_of_cons; [|by apply Hk]. rewrite Hf by done. apply lookup_delete_eq.
Qed.

(** Turns that the lists take. *)
Fixpoint cost (lists : list wlist) : nat :=
  match lists with [] => 0 | x :: lists => (length x.2.2 + 2 + cost lists)%nat end.

Definition at_ (m : wmem) (ls : lmem) (x : wlist) : Prop :=
  exists l, ls !! x.1 = Some l /\ queue m (l_first l, l_last l) x.2.2.

Lemma free_lists_ok lists : forall fuel revs m ls pv p pv',
  dpath ls pv p lists.*1 pv' None -> NoDup lists.*1 -> Forall (at_ m ls) lists -> NoDup (members lists) ->
  (length lists <= fuel)%nat ->
  exists m' ls' k, free_lists fuel revs m ls p = Ok (m', ls', k) /\
    (forall i, i ∉ members lists -> m' !! i = m !! i) /\
    ((cost lists < revs)%nat -> (forall i, i ∈ members lists -> m' !! i = None) /\
       (forall q, ls' !! q = if decide (q ∈ lists.*1) then None else ls !! q) /\
       k = (revs - cost lists - 1)%nat).
Proof.
  induction lists as [|[q [t ids]] lists IH]; intros fuel revs m ls pv p pv' Hd Hn Hq Hm Hfuel.
  { destruct Hd as [-> _]. exists m, ls, (revs - 1)%nat. split; [|split; [done|]].
    - destruct fuel, revs; cbn; rewrite ?Nat.sub_0_r; done.
    - intros _. split_and!; [|done|cbn; lia]. intros i Hi. by apply elem_of_nil in Hi. }
  destruct fuel as [|fuel]; [cbn in Hfuel; lia|]. destruct Hd as (-> & l & Hl & _ & Hd).
  destruct revs as [|revs]; [by exists m, ls, 0%nat; destruct fuel; (split; [done|]); (split; [done|]); lia|].
  apply Forall_cons in Hq as [(l' & Hl' & Hq) Hq']. cbn [fst snd] in *. assert (l' = l) as -> by congruence.
  rewrite fmap_cons in Hn. apply NoDup_cons in Hn as [Hqn Hn]. rewrite !fmap_cons in Hm.
  cbn [snd mjoin list_join] in Hm. apply NoDup_app in Hm as (Hn1 & Hd1 & Hm). cbn [fst snd] in *.
  cbn [free_lists]. rewrite (deref_ok _ _ _ Hl). cbn [obind].
  destruct (free_waits_ok ids revs m (l_first l) (proj1 Hq) Hn1) as (m1 & k1 & -> & Hf1 & Hk1). cbn [obind].
  unfold memput. rewrite (deref_ok _ _ _ Hl). cbn [obind].
  destruct (IH fuel k1 m1 (delete q ls) (Some q) (l_next l) pv') as (m' & ls' & k & -> & Hf & Hk); try done.
  - eapply dpath_frame; [|done]. intros i Hi. rewrite lookup_delete_ne; [done|]. congruence.
  - rewrite Forall_forall in *. intros x Hx. destruct (Hq' x Hx) as (lx & Hlx & Hqx). exists lx. split.
    + rewrite lookup_delete_ne; [done|]. intros ->. apply Hqn. by apply list_elem_of_fmap_2.
    + eapply queue_frame; [|done]. intros i Hi. apply Hf1. intros Hi'. apply (Hd1 i Hi').
      by eapply elem_of_members.
  - cbn in Hfuel. lia.
  - exists m', ls', k. split; [done|]. rewrite !fmap_cons. cbn [fst snd mjoin list_join cost]. split.
    + intros i [Hi Hi']%not_elem_of_app. rewrite Hf by done. by apply Hf1.
    + intros Hr. destruct Hk1 as [Hk1 ->]; [lia|]. destruct Hk as (Hk & Hls & ->); [lia|]. split_and!; [| |lia].
      * intros i [Hi|Hi]%elem_of_app; [|by apply Hk]. rewrite Hf by (by apply Hd1). by apply Hk1.
      * intros q'. rewrite Hls. destruct (decide (q' = q)) as [->|Hne].
        -- rewrite lookup_delete_eq, (decide_True (P := q ∈ q :: _)) by set_solver. by case_decide.
        -- rewrite lookup_delete_ne by done. apply decide_ext. set_solver.
Qed.

Lemma cost_members (lists : list wlist) : cost lists = (length (members lists) + 2 * length lists)%nat.
Proof.
  induction lists as [|[q [t ids]] lists IH]; [done|].
  change (members ((q, (t, ids)) :: lists)) with (ids ++ members lists). cbn [cost fst snd length].
  rewrite length_app, IH. lia.
Qed.

(** ** Claims *)

(** C10: the linked wait lists refine the abstract machine with a queue for
    each tag and one of those that are ready.  Every sequence of calls from
    [evCreate] on returns what the abstract machine returns, and the next call
    returns what the abstract one returns and dereferences no stale pointer:
    it goes wrong exactly where the abstract one does, for an identifier that
    was freed, or in [evWaitFor] when the list of a new tag cannot be
    allocated although the function can. *)
Theorem evWaits_refines ops rs ctx :
  wait_run ops rs ctx ->
  exists a, aw_run aw_start ops = Ok (a, rs) /\
    forall op, legal ctx a op -> step_refines (wait_step ctx op) (aw_step a op).
Proof.
  intros (a & Ha & Hrep)%wait_run_rep. exists a. split; [done|]. intros op Hl. by apply wait_step_refines.
Qed.

Definition wait_ops_ex : list wait_op :=
  [WaitFor 7 1 2 (Some 100) (Some 10); WaitFor 7 3 4 None (Some 11); Defer 5 6 (Some 12); Do 7; Unwait 10;
   GetNext true].

Ltac legal_step := exact I || (split; intros p [= <-]; reflexivity) || (intros p [= <-]; reflexivity).

Ltac run_step H op :=
  let H' := fresh in
  pose proof (fun a ctx' r E L S => wait_run_step _ _ _ a op ctx' r H E L S) as H';
  specialize (H' _ _ _ ltac:(vm_compute; reflexivity) ltac:(legal_step) ltac:(vm_compute; reflexivity));
  clear H; rename H' into H.

Lemma wait_run_ex :
  exists ctx, wait_run wait_ops_ex [WId 10; WId 11; WOk; WOk; WOk; WEvent 12] ctx.
Proof.
  pose proof wait_run_start as H.
  run_step H (WaitFor 7 1 2 (Some 100) (Some 10)).
  run_step H (WaitFor 7 3 4 None (Some 11)).
  run_step H (Defer 5 6 (Some 12)).
  run_step H (Do 7).
  run_step H (Unwait 10).
  run_step H (GetNext true).
  eexists. exact H.
Qed.

Lemma evWaits_refines_witness :
  exists ctx, wait_run wait_ops_ex [WId 10; WId 11; WOk; WOk; WOk; WEvent 12] ctx /\
  exists a, aw_run aw_start wait_ops_ex = Ok (a, [WId 10; WId 11; WOk; WOk; WOk; WEvent 12]) /\
    forall op, legal ctx a op -> step_refines (wait_step ctx op) (aw_step a op).
Proof.
  destruct wait_run_ex as [ctx H]. exists ctx. split; [exact H|]. exact (evWaits_refines _ _ _ H).
Defined.

(** C11: whoever waits for a tag is called.  After [evDo] of the tag, in every
    sequence of further calls, new waits and removals of others among them,
    that takes as many events as functions were ready or waited for the tag,
    [evGetNext] returns an event for each of them that was not removed: no
    call overtakes it. *)
Theorem evDo_liveness ops rs a tag id r ops2 rs2 ctx2 :
  aw_run aw_start ops = Ok (a, rs) -> id ∈ queue_of a tag ->
  wait_run (ops ++ Do tag :: ops2) (rs ++ r :: rs2) ctx2 ->
  Unwait id ∉ ops2 -> (length (a_ready a ++ queue_of a tag) <= fetches ops2)%nat ->
  WEvent id ∈ rs2.
Proof.
  intros Ha Hid (a2 & Ha2 & _)%wait_run_rep Hn Hf.
  apply aw_run_app in Ha2 as (a1 & rs1 & rs' & Ha1 & Hr & E). rewrite Ha1 in Ha. injection Ha as -> ->.
  apply app_inv_head in E. subst rs'. cbn [aw_run aw_step] in Hr.
  destruct (a_waiting a !! tag) as [ids|] eqn:Ew;
    [|unfold queue_of in Hid; rewrite Ew in Hid; by apply elem_of_nil in Hid].
  assert (Eq : queue_of a tag = ids) by (unfold queue_of; by rewrite Ew). rewrite Eq in *. cbn [obind] in Hr.
  destruct (aw_run _ ops2) as [[a3 rs3]| | |] eqn:E; try done. cbn [obind] in Hr. injection Hr as <- <- <-.
  apply list_elem_of_split in Hid as (xs & ys & ->).
  eapply ready_fetched; [exact E|done| |].
  - exists (a_ready a ++ xs), ys. cbn [a_ready]. rewrite <- app_assoc. split; [done|reflexivity].
  - rewrite !length_app in *. cbn [length] in Hf. lia.
Qed.

Definition live_ops_ex : list wait_op := [WaitFor 7 1 2 (Some 100) (Some 10); Defer 5 6 (Some 12)].

Lemma live_run_ex :
  exists ctx, wait_run (live_ops_ex ++ Do 7 :: [Defer 5 6 (Some 13); GetNext true; GetNext true])
    ([WId 10; WOk] ++ WOk :: [WOk; WEvent 12; WEvent 10]) ctx.
Proof.
  pose proof wait_run_start as H.
  run_step H (WaitFor 7 1 2 (Some 100) (Some 10)).
  run_step H (Defer 5 6 (Some 12)).
  run_step H (Do 7).
  run_step H (Defer 5 6 (Some 13)).
  run_step H (GetNext true).
  run_step H (GetNext true).
  eexists. exact H.
Qed.

Lemma evDo_liveness_witness :
  exists ctx, wait_run (live_ops_ex ++ Do 7 :: [Defer 5 6 (Some 13); GetNext true; GetNext true])
    ([WId 10; WOk] ++ WOk :: [WOk; WEvent 12; WEvent 10]) ctx /\
  WEvent 10 ∈ [WOk; WEvent 12; WEvent 10].
Proof.
  destruct live_run_ex as [ctx H]. exists ctx. split; [exact H|].
  eapply (evDo_liveness live_ops_ex [WId 10; WOk] _ 7 10).
  - vm_compute. reflexivity.
  - apply list_elem_of_here.
  - exact H.
  - intros Hin. repeat (apply elem_of_cons in Hin as [Hin|Hin]; [discriminate Hin|]). by apply elem_of_nil in Hin.
  - vm_compute. repeat constructor.
Defined.

(** C12: [evDestroy] frees the waits.  After every sequence of calls its loops
    end and follow no stale pointer, whatever is left of [revs]; when that
    exceeds the number of functions and twice that of lists and one more, no
    list and no function that waits or is ready stays in memory: what stays is
    what was taken as an event and not dropped. *)
Theorem evDestroy_waits_frees ops rs ctx revs :
  wait_run ops rs ctx ->
  exists a m ls, aw_run aw_start ops = Ok (a, rs) /\ evDestroy_waits ctx revs = Ok (m, ls) /\
    ((size (waits ctx) + 2 * size (wlists ctx) + 1 < revs)%nat ->
     ls = ∅ /\ forall i, let queued := i ∈ a_ready a \/ exists tag, i ∈ queue_of a tag in
       (queued -> m !! i = None) /\ (~ queued -> m !! i = waits ctx !! i)).
Proof.
  intros (a & Ha & lists & HL & HC)%wait_run_rep. pose proof (c_nodup _ _ _ HC) as Hnd.
  apply NoDup_app in Hnd as (Hnm & Hdm & Hnr). unfold evDestroy_waits. pose proof (links_size _ _ HL) as Hs.
  rewrite length_fmap in Hs.
  destruct (free_lists_ok lists (size (wlists ctx)) revs (waits ctx) (wlists ctx) None (waitLists ctx) _
              (links_path _ _ HL) (links_nodup _ _ HL) (c_queues _ _ _ HC) Hnm Hs)
    as (m1 & ls & k & -> & Hf & Hk). cbn [obind].
  destruct (free_waits_ok (a_ready a) k m1 (done_first ctx)) as (m & k' & -> & Hf' & Hk'); [|done|].
  { eapply path_frame; [|apply (c_ready _ _ _ HC)]. intros i Hi. apply Hf. intros Hi'. by apply (Hdm i Hi'). }
  cbn [obind]. exists a, m, ls. split; [done|]. split; [done|]. intros Hr.
  assert (Hall : (length (members lists ++ a_ready a) <= size (waits ctx))%nat).
  { rewrite <- size_dom, <- (size_list_to_set (C := gset Z) (members lists ++ a_ready a)) by apply HC.
    apply subseteq_size. intros i Hi%elem_of_list_to_set. by eapply elem_of_dom, content_dom. }
  rewrite length_app in Hall. rewrite cost_members in Hk.
  destruct Hk as (Hm & Hls & ->); [lia|]. destruct Hk' as [Hm' _]; [lia|]. split.
  - apply map_eq. intros q. rewrite Hls, lookup_empty. case_decide as Hq; [done|].
    destruct (wlists ctx !! q) eqn:E; [|done]. exfalso. apply Hq, (links_dom _ _ HL). by eexists.
  - intros i. assert (Hi : (i ∈ a_ready a \/ exists tag, i ∈ queue_of a tag) <-> i ∈ members lists ++ a_ready a).
    { rewrite elem_of_app. split.
      - intros [Hi|[tag Hi]]; [by right|left]. unfold queue_of in Hi. rewrite (c_waiting _ _ _ HC) in Hi.
        destruct (list_to_map (entries lists) !! tag) as [ids|] eqn:E; [|by apply elem_of_nil in Hi].
        apply elem_of_list_to_map_2 in E. unfold entries in E. apply list_elem_of_filter in E as [_ E].
        apply list_elem_of_join. exists ids. split; [done|]. by apply (list_elem_of_fmap_2 snd _ (tag, ids)).
      - intros [(t & ids & Hti & Hi)%members_entries|Hi]; [right|by left]. exists t. unfold queue_of.
        rewrite (c_waiting _ _ _ HC). by erewrite (elem_of_list_to_map_1 (entries lists) t ids) by (apply HC || done). }
    cbv zeta. rewrite Hi. split; intros Hb.
    + destruct (decide (i ∈ a_ready a)) as [Hir|Hir]; [by apply Hm'|]. rewrite Hf' by done. apply Hm. set_solver.
    + rewrite Hf', Hf by set_solver. done.
Qed.

Lemma evDestroy_waits_frees_witness :
  exists ctx, wait_run wait_ops_ex [WId 10; WId 11; WOk; WOk; WOk; WEvent 12] ctx /\
  exists a m ls, aw_run aw_start wait_ops_ex = Ok (a, [WId 10; WId 11; WOk; WOk; WOk; WEvent 12]) /\
    evDestroy_waits ctx (Z.to_nat 424242) = Ok (m, ls) /\
    ((size (waits ctx) + 2 * size (wlists ctx) + 1 < Z.to_nat 424242)%nat ->
     ls = ∅ /\ forall i, let queued := i ∈ a_ready a \/ exists tag, i ∈ queue_of a tag in
       (queued -> m !! i = None) /\ (~ queued -> m !! i = waits ctx !! i)).
Proof.
  destruct wait_run_ex as [ctx H]. exists ctx. split; [exact H|].
  exact (evDestroy_waits_frees _ _ _ (Z.to_nat 424242) H).
Defined.
