(* ===== verification/RwLock.v ===== *)
(** * pthreads: read-write locks

    The locking and unlocking of wrappers/win32/pthreads (pthread_rwlock_*.c
    and ptw32_rwlock_cancelwrwait.c) by any number of threads.  Each thread has
    a program counter; a step runs one thread from one call of the mutexes or
    of the condition to the next, so that every interleaving at those calls is
    a sequence of steps.  Between two calls a thread only touches counters
    that its mutex guards, but for [nExclusiveAccessCount], which [unlock]
    reads alone in a step of its own.  The two mutexes and the condition are
    modelled by their contract: a lock is taken when nobody holds it, a wait
    releases the mutex and takes it again after a signal, a spurious wake-up,
    a timeout or a cancellation.  Locks of initialised normal mutexes do not
    fail otherwise, so those error returns are not modelled.

    The theorems: mutual exclusion with exact counters, and that the threads
    never deadlock. *)
From Stdlib Require Import ZArith Lia List Bool.
From stdpp Require Import base tactics list numbers.
From S2P Require Import Prelude.
Local Open Scope Z_scope.
Local Open Scope c_scope.

(** Which of the variants a call is: [lock], [timedlock] or [trylock]. *)
Inductive kind : Type := Block | Timed | Try.

(** The last result of a thread. *)
Inductive rwret : Type := R_OK | R_EBUSY | R_ETIMEDOUT | R_CANCELED.

#[export] Instance kind_eq_dec : EqDecision kind.
Proof. solve_decision. Defined.

#[export] Instance rwret_eq_dec : EqDecision rwret.
Proof. solve_decision. Defined.

(** Where a thread is: the call it is about to make, or what it holds. *)
Inductive pc : Type :=
| Idle (r : rwret)                (* outside; [r] is what its last call returned *)
| Reading
| Writing
(* rdlock, timedrdlock, tryrdlock *)
| RdLockEx (k : kind)             (* lock mtxExclusiveAccess *)
| RdCount (k : kind)              (* ++nSharedAccessCount *)
| RdLockSh (k : kind)             (* at INT_MAX: lock mtxSharedAccessCompleted *)
| RdReset                         (* the counters less the completed ones *)
| RdUnlockSh
| RdUnlockEx (r : rwret)
(* wrlock, timedwrlock, trywrlock *)
| WrLockEx (k : kind)
| WrLockSh (k : kind)
| WrCheck (k : kind)              (* the counters *)
| WrWait (k : kind)               (* in pthread_cond_wait *)
| WrWake (k : kind) (r : rwret)   (* woken, to lock mtxSharedAccessCompleted again *)
| WrTest (k : kind) (r : rwret)   (* back from pthread_cond_wait *)
| WrUnlockSh (r : rwret)          (* giving up: both mutexes *)
| WrUnlockEx (r : rwret)
(* unlock; the flag only says who calls *)
| UnTest (writer : bool)          (* nExclusiveAccessCount == 0 *)
| UnRdLockSh
| UnRdCount                       (* ++nCompletedSharedAccessCount *)
| UnRdUnlockSh
| UnWrCount                       (* nExclusiveAccessCount-- *)
| UnWrUnlockSh
| UnWrUnlockEx.

#[export] Instance pc_eq_dec : EqDecision pc.
Proof. solve_decision. Defined.

Record rwlock := RwLock {
  nSharedAccessCount : Z;
  nExclusiveAccessCount : Z;
  nCompletedSharedAccessCount : Z;
  mtxExclusiveAccess : option nat;          (* who holds it *)
  mtxSharedAccessCompleted : option nat;
  threads : list pc }.

(** What the environment decides in a step: which call an idle thread makes,
    and whether a lock or a wait is given up. *)
Inductive choice : Type :=
| Go
| CallRd (k : kind)
| CallWr (k : kind)
| Timeout                          (* of a timed call *)
| Spurious                         (* wake-up *)
| Cancel.                          (* of a waiting writer *)

Definition pthread_rwlock_init (n : nat) : rwlock := RwLock 0 0 0 None None (replicate n (Idle R_OK)).

Section Steps.
Variable s : rwlock.
Variable i : nat.

Definition goto (p : pc) : rwlock :=
  RwLock (nSharedAccessCount s) (nExclusiveAccessCount s) (nCompletedSharedAccessCount s)
    (mtxExclusiveAccess s) (mtxSharedAccessCompleted s) (<[i := p]> (threads s)).

Definition with_ex (o : option nat) (p : pc) : rwlock :=
  RwLock (nSharedAccessCount s) (nExclusiveAccessCount s) (nCompletedSharedAccessCount s)
    o (mtxSharedAccessCompleted s) (<[i := p]> (threads s)).

Definition with_sh (o : option nat) (p : pc) : rwlock :=
  RwLock (nSharedAccessCount s) (nExclusiveAccessCount s) (nCompletedSharedAccessCount s)
    (mtxExclusiveAccess s) o (<[i := p]> (threads s)).

Definition with_counts (shared exclusive completed : Z) (p : pc) : rwlock :=
  RwLock shared exclusive completed
    (mtxExclusiveAccess s) (mtxSharedAccessCompleted s) (<[i := p]> (threads s)).

(** [Err] is that the thread cannot take this step. *)
Definition blocked : outcome rwlock := Err ENONE.

(** [pthread_mutex_lock], its timed form or [pthread_mutex_trylock]: go on at
    [p] with the mutex, or at [q] with the error. *)
Definition lock_ex (k : kind) (c : choice) (p : pc) (q : rwret -> pc) : outcome rwlock :=
  match c, mtxExclusiveAccess s, k with
  | Go, None, _ => Ok (with_ex (Some i) p)
  | Go, Some _, Try => Ok (goto (q R_EBUSY))
  | Timeout, Some _, Timed => Ok (goto (q R_ETIMEDOUT))
  | _, _, _ => blocked
  end.

Definition lock_sh (k : kind) (c : choice) (p : pc) (q : rwret -> rwlock) : outcome rwlock :=
  match c, mtxSharedAccessCompleted s, k with
  | Go, None, _ => Ok (with_sh (Some i) p)
  | Go, Some _, Try => Ok (q R_EBUSY)
  | Timeout, Some _, Timed => Ok (q R_ETIMEDOUT)
  | _, _, _ => blocked
  end.

(** [++nSharedAccessCount == INT_MAX]; an overflow is a [Fault]. *)
Definition rd_count (k : kind) : outcome rwlock :=
  let shared := nSharedAccessCount s + 1 in
  assert_int shared;;;
  Ok (with_counts shared (nExclusiveAccessCount s) (nCompletedSharedAccessCount s)
        (if shared =? INT_MAX then RdLockSh k else RdUnlockEx R_OK)).

Definition rd_reset : rwlock :=
  with_counts (nSharedAccessCount s - nCompletedSharedAccessCount s) (nExclusiveAccessCount s) 0 RdUnlockSh.

(** What [timedrdlock] does when the second lock times out: it counts itself
    as completed. *)
Definition rd_give_up (r : rwret) : outcome rwlock :=
  let completed := nCompletedSharedAccessCount s + 1 in
  assert_int completed;;;
  Ok (with_counts (nSharedAccessCount s) (nExclusiveAccessCount s) completed (RdUnlockEx r)).

(** The counters once a writer holds both mutexes: up to the wait, or to
    success; [pthread_cond_wait] releases the mutex as it begins. *)
Definition wr_check (k : kind) : rwlock :=
  if nExclusiveAccessCount s =? 0 then
    let done := 0 <? nCompletedSharedAccessCount s in
    let shared := if done then nSharedAccessCount s - nCompletedSharedAccessCount s else nSharedAccessCount s in
    let completed := if done then 0 else nCompletedSharedAccessCount s in
    if 0 <? shared then
      RwLock shared (nExclusiveAccessCount s) (- shared) (mtxExclusiveAccess s) None
        (<[i := WrWait k]> (threads s))
    else with_counts shared (nExclusiveAccessCount s + 1) completed Writing
  else with_counts (nSharedAccessCount s) (nExclusiveAccessCount s + 1) (nCompletedSharedAccessCount s) Writing.

(** The same in [trywrlock], which gives up when there are readers.  (With a
    writer inside it would return with both mutexes held.) *)
Definition trywr_check : rwlock :=
  if nExclusiveAccessCount s =? 0 then
    let done := 0 <? nCompletedSharedAccessCount s in
    let shared := if done then nSharedAccessCount s - nCompletedSharedAccessCount s else nSharedAccessCount s in
    let completed := if done then 0 else nCompletedSharedAccessCount s in
    if 0 <? shared then with_counts shared (nExclusiveAccessCount s) completed (WrUnlockSh R_EBUSY)
    else with_counts shared 1 completed Writing
  else goto (Idle R_EBUSY).

(** [ptw32_rwlock_cancelwrwait], up to the mutexes. *)
Definition cancelwrwait (r : rwret) : rwlock :=
  with_counts (- nCompletedSharedAccessCount s) (nExclusiveAccessCount s) 0 (WrUnlockSh r).

(** After [pthread_cond_wait] returned [r]: the loop, then success or giving
    up. *)
Definition wr_test (k : kind) (r : rwret) : rwlock :=
  if bool_decide (r = R_OK) then
    if nCompletedSharedAccessCount s <? 0 then with_sh None (WrWait k)
    else with_counts 0 (nExclusiveAccessCount s + 1) (nCompletedSharedAccessCount s) Writing
  else cancelwrwait r.

(** [pthread_cond_signal]: a waiting thread is woken. *)
Definition wake (p : pc) : pc := match p with WrWait k => WrWake k R_OK | p => p end.

Definition un_rd_count : outcome rwlock :=
  let completed := nCompletedSharedAccessCount s + 1 in
  assert_int completed;;;
  let ts := <[i := UnRdUnlockSh]> (threads s) in
  Ok (RwLock (nSharedAccessCount s) (nExclusiveAccessCount s) completed
        (mtxExclusiveAccess s) (mtxSharedAccessCompleted s)
        (if completed =? 0 then map wake ts else ts)).

Definition un_test : rwlock := goto (if nExclusiveAccessCount s =? 0 then UnRdLockSh else UnWrCount).

(** [rdlock], [timedrdlock] and [tryrdlock]. *)
Definition rdlock_step (p : pc) (c : choice) : outcome rwlock :=
  match p, c with
  | RdLockEx k, _ => lock_ex k c (RdCount k) Idle
  | RdCount k, Go => rd_count k
  | RdLockSh Timed, Timeout =>
      match mtxSharedAccessCompleted s with Some _ => rd_give_up R_ETIMEDOUT | None => blocked end
  | RdLockSh k, Go => lock_sh Block c RdReset (fun _ => s)
  | RdReset, Go => Ok rd_reset
  | RdUnlockSh, Go => Ok (with_sh None (RdUnlockEx R_OK))
  | RdUnlockEx r, Go => Ok (with_ex None (if bool_decide (r = R_OK) then Reading else Idle r))
  | _, _ => blocked
  end.

(** [wrlock], [timedwrlock] and [trywrlock]. *)
Definition wrlock_step (p : pc) (c : choice) : outcome rwlock :=
  match p, c with
  | WrLockEx k, _ => lock_ex k c (WrLockSh k) Idle
  | WrLockSh k, _ => lock_sh k c (WrCheck k) (fun r => goto (WrUnlockEx r))
  | WrCheck Try, Go => Ok trywr_check
  | WrCheck k, Go => Ok (wr_check k)
  | WrWait k, Spurious => Ok (goto (WrWake k R_OK))
  | WrWait Timed, Timeout => Ok (goto (WrWake Timed R_ETIMEDOUT))
  | WrWait k, Cancel => Ok (goto (WrWake k R_CANCELED))
  | WrWake k r, Go => lock_sh Block c (WrTest k r) (fun _ => s)
  | WrTest k r, Go => Ok (wr_test k r)
  | WrUnlockSh r, Go => Ok (with_sh None (WrUnlockEx r))
  | WrUnlockEx r, Go => Ok (with_ex None (Idle r))
  | _, _ => blocked
  end.

Definition unlock_step (p : pc) (c : choice) : outcome rwlock :=
  match p, c with
  | UnTest _, Go => Ok un_test
  | UnRdLockSh, Go => lock_sh Block c UnRdCount (fun _ => s)
  | UnRdCount, Go => un_rd_count
  | UnRdUnlockSh, Go => Ok (with_sh None (Idle R_OK))
  | UnWrCount, Go =>
      Ok (with_counts (nSharedAccessCount s) (nExclusiveAccessCount s - 1) (nCompletedSharedAccessCount s) UnWrUnlockSh)
  | UnWrUnlockSh, Go => Ok (with_sh None UnWrUnlockEx)
  | UnWrUnlockEx, Go => Ok (with_ex None (Idle R_OK))
  | _, _ => blocked
  end.

(** Thread [i] at [p]. *)
Definition pc_step (p : pc) (c : choice) : outcome rwlock :=
  match p with
  | Idle _ =>
      match c with
      | CallRd k => Ok (goto (RdLockEx k))
      | CallWr k => Ok (goto (WrLockEx k))
      | _ => blocked
      end
  | Reading => match c with Go => Ok (goto (UnTest false)) | _ => blocked end
  | Writing => match c with Go => Ok (goto (UnTest true)) | _ => blocked end
  | RdLockEx _ | RdCount _ | RdLockSh _ | RdReset | RdUnlockSh | RdUnlockEx _ => rdlock_step p c
  | WrLockEx _ | WrLockSh _ | WrCheck _ | WrWait _ | WrWake _ _ | WrTest _ _
  | WrUnlockSh _ | WrUnlockEx _ => wrlock_step p c
  | UnTest _ | UnRdLockSh | UnRdCount | UnRdUnlockSh | UnWrCount | UnWrUnlockSh | UnWrUnlockEx => unlock_step p c
  end.
End Steps.

Definition rw_step (s : rwlock) (i : nat) (c : choice) : outcome rwlock :=
  match threads s !! i with
  | Some p => pc_step s i p c
  | None => Err ENONE
  end.

(** The states that any interleaving of the calls of [n] threads reaches. *)
Inductive reachable (n : nat) : rwlock -> Prop :=
| reach_init : reachable n (pthread_rwlock_init n)
| reach_step s i c s' : reachable n s -> rw_step s i c = Ok s' -> reachable n s'.

(** ** What the program counters say *)

Definition holds_ex (p : pc) : bool :=
  match p with
  | RdCount _ | RdLockSh _ | RdReset | RdUnlockSh | RdUnlockEx _
  | WrLockSh _ | WrCheck _ | WrWait _ | WrWake _ _ | WrTest _ _ | WrUnlockSh _ | WrUnlockEx _
  | Writing | UnTest true | UnWrCount | UnWrUnlockSh | UnWrUnlockEx => true
  | _ => false
  end.

Definition holds_sh (p : pc) : bool :=
  match p with
  | RdReset | RdUnlockSh | WrCheck _ | WrTest _ _ | WrUnlockSh _
  | Writing | UnTest true | UnWrCount | UnWrUnlockSh | UnRdCount | UnRdUnlockSh => true
  | _ => false
  end.

(** A reader that is counted and not yet completed. *)
Definition active (p : pc) : bool :=
  match p with
  | RdLockSh _ | RdReset | RdUnlockSh | RdUnlockEx R_OK | Reading | UnTest false | UnRdLockSh | UnRdCount => true
  | _ => false
  end.

Fixpoint n_active (ts : list pc) : Z :=
  match ts with [] => 0 | p :: ts => Z.b2z (active p) + n_active ts end.

(** [o] is the thread, if any, whose program counter holds the mutex. *)
Definition locks (h : pc -> bool) (ts : list pc) (o : option nat) : Prop :=
  forall j, o = Some j <-> exists p, ts !! j = Some p /\ h p = true.

(** The counters without a writer: the readers are those not completed. *)
Definition normal (s : rwlock) : Prop :=
  0 <= nCompletedSharedAccessCount s /\ nExclusiveAccessCount s = 0 /\ nSharedAccessCount s <= INT_MAX /\
  nSharedAccessCount s = nCompletedSharedAccessCount s + n_active (threads s).

(** While a writer waits, the completed readers count up to zero. *)
Definition waiting (s : rwlock) : Prop :=
  nExclusiveAccessCount s = 0 /\ nCompletedSharedAccessCount s = - n_active (threads s).

Definition writing (s : rwlock) : Prop :=
  n_active (threads s) = 0 /\ nExclusiveAccessCount s = 1 /\ 0 <= nCompletedSharedAccessCount s <= INT_MAX /\
  nSharedAccessCount s = nCompletedSharedAccessCount s.

(** The counters, by what the holder of the exclusive mutex is doing. *)
Definition phase (p : pc) (s : rwlock) : Prop :=
  match p with
  | WrWait _ => waiting s /\ nCompletedSharedAccessCount s < 0
  | WrWake _ _ | WrTest _ _ => waiting s
  | Writing | UnTest true | UnWrCount => writing s
  | _ => normal s
  end.

Record inv (s : rwlock) : Prop := {
  inv_ex : locks holds_ex (threads s) (mtxExclusiveAccess s);
  inv_sh : locks holds_sh (threads s) (mtxSharedAccessCompleted s);
  inv_free : mtxExclusiveAccess s = None -> normal s;
  inv_owned : forall j p, mtxExclusiveAccess s = Some j -> threads s !! j = Some p -> phase p s }.

(** ** Lemmas on the threads *)

Lemma n_active_insert ts i p q :
  ts !! i = Some p -> n_active (<[i := q]> ts) = n_active ts - Z.b2z (active p) + Z.b2z (active q).
Proof.
  revert i. induction ts as [|x ts IH]; intros [|i] Hi; try done.
  - injection Hi as <-. cbn. lia.
  - change (Z.b2z (active x) + n_active (<[i := q]> ts) =
            Z.b2z (active x) + n_active ts - Z.b2z (active p) + Z.b2z (active q)).
    rewrite (IH i Hi). lia.
Qed.

Lemma n_active_bounds ts : 0 <= n_active ts <= zlen ts.
Proof. induction ts as [|p ts IH]; unfold zlen in *; cbn in *; [lia|]. destruct (active p); cbn; lia. Qed.

Lemma n_active_pos ts i p : ts !! i = Some p -> active p = true -> 0 < n_active ts.
Proof.
  revert i. induction ts as [|x ts IH]; intros [|i] Hi Ha; try done; cbn in *; pose proof (n_active_bounds ts).
  - injection Hi as ->. rewrite Ha. cbn. lia.
  - specialize (IH i Hi Ha). destruct (active x); cbn; lia.
Qed.

Lemma n_active_ex ts : 0 < n_active ts -> exists i p, ts !! i = Some p /\ active p = true.
Proof.
  induction ts as [|x ts IH]; cbn; [lia|]. destruct (active x) eqn:E; [by exists 0%nat, x|].
  intros H. destruct IH as (i & p & Hi & Hp); [cbn in H; lia|]. by exists (S i), p.
Qed.

Lemma n_active_wake ts : n_active (map wake ts) = n_active ts.
Proof. induction ts as [|p ts IH]; [done|]. cbn. rewrite IH. by destruct p. Qed.

Lemma locks_insert h ts o o' i p q :
  locks h ts o -> ts !! i = Some p -> (o' = Some i <-> h q = true) ->
  (forall j, j <> i -> o' = Some j <-> o = Some j) -> locks h (<[i := q]> ts) o'.
Proof.
  intros H Hi Hq Ho j. destruct (decide (j = i)) as [->|Hne].
  - rewrite Hq, list_lookup_insert_eq by (by eapply lookup_lt_Some). split; [by exists q|]. intros (x & [= <-] & Hx). done.
  - rewrite Ho, (H j), list_lookup_insert_ne by done. done.
Qed.

Lemma locks_wake h ts o : (forall p, h (wake p) = h p) -> locks h ts o -> locks h (map wake ts) o.
Proof.
  intros Hw H j. rewrite (H j). rewrite list_lookup_fmap. split.
  - intros (p & Hp & Hh). exists (wake p). rewrite Hp, Hw. done.
  - intros (p & Hp & Hh). destruct (ts !! j) as [q|]; [|done]. cbn in Hp. injection Hp as <-. exists q. by rewrite Hw in Hh.
Qed.

Lemma locks_holder h ts o i p : locks h ts o -> ts !! i = Some p -> h p = true -> o = Some i.
Proof. intros H Hi Hp. apply (H i). eauto. Qed.

Lemma locks_not_holder h ts o i p : locks h ts o -> ts !! i = Some p -> h p = false -> o <> Some i.
Proof. intros H Hi Hp Ho. apply (H i) in Ho as (q & Hq & Hh). congruence. Qed.

(** ** The invariant *)

Lemma phase_mono p s s' :
  (normal s -> normal s') -> (waiting s -> waiting s') -> (writing s -> writing s') ->
  (waiting s -> nCompletedSharedAccessCount s < 0 -> nCompletedSharedAccessCount s' < 0) ->
  phase p s -> phase p s'.
Proof. intros H1 H2 H3 H4. destruct p; cbn; try case_match; tauto. Qed.

(** A step of thread [i] from [p] to [q]. *)
Lemma inv_update s s' i p q :
  inv s -> threads s !! i = Some p -> threads s' = <[i := q]> (threads s) ->
  (mtxExclusiveAccess s' = Some i <-> holds_ex q = true) ->
  (forall j, j <> i -> mtxExclusiveAccess s' = Some j <-> mtxExclusiveAccess s = Some j) ->
  (mtxSharedAccessCompleted s' = Some i <-> holds_sh q = true) ->
  (forall j, j <> i -> mtxSharedAccessCompleted s' = Some j <-> mtxSharedAccessCompleted s = Some j) ->
  (mtxExclusiveAccess s' = None -> normal s') ->
  (holds_ex q = true -> phase q s') ->
  (forall j r, j <> i -> threads s !! j = Some r -> mtxExclusiveAccess s = Some j -> phase r s -> phase r s') ->
  inv s'.
Proof.
  intros [I1 I2 I3 I4] Hi Hts Hex Hex' Hsh Hsh' Hn Hq Hr. split; rewrite ?Hts.
  - by eapply locks_insert.
  - by eapply locks_insert.
  - done.
  - intros j r Hj Hjr. destruct (decide (j = i)) as [->|Hne].
    + rewrite list_lookup_insert_eq in Hjr by (by eapply lookup_lt_Some). injection Hjr as <-. apply Hq, Hex, Hj.
    + rewrite list_lookup_insert_ne in Hjr by done. apply Hex' in Hj; [|done]. eapply Hr; eauto.
Qed.

(** The state after the waiting writer was woken. *)
Lemma inv_wake s :
  inv s -> inv (RwLock (nSharedAccessCount s) (nExclusiveAccessCount s) (nCompletedSharedAccessCount s)
                  (mtxExclusiveAccess s) (mtxSharedAccessCompleted s) (map wake (threads s))).
Proof.
  intros [I1 I2 I3 I4]. split; cbn.
  - apply locks_wake; [by intros []|done].
  - apply locks_wake; [by intros []|done].
  - intros H. specialize (I3 H). unfold normal in *. cbn. by rewrite n_active_wake.
  - intros j p Hj Hp. rewrite list_lookup_fmap in Hp. destruct (threads s !! j) as [q|] eqn:E; [|done].
    injection Hp as <-. specialize (I4 j q Hj E).
    assert (Hsame : forall r, phase r s -> phase r (RwLock (nSharedAccessCount s) (nExclusiveAccessCount s)
      (nCompletedSharedAccessCount s) (mtxExclusiveAccess s) (mtxSharedAccessCompleted s) (map wake (threads s)))).
    { intros r. apply phase_mono; unfold normal, waiting, writing; cbn; rewrite ?n_active_wake; tauto. }
    apply Hsame. destruct q; try done. cbn in *. tauto.
Qed.

Ltac count_threads Hi := unfold normal, waiting, writing in *; cbn in *; rewrite ?(n_active_insert _ _ _ _ Hi) in *; cbn in *.

Lemma holder_facts s i p :
  inv s -> threads s !! i = Some p ->
  (if holds_ex p then mtxExclusiveAccess s = Some i /\ phase p s else mtxExclusiveAccess s <> Some i) /\
  (if holds_sh p then mtxSharedAccessCompleted s = Some i else mtxSharedAccessCompleted s <> Some i).
Proof.
  intros I Hi. split.
  - destruct (holds_ex p) eqn:E; [|by eapply locks_not_holder; [apply I|..]].
    pose proof (locks_holder _ _ _ _ _ (inv_ex _ I) Hi E) as Ho. split; [done|]. by eapply inv_owned.
  - destruct (holds_sh p) eqn:E; [|by eapply locks_not_holder; [apply I|..]].
    by eapply locks_holder; [apply I|..].
Qed.

Ltac inv_count Hi :=
  intros; try congruence;
  try match goal with F : None = None -> normal _ |- _ => specialize (F eq_refl) end;
  try match goal with F : ?e = None -> normal _, E : ?e = None |- _ => specialize (F E) end;
  try match goal with |- phase ?r _ => is_var r; eapply phase_mono; [..|eassumption] end;
  count_threads Hi; first [lia | idtac "FAIL"; match goal with |- ?g => idtac g end; fail].

Ltac inv_step I Hi :=
  eapply (inv_update _ _ _ _ _ I Hi); [cbn; reflexivity|..]; cbn;
  [ split; congruence
  | intros; split; congruence
  | split; congruence
  | intros; split; congruence
  | inv_count Hi
  | inv_count Hi
  | inv_count Hi ].

(** The counters in general: no writer, one that waits, or one that writes. *)
Lemma inv_phases s : inv s -> normal s \/ waiting s \/ writing s.
Proof.
  intros I. destruct (mtxExclusiveAccess s) as [j|] eqn:E; [|left; by apply I].
  destruct (proj1 (inv_ex _ I j) E) as (p & Hp & _). pose proof (inv_owned _ I _ _ E Hp) as Hph.
  destruct p; cbn in Hph; try case_match; tauto.
Qed.

Lemma inv_active s i p : inv s -> threads s !! i = Some p -> active p = true -> nExclusiveAccessCount s = 0.
Proof.
  intros I Hi Ha. pose proof (n_active_pos _ _ _ Hi Ha).
  destruct (inv_phases s I) as [H'|[H'|H']]; unfold normal, waiting, writing in H'; lia.
Qed.

(** No counter is past its maximum. *)
Lemma inv_completed s : zlen (threads s) < INT_MAX -> inv s -> nCompletedSharedAccessCount s <= INT_MAX.
Proof.
  intros Hl I. pose proof (n_active_bounds (threads s)).
  destruct (inv_phases s I) as [H'|[H'|H']]; unfold normal, waiting, writing, INT_MAX in *; lia.
Qed.

Lemma rw_step_inv s i c s' : zlen (threads s) < INT_MAX -> inv s -> rw_step s i c = Ok s' -> inv s'.
Proof.
  intros Hlen I Hs. unfold rw_step in Hs. destruct (threads s !! i) as [p|] eqn:Hi; [|done].
  destruct (holder_facts s i p I Hi) as [Fe Fs]. pose proof (n_active_bounds (threads s)) as Hb.
  pose proof (inv_free _ I) as Hfree.
  destruct p as [r| | |k|k|k| | |r|k|k|k|k|k r|k r|r|r|w| | | | | |];
    cbn in Fe, Fs; try destruct Fe as [Fe Fp].
  - (* Idle *) destruct c; try done; injection Hs as <-; inv_step I Hi.
  - (* Reading *) destruct c; try done. injection Hs as <-. inv_step I Hi.
  - (* Writing *) destruct c; try done. injection Hs as <-. inv_step I Hi.
  - (* RdLockEx *) cbn in Hs. unfold lock_ex in Hs. repeat case_match; try done; injection Hs as <-; inv_step I Hi.
  - (* RdCount *) destruct c; try done. cbn in Hs. unfold rd_count, assert_int, cassert in Hs.
    destruct (_ && _) eqn:E; [|done]. cbn [obind] in Hs. injection Hs as <-. zbool.
    destruct (nSharedAccessCount s + 1 =? INT_MAX) eqn:E'; inv_step I Hi.
  - (* RdLockSh *) cbn in Hs. unfold lock_sh, rd_give_up, assert_int, cassert, blocked in Hs.
    repeat case_match; try done; cbn [obind] in Hs; injection Hs as <-; zbool; inv_step I Hi.
  - (* RdReset *) destruct c; try done. injection Hs as <-. inv_step I Hi.
  - (* RdUnlockSh *) destruct c; try done. injection Hs as <-. inv_step I Hi.
  - (* RdUnlockEx *) destruct c; try done. injection Hs as <-. case_bool_decide; destruct r; try done; inv_step I Hi.
  - (* WrLockEx *) cbn in Hs. unfold lock_ex in Hs. repeat case_match; try done; injection Hs as <-; inv_step I Hi.
  - (* WrLockSh *) cbn in Hs. unfold lock_sh in Hs. repeat case_match; try done; injection Hs as <-; inv_step I Hi.
  - (* WrCheck *) destruct c; try (by destruct k). cbn in Hs.
    assert (E : s' = match k with Try => trywr_check s i | _ => wr_check s i k end) by (destruct k; by injection Hs).
    clear Hs. subst s'. unfold wr_check, trywr_check.
    assert (Hex : nExclusiveAccessCount s = 0) by apply Fp. rewrite Hex. cbn.
    destruct (0 <? nCompletedSharedAccessCount s) eqn:E1;
      [destruct (0 <? nSharedAccessCount s - nCompletedSharedAccessCount s) eqn:E2
      |destruct (0 <? nSharedAccessCount s) eqn:E2]; zbool; destruct k; inv_step I Hi.
  - (* WrWait *) destruct k, c; try done; injection Hs as <-; inv_step I Hi.
  - (* WrWake *) destruct c; try done. cbn in Hs. unfold lock_sh in Hs. repeat case_match; try done.
    injection Hs as <-. inv_step I Hi.
  - (* WrTest *) destruct c; try done. injection Hs as <-. unfold wr_test, cancelwrwait. case_bool_decide.
    + destruct (_ <? 0) eqn:E; zbool; inv_step I Hi.
    + inv_step I Hi.
  - (* WrUnlockSh *) destruct c; try done. injection Hs as <-. inv_step I Hi.
  - (* WrUnlockEx *) destruct c; try done. injection Hs as <-. inv_step I Hi.
  - (* UnTest *) destruct c; try done. injection Hs as <-. unfold un_test. destruct w; cbn in Fe, Fs.
    + destruct Fe as [Fe Fp]. rewrite (proj2 (Z.eqb_neq _ 0)) by (unfold writing in Fp; lia). inv_step I Hi.
    + rewrite (proj2 (Z.eqb_eq _ 0)) by (by eapply inv_active). inv_step I Hi.
  - (* UnRdLockSh *) destruct c; try done. cbn in Hs. unfold lock_sh in Hs. repeat case_match; try done.
    injection Hs as <-. inv_step I Hi.
  - (* UnRdCount *) destruct c; try done. cbn in Hs. unfold un_rd_count, assert_int, cassert in Hs.
    destruct (_ && _) eqn:E; [|done]. cbn [obind] in Hs.
    pose proof (n_active_pos _ _ _ Hi eq_refl) as Hpos.
    set (s1 := with_counts s i (nSharedAccessCount s) (nExclusiveAccessCount s) (nCompletedSharedAccessCount s + 1)
                 UnRdUnlockSh).
    destruct (nCompletedSharedAccessCount s + 1 =? 0) eqn:E'; injection Hs as <-; zbool.
    + replace (map wake (<[i := UnRdUnlockSh]> (threads s))) with (<[i := UnRdUnlockSh]> (map wake (threads s)))
        by (symmetry; apply (list_fmap_insert wake)).
      pose proof (inv_wake s I) as I'. set (sw := RwLock _ _ _ _ _ (map wake (threads s))) in I'.
      assert (Hi' : threads sw !! i = Some UnRdCount) by (cbn; by rewrite list_lookup_fmap, Hi).
      clear s1. eapply (inv_update sw _ _ _ _ I' Hi'); [cbn; reflexivity|..]; cbn;
        [split; congruence|done|split; congruence|done| |done|].
      * intros Hn. specialize (Hfree Hn). unfold normal in Hfree. lia.
      * intros j r Hne Hj _. assert (Hr : forall k, r <> WrWait k).
        { intros k ->. rewrite list_lookup_fmap in Hj. by destruct (threads s !! j) as [[]|]. }
        rewrite <- (n_active_wake (threads s)) in *. subst sw. cbn in Hi'.
        destruct r; cbn; try (by destruct (Hr k)); try case_match; count_threads Hi'; lia.
    + change (inv s1). inv_step I Hi.
  - (* UnRdUnlockSh *) destruct c; try done. injection Hs as <-. inv_step I Hi.
  - (* UnWrCount *) destruct c; try done. injection Hs as <-. inv_step I Hi.
  - (* UnWrUnlockSh *) destruct c; try done. injection Hs as <-. inv_step I Hi.
  - (* UnWrUnlockEx *) destruct c; try done. injection Hs as <-. inv_step I Hi.
Qed.

Lemma inv_init n : inv (pthread_rwlock_init n).
Proof.
  assert (Hidle : forall j p, replicate n (Idle R_OK) !! j = Some p -> p = Idle R_OK).
  { intros j p Hp. by apply lookup_replicate in Hp as [-> _]. }
  assert (Hl : forall h, h (Idle R_OK) = false -> locks h (replicate n (Idle R_OK)) None).
  { intros h Hh j. split; [done|]. intros (p & Hp%Hidle & Hp'). congruence. }
  split; cbn; [by apply Hl|by apply Hl| |done]. intros _. unfold normal. cbn.
  assert (H : n_active (replicate n (Idle R_OK)) = 0) by (clear; induction n; [done|by cbn]).
  rewrite H. unfold INT_MAX. lia.
Qed.

Lemma length_wake ts : length (map wake ts) = length ts.
Proof. apply length_map. Qed.

Lemma rw_step_threads s i c s' : rw_step s i c = Ok s' -> length (threads s') = length (threads s).
Proof.
  unfold rw_step. destruct (threads s !! i) as [p|] eqn:Hi; [|done].
  destruct p; cbn; unfold lock_ex, lock_sh, rd_count, rd_give_up, rd_reset, wr_check, trywr_check, wr_test, cancelwrwait, un_test, un_rd_count,
    assert_int, cassert, blocked; intros Hs; repeat case_match; cbn [obind] in Hs; try done; injection Hs as <-; cbn;
    rewrite ?length_map; apply length_insert.
Qed.

Lemma reachable_inv n s :
  reachable n s -> Z.of_nat n < INT_MAX -> inv s /\ length (threads s) = n.
Proof.
  intros H Hn. induction H as [|s i c s' H [IH Hl] Hs]; [split; [apply inv_init|apply length_replicate]|]. split.
  - eapply rw_step_inv; [|done|done]. unfold zlen. by rewrite Hl.
  - rewrite <- Hl. by eapply rw_step_threads.
Qed.

(** ** Progress *)

(** In a call: not outside, and not holding the lock between two calls. *)
Definition in_call (p : pc) : bool :=
  match p with Idle _ | Reading | Writing => false | _ => true end.

Definition can_move (s : rwlock) : Prop :=
  exists i p, threads s !! i = Some p /\ in_call p = true /\ rw_step s i Go <> Err ENONE.

Lemma move_intro s i p : threads s !! i = Some p -> in_call p = true -> pc_step s i p Go <> Err ENONE -> can_move s.
Proof. intros Hi Hc Hm. exists i, p. unfold rw_step. by rewrite Hi. Qed.

Lemma assert_then_ok (x : Z) (s : rwlock) : (_ <- assert_int x;; Ok s) <> Err ENONE.
Proof. unfold assert_int, cassert. by destruct (_ && _). Qed.

(** Whoever holds the inner mutex goes on. *)
Lemma holder_sh_moves s m :
  inv s -> mtxSharedAccessCompleted s = Some m -> threads s !! m <> Some Writing -> can_move s.
Proof.
  intros I Hm Hw. apply (inv_sh _ I) in Hm as (p & Hp & Hh).
  eapply move_intro; [done| |]; destruct p; try done; cbn; try (by destruct writer); try (by destruct k); try apply assert_then_ok.
Qed.

(** A lock of the inner mutex gets through, or its holder goes on. *)
Lemma lock_sh_moves s i p k q r :
  inv s -> threads s !! i = Some p -> in_call p = true -> (forall m, threads s !! m <> Some Writing) ->
  pc_step s i p Go = lock_sh s i k Go q r -> can_move s.
Proof.
  intros I Hi Hc Hw E. destruct (mtxSharedAccessCompleted s) as [m|] eqn:Hm.
  - by eapply holder_sh_moves.
  - eapply move_intro; [done|done|]. rewrite E. unfold lock_sh. by rewrite Hm.
Qed.

Lemma in_call_moves s i p :
  inv s -> threads s !! i = Some p -> in_call p = true ->
  (forall m, threads s !! m <> Some Writing /\ threads s !! m <> Some Reading) -> can_move s.
Proof.
  intros I Hi Hc Hno. assert (Hnw : forall m, threads s !! m <> Some Writing) by apply Hno.
  assert (Hun : forall m pm, threads s !! m = Some pm -> active pm = true -> holds_ex pm = false -> can_move s).
  { intros m pm Hpm Ha He. destruct pm; try done.
    - by destruct (proj2 (Hno m)).
    - by eapply (move_intro s m).
    - by eapply (lock_sh_moves s m).
    - eapply (move_intro s m); [done|done|apply assert_then_ok]. }
  destruct (mtxExclusiveAccess s) as [j|] eqn:Hex.
  - pose proof (proj1 (inv_ex _ I j) Hex) as (pj & Hj & Hh). pose proof (inv_owned _ I _ _ Hex Hj) as Hph.
    destruct pj; try done; try (by eapply (move_intro s j)); try (by eapply (lock_sh_moves s j)).
    + by destruct (Hnw j).
    + eapply (move_intro s j); [done|done|apply assert_then_ok].
    + destruct k; by eapply (lock_sh_moves s j).
    + destruct k; by eapply (move_intro s j).
    + destruct Hph as [[_ Hc'] Hneg]. destruct (n_active_ex (threads s)) as (m & pm & Hpm & Ha); [lia|].
      destruct (holds_ex pm) eqn:He; [|by eapply Hun].
      assert (m = j) as -> by (pose proof (locks_holder _ _ _ _ _ (inv_ex _ I) Hpm He); congruence).
      rewrite Hj in Hpm. by injection Hpm as <-.
  - assert (He : holds_ex p = false).
    { destruct (holds_ex p) eqn:He; [|done]. pose proof (locks_holder _ _ _ _ _ (inv_ex _ I) Hi He). congruence. }
    destruct p; try done; try (by eapply (move_intro s i)); try (by eapply (lock_sh_moves s i)).
    + eapply (move_intro s i); [done|done|]. cbn. unfold lock_ex. by rewrite Hex.
    + eapply (move_intro s i); [done|done|]. cbn. unfold lock_ex. by rewrite Hex.
    + eapply (move_intro s i); [done|done|apply assert_then_ok].
Qed.

(** ** Claims *)

(** C13: readers and writers exclude each other.  In every interleaving of
    locking, trying, timing out, cancelling and unlocking by any number of
    threads below [INT_MAX], when a thread has the lock for writing no other
    has it at all, the exclusive count says whether a writer has it, and the
    shared count less the completed one, or while a writer waits the negated
    completed count, is the number of readers.  The only overflow is that of
    [nSharedAccessCount] in [rdlock] when the count is already at its
    maximum. *)
Theorem rw_mutual_exclusion n s :
  Z.of_nat n < INT_MAX -> reachable n s ->
  (forall i j p, threads s !! i = Some Writing -> threads s !! j = Some p -> p = Writing \/ p = Reading -> i = j) /\
  (forall i, threads s !! i = Some Writing -> nExclusiveAccessCount s = 1) /\
  (forall i, threads s !! i = Some Reading -> nExclusiveAccessCount s = 0) /\
  (normal s \/ waiting s \/ writing s) /\
  (forall i c, rw_step s i c = Fault ->
     nSharedAccessCount s = INT_MAX /\ exists k, threads s !! i = Some (RdCount k)).
Proof.
  intros Hn H. destruct (reachable_inv n s H Hn) as [I Hl].
  assert (Hlen : zlen (threads s) < INT_MAX) by (unfold zlen; lia).
  assert (Hw : forall i, threads s !! i = Some Writing -> mtxExclusiveAccess s = Some i /\ writing s).
  { intros i Hi. pose proof (locks_holder _ _ _ _ _ (inv_ex _ I) Hi eq_refl) as Ho. split; [done|].
    by apply (inv_owned _ I _ _ Ho Hi). }
  split_and!.
  - intros i j p Hi Hj [->| ->].
    + destruct (Hw i Hi) as [E _], (Hw j Hj) as [E' _]. congruence.
    + destruct (Hw i Hi) as [_ [H0 _]]. pose proof (n_active_pos _ _ _ Hj eq_refl). lia.
  - intros i Hi. apply (Hw i Hi).
  - intros i Hi. by eapply inv_active.
  - by apply inv_phases.
  - intros i c Hf. unfold rw_step in Hf. destruct (threads s !! i) as [p|] eqn:Hi; [|done].
    destruct p; destruct c; try done; cbn in Hf;
      unfold lock_ex, lock_sh, rd_give_up, un_rd_count, rd_count, assert_int, cassert, blocked in Hf;
      repeat case_match; try done; cbn [obind] in Hf; try done; zbool;
      match goal with E : _ && _ = false |- _ => apply andb_false_iff in E end;
      pose proof (inv_phases s I) as Hp; pose proof (proj1 (holder_facts s i _ I Hi)) as Hph; cbn in Hph; pose proof (n_active_bounds (threads s)) as Hb;
      try pose proof (n_active_pos _ _ _ Hi eq_refl) as Hpos;
      unfold normal, waiting, writing, INT_MIN, INT_MAX in *; rewrite !Z.leb_gt in *;
      first [lia | split; [lia|by eexists] | exfalso; lia].
Qed.

(** C14: the threads never deadlock.  In every reachable state, when a thread
    is inside one of the calls, some thread inside a call can take its next
    step, without a timeout, a cancellation or a spurious wake-up, unless the
    lock is held by a thread that is outside the calls: no wake-up of a
    waiting writer is lost, and no mutex is held for ever. *)
Theorem rw_no_deadlock n s i p :
  Z.of_nat n < INT_MAX -> reachable n s -> threads s !! i = Some p -> in_call p = true ->
  can_move s \/ exists j, threads s !! j = Some Writing \/ threads s !! j = Some Reading.
Proof.
  intros Hn H Hi Hp. destruct (reachable_inv n s H Hn) as [I _].
  destruct (decide (Exists (fun q => q = Writing \/ q = Reading) (threads s))) as [He|Hne].
  - right. apply list.Exists_exists in He as (q & (j & Hj)%list_elem_of_lookup & Hq). exists j. destruct Hq as [->| ->]; auto.
  - left. eapply in_call_moves; [done|done|done|]. intros m.
    split; intros Hm; apply Hne, list.Exists_exists; eexists; (split; [by eapply list_elem_of_lookup_2|auto]).
Qed.

(** ** Examples *)

(** A sequence of steps. *)
Fixpoint rw_run (s : rwlock) (l : list (nat * choice)) : outcome rwlock :=
  match l with
  | [] => Ok s
  | (i, c) :: l => s <- rw_step s i c;; rw_run s l
  end.

Lemma reachable_run n l : forall s s', reachable n s -> rw_run s l = Ok s' -> reachable n s'.
Proof.
  induction l as [|[i c] l IH]; intros s s' H Hr; cbn in Hr; [by injection Hr as <-|].
  destruct (rw_step s i c) as [s1| | |] eqn:E; try done. cbn in Hr. eapply IH; [|done]. by eapply reach_step.
Qed.

(** Thread 0 reads, thread 1 waits to write, thread 2 waits behind it; then
    thread 0 unlocks and thread 1 writes. *)
Definition rw_wait_ex : list (nat * choice) :=
  [(0, CallRd Block); (0, Go); (0, Go); (0, Go); (1, CallWr Block); (1, Go); (1, Go); (1, Go); (2, CallRd Block)]%nat.

Definition rw_write_ex : list (nat * choice) :=
  rw_wait_ex ++ [(0, Go); (0, Go); (0, Go); (0, Go); (0, Go); (1, Go); (1, Go)]%nat.

Definition run_ex (l : list (nat * choice)) : rwlock :=
  match rw_run (pthread_rwlock_init 3) l with Ok s => s | _ => pthread_rwlock_init 3 end.

Example rw_wait_threads : threads (run_ex rw_wait_ex) = [Reading; WrWait Block; RdLockEx Block].
Proof. reflexivity. Qed.

Example rw_write_threads : threads (run_ex rw_write_ex) = [Idle R_OK; Writing; RdLockEx Block].
Proof. reflexivity. Qed.

Lemma rw_wait_reachable : reachable 3 (run_ex rw_wait_ex).
Proof. eapply (reachable_run 3 rw_wait_ex); [apply reach_init|reflexivity]. Qed.

Lemma rw_write_reachable : reachable 3 (run_ex rw_write_ex).
Proof. eapply (reachable_run 3 rw_write_ex); [apply reach_init|reflexivity]. Qed.

Lemma rw_mutual_exclusion_witness :
  threads (run_ex rw_write_ex) = [Idle R_OK; Writing; RdLockEx Block] /\
  nExclusiveAccessCount (run_ex rw_write_ex) = 1.
Proof.
  split; [reflexivity|].
  apply (proj1 (proj2 (rw_mutual_exclusion 3 _ ltac:(reflexivity) rw_write_reachable)) 1%nat). reflexivity.
Defined.

Lemma rw_no_deadlock_witness :
  threads (run_ex rw_wait_ex) = [Reading; WrWait Block; RdLockEx Block] /\
  (can_move (run_ex rw_wait_ex) \/
   exists j, threads (run_ex rw_wait_ex) !! j = Some Writing \/ threads (run_ex rw_wait_ex) !! j = Some Reading).
Proof.
  split; [reflexivity|].
  apply (rw_no_deadlock 3 _ 1 (WrWait Block) ltac:(reflexivity) rw_wait_reachable); reflexivity.
Defined.

(** ** The overflow *)

(** A thread locks for reading and unlocks: both counts grow. *)
Definition rd_cycle : list (nat * choice) :=
  [(0, CallRd Block); (0, Go); (0, Go); (0, Go); (0, Go); (0, Go); (0, Go); (0, Go); (0, Go)]%nat.

Definition counted (k : Z) (ts : list pc) : rwlock := RwLock k 0 k None None ts.

Lemma rd_cycle_run k :
  0 <= k < INT_MAX - 1 ->
  rw_run (counted k [Idle R_OK; Idle R_OK]) rd_cycle = Ok (counted (k + 1) [Idle R_OK; Idle R_OK]).
Proof.
  intros Hk. unfold rd_cycle, counted.
  assert (E : assert_int (k + 1) = Ok tt) by (apply assert_int_ok; unfold INT_MIN, INT_MAX in *; lia).
  pose proof (proj2 (Z.eqb_neq (k + 1) INT_MAX) ltac:(lia)) as E1.
  pose proof (proj2 (Z.eqb_neq (k + 1) 0) ltac:(lia)) as E2.
  unfold rw_run, rw_step.
  do 12 (cbn -[Z.add Z.eqb assert_int INT_MAX]; change (bool_decide (R_OK = R_OK)) with true;
         change (0 =? 0) with true; unfold rd_count, un_rd_count, un_test; rewrite ?E; cbn [obind]; rewrite ?E1, ?E2).
  reflexivity.
Qed.

Lemma rd_cycles (k : nat) : Z.of_nat k < INT_MAX -> reachable 2 (counted (Z.of_nat k) [Idle R_OK; Idle R_OK]).
Proof.
  induction k as [|k IH]; intros Hk; [apply (reach_init 2)|]. rewrite Nat2Z.inj_succ, <- Z.add_1_r.
  eapply reachable_run; [apply IH; lia|apply rd_cycle_run; lia].
Qed.

(** When [timedrdlock] times out at the second mutex it leaves the count at
    its maximum; the next reader increments it. *)
Definition overflow_run : list (nat * choice) :=
  [(0, CallRd Block); (0, Go); (0, Go); (0, Go); (0, Go); (0, Go); (0, Go);
   (1, CallRd Timed); (1, Go); (1, Go); (1, Timeout); (1, Go); (1, CallRd Block); (1, Go)]%nat.

Lemma timedrdlock_overflow :
  exists s, reachable 2 s /\ rw_step s 1 Go = Fault.
Proof.
  pose proof (rd_cycles (Z.to_nat (INT_MAX - 2)) ltac:(unfold INT_MAX; lia)) as H.
  rewrite Z2Nat.id in H by (unfold INT_MAX; lia).
  destruct (rw_run (counted (INT_MAX - 2) [Idle R_OK; Idle R_OK]) overflow_run) as [s| | |] eqn:E;
    try (vm_compute in E; discriminate E).
  exists s. split; [by eapply reachable_run|]. vm_compute in E. injection E as <-. vm_compute. reflexivity.
Qed.
