(* ===== verification/McsLock.v ===== *)
(** * pthreads: the MCS queue lock

    wrappers/win32/pthreads/ptw32_MCS_lock.c: [ptw32_mcs_lock_acquire],
    [ptw32_mcs_lock_try_acquire] and [ptw32_mcs_lock_release] with the flags
    they wait on, for any number of threads.  A thread's use of the lock, from
    the call that acquires it to the return of the call that releases it, goes
    with a node; the state has for every node its fields and how far its user
    is.  A step is one access to shared memory: every interlocked operation,
    every plain read or write of a field of another thread's node, and every
    event operation; an event that is created but not stored is closed at
    once.  A node stays in memory when its user has left, for its successor may
    still write to it; [start] says whether it may then be used again, as the
    nodes on the stacks of the callers are.

    [ptw32_mcs_node_transfer] is not modelled.  The theorems are in
    McsFifo.v. *)
From Stdlib Require Import ZArith Lia List Bool.
From stdpp Require Import base tactics list numbers gmap.
From S2P Require Import Prelude.
Local Open Scope c_scope.

(** A [HANDLE] used as a flag: 0, -1 or an event. *)
Inductive flag : Type := F0 | FSet | FEvent (e : nat).

(** How far the user of a node is: the access it makes next.  [pred] and
    [next] are its local variables of these names. *)
Inductive mcs_pc : Type :=
| AcqXchg                    (* exchange of the lock *)
| TryCas                     (* the same of try_acquire *)
| AcqLink (pred : nat)       (* pred->next = node *)
| AcqSetNext (pred : nat)    (* flag_set(&pred->nextFlag): compare and exchange *)
| AcqSetEvent (e : nat)      (* SetEvent *)
| AcqWaitRd                  (* flag_wait(&node->readyFlag): read *)
| AcqWaitCas                 (* CreateEvent, compare and exchange *)
| AcqBlocked (e : nat)       (* WaitForSingleObject, CloseHandle *)
| Held
| RelRead                    (* next = node->next *)
| RelCas                     (* compare and exchange of the lock *)
| RelWaitRd                  (* flag_wait(&node->nextFlag) *)
| RelWaitCas
| RelBlocked (e : nat)
| RelNext                    (* next = node->next again *)
| RelPass (next : option nat) (* flag_set(&next->readyFlag) *)
| RelSetEvent (e : nat)
| Done.

Record cell := Cell {
  stage : mcs_pc;
  next : option nat;
  readyFlag : flag;
  nextFlag : flag }.

(** [lock] is the tail of the queue; [events] are the open events with
    whether they are set, below [n_events]. *)
Record mcs := Mcs {
  lock : option nat;
  cells : gmap nat cell;
  events : gmap nat bool;
  n_events : nat }.

Definition mcs_init : mcs := Mcs None ∅ ∅ 0.

Definition set_pc (c : cell) (p : mcs_pc) : cell := Cell p (next c) (readyFlag c) (nextFlag c).
Definition set_cell_next (c : cell) (x : option nat) : cell := Cell (stage c) x (readyFlag c) (nextFlag c).
Definition set_ready (c : cell) (f : flag) : cell := Cell (stage c) (next c) f (nextFlag c).
Definition set_nextf (c : cell) (f : flag) : cell := Cell (stage c) (next c) (readyFlag c) f.

Definition with_cells (s : mcs) (m : gmap nat cell) : mcs := Mcs (lock s) m (events s) (n_events s).

(** A node of another thread; there is none at a null pointer. *)
Definition cell_at (s : mcs) (n : option nat) : outcome (nat * cell) :=
  match n with
  | None => Fault
  | Some n => match cells s !! n with Some c => Ok (n, c) | None => Fault end
  end.

(** [ptw32_mcs_flag_set]: the new value, and the event to set. *)
Definition flag_set (f : flag) : flag * option nat :=
  match f with
  | F0 => (FSet, None)
  | FSet => (FSet, None)         (* SetEvent of -1, which does nothing *)
  | FEvent e => (FEvent e, Some e)
  end.

Definition SetEvent (s : mcs) (e : nat) : outcome mcs :=
  match events s !! e with
  | Some _ => Ok (Mcs (lock s) (cells s) (<[e := true]> (events s)) (n_events s))
  | None => Fault
  end.

Section Step.
Variable s : mcs.
Variable n : nat.
Variable c : cell.

Definition mcs_goto (p : mcs_pc) : mcs := with_cells s (<[n := set_pc c p]> (cells s)).

Definition mcs_blocked : outcome mcs := Err ENONE.

(** [ptw32_mcs_flag_wait] on [f]: its read; the exchange that stores an event
    in the flag; and the wait. *)
Definition flag_wait_read (f : flag) (set unset : mcs_pc) : mcs :=
  mcs_goto (match f with F0 => unset | _ => set end).

Definition flag_wait_cas (f : flag) (store : flag -> cell) (set : mcs_pc) (wait : nat -> mcs_pc) : mcs :=
  match f with
  | F0 =>
      let e := n_events s in
      Mcs (lock s) (<[n := set_pc (store (FEvent e)) (wait e)]> (cells s)) (<[e := false]> (events s)) (S e)
  | _ => mcs_goto set
  end.

Definition flag_wait_block (e : nat) (set : mcs_pc) : outcome mcs :=
  match events s !! e with
  | Some true => Ok (Mcs (lock s) (<[n := set_pc c set]> (cells s)) (delete e (events s)) (n_events s))
  | Some false => mcs_blocked
  | None => Fault
  end.

Definition mcs_lock_acquire : outcome mcs :=
  match stage c with
  | AcqXchg =>
      Ok (Mcs (Some n) (<[n := set_pc c (match lock s with None => Held | Some pred => AcqLink pred end)]> (cells s))
            (events s) (n_events s))
  | AcqLink pred =>
      let! (pred, cp) := cell_at s (Some pred) in
      Ok (with_cells s (<[n := set_pc c (AcqSetNext pred)]> (<[pred := set_cell_next cp (Some n)]> (cells s))))
  | AcqSetNext pred =>
      let! (pred, cp) := cell_at s (Some pred) in
      let '(f, e) := flag_set (nextFlag cp) in
      Ok (with_cells s (<[n := set_pc c (match e with Some e => AcqSetEvent e | None => AcqWaitRd end)]>
                         (<[pred := set_nextf cp f]> (cells s))))
  | AcqSetEvent e => SetEvent (mcs_goto AcqWaitRd) e
  | AcqWaitRd => Ok (flag_wait_read (readyFlag c) Held AcqWaitCas)
  | AcqWaitCas => Ok (flag_wait_cas (readyFlag c) (set_ready c) Held AcqBlocked)
  | AcqBlocked e => flag_wait_block e Held
  | _ => mcs_blocked
  end.

(** 0, or EBUSY and the node is done. *)
Definition mcs_lock_try_acquire : outcome mcs :=
  match stage c with
  | TryCas =>
      Ok (match lock s with
          | None => Mcs (Some n) (<[n := set_pc c Held]> (cells s)) (events s) (n_events s)
          | Some _ => mcs_goto Done
          end)
  | _ => mcs_blocked
  end.

Definition mcs_lock_release : outcome mcs :=
  match stage c with
  | Held => Ok (mcs_goto RelRead)
  | RelRead => Ok (mcs_goto (match next c with Some m => RelPass (Some m) | None => RelCas end))
  | RelCas =>
      Ok (if bool_decide (lock s = Some n)
          then Mcs None (<[n := set_pc c Done]> (cells s)) (events s) (n_events s)
          else mcs_goto RelWaitRd)
  | RelWaitRd => Ok (flag_wait_read (nextFlag c) RelNext RelWaitCas)
  | RelWaitCas => Ok (flag_wait_cas (nextFlag c) (set_nextf c) RelNext RelBlocked)
  | RelBlocked e => flag_wait_block e RelNext
  | RelNext => Ok (mcs_goto (RelPass (next c)))
  | RelPass m =>
      let! (m, cm) := cell_at s m in
      let '(f, e) := flag_set (readyFlag cm) in
      Ok (with_cells s (<[n := set_pc c (match e with Some e => RelSetEvent e | None => Done end)]>
                         (<[m := set_ready cm f]> (cells s))))
  | RelSetEvent e => SetEvent (mcs_goto Done) e
  | _ => mcs_blocked
  end.

(** The next access of the user of [n]. *)
Definition cell_step : outcome mcs :=
  match stage c with
  | Done => mcs_blocked
  | TryCas => mcs_lock_try_acquire
  | AcqXchg | AcqLink _ | AcqSetNext _ | AcqSetEvent _ | AcqWaitRd | AcqWaitCas | AcqBlocked _ => mcs_lock_acquire
  | Held | RelRead | RelCas | RelWaitRd | RelWaitCas | RelBlocked _ | RelNext | RelPass _
  | RelSetEvent _ => mcs_lock_release
  end.
End Step.

Definition mcs_step (s : mcs) (n : nat) : outcome mcs :=
  match cells s !! n with Some c => cell_step s n c | None => Err ENONE end.

(** A call that acquires the lock with node [n] initialises its fields; [again]
    is that a node may have been used before. *)
Definition start (again try : bool) (s : mcs) (n : nat) : outcome mcs :=
  let c := Cell (if try then TryCas else AcqXchg) None F0 F0 in
  let s' := with_cells s (<[n := c]> (cells s)) in
  match cells s !! n with
  | None => Ok s'
  | Some c => match stage c with Done => if again then Ok s' else Err ENONE | _ => Err ENONE end
  end.

(** Whether the next access of the user of [n] puts it in the queue, or takes
    it out. *)
Definition arrives (s : mcs) (c : cell) : bool :=
  match stage c with
  | AcqXchg => true
  | TryCas => bool_decide (lock s = None)
  | _ => false
  end.

Definition leaves (s : mcs) (n : nat) (c : cell) : bool :=
  match stage c with
  | RelCas => bool_decide (lock s = Some n)
  | RelPass _ => true
  | _ => false
  end.

(** The runs, with the nodes in the order of their arrival and in that of their
    departure. *)
Inductive mcs_run (again : bool) : mcs -> list nat -> list nat -> Prop :=
| mcs_run_init : mcs_run again mcs_init [] []
| mcs_run_start s arr dep try n s' :
    mcs_run again s arr dep -> start again try s n = Ok s' -> mcs_run again s' arr dep
| mcs_run_step s arr dep n c s' :
    mcs_run again s arr dep -> cells s !! n = Some c -> mcs_step s n = Ok s' ->
    mcs_run again s' (if arrives s c then arr ++ [n] else arr) (if leaves s n c then dep ++ [n] else dep).

(** What is left to do for a node; and for all of them. *)
Definition pc_rank (p : mcs_pc) : nat :=
  match p with
  | AcqXchg => 17 | TryCas => 16 | AcqLink _ => 16 | AcqSetNext _ => 15 | AcqSetEvent _ => 14 | AcqWaitRd => 13
  | AcqWaitCas => 12 | AcqBlocked _ => 11 | Held => 10 | RelRead => 9 | RelCas => 8 | RelWaitRd => 7
  | RelWaitCas => 6 | RelBlocked _ => 5 | RelNext => 4 | RelPass _ => 3 | RelSetEvent _ => 2 | Done => 0
  end.

Definition rank (P : gmap nat mcs_pc) : nat := sum_list (pc_rank ∘ snd <$> map_to_list P).
