(* ===== verification/McsFifo.v ===== *)
(** * The MCS queue lock is a fair lock

    The invariant of the runs of McsLock.v with nodes that are used once: the
    nodes whose users have arrived and not left form a queue, and the fields of
    each node and the events agree with how far its user and that of the node
    behind it are.  From it: the nodes own the lock in the order of their
    arrival and one at a time, nothing faults, nobody is left waiting, and
    every event is closed.  The last theorem is a run with nodes that are used
    again which faults. *)
From Stdlib Require Import ZArith Lia List Bool.
From stdpp Require Import base tactics list numbers gmap.
From S2P Require Import Prelude McsLock.
Local Open Scope c_scope.

(** ** The queue of the nodes *)

(** Where a node is in the queue. *)
Definition queued (p : mcs_pc) : bool :=
  match p with
  | AcqXchg | TryCas | RelSetEvent _ | Done => false
  | _ => true
  end.

(** Its user has the lock. *)
Definition owning (p : mcs_pc) : bool :=
  match p with
  | Held | RelRead | RelCas | RelWaitRd | RelWaitCas | RelBlocked _ | RelNext | RelPass _ => true
  | _ => false
  end.

Definition blocked_on (p : mcs_pc) : option nat :=
  match p with
  | AcqBlocked e | RelBlocked e => Some e
  | _ => None
  end.

(** The successor has not yet set [nextFlag], or it has. *)
Definition next_unset (ev : gmap nat bool) (c : cell) : Prop :=
  match stage c with RelBlocked e => ev !! e = Some false | _ => nextFlag c = F0 end.

Definition next_set (ev : gmap nat bool) (c : cell) : Prop :=
  nextFlag c <> F0 /\ match stage c with RelBlocked e => ev !! e = Some true | _ => True end.

(** A node by itself. *)
Definition cell_ok (c : cell) : Prop :=
  match stage c with
  | AcqXchg | TryCas => next c = None /\ readyFlag c = F0 /\ nextFlag c = F0
  | AcqBlocked e => readyFlag c = FEvent e
  | RelBlocked e => nextFlag c = FEvent e
  | RelNext => nextFlag c <> F0
  | RelPass m => next c = m /\ is_Some m
  | _ => True
  end.

(** A node [a] and the one behind it. *)
Definition pair_ok (ev : gmap nat bool) (a : nat) (ca : cell) (b : nat) (cb : cell) : Prop :=
  match stage cb with
  | AcqLink a' => a' = a /\ next ca = None /\ next_unset ev ca /\ readyFlag cb = F0
  | AcqSetNext a' => a' = a /\ next ca = Some b /\ next_unset ev ca /\ readyFlag cb = F0
  | AcqSetEvent e => next ca = Some b /\ stage ca = RelBlocked e /\ ev !! e = Some false /\ readyFlag cb = F0
  | AcqWaitRd | AcqWaitCas => next ca = Some b /\ next_set ev ca /\ readyFlag cb = F0
  | AcqBlocked e => next ca = Some b /\ next_set ev ca /\ ev !! e = Some false
  | _ => False
  end.

(** The first node. *)
Definition head_ok (s : mcs) (c : cell) : Prop :=
  match stage c with
  | AcqSetNext a =>
      readyFlag c = FSet /\ exists ca, cells s !! a = Some ca /\ stage ca = Done /\ nextFlag ca = F0
  | AcqWaitRd | AcqWaitCas => readyFlag c = FSet
  | AcqBlocked e =>
      events s !! e = Some true \/
      events s !! e = Some false /\ exists m cm, cells s !! m = Some cm /\ stage cm = RelSetEvent e
  | AcqLink _ | AcqSetEvent _ => False
  | _ => True
  end.

(** The last node. *)
Definition last_ok (c : cell) : Prop :=
  next c = None /\ nextFlag c = F0 /\
  match stage c with RelWaitRd | RelWaitCas | RelBlocked _ | RelNext | RelPass _ => False | _ => True end.

Definition adj (q : list nat) (a b : nat) : Prop := exists i, q !! i = Some a /\ q !! S i = Some b.

Notation pcs := (gmap nat mcs_pc).

Definition points (m : gmap nat cell) : pcs := stage <$> m.
Arguments points : simpl never.

(** The queue. *)
Record queue_inv (tail : option nat) (P : pcs) (q : list nat) : Prop := QueueInv {
  q_nodup : NoDup q;
  q_lock : tail = last q;
  q_in : forall n, n ∈ q <-> exists p, P !! n = Some p /\ queued p = true }.

(** The events: each is open while one thread waits for it, and at most one
    thread is about to set one, that of the first of the queue [h]. *)
Record waits_inv (P : pcs) (ev : gmap nat bool) (ne : nat) (h : option nat) : Prop := WaitsInv {
  w_set : forall m e, P !! m = Some (RelSetEvent e) ->
    exists h', h = Some h' /\ P !! h' = Some (AcqBlocked e) /\ ev !! e = Some false;
  w_set1 : forall m e m' e', P !! m = Some (RelSetEvent e) -> P !! m' = Some (RelSetEvent e') -> m = m';
  w_distinct : forall n n' e, P !! n ≫= blocked_on = Some e -> P !! n' ≫= blocked_on = Some e -> n = n';
  w_waited : forall e, is_Some (ev !! e) <-> exists n, P !! n ≫= blocked_on = Some e;
  w_fresh : forall e, is_Some (ev !! e) -> (e < ne)%nat }.

Record mcs_inv (s : mcs) (q : list nat) : Prop := McsInv {
  inv_queue : queue_inv (lock s) (points (cells s)) q;
  inv_waits : waits_inv (points (cells s)) (events s) (n_events s) (head q);
  inv_cell : forall n c, cells s !! n = Some c -> cell_ok c;
  inv_pair : forall a b ca cb, adj q a b -> cells s !! a = Some ca -> cells s !! b = Some cb ->
    pair_ok (events s) a ca b cb;
  inv_head : forall h c, head q = Some h -> cells s !! h = Some c -> head_ok s c;
  inv_last : forall z c, last q = Some z -> cells s !! z = Some c -> last_ok c }.

(** A node whose fields its user does not touch again. *)
Definition settled (p : mcs_pc) : bool :=
  match p with RelSetEvent _ | Done => true | _ => false end.

Definition is_relset (p : mcs_pc) : bool := match p with RelSetEvent _ => true | _ => false end.

Definition is_relblocked (p : mcs_pc) : bool := match p with RelBlocked _ => true | _ => false end.

(** ** Lists *)

Lemma adj_inj q a a' b : NoDup q -> adj q a b -> adj q a' b -> a = a'.
Proof.
  intros ND [i [A B]] [j [A' B']].
  assert (S i = S j) by (eapply NoDup_lookup; eauto). congruence.
Qed.

Lemma adj_fun q a b b' : NoDup q -> adj q a b -> adj q a b' -> b = b'.
Proof.
  intros ND [i [A B]] [j [A' B']].
  assert (i = j) by (eapply NoDup_lookup; eauto). congruence.
Qed.

Lemma adj_in q a b : adj q a b -> a ∈ q /\ b ∈ q.
Proof. intros [i [A B]]. split; eapply list_elem_of_lookup_2; eauto. Qed.

Lemma adj_neq q a b : NoDup q -> adj q a b -> a <> b.
Proof. intros ND [i [A B]] ->. assert (i = S i) by (eapply NoDup_lookup; eauto). lia. Qed.

Lemma head_lookup0 {A} (q : list A) : head q = q !! 0%nat.
Proof. by destruct q. Qed.

Lemma adj_not_head q a b : NoDup q -> adj q a b -> head q = Some b -> False.
Proof.
  rewrite head_lookup0. intros ND [i [A B]] H.
  assert (S i = 0%nat) by (eapply NoDup_lookup; eauto). lia.
Qed.

Lemma adj_not_last q a b : NoDup q -> adj q a b -> last q = Some a -> False.
Proof.
  rewrite last_lookup. intros ND [i [A B]] H.
  assert (i = Nat.pred (length q)) by (eapply NoDup_lookup; eauto).
  apply lookup_lt_Some in B. lia.
Qed.

Lemma in_head_or_adj q b : b ∈ q -> head q = Some b \/ exists a, adj q a b.
Proof.
  intros [i H]%list_elem_of_lookup. destruct i as [|i]; [left; by rewrite head_lookup0|right].
  destruct (lookup_lt_is_Some_2 q i) as [a A]; [apply lookup_lt_Some in H; lia|].
  by exists a, i.
Qed.

Lemma in_last_or_adj q a : a ∈ q -> last q = Some a \/ exists b, adj q a b.
Proof.
  intros [i H]%list_elem_of_lookup. destruct (q !! S i) as [b|] eqn:B.
  - right. by exists b, i.
  - left. rewrite last_lookup. apply lookup_ge_None in B. apply lookup_lt_Some in H as H'.
    by replace (Nat.pred (length q)) with i by lia.
Qed.

Lemma adj_snoc q n a b : adj (q ++ [n]) a b -> adj q a b \/ last q = Some a /\ b = n.
Proof.
  intros [i [A B]]. destruct (decide (S i < length q)%nat) as [L|L].
  - left. exists i. rewrite lookup_app_l in A by lia. by rewrite lookup_app_l in B by lia.
  - right. apply lookup_lt_Some in B as B'. rewrite length_app in B'. cbn in B'.
    rewrite lookup_app_l in A by lia. rewrite lookup_app_r in B by lia.
    replace (S i - length q)%nat with 0%nat in B by lia. cbn in B.
    rewrite last_lookup. replace (Nat.pred (length q)) with i by lia. split; congruence.
Qed.

Lemma adj_tail h q a b : adj q a b -> adj (h :: q) a b.
Proof. intros [i [A B]]. by exists (S i). Qed.

Lemma adj_cons2 h b q : adj (h :: b :: q) h b.
Proof. by exists 0%nat. Qed.

(** ** Steps that keep the invariant *)

(** One or two points of an updated map. *)
Ltac at_point m n := destruct (decide (m = n)); simplify_map_eq; try done; try congruence.

Ltac at_points m m' n :=
  destruct (decide (m = n)), (decide (m' = n)); simplify_map_eq; eauto; try congruence;
  try (by intros [= ->] || intros ? [= ->]).

Lemma settled_queued p : settled p = true -> queued p = true -> False.
Proof. by destruct p. Qed.

Lemma head_ok_mono s s' c :
  (forall m cm, cells s !! m = Some cm -> settled (stage cm) = true -> cells s' !! m = Some cm) ->
  (forall e, stage c = AcqBlocked e -> events s' !! e = events s !! e) ->
  head_ok s c -> head_ok s' c.
Proof.
  intros M E. unfold head_ok. destruct (stage c) eqn:P; try done.
  - intros [R (ca & A & D & F)]. split; [done|]. exists ca. split_and!; try done. apply M; [done|by rewrite D].
  - rewrite E by done. intros [T|[T (m & cm & C & D)]]; [by left|right; split; [done|]].
    exists m, cm. split; [|done]. apply M; [done|by rewrite D].
Qed.

(** Two nodes, as far as they do not change. *)
Lemma pair_left ev a c b cb p :
  is_relblocked (stage c) = false -> is_relblocked p = false ->
  pair_ok ev a c b cb -> pair_ok ev a (set_pc c p) b cb.
Proof.
  intros P P' H. unfold pair_ok, next_unset, next_set in *. cbn.
  destruct (stage cb); try done; destruct (stage c), p; try done; naive_solver.
Qed.

(** *** The queue and the events *)

Section Points.
Variables (P : pcs) (n : nat) (p p' : mcs_pc).
Hypothesis Pn : P !! n = Some p.

Lemma queue_move t q : queued p' = queued p -> queue_inv t P q -> queue_inv t (<[n := p']> P) q.
Proof.
  intros E [ND L IN]. split; [done|done|]. intros m. rewrite IN. destruct (decide (m = n)) as [->|N].
  - rewrite lookup_insert_eq, Pn. split; intros (x & [= <-] & Q); eexists; split; eauto; congruence.
  - by rewrite lookup_insert_ne.
Qed.

Lemma queue_push t q : queued p = false -> queued p' = true -> queue_inv t P q ->
  queue_inv (Some n) (<[n := p']> P) (q ++ [n]).
Proof.
  intros E E' [ND L IN].
  assert (NI : n ∉ q) by (rewrite IN, Pn; naive_solver congruence).
  split.
  - apply NoDup_app. split_and!; [done| |apply NoDup_singleton].
    intros x X ->%list_elem_of_singleton. done.
  - by rewrite last_snoc.
  - intros m. rewrite elem_of_app, list_elem_of_singleton, IN. destruct (decide (m = n)) as [->|N].
    + rewrite lookup_insert_eq. split; [eauto|by right].
    + rewrite lookup_insert_ne by done. split; [intros [H|H]; done || by destruct N|by left].
Qed.

Lemma queue_pop t q : queued p' = false -> queue_inv t P (n :: q) -> queue_inv (last q) (<[n := p']> P) q.
Proof.
  intros E [ND L IN]. apply NoDup_cons in ND as [NI ND]. split; [done|done|].
  intros m. destruct (decide (m = n)) as [->|N].
  - rewrite lookup_insert_eq. naive_solver congruence.
  - rewrite lookup_insert_ne, <- IN, elem_of_cons by done. naive_solver.
Qed.

(** A move that has nothing to do with events. *)
Lemma waits_move ev ne h :
  blocked_on p = None -> blocked_on p' = None -> is_relset p = false -> is_relset p' = false ->
  waits_inv P ev ne h -> waits_inv (<[n := p']> P) ev ne h.
Proof.
  intros B B' S S' [SE S1 DI WA FR]. split; try done.
  - intros m e. destruct (decide (m = n)) as [->|N]; simplify_map_eq; [by intros [= ->]|].
    intros M. destruct (SE m e M) as (h' & H & A & E). exists h'. split_and!; try done.
    destruct (decide (h' = n)) as [->|]; simplify_map_eq; done.
  - intros m e m' e'. at_points m m' n.
  - intros m m' e. at_points m m' n.
  - intros e. rewrite WA. split; intros [m M]; exists m; at_point m n.
Qed.

(** A thread starts to wait for a new event. *)
Lemma waits_create ev ne h :
  blocked_on p = None -> blocked_on p' = Some ne -> is_relset p = false -> is_relset p' = false ->
  waits_inv P ev ne h -> waits_inv (<[n := p']> P) (<[ne := false]> ev) (S ne) h.
Proof.
  intros B B' S S' [SE S1 DI WA FR].
  assert (NE : ev !! ne = None).
  { destruct (ev !! ne) eqn:E; [|done]. assert (ne < ne)%nat by (apply FR; eauto). lia. }
  assert (NW : forall m, P !! m ≫= blocked_on <> Some ne).
  { intros m M. assert (is_Some (ev !! ne)) as [v V] by (apply WA; eauto). congruence. }
  split.
  - intros m e. destruct (decide (m = n)) as [->|N]; simplify_map_eq; [by intros [= ->]|].
    intros M. destruct (SE m e M) as (h' & H & A & E). exists h'.
    destruct (decide (h' = n)) as [->|]; simplify_map_eq; try done.
  - intros m e m' e'. at_points m m' n.
  - intros m m' e. destruct (decide (m = n)), (decide (m' = n)); simplify_map_eq; eauto; intros X Y; exfalso; first [apply (NW m); congruence|apply (NW m'); congruence].
  - intros e. destruct (decide (e = ne)) as [->|Ne]; simplify_map_eq.
    + split; [|eauto]. intros _. exists n. by simplify_map_eq.
    + rewrite WA. split; intros [m M]; exists m; at_point m n.
  - intros e. destruct (decide (e = ne)) as [->|Ne]; simplify_map_eq; [lia|]. intros H%FR. lia.
Qed.

(** It is woken, and closes the event. *)
Lemma waits_wake e ev ne h :
  blocked_on p = Some e -> blocked_on p' = None -> is_relset p' = false -> ev !! e = Some true ->
  waits_inv P ev ne h -> waits_inv (<[n := p']> P) (delete e ev) ne h.
Proof.
  intros B B' S' T [SE S1 DI WA FR].
  assert (NS : is_relset p = false) by by destruct p.
  assert (NW : forall m, m <> n -> P !! m ≫= blocked_on <> Some e).
  { intros m N M. apply N, (DI m n e M). by simplify_map_eq. }
  split.
  - intros m e0. destruct (decide (m = n)) as [->|N]; simplify_map_eq; [by intros [= ->]|].
    intros M. destruct (SE m e0 M) as (h' & H & A & E). exists h'.
    assert (e0 <> e) by congruence.
    destruct (decide (h' = n)) as [->|]; simplify_map_eq; done.
  - intros m e0 m' e'. at_points m m' n.
  - intros m m' e0. at_points m m' n.
  - intros e0. destruct (decide (e0 = e)) as [->|Ne]; simplify_map_eq.
    + split; [by intros []|]. intros [m M]. destruct (decide (m = n)); simplify_map_eq; try congruence.
      by destruct (NW m).
    + rewrite WA. split; intros [m M]; exists m; at_point m n.
  - intros e0. destruct (decide (e0 = e)) as [->|Ne]; simplify_map_eq; [by intros []|]. apply FR.
Qed.

(** An event is set, by a thread that is not passing the lock or by the one
    that is. *)
Lemma waits_signal e ev ne h :
  blocked_on p = None -> blocked_on p' = None -> is_relset p' = false ->
  (forall m, m <> n -> P !! m <> Some (RelSetEvent e)) -> is_Some (ev !! e) ->
  waits_inv P ev ne h -> waits_inv (<[n := p']> P) (<[e := true]> ev) ne h.
Proof.
  intros B B' S' NE O [SE S1 DI WA FR]. split.
  - intros m e0. destruct (decide (m = n)) as [->|N]; simplify_map_eq; [by intros [= ->]|].
    intros M. destruct (SE m e0 M) as (h' & H & A & E). exists h'.
    destruct (decide (h' = n)) as [->|]; simplify_map_eq; try done.
    assert (e0 <> e) by (intros ->; by destruct (NE m)). by rewrite lookup_insert_ne.
  - intros m e0 m' e'. at_points m m' n.
  - intros m m' e0. at_points m m' n.
  - intros e0. assert (is_Some (<[e := true]> ev !! e0) <-> is_Some (ev !! e0)) as ->.
    { destruct (decide (e0 = e)) as [->|]; simplify_map_eq; [|done]. split; eauto. }
    rewrite WA. split; intros [m M]; exists m; at_point m n.
  - intros e0 H. apply FR. destruct (decide (e0 = e)) as [->|]; simplify_map_eq; done.
Qed.

(** The thread that gives up the lock is about to set the event of the next. *)
Lemma waits_pass e ev ne h m :
  blocked_on p = None -> p' = RelSetEvent e -> (forall m e, P !! m <> Some (RelSetEvent e)) ->
  m <> n -> P !! m = Some (AcqBlocked e) -> ev !! e = Some false ->
  waits_inv P ev ne h -> waits_inv (<[n := p']> P) ev ne (Some m).
Proof.
  intros B -> NS N M E [SE S1 DI WA FR]. split; try done.
  - intros m0 e0. destruct (decide (m0 = n)) as [->|]; simplify_map_eq; [intros [= <-]|intros X; by destruct (NS m0 e0)].
    exists m. by simplify_map_eq.
  - intros m0 e0 m1 e1. destruct (decide (m0 = n)), (decide (m1 = n)); simplify_map_eq; try done;
      intros; exfalso; by eapply NS.
  - intros m0 m' e0. at_points m0 m' n.
  - intros e0. rewrite WA. split; intros [m0 M0]; exists m0; at_point m0 n.
Qed.
End Points.

(** A new node, which nobody waits with. *)
Lemma queue_fresh P n p t q : P !! n = None -> queued p = false -> queue_inv t P q -> queue_inv t (<[n := p]> P) q.
Proof.
  intros PN Q0 [ND L IN]. split; try done. intros m. rewrite IN.
  destruct (decide (m = n)) as [->|N]; [|by rewrite lookup_insert_ne].
  rewrite lookup_insert_eq, PN. split; intros (x & [= <-] & Q); congruence.
Qed.

Lemma waits_fresh P n p ev ne h : P !! n = None -> blocked_on p = None -> is_relset p = false ->
  waits_inv P ev ne h -> waits_inv (<[n := p]> P) ev ne h.
Proof.
  intros PN B S [SE S1 DI WA FR].
  assert (BL : forall m e, <[n := p]> P !! m ≫= blocked_on = Some e <-> P !! m ≫= blocked_on = Some e).
  { intros m e. destruct (decide (m = n)) as [->|N]; [|by rewrite lookup_insert_ne].
    rewrite lookup_insert_eq, PN. cbn. by rewrite B. }
  assert (RS : forall m e, <[n := p]> P !! m = Some (RelSetEvent e) -> P !! m = Some (RelSetEvent e)).
  { intros m e. at_point m n. by intros [= ->]. }
  split; try done.
  - intros m e M%RS. destruct (SE m e M) as (h' & H & A & E). exists h'. split_and!; try done. at_point h' n.
  - intros m e m' e' M%RS M'%RS. eauto.
  - intros m m' e. rewrite !BL. apply DI.
  - intros e. rewrite WA. split; intros [m M]; exists m; by apply BL.
Qed.

(** While nobody is passing the lock, the first of the queue may change. *)
Lemma waits_head P ev ne h h' : (forall m e, P !! m <> Some (RelSetEvent e)) ->
  waits_inv P ev ne h -> waits_inv P ev ne h'.
Proof. intros NS [SE S1 DI WA FR]. split; try done. intros m e M. by destruct (NS m e). Qed.

(** Nobody is while it has come to a thread. *)
Lemma waits_none P ev ne h : waits_inv P ev ne h ->
  (forall n e, h = Some n -> P !! n <> Some (AcqBlocked e)) -> forall m e, P !! m <> Some (RelSetEvent e).
Proof.
  intros W N m e M. destruct (w_set _ _ _ _ W m e M) as (h' & H & A & _). by eapply N.
Qed.


(** *** One step *)

Lemma pair_events ev ev' a ca b cb :
  (forall e, blocked_on (stage ca) = Some e -> ev' !! e = ev !! e) ->
  (forall e, blocked_on (stage cb) = Some e -> ev' !! e = ev !! e) ->
  pair_ok ev a ca b cb -> pair_ok ev' a ca b cb.
Proof.
  intros A B. unfold pair_ok, next_unset, next_set.
  destruct (stage cb); try done; destruct (stage ca); try done; cbn in *;
    try (specialize (A _ eq_refl); rewrite A); try (specialize (B _ eq_refl); rewrite B); try done.
  all: intros (N & [= ->] & E & R); by rewrite A.
Qed.

(** A step that changes the nodes [D], and the events they wait for; [q'] is
    the queue after it. *)
Lemma mcs_update s q s' q' (D : list nat) :
  mcs_inv s q ->
  queue_inv (lock s') (points (cells s')) q' ->
  waits_inv (points (cells s')) (events s') (n_events s') (head q') ->
  (forall m, m ∉ D -> cells s' !! m = cells s !! m) ->
  (forall m c e, m ∉ D -> cells s !! m = Some c -> blocked_on (stage c) = Some e -> events s' !! e = events s !! e) ->
  (forall m c, m ∈ D -> cells s' !! m = Some c -> cell_ok c) ->
  (forall a b, a ∉ D -> b ∉ D -> adj q' a b -> adj q a b) ->
  (forall a b ca cb, a ∈ D \/ b ∈ D -> adj q' a b -> cells s' !! a = Some ca -> cells s' !! b = Some cb ->
     pair_ok (events s') a ca b cb) ->
  (forall h c, head q' = Some h -> cells s' !! h = Some c ->
     h ∈ D /\ head_ok s' c \/ h ∉ D /\ head q = Some h /\ (head_ok s c -> head_ok s' c)) ->
  (forall z c, last q' = Some z -> cells s' !! z = Some c -> z ∈ D /\ last_ok c \/ z ∉ D /\ last q = Some z) ->
  mcs_inv s' q'.
Proof.
  intros [QU WA CE PA HD LA] QU' WA' FR EV CE' AD PA' HD' LA'. split; try done.
  - intros n c C. destruct (decide (n ∈ D)); [eauto|]. rewrite FR in C by done. eauto.
  - intros a b ca cb AB A B. destruct (decide (a ∈ D)); [eauto|]. destruct (decide (b ∈ D)); [eauto|].
    rewrite FR in A, B by done. eapply pair_events; [..|eapply PA]; eauto.
  - intros h c H C. destruct (HD' h c H C) as [[_ K]|(N & K & M)]; [done|].
    apply M. rewrite FR in C by done. eauto.
  - intros z c H C. destruct (LA' z c H C) as [[_ K]|(N & K)]; [done|]. rewrite FR in C by done. eauto.
Qed.

(** What the invariant says of the neighbours of a node. *)
Section Facts.
Variables (s : mcs) (q : list nat).
Hypothesis I : mcs_inv s q.

Lemma inv_nodup : NoDup q.
Proof. apply I. Qed.

Lemma inv_in n c : cells s !! n = Some c -> n ∈ q <-> queued (stage c) = true.
Proof.
  intros C. rewrite (q_in _ _ _ (inv_queue _ _ I)). unfold points. rewrite lookup_fmap, C. cbn.
  split; [by intros (p & [= <-] & Q)|eauto].
Qed.

Lemma inv_cell_in n : n ∈ q -> exists c, cells s !! n = Some c /\ queued (stage c) = true.
Proof.
  intros (p & H & Q)%(q_in _ _ _ (inv_queue _ _ I)). unfold points in H.
  rewrite lookup_fmap in H. destruct (cells s !! n) as [c|]; [|done]. cbn in H. simplify_eq. eauto.
Qed.

Lemma inv_ahead n c : cells s !! n = Some c -> queued (stage c) = true ->
  head q = Some n /\ head_ok s c \/
  exists a ca, adj q a n /\ a <> n /\ cells s !! a = Some ca /\ queued (stage ca) = true /\ pair_ok (events s) a ca n c.
Proof.
  intros C Q. destruct (in_head_or_adj q n) as [H|[a A]]; [by apply (inv_in n c)| |].
  - left. split; [done|by eapply inv_head].
  - right. destruct (inv_cell_in a (proj1 (adj_in _ _ _ A))) as (ca & Ca & Qa). exists a, ca.
    split_and!; try done; [exact (adj_neq _ _ _ inv_nodup A)|by apply (inv_pair _ _ I)].
Qed.

Lemma inv_behind n c : cells s !! n = Some c -> queued (stage c) = true ->
  last q = Some n /\ last_ok c \/
  exists b cb, adj q n b /\ n <> b /\ cells s !! b = Some cb /\ queued (stage cb) = true /\ pair_ok (events s) n c b cb.
Proof.
  intros C Q. destruct (in_last_or_adj q n) as [H|[b A]]; [by apply (inv_in n c)| |].
  - left. split; [done|by eapply inv_last].
  - right. destruct (inv_cell_in b (proj2 (adj_in _ _ _ A))) as (cb & Cb & Qb). exists b, cb.
    split_and!; try done; [exact (adj_neq _ _ _ inv_nodup A)|by apply (inv_pair _ _ I)].
Qed.

(** The user of the first node of the queue alone can have the lock. *)
Lemma inv_owner n c : cells s !! n = Some c -> owning (stage c) = true -> head q = Some n.
Proof.
  intros C O. destruct (inv_ahead n c C) as [[H _]|(a & ca & A & _ & Ca & _ & P)]; [by destruct (stage c)|done|].
  unfold pair_ok in P. by destruct (stage c).
Qed.

Lemma points_at n c : cells s !! n = Some c -> points (cells s) !! n = Some (stage c).
Proof. intros C. unfold points. by rewrite lookup_fmap, C. Qed.

Lemma inv_blocked n c m c' e : cells s !! n = Some c -> cells s !! m = Some c' ->
  blocked_on (stage c) = Some e -> blocked_on (stage c') = Some e -> n = m.
Proof.
  intros C C' B B'. apply (w_distinct _ _ _ _ (inv_waits _ _ I) n m e).
  - by rewrite (points_at _ _ C).
  - by rewrite (points_at _ _ C').
Qed.

Lemma inv_event n c e : cells s !! n = Some c -> blocked_on (stage c) = Some e -> is_Some (events s !! e).
Proof.
  intros C B. apply (w_waited _ _ _ _ (inv_waits _ _ I)). exists n. by rewrite (points_at _ _ C).
Qed.
End Facts.

Lemma points_insert m n c : points (<[n := c]> m) = <[n := stage c]> (points m).
Proof. apply fmap_insert. Qed.

Lemma points_same m a ca x : m !! a = Some ca -> stage x = stage ca -> points (<[a := x]> m) = points m.
Proof. intros A E. rewrite points_insert, E. apply insert_id. unfold points. by rewrite lookup_fmap, A. Qed.

(** The step did not fault, and the invariant holds with queue [q]. *)
Definition keeps (q : list nat) (o : outcome mcs) : Prop :=
  match o with Ok s' => mcs_inv s' q | Err _ => True | _ => False end.

Lemma two_in (m x y : nat) : m ∈ [x; y] <-> m = x \/ m = y.
Proof. set_solver. Qed.

Lemma pair_same ev x cx cx' y cy :
  next cx' = next cx -> nextFlag cx' = nextFlag cx -> is_relblocked (stage cx) = false -> is_relblocked (stage cx') = false ->
  pair_ok ev x cx y cy -> pair_ok ev x cx' y cy.
Proof.
  intros N F B B' H. unfold pair_ok, next_unset, next_set in *. rewrite N, F.
  destruct (stage cy); try done; destruct (stage cx), (stage cx'); try done; naive_solver.
Qed.

Lemma next_set_ev ev ev' x : (forall e, blocked_on (stage x) = Some e -> ev' !! e = ev !! e) -> next_set ev x -> next_set ev' x.
Proof. unfold next_set. intros E [N B]. split; [done|]. destruct (stage x); try done. by rewrite E. Qed.

(** *** The steps within the queue *)

Section Steps.
Variables (s : mcs) (q : list nat) (n : nat) (c : cell).
Hypothesis I : mcs_inv s q.
Hypothesis C : cells s !! n = Some c.
Hypothesis Q : queued (stage c) = true.

Lemma settled_other m cm : cells s !! m = Some cm -> settled (stage cm) = true -> m <> n.
Proof. intros M S ->. rewrite C in M. simplify_eq. by eapply settled_queued. Qed.

(** One node changes, and the event it waits for. *)
Lemma inv_one c' ev ne :
  queued (stage c') = true ->
  waits_inv (<[n := stage c']> (points (cells s))) ev ne (head q) ->
  (forall e, blocked_on (stage c) <> Some e -> is_Some (events s !! e) -> ev !! e = events s !! e) ->
  cell_ok c' ->
  (forall a ca, adj q a n -> cells s !! a = Some ca -> pair_ok (events s) a ca n c -> pair_ok ev a ca n c') ->
  (forall b cb, adj q n b -> cells s !! b = Some cb -> pair_ok (events s) n c b cb -> pair_ok ev n c' b cb) ->
  (head q = Some n -> head_ok s c -> head_ok (Mcs (lock s) (<[n := c']> (cells s)) ev ne) c') ->
  (last q = Some n -> last_ok c -> last_ok c') ->
  mcs_inv (Mcs (lock s) (<[n := c']> (cells s)) ev ne) q.
Proof.
  intros Q' W EV CE L R H E.
  assert (EV' : forall m cm e, m <> n -> cells s !! m = Some cm -> blocked_on (stage cm) = Some e -> ev !! e = events s !! e).
  { intros m cm e N M B. apply EV; [|by eapply inv_event]. intros B'. apply N. by eapply (inv_blocked s q I). }
  apply (mcs_update s q _ q [n]); cbn; try done.
  - rewrite points_insert. eapply queue_move; [by apply points_at|by rewrite Q'|apply I].
  - by rewrite points_insert.
  - intros m N. rewrite list_elem_of_singleton in N. by rewrite lookup_insert_ne by congruence.
  - intros m cm e N. rewrite list_elem_of_singleton in N. eauto.
  - intros m cm ->%list_elem_of_singleton. rewrite lookup_insert_eq. by intros [= <-].
  - intros a b ca cb N AB A B. rewrite !list_elem_of_singleton in N.
    pose proof (adj_neq _ _ _ (inv_nodup _ _ I) AB) as NE.
    destruct N as [->| ->]; simplify_map_eq.
    + apply R; try done. by apply (inv_pair _ _ I).
    + apply L; try done. by apply (inv_pair _ _ I).
  - intros h ch Hh Ch. rewrite list_elem_of_singleton. destruct (decide (h = n)) as [->|N].
    + left. simplify_map_eq. split; [done|]. apply H; [done|by eapply inv_head].
    + right. simplify_map_eq. split_and!; try done. apply head_ok_mono; cbn.
      * intros m cm M S. rewrite lookup_insert_ne; [done|]. symmetry. by eapply settled_other.
      * intros e A. eapply (EV' h); [done..|by rewrite A].
  - intros z cz Hz Cz. rewrite list_elem_of_singleton. destruct (decide (z = n)) as [->|N]; [left|by right].
    simplify_map_eq. split; [done|]. apply E; [done|by eapply inv_last].
Qed.

(** A move within the queue, not to or from a wait. *)
Lemma inv_goto p :
  queued p = true -> blocked_on (stage c) = None -> blocked_on p = None ->
  cell_ok (set_pc c p) ->
  (forall a ca, adj q a n -> cells s !! a = Some ca -> pair_ok (events s) a ca n c -> pair_ok (events s) a ca n (set_pc c p)) ->
  (head q = Some n -> head_ok s c -> head_ok s (set_pc c p)) ->
  (last q = Some n -> last_ok c -> last_ok (set_pc c p)) ->
  mcs_inv (mcs_goto s n c p) q.
Proof.
  intros Q' B B' CE L H E. apply inv_one; try done.
  - apply (waits_move _ _ (stage c)); [by apply points_at|done|done|by destruct (stage c)|by destruct p|apply I].
  - intros b cb _ _. by apply pair_left; [destruct (stage c)|destruct p].
  - intros Hq K. eapply (head_ok_mono s); cbn; [|done|by apply H].
    intros m cm M S. rewrite lookup_insert_ne; [done|]. symmetry. by eapply settled_other.
Qed.

Ltac by_goto P :=
  apply inv_goto; rewrite ?P; try done;
  unfold cell_ok, pair_ok, head_ok, last_ok, set_pc; cbn; rewrite ?P; try done.

Lemma step_wait_rd : stage c = AcqWaitRd -> keeps q (mcs_lock_acquire s n c).
Proof.
  intros P. unfold mcs_lock_acquire. rewrite P. cbn. unfold flag_wait_read.
  destruct (inv_ahead s q I n c C Q) as [[H HO]|(a & ca & A & N & Ca & Qa & PO)].
  - unfold head_ok in HO. rewrite P in HO. rewrite HO. by_goto P.
    intros b cb B. by destruct (adj_not_head _ _ _ (inv_nodup _ _ I) B).
  - unfold pair_ok in PO. rewrite P in PO. destruct PO as (NX & NS & ->). by_goto P.
Qed.

Lemma step_held : stage c = Held -> keeps q (mcs_lock_release s n c).
Proof. intros P. unfold mcs_lock_release. rewrite P. cbn. by_goto P. Qed.

Lemma step_rel_read : stage c = RelRead -> keeps q (mcs_lock_release s n c).
Proof.
  intros P. unfold mcs_lock_release. rewrite P. cbn. destruct (next c) as [m|] eqn:E; by_goto P.
  intros _ (N & _). congruence.
Qed.

Lemma step_rel_wait_rd : stage c = RelWaitRd -> keeps q (mcs_lock_release s n c).
Proof.
  intros P. unfold mcs_lock_release. rewrite P. cbn. unfold flag_wait_read.
  destruct (nextFlag c) eqn:E; by_goto P; try (by rewrite E); by intros _ (_ & _ & []).
Qed.

Lemma step_rel_next : stage c = RelNext -> keeps q (mcs_lock_release s n c).
Proof.
  intros P. pose proof (inv_cell _ _ I n c C) as CO. unfold cell_ok in CO. rewrite P in CO.
  unfold mcs_lock_release. rewrite P. cbn.
  destruct (inv_behind s q I n c C Q) as [[L LO]|(b & cb & B & N & Cb & Qb & PO)].
  - unfold last_ok in LO. rewrite P in LO. by destruct LO as (_ & _ & []).
  - assert (NX : next c = Some b).
    { unfold pair_ok, next_unset in PO. rewrite P in PO. destruct (stage cb); naive_solver. }
    rewrite NX. by_goto P.
Qed.

Lemma fresh_event e : is_Some (events s !! e) -> <[n_events s := false]> (events s) !! e = events s !! e.
Proof. intros O. apply (w_fresh _ _ _ _ (inv_waits _ _ I)) in O. apply lookup_insert_ne. lia. Qed.

Lemma step_wait_cas : stage c = AcqWaitCas -> keeps q (mcs_lock_acquire s n c).
Proof.
  intros P. unfold mcs_lock_acquire. rewrite P. cbn. unfold flag_wait_cas.
  destruct (inv_ahead s q I n c C Q) as [[H HO]|(a & ca & A & N & Ca & Qa & PO)].
  - unfold head_ok in HO. rewrite P in HO. rewrite HO. by_goto P.
    intros b cb B. by destruct (adj_not_head _ _ _ (inv_nodup _ _ I) B).
  - unfold pair_ok in PO. rewrite P in PO. destruct PO as (NX & NS & R). rewrite R. cbn.
    apply inv_one; cbn; try done.
    + apply (waits_create _ _ (stage c)); [by apply points_at|by rewrite ?P..|apply I].
    + intros e _. apply fresh_event.
    + unfold pair_ok; cbn. rewrite P. intros x cx X Cx (N1 & N2 & _).
      split_and!; [done| |by rewrite lookup_insert_eq].
      eapply next_set_ev, N2. intros e B. apply fresh_event. by eapply inv_event.
    + intros b cb B Cb K. change (pair_ok (<[n_events s := false]> (events s)) n (set_pc c (AcqBlocked (n_events s))) b cb).
      apply pair_left; [by rewrite P|done|]. eapply pair_events, K; intros e Bl; apply fresh_event; (eapply (inv_event s q I); [|exact Bl]; eassumption).
    + intros H. by destruct (adj_not_head _ _ _ (inv_nodup _ _ I) A).
    + unfold last_ok; cbn. rewrite P. done.
Qed.

Lemma step_rel_wait_cas : stage c = RelWaitCas -> keeps q (mcs_lock_release s n c).
Proof.
  intros P. unfold mcs_lock_release. rewrite P. cbn. unfold flag_wait_cas.
  destruct (inv_behind s q I n c C Q) as [[L LO]|(b & cb & B & N & Cb & Qb & PO)].
  { unfold last_ok in LO. rewrite P in LO. by destruct LO as (_ & _ & []). }
  destruct (nextFlag c) eqn:E; cbn.
  - apply inv_one; cbn; try done.
    + apply (waits_create _ _ (stage c)); [by apply points_at|by rewrite ?P..|apply I].
    + intros e _. apply fresh_event.
    + unfold pair_ok. by rewrite P.
    + intros b' cb' _ Cb'. unfold pair_ok, next_unset, next_set; cbn. rewrite P, lookup_insert_eq.
      destruct (stage cb'); try done; naive_solver.
    + intros L. by destruct (adj_not_last _ _ _ (inv_nodup _ _ I) B).
  - by_goto P. by rewrite E.
  - by_goto P. by rewrite E.
Qed.

(** The end of a wait: the event is set, and is closed. *)
Lemma step_blocked : forall e, stage c = AcqBlocked e -> keeps q (mcs_lock_acquire s n c).
Proof.
  intros e P. unfold mcs_lock_acquire. rewrite P. cbn. unfold flag_wait_block.
  destruct (inv_event s q I n c e C) as [v V]; [by rewrite P|]. rewrite V. destruct v; [|done].
  destruct (inv_ahead s q I n c C Q) as [[H HO]|(a & ca & A & N & Ca & Qa & PO)].
  - apply inv_one; cbn; try done.
    + apply (waits_wake _ _ (stage c)); [by apply points_at|by rewrite ?P..|done|apply I].
    + intros e0. rewrite P. cbn. intros N _. apply lookup_delete_ne. congruence.
    + intros a ca A. by destruct (adj_not_head _ _ _ (inv_nodup _ _ I) A).
    + intros b cb B Cb K. eapply pair_events, pair_left, K; rewrite ?P; try done.
      intros e0 Bl. apply lookup_delete_ne. intros <-. apply (adj_neq _ _ _ (inv_nodup _ _ I) B).
      eapply (inv_blocked s q I); eauto. by rewrite P.
    + unfold last_ok; cbn. by rewrite P.
  - unfold pair_ok in PO. rewrite P in PO. destruct PO as (_ & _ & E). congruence.
Qed.

Lemma step_rel_blocked : forall e, stage c = RelBlocked e -> keeps q (mcs_lock_release s n c).
Proof.
  intros e P. unfold mcs_lock_release. rewrite P. cbn. unfold flag_wait_block.
  destruct (inv_event s q I n c e C) as [v V]; [by rewrite P|]. rewrite V. destruct v; [|done].
  pose proof (inv_cell _ _ I n c C) as CO. unfold cell_ok in CO. rewrite P in CO.
  destruct (inv_behind s q I n c C Q) as [[L LO]|(b & cb & B & N & Cb & Qb & PO)].
  { unfold last_ok in LO. rewrite P in LO. by destruct LO as (_ & _ & []). }
  apply inv_one; cbn; try done.
  - apply (waits_wake _ _ (stage c)); [by apply points_at|by rewrite ?P..|done|apply I].
  - intros e0. rewrite P. cbn. intros Ne _. apply lookup_delete_ne. congruence.
  - unfold cell_ok. cbn. by rewrite CO.
  - unfold pair_ok. by rewrite P.
  - intros b' cb' B' Cb'. assert (b' = b) as -> by exact (adj_fun _ _ _ _ (inv_nodup _ _ I) B' B).
    assert (forall e0, stage cb' = AcqBlocked e0 -> delete e (events s) !! e0 = events s !! e0) as D.
    { intros e0 Pb. apply lookup_delete_ne. intros <-. apply N. eapply (inv_blocked s q I); eauto; [by rewrite P|by rewrite Pb]. }
    unfold pair_ok, next_unset, next_set; cbn. rewrite P, V, CO.
    destruct (stage cb') eqn:Pb; try done; try naive_solver congruence.

  - intros L. by destruct (adj_not_last _ _ _ (inv_nodup _ _ I) B).
Qed.

(** The node and the one before it change, the latter in the fields that its
    user does not own. *)
Section Two.
Variables (a : nat) (ca c' ca' : cell) (ev : gmap nat bool) (ne : nat).
Hypothesis A : adj q a n.
Hypothesis Ca : cells s !! a = Some ca.
Hypothesis Qa : queued (stage ca) = true.
Hypothesis Pa : stage ca' = stage ca.
Hypothesis Ra : readyFlag ca' = readyFlag ca.
Hypothesis Bc : blocked_on (stage c) = None.
Hypothesis Bc' : is_relblocked (stage c') = false.
Hypothesis Nf : nextFlag c' = nextFlag c.
Hypothesis Nx : next c' = next c.
Hypothesis EV : forall e, stage ca <> RelBlocked e -> is_Some (events s !! e) -> ev !! e = events s !! e.

Lemma two_events m cm e : m <> a -> cells s !! m = Some cm -> blocked_on (stage cm) = Some e -> ev !! e = events s !! e.
Proof.
  intros N M B. apply EV; [|eapply (inv_event s q I); [exact M|done]]. intros B'. apply N.
  eapply (inv_blocked s q I); eauto. by rewrite B'.
Qed.

Lemma two_event_before x cx e : adj q x a -> cells s !! x = Some cx -> blocked_on (stage ca) = Some e ->
  ev !! e = events s !! e.
Proof.
  intros X Cx B. apply EV; [|eapply (inv_event s q I); [exact Ca|done]]. intros B'.
  pose proof (inv_pair _ _ I _ _ _ _ X Cx Ca) as K. unfold pair_ok in K. by rewrite B' in K.
Qed.

Lemma two_behind y cy : y <> a -> adj q n y -> cells s !! y = Some cy -> pair_ok ev n c' y cy.
Proof.
  intros Ya X Cy. apply (pair_same ev n c); try done; [by destruct (stage c)|].
  eapply pair_events; [| |by apply (inv_pair _ _ I)]; [by rewrite Bc|intros e; by apply (two_events y)].
Qed.

Lemma two_before x cx : x <> n -> x <> a -> adj q x a -> cells s !! x = Some cx -> pair_ok ev x cx a ca'.
Proof.
  intros Xn Xa X Cx. assert (pair_ok ev x cx a ca) as K.
  { eapply pair_events; [| |by apply (inv_pair _ _ I)];
      [intros e; by apply (two_events x)|intros e; by apply (two_event_before x cx)]. }
  revert K. unfold pair_ok. by rewrite Pa, Ra.
Qed.

Lemma two_not_cycle : ~ adj q n a.
Proof.
  intros X. destruct A as [i [A1 A2]], X as [j [X1 X2]]. pose proof (inv_nodup _ _ I) as ND.
  assert (S i = j) by (eapply NoDup_lookup; eauto). assert (i = S j) by (eapply NoDup_lookup; eauto). lia.
Qed.

Lemma two_settled m cm : cells s !! m = Some cm -> settled (stage cm) = true ->
  <[n := c']> (<[a := ca']> (cells s)) !! m = Some cm.
Proof. intros M S. rewrite !lookup_insert_ne; [done|intros <-; simplify_eq; by eapply settled_queued..]. Qed.

Lemma inv_two :
  queued (stage c') = true -> waits_inv (<[n := stage c']> (points (cells s))) ev ne (head q) ->
  cell_ok c' -> cell_ok ca' -> pair_ok ev a ca' n c' -> (last_ok c -> last_ok c') ->
  mcs_inv (Mcs (lock s) (<[n := c']> (<[a := ca']> (cells s))) ev ne) q.
Proof.
  intros Q' W CE CEa PO LO. pose proof (adj_neq _ _ _ (inv_nodup _ _ I) A) as NE.
  assert (PT : points (<[n := c']> (<[a := ca']> (cells s))) = <[n := stage c']> (points (cells s))).
  { rewrite points_insert. by erewrite points_same. }
  apply (mcs_update s q _ q [n; a]); cbn; try done.
  - rewrite PT. eapply queue_move; [by apply points_at|by rewrite Q'|apply I].
  - by rewrite PT.
  - intros m N. rewrite two_in in N. by rewrite !lookup_insert_ne by naive_solver.
  - intros m cm e N. rewrite two_in in N. apply two_events. naive_solver.
  - intros m cm [->| ->]%two_in; rewrite ?lookup_insert_eq, ?lookup_insert_ne, ?lookup_insert_eq by done; by intros [= <-].
  - intros x y cx cy N X Cx Cy. rewrite !two_in in N. destruct (decide (y = n)) as [->|Yn].
    { assert (x = a) as -> by exact (adj_inj _ _ _ _ (inv_nodup _ _ I) X A). by simplify_map_eq. }
    assert (x <> a) as Xa by (intros ->; apply Yn; exact (adj_fun _ _ _ _ (inv_nodup _ _ I) X A)).
    destruct (decide (y = a)) as [->|Ya].
    + assert (x <> n) as Xn by (intros ->; exact (two_not_cycle X)).
      rewrite lookup_insert_ne, lookup_insert_eq in Cy by done. injection Cy as <-.
      rewrite !lookup_insert_ne in Cx by done. by apply two_before.
    + assert (x = n) as -> by (destruct N as [[|]|[|]]; congruence).
      rewrite lookup_insert_eq in Cx. injection Cx as <-. rewrite !lookup_insert_ne in Cy by done. by apply two_behind.
  - intros h ch Hh Ch. rewrite two_in.
    assert (h <> n) as Hn by (intros ->; exact (adj_not_head _ _ _ (inv_nodup _ _ I) A Hh)).
    rewrite lookup_insert_ne in Ch by done. destruct (decide (h = a)) as [->|Ha].
    + left. split; [by right|]. rewrite lookup_insert_eq in Ch. injection Ch as <-.
      assert (head_ok (Mcs (lock s) (<[n := c']> (<[a := ca']> (cells s))) ev ne) ca) as K.
      { apply (head_ok_mono s); cbn; [exact two_settled| |by eapply inv_head].
        intros e B. apply EV; [congruence|]. eapply (inv_event s q I); [exact Ca|by rewrite B]. }
      revert K. unfold head_ok. by rewrite Pa, Ra.
    + right. rewrite lookup_insert_ne in Ch by done. split_and!; [naive_solver|done|].
      apply head_ok_mono; cbn; [exact two_settled|]. intros e B. eapply (two_events h); eauto. by rewrite B.
  - intros z cz Hz Cz. rewrite two_in.
    assert (z <> a) as Za by (intros ->; exact (adj_not_last _ _ _ (inv_nodup _ _ I) A Hz)).
    destruct (decide (z = n)) as [->|N]; [left|right; naive_solver].
    rewrite lookup_insert_eq in Cz. injection Cz as <-. split; [by left|]. apply LO. by eapply inv_last.
Qed.
End Two.

Lemma step_link : forall a, stage c = AcqLink a -> keeps q (mcs_lock_acquire s n c).
Proof.
  intros a0 P. unfold mcs_lock_acquire. rewrite P.
  destruct (inv_ahead s q I n c C Q) as [[_ HO]|(a & ca & A & N & Ca & Qa & PO)].
  { unfold head_ok in HO. by rewrite P in HO. }
  unfold pair_ok in PO. rewrite P in PO. destruct PO as (-> & NX & U & R). unfold cell_at. rewrite Ca. cbn.
  apply inv_two with ca; try done; cbn; rewrite ?P; try done.
  - apply (waits_move _ _ (stage c)); [by apply points_at|by rewrite ?P..|apply I].
  - pose proof (inv_cell _ _ I a ca Ca) as K. unfold cell_ok, set_cell_next in *; cbn.
    destruct (stage ca); try done. destruct K as [K [x Hx]]. congruence.
  - unfold last_ok. cbn. by rewrite P.
Qed.

(** The node before it was left meanwhile. *)
Lemma step_set_next_done a ca : stage c = AcqSetNext a -> head q = Some n -> readyFlag c = FSet ->
  cells s !! a = Some ca -> stage ca = Done ->
  mcs_inv (with_cells s (<[n := set_pc c AcqWaitRd]> (<[a := set_nextf ca FSet]> (cells s)))) q.
Proof.
  intros P H R Ca D.
  assert (NE : n <> a) by (intros <-; rewrite C in Ca; simplify_eq; by rewrite D in Q).
  assert (Na : a ∉ q) by (rewrite (inv_in s q I a ca Ca), D; done).
  assert (PT : points (<[n := set_pc c AcqWaitRd]> (<[a := set_nextf ca FSet]> (cells s))) = <[n := AcqWaitRd]> (points (cells s))).
  { rewrite points_insert. by erewrite points_same. }
  apply (mcs_update s q _ q [n; a]); cbn; try done.
  - rewrite PT. eapply queue_move; [by apply points_at|by rewrite P|apply I].
  - rewrite PT. apply (waits_move _ _ (stage c)); [by apply points_at|by rewrite ?P..|apply I].
  - intros m N. rewrite two_in in N. by rewrite !lookup_insert_ne by naive_solver.
  - intros m cm [->| ->]%two_in; rewrite ?lookup_insert_eq, ?lookup_insert_ne, ?lookup_insert_eq by done; intros [= <-]; [done|].
    unfold cell_ok. cbn. by rewrite D.
  - intros x y cx cy N X Cx Cy. rewrite !two_in in N. destruct (adj_in _ _ _ X) as [Xq Yq].
    assert (x <> a /\ y <> a) as [Xa Ya] by (split; by intros ->).
    assert (y <> n) as Yn by (intros ->; exact (adj_not_head _ _ _ (inv_nodup _ _ I) X H)).
    assert (x = n) as -> by (destruct N as [[|]|[|]]; congruence).
    rewrite lookup_insert_eq in Cx. injection Cx as <-. rewrite !lookup_insert_ne in Cy by done.
    apply pair_left; [by rewrite P|done|]. by apply (inv_pair _ _ I).
  - intros h ch Hh Ch. simplify_eq. rewrite lookup_insert_eq in Ch. injection Ch as <-. left.
    rewrite two_in. split; [by left|]. done.
  - intros z cz Hz Cz. rewrite two_in.
    assert (z <> a) by (intros ->; apply Na; by apply last_Some_elem_of).
    destruct (decide (z = n)) as [->|]; [left|right; naive_solver].
    rewrite lookup_insert_eq in Cz. injection Cz as <-. split; [by left|].
    pose proof (inv_last _ _ I n c Hz C) as K. unfold last_ok in *. cbn. by rewrite P in K.
Qed.

Lemma step_set_next : forall a, stage c = AcqSetNext a -> keeps q (mcs_lock_acquire s n c).
Proof.
  intros a0 P. unfold mcs_lock_acquire. rewrite P.
  destruct (inv_ahead s q I n c C Q) as [[H HO]|(a & ca & A & N & Ca & Qa & PO)].
  - unfold head_ok in HO. rewrite P in HO. destruct HO as (R & ca & Ca & D & F).
    unfold cell_at. rewrite Ca. cbn. rewrite F. cbn. by apply (step_set_next_done a0 ca).
  - unfold pair_ok in PO. rewrite P in PO. destruct PO as (-> & NX & U & R). unfold cell_at. rewrite Ca. cbn.
    pose proof (inv_cell _ _ I a ca Ca) as K.
    assert ((exists e, stage ca = RelBlocked e /\ events s !! e = Some false /\ nextFlag ca = FEvent e) \/
            is_relblocked (stage ca) = false /\ nextFlag ca = F0) as [(e & Pa & E & F)|[B F]].
    { unfold cell_ok, next_unset in *. destruct (stage ca); eauto. }
    + rewrite F. cbn. apply inv_two with ca; try done; cbn; rewrite ?P; try done.
      * apply (waits_move _ _ (stage c)); [by apply points_at|by rewrite ?P..|apply I].
      * unfold cell_ok in *. cbn. by rewrite Pa in *.
      * unfold last_ok. cbn. by rewrite P.
    + rewrite F. cbn. apply inv_two with ca; try done; cbn; rewrite ?P; try done.
      * apply (waits_move _ _ (stage c)); [by apply points_at|by rewrite ?P..|apply I].
      * unfold cell_ok in *. cbn. by destruct (stage ca).
      * unfold pair_ok, next_set. cbn. split_and!; try done. by destruct (stage ca).
      * unfold last_ok. cbn. by rewrite P.
Qed.

Lemma step_acq_set_event : forall e, stage c = AcqSetEvent e -> keeps q (mcs_lock_acquire s n c).
Proof.
  intros e P. unfold mcs_lock_acquire. rewrite P. cbn.
  destruct (inv_ahead s q I n c C Q) as [[_ HO]|(a & ca & A & N & Ca & Qa & PO)].
  { unfold head_ok in HO. by rewrite P in HO. }
  unfold pair_ok in PO. rewrite P in PO. destruct PO as (NX & Pa & E & R). unfold SetEvent. cbn. rewrite E. cbn.
  pose proof (inv_cell _ _ I a ca Ca) as K. unfold cell_ok in K. rewrite Pa in K.
  rewrite <- (insert_id (cells s) a ca Ca).
  apply inv_two with ca; try done; cbn; rewrite ?P; try done.
  - intros e0 Ne _. apply lookup_insert_ne. congruence.
  - apply (waits_signal _ _ (stage c)); [by apply points_at|by rewrite ?P..| |by rewrite E|apply I].
    intros m _ M. destruct (w_set _ _ _ _ (inv_waits _ _ I) m e M) as (h & Hh & Ph & _).
    assert (h = a) as ->.
    { apply (w_distinct _ _ _ _ (inv_waits _ _ I) h a e); [by rewrite Ph|by rewrite (points_at _ _ _ Ca), Pa]. }
    rewrite (points_at _ _ _ Ca) in Ph. congruence.
  - unfold cell_ok. by rewrite Pa.
  - unfold pair_ok, next_set. cbn. rewrite Pa, K, lookup_insert_eq. done.
  - unfold last_ok. cbn. by rewrite P.
Qed.
End Steps.

(** *** The steps that enter and leave the queue *)

(** The queue after the step. *)
Definition after (s : mcs) (n : nat) (p : mcs_pc) (q : list nat) : list nat :=
  match p with
  | AcqXchg => q ++ [n]
  | TryCas => match q with [] => [n] | _ => q end
  | RelCas => if bool_decide (lock s = Some n) then tail q else q
  | RelPass _ => tail q
  | _ => q
  end.

Section Ends.
Variables (s : mcs) (q : list nat) (n : nat) (c : cell).
Hypothesis I : mcs_inv s q.
Hypothesis C : cells s !! n = Some c.

(** The first node of the queue, when it is not at its event, is not waited
    for by one that passes the lock. *)
Lemma none_passing : head q = Some n -> (forall e, stage c <> AcqBlocked e) ->
  forall m e, points (cells s) !! m <> Some (RelSetEvent e).
Proof.
  intros H N. eapply waits_none; [apply I|]. intros m e Hm. simplify_eq.
  rewrite (points_at _ _ _ C). intros [= E]. by eapply N.
Qed.

Lemma fresh_cell : stage c = AcqXchg \/ stage c = TryCas -> next c = None /\ readyFlag c = F0 /\ nextFlag c = F0.
Proof. pose proof (inv_cell _ _ I n c C) as K. unfold cell_ok in K. intros [P|P]; by rewrite P in K. Qed.

(** A new node at the end of the queue. *)
Lemma inv_push p : stage c = AcqXchg \/ stage c = TryCas ->
  match last q with None => p = Held | Some z => p = AcqLink z end ->
  mcs_inv (Mcs (Some n) (<[n := set_pc c p]> (cells s)) (events s) (n_events s)) (q ++ [n]).
Proof.
  intros P L. destruct (fresh_cell P) as (NX & R & F).
  assert (Pn : points (cells s) !! n = Some (stage c)) by by apply points_at.
  assert (Q : queued (stage c) = false) by by destruct P as [-> | ->].
  assert (Nn : n ∉ q) by by rewrite (inv_in s q I n c C), Q.
  assert (Qp : queued p = true /\ blocked_on p = None /\ is_relset p = false)
    by (destruct (last q); by rewrite L).
  destruct Qp as (Qp & Bp & Sp).
  apply (mcs_update s q _ (q ++ [n]) [n]); cbn; try done.
  - rewrite points_insert. apply (queue_push _ n (stage c) p Pn (lock s)); [done|done|apply I].
  - rewrite points_insert. apply (waits_move _ _ (stage c)); try done; try by destruct P as [-> | ->].
    destruct q as [|h r] eqn:Eq; [|by apply I].
    apply (waits_head _ _ _ None); [|apply I]. by apply (waits_none _ (events s) (n_events s) None); [apply I|].
  - intros m N. rewrite list_elem_of_singleton in N. by rewrite lookup_insert_ne by congruence.
  - intros m cm ->%list_elem_of_singleton. rewrite lookup_insert_eq. intros [= <-].
    unfold cell_ok. cbn. by destruct (last q); rewrite L.
  - intros a b Na Nb AB. rewrite list_elem_of_singleton in Nb. by destruct (adj_snoc _ _ _ _ AB) as [|[_ ->]].
  - intros a b ca cb _ AB A B. destruct (adj_snoc _ _ _ _ AB) as [AB'|[La ->]].
    { destruct (adj_in _ _ _ AB'). rewrite !lookup_insert_ne in A, B by (intros <-; done). by apply (inv_pair _ _ I). }
    rewrite lookup_insert_eq in B. injection B as <-. rewrite La in L.
    assert (a ∈ q) by by apply last_Some_elem_of.
    rewrite lookup_insert_ne in A by (intros <-; done).
    destruct (inv_last _ _ I a ca La A) as (N1 & N2 & N3).
    unfold pair_ok, next_unset. cbn. rewrite L. split_and!; try done. by destruct (stage ca).
  - intros h ch Hh Ch. rewrite list_elem_of_singleton. destruct (decide (h = n)) as [->|N].
    + left. split; [done|]. rewrite lookup_insert_eq in Ch. injection Ch as <-.
      destruct q as [|h r]; [|cbn in Hh; injection Hh as ->; by destruct Nn; left]. cbn in L. subst p. done.
    + right. split; [done|]. destruct q as [|h0 r]; [by cbn in Hh; congruence|]. split; [done|].
      apply head_ok_mono; [|done]. cbn. intros m cm M S. rewrite lookup_insert_ne; [done|].
      intros <-. rewrite C in M. simplify_eq. by destruct P as [E|E]; rewrite E in S.
  - intros z cz. rewrite last_snoc. intros [= <-]. rewrite lookup_insert_eq. intros [= <-].
    rewrite list_elem_of_singleton. left. split; [done|]. unfold last_ok. cbn. split_and!; try done.
    by destruct (last q); rewrite L.
Qed.

Lemma step_xchg : stage c = AcqXchg -> keeps (q ++ [n]) (mcs_lock_acquire s n c).
Proof.
  intros P. unfold mcs_lock_acquire. rewrite P. cbn. apply inv_push; [by left|].
  rewrite <- (q_lock _ _ _ (inv_queue _ _ I)). by destruct (lock s).
Qed.

(** A step of a node outside the queue, which is not about to set an event. *)
Lemma inv_outside p : queued (stage c) = false -> queued p = false -> settled (stage c) = false -> is_relset p = false ->
  cell_ok (set_pc c p) -> mcs_inv (mcs_goto s n c p) q.
Proof.
  intros Q Qp S Sp CE.
  assert (Nn : n ∉ q) by by rewrite (inv_in s q I n c C), Q.
  apply (mcs_update s q _ q [n]); cbn; try done.
  - rewrite points_insert. eapply queue_move; [by apply points_at|by rewrite Q|apply I].
  - rewrite points_insert. apply (waits_move _ _ (stage c)); [by apply points_at|by destruct (stage c)|by destruct p|by destruct (stage c)|done|apply I].
  - intros m N. rewrite list_elem_of_singleton in N. by rewrite lookup_insert_ne by congruence.
  - intros m cm ->%list_elem_of_singleton. rewrite lookup_insert_eq. by intros [= <-].
  - intros a b ca cb N AB. destruct (adj_in _ _ _ AB). rewrite !list_elem_of_singleton in N. by destruct N as [-> | ->].
  - intros h ch Hh Ch. right. rewrite list_elem_of_singleton.
    assert (h <> n) by (intros ->; by apply Nn, head_Some_elem_of). split_and!; try done.
    apply head_ok_mono; [|done]. cbn. intros m cm M S'. rewrite lookup_insert_ne; [done|]. congruence.
  - intros z cz Hz _. right. rewrite list_elem_of_singleton. split; [|done].
    intros ->. by apply Nn, last_Some_elem_of.
Qed.

End Ends.

Lemma step_try s q n c : mcs_inv s q -> cells s !! n = Some c -> stage c = TryCas ->
  keeps (after s n (stage c) q) (mcs_lock_try_acquire s n c).
Proof.
  intros I C P. unfold mcs_lock_try_acquire, after. rewrite P. pose proof (q_lock _ _ _ (inv_queue _ _ I)) as L.
  destruct q as [|h r]; [rewrite L; cbn; apply (inv_push s [] n c I C); [by right|done]|].
  destruct (lock s) as [z|] eqn:Lk; [|by symmetry in L; apply last_None in L].
  cbn. apply inv_outside; by rewrite ?P.
Qed.

Lemma adj_cons_inv h q a b : adj (h :: q) a b -> adj q a b \/ a = h /\ head q = Some b.
Proof.
  intros [[|i] [A B]]; cbn in A, B; [right|left; by exists i].
  split; [congruence|]. by rewrite head_lookup0.
Qed.

Section Leave.
Variables (s : mcs) (q : list nat) (n : nat) (c : cell).
Hypothesis I : mcs_inv s q.
Hypothesis C : cells s !! n = Some c.

Lemma step_rel_cas : stage c = RelCas -> keeps (after s n (stage c) q) (mcs_lock_release s n c).
Proof.
  intros P. pose proof (inv_owner s q I n c C) as H. rewrite P in H. specialize (H eq_refl).
  unfold mcs_lock_release, after. rewrite P. pose proof (q_lock _ _ _ (inv_queue _ _ I)) as L.
  case_bool_decide as E; cbn.
  - assert (q = [n]) as ->.
    { destruct q as [|h r]; [done|]. cbn in H. injection H as ->. rewrite L in E.
      destruct (in_head_or_adj (n :: r) n) as [_|[a A]]; [by left| |].
      - destruct r as [|b r]; [done|]. exfalso.
        exact (adj_not_last _ _ _ (inv_nodup _ _ I) (adj_cons2 n b r) E).
      - destruct (adj_not_head _ _ _ (inv_nodup _ _ I) A eq_refl). }
    cbn. apply (mcs_update s [n] _ [] [n]); cbn; try done.
    + rewrite points_insert. change None with (last (@nil nat)).
      by apply (queue_pop _ n Done (lock s)); [|apply I].
    + rewrite points_insert. apply (waits_move _ _ (stage c)); [by apply points_at|by rewrite ?P..|].
      eapply waits_head; [|apply I]. apply (none_passing s [n] n c I C); [done|by rewrite P].
    + intros m N. rewrite list_elem_of_singleton in N. by rewrite lookup_insert_ne by congruence.
    + intros m cm ->%list_elem_of_singleton. rewrite lookup_insert_eq. by intros [= <-].
    + intros a b _ _ [i [A _]]. done.
    + intros a b ca cb _ [i [A _]]. done.
  - apply inv_goto; rewrite ?P; try done.
    + unfold pair_ok. by rewrite P.
    + intros Hl. congruence.
Qed.

(** The lock goes to the next node. *)
Lemma inv_pass b r cb cb' p : q = n :: b :: r -> cells s !! b = Some cb ->
  queued (stage cb) = true -> stage cb' = stage cb -> next cb' = next cb -> nextFlag cb' = nextFlag cb ->
  queued p = false -> cell_ok cb' -> cell_ok (set_pc c p) ->
  waits_inv (<[n := p]> (points (cells s))) (events s) (n_events s) (Some b) ->
  head_ok (with_cells s (<[n := set_pc c p]> (<[b := cb']> (cells s)))) cb' ->
  mcs_inv (with_cells s (<[n := set_pc c p]> (<[b := cb']> (cells s)))) (b :: r).
Proof.
  intros -> Cb Qb Pb Nb Fb Qp CEb CEn W HO.
  pose proof (inv_nodup _ _ I) as ND.
  assert (NE : n <> b) by exact (adj_neq _ _ _ ND (adj_cons2 n b r)).
  apply NoDup_cons in ND as [Nn ND].
  assert (PT : points (<[n := set_pc c p]> (<[b := cb']> (cells s))) = <[n := p]> (points (cells s))).
  { rewrite points_insert. by erewrite points_same. }
  apply (mcs_update s (n :: b :: r) _ (b :: r) [n; b]); cbn; try done.
  - rewrite PT. rewrite (q_lock _ _ _ (inv_queue _ _ I)). change (last (n :: b :: r)) with (last (b :: r)).
    by apply (queue_pop _ n p (lock s)); [|apply I].
  - by rewrite PT.
  - intros m N. rewrite two_in in N. by rewrite !lookup_insert_ne by naive_solver.
  - intros m cm [->| ->]%two_in; rewrite ?lookup_insert_eq, ?lookup_insert_ne, ?lookup_insert_eq by done; by intros [= <-].
  - intros x y _ _. apply adj_tail.
  - intros x y cx cy N X Cx Cy. rewrite !two_in in N. destruct (adj_in _ _ _ X) as [Xq Yq].
    assert (x <> n /\ y <> n) as [Xn Yn] by (split; by intros ->).
    assert (y <> b) as Yb.
    { intros ->. exact (adj_not_head (b :: r) x b ND X eq_refl). }
    assert (x = b) as -> by (destruct N as [[|]|[|]]; congruence).
    rewrite lookup_insert_ne, lookup_insert_eq in Cx by done. injection Cx as <-. rewrite !lookup_insert_ne in Cy by done.
    pose proof (inv_pair _ _ I b y cb cy (adj_tail _ _ _ _ X) Cb Cy) as K.
    unfold pair_ok, next_unset, next_set in *. by rewrite Pb, Nb, Fb.
  - intros h ch [= <-]. rewrite lookup_insert_ne, lookup_insert_eq by done. intros [= <-].
    rewrite two_in. left. split; [by right|done].
  - intros z cz Hz Cz. rewrite two_in.
    assert (z <> n) by (intros ->; apply Nn; by apply last_Some_elem_of).
    destruct (decide (z = b)) as [->|]; [left|right; naive_solver].
    rewrite lookup_insert_ne, lookup_insert_eq in Cz by done. injection Cz as <-. split; [by right|].
    pose proof (inv_last _ _ I b cb Hz Cb) as K. unfold last_ok in *. by rewrite Pb, Nb, Fb.
Qed.

Lemma step_rel_pass : forall m, stage c = RelPass m -> keeps (after s n (stage c) q) (mcs_lock_release s n c).
Proof.
  intros m P. pose proof (inv_owner s q I n c C) as H. rewrite P in H. specialize (H eq_refl).
  assert (Q : queued (stage c) = true) by by rewrite P.
  pose proof (inv_cell _ _ I n c C) as CO. unfold cell_ok in CO. rewrite P in CO. destruct CO as [NX [b' ->]].
  unfold mcs_lock_release, after. rewrite P.
  destruct (inv_behind s q I n c C Q) as [[L LO]|(b & cb & B & N & Cb & Qb & PO)].
  { unfold last_ok in LO. rewrite P in LO. by destruct LO as (_ & _ & []). }
  assert (b' = b) as -> by (unfold pair_ok in PO; destruct (stage cb); naive_solver congruence).
  assert (exists r, q = n :: b :: r) as [r Eq].
  { destruct q as [|h r0]; [done|]. cbn in H. injection H as ->. destruct (adj_cons_inv _ _ _ _ B) as [B'|[_ Hb]].
    - destruct (adj_in _ _ _ B') as [X _]. pose proof (inv_nodup _ _ I) as ND. by apply NoDup_cons in ND as [? _].
    - destruct r0 as [|b0 r]; [done|]. cbn in Hb. injection Hb as ->. by exists r. }
  assert (NP : forall m e, points (cells s) !! m <> Some (RelSetEvent e)) by (apply (none_passing s q n c I C); [done|by rewrite P]).
  unfold cell_at. rewrite Cb. cbn.
  replace (tail q) with (b :: r) by by rewrite Eq.
  assert ((exists e, stage cb = AcqBlocked e /\ readyFlag cb = FEvent e /\ events s !! e = Some false) \/
          readyFlag cb = F0 /\ blocked_on (stage cb) = None /\
            (stage cb = AcqSetNext n /\ nextFlag c = F0 \/ stage cb = AcqWaitRd \/ stage cb = AcqWaitCas)) as [(e & Pb & R & E)|(R & Bb & K)].
  { pose proof (inv_cell _ _ I b cb Cb) as Kb. unfold pair_ok, next_unset, cell_ok in *. rewrite P in PO.
    destruct (stage cb); try done; naive_solver congruence. }
  - rewrite R. cbn. eapply inv_pass; try done.
    + by rewrite <- R in *; unfold cell_ok; cbn; rewrite Pb.
    + eapply (waits_pass _ n (stage c) _ (points_at _ _ _ C) e); try done; [by rewrite P|by rewrite (points_at _ _ _ Cb), Pb|apply I].
    + unfold head_ok. cbn. rewrite Pb. right. split; [done|]. exists n. rewrite lookup_insert_eq. eauto.
  - rewrite R. cbn. eapply inv_pass; try done.
    + unfold cell_ok. cbn. destruct K as [[-> _]|[-> | ->]]; done.
    + apply (waits_move _ _ (stage c)); [by apply points_at|by rewrite ?P..|]. by eapply waits_head, I.
    + unfold head_ok. cbn. destruct K as [[-> F]|[-> | ->]]; try done. split; [done|].
      exists (set_pc c Done). by rewrite lookup_insert_eq.
Qed.
End Leave.

Lemma step_rel_set_event s q n c e : mcs_inv s q -> cells s !! n = Some c -> stage c = RelSetEvent e ->
  keeps q (mcs_lock_release s n c).
Proof.
  intros I C P. pose proof (points_at _ _ _ C) as Pn. rewrite P in Pn.
  destruct (w_set _ _ _ _ (inv_waits _ _ I) n e Pn) as (h & Hh & Ph & E).
  destruct (inv_cell_in s q I h) as (ch & Ch & Qh); [by apply head_Some_elem_of|].
  rewrite (points_at _ _ _ Ch) in Ph. injection Ph as Ph.
  assert (NE : h <> n) by (intros ->; congruence).
  assert (Nn : n ∉ q) by (rewrite (inv_in s q I n c C), P; done).
  unfold mcs_lock_release. rewrite P. unfold SetEvent. cbn. rewrite E. cbn.
  apply (mcs_update s q _ q [n; h]); cbn; try done.
  - rewrite points_insert. eapply queue_move; [by apply points_at|by rewrite P|apply I].
  - rewrite points_insert.
    apply (waits_signal _ _ (stage c)); [by apply points_at|by rewrite ?P..| |by rewrite E|apply I].
    intros m Nm M. apply Nm. exact (w_set1 _ _ _ _ (inv_waits _ _ I) _ _ _ _ M Pn).
  - intros m N. rewrite two_in in N. rewrite lookup_insert_ne; [done|naive_solver].
  - intros m cm e0 N M B. rewrite two_in in N. apply lookup_insert_ne. intros <-. apply N. right.
    eapply (inv_blocked s q I); eauto. by rewrite Ph.
  - intros m cm [->| ->]%two_in.
    + rewrite lookup_insert_eq. by intros [= <-].
    + rewrite lookup_insert_ne by done. apply (inv_cell _ _ I).
  - intros x y cx cy N X Cx Cy. destruct (adj_in _ _ _ X) as [Xq Yq].
    assert (x <> n /\ y <> n) as [Xn Yn] by (split; by intros ->).
    rewrite !lookup_insert_ne in Cx, Cy by done.
    assert (y <> h) as Yh by (intros ->; exact (adj_not_head _ _ _ (inv_nodup _ _ I) X Hh)).
    assert (forall m cm e0, m <> h -> cells s !! m = Some cm -> blocked_on (stage cm) = Some e0 ->
              <[e := true]> (events s) !! e0 = events s !! e0) as EV.
    { intros m cm e0 Nm Cm B. apply lookup_insert_ne. intros <-. apply Nm.
      eapply (inv_blocked s q I); eauto. by rewrite Ph. }
    pose proof (inv_pair _ _ I _ _ _ _ X Cx Cy) as K.
    destruct (decide (x = h)) as [->|Xh].
    + assert (cx = ch) as -> by congruence. apply (pair_same _ h (set_pc ch Held)); try done; [by rewrite Ph|].
      eapply pair_events, pair_left, K; try done; [intros e0; by apply (EV y)|by rewrite Ph].
    + eapply pair_events, K; intros e0; [by apply (EV x)|by apply (EV y)].
  - intros h' ch' Hh'. simplify_eq. rewrite lookup_insert_ne by done. intros Ch'. simplify_eq.
    rewrite two_in. left. split; [by right|]. unfold head_ok. cbn. rewrite Ph, lookup_insert_eq. by left.
  - intros z cz Hz Cz. rewrite two_in.
    assert (z <> n) by (intros ->; apply Nn; by apply last_Some_elem_of).
    rewrite lookup_insert_ne in Cz by done.
    destruct (decide (z = h)) as [->|]; [left|right; naive_solver]. split; [by right|].
    by apply (inv_last _ _ I h).
Qed.

Lemma start_keeps try s q n : mcs_inv s q -> keeps q (start false try s n).
Proof.
  intros I. unfold start. destruct (cells s !! n) as [c|] eqn:C; [by destruct (stage c)|]. cbn.
  set (c0 := Cell (if try then TryCas else AcqXchg) None F0 F0).
  assert (P0 : stage c0 = AcqXchg \/ stage c0 = TryCas) by (subst c0; destruct try; auto).
  assert (FL : next c0 = None /\ readyFlag c0 = F0 /\ nextFlag c0 = F0) by done. clearbody c0.
  assert (PN : points (cells s) !! n = None) by (unfold points; by rewrite lookup_fmap, C).
  assert (Nn : n ∉ q) by (intros (cc & Cc & _)%(inv_cell_in s q I); congruence).
  assert (NB : blocked_on (stage c0) = None /\ queued (stage c0) = false /\ is_relset (stage c0) = false)
    by (by destruct P0 as [-> | ->]).
  destruct NB as (B0 & Q0 & S0).
  apply (mcs_update s q _ q [n]); cbn; try done.
  - rewrite points_insert. apply queue_fresh; [done|done|apply I].
  - rewrite points_insert. apply waits_fresh; [done|done|done|apply I].
  - intros m N. rewrite list_elem_of_singleton in N. by rewrite lookup_insert_ne by congruence.
  - intros m cm ->%list_elem_of_singleton. rewrite lookup_insert_eq. intros [= <-].
    unfold cell_ok. by destruct P0 as [-> | ->].
  - intros a b ca cb N AB. destruct (adj_in _ _ _ AB). rewrite !list_elem_of_singleton in N. by destruct N as [-> | ->].
  - intros h ch Hh Ch. right. rewrite list_elem_of_singleton.
    assert (h <> n) by (intros ->; by apply Nn, head_Some_elem_of). split_and!; try done.
    apply head_ok_mono; [|done]. cbn. intros m cm M _. rewrite lookup_insert_ne; [done|congruence].
  - intros z cz Hz _. right. rewrite list_elem_of_singleton. split; [|done].
    intros ->. by apply Nn, last_Some_elem_of.
Qed.

Lemma mcs_init_inv : mcs_inv mcs_init [].
Proof.
  split; try done.
  - split; [constructor|done|]. intros n. split; [by intros ?%elem_of_nil|]. by intros (p & H & _).
  - split; try done; intros e; [|by intros []]. split; [by intros []|]. by intros [n H].
Qed.

(** Every step keeps the invariant, with the queue it leads to. *)
Lemma mcs_step_keeps s q n c : mcs_inv s q -> cells s !! n = Some c ->
  keeps (after s n (stage c) q) (mcs_step s n).
Proof.
  intros I C. unfold mcs_step. rewrite C. unfold cell_step. destruct (stage c) eqn:P; try done.
  - by apply step_xchg.
  - rewrite <- P. by apply step_try.
  - by apply step_link with pred; rewrite ?P.
  - by apply step_set_next with pred; rewrite ?P.
  - by apply step_acq_set_event with e; rewrite ?P.
  - by apply step_wait_rd; rewrite ?P.
  - by apply step_wait_cas; rewrite ?P.
  - by apply step_blocked with e; rewrite ?P.
  - by apply step_held; rewrite ?P.
  - by apply step_rel_read; rewrite ?P.
  - rewrite <- P. by apply step_rel_cas.
  - by apply step_rel_wait_rd; rewrite ?P.
  - by apply step_rel_wait_cas; rewrite ?P.
  - by apply step_rel_blocked with e; rewrite ?P.
  - by apply step_rel_next; rewrite ?P.
  - rewrite <- P. by eapply step_rel_pass.
  - by apply step_rel_set_event with e.
Qed.

(** *** Runs *)

Lemma after_queue s n c q : mcs_inv s q -> cells s !! n = Some c ->
  (if arrives s c then q ++ [n] else q) =
  (if leaves s n c then [n] else []) ++ after s n (stage c) q.
Proof.
  intros I C. unfold arrives, leaves, after. pose proof (q_lock _ _ _ (inv_queue _ _ I)) as L.
  assert (H : owning (stage c) = true -> head q = Some n) by by apply inv_owner with s.
  destruct (stage c) eqn:P; try done.
  - case_bool_decide as E; rewrite L in E; [by apply last_None in E as ->|by destruct q].
  - case_bool_decide; [|done]. specialize (H eq_refl). destruct q; [done|]. by injection H as ->.
  - specialize (H eq_refl). destruct q; [done|]. by injection H as ->.
Qed.

Lemma mcs_run_inv s arr dep : mcs_run false s arr dep -> exists q, mcs_inv s q /\ arr = dep ++ q.
Proof.
  induction 1 as [|s arr dep try n s' _ (q & I & E) S|s arr dep n c s' _ (q & I & E) C S].
  - exists []. split; [apply mcs_init_inv|done].
  - exists q. split; [|done]. pose proof (start_keeps try s q n I) as K. by rewrite S in K.
  - pose proof (mcs_step_keeps s q n c I C) as K. rewrite S in K. cbn in K.
    exists (after s n (stage c) q). split; [done|]. pose proof (after_queue s n c q I C) as A. subst arr.
    destruct (arrives s c), (leaves s n c); cbn in A; rewrite <- ?app_assoc; cbn; by rewrite <- ?A.
Qed.

(** C15: with nodes that are used once, any interleaving of the users of the MCS
    lock keeps it: the nodes leave in the order in which they arrived; only
    the first of those that have not left owns it, so never two; [lock] is
    null when nobody is in the queue; and no access faults. *)
Theorem mcs_fifo s arr dep : mcs_run false s arr dep ->
  dep `prefix_of` arr /\
  (forall n c, cells s !! n = Some c -> owning (stage c) = true -> arr !! length dep = Some n) /\
  (lock s = None <-> arr = dep) /\
  (forall n, mcs_step s n <> Fault).
Proof.
  intros (q & I & ->)%mcs_run_inv. split_and!.
  - by exists q.
  - intros n c C O. rewrite lookup_app_r, Nat.sub_diag, <- head_lookup0 by lia. by apply inv_owner with s c.
  - rewrite (q_lock _ _ _ (inv_queue _ _ I)), last_None. split; [intros ->; by rewrite app_nil_r|].
    intros E. apply (f_equal length) in E. rewrite length_app in E. destruct q; [done|cbn in E; lia].
  - intros n. destruct (cells s !! n) as [c|] eqn:C; [|by unfold mcs_step; rewrite C].
    pose proof (mcs_step_keeps s q n c I C) as K. by destruct (mcs_step s n).
Qed.

(** *** Every user is served *)

Lemma rank_insert P n p : P !! n = None -> rank (<[n := p]> P) = (pc_rank p + rank P)%nat.
Proof.
  intros N. unfold rank. rewrite (fmap_Permutation _ _ _ (map_to_list_insert P n p N)). done.
Qed.

Lemma rank_move P n p p' : P !! n = Some p -> (pc_rank p' < pc_rank p)%nat -> (rank (<[n := p']> P) < rank P)%nat.
Proof.
  intros N L. rewrite <- (insert_delete_id P n p N) at 2. rewrite <- (insert_delete_eq P n p').
  rewrite !rank_insert by apply lookup_delete_eq. lia.
Qed.

(** A step moves one user forward, and no other. *)
Lemma step_moves s n s' : mcs_step s n = Ok s' ->
  exists p p', points (cells s) !! n = Some p /\ points (cells s') = <[n := p']> (points (cells s)) /\
    (pc_rank p' < pc_rank p)%nat.
Proof.
  unfold mcs_step. destruct (cells s !! n) as [c|] eqn:C; [|done]. intros H. exists (stage c).
  cut (exists p', points (cells s') = <[n := p']> (points (cells s)) /\ (pc_rank p' < pc_rank (stage c))%nat).
  { intros (p' & A & B). exists p'. split_and!; try done. by apply points_at. }
  unfold cell_step in H. destruct (stage c) eqn:P; try done;
    unfold mcs_lock_acquire, mcs_lock_try_acquire, mcs_lock_release in H; rewrite P in H.
  all: unfold flag_wait_read, flag_wait_cas, flag_wait_block, SetEvent, cell_at in H; cbn in H.
  all: repeat case_match; simplify_eq; cbn; rewrite ?points_insert; cbn.
  all: try (eexists; split; [reflexivity|cbn; lia]).
  all: cbn in H; try destruct (flag_set _) as [f [e|]]; simplify_eq; cbn; rewrite points_insert;
    (erewrite points_same; [|eassumption|done]); eexists; (split; [reflexivity|cbn; lia]).
Qed.

(** [k] steps of the users of the nodes that there are. *)
Inductive mcs_steps : nat -> mcs -> mcs -> Prop :=
| mcs_steps_0 s : mcs_steps 0 s s
| mcs_steps_S k s n s' s'' : mcs_step s n = Ok s' -> mcs_steps k s' s'' -> mcs_steps (S k) s s''.

Lemma steps_rank k s s' : mcs_steps k s s' -> (k + rank (points (cells s')) <= rank (points (cells s)))%nat.
Proof.
  induction 1 as [|k s n s' s'' S _ IH]; [done|].
  destruct (step_moves s n s' S) as (p & p' & Pn & E & L). rewrite E in IH.
  pose proof (rank_move _ _ _ _ Pn L). lia.
Qed.

(** A user that cannot go on is done, or waits for an event that is not set. *)
Lemma step_waits s n c x : cells s !! n = Some c -> mcs_step s n = Err x ->
  stage c = Done \/ exists e, blocked_on (stage c) = Some e /\ events s !! e = Some false.
Proof.
  intros C H. unfold mcs_step in H. rewrite C in H. unfold cell_step in H.
  destruct (stage c) eqn:P; try (by left);
    unfold mcs_lock_acquire, mcs_lock_try_acquire, mcs_lock_release in H; rewrite P in H.
  all: unfold flag_wait_read, flag_wait_cas, flag_wait_block, SetEvent, cell_at in H; cbn in H.
  all: repeat case_match; simplify_eq; cbn in *; repeat case_match; simplify_eq; eauto.
Qed.

Lemma inv_waits_or_done s q n c : mcs_inv s q -> (forall n s', mcs_step s n <> Ok s') -> cells s !! n = Some c ->
  stage c = Done \/ exists e, blocked_on (stage c) = Some e /\ events s !! e = Some false.
Proof.
  intros I ST C. pose proof (mcs_step_keeps s q n c I C) as K. specialize (ST n).
  destruct (mcs_step s n) as [s'|x| |] eqn:E; try done; [by destruct (ST s')|]. by eapply step_waits.
Qed.

(** When nobody can go on, everybody is done. *)
Lemma mcs_progress s q : mcs_inv s q -> (forall n s', mcs_step s n <> Ok s') ->
  q = [] /\ events s = ∅ /\ forall n c, cells s !! n = Some c -> stage c = Done.
Proof.
  intros I ST. pose proof (inv_waits_or_done s q) as W.
  assert (q = []) as ->.
  { destruct q as [|h r]; [done|exfalso].
    destruct (inv_cell_in s _ I h) as (c & C & Q); [by left|].
    destruct (W h c I ST C) as [P|(e & B & E)]; [by rewrite P in Q|].
    pose proof (inv_head _ _ I h c eq_refl C) as HO. unfold head_ok in HO.
    destruct (stage c) eqn:P; cbn in B; try done; simplify_eq.
    - destruct HO as [HO|[_ (m & cm & M & Pm)]]; [congruence|].
      destruct (W m cm I ST M) as [?|(? & B & _)]; rewrite Pm in *; done.
    - destruct (inv_behind s _ I h c C) as [[_ LO]|(b & cb & _ & _ & Cb & Qb & PO)]; [by rewrite P| |].
      + unfold last_ok in LO. rewrite P in LO. by destruct LO as (_ & _ & []).
      + unfold pair_ok, next_set in PO. rewrite P in PO.
        destruct (W b cb I ST Cb) as [Pb|(e' & Bb & _)]; [by rewrite Pb in Qb|].
        destruct (stage cb); try done. destruct PO as (_ & (_ & T) & _). congruence. }
  assert (D : forall n c, cells s !! n = Some c -> stage c = Done).
  { intros n c C. destruct (W n c I ST C) as [P|(e & B & E)]; [done|].
    assert (queued (stage c) = true) as Q by by destruct (stage c).
    apply (inv_in s [] I n c C) in Q. by apply elem_of_nil in Q. }
  split_and!; try done. apply map_eq. intros e. rewrite lookup_empty.
  destruct (events s !! e) as [v|] eqn:E; [|done]. exfalso.
  destruct (proj1 (w_waited _ _ _ _ (inv_waits _ _ I) e)) as [n Hn]; [eauto|].
  unfold points in Hn. rewrite lookup_fmap in Hn. destruct (cells s !! n) as [c|] eqn:C; [|done].
  cbn in Hn. by rewrite (D n c C) in Hn.
Qed.

(** C16: with nodes that are used once, every user is served.  The users of the
    nodes that there are make no more than [rank] steps, however they
    interleave; and as long as one of them has not left, one of them can go
    on: when none can, all have left in the order of their arrival, the lock is
    free and every event is closed. *)
Theorem mcs_all_served s arr dep : mcs_run false s arr dep ->
  (forall k s', mcs_steps k s s' -> (k <= rank (points (cells s)))%nat) /\
  ((forall n s', mcs_step s n <> Ok s') ->
   (forall n c, cells s !! n = Some c -> stage c = Done) /\ arr = dep /\ lock s = None /\ events s = ∅).
Proof.
  intros R. split; [intros k s' H%steps_rank; lia|]. intros ST.
  destruct (mcs_run_inv s arr dep R) as (q & I & ->).
  destruct (mcs_progress s q I ST) as (-> & E & D). split_and!; try done; [by rewrite app_nil_r|].
  apply (q_lock _ _ _ (inv_queue _ _ I)).
Qed.

(** *** Runs that are computed *)

Inductive event : Type := Start (try : bool) (n : nat) | Step (n : nat).

(** The state, the arrivals and the departures. *)
Notation log := (mcs * list nat * list nat)%type.

Definition replay1 (again : bool) (r : log) (e : event) : outcome log :=
  let '(s, arr, dep) := r in
  match e with
  | Start try n => s' <- start again try s n;; Ok (s', arr, dep)
  | Step n =>
      s' <- mcs_step s n;;
      match cells s !! n with
      | Some c => Ok (s', if arrives s c then arr ++ [n] else arr, if leaves s n c then dep ++ [n] else dep)
      | None => Fault
      end
  end.

Fixpoint replay (again : bool) (r : log) (l : list event) : outcome log :=
  match l with
  | [] => Ok r
  | e :: l => r' <- replay1 again r e;; replay again r' l
  end.

Lemma replay_reaches again l s arr dep s' arr' dep' : mcs_run again s arr dep ->
  replay again (s, arr, dep) l = Ok (s', arr', dep') -> mcs_run again s' arr' dep'.
Proof.
  revert s arr dep. induction l as [|[try n|n] l IH]; intros s arr dep R H; cbn in H; [by simplify_eq|..].
  - destruct (start again try s n) as [s1| | |] eqn:E; try done. eapply IH; [|exact H]. by eapply mcs_run_start.
  - destruct (mcs_step s n) as [s1| | |] eqn:E; try done. cbn in H.
    destruct (cells s !! n) as [c|] eqn:C; [|done].
    eapply IH; [|exact H]. by eapply mcs_run_step.
Qed.

(** Node 1 arrives while node 0 has the lock, node 2 tries in vain, and node 1
    links itself when the user of node 0 already waits for it. *)
Definition contended : list event :=
  [Start false 0; Step 0; Start false 1; Step 1; Start true 2; Step 2] ++
  repeat (Step 0) 5 ++ repeat (Step 1) 5 ++ repeat (Step 0) 4 ++ [Step 1].

Definition all_done (s : mcs) : bool :=
  forallb (fun nc => match stage (snd nc) with Done => true | _ => false end) (map_to_list (cells s)).

Lemma all_done_stuck s : all_done s = true -> forall n s', mcs_step s n <> Ok s'.
Proof.
  intros A n s'. unfold mcs_step. destruct (cells s !! n) as [c|] eqn:C; [|done].
  unfold all_done in A. rewrite forallb_forall in A.
  assert (M : (n, c) ∈ map_to_list (cells s)) by by apply elem_of_map_to_list.
  apply list_elem_of_In in M. specialize (A _ M). cbn in A. unfold cell_step. by destruct (stage c).
Qed.

(** What a run shows: the orders, which of the first three nodes can make a
    step, or fault, and whether all are done. *)
Definition shows (o : outcome log) : option (list nat * list nat * list (option bool) * bool) :=
  match o with
  | Ok (s, arr, dep) =>
      Some (arr, dep, map (fun n => match mcs_step s n with Ok _ => Some true | Fault => Some false | _ => None end)
                        [0; 1; 2]%nat, all_done s)
  | _ => None
  end.

Lemma shows_replay again l arr dep r d : shows (replay again (mcs_init, [], []) l) = Some (arr, dep, r, d) ->
  exists s, mcs_run again s arr dep /\ shows (Ok (s, arr, dep)) = Some (arr, dep, r, d).
Proof.
  destruct (replay again (mcs_init, [], []) l) as [[[s a] d']| | |] eqn:E; try done.
  intros [= -> -> H D]. exists s. split; [|by cbn; rewrite H, D].
  exact (replay_reaches _ _ _ _ _ _ _ _ (mcs_run_init again) E).
Qed.

Lemma mcs_fifo_witness : exists s,
  mcs_run false s [0; 1]%nat [0]%nat /\
  (forall n c, cells s !! n = Some c -> owning (stage c) = true -> Some 1%nat = Some n).
Proof.
  destruct (shows_replay false contended [0; 1]%nat [0]%nat [None; Some true; None] false) as (s & R & _);
    [vm_compute; reflexivity|].
  exists s. split; [exact R|]. apply (mcs_fifo s _ _ R).
Defined.

Lemma mcs_all_served_witness : exists s,
  mcs_run false s [0; 1]%nat [0; 1]%nat /\ lock s = None /\ events s = ∅.
Proof.
  destruct (shows_replay false (contended ++ repeat (Step 1) 3) [0; 1]%nat [0; 1]%nat [None; None; None] true) as (s & R & H);
    [vm_compute; reflexivity|].
  exists s. split; [exact R|]. cbn in H. assert (D : all_done s = true) by congruence.
  apply (mcs_all_served s _ _ R). by apply all_done_stuck.
Defined.

(** With nodes that are used again, [mcs_lock_release] can go through a
    null pointer.  The user of node 0 finds [next] set and passes the lock to
    node 1, whose user has not yet set [nextFlag]; node 0 is used again and
    waits in the queue; then the late write of [nextFlag] makes its release
    take the next node before there is one. *)
Theorem mcs_reuse_faults : exists s arr dep, mcs_run true s arr dep /\ mcs_step s 0 = Fault.
Proof.
  set (l := [Start false 0; Step 0; Start false 1; Step 1; Step 1] ++ repeat (Step 0) 3 ++
            [Start false 0; Step 0] ++ repeat (Step 1) 2 ++ repeat (Step 0) 2 ++ repeat (Step 1) 3 ++
            [Step 0; Start false 2; Step 2] ++ repeat (Step 0) 5).
  destruct (shows_replay true l [0; 1; 0; 2]%nat [0; 1]%nat [Some false; None; Some true] false) as (s & R & H);
    [vm_compute; reflexivity|].
  exists s, [0; 1; 0; 2]%nat, [0; 1]%nat. split; [exact R|].
  cbn in H. destruct (mcs_step s 0); congruence.
Qed.
