(* ===== verification/Clipping.v ===== *)
(** The rectangles regions are made of: [clipping_rect] of
    kits/interface/Region.h, the helpers of kits/interface/private/clipping.h,
    and what an array of such rectangles covers.

    A comment of Region.h calls all the bounds of a [clipping_rect] inclusive;
    the helpers of clipping.h read them that way.  RegionSupport.cpp does not:
    its macro [INBOX] leaves the right and the bottom edge out.  [rect_in] is
    the first reading, [INBOX] the second, [shrink] the translation. *)

From Stdlib Require Import ZArith Lia List Bool Sorted.
From stdpp Require Import base tactics list numbers sorting.
From S2P Require Import Prelude.
Local Open Scope Z_scope.
Local Open Scope c_scope.

(** ** Definitions *)

Record clipping_rect : Type := Rect {
  rleft : Z;
  rtop : Z;
  rright : Z;
  rbottom : Z;
}.

#[export] Instance clipping_rect_eq_dec : EqDecision clipping_rect.
Proof. solve_decision. Defined.

Definition min_c (a b : Z) : Z := if b <? a then b else a.
Definition max_c (a b : Z) : Z := if b <? a then a else b.

Definition union_rect (r1 r2 : clipping_rect) : clipping_rect :=
  {| rleft := min_c (rleft r1) (rleft r2); rtop := min_c (rtop r1) (rtop r2);
     rright := max_c (rright r1) (rright r2); rbottom := max_c (rbottom r1) (rbottom r2) |}.

Definition sect_rect (r1 r2 : clipping_rect) : clipping_rect :=
  {| rleft := max_c (rleft r1) (rleft r2); rtop := max_c (rtop r1) (rtop r2);
     rright := min_c (rright r1) (rright r2); rbottom := min_c (rbottom r1) (rbottom r2) |}.

Definition offset_rect (rect : clipping_rect) (x y : Z) : outcome clipping_rect :=
  l <- add_int (rleft rect) x;;
  t <- add_int (rtop rect) y;;
  r <- add_int (rright rect) x;;
  b <- add_int (rbottom rect) y;;
  Ok (Rect l t r b).

Definition point_in (rect : clipping_rect) (px py : Z) : bool :=
  (rleft rect <=? px) && (px <=? rright rect) && (rtop rect <=? py) && (py <=? rbottom rect).

Definition rect_contains (rect testRect : clipping_rect) : bool :=
  (rtop rect <=? rtop testRect) && (rbottom testRect <=? rbottom rect)
  && (rleft rect <=? rleft testRect) && (rright testRect <=? rright rect).

Definition valid_rect (rect : clipping_rect) : bool :=
  (rleft rect <=? rright rect) && (rtop rect <=? rbottom rect).

Definition rects_intersect (rectA rectB : clipping_rect) : bool :=
  if negb (valid_rect rectA) || negb (valid_rect rectB) then false
  else negb ((rright rectB <? rleft rectA) || (rbottom rectB <? rtop rectA)
             || (rright rectA <? rleft rectB) || (rbottom rectA <? rtop rectB)).

Definition rect_width (rect : clipping_rect) : outcome Z :=
  assert_int (rright rect - rleft rect);;; Ok (rright rect - rleft rect).

Definition rect_height (rect : clipping_rect) : outcome Z :=
  assert_int (rbottom rect - rtop rect);;; Ok (rbottom rect - rtop rect).

(** The macros of RegionSupport.cpp, with the right and bottom edges left out. *)
Definition INBOX (r : clipping_rect) (x y : Z) : bool :=
  (x <? rright r) && (rleft r <=? x) && (y <? rbottom r) && (rtop r <=? y).

Definition EXTENTCHECK (r1 r2 : clipping_rect) : bool :=
  (rleft r2 <? rright r1) && (rleft r1 <? rright r2)
  && (rtop r2 <? rbottom r1) && (rtop r1 <? rbottom r2).

(** *** What the proofs speak of *)

(** The points an array of rectangles covers. *)
Definition has (d : list clipping_rect) (x y : Z) : bool := existsb (fun r => INBOX r x y) d.

(** The columns that the rectangles of a band cover. *)
Definition row_has (x : Z) (b : list clipping_rect) : bool :=
  existsb (fun r => (rleft r <=? x) && (x <? rright r)) b.

Definition nonempty (r : clipping_rect) : Prop := rleft r < rright r /\ rtop r < rbottom r.

(** The order of "y-x-banding": two rectangles of one band, apart from each
    other, or two rectangles of which the first ends above the second. *)
Definition yx_before (a b : clipping_rect) : Prop :=
  (rtop a = rtop b /\ rbottom a = rbottom b /\ rright a < rleft b) \/ rbottom a <= rtop b.

Definition banded (d : list clipping_rect) : Prop :=
  Forall nonempty d /\ StronglySorted yx_before d.

(** One band, between [top] and [bot]. *)
Definition is_row (top bot : Z) (b : list clipping_rect) : Prop :=
  Forall (fun r => rtop r = top /\ rbottom r = bot /\ rleft r < rright r) b
  /\ StronglySorted (fun p q => rright p < rleft q) b.

#[export] Instance nonempty_dec r : Decision (nonempty r).
Proof. unfold nonempty. apply _. Defined.

#[export] Instance yx_before_dec a b : Decision (yx_before a b).
Proof. unfold yx_before. apply _. Defined.

(** ** Lemmas *)

Lemma min_c_min a b : min_c a b = Z.min a b.
Proof. unfold min_c. bcase; lia. Qed.

Lemma max_c_max a b : max_c a b = Z.max a b.
Proof. unfold max_c. bcase; lia. Qed.

Create Rewrite HintDb clip.
#[export] Hint Rewrite min_c_min max_c_max : clip.

Lemma INBOX_true r x y :
  INBOX r x y = true <-> rleft r <= x < rright r /\ rtop r <= y < rbottom r.
Proof. unfold INBOX. rewrite !andb_true_iff, !Z.ltb_lt, !Z.leb_le. lia. Qed.

Lemma EXTENTCHECK_true r1 r2 :
  EXTENTCHECK r1 r2 = true <->
  rleft r2 < rright r1 /\ rleft r1 < rright r2 /\ rtop r2 < rbottom r1 /\ rtop r1 < rbottom r2.
Proof. unfold EXTENTCHECK. rewrite !andb_true_iff, !Z.ltb_lt. lia. Qed.

Lemma has_true d x y : has d x y = true <-> exists r, r ∈ d /\ INBOX r x y = true.
Proof.
  unfold has. rewrite existsb_exists.
  split; intros (r & Hr & ?); exists r; split; auto; by apply list_elem_of_In.
Qed.

Lemma has_false d x y : has d x y = false <-> forall r, r ∈ d -> INBOX r x y = false.
Proof.
  rewrite <- not_true_iff_false, has_true. split.
  - intros H r Hr. destruct (INBOX r x y) eqn:E; [|done]. exfalso. eauto.
  - intros H (r & Hr & E). rewrite H in E; done.
Qed.

Lemma row_has_true x b : row_has x b = true <-> exists r, r ∈ b /\ rleft r <= x < rright r.
Proof.
  unfold row_has. rewrite existsb_exists.
  split; intros (r & Hr & H); exists r.
  - rewrite andb_true_iff, Z.leb_le, Z.ltb_lt in H. split; [by apply list_elem_of_In|done].
  - rewrite andb_true_iff, Z.leb_le, Z.ltb_lt. split; [by apply list_elem_of_In|done].
Qed.

Lemma has_app d d' x y : has (d ++ d') x y = has d x y || has d' x y.
Proof. apply existsb_app. Qed.

Lemma row_has_app x d d' : row_has x (d ++ d') = row_has x d || row_has x d'.
Proof. apply existsb_app. Qed.

Lemma row_has_cons x r b :
  row_has x (r :: b) = (rleft r <=? x) && (x <? rright r) || row_has x b.
Proof. reflexivity. Qed.

Lemma has_row top bot b x y :
  is_row top bot b -> has b x y = (top <=? y) && (y <? bot) && row_has x b.
Proof.
  intros [H _]. induction H as [|r b (Ht & Hb & _) _ IH]; simpl.
  - by rewrite andb_false_r.
  - change (existsb _ b) with (has b x y). rewrite IH. unfold INBOX, row_has.
    rewrite Ht, Hb. simpl.
    destruct (rleft r <=? x), (x <? rright r), (y <? bot), (top <=? y); reflexivity.
Qed.

Lemma has_out d x y :
  Forall (fun r => y < rtop r \/ rbottom r <= y) d -> has d x y = false.
Proof.
  intros H. apply has_false. intros r Hr. rewrite Forall_forall in H.
  specialize (H _ Hr). apply not_true_iff_false. rewrite INBOX_true. lia.
Qed.

Lemma row_has_out x b :
  Forall (fun r => x < rleft r \/ rright r <= x) b -> row_has x b = false.
Proof.
  intros H. apply not_true_iff_false. rewrite row_has_true. intros (r & Hr & ?).
  rewrite Forall_forall in H. specialize (H _ Hr). lia.
Qed.

(** The four comparisons that say where a point is, as propositions. *)
Ltac cmp_cases :=
  repeat match goal with
  | |- context [?a <=? ?b] => destruct (Z.leb_spec a b)
  | |- context [?a <? ?b] => destruct (Z.ltb_spec a b)
  end.

(** [banded] and [is_row] of lists built by [::] and [++]. *)
Lemma banded_nil : banded [].
Proof. split; constructor. Qed.

Lemma banded_cons r d : banded (r :: d) <-> nonempty r /\ Forall (yx_before r) d /\ banded d.
Proof. unfold banded. rewrite Forall_cons, StronglySorted_cons. tauto. Qed.

Lemma banded_app d d' :
  banded (d ++ d') <->
  banded d /\ banded d' /\ (forall a b, a ∈ d -> b ∈ d' -> yx_before a b).
Proof. unfold banded. rewrite Forall_app, StronglySorted_app. tauto. Qed.

Lemma is_row_nil top bot : is_row top bot [].
Proof. split; constructor. Qed.

Lemma is_row_cons top bot r b :
  is_row top bot (r :: b) <->
  (rtop r = top /\ rbottom r = bot /\ rleft r < rright r)
  /\ Forall (fun q => rright r < rleft q) b /\ is_row top bot b.
Proof. unfold is_row. rewrite Forall_cons, StronglySorted_cons. tauto. Qed.

Lemma is_row_app top bot b b' :
  is_row top bot (b ++ b') <->
  is_row top bot b /\ is_row top bot b' /\ (forall p q, p ∈ b -> q ∈ b' -> rright p < rleft q).
Proof. unfold is_row. rewrite Forall_app, StronglySorted_app. tauto. Qed.

Lemma is_row_snoc top bot b r :
  is_row top bot b -> Forall (fun p => rright p < rleft r) b ->
  rtop r = top -> rbottom r = bot -> rleft r < rright r -> is_row top bot (b ++ [r]).
Proof.
  intros Hb Hl ?? ?. apply is_row_app. split_and!; [done| |].
  - apply is_row_cons. split_and!; auto using is_row_nil.
  - intros p q Hp ->%list_elem_of_singleton. rewrite Forall_forall in Hl. auto.
Qed.

Lemma is_row_banded top bot b : top < bot -> is_row top bot b -> banded b.
Proof.
  intros Ht [H1 H2]. split.
  - eapply Forall_impl; [apply H1|]. unfold nonempty. intros r (-> & -> & ?). lia.
  - induction H2 as [|r b _ IH Hr]; constructor; [eauto using Forall_inv_tail|].
    apply Forall_cons in H1 as [(? & ? & _) H1].
    rewrite Forall_forall in *. intros q Hq. left.
    destruct (H1 q Hq) as (? & ? & _). split_and!; [congruence..|auto].
Qed.

(** ** The helpers of clipping.h *)

(** The intersection of two rectangles covers the points of both. *)
Lemma sect_rect_points a b x y :
  point_in (sect_rect a b) x y = point_in a x y && point_in b x y.
Proof.
  unfold point_in, sect_rect; simpl. autorewrite with clip.
  apply eq_true_iff_eq. rewrite !andb_true_iff, !Z.leb_le. lia.
Qed.

(** [rects_intersect] says that two valid rectangles have a point in
    common, which is what the slower test its comment mentions computes: the
    intersection rectangle is valid. *)
Theorem rects_intersect_correct (a b : clipping_rect) :
  (rects_intersect a b = true <->
   valid_rect a = true /\ valid_rect b = true
   /\ exists x y, point_in a x y = true /\ point_in b x y = true)
  /\ rects_intersect a b = valid_rect a && valid_rect b && valid_rect (sect_rect a b).
Proof.
  assert (Heq : rects_intersect a b = valid_rect a && valid_rect b && valid_rect (sect_rect a b)).
  { unfold rects_intersect, valid_rect, sect_rect; simpl. autorewrite with clip.
    apply eq_true_iff_eq.
    destruct (negb _ || negb _) eqn:Hv;
      rewrite ?orb_true_iff, ?orb_false_iff, ?negb_true_iff, ?negb_false_iff in Hv;
      rewrite ?negb_true_iff, ?orb_false_iff, ?andb_true_iff, ?Z.ltb_ge, ?Z.leb_le in *.
    - split; [discriminate|]. rewrite !andb_false_iff, !Z.leb_gt in Hv. lia.
    - lia. }
  split; [|done]. rewrite Heq, !andb_true_iff. split.
  - intros [[Ha Hb] Hs]. split_and!; auto.
    exists (rleft (sect_rect a b)), (rtop (sect_rect a b)).
    rewrite <- andb_true_iff, <- sect_rect_points.
    unfold valid_rect in Hs. unfold point_in.
    rewrite !andb_true_iff, !Z.leb_le in *. lia.
  - intros (Ha & Hb & x & y & Hab). split; [done|].
    rewrite <- andb_true_iff, <- sect_rect_points in Hab. revert Hab.
    unfold valid_rect, point_in. rewrite !andb_true_iff, !Z.leb_le. lia.
Qed.
