(* ===== verification/RegionBand.v ===== *)
(** The functions that RegionSupport.cpp (kits/interface) applies to one band
    of two regions: [miUnionO], [miUnionNonO], [miIntersectO], [miSubtractO]
    and [miSubtractNonO1], with the macro [MEMCHECK] by which they grow the
    array they write, over a class of regions ([RegionClass]) that stands for
    the members the file calls and the repository does not have.

    [BandOp] is the interface between them and [miRegionOp]: what an overlap
    function and two non-overlap functions have to do for the point sets of
    the regions to be combined by a boolean function. *)

From Stdlib Require Import ZArith Lia List Bool Sorted.
From stdpp Require Import base tactics list numbers sorting.
From S2P Require Import Prelude Clipping.
Local Open Scope Z_scope.
Local Open Scope c_scope.

(** ** The state of a region

    [fData] holds the first [fCount] entries of the array; the block it lies
    in has room for [fAlloc] of them, and the region believes it to have room
    for [fDataSize]. *)

Record region : Type := Region {
  fData : list clipping_rect;
  fAlloc : Z;
  fDataSize : Z;
  fBounds : clipping_rect;
}.

Definition fCount (r : region) : Z := zlen (fData r).

Definition set_data (d : region) (l : list clipping_rect) : region :=
  {| fData := l; fAlloc := fAlloc d; fDataSize := fDataSize d; fBounds := fBounds d |}.

Definition set_bounds (d : region) (b : clipping_rect) : region :=
  {| fData := fData d; fAlloc := fAlloc d; fDataSize := fDataSize d; fBounds := b |}.

(** What the functions call and the repository does not have.  The class
    [BRegion] that RegionSupport.cpp is written for, with [fData], [fCount],
    [fDataSize] and [fBounds], is not the one of Region.h, so that its members
    [MakeEmpty], [_SetSize], which says whether there was memory, and
    [operator=] are parameters, as is the answer of [realloc] to a request for
    so many bytes. *)
Class RegionClass := {
  MakeEmpty : region -> region;
  _SetSize : region -> Z -> region * bool;
  operator_assign : region -> region -> region;
  realloc_ok : Z -> bool;
}.

(** What they are relied on for, with a gigabyte of memory to give. *)
Class RegionClassOk `{RegionClass} : Prop := {
  MakeEmpty_data r : fData (MakeEmpty r) = [];
  SetSize_enough r n : 0 < n <= 2 ^ 20 ->
    exists r', _SetSize r n = (r', true) /\ fData r' = fData r /\ fAlloc r' = n /\ fDataSize r' = n;
  assign_data d r : fData (operator_assign d r) = fData r;
  assign_bounds d r : fBounds (operator_assign d r) = fBounds r;
  realloc_enough n : 0 < n <= 2 ^ 30 -> realloc_ok n = true;
}.

Section Band.
Context `{RegionClass}.

Definition sizeof_clipping_rect : Z := 16.

(** [MEMCHECK]: the number of bytes is cast to [unsigned].  The functions
    return at once when [realloc] fails, with [fData] set to NULL; the model
    stops there. *)
Definition MEMCHECK (d : region) : outcome region :=
  if fDataSize d - 1 <=? fCount d then
    let bytes := u32 (2 * sizeof_clipping_rect * fDataSize d) in
    if realloc_ok bytes then
      Ok {| fData := fData d; fAlloc := bytes / sizeof_clipping_rect;
            fDataSize := fDataSize d * 2; fBounds := fBounds d |}
    else Err ENOMEM
  else Ok d.

(** [MEMCHECK], then a rectangle stored at [fData[fCount]]. *)
Definition add_rect (d : region) (r : clipping_rect) : outcome region :=
  d <- MEMCHECK d;;
  if fCount d <? fAlloc d then Ok (set_data d (fData d ++ [r])) else Fault.

(** The loop of [miUnionNonO] and of [miSubtractNonO1]. *)
Fixpoint copy_band (d : region) (r : list clipping_rect) (top bottom : Z) : outcome region :=
  match r with
  | [] => Ok d
  | a :: r =>
      d <- add_rect d (Rect (rleft a) top (rright a) bottom);;
      copy_band d r top bottom
  end.

Definition miUnionNonO : region -> list clipping_rect -> Z -> Z -> outcome region := copy_band.
Definition miSubtractNonO1 : region -> list clipping_rect -> Z -> Z -> outcome region := copy_band.

(** *** Union *)

(** [MERGERECT], without the [r++] at its end; [pNextRect[-1]] is the last
    rectangle stored. *)
Definition MERGERECT (d : region) (r : clipping_rect) (top bottom : Z) : outcome region :=
  match rev (fData d) with
  | p :: rest =>
      if (rtop p =? top) && (rbottom p =? bottom) && (rleft r <=? rright p) then
        if rright p <? rright r
        then Ok (set_data d (rev rest ++ [Rect (rleft p) (rtop p) (rright r) (rbottom p)]))
        else Ok d
      else add_rect d (Rect (rleft r) top (rright r) bottom)
  | [] => add_rect d (Rect (rleft r) top (rright r) bottom)
  end.

Definition union_body (top bottom : Z) (s : region * list clipping_rect * list clipping_rect)
    : outcome (region * list clipping_rect * list clipping_rect
               + region * list clipping_rect * list clipping_rect) :=
  let '(d, r1, r2) := s in
  match r1, r2 with
  | a :: r1', b :: r2' =>
      if rleft a <? rleft b then
        d <- MERGERECT d a top bottom;; Ok (inl (d, r1', r2))
      else
        d <- MERGERECT d b top bottom;; Ok (inl (d, r1, r2'))
  | _, _ => Ok (inr (d, r1, r2))
  end.

Fixpoint merge_rest (d : region) (r : list clipping_rect) (top bottom : Z) : outcome region :=
  match r with
  | [] => Ok d
  | a :: r => d <- MERGERECT d a top bottom;; merge_rest d r top bottom
  end.

Definition miUnionO (d : region) (r1 r2 : list clipping_rect) (top bottom : Z) : outcome region :=
  s <- loop (S (length r1 + length r2)) (union_body top bottom) (d, r1, r2);;
  let '(d, r1, r2) := s in
  if bool_decide (r1 <> []) then merge_rest d r1 top bottom
  else merge_rest d r2 top bottom.

(** *** Intersection *)

Definition intersect_body (top bottom : Z) (s : region * list clipping_rect * list clipping_rect)
    : outcome (region * list clipping_rect * list clipping_rect + region) :=
  let '(d, r1, r2) := s in
  match r1, r2 with
  | a :: r1', b :: r2' =>
      let lft := max_c (rleft a) (rleft b) in
      let rgt := min_c (rright a) (rright b) in
      d <- (if lft <? rgt then add_rect d (Rect lft top rgt bottom) else Ok d);;
      if rright a <? rright b then Ok (inl (d, r1', r2))
      else if rright b <? rright a then Ok (inl (d, r1, r2'))
      else Ok (inl (d, r1', r2'))
  | _, _ => Ok (inr d)
  end.

Definition miIntersectO (d : region) (r1 r2 : list clipping_rect) (top bottom : Z)
    : outcome region :=
  loop (S (length r1 + length r2)) (intersect_body top bottom) (d, r1, r2).

(** *** Subtraction *)

(** [r1++; if (r1 != r1End) left = r1->left;] *)
Definition next_minuend (lft : Z) (r1 : list clipping_rect) : Z :=
  match r1 with a :: _ => rleft a | [] => lft end.

Definition subtract_body (top bottom : Z)
    (s : region * list clipping_rect * list clipping_rect * Z)
    : outcome (region * list clipping_rect * list clipping_rect * Z
               + region * list clipping_rect * Z) :=
  let '(d, r1, r2, lft) := s in
  match r1, r2 with
  | a :: r1', b :: r2' =>
      if rright b <=? lft then Ok (inl (d, r1, r2', lft))
      else if rleft b <=? lft then
        let lft := rright b in
        if rright a <=? lft then Ok (inl (d, r1', r2, next_minuend lft r1'))
        else Ok (inl (d, r1, r2', lft))
      else if rleft b <? rright a then
        d <- add_rect d (Rect lft top (rleft b) bottom);;
        let lft := rright b in
        if rright a <=? lft then Ok (inl (d, r1', r2, next_minuend lft r1'))
        else Ok (inl (d, r1, r2', lft))
      else
        d <- (if lft <? rright a then add_rect d (Rect lft top (rright a) bottom) else Ok d);;
        Ok (inl (d, r1', r2, next_minuend lft r1'))
  | _, _ => Ok (inr (d, r1, lft))
  end.

Fixpoint subtract_rest (d : region) (r1 : list clipping_rect) (lft top bottom : Z)
    : outcome region :=
  match r1 with
  | [] => Ok d
  | a :: r1' =>
      d <- add_rect d (Rect lft top (rright a) bottom);;
      subtract_rest d r1' (next_minuend lft r1') top bottom
  end.

(** The band of the minuend is not empty: the function starts by reading it. *)
Definition miSubtractO (d : region) (r1 r2 : list clipping_rect) (top bottom : Z)
    : outcome region :=
  match r1 with
  | [] => Fault
  | a :: _ =>
      s <- loop (S (length r1 + length r2)) (subtract_body top bottom) (d, r1, r2, rleft a);;
      let '(d, r1, lft) := s in
      subtract_rest d r1 lft top bottom
  end.

(** ** What [miRegionOp] expects of them *)

(** The array of the region has room, and so little of it is used that the
    byte count of [MEMCHECK] does not wrap. *)
Definition COUNT_MAX : Z := 2 ^ 25 - 1.

Definition roomy (d : region) : Prop :=
  1 < fDataSize d <= 2 ^ 26 /\ fAlloc d = fDataSize d /\ fCount d < fDataSize d.

(** [d'] is [d] with one more band of at most [n] rectangles. *)
Definition grown (d : region) (top bot : Z) (n : Z) (on : Z -> bool) (d' : region) : Prop :=
  exists row, fData d' = fData d ++ row /\ roomy d' /\ fBounds d' = fBounds d
    /\ is_row top bot row /\ zlen row <= n /\ forall x, row_has x row = on x.

(** Nothing stored so far reaches below [y]. *)
Definition above (y : Z) (l : list clipping_rect) : Prop := Forall (fun r => rbottom r <= y) l.

Class BandOp (overlap : region -> list clipping_rect -> list clipping_rect -> Z -> Z -> outcome region)
    (nonO1 nonO2 : option (region -> list clipping_rect -> Z -> Z -> outcome region))
    (op : bool -> bool -> bool) : Prop := {
  op_none : op false false = false;
  overlap_grows d r1 r2 t1 b1 t2 b2 top bot :
    roomy d -> above top (fData d) -> top < bot ->
    is_row t1 b1 r1 -> is_row t2 b2 r2 -> r1 <> [] -> r2 <> [] ->
    fCount d + zlen r1 + zlen r2 <= COUNT_MAX ->
    total (grown d top bot (zlen r1 + zlen r2) (fun x => op (row_has x r1) (row_has x r2)))
          (overlap d r1 r2 top bot);
  nonO1_grows :
    match nonO1 with
    | Some f => op true false = true /\ f = copy_band
    | None => op true false = false
    end;
  nonO2_grows :
    match nonO2 with
    | Some f => op false true = true /\ f = copy_band
    | None => op false true = false
    end;
}.

End Band.

(** ** Growing the array *)

Section Grow.
Context `{RegionClassOk}.

Lemma add_rect_ok d r :
  roomy d -> fCount d < COUNT_MAX ->
  total (fun d' => fData d' = fData d ++ [r] /\ roomy d' /\ fBounds d' = fBounds d) (add_rect d r).
Proof.
  intros (Hs & Ha & Hc) Hn. unfold add_rect, MEMCHECK, COUNT_MAX, sizeof_clipping_rect in *.
  bcase.
  - assert (Hb : u32 (2 * 16 * fDataSize d) = 32 * fDataSize d) by (apply uwrap_id; lia).
    rewrite Hb, realloc_enough by lia. simpl.
    replace (32 * fDataSize d) with (fDataSize d * 2 * 16) by lia.
    rewrite Z.div_mul by lia. unfold fCount in *; simpl. bdecide. simpl.
    split_and!; [done| |done]. unfold roomy, fCount; simpl. zl.
  - simpl. bdecide. simpl. split_and!; [done| |done].
    unfold roomy, fCount in *; simpl. zl.
Qed.

(** A band under construction: what [row] holds has been stored after [base]. *)
Definition stored (base : region) (top bot : Z) (row : list clipping_rect) (d : region) : Prop :=
  fData d = fData base ++ row /\ roomy d /\ fBounds d = fBounds base /\ is_row top bot row.

Lemma stored_nil d top bot : roomy d -> stored d top bot [] d.
Proof. unfold stored. rewrite app_nil_r. auto using is_row_nil. Qed.

Lemma stored_count base top bot row d :
  stored base top bot row d -> fCount d = fCount base + zlen row.
Proof. intros (E & _). unfold fCount. rewrite E. by zl. Qed.

Lemma stored_add base top bot row d l r :
  stored base top bot row d -> fCount base + zlen row < COUNT_MAX ->
  Forall (fun p => rright p < l) row -> l < r ->
  total (stored base top bot (row ++ [Rect l top r bot])) (add_rect d (Rect l top r bot)).
Proof.
  intros Hst Hn Hl Hlr. pose proof (stored_count _ _ _ _ _ Hst) as Hc.
  destruct Hst as (Ed & Hroom & Eb & Hrow).
  eapply total_mono; [apply add_rect_ok; [done|lia]|].
  intros d' (E & Hroom' & Eb'). unfold stored. split_and!; [|done|congruence|].
  - by rewrite E, Ed, <- app_assoc.
  - by apply is_row_snoc.
Qed.

Lemma stored_grown base top bot row d n on :
  stored base top bot row d -> zlen row <= n -> (forall x, row_has x row = on x) ->
  grown base top bot n on d.
Proof. intros (? & ? & ? & ?) ??. exists row. split_and!; auto. Qed.

Lemma copy_band_stored base top bot b t0 b0 row d :
  stored base top bot row d -> is_row t0 b0 b ->
  Forall (fun p => Forall (fun q => rright p < rleft q) b) row ->
  fCount base + zlen row + zlen b <= COUNT_MAX ->
  total (fun d' => exists row', stored base top bot row' d' /\ zlen row' = zlen row + zlen b
            /\ forall x, row_has x row' = row_has x row || row_has x b)
        (copy_band d b top bot).
Proof.
  revert row d. induction b as [|a b IH]; intros row d Hst Hb Hlt Hn; simpl.
  - exists row. split_and!; [done|zl|]. intros x. by rewrite orb_false_r.
  - apply is_row_cons in Hb as ((_ & _ & Ha) & Hab & Hb).
    apply total_bind. eapply total_mono.
    { apply (stored_add base top bot row d); [done|zl| |done].
      eapply Forall_impl; [apply Hlt|]. intros p Hp. by apply Forall_inv in Hp. }
    intros d1 Hst1. eapply total_mono; [apply (IH _ _ Hst1 Hb)|].
    + apply Forall_app; split.
      * eapply Forall_impl; [apply Hlt|]. intros p Hp. by apply Forall_inv_tail in Hp.
      * by repeat constructor.
    + zl.
    + intros d' (row' & Hst' & Hz & Hon). exists row'. split_and!; [done|zl|].
      intros x. rewrite Hon, row_has_app. simpl. by rewrite orb_false_r, orb_assoc.
Qed.

Lemma copy_band_grown d b t0 b0 top bot :
  roomy d -> is_row t0 b0 b -> fCount d + zlen b <= COUNT_MAX ->
  total (grown d top bot (zlen b) (fun x => row_has x b)) (copy_band d b top bot).
Proof.
  intros Hd Hb Hn. eapply total_mono.
  { apply (copy_band_stored d top bot b t0 b0 [] d); auto using stored_nil. zl. }
  intros d' (row' & Hst & Hz & Hon). eapply stored_grown; [done|zl|done].
Qed.

End Grow.
