(* ===== verification/RegionRows.v ===== *)
(** The band functions of RegionSupport.cpp are correct: union, intersection
    and subtraction of two bands are instances of [BandOp], the interface that
    [miRegionOp] is proved against. *)

From Stdlib Require Import ZArith Lia List Bool Sorted.
From stdpp Require Import base tactics list sets numbers sorting.
From S2P Require Import Prelude Clipping RegionBand.
Local Open Scope Z_scope.
Local Open Scope c_scope.

(** ** Points of a band and of its tail *)

Lemma row_has_after x l b :
  Forall (fun q => l < rleft q) b -> row_has x b = true -> l < x.
Proof. intros Hl (r & Hr & ?)%row_has_true. rewrite Forall_forall in Hl. specialize (Hl _ Hr). lia. Qed.

(** Take the head of a band apart: it is not empty, its tail starts past it. *)
Ltac row_head H :=
  apply is_row_cons in H as ((?Htop & ?Hbot & ?Hlr) & ?Htail & H).

(** Solve an equation between the points of rows, given what the tails say. *)
Ltac row_points x :=
  repeat match goal with
  | H : Forall (fun q => ?l < rleft q) ?b |- context [row_has x ?b] =>
      lazymatch goal with
      | _ : row_has x b = true -> l < x |- _ => fail
      | _ => pose proof (row_has_after x l b H)
      end
  end;
  repeat match goal with
  | |- context [row_has x ?b] =>
      lazymatch b with
      | context [_ :: _] => fail
      | context [_ ++ _] => fail
      | _ => destruct (row_has x b) eqn:?
      end
  end;
  repeat match goal with
  | H : true = true -> _ |- _ => specialize (H eq_refl)
  end;
  cmp_cases; simpl; first [reflexivity | lia | congruence].

Section Rows.
Context `{RegionClassOk}.

(** ** Intersection *)

Definition intersect_inv (base : region) (top bot : Z) (r1 r2 : list clipping_rect)
    (s : region * list clipping_rect * list clipping_rect) : Prop :=
  let '(d, s1, s2) := s in
  exists row t1 b1 t2 b2, stored base top bot row d /\ is_row t1 b1 s1 /\ is_row t2 b2 s2
    /\ zlen row + zlen s1 + zlen s2 <= zlen r1 + zlen r2
    /\ (forall p a b, p ∈ row -> a ∈ s1 -> b ∈ s2 -> rright p < Z.max (rleft a) (rleft b))
    /\ forall x, row_has x row || (row_has x s1 && row_has x s2) = row_has x r1 && row_has x r2.

(** The overlap of the two rectangles in front is stored when there is one. *)
Lemma intersect_store base top bot row d a s1 b s2 t1 b1 t2 b2 :
  stored base top bot row d -> fCount base + zlen row < COUNT_MAX ->
  is_row t1 b1 (a :: s1) -> is_row t2 b2 (b :: s2) ->
  (forall p, p ∈ row -> rright p < Z.max (rleft a) (rleft b)) ->
  total (fun d' => exists new, stored base top bot (row ++ new) d' /\ zlen new <= 1
           /\ (forall p, p ∈ new -> rright p = Z.min (rright a) (rright b))
           /\ forall x, row_has x new = (Z.max (rleft a) (rleft b) <=? x)
                                        && (x <? Z.min (rright a) (rright b)))
    (if max_c (rleft a) (rleft b) <? min_c (rright a) (rright b)
     then add_rect d (Rect (max_c (rleft a) (rleft b)) top (min_c (rright a) (rright b)) bot)
     else Ok d).
Proof.
  intros Hst Hn H1 H2 Hp. autorewrite with clip. bcase.
  - eapply total_mono; [apply (stored_add base top bot row d); auto|].
    + apply Forall_forall. auto.
    + intros d' Hst'. eexists [_]. split_and!; [done|by vm_compute| |].
      * by intros p ->%list_elem_of_singleton.
      * intros x. simpl. by rewrite orb_false_r.
  - simpl. exists []. rewrite app_nil_r. split_and!; [done|by vm_compute| |].
    + intros p Hp'. by apply elem_of_nil in Hp'.
    + intros x. simpl. symmetry. apply andb_false_iff. rewrite Z.leb_gt, Z.ltb_ge. lia.
Qed.

Lemma intersect_step base top bot r1 r2 s :
  fCount base + zlen r1 + zlen r2 <= COUNT_MAX ->
  intersect_inv base top bot r1 r2 s ->
  total (fun r => match r with
                  | inl s' => intersect_inv base top bot r1 r2 s'
                      /\ (length s'.1.2 + length s'.2 < length s.1.2 + length s.2)%nat
                  | inr d => grown base top bot (zlen r1 + zlen r2)
                               (fun x => row_has x r1 && row_has x r2) d
                  end) (intersect_body top bot s).
Proof.
  destruct s as [[d s1] s2]. intros Hn (row & t1 & b1 & t2 & b2 & Hst & H1 & H2 & Hz & Hp & Hon).
  unfold intersect_body. cbv zeta.
  destruct s1 as [|a s1]; [|destruct s2 as [|b s2]];
    [apply (stored_grown base top bot row); [done|zl|]; intros x; rewrite <- Hon; simpl;
     rewrite ?andb_false_r, orb_false_r; reflexivity..|].
  apply total_bind. eapply total_mono.
  { eapply (intersect_store base top bot row d a s1 b s2); [done|zl|done..|].
    intros p Hin. apply Hp; set_solver. }
  intros d' (new & Hst' & Hz' & Hpn & Hxn).
  row_head H1. row_head H2. pose proof Htail as Ha. pose proof Htail0 as Hb.
  rewrite Forall_forall in Ha, Hb.
  repeat bcase; simpl; (split; [|simpl; lia]); exists (row ++ new), t1, b1, t2, b2;
    (split_and!; [done|try done; by apply is_row_cons|try done; by apply is_row_cons|zl| |]).
  all: try (intros p u v [Hin|Hin]%elem_of_app Hu Hv;
    [apply Hp; set_solver
    |rewrite (Hpn _ Hin); try (specialize (Ha _ Hu)); try (specialize (Hb _ Hv)); lia]).
  all: intros x; rewrite <- Hon, row_has_app, Hxn, !row_has_cons; row_points x.
Qed.

#[export] Instance intersect_band : BandOp miIntersectO None None andb.
Proof.
  split; [done| |done|done]. intros d r1 r2 t1 b1 t2 b2 top bot Hd _ _ H1 H2 _ _ Hn.
  unfold miIntersectO.
  eapply (loop_total _ (intersect_inv d top bot r1 r2) (fun s => (length s.1.2 + length s.2)%nat)).
  - intros s. by apply intersect_step.
  - exists [], t1, b1, t2, b2. split_and!; auto using stored_nil; [zl|].
    intros p a b Hp. by apply elem_of_nil in Hp.
  - simpl. lia.
Qed.

(** ** Union *)

(** Widening the last rectangle of a band that is being stored. *)
Lemma stored_widen base top bot row p d r :
  stored base top bot (row ++ [p]) d -> rright p <= r ->
  stored base top bot (row ++ [Rect (rleft p) (rtop p) r (rbottom p)])
    (set_data d (fData base ++ row ++ [Rect (rleft p) (rtop p) r (rbottom p)])).
Proof.
  intros (Ed & (Hs & Ha & Hc) & Eb & Hrow) Hr.
  apply is_row_app in Hrow as (Hrow & Hp & Hlt). apply is_row_cons in Hp as ((? & ? & ?) & _ & _).
  unfold stored, roomy, fCount in *; simpl. rewrite Ed in Hc. split_and!; auto; try zl.
  apply is_row_snoc; simpl; auto; [|lia].
  apply Forall_forall. intros q Hq. simpl. apply Hlt; set_solver.
Qed.

Lemma MERGERECT_stored base top bot row d a :
  stored base top bot row d -> above top (fData base) -> top < bot -> rleft a < rright a ->
  fCount base + zlen row < COUNT_MAX -> (forall p, p ∈ row -> rleft p <= rleft a) ->
  total (fun d' => exists row', stored base top bot row' d' /\ zlen row' <= zlen row + 1
           /\ (forall p, p ∈ row' -> rleft p <= rleft a)
           /\ forall x, row_has x row' = row_has x row || ((rleft a <=? x) && (x <? rright a)))
    (MERGERECT d a top bot).
Proof.
  intros Hst Hab Ht Ha Hn Hle.
  assert (Hadd : Forall (fun p => rright p < rleft a) row ->
    total (fun d' => exists row', stored base top bot row' d' /\ zlen row' <= zlen row + 1
             /\ (forall p, p ∈ row' -> rleft p <= rleft a)
             /\ forall x, row_has x row' = row_has x row || ((rleft a <=? x) && (x <? rright a)))
      (add_rect d (Rect (rleft a) top (rright a) bot))).
  { intros Hlt. eapply total_mono; [by apply (stored_add base top bot row d)|].
    intros d' Hst'. eexists. split_and!; [exact Hst'|zl| |].
    - intros p [Hp| ->%list_elem_of_singleton]%elem_of_app; [auto|simpl; lia].
    - intros x. rewrite row_has_app. simpl. by rewrite orb_false_r. }
  unfold MERGERECT. destruct Hst as (Ed & Hst). rewrite Ed in *.
  destruct (list_last_cases row) as [->|(row0 & p & ->)].
  - rewrite app_nil_r. destruct (list_last_cases (fData base)) as [E|(l & q & E)]; rewrite E.
    + apply Hadd. constructor.
    + rewrite rev_snoc. assert (Hq : rbottom q <= top).
      { unfold above in Hab. rewrite Forall_forall in Hab. apply Hab. rewrite E. set_solver. }
      replace (rbottom q =? bot) with false by (symmetry; apply Z.eqb_neq; lia).
      rewrite andb_false_r. simpl. apply Hadd. constructor.
  - rewrite app_assoc, rev_snoc, rev_involutive.
    assert (Hrow : is_row top bot (row0 ++ [p])) by (by destruct Hst as (_ & _ & ?)).
    pose proof Hrow as Hrow'. apply is_row_app in Hrow' as (_ & Hp & Hlt).
    apply is_row_cons in Hp as ((Hpt & Hpb & Hpl) & _ & _).
    rewrite (proj2 (Z.eqb_eq _ _) Hpt), (proj2 (Z.eqb_eq _ _) Hpb). simpl.
    assert (Hpa : rleft p <= rleft a) by (apply Hle; set_solver).
    bcase; [|apply Hadd].
    + assert (Hst' : stored base top bot (row0 ++ [p]) d) by (split; [by rewrite Ed|done]).
      bcase; simpl.
      * exists (row0 ++ [Rect (rleft p) (rtop p) (rright a) (rbottom p)]). split_and!.
        -- rewrite <- app_assoc. apply stored_widen; [done|lia].
        -- zl.
        -- intros q [Hq| ->%list_elem_of_singleton]%elem_of_app; [apply Hle; set_solver|done].
        -- intros x. rewrite !row_has_app. simpl. destruct (row_has x row0); simpl; [done|].
           cmp_cases; simpl; first [reflexivity|lia].
      * exists (row0 ++ [p]). split_and!; [done|zl|done|].
        intros x. rewrite !row_has_app. simpl. destruct (row_has x row0); simpl; [done|].
        cmp_cases; simpl; first [reflexivity|lia].
    + apply Forall_app; split.
      * apply Forall_forall. intros q Hq. specialize (Hlt q p Hq ltac:(set_solver)). lia.
      * constructor; [lia|constructor].
Qed.

Definition union_inv (base : region) (top bot : Z) (r1 r2 : list clipping_rect)
    (s : region * list clipping_rect * list clipping_rect) : Prop :=
  let '(d, s1, s2) := s in
  exists row t1 b1 t2 b2, stored base top bot row d /\ is_row t1 b1 s1 /\ is_row t2 b2 s2
    /\ zlen row + zlen s1 + zlen s2 <= zlen r1 + zlen r2
    /\ (forall p a, p ∈ row -> a ∈ s1 ++ s2 -> rleft p <= rleft a)
    /\ forall x, row_has x row || (row_has x s1 || row_has x s2) = row_has x r1 || row_has x r2.

Lemma union_step base top bot r1 r2 s :
  above top (fData base) -> top < bot -> fCount base + zlen r1 + zlen r2 <= COUNT_MAX ->
  union_inv base top bot r1 r2 s ->
  total (fun r => match r with
                  | inl s' => union_inv base top bot r1 r2 s'
                      /\ (length s'.1.2 + length s'.2 < length s.1.2 + length s.2)%nat
                  | inr s' => union_inv base top bot r1 r2 s' /\ (s'.1.2 = [] \/ s'.2 = [])
                  end) (union_body top bot s).
Proof.
  destruct s as [[d s1] s2]. intros Hab Ht Hn Hinv. pose proof Hinv as Hinv'.
  destruct Hinv as (row & t1 & b1 & t2 & b2 & Hst & H1 & H2 & Hz & Hp & Hon).
  unfold union_body.
  destruct s1 as [|a s1]; [simpl; auto|]. destruct s2 as [|b s2]; [simpl; auto|].
  pose proof H1 as H1'. pose proof H2 as H2'. row_head H1'. row_head H2'.
  assert (Hs1 : forall u, u ∈ s1 -> rright a < rleft u) by (by apply Forall_forall).
  assert (Hs2 : forall u, u ∈ s2 -> rright b < rleft u) by (by apply Forall_forall).
  bcase; apply total_bind;
    (eapply total_mono; [eapply MERGERECT_stored; [done|done|done|done|zl|]; intros p Hin; apply Hp; set_solver|]);
    intros d' (row' & Hst' & Hz' & Hp' & Hon'); simpl; (split; [|simpl; lia]);
    exists row', t1, b1, t2, b2; (split_and!; [done..|zl| |]).
  - intros p u Hin [Hu|[->|Hu]%elem_of_cons]%elem_of_app; specialize (Hp' _ Hin);
      try specialize (Hs1 _ Hu); try specialize (Hs2 _ Hu); lia.
  - intros x. rewrite <- Hon, Hon', !row_has_cons.
    by rewrite <- !orb_assoc.
  - intros p u Hin [->|[Hu|Hu]%elem_of_app]%elem_of_cons; specialize (Hp' _ Hin);
      try specialize (Hs1 _ Hu); try specialize (Hs2 _ Hu); lia.
  - intros x. rewrite <- Hon, Hon', !row_has_cons.
    destruct (row_has x row), (row_has x s1), (row_has x s2); cmp_cases; reflexivity.
Qed.

Lemma merge_rest_stored base top bot t0 b0 r row d :
  above top (fData base) -> top < bot -> stored base top bot row d -> is_row t0 b0 r ->
  fCount base + zlen row + zlen r <= COUNT_MAX -> (forall p a, p ∈ row -> a ∈ r -> rleft p <= rleft a) ->
  total (grown base top bot (zlen row + zlen r) (fun x => row_has x row || row_has x r))
    (merge_rest d r top bot).
Proof.
  intros Hab Ht. revert row d. induction r as [|a r IH]; intros row d Hst Hr Hn Hp; simpl.
  - apply (stored_grown base top bot row); [done|zl|]. intros x. by rewrite orb_false_r.
  - row_head Hr. rewrite Forall_forall in Htail.
    apply total_bind. eapply total_mono.
    { eapply MERGERECT_stored; [done|done|done|done|zl|]. intros p Hin. apply Hp; set_solver. }
    intros d' (row' & Hst' & Hz' & Hp' & Hon'). eapply total_mono; [apply (IH row' d')|]; auto.
    + zl.
    + intros p u Hin Hu. specialize (Hp' _ Hin). specialize (Htail _ Hu). lia.
    + intros d'' (row'' & ? & ? & ? & ? & ? & Hx). exists row''. split_and!; auto; [zl|].
      intros x. by rewrite Hx, Hon', <- orb_assoc.
Qed.

#[export] Instance union_band : BandOp miUnionO (Some miUnionNonO) (Some miUnionNonO) orb.
Proof.
  split; [done| |done|done]. intros d r1 r2 t1 b1 t2 b2 top bot Hd Hab Ht H1 H2 _ _ Hn.
  unfold miUnionO. apply total_bind. eapply total_mono.
  { eapply (loop_total _ (union_inv d top bot r1 r2) (fun s => (length s.1.2 + length s.2)%nat)
              (fun s => union_inv d top bot r1 r2 s /\ (s.1.2 = [] \/ s.2 = []))).
    - intros s. by apply union_step.
    - exists [], t1, b1, t2, b2. split_and!; auto using stored_nil; [zl|].
      intros p a Hp. by apply elem_of_nil in Hp.
    - simpl. lia. }
  intros [[d' s1] s2] ((row & u1 & v1 & u2 & v2 & Hst & H1' & H2' & Hz & Hp & Hon) & Hend).
  assert (Hmono : forall r, (forall x, row_has x r = row_has x s1 || row_has x s2) ->
      zlen r <= zlen s1 + zlen s2 -> (forall u, u ∈ r -> u ∈ s1 ++ s2) -> (exists t b, is_row t b r) ->
      total (grown d top bot (zlen r1 + zlen r2) (fun x => row_has x r1 || row_has x r2))
            (merge_rest d' r top bot)).
  { intros r Hx Hzr Hsub (t & b & Hr). eapply total_mono.
    { apply (merge_rest_stored d top bot t b r row d'); [done..|zl|auto]. }
    intros d'' (row'' & ? & ? & ? & ? & ? & Hx''). exists row''. split_and!; auto; [zl|].
    intros x. by rewrite Hx'', Hx, Hon. }
  simpl in Hend. case_bool_decide as Hs1.
  - destruct Hend as [->| ->]; [done|]. apply Hmono; [|zl|set_solver|eauto].
    intros x. simpl. by rewrite orb_false_r.
  - assert (s1 = []) as -> by (destruct s1; [done|]; first [discriminate|by destruct Hs1]).
    apply Hmono; [done|zl|set_solver|eauto].
Qed.

(** ** Subtraction *)

(** The columns of the minuend that are left when everything before the fence
    [lft] has been dealt with. *)
Definition minuend (s1 : list clipping_rect) (lft x : Z) : bool :=
  match s1 with
  | [] => false
  | a :: s1' => (lft <=? x) && (x <? rright a) || row_has x s1'
  end.

(** The fence stands in the first rectangle, past everything stored. *)
Definition fence (row s1 : list clipping_rect) (lft : Z) : Prop :=
  match s1 with
  | [] => True
  | a :: _ => rleft a <= lft < rright a /\ Forall (fun p => rright p < lft) row
  end.

Lemma minuend_next t b a s1 lft x :
  is_row t b (a :: s1) -> minuend s1 (next_minuend lft s1) x = row_has x s1.
Proof. by destruct s1. Qed.

Lemma fence_next t b a s1 row lft :
  is_row t b (a :: s1) -> Forall (fun p => rright p <= rright a) row ->
  fence row s1 (next_minuend lft s1).
Proof.
  intros H1 Hrow. row_head H1. destruct s1 as [|c s1]; simpl; [done|].
  row_head H1. apply Forall_inv in Htail. split; [lia|].
  eapply Forall_impl; [apply Hrow|]. simpl. intros. lia.
Qed.

Definition subtract_inv (base : region) (top bot : Z) (r1 r2 : list clipping_rect)
    (s : region * list clipping_rect * list clipping_rect * Z) : Prop :=
  let '(d, s1, s2, lft) := s in
  exists row t1 b1 t2 b2, stored base top bot row d /\ is_row t1 b1 s1 /\ is_row t2 b2 s2
    /\ zlen row + zlen s1 + zlen s2 <= zlen r1 + zlen r2
    /\ fence row s1 lft
    /\ forall x, row_has x row || (minuend s1 lft x && negb (row_has x s2))
                 = row_has x r1 && negb (row_has x r2).

Definition subtract_size (s : region * list clipping_rect * list clipping_rect * Z) : nat :=
  (length s.1.1.2 + length s.1.2)%nat.

(** The six parts of the loop's invariant. *)
Ltac conj6 := refine (conj _ (conj _ (conj _ (conj _ (conj _ _))))).

Lemma subtract_step base top bot r1 r2 s :
  fCount base + zlen r1 + zlen r2 <= COUNT_MAX ->
  subtract_inv base top bot r1 r2 s ->
  total (fun r => match r with
                  | inl s' => subtract_inv base top bot r1 r2 s' /\ (subtract_size s' < subtract_size s)%nat
                  | inr s' => exists s2, subtract_inv base top bot r1 r2 (s'.1.1, s'.1.2, s2, s'.2)
                      /\ (s'.1.2 = [] \/ s2 = [])
                  end) (subtract_body top bot s).
Proof.
  destruct s as [[[d s1] s2] lft]. intros Hn Hinv. pose proof Hinv as Hinv'.
  destruct Hinv as (row & t1 & b1 & t2 & b2 & Hst & H1 & H2 & Hz & Hf & Hon).
  unfold subtract_body. cbv zeta.
  destruct s1 as [|a s1]; [simpl; eauto|]. destruct s2 as [|b s2]; [simpl; eauto|].
  pose proof H1 as H1'. pose proof H2 as H2'. row_head H1'. row_head H2'.
  destruct Hf as [Hlft Hrow].
  assert (Hnext : forall l, l <= rright a ->
      Forall (fun p => rright p < l) row -> Forall (fun p => rright p <= rright a) row).
  { intros l Hl Hr. eapply Forall_impl; [apply Hr|]. simpl. intros. lia. }
  assert (Hfence : forall l, lft <= l < rright a -> fence row (a :: s1) l).
  { intros l Hl. split; [lia|]. eapply Forall_impl; [apply Hrow|]. simpl. intros. lia. }
  assert (Hadd : forall r, lft < r <= rright a ->
      total (fun d' => stored base top bot (row ++ [Rect lft top r bot]) d')
            (add_rect d (Rect lft top r bot))).
  { intros r Hr. apply (stored_add base top bot row d); [done|zl|done|lia]. }
  assert (Hon' : forall x, row_has x row || (((lft <=? x) && (x <? rright a) || row_has x s1)
      && negb ((rleft b <=? x) && (x <? rright b) || row_has x s2))
      = row_has x r1 && negb (row_has x r2)) by (intros x; apply Hon).
  repeat bcase.
  - simpl. split; [|unfold subtract_size; simpl; lia].
    exists row, t1, b1, t2, b2. conj6; [done|done|done|zl|apply Hfence; lia|].
    intros x. rewrite <- Hon'. simpl. row_points x.
  - simpl. split; [|unfold subtract_size; simpl; lia].
    exists row, t1, b1, t2, b2. conj6; [done|done|done|zl|eapply fence_next; [done|]; eapply Hnext; [|exact Hrow]; lia|].
    intros x. rewrite <- Hon', (minuend_next t1 b1 a) by done. row_points x.
  - simpl. split; [|unfold subtract_size; simpl; lia].
    exists row, t1, b1, t2, b2. conj6; [done|done|done|zl|apply Hfence; lia|].
    intros x. rewrite <- Hon'. simpl. row_points x.
  - apply total_bind. eapply total_mono; [apply Hadd; lia|]. intros d' Hst'.
    simpl; (split; [|unfold subtract_size; simpl; lia]);
      exists (row ++ [Rect lft top (rleft b) bot]), t1, b1, t2, b2; (conj6; [done|done|done|zl| |]).
    + eapply fence_next; [done|]. apply Forall_app; split.
      * eapply Hnext; [|exact Hrow]. lia.
      * constructor; [simpl; lia|constructor].
    + intros x. rewrite <- Hon', (minuend_next t1 b1 a), row_has_app by done.
      simpl. row_points x.
  - apply total_bind. eapply total_mono; [apply Hadd; lia|]. intros d' Hst'.
    simpl; (split; [|unfold subtract_size; simpl; lia]);
      exists (row ++ [Rect lft top (rleft b) bot]), t1, b1, t2, b2; (conj6; [done|done|done|zl| |]).
    + split; [lia|]. apply Forall_app; split.
      * eapply Forall_impl; [apply Hrow|]. simpl. intros. lia.
      * constructor; [simpl; lia|constructor].
    + intros x. rewrite <- Hon', row_has_app. simpl. row_points x.
  - apply total_bind. eapply total_mono; [apply Hadd; lia|]. intros d' Hst'.
    simpl; (split; [|unfold subtract_size; simpl; lia]);
      exists (row ++ [Rect lft top (rright a) bot]), t1, b1, t2, b2; (conj6; [done|done|done|zl| |]).
    + eapply fence_next; [done|]. apply Forall_app; split.
      * eapply Hnext; [|exact Hrow]. lia.
      * constructor; [simpl; lia|constructor].
    + intros x. rewrite <- Hon', (minuend_next t1 b1 a), row_has_app by done.
      simpl. row_points x.
  - lia.
Qed.

Lemma subtract_rest_grown base top bot t0 b0 r row d lft :
  stored base top bot row d -> is_row t0 b0 r -> fence row r lft ->
  fCount base + zlen row + zlen r <= COUNT_MAX ->
  total (grown base top bot (zlen row + zlen r) (fun x => row_has x row || minuend r lft x))
    (subtract_rest d r lft top bot).
Proof.
  revert row d lft. induction r as [|a r IH]; intros row d lft Hst Hr Hf Hn; simpl.
  - apply (stored_grown base top bot row); [done|zl|]. intros x. by rewrite orb_false_r.
  - destruct Hf as [Hl Hrow]. apply total_bind. eapply total_mono.
    { apply (stored_add base top bot row d); [done|zl|done|lia]. }
    intros d' Hst'. eapply total_mono; [apply (IH _ _ _ Hst')|].
    + by row_head Hr.
    + eapply fence_next; [done|]. apply Forall_app; split.
      * eapply Forall_impl; [apply Hrow|]. simpl. intros. lia.
      * constructor; [simpl; lia|constructor].
    + zl.
    + intros d'' (row'' & ? & ? & ? & ? & ? & Hx). exists row''. split_and!; auto; [zl|].
      intros x. rewrite Hx, row_has_app, (minuend_next t0 b0 a) by done. simpl.
      by rewrite orb_false_r, <- orb_assoc.
Qed.

#[export] Instance subtract_band :
  BandOp miSubtractO (Some miSubtractNonO1) None (fun a b => a && negb b).
Proof.
  split; [done| |done|done]. intros d r1 r2 t1 b1 t2 b2 top bot Hd _ _ H1 H2 Hr1 _ Hn.
  unfold miSubtractO. destruct r1 as [|a r1]; [done|].
  apply total_bind. eapply total_mono.
  { eapply (loop_total _ (subtract_inv d top bot (a :: r1) r2) subtract_size
              (fun s' => exists s2, subtract_inv d top bot (a :: r1) r2 (s'.1.1, s'.1.2, s2, s'.2)
                 /\ (s'.1.2 = [] \/ s2 = []))).
    - intros s. by apply subtract_step.
    - exists [], t1, b1, t2, b2. split_and!; auto using stored_nil; [zl|].
      row_head H1. split; [lia|constructor].
    - unfold subtract_size. simpl. lia. }
  intros [[d' s1] lft] (s2 & (row & u1 & v1 & u2 & v2 & Hst & H1' & H2' & Hz & Hf & Hon) & Hend).
  simpl in Hst, H1', Hz, Hf, Hend. eapply total_mono.
  { apply (subtract_rest_grown d top bot u1 v1 s1 row d' lft); [done..|zl]. }
  intros d'' (row'' & ? & ? & ? & ? & ? & Hx). exists row''. split_and!; auto; [zl|].
  intros x. rewrite Hx, <- Hon. destruct Hend as [->| ->]; simpl.
  - reflexivity.
  - by rewrite andb_true_r.
Qed.

End Rows.
