(* ===== verification/RegionOp.v ===== *)
(** [miRegionOp] of RegionSupport.cpp (kits/interface): two banded regions are
    walked from the top down, one band of either at a time; where only one of
    them has points its non-overlap function is called, where both have the
    overlap function, and each band of the result is merged into the one above
    it when the two line up ([miCoalesce]).

    [miRegionOp_spec]: for every instance of [BandOp] the result covers the
    points the boolean function of the instance says, and is banded again. *)

From Stdlib Require Import ZArith Lia List Bool Sorted.
From stdpp Require Import base tactics list sets numbers sorting.
From S2P Require Import Prelude Clipping RegionBand.
Local Open Scope Z_scope.
Local Open Scope c_scope.

(** ** Definitions *)

(** The rectangles from the front of [r] whose top is [t], and those from the
    first one on whose top is not: [r1BandEnd] points at the latter. *)
Fixpoint take_top (t : Z) (r : list clipping_rect) : list clipping_rect :=
  match r with
  | a :: r => if rtop a =? t then a :: take_top t r else []
  | [] => []
  end.

Fixpoint drop_top (t : Z) (r : list clipping_rect) : list clipping_rect :=
  match r with
  | a :: r' => if rtop a =? t then drop_top t r' else r
  | [] => []
  end.

Section Op.
Context `{RegionClass}.

(** *** [miCoalesce] *)

(** [while (pRegEnd[-1].top == pRegEnd->top) pRegEnd--;] *)
Fixpoint band_back (a : list clipping_rect) (i : nat) : outcome Z :=
  match i with
  | O => Fault
  | S j =>
      p <- rd a (Z.of_nat j);;
      q <- rd a (Z.of_nat i);;
      if rtop p =? rtop q then band_back a j else Ok (Z.of_nat i)
  end.

(** Whether [n] rectangles from [i] and from [j] on are in the same columns. *)
Fixpoint lines_up (a : list clipping_rect) (i j : Z) (n : nat) : outcome bool :=
  match n with
  | O => Ok true
  | S n =>
      p <- rd a i;;
      c <- rd a j;;
      if negb (rleft p =? rleft c) || negb (rright p =? rright c) then Ok false
      else lines_up a (i + 1) (j + 1) n
  end.

Fixpoint merge_bottoms (a : list clipping_rect) (i j : Z) (n : nat)
    : outcome (list clipping_rect) :=
  match n with
  | O => Ok a
  | S n =>
      p <- rd a i;;
      c <- rd a j;;
      a <- wr a i (Rect (rleft p) (rtop p) (rright p) (rbottom c));;
      merge_bottoms a (i + 1) (j + 1) n
  end.

(** [*pPrevBox++ = *pCurBox++], [n] times. *)
Fixpoint copy_down (a : list clipping_rect) (i j : Z) (n : nat) : outcome (list clipping_rect) :=
  match n with
  | O => Ok a
  | S n =>
      c <- rd a j;;
      a <- wr a i c;;
      copy_down a (i + 1) (j + 1) n
  end.

Definition miCoalesce (pReg : region) (prevStart curStart : Z) : outcome (region * Z) :=
  let a := fData pReg in
  let n := fCount pReg in
  let prevNumRects := curStart - prevStart in
  first <- rd a curStart;;
  let bandY1 := rtop first in
  let curNumRects := zlen (take_top bandY1 (drop (Z.to_nat curStart) a)) in
  let pCurBox := curStart + curNumRects in
  newStart <- (if pCurBox =? n then Ok curStart else band_back a (Z.to_nat (n - 1)));;
  if (curNumRects =? prevNumRects) && negb (curNumRects =? 0) then
    p <- rd a prevStart;;
    c <- rd a curStart;;
    if rbottom p =? rtop c then
      same <- lines_up a prevStart curStart (Z.to_nat prevNumRects);;
      if negb same then Ok (pReg, newStart)
      else
        a <- merge_bottoms a prevStart curStart (Z.to_nat curNumRects);;
        if pCurBox =? n then
          Ok (set_data pReg (take (Z.to_nat (n - curNumRects)) a), prevStart)
        else
          a <- copy_down a (prevStart + curNumRects) pCurBox (Z.to_nat (n - pCurBox));;
          Ok (set_data pReg (take (Z.to_nat (n - curNumRects)) a), newStart)
    else Ok (pReg, newStart)
  else Ok (pReg, newStart).

(** [if (newReg->fCount != curBand) prevBand = miCoalesce(newReg, prevBand, curBand);] *)
Definition coalesce_new (d : region) (prevBand curBand : Z) : outcome (region * Z) :=
  if negb (fCount d =? curBand) then miCoalesce d prevBand curBand else Ok (d, prevBand).

(** *** [miRegionOp] *)

Definition overlap_func : Type :=
  region -> list clipping_rect -> list clipping_rect -> Z -> Z -> outcome region.
Definition non_overlap_func : Type :=
  option (region -> list clipping_rect -> Z -> Z -> outcome region).

(** A call through a pointer that may be NULL. *)
Definition call_nonO (f : non_overlap_func) (d : region) (band : list clipping_rect) (top bot : Z)
    : outcome region :=
  match f with Some f => f d band top bot | None => Ok d end.

(** The part of a band that lies above the other region's band, and [ytop]. *)
Definition non_overlap_step (nonO1 nonO2 : non_overlap_func) (d : region)
    (a b : clipping_rect) (band1 band2 : list clipping_rect) (ybot : Z) : outcome (region * Z) :=
  if rtop a <? rtop b then
    let top := max_c (rtop a) ybot in
    let bot := min_c (rbottom a) (rtop b) in
    d <- (if negb (top =? bot) then call_nonO nonO1 d band1 top bot else Ok d);;
    Ok (d, rtop b)
  else if rtop b <? rtop a then
    let top := max_c (rtop b) ybot in
    let bot := min_c (rbottom b) (rtop a) in
    d <- (if negb (top =? bot) then call_nonO nonO2 d band2 top bot else Ok d);;
    Ok (d, rtop a)
  else Ok (d, rtop a).

Definition op_state : Type := region * list clipping_rect * list clipping_rect * Z * Z.

Definition op_body (overlap : overlap_func) (nonO1 nonO2 : non_overlap_func) (s : op_state)
    : outcome (op_state + op_state) :=
  let '(d, r1, r2, ybot, prevBand) := s in
  match r1, r2 with
  | a :: _, b :: _ =>
      let curBand := fCount d in
      let band1 := take_top (rtop a) r1 in
      let band2 := take_top (rtop b) r2 in
      s <- non_overlap_step nonO1 nonO2 d a b band1 band2 ybot;;
      let '(d, ytop) := s in
      s <- coalesce_new d prevBand curBand;;
      let '(d, prevBand) := s in
      let ybot := min_c (rbottom a) (rbottom b) in
      let curBand := fCount d in
      d <- (if ytop <? ybot then overlap d band1 band2 ytop ybot else Ok d);;
      s <- coalesce_new d prevBand curBand;;
      let '(d, prevBand) := s in
      let r1 := if rbottom a =? ybot then drop_top (rtop a) r1 else r1 in
      let r2 := if rbottom b =? ybot then drop_top (rtop b) r2 else r2 in
      if bool_decide (r1 <> []) && bool_decide (r2 <> [])
      then Ok (inl (d, r1, r2, ybot, prevBand))
      else Ok (inr (d, r1, r2, ybot, prevBand))
  | _, _ => Fault
  end.

(** The bands of the region that still has some when the other has not. *)
Definition tail_body (f : region -> list clipping_rect -> Z -> Z -> outcome region) (ybot : Z)
    (s : region * list clipping_rect) : outcome (region * list clipping_rect + region) :=
  let '(d, r) := s in
  match r with
  | a :: _ =>
      d <- f d (take_top (rtop a) r) (max_c (rtop a) ybot) (rbottom a);;
      Ok (inl (d, drop_top (rtop a) r))
  | [] => Ok (inr d)
  end.

Definition tail_bands (f : non_overlap_func) (d : region) (r : list clipping_rect) (ybot : Z)
    : outcome region :=
  match f with
  | Some f => loop (S (length r)) (tail_body f ybot) (d, r)
  | None => Ok d
  end.

(** [newReg] is a region of its own here, not one of the two sources. *)
Definition miRegionOp (newReg reg1 reg2 : region) (overlap : overlap_func)
    (nonO1 nonO2 : non_overlap_func) : outcome region :=
  let newReg := MakeEmpty newReg in
  let '(d, ok) := _SetSize newReg (max_c (fCount reg1) (fCount reg2) * 2) in
  if negb ok then Ok d
  else
    let ybot := if rtop (fBounds reg1) <? rtop (fBounds reg2)
                then rtop (fBounds reg1) else rtop (fBounds reg2) in
    s <- loop (S (length (fData reg1) + length (fData reg2))) (op_body overlap nonO1 nonO2)
           (d, fData reg1, fData reg2, ybot, 0);;
    let '(d, r1, r2, ybot, prevBand) := s in
    let curBand := fCount d in
    d <- (if bool_decide (r1 <> []) then tail_bands nonO1 d r1 ybot
          else if bool_decide (r2 <> []) then tail_bands nonO2 d r2 ybot
          else Ok d);;
    s <- coalesce_new d prevBand curBand;;
    Ok s.1.

End Op.

(** ** The bands of a banded array *)

Lemma take_drop_top t r : take_top t r ++ drop_top t r = r.
Proof. induction r as [|a r IH]; simpl; [done|]. bcase; simpl; congruence. Qed.

Lemma take_top_all t r : Forall (fun q => rtop q = t) (take_top t r).
Proof. induction r as [|a r IH]; simpl; [constructor|]. bcase; constructor; auto. Qed.

Lemma take_top_row top bot r :
  is_row top bot r -> take_top top r = r /\ drop_top top r = [].
Proof.
  intros [H _]. induction H as [|a r (Ht & _) _ [IH1 IH2]]; simpl; [done|].
  rewrite Ht, Z.eqb_refl, IH1, IH2. done.
Qed.

(** The rectangles after [a] that share its top are in its band, the others
    lie below it. *)
Lemma band_tail a l :
  Forall (yx_before a) l -> banded l -> nonempty a ->
  is_row (rtop a) (rbottom a) (take_top (rtop a) l)
  /\ Forall (fun q => rright a < rleft q) (take_top (rtop a) l)
  /\ Forall (fun q => rbottom a <= rtop q) (drop_top (rtop a) l).
Proof.
  intros Ha Hl [Hw Hh]. induction l as [|q l IH]; simpl.
  { split_and!; auto using is_row_nil. }
  apply banded_cons in Hl as ((Hqw & Hqh) & Hq & Hl).
  apply Forall_cons in Ha as [Haq Ha]. destruct (IH Ha Hl) as (Hrow & Hleft & Hbelow).
  unfold yx_before in Haq. bcase.
  - assert (Haq' : rbottom q = rbottom a /\ rright a < rleft q) by lia.
    split_and!; [|constructor; [lia|done]|done].
    apply is_row_cons. split_and!; [lia..| |done].
    pose proof (take_top_all (rtop a) l) as Htop.
    assert (Hq' : Forall (yx_before q) (take_top (rtop a) l)).
    { rewrite <- (take_drop_top (rtop a) l) in Hq. by apply Forall_app in Hq as [Hq _]. }
    rewrite Forall_forall in *. intros u Hu. specialize (Hq' _ Hu). specialize (Htop _ Hu).
    unfold yx_before in Hq'. lia.
  - assert (rbottom a <= rtop q) by lia.
    split_and!; [apply is_row_nil|constructor|]. constructor; [done|].
    eapply Forall_impl; [apply Hq|]. intros u. unfold yx_before. lia.
Qed.

Lemma banded_split a r :
  banded (a :: r) ->
  is_row (rtop a) (rbottom a) (take_top (rtop a) (a :: r))
  /\ Forall (fun q => rbottom a <= rtop q) (drop_top (rtop a) (a :: r))
  /\ banded (drop_top (rtop a) (a :: r))
  /\ take_top (rtop a) (a :: r) <> []
  /\ a :: r = take_top (rtop a) (a :: r) ++ drop_top (rtop a) (a :: r).
Proof.
  intros Hb. pose proof (take_drop_top (rtop a) (a :: r)) as E.
  assert (Hd : banded (drop_top (rtop a) (a :: r))).
  { rewrite <- E in Hb. by apply banded_app in Hb as (_ & ? & _). }
  revert E Hd. simpl. rewrite Z.eqb_refl. intros E Hd.
  apply banded_cons in Hb as (Hne & Ha & Hr).
  destruct (band_tail a r Ha Hr Hne) as (Hrow & Hleft & Hbelow).
  split_and!; auto. apply is_row_cons. unfold nonempty in Hne. split_and!; auto; lia.
Qed.

(** ** [miCoalesce] *)

(** The bands of a result, as [miCoalesce] sees it: what has been settled, the
    band before the last call, and what that call added. *)
Definition same_cols (prev cur : list clipping_rect) : bool :=
  bool_decide (map (fun r => (rleft r, rright r)) prev = map (fun r => (rleft r, rright r)) cur).

Definition stretch (bot : Z) (r : clipping_rect) : clipping_rect :=
  Rect (rleft r) (rtop r) (rright r) bot.

Lemma rd_at {A} (l k : list A) x i : i = zlen l -> rd (l ++ x :: k) i = Ok x.
Proof. apply rd_mid. Qed.

Lemma rd_prev {A} (pre prev k : list A) p :
  rd (pre ++ (p :: prev) ++ k) (zlen pre) = Ok p.
Proof. by apply (rd_at pre (prev ++ k)). Qed.

Lemma rd_cur {A} (pre prev mid cur k : list A) c :
  rd (pre ++ prev ++ mid ++ (c :: cur) ++ k) (zlen (pre ++ prev ++ mid)) = Ok c.
Proof.
  replace (pre ++ prev ++ mid ++ (c :: cur) ++ k) with ((pre ++ prev ++ mid) ++ c :: cur ++ k)
    by (by rewrite <- !app_assoc).
  by apply rd_at.
Qed.

(** Step both cursors of a loop over two adjacent bands. *)
Lemma shift_two {A} (pre prev mid cur rest : list A) p c :
  pre ++ (p :: prev) ++ mid ++ (c :: cur) ++ rest
  = (pre ++ [p]) ++ prev ++ (mid ++ [c]) ++ cur ++ rest.
Proof. by rewrite <- !app_assoc. Qed.

Lemma lines_up_spec pre prev mid cur rest :
  length prev = length cur ->
  lines_up (pre ++ prev ++ mid ++ cur ++ rest) (zlen pre) (zlen (pre ++ prev ++ mid)) (length prev)
  = Ok (same_cols prev cur).
Proof.
  revert pre mid cur. induction prev as [|p prev IH]; intros pre mid [|c cur] Hl; try done.
  injection Hl as Hl. cbn [lines_up length].
  rewrite rd_prev, rd_cur. cbn [obind]. unfold same_cols. cbn [map].
  destruct (Z.eqb_spec (rleft p) (rleft c)); cbn [negb orb];
    [destruct (Z.eqb_spec (rright p) (rright c)); cbn [negb orb]|].
  - rewrite shift_two.
    replace (zlen pre + 1) with (zlen (pre ++ [p])) by zl.
    replace (zlen (pre ++ (p :: prev) ++ mid) + 1)
      with (zlen ((pre ++ [p]) ++ prev ++ mid ++ [c])) by zl.
    rewrite IH by done. f_equal. unfold same_cols. apply bool_decide_ext. split; congruence.
  - symmetry. f_equal. apply bool_decide_eq_false. congruence.
  - symmetry. f_equal. apply bool_decide_eq_false. congruence.
Qed.

Lemma wr_prev {A} (pre prev k : list A) p q :
  wr (pre ++ (p :: prev) ++ k) (zlen pre) q = Ok (pre ++ (q :: prev) ++ k).
Proof. by apply (wr_mid pre p (prev ++ k)). Qed.

(** Every box of the previous band gets the bottom of its counterpart. *)
Lemma merge_bottoms_spec pre prev mid cur rest bot :
  length prev = length cur -> Forall (fun r => rbottom r = bot) cur ->
  merge_bottoms (pre ++ prev ++ mid ++ cur ++ rest) (zlen pre) (zlen (pre ++ prev ++ mid)) (length prev)
  = Ok (pre ++ map (stretch bot) prev ++ mid ++ cur ++ rest).
Proof.
  revert pre mid cur. induction prev as [|p prev IH]; intros pre mid [|c cur] Hl Hb; try done.
  injection Hl as Hl. apply Forall_cons in Hb as [Hc Hb]. cbn [merge_bottoms length map].
  rewrite rd_prev, rd_cur. cbn [obind]. rewrite wr_prev. cbn [obind]. rewrite !shift_two.
  replace (zlen pre + 1) with (zlen (pre ++ [stretch bot p])) by zl.
  replace (zlen (pre ++ (p :: prev) ++ mid) + 1)
    with (zlen ((pre ++ [stretch bot p]) ++ prev ++ mid ++ [c])) by zl.
  rewrite Hc. fold (stretch bot p). by rewrite IH.
Qed.

(** Copying [rest] down over the band in front of it. *)
Lemma copy_down_spec (pre hole rest : list clipping_rect) :
  hole <> [] ->
  exists junk, copy_down (pre ++ hole ++ rest) (zlen pre) (zlen (pre ++ hole)) (length rest)
               = Ok (pre ++ rest ++ junk) /\ length junk = length hole.
Proof.
  revert pre hole. induction rest as [|r rest IH]; intros pre hole Hh; cbn [copy_down length].
  - exists hole. by rewrite app_nil_r.
  - destruct hole as [|h hole]; [done|].
    assert (Hr : rd (pre ++ (h :: hole) ++ r :: rest) (zlen (pre ++ h :: hole)) = Ok r).
    { rewrite app_assoc. by apply rd_at. }
    rewrite Hr. cbn [obind]. rewrite wr_prev. cbn [obind].
    replace (pre ++ (r :: hole) ++ r :: rest) with ((pre ++ [r]) ++ (hole ++ [r]) ++ rest)
      by (by rewrite <- !app_assoc).
    replace (zlen pre + 1) with (zlen (pre ++ [r])) by zl.
    replace (zlen (pre ++ h :: hole) + 1) with (zlen ((pre ++ [r]) ++ hole ++ [r])) by zl.
    destruct (IH (pre ++ [r]) (hole ++ [r])) as (junk & E & Hj); [by destruct hole|].
    exists junk. rewrite E. split; [by rewrite <- !app_assoc|].
    rewrite Hj, length_app. simpl. lia.
Qed.

Lemma band_back_total a i j :
  (j < i < length a)%nat ->
  (exists p q, a !! j = Some p /\ a !! i = Some q /\ rtop p <> rtop q) ->
  total (fun _ => True) (band_back a i).
Proof.
  revert j. induction i as [|i IH]; intros j Hj (p & q & Hp & Hq & Hne); [lia|].
  cbn [band_back]. destruct (lookup_lt_is_Some_2 a i) as [u Hu]; [lia|].
  rewrite (rd_lookup a (Z.of_nat i) u), (rd_lookup a (Z.of_nat (S i)) q); cbn [obind].
  - destruct (Z.eqb_spec (rtop u) (rtop q)); [|done].
    destruct (decide (j = i)) as [->|Hji]; [congruence|].
    apply (IH j); [lia|]. exists p, u. split_and!; [done|done|congruence].
  - lia.
  - by rewrite Nat2Z.id.
  - lia.
  - by rewrite Nat2Z.id.
Qed.

(** The result so far ends in a band of its own, at [ps]. *)
Definition settled (d : region) (ps : Z) : Prop :=
  exists pre prev t b, fData d = pre ++ prev /\ ps = zlen pre /\ is_row t b prev /\ above t pre
    /\ banded (fData d).

(** [d'] covers what [d] covers, in no more rectangles. *)
Definition coalesced (d d' : region) : Prop :=
  (forall x y, has (fData d') x y = has (fData d) x y)
  /\ banded (fData d') /\ (forall y, above y (fData d) -> above y (fData d'))
  /\ fAlloc d' = fAlloc d /\ fDataSize d' = fDataSize d /\ fBounds d' = fBounds d
  /\ fCount d' <= fCount d.

Lemma coalesced_refl d : banded (fData d) -> coalesced d d.
Proof. intros Hb. split; [done|]. split; [done|]. split; [done|]. split_and!; [done..|lia]. Qed.

Lemma row_has_cols x l k :
  map (fun r => (rleft r, rright r)) l = map (fun r => (rleft r, rright r)) k ->
  row_has x l = row_has x k.
Proof.
  revert k. induction l as [|a l IH]; intros [|b k] E; try done.
  simpl in E. injection E as E1 E2 E. rewrite !row_has_cons, E1, E2. f_equal. auto.
Qed.

Lemma stretch_row t b b' l : is_row t b l -> is_row t b' (map (stretch b') l).
Proof.
  intros [H Hs]. split.
  - apply Forall_map. eapply Forall_impl; [apply H|]. simpl. tauto.
  - clear H. induction Hs as [|a l _ IH Ha]; simpl; constructor; [done|].
    apply Forall_map. eapply Forall_impl; [apply Ha|]. done.
Qed.

(** A band merged with the equal band below it. *)
Lemma stretch_points t b b' prev cur x y :
  is_row t b prev -> is_row b b' cur -> same_cols prev cur = true -> t <= b -> b <= b' ->
  has (map (stretch b') prev) x y = has prev x y || has cur x y.
Proof.
  intros Hp Hc Hs%bool_decide_eq_true Htb Hb.
  rewrite (has_row t b' _ _ _ (stretch_row _ _ _ _ Hp)), (has_row _ _ _ _ _ Hp),
    (has_row _ _ _ _ _ Hc).
  rewrite (row_has_cols x (map (stretch b') prev) prev) by (rewrite map_map; done).
  rewrite (row_has_cols x cur prev) by done.
  destruct (row_has x prev); rewrite ?andb_false_r; [|done]. rewrite !andb_true_r.
  apply eq_true_iff_eq. rewrite orb_true_iff, !andb_true_iff, !Z.leb_le, !Z.ltb_lt. lia.
Qed.

Section CoalesceSpec.
Context (d : region) (pre prev : list clipping_rect) (e : clipping_rect) (ext : list clipping_rect).
Context (t b : Z).
Hypothesis Hdata : fData d = pre ++ prev ++ e :: ext.
Hypothesis Hprev : is_row t b prev.
Hypothesis Hpre : above t pre.
Hypothesis Hbanded : banded (fData d).
Hypothesis Hbelow : forall u q, u ∈ pre ++ prev -> q ∈ e :: ext -> rbottom u <= rtop q.

Let cur := take_top (rtop e) (e :: ext).
Let rest := drop_top (rtop e) (e :: ext).

Lemma ext_split :
  is_row (rtop e) (rbottom e) cur /\ Forall (fun q => rbottom e <= rtop q) rest
  /\ banded rest /\ cur <> [] /\ e :: ext = cur ++ rest.
Proof.
  apply banded_split. rewrite Hdata in Hbanded.
  apply banded_app in Hbanded as (_ & Hb & _). by apply banded_app in Hb as (_ & ? & _).
Qed.

Lemma ext_nonempty : rtop e < rbottom e.
Proof. destruct Hbanded as [Hn _]. rewrite Hdata, !Forall_app, Forall_cons in Hn. apply Hn. Qed.

Lemma data_split : fData d = pre ++ prev ++ cur ++ rest.
Proof. rewrite Hdata. by destruct ext_split as (_ & _ & _ & _ & ->). Qed.

(** Backing up from the end stays inside the bands that were added. *)
Lemma new_start_total :
  total (fun s => rest = [] -> s = zlen (pre ++ prev))
    (if zlen (pre ++ prev) + zlen cur =? fCount d then Ok (zlen (pre ++ prev))
     else band_back (fData d) (Z.to_nat (fCount d - 1))).
Proof.
  destruct ext_split as (Hcur & Hrest & _ & Hne & _). pose proof data_split as E.
  assert (Hn : fCount d = zlen (pre ++ prev) + zlen cur + zlen rest).
  { unfold fCount. rewrite E, !zlen_app. lia. }
  destruct (Z.eqb_spec (zlen (pre ++ prev) + zlen cur) (fCount d)) as [Heq|Hneq]; [done|].
  eapply total_mono; [|intros s _ Hr; rewrite Hr in Hn; zl].
  destruct cur as [|c cur'] eqn:Ec; [done|].
  destruct (list_last_cases rest) as [Hr|(k & q & Hr)]; [rewrite Hr in Hn; zl|].
  apply (band_back_total _ _ (length (pre ++ prev))).
  - rewrite Hr in Hn. unfold fCount, zlen in *. rewrite length_app in *. simpl in *. lia.
  - exists c, q. split_and!.
    + rewrite E, app_assoc. by apply (list_lookup_middle (pre ++ prev) (cur' ++ rest)).
    + rewrite E, Hr.
      replace (pre ++ prev ++ (c :: cur') ++ k ++ [q]) with ((pre ++ prev ++ (c :: cur') ++ k) ++ [q])
        by (by rewrite <- !app_assoc).
      apply list_lookup_middle. rewrite Hr in Hn. unfold zlen in Hn.
      rewrite Hn, !length_app. cbn [length]. lia.
    + rewrite Hr in Hrest. apply Forall_app in Hrest as [_ Hq%Forall_inv].
      apply is_row_cons in Hcur as ((Hc & _) & _). pose proof ext_nonempty. lia.
Qed.

(** The bands before what was added, and the settled result without a merge. *)
Lemma unmerged : rest = [] -> settled d (zlen (pre ++ prev)).
Proof.
  intros Hr. destruct ext_split as (Hcur & _ & _ & _ & E). rewrite Hr, app_nil_r in E.
  exists (pre ++ prev), cur, (rtop e), (rbottom e). split_and!.
  - by rewrite Hdata, E, <- app_assoc.
  - done.
  - done.
  - apply Forall_forall. intros u Hu. apply Hbelow; [done|]. set_solver.
  - done.
Qed.

Hypothesis Hcols : same_cols prev cur = true.
Hypothesis Hmeet : b = rtop e.
Hypothesis Hnonnil : prev <> [].

Lemma prev_nonempty : t < b.
Proof.
  destruct prev as [|p l]; [done|]. apply is_row_cons in Hprev as ((<- & <- & _) & _).
  destruct Hbanded as [Hn _]. rewrite Hdata in Hn. apply Forall_app in Hn as [_ Hn].
  by apply Forall_inv in Hn as [_ ?].
Qed.

Lemma merged_banded : banded (pre ++ map (stretch (rbottom e)) prev ++ rest).
Proof.
  destruct ext_split as (Hcur & Hrest & Hrb & Hne & _).
  pose proof prev_nonempty. pose proof ext_nonempty.
  pose proof (stretch_row _ _ (rbottom e) _ Hprev) as Hst.
  pose proof Hbanded as Hpb. rewrite Hdata in Hpb. apply banded_app in Hpb as (Hpb & _ & _).
  apply banded_app. split; [done|]. split.
  - apply banded_app. split; [apply (is_row_banded t (rbottom e)); [lia|done]|]. split; [done|].
    intros p q Hp Hq. destruct Hst as [Hst _]. rewrite Forall_forall in Hst, Hrest.
    right. destruct (Hst _ Hp) as (_ & -> & _). auto.
  - intros u q Hu [Hq|Hq]%elem_of_app; right.
    + destruct Hst as [Hst _]. rewrite Forall_forall in Hst. destruct (Hst _ Hq) as (-> & _).
      unfold above in Hpre. rewrite Forall_forall in Hpre. auto.
    + apply Hbelow; [set_solver|]. destruct ext_split as (_ & _ & _ & _ & ->). set_solver.
Qed.

Lemma merged_coalesced :
  coalesced d (set_data d (pre ++ map (stretch (rbottom e)) prev ++ rest)).
Proof.
  pose proof data_split as E. destruct ext_split as (Hcur & _ & _ & Hne & _).
  pose proof prev_nonempty. pose proof ext_nonempty.
  split; [|split; [apply merged_banded|split]]; [| |split_and!; [done..|]].
  - intros x y. simpl. rewrite E, !has_app, (stretch_points t b (rbottom e) prev cur); auto; try lia.
    + by rewrite <- !orb_assoc.
    + by rewrite Hmeet.
  - intros y. unfold above. simpl. rewrite E, !Forall_app. intros (H1 & H2 & H3 & H4).
    split_and!; auto. destruct cur as [|c l]; [done|].
    apply is_row_cons in Hcur as ((_ & Hcb & _) & _). apply Forall_inv in H3.
    apply Forall_map, Forall_forall. simpl. intros. lia.
  - unfold fCount. simpl. rewrite E, !zlen_app, zlen_map. pose proof (zlen_nonneg cur). lia.
Qed.

Lemma merged_settled :
  rest = [] -> settled (set_data d (pre ++ map (stretch (rbottom e)) prev ++ rest)) (zlen pre).
Proof.
  intros Hr. pose proof merged_banded as Hb. rewrite Hr, app_nil_r in *.
  exists pre, (map (stretch (rbottom e)) prev), t, (rbottom e).
  split; [done|]. split; [done|]. split; [by eapply stretch_row|]. by split.
Qed.
End CoalesceSpec.

(** [miCoalesce] keeps the points and the banding of a region whose last
    bands were added below the others. *)
Lemma miCoalesce_spec d pre prev e ext t b :
  fData d = pre ++ prev ++ e :: ext -> is_row t b prev -> above t pre -> banded (fData d) ->
  (forall u q, u ∈ pre ++ prev -> q ∈ e :: ext -> rbottom u <= rtop q) ->
  total (fun r => coalesced d r.1 /\ (drop_top (rtop e) (e :: ext) = [] -> settled r.1 r.2))
    (miCoalesce d (zlen pre) (zlen (pre ++ prev))).
Proof.
  intros Hdata Hprev Hpre Hb Hbelow. set (cur := take_top (rtop e) (e :: ext)).
  set (rest := drop_top (rtop e) (e :: ext)).
  pose proof (ext_split d pre prev e ext Hdata Hb) as (Hcur & _ & _ & Hne & Esplit).
  fold cur in Hcur, Hne, Esplit. fold rest in Esplit.
  assert (Hcount : fCount d = zlen (pre ++ prev) + zlen cur + zlen rest).
  { unfold fCount. rewrite Hdata, Esplit, !zlen_app. lia. }
  unfold miCoalesce. rewrite Hdata. rewrite app_assoc, (rd_at (pre ++ prev)) by done. cbn [obind].
  replace (drop (Z.to_nat (zlen (pre ++ prev))) ((pre ++ prev) ++ e :: ext)) with (e :: ext)
    by (unfold zlen; by rewrite Nat2Z.id, drop_app_length).
  fold cur. rewrite <- app_assoc, <- Hdata.
  apply total_bind. eapply total_mono.
  { by apply (new_start_total d pre prev e ext Hdata Hb). }
  fold rest. intros newStart Hnew.
  assert (Hplain : coalesced d (d, newStart).1 /\ (rest = [] -> settled (d, newStart).1 (d, newStart).2)).
  { split; [by apply coalesced_refl|]. intros Hr. simpl. rewrite (Hnew Hr).
    by eapply unmerged. }
  destruct ((zlen cur =? zlen (pre ++ prev) - zlen pre) && negb (zlen cur =? 0)) eqn:Hsame;
    [|done].
  apply andb_true_iff in Hsame as [Hlen _]. apply Z.eqb_eq in Hlen.
  assert (Hl : length prev = length cur) by (rewrite zlen_app in Hlen; unfold zlen in Hlen; lia).
  destruct prev as [|p prev0] eqn:Eprev; [destruct cur; done|]. rewrite <- Eprev in *.
  assert (Hp : rbottom p = b).
  { rewrite Eprev in Hprev. by apply is_row_cons in Hprev as ((_ & ? & _) & _). }
  assert (Hrdp : rd (fData d) (zlen pre) = Ok p) by (rewrite Hdata, Eprev; apply rd_prev).
  rewrite Hrdp. cbn [obind].
  destruct (Z.eqb_spec (rbottom p) (rtop e)) as [Hmeet|]; [|done].
  assert (Hdata' : fData d = pre ++ prev ++ [] ++ cur ++ rest) by (rewrite Hdata, Esplit; done).
  pose proof (lines_up_spec pre prev [] cur rest Hl) as Hlines.
  rewrite <- Hdata', app_nil_r in Hlines.
  replace (Z.to_nat (zlen (pre ++ prev) - zlen pre)) with (length prev)
    by (rewrite zlen_app; unfold zlen; lia).
  rewrite Hlines. cbn [obind]. destruct (same_cols prev cur) eqn:Hcols; [|done]. cbn [negb].
  pose proof (merge_bottoms_spec pre prev [] cur rest (rbottom e) Hl) as Hmerge.
  rewrite <- Hdata', app_nil_r in Hmerge.
  replace (Z.to_nat (zlen cur)) with (length prev) by (unfold zlen; lia).
  rewrite Hmerge by (destruct Hcur as [Hc _]; eapply Forall_impl; [exact Hc|]; tauto).
  cbn [obind]. set (top := map (stretch (rbottom e)) prev).
  assert (Hnn : prev <> []) by (rewrite Eprev; done).
  assert (Htake : forall junk, length junk = length cur ->
     take (Z.to_nat (fCount d - zlen cur)) ((pre ++ top) ++ rest ++ junk) = pre ++ top ++ rest).
  { intros junk Hj. rewrite !app_assoc. replace (Z.to_nat (fCount d - zlen cur))
      with (length ((pre ++ top) ++ rest)); [apply take_app_length|].
    rewrite Hcount. unfold zlen, top. rewrite !length_app, length_map. lia. }
  assert (Hgoal : coalesced d (set_data d (pre ++ top ++ rest))
      /\ (rest = [] -> settled (set_data d (pre ++ top ++ rest)) (zlen pre))).
  { assert (b = rtop e) by congruence.
    split; [by apply (merged_coalesced d pre prev e ext t b)|].
    by apply (merged_settled d pre prev e ext t b). }
  destruct (Z.eqb_spec (zlen (pre ++ prev) + zlen cur) (fCount d)) as [Hend|Hend].
  - assert (Hr : rest = []) by (destruct rest; [done|]; zl).
    assert (Hm : pre ++ top ++ [] ++ cur ++ rest = (pre ++ top) ++ rest ++ cur)
      by (rewrite Hr, app_nil_r, <- app_assoc; done).
    rewrite Hm, Htake by done. exact Hgoal.
  - assert (Hr : rest <> []) by (intros ->; zl).
    destruct (copy_down_spec (pre ++ top) cur rest Hne) as (junk & Hcopy & Hj).
    replace (pre ++ top ++ [] ++ cur ++ rest) with ((pre ++ top) ++ cur ++ rest)
      by (by rewrite <- app_assoc).
    replace (zlen pre + zlen cur) with (zlen (pre ++ top))
      by (unfold top; rewrite zlen_app, zlen_map; unfold zlen; lia).
    replace (zlen (pre ++ prev) + zlen cur) with (zlen ((pre ++ top) ++ cur))
      by (unfold top; rewrite !zlen_app, zlen_map; lia).
    replace (Z.to_nat (fCount d - zlen ((pre ++ top) ++ cur))) with (length rest)
      by (rewrite Hcount; unfold top, zlen; rewrite !length_app, length_map; lia).
    rewrite Hcopy. cbn [obind]. rewrite Htake by done. destruct Hgoal as [Hg _].
    split; [exact Hg|]. intros. done.
Qed.

(** ** One band of the result *)

(** [d'] is [d] with the points [on] added, above [y1], in at most [n] more
    rectangles; [ps] is where its last band starts. *)
Record emitted (d : region) (y1 n : Z) (on : Z -> Z -> bool) (d' : region) (ps : Z) : Prop := {
  em_points : forall x y, has (fData d') x y = has (fData d) x y || on x y;
  em_settled : settled d' ps;
  em_roomy : roomy d';
  em_above : above y1 (fData d');
  em_count : fCount d' <= fCount d + n;
}.

Lemma above_le y y' l : y <= y' -> above y l -> above y' l.
Proof. intros Hy H. eapply Forall_impl; [apply H|]. simpl. intros. lia. Qed.

Lemma emitted_ext d y1 y1' n on on' d' ps :
  emitted d y1 n on d' ps -> y1 <= y1' -> (forall x y, on x y = on' x y) ->
  emitted d y1' n on' d' ps.
Proof.
  intros [? ? ? ? ?] Hy Hon. split; auto; [|by eapply above_le].
  intros x y. by rewrite <- Hon.
Qed.

Lemma settled_banded d ps : settled d ps -> banded (fData d).
Proof. by intros (? & ? & ? & ? & ? & ? & ? & ? & ?). Qed.

Lemma emit_nothing d ps y1 n :
  settled d ps -> roomy d -> above y1 (fData d) -> 0 <= n ->
  total (fun r => emitted d y1 n (fun _ _ => false) r.1 r.2) (coalesce_new d ps (fCount d)).
Proof.
  intros. unfold coalesce_new. rewrite Z.eqb_refl. simpl. split; simpl; auto; [|lia].
  intros. by rewrite orb_false_r.
Qed.

(** A band that was added, and the attempt to merge it upwards. *)
Lemma emit_band d ps top bot n on d' :
  settled d ps -> roomy d -> above top (fData d) -> top < bot -> grown d top bot n on d' ->
  total (fun r => emitted d bot n (fun x y => (top <=? y) && (y <? bot) && on x) r.1 r.2)
    (coalesce_new d' ps (fCount d)).
Proof.
  intros Hs Hr Hab Ht (row & Ed & Hr' & Eb & Hrow & Hn & Hon).
  assert (Hpts : forall x y, has (fData d') x y
    = has (fData d) x y || ((top <=? y) && (y <? bot) && on x)).
  { intros x y. by rewrite Ed, has_app, (has_row _ _ _ _ _ Hrow), Hon. }
  assert (Hcount : fCount d' = fCount d + zlen row) by (unfold fCount; rewrite Ed; zl).
  assert (Habove : above bot (fData d')).
  { rewrite Ed. apply Forall_app; split.
    - eapply above_le; [|done]. lia.
    - destruct Hrow as [Hrow _]. eapply Forall_impl; [apply Hrow|]. simpl. intros. lia. }
  assert (Hband : banded (fData d')).
  { rewrite Ed. apply banded_app. split; [by eapply settled_banded|].
    split; [by eapply is_row_banded|]. intros a b Ha Hb. right.
    destruct Hrow as [Hrow _]. unfold above in Hab. rewrite Forall_forall in Hrow, Hab.
    destruct (Hrow _ Hb) as (-> & _). auto. }
  destruct Hs as (pre & prev & t & b & Edd & -> & Hprev & Hpre & _).
  unfold coalesce_new. destruct row as [|e ext].
  - rewrite app_nil_r in Ed. replace (fCount d') with (fCount d) by (rewrite Hcount; zl).
    rewrite Z.eqb_refl. simpl. split; simpl; auto; [|rewrite Hcount; lia].
    exists pre, prev, t, b. rewrite Ed at 1. auto.
  - replace (fCount d' =? fCount d) with false by (symmetry; apply Z.eqb_neq; zl). simpl.
    replace (fCount d) with (zlen (pre ++ prev)) by (unfold fCount; by rewrite Edd).
    assert (Ed' : fData d' = pre ++ prev ++ e :: ext) by (rewrite Ed, Edd, <- app_assoc; done).
    eapply total_mono; [apply (miCoalesce_spec d' pre prev e ext t b); auto|].
    + intros u q Hu Hq. destruct Hrow as [Hrow _]. unfold above in Hab.
      rewrite Forall_forall in Hrow, Hab. destruct (Hrow _ Hq) as (-> & _). apply Hab. by rewrite Edd.
    + intros [d'' ps] ((Hp & Hb & Ha & Hal & Hsz & _ & Hc) & Hset). simpl in *.
      assert (Htop : rtop e = top) by (by apply is_row_cons in Hrow as ((? & _) & _)).
      destruct (take_top_row top bot (e :: ext) Hrow) as [_ Hdrop].
      rewrite <- Htop in Hdrop. split; simpl.
      * intros x y. by rewrite Hp.
      * by apply Hset.
      * destruct Hr' as (? & ? & ?). unfold roomy. rewrite Hal, Hsz. lia.
      * auto.
      * unfold fCount in *. lia.
Qed.

(** ** The loop *)

Section Emits.
Context `{RegionClassOk}.

(** The call of a non-overlap function, when there is one to call. *)
Lemma nonO_emits f g d ps band t0 b0 top bot ybot :
  (match f with Some f => g true = true /\ f = copy_band | None => g true = false end) ->
  g false = false ->
  settled d ps -> roomy d -> above ybot (fData d) -> ybot <= top <= bot -> is_row t0 b0 band ->
  fCount d + zlen band <= COUNT_MAX ->
  total (fun d1 => total (fun r => emitted d bot (zlen band)
                             (fun x y => (top <=? y) && (y <? bot) && g (row_has x band)) r.1 r.2)
                     (coalesce_new d1 ps (fCount d)))
    (if negb (top =? bot) then call_nonO f d band top bot else Ok d).
Proof.
  intros Hf Hg Hs Hr Hab Htb Hband Hn.
  assert (Hnil : (forall x y, (top <=? y) && (y <? bot) && g (row_has x band) = false) ->
    total (fun r => emitted d bot (zlen band)
      (fun x y => (top <=? y) && (y <? bot) && g (row_has x band)) r.1 r.2) (coalesce_new d ps (fCount d))).
  { intros E. eapply total_mono.
    - apply (emit_nothing d ps ybot (zlen band)); auto. zl.
    - intros r He. eapply emitted_ext; [exact He|lia|]. intros x y. by rewrite E. }
  destruct (Z.eqb_spec top bot) as [->|Hne]; simpl.
  - apply Hnil. intros x y. apply andb_false_iff. left. apply andb_false_iff.
    rewrite Z.leb_gt, Z.ltb_ge. lia.
  - destruct f as [f|]; simpl.
    + destruct Hf as [Hg1 ->]. eapply total_mono.
      { eapply (copy_band_grown d band t0 b0 top bot); auto. }
      intros d1 Hgr. eapply total_mono.
      { eapply (emit_band d ps top bot); [done|done| |lia|exact Hgr]. eapply above_le; [|done]. lia. }
      intros r He. eapply emitted_ext; [exact He|lia|].
      intros x y. simpl. f_equal. destruct (row_has x band); congruence.
    + apply Hnil. intros x y. destruct (row_has x band); rewrite ?Hf, ?Hg; by rewrite andb_false_r.
Qed.

End Emits.

Section OpCorrect.
Context `{RegionClassOk}.
Context (overlap : overlap_func) (nonO1 nonO2 : non_overlap_func) (op : bool -> bool -> bool).
Context `{!BandOp overlap nonO1 nonO2 op}.
Context (R1 R2 : list clipping_rect) (N : Z).
Hypothesis HN : N <= 4000.

Record op_inv (s : op_state) : Prop := {
  oi_settled : settled s.1.1.1.1 s.2;
  oi_roomy : roomy s.1.1.1.1;
  oi_above : above s.1.2 (fData s.1.1.1.1);
  oi_banded1 : banded s.1.1.1.2;
  oi_banded2 : banded s.1.1.2;
  oi_rest1 : forall x y, s.1.2 <= y -> has R1 x y = has s.1.1.1.2 x y;
  oi_rest2 : forall x y, s.1.2 <= y -> has R2 x y = has s.1.1.2 x y;
  oi_points : forall x y, has (fData s.1.1.1.1) x y = (y <? s.1.2) && op (has R1 x y) (has R2 x y);
  oi_head1 : Forall (fun a => s.1.2 < rbottom a) s.1.1.1.2;
  oi_head2 : Forall (fun b => s.1.2 < rbottom b) s.1.1.2;
  oi_tops : forall a b, a ∈ s.1.1.1.2 -> b ∈ s.1.1.2 -> s.1.2 <= Z.max (rtop a) (rtop b);
  oi_count : fCount s.1.1.1.1 + 2 * N * (zlen s.1.1.1.2 + zlen s.1.1.2) <= 2 * N * N;
  oi_size : zlen s.1.1.1.2 + zlen s.1.1.2 <= N;
}.

(** The points of a banded region down to the bottom of its first band. *)
Lemma first_band_points a l x y :
  banded (a :: l) -> y < rbottom a ->
  has (a :: l) x y = (rtop a <=? y) && row_has x (take_top (rtop a) (a :: l)).
Proof.
  intros Hb Hy. destruct (banded_split a l Hb) as (Hrow & Hrest & _ & _ & E).
  rewrite E at 1. rewrite has_app, (has_row _ _ _ _ _ Hrow).
  rewrite (has_out (drop_top _ _)).
  - rewrite orb_false_r. f_equal. destruct (rtop a <=? y); [|done].
    by apply Z.ltb_lt in Hy as ->.
  - eapply Forall_impl; [apply Hrest|]. simpl. intros. lia.
Qed.

Lemma take_top_len a l : banded (a :: l) -> zlen (take_top (rtop a) (a :: l)) <= zlen (a :: l).
Proof. intros Hb. rewrite <- (take_drop_top (rtop a) (a :: l)) at 2. zl. Qed.

Section Step.
Context (d : region) (a : clipping_rect) (l1 : list clipping_rect)
  (b : clipping_rect) (l2 : list clipping_rect) (ybot ps : Z).
Hypothesis Hinv : op_inv (d, a :: l1, b :: l2, ybot, ps).

Let ytop := Z.max (rtop a) (rtop b).
Let ybot' := Z.min (rbottom a) (rbottom b).
Let band1 := take_top (rtop a) (a :: l1).
Let band2 := take_top (rtop b) (b :: l2).

Lemma step_room : fCount d + 2 * N <= COUNT_MAX /\ zlen (a :: l1) + zlen (b :: l2) <= N.
Proof.
  destruct Hinv. simpl in *. split; [|done]. unfold COUNT_MAX.
  pose proof (zlen_nonneg (a :: l1)). pose proof (zlen_nonneg (b :: l2)).
  assert (0 <= 2 * N * (zlen (a :: l1) + zlen (b :: l2))) by nia.
  assert (2 * N * N <= 2 * 4000 * 4000) by nia. lia.
Qed.

Lemma step_order :
  ybot <= ytop /\ ybot < ybot' /\ rtop a < rbottom a /\ rtop b < rbottom b.
Proof.
  destruct Hinv as [_ _ _ [Hn1 _] [Hn2 _] _ _ _ H1 H2 Ht _ _]. simpl in *.
  apply Forall_inv in Hn1 as [_ ?], Hn2 as [_ ?], H1, H2.
  specialize (Ht a b ltac:(set_solver) ltac:(set_solver)). unfold ytop, ybot'. lia.
Qed.

Lemma step_points x y :
  ybot <= y < ybot' ->
  has R1 x y = (rtop a <=? y) && row_has x band1
  /\ has R2 x y = (rtop b <=? y) && row_has x band2.
Proof.
  intros Hy. destruct Hinv as [_ _ _ Hb1 Hb2 Hr1 Hr2 _ _ _ _ _ _]. simpl in *. unfold ybot' in Hy.
  split; [rewrite Hr1 by lia|rewrite Hr2 by lia]; apply first_band_points; auto; lia.
Qed.

Lemma step_rows :
  is_row (rtop a) (rbottom a) band1 /\ is_row (rtop b) (rbottom b) band2
  /\ zlen band1 + zlen band2 <= N /\ 0 <= zlen band1 /\ 0 <= zlen band2
  /\ band1 <> [] /\ band2 <> [].
Proof.
  destruct Hinv as [_ _ _ Hb1 Hb2 _ _ _ _ _ _ _ _]. simpl in Hb1, Hb2.
  destruct (banded_split a l1 Hb1) as (? & _ & _ & ? & _).
  destruct (banded_split b l2 Hb2) as (? & _ & _ & ? & _).
  pose proof (take_top_len a l1 Hb1). pose proof (take_top_len b l2 Hb2).
  destruct step_room as [_ ?]. do 2 (split; [done|]).
  split; [unfold band1, band2; lia|]. split_and!; auto using zlen_nonneg.
Qed.

(** The points of the result between [ybot] and where the overlap starts. *)
Definition lone_points (x y : Z) : bool :=
  (ybot <=? y) && (y <? Z.min ytop ybot') && op (has R1 x y) (has R2 x y).

Ltac lone_tac x y :=
  unfold lone_points; destruct (Z.leb_spec ybot y); [|cmp_cases; simpl; (done || lia)];
  destruct (Z.ltb_spec y (Z.min ytop ybot'));
    [destruct (step_points x y) as [-> ->]; [lia|]|]; unfold ytop, ybot' in *;
  cmp_cases; simpl; rewrite ?op_none; (done || lia).

Lemma step_nonoverlap :
  total (fun s => s.2 = ytop /\
           total (fun r => emitted d (Z.min ytop ybot') N lone_points r.1 r.2)
                 (coalesce_new s.1 ps (fCount d)))
    (non_overlap_step nonO1 nonO2 d a b band1 band2 ybot).
Proof.
  pose proof step_room as [Hroom HNz]. pose proof step_order as (Hyt & Hyb & Ha & Hb).
  pose proof step_rows as (Hrow1 & Hrow2 & Hl & Hl1 & Hl2 & _).
  pose proof (nonO1_grows (op := op)) as Hn1. pose proof (nonO2_grows (op := op)) as Hn2.
  destruct Hinv as [Hset Hro Hab _ _ _ _ _ _ _ _ _ _]. simpl in Hset, Hro, Hab.
  unfold non_overlap_step. autorewrite with clip. cbv zeta.
  destruct (Z.ltb_spec (rtop a) (rtop b)); [|destruct (Z.ltb_spec (rtop b) (rtop a))].
  - apply total_bind. eapply total_mono.
    { apply (nonO_emits nonO1 (fun v => op v false) d ps band1 (rtop a) (rbottom a) _ _ ybot);
        auto; unfold ytop, ybot' in *; try apply op_none; lia. }
    intros d1 He. split; [unfold ytop; simpl; lia|]. eapply total_mono; [exact He|].
    intros r Hr. destruct Hr as [Hp Hs Hr' Hab' Hc]. split; auto; [|eapply above_le; [|done]|lia].
    + intros x y. rewrite Hp. f_equal. lone_tac x y.
    + unfold ytop, ybot'. lia.
  - apply total_bind. eapply total_mono.
    { apply (nonO_emits nonO2 (fun v => op false v) d ps band2 (rtop b) (rbottom b) _ _ ybot);
        auto; unfold ytop, ybot' in *; try apply op_none; lia. }
    intros d1 He. split; [unfold ytop; simpl; lia|]. eapply total_mono; [exact He|].
    intros r Hr. destruct Hr as [Hp Hs Hr' Hab' Hc]. split; auto; [|eapply above_le; [|done]|lia].
    + intros x y. rewrite Hp. f_equal. lone_tac x y.
    + unfold ytop, ybot'. lia.
  - split; [unfold ytop; simpl; lia|]. simpl. eapply total_mono.
    { apply (emit_nothing d ps (Z.min ytop ybot') N); auto; [|zl]. eapply above_le; [|done]. lia. }
    intros r Hr. eapply emitted_ext; [exact Hr|lia|]. intros x y. symmetry. lone_tac x y.
Qed.

Definition both_points (x y : Z) : bool :=
  (ytop <=? y) && (y <? ybot') && op (has R1 x y) (has R2 x y).

Lemma step_overlap d1 ps1 :
  emitted d (Z.min ytop ybot') N lone_points d1 ps1 ->
  total (fun d2 => total (fun r => emitted d1 ybot' N both_points r.1 r.2)
                         (coalesce_new d2 ps1 (fCount d1)))
    (if ytop <? ybot' then overlap d1 band1 band2 ytop ybot' else Ok d1).
Proof.
  intros [_ Hset Hro Hab Hc]. pose proof step_room as [Hroom HNz].
  pose proof step_rows as (Hrow1 & Hrow2 & Hl & Hl1 & Hl2 & Hne1 & Hne2).
  pose proof step_order as (Hyt & Hyb & Ha & Hb).
  destruct (Z.ltb_spec ytop ybot') as [Hlt|Hge].
  - eapply total_mono.
    { eapply (overlap_grows d1 band1 band2); [done|eapply above_le; [|done]; lia|done..|lia]. }
    intros d2 Hg. eapply total_mono.
    { eapply (emit_band d1 ps1 ytop ybot'); [done|done|eapply above_le; [|done]; lia|done|exact Hg]. }
    intros r Hr. destruct Hr as [Hp Hs Hr' Hab' Hc']. split; auto; [|lia].
    intros x y. rewrite Hp. f_equal. unfold both_points.
    destruct (Z.leb_spec ytop y); simpl; [|done]. destruct (Z.ltb_spec y ybot'); simpl; [|done].
    destruct (step_points x y) as [-> ->]; [lia|]. unfold ytop in *.
    rewrite !(proj2 (Z.leb_le _ _)) by lia. done.
  - simpl. eapply total_mono.
    { apply (emit_nothing d1 ps1 ybot' N); auto; [|lia]. eapply above_le; [|done]. lia. }
    intros r Hr. eapply emitted_ext; [exact Hr|lia|]. intros x y. unfold both_points. simpl.
    symmetry. apply andb_false_iff. left. apply andb_false_iff. rewrite Z.leb_gt, Z.ltb_ge. lia.
Qed.

Lemma first_bottom c l :
  banded (c :: l) -> Forall (fun q => rbottom c <= rbottom q) (c :: l)
  /\ Forall (fun q => rbottom c < rbottom q) (drop_top (rtop c) (c :: l)).
Proof.
  intros Hb. destruct (banded_split c l Hb) as (Hrow & Hrest & [Hn _] & _ & E).
  assert (Hd : Forall (fun q => rbottom c < rbottom q) (drop_top (rtop c) (c :: l))).
  { rewrite Forall_forall in *. intros q Hq. specialize (Hn _ Hq). specialize (Hrest _ Hq).
    unfold nonempty in Hn. lia. }
  split; [|done]. rewrite E. apply Forall_app; split.
  - destruct Hrow as [Hrow _]. eapply Forall_impl; [apply Hrow|]. simpl. intros. lia.
  - eapply Forall_impl; [apply Hd|]. simpl. intros. lia.
Qed.

(** Leaving the first band, or not, once everything down to [y0] is done. *)
Definition advance (c : clipping_rect) (l : list clipping_rect) (y0 : Z) : list clipping_rect :=
  if rbottom c =? y0 then drop_top (rtop c) (c :: l) else c :: l.

Lemma advance_spec c l y0 :
  banded (c :: l) -> y0 <= rbottom c ->
  banded (advance c l y0) /\ Forall (fun q => y0 < rbottom q) (advance c l y0)
  /\ (forall x y, y0 <= y -> has (c :: l) x y = has (advance c l y0) x y)
  /\ zlen (advance c l y0) <= zlen (c :: l)
  /\ (rbottom c = y0 -> zlen (advance c l y0) < zlen (c :: l)
        /\ Forall (fun q => y0 <= rtop q) (advance c l y0)).
Proof.
  intros Hb Hy. destruct (banded_split c l Hb) as (Hrow & Hrest & Hd & Hne & E).
  destruct (first_bottom c l Hb) as [Hall Hdrop].
  assert (Hz : zlen (c :: l) = zlen (take_top (rtop c) (c :: l)) + zlen (drop_top (rtop c) (c :: l)))
    by (rewrite E at 1; apply zlen_app).
  unfold advance. destruct (Z.eqb_spec (rbottom c) y0) as [Heq|Hneq].
  - split; [done|]. split; [by rewrite Heq in Hdrop|]. split; [|split].
    + intros x y Hxy. rewrite E at 1. rewrite has_app, (has_row _ _ _ _ _ Hrow).
      replace (y <? rbottom c) with false by (symmetry; apply Z.ltb_ge; lia).
      by rewrite andb_false_r.
    + rewrite Hz. zl.
    + intros _. split; [|by rewrite Heq in Hrest].
      destruct (take_top (rtop c) (c :: l)); [done|]. rewrite Hz. zl.
  - split; [done|]. split; [|split; [done|]; split; [lia|done]].
    eapply Forall_impl; [apply Hall|]. simpl. intros. lia.
Qed.

Lemma step_inv d1 ps1 d2 ps2 :
  emitted d (Z.min ytop ybot') N lone_points d1 ps1 -> emitted d1 ybot' N both_points d2 ps2 ->
  op_inv (d2, advance a l1 ybot', advance b l2 ybot', ybot', ps2)
  /\ zlen (advance a l1 ybot') + zlen (advance b l2 ybot') < zlen (a :: l1) + zlen (b :: l2).
Proof.
  intros [Hp1 _ _ _ Hc1] [Hp2 Hs2 Hr2 Ha2 Hc2].
  pose proof step_order as (Hyt & Hyb & _ & _).
  destruct Hinv as [_ _ _ Hb1 Hb2 Hrest1 Hrest2 Hpts _ _ _ Hcount Hsize].
  cbn [fst snd] in *.
  destruct (advance_spec a l1 ybot' Hb1) as (Hab1 & Hah1 & Hap1 & Haz1 & Had1); [unfold ybot'; lia|].
  destruct (advance_spec b l2 ybot' Hb2) as (Hab2 & Hah2 & Hap2 & Haz2 & Had2); [unfold ybot'; lia|].
  assert (Hlt : zlen (advance a l1 ybot') + zlen (advance b l2 ybot') < zlen (a :: l1) + zlen (b :: l2)).
  { assert (rbottom a = ybot' \/ rbottom b = ybot') as [He|He] by (unfold ybot'; lia).
    - destruct (Had1 He). lia.
    - destruct (Had2 He). lia. }
  split; [|done]. split; cbn [fst snd]; auto.
  - intros x y Hy. rewrite Hrest1 by lia. auto.
  - intros x y Hy. rewrite Hrest2 by lia. auto.
  - intros x y. rewrite Hp2, Hp1, Hpts. unfold lone_points, both_points.
    destruct (op (has R1 x y) (has R2 x y)); rewrite ?andb_false_r, ?andb_true_r; [|done].
    apply eq_true_iff_eq. rewrite !orb_true_iff, !andb_true_iff, !Z.leb_le, !Z.ltb_lt. lia.
  - intros u v Hu Hv. assert (rbottom a = ybot' \/ rbottom b = ybot') as [He|He] by (unfold ybot'; lia).
    + destruct (Had1 He) as [_ Ht]. rewrite Forall_forall in Ht. specialize (Ht _ Hu). lia.
    + destruct (Had2 He) as [_ Ht]. rewrite Forall_forall in Ht. specialize (Ht _ Hv). lia.
  - assert (0 <= N) by zl. nia.
  - lia.
Qed.
End Step.

Definition op_size (s : op_state) : nat := (length s.1.1.1.2 + length s.1.1.2)%nat.

Lemma op_body_step s :
  op_inv s -> s.1.1.1.2 <> [] -> s.1.1.2 <> [] ->
  total (fun r => match r with
                  | inl s' => (op_inv s' /\ s'.1.1.1.2 <> [] /\ s'.1.1.2 <> [])
                              /\ (op_size s' < op_size s)%nat
                  | inr s' => op_inv s' /\ (s'.1.1.1.2 = [] \/ s'.1.1.2 = [])
                  end) (op_body overlap nonO1 nonO2 s).
Proof.
  destruct s as [[[[d r1] r2] ybot] ps]. cbn [fst snd]. intros Hinv Hn1 Hn2.
  destruct r1 as [|a l1]; [done|]. destruct r2 as [|b l2]; [done|].
  unfold op_body. cbv zeta. autorewrite with clip.
  apply total_bind. eapply total_mono; [by apply (step_nonoverlap d a l1 b l2 ybot ps)|].
  intros [d0 ytop] [Hy He0]. simpl in Hy, He0. subst ytop.
  apply total_bind. eapply total_mono; [exact He0|]. intros [d1 ps1] He1. cbn [fst snd] in He1.
  apply total_bind. eapply total_mono; [by apply (step_overlap d a l1 b l2 ybot ps Hinv d1 ps1)|].
  intros d2' He2'. apply total_bind. eapply total_mono; [exact He2'|].
  intros [d2 ps2] He2. cbn [fst snd] in He2.
  destruct (step_inv d a l1 b l2 ybot ps Hinv d1 ps1 d2 ps2 He1 He2) as [Hinv' Hlt].
  set (y0 := Z.min (rbottom a) (rbottom b)) in *.
  change (if rbottom a =? y0 then drop_top (rtop a) (a :: l1) else a :: l1) with (advance a l1 y0).
  change (if rbottom b =? y0 then drop_top (rtop b) (b :: l2) else b :: l2) with (advance b l2 y0).
  destruct (bool_decide (advance a l1 y0 <> []) && bool_decide (advance b l2 y0 <> [])) eqn:Hb.
  - apply andb_true_iff in Hb as [H1%bool_decide_eq_true H2%bool_decide_eq_true].
    split; [done|]. unfold op_size. cbn [fst snd]. unfold zlen in Hlt. lia.
  - split; [done|]. cbn [fst snd]. apply andb_false_iff in Hb.
    destruct Hb as [Hb|Hb]; apply bool_decide_eq_false in Hb; [left|right];
      [destruct (advance a l1 y0)|destruct (advance b l2 y0)]; try done; by destruct Hb.
Qed.

End OpCorrect.

(** ** The bands that are left at the end *)

Section Tail.
Context `{RegionClassOk}.

Definition tail_inv (d : region) (r : list clipping_rect) (ybot : Z)
    (s : region * list clipping_rect) : Prop :=
  exists ext, fData s.1 = fData d ++ ext /\ roomy s.1 /\ banded ext
    /\ zlen ext + zlen s.2 <= zlen r /\ Forall (fun q => ybot <= rtop q) ext
    /\ banded s.2 /\ Forall (fun q => ybot < rbottom q) s.2
    /\ (forall u q, u ∈ ext -> q ∈ s.2 -> rbottom u <= rtop q)
    /\ forall x y, has ext x y || ((ybot <=? y) && has s.2 x y) = (ybot <=? y) && has r x y.

Lemma tail_step d r ybot s :
  fCount d + zlen r <= COUNT_MAX -> tail_inv d r ybot s ->
  total (fun v => match v with
                  | inl s' => tail_inv d r ybot s' /\ (length s'.2 < length s.2)%nat
                  | inr d' => tail_inv d r ybot (d', [])
                  end) (tail_body copy_band ybot s).
Proof.
  destruct s as [d1 r1]. intros Hn Hinv. pose proof Hinv as Hinv'.
  destruct Hinv as (ext & Ed & Hro & Hbe & Hz & Htop & Hbr & Hbot & Hbelow & Hpts).
  cbn [fst snd] in *. destruct r1 as [|a l]; [exact Hinv'|].
  unfold tail_body. autorewrite with clip.
  destruct (banded_split a l Hbr) as (Hrow & Hrest & Hd & Hne & E).
  pose proof (Forall_inv Hbot) as Ha. simpl in Ha.
  assert (Hat : rtop a < rbottom a) by (by destruct Hbr as [[_ ?]%Forall_inv _]).
  assert (Hzb : zlen (a :: l) = zlen (take_top (rtop a) (a :: l)) + zlen (drop_top (rtop a) (a :: l)))
    by (rewrite E at 1; apply zlen_app).
  set (band := take_top (rtop a) (a :: l)) in *. set (rest := drop_top (rtop a) (a :: l)) in *.
  assert (Hcount : fCount d1 = fCount d + zlen ext) by (unfold fCount; rewrite Ed; zl).
  apply total_bind. eapply total_mono.
  { apply (copy_band_grown d1 band (rtop a) (rbottom a) (Z.max (rtop a) ybot) (rbottom a)); auto.
    rewrite Hcount. pose proof (zlen_nonneg rest). lia. }
  intros d2 (row & Ed2 & Hro2 & _ & Hrow2 & Hzr & Hon). split.
  2:{ cbn [snd]. destruct band; [done|]. unfold zlen in Hzb. cbn [length] in Hzb |- *. lia. }
  exists (ext ++ row). cbn [fst snd].
  pose proof Hrow2 as [Hr2 _]. rewrite Forall_forall in Hr2.
  split; [by rewrite Ed2, Ed, <- app_assoc|]. split; [done|]. split.
  { apply banded_app. split; [done|]. split; [eapply is_row_banded; [|done]; lia|].
    intros u q Hu Hq. right. destruct (Hr2 _ Hq) as (-> & _).
    specialize (Hbelow u a Hu ltac:(set_solver)). lia. }
  split; [zl|]. split.
  { apply Forall_app; split; [done|]. apply Forall_forall. intros q Hq.
    destruct (Hr2 _ Hq) as (-> & _). lia. }
  split; [done|]. split.
  { rewrite E in Hbot. by apply Forall_app in Hbot as [_ ?]. }
  split.
  { rewrite Forall_forall in Hrest. intros u q [Hu|Hu]%elem_of_app Hq.
    - apply Hbelow; [done|]. rewrite E. set_solver.
    - destruct (Hr2 _ Hu) as (_ & -> & _). auto. }
  intros x y. rewrite <- Hpts, has_app, (has_row _ _ _ _ _ Hrow2), Hon.
  rewrite E, has_app, (has_row _ _ _ _ _ Hrow).
  destruct (has ext x y), (has rest x y), (row_has x band); cmp_cases; simpl; (done || lia).
Qed.

Lemma tail_bands_spec f d r ybot g :
  (match f with Some f => g true = true /\ f = copy_band | None => g true = false end) ->
  g false = false -> roomy d -> banded r -> Forall (fun q => ybot < rbottom q) r ->
  fCount d + zlen r <= COUNT_MAX ->
  total (fun d' => exists ext, fData d' = fData d ++ ext /\ roomy d' /\ banded ext
           /\ Forall (fun q => ybot <= rtop q) ext /\ zlen ext <= zlen r
           /\ forall x y, has ext x y = (ybot <=? y) && g (has r x y))
    (tail_bands f d r ybot).
Proof.
  intros Hf Hg Hro Hb Hbot Hn. destruct f as [f|]; unfold tail_bands.
  - destruct Hf as [Hg1 ->].
    eapply total_mono.
    { eapply (loop_total _ (tail_inv d r ybot) (fun s => length s.2)
                (fun d' => tail_inv d r ybot (d', []))); [|exists []|cbn [snd]; lia].
      - intros s. by apply tail_step.
      - cbn [fst snd]. rewrite app_nil_r. split; [done|]. split; [done|]. split; [apply banded_nil|].
        split; [zl|]. split; [constructor|]. split; [done|]. split; [done|]. split; [|done].
        intros u q Hu. by apply elem_of_nil in Hu. }
    intros d' (ext & Ed & Hro' & Hbe & Hz & Htop & _ & _ & _ & Hpts). exists ext.
    do 4 (split; [done|]). split; [cbn [snd] in Hz; zl|]. intros x y. specialize (Hpts x y). simpl in Hpts.
    rewrite andb_false_r, orb_false_r in Hpts. rewrite Hpts.
    f_equal. destruct (has r x y); congruence.
  - exists []. rewrite app_nil_r. split; [done|]. split; [done|]. split; [apply banded_nil|].
    split; [constructor|]. split; [zl|]. intros x y. simpl. symmetry. apply andb_false_iff. right.
    by destruct (has r x y).
Qed.

(** Merging the first of the bands that were added at the end. *)
Lemma coalesce_tail d ps d' ext ybot :
  settled d ps -> above ybot (fData d) -> roomy d' -> fData d' = fData d ++ ext -> banded ext ->
  Forall (fun q => ybot <= rtop q) ext ->
  total (fun r => banded (fData r.1) /\ roomy r.1 /\ fCount r.1 <= fCount d'
           /\ forall x y, has (fData r.1) x y = has (fData d) x y || has ext x y)
    (coalesce_new d' ps (fCount d)).
Proof.
  intros Hs Hab Hro Ed Hbe Htop. pose proof (settled_banded _ _ Hs) as Hb.
  assert (Hbelow : forall u q, u ∈ fData d -> q ∈ ext -> rbottom u <= rtop q).
  { intros u q Hu Hq. unfold above in Hab. rewrite Forall_forall in Hab, Htop.
    specialize (Hab _ Hu). specialize (Htop _ Hq). simpl in *. lia. }
  assert (Hb' : banded (fData d')).
  { rewrite Ed. apply banded_app. split; [done|]. split; [done|]. right. auto. }
  assert (Hcount : fCount d' = fCount d + zlen ext) by (unfold fCount; rewrite Ed; zl).
  unfold coalesce_new. destruct ext as [|e ext].
  - replace (fCount d') with (fCount d) by (rewrite Hcount; zl). rewrite Z.eqb_refl. simpl.
    split; [done|]. split; [done|]. split; [zl|]. intros x y. by rewrite Ed, app_nil_r, orb_false_r.
  - replace (fCount d' =? fCount d) with false by (symmetry; apply Z.eqb_neq; zl). simpl.
    destruct Hs as (pre & prev & t & b & Edd & -> & Hprev & Hpre & _).
    replace (fCount d) with (zlen (pre ++ prev)) by (unfold fCount; by rewrite Edd).
    assert (Ed' : fData d' = pre ++ prev ++ e :: ext) by (rewrite Ed, Edd, <- app_assoc; done).
    rewrite Edd in Hbelow.
    eapply total_mono; [apply (miCoalesce_spec d' pre prev e ext t b); auto|].
    intros [d'' ps] ((Hp & Hb'' & _ & Hal & Hsz & _ & Hc) & _). simpl in *.
    split; [done|]. split.
    + destruct Hro as (? & ? & ?). unfold roomy. rewrite Hal, Hsz. lia.
    + split; [done|]. intros x y. by rewrite Hp, Ed, has_app.
Qed.
End Tail.

(** ** The generic operator *)

Section RegionOpCorrect.
Context `{RegionClassOk}.
Context (overlap : overlap_func) (nonO1 nonO2 : non_overlap_func) (op : bool -> bool -> bool).
Context `{!BandOp overlap nonO1 nonO2 op}.

(** What both sources have to be: banded, not empty, with their first row not
    above the top of their bounds. *)
Definition source (r : region) : Prop :=
  banded (fData r) /\ fData r <> [] /\ Forall (fun q => rtop (fBounds r) <= rtop q) (fData r).

Lemma op_inv_start reg1 reg2 d ybot :
  source reg1 -> source reg2 -> fData d = [] -> roomy d ->
  ybot = Z.min (rtop (fBounds reg1)) (rtop (fBounds reg2)) ->
  op_inv op (fData reg1) (fData reg2) (fCount reg1 + fCount reg2)
    (d, fData reg1, fData reg2, ybot, 0).
Proof.
  intros (Hb1 & Hn1 & Ht1) (Hb2 & Hn2 & Ht2) Ed Hro ->.
  assert (Hne : forall r, banded (fData r) -> Forall (fun q => rtop (fBounds r) <= rtop q) (fData r) ->
      Forall (fun q => rtop (fBounds r) <= rtop q /\ rtop q < rbottom q) (fData r)).
  { intros r [Hn _] Ht. rewrite Forall_forall in *. intros q Hq. split; [auto|].
    by destruct (Hn _ Hq). }
  apply Hne in Ht1; [|done]. apply Hne in Ht2; [|done]. unfold fCount.
  split; cbn [fst snd]; auto.
  - exists [], [], 0, 0. rewrite Ed. split; [done|]. split; [done|]. split; [apply is_row_nil|].
    split; [constructor|apply banded_nil].
  - rewrite Ed. constructor.
  - intros x y. rewrite Ed. simpl.
    destruct (Z.ltb_spec y (Z.min (rtop (fBounds reg1)) (rtop (fBounds reg2)))); [|done].
    rewrite !has_out; [by rewrite (op_none (op := op))|..].
    + eapply Forall_impl; [apply Ht2|]. simpl. intros. lia.
    + eapply Forall_impl; [apply Ht1|]. simpl. intros. lia.
  - eapply Forall_impl; [apply Ht1|]. simpl. intros. lia.
  - eapply Forall_impl; [apply Ht2|]. simpl. intros. lia.
  - intros a b Ha Hb. rewrite Forall_forall in Ht1. specialize (Ht1 _ Ha). lia.
  - unfold fCount. rewrite Ed, zlen_nil. lia.
  - lia.
Qed.

Theorem miRegionOp_spec newReg reg1 reg2 :
  source reg1 -> source reg2 -> fCount reg1 + fCount reg2 <= 4000 ->
  total (fun d => banded (fData d) /\ roomy d
           /\ fCount d <= (2 * (fCount reg1 + fCount reg2) + 1) * (fCount reg1 + fCount reg2)
           /\ forall x y, has (fData d) x y = op (has (fData reg1) x y) (has (fData reg2) x y))
    (miRegionOp newReg reg1 reg2 overlap nonO1 nonO2).
Proof.
  intros Hs1 Hs2 Hn. pose proof Hs1 as (_ & Hn1 & _). pose proof Hs2 as (_ & Hn2 & _).
  assert (Hc : 0 < fCount reg1 /\ 0 < fCount reg2).
  { unfold fCount. destruct (fData reg1); [done|]. destruct (fData reg2); [done|]. zl. }
  unfold miRegionOp. cbv zeta. autorewrite with clip.
  destruct (SetSize_enough (MakeEmpty newReg) (Z.max (fCount reg1) (fCount reg2) * 2)) as (d & -> & Ed & Ea & Es); [lia|].
  rewrite MakeEmpty_data in Ed. simpl negb. cbv iota.
  assert (Hro : roomy d) by (unfold roomy, fCount; rewrite Ed, Ea, Es; zl).
  change (if rtop (fBounds reg1) <? rtop (fBounds reg2) then rtop (fBounds reg1)
          else rtop (fBounds reg2))
    with (if rtop (fBounds reg1) <? rtop (fBounds reg2) then rtop (fBounds reg1)
          else rtop (fBounds reg2)).
  set (y0 := if rtop (fBounds reg1) <? rtop (fBounds reg2) then _ else _).
  assert (Hy0 : y0 = Z.min (rtop (fBounds reg1)) (rtop (fBounds reg2))) by (unfold y0; bcase; lia).
  set (N := fCount reg1 + fCount reg2) in *.
  apply total_bind. eapply total_mono.
  { eapply (loop_total _
      (fun s => op_inv op (fData reg1) (fData reg2) N s /\ s.1.1.1.2 <> [] /\ s.1.1.2 <> []) op_size
      (fun s => op_inv op (fData reg1) (fData reg2) N s /\ (s.1.1.1.2 = [] \/ s.1.1.2 = []))).
    - intros s (Hi & ? & ?). by apply op_body_step.
    - split; [by apply op_inv_start|done].
    - unfold op_size. cbn [fst snd]. lia. }
  intros [[[[d1 r1] r2] ybot] ps] [[Hset Hro1 Hab Hb1 Hb2 Hrest1 Hrest2 Hpts Hh1 Hh2 _ Hcnt Hsz] Hend].
  cbn [fst snd] in *.
  assert (Hroom : fCount d1 + zlen r1 + zlen r2 <= COUNT_MAX).
  { unfold COUNT_MAX. pose proof (zlen_nonneg r1). pose proof (zlen_nonneg r2).
    assert (0 <= 2 * N * (zlen r1 + zlen r2)) by nia. nia. }
  pose proof (nonO1_grows (op := op)) as Hf1. pose proof (nonO2_grows (op := op)) as Hf2.
  assert (Htail : total (fun d2 => exists ext, fData d2 = fData d1 ++ ext /\ roomy d2 /\ banded ext
           /\ Forall (fun q => ybot <= rtop q) ext /\ zlen ext <= N
           /\ forall x y, has ext x y = (ybot <=? y) && op (has r1 x y) (has r2 x y))
     (if bool_decide (r1 <> []) then tail_bands nonO1 d1 r1 ybot
      else if bool_decide (r2 <> []) then tail_bands nonO2 d1 r2 ybot else Ok d1)).
  { case_bool_decide as E1; [|case_bool_decide as E2].
    - destruct Hend as [->| ->]; [done|].
      eapply total_mono; [apply (tail_bands_spec nonO1 d1 r1 ybot (fun v => op v false)); auto|].
      + apply op_none.
      + pose proof (zlen_nonneg (@nil clipping_rect)). lia.
      + intros d2 (ext & ? & ? & ? & ? & ? & ?). exists ext. do 4 (split; [done|]).
        split; [zl|done].
    - assert (r1 = []) as -> by (destruct r1; [done|]; first [discriminate|by destruct E1]).
      eapply total_mono; [apply (tail_bands_spec nonO2 d1 r2 ybot (fun v => op false v)); auto|].
      + apply op_none.
      + pose proof (zlen_nonneg (@nil clipping_rect)). lia.
      + intros d2 (ext & ? & ? & ? & ? & ? & ?). exists ext. do 4 (split; [done|]).
        split; [zl|done].
    - assert (r1 = []) as -> by (destruct r1; [done|]; first [discriminate|by destruct E1]).
      assert (r2 = []) as -> by (destruct r2; [done|]; first [discriminate|by destruct E2]).
      exists []. rewrite app_nil_r. split; [done|]. split; [done|]. split; [apply banded_nil|].
      split; [constructor|]. split; [zl|].
      intros x y. simpl. by rewrite (op_none (op := op)), andb_false_r. }
  apply total_bind. eapply total_mono; [exact Htail|].
  intros d2 (ext & Ed2 & Hro2 & Hbe & Htop & Hzx & Hext). apply total_bind.
  eapply total_mono; [apply (coalesce_tail d1 ps d2 ext ybot); auto|].
  intros [d3 ps3] (Hb3 & Hro3 & Hc3 & Hp3). simpl in *. split; [done|]. split; [done|]. split.
  { assert (fCount d2 = fCount d1 + zlen ext) by (unfold fCount; rewrite Ed2; zl).
    pose proof (zlen_nonneg r1). pose proof (zlen_nonneg r2). nia. }
  intros x y. rewrite Hp3, Hpts, Hext.
  destruct (Z.ltb_spec y ybot), (Z.leb_spec ybot y); try lia; simpl; [by rewrite orb_false_r|].
  by rewrite Hrest1, Hrest2.
Qed.

End RegionOpCorrect.
