(* ===== verification/RegionSet.v ===== *)
(** The operations of [BRegion::Support] (kits/interface/RegionSupport.cpp):
    union, intersection, subtraction and symmetric difference of regions,
    their translation, and the queries for a point and for a rectangle.

    A region in the sense of [wf_region] has its rectangles banded and its
    bounds tight.  The operations give such regions for such regions, covering
    the points that the set operation of their name says. *)

From Stdlib Require Import ZArith Lia List Bool Sorted.
From stdpp Require Import base tactics list sets numbers sorting.
From S2P Require Import Prelude Clipping RegionBand RegionRows RegionOp.
Local Open Scope Z_scope.
Local Open Scope c_scope.

(** ** Definitions *)

Inductive rect_part : Type := RectangleOut | RectanglePart | RectangleIn.

Section Support.
Context `{RegionClass}.

(** The loop of [miSetExtents]. *)
Fixpoint widen_extents (e : clipping_rect) (l : list clipping_rect) : clipping_rect :=
  match l with
  | [] => e
  | b :: l =>
      widen_extents
        {| rleft := if rleft b <? rleft e then rleft b else rleft e; rtop := rtop e;
           rright := if rright e <? rright b then rright b else rright e; rbottom := rbottom e |} l
  end.

Definition miSetExtents (pReg : region) : region :=
  match fData pReg with
  | [] => set_bounds pReg (Rect 0 0 0 0)
  | b :: l =>
      let pBoxEnd := List.last l b in
      set_bounds pReg (widen_extents (Rect (rleft b) (rtop b) (rright pBoxEnd) (rbottom pBoxEnd))
                         (fData pReg))
  end.

Fixpoint offset_all (l : list clipping_rect) (x y : Z) : outcome (list clipping_rect) :=
  match l with
  | [] => Ok []
  | b :: l =>
      b <- offset_rect b x y;;
      l <- offset_all l x y;;
      Ok (b :: l)
  end.

Definition XOffsetRegion (pRegion : region) (x y : Z) : outcome region :=
  l <- offset_all (fData pRegion) x y;;
  b <- offset_rect (fBounds pRegion) x y;;
  Ok (set_bounds (set_data pRegion l) b).

Definition XIntersectRegion (reg1 reg2 newReg : region) : outcome region :=
  d <- (if (fCount reg1 =? 0) || (fCount reg2 =? 0) || negb (EXTENTCHECK (fBounds reg1) (fBounds reg2))
        then Ok (set_data newReg [])
        else miRegionOp newReg reg1 reg2 miIntersectO None None);;
  Ok (miSetExtents d).

(** Whether the bounds of a region of one rectangle subsume those of another. *)
Definition subsumes (reg1 reg2 : region) : bool :=
  (fCount reg1 =? 1)
  && (rleft (fBounds reg1) <=? rleft (fBounds reg2)) && (rtop (fBounds reg1) <=? rtop (fBounds reg2))
  && (rright (fBounds reg2) <=? rright (fBounds reg1))
  && (rbottom (fBounds reg2) <=? rbottom (fBounds reg1)).

Definition miRegionCopy (dstrgn rgn : region) : region := operator_assign dstrgn rgn.

(** [same]: the two arguments are the same object.  [newReg] is neither of
    them. *)
Definition XUnionRegion (same : bool) (reg1 reg2 newReg : region) : outcome region :=
  if same || (fCount reg1 =? 0) then Ok (miRegionCopy newReg reg2)
  else if fCount reg2 =? 0 then Ok (miRegionCopy newReg reg1)
  else if subsumes reg1 reg2 then Ok (miRegionCopy newReg reg1)
  else if subsumes reg2 reg1 then Ok (miRegionCopy newReg reg2)
  else
    d <- miRegionOp newReg reg1 reg2 miUnionO (Some miUnionNonO) (Some miUnionNonO);;
    Ok (set_bounds d
          {| rleft := min_c (rleft (fBounds reg1)) (rleft (fBounds reg2));
             rtop := min_c (rtop (fBounds reg1)) (rtop (fBounds reg2));
             rright := max_c (rright (fBounds reg1)) (rright (fBounds reg2));
             rbottom := max_c (rbottom (fBounds reg1)) (rbottom (fBounds reg2)) |}).

Definition XSubtractRegion (regM regS regD : region) : outcome region :=
  if (fCount regM =? 0) || (fCount regS =? 0) || negb (EXTENTCHECK (fBounds regM) (fBounds regS))
  then Ok (miRegionCopy regD regM)
  else
    d <- miRegionOp regD regM regS miSubtractO (Some miSubtractNonO1) None;;
    Ok (miSetExtents d).

(** [tra] and [trb]: the two regions it works with, as [CreateRegion] returns
    them, [None] for NULL. *)
Definition XXorRegion (tra trb : option region) (sra srb dr : region) : outcome (region * Z) :=
  match tra, trb with
  | Some tra, Some trb =>
      tra <- XSubtractRegion sra srb tra;;
      trb <- XSubtractRegion srb sra trb;;
      dr <- XUnionRegion false tra trb dr;;
      Ok (dr, 0)
  | _, _ => Ok (dr, 0)
  end.

Definition XPointInRegion (pRegion : region) (x y : Z) : bool :=
  if fCount pRegion =? 0 then false
  else if negb (INBOX (fBounds pRegion) x y) then false
  else existsb (fun r => INBOX r x y) (fData pRegion).

(** The loop body of [XRectInRegion]: the state is [rx], [ry], [partIn] and
    [partOut].  First the rows of the rectangle above the box, with whether the
    loop is left; then those at its level, with whether the loop goes on. *)
Definition rect_above (prect pbox : clipping_rect) (s : Z * Z * bool * bool)
    : (Z * Z * bool * bool) * bool :=
  let '(rx, ry, partIn, partOut) := s in
  if ry <? rtop pbox then
    if partIn || (rbottom prect <=? rtop pbox) then ((rx, ry, partIn, true), true)
    else ((rx, rtop pbox, partIn, true), false)
  else (s, false).

Definition rect_beside (prect pbox : clipping_rect) (s : Z * Z * bool * bool)
    : (Z * Z * bool * bool) * bool :=
  let '(rx, ry, partIn, partOut) := s in
  if rright pbox <=? rx then (s, true)
  else
    let partOut' := if rx <? rleft pbox then true else partOut in
    if (rx <? rleft pbox) && partIn then ((rx, ry, partIn, partOut'), false)
    else
      let partIn' := if rleft pbox <? rright prect then true else partIn in
      if (rleft pbox <? rright prect) && partOut' then ((rx, ry, partIn', partOut'), false)
      else if rright prect <=? rright pbox then
        let ry := rbottom pbox in
        if rbottom prect <=? ry then ((rx, ry, partIn', partOut'), false)
        else ((rleft prect, ry, partIn', partOut'), true)
      else ((rx, ry, partIn', partOut'), false).

Definition rect_box (prect pbox : clipping_rect) (s : Z * Z * bool * bool)
    : (Z * Z * bool * bool) * bool :=
  let '(rx, ry, partIn, partOut) := s in
  if rbottom pbox <=? ry then (s, true)
  else
    let '(s, stop) := rect_above prect pbox s in
    if stop then (s, false) else rect_beside prect pbox s.

Fixpoint rect_boxes (prect : clipping_rect) (l : list clipping_rect) (s : Z * Z * bool * bool)
    : Z * Z * bool * bool :=
  match l with
  | [] => s
  | b :: l => let '(s, continue) := rect_box prect b s in
              if continue then rect_boxes prect l s else s
  end.

Definition XRectInRegion (reg : region) (prect : clipping_rect) : rect_part :=
  if (fCount reg =? 0) || negb (EXTENTCHECK (fBounds reg) prect) then RectangleOut
  else
    let '(rx, ry, partIn, partOut) :=
      rect_boxes prect (fData reg) (rleft prect, rtop prect, false, false) in
    if partIn then if ry <? rbottom prect then RectanglePart else RectangleIn
    else RectangleOut.

End Support.

(** *** What the proofs speak of *)

Definition covers (r : region) (x y : Z) : bool := has (fData r) x y.

(** Every point is inside the bounds, and each side of them touches one. *)
Definition tight (d : list clipping_rect) (b : clipping_rect) : Prop :=
  d <> [] ->
  (forall x y, has d x y = true -> INBOX b x y = true)
  /\ (exists y, has d (rleft b) y = true) /\ (exists x, has d x (rtop b) = true)
  /\ (exists y, has d (rright b - 1) y = true) /\ (exists x, has d x (rbottom b - 1) = true).

Definition wf_region (r : region) : Prop := banded (fData r) /\ tight (fData r) (fBounds r).

(** Coordinates in the range of [int32_t]. *)
Definition int_rect (r : clipping_rect) : Prop :=
  (INT_MIN <= rleft r <= INT_MAX /\ INT_MIN <= rtop r <= INT_MAX)
  /\ INT_MIN <= rright r <= INT_MAX /\ INT_MIN <= rbottom r <= INT_MAX.

#[export] Instance int_rect_dec r : Decision (int_rect r).
Proof. unfold int_rect. apply _. Defined.

(** ** Bounds *)

Lemma rect_corners r d x0 y0 :
  nonempty r -> r ∈ d -> rleft r <= x0 < rright r -> rtop r <= y0 < rbottom r -> has d x0 y0 = true.
Proof. intros Hn Hr Hx Hy. apply has_true. exists r. rewrite INBOX_true. auto. Qed.

Lemma tight_inside d b r : banded d -> tight d b -> r ∈ d ->
  rleft b <= rleft r /\ rtop b <= rtop r /\ rright r <= rright b /\ rbottom r <= rbottom b.
Proof.
  intros [Hn _] Ht Hr. rewrite Forall_forall in Hn. specialize (Hn _ Hr).
  destruct Ht as (Hin & _); [by destruct d; [apply elem_of_nil in Hr|]|].
  pose proof (Hin (rleft r) (rtop r)) as H1. pose proof (Hin (rright r - 1) (rbottom r - 1)) as H2.
  rewrite INBOX_true in H1, H2. destruct Hn as [Hw Hh].
  destruct H1; [apply (rect_corners r); [done|done|lia|lia]|].
  destruct H2; [apply (rect_corners r); [done|done|lia|lia]|]. lia.
Qed.

Lemma tight_single r b : nonempty r -> tight [r] b -> b = r.
Proof.
  intros Hn Ht. assert (Hb : banded [r]).
  { apply banded_cons. split; [done|]. split; [constructor|apply banded_nil]. }
  destruct (tight_inside [r] b r Hb Ht) as (Hl & Htp & Hr & Hbt); [set_solver|].
  destruct Ht as (_ & (y1 & H1) & (x1 & H2) & (y2 & H3) & (x2 & H4)); [done|].
  rewrite has_true in *.
  destruct H1 as (r1 & ->%list_elem_of_singleton & H1), H2 as (r2 & ->%list_elem_of_singleton & H2),
    H3 as (r3 & ->%list_elem_of_singleton & H3), H4 as (r4 & ->%list_elem_of_singleton & H4).
  rewrite INBOX_true in *. destruct b, r; simpl in *. f_equal; lia.
Qed.

(** The points of a region decide its bounds. *)
Lemma tight_points d d' b :
  (forall x y, has d x y = has d' x y) -> d <> [] -> tight d b -> tight d' b.
Proof.
  intros Heq Hd Ht _. destruct (Ht Hd) as (H1 & (y1 & H2) & (x1 & H3) & (y2 & H4) & (x2 & H5)).
  split; [intros x y; rewrite <- Heq; auto|].
  split_and!; [exists y1|exists x1|exists y2|exists x2]; by rewrite <- Heq.
Qed.

(** *** [miSetExtents] *)

Lemma widen_extents_spec l e :
  let e' := widen_extents e l in
  rtop e' = rtop e /\ rbottom e' = rbottom e
  /\ rleft e' <= rleft e /\ rright e <= rright e'
  /\ (forall r, r ∈ l -> rleft e' <= rleft r /\ rright r <= rright e')
  /\ (rleft e' = rleft e \/ exists r, r ∈ l /\ rleft r = rleft e')
  /\ (rright e' = rright e \/ exists r, r ∈ l /\ rright r = rright e').
Proof.
  revert e. induction l as [|b l IH]; intros e; simpl.
  { split_and!; try lia; auto. intros r Hr. by apply elem_of_nil in Hr. }
  set (e1 := Rect _ _ _ _). destruct (IH e1) as (H1 & H2 & H3 & H4 & H5 & H6 & H7).
  assert (He1 : rleft e1 = Z.min (rleft b) (rleft e) /\ rright e1 = Z.max (rright e) (rright b)).
  { unfold e1; simpl. destruct (Z.ltb_spec (rleft b) (rleft e)), (Z.ltb_spec (rright e) (rright b)); lia. }
  destruct He1 as [El Er]. simpl in H1, H2.
  split; [done|]. split; [done|]. split; [lia|]. split; [lia|]. split; [|split].
  - intros r [->|Hr]%elem_of_cons; [lia|auto].
  - destruct H6 as [H6|(r & Hr & H6)].
    + destruct (Z.ltb_spec (rleft b) (rleft e)); [right; exists b; split; [set_solver|lia]|left; lia].
    + right. exists r. split; [set_solver|done].
  - destruct H7 as [H7|(r & Hr & H7)].
    + destruct (Z.ltb_spec (rright e) (rright b)); [right; exists b; split; [set_solver|lia]|left; lia].
    + right. exists r. split; [set_solver|done].
Qed.

Lemma banded_first b l r : banded (b :: l) -> r ∈ b :: l -> rtop b <= rtop r.
Proof.
  intros ([_ Hh] & Hb & _)%banded_cons [->|Hr]%elem_of_cons; [lia|].
  rewrite Forall_forall in Hb. specialize (Hb _ Hr). unfold yx_before in Hb. lia.
Qed.

Lemma banded_last k q r : banded (k ++ [q]) -> r ∈ k ++ [q] -> rbottom r <= rbottom q.
Proof.
  intros (_ & Hq & Hlt)%banded_app [Hr| ->%list_elem_of_singleton]%elem_of_app; [|lia].
  apply banded_cons in Hq as ((_ & Hh) & _). specialize (Hlt r q Hr ltac:(set_solver)).
  unfold yx_before in Hlt. lia.
Qed.

Lemma last_snoc_default (k : list clipping_rect) q b : List.last (k ++ [q]) b = q.
Proof. apply List.last_last. Qed.

Lemma miSetExtents_tight d :
  banded (fData d) -> wf_region (miSetExtents d) /\ fData (miSetExtents d) = fData d.
Proof.
  intros Hb. unfold miSetExtents. destruct (fData d) as [|b l] eqn:Ed; simpl.
  { rewrite Ed. split; [|done]. split; simpl; rewrite Ed; [done|]. by intros Hnil. }
  split; [|done]. split; simpl; rewrite Ed; [done|]. intros _. rewrite <- Ed in *.
  assert (Hlast : exists k, fData d = k ++ [List.last l b]).
  { destruct (list_last_cases l) as [->|(k & q & ->)]; [by exists []|].
    rewrite last_snoc_default. exists (b :: k). by rewrite Ed. }
  destruct Hlast as [k Hk]. set (q := List.last l b) in *.
  set (e0 := Rect (rleft b) (rtop b) (rright q) (rbottom q)).
  pose proof (widen_extents_spec (fData d) e0) as He. cbv zeta in He.
  change (widen_extents _ l) with (widen_extents (widen_extents e0 [b]) l).
  replace (widen_extents (widen_extents e0 [b]) l) with (widen_extents e0 (fData d))
    by (by rewrite Ed).
  set (e := widen_extents e0 (fData d)) in *. simpl in He.
  destruct He as (Et & Eb & _ & _ & Hin & Hl & Hr).
  assert (Hbin : b ∈ fData d) by (rewrite Ed; set_solver).
  assert (Hqin : q ∈ fData d) by (rewrite Hk; set_solver).
  assert (Hl' : exists r, r ∈ fData d /\ rleft r = rleft e).
  { destruct Hl as [->|?]; [|done]. by exists b. }
  assert (Hr' : exists r, r ∈ fData d /\ rright r = rright e).
  { destruct Hr as [->|?]; [|done]. by exists q. }
  pose proof Hb as [Hn _]. rewrite Forall_forall in Hn.
  pose proof (Hn _ Hbin) as [Hbw Hbh]. pose proof (Hn _ Hqin) as [Hqw Hqh].
  split.
  - intros x y (r & Hrd & Hbox)%has_true. rewrite INBOX_true in *.
    destruct (Hin _ Hrd). rewrite Et, Eb.
    assert (rtop b <= rtop r) by (apply (banded_first b l); rewrite <- Ed; done).
    assert (rbottom r <= rbottom q) by (apply (banded_last k q); rewrite <- Hk; done). lia.
  - destruct Hl' as (r1 & Hr1 & El), Hr' as (r2 & Hr2 & Er).
    pose proof (Hn _ Hr1) as Hn1. pose proof (Hn _ Hr2) as Hn2.
    pose proof Hn1 as [? ?]. pose proof Hn2 as [? ?].
    split_and!; [exists (rtop r1)|exists (rleft b)|exists (rtop r2)|exists (rleft q)].
    + apply (rect_corners r1); auto; lia.
    + rewrite Et. apply (rect_corners b); auto; lia.
    + apply (rect_corners r2); auto; lia.
    + rewrite Eb. apply (rect_corners q); auto; lia.
Qed.

Lemma miSetExtents_zero d :
  fData (miSetExtents d) = [] -> fBounds (miSetExtents d) = Rect 0 0 0 0.
Proof. unfold miSetExtents. destruct (fData d) eqn:E; simpl; [done|]. by rewrite E. Qed.

(** ** The set operations *)

Lemma wf_source r : wf_region r -> fData r <> [] -> source r.
Proof.
  intros [Hb Ht] Hn. split; [done|]. split; [done|]. apply Forall_forall. intros q Hq.
  by destruct (tight_inside _ _ q Hb Ht Hq) as (_ & ? & _).
Qed.

Lemma fCount_zero r : fCount r =? 0 = bool_decide (fData r = []).
Proof.
  unfold fCount. destruct (fData r); [done|]. rewrite bool_decide_eq_false_2 by done.
  apply Z.eqb_neq. zl.
Qed.

(** Regions whose bounds do not overlap have no point in common. *)
Lemma extents_apart r1 r2 x y :
  wf_region r1 -> wf_region r2 -> fData r1 <> [] -> fData r2 <> [] ->
  EXTENTCHECK (fBounds r1) (fBounds r2) = false -> covers r1 x y && covers r2 x y = false.
Proof.
  intros [_ Ht1] [_ Ht2] Hn1 Hn2 He. destruct (Ht1 Hn1) as [H1 _]. destruct (Ht2 Hn2) as [H2 _].
  apply not_true_iff_false in He. rewrite EXTENTCHECK_true in He.
  apply not_true_iff_false. rewrite andb_true_iff. unfold covers. intros [E1%H1 E2%H2].
  rewrite INBOX_true in E1, E2. lia.
Qed.

Lemma subsumes_covers r1 r2 x y :
  wf_region r1 -> wf_region r2 -> fData r2 <> [] -> subsumes r1 r2 = true ->
  covers r2 x y = true -> covers r1 x y = true.
Proof.
  intros [Hb1 Ht1] [_ Ht2] Hn Hs Hc. destruct (Ht2 Hn) as [Hin _].
  unfold subsumes in Hs. rewrite !andb_true_iff, !Z.leb_le, Z.eqb_eq in Hs.
  unfold fCount in Hs. unfold covers in *.
  destruct (fData r1) as [|q [|q' l]]; [zl| |zl].
  pose proof Hb1 as [Hq%Forall_inv _]. apply (tight_single q) in Ht1 as E; [|done].
  rewrite E in Hs. apply Hin in Hc. apply has_true. exists q. split; [set_solver|].
  rewrite INBOX_true in *. lia.
Qed.

Lemma nonempty_has d : banded d -> d <> [] -> exists x y, has d x y = true.
Proof.
  intros [Hn _] Hd. destruct d as [|r l]; [done|]. apply Forall_inv in Hn as Hr.
  pose proof Hr as [? ?]. exists (rleft r), (rtop r). apply (rect_corners r); [done|set_solver|lia|lia].
Qed.

Section SetOps.
Context `{RegionClassOk}.

(** A copy is as good as the original. *)
Lemma wf_copy d r : wf_region r -> wf_region (miRegionCopy d r).
Proof. unfold wf_region, miRegionCopy. by rewrite assign_data, assign_bounds. Qed.

Lemma covers_copy d r x y : covers (miRegionCopy d r) x y = covers r x y.
Proof. unfold covers, miRegionCopy. by rewrite assign_data. Qed.

Lemma bounds_copy d r : fBounds (miRegionCopy d r) = fBounds r.
Proof. apply assign_bounds. Qed.

Lemma count_copy d r : fCount (miRegionCopy d r) = fCount r.
Proof. unfold fCount, miRegionCopy. by rewrite assign_data. Qed.

Lemma XIntersectRegion_spec reg1 reg2 newReg :
  wf_region reg1 -> wf_region reg2 -> fCount reg1 + fCount reg2 <= 4000 ->
  total (fun r => wf_region r /\ (fData r = [] -> fBounds r = Rect 0 0 0 0)
           /\ forall x y, covers r x y = covers reg1 x y && covers reg2 x y)
    (XIntersectRegion reg1 reg2 newReg).
Proof.
  intros H1 H2 Hn. unfold XIntersectRegion.
  assert (Hempty : (forall x y, covers reg1 x y && covers reg2 x y = false) ->
    total (fun r => wf_region r /\ (fData r = [] -> fBounds r = Rect 0 0 0 0)
           /\ forall x y, covers r x y = covers reg1 x y && covers reg2 x y)
      (Ok (miSetExtents (set_data newReg [])))).
  { intros E. destruct (miSetExtents_tight (set_data newReg []) banded_nil) as [Hw Hd].
    split; [done|]. split; [by rewrite miSetExtents_zero|].
    intros x y. unfold covers at 1. by rewrite Hd, E. }
  rewrite !fCount_zero. case_bool_decide as E1; simpl.
  { apply Hempty. intros x y. unfold covers. by rewrite E1. }
  case_bool_decide as E2; simpl.
  { apply Hempty. intros x y. unfold covers. by rewrite E2, andb_false_r. }
  destruct (EXTENTCHECK _ _) eqn:E3; simpl.
  2:{ apply Hempty. intros x y. by apply extents_apart. }
  apply total_bind. eapply total_mono.
  { apply (miRegionOp_spec miIntersectO None None andb newReg reg1 reg2); auto using wf_source. }
  intros d (Hb & _ & _ & Hp). destruct (miSetExtents_tight d Hb) as [Hw Hd]. split; [done|].
  split; [apply miSetExtents_zero|]. intros x y. unfold covers. by rewrite Hd, Hp.
Qed.

(** Intersection.  For regions with banded rectangles and tight bounds,
    [XIntersectRegion] returns such a region, and it covers exactly the points
    that both cover; every store it makes is inside the array (the run is not
    a [Fault]), as long as the regions have no more than 4000 rectangles. *)
Theorem XIntersectRegion_correct reg1 reg2 newReg :
  wf_region reg1 -> wf_region reg2 -> fCount reg1 + fCount reg2 <= 4000 ->
  total (fun r => wf_region r /\ forall x y, covers r x y = covers reg1 x y && covers reg2 x y)
    (XIntersectRegion reg1 reg2 newReg).
Proof.
  intros. eapply total_mono; [by apply XIntersectRegion_spec|]. intros r (Hw & _ & Hp). done.
Qed.

(** The bounds of a union are the union of the bounds. *)
Lemma union_tight r1 r2 d :
  wf_region r1 -> wf_region r2 -> fData r1 <> [] -> fData r2 <> [] ->
  (forall x y, has d x y = covers r1 x y || covers r2 x y) ->
  tight d {| rleft := Z.min (rleft (fBounds r1)) (rleft (fBounds r2));
             rtop := Z.min (rtop (fBounds r1)) (rtop (fBounds r2));
             rright := Z.max (rright (fBounds r1)) (rright (fBounds r2));
             rbottom := Z.max (rbottom (fBounds r1)) (rbottom (fBounds r2)) |}.
Proof.
  intros [_ Ht1] [_ Ht2] Hn1 Hn2 Hp _.
  destruct (Ht1 Hn1) as (I1 & (l1 & L1) & (t1 & T1) & (r1' & R1) & (b1 & B1)).
  destruct (Ht2 Hn2) as (I2 & (l2 & L2) & (t2 & T2) & (r2' & R2) & (b2 & B2)).
  unfold covers in Hp. cbn [rleft rtop rright rbottom]. split.
  - intros x y. rewrite Hp, orb_true_iff. intros [E%I1|E%I2]; rewrite INBOX_true in *; simpl; lia.
  - split_and!.
    + destruct (Z.min_spec (rleft (fBounds r1)) (rleft (fBounds r2))) as [[_ ->]|[_ ->]];
        [exists l1|exists l2]; rewrite Hp, ?L1, ?L2, ?orb_true_r; done.
    + destruct (Z.min_spec (rtop (fBounds r1)) (rtop (fBounds r2))) as [[_ ->]|[_ ->]];
        [exists t1|exists t2]; rewrite Hp, ?T1, ?T2, ?orb_true_r; done.
    + destruct (Z.max_spec (rright (fBounds r1)) (rright (fBounds r2))) as [[_ ->]|[_ ->]];
        [exists r2'|exists r1']; rewrite Hp, ?R1, ?R2, ?orb_true_r; done.
    + destruct (Z.max_spec (rbottom (fBounds r1)) (rbottom (fBounds r2))) as [[_ ->]|[_ ->]];
        [exists b2|exists b1]; rewrite Hp, ?B1, ?B2, ?orb_true_r; done.
Qed.

Lemma XUnionRegion_spec same reg1 reg2 newReg :
  wf_region reg1 -> wf_region reg2 -> fCount reg1 + fCount reg2 <= 4000 ->
  (same = true -> reg1 = reg2) ->
  total (fun r => wf_region r /\ (fData r = [] -> fBounds r = fBounds reg1 \/ fBounds r = fBounds reg2)
           /\ forall x y, covers r x y = covers reg1 x y || covers reg2 x y)
    (XUnionRegion same reg1 reg2 newReg).
Proof.
  intros H1 H2 Hn Hsame. unfold XUnionRegion. rewrite !fCount_zero.
  assert (Hcopy : forall r, r = reg1 \/ r = reg2 ->
    (forall x y, covers r x y = covers reg1 x y || covers reg2 x y) ->
    total (fun r => wf_region r /\ (fData r = [] -> fBounds r = fBounds reg1 \/ fBounds r = fBounds reg2)
             /\ forall x y, covers r x y = covers reg1 x y || covers reg2 x y) (Ok (miRegionCopy newReg r))).
  { intros r Hr Hp. split; [apply wf_copy; by destruct Hr as [->| ->]|].
    split; [intros _; rewrite bounds_copy; destruct Hr as [->| ->]; auto|].
    intros x y. by rewrite covers_copy. }
  destruct same; simpl.
  { rewrite Hsame in * by done. apply Hcopy; [auto|]. intros x y. by rewrite orb_diag. }
  case_bool_decide as E1; simpl.
  { apply Hcopy; [auto|]. intros x y. unfold covers. by rewrite E1. }
  case_bool_decide as E2; simpl.
  { apply Hcopy; [auto|]. intros x y. unfold covers. by rewrite E2, orb_false_r. }
  destruct (subsumes reg1 reg2) eqn:S1; simpl.
  { apply Hcopy; [auto|]. intros x y. destruct (covers reg2 x y) eqn:E; [|by rewrite orb_false_r].
    by rewrite (subsumes_covers reg1 reg2 x y). }
  destruct (subsumes reg2 reg1) eqn:S2; simpl.
  { apply Hcopy; [auto|]. intros x y. destruct (covers reg1 x y) eqn:E; [|done].
    by rewrite (subsumes_covers reg2 reg1 x y). }
  apply total_bind. eapply total_mono.
  { apply (miRegionOp_spec miUnionO (Some miUnionNonO) (Some miUnionNonO) orb newReg reg1 reg2);
      auto using wf_source. }
  intros d (Hb & _ & _ & Hp). autorewrite with clip. split; [|split; [|done]].
  - split; simpl; [done|]. by apply (union_tight reg1 reg2).
  - simpl. intros E. destruct (nonempty_has (fData reg1)) as (x & y & Hxy); [apply H1|done|].
    specialize (Hp x y). by rewrite E, Hxy in Hp.
Qed.

(** C17: union.  [XUnionRegion] of two banded regions with tight bounds, also
    of a region with itself, is such a region and covers exactly the points
    that one of them covers; it stores nothing outside the array it grows.
    The two have at most 4000 rectangles together, the result goes to a region
    that is neither of them, and memory does not run out: [realloc] gives up to
    a gigabyte, and [MakeEmpty], [_SetSize] and [operator=] of the region class,
    which the repository does not have, empty a region, get an array of the
    size asked for, and copy rectangles and bounds ([RegionClassOk]). *)
Theorem XUnionRegion_correct same reg1 reg2 newReg :
  wf_region reg1 -> wf_region reg2 -> fCount reg1 + fCount reg2 <= 4000 ->
  (same = true -> reg1 = reg2) ->
  total (fun r => wf_region r /\ forall x y, covers r x y = covers reg1 x y || covers reg2 x y)
    (XUnionRegion same reg1 reg2 newReg).
Proof.
  intros. eapply total_mono; [by apply XUnionRegion_spec|]. intros r (Hw & _ & Hp). done.
Qed.

Lemma XSubtractRegion_spec regM regS regD :
  wf_region regM -> wf_region regS -> fCount regM + fCount regS <= 4000 ->
  total (fun r => wf_region r
           /\ fCount r <= (2 * (fCount regM + fCount regS) + 1) * (fCount regM + fCount regS)
           /\ (fData r = [] -> fBounds r = fBounds regM \/ fBounds r = Rect 0 0 0 0)
           /\ forall x y, covers r x y = covers regM x y && negb (covers regS x y))
    (XSubtractRegion regM regS regD).
Proof.
  intros H1 H2 Hn. unfold XSubtractRegion.
  assert (Hz : 0 <= fCount regM /\ 0 <= fCount regS) by (unfold fCount; zl).
  assert (Hcopy : (forall x y, covers regM x y && covers regS x y = false) ->
    total (fun r => wf_region r
           /\ fCount r <= (2 * (fCount regM + fCount regS) + 1) * (fCount regM + fCount regS)
           /\ (fData r = [] -> fBounds r = fBounds regM \/ fBounds r = Rect 0 0 0 0)
           /\ forall x y, covers r x y = covers regM x y && negb (covers regS x y))
      (Ok (miRegionCopy regD regM))).
  { intros E. split; [by apply wf_copy|]. rewrite count_copy, bounds_copy. split; [nia|]. split; [auto|].
    intros x y. rewrite covers_copy. specialize (E x y). destruct (covers regM x y), (covers regS x y); done. }
  rewrite !fCount_zero. case_bool_decide as E1; simpl.
  { apply Hcopy. intros x y. unfold covers. by rewrite E1. }
  case_bool_decide as E2; simpl.
  { apply Hcopy. intros x y. unfold covers. by rewrite E2, andb_false_r. }
  destruct (EXTENTCHECK _ _) eqn:E3; simpl.
  2:{ apply Hcopy. intros x y. by apply extents_apart. }
  apply total_bind. eapply total_mono.
  { apply (miRegionOp_spec miSubtractO (Some miSubtractNonO1) None (fun a b => a && negb b) regD regM regS);
      auto using wf_source. }
  intros d (Hb & _ & Hc & Hp). destruct (miSetExtents_tight d Hb) as [Hw Hd]. split; [done|].
  split; [unfold fCount at 1; rewrite Hd; exact Hc|].
  split; [intros E; right; by apply miSetExtents_zero|].
  intros x y. unfold covers at 1. by rewrite Hd, Hp.
Qed.

(** C18: subtraction.  [XSubtractRegion] of two banded regions with tight
    bounds is such a region and covers exactly the points of the minuend that
    are not in the subtrahend; it stores nothing outside the array it grows.
    As for the union, the two have at most 4000 rectangles together, the result
    goes to a region that is neither of them, memory does not run out, and the
    members of the region class that the repository does not have do what they
    are relied on for ([RegionClassOk]). *)
Theorem XSubtractRegion_correct regM regS regD :
  wf_region regM -> wf_region regS -> fCount regM + fCount regS <= 4000 ->
  total (fun r => wf_region r /\ forall x y, covers r x y = covers regM x y && negb (covers regS x y))
    (XSubtractRegion regM regS regD).
Proof.
  intros H1 H2 Hn. eapply total_mono; [by apply XSubtractRegion_spec|].
  intros r (Hw & _ & _ & Hp). done.
Qed.

(** Symmetric difference.  [XXorRegion] covers the points that exactly one of
    the regions covers, when the two regions it works with can be created; it
    returns 0 whether they can or not. *)
Theorem XXorRegion_correct tra trb sra srb dr :
  wf_region sra -> wf_region srb -> fCount sra + fCount srb <= 30 ->
  total (fun r => wf_region r.1 /\ r.2 = 0
           /\ forall x y, covers r.1 x y = xorb (covers sra x y) (covers srb x y))
    (XXorRegion (Some tra) (Some trb) sra srb dr).
Proof.
  intros H1 H2 Hn. unfold XXorRegion. simpl.
  assert (Hz : 0 <= fCount sra /\ 0 <= fCount srb) by (unfold fCount; zl).
  apply total_bind. eapply total_mono; [apply (XSubtractRegion_spec sra srb tra); auto; lia|].
  intros ra (Ha & Hca & _ & Hpa). apply total_bind.
  eapply total_mono; [apply (XSubtractRegion_spec srb sra trb); auto; lia|].
  intros rb (Hb & Hcb & _ & Hpb). apply total_bind.
  eapply total_mono; [apply (XUnionRegion_spec false ra rb dr); auto; [nia|done]|].
  intros r (Hw & _ & Hp). split; [done|]. split; [done|]. intros x y. simpl. rewrite Hp, Hpa, Hpb.
  by destruct (covers sra x y), (covers srb x y).
Qed.

End SetOps.

(** ** Coordinates *)

Definition int_region (r : region) : Prop := Forall int_rect (fData r) /\ int_rect (fBounds r).

#[export] Instance int_region_dec r : Decision (int_region r).
Proof. unfold int_region. apply _. Defined.

(** A rectangle whose points are points of regions with [int32_t] coordinates
    has [int32_t] coordinates itself. *)
Lemma int_from_points d r (P : Z -> Z -> bool) :
  banded d -> r ∈ d -> (forall x y, has d x y = true -> P x y = true) ->
  (forall x y, P x y = true -> (INT_MIN <= x < INT_MAX) /\ (INT_MIN <= y < INT_MAX)) -> int_rect r.
Proof.
  intros [Hn _] Hr Hd HP. rewrite Forall_forall in Hn. pose proof (Hn _ Hr) as [Hw Hh].
  destruct (HP (rleft r) (rtop r)) as [? ?].
  { apply Hd, (rect_corners r); [by split|done|lia|lia]. }
  destruct (HP (rright r - 1) (rbottom r - 1)) as [? ?].
  { apply Hd, (rect_corners r); [by split|done|lia|lia]. }
  unfold int_rect. lia.
Qed.

Lemma int_points r x y :
  int_region r -> covers r x y = true -> (INT_MIN <= x < INT_MAX) /\ (INT_MIN <= y < INT_MAX).
Proof.
  intros [Hi _] (q & Hq & Hb)%has_true. rewrite Forall_forall in Hi.
  specialize (Hi _ Hq). rewrite INBOX_true in Hb. unfold int_rect in Hi. lia.
Qed.

Lemma int_region_from r (P : Z -> Z -> bool) :
  wf_region r -> (fData r = [] -> int_rect (fBounds r)) ->
  (forall x y, covers r x y = true -> P x y = true) ->
  (forall x y, P x y = true -> (INT_MIN <= x < INT_MAX) /\ (INT_MIN <= y < INT_MAX)) ->
  int_region r.
Proof.
  intros [Hb Ht] Hnil Hc HP. split.
  - apply Forall_forall. intros q Hq. by apply (int_from_points (fData r) q P).
  - destruct (fData r) as [|q l] eqn:E; [auto|]. rewrite <- E in *.
    assert (Hn : fData r <> []) by (rewrite E; done).
    destruct (Ht Hn) as (_ & (y1 & L) & (x1 & T) & (y2 & R) & (x2 & B)).
    apply Hc, HP in L, T, R, B. unfold int_rect. lia.
Qed.

Lemma int_zero : int_rect (Rect 0 0 0 0).
Proof. unfold int_rect, INT_MIN, INT_MAX; simpl; lia. Qed.

Section Types.
Context `{RegionClassOk}.

(** C39: the coordinates stay [int32_t]: the union, the intersection and the
    difference of two well-formed regions with [int32_t] coordinates have no
    coordinate that does not fit, in a rectangle or in the bounds, and are
    well-formed again.  The conditions are those of C17: at most 4000
    rectangles together, a destination that is neither of them, enough memory
    and the members of the region class as they are relied on. *)
Theorem region_ops_int32 reg1 reg2 newReg :
  wf_region reg1 -> wf_region reg2 -> int_region reg1 -> int_region reg2 ->
  fCount reg1 + fCount reg2 <= 4000 ->
  Forall (total (fun r => wf_region r /\ int_region r))
    [ XUnionRegion false reg1 reg2 newReg; XIntersectRegion reg1 reg2 newReg;
      XSubtractRegion reg1 reg2 newReg ].
Proof.
  intros H1 H2 I1 I2 Hn.
  assert (HP : forall x y, covers reg1 x y || covers reg2 x y = true ->
      (INT_MIN <= x < INT_MAX) /\ (INT_MIN <= y < INT_MAX)).
  { intros x y [E|E]%orb_true_iff; [by apply (int_points reg1)|by apply (int_points reg2)]. }
  assert (Hfrom : forall m, total (fun r => wf_region r /\ (fData r = [] -> int_rect (fBounds r))
        /\ forall x y, covers r x y = true -> covers reg1 x y || covers reg2 x y = true) m ->
      total (fun r => wf_region r /\ int_region r) m).
  { intros m Hm. eapply total_mono; [exact Hm|]. intros r (Hw & Hb & Hp). split; [done|].
    eapply int_region_from; eauto. }
  pose proof I1 as [_ B1]. pose proof I2 as [_ B2].
  constructor; [|constructor; [|constructor; [|constructor]]]; apply Hfrom.
  - eapply total_mono; [by apply (XUnionRegion_spec false reg1 reg2)|].
    intros r (Hw & Hnil & Hp). split; [done|]. split; [|intros x y; by rewrite Hp].
    by intros [->| ->]%Hnil.
  - eapply total_mono; [by apply XIntersectRegion_spec|]. intros r (Hw & Hnil & Hp).
    split; [done|]. split; [intros E; rewrite (Hnil E); apply int_zero|].
    intros x y. rewrite Hp, andb_true_iff, orb_true_iff. tauto.
  - eapply total_mono; [by apply XSubtractRegion_spec|]. intros r (Hw & _ & Hnil & Hp).
    split; [done|]. split; [intros [->| ->]%Hnil; [done|apply int_zero]|].
    intros x y. rewrite Hp, andb_true_iff, orb_true_iff. tauto.
Qed.
End Types.

(** ** Queries *)

(** [XPointInRegion] answers whether the region covers the point. *)
Theorem XPointInRegion_correct r x y :
  wf_region r -> XPointInRegion r x y = covers r x y.
Proof.
  intros [_ Ht]. unfold XPointInRegion. rewrite fCount_zero. unfold covers.
  case_bool_decide as E; [by rewrite E|]. destruct (Ht E) as [Hin _].
  destruct (INBOX (fBounds r) x y) eqn:Hb; simpl; [done|].
  symmetry. apply not_true_iff_false. intros Hh%Hin. congruence.
Qed.

Section RectIn.
Context (D : list clipping_rect) (prect : clipping_rect).
Hypothesis Hprect : nonempty prect.

Definition in_rect (x y : Z) : Prop :=
  rleft prect <= x < rright prect /\ rtop prect <= y < rbottom prect.

(** Where the loop stands: the rows above [ry] have been judged, the boxes
    that are left cover what there is in the rows from [ry] on. *)
Record rect_inv (l : list clipping_rect) (s : Z * Z * bool * bool) : Prop := {
  ri_rx : s.1.1.1 = rleft prect;
  ri_ry : rtop prect <= s.1.1.2 < rbottom prect;
  ri_rest : forall x y, in_rect x y -> s.1.1.2 <= y -> has D x y = has l x y;
  ri_in : s.1.2 = true -> exists x y, in_rect x y /\ has D x y = true;
  ri_out : s.2 = true -> exists x y, in_rect x y /\ has D x y = false;
  ri_not_in : s.1.2 = false -> forall x y, in_rect x y -> y < s.1.1.2 -> has D x y = false;
  ri_not_out : s.2 = false -> forall x y, in_rect x y -> y < s.1.1.2 -> has D x y = true;
  ri_one : s.1.2 = true -> s.2 = true -> False;
}.

(** What the flags and [ry] say when the loop is left. *)
Definition rect_answer (s : Z * Z * bool * bool) : rect_part :=
  if s.1.2 then if s.1.1.2 <? rbottom prect then RectanglePart else RectangleIn else RectangleOut.

Definition rect_right (a : rect_part) : Prop :=
  match a with
  | RectangleIn => forall x y, in_rect x y -> has D x y = true
  | RectangleOut => forall x y, in_rect x y -> has D x y = false
  | RectanglePart => (exists x y, in_rect x y /\ has D x y = true)
                     /\ exists x y, in_rect x y /\ has D x y = false
  end.

Lemma part_right rx ry pout :
  ry < rbottom prect -> (exists x y, in_rect x y /\ has D x y = true) ->
  (exists x y, in_rect x y /\ has D x y = false) -> rect_right (rect_answer (rx, ry, true, pout)).
Proof. intros Hy Hi Ho. unfold rect_answer. cbn [fst snd]. rewrite (proj2 (Z.ltb_lt _ _) Hy). by split. Qed.

Lemma has_cons b l x y : has (b :: l) x y = INBOX b x y || has l x y.
Proof. reflexivity. Qed.

(** Nothing after [b] covers the point in front of it, or right next to it. *)
Lemma uncovered_beside b l x y :
  banded (b :: l) -> rtop b <= y < rbottom b -> x <= rright b ->
  has l x y = false.
Proof.
  intros (_ & Hb & _)%banded_cons Hy Hx. apply has_false. intros r Hr.
  rewrite Forall_forall in Hb. specialize (Hb _ Hr). unfold yx_before in Hb.
  apply not_true_iff_false. rewrite INBOX_true. lia.
Qed.

Lemma uncovered_above b l x y : banded (b :: l) -> y < rtop b -> has (b :: l) x y = false.
Proof.
  intros Hb Hy. apply has_false. intros r Hr. pose proof (banded_first b l r Hb Hr).
  apply not_true_iff_false. rewrite INBOX_true. lia.
Qed.

Lemma INBOX_false r x y :
  x < rleft r \/ rright r <= x \/ y < rtop r \/ rbottom r <= y -> INBOX r x y = false.
Proof. intros ?. apply not_true_iff_false. rewrite INBOX_true. lia. Qed.

Lemma rect_above_step b l s :
  banded (b :: l) -> rect_inv (b :: l) s -> s.1.1.2 < rbottom b ->
  let '(s', stop) := rect_above prect b s in
  if stop then rect_right (rect_answer s')
  else rect_inv (b :: l) s' /\ rtop b <= s'.1.1.2 < rbottom b.
Proof.
  intros Hb Hi Hbelow. destruct s as [[[rx ry] pin] pout].
  destruct Hi as [Hrx Hry Hrest Hin Hout Hnin Hnout Hone]. cbn [fst snd] in *. subst rx.
  pose proof Hb as ((Hbw & Hbh) & _ & _)%banded_cons. destruct Hprect as [Hpw Hph].
  unfold rect_above. destruct (Z.ltb_spec ry (rtop b)) as [Habove|Hlevel];
    [|split; [by split|cbn [fst snd]; lia]].
  assert (Hgap : forall x y, in_rect x y -> ry <= y < rtop b -> has D x y = false).
  { intros x y Hxy Hy. rewrite Hrest by (auto; lia). apply uncovered_above; [done|lia]. }
  assert (Hhole : exists x y, in_rect x y /\ has D x y = false).
  { exists (rleft prect), ry. assert (in_rect (rleft prect) ry) by (unfold in_rect; lia).
    split; [done|]. apply Hgap; [done|lia]. }
  assert (Hrows : pin = false -> forall x y, in_rect x y -> y < rtop b -> has D x y = false).
  { intros Hp x y Hxy Hy. destruct (Z.lt_ge_cases y ry); [auto|]. apply Hgap; [done|lia]. }
  destruct pin; cbn [orb].
  - apply part_right; [lia|auto|done].
  - destruct (Z.leb_spec (rbottom prect) (rtop b)).
    + intros x y Hxy. apply Hrows; [done|done|]. destruct Hxy as [_ ?]. lia.
    + split; [|cbn [fst snd]; lia]. split; cbn [fst snd]; auto; try done; [lia|].
      intros x y Hxy Hy. apply Hrest; [done|lia].
Qed.

Lemma rect_beside_step b l s :
  banded (b :: l) -> rect_inv (b :: l) s -> rtop b <= s.1.1.2 < rbottom b ->
  let '(s', continue) := rect_beside prect b s in
  if continue then rect_inv l s' else rect_right (rect_answer s').
Proof.
  intros Hb Hi Hlevel. destruct s as [[[rx ry] pin] pout].
  destruct Hi as [Hrx Hry Hrest Hin Hout Hnin Hnout Hone]. cbn [fst snd] in *. subst rx.
  pose proof Hb as ((Hbw & Hbh) & _ & _)%banded_cons. destruct Hprect as [Hpw Hph].
  assert (Hhere : forall x, rleft prect <= x < rright prect ->
      in_rect x ry /\ has D x ry = INBOX b x ry || has l x ry).
  { intros x Hx. assert (in_rect x ry) by (unfold in_rect; lia).
    split; [done|]. by rewrite Hrest by (auto; lia). }
  (* the row at [ry] left of the box, and the box itself *)
  assert (Hhole : rleft prect < rleft b -> exists x y, in_rect x y /\ has D x y = false).
  { intros Hlt. exists (rleft prect), ry. destruct (Hhere (rleft prect)) as [? ->]; [lia|].
    split; [done|]. rewrite INBOX_false, (uncovered_beside b l) by (auto; lia). done. }
  assert (Hfull : rleft prect < rright b -> rleft b < rright prect ->
      exists x y, in_rect x y /\ has D x y = true).
  { intros H1 H2. exists (Z.max (rleft prect) (rleft b)), ry.
    destruct (Hhere (Z.max (rleft prect) (rleft b))) as [? ->]; [lia|]. split; [done|].
    rewrite (proj2 (INBOX_true _ _ _)) by lia. done. }
  (* the rows down to the bottom of the box *)
  assert (Hrow : forall x y, in_rect x y -> ry <= y < rbottom b -> x <= rright b ->
      has D x y = INBOX b x y).
  { intros x y Hxy Hy Hx. rewrite Hrest by (auto; lia).
    rewrite has_cons, (uncovered_beside b l) by (auto; lia). apply orb_false_r. }
  assert (Hafter : forall x y, in_rect x y -> rbottom b <= y -> has D x y = has l x y).
  { intros x y Hxy Hy. rewrite Hrest by (auto; lia). rewrite has_cons, INBOX_false by lia. done. }
  unfold rect_beside. cbv zeta. destruct (Z.leb_spec (rright b) (rleft prect)).
  { split; cbn [fst snd]; auto. intros x y Hxy Hy. rewrite Hrest by auto.
    destruct Hxy as [? ?]. rewrite has_cons, INBOX_false by lia. done. }
  destruct (Z.ltb_spec (rleft prect) (rleft b)) as [Hleft|Hleft], pin; cbn [andb];
    try (apply part_right; auto; lia).
  all: destruct (Z.ltb_spec (rleft b) (rright prect)) as [Hov|Hov]; [|try lia]; cbn [andb];
    try (apply part_right; auto; lia).
  all: try destruct pout; try (apply part_right; auto; lia); try (exfalso; by apply Hone).
  all: destruct (Z.leb_spec (rright prect) (rright b)) as [Hwide|Hnarrow]; [|try lia].
  (* the box lies past the rectangle *)
  1,2: assert (Hno : forall x y, in_rect x y -> y < rbottom b -> has D x y = false) by
    (intros x y Hxy Hy; destruct (Z.lt_ge_cases y ry); [by auto|];
     pose proof Hxy as [? _]; rewrite Hrow by (auto; lia); apply INBOX_false; lia);
    destruct (Z.leb_spec (rbottom prect) (rbottom b));
    [intros x y Hxy; apply Hno; [done|]; destruct Hxy as [_ ?]; lia
    |split; cbn [fst snd]; auto; try done; lia].
  (* the box fills the rows, or leaves a hole on its right *)
  1,3: assert (Hyes : forall x y, in_rect x y -> y < rbottom b -> has D x y = true) by
    (intros x y Hxy Hy; destruct (Z.lt_ge_cases y ry); [by auto|];
     pose proof Hxy as [? _]; rewrite Hrow by (auto; lia); apply INBOX_true; lia);
    unfold rect_answer; destruct (Z.leb_spec (rbottom prect) (rbottom b)) as [Hend|Hend];
    [cbn [fst snd]; rewrite (proj2 (Z.ltb_ge _ _) Hend);
     intros x y Hxy; apply Hyes; [done|]; destruct Hxy as [_ ?]; lia
    |split; cbn [fst snd]; auto; try done; lia].
  all: apply part_right; auto; [lia|]; exists (rright b), ry;
    destruct (Hhere (rright b)) as [? _]; [lia|]; split; [done|];
    rewrite Hrow by (auto; lia); apply INBOX_false; lia.
Qed.

Lemma rect_box_step b l s :
  banded (b :: l) -> rect_inv (b :: l) s ->
  let '(s', continue) := rect_box prect b s in
  if continue then rect_inv l s' else rect_right (rect_answer s').
Proof.
  intros Hb Hi. pose proof (rect_above_step b l s Hb Hi) as Habove.
  destruct s as [[[rx ry] pin] pout]. cbn [fst snd] in Habove.
  unfold rect_box. destruct (Z.leb_spec (rbottom b) ry) as [Hpast|Hbelow].
  - destruct Hi as [Hrx Hry Hrest Hin Hout Hnin Hnout Hone]. cbn [fst snd] in *.
    split; cbn [fst snd]; auto. intros x y Hxy Hy. rewrite Hrest by auto.
    rewrite has_cons, INBOX_false by lia. done.
  - specialize (Habove Hbelow). destruct (rect_above _ _ _) as [s [|]]; [done|].
    destruct Habove as [Hi' Hlevel]. by apply rect_beside_step.
Qed.

Lemma rect_boxes_right l s :
  banded l -> rect_inv l s -> rect_right (rect_answer (rect_boxes prect l s)).
Proof.
  revert s. induction l as [|b l IH]; intros s Hb Hi; simpl.
  - destruct s as [[[rx ry] pin] pout].
    destruct Hi as [_ Hry Hrest Hin _ Hnin _ _]. cbn [fst snd] in *.
    destruct Hprect as [Hpw Hph]. destruct pin.
    + apply part_right; [lia|auto|]. exists (rleft prect), ry.
      assert (in_rect (rleft prect) ry) by (unfold in_rect; lia). split; [done|].
      rewrite Hrest by (auto; lia). done.
    + intros x y Hxy. destruct (Z.lt_ge_cases y ry); [auto|]. rewrite Hrest by (auto; lia). done.
  - pose proof (rect_box_step b l s Hb Hi) as Hstep.
    destruct (rect_box prect b s) as [s' [|]]; [|done].
    apply IH; [|done]. by apply banded_cons in Hb as (_ & _ & ?).
Qed.
End RectIn.

(** [XRectInRegion] classifies a rectangle: in when the region covers all
    of its points, out when it covers none, part when there are points of both
    kinds. *)
Theorem XRectInRegion_correct r prect :
  wf_region r -> nonempty prect ->
  match XRectInRegion r prect with
  | RectangleIn => forall x y, INBOX prect x y = true -> covers r x y = true
  | RectangleOut => forall x y, INBOX prect x y = true -> covers r x y = false
  | RectanglePart => (exists x y, INBOX prect x y = true /\ covers r x y = true)
                     /\ exists x y, INBOX prect x y = true /\ covers r x y = false
  end.
Proof.
  intros [Hb Ht] Hp. unfold XRectInRegion. rewrite fCount_zero.
  case_bool_decide as E; simpl; [intros x y _; unfold covers; by rewrite E|].
  destruct (Ht E) as [Hin _]. destruct (EXTENTCHECK (fBounds r) prect) eqn:He; simpl.
  2:{ intros x y Hxy. apply not_true_iff_false. intros Hc%Hin. apply not_true_iff_false in He.
      rewrite EXTENTCHECK_true in He. rewrite INBOX_true in *. lia. }
  set (s0 := (rleft prect, rtop prect, false, false)).
  assert (Hi : rect_inv (fData r) prect (fData r) s0).
  { destruct Hp as [? ?]. split; unfold s0; cbn [fst snd]; try done; try lia;
      intros _ x y [_ ?] ?; lia. }
  pose proof (rect_boxes_right (fData r) prect Hp (fData r) s0 Hb Hi) as Hr.
  unfold rect_answer, rect_right, in_rect in Hr.
  destruct (rect_boxes prect (fData r) s0) as [[[rx ry] pin] pout]. cbn [fst snd] in Hr.
  destruct pin; [destruct (ry <? rbottom prect)|].
  - destruct Hr as [(x1 & y1 & ? & ?) (x2 & y2 & ? & ?)].
    split; [exists x1, y1|exists x2, y2]; by rewrite INBOX_true.
  - intros x y Hxy%INBOX_true. by apply Hr.
  - intros x y Hxy%INBOX_true. by apply Hr.
Qed.

(** ** Translation *)

Lemma offset_rect_ok r x y r' :
  offset_rect r x y = Ok r' ->
  r' = Rect (rleft r + x) (rtop r + y) (rright r + x) (rbottom r + y).
Proof.
  unfold offset_rect, add_int, assert_int, cassert. intros Ho. inv_ok.
  repeat match goal with
  | E : obind (if ?b then _ else _) _ = Ok _ |- _ => destruct b; simpl in E; [|discriminate E]
  end. inv_ok. done.
Qed.

Lemma offset_rect_total r x y :
  int_rect (Rect (rleft r + x) (rtop r + y) (rright r + x) (rbottom r + y)) ->
  offset_rect r x y = Ok (Rect (rleft r + x) (rtop r + y) (rright r + x) (rbottom r + y)).
Proof.
  intros [[? ?] [? ?]]. unfold offset_rect. simpl in *.
  by rewrite !add_int_ok by lia.
Qed.

Lemma offset_has l l' dx dy x y :
  offset_all l dx dy = Ok l' -> has l' x y = has l (x - dx) (y - dy).
Proof.
  revert l'. induction l as [|b l IH]; intros l' Ho; simpl in Ho; inv_ok; [done|].
  apply offset_rect_ok in H as ->. rewrite !has_cons, (IH _ H0). f_equal.
  apply eq_true_iff_eq. rewrite !INBOX_true. simpl. lia.
Qed.

Lemma offset_all_total l dx dy :
  Forall (fun r => int_rect (Rect (rleft r + dx) (rtop r + dy) (rright r + dx) (rbottom r + dy))) l ->
  exists l', offset_all l dx dy = Ok l'.
Proof.
  induction 1 as [|b l Hb _ [l' IH]]; simpl; [by eexists|].
  rewrite offset_rect_total by done. simpl. rewrite IH. by eexists.
Qed.

(** [XOffsetRegion] moves every point, when the coordinates stay in range. *)
Theorem XOffsetRegion_correct r dx dy :
  Forall (fun q => int_rect (Rect (rleft q + dx) (rtop q + dy) (rright q + dx) (rbottom q + dy)))
    (fBounds r :: fData r) ->
  total (fun r' => forall x y, covers r' x y = covers r (x - dx) (y - dy)) (XOffsetRegion r dx dy).
Proof.
  intros [Hb Hl]%Forall_cons. destruct (offset_all_total (fData r) dx dy Hl) as [l' E].
  unfold XOffsetRegion. rewrite E, offset_rect_total by done. simpl.
  intros x y. unfold covers. simpl. by apply offset_has.
Qed.

(** When [_SetSize] fails, [XUnionRegion] leaves a region that covers no
    point, under the bounds of the union, and reports nothing: like every
    other path it returns 1. *)
Theorem XUnionRegion_no_memory `{RegionClass} reg1 reg2 newReg d :
  wf_region reg1 -> wf_region reg2 -> fData reg1 <> [] -> fData reg2 <> [] ->
  subsumes reg1 reg2 = false -> subsumes reg2 reg1 = false ->
  _SetSize (MakeEmpty newReg) (Z.max (fCount reg1) (fCount reg2) * 2) = (d, false) -> fData d = [] ->
  exists r, XUnionRegion false reg1 reg2 newReg = Ok r /\ (forall x y, covers r x y = false)
    /\ exists x y, INBOX (fBounds r) x y = true /\ covers reg1 x y = true.
Proof.
  intros H1 H2 Hn1 Hn2 S1 S2 Hs Hd. unfold XUnionRegion. rewrite !fCount_zero.
  rewrite !bool_decide_eq_false_2 by done. rewrite S1, S2. cbn [orb].
  unfold miRegionOp. autorewrite with clip. rewrite Hs. cbn [negb obind].
  eexists. split; [reflexivity|]. split; [intros x y; unfold covers; simpl; by rewrite Hd|].
  destruct (nonempty_has (fData reg1)) as (x & y & Hxy); [apply H1|done|].
  exists x, y. split; [|done]. destruct H1 as [_ Ht]. destruct (Ht Hn1) as [Hin _].
  apply Hin in Hxy. rewrite INBOX_true in *. simpl. lia.
Qed.

(** ** Examples *)

Definition empty_region : region :=
  {| fData := []; fAlloc := 0; fDataSize := 0; fBounds := Rect 0 0 0 0 |}.

(** A region class, and [realloc], with [size_max] rectangles and [bytes] to
    give. *)
Definition simple_class (size_max bytes : Z) : RegionClass := {|
  MakeEmpty _ := empty_region;
  _SetSize r n :=
    if n <=? size_max
    then ({| fData := fData r; fAlloc := n; fDataSize := n; fBounds := fBounds r |}, true)
    else (r, false);
  operator_assign _ r := r;
  realloc_ok n := n <=? bytes;
|}.

#[local] Instance plenty : RegionClass := simple_class (2 ^ 20) (2 ^ 30).

#[local] Instance plenty_ok : RegionClassOk.
Proof.
  split; try done.
  - intros r n Hn. simpl. rewrite (proj2 (Z.leb_le n (2 ^ 20))) by lia. by eexists.
  - intros n Hn. apply Z.leb_le. lia.
Qed.

Definition region_of (l : list clipping_rect) : region :=
  miSetExtents {| fData := l; fAlloc := 64; fDataSize := 64; fBounds := Rect 0 0 0 0 |}.

(** A shape with a hole in its upper band, and a square over the hole. *)
Definition comb : region := region_of [Rect 0 0 4 2; Rect 6 0 9 2; Rect 0 2 9 5].
Definition square : region := region_of [Rect 3 1 7 4].

Lemma comb_wf : wf_region comb.
Proof.
  apply miSetExtents_tight. split; simpl; repeat constructor; unfold nonempty, yx_before; simpl; lia.
Qed.

Lemma square_wf : wf_region square.
Proof.
  apply miSetExtents_tight. split; simpl; repeat constructor; unfold nonempty, yx_before; simpl; lia.
Qed.

Definition rects_of (o : outcome region) : outcome (list clipping_rect) :=
  r <- o;; Ok (fData r).

Lemma XUnionRegion_correct_witness :
  rects_of (XUnionRegion false comb square empty_region) = Ok [Rect 0 0 4 1; Rect 6 0 9 1; Rect 0 1 9 5]
  /\ total (fun r => wf_region r /\ forall x y, covers r x y = covers comb x y || covers square x y)
       (XUnionRegion false comb square empty_region).
Proof.
  split; [reflexivity|].
  apply XUnionRegion_correct; [apply comb_wf|apply square_wf|vm_compute; discriminate|discriminate].
Defined.

Lemma XIntersectRegion_correct_witness :
  rects_of (XIntersectRegion comb square empty_region) = Ok [Rect 3 1 4 2; Rect 6 1 7 2; Rect 3 2 7 4]
  /\ total (fun r => wf_region r /\ forall x y, covers r x y = covers comb x y && covers square x y)
       (XIntersectRegion comb square empty_region).
Proof.
  split; [reflexivity|].
  apply XIntersectRegion_correct; [apply comb_wf|apply square_wf|vm_compute; discriminate].
Defined.

Lemma XSubtractRegion_correct_witness :
  rects_of (XSubtractRegion comb square empty_region)
    = Ok [Rect 0 0 4 1; Rect 6 0 9 1; Rect 0 1 3 4; Rect 7 1 9 4; Rect 0 4 9 5]
  /\ total (fun r => wf_region r /\ forall x y, covers r x y = covers comb x y && negb (covers square x y))
       (XSubtractRegion comb square empty_region).
Proof.
  split; [reflexivity|].
  apply XSubtractRegion_correct; [apply comb_wf|apply square_wf|vm_compute; discriminate].
Defined.

Lemma region_ops_int32_witness :
  Forall (total (fun r => wf_region r /\ int_region r))
    [ XUnionRegion false comb square empty_region; XIntersectRegion comb square empty_region;
      XSubtractRegion comb square empty_region ].
Proof.
  apply region_ops_int32; [apply comb_wf|apply square_wf|..].
  - apply (bool_decide_eq_true_1 (int_region comb)). reflexivity.
  - apply (bool_decide_eq_true_1 (int_region square)). reflexivity.
  - vm_compute; discriminate.
Defined.

Lemma XPointInRegion_correct_witness :
  XPointInRegion comb 5 1 = covers comb 5 1 /\ XPointInRegion comb 5 1 = false.
Proof. split; [apply (XPointInRegion_correct comb 5 1 comb_wf)|reflexivity]. Defined.

Lemma XRectInRegion_correct_witness :
  XRectInRegion comb (Rect 1 1 3 5) = RectangleIn
  /\ XRectInRegion comb (Rect 4 0 6 2) = RectangleOut
  /\ (exists x y, INBOX (Rect 3 1 7 4) x y = true /\ covers comb x y = true)
  /\ exists x y, INBOX (Rect 3 1 7 4) x y = true /\ covers comb x y = false.
Proof.
  split; [reflexivity|]. split; [reflexivity|].
  apply (XRectInRegion_correct comb (Rect 3 1 7 4) comb_wf). split; reflexivity.
Defined.

(** An allocator that has nothing left. *)
Definition exhausted : RegionClass := simple_class 0 0.

Lemma XUnionRegion_no_memory_witness :
  exists r, @XUnionRegion exhausted false comb square empty_region = Ok r
    /\ (forall x y, covers r x y = false)
    /\ exists x y, INBOX (fBounds r) x y = true /\ covers comb x y = true.
Proof.
  apply (@XUnionRegion_no_memory exhausted comb square empty_region empty_region comb_wf square_wf);
    first [discriminate|reflexivity].
Defined.
