(* ===== verification/RingBuffer.v ===== *)
(** The kernel's ring buffer (os/private/util/ring_buffer.cpp): a queue of
    bytes in a fixed array, with a read position and a fill count.

    [ring_refines]: every sequence of operations gives the results that it
    gives on a plain queue of bytes with a capacity, which is [queue_step].
    [ring_sum_overflow]: which operations overflow in a ring of any size. *)

From Stdlib Require Import ZArith Lia List Bool.
From stdpp Require Import base tactics list numbers.
From S2P Require Import Prelude.
Local Open Scope Z_scope.
Local Open Scope c_scope.

(** ** Definitions *)

Definition B_GENERAL_ERROR_BASE : Z := INT_MIN.
Definition B_OS_ERROR_BASE : Z := B_GENERAL_ERROR_BASE + 4096.
Definition B_BAD_ADDRESS : Z := B_OS_ERROR_BASE + 769.

(** [struct ring_buffer]: three [int32_t] and the array that follows them;
    [in] is a keyword. *)
Record ring_buffer : Type := Ring {
  first : Z;
  rb_in : Z;
  size : Z;
  buffer : list Z;
}.

Definition sizeof_ring_buffer : Z := 12.
Definition RING_BUFFER_INIT_FROM_BUFFER : Z := 1.

Definition set_read (b : ring_buffer) (f i : Z) : ring_buffer :=
  {| first := f; rb_in := i; size := size b; buffer := buffer b |}.

Definition set_bytes (b : ring_buffer) (m : list Z) : ring_buffer :=
  {| first := first b; rb_in := rb_in b; size := size b; buffer := m |}.

(** [%] with a divisor that may be zero; the dividend is never negative here. *)
Definition c_rem (a b : Z) : outcome Z := if b =? 0 then Fault else Ok (a mod b).

Definition space_left_in_buffer (b : ring_buffer) : Z := size b - rb_in b.

Definition ring_buffer_clear (b : ring_buffer) : ring_buffer := set_read b 0 0.

Definition ring_buffer_readable (b : ring_buffer) : Z := rb_in b.
Definition ring_buffer_writable (b : ring_buffer) : Z := size b - rb_in b.

Section Copy.
(** Whether [user_memcpy] of so many bytes at that offset of the caller's
    buffer succeeds; outside the Haiku kernel it is [memcpy]. *)
Variable user_memcpy_ok : Z -> Z -> bool.

(** A copy between the caller's buffer and the ring: the caller's side is
    [n] bytes at [off]. *)
Definition copies (user : bool) (off n : Z) : bool := negb user || user_memcpy_ok off n.

Definition read_from_buffer (b : ring_buffer) (data : list Z) (length : Z) (user : bool)
    : outcome (ring_buffer * list Z * Z) :=
  let available := rb_in b in
  let length := if available <? length then available else length in
  if length =? 0 then Ok (b, data, 0)
  else
    let bytesRead := length in
    s <- (if first b + length <=? size b then
            if negb (copies user 0 length) then Ok (data, false)
            else
              x <- rdn (buffer b) (first b) length;;
              data <- wrn data 0 x;;
              Ok (data, true)
          else
            let upper := size b - first b in
            let lower := length - upper in
            if negb (copies user 0 upper) then Ok (data, false)
            else
              x <- rdn (buffer b) (first b) upper;;
              data <- wrn data 0 x;;
              if negb (copies user upper lower) then Ok (data, false)
              else
                y <- rdn (buffer b) 0 lower;;
                data <- wrn data upper y;;
                Ok (data, true));;
    let '(data, done) := s in
    if negb done then Ok (b, data, B_BAD_ADDRESS)
    else
      f <- c_rem (first b + bytesRead) (size b);;
      Ok (set_read b f (rb_in b - bytesRead), data, bytesRead).

Definition write_to_buffer (b : ring_buffer) (data : list Z) (length : Z) (user : bool)
    : outcome (ring_buffer * Z) :=
  let left := space_left_in_buffer b in
  let length := if left <? length then left else length in
  if length =? 0 then Ok (b, 0)
  else
    let bytesWritten := length in
    sum <- add_int (first b) (rb_in b);;
    position <- c_rem sum (size b);;
    s <- (if position + length <=? size b then
            if negb (copies user 0 length) then Ok (b, false)
            else
              x <- rdn data 0 length;;
              m <- wrn (buffer b) position x;;
              Ok (set_bytes b m, true)
          else
            let upper := size b - position in
            let lower := length - upper in
            if negb (copies user 0 upper) then Ok (b, false)
            else
              x <- rdn data 0 upper;;
              m <- wrn (buffer b) position x;;
              if negb (copies user upper lower) then Ok (set_bytes b m, false)
              else
                y <- rdn data upper lower;;
                m <- wrn m 0 y;;
                Ok (set_bytes b m, true));;
    let '(b, done) := s in
    if negb done then Ok (b, B_BAD_ADDRESS)
    else Ok (set_read b (first b) (rb_in b + bytesWritten), bytesWritten).

Definition ring_buffer_read b data length := read_from_buffer b data length false.
Definition ring_buffer_write b data length := write_to_buffer b data length false.
Definition ring_buffer_user_read b data length := read_from_buffer b data length true.
Definition ring_buffer_user_write b data length := write_to_buffer b data length true.
End Copy.

(** [malloc_bytes]: the block that [malloc] returns, [None] for NULL. *)
Definition create_ring_buffer_new (malloc_bytes : option (list Z)) (size : Z) : option ring_buffer :=
  match malloc_bytes with
  | None => None
  | Some m => Some (ring_buffer_clear {| first := 0; rb_in := 0; size := i32 size; buffer := m |})
  end.

(** A ring in memory of the caller, [size] bytes that hold [old] so far. *)
Definition create_ring_buffer_at (old : ring_buffer) (sz flags : Z) : ring_buffer :=
  let sz := u64 (sz - sizeof_ring_buffer) in
  let b := {| first := first old; rb_in := rb_in old; size := i32 sz; buffer := buffer old |} in
  if negb (Z.land flags RING_BUFFER_INIT_FROM_BUFFER =? 0)
     && (u64 (size b) =? sz)
     && (0 <=? rb_in b) && (rb_in b <=? sz)
     && (0 <=? first b) && (first b <? sz)
  then b
  else ring_buffer_clear b.

Definition ring_buffer_flush (b : ring_buffer) (length : Z) : outcome ring_buffer :=
  let length := if rb_in b <? length then rb_in b else length in
  f <- c_rem (first b + length) (size b);;
  Ok (set_read b f (rb_in b - length)).

(** [offset + length] is a [size_t] sum, which wraps. *)
Definition ring_buffer_peek (b : ring_buffer) (offset : Z) (data : list Z) (length : Z)
    : outcome (list Z * Z) :=
  let available := rb_in b in
  if (available <=? offset) || (length =? 0) then Ok (data, 0)
  else
    let length := if available <? u64 (offset + length) then available - offset else length in
    let offset := u64 (offset + first b) in
    let offset := if size b <=? offset then offset - size b else offset in
    if u64 (offset + length) <=? size b then
      x <- rdn (buffer b) offset length;;
      data <- wrn data 0 x;;
      Ok (data, length)
    else
      let upper := size b - offset in
      let lower := length - upper in
      x <- rdn (buffer b) offset upper;;
      data <- wrn data 0 x;;
      y <- rdn (buffer b) 0 lower;;
      data <- wrn data upper y;;
      Ok (data, length).

(** The [iovec]s, as offset into the array and length. *)
Definition ring_buffer_get_vecs (b : ring_buffer) : outcome (list (Z * Z)) :=
  if rb_in b =? 0 then Ok []
  else
    sum <- add_int (first b) (rb_in b);;
    if sum <=? size b then Ok [(first b, rb_in b)]
    else
      let upper := size b - first b in
      let lower := rb_in b - upper in
      Ok [(first b, upper); (0, lower)].

(** *** The queue in a ring *)

Definition slot (b : ring_buffer) (k : Z) : nat := Z.to_nat ((first b + k) mod size b).

Definition queue (b : ring_buffer) : list Z :=
  map (fun k => default 0 (buffer b !! slot b k)) (seqZ 0 (rb_in b)).

(** A ring as the creation leaves it and the operations keep it. *)
Definition ring_ok (b : ring_buffer) : Prop :=
  (0 < size b <= INT_MAX /\ zlen (buffer b) = size b)
  /\ 0 <= first b < size b /\ 0 <= rb_in b <= size b.

(** No larger than 2^30 bytes, so that [first + in] fits an [int32_t]. *)
Definition wf_ring (b : ring_buffer) : Prop :=
  (0 < size b <= 2 ^ 30 /\ zlen (buffer b) = size b)
  /\ 0 <= first b < size b /\ 0 <= rb_in b <= size b.

#[export] Instance ring_ok_dec b : Decision (ring_ok b).
Proof. unfold ring_ok. apply _. Defined.

#[export] Instance wf_ring_dec b : Decision (wf_ring b).
Proof. unfold wf_ring. apply _. Defined.

Lemma wf_ring_ok b : wf_ring b <-> ring_ok b /\ size b <= 2 ^ 30.
Proof. unfold wf_ring, ring_ok, INT_MAX. lia. Qed.

(** ** Copies, byte by byte *)

Lemma rdn_lookup (m : list Z) i n :
  0 <= i -> 0 <= n -> i + n <= zlen m ->
  exists x, rdn m i n = Ok x /\ zlen x = n
    /\ forall k, 0 <= k < n -> x !! Z.to_nat k = m !! Z.to_nat (i + k).
Proof.
  intros Hi Hn Hm. unfold rdn. bdecide. simpl. unfold zlen in *. eexists. split; [done|]. split.
  - rewrite length_take, length_drop. lia.
  - intros k Hk. rewrite lookup_take_lt by lia. rewrite lookup_drop. f_equal. lia.
Qed.

Lemma wrn_lookup (m : list Z) i x :
  0 <= i -> i + zlen x <= zlen m ->
  exists m', wrn m i x = Ok m' /\ zlen m' = zlen m
    /\ forall k, 0 <= k < zlen m ->
       m' !! Z.to_nat k = if (i <=? k) && (k <? i + zlen x) then x !! Z.to_nat (k - i)
                          else m !! Z.to_nat k.
Proof.
  intros Hi Hm. unfold wrn. bdecide. simpl. eexists. split; [done|]. unfold zlen in *. split.
  - rewrite !length_app, length_take, length_drop. lia.
  - intros k Hk. destruct (Z.leb_spec i k); simpl.
    + destruct (Z.ltb_spec k (i + Z.of_nat (length x))).
      * rewrite lookup_app_r by (rewrite length_take; lia). rewrite lookup_app_l by (rewrite length_take; lia).
        f_equal. rewrite length_take. lia.
      * rewrite !lookup_app_r by (rewrite ?length_take; lia). rewrite lookup_drop, length_take. f_equal. lia.
    + rewrite lookup_app_l by (rewrite length_take; lia). by rewrite lookup_take_lt by lia.
Qed.

(** ** The queue *)

Lemma zlen_queue b : 0 <= rb_in b -> zlen (queue b) = rb_in b.
Proof. intros H. unfold queue. rewrite zlen_map. unfold zlen. rewrite length_seqZ. lia. Qed.

Lemma queue_lookup b k :
  ring_ok b -> 0 <= k < rb_in b -> queue b !! Z.to_nat k = buffer b !! slot b k.
Proof.
  intros ([Hs Hl] & Hf & Hi) Hk. unfold queue. rewrite list_lookup_fmap.
  rewrite (lookup_seqZ_lt 0 (rb_in b) (Z.to_nat k)) by lia. simpl.
  replace (0 + Z.of_nat (Z.to_nat k)) with k by lia.
  assert (Hb : (slot b k < length (buffer b))%nat).
  { unfold slot, zlen in *. pose proof (Z.mod_pos_bound (first b + k) (size b)). lia. }
  apply lookup_lt_is_Some_2 in Hb as [x Hx]. by rewrite Hx.
Qed.

(** Lists of bytes are equal when their bytes are. *)
Lemma list_eq_Z {A} (l l' : list A) :
  zlen l = zlen l' -> (forall k, 0 <= k < zlen l -> l !! Z.to_nat k = l' !! Z.to_nat k) -> l = l'.
Proof.
  intros Hl Hk. apply list_eq_same_length with (n := length l).
  - unfold zlen in Hl. lia.
  - done.
  - intros i x y Hi Hx Hy. specialize (Hk (Z.of_nat i)). unfold zlen in Hk.
    rewrite Nat2Z.id, Hx, Hy in Hk. injection Hk; [done|lia].
Qed.

Lemma mod_wrap x s : 0 < s -> s <= x < 2 * s -> x mod s = x - s.
Proof. intros Hs Hx. rewrite <- (Z.mod_small (x - s) s) by lia. rewrite <- (Z.mod_add (x - s) 1 s) by lia. f_equal. lia. Qed.

Lemma slot_low b k : ring_ok b -> 0 <= k -> first b + k < size b -> slot b k = Z.to_nat (first b + k).
Proof. intros ([? ?] & ? & ?) ? ?. unfold slot. by rewrite Z.mod_small by lia. Qed.

Lemma slot_high b k :
  ring_ok b -> size b <= first b + k < 2 * size b -> slot b k = Z.to_nat (first b + k - size b).
Proof. intros ([? ?] & ? & ?) ?. unfold slot. by rewrite mod_wrap by lia. Qed.

(** Dropping bytes from the front. *)
Lemma queue_drop b n :
  ring_ok b -> 0 <= n <= rb_in b ->
  let b' := set_read b ((first b + n) mod size b) (rb_in b - n) in
  ring_ok b' /\ queue b' = drop (Z.to_nat n) (queue b).
Proof.
  intros Hw Hn. pose proof Hw as ([Hs Hl] & Hf & Hi). cbv zeta.
  pose proof (Z.mod_pos_bound (first b + n) (size b)) as Hm.
  set (b' := set_read b _ _).
  assert (Hw' : ring_ok b') by (unfold ring_ok, b'; simpl; lia).
  split; [done|]. apply list_eq_Z.
  - unfold zlen. rewrite length_drop. pose proof (zlen_queue b). pose proof (zlen_queue b').
    unfold zlen, b' in *. simpl in *. lia.
  - rewrite zlen_queue by (unfold b'; simpl; lia). intros k Hk. rewrite queue_lookup by done.
    rewrite lookup_drop. replace (Z.to_nat n + Z.to_nat k)%nat with (Z.to_nat (n + k)) by lia.
    unfold b' in Hk. simpl in Hk. rewrite queue_lookup by (auto; lia).
    unfold slot, b'. simpl. rewrite Zplus_mod_idemp_l. do 3 f_equal. lia.
Qed.

(** What a read of [n] bytes at distance [o] from the front gives. *)
Lemma chunk_lookup b o n x :
  ring_ok b -> 0 <= o -> o + n <= rb_in b -> zlen x = n ->
  (forall k, 0 <= k < n -> x !! Z.to_nat k = buffer b !! slot b (o + k)) ->
  x = take (Z.to_nat n) (drop (Z.to_nat o) (queue b)).
Proof.
  intros Hw Ho Hn Hx Hk. pose proof Hw as ([Hs Hl] & Hf & Hi).
  pose proof (zlen_queue b) as Hq. apply list_eq_Z.
  - unfold zlen in *. rewrite length_take, length_drop. lia.
  - rewrite Hx. intros k Hk'. rewrite Hk by done. rewrite lookup_take_lt by lia.
    rewrite lookup_drop. replace (Z.to_nat o + Z.to_nat k)%nat with (Z.to_nat (o + k)) by lia.
    by rewrite queue_lookup by (auto; lia).
Qed.

(** *** Copies out of the ring and into it *)

Lemma rdn_front (m : list Z) n :
  0 <= n -> n <= zlen m -> exists x, rdn m 0 n = Ok x /\ zlen x = n /\ x = take (Z.to_nat n) m.
Proof.
  intros Hn Hm. unfold rdn. bdecide. simpl. eexists. split; [done|]. split; [|done].
  unfold zlen in *. rewrite length_take, drop_0. lia.
Qed.

Lemma rdn_two (m : list Z) u n :
  0 <= u -> u <= n -> n <= zlen m ->
  exists y, rdn m u (n - u) = Ok y /\ zlen y = n - u
    /\ take (Z.to_nat u) m ++ y = take (Z.to_nat n) m.
Proof.
  intros Hu Hn Hm. unfold rdn. bdecide. simpl. eexists. split; [done|]. split.
  - unfold zlen in *. rewrite length_take, length_drop. lia.
  - replace (Z.to_nat n) with (Z.to_nat u + Z.to_nat (n - u))%nat by lia.
    by rewrite take_take_drop.
Qed.

Lemma wrn_front (m x : list Z) : zlen x <= zlen m -> wrn m 0 x = Ok (x ++ drop (length x) m).
Proof. intros H. unfold wrn. bdecide. done. Qed.

Lemma wrn_next (m x y : list Z) i :
  i = zlen x -> zlen x + zlen y <= zlen m ->
  wrn (x ++ drop (length x) m) i y = Ok ((x ++ y) ++ drop (length (x ++ y)) m).
Proof.
  intros -> H. unfold wrn. unfold zlen in *. rewrite length_app, length_drop. bdecide. simpl.
  rewrite Nat2Z.id, take_app_length, length_app, <- app_assoc. do 3 f_equal.
  rewrite <- drop_drop, drop_app_length, drop_drop. done.
Qed.

Definition slot_pos (b : ring_buffer) (k : Z) : Z := (first b + k) mod size b.

Lemma slot_shift b o k :
  ring_ok b -> slot b (o + k) = Z.to_nat ((slot_pos b o + k) mod size b).
Proof. intros _. unfold slot, slot_pos. rewrite Zplus_mod_idemp_l. do 2 f_equal. lia. Qed.

(** [n] bytes at distance [o] from the front, in one piece. *)
Lemma read_simple b o n :
  ring_ok b -> 0 <= o -> 0 <= n -> o + n <= rb_in b -> slot_pos b o + n <= size b ->
  rdn (buffer b) (slot_pos b o) n = Ok (take (Z.to_nat n) (drop (Z.to_nat o) (queue b))).
Proof.
  intros Hw Ho Hn Hin Hfit. pose proof Hw as ([Hs Hl] & Hf & Hi).
  pose proof (Z.mod_pos_bound (first b + o) (size b)) as Hp. fold (slot_pos b o) in Hp.
  destruct (rdn_lookup (buffer b) (slot_pos b o) n) as (x & E & Hx & Hk); [lia|lia|lia|].
  rewrite E. f_equal. apply (chunk_lookup b o n x); auto.
  intros k Hk'. rewrite Hk, slot_shift by auto. by rewrite Z.mod_small by lia.
Qed.

(** The same in two pieces. *)
Lemma read_wrapped b o n :
  ring_ok b -> 0 <= o -> o + n <= rb_in b -> size b < slot_pos b o + n ->
  let upper := size b - slot_pos b o in
  exists x y, rdn (buffer b) (slot_pos b o) upper = Ok x /\ rdn (buffer b) 0 (n - upper) = Ok y
    /\ zlen x = upper /\ zlen y = n - upper
    /\ x ++ y = take (Z.to_nat n) (drop (Z.to_nat o) (queue b)).
Proof.
  intros Hw Ho Hin Hfit upper. pose proof Hw as ([Hs Hl] & Hf & Hi).
  pose proof (Z.mod_pos_bound (first b + o) (size b)) as Hp. fold (slot_pos b o) in Hp.
  destruct (rdn_lookup (buffer b) (slot_pos b o) upper) as (x & Ex & Hx & Hkx); [lia..|].
  destruct (rdn_lookup (buffer b) 0 (n - upper)) as (y & Ey & Hy & Hky); [lia..|].
  exists x, y. split_and!; auto. apply (chunk_lookup b o n); auto; [zl|].
  intros k Hk. rewrite slot_shift by auto. destruct (Z.lt_ge_cases k upper).
  - rewrite lookup_app_l by (unfold zlen in *; lia). rewrite Hkx by lia.
    by rewrite Z.mod_small by lia.
  - rewrite lookup_app_r by (unfold zlen in *; lia).
    replace (Z.to_nat k - length x)%nat with (Z.to_nat (k - upper)) by (unfold zlen in *; lia).
    rewrite Hky by lia. rewrite mod_wrap by lia. do 2 f_equal. lia.
Qed.

(** Bytes stored behind the queue. *)
Lemma queue_append b n w m :
  ring_ok b -> 0 <= n -> rb_in b + n <= size b -> zlen w = n -> zlen m = size b ->
  (forall k, 0 <= k < rb_in b -> m !! slot b k = buffer b !! slot b k) ->
  (forall k, 0 <= k < n -> m !! slot b (rb_in b + k) = w !! Z.to_nat k) ->
  let b' := set_read (set_bytes b m) (first b) (rb_in b + n) in
  ring_ok b' /\ queue b' = queue b ++ w.
Proof.
  intros Hw Hn Hfit Hwl Hm Hold Hnew. pose proof Hw as ([Hs Hl] & Hf & Hi). cbv zeta.
  set (b' := set_read _ _ _).
  assert (Hw' : ring_ok b') by (unfold ring_ok, b'; simpl; lia).
  split; [done|]. pose proof (zlen_queue b) as Hq. apply list_eq_Z.
  - rewrite zlen_queue, zlen_app by (unfold b'; simpl; lia). unfold b'; simpl. lia.
  - rewrite zlen_queue by (unfold b'; simpl; lia). intros k Hk. rewrite queue_lookup by done.
    unfold b' in Hk. simpl in Hk. change (buffer b') with m. change (slot b' k) with (slot b k).
    destruct (Z.lt_ge_cases k (rb_in b)).
    + rewrite lookup_app_l by (unfold zlen in *; lia). rewrite Hold by lia.
      by rewrite queue_lookup by (auto; lia).
    + rewrite lookup_app_r by (unfold zlen in *; lia).
      replace (Z.to_nat k - length (queue b))%nat with (Z.to_nat (k - rb_in b)) by (unfold zlen in *; lia).
      rewrite <- Hnew by lia. do 2 f_equal. lia.
Qed.

(** The bytes from the back of the queue on are not in it. *)
Lemma slot_apart b k p :
  ring_ok b -> 0 <= k < rb_in b -> 0 <= p < size b ->
  (exists j, rb_in b <= j < size b /\ p = slot_pos b j) -> slot b k <> Z.to_nat p.
Proof.
  intros ([Hs Hl] & Hf & Hi) Hk Hp (j & Hj & ->) E. unfold slot, slot_pos in *.
  pose proof (Z.mod_pos_bound (first b + k) (size b)).
  assert (E' : (first b + k) mod size b = (first b + j) mod size b) by lia.
  apply Z.cong_iff_0 in E'. replace (first b + k - (first b + j)) with (k - j) in E' by lia.
  apply Z.mod_divide in E' as [q Hq]; [|lia].
  assert (q = 0 \/ q <= -1 \/ 1 <= q) as [->|[?|?]] by lia; nia.
Qed.

(** Storing [n] bytes behind the queue leaves the queue alone, when only the
    places behind it are written. *)
Definition stores_behind (b : ring_buffer) (n : Z) (m : list Z) : Prop :=
  zlen m = size b /\
  forall j, 0 <= j < size b ->
    (forall q, 0 <= q < n -> slot b (rb_in b + q) <> Z.to_nat j) ->
    m !! Z.to_nat j = buffer b !! Z.to_nat j.

Lemma stores_behind_kept b n m k :
  ring_ok b -> rb_in b + n <= size b -> stores_behind b n m -> 0 <= k < rb_in b ->
  m !! slot b k = buffer b !! slot b k.
Proof.
  intros Hw Hn [_ Hm] Hk. pose proof Hw as ([Hs Hl] & Hf & Hi).
  apply Hm; [apply Z.mod_pos_bound; lia|]. intros q Hq E.
  apply (slot_apart b k (slot_pos b (rb_in b + q)) Hw Hk).
  - apply Z.mod_pos_bound; lia.
  - exists (rb_in b + q). split; [lia|done].
  - symmetry. exact E.
Qed.

Lemma stores_behind_queue b n m :
  ring_ok b -> rb_in b + n <= size b -> stores_behind b n m ->
  ring_ok (set_bytes b m) /\ queue (set_bytes b m) = queue b.
Proof.
  intros Hw Hn Hm. pose proof Hw as ([Hs Hl] & Hf & Hi).
  assert (Hw' : ring_ok (set_bytes b m)) by (destruct Hm; unfold ring_ok; simpl; lia).
  split; [done|]. apply list_eq_Z.
  - rewrite !zlen_queue; simpl; lia.
  - rewrite zlen_queue by (simpl; lia). simpl. intros k Hk.
    rewrite !queue_lookup by (auto; simpl; lia).
    change (slot (set_bytes b m) k) with (slot b k). simpl. by apply (stores_behind_kept b n m k).
Qed.

(** The places behind the queue, from [position] to the end and from the
    start on. *)
Lemma slot_behind b q :
  ring_ok b -> 0 <= q < size b -> let p := slot_pos b (rb_in b) in
  0 <= p < size b /\ slot b (rb_in b + q) = Z.to_nat (if p + q <? size b then p + q else p + q - size b).
Proof.
  intros Hw Hq p. pose proof Hw as ([Hs Hl] & Hf & Hi).
  assert (Hp : 0 <= p < size b) by (apply Z.mod_pos_bound; lia). split; [done|].
  rewrite slot_shift by done. fold p. f_equal.
  destruct (Z.ltb_spec (p + q) (size b)); [by rewrite Z.mod_small by lia|by rewrite mod_wrap by lia].
Qed.

(** Up to the end of the array. *)
Lemma store_upper b w :
  ring_ok b -> let p := slot_pos b (rb_in b) in
  p + zlen w <= size b -> zlen w <= size b - rb_in b ->
  exists m, wrn (buffer b) p w = Ok m /\ stores_behind b (zlen w) m
    /\ forall q, 0 <= q < zlen w -> m !! slot b (rb_in b + q) = w !! Z.to_nat q.
Proof.
  intros Hw p Hfit Hn. pose proof Hw as ([Hs Hl] & Hf & Hi).
  assert (Hp : 0 <= p < size b) by (apply Z.mod_pos_bound; lia).
  assert (Hslot : forall q, 0 <= q < zlen w -> slot b (rb_in b + q) = Z.to_nat (p + q)).
  { intros q Hq. destruct (slot_behind b q Hw) as [_ ->]; [lia|]. fold p. by bdecide. }
  destruct (wrn_lookup (buffer b) p w) as (m & Em & Hml & Hkm); [lia|lia|].
  exists m. split; [done|]. split; [split; [lia|]|].
  - intros j Hj Hfree. rewrite Hkm by lia.
    destruct ((p <=? j) && (j <? p + zlen w)) eqn:Hin; [|done]. zbool. exfalso.
    apply (Hfree (j - p)); [lia|]. rewrite Hslot by lia. f_equal. lia.
  - intros q Hq. rewrite Hslot by lia. rewrite Hkm by lia. bdecide. simpl. f_equal. lia.
Qed.

(** Then from the start of the array on. *)
Lemma store_lower b m x y :
  ring_ok b -> let p := slot_pos b (rb_in b) in
  p + zlen x = size b -> zlen x + zlen y <= size b - rb_in b ->
  stores_behind b (zlen x) m ->
  (forall q, 0 <= q < zlen x -> m !! slot b (rb_in b + q) = x !! Z.to_nat q) ->
  exists m', wrn m 0 y = Ok m' /\ stores_behind b (zlen x + zlen y) m'
    /\ forall q, 0 <= q < zlen x + zlen y -> m' !! slot b (rb_in b + q) = (x ++ y) !! Z.to_nat q.
Proof.
  intros Hw p Hfit Hn [Hml Hm] Hx. pose proof Hw as ([Hs Hl] & Hf & Hi).
  pose proof (zlen_nonneg x) as Hx0. pose proof (zlen_nonneg y) as Hy0.
  assert (Hp : 0 <= p < size b) by (apply Z.mod_pos_bound; lia).
  assert (Hslot : forall q, 0 <= q < zlen x + zlen y ->
      slot b (rb_in b + q) = Z.to_nat (if p + q <? size b then p + q else p + q - size b)).
  { intros q Hq. by destruct (slot_behind b q Hw) as [_ ->]; [lia|]. }
  destruct (wrn_lookup m 0 y) as (m' & Em & Hml' & Hkm); [lia|lia|].
  exists m'. split; [done|]. split; [split; [lia|]|].
  - intros j Hj Hfree. rewrite Hkm by lia.
    destruct ((0 <=? j) && (j <? 0 + zlen y)) eqn:Hin.
    + zbool. exfalso. apply (Hfree (zlen x + j)); [lia|]. rewrite Hslot by lia. bdecide. f_equal. lia.
    + apply Hm; [done|]. intros q Hq. apply Hfree. lia.
  - intros q Hq. destruct (Z.lt_ge_cases q (zlen x)).
    + rewrite lookup_app_l by (unfold zlen in *; lia). rewrite <- Hx by lia.
      rewrite Hslot by lia. bdecide. rewrite Hkm by lia.
      destruct ((0 <=? p + q) && (p + q <? 0 + zlen y)) eqn:Hin; [|done]. zbool. lia.
    + rewrite lookup_app_r by (unfold zlen in *; lia). rewrite Hslot by lia. bdecide.
      rewrite Hkm by lia. bdecide. simpl. f_equal. unfold zlen in *. lia.
Qed.

Section CopySpecs.
Variable user_memcpy_ok : Z -> Z -> bool.

Lemma read_spec b data length user :
  ring_ok b -> 0 <= length -> let n := Z.min length (rb_in b) in n <= zlen data ->
  total (fun r =>
      (r.2 = n /\ ring_ok r.1.1 /\ size r.1.1 = size b
       /\ queue r.1.1 = drop (Z.to_nat n) (queue b)
       /\ r.1.2 = take (Z.to_nat n) (queue b) ++ drop (Z.to_nat n) data)
      \/ (r.2 = B_BAD_ADDRESS /\ r.1.1 = b /\ user = true))
    (read_from_buffer user_memcpy_ok b data length user).
Proof.
  intros Hw Hlen n Hd. pose proof Hw as ([Hs Hl] & Hf & Hi). unfold read_from_buffer.
  replace (if rb_in b <? length then rb_in b else length) with n
    by (unfold n; destruct (Z.ltb_spec (rb_in b) length); lia).
  destruct (Z.eqb_spec n 0) as [Hz|Hz].
  { left. rewrite Hz. done. }
  assert (Hp0 : slot_pos b 0 = first b) by (unfold slot_pos; rewrite Z.mod_small; lia).
  assert (Hfin : forall x, zlen x = n -> x = take (Z.to_nat n) (queue b) ->
     total (fun r => (r.2 = n /\ ring_ok r.1.1 /\ size r.1.1 = size b /\ queue r.1.1 = drop (Z.to_nat n) (queue b)
         /\ r.1.2 = take (Z.to_nat n) (queue b) ++ drop (Z.to_nat n) data)
        \/ (r.2 = B_BAD_ADDRESS /\ r.1.1 = b /\ user = true))
      (f <- c_rem (first b + n) (size b);;
       Ok (set_read b f (rb_in b - n), x ++ drop (base.length x) data, n))).
  { intros x Hx E. unfold c_rem. rewrite (proj2 (Z.eqb_neq (size b) 0)) by lia. simpl. left.
    destruct (queue_drop b n Hw ltac:(lia)) as [Hw' Hq]. split; [done|]. split; [done|]. split; [done|]. split; [done|].
    rewrite E at 1. do 2 f_equal. unfold zlen in Hx. lia. }
  assert (Hbad : forall d, user = true -> total (fun r =>
      (r.2 = n /\ ring_ok r.1.1 /\ size r.1.1 = size b /\ queue r.1.1 = drop (Z.to_nat n) (queue b)
         /\ r.1.2 = take (Z.to_nat n) (queue b) ++ drop (Z.to_nat n) data)
        \/ (r.2 = B_BAD_ADDRESS /\ r.1.1 = b /\ user = true)) (Ok (b, d, B_BAD_ADDRESS))).
  { intros d ->. right. done. }
  assert (Huser : forall o k, copies user_memcpy_ok user o k = false -> user = true).
  { intros o k. unfold copies. destruct user; done. }
  destruct (Z.leb_spec (first b + n) (size b)) as [Hfit|Hfit].
  - destruct (copies user_memcpy_ok user 0 n) eqn:Hc; simpl; [|eapply Hbad, Huser; done].
    pose proof (read_simple b 0 n Hw ltac:(lia) ltac:(lia) ltac:(lia)) as Hr. rewrite Hp0 in Hr.
    rewrite Hr by lia. cbn [obind].
    assert (Hx : zlen (take (Z.to_nat n) (drop (Z.to_nat 0) (queue b))) = n).
    { pose proof (zlen_queue b). unfold zlen in *. rewrite length_take, length_drop. lia. }
    rewrite wrn_front by lia. cbn [obind negb]. by apply Hfin.
  - set (upper := size b - first b).
    destruct (copies user_memcpy_ok user 0 upper) eqn:Hc; simpl; [|eapply Hbad, Huser; done].
    pose proof (read_wrapped b 0 n Hw ltac:(lia) ltac:(lia)) as Hr. rewrite Hp0 in Hr.
    destruct (Hr Hfit) as (x & y & Ex & Ey & Hx & Hy & Exy). fold upper in Ex, Ey, Hx, Hy.
    rewrite Ex. cbn [obind]. rewrite wrn_front by (unfold upper in *; lia). cbn [obind].
    destruct (copies user_memcpy_ok user upper (n - upper)) eqn:Hc'; simpl; [|eapply Hbad, Huser; done].
    rewrite Ey. cbn [obind]. rewrite wrn_next by lia. cbn [obind negb].
    apply Hfin; [zl|]. by rewrite Exy.
Qed.

Lemma write_spec b data length user :
  ring_ok b -> 0 <= length -> let n := Z.min length (size b - rb_in b) in n <= zlen data ->
  n = 0 \/ first b + rb_in b <= INT_MAX ->
  total (fun r => ring_ok r.1 /\ size r.1 = size b /\
      ((r.2 = n /\ queue r.1 = queue b ++ take (Z.to_nat n) data)
       \/ (r.2 = B_BAD_ADDRESS /\ queue r.1 = queue b /\ user = true)))
    (write_to_buffer user_memcpy_ok b data length user).
Proof.
  intros Hw Hlen n Hd Hsum. pose proof Hw as ([Hs Hl] & Hf & Hi).
  unfold write_to_buffer, space_left_in_buffer.
  replace (if size b - rb_in b <? length then size b - rb_in b else length) with n
    by (unfold n; destruct (Z.ltb_spec (size b - rb_in b) length); lia).
  destruct (Z.eqb_spec n 0) as [Hz|Hz].
  { split; [done|]. split; [done|]. left. rewrite Hz, app_nil_r. done. }
  rewrite add_int_ok by (destruct Hsum; unfold INT_MIN, INT_MAX in *; lia). cbn [obind].
  unfold c_rem. rewrite (proj2 (Z.eqb_neq (size b) 0)) by lia. cbn [obind].
  fold (slot_pos b (rb_in b)). set (p := slot_pos b (rb_in b)).
  assert (Hp : 0 <= p < size b) by (apply Z.mod_pos_bound; lia).
  assert (Huser : forall o k, copies user_memcpy_ok user o k = false -> user = true).
  { intros o k. unfold copies. destruct user; done. }
  assert (Hdone : forall m w, w = take (Z.to_nat n) data -> zlen w = n -> stores_behind b n m ->
      (forall q, 0 <= q < n -> m !! slot b (rb_in b + q) = w !! Z.to_nat q) ->
      let b' := set_read (set_bytes b m) (first b) (rb_in b + n) in
      ring_ok b' /\ size b' = size b /\ ((n = n /\ queue b' = queue b ++ take (Z.to_nat n) data)
       \/ (n = B_BAD_ADDRESS /\ queue b' = queue b /\ user = true))).
  { intros m w Ew Hwl Hm Hk. destruct (queue_append b n w m) as [Hw' Hq]; auto; [lia..|apply Hm| |].
    - intros k Hk'. apply (stores_behind_kept b n m k); auto. lia.
    - split; [exact Hw'|]. split; [done|]. left. split; [done|]. rewrite <- Ew. exact Hq. }
  destruct (Z.leb_spec (p + n) (size b)) as [Hfit|Hfit].
  - destruct (copies user_memcpy_ok user 0 n) eqn:Hc; simpl.
    2:{ split; [done|]. split; [done|]. right. split_and!; [done..|by eapply Huser]. }
    destruct (rdn_front data n) as (w & Ew & Hwl & Hw0); [lia|lia|]. rewrite Ew. cbn [obind].
    destruct (store_upper b w Hw) as (m & Em & Hm & Hk); [rewrite Hwl; fold p; lia|lia|].
    fold p in Em. rewrite Em. cbn [obind negb]. rewrite Hwl in *. by apply (Hdone m w).
  - set (upper := size b - p).
    destruct (copies user_memcpy_ok user 0 upper) eqn:Hc; simpl.
    2:{ split; [done|]. split; [done|]. right. split_and!; [done..|by eapply Huser]. }
    destruct (rdn_front data upper) as (x & Ex & Hx & Hx0); [unfold upper; lia..|].
    rewrite Ex. cbn [obind].
    destruct (store_upper b x Hw) as (m & Em & Hm & Hk); [rewrite Hx; fold p; unfold upper; lia
      |rewrite Hx; unfold upper in *; lia|].
    fold p in Em. rewrite Em. cbn [obind].
    destruct (copies user_memcpy_ok user upper (n - upper)) eqn:Hc'; simpl.
    2:{ destruct (stores_behind_queue b (zlen x) m) as [Hw' Hq]; auto; [unfold upper in *; lia|].
        split; [done|]. split; [done|]. right. split_and!; [done..|by eapply Huser]. }
    destruct (rdn_two data upper n) as (y & Ey & Hy & Exy); [unfold upper in *; lia..|].
    rewrite Ey. cbn [obind].
    destruct (store_lower b m x y Hw) as (m' & Em' & Hm' & Hk');
      [fold p; rewrite Hx; unfold upper; lia|lia|done|done|].
    rewrite Em'. cbn [obind negb]. replace (zlen x + zlen y) with n in * by lia.
    apply (Hdone m' (x ++ y)); auto; [|zl]. by rewrite Hx0.
Qed.
End CopySpecs.

(** *** The operations that do not move bytes *)

Lemma flush_spec b n :
  ring_ok b -> 0 <= n ->
  total (fun b' => ring_ok b' /\ size b' = size b
           /\ queue b' = drop (Z.to_nat (Z.min n (rb_in b))) (queue b)) (ring_buffer_flush b n).
Proof.
  intros Hw Hn. pose proof Hw as ([Hs Hl] & Hf & Hi). unfold ring_buffer_flush, c_rem.
  rewrite (proj2 (Z.eqb_neq (size b) 0)) by lia. simpl.
  replace (if rb_in b <? n then rb_in b else n) with (Z.min n (rb_in b))
    by (destruct (Z.ltb_spec (rb_in b) n); lia).
  destruct (queue_drop b (Z.min n (rb_in b)) Hw ltac:(lia)) as [Hw' Hq]. done.
Qed.

Lemma clear_spec b : ring_ok b -> ring_ok (ring_buffer_clear b) /\ queue (ring_buffer_clear b) = [].
Proof. intros ([? ?] & ? & ?). split; [unfold ring_ok; simpl; lia|done]. Qed.

(** How many bytes a peek at [offset] sees. *)
Definition peek_count (avail offset length : Z) : Z :=
  if avail <=? offset then 0 else Z.min length (avail - offset).

Lemma peek_spec b offset data length :
  ring_ok b -> 0 <= offset -> 0 <= length <= zlen data -> zlen data < 2 ^ 63 ->
  let n := peek_count (rb_in b) offset length in
  ring_buffer_peek b offset data length
  = Ok (take (Z.to_nat n) (drop (Z.to_nat offset) (queue b)) ++ drop (Z.to_nat n) data, n).
Proof.
  intros Hw Ho Hlen Hd n. pose proof Hw as ([Hs Hl] & Hf & Hi).
  unfold INT_MAX in Hs. unfold ring_buffer_peek. unfold n, peek_count. destruct (Z.leb_spec (rb_in b) offset); simpl.
  { by rewrite drop_0. }
  destruct (Z.eqb_spec length 0) as [->|Hnz]; simpl.
  { rewrite Z.min_l by lia. by rewrite drop_0. }
  assert (Hw64 : u64 (offset + length) = offset + length) by (apply uwrap_id; lia).
  rewrite Hw64.
  replace (if rb_in b <? offset + length then rb_in b - offset else length)
    with (Z.min length (rb_in b - offset)) by (destruct (Z.ltb_spec (rb_in b) (offset + length)); lia).
  set (m := Z.min length (rb_in b - offset)).
  assert (Hp : (if size b <=? u64 (offset + first b) then u64 (offset + first b) - size b
                else u64 (offset + first b)) = slot_pos b offset).
  { unfold u64. rewrite uwrap_id by lia. unfold slot_pos.
    destruct (Z.leb_spec (size b) (offset + first b)).
    - rewrite mod_wrap by lia. lia.
    - rewrite Z.mod_small by lia. lia. }
  rewrite Hp. assert (Hpr : 0 <= slot_pos b offset < size b) by (apply Z.mod_pos_bound; lia).
  unfold u64. rewrite uwrap_id by lia.
  destruct (Z.leb_spec (slot_pos b offset + m) (size b)).
  - rewrite (read_simple b offset m) by (auto; lia). cbn [obind].
    set (x := take _ _). assert (Hx : zlen x = m).
    { pose proof (zlen_queue b). unfold x, zlen in *. rewrite length_take, length_drop. lia. }
    rewrite wrn_front by lia. cbn [obind]. do 4 f_equal. unfold zlen in Hx. lia.
  - destruct (read_wrapped b offset m) as (x & y & Ex & Ey & Hx & Hy & Exy); [auto; lia..|].
    rewrite Ex. cbn [obind]. rewrite wrn_front by lia. cbn [obind]. rewrite Ey. cbn [obind].
    rewrite wrn_next by lia. cbn [obind]. rewrite Exy. do 4 f_equal.
    assert (zlen (x ++ y) = m) by zl. rewrite <- Exy. unfold zlen in *. lia.
Qed.

(** The bytes that a list of [iovec]s describes. *)
Fixpoint vec_bytes (b : ring_buffer) (vecs : list (Z * Z)) : outcome (list Z) :=
  match vecs with
  | [] => Ok []
  | (base, len) :: vecs =>
      x <- rdn (buffer b) base len;;
      y <- vec_bytes b vecs;;
      Ok (x ++ y)
  end.

Definition read_vecs (b : ring_buffer) : outcome (list Z) :=
  vecs <- ring_buffer_get_vecs b;; vec_bytes b vecs.

Lemma read_vecs_spec b :
  ring_ok b -> rb_in b = 0 \/ first b + rb_in b <= INT_MAX -> read_vecs b = Ok (queue b).
Proof.
  intros Hw Hsum. pose proof Hw as ([Hs Hl] & Hf & Hi). unfold read_vecs, ring_buffer_get_vecs.
  pose proof (zlen_queue b ltac:(lia)) as Hq.
  assert (Hp0 : slot_pos b 0 = first b) by (unfold slot_pos; rewrite Z.mod_small; lia).
  destruct (Z.eqb_spec (rb_in b) 0) as [Hz|Hz]; simpl.
  { destruct (queue b); [done|]. zl. }
  rewrite add_int_ok by (destruct Hsum; unfold INT_MIN, INT_MAX in *; lia). cbn [obind].
  assert (Hall : take (Z.to_nat (rb_in b)) (drop (Z.to_nat 0) (queue b)) = queue b).
  { rewrite drop_0. apply take_ge. unfold zlen in Hq. lia. }
  destruct (Z.leb_spec (first b + rb_in b) (size b)).
  - pose proof (read_simple b 0 (rb_in b) Hw) as Hr. rewrite Hp0, Hall in Hr.
    cbn [obind vec_bytes]. rewrite Hr by lia. cbn [obind]. by rewrite app_nil_r.
  - destruct (read_wrapped b 0 (rb_in b)) as (x & y & Ex & Ey & Hx & Hy & Exy); [auto; lia..|].
    rewrite Hp0 in Ex, Ey. cbn [obind vec_bytes]. rewrite Ex. cbn [obind]. rewrite Ey. cbn [obind].
    by rewrite app_nil_r, Exy, Hall.
Qed.

(** ** Refinement *)

Inductive ring_op : Type :=
| OpWrite (data : list Z) (length : Z)
| OpRead (data : list Z) (length : Z)
| OpPeek (offset : Z) (data : list Z) (length : Z)
| OpFlush (length : Z)
| OpVecs
| OpSpace
| OpClear.

Inductive ring_result : Type :=
| RCount (n : Z)
| RData (data : list Z) (n : Z)
| RBytes (bytes : list Z)
| RSpace (readable writable : Z)
| RDone.

Definition ring_step (b : ring_buffer) (op : ring_op) : outcome (ring_buffer * ring_result) :=
  match op with
  | OpWrite data length =>
      s <- ring_buffer_write (fun _ _ => true) b data length;; Ok (s.1, RCount s.2)
  | OpRead data length =>
      s <- ring_buffer_read (fun _ _ => true) b data length;; Ok (s.1.1, RData s.1.2 s.2)
  | OpPeek offset data length =>
      s <- ring_buffer_peek b offset data length;; Ok (b, RData s.1 s.2)
  | OpFlush length => b <- ring_buffer_flush b length;; Ok (b, RDone)
  | OpVecs => bytes <- read_vecs b;; Ok (b, RBytes bytes)
  | OpSpace => Ok (b, RSpace (ring_buffer_readable b) (ring_buffer_writable b))
  | OpClear => Ok (ring_buffer_clear b, RDone)
  end.

Fixpoint ring_run (b : ring_buffer) (ops : list ring_op) : outcome (ring_buffer * list ring_result) :=
  match ops with
  | [] => Ok (b, [])
  | op :: ops =>
      s <- ring_step b op;;
      r <- ring_run s.1 ops;;
      Ok (r.1, s.2 :: r.2)
  end.

(** The specification: a queue of bytes that holds at most [cap] of them. *)
Definition queue_step (cap : Z) (q : list Z) (op : ring_op) : list Z * ring_result :=
  match op with
  | OpWrite data length =>
      let n := Z.min length (cap - zlen q) in (q ++ take (Z.to_nat n) data, RCount n)
  | OpRead data length =>
      let n := Z.min length (zlen q) in
      (drop (Z.to_nat n) q, RData (take (Z.to_nat n) q ++ drop (Z.to_nat n) data) n)
  | OpPeek offset data length =>
      let n := peek_count (zlen q) offset length in
      (q, RData (take (Z.to_nat n) (drop (Z.to_nat offset) q) ++ drop (Z.to_nat n) data) n)
  | OpFlush length => (drop (Z.to_nat (Z.min length (zlen q))) q, RDone)
  | OpVecs => (q, RBytes q)
  | OpSpace => (q, RSpace (zlen q) (cap - zlen q))
  | OpClear => ([], RDone)
  end.

Fixpoint queue_run (cap : Z) (q : list Z) (ops : list ring_op) : list Z * list ring_result :=
  match ops with
  | [] => (q, [])
  | op :: ops =>
      let s := queue_step cap q op in
      let r := queue_run cap s.1 ops in
      (r.1, s.2 :: r.2)
  end.

(** The caller's buffers are as large as the lengths say. *)
Definition op_ok (op : ring_op) : Prop :=
  match op with
  | OpWrite data length | OpRead data length => 0 <= length <= zlen data
  | OpPeek offset data length => 0 <= offset /\ 0 <= length <= zlen data /\ zlen data < 2 ^ 63
  | OpFlush length => 0 <= length
  | OpVecs | OpSpace | OpClear => True
  end.

#[export] Instance op_ok_dec op : Decision (op_ok op).
Proof. destruct op; simpl; apply _. Defined.

(** The operations that add [first] and [in], for a ring in which the sum does
    not fit. *)
Definition overflows (b : ring_buffer) (op : ring_op) : bool :=
  (INT_MAX <? first b + rb_in b)
  && match op with
     | OpWrite _ length => (0 <? length) && (rb_in b <? size b)
     | OpVecs => 0 <? rb_in b
     | _ => false
     end.

Lemma ring_step_ok b op :
  ring_ok b -> op_ok op -> overflows b op = false ->
  exists b', ring_step b op = Ok (b', (queue_step (size b) (queue b) op).2)
    /\ ring_ok b' /\ size b' = size b /\ queue b' = (queue_step (size b) (queue b) op).1.
Proof.
  intros Hw Hop Ho. pose proof Hw as ([Hs Hl] & Hf & Hi). pose proof (zlen_queue b ltac:(lia)) as Hq.
  unfold overflows in Ho.
  destruct op as [data length|data length|offset data length|length| | |]; simpl in *.
  - pose proof (write_spec (fun _ _ => true) b data length false Hw ltac:(lia)) as Hwr.
    cbv zeta in Hwr. apply total_ok in Hwr as ([b' r] & E & Hw' & Hsz & Hcase); [|lia|].
    2: { apply andb_false_iff in Ho as [Ho|Ho]; [|apply andb_false_iff in Ho as [Ho|Ho]]; zbool; lia. }
    destruct Hcase as [[Hr Hq']|(_ & _ & Hu)]; [|done]. simpl in *. subst r.
    exists b'. unfold ring_buffer_write. rewrite E, Hq. done.
  - pose proof (read_spec (fun _ _ => true) b data length false Hw ltac:(lia)) as Hrd.
    cbv zeta in Hrd. apply total_ok in Hrd as ([[b' d] r] & E & Hcase); [|lia].
    destruct Hcase as [(Hr & Hw' & Hsz & Hq' & Hd)|(_ & _ & Hu)]; [|done]. simpl in *. subst r d.
    exists b'. unfold ring_buffer_read. rewrite E, Hq. done.
  - exists b. rewrite (peek_spec b offset data length) by (auto; lia). simpl. rewrite Hq. done.
  - pose proof (flush_spec b length Hw Hop) as Hfl.
    apply total_ok in Hfl as (b' & E & Hw' & Hsz & Hq'). exists b'. rewrite E, Hq. done.
  - exists b. rewrite read_vecs_spec; [done|done|]. apply andb_false_iff in Ho as [Ho|Ho]; zbool; lia.
  - exists b. unfold ring_buffer_readable, ring_buffer_writable. rewrite Hq. done.
  - exists (ring_buffer_clear b). destruct (clear_spec b Hw). done.
Qed.

Lemma ring_step_refines b op :
  wf_ring b -> op_ok op ->
  exists b', ring_step b op = Ok (b', (queue_step (size b) (queue b) op).2)
    /\ wf_ring b' /\ size b' = size b /\ queue b' = (queue_step (size b) (queue b) op).1.
Proof.
  intros Hw Hop. apply wf_ring_ok in Hw as [Hw Hs]. pose proof Hw as (_ & Hf & Hi).
  destruct (ring_step_ok b op Hw Hop) as (b' & E & Hw' & Hsz & Hq).
  { unfold overflows, INT_MAX. by rewrite (proj2 (Z.ltb_ge _ _)) by lia. }
  exists b'. split_and!; try done. apply wf_ring_ok. split; [done|lia].
Qed.

(** C23: the ring is a queue.  Any sequence of writes, reads, peeks, flushes,
    [iovec] requests, clears and questions for space, from any well-formed
    ring, runs without leaving the array and gives the results that a queue of
    bytes of that capacity gives; the contents of the ring stay those of the
    queue. *)
Theorem ring_refines b ops :
  wf_ring b -> Forall op_ok ops ->
  exists b', ring_run b ops = Ok (b', (queue_run (size b) (queue b) ops).2)
    /\ wf_ring b' /\ queue b' = (queue_run (size b) (queue b) ops).1.
Proof.
  intros Hw Hops. revert b Hw. induction Hops as [|op ops Hop _ IH]; intros b Hw; simpl; [by exists b|].
  destruct (ring_step_refines b op Hw Hop) as (b1 & E1 & Hw1 & Hs1 & Hq1).
  destruct (IH b1 Hw1) as (b2 & E2 & Hw2 & Hq2). rewrite Hs1, Hq1 in E2, Hq2.
  exists b2. rewrite E1. simpl. rewrite E2. done.
Qed.

(** A user buffer that cannot be reached.  [ring_buffer_user_read] and
    [ring_buffer_user_write] either move [n] bytes, as the kernel versions do,
    or return [B_BAD_ADDRESS], and then nothing has been taken from the queue
    or added to it, also when the first of two copies succeeded. *)
Theorem ring_user_errors user_memcpy_ok b data length :
  wf_ring b -> 0 <= length <= zlen data ->
  total (fun r => wf_ring r.1.1 /\
        let n := Z.min length (rb_in b) in
        ((r.2 = n /\ queue r.1.1 = drop (Z.to_nat n) (queue b)
            /\ r.1.2 = take (Z.to_nat n) (queue b) ++ drop (Z.to_nat n) data)
         \/ r.2 = B_BAD_ADDRESS /\ queue r.1.1 = queue b))
    (ring_buffer_user_read user_memcpy_ok b data length)
  /\ total (fun r => wf_ring r.1 /\
        let n := Z.min length (size b - rb_in b) in
        (r.2 = n /\ queue r.1 = queue b ++ take (Z.to_nat n) data
         \/ r.2 = B_BAD_ADDRESS /\ queue r.1 = queue b))
    (ring_buffer_user_write user_memcpy_ok b data length).
Proof.
  intros Hw Hlen. pose proof Hw as (_ & Hf & Hi). pose proof (proj1 (wf_ring_ok b) Hw) as [Hok Hs]. split.
  - eapply total_mono; [apply (read_spec user_memcpy_ok b data length true); auto; lia|].
    intros r [(? & ? & Hsz & ? & ?)|(? & E & _)]; (split; [apply wf_ring_ok|]).
    + split; [done|lia].
    + by left.
    + by rewrite E.
    + right. by rewrite E.
  - eapply total_mono; [apply (write_spec user_memcpy_ok b data length true); auto; try lia; right; unfold INT_MAX; lia|].
    intros r (? & Hsz & H); (split; [apply wf_ring_ok; split; [done|lia]|]). destruct H as [?|(? & ? & _)]; auto.
Qed.

(** *** Creation *)

(** A ring can be laid over memory that holds one already: with
    [RING_BUFFER_INIT_FROM_BUFFER] the bytes of a ring of that size are found
    again, and without the flag, or over anything else, the ring is empty. *)
Theorem create_ring_buffer_at_correct old flags :
  wf_ring old ->
  create_ring_buffer_at old (size old + sizeof_ring_buffer) flags
  = if Z.land flags RING_BUFFER_INIT_FROM_BUFFER =? 0 then ring_buffer_clear old else old.
Proof.
  intros ([Hs Hl] & Hf & Hi). unfold create_ring_buffer_at, sizeof_ring_buffer, u64, i32.
  replace (size old + 12 - 12) with (size old) by lia.
  rewrite !(uwrap_id 64 (size old)) by lia. rewrite swrap_id by lia. cbn [size rb_in first].
  rewrite (uwrap_id 64 (size old)) by lia. rewrite Z.eqb_refl. destruct old; simpl in *.
  destruct (Z.eqb_spec (Z.land flags RING_BUFFER_INIT_FROM_BUFFER) 0); [done|]. by bdecide.
Qed.

(** The size the old ring had is overwritten before it is compared: a ring of
    any size is taken for one of the new size. *)
Theorem create_ring_buffer_at_any_size old n :
  0 < n <= 2 ^ 30 -> 0 <= first old < n -> 0 <= rb_in old <= n ->
  create_ring_buffer_at old (n + sizeof_ring_buffer) RING_BUFFER_INIT_FROM_BUFFER
  = {| first := first old; rb_in := rb_in old; size := n; buffer := buffer old |}.
Proof.
  intros Hn Hf Hi. unfold create_ring_buffer_at, sizeof_ring_buffer, u64, i32.
  replace (n + 12 - 12) with n by lia. rewrite !(uwrap_id 64 n) by lia. rewrite swrap_id by lia.
  cbn [size rb_in first]. rewrite (uwrap_id 64 n) by lia. rewrite Z.eqb_refl. by bdecide.
Qed.

(** A new ring from [malloc]: empty, or NULL. *)
Theorem create_ring_buffer_new_correct m n :
  0 < n <= 2 ^ 30 -> zlen m = n ->
  exists b, create_ring_buffer_new (Some m) n = Some b /\ wf_ring b /\ queue b = [].
Proof.
  intros Hn Hm. eexists. split; [reflexivity|]. unfold i32. rewrite swrap_id by lia.
  split; [unfold wf_ring; simpl; lia|done].
Qed.

(** ** Bounds *)

(** C40: how large a ring may be.  In a ring of up to 2^31 - 1 bytes, wherever
    its contents lie, an operation of C23 is undefined exactly when it is a
    write of some bytes into a ring that has room, or a request for the
    [iovec]s of a ring that is not empty, and [first + in] is more than an
    [int32_t] holds; otherwise it leaves the array nowhere, gives the result
    that the queue gives and leaves the contents of the queue.  The sum fits
    whenever the ring has at most 2^30 bytes. *)
Theorem ring_sum_overflow b op :
  ring_ok b -> op_ok op ->
  (if overflows b op then ring_step b op = Fault
   else exists b', ring_step b op = Ok (b', (queue_step (size b) (queue b) op).2)
          /\ ring_ok b' /\ size b' = size b /\ queue b' = (queue_step (size b) (queue b) op).1)
  /\ (size b <= 2 ^ 30 -> overflows b op = false).
Proof.
  intros Hw Hop. pose proof Hw as ([Hs Hl] & Hf & Hi). split.
  - destruct (overflows b op) eqn:Ho; [|by apply ring_step_ok]. unfold overflows in Ho.
    apply andb_true_iff in Ho as [Hsum Ho]. zbool. destruct op as [data length| | | | | |]; try done; simpl.
    + apply andb_true_iff in Ho as [Hlen Hroom]. zbool.
      unfold ring_buffer_write, write_to_buffer, space_left_in_buffer.
      set (n := if size b - rb_in b <? length then size b - rb_in b else length).
      assert (n <> 0) by (unfold n; destruct (Z.ltb_spec (size b - rb_in b) length); lia).
      rewrite (proj2 (Z.eqb_neq n 0)) by done. by rewrite add_int_over by lia.
    + zbool. unfold read_vecs, ring_buffer_get_vecs. rewrite (proj2 (Z.eqb_neq _ 0)) by lia.
      by rewrite add_int_over by lia.
  - intros Hsz. unfold overflows, INT_MAX. by rewrite (proj2 (Z.ltb_ge _ _)) by lia.
Qed.

(** ** Examples *)

(** Eight bytes, with the queue around the end of the array. *)
Definition ring8 : ring_buffer :=
  {| first := 6; rb_in := 4; size := 8; buffer := [3; 4; 0; 0; 0; 0; 1; 2] |}.

Definition ring8_ops : list ring_op :=
  [ OpVecs; OpWrite [5; 6; 7; 8; 9] 5; OpPeek 3 [0; 0; 0] 3; OpRead [0; 0; 0; 0; 0; 0] 6; OpSpace;
    OpFlush 1; OpClear; OpVecs ].

Lemma ring_refines_witness :
  ring_run ring8 ring8_ops = Ok (Ring 0 0 8 [3; 4; 5; 6; 7; 8; 1; 2],
    [ RBytes [1; 2; 3; 4]; RCount 4; RData [4; 5; 6] 3; RData [1; 2; 3; 4; 5; 6] 6; RSpace 2 6;
      RDone; RDone; RBytes [] ])
  /\ exists b', ring_run ring8 ring8_ops = Ok (b', (queue_run 8 (queue ring8) ring8_ops).2)
    /\ wf_ring b' /\ queue b' = (queue_run 8 (queue ring8) ring8_ops).1.
Proof.
  split; [reflexivity|]. apply (ring_refines ring8 ring8_ops).
  - apply (bool_decide_eq_true_1 (wf_ring ring8)). reflexivity.
  - apply (bool_decide_eq_true_1 (Forall op_ok ring8_ops)). reflexivity.
Defined.

(** The second piece of the user's buffer is out of reach. *)
Lemma ring_user_errors_witness :
  ring_buffer_user_read (fun off _ => off =? 0) ring8 [0; 0; 0] 3
    = Ok (ring8, [1; 2; 0], B_BAD_ADDRESS)
  /\ total (fun r => wf_ring r.1 /\
        let n := Z.min 3 (size ring8 - rb_in ring8) in
        (r.2 = n /\ queue r.1 = queue ring8 ++ take (Z.to_nat n) [7; 8; 9]
         \/ r.2 = B_BAD_ADDRESS /\ queue r.1 = queue ring8))
    (ring_buffer_user_write (fun off _ => off =? 0) ring8 [7; 8; 9] 3).
Proof.
  split; [reflexivity|]. apply (ring_user_errors (fun off _ => off =? 0) ring8 [7; 8; 9] 3).
  - apply (bool_decide_eq_true_1 (wf_ring ring8)). reflexivity.
  - split; vm_compute; discriminate.
Defined.

Lemma create_ring_buffer_at_correct_witness :
  create_ring_buffer_at ring8 (8 + sizeof_ring_buffer) RING_BUFFER_INIT_FROM_BUFFER = ring8
  /\ queue ring8 = [1; 2; 3; 4].
Proof.
  split; [|reflexivity].
  apply (create_ring_buffer_at_correct ring8 RING_BUFFER_INIT_FROM_BUFFER).
  apply (bool_decide_eq_true_1 (wf_ring ring8)). reflexivity.
Defined.

(** A ring of one and a half gigabytes, half of it read already. *)
Definition huge : ring_buffer :=
  {| first := 1610612736; rb_in := 1610612735; size := 1610612737;
     buffer := replicate (Z.to_nat 1610612737) 0 |}.

Lemma ring_sum_overflow_witness :
  ring_step huge (OpWrite [1] 1) = Fault
  /\ (size ring8 <= 2 ^ 30 -> overflows ring8 (OpWrite [7; 8; 9] 2) = false)
  /\ ring_step ring8 (OpWrite [7; 8; 9] 2) = Ok (Ring 6 6 8 [3; 4; 7; 8; 0; 0; 1; 2], RCount 2).
Proof.
  split; [|split; [|reflexivity]].
  - apply (ring_sum_overflow huge (OpWrite [1] 1)).
    + unfold ring_ok. cbn [huge size first rb_in buffer]. unfold INT_MAX, zlen. rewrite length_replicate. lia.
    + apply (bool_decide_eq_true_1 (op_ok (OpWrite [1] 1))). reflexivity.
  - apply (ring_sum_overflow ring8 (OpWrite [7; 8; 9] 2)).
    + apply (bool_decide_eq_true_1 (ring_ok ring8)). reflexivity.
    + apply (bool_decide_eq_true_1 (op_ok (OpWrite [7; 8; 9] 2))). reflexivity.
Defined.
