(* ===== verification/BList.v ===== *)
(** The list of the support kit, [BList] (kits/support/List.cpp): an array of
    pointers that [_Resize] grows and shrinks with [realloc] on every change.

    The model has a heap of blocks, so that a pointer that [realloc] has made
    stale is an access to a block that is not there, a [Fault].  This file has
    the operations, the form a list has in memory, [holds], and what [_Resize]
    does to it; BListOps.v has the theorems about the operations.  They are
    about lists with no minimum count, [BList(0)]; where the code goes on with
    an address that [realloc] may have made stale, they say so. *)

From Stdlib Require Import ZArith Lia List Bool.
From stdpp Require Import base tactics list numbers gmap.
From S2P Require Import Prelude.
Local Open Scope Z_scope.
Local Open Scope c_scope.

(** ** The heap

    A block is a list of pointers, [None] where nothing has been stored since
    it was allocated; a pointer to its start is a positive number. *)

Notation heap := (gmap Z (list (option Z))).

Definition NULL : Z := 0.

(** What [realloc] answers to a request for [n] pointers: the new address of
    the block, or [None] when it fails. *)
Class Realloc := { realloc_at : heap -> Z -> Z -> option Z }.

(** Its specification: the block is at an address that nobody uses. *)
Class ReallocOk `{Realloc} : Prop := {
  realloc_fresh h p n q : realloc_at h p n = Some q -> q <> NULL /\ (q = p \/ h !! q = None);
}.

(** What the C standard does not promise: a block that need not grow stays
    where it is. *)
Class ReallocStays `{Realloc} : Prop := {
  realloc_in_place h p n q b :
    realloc_at h p n = Some q -> p <> NULL -> h !! p = Some b -> n <= zlen b -> q = p;
}.

Section Memory.
Context `{Realloc}.

Definition block (h : heap) (p : Z) : outcome (list (option Z)) :=
  match h !! p with Some b => Ok b | None => Fault end.

(** The contents of a block that has been given [n] entries. *)
Definition resized (b : list (option Z)) (n : Z) : list (option Z) :=
  take (Z.to_nat n) b ++ replicate (Z.to_nat n - length b) None.

(** [realloc(p, n * sizeof(void * ))]; a negative [n] is a huge size. *)
Definition realloc (h : heap) (p n : Z) : outcome (heap * Z) :=
  old <- (if p =? NULL then Ok [] else block h p);;
  if n <? 0 then Ok (h, NULL)
  else
    match realloc_at h p n with
    | None => Ok (h, NULL)
    | Some q => Ok (<[q := resized old n]> (delete p h), q)
    end.

Definition free (h : heap) (p : Z) : outcome heap :=
  if p =? NULL then Ok h else _ <- block h p;; Ok (delete p h).

Definition load (h : heap) (p i : Z) : outcome Z :=
  b <- block h p;;
  c <- rd b i;;
  match c with Some v => Ok v | None => Fault end.

Definition store (h : heap) (p i v : Z) : outcome heap :=
  b <- block h p;;
  b <- wr b i (Some v);;
  Ok (<[p := b]> h).

(** [bzero(p + i, n * sizeof(void * ))] *)
Definition bzero (h : heap) (p i n : Z) : outcome heap :=
  if n <? 0 then Fault
  else
    b <- block h p;;
    b <- wrn b i (replicate (Z.to_nat n) (Some NULL));;
    Ok (<[p := b]> h).

(** [memmove(p + i, q + j, n * sizeof(void * ))] *)
Definition memmove (h : heap) (p i q j n : Z) : outcome heap :=
  c <- block h q;;
  x <- rdn c j n;;
  b <- block h p;;
  b <- wrn b i x;;
  Ok (<[p := b]> h).

(** [memcpy(p + i, q + j, n * sizeof(void * ))], undefined when the two overlap. *)
Definition memcpy (h : heap) (p i q j n : Z) : outcome heap :=
  if (p =? q) && (j <? i + n) && (i <? j + n) then Fault else memmove h p i q j n.

(** ** The list *)

Record blist : Type := BList {
  fObjects : Z;
  fItemCount : Z;
  fItemReal : Z;
  fMinimumCount : Z;
}.

Definition B_MAXINT32 : Z := 2147483647.
Definition MAX_LIST_COUNT : Z := B_MAXINT32 - 1.

Definition set_objects (l : blist) (p real : Z) : blist :=
  {| fObjects := p; fItemCount := fItemCount l; fItemReal := real; fMinimumCount := fMinimumCount l |}.

Definition set_count (l : blist) (n : Z) : blist :=
  {| fObjects := fObjects l; fItemCount := n; fItemReal := fItemReal l;
     fMinimumCount := fMinimumCount l |}.

Definition set_minimum (l : blist) (n : Z) : blist :=
  {| fObjects := fObjects l; fItemCount := 0; fItemReal := fItemReal l; fMinimumCount := n |}.

(** [_Resize(count)] for [count <= 0]. *)
Definition resize_empty (h : heap) (l : blist) : outcome (heap * blist * bool) :=
  s <- (if 0 <? fMinimumCount l then
          s <- realloc h (fObjects l) (fMinimumCount l + 1);;
          if negb (s.2 =? NULL) then Ok (s.1, set_objects l s.2 (fMinimumCount l + 1))
          else Ok (s.1, l)
        else
          h <- free h (fObjects l);;
          Ok (h, set_objects l NULL 0));;
  let '(h, l) := s in
  let l := set_count l 0 in
  h <- (if negb (fObjects l =? NULL) then bzero h (fObjects l) 0 1 else Ok h);;
  Ok (h, l, true).

Definition _Resize (h : heap) (l : blist) (count : Z) : outcome (heap * blist * bool) :=
  s <- realloc h (fObjects l) (count + 1);;
  let '(h, newObjects) := s in
  if count <=? 0 then resize_empty h l
  else if MAX_LIST_COUNT <? count then Ok (h, l, false)
  else if (count <=? fMinimumCount l) || (count + 1 =? fItemReal l) then
    let l := set_count l count in
    h <- bzero h (fObjects l) count 1;;
    Ok (h, l, true)
  else if newObjects =? NULL then
    if count + 1 <? fItemReal l then
      h <- bzero h (fObjects l) count (fItemReal l - count);;
      Ok (h, set_count l count, true)
    else Ok (h, l, false)
  else
    h <- (if fItemReal l <? count + 1
          then bzero h newObjects (fItemReal l) (count + 1 - fItemReal l)
          else bzero h newObjects count 1);;
    Ok (h, set_count (set_objects l newObjects (count + 1)) count, true).

Definition blist0 : blist :=
  {| fObjects := NULL; fItemCount := 0; fItemReal := 0; fMinimumCount := 0 |}.

(** [BList(initialAllocSize)] *)
Definition BList_new (h : heap) (initialAllocSize : Z) : outcome (heap * blist) :=
  if (0 <? initialAllocSize) && (initialAllocSize <=? MAX_LIST_COUNT) then
    s <- _Resize h blist0 initialAllocSize;;
    let '(h, l, ok) := s in
    if ok then Ok (h, set_minimum l initialAllocSize) else Ok (h, l)
  else Ok (h, blist0).

(** [BList(initialAllocSize, nullItems)] *)
Definition BList_new_null (h : heap) (initialAllocSize nullItems : Z) : outcome (heap * blist) :=
  s <- BList_new h initialAllocSize;;
  let '(h, l) := s in
  if (0 <? nullItems) && (nullItems <=? MAX_LIST_COUNT) then
    s <- _Resize h l nullItems;; Ok s.1
  else Ok (h, l).

Definition BList_delete (h : heap) (l : blist) : outcome heap := free h (fObjects l).

Definition AddItem (h : heap) (l : blist) (item : Z) : outcome (heap * blist * bool) :=
  if MAX_LIST_COUNT <=? fItemCount l then Ok (h, l, false)
  else
    s <- _Resize h l (fItemCount l + 1);;
    let '(h, l, ok) := s in
    if negb ok then Ok (h, l, false)
    else
      h <- store h (fObjects l) (fItemCount l - 1) item;;
      Ok (h, l, true).

Definition AddItem_at (h : heap) (l : blist) (item atIndex : Z) : outcome (heap * blist * bool) :=
  if (atIndex <? 0) || (fItemCount l <? atIndex) then Ok (h, l, false)
  else if atIndex =? fItemCount l then AddItem h l item
  else if MAX_LIST_COUNT <=? fItemCount l then Ok (h, l, false)
  else
    s <- _Resize h l (fItemCount l + 1);;
    let '(h, l, ok) := s in
    if negb ok then Ok (h, l, false)
    else
      h <- memmove h (fObjects l) (atIndex + 1) (fObjects l) atIndex (fItemCount l - (atIndex + 1));;
      h <- store h (fObjects l) atIndex item;;
      Ok (h, l, true).

(** [AddList(newItems)]: [None] when [newItems] is the list itself, whose
    count is then read again after it has been resized. *)
Definition AddList (h : heap) (l : blist) (other : option blist) : outcome (heap * blist * bool) :=
  let items l := match other with Some o => o | None => l end in
  let newData := fObjects (items l) in
  if fItemCount (items l) =? 0 then Ok (h, l, false)
  else if MAX_LIST_COUNT - fItemCount l <? fItemCount (items l) then Ok (h, l, false)
  else
    s <- _Resize h l (fItemCount l + fItemCount (items l));;
    let '(h, l, ok) := s in
    if negb ok then Ok (h, l, false)
    else
      h <- memcpy h (fObjects l) (fItemCount l - fItemCount (items l)) newData 0
             (fItemCount (items l));;
      Ok (h, l, true).

(** [AddList(newItems, atIndex)].  The buffer comes from [malloc] and goes to
    [delete], which the model takes for [free]. *)
Definition AddList_at (h : heap) (l other : blist) (atIndex : Z) : outcome (heap * blist * bool) :=
  let n := fItemCount l - atIndex in
  assert_int n;;;
  assert_int (n + fItemCount other);;;
  s <- realloc h NULL (n + fItemCount other);;
  let '(h, newObjects) := s in
  if (fItemCount l =? 0) && (atIndex =? 0) then AddList h l (Some other)
  else if (atIndex <? 0) || (fItemCount l <=? atIndex) then Ok (h, l, false)
  else if fItemCount other =? 0 then Ok (h, l, false)
  else if MAX_LIST_COUNT - fItemCount l <? fItemCount other then Ok (h, l, false)
  else
    s <- _Resize h l (fItemCount l + fItemCount other);;
    let '(h, l, ok) := s in
    if negb ok then Ok (h, l, false)
    else if newObjects =? NULL then Ok (h, set_count l (fItemCount l - fItemCount other), false)
    else
      h <- memcpy h newObjects 0 (fObjects other) 0 (fItemCount other);;
      h <- memcpy h newObjects (fItemCount other) (fObjects l) atIndex (fItemCount l - atIndex);;
      h <- memcpy h (fObjects l) atIndex newObjects 0 (fItemCount l - atIndex + fItemCount other);;
      h <- free h newObjects;;
      Ok (h, l, true).

Definition BList_assign (h : heap) (l from : blist) : outcome (heap * blist) :=
  h <- free h (fObjects l);;
  s <- BList_new h (fMinimumCount from);;
  let '(h, l) := s in
  s <- AddList h l (Some from);;
  Ok s.1.

Definition RemoveItem_at (h : heap) (l : blist) (index : Z) : outcome (heap * blist * Z) :=
  data <- load h (fObjects l) index;;
  if (index <? 0) || (fItemCount l <=? index) then Ok (h, l, NULL)
  else
    h <- (if index <? fItemCount l - 1
          then memmove h (fObjects l) index (fObjects l) (index + 1) (fItemCount l - index - 1)
          else Ok h);;
    s <- _Resize h l (fItemCount l - 1);;
    let '(h, l, ok) := s in
    if negb ok then
      let l := set_count l (fItemCount l - 1) in
      h <- bzero h (fObjects l) (fItemCount l) 1;;
      Ok (h, l, data)
    else Ok (h, l, data).

(** The loop of [IndexOf]. *)
Fixpoint index_loop (h : heap) (p item i : Z) (n : nat) : outcome Z :=
  match n with
  | O => Ok (-1)
  | S n =>
      v <- load h p i;;
      if v =? item then Ok i else index_loop h p item (i + 1) n
  end.

Definition IndexOf (h : heap) (l : blist) (item : Z) : outcome Z :=
  index_loop h (fObjects l) item 0 (Z.to_nat (fItemCount l)).

Definition RemoveItem (h : heap) (l : blist) (item : Z) : outcome (heap * blist * bool) :=
  if item =? NULL then Ok (h, l, false)
  else
    i <- IndexOf h l item;;
    s <- RemoveItem_at h l i;;
    Ok (s.1, negb (s.2 =? NULL)).

Definition RemoveItems (h : heap) (l : blist) (index count : Z) : outcome (heap * blist * bool) :=
  if (index <? 0) || (fItemCount l <=? index) then Ok (h, l, false)
  else
    let count := if count <? 0 then fItemCount l - index else Z.min (fItemCount l - index) count in
    if count =? 0 then Ok (h, l, true)
    else
      h <- (if (index <? fItemCount l - 1) && negb (count =? fItemCount l - index)
            then memmove h (fObjects l) index (fObjects l) (index + count) (fItemCount l - index - count)
            else Ok h);;
      s <- _Resize h l (fItemCount l - count);;
      let '(h, l, ok) := s in
      if negb ok then
        let l := set_count l (fItemCount l - count) in
        h <- bzero h (fObjects l) (fItemCount l) (fItemReal l - fItemCount l);;
        Ok (h, l, true)
      else Ok (h, l, true).

(** The old item is stored when [oldItem] is given; it is returned here. *)
Definition ReplaceItem (h : heap) (l : blist) (index newItem : Z) (oldItem : bool)
    : outcome (heap * blist * (bool * option Z)) :=
  if (index <? 0) || (fItemCount l <=? index) then Ok (h, l, (false, None))
  else
    old <- (if oldItem then v <- load h (fObjects l) index;; Ok (Some v) else Ok None);;
    h <- store h (fObjects l) index newItem;;
    Ok (h, l, (true, old)).

Definition MakeEmpty (h : heap) (l : blist) : outcome (heap * blist) :=
  s <- _Resize h l 0;; Ok s.1.

Definition SwapItems (h : heap) (l : blist) (indexA indexB : Z) : outcome (heap * blist * bool) :=
  dataA <- load h (fObjects l) indexA;;
  if (indexA <? 0) || (fItemCount l <=? indexA) || (indexB <? 0) || (fItemCount l <=? indexB)
  then Ok (h, l, false)
  else
    v <- load h (fObjects l) indexB;;
    h <- store h (fObjects l) indexA v;;
    h <- store h (fObjects l) indexB dataA;;
    Ok (h, l, true).

Definition MoveItem (h : heap) (l : blist) (fromIndex toIndex : Z) : outcome (heap * blist * bool) :=
  fromData <- load h (fObjects l) fromIndex;;
  if (fromIndex <? 0) || (fItemCount l <=? fromIndex) || (toIndex <? 0) || (fItemCount l <=? toIndex)
  then Ok (h, l, false)
  else if fromIndex =? toIndex then Ok (h, l, true)
  else
    h <- (if fromIndex <? toIndex
          then memmove h (fObjects l) fromIndex (fObjects l) (fromIndex + 1) (toIndex - fromIndex)
          else memmove h (fObjects l) (toIndex + 1) (fObjects l) toIndex (fromIndex - toIndex));;
    h <- store h (fObjects l) toIndex fromData;;
    Ok (h, l, true).

Definition ItemAt (h : heap) (l : blist) (index : Z) : outcome Z :=
  if (index <? 0) || (fItemCount l <=? index) then Ok NULL else load h (fObjects l) index.

Definition FirstItem (h : heap) (l : blist) : outcome Z :=
  if 0 <? fItemCount l then load h (fObjects l) 0 else Ok NULL.

Definition LastItem (h : heap) (l : blist) : outcome Z :=
  if 0 <? fItemCount l then load h (fObjects l) (fItemCount l - 1) else Ok NULL.

Definition HasItem (h : heap) (l : blist) (item : Z) : outcome bool :=
  if item =? NULL then Ok false else i <- IndexOf h l item;; Ok (0 <=? i).

Definition CountItems (l : blist) : Z := fItemCount l.
Definition IsEmpty (l : blist) : bool := fItemCount l =? 0.

(** [DoForEach]: the items it calls [func] on, up to the one for which it
    returns true. *)
Fixpoint foreach_loop (h : heap) (p : Z) (func : Z -> bool) (i : Z) (n : nat) : outcome (list Z) :=
  match n with
  | O => Ok []
  | S n =>
      v <- load h p i;;
      if func v then Ok [v] else vs <- foreach_loop h p func (i + 1) n;; Ok (v :: vs)
  end.

Definition DoForEach (h : heap) (l : blist) (func : option (Z -> bool)) : outcome (list Z) :=
  match func with
  | None => Ok []
  | Some f => foreach_loop h (fObjects l) f 0 (Z.to_nat (fItemCount l))
  end.

End Memory.

(** ** A list in memory

    [holds h l xs]: the list with no minimum count whose items are [xs].  Its
    block has at least one more entry than there are items, and the entries
    behind the items are null, so that the array ends with a null pointer.  An
    empty list may have no block. *)

Definition cells (xs : list Z) (k : nat) : list (option Z) := map Some (xs ++ replicate (S k) NULL).

Definition holds (h : heap) (l : blist) (xs : list Z) : Prop :=
  fMinimumCount l = 0 /\ fItemCount l = zlen xs /\ zlen xs <= MAX_LIST_COUNT
  /\ ((fObjects l = NULL /\ xs = [] /\ fItemReal l = 0)
      \/ fObjects l <> NULL
         /\ exists k, h !! fObjects l = Some (cells xs k) /\ fItemReal l = zlen xs + Z.of_nat (S k)).

(** The other blocks are as they were, and are not the list's. *)
Definition frame (h : heap) (l : blist) (h' : heap) (l' : blist) : Prop :=
  forall p b, h !! p = Some b -> p <> NULL -> p <> fObjects l -> h' !! p = Some b /\ p <> fObjects l'.

(** [memmove] inside one sequence. *)
Definition shifted (xs : list Z) (i j n : nat) : list Z :=
  take i xs ++ take n (drop j xs) ++ drop (i + n) xs.

(** *** Cells *)

Lemma zlen_cells xs k : zlen (cells xs k) = zlen xs + Z.of_nat (S k).
Proof. unfold cells, zlen. rewrite length_map, length_app, length_replicate. lia. Qed.

Lemma take_padded xs n c :
  (c <= length xs + n)%nat -> take c (xs ++ replicate n NULL) = resize c NULL xs.
Proof.
  intros Hc. destruct (Nat.le_gt_cases c (length xs)).
  - by rewrite take_app_le, resize_le.
  - rewrite take_app_ge by lia. rewrite resize_ge by lia. rewrite take_replicate. do 2 f_equal. lia.
Qed.

Lemma resize_padded xs n c :
  (length xs + n <= c)%nat ->
  (xs ++ replicate n NULL) ++ replicate (c - (length xs + n)) NULL = resize c NULL xs.
Proof.
  intros Hc. rewrite resize_ge by lia. rewrite <- app_assoc, <- replicate_add. do 2 f_equal. lia.
Qed.

Lemma resize_next ys c : resize (S c) NULL ys = resize c NULL ys ++ [default NULL (ys !! c)].
Proof.
  revert c. induction ys as [|y ys IH]; intros c.
  - rewrite !resize_nil, replicate_S_end. done.
  - destruct c; simpl; [by rewrite resize_0|]. f_equal. apply IH.
Qed.

Lemma wrn_snoc {A} (l : list A) x y i : i = zlen l -> wrn (l ++ [x]) i [y] = Ok (l ++ [y]).
Proof. intros ->. apply (wrn_mid l [x] [y] []); done. Qed.

Lemma wrn_tail {A} (l x y : list A) i :
  i = zlen l -> length x = length y -> wrn (l ++ x) i y = Ok (l ++ y).
Proof. intros. pose proof (wrn_mid l x y [] i) as E. rewrite !app_nil_r in E. auto. Qed.

Lemma map_replicate_NULL n : map Some (replicate n NULL) = replicate n (Some NULL).
Proof. by induction n; simpl; f_equal. Qed.

(** A block that shrinks to [c + 1] entries, or stays, and gets a null at [c]. *)
Lemma cells_shrink xs k c :
  (c <= length xs + k)%nat ->
  wrn (resized (cells xs k) (Z.of_nat c + 1)) (Z.of_nat c) [Some NULL]
  = Ok (cells (resize c NULL xs) 0).
Proof.
  intros Hc. unfold resized, cells. rewrite length_map, length_app, length_replicate.
  replace (Z.to_nat (Z.of_nat c + 1)) with (S c) by lia.
  replace (S c - (length xs + S k))%nat with O by lia. rewrite app_nil_r.
  rewrite <- fmap_take. rewrite take_padded by lia. rewrite resize_next, !map_app.
  apply wrn_snoc. unfold zlen. by rewrite length_map, length_resize.
Qed.

(** One that grows, the new entries null. *)
Lemma cells_grow xs k c :
  (length xs + k < c)%nat ->
  wrn (resized (cells xs k) (Z.of_nat c + 1)) (zlen xs + Z.of_nat (S k))
    (replicate (Z.to_nat (Z.of_nat c + 1 - (zlen xs + Z.of_nat (S k)))) (Some NULL))
  = Ok (cells (resize c NULL xs) 0).
Proof.
  intros Hc. unfold resized. rewrite take_ge by (unfold cells; rewrite length_map, length_app, length_replicate; lia).
  rewrite wrn_tail.
  - f_equal. unfold cells.
    rewrite <- map_replicate_NULL, <- map_app. f_equal.
    replace (Z.to_nat (Z.of_nat c + 1 - (zlen xs + Z.of_nat (S k))))
      with (S c - (length xs + S k))%nat by (unfold zlen; lia).
    rewrite resize_padded by lia. rewrite resize_next, lookup_ge_None_2 by lia. done.
  - by rewrite zlen_cells.
  - rewrite !length_replicate. unfold cells. rewrite length_map, length_app, length_replicate.
    unfold zlen. lia.
Qed.

(** One that should shrink and could not: the entries from [c] on become null. *)
Lemma cells_clear xs k c :
  (c < length xs + k)%nat ->
  wrn (cells xs k) (Z.of_nat c)
    (replicate (Z.to_nat (zlen xs + Z.of_nat (S k) - Z.of_nat c)) (Some NULL))
  = Ok (cells (resize c NULL xs) (length xs + k - c)).
Proof.
  intros Hc. unfold cells at 1.
  rewrite <- (take_drop c (xs ++ replicate (S k) NULL)), map_app, take_padded by lia.
  rewrite wrn_tail.
  - unfold cells. rewrite map_app, map_replicate_NULL. do 3 f_equal. unfold zlen. lia.
  - unfold zlen. by rewrite length_map, length_resize.
  - rewrite length_map, length_drop, length_app, !length_replicate. unfold zlen. lia.
Qed.

(** *** The heap *)

Lemma frame_refl h l : frame h l h l.
Proof. by intros p b Hb Hn Hp. Qed.

Lemma frame_trans h l h1 l1 h2 l2 :
  frame h l h1 l1 -> frame h1 l1 h2 l2 -> frame h l h2 l2.
Proof. intros H1 H2 p b Hb Hn Hp. destruct (H1 p b Hb Hn Hp). by apply H2. Qed.

Lemma frame_set h l b l' :
  fObjects l' = fObjects l -> frame h l (<[fObjects l := b]> h) l'.
Proof. intros E p b' Hb Hn Hp. rewrite E, lookup_insert_ne by done. done. Qed.

Lemma holds_empty h l : fMinimumCount l = 0 -> holds h (set_count (set_objects l NULL 0) 0) [].
Proof. intros Hm. unfold holds; simpl. rewrite Hm. split; [done|]. split; [done|]. split; [done|]. by left. Qed.

Lemma holds_count h l xs : holds h l xs -> fItemCount l = zlen xs.
Proof. by intros (_ & ? & _). Qed.

Lemma holds_block h l xs :
  holds h l xs -> xs <> [] ->
  exists k, h !! fObjects l = Some (cells xs k) /\ fItemReal l = zlen xs + Z.of_nat (S k).
Proof. intros (_ & _ & _ & [(_ & -> & _)|(_ & H)]) Hx; [done|exact H]. Qed.

(** The block of a list, with its entries replaced. *)
Lemma holds_set h l xs ys k :
  holds h l xs -> xs <> [] -> length ys = length xs -> fItemReal l = zlen xs + Z.of_nat (S k) ->
  holds (<[fObjects l := cells ys k]> h) l ys.
Proof.
  intros (Hm & Hc & Hmax & Hb) Hx Hl Hr. unfold holds. rewrite lookup_insert_eq.
  replace (zlen ys) with (zlen xs) by (unfold zlen; lia).
  split; [done|]. split; [done|]. split; [done|]. right.
  destruct Hb as [(_ & -> & _)|(Hn & _)]; [done|]. split; [done|]. by exists k.
Qed.

Lemma cells_lookup xs k i : (i < length xs)%nat -> cells xs k !! i = Some <$> (xs !! i).
Proof. intros Hi. unfold cells. by rewrite list_lookup_fmap, lookup_app_l by done. Qed.

Lemma holds_load h l xs i x :
  holds h l xs -> 0 <= i -> xs !! Z.to_nat i = Some x -> load h (fObjects l) i = Ok x.
Proof.
  intros Hh Hi Hx. destruct (holds_block _ _ _ Hh) as (k & Hb & _); [by intros ->|].
  unfold load, block. rewrite Hb. simpl. unfold rd. bdecide.
  rewrite cells_lookup by (eapply lookup_lt_Some; eauto). by rewrite Hx.
Qed.

Lemma cells_insert xs k i v :
  (i < length xs)%nat -> <[i := Some v]> (cells xs k) = cells (<[i := v]> xs) k.
Proof. intros Hi. unfold cells. rewrite <- insert_app_l, <- list_fmap_insert by done. done. Qed.

Lemma holds_store h l xs i v :
  holds h l xs -> 0 <= i < zlen xs ->
  exists h', store h (fObjects l) i v = Ok h' /\ holds h' l (<[Z.to_nat i := v]> xs) /\ frame h l h' l.
Proof.
  intros Hh Hi. assert (Hx : xs <> []) by (intros ->; zl).
  destruct (holds_block _ _ _ Hh Hx) as (k & Hb & Hr).
  unfold store, block. rewrite Hb. simpl. rewrite wr_ok by (rewrite zlen_cells; lia). simpl.
  rewrite cells_insert by (unfold zlen in Hi; lia). eexists. split; [done|].
  split; [|by apply frame_set]. eapply holds_set; eauto. by rewrite length_insert.
Qed.

(** Copies of [n] entries into the items. *)
Lemma wrn_cells xs k i zs :
  0 <= i -> i + zlen zs <= zlen xs ->
  wrn (cells xs k) i (map Some zs)
  = Ok (cells (take (Z.to_nat i) xs ++ zs ++ drop (Z.to_nat i + length zs) xs) k).
Proof.
  intros Hi Hn. unfold wrn. rewrite zlen_cells, zlen_map. bdecide. simpl. f_equal.
  unfold cells, zlen in *. rewrite length_map, <- fmap_take, <- fmap_drop.
  rewrite take_app_le, drop_app_le by lia. rewrite <- !map_app, <- !app_assoc. done.
Qed.

Lemma rdn_cells xs k i n :
  0 <= i -> 0 <= n -> i + n <= zlen xs ->
  rdn (cells xs k) i n = Ok (map Some (take (Z.to_nat n) (drop (Z.to_nat i) xs))).
Proof.
  intros Hi Hn Hx. unfold rdn. rewrite zlen_cells. bdecide. simpl. f_equal.
  unfold cells, zlen in *. rewrite <- fmap_drop, <- fmap_take. f_equal.
  rewrite drop_app_le by lia. rewrite take_app_le; [done|]. rewrite length_drop. lia.
Qed.

Lemma holds_memmove h l xs i j n :
  holds h l xs -> xs <> [] -> 0 <= i -> 0 <= j -> 0 <= n -> i + n <= zlen xs -> j + n <= zlen xs ->
  exists h', memmove h (fObjects l) i (fObjects l) j n = Ok h'
    /\ holds h' l (shifted xs (Z.to_nat i) (Z.to_nat j) (Z.to_nat n)) /\ frame h l h' l.
Proof.
  intros Hh Hx Hi Hj Hn Hin Hjn. destruct (holds_block _ _ _ Hh Hx) as (k & Hb & Hr).
  unfold memmove, block. rewrite Hb. simpl. rewrite rdn_cells by done. simpl.
  assert (Hlen : length (take (Z.to_nat n) (drop (Z.to_nat j) xs)) = Z.to_nat n).
  { rewrite length_take, length_drop. unfold zlen in *. lia. }
  rewrite wrn_cells by (unfold zlen in *; lia). simpl. rewrite Hlen. fold (shifted xs (Z.to_nat i) (Z.to_nat j) (Z.to_nat n)).
  eexists. split; [done|]. split; [|by apply frame_set]. eapply holds_set; eauto.
  unfold shifted, zlen in *. rewrite !length_app, Hlen, length_take, length_drop. lia.
Qed.

(** ** [_Resize] *)

Section Resize.
Context `{ReallocOk}.

(** [_Resize(c)] asks [realloc] for a block and does not look at the answer
    when the list becomes empty, or when the block has the right size already.
    The list's pointer is [stale] when that answer is that the block has moved;
    [h'] is the heap then, in which the block may have been written. *)
Definition stale (h : heap) (l : blist) (c : Z) : Prop :=
  exists h' b q, frame h l h' l /\ h' !! fObjects l = Some b /\ fObjects l <> NULL /\ c + 1 <= zlen b
    /\ (c <= 0 \/ c + 1 = fItemReal l) /\ realloc_at h' (fObjects l) (c + 1) = Some q /\ q <> fObjects l.

(** The outcome of an operation on [l] that leaves [c] items: as specified, or
    an access to the block that is gone. *)
Definition unless_stale {A} (h : heap) (l : blist) (c : Z) (P : A -> Prop) (m : outcome A) : Prop :=
  total P m \/ m = Fault /\ stale h l c.

Lemma null_not_stale h l c : fObjects l = NULL -> ~ stale h l c.
Proof. by intros E (h' & b & q & _ & _ & Hn & _). Qed.

Lemma stays_not_stale `{!ReallocStays} h l c : ~ stale h l c.
Proof.
  intros (h' & b & q & _ & Hb & Hn & Hle & _ & Hq & Hne). by apply Hne, (realloc_in_place _ _ _ _ _ Hq Hn Hb).
Qed.

Lemma stale_frame h l h1 c : frame h l h1 l -> stale h1 l c -> stale h l c.
Proof. intros Hf (h' & b & q & Hf' & H'). exists h', b, q. split; [by eapply frame_trans|done]. Qed.

(** What [realloc] does to the block of a list, whose contents are [old]. *)
Definition reallocated (h : heap) (p n : Z) (old : list (option Z)) (r : outcome (heap * Z)) : Prop :=
  r = Ok (h, NULL)
  \/ exists q, q <> NULL /\ (q = p \/ h !! q = None) /\ realloc_at h p n = Some q
       /\ r = Ok (<[q := resized old n]> (delete p h), q).

Lemma realloc_block h p n b :
  p <> NULL -> h !! p = Some b -> 0 <= n -> reallocated h p n b (realloc h p n).
Proof.
  intros Hp Hb Hn. unfold realloc, block. rewrite (proj2 (Z.eqb_neq p NULL) Hp), Hb. simpl. bdecide.
  destruct (realloc_at h p n) as [q|] eqn:E; [right|by left].
  destruct (realloc_fresh _ _ _ _ E) as [Hq Hfresh]. by exists q.
Qed.

Lemma realloc_null h n : 0 <= n -> reallocated h NULL n [] (realloc h NULL n).
Proof.
  intros Hn. unfold realloc. simpl. bdecide.
  destruct (realloc_at h NULL n) as [q|] eqn:E; [right|by left].
  destruct (realloc_fresh _ _ _ _ E) as [Hq Hfresh]. by exists q.
Qed.

(** The entries of a list's block, none when it has no block. *)
Lemma holds_realloc h l xs n :
  holds h l xs -> 0 <= n ->
  (fObjects l = NULL /\ xs = [] /\ fItemReal l = 0 /\ reallocated h NULL n [] (realloc h NULL n))
  \/ fObjects l <> NULL
     /\ exists k, h !! fObjects l = Some (cells xs k) /\ fItemReal l = zlen xs + Z.of_nat (S k)
          /\ reallocated h (fObjects l) n (cells xs k) (realloc h (fObjects l) n).
Proof.
  intros (_ & _ & _ & [(E & -> & Er)|(Hn & k & Hb & Hr)]) Hn0.
  - left. auto using realloc_null.
  - right. split; [done|]. exists k. auto using realloc_block.
Qed.

(** Moving the list's block keeps the others. *)
Lemma frame_move h l q b l' :
  q = fObjects l \/ h !! q = None -> fObjects l' = q ->
  frame h l (<[q := b]> (delete (fObjects l) h)) l'.
Proof.
  intros Hq E p b' Hb Hp Hne. assert (p <> q) by (destruct Hq as [->|Hq]; congruence).
  rewrite lookup_insert_ne, lookup_delete_ne by congruence. by rewrite E.
Qed.

Lemma bzero_ok h p i n b b' :
  0 <= n -> h !! p = Some b -> wrn b i (replicate (Z.to_nat n) (Some NULL)) = Ok b' ->
  bzero h p i n = Ok (<[p := b']> h).
Proof. intros Hn Hb Hw. unfold bzero, block. bdecide. rewrite Hb. simpl. by rewrite Hw. Qed.

(** [_Resize(0)]: whatever block there is, moved or not, is given back. *)
Lemma resize_empty_spec h l h1 :
  fMinimumCount l = 0 -> (fObjects l = NULL \/ exists b, h1 !! fObjects l = Some b) ->
  frame h l h1 (set_objects l NULL 0) ->
  total (fun r => r.2 = true /\ holds r.1.1 r.1.2 [] /\ frame h l r.1.1 r.1.2) (resize_empty h1 l).
Proof.
  intros Hm Hb Hf. unfold resize_empty. rewrite Hm. simpl. unfold free, block.
  destruct (Z.eqb_spec (fObjects l) NULL) as [E|E]; simpl.
  - split; [done|]. split; [by apply holds_empty|exact Hf].
  - destruct Hb as [?|[b Hb]]; [done|]. rewrite Hb. simpl.
    split; [done|]. split; [by apply holds_empty|]. intros p b' Hp Hn Hne. simpl.
    rewrite lookup_delete_ne by done. by apply Hf.
Qed.

Lemma Resize_zero h l xs :
  holds h l xs ->
  unless_stale h l 0 (fun r => r.2 = true /\ holds r.1.1 r.1.2 [] /\ frame h l r.1.1 r.1.2) (_Resize h l 0).
Proof.
  intros Hh. pose proof Hh as (Hm & _). unfold _Resize. change (0 + 1) with 1. change (0 <=? 0) with true. cbv iota.
  assert (Hid : frame h l h (set_objects l NULL 0)) by (by intros p b Hb Hn Hne).
  destruct (holds_realloc h l xs 1 Hh) as [(E & _ & _ & Hre)|(E & k & Hb & Hr & Hre)]; [lia| |].
  - left. rewrite E. destruct Hre as [->|(q & Hq & Hf & _ & ->)]; simpl.
    + apply resize_empty_spec; auto.
    + apply resize_empty_spec; [done|by left|]. intros p b Hp Hn Hne. simpl.
      destruct Hf as [->|Hf]; [done|]. rewrite lookup_insert_ne, lookup_delete_ne by congruence. done.
  - destruct Hre as [->|(q & Hq & _ & Hat & ->)]; simpl; [left; apply resize_empty_spec; eauto|].
    destruct (decide (q = fObjects l)) as [->|Hne].
    + left. apply resize_empty_spec; [done|right; rewrite lookup_insert_eq; eauto|].
      intros p b Hp Hn Hne. simpl. by rewrite lookup_insert_ne, lookup_delete_ne by congruence.
    + right. split.
      * unfold resize_empty, free, block. rewrite Hm. simpl.
        by rewrite (proj2 (Z.eqb_neq _ _) E), lookup_insert_ne, lookup_delete_eq.
      * exists h, (cells xs k), q. rewrite zlen_cells. split_and!; auto using frame_refl; zl.
Qed.

(** The outcome of a resize to [c] items: done, or out of memory. *)
Definition resized_to (h : heap) (l : blist) (xs : list Z) (c : nat) (r : heap * blist * bool) : Prop :=
  (r.2 = true /\ holds r.1.1 r.1.2 (resize c NULL xs) /\ frame h l r.1.1 r.1.2
     /\ (fObjects l <> fObjects r.1.2 -> fObjects l <> NULL -> r.1.1 !! fObjects l = None))
  \/ (r = (h, l, false) /\ (length xs < c)%nat).

(** A block with room for exactly [c] items and the null behind them. *)
Lemma holds_new h l q c xs :
  fMinimumCount l = 0 -> Z.of_nat c <= MAX_LIST_COUNT -> q <> NULL ->
  h !! q = Some (cells (resize c NULL xs) 0) ->
  holds h (set_count (set_objects l q (Z.of_nat c + 1)) (Z.of_nat c)) (resize c NULL xs).
Proof.
  intros Hm Hc Hq Hb. unfold holds, zlen; simpl. rewrite length_resize, Hm.
  split; [done|]. split; [done|]. split; [done|]. right. split; [done|]. exists O. split; [done|lia].
Qed.

(** The three ways in which a resize ends. *)
Lemma resize_moved h l xs q old i n c :
  fMinimumCount l = 0 -> 0 < Z.of_nat c <= MAX_LIST_COUNT -> q <> NULL -> 0 <= n ->
  q = fObjects l \/ h !! q = None ->
  wrn (resized old (Z.of_nat c + 1)) i (replicate (Z.to_nat n) (Some NULL))
  = Ok (cells (resize c NULL xs) 0) ->
  exists h', bzero (<[q := resized old (Z.of_nat c + 1)]> (delete (fObjects l) h)) q i n = Ok h'
    /\ resized_to h l xs c (h', set_count (set_objects l q (Z.of_nat c + 1)) (Z.of_nat c), true).
Proof.
  intros Hm Hc Hq Hn Hf Hw. erewrite bzero_ok; [|done|apply lookup_insert_eq|exact Hw].
  eexists. split; [done|]. left. rewrite insert_insert_eq. simpl. split; [done|].
  split; [apply holds_new; auto; [lia|apply lookup_insert_eq]|]. split; [by apply frame_move|].
  intros Hne _. by rewrite lookup_insert_ne, lookup_delete_eq by congruence.
Qed.

(** The realloc was not needed: the block has the right size already. *)
Lemma resize_same h l xs k c h1 :
  fMinimumCount l = 0 -> 0 < Z.of_nat c <= MAX_LIST_COUNT -> fObjects l <> NULL ->
  fItemReal l = Z.of_nat c + 1 -> (length xs + k = c)%nat ->
  h1 !! fObjects l = Some (cells xs k) -> frame h l h1 l ->
  exists h', bzero h1 (fObjects l) (Z.of_nat c) 1 = Ok h'
    /\ resized_to h l xs c (h', set_count l (Z.of_nat c), true).
Proof.
  intros Hm Hc Hn Hr Hk Hb Hf.
  pose proof (cells_shrink xs k c ltac:(lia)) as Hw. unfold resized in Hw.
  rewrite take_ge, (proj2 (Nat.sub_0_le _ _)), app_nil_r in Hw.
  2-3: pose proof (zlen_cells xs k); unfold zlen in *; lia.
  erewrite bzero_ok; [|done|exact Hb|exact Hw]. eexists. split; [done|]. left. simpl.
  split; [done|]. split; [|split; [|done]].
  - replace (set_count l (Z.of_nat c))
      with (set_count (set_objects l (fObjects l) (Z.of_nat c + 1)) (Z.of_nat c))
      by (unfold set_count, set_objects; simpl; by rewrite Hr).
    apply holds_new; [done|lia|done|apply lookup_insert_eq].
  - eapply frame_trans; [exact Hf|]. by apply frame_set.
Qed.

(** Out of memory while shrinking: the block stays. *)
Lemma resize_kept h l xs k c :
  fMinimumCount l = 0 -> 0 < Z.of_nat c <= MAX_LIST_COUNT -> fObjects l <> NULL ->
  fItemReal l = zlen xs + Z.of_nat (S k) -> (c < length xs + k)%nat -> h !! fObjects l = Some (cells xs k) ->
  exists h', bzero h (fObjects l) (Z.of_nat c) (fItemReal l - Z.of_nat c) = Ok h'
    /\ resized_to h l xs c (h', set_count l (Z.of_nat c), true).
Proof.
  intros Hm Hc Hn Hr Hk Hb. pose proof (cells_clear xs k c Hk) as Hw. rewrite <- Hr in Hw.
  erewrite bzero_ok; [|unfold zlen in Hr; lia|exact Hb|exact Hw]. eexists. split; [done|]. left. simpl.
  split; [done|]. split; [|split; [by apply frame_set|done]].
  unfold holds, zlen in *; simpl. rewrite length_resize, Hm, lookup_insert_eq.
  split; [done|]. split; [done|]. split; [lia|]. right. split; [done|]. eexists. split; [done|]. lia.
Qed.

Lemma total_eq {A} (P : A -> Prop) (m : outcome A) a : m = Ok a -> P a -> total P m.
Proof. by intros ->. Qed.

Lemma Resize_new h l c :
  holds h l [] -> fObjects l = NULL -> fItemReal l = 0 -> 0 < Z.of_nat c <= MAX_LIST_COUNT ->
  unless_stale h l (Z.of_nat c) (resized_to h l [] c) (_Resize h l (Z.of_nat c)).
Proof.
  intros Hh E Er Hc. left. pose proof Hh as (Hm & Hcount & _). unfold _Resize. rewrite Hm, Er, E.
  destruct (realloc_null h (Z.of_nat c + 1)) as [->|(q & Hq & Hf & _ & ->)]; [lia| |]; simpl.
  - bdecide. simpl. right. split; [done|simpl; lia].
  - rewrite (proj2 (Z.eqb_neq q NULL) Hq). bdecide. simpl.
    destruct (resize_moved h l [] q [] 0 (Z.of_nat c + 1 - 0) c) as (h' & E1 & Hres);
      try done; [lia|by rewrite E| |].
    + unfold resized. rewrite take_nil, app_nil_l.
      rewrite <- (app_nil_l (replicate (_ - _) None)), wrn_tail.
      * f_equal. unfold cells. rewrite resize_nil, <- replicate_add, map_replicate_NULL. by replace (Z.to_nat (Z.of_nat c + 1 - 0)) with (c + 1)%nat by lia.
      * done.
      * rewrite !length_replicate. simpl. lia.
    + rewrite E in E1. rewrite E1. exact Hres.
Qed.

Lemma Resize_block h l xs k c :
  holds h l xs -> fObjects l <> NULL -> h !! fObjects l = Some (cells xs k) ->
  fItemReal l = zlen xs + Z.of_nat (S k) -> 0 < Z.of_nat c <= MAX_LIST_COUNT ->
  unless_stale h l (Z.of_nat c) (resized_to h l xs c) (_Resize h l (Z.of_nat c)).
Proof.
  intros Hh Hn Hb Hr Hc. pose proof Hh as (Hm & _). pose proof (zlen_cells xs k) as Hz.
  unfold _Resize. rewrite Hm.
  destruct (realloc_block h (fObjects l) (Z.of_nat c + 1) _ Hn Hb) as [->|(q & Hq & Hf & Hat & ->)];
    [lia| |]; simpl; rewrite (proj2 (Z.leb_gt (Z.of_nat c) 0)), (proj2 (Z.ltb_ge MAX_LIST_COUNT (Z.of_nat c))) by lia;
    cbn [orb]; destruct (Z.eqb_spec (Z.of_nat c + 1) (fItemReal l)) as [Es|Es].
  - left. destruct (resize_same h l xs k c h) as (h' & E1 & Hres); auto using frame_refl; [unfold zlen in *; lia|].
    by rewrite E1.
  - left. destruct (Z.ltb_spec (Z.of_nat c + 1) (fItemReal l)).
    + destruct (resize_kept h l xs k c) as (h' & E1 & Hres); auto; [unfold zlen in *; lia|]. by rewrite E1.
    + right. split; [done|]. unfold zlen in *. lia.
  - destruct (decide (q = fObjects l)) as [->|Hne].
    2: { right. split; [|exists h, (cells xs k), q; split_and!; auto using frame_refl; lia].
         unfold bzero, block. cbn [fObjects set_count].
         by rewrite (proj2 (Z.ltb_ge 1 0)), lookup_insert_ne, lookup_delete_eq by done. }
    left. destruct (resize_same h l xs k c (<[fObjects l:=resized (cells xs k) (Z.of_nat c + 1)]> (delete (fObjects l) h)))
      as (h' & E1 & Hres); auto; [unfold zlen in *; lia| | |by rewrite E1].
    + rewrite lookup_insert_eq. f_equal. unfold resized. rewrite take_ge, (proj2 (Nat.sub_0_le _ _)), app_nil_r; [done| |].
      all: unfold zlen in *; lia.
    + apply frame_move; auto.
  - left. rewrite (proj2 (Z.eqb_neq q NULL) Hq).
    destruct (Z.ltb_spec (fItemReal l) (Z.of_nat c + 1)).
    + destruct (resize_moved h l xs q (cells xs k) (fItemReal l) (Z.of_nat c + 1 - fItemReal l) c)
        as (h' & E1 & Hres); auto; [lia| |by rewrite E1].
      rewrite Hr. apply cells_grow. unfold zlen in *. lia.
    + destruct (resize_moved h l xs q (cells xs k) (Z.of_nat c) 1 c) as (h' & E1 & Hres);
        auto; [lia| |by rewrite E1].
      apply cells_shrink. unfold zlen in *. lia.
Qed.

Lemma Resize_spec h l xs c :
  holds h l xs -> 0 < Z.of_nat c <= MAX_LIST_COUNT ->
  unless_stale h l (Z.of_nat c) (resized_to h l xs c) (_Resize h l (Z.of_nat c)).
Proof.
  intros Hh Hc. pose proof Hh as (_ & _ & _ & [(E & -> & Er)|(Hn & k & Hb & Hr)]).
  - by apply Resize_new.
  - by apply (Resize_block h l xs k).
Qed.
End Resize.
