(* ===== verification/BListOps.v ===== *)
(** What the operations of [BList] do (kits/support/List.cpp), over the block
    and [_Resize] of BList.v.

    [list_step] is the specification: each operation on a sequence of items.
    [blist_refines] says that the code implements it.  The last part has the
    operations that the code gets wrong. *)

From Stdlib Require Import ZArith Lia List Bool.
From stdpp Require Import base tactics list numbers fin_maps gmap.
From S2P Require Import Prelude BList.
Local Open Scope Z_scope.
Local Open Scope c_scope.

(** ** The specification *)

Inductive list_op : Type :=
| OpAddItem (item : Z)
| OpAddItemAt (item i : Z)
| OpAddList (other : blist) (ys : list Z)
| OpRemoveAt (i : Z)
| OpRemoveItem (item : Z)
| OpRemoveItems (i n : Z)
| OpReplaceItem (i item : Z) (old : bool)
| OpMakeEmpty
| OpSwapItems (i j : Z)
| OpMoveItem (i j : Z)
| OpItemAt (i : Z)
| OpFirstItem
| OpLastItem
| OpHasItem (item : Z)
| OpIndexOf (item : Z)
| OpCountItems
| OpIsEmpty
| OpDoForEach (f : option (Z -> bool)).

Inductive list_result : Type :=
| RBool (b : bool)
| RItem (item : Z)
| RIndex (i : Z)
| RItems (items : list Z)
| RReplaced (b : bool) (old : option Z)
| RVoid.

Definition inside (xs : list Z) (i : Z) : bool := (0 <=? i) && (i <? zlen xs).

(** The item at [i], null outside the list. *)
Definition item_at (xs : list Z) (i : Z) : Z := if inside xs i then xs !!! Z.to_nat i else NULL.

Definition index_of (xs : list Z) (x : Z) : Z :=
  match list_find (.= x) xs with Some (i, _) => Z.of_nat i | None => -1 end.

(** The items on which a function is called that stops when it returns true. *)
Fixpoint until (f : Z -> bool) (xs : list Z) : list Z :=
  match xs with
  | [] => []
  | x :: xs => if f x then [x] else x :: until f xs
  end.

Definition insert_at (xs : list Z) (i x : Z) : list Z :=
  take (Z.to_nat i) xs ++ x :: drop (Z.to_nat i) xs.

Definition remove_count (xs : list Z) (i n : Z) : Z :=
  if n <? 0 then zlen xs - i else Z.min (zlen xs - i) n.

Definition list_step (xs : list Z) (op : list_op) : list Z * list_result :=
  match op with
  | OpAddItem x =>
      if zlen xs <? MAX_LIST_COUNT then (xs ++ [x], RBool true) else (xs, RBool false)
  | OpAddItemAt x i =>
      if (0 <=? i) && (i <=? zlen xs) && (zlen xs <? MAX_LIST_COUNT)
      then (insert_at xs i x, RBool true) else (xs, RBool false)
  | OpAddList _ ys =>
      if (0 <? zlen ys) && (zlen xs + zlen ys <=? MAX_LIST_COUNT)
      then (xs ++ ys, RBool true) else (xs, RBool false)
  | OpRemoveAt i => (delete (Z.to_nat i) xs, RItem (item_at xs i))
  | OpRemoveItem x =>
      if inside xs (index_of xs x) && negb (x =? NULL)
      then (delete (Z.to_nat (index_of xs x)) xs, RBool true) else (xs, RBool false)
  | OpRemoveItems i n =>
      if inside xs i
      then (take (Z.to_nat i) xs ++ drop (Z.to_nat (i + remove_count xs i n)) xs, RBool true)
      else (xs, RBool false)
  | OpReplaceItem i x old =>
      if inside xs i
      then (<[Z.to_nat i := x]> xs, RReplaced true (if old then Some (item_at xs i) else None))
      else (xs, RReplaced false None)
  | OpMakeEmpty => ([], RVoid)
  | OpSwapItems i j =>
      if inside xs i && inside xs j
      then (<[Z.to_nat j := item_at xs i]> (<[Z.to_nat i := item_at xs j]> xs), RBool true)
      else (xs, RBool false)
  | OpMoveItem i j =>
      if inside xs i && inside xs j
      then (insert_at (delete (Z.to_nat i) xs) j (item_at xs i), RBool true)
      else (xs, RBool false)
  | OpItemAt i => (xs, RItem (item_at xs i))
  | OpFirstItem => (xs, RItem (item_at xs 0))
  | OpLastItem => (xs, RItem (item_at xs (zlen xs - 1)))
  | OpHasItem x => (xs, RBool (negb (x =? NULL) && bool_decide (x ∈ xs)))
  | OpIndexOf x => (xs, RIndex (index_of xs x))
  | OpCountItems => (xs, RIndex (zlen xs))
  | OpIsEmpty => (xs, RBool (bool_decide (xs = [])))
  | OpDoForEach f => (xs, RItems (match f with Some f => until f xs | None => [] end))
  end.

(** The operations for which memory can run out. *)
Definition grows (op : list_op) : bool :=
  match op with OpAddItem _ | OpAddItemAt _ _ | OpAddList _ _ => true | _ => false end.

Section Ops.
Context `{Realloc}.

Definition blist_step (h : heap) (l : blist) (op : list_op) : outcome (heap * blist * list_result) :=
  let bool m := s <- m;; Ok (s.1, RBool s.2) in
  match op with
  | OpAddItem x => bool (AddItem h l x)
  | OpAddItemAt x i => bool (AddItem_at h l x i)
  | OpAddList o _ => bool (AddList h l (Some o))
  | OpRemoveAt i => s <- RemoveItem_at h l i;; Ok (s.1, RItem s.2)
  | OpRemoveItem x => bool (RemoveItem h l x)
  | OpRemoveItems i n => bool (RemoveItems h l i n)
  | OpReplaceItem i x old => s <- ReplaceItem h l i x old;; Ok (s.1, RReplaced s.2.1 s.2.2)
  | OpMakeEmpty => s <- MakeEmpty h l;; Ok (s, RVoid)
  | OpSwapItems i j => bool (SwapItems h l i j)
  | OpMoveItem i j => bool (MoveItem h l i j)
  | OpItemAt i => x <- ItemAt h l i;; Ok (h, l, RItem x)
  | OpFirstItem => x <- FirstItem h l;; Ok (h, l, RItem x)
  | OpLastItem => x <- LastItem h l;; Ok (h, l, RItem x)
  | OpHasItem x => b <- HasItem h l x;; Ok (h, l, RBool b)
  | OpIndexOf x => i <- IndexOf h l x;; Ok (h, l, RIndex i)
  | OpCountItems => Ok (h, l, RIndex (CountItems l))
  | OpIsEmpty => Ok (h, l, RBool (IsEmpty l))
  | OpDoForEach f => xs <- DoForEach h l f;; Ok (h, l, RItems xs)
  end.

(** The indices that are read before they are checked are in range, what is
    removed by value is there, and the list that is added is another one. *)
Definition op_ok (h : heap) (l : blist) (xs : list Z) (op : list_op) : Prop :=
  match op with
  | OpAddList o ys => holds h o ys /\ (fObjects o = NULL \/ fObjects o <> fObjects l)
  | OpRemoveAt i | OpSwapItems i _ | OpMoveItem i _ => 0 <= i < zlen xs
  | OpRemoveItem x => x = NULL \/ x ∈ xs
  | _ => True
  end.

End Ops.

(** ** Each operation *)

Section Correct.
Context `{ReallocOk}.

Lemma nonnil_len (xs : list Z) : 0 < zlen xs -> xs <> [].
Proof. by intros Hx ->. Qed.

Lemma zlen_nat (xs : list Z) : zlen xs = Z.of_nat (length xs).
Proof. done. Qed.

(** *** Changing the size *)

Lemma resize_run h l xs c :
  holds h l xs -> 0 < Z.of_nat c <= MAX_LIST_COUNT ->
  (exists h' l', _Resize h l (Z.of_nat c) = Ok (h', l', true)
     /\ holds h' l' (resize c NULL xs) /\ frame h l h' l')
  \/ _Resize h l (Z.of_nat c) = Ok (h, l, false) /\ (length xs < c)%nat
  \/ _Resize h l (Z.of_nat c) = Fault /\ stale h l (Z.of_nat c).
Proof.
  intros Hh Hc. destruct (Resize_spec h l xs c Hh Hc) as [Ht|Hl]; [|by right; right].
  apply total_ok in Ht as ([[h' l'] ok] & E & [(E' & Hh' & Hf & _)|(E' & Hlt)]); simpl in *.
  - subst ok. left. eauto.
  - injection E' as -> -> ->. auto.
Qed.

Lemma shrink_run h l xs c :
  holds h l xs -> (c <= length xs)%nat ->
  unless_stale h l (Z.of_nat c) (fun r => r.2 = true /\ holds r.1.1 r.1.2 (take c xs) /\ frame h l r.1.1 r.1.2)
    (_Resize h l (Z.of_nat c)).
Proof.
  intros Hh Hc. pose proof Hh as (_ & _ & Hmax & _). rewrite zlen_nat in Hmax.
  destruct (decide (c = O)) as [->|Hc0].
  - by apply (Resize_zero h l xs).
  - destruct (resize_run h l xs c Hh) as [(h' & l' & -> & Hh' & Hf)|[[_ Hlt]|Hl]]; [lia| |lia|by right].
    rewrite resize_le in Hh' by done. by left.
Qed.

Lemma shrink_cases h l xs c :
  holds h l xs -> (c <= length xs)%nat ->
  (exists h' l', _Resize h l (Z.of_nat c) = Ok (h', l', true)
     /\ holds h' l' (take c xs) /\ frame h l h' l')
  \/ _Resize h l (Z.of_nat c) = Fault /\ stale h l (Z.of_nat c).
Proof.
  intros Hh Hc. destruct (shrink_run h l xs c Hh Hc) as [Ht|Hl]; [left|by right].
  apply total_ok in Ht as ([[h' l'] ok] & -> & E & Hh' & Hf). simpl in *. subst ok. eauto.
Qed.

(** One more item, null for now. *)
Lemma grow_run h l xs n :
  holds h l xs -> 0 < n -> zlen xs + n <= MAX_LIST_COUNT ->
  (exists h' l', _Resize h l (fItemCount l + n) = Ok (h', l', true)
     /\ holds h' l' (xs ++ replicate (Z.to_nat n) NULL) /\ frame h l h' l')
  \/ _Resize h l (fItemCount l + n) = Ok (h, l, false)
  \/ _Resize h l (fItemCount l + n) = Fault /\ stale h l (zlen xs + n).
Proof.
  intros Hh Hn Hmax. rewrite (holds_count _ _ _ Hh), zlen_nat in *.
  replace (Z.of_nat (length xs) + n) with (Z.of_nat (length xs + Z.to_nat n)) by lia.
  destruct (resize_run h l xs (length xs + Z.to_nat n) Hh) as [(h' & l' & E & Hh' & Hf)|[[E _]|Hl]]; [lia| |auto..].
  left. exists h', l'. rewrite resize_ge in Hh' by lia.
  replace (length xs + Z.to_nat n - length xs)%nat with (Z.to_nat n) in Hh' by lia. auto.
Qed.

(** *** Sequences *)

Lemma item_lookup xs i : 0 <= i < zlen xs -> xs !! Z.to_nat i = Some (item_at xs i).
Proof.
  intros Hi. unfold item_at, inside. bdecide. simpl. apply list_lookup_lookup_total_lt.
  unfold zlen in Hi. lia.
Qed.

Lemma load_item h l xs i : holds h l xs -> 0 <= i < zlen xs -> load h (fObjects l) i = Ok (item_at xs i).
Proof. intros Hh Hi. eapply holds_load; [done|lia|by apply item_lookup]. Qed.

Lemma length_shifted xs i j n :
  (i + n <= length xs)%nat -> (j + n <= length xs)%nat -> length (shifted xs i j n) = length xs.
Proof. intros. unfold shifted. rewrite !length_app, !length_take, !length_drop. lia. Qed.

(** Opening a gap and filling it. *)
Lemma insert_shifted xs i x y :
  (i < length xs)%nat ->
  <[i := x]> (shifted (xs ++ [y]) (S i) i (length xs - i)) = take i xs ++ x :: drop i xs.
Proof.
  intros Hi. unfold shifted. rewrite insert_take_drop.
  2: { rewrite !length_app, !length_take, !length_drop, !length_app. cbn [length]. lia. }
  rewrite take_app_le by (rewrite length_take, length_app; cbn [length]; lia).
  rewrite take_take, Nat.min_l, take_app_le by lia. do 2 f_equal.
  rewrite drop_app_ge by (rewrite length_take, length_app; cbn [length]; lia).
  rewrite length_take, length_app, Nat.min_l, Nat.sub_diag, drop_0 by (cbn [length]; lia).
  rewrite (drop_ge (xs ++ [y]) (S i + (length xs - i))), app_nil_r by (rewrite length_app; cbn [length]; lia).
  rewrite drop_app_le by lia. rewrite take_app_le, take_ge by (rewrite length_drop; lia). done.
Qed.

(** Closing a gap of [n] items. *)
Lemma take_shifted xs i n :
  (i + n <= length xs)%nat ->
  take (length xs - n) (shifted xs i (i + n) (length xs - i - n)) = take i xs ++ drop (i + n) xs.
Proof.
  intros Hi. unfold shifted. rewrite (take_ge (drop (i + n) xs)) by (rewrite length_drop; lia).
  rewrite app_assoc, take_app_le by (rewrite length_app, length_take, length_drop; lia).
  apply take_ge. rewrite length_app, length_take, length_drop. lia.
Qed.

(** *** Adding *)

Lemma AddItem_spec h l xs x :
  holds h l xs -> zlen xs < MAX_LIST_COUNT ->
  (exists h' l', AddItem h l x = Ok (h', l', true) /\ holds h' l' (xs ++ [x]) /\ frame h l h' l')
  \/ AddItem h l x = Ok (h, l, false) \/ AddItem h l x = Fault /\ stale h l (zlen xs + 1).
Proof.
  intros Hh Hmax. unfold AddItem. rewrite (proj2 (Z.leb_gt _ _)) by (rewrite (holds_count _ _ _ Hh); lia).
  destruct (grow_run h l xs 1 Hh) as [(h1 & l1 & -> & Hh1 & Hf1)|[->|[-> Hl]]];
    [lia|lia| |by auto|by rewrite <- (holds_count _ _ _ Hh) in *; auto].
  cbn [obind negb]. change (replicate (Z.to_nat 1) NULL) with [NULL] in Hh1.
  rewrite (holds_count _ _ _ Hh1). replace (zlen (xs ++ [NULL]) - 1) with (zlen xs) by zl.
  destruct (holds_store h1 l1 _ (zlen xs) x Hh1) as (h2 & -> & Hh2 & Hf2); [zl|].
  left. exists h2, l1. cbn [obind]. split; [done|]. split; [|by eapply frame_trans].
  rewrite insert_app_r_alt in Hh2 by (unfold zlen; lia).
  replace (Z.to_nat (zlen xs) - length xs)%nat with O in Hh2 by (unfold zlen; lia). done.
Qed.

Lemma AddItem_at_spec h l xs x i :
  holds h l xs -> 0 <= i <= zlen xs -> zlen xs < MAX_LIST_COUNT ->
  (exists h' l', AddItem_at h l x i = Ok (h', l', true) /\ holds h' l' (insert_at xs i x) /\ frame h l h' l')
  \/ AddItem_at h l x i = Ok (h, l, false) \/ AddItem_at h l x i = Fault /\ stale h l (zlen xs + 1).
Proof.
  intros Hh Hi Hmax. unfold AddItem_at. pose proof (holds_count _ _ _ Hh) as Hc.
  rewrite Hc, (proj2 (Z.ltb_ge i 0)), (proj2 (Z.ltb_ge (zlen xs) i)) by lia. cbn [orb].
  destruct (Z.eqb_spec i (zlen xs)) as [->|Hne].
  { unfold insert_at. replace (Z.to_nat (zlen xs)) with (length xs) by (unfold zlen; lia).
    rewrite firstn_all, drop_all. by apply AddItem_spec. }
  rewrite (proj2 (Z.leb_gt _ _)) by lia. rewrite <- Hc.
  destruct (grow_run h l xs 1 Hh) as [(h1 & l1 & -> & Hh1 & Hf1)|[->|[-> Hl]]];
    [lia|lia| |by auto|by rewrite <- (holds_count _ _ _ Hh) in *; auto].
  cbn [obind negb]. change (replicate (Z.to_nat 1) NULL) with [NULL] in Hh1.
  rewrite (holds_count _ _ _ Hh1). replace (zlen (xs ++ [NULL]) - (i + 1)) with (zlen xs - i) by zl.
  destruct (holds_memmove h1 l1 _ (i + 1) i (zlen xs - i) Hh1) as (h2 & -> & Hh2 & Hf2);
    [by destruct xs|zl..|].
  cbn [obind]. assert (Hlen : length (shifted (xs ++ [NULL]) (Z.to_nat (i + 1)) (Z.to_nat i)
      (Z.to_nat (zlen xs - i))) = length (xs ++ [NULL])).
  { apply length_shifted; rewrite length_app; simpl; unfold zlen in *; lia. }
  destruct (holds_store h2 l1 _ i x Hh2) as (h3 & -> & Hh3 & Hf3).
  { rewrite zlen_nat, Hlen, length_app. simpl. unfold zlen in *; lia. }
  left. exists h3, l1. cbn [obind]. split; [done|]. split; [|eauto using frame_trans].
  replace (Z.to_nat (i + 1)) with (S (Z.to_nat i)) in Hh3 by lia.
  replace (Z.to_nat (zlen xs - i)) with (length xs - Z.to_nat i)%nat in Hh3 by (unfold zlen; lia).
  rewrite insert_shifted in Hh3 by (unfold zlen in *; lia). done.
Qed.

Lemma AddList_spec h l xs o ys :
  holds h l xs -> holds h o ys -> fObjects o <> fObjects l -> 0 < zlen ys ->
  zlen xs + zlen ys <= MAX_LIST_COUNT ->
  (exists h' l', AddList h l (Some o) = Ok (h', l', true) /\ holds h' l' (xs ++ ys) /\ frame h l h' l')
  \/ AddList h l (Some o) = Ok (h, l, false) \/ AddList h l (Some o) = Fault /\ stale h l (zlen xs + zlen ys).
Proof.
  intros Hh Ho Hne Hy Hmax. unfold AddList. rewrite (holds_count _ _ _ Ho), (holds_count _ _ _ Hh).
  rewrite (proj2 (Z.eqb_neq (zlen ys) 0)), (proj2 (Z.ltb_ge _ _)) by lia.
  rewrite <- (holds_count _ _ _ Hh).
  destruct (grow_run h l xs (zlen ys) Hh) as [(h1 & l1 & -> & Hh1 & Hf1)|[->|[-> Hl]]];
    [lia|lia| |by auto|by rewrite <- (holds_count _ _ _ Hh) in *; auto].
  left. cbn [obind negb]. rewrite (holds_count _ _ _ Hh1).
  assert (Ez : zlen (replicate (Z.to_nat (zlen ys)) NULL) = zlen ys)
    by (unfold zlen; rewrite length_replicate; lia).
  set (zs := replicate (Z.to_nat (zlen ys)) NULL) in *.
  replace (zlen (xs ++ zs) - zlen ys) with (zlen xs) by zl.
  destruct (holds_block h o ys Ho (nonnil_len _ Hy)) as (k & Hb & _).
  assert (Hon : fObjects o <> NULL) by (destruct Ho as (_ & _ & _ & [(_ & -> & _)|(? & _)]); [done|done]).
  destruct (Hf1 _ _ Hb Hon Hne) as [Hb1 Hne1].
  unfold memcpy, memmove, block. rewrite (proj2 (Z.eqb_neq _ _)) by congruence. cbn [andb].
  rewrite Hb1. cbn [obind]. rewrite rdn_cells by lia. cbn [obind].
  rewrite drop_0, take_ge by (unfold zlen; lia).
  destruct (holds_block h1 l1 _ Hh1) as (k1 & Hb2 & Hr1); [intros E; assert (zlen (xs ++ zs) = 0) by (by rewrite E); zl|].
  rewrite Hb2. cbn [obind]. rewrite wrn_cells by zl. cbn [obind].
  replace (Z.to_nat (zlen xs)) with (length xs) by (unfold zlen; lia).
  rewrite take_app_length, (drop_ge (xs ++ zs)), app_nil_r
    by (rewrite length_app; unfold zlen in *; lia).
  eexists _, l1. split; [done|]. split.
  - eapply holds_set; [exact Hh1| | |exact Hr1].
    + intros E. assert (zlen (xs ++ zs) = 0) by (by rewrite E). zl.
    + rewrite !length_app. unfold zlen in *. lia.
  - eapply frame_trans; [exact Hf1|]. by apply frame_set.
Qed.

(** *** Removing *)

Lemma RemoveItem_at_spec h l xs i :
  holds h l xs -> 0 <= i < zlen xs ->
  (exists h' l', RemoveItem_at h l i = Ok (h', l', item_at xs i)
    /\ holds h' l' (delete (Z.to_nat i) xs) /\ frame h l h' l')
  \/ RemoveItem_at h l i = Fault /\ stale h l (zlen xs - 1).
Proof.
  intros Hh Hi. unfold RemoveItem_at. rewrite (load_item h l xs i Hh Hi), (holds_count _ _ _ Hh).
  cbn [obind]. rewrite (proj2 (Z.ltb_ge i 0)), (proj2 (Z.leb_gt _ _)) by lia. cbn [orb].
  rewrite delete_take_drop.
  replace (zlen xs - 1) with (Z.of_nat (length xs - 1)) by (unfold zlen in *; lia).
  destruct (Z.ltb_spec i (Z.of_nat (length xs - 1))).
  - destruct (holds_memmove h l xs i (i + 1) (zlen xs - i - 1) Hh) as (h1 & -> & Hh1 & Hf1);
      [by apply nonnil_len; lia|lia..|]. cbn [obind].
    replace (Z.to_nat (i + 1)) with (Z.to_nat i + 1)%nat in Hh1 by lia.
    replace (Z.to_nat (zlen xs - i - 1)) with (length xs - Z.to_nat i - 1)%nat in Hh1
      by (unfold zlen; lia).
    destruct (shrink_cases h1 l _ (length xs - 1) Hh1) as [(h2 & l2 & -> & Hh2 & Hf2)|[-> Hl]];
      [|left|by right; eauto using stale_frame].
    { rewrite length_shifted; unfold zlen in *; lia. }
    cbn [obind negb]. rewrite take_shifted in Hh2 by (unfold zlen in *; lia).
    replace (Z.to_nat i + 1)%nat with (S (Z.to_nat i)) in Hh2 by lia.
    eauto 6 using frame_trans.
  - cbn [obind]. destruct (shrink_cases h l xs (length xs - 1) Hh) as [(h2 & l2 & -> & Hh2 & Hf2)|[-> Hl]]; [lia|left|by right].
    cbn [obind negb]. rewrite drop_ge, app_nil_r by (unfold zlen in *; lia).
    replace (Z.to_nat i) with (length xs - 1)%nat by (unfold zlen in *; lia). eauto.
Qed.

Lemma remove_count_range xs i n :
  0 <= i < zlen xs -> 0 <= remove_count xs i n <= zlen xs - i.
Proof. intros Hi. unfold remove_count. destruct (Z.ltb_spec n 0); lia. Qed.

Lemma RemoveItems_spec h l xs i n :
  holds h l xs -> 0 <= i < zlen xs ->
  (exists h' l', RemoveItems h l i n = Ok (h', l', true)
    /\ holds h' l' (take (Z.to_nat i) xs ++ drop (Z.to_nat (i + remove_count xs i n)) xs)
    /\ frame h l h' l')
  \/ RemoveItems h l i n = Fault /\ stale h l (zlen xs - remove_count xs i n).
Proof.
  intros Hh Hi. pose proof (remove_count_range xs i n Hi) as Hc. unfold RemoveItems.
  rewrite (holds_count _ _ _ Hh). rewrite (proj2 (Z.ltb_ge i 0)), (proj2 (Z.leb_gt _ _)) by lia.
  cbn [orb]. fold (remove_count xs i n). set (c := remove_count xs i n) in *.
  destruct (Z.eqb_spec c 0) as [->|Hc0].
  { left. exists h, l. rewrite Z.add_0_r, take_drop. auto using frame_refl. }
  replace (zlen xs - c) with (Z.of_nat (length xs - Z.to_nat c)) by (unfold zlen in *; lia).
  replace (Z.to_nat (i + c)) with (Z.to_nat i + Z.to_nat c)%nat by lia.
  destruct ((i <? zlen xs - 1) && negb (c =? zlen xs - i)) eqn:Hb.
  - apply andb_true_iff in Hb as [Hb1 Hb2]. zbool.
    destruct (holds_memmove h l xs i (i + c) (zlen xs - i - c) Hh) as (h1 & -> & Hh1 & Hf1);
      [by apply nonnil_len; lia|lia..|]. cbn [obind].
    replace (Z.to_nat (i + c)) with (Z.to_nat i + Z.to_nat c)%nat in Hh1 by lia.
    replace (Z.to_nat (zlen xs - i - c)) with (length xs - Z.to_nat i - Z.to_nat c)%nat in Hh1
      by (unfold zlen; lia).
    destruct (shrink_cases h1 l _ (length xs - Z.to_nat c) Hh1) as [(h2 & l2 & -> & Hh2 & Hf2)|[-> Hl]];
      [|left|by right; eauto using stale_frame].
    { rewrite length_shifted; unfold zlen in *; lia. }
    cbn [obind negb]. rewrite take_shifted in Hh2 by (unfold zlen in *; lia).
    eauto 6 using frame_trans.
  - assert (c = zlen xs - i) by (apply andb_false_iff in Hb as [Hb|Hb]; zbool; lia).
    cbn [obind]. destruct (shrink_cases h l xs (length xs - Z.to_nat c) Hh) as [(h2 & l2 & -> & Hh2 & Hf2)|[-> Hl]]; [lia|left|by right].
    cbn [obind negb]. rewrite drop_ge, app_nil_r by (unfold zlen in *; lia).
    replace (Z.to_nat i) with (length xs - Z.to_nat c)%nat by (unfold zlen in *; lia). eauto.
Qed.

(** *** Searching *)

Lemma index_loop_spec h p x i ys :
  (forall k y, ys !! k = Some y -> load h p (i + Z.of_nat k) = Ok y) ->
  index_loop h p x i (length ys)
  = Ok (match list_find (.= x) ys with Some (k, _) => i + Z.of_nat k | None => -1 end).
Proof.
  revert i. induction ys as [|y ys IH]; intros i Hl; [done|]. cbn [index_loop length].
  pose proof (Hl O y eq_refl) as E. rewrite Z.add_0_r in E. rewrite E. cbn [obind list_find].
  destruct (Z.eqb_spec y x), (decide (y = x)); try done; [do 2 f_equal; lia|].
  rewrite IH.
  - destruct (list_find (.= x) ys) as [[k z]|]; simpl; [|done]. f_equal. lia.
  - intros k z Hk. replace (i + 1 + Z.of_nat k) with (i + Z.of_nat (S k)) by lia. by apply Hl.
Qed.

Lemma IndexOf_spec h l xs x : holds h l xs -> IndexOf h l x = Ok (index_of xs x).
Proof.
  intros Hh. unfold IndexOf, index_of. rewrite (holds_count _ _ _ Hh), zlen_nat, Nat2Z.id.
  rewrite index_loop_spec; [by destruct (list_find _ _) as [[k z]|]|].
  intros k y Hk. eapply holds_load; [done|lia|]. by replace (Z.to_nat (0 + Z.of_nat k)) with k by lia.
Qed.

Lemma index_of_in xs x : x ∈ xs -> 0 <= index_of xs x < zlen xs /\ item_at xs (index_of xs x) = x.
Proof.
  intros Hx. unfold index_of.
  destruct (list_find_elem_of (.= x) xs x Hx eq_refl) as [[k y] E]. rewrite E.
  apply list_find_Some in E as (Hk & -> & _). pose proof (lookup_lt_Some _ _ _ Hk).
  assert (Hr : 0 <= Z.of_nat k < zlen xs) by (unfold zlen; lia). split; [done|].
  pose proof (item_lookup xs _ Hr) as E. rewrite Nat2Z.id, Hk in E. by injection E.
Qed.

Lemma index_of_out xs x : x ∉ xs -> index_of xs x = -1.
Proof.
  intros Hx. unfold index_of. destruct (list_find (.= x) xs) as [[k y]|] eqn:E; [|done].
  apply list_find_Some in E as (Hk & -> & _). destruct Hx. by eapply list_elem_of_lookup_2.
Qed.

Lemma RemoveItem_spec h l xs x :
  holds h l xs -> x <> NULL -> x ∈ xs ->
  (exists h' l', RemoveItem h l x = Ok (h', l', true)
    /\ holds h' l' (delete (Z.to_nat (index_of xs x)) xs) /\ frame h l h' l')
  \/ RemoveItem h l x = Fault /\ stale h l (zlen xs - 1).
Proof.
  intros Hh Hx Hin. unfold RemoveItem. rewrite (proj2 (Z.eqb_neq x NULL) Hx).
  rewrite (IndexOf_spec _ _ _ _ Hh). cbn [obind]. destruct (index_of_in xs x Hin) as [Hr Ei].
  destruct (RemoveItem_at_spec h l xs (index_of xs x) Hh Hr) as [(h' & l' & -> & Hh' & Hf)|[-> Hl]]; [left|by right].
  cbn [obind fst snd]. rewrite Ei, (proj2 (Z.eqb_neq x NULL) Hx). eauto.
Qed.

Lemma HasItem_spec h l xs x :
  holds h l xs -> HasItem h l x = Ok (negb (x =? NULL) && bool_decide (x ∈ xs)).
Proof.
  intros Hh. unfold HasItem. destruct (Z.eqb_spec x NULL); [done|]. cbn [negb andb].
  rewrite (IndexOf_spec _ _ _ _ Hh). cbn [obind]. f_equal. case_bool_decide as Hx.
  - destruct (index_of_in xs x Hx). apply Z.leb_le. lia.
  - by rewrite index_of_out.
Qed.

Lemma foreach_spec h p f i ys :
  (forall k y, ys !! k = Some y -> load h p (i + Z.of_nat k) = Ok y) ->
  foreach_loop h p f i (length ys) = Ok (until f ys).
Proof.
  revert i. induction ys as [|y ys IH]; intros i Hl; [done|]. cbn [foreach_loop length until].
  pose proof (Hl O y eq_refl) as E. rewrite Z.add_0_r in E. rewrite E. cbn [obind].
  destruct (f y); [done|]. rewrite IH; [done|].
  intros k z Hk. replace (i + 1 + Z.of_nat k) with (i + Z.of_nat (S k)) by lia. by apply Hl.
Qed.

Lemma DoForEach_spec h l xs f :
  holds h l xs -> DoForEach h l f = Ok (match f with Some f => until f xs | None => [] end).
Proof.
  intros Hh. destruct f as [f|]; [|done]. simpl.
  rewrite (holds_count _ _ _ Hh), zlen_nat, Nat2Z.id. apply foreach_spec.
  intros k y Hk. eapply holds_load; [done|lia|]. by replace (Z.to_nat (0 + Z.of_nat k)) with k by lia.
Qed.

(** *** Rearranging *)

Lemma ReplaceItem_spec h l xs i x old :
  holds h l xs -> 0 <= i < zlen xs ->
  exists h', ReplaceItem h l i x old = Ok (h', l, (true, if old then Some (item_at xs i) else None))
    /\ holds h' l (<[Z.to_nat i := x]> xs) /\ frame h l h' l.
Proof.
  intros Hh Hi. unfold ReplaceItem. rewrite (holds_count _ _ _ Hh).
  rewrite (proj2 (Z.ltb_ge i 0)), (proj2 (Z.leb_gt _ _)) by lia. cbn [orb].
  destruct (holds_store h l xs i x Hh Hi) as (h' & E & Hh' & Hf). exists h'.
  destruct old; [rewrite (load_item h l xs i Hh Hi)|]; cbn [obind]; rewrite E; auto.
Qed.

Lemma SwapItems_spec h l xs i j :
  holds h l xs -> 0 <= i < zlen xs -> 0 <= j < zlen xs ->
  exists h', SwapItems h l i j = Ok (h', l, true)
    /\ holds h' l (<[Z.to_nat j := item_at xs i]> (<[Z.to_nat i := item_at xs j]> xs)) /\ frame h l h' l.
Proof.
  intros Hh Hi Hj. unfold SwapItems.
  rewrite (load_item h l xs i Hh Hi), (load_item h l xs j Hh Hj), (holds_count _ _ _ Hh).
  cbn [obind]. rewrite (proj2 (Z.ltb_ge i 0)), (proj2 (Z.ltb_ge j 0)) by lia.
  rewrite !(proj2 (Z.leb_gt _ _)) by lia. cbn [orb].
  destruct (holds_store h l xs i (item_at xs j) Hh Hi) as (h1 & -> & Hh1 & Hf1). cbn [obind].
  destruct (holds_store h1 l _ j (item_at xs i) Hh1) as (h2 & -> & Hh2 & Hf2); [by rewrite zlen_insert|].
  cbn [obind]. eauto using frame_trans.
Qed.

(** Both directions of [MoveItem] are a removal and an insertion. *)
Lemma move_up xs i j x :
  (i < j)%nat -> (j < length xs)%nat ->
  <[j := x]> (shifted xs i (i + 1) (j - i)) = take j (delete i xs) ++ x :: drop j (delete i xs).
Proof.
  intros Hij Hj. rewrite insert_take_drop by (rewrite length_shifted; lia). unfold shifted.
  rewrite delete_take_drop. replace (i + (j - i))%nat with j by lia.
  replace (i + 1)%nat with (S i) by lia.
  assert (E : take j (take i xs ++ drop (S i) xs) = take i xs ++ take (j - i) (drop (S i) xs)).
  { rewrite take_app_ge by (rewrite length_take; lia). rewrite length_take, Nat.min_l by lia. done. }
  assert (L : length (take i xs ++ take (j - i) (drop (S i) xs)) = j).
  { rewrite length_app, !length_take, length_drop. lia. }
  rewrite E, (app_assoc (take i xs)). rewrite take_app_length' by done. do 2 f_equal.
  rewrite drop_app_ge by lia. rewrite L, drop_drop, drop_app_ge by (rewrite length_take; lia).
  rewrite length_take, drop_drop, Nat.min_l by lia. f_equal. lia.
Qed.

Lemma move_down xs i j x :
  (j < i)%nat -> (i < length xs)%nat ->
  <[j := x]> (shifted xs (j + 1) j (i - j)) = take j (delete i xs) ++ x :: drop j (delete i xs).
Proof.
  intros Hij Hi. rewrite insert_take_drop by (rewrite length_shifted; lia). unfold shifted.
  rewrite delete_take_drop. replace (j + 1 + (i - j))%nat with (S i) by lia.
  replace (j + 1)%nat with (S j) by lia.
  rewrite (take_app_le (take i xs)) by (rewrite length_take; lia).
  rewrite take_app_le by (rewrite length_take; lia). rewrite !take_take, !Nat.min_l by lia. do 2 f_equal.
  rewrite drop_app_ge by (rewrite length_take; lia).
  rewrite length_take, Nat.min_l, Nat.sub_diag, drop_0 by lia.
  rewrite drop_app_le by (rewrite length_take; lia). by rewrite skipn_firstn_comm.
Qed.

(** The [memmove] of [MoveItem], in either direction. *)
Lemma move_memmove h l xs i j x :
  holds h l xs -> 0 <= i < zlen xs -> 0 <= j < zlen xs -> i <> j ->
  exists h1 ys,
    (if i <? j then memmove h (fObjects l) i (fObjects l) (i + 1) (j - i)
     else memmove h (fObjects l) (j + 1) (fObjects l) j (i - j)) = Ok h1
    /\ holds h1 l ys /\ frame h l h1 l /\ zlen ys = zlen xs
    /\ <[Z.to_nat j := x]> ys = insert_at (delete (Z.to_nat i) xs) j x.
Proof.
  intros Hh Hi Hj Hij. pose proof (nonnil_len xs ltac:(lia)) as Hne. unfold insert_at.
  destruct (Z.ltb_spec i j).
  - destruct (holds_memmove h l xs i (i + 1) (j - i) Hh Hne) as (h1 & E & Hh1 & Hf1); [lia..|].
    eexists h1, _. split; [exact E|]. split; [exact Hh1|]. split; [exact Hf1|]. split.
    + unfold zlen in *. rewrite length_shifted; lia.
    + replace (Z.to_nat (i + 1)) with (Z.to_nat i + 1)%nat by lia.
      replace (Z.to_nat (j - i)) with (Z.to_nat j - Z.to_nat i)%nat by lia.
      apply move_up; unfold zlen in *; lia.
  - destruct (holds_memmove h l xs (j + 1) j (i - j) Hh Hne) as (h1 & E & Hh1 & Hf1); [lia..|].
    eexists h1, _. split; [exact E|]. split; [exact Hh1|]. split; [exact Hf1|]. split.
    + unfold zlen in *. rewrite length_shifted; lia.
    + replace (Z.to_nat (j + 1)) with (Z.to_nat j + 1)%nat by lia.
      replace (Z.to_nat (i - j)) with (Z.to_nat i - Z.to_nat j)%nat by lia.
      apply move_down; unfold zlen in *; lia.
Qed.

Lemma MoveItem_spec h l xs i j :
  holds h l xs -> 0 <= i < zlen xs -> 0 <= j < zlen xs ->
  exists h', MoveItem h l i j = Ok (h', l, true)
    /\ holds h' l (insert_at (delete (Z.to_nat i) xs) j (item_at xs i)) /\ frame h l h' l.
Proof.
  intros Hh Hi Hj. unfold MoveItem.
  rewrite (load_item h l xs i Hh Hi), (holds_count _ _ _ Hh). cbn [obind].
  rewrite (proj2 (Z.ltb_ge i 0)), (proj2 (Z.ltb_ge j 0)) by lia.
  rewrite !(proj2 (Z.leb_gt _ _)) by lia. cbn [orb].
  destruct (Z.eqb_spec i j) as [<-|Hij].
  - exists h. split; [done|]. split; [|apply frame_refl]. unfold insert_at.
    rewrite delete_take_drop, take_app_length', drop_app_length' by (rewrite length_take; unfold zlen in *; lia).
    by rewrite (take_drop_middle _ _ _ (item_lookup xs i Hi)).
  - destruct (move_memmove h l xs i j (item_at xs i) Hh Hi Hj Hij) as (h1 & ys & -> & Hh1 & Hf1 & Hz & <-).
    cbn [obind]. destruct (holds_store h1 l ys j (item_at xs i) Hh1) as (h2 & -> & Hh2 & Hf2); [lia|].
    cbn [obind]. eauto using frame_trans.
Qed.

(** ** The refinement *)

Definition implements (h : heap) (l : blist) (xs : list Z) (op : list_op)
    (r : heap * blist * list_result) : Prop :=
  frame h l r.1.1 r.1.2
  /\ ((holds r.1.1 r.1.2 (list_step xs op).1 /\ r.2 = (list_step xs op).2)
      \/ grows op = true /\ r = (h, l, RBool false)).

Lemma implements_same h l xs op res :
  holds h l xs -> list_step xs op = (xs, res) -> implements h l xs op (h, l, res).
Proof. intros Hh E. split; [apply frame_refl|]. left. by rewrite E. Qed.

Lemma implements_step h l xs op h' l' ys res :
  list_step xs op = (ys, res) -> holds h' l' ys -> frame h l h' l' ->
  implements h l xs op (h', l', res).
Proof. intros E Hh Hf. split; [exact Hf|]. left. by rewrite E. Qed.

Lemma implements_failed h l xs op : grows op = true -> implements h l xs op (h, l, RBool false).
Proof. intros Hg. split; [apply frame_refl|by right]. Qed.

Lemma inside_true xs i : inside xs i = true <-> 0 <= i < zlen xs.
Proof. unfold inside. rewrite andb_true_iff, Z.leb_le, Z.ltb_lt. done. Qed.

Lemma outside xs i : inside xs i = false -> (i <? 0) || (zlen xs <=? i) = true.
Proof.
  unfold inside. rewrite andb_false_iff, orb_true_iff, Z.leb_gt, Z.ltb_ge, Z.ltb_lt, Z.leb_le. tauto.
Qed.

Lemma zlen_insert_at (xs : list Z) i x : zlen (insert_at xs i x) = zlen xs + 1.
Proof.
  unfold insert_at, zlen. rewrite !length_app. cbn [length]. rewrite length_take, length_drop. lia.
Qed.

Lemma zlen_delete_at (xs : list Z) i : 0 <= i < zlen xs -> zlen (delete (Z.to_nat i) xs) = zlen xs - 1.
Proof. intros Hi. unfold zlen in *. rewrite length_delete by (by rewrite item_lookup by done). lia. Qed.

Lemma zlen_removed xs i n :
  0 <= i < zlen xs ->
  zlen (take (Z.to_nat i) xs ++ drop (Z.to_nat (i + remove_count xs i n)) xs) = zlen xs - remove_count xs i n.
Proof.
  intros Hi. pose proof (remove_count_range xs i n Hi). unfold zlen in *.
  rewrite length_app, length_take, length_drop. lia.
Qed.

Definition implemented (h : heap) (l : blist) (xs : list Z) (op : list_op) : Prop :=
  unless_stale h l (zlen (list_step xs op).1) (implements h l xs op) (blist_step h l op).

Lemma add_implements h l xs x :
  holds h l xs -> implemented h l xs (OpAddItem x).
Proof.
  intros Hh. unfold implemented. simpl. destruct (Z.ltb_spec (zlen xs) MAX_LIST_COUNT).
  - destruct (AddItem_spec h l xs x Hh) as [(h' & l' & -> & Hh' & Hf)|[->|[-> Hl]]]; [done|left|left|right]; simpl.
    + eapply implements_step; [|exact Hh'|exact Hf]. simpl. by bdecide.
    + by apply implements_failed.
    + by rewrite zlen_app.
  - unfold AddItem. rewrite (holds_count _ _ _ Hh), (proj2 (Z.leb_le _ _)) by lia. left. simpl.
    by apply implements_failed.
Qed.

Lemma add_at_implements h l xs x i :
  holds h l xs -> implemented h l xs (OpAddItemAt x i).
Proof.
  intros Hh. unfold implemented. simpl.
  destruct ((0 <=? i) && (i <=? zlen xs) && (zlen xs <? MAX_LIST_COUNT)) eqn:Hb.
  - zbool.
    destruct (AddItem_at_spec h l xs x i Hh) as [(h' & l' & -> & Hh' & Hf)|[->|[-> Hl]]]; [done|done|left|left|right]; simpl.
    + eapply implements_step; [|exact Hh'|exact Hf]. simpl. by bdecide.
    + by apply implements_failed.
    + by rewrite zlen_insert_at.
  - assert (E : AddItem_at h l x i = Ok (h, l, false)).
    { unfold AddItem_at, AddItem. rewrite (holds_count _ _ _ Hh).
      destruct (Z.ltb_spec i 0), (Z.ltb_spec (zlen xs) i); try done. cbn [orb].
      rewrite (proj2 (Z.leb_le MAX_LIST_COUNT (zlen xs))); [by destruct (i =? zlen xs)|].
      rewrite !andb_false_iff in Hb. destruct Hb as [[Hb|Hb]|Hb]; zbool; lia. }
    rewrite E. left. simpl. by apply implements_failed.
Qed.

Lemma add_list_implements h l xs o ys :
  holds h l xs -> op_ok h l xs (OpAddList o ys) ->
  implemented h l xs (OpAddList o ys).
Proof.
  intros Hh [Ho Hne]. unfold implemented. simpl.
  destruct ((0 <? zlen ys) && (zlen xs + zlen ys <=? MAX_LIST_COUNT)) eqn:Hb.
  - zbool.
    assert (Hn : fObjects o <> fObjects l).
    { destruct Hne as [E|]; [|done]. destruct Ho as (_ & _ & _ & [(_ & -> & _)|(? & _)]); [zl|done]. }
    destruct (AddList_spec h l xs o ys Hh Ho Hn) as [(h' & l' & -> & Hh' & Hf)|[->|[-> Hl]]]; [done|done|left|left|right]; simpl.
    + eapply implements_step; [|exact Hh'|exact Hf]. simpl. by bdecide.
    + by apply implements_failed.
    + by rewrite zlen_app.
  - assert (E : AddList h l (Some o) = Ok (h, l, false)).
    { unfold AddList. rewrite (holds_count _ _ _ Hh), (holds_count _ _ _ Ho).
      destruct (Z.eqb_spec (zlen ys) 0); [done|].
      destruct (Z.ltb_spec (MAX_LIST_COUNT - zlen xs) (zlen ys)); [done|].
      apply andb_false_iff in Hb as [Hb|Hb]; zbool; zl. }
    rewrite E. left. simpl. by apply implements_failed.
Qed.

Lemma remove_implements h l xs x :
  holds h l xs -> op_ok h l xs (OpRemoveItem x) ->
  implemented h l xs (OpRemoveItem x).
Proof.
  intros Hh Hok. unfold implemented. simpl in *. destruct (decide (x = NULL)) as [->|Hx].
  - left. simpl. apply implements_same; [done|]. simpl. by rewrite andb_false_r.
  - assert (Hin : x ∈ xs) by (by destruct Hok).
    destruct (index_of_in xs x Hin) as [Hr _].
    rewrite (proj2 (inside_true _ _) Hr), (proj2 (Z.eqb_neq x NULL) Hx).
    destruct (RemoveItem_spec h l xs x Hh Hx Hin) as [(h' & l' & -> & Hh' & Hf)|[-> Hl]]; [left|right]; simpl.
    + eapply implements_step; [|exact Hh'|exact Hf]. simpl.
      by rewrite (proj2 (inside_true _ _) Hr), (proj2 (Z.eqb_neq x NULL) Hx).
    + by rewrite zlen_delete_at.
Qed.

Lemma remove_items_implements h l xs i n :
  holds h l xs -> implemented h l xs (OpRemoveItems i n).
Proof.
  intros Hh. unfold implemented. simpl. destruct (inside xs i) eqn:Hb.
  - pose proof (proj1 (inside_true _ _) Hb) as Hi. pose proof (remove_count_range xs i n Hi).
    destruct (RemoveItems_spec h l xs i n Hh Hi) as [(h' & l' & -> & Hh' & Hf)|[-> Hl]]; [left|right]; simpl.
    + eapply implements_step; [|exact Hh'|exact Hf]. simpl. by rewrite Hb.
    + by rewrite zlen_removed.
  - left. unfold RemoveItems. rewrite (holds_count _ _ _ Hh), (outside _ _ Hb). simpl.
    apply implements_same; [done|]. simpl. by rewrite Hb.
Qed.

Lemma replace_implements h l xs i x old :
  holds h l xs -> total (implements h l xs (OpReplaceItem i x old)) (blist_step h l (OpReplaceItem i x old)).
Proof.
  intros Hh. simpl. destruct (inside xs i) eqn:Hb.
  - pose proof (proj1 (inside_true _ _) Hb) as Hi.
    destruct (ReplaceItem_spec h l xs i x old Hh Hi) as (h' & -> & Hh' & Hf). simpl.
    eapply implements_step; [|exact Hh'|exact Hf]. simpl. by rewrite Hb.
  - unfold ReplaceItem. rewrite (holds_count _ _ _ Hh), (outside _ _ Hb). simpl.
    apply implements_same; [done|]. simpl. by rewrite Hb.
Qed.

Lemma swap_implements h l xs i j :
  holds h l xs -> 0 <= i < zlen xs ->
  total (implements h l xs (OpSwapItems i j)) (blist_step h l (OpSwapItems i j)).
Proof.
  intros Hh Hi. simpl. pose proof (proj2 (inside_true _ _) Hi) as Hb. destruct (inside xs j) eqn:Hb2.
  - pose proof (proj1 (inside_true _ _) Hb2) as Hj.
    destruct (SwapItems_spec h l xs i j Hh Hi Hj) as (h' & -> & Hh' & Hf). simpl.
    eapply implements_step; [|exact Hh'|exact Hf]. simpl. by rewrite Hb, Hb2.
  - unfold SwapItems. rewrite (load_item h l xs i Hh Hi), (holds_count _ _ _ Hh). cbn [obind].
    rewrite <- orb_assoc, (outside _ _ Hb2), orb_true_r. simpl.
    apply implements_same; [done|]. simpl. by rewrite Hb2, andb_false_r.
Qed.

Lemma move_implements h l xs i j :
  holds h l xs -> 0 <= i < zlen xs ->
  total (implements h l xs (OpMoveItem i j)) (blist_step h l (OpMoveItem i j)).
Proof.
  intros Hh Hi. simpl. pose proof (proj2 (inside_true _ _) Hi) as Hb. destruct (inside xs j) eqn:Hb2.
  - pose proof (proj1 (inside_true _ _) Hb2) as Hj.
    destruct (MoveItem_spec h l xs i j Hh Hi Hj) as (h' & -> & Hh' & Hf). simpl.
    eapply implements_step; [|exact Hh'|exact Hf]. simpl. by rewrite Hb, Hb2.
  - unfold MoveItem. rewrite (load_item h l xs i Hh Hi), (holds_count _ _ _ Hh). cbn [obind].
    rewrite <- orb_assoc, (outside _ _ Hb2), orb_true_r. simpl.
    apply implements_same; [done|]. simpl. by rewrite Hb2, andb_false_r.
Qed.

Lemma ItemAt_spec h l xs i : holds h l xs -> ItemAt h l i = Ok (item_at xs i).
Proof.
  intros Hh. unfold ItemAt. rewrite (holds_count _ _ _ Hh). destruct (inside xs i) eqn:Hb.
  - apply inside_true in Hb. rewrite (proj2 (Z.ltb_ge i 0)), (proj2 (Z.leb_gt _ _)) by lia.
    by apply load_item.
  - rewrite (outside _ _ Hb). unfold item_at. by rewrite Hb.
Qed.

Lemma ends_spec h l xs :
  holds h l xs ->
  FirstItem h l = Ok (item_at xs 0) /\ LastItem h l = Ok (item_at xs (zlen xs - 1)).
Proof.
  intros Hh. unfold FirstItem, LastItem. rewrite (holds_count _ _ _ Hh).
  destruct (Z.ltb_spec 0 (zlen xs)).
  - by rewrite !(load_item h l xs _ Hh) by lia.
  - unfold item_at, inside. zlen_facts. bdecide. simpl. done.
Qed.

Lemma IsEmpty_spec h l xs : holds h l xs -> IsEmpty l = bool_decide (xs = []).
Proof.
  intros Hh. unfold IsEmpty. rewrite (holds_count _ _ _ Hh). case_bool_decide as E.
  - by rewrite E.
  - apply Z.eqb_neq. destruct xs; [done|zl].
Qed.


(** *** Copying a list *)

(** [operator=] of lists without a minimum count: the items of the other list,
    or none when memory runs out. *)
Lemma BList_assign_spec h l xs o ys :
  holds h l xs -> holds h o ys -> fObjects o <> fObjects l -> fMinimumCount o = 0 ->
  exists h' l', BList_assign h l o = Ok (h', l') /\ (holds h' l' ys \/ holds h' l' []).
Proof.
  intros Hh Ho Hne Hmin. unfold BList_assign, BList_new. rewrite Hmin. simpl.
  assert (Hfree : exists h1, free h (fObjects l) = Ok h1 /\ holds h1 o ys).
  { unfold free, block. destruct (Z.eqb_spec (fObjects l) NULL) as [E|E]; [eauto|].
    destruct Hh as (_ & _ & _ & [(? & _)|(_ & k & Hb & _)]); [done|]. rewrite Hb. simpl.
    eexists. split; [done|]. unfold holds. by rewrite lookup_delete_ne. }
  destruct Hfree as (h1 & -> & Ho1). cbn [obind].
  assert (He : holds h1 blist0 []) by (apply (holds_empty h1 blist0); done).
  assert (Hok : op_ok h1 blist0 [] (OpAddList o ys)).
  { split; [done|]. destruct (decide (fObjects o = NULL)); auto. }
  destruct (add_list_implements h1 blist0 [] o ys He Hok) as [Ht|[_ Hl]]; [|by apply null_not_stale in Hl].
  simpl in Ht.
  apply total_ok in Ht as ([[h2 l2] res] & E & _ & Hcase).
  destruct (AddList h1 blist0 (Some o)) as [[[h3 l3] ok]| | |]; try done. injection E as <- <- <-.
  exists h3, l3. split; [done|]. simpl in Hcase.
  destruct Hcase as [[Hc _]|[_ Hc]]; [|injection Hc as -> -> _; by right].
  bcase_in Hc; simpl in Hc; [by left|by right].
Qed.

(** ** What goes wrong *)

(** Removing an item that is not in the list reads the entry before the
    array, at index -1, before the index is checked. *)
Theorem RemoveItem_absent h l xs x :
  holds h l xs -> x <> NULL -> x ∉ xs -> RemoveItem h l x = Fault.
Proof.
  intros Hh Hx Hin. unfold RemoveItem. rewrite (proj2 (Z.eqb_neq x NULL) Hx).
  rewrite (IndexOf_spec _ _ _ _ Hh), (index_of_out _ _ Hin). cbn [obind].
  unfold RemoveItem_at, load, block. by destruct (h !! fObjects l).
Qed.

(** A list that is added to itself: the count is read again after it has been
    doubled, so that the array is copied onto itself, or from where it was. *)
Theorem AddList_self h l xs :
  holds h l xs -> xs <> [] -> AddList h l None = Fault \/ AddList h l None = Ok (h, l, false).
Proof.
  intros Hh Hx. pose proof (nonnil_len xs) as _. unfold AddList. rewrite (holds_count _ _ _ Hh).
  assert (Hz : 0 < zlen xs) by (destruct xs; [done|zl]).
  rewrite (proj2 (Z.eqb_neq _ 0)) by lia.
  destruct (Z.ltb_spec (MAX_LIST_COUNT - zlen xs) (zlen xs)); [by right|].
  replace (zlen xs + zlen xs) with (Z.of_nat (length xs + length xs)) by (unfold zlen; lia).
  destruct (Resize_spec h l xs (length xs + length xs) Hh) as [Ht|[-> _]]; [unfold zlen in *; lia| |by left].
  apply total_ok in Ht as ([[h1 l1] ok] & -> & Hr).
  destruct Hr as [(E & Hh1 & _ & Hstale)|(E & _)]; simpl in *;
    [subst ok|injection E as -> -> ->; by right].
  left. rewrite (holds_count _ _ _ Hh1), Z.sub_diag. unfold memcpy.
  assert (Hz1 : 0 < zlen (resize (length xs + length xs) NULL xs))
    by (unfold zlen in *; rewrite length_resize; lia).
  destruct (Z.eqb_spec (fObjects l1) (fObjects l)) as [E|E].
  - rewrite (proj2 (Z.ltb_lt _ _)) by lia. done.
  - cbn [andb]. unfold memmove, block. rewrite Hstale; [done|congruence|].
    destruct (holds_block h l xs Hh Hx) as (k & Hb & _). by destruct Hh as (_ & _ & _ & [(_ & -> & _)|(? & _)]).
Qed.

(** Reading or writing past the end of a new block. *)
Lemma wrn_past {A} (b x : list A) i : zlen b < i + zlen x -> wrn b i x = Fault.
Proof. intros Hi. unfold wrn. by rewrite (proj2 (Z.ltb_lt _ _) Hi), orb_true_r. Qed.

(** A list is where it was when another block is made. *)
Lemma holds_other h l xs q b :
  holds h l xs -> h !! q = None -> q <> NULL -> holds (<[q := b]> (delete NULL h)) l xs.
Proof.
  intros (Hm & Hc & Hmax & Hb) Hq Hn. unfold holds. split; [done|]. split; [done|]. split; [done|].
  destruct Hb as [Hb|(Hn2 & k & Hb & Hr)]; [by left|]. right. split; [done|]. exists k.
  rewrite lookup_insert_ne, lookup_delete_ne by congruence. done.
Qed.

(** The copies through a buffer [buf] of so many entries. *)
Lemma overrun_copies h l xs o ys i q buf :
  holds h l xs -> holds h o ys -> fObjects o <> fObjects l -> ys <> [] -> 0 <= i < zlen xs ->
  zlen xs + zlen ys <= MAX_LIST_COUNT ->
  q <> NULL -> q <> fObjects l -> q <> fObjects o -> h !! q = Some buf ->
  zlen buf = zlen xs - i + zlen ys ->
  match (s <- _Resize h l (fItemCount l + zlen ys);;
         let '(h, l, ok) := s in
         if negb ok then Ok (h, l, false)
         else if q =? NULL then Ok (h, set_count l (fItemCount l - zlen ys), false)
         else
           h <- memcpy h q 0 (fObjects o) 0 (zlen ys);;
           h <- memcpy h q (zlen ys) (fObjects l) i (fItemCount l - i);;
           h <- memcpy h (fObjects l) i q 0 (fItemCount l - i + zlen ys);;
           h <- free h q;;
           Ok (h, l, true))
  with Ok r => r.2 = false | r => r = Fault end.
Proof.
  intros Hh Ho Hne Hy Hi Hmax Hq Hql Hqo Hb Hbuf. assert (Hz : 0 < zlen ys) by (destruct ys; [done|zl]).
  destruct (grow_run h l xs (zlen ys) Hh Hz Hmax) as [(h1 & l1 & -> & Hh1 & Hf1)|[->|[-> _]]]; [|done..].
  cbn [obind negb]. rewrite (proj2 (Z.eqb_neq q NULL) Hq), (holds_count _ _ _ Hh1).
  set (zs := xs ++ replicate (Z.to_nat (zlen ys)) NULL) in *.
  assert (Ezs : zlen zs = zlen xs + zlen ys)
    by (unfold zs; rewrite zlen_app; unfold zlen; rewrite length_replicate; lia).
  destruct (Hf1 _ _ Hb Hq Hql) as [Hb1 Hql1].
  destruct (holds_block h o ys Ho Hy) as (k & Hbo & _).
  assert (Hon : fObjects o <> NULL) by (by destruct Ho as (_ & _ & _ & [(_ & -> & _)|(? & _)])).
  destruct (Hf1 _ _ Hbo Hon Hne) as [Hbo1 _].
  destruct (holds_block h1 l1 zs Hh1) as (k1 & Hbl1 & _); [by intros E; rewrite E in Ezs; zl|].
  unfold memcpy at 1. rewrite (proj2 (Z.eqb_neq q (fObjects o)) Hqo). cbn [andb].
  unfold memmove, block. rewrite Hbo1. cbn [obind]. rewrite rdn_cells by lia. cbn [obind]. rewrite Hb1.
  cbn [obind]. rewrite drop_0, take_ge by (unfold zlen; lia).
  unfold wrn at 1. rewrite zlen_map, (proj2 (Z.ltb_ge (zlen buf) _)) by lia. cbn [Z.ltb Z.compare orb obind].
  set (buf1 := _ ++ _).
  assert (Hbuf1 : zlen buf1 = zlen buf).
  { unfold buf1, zlen in *. rewrite !length_app, length_map, length_take, length_drop. lia. }
  unfold memcpy at 1. rewrite (proj2 (Z.eqb_neq q (fObjects l1)) Hql1). cbn [andb].
  unfold memmove, block. rewrite lookup_insert_ne, Hbl1 by done. cbn [obind].
  rewrite rdn_cells by lia. cbn [obind]. rewrite lookup_insert_eq. cbn [obind].
  rewrite wrn_past; [done|]. rewrite zlen_map, Hbuf1. unfold zlen in *.
  rewrite length_take, length_drop. lia.
Qed.

(** Inserting a list anywhere but at the end writes past the buffer that
    [AddList(newItems, atIndex)] allocates: the items that follow are counted
    after the array has grown.  When it does not run out of memory it always
    faults. *)
Theorem AddList_at_overruns h l xs o ys i :
  holds h l xs -> holds h o ys -> fObjects o <> fObjects l -> ys <> [] ->
  0 <= i < zlen xs -> zlen xs + zlen ys <= MAX_LIST_COUNT ->
  match AddList_at h l o i with Ok r => r.2 = false | r => r = Fault end.
Proof.
  intros Hh Ho Hne Hy Hi Hmax. assert (Hz : 0 < zlen ys) by (destruct ys; [done|zl]).
  unfold AddList_at, MAX_LIST_COUNT, B_MAXINT32 in *. rewrite (holds_count _ _ _ Hh), (holds_count _ _ _ Ho).
  rewrite !assert_int_ok by (unfold INT_MIN, INT_MAX; lia). cbn [obind].
  destruct (realloc_null h (zlen xs - i + zlen ys)) as [->|(q & Hq & Hf & _ & ->)]; [lia| |]; cbn [obind].
  - rewrite (proj2 (Z.eqb_neq (zlen xs) 0)), (proj2 (Z.ltb_ge i 0)), (proj2 (Z.leb_gt _ _)),
      (proj2 (Z.eqb_neq (zlen ys) 0)), (proj2 (Z.ltb_ge _ _)) by lia. cbn [andb orb].
    rewrite <- (holds_count _ _ _ Hh).
    destruct (grow_run h l xs (zlen ys) Hh) as [(h1 & l1 & -> & _)|[->|[-> _]]]; [lia|done| | |]; done.
  - destruct Hf as [->|Hf]; [done|].
    rewrite (proj2 (Z.eqb_neq (zlen xs) 0)), (proj2 (Z.ltb_ge i 0)), (proj2 (Z.leb_gt _ _)),
      (proj2 (Z.eqb_neq (zlen ys) 0)), (proj2 (Z.ltb_ge _ _)) by lia. cbn [andb orb].
    set (buf := resized [] (zlen xs - i + zlen ys)).
    assert (Hbuf : zlen buf = zlen xs - i + zlen ys).
    { unfold buf, resized. rewrite take_nil, app_nil_l. unfold zlen in *. rewrite length_replicate.
      cbn [length]. lia. }
    assert (Hfresh : forall l' zs, holds h l' zs -> zs <> [] -> q <> fObjects l').
    { intros l' zs Hl Hzs ->. destruct (holds_block h l' zs Hl Hzs) as (k & Hb & _). congruence. }
    rewrite <- (holds_count _ _ _ Hh).
    apply (overrun_copies _ l xs o ys i q buf); eauto using holds_other.
    + apply (Hfresh l xs Hh). intros ->. zl.
    + apply lookup_insert_eq.
Qed.

(** Emptying an empty list leaks the block that [_Resize] asked for. *)
Theorem MakeEmpty_leaks h q :
  h !! NULL = None -> realloc_at h NULL 1 = Some q ->
  MakeEmpty h blist0 = Ok (<[q := [None]]> h, blist0).
Proof.
  intros Hn Hq. unfold MakeEmpty, _Resize, realloc. change (0 + 1) with 1. simpl. rewrite Hq. simpl.
  unfold resize_empty, free. simpl. by rewrite delete_id.
Qed.

End Correct.

(** *** What the code asks of [realloc] *)

Section Moving.
Context `{Realloc}.

(** When a block that shrinks moves, a list that is emptied is freed twice:
    [_Resize] calls [realloc] first and [free] on the old pointer then. *)
Theorem MakeEmpty_twice_freed h l p q b :
  fMinimumCount l = 0 -> fObjects l = p -> p <> NULL -> h !! p = Some b ->
  realloc_at h p 1 = Some q -> q <> p ->
  MakeEmpty h l = Fault.
Proof.
  intros Hm <- Hn Hb Hq Hne. unfold MakeEmpty, _Resize, realloc, block. change (0 + 1) with 1.
  rewrite (proj2 (Z.eqb_neq _ _) Hn), Hb. simpl. rewrite Hq. simpl.
  unfold resize_empty. rewrite Hm. simpl. unfold free, block.
  rewrite (proj2 (Z.eqb_neq _ _) Hn), lookup_insert_ne, lookup_delete_eq by done. done.
Qed.

End Moving.

Section Minimum.
Context `{ReallocOk} `{!ReallocStays}.

(** An allocator that has memory left, and that moves a block to let it grow. *)
Hypothesis realloc_some : forall h p n, 0 < n -> is_Some (realloc_at h p n).
Hypothesis realloc_moves : forall h p n b q,
  h !! p = Some b -> zlen b < n -> realloc_at h p n = Some q -> q <> p.

Lemma new_minimum h n :
  0 < n <= MAX_LIST_COUNT ->
  exists p h0, p <> NULL
    /\ BList_new h n = Ok (<[p := replicate (Z.to_nat (n + 1)) (Some NULL)]> h0,
         {| fObjects := p; fItemCount := 0; fItemReal := n + 1; fMinimumCount := n |}).
Proof.
  intros Hn. destruct (realloc_some h NULL (n + 1)) as [p Hp]; [lia|].
  destruct (realloc_fresh _ _ _ _ Hp) as [Hpn _]. exists p, (delete NULL h). split; [done|].
  unfold BList_new, _Resize, realloc. simpl. bdecide. simpl. rewrite Hp. cbn [obind].
  rewrite (proj2 (Z.eqb_neq p NULL) Hpn). rewrite Z.sub_0_r.
  erewrite bzero_ok; [|lia|apply lookup_insert_eq|].
  - cbn [obind]. rewrite insert_insert_eq. done.
  - unfold resized. rewrite take_nil, app_nil_l. cbn [length]. rewrite Nat.sub_0_r.
    rewrite <- (app_nil_l (replicate (Z.to_nat (n + 1)) None)), wrn_tail; [done|done|].
    by rewrite !length_replicate.
Qed.

(** The first item: [realloc] cuts the block down to two entries, which the
    list does not take note of. *)
Lemma minimum_first h p l b x :
  p <> NULL -> h !! p = Some b -> 2 <= zlen b -> fObjects l = p -> fItemCount l = 0 ->
  2 <= fMinimumCount l ->
  exists h' c, AddItem h l x = Ok (h', set_count l 1, true) /\ h' !! p = Some [c; Some NULL].
Proof.
  intros Hp Hb Hz Ho Hc Hm. destruct (realloc_some h p 2) as [q Hq]; [lia|].
  pose proof (realloc_in_place _ _ _ _ b Hq Hp Hb Hz) as ->.
  unfold AddItem, _Resize, realloc, block. rewrite Hc, Ho, Hb, (proj2 (Z.eqb_neq p NULL) Hp).
  change (MAX_LIST_COUNT <=? 0) with false. cbn [obind]. change (0 + 1 + 1) with 2.
  change (2 <? 0) with false. rewrite Hq. cbn [obind]. change (0 + 1) with 1.
  change (1 <=? 0) with false. change (MAX_LIST_COUNT <? 1) with false.
  rewrite (proj2 (Z.leb_le 1 (fMinimumCount l))) by lia. cbn [orb].
  destruct b as [|b0 [|b1 b]]; [by exfalso; unfold zlen in Hz; simpl in Hz; lia..|].
  cbn [fObjects set_count]. rewrite ?Ho. erewrite bzero_ok; [|done|apply lookup_insert_eq|reflexivity]. cbn [obind negb].
  unfold store, block. cbn [fObjects set_count fItemCount]. rewrite Ho, lookup_insert_eq.
  cbn [obind]. eexists _, _. split; [reflexivity|]. rewrite lookup_insert_eq. done.
Qed.

(** The second item: the two entries move. *)
Lemma minimum_second h p l b y :
  p <> NULL -> h !! p = Some b -> zlen b = 2 -> fObjects l = p -> fItemCount l = 1 ->
  2 <= fMinimumCount l -> AddItem h l y = Fault.
Proof.
  intros Hp Hb Hz Ho Hc Hm. destruct (realloc_some h p 3) as [q Hq]; [lia|].
  assert (Hqp : q <> p) by (eapply realloc_moves; [exact Hb| |exact Hq]; lia).
  unfold AddItem, _Resize, realloc, block. rewrite Hc, Ho, Hb, (proj2 (Z.eqb_neq p NULL) Hp).
  change (MAX_LIST_COUNT <=? 1) with false. cbn [obind]. change (1 + 1 + 1) with 3.
  change (3 <? 0) with false. rewrite Hq. cbn [obind]. change (1 + 1) with 2.
  change (2 <=? 0) with false. change (MAX_LIST_COUNT <? 2) with false.
  rewrite (proj2 (Z.leb_le 2 (fMinimumCount l))) by lia. cbn [orb].
  unfold bzero, block. change (1 <? 0) with false. cbn [fObjects set_count]. by rewrite ?Ho, lookup_insert_ne, lookup_delete_eq.
Qed.

(** A list with a minimum count, [BList(n)], is broken: the block that
    [_Resize] shrinks when the first item is added is too small for the
    second, [realloc] moves it, and the code goes on with the old pointer. *)
Theorem BList_minimum_stale h n x y :
  2 <= n <= MAX_LIST_COUNT ->
  (s <- BList_new h n;;
   s <- AddItem s.1 s.2 x;;
   AddItem s.1.1 s.1.2 y) = Fault.
Proof.
  intros Hn. destruct (new_minimum h n) as (p & h0 & Hp & ->); [lia|]. cbn [obind fst snd].
  set (b := replicate _ _). set (l := {| fObjects := p; fItemCount := _; fItemReal := _; fMinimumCount := _ |}).
  assert (Hb : 2 <= zlen b) by (unfold b, zlen; rewrite length_replicate; lia).
  destruct (minimum_first (<[p := b]> h0) p l b x Hp (lookup_insert_eq _ _ _) Hb) as (h1 & c & -> & Hb1);
    [done|done|simpl; lia|].
  cbn [obind fst snd]. apply (minimum_second h1 p _ _ y Hp Hb1); simpl; [done|done|done|lia].
Qed.

End Minimum.

(** ** Examples *)

(** An allocator: a block that does not grow stays, another one goes to the
    first address above all others. *)
Definition top_address (h : heap) : Z := map_fold (fun p _ m => Z.max p m) 0 h.

#[export] Instance bump : Realloc := {
  realloc_at h p n :=
    match (if p =? NULL then None else h !! p) with
    | Some b => if n <=? zlen b then Some p else Some (top_address h + 1)
    | None => Some (top_address h + 1)
    end
}.

Lemma top_address_above (h : heap) : 0 <= top_address h /\ forall p b, h !! p = Some b -> p <= top_address h.
Proof.
  unfold top_address. apply (map_fold_weak_ind (fun m h => 0 <= m /\ forall p b, h !! p = Some b -> p <= m)).
  - split; [done|]. intros p b Hb. by rewrite lookup_empty in Hb.
  - intros p b h' m Hp [Hm IH]. split; [lia|]. intros q c Hc.
    apply lookup_insert_Some in Hc as [[<- _]|[_ Hc]]; [lia|]. specialize (IH _ _ Hc). lia.
Qed.

#[export] Instance bump_ok : ReallocOk.
Proof.
  assert (Hfresh : forall (h : heap), top_address h + 1 <> NULL /\ h !! (top_address h + 1) = None).
  { intros h. destruct (top_address_above h) as [Hm Hp]. unfold NULL. split; [lia|].
    destruct (h !! (top_address h + 1)) as [b|] eqn:E; [|done]. specialize (Hp _ _ E). lia. }
  split; simpl.
  intros h p n q Hq. destruct (Hfresh h) as [H1 H2]. destruct (Z.eqb_spec p NULL).
  - injection Hq as <-. auto.
  - destruct (h !! p) as [b|]; [destruct (n <=? zlen b)|]; injection Hq as <-; auto.
Qed.

#[export] Instance bump_stays : ReallocStays.
Proof.
  split; simpl. intros h p n q b Hq Hp Hb Hn.
  rewrite (proj2 (Z.eqb_neq _ _) Hp), Hb, (proj2 (Z.leb_le _ _) Hn) in Hq. by injection Hq.
Qed.

Definition heap1 : heap := <[1 := cells [7; 8] 0]> (<[2 := cells [5; 6] 0]> ∅).
Definition list1 : blist := {| fObjects := 1; fItemCount := 2; fItemReal := 3; fMinimumCount := 0 |}.
Definition list2 : blist := {| fObjects := 2; fItemCount := 2; fItemReal := 3; fMinimumCount := 0 |}.

Lemma holds1 : holds heap1 list1 [7; 8].
Proof. split; [done|]. split; [done|]. split; [done|]. right. split; [done|]. by exists O. Defined.

Lemma holds2 : holds heap1 list2 [5; 6].
Proof. split; [done|]. split; [done|]. split; [done|]. right. split; [done|]. by exists O. Defined.


Lemma RemoveItem_absent_witness : RemoveItem heap1 list1 9 = Fault.
Proof.
  apply (RemoveItem_absent heap1 list1 [7; 8] 9 holds1); [done|].
  apply (bool_decide_eq_true_1 (9 ∉ [7; 8])). reflexivity.
Defined.

Lemma AddList_at_overruns_witness : AddList_at heap1 list1 list2 1 = Fault.
Proof.
  pose proof (AddList_at_overruns heap1 list1 [7; 8] list2 [5; 6] 1 holds1 holds2) as H.
  assert (E : match AddList_at heap1 list1 list2 1 with Ok _ => false | _ => true end = true) by reflexivity.
  destruct (AddList_at heap1 list1 list2 1); [done|..]; apply H; done.
Defined.

(** With this allocator [BList(4)] faults at its second item. *)
Lemma BList_minimum_stale_witness :
  (s <- BList_new ∅ 4;; s <- AddItem s.1 s.2 7;; AddItem s.1.1 s.1.2 8) = Fault.
Proof.
  apply BList_minimum_stale.
  - intros h p n _. simpl. destruct (if p =? NULL then None else h !! p) as [b|]; [destruct (n <=? zlen b)|]; eauto.
  - intros h p n b q Hb Hn Hq. simpl in Hq. destruct (top_address_above h) as [Hm Hp].
    specialize (Hp _ _ Hb). destruct (Z.eqb_spec p NULL) as [->|].
    + injection Hq as <-. unfold NULL. lia.
    + rewrite Hb, (proj2 (Z.leb_gt _ _) Hn) in Hq. injection Hq as <-. lia.
  - done.
Defined.
