(* ===== verification/TimeOfDay.v ===== *)
(** The time of day of the support kit, [BTime] (kits/support/DateTime.cpp):
    microseconds since midnight, or -1 for a time that is not set.

    [bigtime_t] has 64 bits; no sum here comes near its bounds, which
    [SetTime_fits] says for the largest of them. *)

From Stdlib Require Import ZArith Lia List Bool.
From stdpp Require Import base tactics list numbers.
From S2P Require Import Prelude.
Local Open Scope Z_scope.
Local Open Scope c_scope.

(** ** Definitions *)

Definition kSecondsPerMinute : Z := 60.
Definition kHoursPerDay : Z := 24.
Definition kMinutesPerDay : Z := 1440.
Definition kSecondsPerDay : Z := 86400.
Definition kMillisecondsPerDay : Z := 86400000.
Definition kMicrosecondsPerSecond : Z := 1000000.
Definition kMicrosecondsPerMinute : Z := 60000000.
Definition kMicrosecondsPerHour : Z := 3600000000.
Definition kMicrosecondsPerDay : Z := 86400000000.

Record BTime : Type := Time { fMicroseconds : Z }.

#[export] Instance BTime_eq_dec : EqDecision BTime.
Proof. solve_decision. Defined.

Inductive diff_type : Type :=
| B_HOURS_DIFF | B_MINUTES_DIFF | B_SECONDS_DIFF | B_MILLISECONDS_DIFF | B_MICROSECONDS_DIFF.

Definition BTime0 : BTime := Time (-1).

Definition BTime_IsValid (t : BTime) : bool :=
  (-1 <? fMicroseconds t) && (fMicroseconds t <? kMicrosecondsPerDay).

(** [_SetTime]: what the object holds afterwards, and the result. *)
Definition BTime_SetTime (hour minute second microsecond : Z) : BTime * bool :=
  let t := Time (hour * kMicrosecondsPerHour + minute * kMicrosecondsPerMinute
                 + second * kMicrosecondsPerSecond + microsecond) in
  let isValid := BTime_IsValid t in
  (if negb isValid then Time (-1) else t, isValid).

Definition BTime_new (hour minute second microsecond : Z) : BTime :=
  (BTime_SetTime hour minute second microsecond).1.

Definition BTime_IsValid4 (hour minute second microsecond : Z) : bool :=
  BTime_IsValid (BTime_new hour minute second microsecond).

Definition _Microseconds (t : BTime) : Z :=
  if fMicroseconds t =? -1 then 0 else fMicroseconds t.

Definition _AddMicroseconds (t : BTime) (microseconds : Z) : BTime :=
  let count :=
    if microseconds <? 0
    then Z.quot (kMicrosecondsPerDay - microseconds) kMicrosecondsPerDay * kMicrosecondsPerDay
    else 0 in
  Time (Z.rem (_Microseconds t + microseconds + count) kMicrosecondsPerDay).

Definition AddHours (t : BTime) (hours : Z) : BTime :=
  _AddMicroseconds t (Z.rem hours kHoursPerDay * kMicrosecondsPerHour).
Definition AddMinutes (t : BTime) (minutes : Z) : BTime :=
  _AddMicroseconds t (Z.rem minutes kMinutesPerDay * kMicrosecondsPerMinute).
Definition AddSeconds (t : BTime) (seconds : Z) : BTime :=
  _AddMicroseconds t (Z.rem seconds kSecondsPerDay * kMicrosecondsPerSecond).
Definition AddMilliseconds (t : BTime) (milliseconds : Z) : BTime :=
  _AddMicroseconds t (Z.rem milliseconds kMillisecondsPerDay * 1000).
Definition AddMicroseconds (t : BTime) (microseconds : Z) : BTime := _AddMicroseconds t microseconds.

Definition Hour (t : BTime) : Z := i32 (Z.quot (_Microseconds t) kMicrosecondsPerHour).
Definition Minute (t : BTime) : Z :=
  i32 (Z.quot (Z.rem (_Microseconds t) kMicrosecondsPerHour) kMicrosecondsPerMinute).
Definition Second (t : BTime) : Z :=
  Z.rem (i32 (Z.quot (_Microseconds t) kMicrosecondsPerSecond)) kSecondsPerMinute.
Definition Microsecond (t : BTime) : Z := i32 (Z.rem (_Microseconds t) kMicrosecondsPerSecond).
Definition Millisecond (t : BTime) : Z := Z.quot (Microsecond t) 1000.

Definition BTime_Difference (t time : BTime) (type : diff_type) : Z :=
  let diff := _Microseconds time - _Microseconds t in
  match type with
  | B_HOURS_DIFF => Z.quot diff kMicrosecondsPerHour
  | B_MINUTES_DIFF => Z.quot diff kMicrosecondsPerMinute
  | B_SECONDS_DIFF => Z.quot diff kMicrosecondsPerSecond
  | B_MILLISECONDS_DIFF => Z.quot diff 1000
  | B_MICROSECONDS_DIFF => diff
  end.

Definition BTime_ne (t time : BTime) : bool := negb (fMicroseconds t =? fMicroseconds time).
Definition BTime_eq (t time : BTime) : bool := fMicroseconds t =? fMicroseconds time.
Definition BTime_lt (t time : BTime) : bool := fMicroseconds t <? fMicroseconds time.
Definition BTime_le (t time : BTime) : bool := fMicroseconds t <=? fMicroseconds time.
Definition BTime_gt (t time : BTime) : bool := fMicroseconds time <? fMicroseconds t.
Definition BTime_ge (t time : BTime) : bool := fMicroseconds time <=? fMicroseconds t.

(** ** What the operations do *)

(** A time that is set, or none: no other value arises but from an archive. *)
Definition wf_time (t : BTime) : Prop := -1 <= fMicroseconds t < kMicrosecondsPerDay.

#[export] Instance wf_time_dec t : Decision (wf_time t).
Proof. unfold wf_time. apply _. Defined.

Ltac time_consts :=
  unfold kSecondsPerMinute, kHoursPerDay, kMinutesPerDay, kSecondsPerDay, kMillisecondsPerDay,
    kMicrosecondsPerSecond, kMicrosecondsPerMinute, kMicrosecondsPerHour, kMicrosecondsPerDay in *.

Lemma BTime_IsValid_true t : BTime_IsValid t = true <-> 0 <= fMicroseconds t < kMicrosecondsPerDay.
Proof. unfold BTime_IsValid. rewrite andb_true_iff, !Z.ltb_lt. lia. Qed.

Lemma _Microseconds_range t : wf_time t -> 0 <= _Microseconds t < kMicrosecondsPerDay.
Proof. unfold wf_time, _Microseconds. time_consts. intros H. destruct (Z.eqb_spec (fMicroseconds t) (-1)); lia. Qed.

Lemma _Microseconds_valid t : BTime_IsValid t = true -> _Microseconds t = fMicroseconds t.
Proof.
  rewrite BTime_IsValid_true. unfold _Microseconds. intros H.
  destruct (Z.eqb_spec (fMicroseconds t) (-1)); lia.
Qed.

Lemma mod_unique_add a b q : 0 < b -> 0 <= a + q * b < b -> a + q * b = a mod b.
Proof. intros Hb Ha. rewrite <- (Z.mod_add a q b) by lia. symmetry. by apply Z.mod_small. Qed.

(** Adding wraps around midnight, whatever the sign. *)
Lemma _AddMicroseconds_mod t us :
  wf_time t -> _AddMicroseconds t us = Time ((_Microseconds t + us) mod kMicrosecondsPerDay).
Proof.
  intros Ht. pose proof (_Microseconds_range t Ht) as Hr. unfold _AddMicroseconds. f_equal.
  assert (Hd : 0 < kMicrosecondsPerDay) by done.
  destruct (Z.ltb_spec us 0).
  - set (q := Z.quot (kMicrosecondsPerDay - us) kMicrosecondsPerDay).
    assert (Hq : kMicrosecondsPerDay - us - kMicrosecondsPerDay < q * kMicrosecondsPerDay).
    { unfold q. rewrite Z.quot_div_nonneg by lia.
      pose proof (Z.mul_succ_div_gt (kMicrosecondsPerDay - us) kMicrosecondsPerDay Hd). lia. }
    rewrite Z.rem_mod_nonneg by lia. by rewrite Z.mod_add by lia.
  - rewrite Z.add_0_r, Z.rem_mod_nonneg by lia. done.
Qed.

Lemma wf_Time_mod x : wf_time (Time (x mod kMicrosecondsPerDay)).
Proof. unfold wf_time. simpl. pose proof (Z.mod_pos_bound x kMicrosecondsPerDay). time_consts. lia. Qed.

Lemma BTime_mod_valid x : BTime_IsValid (Time (x mod kMicrosecondsPerDay)) = true.
Proof. apply BTime_IsValid_true. simpl. by apply Z.mod_pos_bound. Qed.

(** A unit that divides the day: reducing the number of units first changes
    nothing. *)
Lemma rem_units n per unit t :
  0 < per -> per * unit = kMicrosecondsPerDay ->
  (t + Z.rem n per * unit) mod kMicrosecondsPerDay = (t + n * unit) mod kMicrosecondsPerDay.
Proof.
  intros Hp Hu. rewrite <- (Z.mod_add (t + Z.rem n per * unit) (Z.quot n per)) by (rewrite <- Hu; time_consts; nia).
  f_equal. rewrite <- Hu. pose proof (Z.quot_rem' n per). nia.
Qed.

(** The microseconds in one unit of each of the [Add] functions. *)
Inductive time_unit : Type := UHours | UMinutes | USeconds | UMilliseconds | UMicroseconds.

Definition unit_us (u : time_unit) : Z :=
  match u with
  | UHours => kMicrosecondsPerHour
  | UMinutes => kMicrosecondsPerMinute
  | USeconds => kMicrosecondsPerSecond
  | UMilliseconds => 1000
  | UMicroseconds => 1
  end.

Definition time_add (u : time_unit) : BTime -> Z -> BTime :=
  match u with
  | UHours => AddHours
  | UMinutes => AddMinutes
  | USeconds => AddSeconds
  | UMilliseconds => AddMilliseconds
  | UMicroseconds => AddMicroseconds
  end.

Lemma time_add_mod u t n :
  wf_time t -> time_add u t n = Time ((_Microseconds t + n * unit_us u) mod kMicrosecondsPerDay).
Proof.
  intros Ht. destruct u; simpl; unfold AddHours, AddMinutes, AddSeconds, AddMilliseconds, AddMicroseconds;
    rewrite _AddMicroseconds_mod by done; f_equal; try (apply rem_units; done).
  f_equal. lia.
Qed.

(** Adding to a time.  Every [Add] function of [BTime], on a time that is
    set or not set, gives a valid time, the sum modulo a day; additions of the
    same unit in sequence are the addition of their sum, and what is added can
    be taken away again. *)
Theorem BTime_add_correct u t n m :
  wf_time t ->
  BTime_IsValid (time_add u t n) = true
  /\ fMicroseconds (time_add u t n) = (_Microseconds t + n * unit_us u) mod kMicrosecondsPerDay
  /\ time_add u (time_add u t n) m = time_add u t (n + m)
  /\ (BTime_IsValid t = true -> time_add u (time_add u t n) (- n) = t).
Proof.
  intros Ht. rewrite (time_add_mod u t n Ht). split; [apply BTime_mod_valid|]. split; [done|].
  assert (E : forall k, time_add u (Time ((_Microseconds t + n * unit_us u) mod kMicrosecondsPerDay)) k
      = Time ((_Microseconds t + (n + k) * unit_us u) mod kMicrosecondsPerDay)).
  { intros k. rewrite time_add_mod by apply wf_Time_mod.
    rewrite (_Microseconds_valid _ (BTime_mod_valid _)). simpl. f_equal.
    rewrite Zplus_mod_idemp_l. f_equal. lia. }
  split; [by rewrite E, time_add_mod|].
  intros Hv. rewrite E, (_Microseconds_valid t Hv). apply BTime_IsValid_true in Hv.
  replace (fMicroseconds t + (n + - n) * unit_us u) with (fMicroseconds t) by lia.
  rewrite Z.mod_small by done. by destruct t.
Qed.

(** *** Fields *)

Lemma i32_small x : 0 <= x < 2 ^ 31 -> i32 x = x.
Proof. intros H. unfold i32. apply swrap_id; lia. Qed.

Lemma fields_div t : wf_time t ->
  Hour t = _Microseconds t / kMicrosecondsPerHour
  /\ Minute t = _Microseconds t mod kMicrosecondsPerHour / kMicrosecondsPerMinute
  /\ Second t = _Microseconds t / kMicrosecondsPerSecond mod kSecondsPerMinute
  /\ Microsecond t = _Microseconds t mod kMicrosecondsPerSecond.
Proof.
  intros Ht. pose proof (_Microseconds_range t Ht) as Hr.
  unfold Hour, Minute, Second, Microsecond. set (u := _Microseconds t) in *. time_consts.
  rewrite !(Z.quot_div_nonneg u), !(Z.rem_mod_nonneg u) by lia.
  rewrite Z.quot_div_nonneg by (try apply Z.mod_pos_bound; lia).
  rewrite !i32_small by (Z.to_euclidean_division_equations; lia).
  split; [done|]. split; [done|]. split; [|done].
  apply Z.rem_mod_nonneg; [|lia]. Z.to_euclidean_division_equations; lia.
Qed.

(** The fields of a time.  A time that is set from an hour, a minute, a
    second and a microsecond within their ranges is valid and has these
    fields, and every valid time is the one that its fields set. *)
Theorem BTime_fields_round_trip hour minute second us t :
  0 <= hour < 24 -> 0 <= minute < 60 -> 0 <= second < 60 -> 0 <= us < 1000000 ->
  BTime_IsValid t = true ->
  (let t' := BTime_new hour minute second us in
   BTime_IsValid t' = true /\ Hour t' = hour /\ Minute t' = minute /\ Second t' = second
   /\ Microsecond t' = us /\ Millisecond t' = us / 1000)
  /\ BTime_new (Hour t) (Minute t) (Second t) (Microsecond t) = t.
Proof.
  intros Hh Hm Hs Hu Hv. split.
  - set (x := hour * kMicrosecondsPerHour + minute * kMicrosecondsPerMinute
              + second * kMicrosecondsPerSecond + us).
    assert (Hx : 0 <= x < kMicrosecondsPerDay) by (unfold x; time_consts; lia).
    assert (Hvx : BTime_IsValid (Time x) = true) by by apply BTime_IsValid_true.
    assert (E : BTime_new hour minute second us = Time x).
    { unfold BTime_new, BTime_SetTime. fold x. by rewrite Hvx. }
    rewrite E. cbv zeta. assert (Hw : wf_time (Time x)) by (unfold wf_time; simpl; lia).
    destruct (fields_div _ Hw) as (Eh & Em & Es & Eu). unfold Millisecond.
    rewrite Eh, Em, Es, Eu, (_Microseconds_valid _ Hvx). cbn [fMicroseconds]. unfold x. time_consts.
    split; [done|]. rewrite Z.quot_div_nonneg by (try lia; apply Z.mod_pos_bound; lia).
    Z.to_euclidean_division_equations; lia.
  - pose proof (proj1 (BTime_IsValid_true t) Hv) as Hr.
    assert (Hw : wf_time t) by (unfold wf_time; lia).
    destruct (fields_div t Hw) as (Eh & Em & Es & Eu). rewrite Eh, Em, Es, Eu, (_Microseconds_valid _ Hv).
    unfold BTime_new, BTime_SetTime.
    replace (_ + _ + _ + _) with (fMicroseconds t) by (time_consts; Z.to_euclidean_division_equations; lia).
    destruct t as [u]. cbn [fMicroseconds]. by rewrite Hv.
Qed.

(** The fields are not checked one by one. *)
Theorem BTime_minutes_unchecked : BTime_IsValid4 0 90 0 0 = true /\ BTime_IsValid4 1 (-30) 0 0 = true.
Proof. by vm_compute. Qed.

(** No [int32_t] arguments overflow the 64-bit sum of [_SetTime]. *)
Theorem SetTime_fits hour minute second us :
  INT_MIN <= hour <= INT_MAX -> INT_MIN <= minute <= INT_MAX ->
  INT_MIN <= second <= INT_MAX -> INT_MIN <= us <= INT_MAX ->
  Z.abs (hour * kMicrosecondsPerHour) + Z.abs (minute * kMicrosecondsPerMinute)
  + Z.abs (second * kMicrosecondsPerSecond) + Z.abs us < 2 ^ 63.
Proof. unfold INT_MIN, INT_MAX. time_consts. lia. Qed.

(** *** Differences *)

Lemma BTime_Difference_add t time :
  BTime_IsValid t = true -> BTime_IsValid time = true ->
  AddMicroseconds t (BTime_Difference t time B_MICROSECONDS_DIFF) = time
  /\ - kMicrosecondsPerDay < BTime_Difference t time B_MICROSECONDS_DIFF < kMicrosecondsPerDay
  /\ BTime_lt t time = (0 <? BTime_Difference t time B_MICROSECONDS_DIFF)
  /\ BTime_ne t time = negb (BTime_eq t time).
Proof.
  intros H1 H2. unfold AddMicroseconds, BTime_Difference, BTime_lt, BTime_ne, BTime_eq.
  rewrite (_Microseconds_valid _ H1), (_Microseconds_valid _ H2).
  apply BTime_IsValid_true in H1, H2. split; [|split; [lia|split; [|done]]].
  - rewrite _AddMicroseconds_mod by (unfold wf_time; lia).
    rewrite _Microseconds_valid by by apply BTime_IsValid_true. destruct time as [u]. simpl in *. f_equal.
    replace (fMicroseconds t + (u - fMicroseconds t)) with u by lia. by apply Z.mod_small.
  - destruct (Z.ltb_spec (fMicroseconds t) (fMicroseconds time)), (Z.ltb_spec 0 (fMicroseconds time - fMicroseconds t)); lia.
Qed.

(** ** Examples *)

Lemma BTime_add_correct_witness :
  fMicroseconds (AddMinutes (BTime_new 0 30 0 0) (-45)) = 85500000000
  /\ BTime_IsValid (AddMinutes (BTime_new 0 30 0 0) (-45)) = true.
Proof.
  split; [reflexivity|]. apply (BTime_add_correct UMinutes (BTime_new 0 30 0 0) (-45) 0).
  apply (bool_decide_eq_true_1 (wf_time (BTime_new 0 30 0 0))). reflexivity.
Defined.

Lemma BTime_fields_round_trip_witness :
  Minute (BTime_new 23 59 58 999999) = 59
  /\ BTime_new (Hour (Time 7)) (Minute (Time 7)) (Second (Time 7)) (Microsecond (Time 7)) = Time 7.
Proof.
  destruct (BTime_fields_round_trip 23 59 58 999999 (Time 7)) as [(_ & _ & H & _) H']; [lia..|reflexivity|].
  split; [exact H|exact H'].
Defined.
