(* ===== verification/Calendar.v ===== *)
(** The dates of the support kit, [BDate] (kits/support/DateTime.cpp): days of
    the Julian calendar up to 4 October 1582, of the Gregorian one from 15
    October 1582 on, with no year 0, and their Julian day numbers. *)

From Stdlib Require Import ZArith Lia List Bool.
From stdpp Require Import base tactics list numbers.
From S2P Require Import Prelude Clipping.
Local Open Scope Z_scope.
Local Open Scope c_scope.

(** ** Definitions *)

Definition B_ERROR : Z := -1.

Record BDate : Type := Date { fDay : Z; fYear : Z; fMonth : Z }.

#[export] Instance BDate_eq_dec : EqDecision BDate.
Proof. solve_decision. Defined.

Definition BDate0 : BDate := {| fDay := -1; fYear := 0; fMonth := -1 |}.

Definition IsLeapYear (year : Z) : bool :=
  if year <? 1582 then
    let year := if year <? 0 then year + 1 else year in
    Z.rem year 4 =? 0
  else (Z.rem year 400 =? 0) || ((Z.rem year 4 =? 0) && negb (Z.rem year 100 =? 0)).

Definition daysInMonth : list Z := [31; 28; 31; 30; 31; 30; 31; 31; 30; 31; 30; 31].

Definition _DaysInMonth (year month : Z) : outcome Z :=
  if (month =? 2) && IsLeapYear year then Ok 29 else rd daysInMonth (month - 1).

(** The days that the change of calendar skipped. *)
Definition missing_day (year month day : Z) : bool :=
  (year =? 1582) && (month =? 10) && (4 <? day) && (day <? 15).

Definition BDate_IsValid3 (year month day : Z) : outcome bool :=
  if (year =? 0) || (year <? -4713) then Ok false
  else if (month <? 1) || (12 <? month) then Ok false
  else
    bad <- (if day <? 1 then Ok true else n <- _DaysInMonth year month;; Ok (n <? day));;
    if bad then Ok false
    else if missing_day year month day then Ok false
    else Ok true.

Definition BDate_IsValid (d : BDate) : outcome bool := BDate_IsValid3 (fYear d) (fMonth d) (fDay d).

(** [_SetDate]: what the object holds afterwards, and the result. *)
Definition BDate_SetDate (year month day : Z) : outcome (BDate * bool) :=
  valid <- BDate_IsValid3 year month day;;
  if valid then Ok ({| fDay := day; fYear := year; fMonth := month |}, true)
  else Ok (BDate0, false).

Definition BDate_new (year month day : Z) : outcome BDate :=
  s <- BDate_SetDate year month day;; Ok s.1.

(** A sum of [int]s, from the left. *)
Fixpoint sum_int (s : Z) (l : list Z) : outcome Z :=
  match l with
  | [] => Ok s
  | x :: l => s <- add_int s x;; sum_int s l
  end.

Definition _DateToJulianDay (_year month day : Z) : outcome Z :=
  valid <- BDate_IsValid3 _year month day;;
  if valid then
    let year := if _year <? 0 then _year + 1 else _year in
    let a := Z.quot (14 - month) 12 in
    y <- sum_int year [4800; - a];;
    let m := month + 12 * a - 3 in
    if (1582 <? year) || ((year =? 1582) && (10 <? month))
       || ((year =? 1582) && (month =? 10) && (15 <=? day)) then
      assert_int (365 * y);;;
      sum_int day [Z.quot (153 * m + 2) 5; 365 * y; Z.quot y 4; - Z.quot y 100; Z.quot y 400; -32045]
    else if (year <? 1582) || ((year =? 1582) && (month <? 10))
       || ((year =? 1582) && (month =? 10) && (day <=? 4)) then
      assert_int (365 * y);;;
      sum_int day [Z.quot (153 * m + 2) 5; 365 * y; Z.quot y 4; -32083]
    else Ok B_ERROR
  else Ok B_ERROR.

Definition DateToJulianDay (d : BDate) : outcome Z := _DateToJulianDay (fYear d) (fMonth d) (fDay d).

Definition kGregorianCalendarStart : Z := 2299161.

(** The conversion of [x + 1.5] from [double] to [int32_t]. *)
Definition round_up_half (x : Z) : Z := Z.quot (2 * x + 3) 2.

Definition JulianDayToDate (julianDay : Z) : outcome BDate :=
  if kGregorianCalendarStart <=? julianDay then
    j <- add_int julianDay 32044;;
    let dg := Z.rem j 146097 in
    let c := Z.quot ((Z.quot dg 36524 + 1) * 3) 4 in
    let dc := dg - c * 36524 in
    let db := Z.rem dc 1461 in
    let a := Z.quot ((Z.quot db 365 + 1) * 3) 4 in
    let da := db - a * 365 in
    let m := Z.quot (da * 5 + 308) 153 - 2 in
    Ok {| fYear := Z.quot j 146097 * 400 + c * 100 + Z.quot dc 1461 * 4 + a - 4800 + Z.quot (m + 2) 12;
          fMonth := Z.rem (m + 2) 12 + 1;
          fDay := round_up_half (da - Z.quot ((m + 4) * 153) 5 + 122) |}
  else if 0 <=? julianDay then
    let julianDay := julianDay + 32082 in
    let d := Z.quot (4 * julianDay + 3) 1461 in
    let e := julianDay - Z.quot (1461 * d) 4 in
    let m := Z.quot (5 * e + 2) 153 in
    let year := d - 4800 + Z.quot m 10 in
    Ok {| fDay := e - Z.quot (153 * m + 2) 5 + 1;
          fMonth := m + 3 - 12 * Z.quot m 10;
          fYear := if year <=? 0 then year - 1 else year |}
  else Ok BDate0.

Definition AddDays (d : BDate) (days : Z) : outcome BDate :=
  valid <- BDate_IsValid d;;
  if valid then
    j <- DateToJulianDay d;;
    j <- add_int j days;;
    JulianDayToDate j
  else Ok d.

(** There is no year 0: a step over it goes one further. *)
Definition skip_year_0 (tmp year n : Z) : outcome Z :=
  if ((0 <? tmp) && (year <=? 0)) || ((tmp <? 0) && (0 <=? year))
  then add_int year (if 0 <? n then 1 else -1)
  else Ok year.

Definition AddYears (d : BDate) (years : Z) : outcome BDate :=
  valid <- BDate_IsValid d;;
  if valid then
    year <- add_int (fYear d) years;;
    year <- skip_year_0 (fYear d) year years;;
    n <- _DaysInMonth year (fMonth d);;
    Ok {| fDay := min_c (fDay d) n; fYear := year; fMonth := fMonth d |}
  else Ok d.

Definition AddMonths (d : BDate) (months : Z) : outcome BDate :=
  valid <- BDate_IsValid d;;
  if valid then
    year <- add_int (fYear d) (Z.quot months 12);;
    let month := fMonth d + Z.rem months 12 in
    s <- (if 12 <? month then y <- add_int year 1;; Ok (y, month - 12)
          else if month <? 1 then y <- add_int year (-1);; Ok (y, month + 12)
          else Ok (year, month));;
    let '(year, month) := s in
    year <- skip_year_0 (fYear d) year months;;
    let day := if missing_day year month (fDay d) then if 0 <? months then 15 else 4 else fDay d in
    n <- _DaysInMonth year month;;
    Ok {| fDay := min_c day n; fYear := year; fMonth := month |}
  else Ok d.

Definition SetDay (d : BDate) (day : Z) : BDate :=
  {| fDay := day; fYear := fYear d; fMonth := fMonth d |}.
Definition SetMonth (d : BDate) (month : Z) : BDate :=
  {| fDay := fDay d; fYear := fYear d; fMonth := month |}.
Definition SetYear (d : BDate) (year : Z) : BDate :=
  {| fDay := fDay d; fYear := year; fMonth := fMonth d |}.

Definition BDate_Difference (d date : BDate) : outcome Z :=
  j <- DateToJulianDay date;;
  i <- DateToJulianDay d;;
  add_int j (- i).

Definition DayOfWeek (d : BDate) : outcome Z :=
  valid <- BDate_IsValid d;;
  if valid then j <- DateToJulianDay d;; Ok (Z.rem j 7 + 1) else Ok B_ERROR.

Definition DayOfYear (d : BDate) : outcome Z :=
  valid <- BDate_IsValid d;;
  if valid then
    j <- DateToJulianDay d;;
    i <- _DateToJulianDay (fYear d) 1 1;;
    Ok (j - i + 1)
  else Ok B_ERROR.

Definition DaysInYear (d : BDate) : outcome Z :=
  valid <- BDate_IsValid d;;
  if valid then Ok (if IsLeapYear (fYear d) then 366 else 365) else Ok B_ERROR.

Definition DaysInMonth (d : BDate) : outcome Z :=
  valid <- BDate_IsValid d;;
  if valid then _DaysInMonth (fYear d) (fMonth d) else Ok B_ERROR.

(** [(a / 4) - (a / 100) + (a / 400)] *)
Definition leap_days (a : Z) : Z := Z.quot a 4 - Z.quot a 100 + Z.quot a 400.

Definition WeekNumber (d : BDate) : outcome Z :=
  valid <- BDate_IsValid d;;
  if negb valid || (fYear d <? 1582) || ((fYear d =? 1582) && (fMonth d <? 10))
     || ((fYear d =? 1582) && (fMonth d =? 10) && (fDay d <? 15))
  then Ok B_ERROR
  else
    let early := (0 <? fMonth d) && (fMonth d <? 3) in
    let a := if early then fYear d - 1 else fYear d in
    let b := leap_days a in
    let s := b - leap_days (a - 1) in
    let e := if early then 0 else s + 1 in
    let f := if early then fDay d - 1 + 31 * (fMonth d - 1)
             else fDay d + Z.quot (153 * (fMonth d - 3) + 2) 5 + 58 + s in
    ab <- add_int a b;;
    let g := Z.rem ab 7 in
    let d := Z.rem (f + g - e) 7 in
    let n := f + 3 - d in
    if n <? 0 then Ok (53 - Z.quot (g - s) 5)
    else if 364 + s <? n then Ok 1
    else Ok (Z.quot n 7 + 1).

(** The comparisons go through the Julian days. *)
Definition BDate_compare (f : Z -> Z -> bool) (d date : BDate) : outcome bool :=
  i <- DateToJulianDay d;;
  j <- DateToJulianDay date;;
  Ok (f i j).

Definition BDate_ne := BDate_compare (fun i j => negb (i =? j)).
Definition BDate_eq := BDate_compare Z.eqb.
Definition BDate_lt := BDate_compare Z.ltb.
Definition BDate_le := BDate_compare Z.leb.
Definition BDate_gt := BDate_compare (fun i j => j <? i).
Definition BDate_ge := BDate_compare (fun i j => j <=? i).

(** ** Days counted from March

    Both algorithms count years from 1 March, so that the leap day is the last
    day of its year: month [m] of such a year has number 0 for March, and day
    [d] of it is [march_day m d] days after 1 March. *)

Definition march_day (m d : Z) : Z := d - 1 + (153 * m + 2) / 5.

(** The length of month [m] from March; [long]: February has 29 days. *)
Definition march_len (m : Z) (long : bool) : Z :=
  if m =? 11 then (if long then 29 else 28)
  else if (m =? 1) || (m =? 3) || (m =? 6) || (m =? 8) then 30 else 31.

Lemma march_months m : 0 <= m <= 11 ->
  m = 0 \/ m = 1 \/ m = 2 \/ m = 3 \/ m = 4 \/ m = 5 \/ m = 6 \/ m = 7 \/ m = 8 \/ m = 9 \/ m = 10 \/ m = 11.
Proof. lia. Qed.

Ltac each_month m H :=
  destruct (march_months m H) as [->|[->|[->|[->|[->|[->|[->|[->|[->|[->|[->| ->]]]]]]]]]]].

Lemma march_day_month m d long :
  0 <= m <= 11 -> 1 <= d <= march_len m long ->
  0 <= march_day m d <= 364 + Z.b2z long /\ (5 * march_day m d + 2) / 153 = m.
Proof.
  intros Hm Hd. unfold march_day, march_len in *.
  each_month m Hm; destruct long; cbn [Z.eqb Z.compare Pos.compare Pos.compare_cont Pos.eqb orb Z.b2z] in *;
    Z.to_euclidean_division_equations; lia.
Qed.

(** The day and the month of a day of the year. *)
Lemma march_day_inv e long :
  0 <= e <= 364 + Z.b2z long ->
  let m := (5 * e + 2) / 153 in
  let d := e - (153 * m + 2) / 5 + 1 in
  0 <= m <= 11 /\ 1 <= d <= march_len m long /\ march_day m d = e.
Proof.
  intros He m d. assert (Hm : 0 <= m <= 11) by (unfold m; destruct long; cbn in He; Z.to_euclidean_division_equations; lia).
  split; [done|]. split; [|unfold march_day, d; lia].
  assert (Hr : 153 * m <= 5 * e + 2 < 153 * m + 153) by (unfold m; Z.to_euclidean_division_equations; lia).
  unfold d, march_len. clearbody m. clear d.
  each_month m Hm; destruct long; cbn [Z.eqb Z.compare Pos.compare Pos.compare_cont Pos.eqb orb Z.b2z] in *; Z.to_euclidean_division_equations; lia.
Qed.

(** *** The Julian calendar: every fourth year is long. *)

Definition julian_long (y : Z) : bool := (y + 1) mod 4 =? 0.

Definition julian_day (y m d : Z) : Z := march_day m d + 365 * y + y / 4.

Lemma julian_long_days y : 0 <= y -> (365 + Z.b2z (julian_long y)) = (y + 1) / 4 - y / 4 + 365.
Proof. intros Hy. unfold julian_long. destruct (Z.eqb_spec ((y + 1) mod 4) 0); cbn; Z.to_euclidean_division_equations; lia. Qed.

Lemma julian_split y m d :
  0 <= y -> 0 <= m <= 11 -> 1 <= d <= march_len m (julian_long y) ->
  let J := julian_day y m d in
  (4 * J + 3) / 1461 = y /\ J - 1461 * y / 4 = march_day m d.
Proof.
  intros Hy Hm Hd J. destruct (march_day_month m d _ Hm Hd) as [He _].
  pose proof (julian_long_days y Hy). unfold J, julian_day. set (e := march_day m d) in *. clearbody e.
  split; [|Z.to_euclidean_division_equations; lia].
  Z.to_euclidean_division_equations; lia.
Qed.

Lemma julian_join J :
  0 <= J ->
  let y := (4 * J + 3) / 1461 in
  let e := J - 1461 * y / 4 in
  0 <= y /\ 0 <= e <= 364 + Z.b2z (julian_long y) /\ J = e + 365 * y + y / 4.
Proof.
  intros HJ y e. assert (Hy : 0 <= y) by (unfold y; Z.to_euclidean_division_equations; lia).
  pose proof (julian_long_days y Hy). split; [done|].
  assert (Hr : 1461 * y <= 4 * J + 3 < 1461 * y + 1461) by (unfold y; Z.to_euclidean_division_equations; lia).
  clearbody y. unfold e. split; Z.to_euclidean_division_equations; lia.
Qed.

(** *** The Gregorian calendar *)

Definition gregorian_long (y : Z) : bool :=
  ((y + 1) mod 400 =? 0) || (((y + 1) mod 4 =? 0) && negb ((y + 1) mod 100 =? 0)).

Definition gregorian_day (y m d : Z) : Z := march_day m d + 365 * y + y / 4 - y / 100 + y / 400.

(** A year as 400 [g] + 100 [c] + 4 [b] + [a]. *)
Lemma year_digits y : 0 <= y ->
  exists g c b a, y = 400 * g + 100 * c + 4 * b + a
    /\ 0 <= g /\ 0 <= c <= 3 /\ 0 <= b <= 24 /\ 0 <= a <= 3.
Proof.
  intros Hy. exists (y / 400), (y mod 400 / 100), (y mod 100 / 4), (y mod 4).
  Z.to_euclidean_division_equations; lia.
Qed.

Lemma gregorian_digits g c b a :
  0 <= g -> 0 <= c <= 3 -> 0 <= b <= 24 -> 0 <= a <= 3 ->
  let y := 400 * g + 100 * c + 4 * b + a in
  gregorian_long y = (a =? 3) && (negb (b =? 24) || (c =? 3))
  /\ y / 4 - y / 100 + y / 400 = 97 * g + 24 * c + b.
Proof.
  intros Hg Hc Hb Ha y. unfold gregorian_long. split.
  - destruct (Z.eqb_spec a 3), (Z.eqb_spec b 24), (Z.eqb_spec c 3); cbn [negb orb andb];
      destruct (Z.eqb_spec ((y + 1) mod 400) 0), (Z.eqb_spec ((y + 1) mod 4) 0), (Z.eqb_spec ((y + 1) mod 100) 0);
      cbn [negb orb andb]; try done; exfalso; subst y; Z.to_euclidean_division_equations; lia.
  - subst y. Z.to_euclidean_division_equations; lia.
Qed.

Lemma gregorian_split g c b a da j :
  0 <= g -> 0 <= c <= 3 -> 0 <= b <= 24 -> 0 <= a <= 3 ->
  0 <= da <= 364 + Z.b2z ((a =? 3) && (negb (b =? 24) || (c =? 3))) ->
  j = 146097 * g + 36524 * c + 1461 * b + 365 * a + da ->
  let dg := j mod 146097 in
  let c' := (dg / 36524 + 1) * 3 / 4 in
  let dc := dg - c' * 36524 in
  let db := dc mod 1461 in
  let a' := (db / 365 + 1) * 3 / 4 in
  j / 146097 = g /\ c' = c /\ dc / 1461 = b /\ a' = a /\ db - a' * 365 = da.
Proof.
  intros Hg Hc Hb Ha Hda Hj dg c' dc db a'.
  assert (Hlong : da <= 364 \/ (da = 365 /\ a = 3 /\ (b <> 24 \/ c = 3))).
  { destruct (Z.eqb_spec a 3), (Z.eqb_spec b 24), (Z.eqb_spec c 3); cbn in Hda; lia. }
  destruct Hda as [Hda0 _].
  assert (E1 : j / 146097 = g) by (symmetry; apply Z.div_unique with (36524 * c + 1461 * b + 365 * a + da); lia).
  assert (E2 : dg = 36524 * c + 1461 * b + 365 * a + da) by (symmetry; apply Z.mod_unique with g; lia).
  clearbody dg. clear Hj.
  assert (E3 : c' = c) by (subst c'; rewrite E2; clear - Hc Hb Ha Hda0 Hlong; Z.to_euclidean_division_equations; lia).
  assert (E4 : dc = 1461 * b + 365 * a + da) by (subst dc; lia).
  clearbody dc c'.
  assert (E5 : dc / 1461 = b) by (symmetry; apply Z.div_unique with (365 * a + da); lia).
  assert (E6 : db = 365 * a + da) by (symmetry; apply Z.mod_unique with b; lia).
  clearbody db.
  assert (E7 : a' = a) by (subst a'; rewrite E6; clear - Ha Hda0 Hlong; Z.to_euclidean_division_equations; lia).
  split; [done|]. split; [done|]. split; [done|]. split; [done|]. lia.
Qed.

Lemma gregorian_join j :
  0 <= j ->
  exists g c b a da, 0 <= g /\ 0 <= c <= 3 /\ 0 <= b <= 24 /\ 0 <= a <= 3
    /\ 0 <= da <= 364 + Z.b2z ((a =? 3) && (negb (b =? 24) || (c =? 3)))
    /\ j = 146097 * g + 36524 * c + 1461 * b + 365 * a + da.
Proof.
  intros Hj. set (dg := j mod 146097). set (c := (dg / 36524 + 1) * 3 / 4).
  set (dc := dg - c * 36524). set (db := dc mod 1461). set (a := (db / 365 + 1) * 3 / 4).
  assert (Hdg : 0 <= dg < 146097) by (subst dg; Z.to_euclidean_division_equations; lia).
  assert (Hc : 0 <= c <= 3 /\ 0 <= dc /\ (dc < 36524 \/ c = 3 /\ dc = 36524))
    by (subst dc c; Z.to_euclidean_division_equations; lia).
  assert (Hdb : 0 <= db < 1461 /\ dc = 1461 * (dc / 1461) + db /\ 0 <= dc / 1461 <= 24)
    by (subst db; Z.to_euclidean_division_equations; lia).
  assert (Ha : 0 <= a <= 3 /\ 0 <= db - a * 365 /\ (db - a * 365 < 365 \/ a = 3 /\ db - a * 365 = 365))
    by (subst a; Z.to_euclidean_division_equations; lia).
  exists (j / 146097), c, (dc / 1461), a, (db - a * 365).
  split; [by apply Z.div_pos|]. split; [lia|]. split; [lia|]. split; [lia|]. split.
  - destruct (Z.eqb_spec a 3), (Z.eqb_spec (dc / 1461) 24), (Z.eqb_spec c 3); cbn; lia.
  - pose proof (Z.div_mod j 146097). fold dg in H. lia.
Qed.

(** ** Valid dates *)

Definition days_in_month (year month : Z) : Z :=
  if month =? 2 then if IsLeapYear year then 29 else 28
  else if (month =? 4) || (month =? 6) || (month =? 9) || (month =? 11) then 30 else 31.

Definition valid_date (year month day : Z) : bool :=
  negb (year =? 0) && (-4713 <=? year) && (1 <=? month) && (month <=? 12)
  && (1 <=? day) && (day <=? days_in_month year month) && negb (missing_day year month day).

Definition valid (d : BDate) : bool := valid_date (fYear d) (fMonth d) (fDay d).

Lemma calendar_months m : 1 <= m <= 12 ->
  m = 1 \/ m = 2 \/ m = 3 \/ m = 4 \/ m = 5 \/ m = 6 \/ m = 7 \/ m = 8 \/ m = 9 \/ m = 10 \/ m = 11 \/ m = 12.
Proof. lia. Qed.

Lemma DaysInMonth_spec year month :
  1 <= month <= 12 -> _DaysInMonth year month = Ok (days_in_month year month).
Proof.
  intros Hm. unfold _DaysInMonth, days_in_month.
  destruct (calendar_months month Hm) as [->|[->|[->|[->|[->|[->|[->|[->|[->|[->|[->| ->]]]]]]]]]]];
    cbn; try done. by destruct (IsLeapYear year).
Qed.

Lemma IsValid3_spec year month day :
  BDate_IsValid3 year month day = Ok (valid_date year month day).
Proof.
  unfold BDate_IsValid3, valid_date.
  destruct (Z.eqb_spec year 0); [done|]. cbn [orb negb andb].
  destruct (Z.ltb_spec year (-4713)); [by rewrite (proj2 (Z.leb_gt _ _)) by lia|].
  rewrite (proj2 (Z.leb_le (-4713) year)) by lia. cbn [andb].
  destruct (Z.ltb_spec month 1); [by rewrite (proj2 (Z.leb_gt 1 month)) by lia|].
  rewrite (proj2 (Z.leb_le 1 month)) by lia. cbn [orb andb].
  destruct (Z.ltb_spec 12 month); [by rewrite (proj2 (Z.leb_gt month 12)) by lia|].
  rewrite (proj2 (Z.leb_le month 12)) by lia. cbn [andb].
  destruct (Z.ltb_spec day 1); [by rewrite (proj2 (Z.leb_gt 1 day)) by lia|].
  rewrite (proj2 (Z.leb_le 1 day)), DaysInMonth_spec by lia. cbn [obind andb].
  rewrite Z.leb_antisym. destruct (days_in_month year month <? day); [done|].
  by destruct (missing_day year month day).
Qed.

Lemma valid_date_true year month day :
  valid_date year month day = true <->
  (year <> 0 /\ -4713 <= year) /\ 1 <= month <= 12 /\ 1 <= day <= days_in_month year month
  /\ missing_day year month day = false.
Proof.
  unfold valid_date. rewrite !andb_true_iff, !negb_true_iff, Z.eqb_neq, !Z.leb_le. tauto.
Qed.

(** ** Julian days *)

(** The year from March on, and the month in it, of a date. *)
Definition march_year (year month : Z) : Z :=
  (if year <? 0 then year + 1 else year) + 4800 - (14 - month) / 12.

Definition march_month (month : Z) : Z := month + 12 * ((14 - month) / 12) - 3.

(** From 15 October 1582 on. *)
Definition after_switch (year month day : Z) : bool :=
  (1582 <? year) || ((year =? 1582) && (10 <? month))
  || ((year =? 1582) && (month =? 10) && (15 <=? day)).

Definition jd_of (year month day : Z) : Z :=
  let y := march_year year month in
  let m := march_month month in
  if after_switch year month day then gregorian_day y m day - 32044 else julian_day y m day - 32082.

Definition JD (d : BDate) : Z := jd_of (fYear d) (fMonth d) (fDay d).

(** Years for which no sum overflows. *)
Definition YEAR_MAX : Z := 5000000.

Lemma march_month_range month : 1 <= month <= 12 -> 0 <= march_month month <= 11.
Proof. unfold march_month. intros. Z.to_euclidean_division_equations; lia. Qed.

Lemma march_year_range year month :
  year <> 0 -> -4713 <= year -> 1 <= month <= 12 -> 0 <= march_year year month <= 4801 + Z.max year 0.
Proof.
  intros. unfold march_year. destruct (Z.ltb_spec year 0); Z.to_euclidean_division_equations; lia.
Qed.

(** The month of a date has the length that it has in the year from March. *)
Lemma month_len year month :
  year <> 0 -> -4713 <= year -> 1 <= month <= 12 ->
  days_in_month year month
  = march_len (march_month month)
      (if year <? 1582 then julian_long (march_year year month) else gregorian_long (march_year year month)).
Proof.
  intros Hy0 Hy Hm. unfold days_in_month, march_len.
  destruct (calendar_months month Hm) as [->|[E|[->|[->|[->|[->|[->|[->|[->|[->|[->| ->]]]]]]]]]]]; try reflexivity.
  subst month. change (march_month 2) with 11. cbn [Z.eqb Z.compare Pos.compare Pos.compare_cont Pos.eqb].
  unfold IsLeapYear, julian_long, gregorian_long, march_year. change ((14 - 2) / 12) with 1.
  destruct (Z.ltb_spec year 1582).
  - destruct (Z.ltb_spec year 0).
    + replace (year + 1 + 4800 - 1 + 1) with (year + 1 + 1200 * 4) by lia. rewrite Z.mod_add by lia.
      destruct (Z.eqb_spec (Z.rem (year + 1) 4) 0), (Z.eqb_spec ((year + 1) mod 4) 0); try done;
        exfalso; Z.to_euclidean_division_equations; lia.
    + replace (year + 4800 - 1 + 1) with (year + 1200 * 4) by lia. rewrite Z.mod_add by lia.
      by rewrite Z.rem_mod_nonneg by lia.
  - rewrite (proj2 (Z.ltb_ge year 0)) by lia. replace (year + 4800 - 1 + 1) with (year + 12 * 400) by lia.
    rewrite Z.mod_add by lia. replace (year + 12 * 400) with (year + 1200 * 4) at 1 by lia.
    rewrite Z.mod_add by lia. replace (year + 12 * 400) with (year + 48 * 100) by lia.
    rewrite Z.mod_add by lia. by rewrite !Z.rem_mod_nonneg by lia.
Qed.

(** The date with these march coordinates. *)
Definition date_of (y m d : Z) : BDate :=
  let year := y - 4800 + (m + 2) / 12 in
  {| fDay := d; fYear := if year <=? 0 then year - 1 else year; fMonth := (m + 2) mod 12 + 1 |}.

Lemma date_of_march year month day :
  year <> 0 -> 1 <= month <= 12 ->
  date_of (march_year year month) (march_month month) day
  = {| fDay := day; fYear := year; fMonth := month |}.
Proof.
  intros Hy Hm. unfold date_of, march_year, march_month.
  assert (E : (month + 12 * ((14 - month) / 12) - 3 + 2) / 12 = (14 - month) / 12
              /\ (month + 12 * ((14 - month) / 12) - 3 + 2) mod 12 = month - 1)
    by (Z.to_euclidean_division_equations; lia).
  destruct E as [-> ->]. f_equal; [|lia].
  destruct (Z.ltb_spec year 0).
  - rewrite (proj2 (Z.leb_le _ _)) by lia. lia.
  - rewrite (proj2 (Z.leb_gt _ _)) by lia. lia.
Qed.

Lemma date_of_fields y m d :
  0 <= m <= 11 -> let x := date_of y m d in
  fYear x <> 0 /\ 1 <= fMonth x <= 12 /\ march_year (fYear x) (fMonth x) = y
  /\ march_month (fMonth x) = m /\ fDay x = d.
Proof.
  intros Hm. unfold date_of, march_year, march_month. cbn [fYear fMonth fDay].
  assert (E : (14 - ((m + 2) mod 12 + 1)) / 12 = (m + 2) / 12 /\ (m + 2) mod 12 = m + 2 - 12 * ((m + 2) / 12)
              /\ 0 <= (m + 2) mod 12 < 12) by (Z.to_euclidean_division_equations; lia).
  destruct E as (-> & E & Hr). set (q := (m + 2) / 12) in *.
  destruct (Z.leb_spec (y - 4800 + q) 0).
  - rewrite (proj2 (Z.ltb_lt _ _)) by lia. lia.
  - rewrite (proj2 (Z.ltb_ge _ _)) by lia. lia.
Qed.

(** *** The change of calendar *)

Lemma after_switch_march year month day :
  year <> 0 -> 1 <= month <= 12 -> 1 <= day <= 31 ->
  after_switch year month day = true <->
  6382 < march_year year month
  \/ march_year year month = 6382 /\ 228 <= march_day (march_month month) day.
Proof.
  intros Hy Hm Hd. unfold after_switch, march_year, march_day, march_month.
  rewrite !orb_true_iff, !andb_true_iff, !Z.eqb_eq, !Z.ltb_lt, Z.leb_le.
  destruct (Z.ltb_spec year 0);
    destruct (calendar_months month Hm) as [->|[->|[->|[->|[->|[->|[->|[->|[->|[->|[->| ->]]]]]]]]]]];
    Z.to_euclidean_division_equations; lia.
Qed.

Lemma before_switch_march year month day :
  year <> 0 -> 1 <= month <= 12 -> 1 <= day <= 31 -> missing_day year month day = false ->
  after_switch year month day = false <->
  march_year year month < 6382
  \/ march_year year month = 6382 /\ march_day (march_month month) day <= 217.
Proof.
  intros Hy Hm Hd. unfold missing_day, after_switch, march_year, march_day, march_month.
  rewrite !andb_false_iff, !orb_false_iff, !andb_false_iff, !Z.eqb_neq, !Z.ltb_ge, Z.leb_gt.
  destruct (Z.ltb_spec year 0);
    destruct (calendar_months month Hm) as [->|[->|[->|[->|[->|[->|[->|[->|[->|[->|[->| ->]]]]]]]]]]];
    Z.to_euclidean_division_equations; lia.
Qed.

Lemma gregorian_switch y m d long :
  0 <= y -> 0 <= march_day m d <= 364 + Z.b2z long -> (long = true -> gregorian_long y = true) ->
  2331205 <= gregorian_day y m d <-> 6382 < y \/ y = 6382 /\ 228 <= march_day m d.
Proof.
  intros Hy He Hl. unfold gregorian_day. destruct (year_digits y Hy) as (g & c & b & a & Ey & Hg & Hc & Hb & Ha).
  destruct (gregorian_digits g c b a Hg Hc Hb Ha) as [El Ed]. rewrite <- Ey in El, Ed.
  assert (He' : 0 <= march_day m d <= 364 + Z.b2z ((a =? 3) && (negb (b =? 24) || (c =? 3)))).
  { rewrite <- El. destruct long; cbn in He; [rewrite Hl by done; cbn; lia|destruct (gregorian_long y); cbn; lia]. }
  set (e := march_day m d) in *. clearbody e. replace (e + 365 * y + y / 4 - y / 100 + y / 400) with (e + 365 * y + (97 * g + 24 * c + b)) by lia.
  destruct (Z.eqb_spec a 3), (Z.eqb_spec b 24), (Z.eqb_spec c 3); cbn in He'; lia.
Qed.

Lemma julian_switch y m d :
  0 <= y -> 0 <= march_day m d <= 364 + Z.b2z (julian_long y) ->
  (julian_day y m d <= 2331242 <-> y < 6382 \/ y = 6382 /\ march_day m d <= 217)
  /\ (32082 <= julian_day y m d <-> 87 < y \/ y = 87 /\ 306 <= march_day m d).
Proof.
  intros Hy He. pose proof (julian_long_days y Hy) as Hl. unfold julian_day.
  set (e := march_day m d) in *. clearbody e.
  split; Z.to_euclidean_division_equations; lia.
Qed.

(** *** From Julian days to dates *)

Lemma JulianDayToDate_julian y m d :
  0 <= y -> 0 <= m <= 11 -> 1 <= d <= march_len m (julian_long y) ->
  32082 <= julian_day y m d <= 2331242 ->
  JulianDayToDate (julian_day y m d - 32082) = Ok (date_of y m d).
Proof.
  intros Hy Hm Hd HJ. unfold JulianDayToDate, kGregorianCalendarStart.
  rewrite (proj2 (Z.leb_gt _ _)), (proj2 (Z.leb_le _ _)) by lia.
  replace (julian_day y m d - 32082 + 32082) with (julian_day y m d) by lia.
  destruct (julian_split y m d Hy Hm Hd) as [E1 E2]. destruct (march_day_month m d _ Hm Hd) as [He E3].
  rewrite (Z.quot_div_nonneg (4 * julian_day y m d + 3)), E1 by lia.
  rewrite (Z.quot_div_nonneg (1461 * y)), E2 by lia.
  rewrite (Z.quot_div_nonneg (5 * march_day m d + 2)), E3 by lia.
  rewrite (Z.quot_div_nonneg (153 * m + 2)), (Z.quot_div_nonneg m) by lia.
  assert (Em : m / 10 = (m + 2) / 12 /\ m + 3 - 12 * (m / 10) = (m + 2) mod 12 + 1)
    by (Z.to_euclidean_division_equations; lia).
  destruct Em as [Em1 Em2]. rewrite Em2, Em1. unfold date_of. do 2 f_equal. unfold march_day. lia.
Qed.

Lemma round_up_half_nonneg x : 0 <= x -> round_up_half x = x + 1.
Proof. intros Hx. unfold round_up_half. rewrite Z.quot_div_nonneg by lia. Z.to_euclidean_division_equations; lia. Qed.

(** The code counts months with an offset of two. *)
Lemma march_month_code e : (e * 5 + 308) / 153 - 2 = (5 * e + 2) / 153.
Proof. replace (e * 5 + 308) with (5 * e + 2 + 2 * 153) by lia. rewrite Z.div_add by lia. lia. Qed.

Lemma march_start_code m : (m + 4) * 153 / 5 - 122 = (153 * m + 2) / 5.
Proof. replace ((m + 4) * 153) with (153 * m + 2 + 122 * 5) by lia. rewrite Z.div_add by lia. lia. Qed.

Lemma JulianDayToDate_gregorian y m d :
  0 <= y -> 0 <= m <= 11 -> 1 <= d <= march_len m (gregorian_long y) ->
  2331205 <= gregorian_day y m d <= INT_MAX ->
  JulianDayToDate (gregorian_day y m d - 32044) = Ok (date_of y m d).
Proof.
  intros Hy Hm Hd HJ. destruct (march_day_month m d _ Hm Hd) as [He E3].
  assert (Hsw : 6382 <= y).
  { pose proof (proj1 (gregorian_switch y m d (gregorian_long y) Hy He (fun H => H))). lia. }
  destruct (year_digits y Hy) as (g & c & b & a & Ey & Hg & Hc & Hb & Ha).
  destruct (gregorian_digits g c b a Hg Hc Hb Ha) as [El Ed]. rewrite <- Ey in El, Ed. rewrite El in He.
  unfold JulianDayToDate, kGregorianCalendarStart. rewrite (proj2 (Z.leb_le _ _)) by lia.
  rewrite add_int_ok by (unfold INT_MIN, INT_MAX in *; lia). cbn [obind].
  replace (gregorian_day y m d - 32044 + 32044) with (gregorian_day y m d) by lia.
  assert (Ej : gregorian_day y m d = 146097 * g + 36524 * c + 1461 * b + 365 * a + march_day m d)
    by (unfold gregorian_day; lia).
  destruct (gregorian_split g c b a (march_day m d) (gregorian_day y m d) Hg Hc Hb Ha He Ej) as (S1 & S2 & S3 & S4 & S5).
  set (j := gregorian_day y m d) in *. set (dg := j mod 146097) in *.
  assert (Hdg : 0 <= dg) by (apply Z.mod_pos_bound; lia).
  rewrite (Z.rem_mod_nonneg j), (Z.quot_div_nonneg j) by lia. fold dg.
  rewrite (Z.quot_div_nonneg dg) by lia.
  rewrite (Z.quot_div_nonneg ((dg / 36524 + 1) * 3)) by (pose proof (Z.div_pos dg 36524); lia).
  set (c' := (dg / 36524 + 1) * 3 / 4) in *. set (dc := dg - c' * 36524) in *.
  assert (Hdc : 0 <= dc).
  { assert (36524 * c + 1461 * b + 365 * a + march_day m d = dg)
      by (unfold dg; apply Z.mod_unique with g; [|lia]; destruct (Z.eqb_spec a 3), (Z.eqb_spec b 24), (Z.eqb_spec c 3); cbn in He; lia).
    unfold dc. rewrite S2. lia. }
  rewrite (Z.rem_mod_nonneg dc), (Z.quot_div_nonneg dc), S3 by lia. set (db := dc mod 1461) in *.
  assert (Hdb : 0 <= db) by (apply Z.mod_pos_bound; lia).
  rewrite (Z.quot_div_nonneg db) by lia.
  rewrite (Z.quot_div_nonneg ((db / 365 + 1) * 3)) by (pose proof (Z.div_pos db 365); lia).
  rewrite S5, S4, S2, S1.
  rewrite (Z.quot_div_nonneg (march_day m d * 5 + 308)), march_month_code, E3 by lia.
  rewrite (Z.quot_div_nonneg ((m + 4) * 153)), (Z.quot_div_nonneg (m + 2)), (Z.rem_mod_nonneg (m + 2)) by lia.
  replace (march_day m d - (m + 4) * 153 / 5 + 122) with (d - 1)
    by (pose proof (march_start_code m); unfold march_day; lia).
  rewrite round_up_half_nonneg by lia. unfold date_of.
  assert (0 <= (m + 2) / 12) by (apply Z.div_pos; lia).
  rewrite (proj2 (Z.leb_gt _ _)) by lia. f_equal. f_equal; lia.
Qed.

(** *** From dates to Julian days *)

Lemma quot_range y k : 0 <= y -> 0 < k -> 0 <= Z.quot y k <= y.
Proof. intros Hy Hk. rewrite Z.quot_div_nonneg by lia. split; [by apply Z.div_pos|]. apply Z.div_le_upper_bound; nia. Qed.

Lemma valid_days year month day : valid_date year month day = true -> 1 <= day <= 31.
Proof.
  rewrite valid_date_true. unfold days_in_month. intros (_ & _ & Hd & _).
  destruct (month =? 2), (IsLeapYear year), ((month =? 4) || (month =? 6) || (month =? 9) || (month =? 11)); lia.
Qed.

(** The year without a gap at 0. *)
Definition straight_year (year : Z) : Z := if year <? 0 then year + 1 else year.

Lemma code_year year month :
  year <> 0 -> -4713 <= year <= YEAR_MAX -> 1 <= month <= 12 ->
  sum_int (straight_year year) [4800; - Z.quot (14 - month) 12] = Ok (march_year year month).
Proof.
  intros Hy0 Hy Hm. unfold march_year, straight_year, YEAR_MAX in *. rewrite Z.quot_div_nonneg by lia.
  assert (Har : 0 <= (14 - month) / 12 <= 1) by (Z.to_euclidean_division_equations; lia).
  cbn [sum_int]. destruct (Z.ltb_spec year 0);
    do 2 (rewrite add_int_ok by (unfold INT_MIN, INT_MAX; lia); cbn [obind]); f_equal; lia.
Qed.

Lemma code_after year month day :
  (1582 <? straight_year year) || ((straight_year year =? 1582) && (10 <? month))
  || ((straight_year year =? 1582) && (month =? 10) && (15 <=? day)) = after_switch year month day.
Proof.
  unfold after_switch, straight_year. destruct (Z.ltb_spec year 0); [|done].
  by rewrite !(proj2 (Z.ltb_ge 1582 _)), !(proj2 (Z.eqb_neq _ 1582)) by lia.
Qed.

Lemma code_before year month day :
  missing_day year month day = false -> after_switch year month day = false ->
  (straight_year year <? 1582) || ((straight_year year =? 1582) && (month <? 10))
  || ((straight_year year =? 1582) && (month =? 10) && (day <=? 4)) = true.
Proof.
  unfold straight_year, after_switch, missing_day. intros Hmiss Eas.
  destruct (Z.ltb_spec year 0); [by rewrite (proj2 (Z.ltb_lt _ _)) by lia|].
  rewrite !orb_true_iff, !andb_true_iff, !Z.eqb_eq, !Z.ltb_lt, Z.leb_le.
  rewrite !orb_false_iff, !andb_false_iff, !Z.eqb_neq, !Z.ltb_ge, Z.leb_gt in Eas.
  rewrite !andb_false_iff, !Z.eqb_neq, !Z.ltb_ge in Hmiss. lia.
Qed.

Lemma DateToJulianDay_spec year month day :
  valid_date year month day = true -> year <= YEAR_MAX ->
  _DateToJulianDay year month day = Ok (jd_of year month day).
Proof.
  intros Hv Hmax. pose proof (valid_days _ _ _ Hv) as Hd31. unfold _DateToJulianDay.
  rewrite IsValid3_spec, Hv. cbn [obind].
  apply valid_date_true in Hv as ((Hy0 & Hy) & Hm & Hd & Hmiss).
  pose proof (march_year_range year month Hy0 Hy Hm) as HY. pose proof (march_month_range month Hm) as HM.
  fold (straight_year year). rewrite code_year by (unfold YEAR_MAX in *; lia). cbn [obind].
  rewrite code_after. rewrite (Z.quot_div_nonneg (14 - month)) by lia. fold (march_month month). unfold jd_of.
  set (Y := march_year year month) in *. set (M := march_month month) in *. unfold YEAR_MAX in Hmax.
  pose proof (quot_range (153 * M + 2) 5 ltac:(lia) ltac:(lia)).
  pose proof (quot_range Y 4 ltac:(lia) ltac:(lia)). pose proof (quot_range Y 100 ltac:(lia) ltac:(lia)).
  pose proof (quot_range Y 400 ltac:(lia) ltac:(lia)).
  assert (Hfit : 365 * Y + Z.quot Y 4 <= INT_MAX - 1000).
  { rewrite Z.quot_div_nonneg by lia. unfold INT_MAX. pose proof (Z.mul_div_le Y 4 ltac:(lia)). lia. }
  unfold INT_MAX in Hfit.
  destruct (after_switch year month day) eqn:Eas.
  - rewrite assert_int_ok by (unfold INT_MIN, INT_MAX; lia). cbn [obind sum_int].
    do 6 (rewrite add_int_ok by (unfold INT_MIN, INT_MAX; lia); cbn [obind]).
    rewrite !(Z.quot_div_nonneg Y), (Z.quot_div_nonneg (153 * M + 2)) by lia.
    f_equal. unfold gregorian_day, march_day. lia.
  - rewrite (code_before _ _ _ Hmiss Eas). rewrite assert_int_ok by (unfold INT_MIN, INT_MAX; lia).
    cbn [obind sum_int]. do 4 (rewrite add_int_ok by (unfold INT_MIN, INT_MAX; lia); cbn [obind]).
    rewrite !(Z.quot_div_nonneg Y), (Z.quot_div_nonneg (153 * M + 2)) by lia.
    f_equal. unfold julian_day, march_day. lia.
Qed.
