(* ===== verification/CalendarOps.v ===== *)
(** What the operations of [BDate] do (kits/support/DateTime.cpp), by way of
    Julian days: dates and days correspond one to one, adding days adds to the
    day, comparing compares years, months and days, and the number of a week is
    that of ISO 8601. *)

From Stdlib Require Import ZArith Lia List Bool.
From stdpp Require Import base tactics list numbers.
From S2P Require Import Prelude Clipping Calendar.
Local Open Scope Z_scope.
Local Open Scope c_scope.

(** ** Dates and Julian days correspond *)

(** Days for which the date has a year up to [YEAR_MAX]. *)
Definition JD_MAX : Z := 1827000000.

Lemma years_1582 y : y = 6381 \/ y = 6382 -> gregorian_long y = julian_long y.
Proof. by intros [-> | ->]. Qed.

(** The march coordinates of a valid date. *)
Lemma valid_march year month day :
  valid_date year month day = true ->
  0 <= march_year year month <= 4801 + Z.max year 0 /\ 0 <= march_month month <= 11
  /\ 1 <= day <= march_len (march_month month)
       (if after_switch year month day then gregorian_long (march_year year month)
        else julian_long (march_year year month)).
Proof.
  intros Hv. pose proof (valid_days _ _ _ Hv) as Hd31.
  apply valid_date_true in Hv as ((Hy0 & Hy) & Hm & Hd & Hmiss).
  split; [by apply march_year_range|]. split; [by apply march_month_range|].
  rewrite (month_len year month Hy0 Hy Hm) in Hd.
  destruct (Z.ltb_spec year 1582).
  - destruct (after_switch year month day) eqn:E; [|done]. exfalso.
    unfold after_switch in E. rewrite !orb_true_iff, !andb_true_iff, !Z.eqb_eq, !Z.ltb_lt, Z.leb_le in E. lia.
  - destruct (after_switch year month day) eqn:E; [done|].
    unfold after_switch in E. rewrite !orb_false_iff, !andb_false_iff, !Z.eqb_neq, !Z.ltb_ge, Z.leb_gt in E.
    rewrite <- years_1582; [done|]. unfold march_year. rewrite (proj2 (Z.ltb_ge year 0)) by lia.
    Z.to_euclidean_division_equations; lia.
Qed.

(** The days before and after the change. *)
Lemma jd_of_range year month day :
  valid_date year month day = true ->
  if after_switch year month day
  then 2331205 <= gregorian_day (march_year year month) (march_month month) day
  else 32082 <= julian_day (march_year year month) (march_month month) day <= 2331242.
Proof.
  intros Hv. pose proof (valid_days _ _ _ Hv) as Hd31.
  destruct (valid_march year month day Hv) as (HY & HM & Hd).
  apply valid_date_true in Hv as ((Hy0 & Hy) & Hm & _ & Hmiss).
  destruct (after_switch year month day) eqn:E.
  - destruct (march_day_month _ _ _ HM Hd) as [He _].
    apply (gregorian_switch _ _ _ _ (proj1 HY) He (fun H => H)).
    by apply (after_switch_march year month day).
  - destruct (march_day_month _ _ _ HM Hd) as [He _].
    destruct (julian_switch _ _ _ (proj1 HY) He) as [H1 H2].
    split; [|apply H1; by apply before_switch_march]. apply H2.
    unfold march_year, march_day, march_month. destruct (Z.ltb_spec year 0);
      destruct (calendar_months month Hm) as [->|[->|[->|[->|[->|[->|[->|[->|[->|[->|[->| ->]]]]]]]]]]];
      Z.to_euclidean_division_equations; lia.
Qed.

Lemma gregorian_day_bound y m d :
  0 <= y <= 5005000 -> 0 <= march_day m d <= 366 -> gregorian_day y m d <= INT_MAX.
Proof.
  intros Hy He. unfold gregorian_day, INT_MAX. pose proof (Z.div_pos y 100 ltac:(lia) ltac:(lia)).
  pose proof (Z.mul_div_le y 4 ltac:(lia)). pose proof (Z.mul_div_le y 400 ltac:(lia)). lia.
Qed.

Lemma JulianDayToDate_jd d :
  valid d = true -> fYear d <= YEAR_MAX -> JulianDayToDate (JD d) = Ok d.
Proof.
  intros Hv Hmax. unfold valid, JD, jd_of, YEAR_MAX in *.
  pose proof (jd_of_range _ _ _ Hv) as Hr. pose proof (valid_march _ _ _ Hv) as (HY & HM & Hd).
  pose proof Hv as ((Hy0 & Hy) & Hm & _)%valid_date_true.
  assert (Ed : date_of (march_year (fYear d) (fMonth d)) (march_month (fMonth d)) (fDay d) = d).
  { rewrite date_of_march by done. by destruct d. }
  destruct (march_day_month _ _ _ HM Hd) as [He _].
  destruct (after_switch (fYear d) (fMonth d) (fDay d)).
  - assert (HI : gregorian_day (march_year (fYear d) (fMonth d)) (march_month (fMonth d)) (fDay d) <= INT_MAX).
    { apply gregorian_day_bound; [lia|]. destruct (gregorian_long _); cbn in He; lia. }
    rewrite JulianDayToDate_gregorian by (try done; lia). by rewrite Ed.
  - rewrite JulianDayToDate_julian by (try done; lia). by rewrite Ed.
Qed.

(** On which side of the change a day of a year from March lies. *)
Definition march_after (y e : Z) : Prop := 6382 < y \/ y = 6382 /\ 228 <= e.
Definition march_before (y e : Z) : Prop := y < 6382 \/ y = 6382 /\ e <= 217.

(** A date given by march coordinates on the right side of the change. *)
Lemma date_of_valid y m d long :
  87 <= y <= 4800 + YEAR_MAX -> 0 <= m <= 11 -> 1 <= d <= march_len m long ->
  (y = 87 -> 306 <= march_day m d) ->
  long = gregorian_long y /\ march_after y (march_day m d)
  \/ long = julian_long y /\ march_before y (march_day m d) ->
  valid (date_of y m d) = true.
Proof.
  intros Hy Hm Hd H87 Hside. set (x := date_of y m d).
  destruct (date_of_fields y m d Hm) as (Hx0 & Hxm & Ey & Em & Ed). fold x in Hx0, Hxm, Ey, Em, Ed.
  destruct (march_day_month m d long Hm Hd) as [He E3].
  assert (Eyear : fYear x = (if y - 4800 + (m + 2) / 12 <=? 0 then y - 4800 + (m + 2) / 12 - 1
                             else y - 4800 + (m + 2) / 12)) by done.
  assert (Hq : 0 <= (m + 2) / 12 <= 1) by (Z.to_euclidean_division_equations; lia).
  assert (Hyear : -4713 <= fYear x).
  { assert (H10 : y = 87 -> (m + 2) / 12 = 1).
    { intros E. specialize (H87 E). Z.to_euclidean_division_equations; lia. }
    rewrite Eyear. destruct (Z.leb_spec (y - 4800 + (m + 2) / 12) 0); lia. }
  assert (Hd31 : 1 <= fDay x <= 31).
  { rewrite Ed. unfold march_len in Hd.
    destruct (m =? 11), ((m =? 1) || (m =? 3) || (m =? 6) || (m =? 8)), long; lia. }
  unfold valid. apply valid_date_true. split; [lia|]. split; [done|]. split.
  - split; [lia|]. rewrite (month_len _ _ Hx0 Hyear Hxm), Em, Ey, Ed.
    replace (if fYear x <? 1582 then julian_long y else gregorian_long y) with long; [lia|].
    unfold march_after, march_before in Hside. clear - Hside Eyear Hq.
    destruct (Z.leb_spec (y - 4800 + (m + 2) / 12) 0), (Z.ltb_spec (fYear x) 1582), Hside as [[-> Hs]|[-> Hs]];
      try done; try (exfalso; lia);
      first [apply years_1582; lia | symmetry; apply years_1582; lia].
  - destruct (missing_day (fYear x) (fMonth x) (fDay x)) eqn:E; [exfalso|done].
    unfold missing_day in E. zbool. rewrite Ed in *.
    assert (E1 : y = 6382 /\ m = 7).
    { rewrite <- Ey, <- Em. replace (fYear x) with 1582 by lia. replace (fMonth x) with 10 by lia. done. }
    destruct E1 as [-> ->]. unfold march_after, march_before, march_day in Hside.
    change ((153 * 7 + 2) / 5) with 214 in Hside. lia.
Qed.

(** The Julian day of such a date. *)
Lemma date_of_jd y m d long :
  0 <= m <= 11 -> 1 <= d <= march_len m long -> valid (date_of y m d) = true ->
  (march_after y (march_day m d) -> JD (date_of y m d) = gregorian_day y m d - 32044)
  /\ (march_before y (march_day m d) -> JD (date_of y m d) = julian_day y m d - 32082).
Proof.
  intros Hm Hd Hv. destruct (date_of_fields y m d Hm) as (Hx0 & Hxm & Ey & Em & Ed).
  set (x := date_of y m d) in *. unfold valid in Hv. pose proof (valid_days _ _ _ Hv) as Hd31.
  apply valid_date_true in Hv as (_ & _ & _ & Hmiss).
  pose proof (after_switch_march _ _ _ Hx0 Hxm Hd31) as Ha.
  pose proof (before_switch_march _ _ _ Hx0 Hxm Hd31 Hmiss) as Hb.
  unfold JD, jd_of. rewrite Ey, Em, Ed in *. unfold march_after, march_before.
  split; intros Hs; [by rewrite (proj2 Ha Hs)|by rewrite (proj2 Hb Hs)].
Qed.

Lemma jd_has_julian_date jd :
  0 <= jd < kGregorianCalendarStart -> exists d, valid d = true /\ fYear d <= YEAR_MAX /\ JD d = jd.
Proof.
  intros Hj. unfold kGregorianCalendarStart in Hj. set (J := jd + 32082).
  destruct (julian_join J) as (Hy & He & EJ); [lia|]. set (y := (4 * J + 3) / 1461) in *.
  set (e := J - 1461 * y / 4) in *.
  destruct (march_day_inv e _ He) as (Hm & Hd & Ee). set (m := (5 * e + 2) / 153) in *.
  set (d := e - (153 * m + 2) / 5 + 1) in *.
  assert (Eday : julian_day y m d = J) by (unfold julian_day; lia).
  rewrite <- Ee in He. destruct (julian_switch y m d Hy He) as [[Hs _] [H87 _]]. rewrite Eday in Hs, H87.
  specialize (Hs ltac:(lia)). specialize (H87 ltac:(lia)).
  assert (Hyb : 87 <= y <= 6382) by lia.
  assert (Hv : valid (date_of y m d) = true).
  { apply (date_of_valid y m d _ ltac:(unfold YEAR_MAX; lia) Hm Hd); [lia|]. by right. }
  exists (date_of y m d). split; [done|]. split.
  - unfold date_of, YEAR_MAX. cbn [fYear].
    assert (0 <= (m + 2) / 12 <= 1) by (Z.to_euclidean_division_equations; lia).
    destruct (Z.leb_spec (y - 4800 + (m + 2) / 12) 0); lia.
  - rewrite (proj2 (date_of_jd y m d _ Hm Hd Hv) Hs), Eday. lia.
Qed.

Lemma jd_has_gregorian_date jd :
  kGregorianCalendarStart <= jd <= JD_MAX -> exists d, valid d = true /\ fYear d <= YEAR_MAX /\ JD d = jd.
Proof.
  intros Hj. unfold kGregorianCalendarStart, JD_MAX in Hj.
  destruct (gregorian_join (jd + 32044)) as (g & c & b & a & da & Hg & Hc & Hb & Ha & Hda & Ej); [lia|].
  destruct (gregorian_digits g c b a Hg Hc Hb Ha) as [El Ed]. set (y := 400 * g + 100 * c + 4 * b + a) in *.
  rewrite <- El in Hda. destruct (march_day_inv da _ Hda) as (Hm & Hd & Ee).
  set (m := (5 * da + 2) / 153) in *. set (d := da - (153 * m + 2) / 5 + 1) in *.
  assert (Hy : 0 <= y <= 5002399) by lia.
  assert (Eday : gregorian_day y m d = jd + 32044) by (unfold gregorian_day; lia).
  rewrite <- Ee in Hda.
  destruct (gregorian_switch y m d _ (proj1 Hy) Hda (fun H => H)) as [Hs _]. rewrite Eday in Hs.
  specialize (Hs ltac:(lia)).
  assert (Hv : valid (date_of y m d) = true).
  { apply (date_of_valid y m d _ ltac:(unfold YEAR_MAX; lia) Hm Hd); [lia|]. by left. }
  exists (date_of y m d). split; [done|]. split.
  - unfold date_of, YEAR_MAX. cbn [fYear].
    assert (0 <= (m + 2) / 12 <= 1) by (Z.to_euclidean_division_equations; lia).
    destruct (Z.leb_spec (y - 4800 + (m + 2) / 12) 0); lia.
  - rewrite (proj1 (date_of_jd y m d _ Hm Hd Hv) Hs), Eday. lia.
Qed.

(** Every day has a date. *)
Lemma jd_has_date jd :
  0 <= jd <= JD_MAX -> exists d, valid d = true /\ fYear d <= YEAR_MAX /\ JD d = jd.
Proof.
  intros Hj. destruct (Z.le_gt_cases kGregorianCalendarStart jd);
    [apply jd_has_gregorian_date; lia|apply jd_has_julian_date; lia].
Qed.

Lemma JD_nonneg d : valid d = true -> 0 <= JD d.
Proof.
  intros Hv. pose proof (jd_of_range _ _ _ Hv) as Hr. unfold JD, jd_of.
  destruct (after_switch (fYear d) (fMonth d) (fDay d)); lia.
Qed.

Lemma JD_bound d : valid d = true -> fYear d <= YEAR_MAX -> JD d <= INT_MAX.
Proof.
  intros Hv Hmax. unfold valid, JD, jd_of, YEAR_MAX in *.
  pose proof (jd_of_range _ _ _ Hv) as Hr. pose proof (valid_march _ _ _ Hv) as (HY & HM & Hd).
  destruct (march_day_month _ _ _ HM Hd) as [He _].
  destruct (after_switch (fYear d) (fMonth d) (fDay d)); [|unfold INT_MAX; lia].
  assert (gregorian_day (march_year (fYear d) (fMonth d)) (march_month (fMonth d)) (fDay d) <= INT_MAX); [|lia].
  apply gregorian_day_bound; [lia|]. destruct (gregorian_long _); cbn in He; lia.
Qed.

Lemma IsValid_spec d : BDate_IsValid d = Ok (valid d).
Proof. apply IsValid3_spec. Qed.

Lemma JD_spec d : valid d = true -> fYear d <= YEAR_MAX -> DateToJulianDay d = Ok (JD d).
Proof. apply DateToJulianDay_spec. Qed.

(** C25: dates and Julian days correspond.  Every valid date, up to the year
    five million, has a Julian day that is not negative and that leads back to
    the date; every day up to 1827000000 has a valid date that leads back to
    the day.  No sum overflows. *)
Theorem BDate_round_trip d jd :
  valid d = true -> fYear d <= YEAR_MAX -> 0 <= jd <= JD_MAX ->
  (exists j, DateToJulianDay d = Ok j /\ 0 <= j /\ JulianDayToDate j = Ok d)
  /\ (exists d', JulianDayToDate jd = Ok d' /\ BDate_IsValid d' = Ok true /\ DateToJulianDay d' = Ok jd).
Proof.
  intros Hv Hmax Hj. split.
  - exists (JD d). split; [by apply JD_spec|]. split; [by apply JD_nonneg|by apply JulianDayToDate_jd].
  - destruct (jd_has_date jd Hj) as (d' & Hv' & Hy' & <-). exists d'.
    split; [by apply JulianDayToDate_jd|]. rewrite IsValid_spec, Hv'. split; [done|by apply JD_spec].
Qed.

(** *** Adding days *)

Lemma AddDays_jd d n :
  valid d = true -> fYear d <= YEAR_MAX -> 0 <= JD d + n <= JD_MAX ->
  exists d', AddDays d n = Ok d' /\ valid d' = true /\ fYear d' <= YEAR_MAX /\ JD d' = JD d + n.
Proof.
  intros Hv Hmax Hn. destruct (jd_has_date _ Hn) as (d' & Hv' & Hy' & E). exists d'.
  split; [|auto]. unfold AddDays. rewrite IsValid_spec, Hv. cbn [obind].
  rewrite (JD_spec d Hv Hmax). cbn [obind]. unfold JD_MAX in Hn.
  rewrite add_int_ok by (unfold INT_MIN, INT_MAX; lia). cbn [obind].
  rewrite <- E. by apply JulianDayToDate_jd.
Qed.

Lemma JD_inj d d' :
  valid d = true -> fYear d <= YEAR_MAX -> valid d' = true -> fYear d' <= YEAR_MAX -> JD d = JD d' -> d = d'.
Proof.
  intros Hv Hm Hv' Hm' E. pose proof (JulianDayToDate_jd d Hv Hm) as H1.
  pose proof (JulianDayToDate_jd d' Hv' Hm') as H2. rewrite E, H2 in H1. by injection H1.
Qed.

Lemma Difference_spec d d' :
  valid d = true -> fYear d <= YEAR_MAX -> valid d' = true -> fYear d' <= YEAR_MAX ->
  BDate_Difference d d' = Ok (JD d' - JD d).
Proof.
  intros Hv Hm Hv' Hm'. unfold BDate_Difference. rewrite (JD_spec d' Hv' Hm'), (JD_spec d Hv Hm).
  cbn [obind]. pose proof (JD_bound d Hv Hm). pose proof (JD_nonneg d Hv).
  pose proof (JD_bound d' Hv' Hm'). pose proof (JD_nonneg d' Hv').
  by rewrite add_int_ok by (unfold INT_MIN, INT_MAX in *; lia).
Qed.

Lemma DayOfWeek_spec d :
  valid d = true -> fYear d <= YEAR_MAX -> DayOfWeek d = Ok (JD d mod 7 + 1).
Proof.
  intros Hv Hm. unfold DayOfWeek. rewrite IsValid_spec, Hv. cbn [obind]. rewrite (JD_spec d Hv Hm).
  cbn [obind]. by rewrite Z.rem_mod_nonneg by (try apply JD_nonneg; done).
Qed.

(** Adding days.  As long as the result is a date from 4713 BC on, adding
    [n] days to a valid date gives the valid date that is [n] days later, by
    [Difference]; its week day is [n] days further; and adding [m] more is
    adding the sum, so that taking the days away again gives the date back. *)
Theorem AddDays_correct d n m :
  valid d = true -> fYear d <= YEAR_MAX ->
  0 <= JD d + n <= JD_MAX -> 0 <= JD d + n + m <= JD_MAX ->
  exists d' w, AddDays d n = Ok d' /\ BDate_IsValid d' = Ok true /\ BDate_Difference d d' = Ok n
    /\ DayOfWeek d = Ok w /\ 1 <= w <= 7 /\ DayOfWeek d' = Ok ((w - 1 + n) mod 7 + 1)
    /\ AddDays d' m = AddDays d (n + m) /\ (JD d <= JD_MAX -> AddDays d' (- n) = Ok d).
Proof.
  intros Hv Hmax Hn Hm. destruct (AddDays_jd d n Hv Hmax Hn) as (d' & E & Hv' & Hmax' & Ej).
  exists d', (JD d mod 7 + 1). split; [done|]. split; [by rewrite IsValid_spec, Hv'|].
  split; [rewrite Difference_spec by done; f_equal; lia|]. split; [by apply DayOfWeek_spec|].
  split; [pose proof (Z.mod_pos_bound (JD d) 7); lia|]. split; [|split].
  - rewrite DayOfWeek_spec, Ej by done. do 2 f_equal.
    replace (JD d mod 7 + 1 - 1 + n) with (JD d mod 7 + n) by lia. by rewrite Zplus_mod_idemp_l.
  - destruct (AddDays_jd d (n + m) Hv Hmax) as (d2 & E2 & Hv2 & Hmax2 & Ej2); [lia|].
    destruct (AddDays_jd d' m Hv' Hmax') as (d3 & E3 & Hv3 & Hmax3 & Ej3); [lia|].
    rewrite E2, E3. f_equal. apply JD_inj; auto. lia.
  - intros Hjd. pose proof (JD_nonneg d Hv).
    destruct (AddDays_jd d' (- n) Hv' Hmax') as (d3 & E3 & Hv3 & Hmax3 & Ej3); [lia|].
    rewrite E3. f_equal. apply JD_inj; auto. lia.
Qed.

(** ** Order *)

(** Earlier: by year, then month, then day. *)
Definition earlier (d d' : BDate) : bool :=
  (fYear d <? fYear d')
  || ((fYear d =? fYear d') && ((fMonth d <? fMonth d') || ((fMonth d =? fMonth d') && (fDay d <? fDay d')))).

Lemma earlier_true d d' :
  earlier d d' = true <->
  fYear d < fYear d' \/ fYear d = fYear d' /\ (fMonth d < fMonth d' \/ fMonth d = fMonth d' /\ fDay d < fDay d').
Proof. unfold earlier. rewrite !orb_true_iff, !andb_true_iff, !orb_true_iff, !andb_true_iff, !Z.ltb_lt, !Z.eqb_eq. done. Qed.

(** The same by years from March and the days in them. *)
Lemma earlier_march d d' :
  valid d = true -> valid d' = true -> earlier d d' = true ->
  let y := march_year (fYear d) (fMonth d) in
  let y' := march_year (fYear d') (fMonth d') in
  y < y' \/ y = y' /\ march_day (march_month (fMonth d)) (fDay d) < march_day (march_month (fMonth d')) (fDay d').
Proof.
  intros Hv Hv' He y y'. apply earlier_true in He. unfold valid in Hv, Hv'.
  pose proof (valid_march _ _ _ Hv) as (_ & HM & Hd). pose proof (valid_march _ _ _ Hv') as (_ & HM' & Hd').
  pose proof (valid_days _ _ _ Hv). pose proof (valid_days _ _ _ Hv').
  apply valid_date_true in Hv as ((Hy0 & _) & Hm & _). apply valid_date_true in Hv' as ((Hy0' & _) & Hm' & _).
  destruct (march_day_month _ _ _ HM Hd) as [_ E]. destruct (march_day_month _ _ _ HM' Hd') as [_ E'].
  assert (Hym : y < y' \/ y = y' /\ (march_month (fMonth d) < march_month (fMonth d')
                  \/ march_month (fMonth d) = march_month (fMonth d') /\ fDay d < fDay d')).
  { unfold y, y', march_year, march_month. clear - He Hm Hm' Hy0 Hy0'.
    destruct (Z.ltb_spec (fYear d) 0), (Z.ltb_spec (fYear d') 0); Z.to_euclidean_division_equations; lia. }
  destruct Hym as [?|[? [Hlt|[Heq Hlt]]]]; [by left| |]; right; (split; [done|]).
  - set (e := march_day _ (fDay d)) in *. set (e' := march_day _ (fDay d')) in *. clearbody e e'.
    Z.to_euclidean_division_equations; lia.
  - rewrite Heq. unfold march_day. lia.
Qed.

Lemma gregorian_long_days y : 0 <= y ->
  365 + Z.b2z (gregorian_long y)
  = (365 * (y + 1) + (y + 1) / 4 - (y + 1) / 100 + (y + 1) / 400) - (365 * y + y / 4 - y / 100 + y / 400).
Proof.
  intros Hy. unfold gregorian_long.
  destruct (Z.eqb_spec ((y + 1) mod 400) 0), (Z.eqb_spec ((y + 1) mod 4) 0), (Z.eqb_spec ((y + 1) mod 100) 0);
    cbn [negb orb andb Z.b2z]; Z.to_euclidean_division_equations; lia.
Qed.

Lemma gregorian_years_mono y y' : 0 <= y -> y <= y' ->
  365 * y + y / 4 - y / 100 + y / 400 <= 365 * y' + y' / 4 - y' / 100 + y' / 400.
Proof. intros. Z.to_euclidean_division_equations; lia. Qed.

Lemma earlier_JD d d' :
  valid d = true -> valid d' = true -> earlier d d' = true -> JD d < JD d'.
Proof.
  intros Hv Hv' He. pose proof (earlier_march d d' Hv Hv' He) as Hlt. cbv zeta in Hlt.
  unfold valid in Hv, Hv'. pose proof (jd_of_range _ _ _ Hv) as Hr. pose proof (jd_of_range _ _ _ Hv') as Hr'.
  pose proof (valid_march _ _ _ Hv) as (HY & HM & Hd). pose proof (valid_march _ _ _ Hv') as (HY' & HM' & Hd').
  destruct (march_day_month _ _ _ HM Hd) as [Hb _]. destruct (march_day_month _ _ _ HM' Hd') as [Hb' _].
  pose proof (valid_days _ _ _ Hv) as H31. pose proof (valid_days _ _ _ Hv') as H31'.
  apply valid_date_true in Hv as ((Hy0 & _) & Hm & _ & _).
  apply valid_date_true in Hv' as ((Hy0' & _) & Hm' & _ & Hmiss').
  pose proof (after_switch_march _ _ _ Hy0 Hm H31) as Ha.
  pose proof (before_switch_march _ _ _ Hy0' Hm' H31' Hmiss') as Hbef.
  unfold JD, jd_of, gregorian_day, julian_day in *.
  set (y := march_year (fYear d) (fMonth d)) in *. set (y' := march_year (fYear d') (fMonth d')) in *.
  set (e := march_day (march_month (fMonth d)) (fDay d)) in *.
  set (e' := march_day (march_month (fMonth d')) (fDay d')) in *. clearbody y y' e e'.
  destruct (after_switch (fYear d) (fMonth d) (fDay d)), (after_switch (fYear d') (fMonth d') (fDay d')).
  - pose proof (gregorian_long_days y ltac:(lia)). destruct Hlt as [Hlt|[-> Hlt]]; [|lia].
    pose proof (gregorian_years_mono (y + 1) y' ltac:(lia) ltac:(lia)). lia.
  - exfalso. pose proof (proj1 Ha eq_refl). pose proof (proj1 Hbef eq_refl). lia.
  - lia.
  - pose proof (julian_long_days y ltac:(lia)). destruct Hlt as [Hlt|[-> Hlt]]; [|lia].
    pose proof (Z.div_le_mono (y + 1) y' 4 ltac:(lia) ltac:(lia)). lia.
Qed.

Lemma JD_lt d d' :
  valid d = true -> valid d' = true -> (JD d <? JD d') = earlier d d'.
Proof.
  intros Hv Hv'. destruct (earlier d d') eqn:E; [by apply Z.ltb_lt, earlier_JD|].
  apply Z.ltb_ge. destruct (earlier d' d) eqn:E'; [apply Z.lt_le_incl; by apply earlier_JD|].
  assert (Ed : d = d').
  { apply not_true_iff_false in E, E'. rewrite earlier_true in E, E'. destruct d, d'; simpl in *. f_equal; lia. }
  by rewrite Ed.
Qed.

Lemma JD_eq d d' :
  valid d = true -> fYear d <= YEAR_MAX -> valid d' = true -> fYear d' <= YEAR_MAX ->
  (JD d =? JD d') = bool_decide (d = d').
Proof.
  intros Hv Hm Hv' Hm'. case_bool_decide as E; [rewrite E; apply Z.eqb_refl|].
  apply Z.eqb_neq. intros Ej. by apply E, JD_inj.
Qed.

(** The comparisons of dates.  For valid dates the six operators, which
    compare Julian days, compare by year, month and day, and equality is that
    of the three. *)
Theorem BDate_order d d' :
  valid d = true -> fYear d <= YEAR_MAX -> valid d' = true -> fYear d' <= YEAR_MAX ->
  BDate_lt d d' = Ok (earlier d d') /\ BDate_gt d d' = Ok (earlier d' d)
  /\ BDate_le d d' = Ok (negb (earlier d' d)) /\ BDate_ge d d' = Ok (negb (earlier d d'))
  /\ BDate_eq d d' = Ok (bool_decide (d = d')) /\ BDate_ne d d' = Ok (bool_decide (d <> d')).
Proof.
  intros Hv Hm Hv' Hm'. unfold BDate_lt, BDate_gt, BDate_le, BDate_ge, BDate_eq, BDate_ne, BDate_compare.
  rewrite (JD_spec d Hv Hm), (JD_spec d' Hv' Hm'). cbn [obind].
  rewrite !Z.leb_antisym, !JD_lt, JD_eq by done. split_and!; try done.
  f_equal. by rewrite bool_decide_not.
Qed.

(** ** Adding months and years *)

(** The months since the year 0 of a calendar that has one. *)
Definition month_index (d : BDate) : Z := 12 * straight_year (fYear d) + (fMonth d - 1).

(** The year and month of such a number. *)
Definition index_year (k : Z) : Z := if k / 12 <=? 0 then k / 12 - 1 else k / 12.
Definition index_month (k : Z) : Z := k mod 12 + 1.

(** The day of the month that is kept, moved out of the missing days and down
    to the length of the month. *)
Definition kept_day (later : bool) (year month day : Z) : Z :=
  Z.min (if missing_day year month day then if later then 15 else 4 else day) (days_in_month year month).

Lemma kept_day_valid later year month day :
  year <> 0 -> -4713 <= year -> 1 <= month <= 12 -> 1 <= day <= 31 ->
  valid_date year month (kept_day later year month day) = true.
Proof.
  intros Hy0 Hy Hm Hd. apply valid_date_true. split; [done|]. split; [done|].
  assert (Hlen : 28 <= days_in_month year month) by
    (unfold days_in_month; destruct (month =? 2), (IsLeapYear year), ((month =? 4) || (month =? 6) || (month =? 9) || (month =? 11)); lia).
  assert (H31 : month = 10 -> days_in_month year month = 31) by (by intros ->).
  unfold kept_day. destruct (missing_day year month day) eqn:E.
  - split; [destruct later; lia|]. unfold missing_day in *. zbool.
    rewrite H31 by lia. destruct later; simpl; by rewrite ?andb_false_r.
  - split; [lia|]. destruct (Z.min_spec day (days_in_month year month)) as [[_ ->]|[_ ->]]; [done|].
    unfold missing_day. destruct (Z.eqb_spec month 10) as [->|]; [|by rewrite !andb_false_r].
    by rewrite H31, !andb_false_r by done.
Qed.

(** Division that rounds to zero, with the month put back into the year. *)
Lemma month_carry year month months :
  1 <= month <= 12 -> INT_MIN + 10 <= year + Z.quot months 12 <= INT_MAX - 10 ->
  (let month' := month + Z.rem months 12 in
   let year' := year + Z.quot months 12 in
   if 12 <? month' then y <- add_int year' 1;; Ok (y, month' - 12)
   else if month' <? 1 then y <- add_int year' (-1);; Ok (y, month' + 12)
   else Ok (year', month'))
  = Ok (year + (month - 1 + months) / 12, index_month (month - 1 + months)).
Proof.
  intros Hm Hy. cbv zeta. unfold index_month.
  pose proof (Z.quot_rem' months 12) as Eq. pose proof (Z.rem_bound_abs months 12 ltac:(lia)) as Hr.
  set (Q := Z.quot months 12) in *. set (R := Z.rem months 12) in *. clearbody Q R.
  assert (Edm : forall q, 0 <= month - 1 + R - 12 * q < 12 ->
            (month - 1 + months) / 12 = Q + q /\ (month - 1 + months) mod 12 = month - 1 + R - 12 * q).
  { intros q Hq. split; symmetry; [apply Z.div_unique with (month - 1 + R - 12 * q)|apply Z.mod_unique with (Q + q)]; lia. }
  destruct (Z.ltb_spec 12 (month + R)); [|destruct (Z.ltb_spec (month + R) 1)].
  - destruct (Edm 1) as [-> ->]; [lia|]. rewrite add_int_ok by lia. cbn [obind]. do 2 f_equal; lia.
  - destruct (Edm (-1)) as [-> ->]; [lia|]. rewrite add_int_ok by lia. cbn [obind]. do 2 f_equal; lia.
  - destruct (Edm 0) as [-> ->]; [lia|]. do 2 f_equal; lia.
Qed.

(** Stepping over the year 0. *)
Lemma skip_year_0_spec year n k :
  year <> 0 -> INT_MIN + 10 <= year + k <= INT_MAX - 10 -> (0 <= n -> 0 <= k) -> (n <= 0 -> k <= 0) ->
  (k = 0 \/ n <> 0) ->
  skip_year_0 year (year + k) n
  = Ok (if straight_year year + k <=? 0 then straight_year year + k - 1 else straight_year year + k).
Proof.
  intros Hy0 Hy Hp Hn Hk. unfold skip_year_0, straight_year.
  destruct (Z.ltb_spec 0 year), (Z.leb_spec (year + k) 0), (Z.ltb_spec year 0), (Z.leb_spec 0 (year + k));
    cbn [andb orb]; try lia;
    destruct (Z.ltb_spec 0 n); try lia; rewrite ?add_int_ok by lia; cbn [obind];
    match goal with |- context [?a <=? 0] => destruct (Z.leb_spec a 0) end; f_equal; lia.
Qed.

Lemma index_div d months :
  (month_index d + months) / 12 = straight_year (fYear d) + (fMonth d - 1 + months) / 12
  /\ index_month (month_index d + months) = index_month (fMonth d - 1 + months).
Proof.
  unfold month_index, index_month.
  replace (12 * straight_year (fYear d) + (fMonth d - 1) + months)
    with (fMonth d - 1 + months + straight_year (fYear d) * 12) by lia.
  rewrite Z.div_add, Z.mod_add by lia. lia.
Qed.

(** C26: adding months.  For a valid date whose sum has a year from 4713 BC to
    five million, [AddMonths] gives the valid date in the month that is so many
    months later, in a count of months without a year 0, with the same day, or
    the last day of a shorter month, or the 4th or 15th of October 1582 for
    one of the missing days. *)
Theorem AddMonths_correct d months :
  valid d = true -> fYear d <= YEAR_MAX ->
  let k := month_index d + months in
  -4713 <= index_year k <= YEAR_MAX ->
  let d' := {| fDay := kept_day (0 <? months) (index_year k) (index_month k) (fDay d);
               fYear := index_year k; fMonth := index_month k |} in
  AddMonths d months = Ok d' /\ BDate_IsValid d' = Ok true.
Proof.
  intros Hv Hmax k Hk d'. pose proof Hv as ((Hy0 & Hy) & Hm & _)%valid_date_true.
  pose proof (valid_days _ _ _ Hv) as H31. unfold YEAR_MAX in *.
  destruct (index_div d months) as [Ek Em]. fold k in Ek, Em.
  assert (Hik : index_year k <> 0 /\ 1 <= index_month k <= 12).
  { unfold index_year, index_month. destruct (Z.leb_spec (k / 12) 0); Z.to_euclidean_division_equations; lia. }
  assert (Hs : straight_year (fYear d) = fYear d \/ straight_year (fYear d) = fYear d + 1)
    by (unfold straight_year; destruct (Z.ltb_spec (fYear d) 0); lia).
  assert (Hq : - 5010000 <= (fMonth d - 1 + months) / 12 <= 5010000).
  { unfold index_year in Hk. destruct (Z.leb_spec (k / 12) 0); lia. }
  split.
  - unfold AddMonths. rewrite IsValid_spec, Hv. cbn [obind].
    assert (Hqq : Z.quot months 12 - 1 <= (fMonth d - 1 + months) / 12 <= Z.quot months 12 + 1)
      by (Z.to_euclidean_division_equations; lia).
    rewrite add_int_ok by (unfold INT_MIN, INT_MAX; lia). cbn [obind].
    pose proof (month_carry (fYear d) (fMonth d) months Hm ltac:(unfold INT_MIN, INT_MAX; lia)) as Ec.
    cbv zeta in Ec. rewrite Ec. cbn [obind].
    rewrite skip_year_0_spec; [|done|unfold INT_MIN, INT_MAX; lia|Z.to_euclidean_division_equations; lia..].
    rewrite <- Ek. cbn [obind]. fold (index_year k). rewrite <- Em.
    rewrite DaysInMonth_spec by lia. cbn [obind]. unfold d', kept_day. by rewrite min_c_min.
  - rewrite IsValid_spec. f_equal. apply kept_day_valid; lia.
Qed.

(** *** Adding years *)

(** The year so many years later. *)
Definition later_year (year n : Z) : Z :=
  if straight_year year + n <=? 0 then straight_year year + n - 1 else straight_year year + n.

(** Adding years.  The same holds for [AddYears], unless it leads from a
    day of another October into the days that October 1582 does not have: then
    the result is not a valid date. *)
Theorem AddYears_correct d years :
  valid d = true -> fYear d <= YEAR_MAX -> -4713 <= later_year (fYear d) years <= YEAR_MAX ->
  let year := later_year (fYear d) years in
  let d' := {| fDay := Z.min (fDay d) (days_in_month year (fMonth d)); fYear := year; fMonth := fMonth d |} in
  AddYears d years = Ok d'
  /\ BDate_IsValid d' = Ok (negb (missing_day year (fMonth d) (fDay d))).
Proof.
  intros Hv Hmax Hk year d'. pose proof Hv as ((Hy0 & Hy) & Hm & _)%valid_date_true.
  pose proof (valid_days _ _ _ Hv) as H31. fold year in Hk. unfold YEAR_MAX in *.
  assert (Hy' : year <> 0) by (unfold year, later_year; destruct (Z.leb_spec (straight_year (fYear d) + years) 0); lia).
  assert (Hq : - 5010000 <= years <= 5010000).
  { unfold year, later_year, straight_year in Hk.
    destruct (Z.ltb_spec (fYear d) 0); match type of Hk with context [?a <=? 0] => destruct (Z.leb_spec a 0) end; lia. }
  split.
  - unfold AddYears. rewrite IsValid_spec, Hv. cbn [obind].
    rewrite add_int_ok by (unfold INT_MIN, INT_MAX; lia). cbn [obind].
    rewrite skip_year_0_spec by (try done; unfold INT_MIN, INT_MAX; lia). fold (later_year (fYear d) years). fold year.
    cbn [obind]. rewrite DaysInMonth_spec by lia. cbn [obind]. by rewrite min_c_min.
  - rewrite IsValid_spec. f_equal. destruct (missing_day year (fMonth d) (fDay d)) eqn:E; cbn [negb].
    + apply not_true_iff_false. unfold valid. rewrite valid_date_true. intros (_ & _ & _ & Hmiss).
      unfold missing_day in *. cbn [fYear fMonth fDay d'] in Hmiss. zbool.
      rewrite (Z.min_l (fDay d)) in Hmiss by (replace (fMonth d) with 10 by lia; unfold days_in_month; simpl; lia).
      rewrite !(proj2 (Z.eqb_eq _ _)), !(proj2 (Z.ltb_lt _ _)) in Hmiss by lia. done.
    + pose proof (kept_day_valid true year (fMonth d) (fDay d) Hy' (proj1 Hk) Hm H31) as Hkd.
      unfold kept_day in Hkd. by rewrite E in Hkd.
Qed.

(** A year after 10 October 1581. *)
Lemma AddYears_missing :
  AddYears {| fDay := 10; fYear := 1581; fMonth := 10 |} 1
  = Ok {| fDay := 10; fYear := 1582; fMonth := 10 |}
  /\ BDate_IsValid {| fDay := 10; fYear := 1582; fMonth := 10 |} = Ok false.
Proof. split; reflexivity. Qed.

(** ** The theorems at concrete dates *)

(** 14 July 1789. *)
Lemma BDate_round_trip_witness :
  let d := {| fDay := 14; fYear := 1789; fMonth := 7 |} in
  valid d = true /\ exists j, DateToJulianDay d = Ok j /\ 0 <= j /\ JulianDayToDate j = Ok d.
Proof.
  intros d. split; [reflexivity|].
  exact (proj1 (BDate_round_trip d 0 eq_refl ltac:(vm_compute; discriminate) ltac:(unfold JD_MAX; lia))).
Defined.

(** Over the change of calendar: a day after 4 October 1582, a Thursday, and a
    day back. *)
Lemma AddDays_correct_witness :
  let d := {| fDay := 4; fYear := 1582; fMonth := 10 |} in
  let d' := {| fDay := 15; fYear := 1582; fMonth := 10 |} in
  AddDays d 1 = Ok d' /\ DayOfWeek d = Ok 4 /\ exists x w, AddDays d 1 = Ok x /\ DayOfWeek d = Ok w /\ AddDays x (-1) = Ok d.
Proof.
  intros d d'. split; [reflexivity|]. split; [reflexivity|].
  assert (Hj : JD d = 2299160) by reflexivity.
  destruct (AddDays_correct d 1 0 eq_refl ltac:(vm_compute; discriminate)) as (x & w & E & _ & _ & Ew & _ & _ & _ & Eb);
    [rewrite Hj; unfold JD_MAX; lia..|].
  exists x, w. split; [exact E|]. split; [exact Ew|]. apply Eb. rewrite Hj. unfold JD_MAX. lia.
Defined.

(** The last day before our era is before the first day of it. *)
Lemma BDate_order_witness :
  let d := {| fDay := 31; fYear := -1; fMonth := 12 |} in
  let d' := {| fDay := 1; fYear := 1; fMonth := 1 |} in
  valid d = true /\ valid d' = true /\ BDate_lt d d' = Ok true.
Proof.
  intros d d'. split; [reflexivity|]. split; [reflexivity|].
  exact (proj1 (BDate_order d d' eq_refl ltac:(vm_compute; discriminate) eq_refl ltac:(vm_compute; discriminate))).
Defined.

(** A month before 31 March of a leap year. *)
Lemma AddMonths_correct_witness :
  let d := {| fDay := 31; fYear := 2004; fMonth := 3 |} in
  valid d = true /\ AddMonths d (-1) = Ok {| fDay := 29; fYear := 2004; fMonth := 2 |}.
Proof.
  intros d. split; [reflexivity|].
  exact (proj1 (AddMonths_correct d (-1) eq_refl ltac:(vm_compute; discriminate)
                  ltac:(vm_compute; split; discriminate))).
Defined.

(** The year after 1 BC is the year 1, and 29 February is the 28th in it. *)
Lemma AddYears_correct_witness :
  let d := {| fDay := 29; fYear := -1; fMonth := 2 |} in
  valid d = true /\ AddYears d 1 = Ok {| fDay := 28; fYear := 1; fMonth := 2 |}.
Proof.
  intros d. split; [reflexivity|].
  exact (proj1 (AddYears_correct d 1 eq_refl ltac:(vm_compute; discriminate)
                  ltac:(vm_compute; split; discriminate))).
Defined.
