(* ===== verification/CalendarWeek.v ===== *)
(** Years and weeks of [BDate] (kits/support/DateTime.cpp): the number of a
    week is that of ISO 8601, and the days of a year are counted from its first
    day, except that the length of 1582 is not the one that is given. *)

From Stdlib Require Import ZArith Lia List Bool.
From stdpp Require Import base tactics list numbers.
From S2P Require Import Prelude Clipping Calendar CalendarOps.
Local Open Scope Z_scope.
Local Open Scope c_scope.

(** ** The days of a year *)

(** The leap days of the Gregorian years up to [a]. *)
Definition leaps (a : Z) : Z := a / 4 - a / 100 + a / 400.

(** 1 January, in the Gregorian calendar. *)
Definition new_year (year : Z) : Z := 365 * (year - 1) + leaps (year - 1) + 1721426.

(** The days of the year before a month. *)
Definition days_before (year month : Z) : Z :=
  if month <? 3 then 31 * (month - 1)
  else (153 * (month - 3) + 2) / 5 + 59 + (leaps year - leaps (year - 1)).

Lemma leap_days_nonneg a : 0 <= a -> leap_days a = leaps a.
Proof. intros Ha. unfold leap_days, leaps. by rewrite !Z.quot_div_nonneg by lia. Qed.

Lemma leaps_step a : 1 <= a -> 0 <= leaps a - leaps (a - 1) <= 1.
Proof. intros Ha. unfold leaps. Z.to_euclidean_division_equations; lia. Qed.

Lemma leaps_shift a : leaps (a + 4800) = leaps a + 1164.
Proof.
  unfold leaps. replace (a + 4800) with (a + 1200 * 4) at 1 by lia. rewrite Z.div_add by lia.
  replace (a + 4800) with (a + 48 * 100) at 1 by lia. rewrite Z.div_add by lia.
  replace (a + 4800) with (a + 12 * 400) by lia. rewrite Z.div_add by lia. lia.
Qed.

Lemma gregorian_day_leaps y m d : gregorian_day y m d = march_day m d + 365 * y + leaps y.
Proof. unfold gregorian_day, leaps. lia. Qed.

(** The Julian day by the days of the year. *)
Lemma gregorian_new_year year month day :
  1 <= year -> 1 <= month <= 12 ->
  gregorian_day (march_year year month) (march_month month) day - 32044
  = new_year year + days_before year month + (day - 1).
Proof.
  intros Hy Hm. rewrite gregorian_day_leaps. unfold new_year, days_before, march_year.
  rewrite (proj2 (Z.ltb_ge year 0)) by lia. destruct (Z.ltb_spec month 3).
  - replace ((14 - month) / 12) with 1 by (Z.to_euclidean_division_equations; lia).
    replace (year + 4800 - 1) with (year - 1 + 4800) by lia. rewrite leaps_shift.
    assert (E : month = 1 \/ month = 2) by lia. unfold march_day, march_month.
    destruct E as [-> | ->]; Z.to_euclidean_division_equations; lia.
  - replace ((14 - month) / 12) with 0 by (Z.to_euclidean_division_equations; lia).
    replace (year + 4800 - 0) with (year + 4800) by lia. rewrite leaps_shift.
    unfold march_day, march_month. replace ((14 - month) / 12) with 0 by (Z.to_euclidean_division_equations; lia).
    replace (month + 12 * 0 - 3) with (month - 3) by lia. lia.
Qed.

(** ** The number of the week *)

(** The week of a day is the week of the Thursday next to it, in the year of
    that Thursday. *)
Definition thursday (jd : Z) : Z := jd - jd mod 7 + 3.

Definition year_of_day (year jd : Z) : Z :=
  if jd <? new_year year then year - 1 else if new_year (year + 1) <=? jd then year + 1 else year.

Definition iso_week (d : BDate) : Z :=
  let t := thursday (JD d) in
  (t - new_year (year_of_day (fYear d) t)) / 7 + 1.

(** The week of the day with number [f] in its year, counted from the first
    of January: [w] its day of the week. *)
Lemma iso_week_ordinal d f w :
  1 <= fYear d -> JD d = new_year (fYear d) + f -> 0 <= f -> w = JD d mod 7 ->
  let n := f + 3 - w in
  let s := leaps (fYear d) - leaps (fYear d - 1) in
  iso_week d = if n <? 0 then (n + new_year (fYear d) - new_year (fYear d - 1)) / 7 + 1
               else if 364 + s <? n then (n - 365 - s) / 7 + 1 else n / 7 + 1.
Proof.
  intros Hy E Hf Ew n s. pose proof (leaps_step (fYear d) Hy). unfold iso_week, thursday. rewrite <- Ew, E.
  assert (En : new_year (fYear d + 1) = new_year (fYear d) + 365 + s).
  { unfold new_year, s. replace (fYear d + 1 - 1) with (fYear d) by lia. lia. }
  replace (new_year (fYear d) + f - w + 3) with (new_year (fYear d) + n) by lia.
  unfold year_of_day. rewrite En. destruct (Z.ltb_spec n 0).
  - rewrite (proj2 (Z.ltb_lt _ _)) by lia. do 2 f_equal. lia.
  - rewrite (proj2 (Z.ltb_ge _ _)) by lia. destruct (Z.ltb_spec (364 + s) n).
    + rewrite (proj2 (Z.leb_le _ _)) by lia. rewrite En. do 2 f_equal. lia.
    + rewrite (proj2 (Z.leb_gt _ _)) by lia. do 2 f_equal. lia.
Qed.

(** The last week of the year before: 53 when that year began on a Thursday,
    or on a Wednesday and was a leap year. *)
Lemma last_week g s f w n :
  0 <= s <= 1 -> 0 <= g < 7 -> 0 <= f -> w = (f + g) mod 7 -> n = f + 3 - w -> n < 0 ->
  53 - Z.quot (g - s) 5 = (n + 365 + s) / 7 + 1.
Proof.
  intros Hs Hg Hf Ew En Hn. assert (Hw : w = f + g) by (subst n w; Z.to_euclidean_division_equations; lia).
  assert (Eg : n = 3 - g) by lia. clear - Hs Hg Eg Hn. Z.to_euclidean_division_equations; lia.
Qed.

Lemma new_year_week year : (new_year year) mod 7 = (year - 1 + leaps (year - 1)) mod 7.
Proof.
  unfold new_year. replace (365 * (year - 1) + leaps (year - 1) + 1721426)
    with (year - 1 + leaps (year - 1) + (52 * (year - 1) + 245918) * 7) by lia.
  by rewrite Z.mod_add by lia.
Qed.

Lemma mod_shift x y f e : (y + e) mod 7 = x mod 7 -> (f + y mod 7 + e) mod 7 = (x + f) mod 7.
Proof.
  intros E. rewrite <- (Zplus_mod_idemp_l x), <- E, Zplus_mod_idemp_l.
  replace (f + y mod 7 + e) with (y mod 7 + (f + e)) by lia. rewrite Zplus_mod_idemp_l. f_equal. lia.
Qed.

Lemma days_before_pos year month : 1 <= year -> 1 <= month <= 12 ->
  0 <= days_before year month /\ (3 <= month -> 59 <= days_before year month)
  /\ (month < 3 -> days_before year month <= 31).
Proof.
  intros Hy Hm. pose proof (leaps_step year Hy). unfold days_before.
  destruct (Z.ltb_spec month 3); [lia|]. assert (0 <= (153 * (month - 3) + 2) / 5) by (apply Z.div_pos; lia). lia.
Qed.

Lemma JD_new_year d :
  valid d = true -> after_switch (fYear d) (fMonth d) (fDay d) = true ->
  1582 <= fYear d /\ JD d = new_year (fYear d) + (days_before (fYear d) (fMonth d) + fDay d - 1).
Proof.
  intros Hv Ha. pose proof Hv as (_ & Hm & _)%valid_date_true.
  assert (Hy : 1582 <= fYear d).
  { unfold after_switch in Ha. rewrite !orb_true_iff, !andb_true_iff, !Z.eqb_eq, !Z.ltb_lt, Z.leb_le in Ha. lia. }
  split; [done|]. unfold JD, jd_of. rewrite Ha, gregorian_new_year by lia. lia.
Qed.

(** January and February, with the leap days of the year before. *)
Lemma WeekNumber_early d :
  valid d = true -> fYear d <= YEAR_MAX -> after_switch (fYear d) (fMonth d) (fDay d) = true -> fMonth d < 3 ->
  WeekNumber d = Ok (iso_week d).
Proof.
  intros Hv Hmax Ha H3. pose proof (valid_days _ _ _ Hv) as H31. destruct (JD_new_year d Hv Ha) as [Hy EJ].
  pose proof Hv as (_ & Hm & _)%valid_date_true. destruct (days_before_pos (fYear d) (fMonth d)) as (Hb & _ & Hb3); [lia..|].
  unfold WeekNumber. rewrite IsValid_spec, Hv. cbn [obind negb orb].
  rewrite (proj2 (Z.ltb_ge (fYear d) 1582)) by lia. unfold after_switch in Ha.
  rewrite (proj2 (Z.ltb_lt 0 (fMonth d))), (proj2 (Z.ltb_lt (fMonth d) 3)) by lia. cbn [orb andb].
  destruct (Z.eqb_spec (fYear d) 1582) as [E|_].
  { exfalso. rewrite !orb_true_iff, !andb_true_iff, !Z.eqb_eq, !Z.ltb_lt, Z.leb_le in Ha. lia. }
  cbn [orb andb]. clear Ha. unfold YEAR_MAX in Hmax. rewrite !leap_days_nonneg by lia.
  pose proof (leaps_step (fYear d - 1) ltac:(lia)) as Hs.
  assert (Hl : 0 <= leaps (fYear d - 1) <= fYear d) by (unfold leaps; Z.to_euclidean_division_equations; lia).
  rewrite add_int_ok by (unfold INT_MIN, INT_MAX; lia). cbn [obind].
  rewrite (Z.rem_mod_nonneg (fYear d - 1 + leaps (fYear d - 1))) by lia.
  assert (Ef : fDay d - 1 + 31 * (fMonth d - 1) = days_before (fYear d) (fMonth d) + fDay d - 1)
    by (unfold days_before; rewrite (proj2 (Z.ltb_lt (fMonth d) 3)) by lia; lia).
  rewrite Ef. set (f := days_before (fYear d) (fMonth d) + fDay d - 1) in *.
  set (g := (fYear d - 1 + leaps (fYear d - 1)) mod 7).
  assert (Hg : 0 <= g < 7) by (apply Z.mod_pos_bound; lia).
  rewrite Z.rem_mod_nonneg, Z.sub_0_r by lia.
  assert (Ew : (f + g) mod 7 = JD d mod 7).
  { rewrite EJ. rewrite <- (Zplus_mod_idemp_l (new_year _)), new_year_week. fold g. f_equal. lia. }
  pose proof (iso_week_ordinal d f ((f + g) mod 7) ltac:(lia) EJ ltac:(lia) Ew) as Ei. cbv zeta in Ei. rewrite Ei.
  pose proof (Z.mod_pos_bound (f + g) 7 ltac:(lia)) as Hw.
  destruct (Z.ltb_spec (f + 3 - (f + g) mod 7) 0) as [Hn|Hn].
  - f_equal. rewrite (last_week g _ f _ _ Hs Hg ltac:(lia) eq_refl eq_refl Hn). unfold new_year.
    replace (fYear d - 1 - 1) with (fYear d - 2) by lia. f_equal. f_equal. lia.
  - rewrite !(proj2 (Z.ltb_ge _ (f + 3 - (f + g) mod 7))) by (try done; pose proof (leaps_step (fYear d)); lia).
    by rewrite Z.quot_div_nonneg by lia.
Qed.

Lemma WeekNumber_late d :
  valid d = true -> fYear d <= YEAR_MAX -> after_switch (fYear d) (fMonth d) (fDay d) = true -> 3 <= fMonth d ->
  WeekNumber d = Ok (iso_week d).
Proof.
  intros Hv Hmax Ha H3. pose proof (valid_days _ _ _ Hv) as H31. destruct (JD_new_year d Hv Ha) as [Hy EJ].
  pose proof Hv as (_ & Hm & _)%valid_date_true. destruct (days_before_pos (fYear d) (fMonth d)) as (_ & Hb & _); [lia..|].
  specialize (Hb H3). unfold WeekNumber. rewrite IsValid_spec, Hv. cbn [obind negb orb].
  replace ((fYear d <? 1582) || _ || _) with false.
  2:{ symmetry. unfold after_switch in Ha. rewrite !orb_true_iff, !andb_true_iff, !Z.eqb_eq, !Z.ltb_lt, Z.leb_le in Ha.
      rewrite !orb_false_iff, !andb_false_iff, !Z.eqb_neq, !Z.ltb_ge. lia. }
  rewrite (proj2 (Z.ltb_lt 0 (fMonth d))), (proj2 (Z.ltb_ge (fMonth d) 3)) by lia. cbn [andb].
  clear Ha. unfold YEAR_MAX in Hmax. rewrite !leap_days_nonneg by lia.
  pose proof (leaps_step (fYear d) ltac:(lia)) as Hs.
  assert (Hl : 0 <= leaps (fYear d) <= fYear d) by (unfold leaps; Z.to_euclidean_division_equations; lia).
  rewrite add_int_ok by (unfold INT_MIN, INT_MAX; lia). cbn [obind].
  rewrite (Z.rem_mod_nonneg (fYear d + leaps (fYear d))) by lia.
  set (s := leaps (fYear d) - leaps (fYear d - 1)) in *.
  assert (Ef : fDay d + Z.quot (153 * (fMonth d - 3) + 2) 5 + 58 + s = days_before (fYear d) (fMonth d) + fDay d - 1).
  { unfold days_before. rewrite (proj2 (Z.ltb_ge (fMonth d) 3)), Z.quot_div_nonneg by lia. fold s. lia. }
  rewrite Ef. set (f := days_before (fYear d) (fMonth d) + fDay d - 1) in *.
  set (g := (fYear d + leaps (fYear d)) mod 7).
  assert (Hg : 0 <= g < 7) by (apply Z.mod_pos_bound; lia).
  rewrite Z.rem_mod_nonneg by lia. replace (f + g - (s + 1)) with (f + g + - (s + 1)) by lia.
  assert (Ew : (f + g + - (s + 1)) mod 7 = JD d mod 7).
  { rewrite EJ. apply mod_shift. rewrite new_year_week. f_equal. unfold s. lia. }
  pose proof (iso_week_ordinal d f _ ltac:(lia) EJ ltac:(lia) Ew) as Ei. cbv zeta in Ei. rewrite Ei.
  fold s. pose proof (Z.mod_pos_bound (f + g + - (s + 1)) 7 ltac:(lia)) as Hw.
  set (n := f + 3 - _) in *. rewrite (proj2 (Z.ltb_ge n 0)) by lia.
  destruct (Z.ltb_spec (364 + s) n) as [Hn|Hn]; [|by rewrite Z.quot_div_nonneg by lia].
  f_equal. replace ((n - 365 - s) / 7) with 0; [done|]. symmetry. apply Z.div_small.
  assert (f <= 364 + s); [|lia]. unfold f, days_before. rewrite (proj2 (Z.ltb_ge (fMonth d) 3)) by lia. fold s.
  assert ((153 * (fMonth d - 3) + 2) / 5 <= 275) by (Z.to_euclidean_division_equations; lia). lia.
Qed.

(** The year of the Thursday is the only one that holds it. *)
Lemma year_of_day_unique year jd :
  2 <= year -> new_year (year - 1) <= jd < new_year (year + 2) ->
  new_year (year_of_day year jd) <= jd < new_year (year_of_day year jd + 1).
Proof.
  intros Hy Hjd. unfold year_of_day. destruct (Z.ltb_spec jd (new_year year)).
  - replace (year - 1 + 1) with year by lia. lia.
  - destruct (Z.leb_spec (new_year (year + 1)) jd); [|lia]. replace (year + 1 + 1) with (year + 2) by lia. lia.
Qed.

Lemma new_year_step year : 2 <= year -> new_year year + 365 <= new_year (year + 1).
Proof. intros Hy. pose proof (leaps_step year ltac:(lia)). unfold new_year. replace (year + 1 - 1) with year by lia. lia. Qed.

(** C27: the number of the week.  For a valid date from 15 October 1582 on it
    is that of ISO 8601: the Thursday of the same week, from Monday to Sunday,
    lies in exactly one year, and the number counts the Thursdays of that year
    up to it; for an earlier date it is [B_ERROR]. *)
Theorem WeekNumber_iso d :
  valid d = true -> fYear d <= YEAR_MAX ->
  if after_switch (fYear d) (fMonth d) (fDay d) then
    let t := thursday (JD d) in
    let year := year_of_day (fYear d) t in
    t mod 7 = 3 /\ t / 7 = JD d / 7 /\ new_year year <= t < new_year (year + 1)
    /\ WeekNumber d = Ok ((t - new_year year) / 7 + 1)
  else WeekNumber d = Ok B_ERROR.
Proof.
  intros Hv Hmax. destruct (after_switch (fYear d) (fMonth d) (fDay d)) eqn:Ha.
  - cbv zeta. destruct (JD_new_year d Hv Ha) as [Hy EJ]. pose proof (valid_days _ _ _ Hv) as H31.
    pose proof Hv as (_ & Hm & _)%valid_date_true.
    assert (Ht : thursday (JD d) = 3 + JD d / 7 * 7)
      by (unfold thursday; pose proof (Z.div_mod (JD d) 7); lia).
    split; [by rewrite Ht, Z.mod_add by lia|]. split; [by rewrite Ht, Z.div_add by lia|]. split.
    + apply year_of_day_unique; [lia|]. destruct (days_before_pos (fYear d) (fMonth d)) as (Hb & _); [lia..|].
      pose proof (new_year_step (fYear d - 1) ltac:(lia)) as N1. replace (fYear d - 1 + 1) with (fYear d) in N1 by lia.
      pose proof (new_year_step (fYear d) ltac:(lia)) as N2. pose proof (new_year_step (fYear d + 1) ltac:(lia)) as N3.
      replace (fYear d + 1 + 1) with (fYear d + 2) in N3 by lia.
      assert (days_before (fYear d) (fMonth d) <= 335).
      { pose proof (leaps_step (fYear d) ltac:(lia)). unfold days_before. destruct (Z.ltb_spec (fMonth d) 3); [lia|].
        assert ((153 * (fMonth d - 3) + 2) / 5 <= 275) by (Z.to_euclidean_division_equations; lia). lia. }
      unfold thursday. pose proof (Z.mod_pos_bound (JD d) 7). lia.
    + change (WeekNumber d = Ok (iso_week d)). destruct (Z.ltb_spec (fMonth d) 3);
        [by apply WeekNumber_early|apply WeekNumber_late; auto; lia].
  - unfold WeekNumber. rewrite IsValid_spec, Hv. cbn [obind negb orb].
    replace ((fYear d <? 1582) || _ || _) with true; [done|]. symmetry. unfold after_switch in Ha.
    rewrite !orb_false_iff, !andb_false_iff, !Z.eqb_neq, !Z.ltb_ge, Z.leb_gt in Ha.
    rewrite !orb_true_iff, !andb_true_iff, !Z.eqb_eq, !Z.ltb_lt. lia.
Qed.

(** 1 January 2010 was in week 53 of 2009. *)
Lemma WeekNumber_iso_witness :
  let d := {| fDay := 1; fYear := 2010; fMonth := 1 |} in
  valid d = true /\ year_of_day 2010 (thursday (JD d)) = 2009 /\ WeekNumber d = Ok 53.
Proof.
  intros d. split; [reflexivity|]. split; [reflexivity|].
  exact (proj2 (proj2 (proj2 (WeekNumber_iso d eq_refl ltac:(vm_compute; discriminate))))).
Defined.

(** ** The day in the year *)

Lemma jd_of_lt_1582 year month day :
  year < 1582 -> jd_of year month day = julian_day (march_year year month) (march_month month) day - 32082.
Proof.
  intros Hy. unfold jd_of, after_switch.
  by rewrite (proj2 (Z.ltb_ge 1582 year)), (proj2 (Z.eqb_neq year 1582)) by lia.
Qed.

Lemma jd_of_gt_1582 year month day :
  1582 < year -> 1 <= month <= 12 -> jd_of year month day = new_year year + days_before year month + (day - 1).
Proof.
  intros Hy Hm. unfold jd_of, after_switch. rewrite (proj2 (Z.ltb_lt 1582 year)) by lia. cbn [orb].
  apply gregorian_new_year; lia.
Qed.

Lemma leap_year_leaps year : 1582 <= year -> leaps year - leaps (year - 1) = Z.b2z (IsLeapYear year).
Proof.
  intros Hy. unfold IsLeapYear, leaps. rewrite (proj2 (Z.ltb_ge year 1582)) by lia. rewrite !Z.rem_mod_nonneg by lia.
  destruct (Z.eqb_spec (year mod 400) 0), (Z.eqb_spec (year mod 4) 0), (Z.eqb_spec (year mod 100) 0);
    cbn [negb orb andb Z.b2z]; Z.to_euclidean_division_equations; lia.
Qed.

(** The length of a year as the difference of its first and last day. *)
Lemma year_length year :
  year <> 0 -> -4713 <= year -> year <> 1582 ->
  jd_of year 12 31 - jd_of year 1 1 + 1 = if IsLeapYear year then 366 else 365.
Proof.
  intros Hy0 Hy H1582. destruct (Z.ltb_spec year 1582).
  - rewrite !jd_of_lt_1582 by lia. unfold julian_day, march_day, march_year, IsLeapYear.
    rewrite (proj2 (Z.ltb_lt year 1582)) by lia. change (march_month 12) with 9. change (march_month 1) with 10.
    change ((14 - 12) / 12) with 0. change ((14 - 1) / 12) with 1.
    set (y := if year <? 0 then year + 1 else year). assert (Hr : -4712 <= y) by (unfold y; destruct (Z.ltb_spec year 0); lia).
    clearbody y. destruct (Z.eqb_spec (Z.rem y 4) 0); Z.to_euclidean_division_equations; lia.
  - rewrite !jd_of_gt_1582 by lia. pose proof (leap_year_leaps year ltac:(lia)) as Hl. unfold days_before.
    cbn [Z.ltb Z.compare Pos.compare Pos.compare_cont]. change ((153 * (12 - 3) + 2) / 5) with 275.
    destruct (IsLeapYear year); cbn [Z.b2z] in Hl; lia.
Qed.

Lemma valid_in_year year month day :
  year <> 0 -> -4713 <= year -> month = 1 /\ day = 1 \/ month = 12 /\ day = 31 -> valid_date year month day = true.
Proof.
  intros Hy0 Hy E. apply valid_date_true. unfold missing_day.
  destruct E as [[-> ->]|[-> ->]]; cbn; rewrite andb_false_r; repeat split; lia || done.
Qed.

(** The days of a year.  [DayOfYear] of a valid date counts the days from
    the first of January, which is 1, in the order of the dates; [DaysInYear]
    is that of the last of December, but in 1582, whose ten missing days it
    does not subtract. *)
Theorem DayOfYear_correct d :
  valid d = true -> fYear d <= YEAR_MAX ->
  let first := {| fDay := 1; fYear := fYear d; fMonth := 1 |} in
  let last := {| fDay := 31; fYear := fYear d; fMonth := 12 |} in
  exists n, DayOfYear d = Ok n /\ 1 <= n /\ BDate_Difference first d = Ok (n - 1)
    /\ (fYear d <> 1582 -> exists m, n <= m /\ DaysInYear d = Ok m /\ DayOfYear last = Ok m)
    /\ (fYear d = 1582 -> DaysInYear d = Ok 365 /\ DayOfYear last = Ok 355).
Proof.
  intros Hv Hmax first last. pose proof Hv as ((Hy0 & Hy) & Hm & Hd & _)%valid_date_true.
  assert (Hf : valid first = true) by (apply valid_in_year; auto).
  assert (Hl : valid last = true) by (apply valid_in_year; auto).
  assert (Hn : forall x, valid x = true -> fYear x = fYear d -> DayOfYear x = Ok (JD x - JD first + 1)).
  { intros x Hx Ex. unfold DayOfYear. rewrite IsValid_spec, Hx. cbn [obind]. rewrite (JD_spec x Hx) by lia. cbn [obind].
    rewrite Ex. change (_DateToJulianDay (fYear d) 1 1) with (DateToJulianDay first). by rewrite (JD_spec first Hf) by done. }
  assert (Hge : JD first <= JD d).
  { apply Z.nlt_ge. intros Hlt%Z.ltb_lt. rewrite (JD_lt _ _ Hv Hf), earlier_true in Hlt. cbn in Hlt. lia. }
  assert (Hle : JD d <= JD last).
  { pose proof (valid_days _ _ _ Hv). apply Z.nlt_ge. intros Hlt%Z.ltb_lt.
    rewrite (JD_lt _ _ Hl Hv), earlier_true in Hlt. cbn in Hlt. lia. }
  exists (JD d - JD first + 1). rewrite !Hn, Difference_spec by done. unfold DaysInYear. rewrite IsValid_spec, Hv. cbn [obind].
  split; [done|]. split; [lia|]. split; [f_equal; lia|]. split; intros E.
  - pose proof (year_length (fYear d) Hy0 Hy E) as El. exists (if IsLeapYear (fYear d) then 366 else 365).
    rewrite <- El. unfold JD at 2 in Hle. unfold JD. cbn. unfold JD in Hle. cbn in Hle. split; [lia|]. split; done.
  - unfold JD. cbn. by rewrite E.
Qed.

Lemma DayOfYear_correct_witness :
  let d := {| fDay := 1; fYear := 2004; fMonth := 3 |} in
  valid d = true /\ DayOfYear d = Ok 61 /\ exists n, DayOfYear d = Ok n /\ 1 <= n.
Proof.
  intros d. split; [reflexivity|]. split; [reflexivity|].
  destruct (DayOfYear_correct d eq_refl ltac:(vm_compute; discriminate)) as (n & E & Hn & _).
  exists n. split; [exact E|exact Hn].
Defined.
