(* ===== verification/DateTime.v ===== *)
(** A date with a time of day, [BDateTime] (kits/support/DateTime.cpp), its
    conversion from and to seconds since 1970, and its order.

    [mktime] of the C library is a parameter; what the conversion relies on,
    in a process whose time zone is UTC, is the formula of POSIX for the
    seconds since the epoch. *)

From Stdlib Require Import ZArith Lia List Bool.
From stdpp Require Import base tactics list numbers.
From S2P Require Import Prelude Clipping TimeOfDay Calendar CalendarOps CalendarWeek.
Local Open Scope Z_scope.
Local Open Scope c_scope.

(** ** Definitions *)

Record BDateTime : Type := DateTime { fDate : BDate; fTime : BTime }.

#[export] Instance BDateTime_eq_dec : EqDecision BDateTime.
Proof. solve_decision. Defined.

Definition BDateTime0 : BDateTime := {| fDate := BDate0; fTime := BTime0 |}.

Definition BDateTime_IsValid (dt : BDateTime) : outcome bool :=
  valid <- BDate_IsValid (fDate dt);;
  if valid then Ok (BTime_IsValid (fTime dt)) else Ok false.

Definition SetDateTime (dt : BDateTime) (date : BDate) (time : BTime) : BDateTime :=
  {| fDate := date; fTime := time |}.

Definition BDateTime_SetDate (dt : BDateTime) (date : BDate) : BDateTime :=
  {| fDate := date; fTime := fTime dt |}.

Definition BDateTime_SetTime (dt : BDateTime) (time : BTime) : BDateTime :=
  {| fDate := fDate dt; fTime := time |}.

(** [BTime::SetTime(const BTime&)] *)
Definition SetTime_from (t time : BTime) : BTime * bool := (time, BTime_IsValid time).

(** [BDate::SetDate(const BDate&)] *)
Definition SetDate_from (d date : BDate) : outcome (BDate * bool) :=
  BDate_SetDate (fYear date) (fMonth date) (fDay date).

(** [time_t] has 64 bits. *)
Definition sub_time (a b : Z) : outcome Z :=
  if (- 2 ^ 63 <=? a - b) && (a - b <? 2 ^ 63) then Ok (a - b) else Fault.

Definition SetTime_t (dt : BDateTime) (seconds : Z) : outcome BDateTime :=
  let timePart := Z.rem seconds kSecondsPerDay in
  let! (timePart, seconds) :=
    (if timePart <? 0
     then s <- sub_time seconds kSecondsPerDay;; Ok (timePart + kSecondsPerDay, s)
     else Ok (timePart, seconds)) in
  let time := AddSeconds BTime0 (i32 timePart) in
  let fTime' := (SetTime_from (fTime dt) time).1 in
  date <- BDate_new 1970 1 1;;
  date <- AddDays date (i32 (Z.quot seconds kSecondsPerDay));;
  s <- SetDate_from (fDate dt) date;;
  Ok {| fDate := s.1; fTime := fTime' |}.

(** The fields of [struct tm] that are set. *)
Record tm : Type := {
  tm_sec : Z; tm_min : Z; tm_hour : Z; tm_mday : Z; tm_mon : Z; tm_year : Z; tm_isdst : Z
}.

Section Mktime.
Variable mktime : tm -> Z.

Definition Time_t (dt : BDateTime) : outcome Z :=
  date <- BDate_new 1970 1 1;;
  n <- BDate_Difference date (fDate dt);;
  if n <? 0 then Ok (-1)
  else
    year <- add_int (fYear (fDate dt)) (-1900);;
    mon <- add_int (fMonth (fDate dt)) (-1);;
    Ok (mktime {| tm_sec := Second (fTime dt); tm_min := Minute (fTime dt); tm_hour := Hour (fTime dt);
                  tm_mday := fDay (fDate dt); tm_mon := mon; tm_year := year; tm_isdst := -1 |}).
End Mktime.

Definition BDateTime_ne (dt dateTime : BDateTime) : outcome bool :=
  if BTime_ne (fTime dt) (fTime dateTime) then BDate_ne (fDate dt) (fDate dateTime) else Ok false.

Definition BDateTime_eq (dt dateTime : BDateTime) : outcome bool :=
  if BTime_eq (fTime dt) (fTime dateTime) then BDate_eq (fDate dt) (fDate dateTime) else Ok false.

Definition BDateTime_lt (dt dateTime : BDateTime) : outcome bool :=
  lt <- BDate_lt (fDate dt) (fDate dateTime);;
  if lt then Ok true
  else
    eq <- BDate_eq (fDate dt) (fDate dateTime);;
    Ok (if eq then BTime_lt (fTime dt) (fTime dateTime) else false).

Definition BDateTime_le (dt dateTime : BDateTime) : outcome bool :=
  lt <- BDate_lt (fDate dt) (fDate dateTime);;
  if lt then Ok true
  else
    eq <- BDate_eq (fDate dt) (fDate dateTime);;
    Ok (if eq then BTime_le (fTime dt) (fTime dateTime) else false).

Definition BDateTime_gt (dt dateTime : BDateTime) : outcome bool :=
  gt <- BDate_gt (fDate dt) (fDate dateTime);;
  if gt then Ok true
  else
    eq <- BDate_eq (fDate dt) (fDate dateTime);;
    Ok (if eq then BTime_gt (fTime dt) (fTime dateTime) else false).

Definition BDateTime_ge (dt dateTime : BDateTime) : outcome bool :=
  gt <- BDate_gt (fDate dt) (fDate dateTime);;
  if gt then Ok true
  else
    eq <- BDate_eq (fDate dt) (fDate dateTime);;
    Ok (if eq then BTime_ge (fTime dt) (fTime dateTime) else false).

(** ** Seconds since 1970 *)

(** The Julian day of 1 January 1970. *)
Definition JD_1970 : Z := 2440588.

Lemma set_date_valid d date : valid date = true -> SetDate_from d date = Ok (date, true).
Proof.
  intros Hv. unfold SetDate_from, BDate_SetDate. rewrite IsValid3_spec. unfold valid in Hv. rewrite Hv. by destruct date.
Qed.

(** The day and the second of a number of seconds, rounded towards the past. *)
Lemma floor_parts s :
  - 2 ^ 62 <= s <= 2 ^ 62 ->
  (let timePart := Z.rem s kSecondsPerDay in
   if timePart <? 0 then x <- sub_time s kSecondsPerDay;; Ok (timePart + kSecondsPerDay, x) else Ok (timePart, s))
  = Ok (s mod kSecondsPerDay, if Z.rem s kSecondsPerDay <? 0 then s - kSecondsPerDay else s)
  /\ Z.quot (if Z.rem s kSecondsPerDay <? 0 then s - kSecondsPerDay else s) kSecondsPerDay = s / kSecondsPerDay.
Proof.
  intros Hs. cbv zeta. unfold sub_time, kSecondsPerDay. destruct (Z.ltb_spec (Z.rem s 86400) 0).
  - rewrite (proj2 (Z.leb_le _ _)), (proj2 (Z.ltb_lt (s - 86400) _)) by lia. cbn [andb obind].
    split; [do 2 f_equal|]; Z.to_euclidean_division_equations; lia.
  - split; [do 2 f_equal|]; Z.to_euclidean_division_equations; lia.
Qed.

Lemma i32_int x : INT_MIN <= x <= INT_MAX -> i32 x = x.
Proof. unfold INT_MIN, INT_MAX. intros H. unfold i32. apply swrap_id; lia. Qed.

Lemma SetTime_t_spec dt s :
  0 <= JD_1970 + s / kSecondsPerDay <= JD_MAX ->
  exists date, SetTime_t dt s = Ok {| fDate := date; fTime := Time (s mod kSecondsPerDay * kMicrosecondsPerSecond) |}
    /\ valid date = true /\ fYear date <= YEAR_MAX /\ JD date = JD_1970 + s / kSecondsPerDay.
Proof.
  intros Hs. set (q := s / kSecondsPerDay) in *. unfold JD_1970, JD_MAX in Hs.
  assert (Hb : - 2 ^ 62 <= s <= 2 ^ 62).
  { unfold q, kSecondsPerDay in Hs. pose proof (Z.div_mod s 86400 ltac:(lia)). pose proof (Z.mod_pos_bound s 86400). lia. }
  destruct (floor_parts s Hb) as [E1 E2]. cbv zeta in E1.
  destruct (AddDays_jd {| fDay := 1; fYear := 1970; fMonth := 1 |} q eq_refl ltac:(unfold YEAR_MAX; simpl; lia))
    as (date & E & Hv & Hy & Ej); [by change (JD _) with 2440588|].
  exists date. split; [|done]. unfold SetTime_t. rewrite E1. cbn [obind].
  change (BDate_new 1970 1 1) with (Ok {| fDay := 1; fYear := 1970; fMonth := 1 |}). cbn [obind].
  rewrite E2. fold q. rewrite (i32_int q) by (unfold INT_MIN, INT_MAX; lia). rewrite E. cbn [obind].
  rewrite set_date_valid by done. cbn [obind fst SetTime_from]. do 2 f_equal.
  pose proof (Z.mod_pos_bound s kSecondsPerDay) as Hm. unfold kSecondsPerDay in *.
  rewrite i32_int by (unfold INT_MIN, INT_MAX; lia).
  rewrite (time_add_mod USeconds BTime0) by (unfold wf_time; simpl; time_consts; lia). cbn [unit_us].
  change (_Microseconds BTime0) with 0. rewrite Z.add_0_l. f_equal. apply Z.mod_small. time_consts. lia.
Qed.

(** *** The formula of POSIX *)

Definition posix_leap (year : Z) : bool :=
  (year mod 4 =? 0) && (negb (year mod 100 =? 0) || (year mod 400 =? 0)).

Definition days_to_month : list Z := [0; 31; 59; 90; 120; 151; 181; 212; 243; 273; 304; 334].

Definition posix_yday (t : tm) : Z :=
  nth (Z.to_nat (tm_mon t)) days_to_month 0
  + (if (2 <=? tm_mon t) && posix_leap (tm_year t + 1900) then 1 else 0) + tm_mday t - 1.

Definition posix_seconds (t : tm) : Z :=
  tm_sec t + tm_min t * 60 + tm_hour t * 3600 + posix_yday t * 86400
  + (tm_year t - 70) * 31536000 + ((tm_year t - 69) / 4) * 86400
  - ((tm_year t - 1) / 100) * 86400 + ((tm_year t + 299) / 400) * 86400.

(** The fields are in their ranges, from 1970 on. *)
Definition tm_normal (t : tm) : Prop :=
  0 <= tm_sec t < 60 /\ 0 <= tm_min t < 60 /\ 0 <= tm_hour t < 24
  /\ 1 <= tm_mday t <= 31 /\ 0 <= tm_mon t < 12 /\ 70 <= tm_year t.

Lemma posix_leap_spec year : 1582 <= year -> IsLeapYear year = posix_leap year.
Proof.
  intros Hy. unfold IsLeapYear, posix_leap. rewrite (proj2 (Z.ltb_ge year 1582)), !Z.rem_mod_nonneg by lia.
  destruct (Z.eqb_spec (year mod 400) 0), (Z.eqb_spec (year mod 4) 0), (Z.eqb_spec (year mod 100) 0);
    cbn; try done; exfalso; Z.to_euclidean_division_equations; lia.
Qed.

Lemma days_to_month_spec year month :
  1582 <= year -> 1 <= month <= 12 ->
  days_before year month
  = nth (Z.to_nat (month - 1)) days_to_month 0 + (if (2 <=? month - 1) && posix_leap year then 1 else 0).
Proof.
  intros Hy Hm. unfold days_before. rewrite leap_year_leaps, <- (posix_leap_spec year) by done.
  destruct (calendar_months month Hm) as [->|[->|[->|[->|[->|[->|[->|[->|[->|[->|[->| ->]]]]]]]]]]];
    by destruct (IsLeapYear year).
Qed.

(** The formula counts the days from 1 January 1970. *)
Lemma posix_days d hour minute second :
  valid d = true -> 1970 <= fYear d ->
  posix_seconds {| tm_sec := second; tm_min := minute; tm_hour := hour; tm_mday := fDay d;
                   tm_mon := fMonth d - 1; tm_year := fYear d - 1900; tm_isdst := -1 |}
  = (JD d - JD_1970) * kSecondsPerDay + hour * 3600 + minute * 60 + second.
Proof.
  intros Hv Hy. pose proof Hv as (_ & Hm & _)%valid_date_true.
  assert (Ha : after_switch (fYear d) (fMonth d) (fDay d) = true)
    by (unfold after_switch; by rewrite (proj2 (Z.ltb_lt 1582 (fYear d))) by lia).
  destruct (JD_new_year d Hv Ha) as [_ ->]. rewrite (days_to_month_spec (fYear d)) by lia.
  unfold posix_seconds, posix_yday, new_year, leaps, JD_1970, kSecondsPerDay.
  cbn [tm_sec tm_min tm_hour tm_mday tm_mon tm_year]. replace (fYear d - 1900 + 1900) with (fYear d) by lia.
  set (n := nth _ _ _). set (l := if _ && _ then 1 else 0). clearbody n l.
  Z.to_euclidean_division_equations; lia.
Qed.

(** The fields of a valid time make up its seconds. *)
Lemma time_seconds t :
  BTime_IsValid t = true ->
  0 <= Hour t < 24 /\ 0 <= Minute t < 60 /\ 0 <= Second t < 60
  /\ Hour t * 3600 + Minute t * 60 + Second t = fMicroseconds t / kMicrosecondsPerSecond.
Proof.
  intros Hv. pose proof (proj1 (BTime_IsValid_true t) Hv) as Hr.
  assert (Hw : wf_time t) by (unfold wf_time; lia).
  destruct (fields_div t Hw) as (-> & -> & -> & _). rewrite (_Microseconds_valid t Hv).
  set (u := fMicroseconds t) in *. clearbody u. clear Hv Hw. time_consts.
  Z.to_euclidean_division_equations; lia.
Qed.

Section Seconds.
Variable mktime : tm -> Z.

(** [mktime] in a process whose time zone is UTC. *)
Hypothesis mktime_utc : forall t, tm_normal t -> mktime t = posix_seconds t.

Lemma Time_t_spec dt :
  valid (fDate dt) = true -> fYear (fDate dt) <= YEAR_MAX -> BTime_IsValid (fTime dt) = true ->
  Time_t mktime dt
  = Ok (if JD (fDate dt) <? JD_1970 then -1
        else (JD (fDate dt) - JD_1970) * kSecondsPerDay + fMicroseconds (fTime dt) / kMicrosecondsPerSecond).
Proof using mktime_utc.
  intros Hv Hmax Ht. unfold Time_t. set (epoch := {| fDay := 1; fYear := 1970; fMonth := 1 |}).
  change (BDate_new 1970 1 1) with (Ok epoch). cbn [obind].
  assert (He : valid epoch = true) by done. assert (Hemax : fYear epoch <= YEAR_MAX) by (unfold YEAR_MAX; simpl; lia).
  rewrite (Difference_spec epoch (fDate dt)) by done. cbn [obind]. change (JD epoch) with JD_1970.
  destruct (Z.ltb_spec (JD (fDate dt) - JD_1970) 0), (Z.ltb_spec (JD (fDate dt)) JD_1970); try lia; [done|].
  assert (Hy : 1970 <= fYear (fDate dt)).
  { apply Z.nlt_ge. intros Hlt. assert (JD (fDate dt) < JD epoch).
    { apply earlier_JD; [done..|]. apply earlier_true. simpl. lia. }
    change (JD epoch) with JD_1970 in *. lia. }
  pose proof Hv as (_ & Hm & _)%valid_date_true. pose proof (valid_days _ _ _ Hv) as Hd. unfold YEAR_MAX in Hmax.
  rewrite !add_int_ok by (unfold INT_MIN, INT_MAX; lia). cbn [obind].
  change (fYear (fDate dt) + -1900) with (fYear (fDate dt) - 1900).
  change (fMonth (fDate dt) + -1) with (fMonth (fDate dt) - 1).
  destruct (time_seconds _ Ht) as (Hh & Hmi & Hs & E).
  rewrite mktime_utc by (unfold tm_normal; simpl; lia).
  rewrite (posix_days (fDate dt)) by done. f_equal. lia.
Qed.

(** C28: seconds since 1970, in a process whose time zone is UTC: [Time_t] asks
    [mktime], and [mktime_utc] says that it answers for UTC; in another zone
    [Time_t] is off by that zone's offset.  [SetTime_t] of any number of
    seconds, also a negative one, that lies on a day from Julian day 0 to
    [JD_MAX], gives a valid date and time: the day is that many whole days
    from 1 January 1970, and the time is what is left, never negative.
    [Time_t] gives the number back, or -1 when it was negative.  A valid date
    and time from 1970 on, up to the year [YEAR_MAX], is that of its [Time_t],
    up to the fraction of a second. *)
Theorem SetTime_t_round_trip dt s :
  0 <= JD_1970 + s / kSecondsPerDay <= JD_MAX ->
  (exists dt', SetTime_t dt s = Ok dt' /\ BDateTime_IsValid dt' = Ok true
    /\ DateToJulianDay (fDate dt') = Ok (JD_1970 + s / kSecondsPerDay)
    /\ Hour (fTime dt') * 3600 + Minute (fTime dt') * 60 + Second (fTime dt') = s mod kSecondsPerDay
    /\ Time_t mktime dt' = Ok (if s <? 0 then -1 else s))
  /\ (valid (fDate dt) = true -> fYear (fDate dt) <= YEAR_MAX -> BTime_IsValid (fTime dt) = true ->
      Time_t mktime dt = Ok s -> 0 <= s ->
      forall dt0, SetTime_t dt0 s
        = Ok {| fDate := fDate dt;
                fTime := Time (fMicroseconds (fTime dt) / kMicrosecondsPerSecond * kMicrosecondsPerSecond) |}).
Proof using mktime_utc.
  intros Hs. assert (Hq : s = s / kSecondsPerDay * kSecondsPerDay + s mod kSecondsPerDay /\ 0 <= s mod kSecondsPerDay < kSecondsPerDay)
    by (unfold kSecondsPerDay; Z.to_euclidean_division_equations; lia).
  split.
  - destruct (SetTime_t_spec dt s Hs) as (date & E & Hv & Hy & Ej). rewrite E.
    set (t := Time (s mod kSecondsPerDay * kMicrosecondsPerSecond)).
    assert (Ht : BTime_IsValid t = true) by (apply BTime_IsValid_true; simpl; time_consts; lia).
    assert (Eu : fMicroseconds t / kMicrosecondsPerSecond = s mod kSecondsPerDay) by (apply Z.div_mul; done).
    eexists. split; [done|]. split; [|split; [|split]].
    + unfold BDateTime_IsValid. rewrite IsValid_spec. cbn [fDate fTime]. rewrite Hv. cbn [obind]. by rewrite Ht.
    + cbn [fDate]. rewrite (JD_spec date Hv Hy). by rewrite Ej.
    + destruct (time_seconds t Ht) as (_ & _ & _ & Es). by rewrite <- Eu, <- Es.
    + rewrite (Time_t_spec {| fDate := date; fTime := t |}) by done. cbn [fDate fTime]. rewrite Eu, Ej. f_equal.
      destruct (Z.ltb_spec (JD_1970 + s / kSecondsPerDay) JD_1970), (Z.ltb_spec s 0); time_consts; lia.
  - intros Hv Hy Ht E H0 dt0. destruct (SetTime_t_spec dt0 s Hs) as (date & E0 & Hv' & Hy' & Ej). rewrite E0.
    rewrite (Time_t_spec dt Hv Hy Ht) in E. apply BTime_IsValid_true in Ht.
    destruct (Z.ltb_spec (JD (fDate dt)) JD_1970); injection E as E; [lia|].
    assert (Hu : 0 <= fMicroseconds (fTime dt) / kMicrosecondsPerSecond < kSecondsPerDay)
      by (time_consts; Z.to_euclidean_division_equations; lia).
    assert (Ed : s / kSecondsPerDay = JD (fDate dt) - JD_1970)
      by (symmetry; apply Z.div_unique with (fMicroseconds (fTime dt) / kMicrosecondsPerSecond); [by left|lia]).
    rewrite (JD_inj date (fDate dt)) by (try done; lia). do 3 f_equal. lia.
Qed.
End Seconds.

(** *** The order of dates with times *)

(** Microseconds from the beginning of the calendar. *)
Definition instant (dt : BDateTime) : Z :=
  JD (fDate dt) * kMicrosecondsPerDay + fMicroseconds (fTime dt).

Ltac by_instant :=
  time_consts;
  match goal with
  | |- context [Ok (?x * _ + _ <? ?y * _ + _)] => destruct (Z.lt_trichotomy x y) as [?|[?|?]]
  | |- context [Ok (?x * _ + _ <=? ?y * _ + _)] => destruct (Z.lt_trichotomy x y) as [?|[?|?]]
  end;
  repeat match goal with
    | |- context [JD ?x <? JD ?y] => destruct (Z.ltb_spec (JD x) (JD y)); try lia
    | |- context [JD ?x =? JD ?y] => destruct (Z.eqb_spec (JD x) (JD y)); try lia
    end;
  f_equal; apply Bool.eq_iff_eq_true; rewrite ?Z.ltb_lt, ?Z.leb_le; lia.

(** The comparisons of dates with times.  The four operators for order and
    [==] compare instants; [!=] holds only when both the dates and the times
    differ, so that two of them can be neither equal nor different. *)
Theorem BDateTime_order dt dt' :
  valid (fDate dt) = true -> fYear (fDate dt) <= YEAR_MAX -> BTime_IsValid (fTime dt) = true ->
  valid (fDate dt') = true -> fYear (fDate dt') <= YEAR_MAX -> BTime_IsValid (fTime dt') = true ->
  BDateTime_lt dt dt' = Ok (instant dt <? instant dt') /\ BDateTime_gt dt dt' = Ok (instant dt' <? instant dt)
  /\ BDateTime_le dt dt' = Ok (instant dt <=? instant dt') /\ BDateTime_ge dt dt' = Ok (instant dt' <=? instant dt)
  /\ BDateTime_eq dt dt' = Ok (bool_decide (dt = dt'))
  /\ BDateTime_ne dt dt' = Ok (bool_decide (fDate dt <> fDate dt') && bool_decide (fTime dt <> fTime dt')).
Proof.
  intros Hv Hy Ht Hv' Hy' Ht'.
  assert (Et : (fMicroseconds (fTime dt) =? fMicroseconds (fTime dt')) = bool_decide (fTime dt = fTime dt')).
  { destruct (fTime dt) as [u], (fTime dt') as [u']. simpl. case_bool_decide as E; [injection E as ->; by apply Z.eqb_refl|].
    apply Z.eqb_neq. congruence. }
  pose proof (JD_eq (fDate dt) (fDate dt') Hv Hy Hv' Hy') as Ed.
  unfold BDateTime_lt, BDateTime_gt, BDateTime_le, BDateTime_ge, BDateTime_eq, BDateTime_ne,
    BDate_lt, BDate_gt, BDate_eq, BDate_ne, BDate_compare, BTime_lt, BTime_gt, BTime_le, BTime_ge, BTime_eq, BTime_ne.
  rewrite (JD_spec _ Hv Hy), (JD_spec _ Hv' Hy'). cbn [obind]. apply BTime_IsValid_true in Ht, Ht'.
  split_and!.
  1-4: unfold instant; by_instant.
  - rewrite Et, Ed. destruct dt as [d t], dt' as [d' t']. cbn [fDate fTime].
    destruct (decide (t = t')) as [->|]; [destruct (decide (d = d')) as [->|]|];
      repeat case_bool_decide; try done; congruence.
  - rewrite Et, Ed, !bool_decide_not. by destruct (bool_decide (fTime dt = fTime dt')), (bool_decide (fDate dt = fDate dt')).
Qed.

(** Two of the same day at different times are neither equal nor different. *)
Lemma BDateTime_neither :
  let d := {| fDay := 1; fYear := 2000; fMonth := 1 |} in
  BDateTime_eq {| fDate := d; fTime := Time 0 |} {| fDate := d; fTime := Time 1 |} = Ok false
  /\ BDateTime_ne {| fDate := d; fTime := Time 0 |} {| fDate := d; fTime := Time 1 |} = Ok false.
Proof. split; reflexivity. Qed.

(** ** The theorems at concrete dates *)

(** A second before 1 January 1970, and the first day of the year 2000. *)
Lemma SetTime_t_round_trip_witness :
  SetTime_t BDateTime0 (-1)
  = Ok {| fDate := {| fDay := 31; fYear := 1969; fMonth := 12 |}; fTime := Time 86399000000 |}
  /\ exists dt, SetTime_t BDateTime0 946684800 = Ok dt /\ Time_t posix_seconds dt = Ok 946684800.
Proof.
  split; [reflexivity|].
  destruct (SetTime_t_round_trip posix_seconds (fun t _ => eq_refl) BDateTime0 946684800) as [(dt & E & _ & _ & _ & E') _];
    [vm_compute; split; discriminate|].
  exists dt. split; [exact E|exact E'].
Defined.

Lemma BDateTime_order_witness :
  let d := {| fDay := 1; fYear := 2000; fMonth := 1 |} in
  BDateTime_lt {| fDate := d; fTime := Time 0 |} {| fDate := d; fTime := Time 1 |} = Ok true.
Proof.
  intros d.
  exact (proj1 (BDateTime_order {| fDate := d; fTime := Time 0 |} {| fDate := d; fTime := Time 1 |}
                  eq_refl ltac:(vm_compute; discriminate) eq_refl
                  eq_refl ltac:(vm_compute; discriminate) eq_refl)).
Defined.
