(* ===== verification/Utf8.v ===== *)
(** UTF-8 text (kits/textencoding/UTF8.cpp): the lengths of characters,
    counting bytes and characters, and decoding.

    A [const char*] that is only moved forward is the list of the bytes from
    it to the end of its object; [None] is NULL.  Bytes are values below 256:
    the code masks them with constants below 256, which a signed [char] does
    not change. *)

From Stdlib Require Import ZArith Lia List Bool.
From stdpp Require Import base tactics list numbers.
From S2P Require Import Prelude CText.
Local Open Scope Z_scope.
Local Open Scope c_scope.

(** ** Definitions *)

Definition IsInsideGlyph (ch : Z) : bool := Z.land ch 0xc0 =? 0x80.

(** The bytes inside a character that [bytes] starts with. *)
Fixpoint inside_run (bytes : list Z) : outcome Z :=
  match bytes with
  | [] => Fault
  | ch :: bytes => if IsInsideGlyph ch then n <- inside_run bytes;; Ok (1 + n) else Ok 0
  end.

Definition UTF8NextCharLenUnsafe (text : list Z) : outcome Z :=
  n <- inside_run (tail text);; Ok (1 + n).

Definition UTF8NextCharLen (text : option (list Z)) : outcome Z :=
  match text with
  | None => Ok 0
  | Some text => ch <- rd text 0;; if ch =? 0 then Ok 0 else UTF8NextCharLenUnsafe text
  end.

(** The length that the first byte announces, [None] for seven bytes. *)
Fixpoint expected_loop (fuel : nat) (ch mask bytesExpected : Z) : outcome (option Z) :=
  match fuel with
  | O => NoFuel
  | S fuel =>
    if Z.land ch mask =? 0 then Ok (Some bytesExpected)
    else if mask =? 0x02 then Ok None
    else expected_loop fuel ch (Z.shiftr mask 1) (bytesExpected + 1)
  end.

(** Whether the bytes from [i] on, [n] of them, lie inside a character. *)
Fixpoint all_inside (n : nat) (bytes : list Z) (i : Z) : outcome bool :=
  match n with
  | O => Ok true
  | S n => ch <- rd bytes i;; if IsInsideGlyph ch then all_inside n bytes (i + 1) else Ok false
  end.

(** The overload with a length. *)
Definition UTF8NextCharLen_etc (bytes : option (list Z)) (length : Z) : outcome Z :=
  match bytes with
  | None => Ok 0
  | Some bytes =>
    if length =? 0 then Ok 0
    else
      ch <- rd bytes 0;;
      if ch =? 0 then Ok 0
      else if Z.land ch 0x80 =? 0 then Ok 1
      else if IsInsideGlyph ch then Ok 0
      else
        e <- expected_loop 5 ch 0x20 2;;
        match e with
        | None => Ok 0
        | Some bytesExpected =>
          if length <? bytesExpected then Ok 0
          else
            ok <- all_inside (Z.to_nat (bytesExpected - 1)) bytes 1;;
            Ok (if ok then bytesExpected else 0)
        end
  end.

(** The pointer [ptr] moves back in the object [m]. *)
Fixpoint previous_loop (fuel : nat) (m : list Z) (ptr limit : Z) : outcome Z :=
  match fuel with
  | O => NoFuel
  | S fuel =>
    if ptr =? limit then Ok ptr
    else
      let ptr := ptr - 1 in
      ch <- rd m ptr;;
      if IsInsideGlyph ch then previous_loop fuel m ptr limit else Ok ptr
  end.

Definition UTF8PreviousCharLen (m : list Z) (text limit : option Z) : outcome Z :=
  match text, limit with
  | Some text, Some limit =>
    ptr <- previous_loop (S (Z.to_nat text)) m text limit;; Ok (text - ptr)
  | _, _ => Ok 0
  end.

Fixpoint count_bytes (bytes : list Z) (numChars : Z) : outcome Z :=
  match bytes with
  | [] => Fault
  | ch :: bytes =>
    if ch =? 0 then Ok 0
    else if negb (Z.land ch 0xc0 =? 0x80) then
      if numChars - 1 <? 0 then Ok 0
      else n <- count_bytes bytes (numChars - 1);; Ok (1 + n)
    else n <- count_bytes bytes numChars;; Ok (1 + n)
  end.

Definition UTF8CountBytes (bytes : option (list Z)) (numChars : Z) : outcome Z :=
  match bytes with
  | None => Ok 0
  | Some bytes => count_bytes bytes (if numChars <? 0 then INT_MAX else numChars)
  end.

(** [left]: the bytes up to and with [last]; [None] for no end. *)
Fixpoint count_chars (bytes : list Z) (left : option Z) : outcome Z :=
  match bytes with
  | [] => Fault
  | ch :: bytes =>
    if ch =? 0 then Ok 0
    else if match left with Some n => n <=? 0 | None => false end then Ok 0
    else
      n <- count_chars bytes (match left with Some n => Some (n - 1) | None => None end);;
      Ok (if negb (Z.land ch 0xc0 =? 0x80) then 1 + n else n)
  end.

Definition UTF8CountChars (bytes : option (list Z)) (numBytes : Z) : outcome Z :=
  match bytes with
  | None => Ok 0
  | Some bytes => count_chars bytes (if numBytes <? 0 then None else Some numBytes)
  end.

Definition UTF8_SUBSTITUTE_CHARACTER : Z := 0xfffd.

(** The bits of the first byte that announce the length are cleared; [None]
    for seven bytes. *)
Fixpoint clear_loop (fuel : nat) (result mask : Z) : outcome (option (Z * Z)) :=
  match fuel with
  | O => NoFuel
  | S fuel =>
    if Z.land result mask =? 0 then Ok (Some (result, mask))
    else if mask =? 0x02 then Ok None
    else clear_loop fuel (Z.land result (Z.lnot mask)) (Z.shiftr mask 1)
  end.

(** The bytes inside the character; [inl]: all of them were there. *)
Fixpoint inside_loop (bytes : list Z) (result mask : Z) : outcome ((Z * list Z) + (Z * Z * list Z)) :=
  match bytes with
  | [] => Fault
  | ch :: bytes' =>
    if Z.land ch 0xc0 =? 0x80 then
      let result := u32 (u32 (Z.shiftl result 6) + Z.land ch 0x3f) in
      let mask := u8 (Z.shiftl mask 1) in
      if mask =? 0x40 then Ok (inl (result, bytes'))
      else inside_loop bytes' result mask
    else Ok (inr (result, mask, bytes))
  end.

(** The character and the pointer behind it. *)
Definition UTF8ToCharCode (bytes : list Z) : outcome (Z * list Z) :=
  ch <- rd bytes 0;;
  if Z.land ch 0x80 =? 0 then Ok (ch, if ch =? 0 then bytes else tail bytes)
  else if Z.land ch 0xc0 =? 0x80 then Ok (UTF8_SUBSTITUTE_CHARACTER, tail bytes)
  else
    s <- clear_loop 8 (Z.land ch 0xff) 0x80;;
    match s with
    | None => Ok (UTF8_SUBSTITUTE_CHARACTER, tail bytes)
    | Some (result, mask) =>
      r <- inside_loop (tail bytes) result mask;;
      match r with
      | inl done => Ok done
      | inr (result, mask, bytes) =>
        if mask =? 0x40 then Ok (result, bytes)
        else
          ch <- rd bytes 0;;
          if ch =? 0 then Ok (0, bytes) else Ok (UTF8_SUBSTITUTE_CHARACTER, bytes)
      end
    end.

(** ** The encoding

    A character, by its number, is a first byte and up to three bytes inside. *)

Definition utf8_char (c : Z) : Prop := 0 < c < 0x110000.

#[export] Instance utf8_char_dec c : Decision (utf8_char c).
Proof. unfold utf8_char. apply _. Defined.

(** The number of bytes inside. *)
Definition utf8_more (c : Z) : nat :=
  if c <? 0x80 then 0 else if c <? 0x800 then 1 else if c <? 0x10000 then 2 else 3.

Definition lead_base (n : nat) : Z :=
  match n with 0%nat => 0 | 1%nat => 0xc0 | 2%nat => 0xe0 | _ => 0xf0 end.

Fixpoint utf8_rest (n : nat) (c : Z) : list Z :=
  match n with
  | O => []
  | S n => 0x80 + c / 64 ^ Z.of_nat n mod 64 :: utf8_rest n c
  end.

Definition utf8_lead (c : Z) : Z := lead_base (utf8_more c) + c / 64 ^ Z.of_nat (utf8_more c).

Definition utf8_enc (c : Z) : list Z := utf8_lead c :: utf8_rest (utf8_more c) c.

Definition utf8_text (l : list Z) : list Z := concat (map utf8_enc l).

(** *** Bytes *)

Lemma inside_byte x : 0 <= x < 64 -> IsInsideGlyph (0x80 + x) = true /\ Z.land (0x80 + x) 0x3f = x.
Proof.
  intros Hx. apply (forall_upto (fun x => IsInsideGlyph (0x80 + x) && (Z.land (0x80 + x) 0x3f =? x)) 64) in Hx;
    [|reflexivity].
  by apply andb_true_iff in Hx as [H1 H2%Z.eqb_eq].
Qed.

(** The range of the bytes inside a character. *)
Lemma inside_range ch : 0 <= ch < 256 -> IsInsideGlyph ch = (0x80 <=? ch) && (ch <? 0xc0).
Proof.
  intros Hc. apply (forall_upto (fun ch => Bool.eqb (IsInsideGlyph ch) ((0x80 <=? ch) && (ch <? 0xc0))) 256) in Hc;
    [|reflexivity]. by apply eqb_prop in Hc.
Qed.

(** What the code finds in a first byte that announces [n] more. *)
Definition lead_ok (n : nat) (y : Z) : bool :=
  let ch := lead_base n + y in
  negb (ch =? 0) && negb (Z.land ch 0x80 =? 0) && negb (IsInsideGlyph ch)
  && bool_decide (expected_loop 5 ch 0x20 2 = Ok (Some (Z.of_nat n + 1)))
  && bool_decide (clear_loop 8 (Z.land ch 0xff) 0x80 = Ok (Some (y, 2 ^ (6 - Z.of_nat n)))).

Lemma lead_ok_true n y : (1 <= n <= 3)%nat -> 0 <= y < 2 ^ (6 - Z.of_nat n) -> lead_ok n y = true.
Proof.
  intros Hn Hy. assert (E : n = 1%nat \/ n = 2%nat \/ n = 3%nat) by lia.
  destruct E as [->|[->| ->]].
  - apply (forall_upto (lead_ok 1) 32); [reflexivity|exact Hy].
  - apply (forall_upto (lead_ok 2) 16); [reflexivity|exact Hy].
  - apply (forall_upto (lead_ok 3) 8); [reflexivity|exact Hy].
Qed.

Lemma utf8_more_bound c : utf8_char c ->
  (utf8_more c <= 3)%nat /\ (utf8_more c = 0%nat <-> c < 0x80)
  /\ (utf8_more c <> 0%nat -> 0 <= c / 64 ^ Z.of_nat (utf8_more c) < 2 ^ (6 - Z.of_nat (utf8_more c))).
Proof.
  unfold utf8_char, utf8_more. intros Hc.
  destruct (Z.ltb_spec c 0x80); [|destruct (Z.ltb_spec c 0x800); [|destruct (Z.ltb_spec c 0x10000)]];
    (split; [lia|split; [lia|intros Hn]]); try done;
    match goal with |- context [64 ^ ?e] => let v := eval vm_compute in (64 ^ e) in change (64 ^ e) with v end;
    match goal with |- context [2 ^ ?e] => let v := eval vm_compute in (2 ^ e) in change (2 ^ e) with v end;
    Z.to_euclidean_division_equations; lia.
Qed.

(** The first byte of a character: ASCII, or as above. *)
Lemma utf8_lead_cases c : utf8_char c ->
  (utf8_more c = 0%nat /\ utf8_lead c = c /\ 0 < c < 0x80)
  \/ ((1 <= utf8_more c <= 3)%nat /\ lead_ok (utf8_more c) (c / 64 ^ Z.of_nat (utf8_more c)) = true).
Proof.
  intros Hc. destruct (utf8_more_bound c Hc) as (Hn & H0 & Hy).
  destruct (decide (utf8_more c = 0%nat)) as [E|E].
  - left. split; [done|]. unfold utf8_lead. rewrite E. simpl. rewrite Z.div_1_r.
    unfold utf8_char in Hc. apply H0 in E. split; [done|lia].
  - right. split; [lia|]. apply lead_ok_true; [lia|auto].
Qed.

Lemma lead_ok_spec n y : lead_ok n y = true ->
  let ch := lead_base n + y in
  ch <> 0 /\ Z.land ch 0x80 <> 0 /\ IsInsideGlyph ch = false
  /\ expected_loop 5 ch 0x20 2 = Ok (Some (Z.of_nat n + 1))
  /\ clear_loop 8 (Z.land ch 0xff) 0x80 = Ok (Some (y, 2 ^ (6 - Z.of_nat n))).
Proof.
  intros H ch. unfold lead_ok in H. fold ch in H.
  apply andb_true_iff in H as [H H5%bool_decide_eq_true_1]. apply andb_true_iff in H as [H H4%bool_decide_eq_true_1].
  apply andb_true_iff in H as [H H3%negb_true_iff]. apply andb_true_iff in H as [H1%negb_true_iff H2%negb_true_iff].
  apply Z.eqb_neq in H1, H2. auto.
Qed.

Lemma utf8_rest_inside n c : Forall (fun b => 0x80 <= b < 0xc0 /\ IsInsideGlyph b = true) (utf8_rest n c).
Proof.
  induction n as [|n IH]; constructor; [|done].
  pose proof (Z.mod_pos_bound (c / 64 ^ Z.of_nat n) 64). split; [lia|]. apply inside_byte; lia.
Qed.

Lemma utf8_rest_length n c : length (utf8_rest n c) = n.
Proof. induction n; simpl; congruence. Qed.

Lemma lead_not_inside c : utf8_char c -> IsInsideGlyph (utf8_lead c) = false /\ utf8_lead c <> 0 /\ 0 <= utf8_lead c < 256.
Proof.
  intros Hc. destruct (utf8_lead_cases c Hc) as [(En & -> & Hr)|[Hn Hok]].
  - rewrite inside_range by lia. rewrite (proj2 (Z.leb_gt 0x80 c)) by lia. split; [done|lia].
  - destruct (lead_ok_spec _ _ Hok) as (H1 & _ & H3 & _). split; [done|]. split; [done|].
    destruct (utf8_more_bound c Hc) as (_ & _ & Hy). specialize (Hy ltac:(lia)). unfold utf8_lead.
    assert (E : utf8_more c = 1%nat \/ utf8_more c = 2%nat \/ utf8_more c = 3%nat) by lia.
    destruct E as [E|[E|E]]; rewrite E in *; simpl in *; lia.
Qed.

(** ** Decoding *)

Lemma inside_loop_rest n c k :
  (1 <= n <= 3)%nat -> 0 <= c < 0x110000 ->
  inside_loop (utf8_rest n c ++ k) (c / 64 ^ Z.of_nat n) (2 ^ (6 - Z.of_nat n)) = Ok (inl (c, k)).
Proof.
  intros Hn Hc. induction n as [|n IH]; [lia|]. cbn [utf8_rest app inside_loop].
  set (x := c / 64 ^ Z.of_nat n mod 64). assert (Hx : 0 <= x < 64) by (apply Z.mod_pos_bound; lia).
  destruct (inside_byte x Hx) as [Hin ->]. unfold IsInsideGlyph in Hin. rewrite Hin.
  assert (E : c / 64 ^ Z.of_nat (S n) * 64 + x = c / 64 ^ Z.of_nat n).
  { unfold x. rewrite Nat2Z.inj_succ, Z.pow_succ_r, (Z.mul_comm 64), <- Z.div_div by lia.
    pose proof (Z.div_mod (c / 64 ^ Z.of_nat n) 64). lia. }
  assert (Hpow : 0 < 64 ^ Z.of_nat n) by (apply Z.pow_pos_nonneg; lia).
  assert (Hr : 0 <= c / 64 ^ Z.of_nat n <= c).
  { split; [apply Z.div_pos; lia|]. apply Z.div_le_upper_bound; nia. }
  assert (Hr' : 0 <= c / 64 ^ Z.of_nat (S n)) by (apply Z.div_pos; [lia|apply Z.pow_pos_nonneg; lia]).
  rewrite (Z.shiftl_mul_pow2 (c / _)) by lia. change (2 ^ 6) with 64.
  unfold u32. rewrite (uwrap_id 32 (_ * 64)), uwrap_id, E by lia.
  assert (Em : u8 (Z.shiftl (2 ^ (6 - Z.of_nat (S n))) 1) = 2 ^ (6 - Z.of_nat n)).
  { assert (E3 : n = 0%nat \/ n = 1%nat \/ n = 2%nat) by lia. by destruct E3 as [->|[->| ->]]. }
  rewrite Em. destruct n as [|n].
  - cbn. by rewrite Z.div_1_r.
  - replace (2 ^ (6 - Z.of_nat (S n)) =? 64) with false; [apply IH; lia|].
    assert (E3 : n = 0%nat \/ n = 1%nat) by lia. by destruct E3 as [-> | ->].
Qed.

Lemma rd_head {A} (x : A) l : rd (x :: l) 0 = Ok x.
Proof. done. Qed.

Lemma inside_loop_total s k result mask :
  exists s1 s2, s = s1 ++ s2 /\ Forall (fun b => IsInsideGlyph b = true) s1
    /\ (IsInsideGlyph (hd 0 k) = false -> k <> [] ->
        exists r, inside_loop (s ++ k) result mask = Ok r
          /\ match r with inl (_, bytes) | inr (_, _, bytes) => bytes = s2 ++ k end).
Proof.
  revert result mask. induction s as [|ch s IH]; intros result mask; simpl.
  - exists [], []. split; [done|]. split; [done|]. intros Hk Hne. destruct k as [|ch k]; [done|].
    simpl in *. unfold IsInsideGlyph in Hk. rewrite Hk. by eexists.
  - destruct (Z.land ch 192 =? 128) eqn:E.
    + destruct (u8 (Z.shiftl mask 1) =? 64).
      * exists [ch], s. split; [done|]. split; [by constructor|]. intros _ _. by eexists.
      * destruct (IH (u32 (u32 (Z.shiftl result 6) + Z.land ch 63)) (u8 (Z.shiftl mask 1)))
          as (s1 & s2 & -> & Hs & H).
        exists (ch :: s1), s2. split; [done|]. split; [by constructor|]. exact H.
    + exists [], (ch :: s). split; [done|]. split; [done|]. intros _ _. by eexists.
Qed.

Lemma clear_loop_total ch : 0 <= ch < 256 -> exists r, clear_loop 8 (Z.land ch 0xff) 0x80 = Ok r.
Proof.
  intros Hc.
  apply (forall_upto (fun ch => match clear_loop 8 (Z.land ch 0xff) 0x80 with Ok _ => true | _ => false end) 256) in Hc;
    [|reflexivity].
  destruct (clear_loop _ _ _); try discriminate. by eexists.
Qed.

(** Decoding.  [UTF8ToCharCode] on the encoding of a character gives the
    character and the pointer behind it, whatever follows.  On any terminated
    string it does not leave the string and moves forward, except at the
    terminator, over one byte and then only over bytes inside a character, so
    that it never steps over the first byte of the next one. *)
Theorem UTF8ToCharCode_correct c k s :
  utf8_char c -> cstr_ok s ->
  UTF8ToCharCode (utf8_enc c ++ k) = Ok (c, k)
  /\ exists r s1 s2, s = s1 ++ s2 /\ UTF8ToCharCode (s ++ [0]) = Ok (r, s2 ++ [0])
     /\ (s1 = [] -> s = []) /\ Forall (fun b => IsInsideGlyph b = true) (tail s1).
Proof.
  intros Hc Hs. split.
  - unfold UTF8ToCharCode, utf8_enc. cbn [app]. rewrite rd_head. cbn [obind tail].
    destruct (utf8_lead_cases c Hc) as [(En & -> & Hr)|[Hn Hok]].
    + rewrite En. cbn [utf8_rest app]. rewrite (proj2 (Z.eqb_neq c 0)) by lia.
      replace (Z.land c 128 =? 0) with true; [done|]. symmetry.
      apply (forall_upto (fun c => Z.land c 128 =? 0) 128); [reflexivity|lia].
    + destruct (lead_ok_spec _ _ Hok) as (H1 & H2 & H3 & _ & H5). fold (utf8_lead c) in H1, H2, H3, H5.
      rewrite (proj2 (Z.eqb_neq _ _) H2). unfold IsInsideGlyph in H3. rewrite H3, H5. cbn [obind].
      unfold utf8_char in Hc. by rewrite inside_loop_rest by lia.
  - destruct s as [|ch s]; [exists 0, [], []; done|]. pose proof (Forall_cons_1 _ _ _ Hs) as [Hch Hs'].
    unfold UTF8ToCharCode. cbn [app]. rewrite rd_head. cbn [obind tail].
    assert (Hone : forall r : Z, exists (r' : Z) s1 s2, ch :: s = s1 ++ s2 /\ Ok (r, s ++ [0]) = Ok (r', s2 ++ [0])
               /\ (s1 = [] -> ch :: s = []) /\ Forall (fun b => IsInsideGlyph b = true) (tail s1)).
    { intros r. by exists r, [ch], s. }
    rewrite (proj2 (Z.eqb_neq ch 0)) by lia.
    destruct (Z.land ch 128 =? 0); [apply Hone|]. destruct (Z.land ch 192 =? 128); [apply Hone|].
    destruct (clear_loop_total ch ltac:(lia)) as [[[result mask]|] ->]; cbn [obind]; [|apply Hone].
    destruct (inside_loop_total s [0] result mask) as (s1 & s2 & -> & Hin & H).
    destruct (H eq_refl ltac:(done)) as (r & -> & Hr). cbn [obind].
    destruct r as [[r bytes]|[[r m] bytes]]; rewrite Hr.
    + exists r, (ch :: s1), s2. done.
    + destruct (m =? 64); [by exists r, (ch :: s1), s2|].
      destruct s2 as [|ch' s2]; [by exists 0, (ch :: s1), []|].
      cbn [app]. rewrite rd_head. cbn [obind].
      destruct (ch' =? 0); [by exists 0, (ch :: s1), (ch' :: s2)|].
      by exists UTF8_SUBSTITUTE_CHARACTER, (ch :: s1), (ch' :: s2).
Qed.

(** ** Counting *)

Lemma inside_nonzero b : IsInsideGlyph b = true -> b <> 0.
Proof. by intros H ->. Qed.

Lemma count_bytes_inside s k n r :
  Forall (fun b => IsInsideGlyph b = true) s -> count_bytes k n = Ok r -> count_bytes (s ++ k) n = Ok (zlen s + r).
Proof.
  intros Hs Hk. induction Hs as [|b s Hb Hs IH]; [done|]. cbn [app count_bytes].
  rewrite (proj2 (Z.eqb_neq b 0)) by by apply inside_nonzero. unfold IsInsideGlyph in Hb. rewrite Hb. cbn [negb].
  rewrite IH. cbn [obind]. rewrite zlen_cons. f_equal. lia.
Qed.

Lemma count_chars_inside s k left :
  Forall (fun b => IsInsideGlyph b = true) s -> match left with Some n => zlen s <= n | None => True end ->
  count_chars (s ++ k) left
  = count_chars k (match left with Some n => Some (n - zlen s) | None => None end).
Proof.
  intros Hs. revert left. induction Hs as [|b s Hb Hs IH]; intros left Hl.
  - destruct left; [|done]. by rewrite zlen_nil, Z.sub_0_r.
  - cbn [app count_chars]. rewrite (proj2 (Z.eqb_neq b 0)) by by apply inside_nonzero.
    pose proof (zlen_nonneg s). rewrite zlen_cons in *.
    replace (match left with Some n => n <=? 0 | None => false end) with false
      by (destruct left; [symmetry; apply Z.leb_gt; lia|done]).
    unfold IsInsideGlyph in Hb. rewrite Hb. cbn [negb].
    rewrite IH by (destruct left; [lia|done]).
    destruct left as [n|]; [replace (n - 1 - zlen s) with (n - (zlen s + 1)) by lia|];
      by destruct (count_chars k _).
Qed.

Lemma utf8_rest_all_inside n c : Forall (fun b => IsInsideGlyph b = true) (utf8_rest n c).
Proof. eapply Forall_impl; [|apply utf8_rest_inside]. by intros b [_ H]. Qed.

Lemma zlen_utf8_rest n c : zlen (utf8_rest n c) = Z.of_nat n.
Proof. unfold zlen. by rewrite utf8_rest_length. Qed.

Lemma zlen_utf8_enc c : zlen (utf8_enc c) = 1 + Z.of_nat (utf8_more c).
Proof. unfold utf8_enc, zlen. simpl. rewrite utf8_rest_length. lia. Qed.

Lemma count_bytes_text l k n :
  Forall utf8_char l -> 0 <= n -> count_bytes (utf8_text l ++ 0 :: k) n = Ok (zlen (utf8_text (take (Z.to_nat n) l))).
Proof.
  intros Hl. revert n. induction Hl as [|c l Hc Hl IH]; intros n Hn.
  - by rewrite take_nil.
  - unfold utf8_text. cbn [map concat]. unfold utf8_enc at 1. cbn [app count_bytes].
    destruct (lead_not_inside c Hc) as (Hin & H0 & _). rewrite (proj2 (Z.eqb_neq _ _) H0).
    unfold IsInsideGlyph in Hin. rewrite Hin. cbn [negb]. destruct (Z.ltb_spec (n - 1) 0).
    + by replace n with 0 by lia.
    + rewrite <- app_assoc. erewrite count_bytes_inside; [|apply utf8_rest_all_inside|apply IH; lia].
      cbn [obind]. replace (Z.to_nat n) with (S (Z.to_nat (n - 1))) by lia. cbn [take map concat].
      rewrite zlen_app, zlen_utf8_enc, zlen_utf8_rest. unfold utf8_text. f_equal. lia.
Qed.

Lemma count_chars_text l k left :
  Forall utf8_char l -> k <> [] ->
  match left with Some n => n = zlen (utf8_text l) | None => hd 0 k = 0 end ->
  count_chars (utf8_text l ++ k) left = Ok (zlen l).
Proof.
  intros Hl Hk. revert left. induction Hl as [|c l Hc Hl IH]; intros left E.
  - destruct k as [|ch k]; [done|]. simpl in *. destruct left as [n|].
    + subst n. destruct (ch =? 0); [done|]. done.
    + by rewrite E.
  - unfold utf8_text in *. cbn [map concat] in *. unfold utf8_enc at 1. cbn [app count_chars].
    destruct (lead_not_inside c Hc) as (Hin & H0 & _). rewrite (proj2 (Z.eqb_neq _ _) H0).
    rewrite zlen_app, zlen_utf8_enc in E. pose proof (zlen_nonneg (concat (map utf8_enc l))).
    replace (match left with Some n => n <=? 0 | None => false end) with false
      by (destruct left; [symmetry; apply Z.leb_gt; lia|done]).
    rewrite <- app_assoc, count_chars_inside; [|apply utf8_rest_all_inside|].
    2:{ destruct left; [|done]. rewrite zlen_utf8_rest. lia. }
    rewrite IH; [|destruct left; [|done]; rewrite zlen_utf8_rest; lia].
    unfold IsInsideGlyph in Hin. rewrite Hin. cbn [obind negb]. rewrite zlen_cons. f_equal. lia.
Qed.

(** Counting.  In a terminated text of encoded characters, [UTF8CountBytes]
    gives the bytes of the first [n] characters, [UTF8CountChars] of that many
    bytes gives the [n] characters again, and a negative count reads the whole
    text. *)
Theorem UTF8Count_inverse l n k :
  Forall utf8_char l -> 0 <= n -> zlen l <= INT_MAX ->
  let text := Some (utf8_text l ++ 0 :: k) in
  let b := zlen (utf8_text (take (Z.to_nat n) l)) in
  UTF8CountBytes text n = Ok b /\ UTF8CountChars text b = Ok (Z.min n (zlen l))
  /\ UTF8CountBytes text (-1) = Ok (zlen (utf8_text l)) /\ UTF8CountChars text (-1) = Ok (zlen l).
Proof.
  intros Hl Hn Hmax text b. unfold UTF8CountBytes, UTF8CountChars, text.
  rewrite (proj2 (Z.ltb_ge n 0)) by done. change (-1 <? 0) with true. cbv iota.
  pose proof (zlen_nonneg (utf8_text (take (Z.to_nat n) l))) as Hb. fold b in Hb. rewrite (proj2 (Z.ltb_ge b 0)) by done.
  split; [by apply count_bytes_text|]. split; [|split].
  - rewrite <- (take_drop (Z.to_nat n) l) at 1. unfold utf8_text at 1. rewrite map_app, concat_app, <- app_assoc.
    fold (utf8_text (take (Z.to_nat n) l)).
    rewrite (count_chars_text (take (Z.to_nat n) l)); [|by apply Forall_take| |done].
    + f_equal. unfold zlen. rewrite length_take. lia.
    + by destruct (concat _).
  - rewrite count_bytes_text by (try done; unfold INT_MAX; lia). do 3 f_equal. apply take_ge.
    unfold zlen, INT_MAX in *. lia.
  - by apply count_chars_text.
Qed.

(** ** Lengths *)

(** What follows a character: the terminator or a first byte. *)
Definition boundary (k : list Z) : Prop := exists ch k', k = ch :: k' /\ IsInsideGlyph ch = false.

Lemma inside_run_spec s k :
  Forall (fun b => IsInsideGlyph b = true) s -> boundary k -> inside_run (s ++ k) = Ok (zlen s).
Proof.
  intros Hs (ch & k' & -> & Hch). induction Hs as [|b s Hb Hs IH]; simpl; [by rewrite Hch|].
  rewrite Hb, IH. cbn [obind]. rewrite zlen_cons. f_equal. lia.
Qed.

Lemma all_inside_true n m i :
  0 <= i -> all_inside n m i = Ok true ->
  forall j, i <= j < i + Z.of_nat n -> exists b, rd m j = Ok b /\ IsInsideGlyph b = true.
Proof.
  revert i. induction n as [|n IH]; intros i Hi; cbn [all_inside]; intros E j Hj; [lia|].
  destruct (rd m i) as [ch|e| |] eqn:Er; try discriminate. cbn [obind] in E.
  destruct (IsInsideGlyph ch) eqn:Ec; [|discriminate].
  destruct (Z.eq_dec j i) as [->|]; [by exists ch|]. apply (IH (i + 1)); [lia|done|lia].
Qed.

Lemma all_inside_spec n m i : 0 <= i -> i + Z.of_nat n <= zlen m -> exists r, all_inside n m i = Ok r.
Proof.
  revert i. induction n as [|n IH]; intros i Hi Hm; cbn [all_inside]; [by eexists|].
  destruct (rd_ok m i) as [ch ->]; [lia|]. cbn [obind]. destruct (IsInsideGlyph ch); [|by eexists]. apply IH; lia.
Qed.

Lemma all_inside_rest s a k :
  Forall (fun b => IsInsideGlyph b = true) s -> all_inside (length s) (a ++ s ++ k) (zlen a) = Ok true.
Proof.
  intros Hs. revert a. induction Hs as [|b s Hb Hs IH]; intros a; [done|]. cbn [length all_inside app].
  rewrite rd_mid by done. cbn [obind]. rewrite Hb. specialize (IH (a ++ [b])).
  by rewrite <- app_assoc, zlen_snoc in IH.
Qed.

Lemma expected_loop_total ch : 0 <= ch < 256 ->
  exists r, expected_loop 5 ch 0x20 2 = Ok r /\ match r with Some n => 2 <= n <= 6 | None => True end.
Proof.
  intros Hc.
  apply (forall_upto (fun ch => match expected_loop 5 ch 0x20 2 with
                                | Ok (Some n) => (2 <=? n) && (n <=? 6) | Ok None => true | _ => false end) 256) in Hc;
    [|reflexivity].
  destruct (expected_loop 5 ch 32 2) as [[n|]| | |]; try discriminate; (eexists; split; [done|]); [|done].
  cbv beta iota in Hc. rewrite andb_true_iff, !Z.leb_le in Hc. lia.
Qed.

(** The overload with a length reads no further than it, whatever the bytes;
    what it measures is a first byte and bytes inside, of at most six. *)
Lemma UTF8NextCharLen_etc_safe m len :
  bytes_ok m -> 0 <= len <= zlen m ->
  exists n, UTF8NextCharLen_etc (Some m) len = Ok n /\ 0 <= n <= Z.min len 6
    /\ (0 < n -> exists ch, rd m 0 = Ok ch /\ ch <> 0 /\ IsInsideGlyph ch = false)
    /\ forall j, 1 <= j < n -> exists b, rd m j = Ok b /\ IsInsideGlyph b = true.
Proof.
  intros Hm Hlen. unfold UTF8NextCharLen_etc. destruct (Z.eqb_spec len 0) as [|Hl0]; [exists 0; repeat split; intros; (done || lia)|].
  assert (Hz : exists n, Ok 0 = Ok n /\ 0 <= n <= Z.min len 6
      /\ (0 < n -> exists ch, rd m 0 = Ok ch /\ ch <> 0 /\ IsInsideGlyph ch = false)
      /\ forall j, 1 <= j < n -> exists b, rd m j = Ok b /\ IsInsideGlyph b = true)
    by (exists 0; repeat split; intros; (done || lia)).
  destruct m as [|ch m]; [unfold zlen in Hlen; simpl in Hlen; lia|]. rewrite rd_head. rewrite rd_head in Hz. cbn [obind].
  pose proof (Forall_cons_1 _ _ _ Hm) as [Hch _]. unfold byte_ok in Hch.
  destruct (Z.eqb_spec ch 0) as [|Hch0]; [done|]. destruct (Z.land ch 128 =? 0) eqn:E80.
  - exists 1. split; [done|]. split; [lia|]. split; [|lia]. intros _. exists ch. split; [done|]. split; [done|].
    destruct (IsInsideGlyph ch) eqn:E; [exfalso|done].
    assert (Hb : (negb (Z.land ch 128 =? 0) || negb (IsInsideGlyph ch)) = true)
      by (apply (forall_upto (fun ch => negb (Z.land ch 128 =? 0) || negb (IsInsideGlyph ch)) 256); [reflexivity|lia]).
    by rewrite E80, E in Hb.
  - destruct (IsInsideGlyph ch) eqn:E; [done|]. destruct (expected_loop_total ch Hch) as (r & -> & Hr). cbn [obind].
    destruct r as [n|]; [|done]. destruct (Z.ltb_spec len n); [done|].
    destruct (all_inside_spec (Z.to_nat (n - 1)) (ch :: m) 1) as [ok Eok]; [lia..|]. rewrite Eok. cbn [obind].
    destruct ok; [|done]. exists n. split; [done|]. split; [lia|]. split; [intros _; by exists ch|].
    intros j Hj. apply (all_inside_true _ _ 1 ltac:(lia) Eok). lia.
Qed.

Lemma previous_loop_spec a ch s k fuel :
  Forall (fun b => IsInsideGlyph b = true) s -> IsInsideGlyph ch = false ->
  (length s < fuel)%nat -> forall limit, limit <= zlen a ->
  previous_loop fuel (a ++ ch :: s ++ k) (zlen a + 1 + zlen s) limit = Ok (zlen a).
Proof.
  intros Hs Hch. revert fuel k. induction s as [|b s IH] using rev_ind; intros fuel k Hf limit Hl; (destruct fuel as [|fuel]; [simpl in *; lia|]).
  - cbn [previous_loop]. rewrite zlen_nil. rewrite (proj2 (Z.eqb_neq _ _)) by lia.
    rewrite rd_mid by lia. cbn [obind]. rewrite Hch. f_equal. lia.
  - rewrite Forall_app in Hs. destruct Hs as [Hs Hb]. apply Forall_cons_1 in Hb as [Hb _].
    rewrite length_app in Hf. simpl in Hf. cbn [previous_loop]. rewrite zlen_snoc. pose proof (zlen_nonneg s).
    rewrite (proj2 (Z.eqb_neq _ _)) by lia. rewrite <- (app_assoc s).
    replace (a ++ ch :: s ++ [b] ++ k) with ((a ++ ch :: s) ++ b :: k) by (by rewrite <- app_assoc).
    rewrite rd_mid by (rewrite zlen_app, zlen_cons; lia). cbn [obind]. rewrite Hb.
    rewrite <- app_assoc. cbn [app]. replace (zlen a + 1 + (zlen s + 1) - 1) with (zlen a + 1 + zlen s) by lia.
    apply IH; [done|lia|done].
Qed.

(** The length of a character.  For an encoded character at [zlen a] in an
    object, the three functions that look forward give the length of its
    encoding, the one without a length if a boundary follows, the one with a
    length if the character lies within it, and 0 if it does not; the one that
    looks back from its end gives the same, if the limit is not behind its
    start. *)
Theorem UTF8CharLen_correct a c k len limit :
  utf8_char c -> zlen (utf8_enc c) <= len -> limit <= zlen a ->
  let n := zlen (utf8_enc c) in
  (boundary k -> UTF8NextCharLen (Some (utf8_enc c ++ k)) = Ok n)
  /\ UTF8NextCharLen_etc (Some (utf8_enc c ++ k)) len = Ok n
  /\ (forall short, 0 <= short < n -> UTF8NextCharLen_etc (Some (utf8_enc c ++ k)) short = Ok 0)
  /\ UTF8PreviousCharLen (a ++ utf8_enc c ++ k) (Some (zlen a + n)) (Some limit) = Ok n.
Proof.
  intros Hc Hlen Hlim n. destruct (lead_not_inside c Hc) as (Hin & H0 & Hr).
  pose proof (utf8_rest_all_inside (utf8_more c) c) as Hrest. assert (En : n = 1 + Z.of_nat (utf8_more c)) by apply zlen_utf8_enc.
  fold n in Hlen. split; [|split; [|split]].
  - intros Hk. unfold UTF8NextCharLen, utf8_enc. cbn [app]. rewrite rd_head. cbn [obind].
    rewrite (proj2 (Z.eqb_neq _ _) H0). unfold UTF8NextCharLenUnsafe. cbn [tail].
    rewrite inside_run_spec by done. cbn [obind]. rewrite zlen_utf8_rest. by rewrite En.
  - unfold UTF8NextCharLen_etc, utf8_enc. rewrite (proj2 (Z.eqb_neq len 0)) by lia. cbn [app]. rewrite rd_head. cbn [obind].
    rewrite (proj2 (Z.eqb_neq _ _) H0). destruct (utf8_lead_cases c Hc) as [(E & El & Hr')|[Hn Hok]].
    + rewrite El. replace (Z.land c 128 =? 0) with true; [by rewrite En, E|]. symmetry.
      apply (forall_upto (fun c => Z.land c 128 =? 0) 128); [reflexivity|lia].
    + destruct (lead_ok_spec _ _ Hok) as (_ & H2 & H3 & H4 & _). fold (utf8_lead c) in H2, H3, H4.
      rewrite (proj2 (Z.eqb_neq _ _) H2), H3, H4. cbn [obind]. rewrite (proj2 (Z.ltb_ge len _)) by lia.
      replace (Z.to_nat (Z.of_nat (utf8_more c) + 1 - 1)) with (length (utf8_rest (utf8_more c) c))
        by (rewrite utf8_rest_length; lia).
      pose proof (all_inside_rest _ [utf8_lead c] k Hrest) as Ha. cbn [app] in Ha. change (zlen [utf8_lead c]) with 1 in Ha.
      rewrite Ha. cbn [obind]. f_equal. lia.
  - intros short Hs. unfold UTF8NextCharLen_etc, utf8_enc. destruct (Z.eqb_spec short 0); [done|]. cbn [app].
    rewrite rd_head. cbn [obind]. rewrite (proj2 (Z.eqb_neq _ _) H0).
    destruct (utf8_lead_cases c Hc) as [(E & _)|[Hn Hok]]; [rewrite E in En; lia|].
    destruct (lead_ok_spec _ _ Hok) as (_ & H2 & H3 & H4 & _). fold (utf8_lead c) in H2, H3, H4.
    rewrite (proj2 (Z.eqb_neq _ _) H2), H3, H4. cbn [obind]. by rewrite (proj2 (Z.ltb_lt short _)) by lia.
  - unfold UTF8PreviousCharLen, utf8_enc. cbn [app].
    pose proof (previous_loop_spec a (utf8_lead c) _ k (S (Z.to_nat (zlen a + n))) Hrest Hin) as Hp.
    rewrite zlen_utf8_rest in Hp. replace (zlen a + 1 + Z.of_nat (utf8_more c)) with (zlen a + n) in Hp by lia.
    rewrite Hp; [cbn [obind]; f_equal; lia| |done]. rewrite utf8_rest_length. pose proof (zlen_nonneg a). lia.
Qed.

(** [UTF8CountChars] reads the byte behind the bytes that it may count. *)
Lemma UTF8CountChars_overread : UTF8CountChars (Some [65]) 1 = Fault.
Proof. reflexivity. Qed.

(** ** The theorems at concrete texts *)

Definition euro : Z := 0x20ac.

Lemma UTF8ToCharCode_correct_witness :
  utf8_enc euro = [0xe2; 0x82; 0xac] /\ UTF8ToCharCode (utf8_enc euro ++ [65]) = Ok (euro, [65])
  /\ exists r s1 s2, [0xe2; 0x82] = s1 ++ s2 /\ UTF8ToCharCode ([0xe2; 0x82] ++ [0]) = Ok (r, s2 ++ [0]).
Proof.
  split; [reflexivity|].
  destruct (UTF8ToCharCode_correct euro [65] [0xe2; 0x82]) as (E & r & s1 & s2 & Es & Er & _).
  - apply (bool_decide_eq_true_1 (utf8_char euro)). reflexivity.
  - apply (bool_decide_eq_true_1 (cstr_ok [0xe2; 0x82])). reflexivity.
  - split; [exact E|]. exists r, s1, s2. split; [exact Es|exact Er].
Defined.

Lemma UTF8Count_inverse_witness :
  let text := Some (utf8_text [65; euro; 0x1f600] ++ [0]) in
  UTF8CountBytes text 2 = Ok 4 /\ UTF8CountChars text 4 = Ok 2 /\ UTF8CountBytes text (-1) = Ok 8.
Proof.
  assert (Hl : Forall utf8_char [65; euro; 0x1f600]) by (repeat constructor).
  destruct (UTF8Count_inverse [65; euro; 0x1f600] 2 [] Hl) as (H1 & H2 & H3 & _);
    [lia|vm_compute; discriminate|].
  split; [exact H1|]. split; [exact H2|exact H3].
Defined.

Lemma UTF8CharLen_correct_witness :
  UTF8NextCharLen (Some (utf8_enc euro ++ [0])) = Ok 3
  /\ UTF8PreviousCharLen ([65] ++ utf8_enc euro ++ [0]) (Some 4) (Some 0) = Ok 3.
Proof.
  destruct (UTF8CharLen_correct [65] euro [0] 3 0) as (H1 & _ & _ & H4);
    [split; reflexivity|vm_compute; discriminate|vm_compute; discriminate|].
  split; [apply H1; by exists 0, []|exact H4].
Defined.
