(* ===== verification/Utf8Conv.v ===== *)
(** The older functions for text (kits/textencoding/utf8_functions.cpp):
    measuring and indexing UTF-8, UTF-16 and UTF-32, and conversions between
    them.

    A string is the object that its pointer starts, NULL is [None], and a
    pointer into it an offset.  [malloc] and [strndup] succeed or not by the
    size they are asked for; the class BString, which collects the UTF-8 text,
    is an interface with the operations that are used. *)

From Stdlib Require Import ZArith Lia List Bool.
From stdpp Require Import base tactics list numbers.
From S2P Require Import Prelude CText Utf8.
Local Open Scope Z_scope.
Local Open Scope c_scope.

(** ** UTF-8 *)

Definition utf8_is_token (str : option (list Z)) : outcome bool :=
  match str with
  | None => Ok true
  | Some m => p <- rd m 0;; Ok ((p <? 0x80) || negb ((p <? 0xc0) || (0xfe <=? p)))
  end.

(** The length that a first byte announces, 0 for none. *)
Definition lead_len (p : Z) : Z :=
  if p <? 0x80 then 1
  else if (p <? 0xc0) || (0xfe <=? p) then 0
  else if p <? 0xe0 then 2
  else if p <? 0xf0 then 3
  else if p <? 0xf8 then 4
  else if p <? 0xfc then 5
  else if p <? 0xfe then 6
  else 0.

(** The loop over the bytes inside; [bad] is what [i] and [len] become when
    one is missing. *)
Fixpoint cont_loop (bad : Z -> Z -> Z) (fuel : nat) (m : list Z) (p i len : Z) : outcome (Z * Z) :=
  match fuel with
  | O => NoFuel
  | S fuel =>
    if i <? 0 then Ok (p, len)
    else
      let p := p + 1 in
      if i <=? 1 then Ok (p, len)
      else
        c <- rd m p;;
        if (c <? 0x80) || (0xc0 <=? c)
        then let len := bad len i in cont_loop bad fuel m p (len - 1) len
        else cont_loop bad fuel m p (i - 1) len
  end.

(** [i = len = 0] *)
Definition bad_zero (len i : Z) : Z := 0.
(** [i = len = -(len - i + 1)] *)
Definition bad_back (len i : Z) : Z := - (len - i + 1).

Definition scan_token (bad : Z -> Z -> Z) (m : list Z) (p c : Z) : outcome (Z * Z) :=
  cont_loop bad 8 m p (lead_len c) (lead_len c).

Fixpoint strlen_loop (fuel : nat) (m : list Z) (nbytes : Z) (check : bool) (p uLen : Z) : outcome Z :=
  match fuel with
  | O => NoFuel
  | S fuel =>
    c <- rd m p;;
    if c =? 0 then Ok uLen
    else
      let! (p, len) := (if check then scan_token bad_zero m p c else Ok (p + Z.max (lead_len c) 1, lead_len c)) in
      if nbytes <? p then Ok uLen
      else strlen_loop fuel m nbytes check p (if (0 <? len) && (len <=? 4) then uLen + 1 else uLen)
  end.

Definition _e_utf8_strlen_etc (str : option (list Z)) (nbytes : Z) (check : bool) : outcome Z :=
  match str with
  | None => Fault
  | Some m =>
    n <- strlen m;;
    let strLen := i32 n in
    c <- rd m 0;;
    if (c =? 0) || (nbytes =? 0) then Ok 0
    else
      let nbytes := if (nbytes <? 0) || (strLen <? nbytes) then strLen else nbytes in
      strlen_loop (S (length m)) m nbytes check 0 0
  end.

Definition utf8_strlen_etc (str : option (list Z)) (nbytes : Z) : outcome Z := _e_utf8_strlen_etc str nbytes true.
Definition utf8_strlen_fast (str : option (list Z)) (nbytes : Z) : outcome Z := _e_utf8_strlen_etc str nbytes false.
Definition utf8_strlen (str : option (list Z)) : outcome Z := utf8_strlen_etc str (-1).

(** [p], [uLen] and [len] behind the loop. *)
Fixpoint utf8_at_loop (fuel : nat) (m : list Z) (index p uLen len : Z) : outcome (Z * Z * Z) :=
  match fuel with
  | O => NoFuel
  | S fuel =>
    c <- rd m p;;
    if (c =? 0) || (index <? uLen) then Ok (p, uLen, len)
    else
      let! (p, len) := scan_token bad_back m p c in
      utf8_at_loop fuel m index p (if (0 <? len) && (len <=? 4) then uLen + 1 else uLen) len
  end.

(** The pointer, [None] for NULL, and [*length]. *)
Definition utf8_at (str : option (list Z)) (index : Z) : outcome (option Z * Z) :=
  if index <? 0 then Ok (None, 0)
  else
    match str with
    | None => Ok (None, 0)
    | Some m =>
      n <- strlen m;;
      if n <=? index then Ok (None, 0)
      else
        let! (p, uLen, len) := utf8_at_loop (S (length m)) m index 0 0 0 in
        if index =? uLen - 1 then
          if len <? 0 then Ok (Some (p + len), 0) else Ok (Some (p - len), u8 len)
        else Ok (None, 0)
    end.

Fixpoint utf8_next_loop (fuel : nat) (m : list Z) (p : Z) (first : bool) : outcome (option Z * Z) :=
  match fuel with
  | O => NoFuel
  | S fuel =>
    c <- rd m p;;
    if c =? 0 then Ok (None, 0)
    else
      let! (p, len) := scan_token bad_back m p c in
      if negb first && (0 <? len) && (len <=? 4) then Ok (Some (p - len), len)
      else utf8_next_loop fuel m p false
  end.

Definition utf8_next (str : option (list Z)) : outcome (option Z * Z) :=
  match str with
  | None => Ok (None, 0)
  | Some m => c <- rd m 0;; if c =? 0 then Ok (None, 0) else utf8_next_loop (S (length m)) m 0 true
  end.

(** The bits of a token of [len] bytes at [p]. *)
Definition token_bits (m : list Z) (p len : Z) : outcome Z :=
  b0 <- rd m p;;
  if len =? 1 then Ok b0
  else
    b1 <- rd m (p + 1);;
    if len =? 2 then Ok (Z.lor (Z.shiftl (Z.land b0 0x1f) 6) (Z.land b1 0x3f))
    else
      b2 <- rd m (p + 2);;
      if len =? 3 then
        Ok (Z.lor (Z.lor (Z.shiftl (Z.land b0 0x0f) 12) (Z.shiftl (Z.land b1 0x3f) 6)) (Z.land b2 0x3f))
      else
        b3 <- rd m (p + 3);;
        Ok (Z.lor (Z.lor (Z.lor (Z.shiftl (Z.land b0 0x07) 18) (Z.shiftl (Z.land b1 0x3f) 12))
                     (Z.shiftl (Z.land b2 0x3f) 6)) (Z.land b3 0x3f)).

(** The units of UTF-16 of a character above 0xffff. *)
Definition surrogates (c : Z) : list Z :=
  [Z.lor 0xd800 (Z.shiftr (c - 0x10000) 10); Z.lor 0xdc00 (Z.land (c - 0x10000) 0x03ff)].

(** What a token becomes in UTF-16 and in UTF-32. *)
Definition token_unicode (len bits : Z) : list Z :=
  if (len =? 4) && (0xffff <? bits) then surrogates bits else [u16 bits].
Definition token_utf32 (len bits : Z) : list Z := [bits].

Section Malloc.
(** Whether [malloc] of so many bytes succeeds. *)
Context (malloc_ok : Z -> bool).

(** The loop of the two conversions; [units] gives what a token becomes. *)
Fixpoint convert_loop (units : Z -> Z -> list Z) (cap : Z) (fuel : nat) (m : list Z) (length p : Z) (out : list Z)
  : outcome (list Z) :=
  match fuel with
  | O => NoFuel
  | S fuel =>
    c <- rd m p;;
    if c =? 0 then Ok out
    else
      let! (p, len) := scan_token bad_zero m p c in
      if length <? p then Ok out
      else if (0 <? len) && (len <=? 4) then
        bits <- token_bits m (p - len) len;;
        out <- pushn cap out (units len bits);;
        convert_loop units cap fuel m length p out
      else convert_loop units cap fuel m length p out
  end.

(** [sizeof] of a unit is [size]; the result holds the terminator, [None] is
    NULL. *)
Definition utf8_convert (units : Z -> Z -> list Z) (size : Z) (str : option (list Z)) (length : Z)
  : outcome (option (list Z)) :=
  n <- add_int length 1;;
  let bytes := u64 (size * u64 n) in
  match str with
  | None => Fault
  | Some m =>
    k <- strlen m;;
    let strLen := i32 k in
    c <- rd m 0;;
    if (c =? 0) || (length =? 0) then Ok None
    else
      let length := if (length <? 0) || (strLen <? length) then strLen else length in
      if negb (malloc_ok bytes) then Ok None
      else
        let cap := Z.quot bytes size in
        out <- convert_loop units cap (S (List.length m)) m length 0 [];;
        out <- push cap out 0;;
        Ok (Some out)
  end.

Definition utf8_convert_to_unicode := utf8_convert token_unicode 2.
Definition utf8_convert_to_utf32 := utf8_convert token_utf32 4.

(** ** UTF-16 *)

Definition is_surrogate (c : Z) : bool := (0xd800 <=? c) && (c <=? 0xdfff).
Definition is_low (c : Z) : bool := (0xdc00 <=? c) && (c <=? 0xdfff).

Fixpoint unicode_strlen_loop (fuel : nat) (m : list Z) (nchars : Z) (utf16_style : bool) (p len : Z) : outcome Z :=
  match fuel with
  | O => NoFuel
  | S fuel =>
    c <- rd m p;;
    if c =? 0 then Ok len
    else if utf16_style && is_surrogate c then
      let p := p + 1 in
      c <- rd m p;;
      if is_low c then
        if (0 <? nchars) && (nchars - 1 <? p) then Ok len
        else unicode_strlen_loop fuel m nchars utf16_style (p + 1) (len + 1)
      else unicode_strlen_loop fuel m nchars utf16_style p len
    else if (0 <? nchars) && (nchars - 1 <? p) then Ok len
    else unicode_strlen_loop fuel m nchars utf16_style (p + 1) (len + 1)
  end.

Definition unicode_strlen_etc (ustr : option (list Z)) (nchars : Z) (utf16_style : bool) : outcome Z :=
  match ustr with
  | None => Ok 0
  | Some m => if nchars =? 0 then Ok 0 else unicode_strlen_loop (S (length m)) m nchars utf16_style 0 0
  end.

Definition unicode_strlen (ustr : option (list Z)) : outcome Z := unicode_strlen_etc ustr (-1) true.

Fixpoint unicode_at_loop (fuel : nat) (m : list Z) (index p len : Z) : outcome (option Z * bool) :=
  match fuel with
  | O => NoFuel
  | S fuel =>
    c <- rd m p;;
    if c =? 0 then Ok (None, false)
    else
      let! (p, len, _utf16_) :=
        (if is_surrogate c then
           c <- rd m (p + 1);;
           if is_low c then Ok (p + 2, len + 1, true) else Ok (p + 1, len, false)
         else Ok (p + 1, len + 1, false)) in
      if index =? len - 1 then Ok (Some (if _utf16_ then p - 2 else p - 1), _utf16_)
      else unicode_at_loop fuel m index p len
  end.

Definition unicode_at (ustr : option (list Z)) (index : Z) : outcome (option Z * bool) :=
  match ustr with
  | None => Ok (None, false)
  | Some m => if index <? 0 then Ok (None, false) else unicode_at_loop (S (length m)) m index 0 0
  end.

Fixpoint unicode_next_loop (fuel : nat) (m : list Z) (p : Z) (first : bool) : outcome (option Z * bool) :=
  match fuel with
  | O => NoFuel
  | S fuel =>
    c <- rd m p;;
    if c =? 0 then Ok (None, false)
    else if is_surrogate c then
      let p := p + 1 in
      c <- rd m p;;
      if is_low c then
        if first then unicode_next_loop fuel m (p + 1) false else Ok (Some (p - 1), true)
      else unicode_next_loop fuel m p first
    else if first then unicode_next_loop fuel m (p + 1) false else Ok (Some p, false)
  end.

Definition unicode_next (ustr : option (list Z)) : outcome (option Z * bool) :=
  match ustr with
  | None => Ok (None, false)
  | Some m => unicode_next_loop (S (length m)) m 0 true
  end.

(** Room for so many units that are not set yet, and the terminator. *)
Definition uninit (n : Z) : list (option Z) := replicate (Z.to_nat n) None.

Fixpoint to_utf32_loop (fuel : nat) (m : list Z) (ulength p ulen : Z) (utf32 : list (option Z))
  : outcome (list (option Z)) :=
  match fuel with
  | O => NoFuel
  | S fuel =>
    c <- rd m p;;
    if (c =? 0) || ((0 <? ulength) && (ulength <=? ulen)) then wr utf32 ulen (Some 0)
    else if is_surrogate c then
      let p := p + 1 in
      c <- rd m p;;
      if is_low c then
        let tmp := Z.lor (Z.shiftl (Z.land c 0x03ff) 10) (Z.land c 0x03ff) + 0x10000 in
        utf32 <- wr utf32 ulen (Some tmp);;
        to_utf32_loop fuel m ulength (p + 1) (ulen + 2) utf32
      else to_utf32_loop fuel m ulength p ulen utf32
    else
      utf32 <- wr utf32 ulen (Some c);;
      to_utf32_loop fuel m ulength (p + 1) (ulen + 1) utf32
  end.

(** Units that were not set are [None] in the result. *)
Definition unicode_convert_to_utf32 (str : option (list Z)) (ulength : Z) : outcome (option (list (option Z))) :=
  unicode_length <- (if ulength <? 0 then unicode_strlen str else Ok ulength);;
  n <- add_int unicode_length 1;;
  let bytes := u64 (4 * u64 n) in
  match str with
  | None => Ok None
  | Some m =>
    c <- rd m 0;;
    if (c =? 0) || (ulength =? 0) || (unicode_length <=? 0) || negb (malloc_ok bytes) then Ok None
    else
      out <- to_utf32_loop (S (length m)) m ulength 0 0 (uninit (Z.quot bytes 4));;
      Ok (Some out)
  end.

(** ** UTF-32 *)

Fixpoint utf32_strlen_loop (fuel : nat) (m : list Z) (nchars p len : Z) : outcome Z :=
  match fuel with
  | O => NoFuel
  | S fuel =>
    c <- rd m p;;
    if c =? 0 then Ok len
    else if (0 <? nchars) && (nchars - 1 <? p) then Ok len
    else utf32_strlen_loop fuel m nchars (p + 1) (if c <=? 0x10ffff then len + 1 else len)
  end.

Definition utf32_strlen_etc (ustr : option (list Z)) (nchars : Z) : outcome Z :=
  match ustr with
  | None => Ok 0
  | Some m => if nchars =? 0 then Ok 0 else utf32_strlen_loop (S (length m)) m nchars 0 0
  end.

Definition utf32_strlen (ustr : option (list Z)) : outcome Z := utf32_strlen_etc ustr (-1).

Fixpoint utf32_at_loop (fuel : nat) (m : list Z) (index p len : Z) : outcome (option Z) :=
  match fuel with
  | O => NoFuel
  | S fuel =>
    c <- rd m p;;
    if c =? 0 then Ok None
    else if c <=? 0x10ffff then
      if index =? len then Ok (Some p) else utf32_at_loop fuel m index (p + 1) (len + 1)
    else utf32_at_loop fuel m index (p + 1) len
  end.

Definition utf32_at (ustr : option (list Z)) (index : Z) : outcome (option Z) :=
  match ustr with
  | None => Ok None
  | Some m => if index <? 0 then Ok None else utf32_at_loop (S (length m)) m index 0 0
  end.

Fixpoint utf32_next_loop (fuel : nat) (m : list Z) (p : Z) : outcome (option Z) :=
  match fuel with
  | O => NoFuel
  | S fuel =>
    c <- rd m p;;
    if c =? 0 then Ok None
    else
      let p := p + 1 in
      c <- rd m p;;
      if (0 <? c) && (c <=? 0x10ffff) then Ok (Some p) else utf32_next_loop fuel m p
  end.

Definition utf32_next (ustr : option (list Z)) : outcome (option Z) :=
  match ustr with
  | None => Ok None
  | Some m => utf32_next_loop (S (length m)) m 0
  end.

Fixpoint to_unicode_loop (cap : Z) (fuel : nat) (m : list Z) (ulength p ulen : Z) (out : list Z) : outcome (list Z) :=
  match fuel with
  | O => NoFuel
  | S fuel =>
    c <- rd m p;;
    if (c =? 0) || ((0 <? ulength) && (ulength <=? ulen)) then push cap out 0
    else if (0xffff <? c) && (c <=? 0x10ffff) then
      out <- pushn cap out (surrogates c);;
      to_unicode_loop cap fuel m ulength (p + 1) (ulen + 1) out
    else if c <=? 0xffff then
      out <- push cap out (u16 c);;
      to_unicode_loop cap fuel m ulength (p + 1) (ulen + 1) out
    else to_unicode_loop cap fuel m ulength (p + 1) ulen out
  end.

Definition utf32_convert_to_unicode (str : option (list Z)) (ulength : Z) : outcome (option (list Z)) :=
  utf32_length <- (if ulength <? 0 then utf32_strlen str else Ok ulength);;
  assert_int (2 * utf32_length);;;
  n <- add_int (2 * utf32_length) 1;;
  let bytes := u64 (2 * u64 n) in
  match str with
  | None => Ok None
  | Some m =>
    c <- rd m 0;;
    if (c =? 0) || (ulength =? 0) || (utf32_length <=? 0) || negb (malloc_ok bytes) then Ok None
    else
      out <- to_unicode_loop (Z.quot bytes 2) (S (length m)) m ulength 0 0 [];;
      Ok (Some out)
  end.

(** ** To UTF-8 *)

(** The bytes of a character by the length that was chosen for it. *)
Definition bytes_1 (tmp : Z) : list Z := [u8 tmp].
Definition bytes_2 (tmp : Z) : list Z :=
  [Z.lor 0xc0 (u8 (Z.land (Z.shiftr tmp 6) 0x1f)); Z.lor 0x80 (u8 (Z.land tmp 0x3f))].
Definition bytes_3 (tmp : Z) : list Z :=
  [Z.lor 0xe0 (u8 (Z.land (Z.shiftr tmp 12) 0x0f)); Z.lor 0x80 (u8 (Z.land (Z.shiftr tmp 6) 0x3f));
   Z.lor 0x80 (u8 (Z.land tmp 0x3f))].
Definition bytes_4 (tmp : Z) : list Z :=
  [Z.lor 0xf0 (u8 (Z.land (Z.shiftr tmp 18) 0x07)); Z.lor 0x80 (u8 (Z.land (Z.shiftr tmp 12) 0x3f));
   Z.lor 0x80 (u8 (Z.land (Z.shiftr tmp 6) 0x3f)); Z.lor 0x80 (u8 (Z.land tmp 0x3f))].

(** A unit below 0x10000; [by_] is what the length is chosen by. *)
Definition bytes_unit (by_ tmp : Z) : list Z :=
  if by_ <? 0x80 then bytes_1 tmp else if by_ <? 0x0800 then bytes_2 tmp else bytes_3 tmp.

(** The C string in a buffer that ends with zeros. *)
Fixpoint cstring (l : list Z) : list Z :=
  match l with
  | [] => []
  | b :: l => if b =? 0 then [] else b :: cstring l
  end.

(** What the conversions use of the class BString. *)
Class BStringOps (S : Type) := {
  bstring_new : S;
  bstring_append : S -> list Z -> S;
  bstring_String : S -> list Z
}.

(** A string that gets the memory it needs holds what was appended to it. *)
Class BStringLaws (S : Type) `{BStringOps S} : Prop := {
  String_new : bstring_String bstring_new = [];
  String_append s x : bstring_String (bstring_append s x) = bstring_String s ++ x
}.

(** Lists of bytes are such strings. *)
#[export] Instance list_BStringOps : BStringOps (list Z) :=
  {| bstring_new := []; bstring_append := app; bstring_String s := s |}.

#[export] Instance list_BStringLaws : BStringLaws (list Z).
Proof. by constructor. Qed.

Section BString.
Context {S : Type} `{BStringOps S}.

(** [strndup(utf8.String(), -1)] *)
Definition dup (utf8 : S) : option (list Z) :=
  let s := bstring_String utf8 ++ [0] in if malloc_ok (zlen s) then Some s else None.

Fixpoint unicode_to_utf8_loop (fuel : nat) (m : list Z) (ulength p ulen : Z) (utf8 : S) : outcome S :=
  match fuel with
  | O => NoFuel
  | Datatypes.S fuel =>
    c <- rd m p;;
    if (c =? 0) || ((0 <? ulength) && (ulength <=? ulen)) then Ok utf8
    else if is_surrogate c then
      let p := p + 1 in
      c <- rd m p;;
      if is_low c then
        let tmp := Z.lor (Z.shiftl (Z.land c 0x03ff) 10) (Z.land c 0x03ff) + 0x10000 in
        unicode_to_utf8_loop fuel m ulength (p + 1) (ulen + 1) (bstring_append utf8 (cstring (bytes_4 tmp)))
      else unicode_to_utf8_loop fuel m ulength p ulen utf8
    else
      let p := p + 1 in
      next <- rd m p;;
      unicode_to_utf8_loop fuel m ulength p (ulen + 1) (bstring_append utf8 (cstring (bytes_unit next c)))
  end.

Definition unicode_convert_to_utf8 (str : option (list Z)) (ulength : Z) : outcome (option (list Z)) :=
  match str with
  | None => Ok None
  | Some m =>
    c <- rd m 0;;
    if (c =? 0) || (ulength =? 0) then Ok None
    else utf8 <- unicode_to_utf8_loop (Datatypes.S (length m)) m ulength 0 0 bstring_new;; Ok (dup utf8)
  end.

Fixpoint utf32_to_utf8_loop (fuel : nat) (m : list Z) (ulength p ulen : Z) (utf8 : S) : outcome S :=
  match fuel with
  | O => NoFuel
  | Datatypes.S fuel =>
    c <- rd m p;;
    if (c =? 0) || ((0 <? ulength) && (ulength <=? ulen)) then Ok utf8
    else if (0xffff <? c) && (c <=? 0x10ffff) then
      utf32_to_utf8_loop fuel m ulength (p + 1) (ulen + 1) (bstring_append utf8 (cstring (bytes_4 c)))
    else if c <=? 0xffff then
      utf32_to_utf8_loop fuel m ulength (p + 1) (ulen + 1) (bstring_append utf8 (cstring (bytes_unit c c)))
    else utf32_to_utf8_loop fuel m ulength (p + 1) ulen utf8
  end.

Definition utf32_convert_to_utf8 (str : option (list Z)) (ulength : Z) : outcome (option (list Z)) :=
  match str with
  | None => Ok None
  | Some m =>
    c <- rd m 0;;
    if (c =? 0) || (ulength =? 0) then Ok None
    else utf8 <- utf32_to_utf8_loop (Datatypes.S (length m)) m ulength 0 0 bstring_new;; Ok (dup utf8)
  end.
End BString.
End Malloc.
