(* ===== verification/Utf8Convert.v ===== *)
(** What the functions of Utf8Conv.v (kits/textencoding/utf8_functions.cpp) do
    on encoded characters, where UTF-8, UTF-16 and UTF-32 are converted into
    each other without loss, and on any bytes, where nothing outside the text
    and the result is touched. *)

From Stdlib Require Import ZArith Lia List Bool.
From stdpp Require Import base tactics list numbers.
From S2P Require Import Prelude CText Utf8 Utf8Conv.
Local Open Scope Z_scope.
Local Open Scope c_scope.

(** ** Tokens *)

Lemma lead_len_spec c : utf8_char c -> lead_len (utf8_lead c) = zlen (utf8_enc c).
Proof.
  intros Hc. rewrite zlen_utf8_enc. destruct (utf8_more_bound c Hc) as (Hn & H0 & Hy). unfold utf8_lead.
  assert (E : utf8_more c = 0%nat \/ utf8_more c = 1%nat \/ utf8_more c = 2%nat \/ utf8_more c = 3%nat) by lia.
  destruct E as [E|[E|[E|E]]]; rewrite E in *.
  - assert (c < 128) by (by apply H0). unfold utf8_char in Hc. cbn [lead_base Z.of_nat].
    change (64 ^ 0) with 1. rewrite Z.div_1_r. unfold lead_len. by rewrite (proj2 (Z.ltb_lt (0 + c) 128)) by lia.
  - specialize (Hy ltac:(done)). set (y := c / 64 ^ Z.of_nat 1) in *. clearbody y.
    apply (forall_upto (fun y => lead_len (0xc0 + y) =? 2) 32) in Hy; [|reflexivity]. by apply Z.eqb_eq.
  - specialize (Hy ltac:(done)). set (y := c / 64 ^ Z.of_nat 2) in *. clearbody y.
    apply (forall_upto (fun y => lead_len (0xe0 + y) =? 3) 16) in Hy; [|reflexivity]. by apply Z.eqb_eq.
  - specialize (Hy ltac:(done)). set (y := c / 64 ^ Z.of_nat 3) in *. clearbody y.
    apply (forall_upto (fun y => lead_len (0xf0 + y) =? 4) 8) in Hy; [|reflexivity]. by apply Z.eqb_eq.
Qed.

Lemma cont_loop_spec bad fuel a b s k len :
  Forall (fun b => 0x80 <= b < 0xc0 /\ IsInsideGlyph b = true) s -> (length s < fuel)%nat ->
  cont_loop bad fuel (a ++ b :: s ++ k) (zlen a) (1 + zlen s) len = Ok (zlen a + 1 + zlen s, len).
Proof.
  intros Hs. revert fuel a b. induction Hs as [|x s [Hx _] Hs IH]; intros fuel a b Hf; (destruct fuel as [|fuel]; [simpl in Hf; lia|]).
  - cbn [cont_loop]. rewrite zlen_nil. cbn. do 2 f_equal. lia.
  - cbn [cont_loop]. rewrite zlen_cons. pose proof (zlen_nonneg s).
    rewrite (proj2 (Z.ltb_ge _ 0)), (proj2 (Z.leb_gt _ 1)) by lia. cbn [app].
    replace (a ++ b :: x :: s ++ k) with ((a ++ [b]) ++ x :: s ++ k) by (by rewrite <- app_assoc).
    rewrite rd_mid by (rewrite zlen_snoc; lia). cbn [obind].
    rewrite (proj2 (Z.ltb_ge x 128)), (proj2 (Z.leb_gt 192 x)) by lia. cbn [orb].
    specialize (IH fuel (a ++ [b]) x ltac:(simpl in Hf; lia)). rewrite zlen_snoc in IH.
    replace (1 + (zlen s + 1) - 1) with (1 + zlen s) by lia. rewrite IH. do 2 f_equal. lia.
Qed.

(** A token of the text. *)
Lemma scan_token_spec bad a c k :
  utf8_char c ->
  rd (a ++ utf8_enc c ++ k) (zlen a) = Ok (utf8_lead c)
  /\ scan_token bad (a ++ utf8_enc c ++ k) (zlen a) (utf8_lead c) = Ok (zlen a + zlen (utf8_enc c), zlen (utf8_enc c)).
Proof.
  intros Hc. split; [unfold utf8_enc; cbn [app]; by apply rd_mid|].
  unfold scan_token. rewrite lead_len_spec by done. rewrite zlen_utf8_enc. unfold utf8_enc. cbn [app].
  destruct (utf8_more_bound c Hc) as (Hn & _).
  rewrite <- (zlen_utf8_rest (utf8_more c) c) at 1. rewrite cont_loop_spec.
  - rewrite zlen_utf8_rest. do 2 f_equal. lia.
  - apply utf8_rest_inside.
  - rewrite utf8_rest_length. lia.
Qed.

Lemma land_lead n y : (1 <= n <= 3)%nat -> 0 <= y < 2 ^ (6 - Z.of_nat n) ->
  Z.land (lead_base n + y) (2 ^ (6 - Z.of_nat n) - 1) = y.
Proof.
  intros Hn Hy. assert (E : n = 1%nat \/ n = 2%nat \/ n = 3%nat) by lia. apply Z.eqb_eq.
  destruct E as [->|[->| ->]].
  - apply (forall_upto (fun y => Z.land (0xc0 + y) 31 =? y) 32); [reflexivity|exact Hy].
  - apply (forall_upto (fun y => Z.land (0xe0 + y) 15 =? y) 16); [reflexivity|exact Hy].
  - apply (forall_upto (fun y => Z.land (0xf0 + y) 7 =? y) 8); [reflexivity|exact Hy].
Qed.

(** The fields of a character put together again. *)
Lemma join_fields c :
  0 <= c ->
  Z.lor (Z.shiftl (c / 64) 6) (c mod 64) = c
  /\ Z.lor (Z.lor (Z.shiftl (c / 4096) 12) (Z.shiftl (c / 64 mod 64) 6)) (c mod 64) = c
  /\ Z.lor (Z.lor (Z.lor (Z.shiftl (c / 262144) 18) (Z.shiftl (c / 4096 mod 64) 12)) (Z.shiftl (c / 64 mod 64) 6)) (c mod 64) = c.
Proof.
  intros Hc. assert (E1 : forall x, Z.lor (Z.shiftl (x / 64) 6) (x mod 64) = x).
  { intros x. rewrite lor_shiftl_add by (try apply Z.mod_pos_bound; lia). pose proof (Z.div_mod x 64). lia. }
  assert (E2 : Z.lor (Z.shiftl (c / 4096) 12) (Z.shiftl (c / 64 mod 64) 6) = Z.shiftl (c / 64) 6).
  { replace 12 with (6 + 6) by done. rewrite <- (Z.shiftl_shiftl _ 6 6), <- Z.shiftl_lor by lia.
    replace (c / 4096) with (c / 64 / 64) by (rewrite Z.div_div by lia; done). by rewrite E1. }
  assert (E3 : Z.lor (Z.shiftl (c / 262144) 18) (Z.shiftl (c / 4096 mod 64) 12) = Z.shiftl (c / 4096) 12).
  { replace 18 with (6 + 12) by done. rewrite <- (Z.shiftl_shiftl _ 6 12), <- Z.shiftl_lor by lia.
    replace (c / 262144) with (c / 4096 / 64) by (rewrite Z.div_div by lia; done). by rewrite E1. }
  split; [apply E1|]. split; [by rewrite E2, E1|by rewrite E3, E2, E1].
Qed.

Lemma token_bits_spec a c k :
  utf8_char c -> token_bits (a ++ utf8_enc c ++ k) (zlen a) (zlen (utf8_enc c)) = Ok c.
Proof.
  intros Hc. destruct (join_fields c) as (J1 & J2 & J3); [unfold utf8_char in Hc; lia|].
  destruct (utf8_more_bound c Hc) as (Hn & H0 & Hy). rewrite zlen_utf8_enc. unfold token_bits.
  assert (Hrd : forall j b, utf8_enc c !! j = Some b -> rd (a ++ utf8_enc c ++ k) (zlen a + Z.of_nat j) = Ok b).
  { intros j b Hb. rewrite rd_app_r by lia. replace (zlen a + Z.of_nat j - zlen a) with (Z.of_nat j) by lia.
    apply rd_lookup; [lia|]. rewrite Nat2Z.id. apply lookup_app_l_Some, Hb. }
  pose proof (Hrd 0%nat (utf8_lead c) eq_refl) as R0. rewrite Z.add_0_r in R0. rewrite R0. cbn [obind].
  assert (Hin : forall x, Z.land (0x80 + x mod 64) 0x3f = x mod 64)
    by (intros x; apply inside_byte, Z.mod_pos_bound; lia).
  assert (E : utf8_more c = 0%nat \/ utf8_more c = 1%nat \/ utf8_more c = 2%nat \/ utf8_more c = 3%nat) by lia.
  assert (Hlead : (1 <= utf8_more c <= 3)%nat ->
    Z.land (utf8_lead c) (2 ^ (6 - Z.of_nat (utf8_more c)) - 1) = c / 64 ^ Z.of_nat (utf8_more c))
    by (intros Hm; unfold utf8_lead; apply land_lead; [done|apply Hy; lia]).
  unfold utf8_enc in Hrd. destruct E as [E|[E|[E|E]]]; rewrite E in *.
  - unfold utf8_lead. rewrite E. cbn. by rewrite Z.div_1_r.
  - specialize (Hlead ltac:(lia)). change (2 ^ (6 - Z.of_nat 1) - 1) with 0x1f in Hlead.
    change (64 ^ Z.of_nat 1) with 64 in Hlead.
    pose proof (Hrd 1%nat _ eq_refl) as R1. cbn [utf8_rest] in R1. unfold utf8_enc. rewrite E. cbn [utf8_rest].
    change (zlen a + Z.of_nat 1) with (zlen a + 1) in R1. rewrite R1. cbn [obind Z.of_nat Z.eqb Pos.eqb Z.add Pos.add].
    change (64 ^ Z.of_nat 0) with 1. rewrite Z.div_1_r, Hin, Hlead. by rewrite J1.
  - specialize (Hlead ltac:(lia)). change (2 ^ (6 - Z.of_nat 2) - 1) with 0x0f in Hlead.
    change (64 ^ Z.of_nat 2) with 4096 in Hlead.
    pose proof (Hrd 1%nat _ eq_refl) as R1. pose proof (Hrd 2%nat _ eq_refl) as R2. cbn [utf8_rest] in R1, R2.
    unfold utf8_enc. rewrite E. cbn [utf8_rest].
    change (zlen a + Z.of_nat 1) with (zlen a + 1) in R1. change (zlen a + Z.of_nat 2) with (zlen a + 2) in R2.
    rewrite R1. cbn [obind]. rewrite R2. cbn [obind Z.of_nat Z.eqb Pos.eqb Z.add Pos.add Pos.of_succ_nat Pos.succ].
    change (64 ^ Z.of_nat 0) with 1. change (64 ^ Z.of_nat 1) with 64. rewrite Z.div_1_r, !Hin, Hlead. by rewrite J2.
  - specialize (Hlead ltac:(lia)). change (2 ^ (6 - Z.of_nat 3) - 1) with 0x07 in Hlead.
    change (64 ^ Z.of_nat 3) with 262144 in Hlead.
    pose proof (Hrd 1%nat _ eq_refl) as R1. pose proof (Hrd 2%nat _ eq_refl) as R2. pose proof (Hrd 3%nat _ eq_refl) as R3.
    cbn [utf8_rest] in R1, R2, R3. unfold utf8_enc. rewrite E. cbn [utf8_rest].
    change (zlen a + Z.of_nat 1) with (zlen a + 1) in R1. change (zlen a + Z.of_nat 2) with (zlen a + 2) in R2.
    change (zlen a + Z.of_nat 3) with (zlen a + 3) in R3.
    rewrite R1. cbn [obind]. rewrite R2. cbn [obind]. rewrite R3.
    cbn [obind Z.of_nat Z.eqb Pos.eqb Z.add Pos.add Pos.of_succ_nat Pos.succ].
    change (64 ^ Z.of_nat 0) with 1. change (64 ^ Z.of_nat 1) with 64. change (64 ^ Z.of_nat 2) with 4096.
    rewrite Z.div_1_r, !Hin, Hlead. by rewrite J3.
Qed.

(** ** From UTF-8 *)

(** A character in UTF-16. *)
Definition utf16_enc (c : Z) : list Z := if 0xffff <? c then surrogates c else [c].

Definition utf16_text (l : list Z) : list Z := concat (map utf16_enc l).

Lemma utf8_enc_pos c : utf8_char c -> 1 <= zlen (utf8_enc c) <= 4.
Proof. intros Hc. rewrite zlen_utf8_enc. destruct (utf8_more_bound c Hc) as (Hn & _). lia. Qed.

Lemma text_cons c l k : utf8_text (c :: l) ++ k = utf8_enc c ++ utf8_text l ++ k.
Proof. unfold utf8_text. cbn [map concat]. by rewrite app_assoc. Qed.

Lemma zlen_text_cons c l : zlen (utf8_text (c :: l)) = zlen (utf8_enc c) + zlen (utf8_text l).
Proof. apply zlen_app. Qed.

Section Units.
Context (units : Z -> Z -> list Z) (unit_of : Z -> list Z).
Hypothesis units_of : forall c, utf8_char c ->
  units (zlen (utf8_enc c)) c = unit_of c /\ zlen (unit_of c) <= zlen (utf8_enc c).

Lemma units_length l : Forall utf8_char l -> zlen (concat (map unit_of l)) <= zlen (utf8_text l).
Proof using units_of.
  induction 1 as [|c l Hc Hl IH]; [done|]. cbn [map concat]. rewrite zlen_app, zlen_text_cons.
  destruct (units_of c Hc). lia.
Qed.

Lemma convert_loop_text cap l k len : Forall utf8_char l -> forall a out fuel,
  (length l < fuel)%nat -> zlen a + zlen (utf8_text l) <= len ->
  zlen out + zlen (concat (map unit_of l)) <= cap ->
  convert_loop units cap fuel (a ++ utf8_text l ++ 0 :: k) len (zlen a) out = Ok (out ++ concat (map unit_of l)).
Proof using units_of.
  induction 1 as [|c l Hc Hl IH]; intros a out fuel Hf Hlen Hcap; (destruct fuel as [|fuel]; [simpl in Hf; lia|]).
  - cbn [convert_loop utf8_text map concat app]. rewrite rd_mid by done. cbn. by rewrite app_nil_r.
  - rewrite text_cons. cbn [convert_loop]. destruct (scan_token_spec bad_zero a c (utf8_text l ++ 0 :: k) Hc) as [-> E].
    cbn [obind]. destruct (lead_not_inside c Hc) as (_ & H0 & _). rewrite (proj2 (Z.eqb_neq _ _) H0), E. cbn [obind].
    pose proof (utf8_enc_pos c Hc). pose proof (zlen_nonneg (utf8_text l)). rewrite zlen_text_cons in Hlen.
    rewrite (proj2 (Z.ltb_ge len _)), (proj2 (Z.ltb_lt 0 _)), (proj2 (Z.leb_le _ 4)) by lia. cbn [andb].
    replace (zlen a + zlen (utf8_enc c) - zlen (utf8_enc c)) with (zlen a) by lia.
    rewrite token_bits_spec by done. cbn [obind]. destruct (units_of c Hc) as [-> Hu].
    cbn [map concat] in Hcap |- *. rewrite zlen_app in Hcap. pose proof (zlen_nonneg (concat (map unit_of l))).
    rewrite pushn_ok by lia. cbn [obind]. specialize (IH (a ++ utf8_enc c) (out ++ unit_of c) fuel).
    rewrite !zlen_app, <- !app_assoc in IH. apply IH; [simpl in Hf; lia|lia|lia].
Qed.

Lemma text_cstr l : Forall utf8_char l -> cstr_ok (utf8_text l).
Proof using.
  induction 1 as [|c l Hc Hl IH]; [constructor|]. unfold utf8_text. cbn [map concat]. apply Forall_app. split; [|done].
  destruct (lead_not_inside c Hc) as (_ & H0 & Hr). constructor; [lia|].
  eapply Forall_impl; [|apply utf8_rest_inside]. simpl. intros b [Hb _]. lia.
Qed.

Lemma text_rd_head c l k : utf8_char c -> exists b, rd (utf8_text (c :: l) ++ k) 0 = Ok b /\ b <> 0.
Proof using.
  intros Hc. exists (utf8_lead c). split; [done|]. by apply lead_not_inside.
Qed.

Lemma utf8_convert_text malloc_ok size l k len :
  Forall utf8_char l -> l <> [] -> zlen (utf8_text l) <= len < INT_MAX -> 1 <= size <= 4 ->
  malloc_ok (size * (len + 1)) = true ->
  utf8_convert malloc_ok units size (Some (utf8_text l ++ 0 :: k)) len = Ok (Some (concat (map unit_of l) ++ [0])).
Proof using units_of.
  intros Hl Hne Hlen Hsize Hok. pose proof (zlen_nonneg (utf8_text l)). unfold utf8_convert, INT_MAX in *.
  rewrite add_int_ok by (unfold INT_MIN, INT_MAX; lia). cbn [obind].
  unfold u64. rewrite (uwrap_id 64 (len + 1)) by lia. rewrite uwrap_id by nia.
  rewrite strlen_cstr by by apply text_cstr. cbn [obind]. destruct l as [|c l]; [done|].
  pose proof (Forall_cons_1 _ _ _ Hl) as [Hc _]. destruct (text_rd_head c l (0 :: k) Hc) as (b & -> & Hb). cbn [obind].
  pose proof (utf8_enc_pos c Hc). rewrite zlen_text_cons in *. pose proof (zlen_nonneg (utf8_text l)).
  rewrite (proj2 (Z.eqb_neq b 0)), (proj2 (Z.eqb_neq len 0)) by lia. cbn [orb].
  unfold i32. rewrite swrap_id by lia. rewrite Hok. cbn [negb].
  rewrite (proj2 (Z.ltb_ge len 0)) by lia. cbn [orb].
  rewrite Z.quot_div_nonneg, (Z.mul_comm size), Z.div_mul by nia.
  pose proof (units_length (c :: l) Hl) as Hu. rewrite zlen_text_cons in Hu.
  pose proof (convert_loop_text (len + 1) (c :: l) k
                (if zlen (utf8_enc c) + zlen (utf8_text l) <? len then zlen (utf8_enc c) + zlen (utf8_text l) else len)
                Hl [] [] (S (length (utf8_text (c :: l) ++ 0 :: k)))) as E.
  change (zlen (@nil Z)) with 0 in E. rewrite zlen_text_cons in E. cbn [app] in E. rewrite E.
  - cbn [obind]. rewrite push_ok by lia. done.
  - rewrite length_app. cbn [length].
    assert (length (c :: l) <= length (utf8_text (c :: l)))%nat; [|simpl in *; lia].
    clear. induction (c :: l) as [|x k IH]; [done|]. unfold utf8_text in *. cbn [map concat length].
    rewrite length_app. unfold utf8_enc at 1. cbn [length]. lia.
  - destruct (Z.ltb_spec (zlen (utf8_enc c) + zlen (utf8_text l)) len); lia.
  - lia.
Qed.
End Units.

(** ** To UTF-8 *)

Lemma cstring_id s : cstr_ok s -> cstring s = s.
Proof. induction 1 as [|b s Hb Hs IH]; simpl; [done|]. by rewrite (proj2 (Z.eqb_neq b 0)), IH by lia. Qed.

Lemma lor_base y : 
  (0 <= y < 64 -> Z.lor 0x80 y = 0x80 + y) /\ (0 <= y < 32 -> Z.lor 0xc0 y = 0xc0 + y)
  /\ (0 <= y < 16 -> Z.lor 0xe0 y = 0xe0 + y) /\ (0 <= y < 8 -> Z.lor 0xf0 y = 0xf0 + y).
Proof.
  split; [|split; [|split]]; intros Hy; apply Z.eqb_eq.
  - apply (forall_upto (fun y => Z.lor 0x80 y =? 0x80 + y) 64); [reflexivity|exact Hy].
  - apply (forall_upto (fun y => Z.lor 0xc0 y =? 0xc0 + y) 32); [reflexivity|exact Hy].
  - apply (forall_upto (fun y => Z.lor 0xe0 y =? 0xe0 + y) 16); [reflexivity|exact Hy].
  - apply (forall_upto (fun y => Z.lor 0xf0 y =? 0xf0 + y) 8); [reflexivity|exact Hy].
Qed.

Lemma u8_field x n k : 0 <= n -> 2 ^ k = n + 1 -> 0 <= k <= 8 -> u8 (Z.land x n) = x mod (n + 1).
Proof.
  intros Hn Hk Hk8. replace n with (Z.ones k) by (rewrite Z.ones_equiv; lia). rewrite Z.land_ones by lia.
  replace (Z.ones k + 1) with (2 ^ k) by (rewrite Z.ones_equiv; lia). unfold u8. apply uwrap_id.
  pose proof (Z.mod_pos_bound x (2 ^ k) ltac:(lia)). pose proof (Z.pow_le_mono_r 2 k 8). lia.
Qed.

Lemma inside_field x : Z.lor 0x80 (u8 (Z.land x 0x3f)) = 0x80 + x mod 64.
Proof. rewrite (u8_field x 63 6) by (done || lia). apply lor_base, Z.mod_pos_bound. lia. Qed.

(** The bytes that the code computes are those of the encoding. *)
Lemma bytes_enc c : utf8_char c -> cstring (if 0xffff <? c then bytes_4 c else bytes_unit c c) = utf8_enc c.
Proof.
  intros Hc. rewrite <- (cstring_id (utf8_enc c)).
  2:{ pose proof (text_cstr [c] ltac:(by constructor)) as Ht. unfold utf8_text in Ht. simpl in Ht.
      by rewrite app_nil_r in Ht. }
  f_equal. unfold utf8_char in Hc. unfold bytes_unit, utf8_enc, utf8_lead, utf8_more.
  destruct (Z.ltb_spec 65535 c), (Z.ltb_spec c 128), (Z.ltb_spec c 2048), (Z.ltb_spec c 65536); try lia;
    cbn [utf8_rest lead_base Z.of_nat Pos.of_succ_nat Pos.succ]; unfold bytes_1, bytes_2, bytes_3, bytes_4;
    rewrite ?inside_field, ?Z.shiftr_div_pow2 by lia;
    change (64 ^ 0) with 1; change (64 ^ 1) with 64; change (64 ^ 2) with 4096; change (64 ^ 3) with 262144;
    change (2 ^ 6) with 64; change (2 ^ 12) with 4096; change (2 ^ 18) with 262144; rewrite ?Z.div_1_r.
  - rewrite (u8_field _ 7 3), (proj2 (proj2 (proj2 (lor_base _)))) by (done || lia || (apply Z.mod_pos_bound; lia)).
    rewrite (Z.mod_small (c / 262144)) by (Z.to_euclidean_division_equations; lia). done.
  - unfold u8. by rewrite uwrap_id, Z.add_0_l by lia.
  - rewrite (u8_field _ 31 5), (proj1 (proj2 (lor_base _))) by (done || lia || (apply Z.mod_pos_bound; lia)).
    rewrite (Z.mod_small (c / 64)) by (Z.to_euclidean_division_equations; lia). done.
  - rewrite (u8_field _ 15 4), (proj1 (proj2 (proj2 (lor_base _)))) by (done || lia || (apply Z.mod_pos_bound; lia)).
    rewrite (Z.mod_small (c / 4096)) by (Z.to_euclidean_division_equations; lia). done.
Qed.

Section ToUtf8.
Context {S : Type} `{BStringLaws S}.

Lemma utf32_to_utf8_loop_spec l k ulength : Forall utf8_char l -> forall a ulen (s : S) fuel,
  (length l < fuel)%nat -> (ulength <= 0 \/ ulen + zlen l <= ulength) ->
  exists s', utf32_to_utf8_loop fuel (a ++ l ++ 0 :: k) ulength (zlen a) ulen s = Ok s'
    /\ bstring_String s' = bstring_String s ++ utf8_text l.
Proof.
  induction 1 as [|c l Hc Hl IH]; intros a ulen s fuel Hf Hu; (destruct fuel as [|fuel]; [simpl in Hf; lia|]).
  - cbn [utf32_to_utf8_loop app]. rewrite rd_mid by done. cbn [obind]. exists s. split; [done|]. by rewrite app_nil_r.
  - cbn [utf32_to_utf8_loop app]. rewrite rd_mid by done. cbn [obind]. rewrite zlen_cons in Hu.
    pose proof (zlen_nonneg l). unfold utf8_char in Hc. rewrite (proj2 (Z.eqb_neq c 0)) by lia. cbn [orb].
    replace ((0 <? ulength) && (ulength <=? ulen)) with false
      by (destruct (Z.ltb_spec 0 ulength); [symmetry; apply Z.leb_gt; lia|done]).
    rewrite (proj2 (Z.leb_le c 1114111)) by lia. rewrite andb_true_r.
    pose proof (bytes_enc c Hc) as Eb.
    specialize (IH (a ++ [c]) (ulen + 1) (bstring_append s (utf8_enc c)) fuel ltac:(simpl in Hf; lia) ltac:(lia)).
    rewrite zlen_snoc, <- app_assoc in IH. cbn [app] in IH. destruct IH as (s' & E & Es).
    exists s'. rewrite String_append, <- app_assoc in Es. split; [|exact Es].
    rewrite <- E. destruct (Z.ltb_spec 65535 c); [by rewrite Eb|].
    by rewrite (proj2 (Z.leb_le c 65535)), Eb by lia.
Qed.
End ToUtf8.

Lemma utf16_length c : 1 <= zlen (utf16_enc c) <= 2.
Proof. unfold utf16_enc. by destruct (65535 <? c). Qed.

Lemma to_unicode_loop_spec cap l k ulength : Forall utf8_char l -> forall a ulen out fuel,
  (length l < fuel)%nat -> (ulength <= 0 \/ ulen + zlen l <= ulength) -> zlen out + 2 * zlen l < cap ->
  to_unicode_loop cap fuel (a ++ l ++ 0 :: k) ulength (zlen a) ulen out = Ok (out ++ utf16_text l ++ [0]).
Proof.
  induction 1 as [|c l Hc Hl IH]; intros a ulen out fuel Hf Hu Hcap; (destruct fuel as [|fuel]; [simpl in Hf; lia|]).
  - cbn [to_unicode_loop app]. rewrite rd_mid by done. cbn [obind Z.eqb orb]. pose proof (zlen_nonneg (@nil Z)).
    rewrite push_ok by lia. done.
  - cbn [to_unicode_loop app]. rewrite rd_mid by done. cbn [obind]. rewrite zlen_cons in Hu, Hcap.
    pose proof (zlen_nonneg l). unfold utf8_char in Hc. rewrite (proj2 (Z.eqb_neq c 0)) by lia. cbn [orb].
    replace ((0 <? ulength) && (ulength <=? ulen)) with false
      by (destruct (Z.ltb_spec 0 ulength); [symmetry; apply Z.leb_gt; lia|done]).
    rewrite (proj2 (Z.leb_le c 1114111)) by lia. rewrite andb_true_r.
    pose proof (utf16_length c) as H2.
    specialize (IH (a ++ [c]) (ulen + 1) (out ++ utf16_enc c) fuel ltac:(simpl in Hf; lia) ltac:(lia)
                  ltac:(rewrite zlen_app; lia)).
    rewrite zlen_snoc, <- !app_assoc in IH. cbn [app] in IH. unfold utf16_text in *. cbn [map concat].
    rewrite <- app_assoc. destruct (Z.ltb_spec 65535 c) as [Hbig|Hsmall].
    + assert (E : utf16_enc c = surrogates c) by (unfold utf16_enc; by rewrite (proj2 (Z.ltb_lt _ _) Hbig)).
      rewrite E in *. rewrite pushn_ok by lia. exact IH.
    + assert (E : utf16_enc c = [c]) by (unfold utf16_enc; by rewrite (proj2 (Z.ltb_ge _ _) Hsmall)).
      rewrite E in *. rewrite (proj2 (Z.leb_le c 65535)) by lia. rewrite push_ok by lia.
      unfold u16. rewrite uwrap_id by lia. exact IH.
Qed.

(** ** The conversions are inverse *)

Lemma utf32_strlen_loop_spec l k : Forall utf8_char l -> forall a len fuel,
  (length l < fuel)%nat ->
  utf32_strlen_loop fuel (a ++ l ++ 0 :: k) (-1) (zlen a) len = Ok (len + zlen l).
Proof.
  induction 1 as [|c l Hc Hl IH]; intros a len fuel Hf; (destruct fuel as [|fuel]; [simpl in Hf; lia|]).
  - cbn [utf32_strlen_loop app]. rewrite rd_mid by done. cbn. f_equal. change (zlen (@nil Z)) with 0. lia.
  - cbn [utf32_strlen_loop app]. rewrite rd_mid by done. cbn [obind]. unfold utf8_char in Hc.
    rewrite (proj2 (Z.eqb_neq c 0)), (proj2 (Z.leb_le c 1114111)) by lia. cbn [Z.ltb Z.compare andb].
    specialize (IH (a ++ [c]) (len + 1) fuel ltac:(simpl in Hf; lia)).
    rewrite zlen_snoc, <- app_assoc in IH. cbn [app] in IH. rewrite IH, zlen_cons. f_equal. lia.
Qed.

Lemma token_unicode_spec c : utf8_char c ->
  token_unicode (zlen (utf8_enc c)) c = utf16_enc c /\ zlen (utf16_enc c) <= zlen (utf8_enc c).
Proof.
  intros Hc. rewrite zlen_utf8_enc. unfold token_unicode, utf16_enc, utf8_more. unfold utf8_char in Hc.
  destruct (Z.ltb_spec 65535 c), (Z.ltb_spec c 128), (Z.ltb_spec c 2048), (Z.ltb_spec c 65536); try lia; cbn;
    try done; unfold u16; by rewrite uwrap_id by lia.
Qed.

Lemma token_utf32_spec c : utf8_char c ->
  token_utf32 (zlen (utf8_enc c)) c = [c] /\ zlen [c] <= zlen (utf8_enc c).
Proof. intros Hc. pose proof (utf8_enc_pos c Hc). split; [done|]. unfold zlen at 1. simpl. lia. Qed.

Lemma concat_singletons (l : list Z) : concat (map (fun c => [c]) l) = l.
Proof. induction l; simpl; congruence. Qed.

Lemma zlen_text_ge l : Forall utf8_char l -> zlen l <= zlen (utf8_text l).
Proof.
  induction 1 as [|c l Hc Hl IH]; [done|]. rewrite zlen_cons, zlen_text_cons. pose proof (utf8_enc_pos c Hc). lia.
Qed.

(** What a conversion of the characters [l] into the units [t] returns: NULL
    for the empty text. *)
Definition converted (l t : list Z) : option (list Z) :=
  match l with [] => None | _ => Some (t ++ [0]) end.

(** The empty text. *)
Lemma utf_round_trip_empty (S : Type) `{BStringOps S} malloc_ok ulength len :
  ulength <= 2 ^ 29 -> 0 <= len <= 2 ^ 29 ->
  utf32_convert_to_utf8 (S:=S) malloc_ok (Some [0]) ulength = Ok None
  /\ utf8_convert_to_utf32 malloc_ok (Some [0]) len = Ok None
  /\ utf32_convert_to_unicode malloc_ok (Some [0]) ulength = Ok None
  /\ utf8_convert_to_unicode malloc_ok (Some [0]) len = Ok None.
Proof.
  intros Hu Hlen. unfold utf8_convert_to_utf32, utf8_convert_to_unicode, utf8_convert.
  rewrite add_int_ok by (unfold INT_MIN, INT_MAX; lia). split_and!; try done.
  unfold utf32_convert_to_unicode. destruct (Z.ltb_spec ulength 0); [done|]. cbn [obind].
  rewrite assert_int_ok, add_int_ok by (unfold INT_MIN, INT_MAX; lia). done.
Qed.

(** C29: the conversions between UTF-8, UTF-16 and UTF-32.  For a terminated
    text of characters up to 0x10ffff, with lengths that do not cut it, are at
    most 2^29 and not negative for UTF-8, and with enough memory ([malloc] of
    up to 4 GB, and strings that can be appended to): UTF-32 becomes the UTF-8
    of RFC 3629 and is read back from it, and both become the same UTF-16,
    terminated, in results that have room for them.  For the empty text all
    four conversions return NULL. *)
Theorem utf_round_trip (S : Type) `{BStringLaws S} malloc_ok l ulength len :
  Forall utf8_char l ->
  ulength < 0 \/ zlen l <= ulength <= 2 ^ 29 -> zlen (utf8_text l) <= len <= 2 ^ 29 ->
  (forall n, 0 < n <= 2 ^ 32 -> malloc_ok n = true) ->
  utf32_convert_to_utf8 (S:=S) malloc_ok (Some (l ++ [0])) ulength = Ok (converted l (utf8_text l))
  /\ utf8_convert_to_utf32 malloc_ok (Some (utf8_text l ++ [0])) len = Ok (converted l l)
  /\ utf32_convert_to_unicode malloc_ok (Some (l ++ [0])) ulength = Ok (converted l (utf16_text l))
  /\ utf8_convert_to_unicode malloc_ok (Some (utf8_text l ++ [0])) len = Ok (converted l (utf16_text l)).
Proof.
  intros Hl Hu Hlen Hok. destruct (decide (l = [])) as [->|Hne].
  { change (zlen (utf8_text [])) with 0 in Hlen. change (zlen (@nil Z)) with 0 in Hu.
    apply utf_round_trip_empty; lia. }
  assert (Ec : forall u, converted l u = Some (u ++ [0])) by (by destruct l). rewrite !Ec. clear Ec.
  pose proof (zlen_text_ge l Hl) as Hge. pose proof (zlen_nonneg l) as Hl0.
  assert (Hl1 : 1 <= zlen l) by (destruct l; [done|]; rewrite zlen_cons; pose proof (zlen_nonneg l); lia).
  assert (Hhd : exists c, rd (l ++ [0]) 0 = Ok c /\ c <> 0).
  { destruct l as [|c l]; [done|]. exists c. split; [done|]. pose proof (Forall_cons_1 _ _ _ Hl) as [Hc _].
    unfold utf8_char in Hc. lia. }
  destruct Hhd as (c & Ec & Hc). assert (Hlf : (length l < Datatypes.S (length (l ++ [0%Z])))%nat) by (rewrite length_app; lia).
  assert (Hu0 : (ulength =? 0) = false) by (apply Z.eqb_neq; lia).
  split; [|split; [|split]].
  - unfold utf32_convert_to_utf8. rewrite Ec. cbn [obind]. rewrite (proj2 (Z.eqb_neq c 0) Hc), Hu0. cbn [orb].
    destruct (utf32_to_utf8_loop_spec l [] ulength Hl [] 0 (bstring_new (S:=S)) _ Hlf) as (s & E & Es); [lia|].
    cbn [app] in E. change (zlen (@nil Z)) with 0 in E. rewrite E. cbn [obind]. unfold dup.
    rewrite Es, String_new. cbn [app]. rewrite Hok; [done|]. rewrite zlen_snoc. pose proof (zlen_nonneg (utf8_text l)). lia.
  - unfold utf8_convert_to_utf32. rewrite (utf8_convert_text _ _ token_utf32_spec) by (try done; try lia; try (unfold INT_MAX; lia); apply Hok; lia).
    by rewrite concat_singletons.
  - unfold utf32_convert_to_unicode.
    set (n := if ulength <? 0 then zlen l else ulength).
    assert (En : (if ulength <? 0 then utf32_strlen (Some (l ++ [0])) else Ok ulength) = Ok n).
    { unfold n. destruct (Z.ltb_spec ulength 0); [|done]. unfold utf32_strlen, utf32_strlen_etc. cbn [Z.eqb].
      pose proof (utf32_strlen_loop_spec l [] Hl [] 0 _ Hlf) as E. cbn [app] in E. exact E. }
    assert (Hn : zlen l <= n <= 2 ^ 29) by (unfold n; destruct (Z.ltb_spec ulength 0); lia).
    rewrite En. cbn [obind]. rewrite assert_int_ok, add_int_ok by (unfold INT_MIN, INT_MAX; lia). cbn [obind].
    rewrite Ec. cbn [obind]. rewrite (proj2 (Z.eqb_neq c 0) Hc), Hu0, (proj2 (Z.leb_gt n 0)) by lia. cbn [orb].
    unfold u64. rewrite (uwrap_id 64 (2 * n + 1)), uwrap_id, Hok by lia. cbn [negb].
    replace (Z.quot (2 * (2 * n + 1)) 2) with (2 * n + 1) by (rewrite (Z.mul_comm 2 (2 * n + 1)), Z.quot_mul by lia; done).
    pose proof (to_unicode_loop_spec (2 * n + 1) l [] ulength Hl [] 0 [] _ Hlf) as E. cbn [app] in E.
    change (zlen (@nil Z)) with 0 in E. rewrite E by lia. done.
  - unfold utf8_convert_to_unicode. rewrite (utf8_convert_text _ _ token_unicode_spec) by (try done; try lia; try (unfold INT_MAX; lia); apply Hok; lia).
    done.
Qed.

(** ** Any bytes *)

Lemma lead_len_range c : 0 <= lead_len c <= 6.
Proof. unfold lead_len. repeat case_match; lia. Qed.

Section AnyText.
Context (s k : list Z).
Hypothesis Hs : cstr_ok s.

Lemma text_byte p : 0 <= p <= zlen s ->
  exists c, rd (s ++ 0 :: k) p = Ok c /\ (c = 0 <-> p = zlen s) /\ 0 <= c < 256.
Proof using Hs.
  intros Hp. destruct (Z.eq_dec p (zlen s)) as [->|Hne].
  - exists 0. split; [by apply rd_mid|]. lia.
  - destruct (rd_ok s p) as [c Hc]; [lia|]. exists c. rewrite rd_app_l by lia. split; [done|].
    apply rd_inv in Hc as [_ Hc]. pose proof (Forall_lookup_1 _ _ _ _ Hs Hc) as Hr. simpl in Hr. lia.
Qed.

(** A token on any bytes: it ends at the terminator at the latest, and unless
    its length has become 0 it is as long as announced. *)
Lemma cont_loop_any fuel p i len :
  0 <= p < zlen s -> 0 <= i <= 6 -> (Z.to_nat i + 1 < fuel)%nat ->
  exists p' len', cont_loop bad_zero fuel (s ++ 0 :: k) p i len = Ok (p', len') /\ p < p' <= zlen s
    /\ (len' = 0 \/ len' = len /\ p' = p + Z.max i 1).
Proof using Hs.
  revert p i. induction fuel as [|fuel IH]; intros p i Hp Hi Hf; [lia|]. cbn [cont_loop].
  rewrite (proj2 (Z.ltb_ge i 0)) by lia. destruct (Z.leb_spec i 1).
  { exists (p + 1), len. split; [done|]. split; [lia|]. right. split; [done|lia]. }
  destruct (text_byte (p + 1)) as (c & -> & Hc & _); [lia|]. cbn [obind].
  destruct ((c <? 128) || (192 <=? c)) eqn:Ec.
  - exists (p + 1), 0. unfold bad_zero. destruct fuel as [|fuel]; [lia|]. cbn [cont_loop].
    split; [done|]. split; [lia|by left].
  - assert (Hne : p + 1 <> zlen s).
    { intros E. apply Hc in E. subst c. discriminate. }
    destruct (IH (p + 1) (i - 1)) as (p' & len' & E & Hp' & Hlen); [lia|lia|lia|].
    exists p', len'. split; [done|]. split; [lia|]. destruct Hlen as [|[-> ->]]; [by left|right]. split; [done|lia].
Qed.

Lemma scan_token_any p c :
  0 <= p < zlen s ->
  exists p' len, scan_token bad_zero (s ++ 0 :: k) p c = Ok (p', len) /\ p < p' <= zlen s
    /\ (len = 0 \/ 1 <= len <= 6 /\ p' = p + len).
Proof using Hs.
  intros Hp. pose proof (lead_len_range c) as Hl. unfold scan_token.
  destruct (cont_loop_any 8 p (lead_len c) (lead_len c)) as (p' & len & E & Hp' & Hlen); [lia..|].
  exists p', len. split; [done|]. split; [done|]. lia.
Qed.

Lemma token_bits_any p len :
  0 <= p -> 1 <= len <= 4 -> p + len <= zlen s -> exists b, token_bits (s ++ 0 :: k) p len = Ok b.
Proof using Hs.
  intros Hp Hlen Hm. unfold token_bits.
  destruct (text_byte p) as (b0 & -> & _); [lia|]. cbn [obind]. destruct (Z.eqb_spec len 1); [by eexists|].
  destruct (text_byte (p + 1)) as (b1 & -> & _); [lia|]. cbn [obind]. destruct (Z.eqb_spec len 2); [by eexists|].
  destruct (text_byte (p + 2)) as (b2 & -> & _); [lia|]. cbn [obind]. destruct (Z.eqb_spec len 3); [by eexists|].
  destruct (text_byte (p + 3)) as (b3 & -> & _); [lia|]. by eexists.
Qed.

Lemma convert_loop_any units cap len :
  (forall n b, 1 <= n <= 4 -> zlen (units n b) <= n) -> len <= cap -> forall fuel p out,
  0 <= p <= zlen s -> zlen s - p < Z.of_nat fuel -> zlen out <= Z.min p len ->
  exists out', convert_loop units cap fuel (s ++ 0 :: k) len p out = Ok out' /\ zlen out' <= len.
Proof using Hs.
  intros Hunits Hcap fuel. induction fuel as [|fuel IH]; intros p out Hp Hf Hout; [lia|]. cbn [convert_loop].
  destruct (text_byte p Hp) as (c & -> & Hc & _). cbn [obind].
  destruct (Z.eqb_spec c 0) as [|Hc0]; [exists out; split; [done|lia]|].
  assert (Hlt : p < zlen s) by (destruct (Z.eq_dec p (zlen s)) as [E|]; [by apply Hc in E|lia]).
  destruct (scan_token_any p c ltac:(lia)) as (p' & n & -> & Hp' & Hn). cbn [obind].
  destruct (Z.ltb_spec len p'); [exists out; split; [done|lia]|].
  destruct (Z.ltb_spec 0 n), (Z.leb_spec n 4); cbn [andb]; try (apply IH; lia).
  destruct (token_bits_any (p' - n) n) as [b ->]; [lia..|]. cbn [obind].
  pose proof (Hunits n b ltac:(lia)). rewrite pushn_ok by lia. cbn [obind]. apply IH; [lia|lia|].
  rewrite zlen_app. lia.
Qed.
End AnyText.

Lemma utf8_convert_any malloc_ok units size s k len :
  (forall n b, 1 <= n <= 4 -> zlen (units n b) <= n) -> 1 <= size <= 4 ->
  cstr_ok s -> zlen s <= INT_MAX -> 0 <= len < INT_MAX ->
  exists r, utf8_convert malloc_ok units size (Some (s ++ 0 :: k)) len = Ok r
    /\ forall out, r = Some out -> exists u, out = u ++ [0] /\ zlen u <= len.
Proof.
  intros Hunits Hsize Hs Hsl Hlen. unfold utf8_convert, INT_MAX in *.
  rewrite add_int_ok by (unfold INT_MIN, INT_MAX; lia). cbn [obind].
  unfold u64. rewrite (uwrap_id 64 (len + 1)) by lia. rewrite uwrap_id by nia.
  rewrite strlen_cstr by done. cbn [obind]. pose proof (zlen_nonneg s).
  destruct (text_byte s k Hs 0) as (c & -> & _); [lia|]. cbn [obind].
  destruct ((c =? 0) || (len =? 0)); [by eexists|]. destruct (malloc_ok _); cbn [negb]; [|by eexists].
  unfold i32. rewrite swrap_id, (proj2 (Z.ltb_ge len 0)) by lia. cbn [orb].
  rewrite Z.quot_div_nonneg, (Z.mul_comm size), Z.div_mul by nia.
  destruct (convert_loop_any s k Hs units (len + 1) (if zlen s <? len then zlen s else len) Hunits)
    with (fuel := Datatypes.S (length (s ++ 0 :: k))) (p := 0) (out := @nil Z) as (out & -> & Hout).
  - destruct (Z.ltb_spec (zlen s) len); lia.
  - lia.
  - rewrite length_app. unfold zlen. simpl. lia.
  - change (zlen (@nil Z)) with 0. destruct (Z.ltb_spec (zlen s) len); lia.
  - cbn [obind]. assert (zlen out <= len) by (destruct (Z.ltb_spec (zlen s) len); lia).
    rewrite push_ok by lia. cbn [obind]. eexists. split; [done|]. intros ? [= <-]. by exists out.
Qed.

(** Without room for a unit nothing is converted. *)
Lemma convert_loop_no_room units s k len :
  cstr_ok s -> (forall n b, 1 <= zlen (units n b)) -> forall fuel p,
  0 <= p <= zlen s -> zlen s - p < Z.of_nat fuel ->
  convert_loop units 0 fuel (s ++ 0 :: k) len p [] = Ok []
  \/ convert_loop units 0 fuel (s ++ 0 :: k) len p [] = Fault.
Proof.
  intros Hs Hunits fuel. induction fuel as [|fuel IH]; intros p Hp Hf; [lia|]. cbn [convert_loop].
  destruct (text_byte s k Hs p Hp) as (c & -> & Hc & _). cbn [obind].
  destruct (Z.eqb_spec c 0) as [|Hc0]; [by left|].
  assert (Hlt : p < zlen s) by (destruct (Z.eq_dec p (zlen s)) as [E|]; [by apply Hc in E|lia]).
  destruct (scan_token_any s k Hs p c ltac:(lia)) as (p' & n & -> & Hp' & Hn). cbn [obind].
  destruct (Z.ltb_spec len p'); [by left|].
  destruct (Z.ltb_spec 0 n), (Z.leb_spec n 4); cbn [andb]; try (apply IH; lia).
  destruct (token_bits_any s k Hs (p' - n) n) as [b ->]; [lia..|]. cbn [obind].
  right. unfold pushn. change (zlen (@nil Z)) with 0. rewrite (proj2 (Z.leb_gt _ 0)); [done|].
  pose proof (Hunits n b). lia.
Qed.

(** [malloc] of [length + 1] units, with the length -1. *)
Lemma utf8_convert_minus_one malloc_ok units size s k :
  (forall n b, 1 <= zlen (units n b)) -> 1 <= size <= 4 -> cstr_ok s -> zlen s <= INT_MAX ->
  utf8_convert malloc_ok units size (Some (s ++ 0 :: k)) (-1)
  = if bool_decide (s <> []) && malloc_ok 0 then Fault else Ok None.
Proof.
  intros Hunits Hsize Hs Hsl. unfold utf8_convert. change (add_int (-1) 1) with (Ok 0). cbn [obind].
  change (u64 0) with 0. rewrite Z.mul_0_r. change (u64 0) with 0. rewrite strlen_cstr by done. cbn [obind].
  pose proof (zlen_nonneg s). destruct (text_byte s k Hs 0) as (c & -> & Hc & _); [lia|]. cbn [obind].
  destruct (Z.eqb_spec c 0) as [E|E].
  { assert (s = []) as -> by (apply Hc in E; destruct s; [done|exfalso; zl]). done. }
  rewrite bool_decide_true by (intros ->; by apply E, Hc). cbn [orb andb].
  destruct (malloc_ok 0); [|done]. change (-1 =? 0) with false. change (-1 <? 0) with true. cbn [orb negb].
  rewrite Z.quot_0_l by lia.
  destruct (convert_loop_no_room units s k (i32 (zlen s)) Hs Hunits (Datatypes.S (length (s ++ 0 :: k))) 0)
    as [->| ->]; [lia| |done..]. rewrite length_app. unfold zlen. simpl. lia.
Qed.

(** A smaller length asks [malloc] for more than half of the address space. *)
Lemma utf8_convert_huge malloc_ok units size s k len :
  1 <= size <= 4 -> cstr_ok s -> INT_MIN <= len < -1 -> (forall n, 2 ^ 63 <= n -> malloc_ok n = false) ->
  utf8_convert malloc_ok units size (Some (s ++ 0 :: k)) len = Ok None.
Proof.
  intros Hsize Hs Hlen Hno. unfold utf8_convert, INT_MIN in *.
  rewrite add_int_ok by (unfold INT_MIN, INT_MAX; lia). cbn [obind].
  rewrite strlen_cstr by done. cbn [obind]. pose proof (zlen_nonneg s).
  destruct (text_byte s k Hs 0) as (c & -> & _ & _); [lia|]. cbn [obind].
  assert (Eb : u64 (size * u64 (len + 1)) = 2 ^ 64 + size * (len + 1)).
  { unfold u64, uwrap. replace ((len + 1) mod 2 ^ 64) with (len + 1 + 2 ^ 64)
      by (symmetry; rewrite <- (Z_mod_plus_full (len + 1) 1), Z.mod_small; lia).
    replace (size * (len + 1 + 2 ^ 64)) with (2 ^ 64 + size * (len + 1) + (size - 1) * 2 ^ 64) by lia.
    rewrite Z_mod_plus_full, Z.mod_small; nia. }
  rewrite Eb, Hno by nia. by destruct (_ || _).
Qed.

Lemma token_unicode_length n b : 1 <= zlen (token_unicode n b) /\ (1 <= n <= 4 -> zlen (token_unicode n b) <= n).
Proof. unfold token_unicode, zlen. destruct (Z.eqb_spec n 4), (Z.ltb_spec 65535 b); simpl; lia. Qed.

(** C30: converting any bytes with any [int32_t] length.  With a length from 0
    to 2^31 - 2 the two conversions from UTF-8 return for every terminated
    string of at most 2^31 - 1 bytes, valid or not: NULL, or a terminated
    result of at most that length; they never read behind the terminator nor
    write behind the memory they allocate, whether or not [malloc] succeeds.
    A negative length is meant to stand for the whole string.  But with -1
    there is room for nothing, and unless the string is empty or [malloc] of
    no bytes returns NULL, the result is written outside it; with a smaller one
    nearly 2^64 bytes are asked for, which [malloc] refuses, and the result is
    NULL; and with 2^31 - 1 the sum [length + 1] overflows. *)
Theorem utf8_convert_safe malloc_ok s k len f :
  f = utf8_convert_to_unicode malloc_ok \/ f = utf8_convert_to_utf32 malloc_ok ->
  cstr_ok s -> zlen s <= INT_MAX -> INT_MIN <= len <= INT_MAX ->
  (forall n, 2 ^ 63 <= n -> malloc_ok n = false) ->
  (0 <= len < INT_MAX -> exists r, f (Some (s ++ 0 :: k)) len = Ok r
     /\ forall out, r = Some out -> exists u, out = u ++ [0] /\ zlen u <= len)
  /\ (len = -1 -> f (Some (s ++ 0 :: k)) len = if bool_decide (s <> []) && malloc_ok 0 then Fault else Ok None)
  /\ (len < -1 -> f (Some (s ++ 0 :: k)) len = Ok None)
  /\ (len = INT_MAX -> f (Some (s ++ 0 :: k)) len = Fault).
Proof.
  intros Hf Hs Hsl Hlen Hno.
  assert (Hu : exists units size, f = utf8_convert malloc_ok units size /\ 1 <= size <= 4
            /\ forall n b, 1 <= zlen (units n b) /\ (1 <= n <= 4 -> zlen (units n b) <= n)).
  { destruct Hf as [-> | ->]; eexists _, _; (split; [reflexivity|]); (split; [lia|]); intros n b;
      [apply token_unicode_length|unfold token_utf32, zlen; simpl; lia]. }
  destruct Hu as (units & size & -> & Hsize & Hunits). split_and!.
  - intros Hl. apply utf8_convert_any; auto. intros n b. apply Hunits.
  - intros ->. apply utf8_convert_minus_one; auto. intros n b. apply Hunits.
  - intros Hl. apply utf8_convert_huge; auto. lia.
  - intros ->. done.
Qed.

(** ** Measuring and indexing *)

(** How many characters lie within the first [n] bytes. *)
Fixpoint chars_within (l : list Z) (n : Z) : Z :=
  match l with
  | [] => 0
  | c :: l => if zlen (utf8_enc c) <=? n then 1 + chars_within l (n - zlen (utf8_enc c)) else 0
  end.

Lemma strlen_loop_text nbytes check k l : Forall utf8_char l -> forall a fuel uLen,
  (length l < fuel)%nat ->
  strlen_loop fuel (a ++ utf8_text l ++ 0 :: k) nbytes check (zlen a) uLen = Ok (uLen + chars_within l (nbytes - zlen a)).
Proof.
  induction 1 as [|c l Hc Hl IH]; intros a fuel uLen Hf; (destruct fuel as [|fuel]; [simpl in Hf; lia|]).
  - cbn [strlen_loop utf8_text map concat app]. rewrite rd_mid by done. cbn. f_equal. lia.
  - rewrite text_cons. cbn [strlen_loop]. destruct (scan_token_spec bad_zero a c (utf8_text l ++ 0 :: k) Hc) as [-> E].
    cbn [obind]. destruct (lead_not_inside c Hc) as (_ & Hn0 & _). rewrite (proj2 (Z.eqb_neq _ _) Hn0), E.
    pose proof (utf8_enc_pos c Hc). rewrite lead_len_spec, Z.max_l by (done || lia).
    replace (if check then Ok (zlen a + zlen (utf8_enc c), zlen (utf8_enc c))
             else Ok (zlen a + zlen (utf8_enc c), zlen (utf8_enc c)))
      with (Ok (zlen a + zlen (utf8_enc c), zlen (utf8_enc c))) by (by destruct check).
    cbn [obind chars_within]. rewrite (proj2 (Z.ltb_lt 0 _)), (proj2 (Z.leb_le _ 4)) by lia. cbn [andb].
    destruct (Z.ltb_spec nbytes (zlen a + zlen (utf8_enc c))), (Z.leb_spec (zlen (utf8_enc c)) (nbytes - zlen a)); try lia;
      [f_equal; lia|].
    specialize (IH (a ++ utf8_enc c) fuel (uLen + 1) ltac:(simpl in Hf; lia)). rewrite zlen_app, <- app_assoc in IH.
    rewrite IH. f_equal. replace (nbytes - (zlen a + zlen (utf8_enc c))) with (nbytes - zlen a - zlen (utf8_enc c)) by lia. lia.
Qed.

Lemma length_text_ge l : (length l <= length (utf8_text l))%nat.
Proof.
  induction l as [|c l IH]; [done|]. unfold utf8_text in *. cbn [map concat length].
  rewrite length_app. unfold utf8_enc at 1. cbn [length]. lia.
Qed.

Lemma utf8_strlen_text l k nbytes check :
  Forall utf8_char l -> l <> [] -> zlen (utf8_text l) <= INT_MAX -> nbytes <> 0 ->
  _e_utf8_strlen_etc (Some (utf8_text l ++ 0 :: k)) nbytes check
  = Ok (chars_within l (if nbytes <? 0 then zlen (utf8_text l) else Z.min nbytes (zlen (utf8_text l)))).
Proof.
  intros Hl Hne Hmax Hn. unfold _e_utf8_strlen_etc. rewrite strlen_cstr by by apply text_cstr. cbn [obind].
  destruct l as [|c l]; [done|]. pose proof (Forall_cons_1 _ _ _ Hl) as [Hc _].
  destruct (text_rd_head c l (0 :: k) Hc) as (b & -> & Hb). cbn [obind].
  rewrite (proj2 (Z.eqb_neq b 0) Hb), (proj2 (Z.eqb_neq nbytes 0) Hn). cbn [orb].
  pose proof (zlen_nonneg (utf8_text (c :: l))). unfold INT_MAX in *. unfold i32. rewrite swrap_id by lia.
  pose proof (strlen_loop_text
    (if (nbytes <? 0) || (zlen (utf8_text (c :: l)) <? nbytes) then zlen (utf8_text (c :: l)) else nbytes)
    check k (c :: l) Hl [] (S (length (utf8_text (c :: l) ++ 0 :: k))) 0) as E.
  cbn [app] in E. change (zlen (@nil Z)) with 0 in E. rewrite E.
  - f_equal. rewrite Z.sub_0_r, Z.add_0_l. destruct (Z.ltb_spec nbytes 0); cbn [orb]; [done|].
    destruct (Z.ltb_spec (zlen (utf8_text (c :: l))) nbytes); f_equal; lia.
  - pose proof (length_text_ge (c :: l)). rewrite length_app. lia.
Qed.

Lemma at_loop_text k l : Forall utf8_char l -> forall a fuel index uLen len,
  (length l < fuel)%nat -> uLen <= index ->
  utf8_at_loop fuel (a ++ utf8_text l ++ 0 :: k) index (zlen a) uLen len
  = Ok (match l !! Z.to_nat (index - uLen) with
        | Some c => (zlen a + zlen (utf8_text (take (Z.to_nat (index - uLen)) l)) + zlen (utf8_enc c), index + 1, zlen (utf8_enc c))
        | None => (zlen a + zlen (utf8_text l), uLen + zlen l, if l is [] then len else zlen (utf8_enc (List.last l 0)))
        end).
Proof.
  induction 1 as [|c l Hc Hl IH]; intros a fuel index uLen len Hf Hi; (destruct fuel as [|fuel]; [simpl in Hf; lia|]).
  - cbn [utf8_at_loop utf8_text map concat app]. rewrite rd_mid by done. cbn [obind Z.eqb orb]. rewrite lookup_nil.
    change (zlen (@nil Z)) with 0. by rewrite !Z.add_0_r.
  - rewrite text_cons. cbn [utf8_at_loop]. destruct (scan_token_spec bad_back a c (utf8_text l ++ 0 :: k) Hc) as [-> E].
    cbn [obind]. destruct (lead_not_inside c Hc) as (_ & Hn0 & _). rewrite (proj2 (Z.eqb_neq _ _) Hn0), E.
    rewrite (proj2 (Z.ltb_ge index uLen)) by done. cbn [orb obind].
    pose proof (utf8_enc_pos c Hc). rewrite (proj2 (Z.ltb_lt 0 _)), (proj2 (Z.leb_le _ 4)) by lia. cbn [andb].
    destruct (Z.eq_dec index uLen) as [->|Hne].
    + rewrite Z.sub_diag. cbn [Z.to_nat lookup list_lookup take].
      destruct fuel as [|fuel]; [simpl in Hf; lia|]. cbn [utf8_at_loop].
      assert (Hrd : exists b, rd (a ++ utf8_enc c ++ utf8_text l ++ 0 :: k) (zlen a + zlen (utf8_enc c)) = Ok b).
      { apply rd_ok. rewrite !zlen_app, zlen_cons. pose proof (zlen_nonneg a). pose proof (zlen_nonneg (utf8_text l)).
        pose proof (zlen_nonneg k). lia. }
      destruct Hrd as [b ->]. cbn [obind]. rewrite (proj2 (Z.ltb_lt uLen _)), orb_true_r by lia.
      change (zlen (utf8_text [])) with 0. by rewrite Z.add_0_r.
    + specialize (IH (a ++ utf8_enc c) fuel index (uLen + 1) (zlen (utf8_enc c)) ltac:(simpl in Hf; lia) ltac:(lia)).
      rewrite zlen_app, <- app_assoc in IH. rewrite IH. f_equal.
      replace (Z.to_nat (index - uLen)) with (S (Z.to_nat (index - (uLen + 1)))) by lia. cbn [lookup list_lookup take].
      rewrite !zlen_text_cons. rewrite zlen_cons. change (list_lookup ?n l) with (l !! n).
      destruct (l !! Z.to_nat (index - (uLen + 1))); [do 2 f_equal; lia|].
      destruct l; do 2 f_equal; lia.
Qed.

Lemma utf8_next_text c d l k :
  utf8_char c -> utf8_char d ->
  utf8_next (Some (utf8_enc c ++ utf8_enc d ++ l ++ 0 :: k)) = Ok (Some (zlen (utf8_enc c)), zlen (utf8_enc d)).
Proof.
  intros Hc Hd. unfold utf8_next. set (m := utf8_enc c ++ utf8_enc d ++ l ++ 0 :: k).
  destruct (lead_not_inside c Hc) as (_ & Hc0 & _). destruct (lead_not_inside d Hd) as (_ & Hd0 & _).
  pose proof (scan_token_spec bad_back [] c (utf8_enc d ++ l ++ 0 :: k) Hc) as [E1 E2].
  pose proof (scan_token_spec bad_back (utf8_enc c) d (l ++ 0 :: k) Hd) as [E3 E4].
  cbn [app] in E1, E2. change (zlen (@nil Z)) with 0 in E1, E2. fold m in E1, E2, E3, E4.
  rewrite E1. cbn [obind]. rewrite (proj2 (Z.eqb_neq _ _) Hc0).
  assert (Hm : exists n, length m = S n) by (by eexists). destruct Hm as [n ->]. cbn [utf8_next_loop].
  rewrite E1. cbn [obind]. rewrite (proj2 (Z.eqb_neq _ _) Hc0), E2. cbn [obind negb andb]. rewrite Z.add_0_l, E3. cbn [obind].
  pose proof (utf8_enc_pos d Hd). rewrite (proj2 (Z.eqb_neq _ _) Hd0), E4. cbn [obind negb andb].
  rewrite (proj2 (Z.ltb_lt 0 _)), (proj2 (Z.leb_le _ 4)) by lia. cbn [andb]. do 3 f_equal. lia.
Qed.

(** C31: measuring and indexing.  In a terminated text of characters, valid
    and not empty: [utf8_strlen] counts them, with or without checking, and
    with a number of bytes those that end within it; [utf8_at] finds the
    [i]-th character and its length, and nothing behind the last one; and
    [utf8_next] leads from it to the one after it. *)
Theorem utf8_index_correct l k i nbytes check :
  Forall utf8_char l -> l <> [] -> zlen (utf8_text l) <= INT_MAX -> 0 <= i <= INT_MAX -> nbytes <> 0 ->
  let text := utf8_text l ++ 0 :: k in
  utf8_strlen (Some text) = Ok (zlen l)
  /\ _e_utf8_strlen_etc (Some text) nbytes check
     = Ok (if nbytes <? 0 then zlen l else chars_within l (Z.min nbytes (zlen (utf8_text l))))
  /\ utf8_at (Some text) i
     = Ok (match l !! Z.to_nat i with
           | Some c => (Some (zlen (utf8_text (take (Z.to_nat i) l))), zlen (utf8_enc c))
           | None => (None, 0)
           end)
  /\ forall c d a b, l = a ++ c :: d :: b ->
     utf8_next (Some (drop (Z.to_nat (zlen (utf8_text a))) text)) = Ok (Some (zlen (utf8_enc c)), zlen (utf8_enc d)).
Proof.
  intros Hl Hne Hmax Hi Hn text.
  assert (Hall : chars_within l (zlen (utf8_text l)) = zlen l).
  { clear -Hl. induction Hl as [|c l Hc Hl IH]; [done|]. cbn [chars_within]. rewrite zlen_text_cons, zlen_cons.
    pose proof (zlen_nonneg (utf8_text l)). rewrite (proj2 (Z.leb_le _ _)) by lia.
    replace (zlen (utf8_enc c) + zlen (utf8_text l) - zlen (utf8_enc c)) with (zlen (utf8_text l)) by lia. lia. }
  split; [|split; [|split]].
  - unfold utf8_strlen, utf8_strlen_etc, text. rewrite utf8_strlen_text by done. by change (-1 <? 0) with true; cbv iota; rewrite Hall.
  - unfold text. rewrite utf8_strlen_text by done. destruct (nbytes <? 0); [by rewrite Hall|done].
  - unfold utf8_at, text. rewrite (proj2 (Z.ltb_ge i 0)), strlen_cstr by (lia || by apply text_cstr). cbn [obind].
    pose proof (zlen_text_ge l Hl). destruct (Z.leb_spec (zlen (utf8_text l)) i).
    { rewrite lookup_ge_None_2; [done|]. unfold zlen in *. lia. }
    pose proof (at_loop_text k l Hl [] (S (length (utf8_text l ++ 0 :: k))) i 0 0) as E.
    cbn [app] in E. change (zlen (@nil Z)) with 0 in E. rewrite E; clear E;
      [|pose proof (length_text_ge l); rewrite length_app; lia|lia].
    rewrite Z.sub_0_r, Z.add_0_l. destruct (l !! Z.to_nat i) as [c|] eqn:Ec; cbn [obind].
    + assert (Hc : utf8_char c) by (by apply (Forall_lookup_1 _ _ _ _ Hl Ec)). pose proof (utf8_enc_pos c Hc).
      rewrite (proj2 (Z.eqb_eq i (i + 1 - 1))), (proj2 (Z.ltb_ge _ 0)) by lia.
      unfold u8. rewrite uwrap_id by lia. do 3 f_equal. lia.
    + apply lookup_ge_None_1 in Ec. rewrite (proj2 (Z.eqb_neq i _)); [done|]. unfold zlen. lia.
  - intros c d a b ->. unfold text. apply Forall_app in Hl as [_ Hl].
    apply Forall_cons_1 in Hl as [Hc Hl]. apply Forall_cons_1 in Hl as [Hd _].
    unfold utf8_text at 2. rewrite map_app, concat_app, <- app_assoc. fold (utf8_text a).
    unfold zlen at 1. rewrite Nat2Z.id, drop_app_length. cbn [map concat]. rewrite <- !app_assoc.
    by apply utf8_next_text.
Qed.

(** ** Where the conversions go wrong *)

(** [unicode_convert_to_utf8] chooses the length of a character by the unit
    behind it: the last character of a string becomes one byte of it, and one
    before a long one becomes three. *)
Lemma unicode_convert_to_utf8_next_unit :
  unicode_convert_to_utf8 (S:=list Z) (fun _ => true) (Some [0x4e2d; 0]) (-1) = Ok (Some [0x2d; 0])
  /\ unicode_convert_to_utf8 (S:=list Z) (fun _ => true) (Some [65; 0x4e2d; 65; 0]) (-1)
     = Ok (Some [0xe0; 0x81; 0x81; 0x2d; 65; 0]).
Proof. split; reflexivity. Qed.

(** The high half of a character beyond 0xffff is lost. *)
Lemma unicode_convert_to_utf8_surrogates :
  utf16_text [0x1f600] = [0xd83d; 0xde00]
  /\ unicode_convert_to_utf8 (S:=list Z) (fun _ => true) (Some [0xd83d; 0xde00; 0]) (-1)
     = Ok (Some (utf8_text [0x90200] ++ [0])).
Proof. split; reflexivity. Qed.

(** [unicode_convert_to_utf32] counts such a character twice: it leaves a gap
    in the result and writes behind it. *)
Lemma unicode_convert_to_utf32_overruns :
  unicode_convert_to_utf32 (fun _ => true) (Some [0xd83d; 0xde00; 0]) (-1) = Fault
  /\ unicode_convert_to_utf32 (fun _ => true) (Some [0xd83d; 0xde00; 0]) 2
     = Ok (Some [Some 0x90200; None; Some 0]).
Proof. split; reflexivity. Qed.

(** NULL is tested after it was measured. *)
Lemma utf8_strlen_null : utf8_strlen None = Fault /\ utf8_convert_to_utf32 (fun _ => true) None 1 = Fault.
Proof. split; reflexivity. Qed.

(** ** The theorems at a concrete text *)

Definition sample : list Z := [65; 0x20ac; 0x1f600].

Lemma sample_chars : Forall utf8_char sample.
Proof. repeat constructor. Qed.

Lemma utf_round_trip_witness :
  utf32_convert_to_utf8 (S:=list Z) (fun _ => true) (Some (sample ++ [0])) (-1) = Ok (Some (utf8_text sample ++ [0]))
  /\ utf8_convert_to_utf32 (fun _ => true) (Some (utf8_text sample ++ [0])) 8 = Ok (Some (sample ++ [0])).
Proof.
  destruct (utf_round_trip (list Z) (fun _ => true) sample (-1) 8 sample_chars) as (H1 & H2 & _);
    [left; lia|split; vm_compute; discriminate|reflexivity|].
  split; [exact H1|exact H2].
Defined.

Lemma utf8_convert_safe_witness :
  utf8_convert_to_utf32 (fun n => n <? 2 ^ 63) (Some (utf8_text sample ++ [0])) (-1) = Fault
  /\ exists r, utf8_convert_to_utf32 (fun n => n <? 2 ^ 63) (Some ([0xe2; 0x82] ++ [0])) 5 = Ok r.
Proof.
  assert (Hno : forall n, 2 ^ 63 <= n -> (n <? 2 ^ 63) = false) by (intros n Hn; by apply Z.ltb_ge).
  split.
  - destruct (utf8_convert_safe (fun n => n <? 2 ^ 63) (utf8_text sample) [] (-1) _ (or_intror eq_refl)) as (_ & H2 & _).
    + apply (bool_decide_eq_true_1 (cstr_ok (utf8_text sample))). reflexivity.
    + by vm_compute.
    + unfold INT_MIN, INT_MAX. lia.
    + exact Hno.
    + exact (H2 eq_refl).
  - destruct (utf8_convert_safe (fun n => n <? 2 ^ 63) [0xe2; 0x82] [] 5 _ (or_intror eq_refl)) as (H1 & _ & _).
    + apply (bool_decide_eq_true_1 (cstr_ok [0xe2; 0x82])). reflexivity.
    + by vm_compute.
    + unfold INT_MIN, INT_MAX. lia.
    + exact Hno.
    + destruct H1 as (r & E & _); [unfold INT_MAX; lia|]. exists r. exact E.
Defined.

Lemma utf8_index_correct_witness :
  utf8_strlen (Some (utf8_text sample ++ [0])) = Ok 3
  /\ utf8_at (Some (utf8_text sample ++ [0])) 2 = Ok (Some 4, 4)
  /\ _e_utf8_strlen_etc (Some (utf8_text sample ++ [0])) 5 false = Ok 2.
Proof.
  destruct (utf8_index_correct sample [] 2 5 false sample_chars) as (H1 & H2 & H3 & _);
    [discriminate|vm_compute; discriminate|split; vm_compute; discriminate|discriminate|].
  split; [exact H1|]. split; [exact H3|exact H2].
Defined.
