(* ===== verification/BString.v ===== *)
(** The strings of the support kit, [BString] (kits/support/String.cpp): the
    memory that strings share, and the management of it.

    A string is a pointer to its bytes; the object before them has a reference
    count and the length.  Strings with the same contents share one block
    until one of them is changed ([__MakeWritable]); a count of -1 marks a
    block that must not be shared.

    The model has a heap of blocks, so that a pointer to freed memory is an
    access to a block that is not there, a [Fault].  Bytes that were never
    stored are [None].  A member function takes the heap and the data pointer
    of its object, and returns both.  [owners_ok] is the invariant: a block's
    count is the number of strings that point to it, and every block has one. *)

From Stdlib Require Import ZArith Lia List Bool.
From stdpp Require Import base tactics list numbers gmap.
From S2P Require Import Prelude CText.
Local Open Scope Z_scope.
Local Open Scope c_scope.

(** ** The heap *)

Definition NULL : Z := 0.
Definition B_OK : Z := 0.
Definition B_NO_MEMORY : Z := INT_MIN.

(** The header, two [int32_t], and the bytes after it. *)
Record sblock : Type := SBlock {
  refs : option Z;
  dlen : option Z;
  data : list (option Z);
}.

Notation sheap := (gmap Z sblock).

Definition kPrivateDataOffset : Z := 2 * 4.

Definition set_refs (b : sblock) (n : Z) : sblock :=
  {| refs := Some n; dlen := dlen b; data := data b |}.
Definition set_dlen (b : sblock) (n : Z) : sblock :=
  {| refs := refs b; dlen := Some n; data := data b |}.
Definition set_data (b : sblock) (d : list (option Z)) : sblock :=
  {| refs := refs b; dlen := dlen b; data := d |}.

(** The block of a data pointer. *)
Definition blk (h : sheap) (p : Z) : outcome sblock :=
  match h !! (p - kPrivateDataOffset) with Some b => Ok b | None => Fault end.

Definition put (h : sheap) (p : Z) (b : sblock) : sheap := <[p - kPrivateDataOffset := b]> h.

Definition cell (c : option Z) : outcome Z :=
  match c with Some v => Ok v | None => Fault end.

(** *** BString::Private *)

Definition DataRefCount (h : sheap) (p : Z) : outcome Z := b <- blk h p;; cell (refs b).
Definition set_DataRefCount (h : sheap) (p n : Z) : outcome sheap :=
  b <- blk h p;; Ok (put h p (set_refs b n)).
Definition DataLength (h : sheap) (p : Z) : outcome Z := b <- blk h p;; cell (dlen b).
Definition set_DataLength (h : sheap) (p n : Z) : outcome sheap :=
  b <- blk h p;; Ok (put h p (set_dlen b n)).

(** [atomic_add(&DataRefCount(p), d)]: the value before. *)
Definition atomic_add_refs (h : sheap) (p d : Z) : outcome (sheap * Z) :=
  n <- DataRefCount h p;;
  h <- set_DataRefCount h p (i32 (n + d));;
  Ok (h, n).

(** [free(p - kPrivateDataOffset)] *)
Definition free (h : sheap) (p : Z) : outcome sheap :=
  _ <- blk h p;; Ok (delete (p - kPrivateDataOffset) h).

Definition IncrementDataRefCount (h : sheap) (p : Z) : outcome sheap :=
  if negb (p =? NULL) then let! (h, _) := atomic_add_refs h p 1 in Ok h else Ok h.

Definition DecrementDataRefCount (h : sheap) (p : Z) : outcome sheap :=
  if negb (p =? NULL) then
    let! (h, n) := atomic_add_refs h p (-1) in
    if n =? 1 then free h p else Ok h
  else Ok h.

(** The constructor for [PRIVATE_DATA]. *)
Definition BString_private (h : sheap) (privateData : Z) : outcome (sheap * Z) :=
  if negb (privateData =? NULL)
  then let! (h, _) := atomic_add_refs h privateData 1 in Ok (h, privateData)
  else Ok (h, privateData).

Definition StringFromData (h : sheap) (p : Z) : outcome (sheap * Z) := BString_private h p.

(** ** What the strings are built on

    [malloc] and [realloc] answer with an address for a request of [n] bytes;
    [pos_realloc] says whether the list of positions (BStringReplace.v) gets
    room for [n].
    [Length] and [String] are members that the repository declares and does
    not define; they return the length in the header and the data pointer. *)

Class Memory := {
  malloc_at : sheap -> Z -> option Z;
  realloc_at : sheap -> Z -> Z -> option Z;
  pos_realloc : Z -> bool;
}.

Class MemoryOk `{Memory} : Prop := {
  malloc_fresh h n a : malloc_at h n = Some a -> 0 < a /\ h !! a = None;
  realloc_fresh h a n q : realloc_at h a n = Some q -> 0 < q /\ (q = a \/ h !! q = None);
}.

Class Members := {
  Length : sheap -> Z -> outcome Z;
  String : Z -> Z;
}.

Class MembersOk `{Members} : Prop := {
  Length_block h p b n : blk h p = Ok b -> dlen b = Some n -> 0 <= n -> Length h p = Ok n;
  Length_null h : blk h NULL = Fault -> Length h NULL = Ok 0;
  String_data p : String p = p;
}.

(** ** C strings

    A [const char*] points into an object of its own or to the bytes of a
    string. *)

Inductive cptr : Type :=
| CNull
| Ext (m : list Z) (off : Z)
| In (p off : Z).

Definition lit (s : list Z) : cptr := Ext (s ++ [0]) 0.

(** [c + n] *)
Definition cadd (c : cptr) (n : Z) : cptr :=
  match c with CNull => CNull | Ext m off => Ext m (off + n) | In p off => In p (off + n) end.

Definition is_null (c : cptr) : bool := match c with CNull => true | _ => false end.

Definition from {A} (m : list A) (off : Z) : outcome (list A) :=
  if (off <? 0) || (zlen m <? off) then Fault else Ok (drop (Z.to_nat off) m).

(** The bytes from a pointer to the end of its object. *)
Definition cells (h : sheap) (c : cptr) : outcome (list (option Z)) :=
  match c with
  | CNull => Fault
  | Ext m off => m <- from m off;; Ok (map Some m)
  | In p off => b <- blk h p;; from (data b) off
  end.

(** Those that can be read one after the other. *)
Fixpoint known (l : list (option Z)) : list Z :=
  match l with Some b :: l => b :: known l | _ => [] end.

Definition text (h : sheap) (c : cptr) : outcome (list Z) := l <- cells h c;; Ok (known l).

(** The bytes before the terminator. *)
Fixpoint until_nul (m : list Z) : outcome (list Z) :=
  match m with
  | [] => Fault
  | b :: m => if b =? 0 then Ok [] else s <- until_nul m;; Ok (b :: s)
  end.

Definition cstr (h : sheap) (c : cptr) : outcome (list Z) := m <- text h c;; until_nul m.

Definition c_strlen (h : sheap) (c : cptr) : outcome Z := m <- text h c;; strlen m.

Fixpoint strnlen (m : list Z) (n : nat) {struct n} : outcome Z :=
  match n with
  | O => Ok 0
  | S n =>
    match m with
    | [] => Fault
    | b :: m => if b =? 0 then Ok 0 else k <- strnlen m n;; Ok (1 + k)
    end
  end.

(** What [strncpy] stores for [n] bytes of a source. *)
Fixpoint strncpy_bytes (m : list Z) (n : nat) {struct n} : outcome (list Z) :=
  match n with
  | O => Ok []
  | S n' =>
    match m with
    | [] => Fault
    | b :: m => if b =? 0 then Ok (replicate n 0) else s <- strncpy_bytes m n';; Ok (b :: s)
    end
  end.

(** [n] bytes at offset [i] of the string [p] and from [c] on have some in
    common. *)
Definition overlap (p i : Z) (c : cptr) (n : Z) : bool :=
  match c with In q off => (p =? q) && (off <? i + n) && (i <? off + n) | _ => false end.

Definition store (h : sheap) (p i : Z) (bs : list (option Z)) : outcome sheap :=
  b <- blk h p;; d <- wrn (data b) i bs;; Ok (put h p (set_data b d)).

(** The functions of the C library with [p + i] as destination.  No bytes are
    copied from anywhere; a negative count is a huge [size_t]. *)
Definition memcpy (h : sheap) (p i : Z) (c : cptr) (n : Z) : outcome sheap :=
  if n =? 0 then Ok h
  else if overlap p i c n then Fault
  else src <- cells h c;; x <- rdn src 0 n;; store h p i x.

Definition memmove (h : sheap) (p i j n : Z) : outcome sheap :=
  b <- blk h p;; x <- rdn (data b) j n;; store h p i x.

Definition memset (h : sheap) (p i c n : Z) : outcome sheap :=
  if n <? 0 then Fault else store h p i (replicate (Z.to_nat n) (Some (u8 c))).

Definition strncpy (h : sheap) (p i : Z) (c : cptr) (n : Z) : outcome sheap :=
  if (n <? 0) || overlap p i c n then Fault
  else src <- text h c;; x <- strncpy_bytes src (Z.to_nat n);; store h p i (map Some x).

(** ** Helper functions *)

Definition min_clamp0 (num1 num2 : Z) : Z :=
  if num1 <? num2 then if 0 <? num1 then num1 else 0
  else if 0 <? num2 then num2 else 0.

Definition safestr (string : cptr) : cptr := if is_null string then lit [] else string.

Definition strlen_clamp (h : sheap) (string : cptr) (max : Z) : outcome Z :=
  if max <=? 0 then Ok 0 else m <- text h string;; strnlen m (Z.to_nat max).

Definition string_length (h : sheap) (string : cptr) : outcome Z :=
  if is_null string then Ok 0 else c_strlen h string.

(** A [const BString&] argument: the object itself, whose pointer changes with
    it, or another one, whose data pointer may be the same. *)
Inductive sref : Type := Self | Other (q : Z).

Definition data_of (p : Z) (string : sref) : Z := match string with Self => p | Other q => q end.

(** ** Management *)

Section Management.
Context `{Memory} `{Members}.

Definition __ReferenceCount := DataRefCount.

Definition __IsShareable (h : sheap) (p : Z) : outcome bool :=
  if p =? NULL then Ok false else n <- __ReferenceCount h p;; Ok (0 <=? n).

Definition __SetLength (h : sheap) (p length : Z) : outcome sheap :=
  set_DataLength h p (Z.land length 0x7fffffff).

Definition __FreePrivateData (h : sheap) (p : Z) : outcome (sheap * Z) :=
  if negb (p =? NULL) then h <- free h p;; Ok (h, NULL) else Ok (h, p).

Definition __Allocate (h : sheap) (length : Z) : outcome (sheap * Z) :=
  if length <? 0 then Ok (h, NULL)
  else
    let size := u32 (length + kPrivateDataOffset + 1) in
    match malloc_at h size with
    | None => Ok (h, NULL)
    | Some a =>
      let newData := a + kPrivateDataOffset in
      let h := put h newData (SBlock None None (replicate (Z.to_nat (size - kPrivateDataOffset)) None)) in
      h <- store h newData length [Some 0];;
      h <- set_DataRefCount h newData 1;;
      h <- set_DataLength h newData (Z.land length 0x7fffffff);;
      Ok (h, newData)
    end.

Definition __Clone (h : sheap) (c : cptr) (length : Z) : outcome (sheap * Z) :=
  let! (h, newData) := __Allocate h length in
  if newData =? NULL then Ok (h, NULL)
  else if negb (is_null c) && (0 <? length) then
    h <- strncpy h newData 0 c length;; Ok (h, newData)
  else Ok (h, newData).

(** The data pointer, and the one that is returned. *)
Definition __Resize (h : sheap) (p length : Z) : outcome (sheap * Z * Z) :=
  n <- __ReferenceCount h p;;
  cassert ((n =? 1) || (n =? -1));;;
  len <- Length h p;;
  if length =? len then Ok (h, p, p)
  else
    let length := if length <? 0 then 0 else length in
    let size := u32 (length + kPrivateDataOffset + 1) in
    b <- blk h p;;
    match realloc_at h (p - kPrivateDataOffset) size with
    | None => Ok (h, p, NULL)
    | Some a =>
      let cap := Z.to_nat (size - kPrivateDataOffset) in
      let d := take cap (data b) ++ replicate (cap - List.length (data b)) None in
      let h := delete (p - kPrivateDataOffset) h in
      let data := a + kPrivateDataOffset in
      let h := put h data (set_data b d) in
      h <- store h data length [Some 0];;
      h <- __SetLength h data length;;
      h <- set_DataRefCount h data 1;;
      Ok (h, data, data)
    end.

Definition __MakeWritable (h : sheap) (p : Z) : outcome (sheap * Z * Z) :=
  n <- __ReferenceCount h p;;
  if 1 <? n then
    len <- Length h p;;
    let! (h, newData) := __Clone h (In p 0) len in
    let! (h, n) := atomic_add_refs h p (-1) in
    let! (h, p) := (if n =? 1 then __FreePrivateData h p else Ok (h, p)) in
    if newData =? NULL then Ok (h, p, B_NO_MEMORY) else Ok (h, newData, B_OK)
  else Ok (h, p, B_OK).

Definition __MakeWritable_to (h : sheap) (p length : Z) (copy : bool) : outcome (sheap * Z * Z) :=
  n <- __ReferenceCount h p;;
  if 1 <? n then
    let! (h, newData) := (if copy then __Clone h (In p 0) length else __Allocate h length) in
    if newData =? NULL then Ok (h, p, B_NO_MEMORY)
    else
      let! (h, n) := atomic_add_refs h p (-1) in
      let! (h, _) := (if n =? 1 then __FreePrivateData h p else Ok (h, p)) in
      Ok (h, newData, B_OK)
  else
    let! (h, p, newData) := __Resize h p length in
    if newData =? NULL then Ok (h, p, B_NO_MEMORY) else Ok (h, newData, B_OK).

Definition __Init (h : sheap) (src : cptr) (length : Z) : outcome (sheap * Z) :=
  let! (h, p) := __Clone h src length in
  if p =? NULL then __Clone h CNull 0 else Ok (h, p).

(** ** Construction and destruction *)

Definition BString_new (h : sheap) : outcome (sheap * Z) := __Init h (lit []) 0.

Definition BString_cstr (h : sheap) (string : cptr) : outcome (sheap * Z) :=
  n <- c_strlen h (safestr string);; __Init h string (i32 n).

Definition BString_copy (h : sheap) (string : Z) : outcome (sheap * Z) :=
  s <- __IsShareable h string;;
  if (s : bool) then let! (h, _) := atomic_add_refs h string 1 in Ok (h, string)
  else n <- Length h string;; __Init h (In (String string) 0) n.

Definition BString_max (h : sheap) (string : cptr) (maxLength : Z) : outcome (sheap * Z) :=
  n <- strlen_clamp h (safestr string) maxLength;; __Init h string n.

Definition BString_delete (h : sheap) (p : Z) : outcome sheap :=
  s <- __IsShareable h p;;
  if negb s then let! (h, _) := __FreePrivateData h p in Ok h
  else
    let! (h, n) := atomic_add_refs h p (-1) in
    if n =? 1 then let! (h, _) := __FreePrivateData h p in Ok h else Ok h.

(** ** Assignment *)

Definition SetTo (h : sheap) (p : Z) (string : cptr) (maxLength : Z) : outcome (sheap * Z) :=
  let maxLength := if maxLength <? 0 then INT_MAX else maxLength in
  maxLength <- strlen_clamp h (safestr string) maxLength;;
  let! (h, p, st) := __MakeWritable_to h p maxLength false in
  if st =? B_OK then h <- memcpy h p 0 string maxLength;; Ok (h, p) else Ok (h, p).

Definition SetTo_string (h : sheap) (p string : Z) : outcome (sheap * Z) :=
  if p =? string then Ok (h, p)
  else
    s <- __IsShareable h p;;
    let! (h, freeData) :=
      (if (s : bool) then let! (h, n) := atomic_add_refs h p (-1) in Ok (h, negb (1 <? n))
       else Ok (h, true)) in
    let! (h, p) := (if (freeData : bool) then __FreePrivateData h p else Ok (h, p)) in
    s <- __IsShareable h string;;
    if (s : bool) then let! (h, _) := atomic_add_refs h string 1 in Ok (h, string)
    else n <- Length h string;; __Init h (In (String string) 0) n.

Definition SetTo_string_max (h : sheap) (p : Z) (string : sref) (maxLength : Z) : outcome (sheap * Z) :=
  let maxLength := if maxLength <? 0 then INT_MAX else maxLength in
  len <- Length h p;;
  if negb (p =? data_of p string) || ((p =? data_of p string) && (maxLength <? len)) then
    slen <- Length h (data_of p string);;
    let maxLength := min_clamp0 maxLength slen in
    let! (h, p, st) := __MakeWritable_to h p maxLength false in
    if st =? B_OK then
      h <- memcpy h p 0 (In (String (data_of p string)) 0) maxLength;; Ok (h, p)
    else Ok (h, p)
  else Ok (h, p).

Definition SetTo_char (h : sheap) (p c count : Z) : outcome (sheap * Z) :=
  let count := if count <? 0 then 0 else count in
  let! (h, p, st) := __MakeWritable_to h p count false in
  if st =? B_OK then h <- memset h p 0 c count;; Ok (h, p) else Ok (h, p).

Definition assign_string := SetTo_string.

Definition assign_cstr (h : sheap) (p : Z) (string : cptr) : outcome (sheap * Z) :=
  let string := if is_null string then lit [] else string in
  if negb (match string with In q 0 => q =? String p | _ => false end)
  then n <- c_strlen h string;; SetTo h p string (i32 n)
  else Ok (h, p).

Definition assign_char (h : sheap) (p c : Z) : outcome (sheap * Z) := SetTo_char h p c 1.

End Management.

(** ** The invariant *)

(** How often a block is pointed to. *)
Definition cnt (p : Z) (O : list Z) : Z := zlen (filter (.= p) O).

(** A block with [n] owners. *)
Definition good (b : sblock) (n : Z) : Prop :=
  0 < n <= INT_MAX /\ (refs b = Some n \/ refs b = Some (-1) /\ n = 1) /\
  exists len, dlen b = Some len /\ 0 <= len <= INT_MAX /\ data b !! Z.to_nat len = Some (Some 0).

(** Every block has as many owners as it says, and every owner has a block. *)
Definition owners_ok (h : sheap) (O : list Z) : Prop :=
  forall p, match blk h p with
            | Ok b => kPrivateDataOffset < p /\ good b (cnt p O)
            | _ => cnt p O = 0
            end.

(** [p] has one owner, apart from the others [F]. *)
Definition sole (h : sheap) (p : Z) (F : list Z) (b : sblock) : Prop :=
  owners_ok h (p :: F) /\ ~ p ∈ F /\ blk h p = Ok b.

(** What others see of their strings stays. *)
Definition keeps (h h' : sheap) (F : list Z) : Prop :=
  forall q b, q ∈ F -> blk h q = Ok b ->
    exists b', blk h' q = Ok b' /\ dlen b' = dlen b /\ data b' = data b.

(** The string [s] is what [p] points to. *)
Definition holds (h : sheap) (p : Z) (s : list Z) : Prop :=
  cstr_ok s /\ exists b rest, blk h p = Ok b /\ dlen b = Some (zlen s) /\
    data b = map Some s ++ Some 0 :: rest.

(** Memory that ran out. *)
Definition exhausted `{Memory} : Prop :=
  (exists h n, malloc_at h n = None) \/ (exists h a n, realloc_at h a n = None)
  \/ exists n, pos_realloc n = false.

(** *** Blocks *)

Lemma blk_put h p b : blk (put h p b) p = Ok b.
Proof. unfold blk, put. by rewrite lookup_insert_eq. Qed.

Lemma blk_put_ne h p q b : q <> p -> blk (put h p b) q = blk h q.
Proof. intros. unfold blk, put. rewrite lookup_insert_ne; [done|lia]. Qed.

Lemma put_put h p b b' : put (put h p b) p b' = put h p b'.
Proof. unfold put. by rewrite insert_insert_eq. Qed.

Lemma blk_cases h p : (exists b, blk h p = Ok b) \/ blk h p = Fault.
Proof. unfold blk. destruct (h !! _); eauto. Qed.

Lemma blk_delete h p : blk (delete (p - kPrivateDataOffset) h) p = Fault.
Proof. unfold blk. by rewrite lookup_delete_eq. Qed.

Lemma blk_delete_ne h p q : q <> p -> blk (delete (p - kPrivateDataOffset) h) q = blk h q.
Proof. intros. unfold blk. rewrite lookup_delete_ne; [done|lia]. Qed.

(** *** Owners *)

Lemma cnt_cons p q O : cnt p (q :: O) = (if decide (q = p) then 1 else 0) + cnt p O.
Proof. unfold cnt. rewrite filter_cons. destruct (decide _); rewrite ?zlen_cons; lia. Qed.

Lemma cnt_nonneg p O : 0 <= cnt p O.
Proof. apply zlen_nonneg. Qed.

Lemma cnt_elem p O : p ∈ O <-> 0 < cnt p O.
Proof.
  unfold cnt. induction O as [|q O IH]; [rewrite filter_nil; split; [by inversion 1|change (zlen (@nil Z)) with 0; lia]|].
  rewrite elem_of_cons, filter_cons, IH. pose proof (cnt_nonneg p O). unfold cnt in *.
  destruct (decide (q = p)); rewrite ?zlen_cons; [subst; split; [lia|by left]|].
  split; [intros [->|?]; [done|lia]|by right].
Qed.

Lemma cnt_not p O : ~ p ∈ O <-> cnt p O = 0.
Proof. rewrite cnt_elem. pose proof (cnt_nonneg p O). lia. Qed.

#[export] Instance zlen_proper {A} : Proper ((≡ₚ) ==> eq) (@zlen A).
Proof. intros l l' E. unfold zlen. by rewrite E. Qed.

#[export] Instance cnt_proper p : Proper ((≡ₚ) ==> eq) (cnt p).
Proof. intros O O' E. unfold cnt, zlen. by rewrite E. Qed.

#[export] Instance owners_ok_proper h : Proper ((≡ₚ) ==> iff) (owners_ok h).
Proof.
  intros O O' E. unfold owners_ok. apply forall_proper. intros p.
  destruct (blk h p); by rewrite E.
Qed.

Lemma owners_block h O p : owners_ok h O -> p ∈ O ->
  exists b, blk h p = Ok b /\ kPrivateDataOffset < p /\ good b (cnt p O).
Proof.
  intros Ho Hp. specialize (Ho p). destruct (blk_cases h p) as [[b E]|E]; rewrite E in Ho; [eauto|].
  apply cnt_elem in Hp. lia.
Qed.

Lemma keeps_refl h F : keeps h h F.
Proof. intros q b _ E. eauto. Qed.

Lemma keeps_trans h h' h'' F : keeps h h' F -> keeps h' h'' F -> keeps h h'' F.
Proof.
  intros H1 H2 q b Hq E. destruct (H1 q b Hq E) as (b1 & E1 & L1 & D1).
  destruct (H2 q b1 Hq E1) as (b2 & E2 & L2 & D2). exists b2. by rewrite E2, L2, D2, L1, D1.
Qed.

Lemma keeps_incl h h' F F' : keeps h h' F -> (forall q, q ∈ F' -> q ∈ F) -> keeps h h' F'.
Proof. intros Hk Hi q b Hq. apply Hk. auto. Qed.

Lemma keeps_holds h h' F q s : keeps h h' F -> q ∈ F -> holds h q s -> holds h' q s.
Proof.
  intros Hk Hq (Hs & b & rest & E & L & D). destruct (Hk q b Hq E) as (b' & E' & L' & D').
  split; [done|]. exists b', rest. by rewrite L', D'.
Qed.

Lemma keeps_put h p b F : ~ p ∈ F -> keeps h (put h p b) F.
Proof. intros Hp q b0 Hq E. exists b0. rewrite blk_put_ne by (by intros ->). eauto. Qed.

(** Only the count changes. *)
Lemma keeps_refs h p b n F : blk h p = Ok b -> keeps h (put h p (set_refs b n)) F.
Proof.
  intros E q b0 Hq E0. destruct (decide (q = p)) as [->|Hne].
  - rewrite blk_put. rewrite E in E0. injection E0 as <-. eauto.
  - rewrite blk_put_ne by done. eauto.
Qed.

Lemma holds_unique h p s s' : holds h p s -> holds h p s' -> s = s'.
Proof.
  intros (_ & b & r & E & L & D) (_ & b' & r' & E' & L' & D'). rewrite E in E'. injection E' as <-.
  rewrite L in L'. injection L' as L'. rewrite D in D'. apply app_inj_1 in D' as [D' _].
  - by apply (inj (map Some)) in D'.
  - rewrite !length_map. unfold zlen in L'. lia.
Qed.

(** *** Changes of the owners *)

Lemma sole_put h p F b b' : sole h p F b -> good b' 1 -> sole (put h p b') p F b' /\ keeps h (put h p b') F.
Proof.
  intros (Ho & Hp & E) Hg. split; [|by apply keeps_put]. split; [|split; [done|apply blk_put]].
  intros q. specialize (Ho q). destruct (decide (q = p)) as [->|Hne].
  - rewrite blk_put. rewrite E in Ho. split; [apply Ho|].
    rewrite cnt_cons, decide_True, (proj1 (cnt_not p F)) by done. done.
  - by rewrite blk_put_ne.
Qed.

Lemma owners_new h O q b : owners_ok h O -> blk h q = Fault -> kPrivateDataOffset < q -> good b 1 ->
  sole (put h q b) q O b /\ keeps h (put h q b) O.
Proof.
  intros Ho Hq Hlt Hg. assert (Hn : ~ q ∈ O) by (apply cnt_not; specialize (Ho q); by rewrite Hq in Ho).
  split; [|by apply keeps_put]. split; [|split; [done|apply blk_put]].
  intros r. specialize (Ho r). destruct (decide (r = q)) as [->|Hne].
  - rewrite blk_put. split; [done|]. by rewrite cnt_cons, decide_True, (proj1 (cnt_not q O)).
  - rewrite blk_put_ne, cnt_cons, decide_False by done. done.
Qed.

Lemma owners_free h p F b : sole h p F b ->
  owners_ok (delete (p - kPrivateDataOffset) h) F /\ keeps h (delete (p - kPrivateDataOffset) h) F.
Proof.
  intros (Ho & Hp & E). split.
  - intros q. specialize (Ho q). destruct (decide (q = p)) as [->|Hne].
    + rewrite blk_delete. by apply cnt_not.
    + rewrite blk_delete_ne by done. by rewrite cnt_cons, decide_False in Ho.
  - intros q b0 Hq E0. exists b0. rewrite blk_delete_ne by (by intros ->). eauto.
Qed.

Lemma shared_refs h p F b : owners_ok h (p :: F) -> blk h p = Ok b -> p ∈ F ->
  refs b = Some (cnt p F + 1) /\ 0 < cnt p F /\ cnt p F + 1 <= INT_MAX.
Proof.
  intros Ho E Hp. specialize (Ho p). rewrite E, cnt_cons, decide_True in Ho by done.
  apply cnt_elem in Hp. destruct Ho as (_ & Hn & [Hr|[_ Hr]] & _); [|lia].
  rewrite Hr. split; [f_equal; lia|lia].
Qed.

Lemma owners_drop h p F b : owners_ok h (p :: F) -> blk h p = Ok b -> p ∈ F ->
  owners_ok (put h p (set_refs b (cnt p F))) F.
Proof.
  intros Ho E Hp. destruct (shared_refs h p F b Ho E Hp) as (Hr & Hc & Hm).
  intros q. specialize (Ho q). rewrite cnt_cons in Ho. destruct (decide (q = p)) as [->|Hne].
  - rewrite blk_put. rewrite E, decide_True in Ho by done. destruct Ho as (Hlt & Hn & _ & Hl).
    split; [done|]. split; [lia|]. split; [by left|done].
  - rewrite blk_put_ne by done. by rewrite decide_False in Ho by done.
Qed.

Lemma owners_share h O p b n : owners_ok h O -> p ∈ O -> blk h p = Ok b -> refs b = Some n -> 0 <= n ->
  cnt p O < INT_MAX ->
  n = cnt p O /\ owners_ok (put h p (set_refs b (n + 1))) (p :: O).
Proof.
  intros Ho Hp E Hr Hn Hm. assert (Hc : n = cnt p O).
  { specialize (Ho p). rewrite E in Ho. destruct Ho as (_ & _ & [Hr'|[Hr' _]] & _); congruence || (rewrite Hr in Hr'; injection Hr'; lia). }
  split; [done|]. intros q. specialize (Ho q). rewrite cnt_cons. destruct (decide (p = q)) as [<-|Hne].
  - rewrite blk_put. rewrite E in Ho. destruct Ho as (Hlt & Hn' & _ & Hl). split; [done|].
    split; [lia|]. split; [left; simpl; f_equal; lia|done].
  - by rewrite blk_put_ne.
Qed.

(** ** C strings in memory *)

(** The string at [c]. *)
Definition reads (h : sheap) (c : cptr) (s : list Z) : Prop :=
  cstr_ok s /\ exists r, text h c = Ok (s ++ 0 :: r).

(** A pointer that changes to other strings do not touch. *)
Definition elsewhere (F : list Z) (c : cptr) : Prop :=
  match c with In q _ => q ∈ F | _ => True end.

Lemma known_app s r : known (map Some s ++ r) = s ++ known r.
Proof. induction s as [|b s IH]; simpl; [done|by rewrite IH]. Qed.

Lemma from_ok {A} (m : list A) i : 0 <= i <= zlen m -> from m i = Ok (drop (Z.to_nat i) m).
Proof. intros Hi. unfold from. bdecide. done. Qed.

Lemma from_inv {A} (m k : list A) i : from m i = Ok k -> 0 <= i <= zlen m /\ k = drop (Z.to_nat i) m.
Proof.
  unfold from. destruct (Z.ltb_spec i 0); [done|]. destruct (Z.ltb_spec (zlen m) i); [done|].
  intros [= <-]. split; [lia|done].
Qed.

Lemma cells_cadd h c l n : cells h c = Ok l -> 0 <= n <= zlen l ->
  cells h (cadd c n) = Ok (drop (Z.to_nat n) l).
Proof.
  intros E Hn. destruct c as [|m off|q off]; simpl in *; [done| |].
  - apply obind_ok in E as (k & Ef & [= <-]). apply from_inv in Ef as [Hi ->].
    rewrite zlen_map in Hn. unfold zlen in *. rewrite length_drop in Hn.
    rewrite from_ok by (unfold zlen; lia). simpl. f_equal. rewrite <- skipn_map, skipn_map.
    rewrite <- !skipn_map, drop_drop. do 2 f_equal. lia.
  - apply obind_ok in E as (b & Eb & E). rewrite Eb. simpl. apply from_inv in E as [Hi ->].
    unfold zlen in *. rewrite length_drop in Hn. rewrite from_ok by (unfold zlen; lia).
    rewrite drop_drop. do 2 f_equal. lia.
Qed.

Lemma known_drop l s r n : known l = s ++ r -> 0 <= n <= zlen s -> known (drop (Z.to_nat n) l) = drop (Z.to_nat n) s ++ r.
Proof.
  intros E Hn. assert (Hl : exists k, l = map Some s ++ k /\ r = known k).
  { clear Hn. revert l E. induction s as [|b s IH]; intros l E; [exists l; done|].
    destruct l as [|[b'|] l]; simpl in E; [done| |done]. injection E as -> E.
    destruct (IH l E) as (k & -> & ->). by exists k. }
  destruct Hl as (k & -> & ->). unfold zlen in Hn. rewrite drop_app_le by (rewrite length_map; lia).
  by rewrite skipn_map, known_app.
Qed.

Lemma known_len l : zlen (known l) <= zlen l.
Proof. induction l as [|[b|] l IH]; cbn [known]; zl. Qed.

(** Advancing inside a string. *)
Lemma reads_cadd h c s n : reads h c s -> 0 <= n <= zlen s -> reads h (cadd c n) (drop (Z.to_nat n) s).
Proof.
  intros (Hs & r & E) Hn. split; [by apply Forall_drop|]. exists r. unfold text in *.
  apply obind_ok in E as (l & El & [= E]). pose proof (known_len l) as Hl. rewrite E, zlen_app in Hl.
  erewrite cells_cadd by (done || zl). simpl. f_equal. by apply known_drop.
Qed.

Lemma keeps_cells h h' F c l : keeps h h' F -> elsewhere F c -> cells h c = Ok l -> cells h' c = Ok l.
Proof.
  intros Hk Hc. destruct c as [|m off|q off]; simpl in *; [done|done|].
  intros E. apply obind_ok in E as (b & Eb & E). destruct (Hk q b Hc Eb) as (b' & -> & _ & D).
  simpl. by rewrite D.
Qed.

Lemma keeps_reads h h' F c s : keeps h h' F -> elsewhere F c -> reads h c s -> reads h' c s.
Proof.
  intros Hk Hc (Hs & r & E). split; [done|]. exists r. unfold text in *.
  apply obind_ok in E as (l & El & E). by rewrite (keeps_cells _ _ _ _ _ Hk Hc El).
Qed.

Lemma holds_text h p s b rest :
  blk h p = Ok b -> data b = map Some s ++ Some 0 :: rest -> text h (In p 0) = Ok (s ++ 0 :: known rest).
Proof.
  intros E D. unfold text, cells. rewrite E. simpl. rewrite from_ok by zl. simpl.
  rewrite drop_0, D. change (Some 0 :: rest) with (map Some [0] ++ rest). by rewrite app_assoc, <- map_app, known_app, <- app_assoc.
Qed.

Lemma holds_reads h p s : holds h p s -> reads h (In p 0) s.
Proof. intros (Hs & b & rest & E & L & D). split; [done|]. eexists. by eapply holds_text. Qed.

Lemma reads_lit h s : cstr_ok s -> reads h (lit s) s.
Proof.
  intros Hs. split; [done|]. exists []. unfold text, cells, lit. rewrite from_ok by zl. cbn [obind].
  rewrite drop_0. by rewrite <- (app_nil_r (map Some _)), known_app, app_nil_r.
Qed.

Lemma reads_not_null h c s : reads h c s -> is_null c = false.
Proof. intros (_ & r & E). by destruct c. Qed.

Lemma strlen_reads h c s : reads h c s -> c_strlen h c = Ok (zlen s).
Proof. intros (Hs & r & E). unfold c_strlen. rewrite E. simpl. by apply strlen_cstr. Qed.

Lemma strnlen_cstr s r n : cstr_ok s -> strnlen (s ++ 0 :: r) n = Ok (Z.min (Z.of_nat n) (zlen s)).
Proof.
  intros Hs. revert n. induction Hs as [|b s Hb Hs IH]; intros [|n]; cbn [app strnlen]; try (f_equal; zl).
  rewrite (proj2 (Z.eqb_neq b 0)) by lia. rewrite IH. cbn [obind]. f_equal. zl.
Qed.

Lemma strlen_clamp_reads h c s max : reads h c s ->
  strlen_clamp h c max = Ok (Z.max 0 (Z.min max (zlen s))).
Proof.
  intros (Hs & r & E). unfold strlen_clamp. destruct (Z.leb_spec max 0); [f_equal; zl|].
  rewrite E. cbn [obind]. rewrite strnlen_cstr by done. f_equal. zl.
Qed.

Lemma strncpy_cstr s r n : cstr_ok s ->
  strncpy_bytes (s ++ 0 :: r) n = Ok (take n s ++ replicate (n - length s) 0).
Proof.
  intros Hs. revert n. induction Hs as [|b s Hb Hs IH]; intros [|n]; try done.
  cbn [app strncpy_bytes]. rewrite (proj2 (Z.eqb_neq b 0)) by lia. by rewrite IH.
Qed.

Lemma until_nul_cstr s r : cstr_ok s -> until_nul (s ++ 0 :: r) = Ok s.
Proof.
  induction 1 as [|b s Hb Hs IH]; [done|]. cbn [app until_nul].
  rewrite (proj2 (Z.eqb_neq b 0)) by lia. by rewrite IH.
Qed.

Lemma cstr_reads h c s : reads h c s -> cstr h c = Ok s.
Proof. intros (Hs & r & E). unfold cstr. rewrite E. simpl. by apply until_nul_cstr. Qed.

Lemma reads_unique h c s s' : reads h c s -> reads h c s' -> s = s'.
Proof. intros E%cstr_reads E'%cstr_reads. rewrite E in E'. by injection E'. Qed.
