(* ===== verification/BStringShare.v ===== *)
(** Copy on write: what the management of [BString] (kits/support/String.cpp)
    does to the blocks that strings share.

    Each theorem has the strings that are not the object, [F], as a frame: they
    keep their contents, and the counts stay right ([owners_ok]).  A function
    that changes its object first makes it the only owner of its block
    ([owned]), or says that memory has run out. *)

From Stdlib Require Import ZArith Lia List Bool.
From stdpp Require Import base tactics list numbers gmap.
From S2P Require Import Prelude CText BString.
Local Open Scope Z_scope.
Local Open Scope c_scope.

(** [p] is the only pointer to its block, which says that the length is [len]
    and has the bytes [d]. *)
Definition owned (h : sheap) (p : Z) (F : list Z) (len : Z) (d : list (option Z)) : Prop :=
  exists b, sole h p F b /\ dlen b = Some len /\ data b = d.

(** A string among others. *)
Definition string_of (h : sheap) (p : Z) (F : list Z) (s : list Z) : Prop :=
  owners_ok h (p :: F) /\ holds h p s.

Lemma owned_text h p F s rest :
  owned h p F (zlen s) (map Some s ++ Some 0 :: rest) -> cstr_ok s -> string_of h p F s.
Proof.
  intros (b & (Ho & _ & E) & L & D) Hs. split; [done|]. split; [done|]. by exists b, rest.
Qed.

Lemma owned_good h p F len d : owned h p F len d ->
  0 <= len <= INT_MAX /\ d !! Z.to_nat len = Some (Some 0) /\ len < zlen d.
Proof.
  intros (b & (Ho & _ & E) & L & <-). specialize (Ho p). rewrite E in Ho.
  destruct Ho as (_ & _ & _ & n & L' & Hn & Hd). rewrite L in L'. injection L' as <-.
  split; [done|]. split; [done|]. apply lookup_lt_Some in Hd. unfold zlen. lia.
Qed.

Lemma string_len h p F s : string_of h p F s -> zlen s <= INT_MAX.
Proof.
  intros [Ho (_ & b & rest & E & L & _)]. specialize (Ho p). rewrite E in Ho.
  destruct Ho as (_ & _ & _ & n & L' & Hn & _). rewrite L in L'. injection L' as <-. lia.
Qed.

Lemma string_frame h h' p F s : keeps h h' F -> owners_ok h' (p :: F) -> holds h' p s -> string_of h' p F s.
Proof. done. Qed.

Section Share.
Context `{MemoryOk} `{MembersOk}.

Lemma Length_holds h p s : holds h p s -> Length h p = Ok (zlen s).
Proof. intros (_ & b & rest & E & L & _). eapply Length_block; [done..|apply zlen_nonneg]. Qed.

Lemma Length_owned h p F len d : owned h p F len d -> Length h p = Ok len.
Proof.
  intros Ho. pose proof (owned_good _ _ _ _ _ Ho) as (Hl & _). destruct Ho as (b & (_ & _ & E) & L & _).
  eapply Length_block; [done..|lia].
Qed.

(** *** Bytes *)

Lemma store_owned h p F len d i bs d' :
  owned h p F len d -> wrn d i bs = Ok d' -> d' !! Z.to_nat len = Some (Some 0) ->
  exists h', store h p i bs = Ok h' /\ owned h' p F len d' /\ keeps h h' F.
Proof.
  intros Ho Hw Hd. pose proof (owned_good _ _ _ _ _ Ho) as (Hl & _). destruct Ho as (b & Hs & L & <-).
  destruct (sole_put h p F b (set_data b d') Hs) as [Hs' Hk].
  { pose proof Hs as (Ho & Hp & E). specialize (Ho p). rewrite E, cnt_cons, decide_True in Ho by done.
    rewrite (proj1 (cnt_not p F)) in Ho by done. destruct Ho as (_ & Hn & Hr & _).
    split; [done|]. split; [done|]. by exists len. }
  unfold store. destruct Hs as (_ & _ & ->). simpl. rewrite Hw. simpl.
  exists (put h p (set_data b d')). split; [done|]. split; [|done]. by exists (set_data b d').
Qed.

Lemma land_int n : 0 <= n <= INT_MAX -> Z.land n 0x7fffffff = n.
Proof. intros Hn. change 0x7fffffff with (Z.ones 31). rewrite Z.land_ones by lia. apply Z.mod_small. unfold INT_MAX in Hn. lia. Qed.

Lemma size_u32 n : 0 <= n <= INT_MAX -> u32 (n + kPrivateDataOffset + 1) = n + 9.
Proof. intros Hn. unfold u32, kPrivateDataOffset, INT_MAX in *. rewrite uwrap_id; lia. Qed.

(** *** New blocks *)

Lemma Allocate_spec h O len :
  owners_ok h O -> 0 <= len <= INT_MAX ->
  (exists h' q, __Allocate h len = Ok (h', q) /\ q <> NULL
     /\ owned h' q O len (replicate (Z.to_nat len) None ++ [Some 0]) /\ keeps h h' O)
  \/ __Allocate h len = Ok (h, NULL) /\ exhausted.
Proof.
  intros Ho Hl. unfold __Allocate. rewrite (proj2 (Z.ltb_ge len 0)), size_u32 by lia.
  destruct (malloc_at h (len + 9)) as [a|] eqn:Ea; [|right; split; [done|left; eauto]]. left.
  destruct (malloc_fresh _ _ _ Ea) as [Ha Hn]. set (q := a + kPrivateDataOffset).
  assert (Hq : kPrivateDataOffset < q) by (unfold q; lia).
  assert (Eq : blk h q = Fault).
  { unfold blk, q. replace (a + kPrivateDataOffset - kPrivateDataOffset) with a by lia. by rewrite Hn. }
  set (d := replicate (Z.to_nat len) None ++ [Some 0]).
  set (b := SBlock (Some 1) (Some len) d).
  destruct (owners_new h O q b Ho Eq Hq) as [Hs Hk].
  { split; [unfold INT_MAX; lia|]. split; [by left|]. exists len. split; [done|]. split; [done|]. cbn.
    unfold d. rewrite lookup_app_r by (rewrite length_replicate; lia). by rewrite length_replicate, Nat.sub_diag. }
  exists (put h q b), q. split; [|split; [unfold NULL, kPrivateDataOffset in *; lia|split; [by exists b|done]]].
  unfold store. rewrite blk_put. cbn [obind data].
  replace (Z.to_nat (len + 9 - kPrivateDataOffset)) with (Z.to_nat len + 1)%nat by (unfold kPrivateDataOffset; lia).
  rewrite replicate_add. change (replicate 1 None) with [@None Z].
  rewrite <- (app_nil_r [None]), (wrn_mid _ _ [Some 0]).
  2: { unfold zlen. rewrite length_replicate. lia. }
  2: done.
  rewrite app_nil_r. fold d. cbn [obind]. unfold set_DataRefCount, set_DataLength.
  rewrite blk_put. cbn [obind]. rewrite blk_put. cbn [obind]. rewrite !put_put. do 3 f_equal.
  unfold set_dlen, set_refs, set_data, b. cbn. by rewrite land_int.
Qed.

Lemma replicate_some n : map Some (replicate n 0) = replicate n (Some 0).
Proof. induction n as [|n IH]; [done|]. simpl. by rewrite IH. Qed.

Lemma fill_none n bs : length bs = Z.to_nat n -> 0 <= n ->
  wrn (replicate (Z.to_nat n) None ++ [Some 0]) 0 bs = Ok (bs ++ [Some 0] : list (option Z)).
Proof.
  intros Hb Hn. rewrite <- (app_nil_l (_ ++ _)), (wrn_mid [] _ bs); [done|done|by rewrite length_replicate].
Qed.

(** What [__Clone] copies: up to [len] bytes, padded with zeros. *)
Definition cloned (s : list Z) (len : Z) : list Z :=
  take (Z.to_nat len) s ++ replicate (Z.to_nat len - length s) 0.

Lemma zlen_cloned s len : 0 <= len -> zlen (cloned s len) = len.
Proof. intros Hl. unfold cloned, zlen. rewrite length_app, length_take, length_replicate. lia. Qed.

Lemma cloned_id s : cloned s (zlen s) = s.
Proof.
  unfold cloned, zlen. rewrite Nat2Z.id, Nat.sub_diag, app_nil_r. apply take_ge. lia.
Qed.

Lemma overlap_elsewhere h q O b c i n : sole h q O b -> elsewhere O c -> overlap q i c n = false.
Proof.
  intros (_ & Hq & _) Hc. destruct c as [|m off|r off]; [done|done|]. simpl in *.
  rewrite (proj2 (Z.eqb_neq q r)); [done|]. by intros ->.
Qed.

Lemma Clone_spec h O c s len :
  owners_ok h O -> reads h c s -> elsewhere O c -> 0 <= len <= INT_MAX ->
  (exists h' q, __Clone h c len = Ok (h', q) /\ q <> NULL
     /\ owned h' q O len (map Some (cloned s len) ++ [Some 0]) /\ keeps h h' O)
  \/ __Clone h c len = Ok (h, NULL) /\ exhausted.
Proof.
  intros Ho Hc He Hl. unfold __Clone.
  destruct (Allocate_spec h O len Ho Hl) as [(h1 & q & -> & Hq & Hown & Hk)|[-> Hex]]; [|by right].
  left. cbn [obind]. rewrite (proj2 (Z.eqb_neq _ _) Hq). rewrite (reads_not_null h c s Hc). cbn [negb andb].
  pose proof (zlen_cloned s len (proj1 Hl)) as Hz.
  destruct (Z.ltb_spec 0 len) as [Hp|Hp].
  2: { exists h1, q. split; [done|]. split; [done|]. split; [|done].
       assert (len = 0) as -> by lia. destruct (cloned s 0); [done|zl]. }
  unfold strncpy. pose proof Hown as (b & Hs & _ & D).
  rewrite (overlap_elsewhere _ _ _ _ c 0 len Hs He), (proj2 (Z.ltb_ge len 0)) by lia. cbn [orb].
  destruct (keeps_reads h h1 O c s Hk He Hc) as (Hcs & r & ->). cbn [obind].
  rewrite strncpy_cstr by done. cbn [obind]. fold (cloned s len).
  destruct (store_owned h1 q O len _ 0 (map Some (cloned s len)) (map Some (cloned s len) ++ [Some 0]) Hown)
    as (h2 & -> & Hown2 & Hk2).
  - apply fill_none; [|lia]. rewrite length_map. unfold zlen in Hz. lia.
  - rewrite lookup_app_r by (rewrite length_map; unfold zlen in Hz; lia). rewrite length_map.
    replace (Z.to_nat len - length (cloned s len))%nat with 0%nat by (unfold zlen in Hz; lia). done.
  - exists h2, q. split; [done|]. split; [done|]. split; [done|]. by eapply keeps_trans.
Qed.

(** *** Resizing *)

(** The first [n] bytes, with bytes that nobody stored after the end. *)
Definition first_bytes (d : list (option Z)) (n : Z) : list (option Z) :=
  take (Z.to_nat n) (d ++ replicate (Z.to_nat n - length d) None).

Lemma zlen_first_bytes d n : 0 <= n -> zlen (first_bytes d n) = n.
Proof. intros Hn. unfold first_bytes, zlen. rewrite length_take, length_app, length_replicate. lia. Qed.

Lemma first_bytes_text s r n :
  exists x, first_bytes (map Some s ++ r) n = map Some (take (Z.to_nat n) s) ++ x.
Proof.
  unfold first_bytes. rewrite <- app_assoc. destruct (le_lt_dec (Z.to_nat n) (length s)) as [Hn|Hn].
  - exists []. rewrite take_app_le by (rewrite length_map; lia). by rewrite firstn_map, app_nil_r.
  - rewrite take_app_ge by (rewrite length_map; lia). rewrite (take_ge s) by lia. eauto.
Qed.

Lemma owned_split h p F len d : owned h p F len d ->
  exists rest, d = first_bytes d len ++ Some 0 :: rest.
Proof.
  intros Ho. destruct (owned_good _ _ _ _ _ Ho) as (Hl & Hd & Hlt). exists (drop (S (Z.to_nat len)) d).
  unfold first_bytes. rewrite take_app_le by (unfold zlen in Hlt; lia). symmetry. by apply take_drop_middle.
Qed.

Lemma sole_refs h p F b : sole h p F b -> refs b = Some 1 \/ refs b = Some (-1).
Proof.
  intros (Ho & Hp & E). specialize (Ho p). rewrite E, cnt_cons, decide_True in Ho by done.
  rewrite (proj1 (cnt_not p F)) in Ho by done. destruct Ho as (_ & _ & [Hr|[Hr _]] & _); auto.
Qed.

Lemma realloc_store d n :
  0 <= n ->
  wrn (take (Z.to_nat (n + 1)) d ++ replicate (Z.to_nat (n + 1) - length d) None) n [Some 0]
  = Ok (first_bytes d n ++ [Some 0]).
Proof.
  intros Hn. unfold wrn. assert (Hz : zlen (take (Z.to_nat (n + 1)) d ++ replicate (Z.to_nat (n + 1) - length d) None) = n + 1).
  { unfold zlen. rewrite length_app, length_take, length_replicate. lia. }
  rewrite Hz. change (zlen [Some 0]) with 1. rewrite (proj2 (Z.ltb_ge n 0)), (proj2 (Z.ltb_ge _ _)) by lia. cbn [orb].
  rewrite (drop_ge (_ ++ _)) by (unfold zlen in Hz; cbn [length]; lia). rewrite app_nil_r. do 2 f_equal.
  unfold first_bytes. replace (Z.to_nat (n + 1)) with (S (Z.to_nat n)) by lia. set (k := Z.to_nat n). clearbody k.
  destruct (le_lt_dec (S k) (length d)) as [Hk|Hk].
  - rewrite !take_app_le by (rewrite ?length_take; lia). by rewrite take_take, Nat.min_l by lia.
  - rewrite (take_ge d (S k)) by lia. rewrite !take_app_ge by lia. f_equal. by rewrite !take_replicate, !Nat.min_l by lia.
Qed.

Lemma buf_Resize_spec h p F len d n :
  owned h p F len d -> 0 <= n <= INT_MAX ->
  (exists h' q rest, __Resize h p n = Ok (h', q, q) /\ q <> NULL
     /\ owned h' q F n (first_bytes d n ++ Some 0 :: rest) /\ keeps h h' F)
  \/ __Resize h p n = Ok (h, p, NULL) /\ exhausted.
Proof.
  intros Ho Hn. unfold __Resize. rewrite (Length_owned _ _ _ _ _ Ho).
  pose proof Ho as (b & Hs & L & D). pose proof Hs as (Hok & Hp & E).
  assert (Hgt : kPrivateDataOffset < p) by (specialize (Hok p); rewrite E in Hok; apply Hok).
  unfold __ReferenceCount, DataRefCount. rewrite E. cbn [obind].
  replace (cell (refs b)) with (Ok (A:=Z) (match refs b with Some r => r | None => 0 end))
    by (destruct (sole_refs _ _ _ _ Hs) as [-> | ->]; done). cbn [obind].
  replace (cassert _) with (Ok tt) by (destruct (sole_refs _ _ _ _ Hs) as [-> | ->]; done). cbn [obind].
  destruct (Z.eqb_spec n len) as [->|Hne].
  { left. destruct (owned_split _ _ _ _ _ Ho) as (rest & Er). exists h, p, rest.
    split; [done|]. split; [unfold NULL, kPrivateDataOffset in *; lia|]. rewrite <- Er. split; [done|apply keeps_refl]. }
  rewrite (proj2 (Z.ltb_ge n 0)), size_u32 by lia.
  destruct (realloc_at h (p - kPrivateDataOffset) (n + 9)) as [a|] eqn:Ea; [|right; split; [done|right; left; eauto]].
  left. destruct (realloc_fresh _ _ _ _ Ea) as [Ha Hfr]. set (q := a + kPrivateDataOffset).
  destruct (owners_free h p F b Hs) as [Hok0 Hk0]. set (h0 := delete (p - kPrivateDataOffset) h) in *.
  assert (Eq : blk h0 q = Fault).
  { unfold blk, q. replace (a + kPrivateDataOffset - kPrivateDataOffset) with a by lia.
    unfold h0. destruct Hfr as [->|Hfr]; [by rewrite lookup_delete_eq|].
    destruct (decide (a = p - kPrivateDataOffset)) as [->|]; [by rewrite lookup_delete_eq|by rewrite lookup_delete_ne, Hfr]. }
  set (b' := SBlock (Some 1) (Some n) (first_bytes d n ++ [Some 0])).
  destruct (owners_new h0 F q b' Hok0 Eq ltac:(unfold q; lia)) as [Hs' Hk'].
  { split; [unfold INT_MAX; lia|]. split; [by left|]. exists n. split; [done|]. split; [done|]. cbn.
    pose proof (zlen_first_bytes d n (proj1 Hn)) as Hz. rewrite lookup_app_r by (unfold zlen in Hz; lia).
    by replace (Z.to_nat n - length (first_bytes d n))%nat with 0%nat by (unfold zlen in Hz; lia). }
  exists (put h0 q b'), q, []. split; [|split; [unfold q, NULL, kPrivateDataOffset; lia|]].
  2: { split; [by exists b'|by eapply keeps_trans]. }
  unfold store. rewrite blk_put. cbn [obind set_data data]. rewrite D.
  replace (n + 9 - kPrivateDataOffset) with (n + 1) by (unfold kPrivateDataOffset; lia).
  rewrite realloc_store by lia. cbn [obind]. unfold __SetLength, set_DataLength, set_DataRefCount.
  rewrite blk_put. cbn [obind]. rewrite blk_put. cbn [obind]. rewrite !put_put, land_int by done. done.
Qed.

(** *** Making strings writable *)

Lemma refs_int n : 0 < n <= INT_MAX -> i32 (n + -1) = n - 1.
Proof. intros Hn. unfold INT_MAX in Hn. unfold i32. rewrite swrap_id; lia. Qed.

Lemma refs_up n : 0 <= n < INT_MAX -> i32 (n + 1) = n + 1.
Proof. intros Hn. unfold INT_MAX in Hn. unfold i32. rewrite swrap_id; lia. Qed.

Lemma sole_or_shared h p F : owners_ok h (p :: F) ->
  (exists b, sole h p F b) \/
  (p ∈ F /\ exists b, blk h p = Ok b /\ refs b = Some (cnt p F + 1) /\ 0 < cnt p F /\ cnt p F + 1 <= INT_MAX).
Proof.
  intros Ho. destruct (owners_block h (p :: F) p Ho) as (b & E & _); [by left|].
  destruct (decide (p ∈ F)) as [Hp|Hp].
  - right. split; [done|]. exists b. split; [done|]. by eapply shared_refs.
  - left. by exists b.
Qed.

Lemma drop_ref h q p F b len d :
  owned h q (p :: F) len d -> p ∈ F -> blk h p = Ok b ->
  exists h', atomic_add_refs h p (-1) = Ok (h', cnt p F + 1) /\ owned h' q F len d /\ keeps h h' F.
Proof.
  intros (b' & (Ho & Hq & E') & L & D) Hp E. assert (Hqp : q <> p) by (intros ->; apply Hq; by left).
  assert (HqF : ~ q ∈ F) by (intros ?; apply Hq; by right).
  assert (Ho' : owners_ok h (p :: q :: F)) by (by rewrite perm_swap).
  assert (Hc : cnt p (q :: F) = cnt p F) by (by rewrite cnt_cons, decide_False).
  destruct (shared_refs h p (q :: F) b Ho' E) as (Hr & Hn & Hm); [by right|]. rewrite Hc in *.
  pose proof (owners_drop h p (q :: F) b Ho' E ltac:(by right)) as Ho2. rewrite Hc in Ho2.
  unfold atomic_add_refs, DataRefCount, set_DataRefCount. rewrite E. cbn [obind]. rewrite Hr. cbn [cell obind].
  rewrite refs_int by lia. replace (cnt p F + 1 - 1) with (cnt p F) by lia.
  exists (put h p (set_refs b (cnt p F))). split; [done|]. split; [|by apply keeps_refs].
  exists b'. split; [|done]. split; [done|]. split; [done|]. by rewrite blk_put_ne.
Qed.

(** Two blocks are shared by the same strings. *)
Lemma keeps_block h h' F p b : keeps h h' F -> p ∈ F -> blk h p = Ok b -> exists b', blk h' p = Ok b'.
Proof. intros Hk Hp E. destruct (Hk p b Hp E) as (b' & E' & _). eauto. Qed.

Lemma keeps_tail h h' p F : keeps h h' (p :: F) -> keeps h h' F.
Proof. intros Hk. eapply keeps_incl; [done|]. intros q Hq. by right. Qed.

(** A new block takes the place of a shared one. *)
Lemma replace_shared h h1 q p F b len d :
  owned h1 q (p :: F) len d -> keeps h h1 (p :: F) -> p ∈ F -> blk h p = Ok b -> 0 < cnt p F ->
  exists h2, atomic_add_refs h1 p (-1) = Ok (h2, cnt p F + 1) /\ (cnt p F + 1 =? 1) = false
    /\ owned h2 q F len d /\ keeps h h2 F.
Proof.
  intros Ho Hk Hp E Hc. destruct (keeps_block h h1 _ p b Hk ltac:(by right) E) as (b1 & E1).
  destruct (drop_ref h1 q p F b1 len d Ho Hp E1) as (h2 & E2 & Ho2 & Hk2).
  exists h2. split; [done|]. split; [apply Z.eqb_neq; lia|]. split; [done|].
  eapply keeps_trans; [by eapply keeps_tail|done].
Qed.

Lemma holds_owned h p F s b : sole h p F b -> holds h p s ->
  exists rest, owned h p F (zlen s) (map Some s ++ Some 0 :: rest).
Proof.
  intros Hs (_ & b' & rest & E & L & D). exists rest. exists b. pose proof Hs as (_ & _ & E').
  rewrite E in E'. injection E' as <-. done.
Qed.

Lemma MakeWritable_spec h p F s :
  string_of h p F s ->
  (exists h' q rest, __MakeWritable h p = Ok (h', q, B_OK)
     /\ owned h' q F (zlen s) (map Some s ++ Some 0 :: rest) /\ keeps h h' F)
  \/ exhausted.
Proof.
  intros Hst. pose proof (string_len _ _ _ _ Hst) as Hl. destruct Hst as [Ho Hh]. pose proof (zlen_nonneg s).
  unfold __MakeWritable, __ReferenceCount, DataRefCount.
  destruct (sole_or_shared h p F Ho) as [(b & Hs)|(Hp & b & E & Hr & Hc & Hm)].
  - left. destruct (holds_owned _ _ _ _ _ Hs Hh) as (rest & Hown). pose proof Hs as (_ & _ & E). rewrite E. cbn [obind].
    exists h, p, rest. split; [|split; [done|apply keeps_refl]].
    by destruct (sole_refs _ _ _ _ Hs) as [-> | ->].
  - rewrite E. cbn [obind]. rewrite Hr. cbn [cell obind]. rewrite (proj2 (Z.ltb_lt 1 _)) by lia.
    rewrite (Length_holds h p s Hh). cbn [obind].
    destruct (Clone_spec h (p :: F) (In p 0) s (zlen s) Ho (holds_reads h p s Hh)) as [(h1 & q & -> & Hq & Hown & Hk)|[_ Hex]];
      [by left|lia| |by right].
    left. cbn [obind]. destruct (replace_shared h h1 q p F b _ _ Hown Hk Hp E Hc) as (h2 & -> & Hz & Hown2 & Hk2).
    cbn [obind]. rewrite Hz. cbn [obind]. rewrite (proj2 (Z.eqb_neq _ _) Hq).
    exists h2, q, []. by rewrite cloned_id in Hown2.
Qed.

Lemma cloned_text s n :
  exists x, map Some (cloned s n) = map Some (take (Z.to_nat n) s) ++ x :> list (option Z).
Proof. unfold cloned. rewrite map_app. eauto. Qed.

(** A buffer of [n] bytes that starts with the string, or only a buffer. *)
Lemma MakeWritable_to_spec h p F s n copy :
  string_of h p F s -> 0 <= n <= INT_MAX ->
  (exists h' q x rest, __MakeWritable_to h p n copy = Ok (h', q, B_OK)
     /\ owned h' q F n (x ++ Some 0 :: rest) /\ zlen x = n
     /\ ((copy : bool) -> exists y, x = map Some (take (Z.to_nat n) s) ++ y) /\ keeps h h' F)
  \/ __MakeWritable_to h p n copy = Ok (h, p, B_NO_MEMORY) /\ exhausted.
Proof.
  intros Hst Hn. destruct Hst as [Ho Hh]. unfold __MakeWritable_to, __ReferenceCount, DataRefCount.
  destruct (sole_or_shared h p F Ho) as [(b & Hs)|(Hp & b & E & Hr & Hc & Hm)].
  - destruct (holds_owned _ _ _ _ _ Hs Hh) as (rest & Hown). pose proof Hs as (_ & _ & E). rewrite E. cbn [obind].
    assert (Ec : exists r, cell (refs b) = Ok r /\ (1 <? r) = false)
      by (destruct (sole_refs _ _ _ _ Hs) as [-> | ->]; eauto).
    destruct Ec as (r & -> & Er). cbn [obind]. rewrite Er.
    destruct (buf_Resize_spec h p F _ _ n Hown Hn) as [(h' & q & rest' & -> & Hq & Hown' & Hk)|[-> Hex]]; [|by right].
    left. cbn [obind]. rewrite (proj2 (Z.eqb_neq _ _) Hq). exists h', q, (first_bytes (map Some s ++ Some 0 :: rest) n), rest'.
    split; [done|]. split; [done|]. split; [apply zlen_first_bytes; lia|]. split; [|done].
    intros _. apply first_bytes_text.
  - rewrite E. cbn [obind]. rewrite Hr. cbn [cell obind]. rewrite (proj2 (Z.ltb_lt 1 _)) by lia.
    assert (Hnew : (exists h1 q x, (if copy then __Clone h (In p 0) n else __Allocate h n) = Ok (h1, q) /\ q <> NULL
        /\ owned h1 q (p :: F) n (x ++ [Some 0]) /\ zlen x = n
        /\ ((copy : bool) -> exists y, x = map Some (take (Z.to_nat n) s) ++ y) /\ keeps h h1 (p :: F))
      \/ (if copy then __Clone h (In p 0) n else __Allocate h n) = Ok (h, NULL) /\ exhausted).
    { destruct copy.
      + destruct (Clone_spec h (p :: F) (In p 0) s n Ho (holds_reads h p s Hh)) as [(h1 & q & -> & Hq & Hown & Hk)|Hex];
          [by left|lia| |by right].
        left. exists h1, q, (map Some (cloned s n)). rewrite zlen_map, zlen_cloned by lia. do 4 (split; [done|]). split; [intros _; apply cloned_text|done].
      + destruct (Allocate_spec h (p :: F) n Ho Hn) as [(h1 & q & -> & Hq & Hown & Hk)|Hex]; [|by right].
        left. exists h1, q, (replicate (Z.to_nat n) None). unfold zlen. rewrite length_replicate.
        split; [done|]. split; [done|]. split; [done|]. split; [lia|done]. }
    destruct Hnew as [(h1 & q & x & -> & Hq & Hown & Hz & Hx & Hk)|[-> Hex]]; [|by right].
    left. cbn [obind]. rewrite (proj2 (Z.eqb_neq _ _) Hq).
    destruct (replace_shared h h1 q p F b _ _ Hown Hk Hp E Hc) as (h2 & -> & Hb & Hown2 & Hk2).
    cbn [obind]. rewrite Hb. cbn [obind]. exists h2, q, x, []. done.
Qed.

(** *** Results of member functions

    [becomes]: the object is the string [t] afterwards, and the others keep
    theirs; [sets]: so it is, or nothing has changed because memory ran out. *)

Definition becomes (h : sheap) (F : list Z) (t : list Z) (r : outcome (sheap * Z)) : Prop :=
  exists h' q, r = Ok (h', q) /\ string_of h' q F t /\ keeps h h' F.

Definition sets (h : sheap) (p : Z) (F : list Z) (t : list Z) (r : outcome (sheap * Z)) : Prop :=
  becomes h F t r \/ r = Ok (h, p) /\ exhausted.

Lemma becomes_sets h p F t r : becomes h F t r -> sets h p F t r.
Proof. by left. Qed.

Lemma becomes_same h p F s : string_of h p F s -> becomes h F s (Ok (h, p)).
Proof. intros Hs. exists h, p. split; [done|]. split; [done|apply keeps_refl]. Qed.

Lemma becomes_owned h h' F q t rest :
  owned h' q F (zlen t) (map Some t ++ Some 0 :: rest) -> cstr_ok t -> keeps h h' F ->
  becomes h F t (Ok (h', q)).
Proof. intros Ho Ht Hk. exists h', q. split; [done|]. split; [by eapply owned_text|done]. Qed.

(** What is at [p] may be used in [reads] of an argument. *)
Lemma other_reads h p F q t : owners_ok h (p :: F) -> q ∈ F -> holds h q t -> reads h (In q 0) t /\ elsewhere F (In q 0).
Proof. intros _ Hq Hh. split; [by apply holds_reads|done]. Qed.

(** *** Writing bytes into a buffer *)

Lemma known_split l s r : known l = s ++ r -> exists k, l = map Some s ++ k /\ r = known k.
Proof.
  revert l. induction s as [|b s IH]; intros l E; [by exists l|].
  destruct l as [|[b'|] l]; simpl in E; [done| |done]. injection E as -> E.
  destruct (IH l E) as (k & -> & ->). by exists k.
Qed.

Lemma store_mid h p F len a x y b i :
  owned h p F len (a ++ x ++ b) -> i = zlen a -> zlen x = zlen y -> i + zlen x <= len ->
  exists h', store h p i y = Ok h' /\ owned h' p F len (a ++ y ++ b) /\ keeps h h' F.
Proof.
  intros Ho -> Hy Hl. eapply store_owned; [done| |].
  - apply wrn_mid; [done|]. unfold zlen in Hy. lia.
  - destruct (owned_good _ _ _ _ _ Ho) as (_ & Hd & _). unfold zlen in *.
    rewrite app_assoc, lookup_app_r in Hd by (rewrite length_app; lia).
    rewrite app_assoc, lookup_app_r by (rewrite length_app; lia).
    rewrite length_app in *. by replace (length y) with (length x) by lia.
Qed.

Lemma overlap_owned h q F len d c i n : owned h q F len d -> elsewhere F c -> overlap q i c n = false.
Proof. intros (b & Hs & _). by eapply overlap_elsewhere. Qed.

Lemma memcpy_mid h p F len a x b i c t n :
  owned h p F len (a ++ x ++ b) -> i = zlen a -> zlen x = n -> i + n <= len ->
  reads h c t -> elsewhere F c -> n <= zlen t ->
  exists h', memcpy h p i c n = Ok h' /\ owned h' p F len (a ++ map Some (take (Z.to_nat n) t) ++ b)
    /\ keeps h h' F.
Proof.
  intros Ho Hi Hx Hl (Ht & r & E) He Hn. unfold memcpy. destruct (Z.eqb_spec n 0) as [->|Hn0].
  { exists h. destruct x; [|zl]. split; [done|]. split; [done|apply keeps_refl]. }
  rewrite (overlap_owned h p F len _ c i n Ho He). unfold text in E.
  apply obind_ok in E as (l & -> & [= E]). cbn [obind]. destruct (known_split _ _ _ E) as (k & -> & _).
  unfold rdn. rewrite zlen_app, zlen_map. pose proof (zlen_nonneg x). pose proof (zlen_nonneg k). rewrite (proj2 (Z.ltb_ge n 0)), (proj2 (Z.ltb_ge _ (0 + n))) by lia.
  cbn [orb obind]. rewrite drop_0, take_app_le by (rewrite length_map; unfold zlen in *; lia). rewrite firstn_map.
  eapply store_mid; [done..| |lia]. rewrite zlen_map. unfold zlen in *. rewrite length_take. lia.
Qed.

(** The [n] bytes that [strncpy] takes from [c]. *)
Definition gives (h : sheap) (c : cptr) (n : Z) (u : list Z) : Prop :=
  exists m, text h c = Ok m /\ strncpy_bytes m (Z.to_nat n) = Ok u.

Lemma reads_gives h c t n : reads h c t -> gives h c n (cloned t n).
Proof. intros (Ht & r & E). eexists. split; [done|]. by apply strncpy_cstr. Qed.

Lemma keeps_gives h h' F c n u : keeps h h' F -> elsewhere F c -> gives h c n u -> gives h' c n u.
Proof.
  intros Hk Hc (m & E & Eu). exists m. split; [|done]. unfold text in *.
  apply obind_ok in E as (l & El & E). by rewrite (keeps_cells _ _ _ _ _ Hk Hc El).
Qed.

Lemma strncpy_bytes_length m n u : strncpy_bytes m n = Ok u -> length u = n.
Proof.
  revert m u. induction n as [|n IH]; intros m u; [intros [= <-]; done|].
  destruct m as [|b m]; [done|]. cbn [strncpy_bytes]. destruct (b =? 0).
  - intros [= <-]. apply (length_replicate (S n)).
  - intros E. apply obind_ok in E as (v & E & [= <-]). simpl. by rewrite (IH _ _ E).
Qed.

Lemma gives_len h c n u : 0 <= n -> gives h c n u -> zlen u = n.
Proof. intros Hn (m & _ & E). apply strncpy_bytes_length in E. unfold zlen. lia. Qed.

Lemma strncpy_mid h p F len a x b i c u n :
  owned h p F len (a ++ x ++ b) -> i = zlen a -> zlen x = n -> i + n <= len ->
  gives h c n u -> elsewhere F c ->
  exists h', strncpy h p i c n = Ok h' /\ owned h' p F len (a ++ map Some u ++ b)
    /\ keeps h h' F.
Proof.
  intros Ho Hi Hx Hl Hu He. unfold strncpy. pose proof (zlen_nonneg x).
  pose proof (gives_len h c n u ltac:(lia) Hu) as Hn. destruct Hu as (m & E & Eu).
  rewrite (overlap_owned h p F len _ c i n Ho He), (proj2 (Z.ltb_ge n 0)) by lia. cbn [orb].
  rewrite E. cbn [obind]. rewrite Eu. cbn [obind].
  eapply store_mid; [done..| |lia]. rewrite zlen_map. lia.
Qed.

Lemma memset_mid h p F len a x b i c n :
  owned h p F len (a ++ x ++ b) -> i = zlen a -> zlen x = n -> i + n <= len ->
  exists h', memset h p i c n = Ok h' /\ owned h' p F len (a ++ map Some (replicate (Z.to_nat n) (u8 c)) ++ b)
    /\ keeps h h' F.
Proof.
  intros Ho Hi Hx Hl. unfold memset. pose proof (zlen_nonneg x). rewrite (proj2 (Z.ltb_ge n 0)) by lia.
  rewrite <- fmap_replicate. eapply store_mid; [done..| |lia]. unfold zlen in *. rewrite length_map, length_replicate. lia.
Qed.

(** [memmove] of the bytes [z] to where [x] is. *)
Lemma memmove_mid h p F len a x b a' z b' i j n :
  owned h p F len (a ++ x ++ b) -> a ++ x ++ b = a' ++ z ++ b' -> i = zlen a -> j = zlen a' ->
  zlen x = n -> zlen z = n -> i + n <= len ->
  exists h', memmove h p i j n = Ok h' /\ owned h' p F len (a ++ z ++ b) /\ keeps h h' F.
Proof.
  intros Ho E Hi Hj Hx Hz Hl. unfold memmove. pose proof Ho as (b0 & (_ & _ & Eb) & _ & D). rewrite Eb. cbn [obind].
  rewrite D, E, (rdn_mid a' z b') by done. cbn [obind].
  eapply store_mid; [done..|congruence|lia].
Qed.

(** *** Construction and destruction *)

Lemma cstr_take s n : cstr_ok s -> cstr_ok (take n s).
Proof. apply Forall_take. Qed.

Lemma cloned_short s n : 0 <= n <= zlen s -> cloned s n = take (Z.to_nat n) s.
Proof.
  intros Hn. unfold cloned, zlen in *. replace (Z.to_nat n - length s)%nat with 0%nat by lia.
  by rewrite app_nil_r.
Qed.

Lemma Init_spec h F c s n :
  owners_ok h F -> reads h c s -> elsewhere F c -> 0 <= n <= zlen s -> n <= INT_MAX ->
  becomes h F (take (Z.to_nat n) s) (__Init h c n) \/ exhausted.
Proof.
  intros Ho Hc He Hn Hm. unfold __Init.
  destruct (Clone_spec h F c s n Ho Hc He) as [(h1 & q & -> & Hq & Hown & Hk)|[_ Hex]]; [lia| |by right].
  left. cbn [obind]. rewrite (proj2 (Z.eqb_neq _ _) Hq). rewrite cloned_short in Hown by done.
  replace n with (zlen (take (Z.to_nat n) s)) in Hown at 1 by (unfold zlen in *; rewrite length_take; lia).
  eapply becomes_owned; [done| |done]. apply cstr_take, Hc.
Qed.

Lemma BString_new_spec h F : owners_ok h F -> becomes h F [] (BString_new h) \/ exhausted.
Proof.
  intros Ho. unfold BString_new. eapply (Init_spec h F (lit []) [] 0); [done|apply reads_lit; constructor|done|zl|done].
Qed.

Lemma BString_cstr_spec h F c s :
  owners_ok h F -> reads h c s -> elsewhere F c -> zlen s <= INT_MAX ->
  becomes h F s (BString_cstr h c) \/ exhausted.
Proof.
  intros Ho Hc He Hm. unfold BString_cstr, safestr. rewrite (reads_not_null h c s Hc), (strlen_reads h c s Hc).
  cbn [obind]. pose proof (zlen_nonneg s). unfold i32. rewrite swrap_id by (unfold INT_MAX in Hm; lia).
  replace s with (take (Z.to_nat (zlen s)) s) at 1 by (apply take_ge; unfold zlen; lia).
  by apply Init_spec.
Qed.

Lemma BString_max_spec h F c s maxLength :
  owners_ok h F -> reads h c s -> elsewhere F c -> zlen s <= INT_MAX ->
  becomes h F (take (Z.to_nat maxLength) s) (BString_max h c maxLength) \/ exhausted.
Proof.
  intros Ho Hc He Hm. unfold BString_max, safestr. rewrite (reads_not_null h c s Hc), (strlen_clamp_reads h c s) by done.
  cbn [obind]. pose proof (zlen_nonneg s).
  replace (take (Z.to_nat maxLength) s) with (take (Z.to_nat (Z.max 0 (Z.min maxLength (zlen s)))) s).
  - apply Init_spec; [done..|lia|lia].
  - destruct (Z.le_ge_cases maxLength (zlen s)).
    + rewrite Z.min_l by done. f_equal. lia.
    + rewrite Z.min_r, Z.max_r by lia. rewrite !take_ge; unfold zlen in *; [done|lia..].
Qed.

(** Sharing a block. *)
Lemma share_spec h F q s :
  owners_ok h F -> q ∈ F -> holds h q s -> zlen F < INT_MAX ->
  becomes h F s (s <- __IsShareable h q;;
    if (s : bool) then let! (h, _) := atomic_add_refs h q 1 in Ok (h, q)
    else n <- Length h q;; __Init h (In (String q) 0) n) \/ exhausted.
Proof.
  intros Ho Hq Hh Hm. destruct (owners_block h F q Ho Hq) as (b & E & Hgt & Hg).
  unfold __IsShareable, __ReferenceCount, DataRefCount. rewrite (proj2 (Z.eqb_neq q NULL)) by (unfold NULL, kPrivateDataOffset in *; lia).
  rewrite E. cbn [obind]. pose proof Hg as (Hn & Hr & _). destruct Hr as [Hr|[Hr _]]; rewrite Hr; cbn [cell obind].
  - left. rewrite (proj2 (Z.leb_le 0 _)) by lia. unfold atomic_add_refs, DataRefCount, set_DataRefCount. rewrite E. cbn [obind]. rewrite Hr. cbn [cell obind].
    assert (Hc : cnt q F <= zlen F) by (unfold cnt, zlen; pose proof (length_filter (.= q) F); lia).
    rewrite refs_up by lia.
    destruct (owners_share h F q b (cnt q F) Ho Hq E Hr) as [_ Ho']; [lia|lia|].
    pose proof (keeps_refs h q b (cnt q F + 1) F E) as Hk.
    exists (put h q (set_refs b (cnt q F + 1))), q. split; [done|]. split; [|done].
    split; [done|]. by eapply keeps_holds.
  - rewrite (Length_holds h q s Hh), String_data. cbn [obind]. pose proof Hh as (Hs & b' & rest & E' & L & D).
    replace s with (take (Z.to_nat (zlen s)) s) at 1 by (apply take_ge; unfold zlen; lia).
    apply Init_spec; [done|by apply holds_reads|done|pose proof (zlen_nonneg s); lia|].
    specialize (Ho q). rewrite E in Ho. destruct Ho as (_ & _ & _ & n & L' & Hn' & _).
    rewrite E in E'. injection E' as <-. rewrite L in L'. injection L' as <-. lia.
Qed.

Lemma BString_copy_spec h F q s :
  owners_ok h F -> q ∈ F -> holds h q s -> zlen F < INT_MAX ->
  becomes h F s (BString_copy h q) \/ exhausted.
Proof. apply share_spec. Qed.

(** Giving up a reference. *)
Lemma release_spec h p F : owners_ok h (p :: F) ->
  exists h', BString_delete h p = Ok h' /\ owners_ok h' F /\ keeps h h' F.
Proof.
  intros Ho. unfold BString_delete, __IsShareable, __ReferenceCount, DataRefCount, __FreePrivateData, free.
  destruct (owners_block h (p :: F) p Ho) as (b & E & Hgt & Hg); [by left|].
  assert (Hp : (p =? NULL) = false) by (apply Z.eqb_neq; unfold NULL, kPrivateDataOffset in *; lia).
  rewrite Hp, E. cbn [obind]. destruct (sole_or_shared h p F Ho) as [(b' & Hs)|(HpF & b' & E' & Hr & Hc & Hm)].
  - pose proof Hs as (_ & Hn & E'). rewrite E in E'. injection E' as <-.
    destruct (owners_free h p F b Hs) as [Ho' Hk'].
    destruct (sole_refs _ _ _ _ Hs) as [Hr|Hr]; rewrite Hr; cbn [cell obind].
    + change (0 <=? 1) with true. cbn [negb]. unfold atomic_add_refs, DataRefCount, set_DataRefCount.
      rewrite E. cbn [obind]. rewrite Hr. cbn [cell obind]. change (1 =? 1) with true. cbn [obind]. rewrite blk_put. cbn [obind].
      eexists. split; [done|]. unfold put. rewrite delete_insert_eq. done.
    + change (0 <=? -1) with false. cbn [negb]. eauto.
  - rewrite E in E'. injection E' as <-. rewrite Hr. cbn [cell obind]. rewrite (proj2 (Z.leb_le 0 _)) by lia.
    cbn [negb]. unfold atomic_add_refs, DataRefCount, set_DataRefCount. rewrite E. cbn [obind]. rewrite Hr. cbn [cell obind].
    rewrite (proj2 (Z.eqb_neq (cnt p F + 1) 1)) by lia. rewrite refs_int by lia.
    replace (cnt p F + 1 - 1) with (cnt p F) by lia. eexists. split; [done|].
    split; [by apply owners_drop|by apply keeps_refs].
Qed.

(** *** Assignment *)

Lemma SetTo_spec h p F s c t maxLength :
  string_of h p F s -> reads h c t -> elsewhere F c -> zlen t <= INT_MAX ->
  let n := if maxLength <? 0 then zlen t else Z.min maxLength (zlen t) in
  sets h p F (take (Z.to_nat n) t) (SetTo h p c maxLength).
Proof.
  intros Hst Hc He Hm n. pose proof (zlen_nonneg t).
  assert (Hn : 0 <= n <= zlen t) by (unfold n; destruct (Z.ltb_spec maxLength 0); lia).
  unfold SetTo, safestr. rewrite (reads_not_null h c t Hc), (strlen_clamp_reads h c t) by done. cbn [obind].
  replace (Z.max 0 _) with n by (unfold n, INT_MAX in *; destruct (Z.ltb_spec maxLength 0); lia). clearbody n.
  destruct (MakeWritable_to_spec h p F s n false Hst) as [(h1 & q & x & rest & -> & Hown & Hx & _ & Hk)|[-> Hex]];
    [lia| |by right].
  left. cbn [obind]. change (B_OK =? B_OK) with true. cbn [obind].
  pose proof (keeps_reads _ _ _ _ _ Hk He Hc) as Hc1.
  destruct (memcpy_mid h1 q F n [] x (Some 0 :: rest) 0 c t n Hown) as (h2 & -> & Hown2 & Hk2); [done|done|lia|done|done|lia|].
  cbn [obind app] in *. replace n with (zlen (take (Z.to_nat n) t)) in Hown2 at 1 by (unfold zlen in *; rewrite length_take; lia).
  eapply becomes_owned; [done|apply cstr_take, Hc|by eapply keeps_trans].
Qed.

(** Dropping the old contents before the new ones are shared. *)
Lemma SetTo_string_spec h p F s q t :
  string_of h p F s -> q ∈ F -> holds h q t -> zlen F < INT_MAX ->
  becomes h F t (SetTo_string h p q) \/ exhausted.
Proof.
  intros Hst Hq Hh Hm. destruct Hst as [Ho Hs]. unfold SetTo_string.
  destruct (Z.eqb_spec p q) as [->|Hne].
  { left. exists h, q. split; [done|]. split; [done|apply keeps_refl]. }
  destruct (release_spec h p F Ho) as (h' & Er & Ho' & Hk).
  assert (Hstep : exists p', (s0 <- __IsShareable h p;;
      let! (h0, freeData) := (if (s0 : bool) then let! (h0, n) := atomic_add_refs h p (-1) in Ok (h0, negb (1 <? n)) else Ok (h, true)) in
      if (freeData : bool) then __FreePrivateData h0 p else Ok (h0, p)) = Ok (h', p')).
  { destruct (owners_block h (p :: F) p Ho) as (b & E & Hgt & Hn & Hr & _); [by left|].
    revert Er. unfold BString_delete, __IsShareable, __ReferenceCount, DataRefCount, atomic_add_refs, set_DataRefCount, DataRefCount, __FreePrivateData.
    destruct (p =? NULL) eqn:Ep; [apply Z.eqb_eq in Ep; unfold NULL, kPrivateDataOffset in *; lia|].
    rewrite E. cbn [obind]. destruct Hr as [Hr|[Hr _]]; rewrite Hr; cbn [cell obind].
    - rewrite (proj2 (Z.leb_le 0 _)) by lia. cbn [negb].
      destruct (Z.eqb_spec (cnt p (p :: F)) 1) as [E1|E1].
      + rewrite E1. change (negb (1 <? 1)) with true. set (fr := free _ p). cbn [obind negb].
        match goal with |- _ -> exists p', (h <- ?f;; _) = _ => change f with fr end.
        destruct fr; cbn [obind]; [|done..]. intros [= ->]. eauto.
      + rewrite (proj2 (Z.ltb_lt 1 _)) by lia. intros [= ->]. cbn [obind negb]. eauto.
    - change (0 <=? -1) with false. cbn [negb obind]. destruct (free h p); cbn [obind]; [|done..]. intros [= ->]. eauto. }
  destruct Hstep as (p' & Hstep). apply obind_ok in Hstep as (s0 & -> & Hstep). cbn [obind].
  apply obind_ok in Hstep as ([h0 fd] & -> & Hstep). cbn [obind]. rewrite Hstep. cbn [obind].
  destruct (share_spec h' F q t Ho' Hq (keeps_holds _ _ _ _ _ Hk Hq Hh) Hm) as [(h2 & r & E2 & Hs2 & Hk2)|Hex]; [|by right].
  left. exists h2, r. split; [exact E2|]. split; [done|by eapply keeps_trans].
Qed.

Lemma zlen_replicate {A} n (x : A) : zlen (replicate n x) = Z.of_nat n.
Proof. unfold zlen. by rewrite length_replicate. Qed.

Lemma cstr_replicate n c : 0 < c < 256 -> cstr_ok (replicate n c).
Proof. intros Hc. apply Forall_replicate. done. Qed.

Lemma u8_id c : 0 < c < 256 -> u8 c = c.
Proof. intros Hc. apply uwrap_id. lia. Qed.

Lemma SetTo_char_spec h p F s c n :
  string_of h p F s -> 0 < c < 256 -> n <= INT_MAX ->
  sets h p F (replicate (Z.to_nat n) c) (SetTo_char h p c n).
Proof.
  intros Hst Hc Hm. unfold SetTo_char. set (m := if n <? 0 then 0 else n).
  assert (Hn : 0 <= m <= INT_MAX) by (unfold m, INT_MAX in *; destruct (Z.ltb_spec n 0); lia).
  replace (Z.to_nat n) with (Z.to_nat m) by (unfold m; destruct (Z.ltb_spec n 0); lia). clearbody m.
  destruct (MakeWritable_to_spec h p F s m false Hst) as [(h1 & q & x & rest & -> & Hown & Hx & _ & Hk)|[-> Hex]];
    [lia| |by right].
  left. cbn [obind]. change (B_OK =? B_OK) with true. cbn [obind].
  destruct (memset_mid h1 q F m [] x (Some 0 :: rest) 0 c m Hown) as (h2 & -> & Hown2 & Hk2); [done|done|lia|].
  cbn [obind app] in *. rewrite u8_id in Hown2 by done.
  replace m with (zlen (replicate (Z.to_nat m) c)) in Hown2 at 1 by (rewrite zlen_replicate; lia).
  eapply becomes_owned; [done|by apply cstr_replicate|by eapply keeps_trans].
Qed.

End Share.

(** ** An allocator, and what members of the class return

    Every [realloc] moves the block. *)

Module Allocator.


Definition top_block (h : sheap) : Z := map_fold (fun a _ m => Z.max a m) 0 h.

#[export] Instance moving : Memory := {
  malloc_at h n := Some (top_block h + 1);
  realloc_at h a n := Some (top_block h + 1);
  pos_realloc n := true;
}.

#[export] Instance header : Members := {
  Length h p :=
    match blk h p with
    | Ok b => n <- cell (dlen b);; if n <? 0 then Fault else Ok n
    | _ => if p =? NULL then Ok 0 else Fault
    end;
  String p := p;
}.

Lemma top_block_above (h : sheap) : 0 <= top_block h /\ forall a b, h !! a = Some b -> a <= top_block h.
Proof.
  unfold top_block. apply (map_fold_weak_ind (fun m h => 0 <= m /\ forall a b, h !! a = Some b -> a <= m)).
  - split; [done|]. intros a b Hb. by rewrite lookup_empty in Hb.
  - intros a b h' m Ha [Hm IH]. split; [lia|]. intros q c Hc.
    apply lookup_insert_Some in Hc as [[<- _]|[_ Hc]]; [lia|]. specialize (IH _ _ Hc). lia.
Qed.

Lemma top_block_fresh (h : sheap) : 0 < top_block h + 1 /\ h !! (top_block h + 1) = None.
Proof.
  destruct (top_block_above h) as [Hm Hp]. split; [lia|].
  destruct (h !! (top_block h + 1)) as [b|] eqn:E; [|done]. specialize (Hp _ _ E). lia.
Qed.

#[export] Instance moving_ok : MemoryOk.
Proof.
  split; intros *; intros [= <-]; pose proof (top_block_fresh h); [done|]. tauto.
Qed.

#[export] Instance header_ok : MembersOk.
Proof.
  split; [| |done].
  - intros h p b n E L Hn. cbn. rewrite E, L. cbn [cell obind]. by rewrite (proj2 (Z.ltb_ge n 0)) by lia.
  - intros h E. cbn. by rewrite E.
Qed.

Lemma moving_endless : ~ exhausted.
Proof. intros [(h & n & E)|[(h & a & n & E)|(n & E)]]; discriminate. Qed.

(** A heap with one string. *)
Lemma no_owners : owners_ok ∅ [].
Proof. intros p. unfold blk. by rewrite lookup_empty. Qed.

Lemma string_alone s : cstr_ok s /\ zlen s <= INT_MAX -> exists h p, BString_cstr ∅ (lit s) = Ok (h, p) /\ string_of h p [] s.
Proof.
  intros [Hs Hl]. destruct (BString_cstr_spec ∅ [] (lit s) s no_owners) as [(h & p & E & Hst & _)|Hex];
    [by apply reads_lit|done|done|eauto|]. by apply moving_endless in Hex.
Qed.

End Allocator.
