(* ===== verification/BStringEdit.v ===== *)
(** The operations of [BString] (kits/support/String.cpp) that read, grow,
    shrink and change a string in place.

    Each takes the heap and the data pointer of its object and returns both,
    or the value of the query.  A [const BString&] argument is a [sref]: the
    object itself or another one. *)

From Stdlib Require Import ZArith Lia List Bool.
From stdpp Require Import base tactics list numbers gmap.
From S2P Require Import Prelude CText Utf8 BString.
Local Open Scope Z_scope.
Local Open Scope c_scope.

Definition B_ERROR : Z := -1.
Definition B_BAD_VALUE : Z := INT_MIN + 5.

(** ** More of the C library *)

Definition load (h : sheap) (p i : Z) : outcome Z :=
  b <- blk h p;; c <- rd (data b) i;; cell c.

Definition store1 (h : sheap) (p i v : Z) : outcome sheap := store h p i [Some (u8 v)].

(** Those of <ctype.h> that the strings use. *)
Definition c_tolower (b : Z) : outcome Z := c <- ctype_arg b;; Ok (tolower c).
Definition c_toupper (b : Z) : outcome Z := c <- ctype_arg b;; Ok (toupper c).
Definition c_isalpha (b : Z) : outcome bool := c <- ctype_arg b;; Ok (isalpha c).
Definition c_isspace (b : Z) : outcome bool := c <- ctype_arg b;; Ok (isspace c).

(** [strcmp] of two strings: negative, zero or positive. *)
Fixpoint strcmp (a b : list Z) : Z :=
  match a, b with
  | [], [] => 0
  | [], _ :: _ => -1
  | _ :: _, [] => 1
  | x :: a, y :: b => if x =? y then strcmp a b else x - y
  end.

(** [strncmp] of what two pointers point to, at most [n] bytes. *)
Fixpoint strncmp (m1 m2 : list Z) (n : nat) : outcome Z :=
  match n with
  | O => Ok 0
  | S n =>
    x <- rd m1 0;;
    y <- rd m2 0;;
    if negb (x =? y) then Ok (x - y)
    else if x =? 0 then Ok 0
    else strncmp (tail m1) (tail m2) n
  end.

Fixpoint is_prefix (t s : list Z) : bool :=
  match t, s with
  | [], _ => true
  | x :: t, y :: s => (x =? y) && is_prefix t s
  | _ :: _, [] => false
  end.

(** [strstr(s, t)] as an index. *)
Fixpoint strstr (s t : list Z) : option Z :=
  if is_prefix t s then Some 0
  else match s with [] => None | _ :: s => Z.succ <$> strstr s t end.

(** [memcmp] of [n] bytes. *)
Definition memcmp (m1 m2 : list Z) (n : Z) : outcome Z :=
  x <- rdn m1 0 n;; y <- rdn m2 0 n;; Ok (strcmp x y).

(** The size that an [int32_t] becomes as a [size_t], as far as it matters
    for [m]. *)
Definition size_of (n : Z) (m : list Z) : nat := if n <? 0 then S (length m) else Z.to_nat n.

(** [UTF8CountBytes(c, n)] *)
Definition count_bytes_at (h : sheap) (c : cptr) (n : Z) : outcome Z :=
  if is_null c then UTF8CountBytes None n else m <- text h c;; UTF8CountBytes (Some m) n.

Section Edit.
Context `{Memory} `{Members}.

(** ** Access *)

Definition CountChars (h : sheap) (p : Z) : outcome Z :=
  n <- Length h p;; m <- text h (In p 0);; UTF8CountChars (Some m) n.

Definition CountBytes (h : sheap) (p fromCharOffset charCount : Z) : outcome Z :=
  from <- count_bytes_at h (In p 0) fromCharOffset;;
  count_bytes_at h (In p from) charCount.

(** One turn: [h << 4] and the addition wrap around. *)
Definition hash_step (hash c : Z) : Z :=
  let g := Z.land hash 0xf0000000 in
  let hash := if negb (g =? 0) then Z.lxor hash (Z.shiftr g 24) else hash in
  u32 (u32 (Z.shiftl hash 4) + schar c).

Definition HashValue (h : sheap) (string : cptr) : outcome Z :=
  if is_null string then Ok 0
  else s <- cstr h string;; Ok (fold_left hash_step s 0).

(** ** Growing and shrinking *)

Definition __DoAppend (h : sheap) (p : Z) (string : cptr) (length : Z) : outcome (sheap * Z * bool) :=
  oldLength <- Length h p;;
  n <- add_int oldLength length;;
  let! (h, p, st) := __MakeWritable_to h p n true in
  if st =? B_OK then h <- strncpy h p oldLength string length;; Ok (h, p, true) else Ok (h, p, false).

Definition __DoPrepend (h : sheap) (p : Z) (string : cptr) (length : Z) : outcome (sheap * Z * bool) :=
  oldLength <- Length h p;;
  n <- add_int oldLength length;;
  let! (h, p, st) := __MakeWritable_to h p n true in
  if st =? B_OK then
    h <- memmove h p length 0 oldLength;;
    h <- (if negb (is_null string) && negb (length =? 0) then strncpy h p 0 string length else Ok h);;
    Ok (h, p, true)
  else Ok (h, p, false).

Definition __DoInsert (h : sheap) (p : Z) (string : cptr) (offset length : Z) : outcome (sheap * Z * bool) :=
  oldLength <- Length h p;;
  n <- add_int oldLength length;;
  let! (h, p, st) := __MakeWritable_to h p n true in
  if st =? B_OK then
    h <- memmove h p (offset + length) offset (oldLength - offset);;
    h <- (if negb (is_null string) && negb (length =? 0) then strncpy h p offset string length else Ok h);;
    Ok (h, p, true)
  else Ok (h, p, false).

(** The pointer that is returned last is [NULL] for a failure. *)
Definition __OpenAtBy (h : sheap) (p offset length : Z) : outcome (sheap * Z * Z) :=
  oldLength <- Length h p;;
  let! (h, p, st) := __MakeWritable h p in
  if negb (st =? B_OK) then Ok (h, p, NULL)
  else
    h <- memmove h p (offset + length) offset (oldLength - offset);;
    n <- add_int oldLength length;;
    __Resize h p n.

Definition __ShrinkAtBy (h : sheap) (p offset length : Z) : outcome (sheap * Z * Z) :=
  oldLength <- Length h p;;
  let! (h, p, st) := __MakeWritable h p in
  if negb (st =? B_OK) then Ok (h, p, NULL)
  else
    h <- memmove h p offset (offset + length) (oldLength - offset - length);;
    __Resize h p (oldLength - length).

(** The calls above for a function that returns [*this]. *)
Definition ignore {A} (m : outcome (sheap * Z * A)) : outcome (sheap * Z) :=
  let! (h, p, _) := m in Ok (h, p).

(** ** Appending *)

Definition Append_cstr (h : sheap) (p : Z) (string : cptr) : outcome (sheap * Z) :=
  if negb (is_null string) then
    n <- c_strlen h string;;
    let length := i32 n in
    if 0 <? length then ignore (__DoAppend h p string length) else Ok (h, p)
  else Ok (h, p).

(** [&c] points to the one byte [c]. *)
Definition Append_byte (h : sheap) (p c : Z) : outcome (sheap * Z) :=
  ignore (__DoAppend h p (Ext [c] 0) 1).

Definition Append_string_max (h : sheap) (p : Z) (string : sref) (length : Z) : outcome (sheap * Z) :=
  match string with
  | Self => Ok (h, p)
  | Other q =>
    n <- Length h q;;
    let length := min_clamp0 length n in
    if 0 <? length then ignore (__DoAppend h p (In q 0) length) else Ok (h, p)
  end.

Definition Append_max (h : sheap) (p : Z) (string : cptr) (length : Z) : outcome (sheap * Z) :=
  if negb (is_null string) then
    length <- strlen_clamp h string length;;
    if 0 <? length then ignore (__DoAppend h p string length) else Ok (h, p)
  else Ok (h, p).

Definition Append_char (h : sheap) (p c count : Z) : outcome (sheap * Z) :=
  oldLength <- Length h p;;
  if 0 <? count then
    let! (h, p, ok) := __DoAppend h p (lit []) count in
    if (ok : bool) then h <- memset h p oldLength c count;; Ok (h, p) else Ok (h, p)
  else Ok (h, p).

(** [operator<<(const BString&)]: the pointer is taken before the string
    grows. *)
Definition Append_string (h : sheap) (p : Z) (string : sref) : outcome (sheap * Z) :=
  n <- Length h (data_of p string);;
  if 0 <? n then ignore (__DoAppend h p (In (String (data_of p string)) 0) n) else Ok (h, p).

Definition Append_bool (h : sheap) (p : Z) (value : bool) : outcome (sheap * Z) :=
  if value then ignore (__DoAppend h p (lit [116; 114; 117; 101]) 4)
  else ignore (__DoAppend h p (lit [102; 97; 108; 115; 101]) 5).

(** The text of a number in the buffer of [snprintf]. *)
Definition Append_text (h : sheap) (p : Z) (num : list Z) : outcome (sheap * Z) :=
  ignore (__DoAppend h p (lit num) (zlen num)).

Definition Append_int (h : sheap) (p i : Z) : outcome (sheap * Z) := Append_text h p (fmt_d i).
Definition Append_uint (h : sheap) (p i : Z) : outcome (sheap * Z) := Append_text h p (fmt_u i).

Definition AppendChars_string (h : sheap) (p : Z) (string : sref) (charCount : Z) : outcome (sheap * Z) :=
  n <- count_bytes_at h (In (String (data_of p string)) 0) charCount;; Append_string_max h p string n.

Definition AppendChars (h : sheap) (p : Z) (string : cptr) (charCount : Z) : outcome (sheap * Z) :=
  n <- count_bytes_at h string charCount;; Append_max h p string n.

(** ** Prepending *)

Definition Prepend_cstr (h : sheap) (p : Z) (string : cptr) : outcome (sheap * Z) :=
  if negb (is_null string) then
    n <- c_strlen h string;; ignore (__DoPrepend h p string (i32 n))
  else Ok (h, p).

Definition Prepend_string (h : sheap) (p : Z) (string : sref) : outcome (sheap * Z) :=
  match string with
  | Self => Ok (h, p)
  | Other q => n <- Length h q;; ignore (__DoPrepend h p (In (String q) 0) n)
  end.

Definition Prepend_max (h : sheap) (p : Z) (string : cptr) (length : Z) : outcome (sheap * Z) :=
  if negb (is_null string) then
    n <- strlen_clamp h string length;; ignore (__DoPrepend h p string n)
  else Ok (h, p).

Definition Prepend_string_max (h : sheap) (p : Z) (string : sref) (length : Z) : outcome (sheap * Z) :=
  match string with
  | Self => Ok (h, p)
  | Other q => n <- Length h q;; ignore (__DoPrepend h p (In q 0) (min_clamp0 length n))
  end.

Definition Prepend_char (h : sheap) (p c count : Z) : outcome (sheap * Z) :=
  if 0 <? count then
    let! (h, p, ok) := __DoPrepend h p (lit []) count in
    if (ok : bool) then h <- memset h p 0 c count;; Ok (h, p) else Ok (h, p)
  else Ok (h, p).

Definition PrependChars (h : sheap) (p : Z) (string : cptr) (charCount : Z) : outcome (sheap * Z) :=
  n <- count_bytes_at h string charCount;; Prepend_max h p string n.

Definition PrependChars_string (h : sheap) (p : Z) (string : sref) (charCount : Z) : outcome (sheap * Z) :=
  n <- count_bytes_at h (In (String (data_of p string)) 0) charCount;; Prepend_string_max h p string n.

(** ** Inserting *)

(** A negative position cuts off the beginning of what is inserted. *)
Definition insert_at (h : sheap) (p : Z) (string : cptr) (len position : Z) : outcome (sheap * Z) :=
  if position <? 0 then
    assert_int (-1 * position);;;
    let skipLen := min_clamp0 (-1 * position) len in
    ignore (__DoInsert h p (cadd string skipLen) 0 (len - skipLen))
  else
    l <- Length h p;;
    ignore (__DoInsert h p string (min_clamp0 position l) len).

Definition Insert (h : sheap) (p : Z) (string : cptr) (position : Z) : outcome (sheap * Z) :=
  l <- Length h p;;
  if negb (is_null string) && (position <=? l) then
    n <- c_strlen h string;; insert_at h p string (i32 n) position
  else Ok (h, p).

Definition Insert_max (h : sheap) (p : Z) (string : cptr) (length position : Z) : outcome (sheap * Z) :=
  l <- Length h p;;
  if negb (is_null string) && (position <=? l) then
    len <- strlen_clamp h string length;; insert_at h p string len position
  else Ok (h, p).

Definition Insert_from (h : sheap) (p : Z) (string : cptr) (fromOffset length position : Z) : outcome (sheap * Z) :=
  if negb (is_null string) then Insert_max h p (cadd string fromOffset) length position else Ok (h, p).

Definition Insert_string (h : sheap) (p : Z) (string : sref) (position : Z) : outcome (sheap * Z) :=
  match string with
  | Self => Ok (h, p)
  | Other q => n <- Length h q;; if 0 <? n then Insert h p (In q 0) position else Ok (h, p)
  end.

Definition Insert_string_max (h : sheap) (p : Z) (string : sref) (length position : Z) : outcome (sheap * Z) :=
  match string with
  | Self => Ok (h, p)
  | Other q => n <- Length h q;; if 0 <? n then Insert_max h p (In (String q) 0) length position else Ok (h, p)
  end.

Definition Insert_string_from (h : sheap) (p : Z) (string : sref) (fromOffset length position : Z)
  : outcome (sheap * Z) :=
  match string with
  | Self => Ok (h, p)
  | Other q =>
    n <- Length h q;;
    if 0 <? n then Insert_max h p (In (String q) fromOffset) length position else Ok (h, p)
  end.

Definition Insert_char (h : sheap) (p c count position : Z) : outcome (sheap * Z) :=
  let! (count, position) :=
    (if position <? 0 then n <- add_int count position;; Ok (Z.max n 0, 0)
     else l <- Length h p;; Ok (count, min_clamp0 position l)) in
  if 0 <? count then
    let! (h, p, ok) := __DoInsert h p (lit []) position count in
    if (ok : bool) then h <- memset h p position c count;; Ok (h, p) else Ok (h, p)
  else Ok (h, p).

Definition InsertChars (h : sheap) (p : Z) (string : cptr) (charPosition : Z) : outcome (sheap * Z) :=
  pos <- count_bytes_at h (In p 0) charPosition;; Insert h p string pos.

Definition InsertChars_max (h : sheap) (p : Z) (string : cptr) (charCount charPosition : Z) : outcome (sheap * Z) :=
  n <- count_bytes_at h string charCount;;
  pos <- count_bytes_at h (In p 0) charPosition;;
  Insert_max h p string n pos.

Definition InsertChars_from (h : sheap) (p : Z) (string : cptr) (fromCharOffset charCount charPosition : Z)
  : outcome (sheap * Z) :=
  from <- count_bytes_at h string fromCharOffset;;
  n <- count_bytes_at h (cadd string from) charCount;;
  pos <- count_bytes_at h (In p 0) charPosition;;
  Insert_from h p string from n pos.

Definition InsertChars_string (h : sheap) (p : Z) (string : sref) (charPosition : Z) : outcome (sheap * Z) :=
  pos <- count_bytes_at h (In p 0) charPosition;; Insert_string h p string pos.

Definition InsertChars_string_max (h : sheap) (p : Z) (string : sref) (charCount charPosition : Z)
  : outcome (sheap * Z) :=
  n <- count_bytes_at h (In (String (data_of p string)) 0) charCount;;
  pos <- count_bytes_at h (In p 0) charPosition;;
  Insert_string_max h p string n pos.

Definition InsertChars_string_from (h : sheap) (p : Z) (string : sref)
  (fromCharOffset charCount charPosition : Z) : outcome (sheap * Z) :=
  let s := String (data_of p string) in
  from <- count_bytes_at h (In s 0) fromCharOffset;;
  n <- count_bytes_at h (In s from) charCount;;
  pos <- count_bytes_at h (In p 0) charPosition;;
  Insert_string_from h p string from n pos.

(** ** Removing *)

Definition Truncate (h : sheap) (p newLength : Z) (lazy : bool) : outcome (sheap * Z) :=
  let newLength := if newLength <? 0 then 0 else newLength in
  l <- Length h p;;
  if newLength <? l then ignore (__MakeWritable_to h p newLength true) else Ok (h, p).

Definition TruncateChars (h : sheap) (p newCharCount : Z) : outcome (sheap * Z) :=
  n <- count_bytes_at h (In p 0) newCharCount;; Truncate h p n true.

Definition Remove (h : sheap) (p from length : Z) : outcome (sheap * Z) :=
  l <- Length h p;;
  if (0 <? length) && (from <? l) then
    assert_int (l - from);;;
    ignore (__ShrinkAtBy h p from (min_clamp0 length (l - from)))
  else Ok (h, p).

Definition RemoveChars (h : sheap) (p fromCharOffset charCount : Z) : outcome (sheap * Z) :=
  from <- count_bytes_at h (In p 0) fromCharOffset;;
  n <- count_bytes_at h (In p from) charCount;;
  Remove h p from n.

(** ** Copying *)

(** [into]: another object, or [None] when it is this one. *)
Definition CopyInto (h : sheap) (p : Z) (into : option Z) (fromOffset length : Z) : outcome (sheap * option Z) :=
  match into with
  | None => Ok (h, None)
  | Some q => let! (h, q) := SetTo h q (In p fromOffset) length in Ok (h, Some q)
  end.

(** The bytes that are copied into the caller's buffer. *)
Definition CopyInto_buffer (h : sheap) (p : Z) (into : bool) (fromOffset length : Z) : outcome (list (option Z)) :=
  if negb into then Ok []
  else
    l <- Length h p;;
    assert_int (l - fromOffset);;;
    let length := min_clamp0 length (l - fromOffset) in
    if length =? 0 then Ok [] else src <- cells h (In p fromOffset);; rdn src 0 length.

Definition CopyCharsInto (h : sheap) (p : Z) (into : option Z) (fromCharOffset charCount : Z)
  : outcome (sheap * option Z) :=
  from <- count_bytes_at h (In p 0) fromCharOffset;;
  n <- count_bytes_at h (In p from) charCount;;
  CopyInto h p into from n.

(** [room] is [*intoLength]. *)
Definition CopyCharsInto_buffer (h : sheap) (p : Z) (into : bool) (room : option Z) (fromCharOffset charCount : Z)
  : outcome (option (list (option Z))) :=
  if negb into then Ok None
  else
    from <- count_bytes_at h (In p 0) fromCharOffset;;
    n <- count_bytes_at h (In p from) charCount;;
    l <- Length h p;;
    let length := min_clamp0 n (l - from) in
    if match room with Some r => r <? length | None => false end then Ok None
    else if length =? 0 then Ok (Some [])
    else src <- cells h (In p from);; x <- rdn src 0 length;; Ok (Some x).

Definition MoveInto (h : sheap) (p : Z) (into : option Z) (from length : Z) : outcome (sheap * Z * option Z) :=
  if negb (length =? 0) then
    let! (h, into) := CopyInto h p into from length in
    match into with
    | Some q => let! (h, p) := Remove h p from length in Ok (h, p, Some q)
    | None => let! (h, p) := Remove h p from length in Ok (h, p, None)
    end
  else Ok (h, p, into).

(** ** Comparing *)

Definition Compare (h : sheap) (p : Z) (string : cptr) : outcome Z :=
  a <- cstr h (In (String p) 0);; b <- cstr h (safestr string);; Ok (strcmp a b).

Definition Compare_string (h : sheap) (p q : Z) : outcome Z :=
  a <- cstr h (In (String p) 0);; b <- cstr h (In (String q) 0);; Ok (strcmp a b).

Definition Compare_max (h : sheap) (p : Z) (string : cptr) (length : Z) : outcome Z :=
  a <- text h (In (String p) 0);; b <- text h (safestr string);; strncmp a b (size_of length a).

Definition ICompare (h : sheap) (p : Z) (string : cptr) : outcome Z :=
  a <- cstr h (In (String p) 0);; b <- cstr h (safestr string);; Ok (strcasecmp a b).

Definition ICompare_string (h : sheap) (p q : Z) : outcome Z :=
  a <- cstr h (In (String p) 0);; b <- cstr h (In (String q) 0);; Ok (strcasecmp a b).

Definition ICompare_max (h : sheap) (p : Z) (string : cptr) (length : Z) : outcome Z :=
  a <- text h (In (String p) 0);; b <- text h (safestr string);; strncasecmp a 0 b 0 (size_of length a).

Definition lt_cstr (h : sheap) (p : Z) (string : cptr) : outcome bool := c <- Compare h p string;; Ok (c <? 0).
Definition le_cstr (h : sheap) (p : Z) (string : cptr) : outcome bool := c <- Compare h p string;; Ok (c <=? 0).
Definition eq_cstr (h : sheap) (p : Z) (string : cptr) : outcome bool := c <- Compare h p string;; Ok (c =? 0).
Definition ge_cstr (h : sheap) (p : Z) (string : cptr) : outcome bool := c <- Compare h p string;; Ok (0 <=? c).
Definition gt_cstr (h : sheap) (p : Z) (string : cptr) : outcome bool := c <- Compare h p string;; Ok (0 <? c).

(** ** Searching *)

Definition __ShortFindAfter (h : sheap) (p : Z) (string : cptr) : outcome Z :=
  s <- cstr h (In (String p) 0);;
  t <- cstr h string;;
  match strstr s t with Some i => Ok i | None => Ok B_ERROR end.

Definition __FindAfter (h : sheap) (p : Z) (string : cptr) (offset : Z) : outcome Z :=
  s <- cstr h (In (String p) offset);;
  t <- cstr h string;;
  match strstr s t with Some i => Ok (offset + i) | None => Ok B_ERROR end.

(** [ptr] goes down from [offset - length] to 0. *)
Fixpoint find_before (eq : Z -> outcome bool) (n : nat) : outcome Z :=
  match n with
  | O => Ok B_ERROR
  | S n => b <- eq (Z.of_nat n);; if (b : bool) then Ok (Z.of_nat n) else find_before eq n
  end.

Definition __FindBefore (h : sheap) (p : Z) (string : cptr) (offset length : Z) : outcome Z :=
  if p =? NULL then Ok B_ERROR
  else find_before (fun i => a <- text h (In p i);; b <- text h string;; c <- memcmp a b length;; Ok (c =? 0))
         (Z.to_nat (offset - length + 1)).

Definition FindFirst (h : sheap) (p : Z) (string : cptr) : outcome Z :=
  if is_null string then Ok B_BAD_VALUE else __ShortFindAfter h p string.

Definition FindFirst_string (h : sheap) (p q : Z) : outcome Z := __ShortFindAfter h p (In (String q) 0).

Definition FindFirst_from (h : sheap) (p : Z) (string : cptr) (fromOffset : Z) : outcome Z :=
  if is_null string then Ok B_BAD_VALUE
  else if fromOffset <? 0 then Ok B_ERROR
  else l <- Length h p;; __FindAfter h p string (min_clamp0 fromOffset l).

Definition FindFirst_string_from (h : sheap) (p q fromOffset : Z) : outcome Z :=
  if fromOffset <? 0 then Ok B_ERROR
  else l <- Length h p;; __FindAfter h p (In (String q) 0) (min_clamp0 fromOffset l).

(** [n] bytes from [i] on. *)
Fixpoint scan_up (h : sheap) (p c : Z) (n : nat) (i : Z) : outcome Z :=
  match n with
  | O => Ok B_ERROR
  | S n => b <- load h p i;; if b =? c then Ok i else scan_up h p c n (i + 1)
  end.

Definition FindFirst_char (h : sheap) (p c : Z) : outcome Z :=
  l <- Length h p;; scan_up h (String p) c (Z.to_nat l) 0.

Definition FindFirst_char_from (h : sheap) (p c fromOffset : Z) : outcome Z :=
  if fromOffset <? 0 then Ok B_ERROR
  else
    l <- Length h p;;
    let start := min_clamp0 fromOffset l in
    scan_up h (String p) c (Z.to_nat (l - start)) start.

Definition FindLast (h : sheap) (p : Z) (string : cptr) : outcome Z :=
  if is_null string then Ok B_BAD_VALUE
  else l <- Length h p;; n <- c_strlen h string;; __FindBefore h p string l (i32 n).

Definition FindLast_string (h : sheap) (p q : Z) : outcome Z :=
  l <- Length h p;; n <- Length h q;; __FindBefore h p (In (String q) 0) l n.

Definition FindLast_before (h : sheap) (p : Z) (string : cptr) (beforeOffset : Z) : outcome Z :=
  if is_null string then Ok B_BAD_VALUE
  else if beforeOffset <? 0 then Ok B_ERROR
  else l <- Length h p;; n <- c_strlen h string;; __FindBefore h p string (min_clamp0 beforeOffset l) (i32 n).

Definition FindLast_string_before (h : sheap) (p q beforeOffset : Z) : outcome Z :=
  if beforeOffset <? 0 then Ok B_ERROR
  else l <- Length h p;; n <- Length h q;; __FindBefore h p (In (String q) 0) (min_clamp0 beforeOffset l) n.

Definition scan_down (h : sheap) (p c : Z) (n : nat) : outcome Z :=
  find_before (fun i => b <- load h p i;; Ok (b =? c)) n.

Definition FindLast_char (h : sheap) (p c : Z) : outcome Z :=
  l <- Length h p;; scan_down h (String p) c (Z.to_nat l).

Definition FindLast_char_before (h : sheap) (p c beforeOffset : Z) : outcome Z :=
  if beforeOffset <? 0 then Ok B_ERROR
  else
    l <- Length h p;;
    n <- add_int beforeOffset 1;;
    scan_down h (String p) c (Z.to_nat (min_clamp0 n l)).

Definition StartsWith_max (h : sheap) (p : Z) (string : cptr) (length : Z) : outcome bool :=
  l <- Length h p;;
  if l <? length then Ok false
  else a <- text h (In (String p) 0);; b <- text h string;; c <- memcmp a b length;; Ok (c =? 0).

Definition StartsWith (h : sheap) (p : Z) (string : cptr) : outcome bool :=
  n <- c_strlen h string;; StartsWith_max h p string (i32 n).

Definition StartsWith_string (h : sheap) (p q : Z) : outcome bool :=
  n <- Length h q;; StartsWith_max h p (In (String q) 0) n.

Definition EndsWith_max (h : sheap) (p : Z) (string : cptr) (length : Z) : outcome bool :=
  l <- Length h p;;
  let offset := l - length in
  if offset <? 0 then Ok false
  else a <- text h (In (String p) offset);; b <- text h string;; c <- memcmp a b length;; Ok (c =? 0).

Definition EndsWith (h : sheap) (p : Z) (string : cptr) : outcome bool :=
  n <- c_strlen h string;; EndsWith_max h p string (i32 n).

Definition EndsWith_string (h : sheap) (p q : Z) : outcome bool :=
  n <- Length h q;; EndsWith_max h p (In (String q) 0) n.

(** ** Removing what is found *)

(** [RemoveFirst] and [RemoveLast] with their position found. *)
Definition shrink_found (h : sheap) (p pos length : Z) : outcome (sheap * Z) :=
  if 0 <=? pos then ignore (__ShrinkAtBy h p pos length) else Ok (h, p).

Definition RemoveFirst (h : sheap) (p : Z) (string : cptr) : outcome (sheap * Z) :=
  n <- string_length h string;;
  let length := i32 n in
  if 0 <? length then pos <- __ShortFindAfter h p string;; shrink_found h p pos length else Ok (h, p).

Definition RemoveFirst_string (h : sheap) (p : Z) (string : sref) : outcome (sheap * Z) :=
  n <- Length h (data_of p string);;
  if 0 <? n then
    pos <- __ShortFindAfter h p (In (String (data_of p string)) 0);; shrink_found h p pos n
  else Ok (h, p).

Definition RemoveLast (h : sheap) (p : Z) (string : cptr) : outcome (sheap * Z) :=
  n <- string_length h string;;
  let length := i32 n in
  if 0 <? length then
    l <- Length h p;; pos <- __FindBefore h p string l length;; shrink_found h p pos length
  else Ok (h, p).

Definition RemoveLast_string (h : sheap) (p : Z) (string : sref) : outcome (sheap * Z) :=
  n <- Length h (data_of p string);;
  l <- Length h p;;
  pos <- __FindBefore h p (In (String (data_of p string)) 0) l n;;
  shrink_found h p pos n.

(** ** Replacing bytes *)

Definition replace_found (h : sheap) (p pos withThis : Z) : outcome (sheap * Z) :=
  if 0 <=? pos then
    let! (h, p, st) := __MakeWritable h p in
    if st =? B_OK then h <- store1 h p pos withThis;; Ok (h, p) else Ok (h, p)
  else Ok (h, p).

Definition ReplaceFirst_char (h : sheap) (p replaceThis withThis : Z) : outcome (sheap * Z) :=
  pos <- FindFirst_char h p replaceThis;; replace_found h p pos withThis.

Definition ReplaceLast_char (h : sheap) (p replaceThis withThis : Z) : outcome (sheap * Z) :=
  pos <- FindLast_char h p replaceThis;; replace_found h p pos withThis.

(** The loops of [Replace], where [count] bounds the replacements, and of
    [ReplaceAll]. *)
Fixpoint replace_loop (fuel : nat) (h : sheap) (p replaceThis withThis : Z) (count : option Z) (pos : Z)
  : outcome sheap :=
  match fuel with
  | O => NoFuel
  | S fuel =>
    if match count with Some n => 0 <? n | None => true end && (0 <=? pos) then
      h <- store1 h p pos withThis;;
      pos <- FindFirst_char_from h p replaceThis (pos + 1);;
      replace_loop fuel h p replaceThis withThis (match count with Some n => Some (n - 1) | None => None end) pos
    else Ok h
  end.

Definition Replace_char (h : sheap) (p replaceThis withThis maxReplaceCount fromOffset : Z) : outcome (sheap * Z) :=
  l <- Length h p;;
  let fromOffset := min_clamp0 fromOffset l in
  pos <- FindFirst_char_from h p replaceThis fromOffset;;
  if (0 <? maxReplaceCount) && (0 <=? pos) then
    let! (h, p, st) := __MakeWritable h p in
    if st =? B_OK then
      h <- replace_loop (S (Z.to_nat l)) h p replaceThis withThis (Some maxReplaceCount) pos;; Ok (h, p)
    else Ok (h, p)
  else Ok (h, p).

Definition ReplaceAll_char (h : sheap) (p replaceThis withThis fromOffset : Z) : outcome (sheap * Z) :=
  l <- Length h p;;
  let fromOffset := min_clamp0 fromOffset l in
  pos <- FindFirst_char_from h p replaceThis fromOffset;;
  if 0 <=? pos then
    let! (h, p, st) := __MakeWritable h p in
    if st =? B_OK then
      h <- replace_loop (S (Z.to_nat l)) h p replaceThis withThis None pos;; Ok (h, p)
    else Ok (h, p)
  else Ok (h, p).

(** ** Upper and lower case *)

(** [n] bytes from [i] on. *)
Fixpoint map_bytes (f : Z -> outcome Z) (h : sheap) (p : Z) (n : nat) (i : Z) : outcome sheap :=
  match n with
  | O => Ok h
  | S n => b <- load h p i;; c <- f b;; h <- store1 h p i c;; map_bytes f h p n (i + 1)
  end.

Definition change_bytes (h : sheap) (p : Z) (change : sheap -> Z -> Z -> outcome sheap) : outcome (sheap * Z) :=
  l <- Length h p;;
  if 0 <? l then
    let! (h, p, st) := __MakeWritable h p in
    if st =? B_OK then h <- change h p l;; Ok (h, p) else Ok (h, p)
  else Ok (h, p).

Definition ToLower (h : sheap) (p : Z) : outcome (sheap * Z) :=
  change_bytes h p (fun h p l => map_bytes c_tolower h p (Z.to_nat l) 0).

Definition ToUpper (h : sheap) (p : Z) : outcome (sheap * Z) :=
  change_bytes h p (fun h p l => map_bytes c_toupper h p (Z.to_nat l) 0).

Definition Capitalize (h : sheap) (p : Z) : outcome (sheap * Z) :=
  change_bytes h p (fun h p l =>
    h <- map_bytes c_toupper h p 1 0;; map_bytes c_tolower h p (Z.to_nat (l - 1)) 1).

(** To the first letter, which becomes upper case. *)
Fixpoint word_start (h : sheap) (p : Z) (n : nat) (count : Z) : outcome (sheap * Z) :=
  match n with
  | O => Ok (h, count)
  | S n =>
    b <- load h p count;;
    a <- c_isalpha b;;
    if (a : bool) then c <- c_toupper b;; h <- store1 h p count c;; Ok (h, count + 1)
    else word_start h p n (count + 1)
  end.

(** The rest of the word becomes lower case. *)
Fixpoint word_rest (h : sheap) (p : Z) (n : nat) (count : Z) : outcome (sheap * Z) :=
  match n with
  | O => Ok (h, count)
  | S n =>
    b <- load h p count;;
    a <- c_isalpha b;;
    if (a : bool) then c <- c_tolower b;; h <- store1 h p count c;; word_rest h p n (count + 1)
    else Ok (h, count)
  end.

Fixpoint word_loop (fuel : nat) (h : sheap) (p length count : Z) : outcome sheap :=
  match fuel with
  | O => NoFuel
  | S fuel =>
    let! (h, count) := word_start h p (Z.to_nat (length - count)) count in
    let! (h, count) := word_rest h p (Z.to_nat (length - count)) count in
    if count <? length then word_loop fuel h p length count else Ok h
  end.

Definition CapitalizeEachWord (h : sheap) (p : Z) : outcome (sheap * Z) :=
  change_bytes h p (fun h p l => word_loop (S (Z.to_nat l)) h p l 0).

(** ** Trimming *)

Fixpoint trim_start (h : sheap) (p : Z) (n : nat) (i : Z) : outcome Z :=
  match n with
  | O => NoFuel
  | S n => b <- load h p i;; s <- c_isspace b;; if (s : bool) then trim_start h p n (i + 1) else Ok i
  end.

(** [endIndex] is [startCount + n - 1]. *)
Fixpoint trim_end (h : sheap) (p startCount : Z) (n : nat) : outcome Z :=
  match n with
  | O => Ok (startCount - 1)
  | S n =>
    let endIndex := startCount + Z.of_nat n in
    b <- load h p endIndex;;
    s <- c_isspace b;;
    if (s : bool) then trim_end h p startCount n else Ok endIndex
  end.

Definition Trim (h : sheap) (p : Z) : outcome (sheap * Z) :=
  l <- Length h p;;
  if l <=? 0 then Ok (h, p)
  else
    startCount <- trim_start h (String p) (S (Z.to_nat l)) 0;;
    endIndex <- trim_end h (String p) startCount (Z.to_nat (l - startCount));;
    if (startCount =? 0) && (endIndex =? l - 1) then Ok (h, p)
    else
      let length := endIndex + 1 - startCount in
      cassert (0 <=? length);;;
      if (startCount =? 0) || (length =? 0) then ignore (__MakeWritable_to h p length true)
      else
        let! (h, p, st) := __MakeWritable h p in
        if st =? B_OK then
          h <- memmove h p 0 startCount length;;
          h <- store1 h p length 0;;
          h <- __SetLength h p length;;
          Ok (h, p)
        else Ok (h, p).

(** ** Buffers for the caller *)

(** The pointer that is returned, or [NULL]. *)
Definition LockBuffer (h : sheap) (p maxLength : Z) : outcome (sheap * Z * Z) :=
  l <- Length h p;;
  let length := if l <? maxLength then maxLength else l in
  let! (h, p, st) := __MakeWritable_to h p length true in
  if negb (st =? B_OK) then Ok (h, p, NULL)
  else h <- set_DataRefCount h p (-1);; Ok (h, p, p).

Definition UnlockBuffer (h : sheap) (p length : Z) : outcome (sheap * Z) :=
  length <- (if 0 <? length then l <- Length h p;; Ok (min_clamp0 length l)
             else if p =? NULL then Ok 0 else c_strlen h (In p 0));;
  let! (h, p, r) := __Resize h p length in
  if negb (r =? NULL) then
    h <- store1 h p length 0;; h <- set_DataRefCount h p 1;; Ok (h, p)
  else Ok (h, p).

(** *** BStringRef *)

Definition StringRef_get (h : sheap) (p fPosition : Z) : outcome Z :=
  l <- Length h p;; if fPosition <? l then load h p fPosition else Ok 0.

Definition StringRef_set (h : sheap) (p fPosition c : Z) : outcome (sheap * Z) :=
  let! (h, p, _) := __MakeWritable h p in
  h <- store1 h p fPosition c;; Ok (h, p).

Definition StringRef_addr (h : sheap) (p fPosition : Z) : outcome (sheap * Z * cptr) :=
  let! (h, p, st) := __MakeWritable h p in
  if negb (st =? B_OK) then Ok (h, p, CNull)
  else h <- set_DataRefCount h p (-1);; Ok (h, p, In p fPosition).

(** *** Characters *)

Definition CharAt (h : sheap) (p charIndex : Z) (bytes : bool) : outcome (cptr * option Z) :=
  offset <- count_bytes_at h (In p 0) charIndex;;
  if bytes then
    m <- text h (In p offset);; n <- UTF8NextCharLen (Some m);; Ok (In p offset, Some n)
  else Ok (In p offset, None).

Definition CharAt_buffer (h : sheap) (p charIndex : Z) (room : option Z) : outcome (option (list (option Z))) :=
  let! (charAt, n) := CharAt h p charIndex true in
  let length := match n with Some n => n | None => 0 end in
  if match room with Some r => r <? length | None => false end then Ok None
  else
    x <- (if length =? 0 then Ok [] else src <- cells h charAt;; rdn src 0 length);; Ok (Some x).

(** *** Offsets in characters *)

Definition SetToChars (h : sheap) (p : Z) (string : cptr) (charCount : Z) : outcome (sheap * Z) :=
  n <- count_bytes_at h string charCount;; SetTo h p string n.

Definition SetToChars_string (h : sheap) (p : Z) (string : sref) (charCount : Z) : outcome (sheap * Z) :=
  n <- count_bytes_at h (In (String (data_of p string)) 0) charCount;; SetTo_string_max h p string n.

Definition CompareChars (h : sheap) (p : Z) (string : cptr) (charCount : Z) : outcome Z :=
  n <- count_bytes_at h (In p 0) charCount;; Compare_max h p string n.

Definition FindFirstChars (h : sheap) (p : Z) (string : cptr) (fromCharOffset : Z) : outcome Z :=
  n <- count_bytes_at h (In p 0) fromCharOffset;; FindFirst_from h p string n.

Definition FindFirstChars_string (h : sheap) (p q fromCharOffset : Z) : outcome Z :=
  n <- count_bytes_at h (In p 0) fromCharOffset;; FindFirst_string_from h p q n.

Definition FindLastChars (h : sheap) (p : Z) (string : cptr) (beforeCharOffset : Z) : outcome Z :=
  n <- count_bytes_at h (In p 0) beforeCharOffset;; FindLast_before h p string n.

Definition FindLastChars_string (h : sheap) (p q beforeCharOffset : Z) : outcome Z :=
  n <- count_bytes_at h (In p 0) beforeCharOffset;; FindLast_string_before h p q n.

Definition MoveInto_buffer (h : sheap) (p : Z) (into : bool) (from length : Z)
  : outcome (sheap * Z * list (option Z)) :=
  if into then
    x <- CopyInto_buffer h p true from length;;
    let! (h, p) := Remove h p from length in Ok (h, p, x)
  else Ok (h, p, []).

Definition MoveCharsInto (h : sheap) (p : Z) (into : option Z) (fromCharOffset charCount : Z)
  : outcome (sheap * Z * option Z) :=
  if 0 <? charCount then
    let! (h, into) := CopyCharsInto h p into fromCharOffset charCount in
    let! (h, p) := RemoveChars h p fromCharOffset charCount in Ok (h, p, into)
  else Ok (h, p, into).

Definition MoveCharsInto_buffer (h : sheap) (p : Z) (into : bool) (room : option Z) (fromCharOffset charCount : Z)
  : outcome (sheap * Z * option (list (option Z))) :=
  x <- CopyCharsInto_buffer h p into room fromCharOffset charCount;;
  match x with
  | None => Ok (h, p, None)
  | Some x => let! (h, p) := RemoveChars h p fromCharOffset charCount in Ok (h, p, Some x)
  end.

End Edit.
