(* ===== verification/BStringOps.v ===== *)
(** What the operations of BStringEdit.v (kits/support/String.cpp) do to the
    contents of a string, whoever shares its block. *)

From Stdlib Require Import ZArith Lia List Bool.
From stdpp Require Import base tactics list numbers gmap.
From S2P Require Import Prelude CText Utf8 BString BStringShare BStringEdit.
Local Open Scope Z_scope.
Local Open Scope c_scope.

Lemma min_clamp0_eq a b : min_clamp0 a b = Z.max 0 (Z.min a b).
Proof.
  unfold min_clamp0. destruct (Z.ltb_spec a b), (Z.ltb_spec 0 a), (Z.ltb_spec 0 b); lia.
Qed.

Lemma i32_len {A} (s : list A) : zlen s <= INT_MAX -> i32 (zlen s) = zlen s.
Proof. intros Hs. pose proof (zlen_nonneg s). unfold INT_MAX, i32 in *. rewrite swrap_id; lia. Qed.

Lemma take_all {A} (s : list A) n : zlen s <= n -> take (Z.to_nat n) s = s.
Proof. intros Hn. apply take_ge. unfold zlen in Hn. lia. Qed.

(** The first [n] of more than [n]. *)
Lemma split_at {A} (s : list A) n : 0 <= n <= zlen s -> exists a b, s = a ++ b /\ zlen a = n.
Proof.
  intros Hn. exists (take (Z.to_nat n) s), (drop (Z.to_nat n) s). rewrite take_drop. split; [done|].
  unfold zlen in *. rewrite length_take. lia.
Qed.

Section Ops.
Context `{MemoryOk} `{MembersOk}.

(** ** Growing *)

(** The buffer that [__DoAppend] and its like start with. *)
Lemma grow_spec h p F s n :
  string_of h p F s -> 0 <= n -> zlen s + n <= INT_MAX ->
  (exists h' q y rest, __MakeWritable_to h p (zlen s + n) true = Ok (h', q, B_OK)
     /\ owned h' q F (zlen s + n) (map Some s ++ y ++ Some 0 :: rest) /\ zlen y = n /\ keeps h h' F)
  \/ __MakeWritable_to h p (zlen s + n) true = Ok (h, p, B_NO_MEMORY) /\ exhausted.
Proof.
  intros Hst Hn Hm. pose proof (zlen_nonneg s).
  destruct (MakeWritable_to_spec h p F s (zlen s + n) true Hst) as [(h1 & q & x & rest & -> & Hown & Hx & Hy & Hk)|Hex];
    [lia| |by right].
  left. destruct (Hy I) as (y & ->). rewrite take_all in * by lia. rewrite <- app_assoc in Hown.
  exists h1, q, y, rest. rewrite zlen_app, zlen_map in Hx. split; [done|]. split; [done|]. split; [lia|done].
Qed.

Lemma DoAppend_spec h p F s c u n :
  string_of h p F s -> gives h c n u -> elsewhere F c -> 0 <= n -> zlen s + n <= INT_MAX ->
  (exists h' q rest, __DoAppend h p c n = Ok (h', q, true)
     /\ owned h' q F (zlen s + n) (map Some s ++ map Some u ++ Some 0 :: rest) /\ keeps h h' F)
  \/ __DoAppend h p c n = Ok (h, p, false) /\ exhausted.
Proof.
  intros Hst Hc He Hn Hm. unfold __DoAppend. pose proof (zlen_nonneg s).
  rewrite (Length_holds h p s) by apply Hst. cbn [obind]. rewrite add_int_ok by (unfold INT_MIN; lia). cbn [obind].
  destruct (grow_spec h p F s n Hst Hn Hm) as [(h1 & q & y & rest & -> & Hown & Hy & Hk)|[-> Hex]]; [|by right].
  left. cbn [obind]. change (B_OK =? B_OK) with true. cbn [obind].
  destruct (strncpy_mid h1 q F _ _ y _ (zlen s) c u n Hown) as (h2 & -> & Hown2 & Hk2);
    [by rewrite zlen_map|done|lia|by eapply keeps_gives|done|].
  exists h2, q, rest. split; [done|]. split; [done|by eapply keeps_trans].
Qed.

(** Opening a gap of [n] bytes behind [s1], which keeps what was there. *)
Lemma gap_spec h q F s1 s2 y rest n :
  owned h q F (zlen (s1 ++ s2) + n) (map Some (s1 ++ s2) ++ y ++ Some 0 :: rest) -> zlen y = n -> 0 <= n ->
  exists h' x, memmove h q (zlen s1 + n) (zlen s1) (zlen s2) = Ok h'
    /\ owned h' q F (zlen (s1 ++ s2) + n) (map Some s1 ++ x ++ map Some s2 ++ Some 0 :: rest) /\ zlen x = n
    /\ keeps h h' F.
Proof.
  intros Hown Hy Hn. rewrite map_app, <- app_assoc in Hown.
  destruct (split_at (map Some s2 ++ y) n) as (x & z & E & Hx); [rewrite zlen_app; pose proof (zlen_nonneg (map Some s2)); lia|].
  assert (Hz : zlen z = zlen s2) by (apply (f_equal zlen) in E; rewrite !zlen_app, zlen_map in E; lia).
  assert (E2 : map Some s1 ++ map Some s2 ++ y ++ Some 0 :: rest = (map Some s1 ++ x) ++ z ++ Some 0 :: rest).
  { rewrite (app_assoc (map Some s2) y), E. by rewrite <- !app_assoc. }
  rewrite E2 in Hown. rewrite zlen_app in *.
  destruct (memmove_mid h q F _ _ _ _ (map Some s1) (map Some s2) (y ++ Some 0 :: rest) (zlen s1 + n) (zlen s1) (zlen s2) Hown)
    as (h1 & -> & Hown1 & Hk1).
  - by rewrite <- E2.
  - rewrite zlen_app, zlen_map. lia.
  - by rewrite zlen_map.
  - done.
  - by rewrite zlen_map.
  - lia.
  - exists h1, x. rewrite <- app_assoc in Hown1. done.
Qed.

Lemma DoInsert_spec h p F s1 s2 c u n :
  string_of h p F (s1 ++ s2) -> is_null c = false -> gives h c n u -> elsewhere F c -> 0 <= n ->
  zlen (s1 ++ s2) + n <= INT_MAX ->
  (exists h' q rest, __DoInsert h p c (zlen s1) n = Ok (h', q, true)
     /\ owned h' q F (zlen (s1 ++ s2) + n) (map Some s1 ++ map Some u ++ map Some s2 ++ Some 0 :: rest) /\ keeps h h' F)
  \/ __DoInsert h p c (zlen s1) n = Ok (h, p, false) /\ exhausted.
Proof.
  intros Hst Hcn Hc He Hn Hm. unfold __DoInsert. pose proof (zlen_nonneg (s1 ++ s2)). pose proof (zlen_nonneg s2).
  rewrite (Length_holds h p (s1 ++ s2)) by apply Hst. cbn [obind]. rewrite add_int_ok by (unfold INT_MIN; lia). cbn [obind].
  destruct (grow_spec h p F _ n Hst Hn Hm) as [(h1 & q & y & rest & -> & Hown & Hy & Hk)|[-> Hex]]; [|by right].
  left. cbn [obind]. change (B_OK =? B_OK) with true. cbn [obind]. rewrite Hcn. cbn [negb andb].
  destruct (gap_spec h1 q F s1 s2 y rest n Hown Hy Hn) as (h2 & x & E & Hown2 & Hx & Hk2).
  rewrite (zlen_app s1 s2). replace (zlen s1 + zlen s2 - zlen s1) with (zlen s2) by lia. rewrite E. cbn [obind].
  pose proof (keeps_gives _ _ _ _ _ _ (keeps_trans _ _ _ _ Hk Hk2) He Hc) as Hc2.
  destruct (Z.eqb_spec n 0) as [->|Hn0].
  - cbn [negb obind]. exists h2, q, rest. rewrite <- zlen_app. split; [done|]. split; [|by eapply keeps_trans].
    pose proof (gives_len h c 0 u ltac:(lia) Hc). destruct x, u; [done|zl..].
  - cbn [negb]. destruct (strncpy_mid h2 q F _ _ x _ (zlen s1) c u n Hown2) as (h3 & -> & Hown3 & Hk3);
      [by rewrite zlen_map|done|rewrite zlen_app; lia|done|done|].
    cbn [obind]. exists h3, q, rest. rewrite <- zlen_app. split; [done|]. split; [done|eauto using keeps_trans].
Qed.

Lemma DoPrepend_eq h p c n :
  __DoPrepend h p c n = __DoInsert h p c 0 n.
Proof.
  unfold __DoPrepend, __DoInsert. destruct (Length h p) as [l| | |]; cbn [obind]; [|done..].
  by rewrite Z.sub_0_r, Z.add_0_l.
Qed.

(** *** The object afterwards *)

Lemma sets_append h p F s c u n :
  string_of h p F s -> gives h c n u -> elsewhere F c -> 0 <= n -> zlen s + n <= INT_MAX -> cstr_ok u ->
  sets h p F (s ++ u) (ignore (__DoAppend h p c n)).
Proof.
  intros Hst Hc He Hn Hm Hu. unfold ignore.
  destruct (DoAppend_spec h p F s c u n Hst Hc He Hn Hm) as [(h1 & q & rest & -> & Hown & Hk)|[-> Hex]]; [|by right].
  left. cbn [obind]. rewrite app_assoc, <- map_app in Hown.
  rewrite <- (gives_len h c n u Hn Hc), <- zlen_app in Hown.
  eapply becomes_owned; [done| |done]. apply Forall_app. split; [apply Hst|done].
Qed.

Lemma sets_insert h p F s1 s2 c u n :
  string_of h p F (s1 ++ s2) -> is_null c = false -> gives h c n u -> elsewhere F c -> 0 <= n ->
  zlen (s1 ++ s2) + n <= INT_MAX -> cstr_ok u ->
  sets h p F (s1 ++ u ++ s2) (ignore (__DoInsert h p c (zlen s1) n)).
Proof.
  intros Hst Hcn Hc He Hn Hm Hu. unfold ignore.
  destruct (DoInsert_spec h p F s1 s2 c u n Hst Hcn Hc He Hn Hm) as [(h1 & q & rest & -> & Hown & Hk)|[-> Hex]]; [|by right].
  left. cbn [obind]. rewrite (app_assoc (map Some u)), (app_assoc (map Some s1)), <- !map_app in Hown.
  replace (zlen (s1 ++ s2) + n) with (zlen (s1 ++ u ++ s2)) in Hown by (pose proof (gives_len h c n u Hn Hc); zl).
  eapply becomes_owned; [done| |done]. destruct Hst as [_ [Hs _]]. apply Forall_app in Hs as [H1s H2s].
  unfold cstr_ok. rewrite !Forall_app. done.
Qed.

Lemma sets_same h p F s : string_of h p F s -> sets h p F s (Ok (h, p)).
Proof. intros. left. by apply becomes_same. Qed.

(** *** Appending *)

Lemma gives_all h c t : reads h c t -> gives h c (zlen t) t.
Proof. intros Hc. pose proof (reads_gives h c t (zlen t) Hc) as Hg. by rewrite cloned_id in Hg. Qed.

Lemma gives_take h c t n : reads h c t -> 0 <= n <= zlen t -> gives h c n (take (Z.to_nat n) t).
Proof. intros Hc Hn. pose proof (reads_gives h c t n Hc) as Hg. by rewrite cloned_short in Hg. Qed.

Lemma Append_cstr_spec h p F s c t :
  string_of h p F s -> reads h c t -> elsewhere F c -> zlen s + zlen t <= INT_MAX ->
  sets h p F (s ++ t) (Append_cstr h p c).
Proof.
  intros Hst Hc He Hm. unfold Append_cstr. pose proof (zlen_nonneg s). pose proof (zlen_nonneg t).
  rewrite (reads_not_null h c t Hc), (strlen_reads h c t Hc). cbn [negb obind]. rewrite i32_len by lia.
  destruct (Z.ltb_spec 0 (zlen t)).
  - apply sets_append; [done|by apply gives_all|done|lia|lia|apply Hc].
  - destruct t; [|zl]. rewrite app_nil_r. by apply sets_same.
Qed.

Lemma Append_max_spec h p F s c t n :
  string_of h p F s -> reads h c t -> elsewhere F c -> zlen s + zlen t <= INT_MAX ->
  sets h p F (s ++ take (Z.to_nat n) t) (Append_max h p c n).
Proof.
  intros Hst Hc He Hm. unfold Append_max. pose proof (zlen_nonneg s). pose proof (zlen_nonneg t).
  rewrite (reads_not_null h c t Hc), (strlen_clamp_reads h c t) by done. cbn [negb obind].
  assert (E : take (Z.to_nat n) t = take (Z.to_nat (Z.max 0 (Z.min n (zlen t)))) t).
  { destruct (Z.le_ge_cases n (zlen t)); [by replace (Z.to_nat (Z.max 0 (Z.min n (zlen t)))) with (Z.to_nat n) by lia|].
    rewrite !take_all by lia. done. }
  rewrite E. set (m := Z.max 0 (Z.min n (zlen t))). assert (0 <= m <= zlen t) by (unfold m; lia). clearbody m.
  destruct (Z.ltb_spec 0 m).
  - apply sets_append; [done|by apply gives_take|done|lia|lia|apply cstr_take, Hc].
  - replace m with 0 by lia. rewrite app_nil_r. by apply sets_same.
Qed.

Lemma Append_byte_spec h p F s c :
  string_of h p F s -> 0 < c < 256 -> zlen s + 1 <= INT_MAX -> sets h p F (s ++ [c]) (Append_byte h p c).
Proof.
  intros Hst Hc Hm. apply sets_append; [done| |done|lia|lia|by constructor].
  exists [c]. split; [done|]. change (Z.to_nat 1) with 1%nat. cbn [strncpy_bytes]. by rewrite (proj2 (Z.eqb_neq c 0)) by lia.
Qed.

(** A buffer of a character repeated. *)
Lemma gives_zeros h n : 0 <= n -> gives h (lit []) n (replicate (Z.to_nat n) 0).
Proof. intros Hn. eexists. split; [done|]. by destruct (Z.to_nat n). Qed.

Lemma Append_char_spec h p F s c n :
  string_of h p F s -> 0 < c < 256 -> zlen s + Z.max 0 n <= INT_MAX ->
  sets h p F (s ++ replicate (Z.to_nat n) c) (Append_char h p c n).
Proof.
  intros Hst Hc Hm. unfold Append_char. rewrite (Length_holds h p s) by apply Hst. cbn [obind].
  destruct (Z.ltb_spec 0 n) as [Hn|Hn].
  2: { replace (Z.to_nat n) with 0%nat by lia. rewrite app_nil_r. by apply sets_same. }
  destruct (DoAppend_spec h p F s (lit []) (replicate (Z.to_nat n) 0) n Hst) as [(h1 & q & rest & -> & Hown & Hk)|[-> Hex]];
    [by apply gives_zeros; lia|done|lia|lia| |by right].
  left. cbn [obind].
  destruct (memset_mid h1 q F _ _ _ _ (zlen s) c n Hown) as (h2 & -> & Hown2 & Hk2);
    [by rewrite zlen_map|by rewrite zlen_map, zlen_replicate; lia|lia|].
  cbn [obind]. rewrite u8_id, app_assoc, <- map_app in Hown2 by done.
  replace (zlen s + n) with (zlen (s ++ replicate (Z.to_nat n) c)) in Hown2 by (rewrite zlen_app, zlen_replicate; lia).
  eapply becomes_owned; [done| |by eapply keeps_trans]. apply Forall_app. split; [apply Hst|by apply cstr_replicate].
Qed.

Lemma Append_string_other h p F s q t :
  string_of h p F s -> q ∈ F -> holds h q t -> zlen s + zlen t <= INT_MAX ->
  sets h p F (s ++ t) (Append_string h p (Other q)).
Proof.
  intros Hst Hq Ht Hm. unfold Append_string. pose proof (zlen_nonneg t). pose proof (zlen_nonneg s).
  cbn [data_of]. rewrite (Length_holds h q t Ht), String_data. cbn [obind].
  destruct (Z.ltb_spec 0 (zlen t)).
  - apply sets_append; [done|by apply gives_all, holds_reads|done|lia|lia|apply Ht].
  - destruct t; [|zl]. rewrite app_nil_r. by apply sets_same.
Qed.

Lemma Append_string_max_other h p F s q t n :
  string_of h p F s -> q ∈ F -> holds h q t -> zlen s + zlen t <= INT_MAX ->
  sets h p F (s ++ take (Z.to_nat n) t) (Append_string_max h p (Other q) n).
Proof.
  intros Hst Hq Ht Hm. pose proof (Append_max_spec h p F s (In q 0) t n Hst (holds_reads h q t Ht) Hq Hm) as Hs.
  unfold Append_string_max, Append_max in *. rewrite (Length_holds h q t Ht). cbn [obind]. rewrite min_clamp0_eq.
  cbn [is_null negb] in Hs. rewrite (strlen_clamp_reads h (In q 0) t) in Hs by (by apply holds_reads).
  done.
Qed.

(** *** Inserting *)

(** What is left of [t] when it is inserted before the beginning. *)
Definition cut (t : list Z) (position : Z) : list Z := drop (Z.to_nat (- position)) t.

Lemma insert_at_spec h p F s c t n position :
  string_of h p F s -> reads h c t -> elsewhere F c -> 0 <= n <= zlen t -> zlen s + n <= INT_MAX ->
  INT_MIN < position <= zlen s ->
  sets h p F (take (Z.to_nat position) s ++ cut (take (Z.to_nat n) t) position ++ drop (Z.to_nat position) s)
    (insert_at h p c n position).
Proof.
  intros Hst Hc He Hn Hm Hp. unfold insert_at, cut. destruct (Z.ltb_spec position 0) as [Hneg|Hpos].
  - rewrite assert_int_ok by (unfold INT_MIN, INT_MAX in *; lia). cbn [obind]. rewrite min_clamp0_eq.
    set (k := Z.max 0 (Z.min (-1 * position) n)). assert (Hk : 0 <= k <= n) by (unfold k; lia).
    replace (Z.to_nat position) with 0%nat by lia. cbn [take app]. rewrite drop_0.
    replace (drop (Z.to_nat (- position)) (take (Z.to_nat n) t)) with (take (Z.to_nat (n - k)) (drop (Z.to_nat k) t)).
    2: { rewrite !skipn_firstn_comm. unfold zlen in *. destruct (Z.le_gt_cases (- position) n).
         - replace (Z.to_nat (- position)) with (Z.to_nat k) by lia. f_equal. lia.
         - replace (n - k) with 0 by lia. replace (Z.to_nat n - Z.to_nat (- position))%nat with 0%nat by lia. done. }
    apply (sets_insert h p F [] s); [done| | | |lia|cbn; lia|].
    + pose proof (reads_not_null h c t Hc). by destruct c.
    + apply gives_take; [apply reads_cadd; [done|lia]|]. unfold zlen in *. rewrite length_drop. lia.
    + destruct c; done.
    + apply cstr_take, Forall_drop, Hc.
  - rewrite (Length_holds h p s) by apply Hst. cbn [obind]. rewrite min_clamp0_eq.
    replace (Z.max 0 (Z.min position (zlen s))) with position by lia.
    replace (Z.to_nat (- position)) with 0%nat by lia. rewrite drop_0.
    pose proof (sets_insert h p F (take (Z.to_nat position) s) (drop (Z.to_nat position) s) c (take (Z.to_nat n) t) n) as Hi.
    rewrite take_drop in Hi.
    replace (zlen (take (Z.to_nat position) s)) with position in Hi by (unfold zlen in *; rewrite length_take; lia).
    apply Hi; [done|by eapply reads_not_null|by apply gives_take|done|lia|lia|apply cstr_take, Hc].
Qed.

Lemma Insert_spec h p F s c t position :
  string_of h p F s -> reads h c t -> elsewhere F c -> zlen s + zlen t <= INT_MAX ->
  INT_MIN < position <= zlen s ->
  sets h p F (take (Z.to_nat position) s ++ cut t position ++ drop (Z.to_nat position) s) (Insert h p c position).
Proof.
  intros Hst Hc He Hm Hp. unfold Insert. rewrite (Length_holds h p s) by apply Hst. cbn [obind].
  pose proof (zlen_nonneg s). pose proof (zlen_nonneg t).
  rewrite (reads_not_null h c t Hc), (proj2 (Z.leb_le _ _)), (strlen_reads h c t Hc) by (done || lia). cbn [negb andb obind].
  rewrite i32_len by lia. pose proof (insert_at_spec h p F s c t (zlen t) position Hst Hc He) as Hi.
  rewrite (take_all t) in Hi by lia. apply Hi; lia.
Qed.

Lemma Insert_max_spec h p F s c t n position :
  string_of h p F s -> reads h c t -> elsewhere F c -> zlen s + zlen t <= INT_MAX ->
  INT_MIN < position <= zlen s ->
  sets h p F (take (Z.to_nat position) s ++ cut (take (Z.to_nat n) t) position ++ drop (Z.to_nat position) s)
    (Insert_max h p c n position).
Proof.
  intros Hst Hc He Hm Hp. unfold Insert_max. rewrite (Length_holds h p s) by apply Hst. cbn [obind].
  pose proof (zlen_nonneg s). pose proof (zlen_nonneg t).
  rewrite (reads_not_null h c t Hc), (proj2 (Z.leb_le _ _)), (strlen_clamp_reads h c t) by (done || lia). cbn [negb andb obind].
  replace (take (Z.to_nat n) t) with (take (Z.to_nat (Z.max 0 (Z.min n (zlen t)))) t).
  - apply insert_at_spec; [done..|lia|lia|lia].
  - destruct (Z.le_ge_cases n (zlen t)); [by replace (Z.to_nat (Z.max 0 (Z.min n (zlen t)))) with (Z.to_nat n) by lia|].
    rewrite !take_all by lia. done.
Qed.

Lemma Insert_beyond h p F s c position :
  string_of h p F s -> zlen s < position -> Insert h p c position = Ok (h, p).
Proof.
  intros Hst Hp. unfold Insert. rewrite (Length_holds h p s) by apply Hst. cbn [obind].
  by rewrite (proj2 (Z.leb_gt _ _)), andb_false_r by lia.
Qed.

(** ** Shrinking *)

Lemma first_bytes_exact s r : first_bytes (map Some s ++ r) (zlen s) = map Some s.
Proof.
  unfold first_bytes. rewrite <- app_assoc, take_app_le by (rewrite length_map; unfold zlen; lia).
  apply take_ge. rewrite length_map. unfold zlen. lia.
Qed.

(** Cutting an owned block to a text. *)
Lemma resize_text h p F len s r :
  owned h p F len (map Some s ++ r) -> zlen s <= INT_MAX -> cstr_ok s ->
  (exists h' q, __Resize h p (zlen s) = Ok (h', q, q) /\ q <> NULL /\ string_of h' q F s /\ keeps h h' F)
  \/ exhausted.
Proof.
  intros Ho Hm Hs. pose proof (zlen_nonneg s).
  destruct (buf_Resize_spec h p F len _ (zlen s) Ho) as [(h' & q & rest & E & Hq & Ho' & Hk)|[_ Hex]]; [lia| |by right].
  left. exists h', q. split; [done|]. split; [done|]. split; [|done].
  rewrite first_bytes_exact in Ho'. by eapply owned_text.
Qed.

Lemma ShrinkAtBy_spec h p F s1 m s2 :
  string_of h p F (s1 ++ m ++ s2) ->
  (exists h' q, __ShrinkAtBy h p (zlen s1) (zlen m) = Ok (h', q, q) /\ q <> NULL
     /\ string_of h' q F (s1 ++ s2) /\ keeps h h' F) \/ exhausted.
Proof.
  intros Hst. unfold __ShrinkAtBy. pose proof (string_len _ _ _ _ Hst) as Hl.
  rewrite (Length_holds h p (s1 ++ m ++ s2)) by apply Hst. cbn [obind].
  destruct (MakeWritable_spec h p F _ Hst) as [(h1 & q & rest & -> & Hown & Hk)|Hex]; [|by right].
  cbn [obind]. change (negb (B_OK =? B_OK)) with false. cbn [obind].
  destruct (split_at (m ++ s2) (zlen s2)) as (x & z & E & Hx); [rewrite zlen_app; pose proof (zlen_nonneg m); pose proof (zlen_nonneg s2); lia|].
  assert (E2 : map Some (s1 ++ m ++ s2) ++ Some 0 :: rest = map Some s1 ++ map Some x ++ map Some z ++ Some 0 :: rest)
    by (by rewrite E, !map_app, <- !app_assoc).
  rewrite E2 in Hown.
  destruct (memmove_mid h1 q F _ _ _ _ (map Some (s1 ++ m)) (map Some s2) (Some 0 :: rest) (zlen s1) (zlen s1 + zlen m) (zlen s2) Hown)
    as (h2 & E3 & Hown2 & Hk2); [by rewrite <- E2, !map_app, <- !app_assoc|by rewrite zlen_map|by rewrite zlen_map, zlen_app
      |by rewrite zlen_map|by rewrite zlen_map|rewrite !zlen_app; pose proof (zlen_nonneg m); lia|].
  rewrite !zlen_app. replace (zlen s1 + (zlen m + zlen s2) - zlen s1 - zlen m) with (zlen s2) by lia. rewrite E3. cbn [obind].
  replace (zlen s1 + (zlen m + zlen s2) - zlen m) with (zlen (s1 ++ s2)) by (rewrite zlen_app; lia).
  rewrite (app_assoc (map Some s1)), <- map_app in Hown2.
  destruct (resize_text h2 q F _ (s1 ++ s2) _ Hown2) as [(h3 & r & -> & Hr & Hs3 & Hk3)|Hex]; [zl| | |by right].
  - destruct Hst as [_ [Hs _]]. unfold cstr_ok in *. rewrite !Forall_app in *. tauto.
  - left. exists h3, r. do 3 (split; [done|]). eauto using keeps_trans.
Qed.

Lemma becomes_shrink h p F s1 m s2 :
  string_of h p F (s1 ++ m ++ s2) ->
  becomes h F (s1 ++ s2) (ignore (__ShrinkAtBy h p (zlen s1) (zlen m))) \/ exhausted.
Proof.
  intros Hst. destruct (ShrinkAtBy_spec h p F s1 m s2 Hst) as [(h' & q & -> & _ & Hs & Hk)|Hex]; [|by right].
  left. exists h', q. done.
Qed.

(** Keeping a prefix. *)
Lemma sets_prefix h p F s n :
  string_of h p F s -> 0 <= n <= zlen s ->
  sets h p F (take (Z.to_nat n) s) (ignore (__MakeWritable_to h p n true)).
Proof.
  intros Hst Hn. pose proof (string_len _ _ _ _ Hst) as Hl. unfold ignore.
  destruct (MakeWritable_to_spec h p F s n true Hst) as [(h1 & q & x & rest & -> & Hown & Hx & Hy & Hk)|[-> Hex]];
    [lia| |by right].
  left. cbn [obind]. destruct (Hy I) as (y & ->).
  assert (Hz : zlen (take (Z.to_nat n) s) = n) by (unfold zlen in *; rewrite length_take; lia).
  rewrite zlen_app, zlen_map in Hx. destruct y; [|zl]. rewrite app_nil_r, <- Hz in Hown at 1.
  eapply becomes_owned; [done|apply cstr_take, Hst|done].
Qed.

Lemma Truncate_spec h p F s n lazy :
  string_of h p F s -> sets h p F (take (Z.to_nat n) s) (Truncate h p n lazy).
Proof.
  intros Hst. unfold Truncate. rewrite (Length_holds h p s) by apply Hst. cbn [obind].
  set (m := if n <? 0 then 0 else n). assert (Hm : 0 <= m) by (unfold m; destruct (Z.ltb_spec n 0); lia).
  replace (Z.to_nat n) with (Z.to_nat m) by (unfold m; destruct (Z.ltb_spec n 0); lia). clearbody m.
  destruct (Z.ltb_spec m (zlen s)).
  - apply sets_prefix; [done|lia].
  - rewrite take_all by lia. by apply sets_same.
Qed.

Lemma Remove_spec h p F s from n :
  string_of h p F s -> 0 <= from ->
  becomes h F (take (Z.to_nat from) s ++ drop (Z.to_nat (from + Z.max 0 n)) s) (Remove h p from n) \/ exhausted.
Proof.
  intros Hst Hf. unfold Remove. rewrite (Length_holds h p s) by apply Hst. cbn [obind].
  pose proof (string_len _ _ _ _ Hst) as Hl.
  destruct (Z.ltb_spec 0 n) as [Hn|Hn]; [destruct (Z.ltb_spec from (zlen s)) as [Hlt|Hge]|]; cbn [andb].
  - rewrite assert_int_ok by (unfold INT_MIN; lia). cbn [obind]. rewrite min_clamp0_eq.
    assert (Hk : exists k, k = Z.max 0 (Z.min n (zlen s - from))) by eauto. destruct Hk as (k & Hk). rewrite <- Hk.
    destruct (split_at s from) as (s1 & s' & -> & Hs1); [lia|]. rewrite zlen_app in *.
    destruct (split_at s' k) as (m & s2 & -> & Hm); [lia|]. rewrite zlen_app in *.
    pose proof (becomes_shrink h p F s1 m s2 Hst) as Hb. rewrite Hs1, Hm in Hb.
    rewrite take_app_le, take_ge by (unfold zlen in *; lia).
    replace (drop (Z.to_nat (from + Z.max 0 n)) (s1 ++ m ++ s2)) with s2; [done|].
    destruct (Z.le_ge_cases n (zlen m + zlen s2)).
    + rewrite app_assoc, drop_app_ge by (rewrite length_app; unfold zlen in *; lia).
      rewrite length_app. replace (_ - _)%nat with 0%nat by (unfold zlen in *; lia). done.
    + assert (zlen s2 = 0) by (pose proof (zlen_nonneg s2); lia). destruct s2; [|zl]. rewrite drop_ge; [done|].
      rewrite !length_app. unfold zlen in *. cbn [length]. lia.
  - left. rewrite take_all, drop_ge, app_nil_r by (unfold zlen in *; lia). by apply becomes_same.
  - left. replace (from + Z.max 0 n) with from by lia. rewrite take_drop. by apply becomes_same.
Qed.

(** ** Changing bytes in place *)

Lemma load_owned h p F len a b r i :
  owned h p F len (a ++ Some b :: r) -> i = zlen a -> load h p i = Ok b.
Proof.
  intros (b0 & (_ & _ & E) & _ & D) Hi. unfold load. rewrite E. cbn [obind]. rewrite D, (rd_mid a) by done. done.
Qed.

Lemma store1_mid h p F len a b r i v :
  owned h p F len (a ++ b :: r) -> i = zlen a -> i < len -> byte_ok v ->
  exists h', store1 h p i v = Ok h' /\ owned h' p F len (a ++ Some v :: r) /\ keeps h h' F.
Proof.
  intros Ho Hi Hl Hv. unfold store1. replace (u8 v) with v by (symmetry; apply uwrap_id; unfold byte_ok in Hv; lia).
  destruct (store_mid h p F len a [b] [Some v] r i Ho Hi eq_refl) as (h' & E & Ho' & Hk); [change (zlen [b]) with 1; lia|]. eauto.
Qed.

Lemma map_bytes_spec f g h p F len a s r :
  Forall (fun b => f b = Ok (g b) /\ byte_ok (g b)) s ->
  owned h p F len (a ++ map Some s ++ r) -> zlen a + zlen s <= len ->
  exists h', map_bytes f h p (length s) (zlen a) = Ok h'
    /\ owned h' p F len (a ++ map Some (map g s) ++ r) /\ keeps h h' F.
Proof.
  intros Hf. revert h a. induction Hf as [|b s [Hb Hg] Hf IH]; intros h a Ho Hl.
  { exists h. split; [done|]. split; [done|apply keeps_refl]. }
  rewrite zlen_cons in Hl. pose proof (zlen_nonneg s). pose proof (zlen_nonneg a). cbn [length map_bytes map app] in *.
  rewrite (load_owned _ _ _ _ _ _ _ _ Ho) by done. cbn [obind]. rewrite Hb. cbn [obind].
  destruct (store1_mid _ _ _ _ _ _ _ (zlen a) (g b) Ho) as (h1 & -> & Ho1 & Hk1); [done|lia|done|]. cbn [obind].
  destruct (IH h1 (a ++ [Some (g b)])) as (h2 & E & Ho2 & Hk2); [by rewrite <- app_assoc|rewrite zlen_snoc; lia|].
  rewrite zlen_snoc in E. exists h2. split; [done|]. rewrite <- app_assoc in Ho2. split; [done|by eapply keeps_trans].
Qed.

(** An operation that changes a string of at least one byte in its block. *)
Lemma change_bytes_spec h p F s s' change :
  string_of h p F s -> zlen s' = zlen s -> cstr_ok s' ->
  (forall h q rest, owned h q F (zlen s) (map Some s ++ Some 0 :: rest) -> 0 < zlen s ->
     exists h', change h q (zlen s) = Ok h' /\ owned h' q F (zlen s) (map Some s' ++ Some 0 :: rest) /\ keeps h h' F) ->
  becomes h F s' (change_bytes h p change) \/ exhausted.
Proof.
  intros Hst Hl Hs' Hc. unfold change_bytes. rewrite (Length_holds h p s) by apply Hst. cbn [obind].
  destruct (Z.ltb_spec 0 (zlen s)) as [Hp|Hp].
  - destruct (MakeWritable_spec h p F s Hst) as [(h1 & q & rest & -> & Hown & Hk)|Hex]; [|by right]. left.
    cbn [obind]. change (B_OK =? B_OK) with true. cbn [obind].
    destruct (Hc h1 q rest Hown Hp) as (h2 & -> & Hown2 & Hk2). cbn [obind]. rewrite <- Hl in Hown2.
    eapply becomes_owned; [done|done|by eapply keeps_trans].
  - left. assert (s = []) as -> by (destruct s; [done|zl]). change (zlen (@nil Z)) with 0 in Hl.
    destruct s'; [|zl]. by apply becomes_same.
Qed.

(** Bytes that <ctype.h> is defined for. *)
Definition plain (s : list Z) : Prop := Forall (fun b => 0 < b < 128) s.

Lemma ctype_plain b : 0 < b < 128 -> ctype_arg b = Ok b.
Proof. intros Hb. unfold ctype_arg, schar. rewrite (proj2 (Z.ltb_lt b 128)) by lia. by rewrite (proj2 (Z.ltb_ge b (-1))) by lia. Qed.

Lemma tolower_plain b : 0 < b < 128 -> c_tolower b = Ok (tolower b) /\ 0 < tolower b < 128.
Proof.
  intros Hb. unfold c_tolower. rewrite ctype_plain by done. split; [done|]. unfold tolower, isupper.
  destruct (Z.leb_spec 65 b), (Z.leb_spec b 90); simpl; lia.
Qed.

Lemma toupper_plain b : 0 < b < 128 -> c_toupper b = Ok (toupper b) /\ 0 < toupper b < 128.
Proof.
  intros Hb. unfold c_toupper. rewrite ctype_plain by done. split; [done|]. unfold toupper, islower.
  destruct (Z.leb_spec 97 b), (Z.leb_spec b 122); simpl; lia.
Qed.

Lemma plain_cstr s : plain s -> cstr_ok s.
Proof. intros Hs. eapply Forall_impl; [exact Hs|]. simpl. lia. Qed.

Lemma plain_map f g s : (forall b, 0 < b < 128 -> f b = Ok (g b) /\ 0 < g b < 128) -> plain s ->
  Forall (fun b => f b = Ok (g b) /\ byte_ok (g b)) s /\ plain (map g s).
Proof.
  intros Hf Hs. split.
  - eapply Forall_impl; [exact Hs|]. intros b Hb. destruct (Hf b Hb). unfold byte_ok. split; [done|lia].
  - unfold plain. apply Forall_map. eapply Forall_impl; [exact Hs|]. intros b Hb. apply Hf, Hb.
Qed.

Lemma case_spec f g h p F s :
  (forall b, 0 < b < 128 -> f b = Ok (g b) /\ 0 < g b < 128) -> string_of h p F s -> plain s ->
  becomes h F (map g s) (change_bytes h p (fun h p l => map_bytes f h p (Z.to_nat l) 0)) \/ exhausted.
Proof.
  intros Hf Hst Hs. destruct (plain_map f g s Hf Hs) as [Hm Hp].
  eapply change_bytes_spec; [done|apply zlen_map|by apply plain_cstr|].
  intros h1 q rest Hown _. destruct (map_bytes_spec f g h1 q F (zlen s) [] s _ Hm Hown) as (h2 & E & Hown2 & Hk); [change (zlen (@nil (option Z))) with 0; lia|].
  unfold zlen at 1. rewrite Nat2Z.id. eauto.
Qed.

Lemma ToLower_spec h p F s : string_of h p F s -> plain s -> becomes h F (map tolower s) (ToLower h p) \/ exhausted.
Proof. apply case_spec, tolower_plain. Qed.

Lemma ToUpper_spec h p F s : string_of h p F s -> plain s -> becomes h F (map toupper s) (ToUpper h p) \/ exhausted.
Proof. apply case_spec, toupper_plain. Qed.

End Ops.
