(* ===== verification/BStringFind.v ===== *)
(** Searching, comparing and removing what was found (kits/support/String.cpp):
    what the queries of BStringEdit.v answer about the contents. *)

From Stdlib Require Import ZArith Lia List Bool.
From stdpp Require Import base tactics list numbers gmap.
From S2P Require Import Prelude CText Utf8 BString BStringShare BStringEdit BStringOps.
Local Open Scope Z_scope.
Local Open Scope c_scope.

(** ** Sequences of bytes *)

(** [t] is in [s] at index [i]. *)
Definition occurs (s t : list Z) (i : Z) : Prop := exists a b, s = a ++ t ++ b /\ zlen a = i.

Lemma is_prefix_spec t s : is_prefix t s = true <-> exists b, s = t ++ b.
Proof.
  revert s. induction t as [|x t IH]; intros s; [split; eauto|].
  destruct s as [|y s]; cbn [is_prefix]; [split; [done|intros (b & [=])]|].
  rewrite andb_true_iff, Z.eqb_eq, IH. split.
  - intros (-> & b & ->). by exists b.
  - intros (b & [= -> ->]). eauto.
Qed.

Lemma occurs_prefix s t i : 0 <= i <= zlen s -> occurs s t i <-> is_prefix t (drop (Z.to_nat i) s) = true.
Proof.
  intros Hi. rewrite is_prefix_spec. split.
  - intros (a & b & -> & Ha). exists b. rewrite drop_app_ge by (unfold zlen in *; lia).
    replace (Z.to_nat i - length a)%nat with 0%nat by (unfold zlen in *; lia). done.
  - intros (b & Eb). exists (take (Z.to_nat i) s), b. rewrite <- Eb, take_drop. split; [done|].
    unfold zlen in *. rewrite length_take. lia.
Qed.

Lemma occurs_range s t i : occurs s t i -> 0 <= i /\ i + zlen t <= zlen s.
Proof. intros (a & b & -> & <-). rewrite !zlen_app. pose proof (zlen_nonneg a). pose proof (zlen_nonneg b). lia. Qed.

Lemma occurs_cons x s t i : occurs (x :: s) t (i + 1) <-> occurs s t i \/ i = -1 /\ is_prefix t (x :: s) = true.
Proof.
  split.
  - intros (a & b & E & Ha). destruct a as [|y a]; [right|left].
    + change (zlen (@nil Z)) with 0 in Ha. split; [lia|]. apply is_prefix_spec. eauto.
    + injection E as -> E. exists a, b. split; [done|]. rewrite zlen_cons in Ha. lia.
  - intros [(a & b & -> & Ha)|[-> Hp]].
    + exists (x :: a), b. split; [done|]. rewrite zlen_cons. lia.
    + apply is_prefix_spec in Hp as (b & ->). by exists [], b.
Qed.

(** The first occurrence. *)
Lemma strstr_spec s t :
  match strstr s t with
  | Some i => occurs s t i /\ forall j, occurs s t j -> i <= j
  | None => forall j, ~ occurs s t j
  end.
Proof.
  induction s as [|x s IH]; cbn [strstr].
  - destruct (is_prefix t []) eqn:Ep.
    + apply is_prefix_spec in Ep as (b & E). split; [by exists [], b|]. intros j Hj. apply occurs_range in Hj; lia.
    + intros j Hj. pose proof (occurs_range _ _ _ Hj) as Hr. change (zlen (@nil Z)) with 0 in Hr.
      pose proof (zlen_nonneg t). apply occurs_prefix in Hj; [|change (zlen (@nil Z)) with 0; lia].
      replace j with 0 in Hj by lia. change (drop (Z.to_nat 0) []) with (@nil Z) in Hj. congruence.
  - destruct (is_prefix t (x :: s)) eqn:Ep.
    + split; [|intros j Hj; apply occurs_range in Hj; lia]. apply is_prefix_spec in Ep as (b & ->). by exists [], b.
    + destruct (strstr s t) as [i|]; cbn.
      * destruct IH as [Hi Hm]. split.
        -- replace (Z.succ i) with (i + 1) by lia. apply occurs_cons. by left.
        -- intros j Hj. replace j with ((j - 1) + 1) in Hj by lia. apply occurs_cons in Hj as [Hj|[_ Hj]]; [|congruence].
           apply Hm in Hj. lia.
      * intros j Hj. replace j with ((j - 1) + 1) in Hj by lia. apply occurs_cons in Hj as [Hj|[_ Hj]]; [|congruence].
        by apply IH in Hj.
Qed.

Lemma strstr_occurs s t i : strstr s t = Some i -> occurs s t i.
Proof. intros E. pose proof (strstr_spec s t) as Hs. rewrite E in Hs. apply Hs. Qed.

(** [strcmp] is an order. *)
Lemma strcmp_eq a b : strcmp a b = 0 <-> a = b.
Proof.
  revert b. induction a as [|x a IH]; intros [|y b]; cbn [strcmp]; [done..|].
  destruct (Z.eqb_spec x y) as [->|Hne]; [rewrite IH; split; [by intros ->|by intros [= ->]]|].
  split; [lia|]. intros [= ? ?]. lia.
Qed.

Lemma strcmp_antisym a b : Z.sgn (strcmp b a) = - Z.sgn (strcmp a b).
Proof.
  revert b. induction a as [|x a IH]; intros [|y b]; cbn [strcmp]; [done..|].
  destruct (Z.eqb_spec x y) as [->|Hne]; [rewrite Z.eqb_refl; apply IH|].
  rewrite (proj2 (Z.eqb_neq y x)) by lia. replace (y - x) with (- (x - y)) by lia. apply Z.sgn_opp.
Qed.

Lemma strcmp_trans a b c : strcmp a b <= 0 -> strcmp b c <= 0 -> strcmp a c <= 0.
Proof.
  revert b c. induction a as [|x a IH]; intros [|y b] [|z c]; cbn [strcmp]; try lia.
  destruct (Z.eqb_spec x y) as [->|Hxy], (Z.eqb_spec y z) as [->|Hyz].
  - rewrite Z.eqb_refl || idtac. apply IH.
  - lia.
  - rewrite (proj2 (Z.eqb_neq x z)) by done. lia.
  - destruct (Z.eqb_spec x z); lia.
Qed.

Section Find.
Context `{MemoryOk} `{MembersOk}.

Lemma reads_at h p s i : holds h p s -> 0 <= i <= zlen s -> reads h (In p i) (drop (Z.to_nat i) s).
Proof. intros Hh Hi. apply (reads_cadd h (In p 0) s i); [by apply holds_reads|done]. Qed.

(** ** Finding strings *)

(** The first occurrence from [from] on, [B_ERROR] for none. *)
Definition first_from (s t : list Z) (from r : Z) : Prop :=
  (occurs s t r /\ from <= r /\ forall j, occurs s t j -> from <= j -> r <= j)
  \/ r = B_ERROR /\ forall j, occurs s t j -> ~ from <= j.

(** The last occurrence that ends at [before] at most. *)
Definition last_before (s t : list Z) (before r : Z) : Prop :=
  (occurs s t r /\ r + zlen t <= before /\ forall j, occurs s t j -> j + zlen t <= before -> j <= r)
  \/ r = B_ERROR /\ forall j, occurs s t j -> ~ j + zlen t <= before.

Lemma ShortFindAfter_eq h p s c t :
  holds h p s -> reads h c t ->
  __ShortFindAfter h p c = Ok (match strstr s t with Some i => i | None => B_ERROR end).
Proof.
  intros Hh Hc. unfold __ShortFindAfter. rewrite String_data, (cstr_reads h _ s) by (by apply holds_reads).
  cbn [obind]. rewrite (cstr_reads h c t Hc). cbn [obind]. by destruct (strstr s t).
Qed.

Lemma first_from_0 s t : first_from s t 0 (match strstr s t with Some i => i | None => B_ERROR end).
Proof.
  pose proof (strstr_spec s t) as Hs. destruct (strstr s t) as [i|].
  - left. destruct Hs as [Hi Hm]. split; [done|]. apply occurs_range in Hi as Hr. split; [lia|]. intros j Hj _. by apply Hm.
  - right. split; [done|]. intros j Hj. by apply Hs in Hj.
Qed.

Lemma occurs_drop s t i j : 0 <= i <= zlen s -> i <= j -> occurs s t j <-> occurs (drop (Z.to_nat i) s) t (j - i).
Proof.
  intros Hi Hj. split.
  - intros (a & b & -> & Ha). exists (drop (Z.to_nat i) a), b. rewrite drop_app_le by (unfold zlen in *; lia).
    split; [done|]. unfold zlen in *. rewrite length_drop. lia.
  - intros (a & b & E & Ha). exists (take (Z.to_nat i) s ++ a), b. rewrite <- app_assoc, <- E, take_drop. split; [done|].
    unfold zlen in *. rewrite length_app, length_take. lia.
Qed.

Lemma FindAfter_eq h p s c t i :
  holds h p s -> reads h c t -> 0 <= i <= zlen s ->
  __FindAfter h p c i = Ok (match strstr (drop (Z.to_nat i) s) t with Some k => i + k | None => B_ERROR end).
Proof.
  intros Hh Hc Hi. unfold __FindAfter. rewrite String_data, (cstr_reads h _ (drop (Z.to_nat i) s)) by (by apply reads_at).
  cbn [obind]. rewrite (cstr_reads h c t Hc). cbn [obind]. by destruct (strstr _ t).
Qed.

Lemma FindAfter_spec h p s c t i :
  holds h p s -> reads h c t -> 0 <= i <= zlen s ->
  exists r, __FindAfter h p c i = Ok r /\ first_from s t i r.
Proof.
  intros Hh Hc Hi. eexists. split; [by eapply FindAfter_eq|].
  pose proof (strstr_spec (drop (Z.to_nat i) s) t) as Hs. destruct (strstr (drop (Z.to_nat i) s) t) as [k|].
  - left. destruct Hs as [Hk Hm]. apply occurs_range in Hk as Hr. split; [|split; [lia|]].
    + apply (occurs_drop s t i); [done|lia|]. by replace (i + k - i) with k by lia.
    + intros j Hj Hl. apply (occurs_drop s t i) in Hj; [|done..]. apply Hm in Hj. lia.
  - right. split; [done|]. intros j Hj Hl. apply (occurs_drop s t i) in Hj; [|done..]. by apply Hs in Hj.
Qed.

Lemma find_before_spec eq (P : Z -> Prop) n :
  (forall i, 0 <= i < Z.of_nat n -> exists b, eq i = Ok b /\ (b = true <-> P i)) ->
  exists r, find_before eq n = Ok r /\
    ((0 <= r < Z.of_nat n /\ P r /\ forall j, P j -> 0 <= j < Z.of_nat n -> j <= r)
     \/ r = B_ERROR /\ forall j, 0 <= j < Z.of_nat n -> ~ P j).
Proof.
  induction n as [|n IH]; intros He; cbn [find_before]; [exists B_ERROR; split; [done|]; right; split; [done|lia]|].
  destruct (He (Z.of_nat n)) as (b & -> & Hb); [lia|]. cbn [obind]. destruct b.
  - eexists. split; [done|]. left. split; [lia|]. split; [by apply Hb|lia].
  - destruct IH as (r & -> & Hr); [intros i Hi; apply He; lia|]. exists r. split; [done|].
    assert (Hn : ~ P (Z.of_nat n)) by (rewrite <- Hb; done).
    destruct Hr as [(Ha1 & Ha2 & Ha3)|(-> & Ha3)]; [left|right].
    + split; [lia|]. split; [done|]. intros j Hj Hjr. destruct (Z.eq_dec j (Z.of_nat n)) as [->|]; [done|apply Ha3; [done|lia]].
    + split; [done|]. intros j Hj. destruct (Z.eq_dec j (Z.of_nat n)) as [->|]; [done|apply Ha3; lia].
Qed.

Lemma memcmp_spec a t r r' : zlen t <= zlen a ->
  exists v, memcmp (a ++ r) (t ++ r') (zlen t) = Ok v /\ (v = 0 <-> is_prefix t a = true).
Proof.
  intros Hl. destruct (split_at a (zlen t)) as (x & y & -> & Hx); [pose proof (zlen_nonneg t); lia|].
  unfold memcmp. rewrite <- app_assoc, (rdn_mid [] x (y ++ r)) by done. cbn [obind].
  rewrite (rdn_mid [] t r') by done. cbn [obind]. eexists. split; [done|].
  rewrite strcmp_eq, is_prefix_spec. split; [intros ->; eauto|]. intros (b & E).
  apply app_inj_1 in E as [-> _]; [done|]. unfold zlen in Hx. lia.
Qed.

Lemma FindBefore_spec h p s c t i :
  p <> NULL -> holds h p s -> reads h c t -> 0 <= i <= zlen s ->
  exists r, __FindBefore h p c i (zlen t) = Ok r /\ last_before s t i r.
Proof.
  intros Hp Hh Hc Hi. unfold __FindBefore. rewrite (proj2 (Z.eqb_neq _ _) Hp). pose proof (zlen_nonneg t).
  match goal with |- context [find_before ?eq ?n] =>
    destruct (find_before_spec eq (fun j => occurs s t j) n) as (r & -> & Hr) end.
  { intros j Hj. destruct (reads_at h p s j Hh) as (_ & x & ->); [lia|]. cbn [obind]. destruct Hc as (_ & y & ->). cbn [obind].
    destruct (memcmp_spec (drop (Z.to_nat j) s) t (0 :: x) (0 :: y)) as (v & -> & Hv).
    { unfold zlen in *. rewrite length_drop. lia. }
    cbn [obind]. eexists. split; [done|]. by rewrite Z.eqb_eq, Hv, occurs_prefix by lia. }
  exists r. split; [done|]. destruct Hr as [(Ha1 & Ha2 & Ha3)|(-> & Ha3)]; [left|right].
  - split; [done|]. split; [lia|]. intros j Hj Hl. apply Ha3; [done|]. apply occurs_range in Hj. lia.
  - split; [done|]. intros j Hj Hl. apply (Ha3 j); [|done]. apply occurs_range in Hj. lia.
Qed.

Lemma owners_not_null h p F : owners_ok h (p :: F) -> p <> NULL.
Proof.
  intros Ho. destruct (owners_block h (p :: F) p Ho) as (b & _ & Hgt & _); [by left|].
  unfold NULL, kPrivateDataOffset in *. lia.
Qed.

(** ** Finding bytes *)

Lemma string_load h p s i b : holds h p s -> s !! Z.to_nat i = Some b -> 0 <= i -> load h p i = Ok b.
Proof.
  intros (_ & b0 & rest & E & _ & D) Hb Hi. unfold load. rewrite E. cbn [obind]. rewrite D.
  assert (Hl : (Z.to_nat i < length s)%nat) by (by eapply lookup_lt_Some).
  rewrite (rd_lookup _ i (Some b)); [done|done|]. rewrite lookup_app_l by (by rewrite length_map).
  by rewrite list_lookup_fmap, Hb.
Qed.

Lemma scan_up_spec h p s c n i :
  holds h p s -> 0 <= i -> i + Z.of_nat n <= zlen s ->
  exists r, scan_up h p c n i = Ok r /\
    ((i <= r < i + Z.of_nat n /\ s !! Z.to_nat r = Some c /\ forall j, i <= j < r -> s !! Z.to_nat j <> Some c)
     \/ r = B_ERROR /\ forall j, i <= j < i + Z.of_nat n -> s !! Z.to_nat j <> Some c).
Proof.
  intros Hh. revert i. induction n as [|n IH]; intros i Hi Hn; cbn [scan_up].
  { exists B_ERROR. split; [done|]. right. split; [done|lia]. }
  destruct (lookup_lt_is_Some_2 s (Z.to_nat i)) as (b & Eb); [unfold zlen in Hn; lia|].
  rewrite (string_load h p s i b Hh Eb Hi). cbn [obind]. destruct (Z.eqb_spec b c) as [->|Hne].
  - exists i. split; [done|]. left. split; [lia|]. split; [done|lia].
  - destruct (IH (i + 1)) as (r & -> & Hr); [lia|lia|]. exists r. split; [done|].
    destruct Hr as [(Ha1 & Ha2 & Ha3)|(-> & Ha3)]; [left|right].
    + split; [lia|]. split; [done|]. intros j Hj. destruct (Z.eq_dec j i) as [->|]; [congruence|apply Ha3; lia].
    + split; [done|]. intros j Hj. destruct (Z.eq_dec j i) as [->|]; [congruence|apply Ha3; lia].
Qed.

(** ** Removing what is found *)

(** [s] without the [n] bytes at [i]; [s] itself for [B_ERROR]. *)
Definition without (s : list Z) (i n : Z) : list Z :=
  if 0 <=? i then take (Z.to_nat i) s ++ drop (Z.to_nat (i + n)) s else s.

Lemma shrink_found_spec h p F s t r :
  string_of h p F s -> occurs s t r \/ r = B_ERROR ->
  becomes h F (without s r (zlen t)) (shrink_found h p r (zlen t)) \/ exhausted.
Proof.
  intros Hst Hr. unfold shrink_found, without. destruct Hr as [Hr| ->].
  - apply occurs_range in Hr as Hrng. rewrite (proj2 (Z.leb_le 0 r)) by lia. destruct Hr as (a & b & -> & <-).
    rewrite app_assoc, (drop_app_ge (a ++ t)) by (rewrite length_app; unfold zlen in *; lia). rewrite <- app_assoc.
    rewrite take_app_le, take_ge by (unfold zlen; lia).
    replace (_ - _)%nat with 0%nat by (rewrite length_app; unfold zlen; lia). by apply becomes_shrink.
  - left. change (0 <=? B_ERROR) with false. by apply becomes_same.
Qed.

Lemma RemoveFirst_spec h p F s c t :
  string_of h p F s -> reads h c t -> zlen t <= INT_MAX -> t <> [] ->
  becomes h F (without s (match strstr s t with Some i => i | None => B_ERROR end) (zlen t)) (RemoveFirst h p c) \/ exhausted.
Proof.
  intros Hst Hc Hm Ht. unfold RemoveFirst, string_length. rewrite (reads_not_null h c t Hc), (strlen_reads h c t Hc).
  cbn [obind]. rewrite i32_len by done. rewrite (proj2 (Z.ltb_lt 0 _)) by (destruct t; [done|zl]).
  rewrite (ShortFindAfter_eq h p s c t) by (done || apply Hst). cbn [obind]. apply shrink_found_spec; [done|].
  destruct (strstr s t) eqn:E; [left; by apply strstr_occurs|by right].
Qed.

Lemma RemoveLast_spec h p F s c t :
  string_of h p F s -> reads h c t -> zlen t <= INT_MAX -> t <> [] ->
  exhausted \/ exists r, last_before s t (zlen s) r /\ becomes h F (without s r (zlen t)) (RemoveLast h p c).
Proof.
  intros Hst Hc Hm Ht. pose proof Hst as [Ho Hh]. unfold RemoveLast, string_length. rewrite (reads_not_null h c t Hc), (strlen_reads h c t Hc).
  cbn [obind]. rewrite i32_len by done. rewrite (proj2 (Z.ltb_lt 0 _)) by (destruct t; [done|zl]).
  rewrite (Length_holds h p s Hh). cbn [obind].
  destruct (FindBefore_spec h p s c t (zlen s)) as (r & -> & Hr); [by eapply owners_not_null|done..|pose proof (zlen_nonneg s); lia|].
  cbn [obind]. destruct (shrink_found_spec h p F s t r Hst) as [Hb|Hex]; [|right; eauto|by left].
  destruct Hr as [(Hr & _)|(-> & _)]; auto.
Qed.

End Find.
