(* ===== verification/BStringReplace.v ===== *)
(** Replacing and escaping (kits/support/String.cpp).

    The code first collects the positions of what is replaced ([PosVect]), then
    builds the result in a new block ([__ReplaceAtPositions]).  The lemmas
    at the end say that this is the textbook replacement from left to right
    ([replaced]); those on escaping are in BStringEscape.v. *)

From Stdlib Require Import ZArith Lia List Bool.
From stdpp Require Import base tactics list numbers gmap.
From S2P Require Import Prelude CText Utf8 BString BStringShare BStringEdit BStringOps BStringFind.
Local Open Scope Z_scope.
Local Open Scope c_scope.

Definition REPLACE_ALL : Z := 0x7FFFFFFF.

(** ** PosVect *)

Record posvect : Type := PosVect {
  fSize : Z;
  fBufferSize : Z;
  fBuffer : option (list (option Z));
}.

Definition posvect0 : posvect := {| fSize := 0; fBufferSize := 20; fBuffer := None |}.

Definition grown (b : list (option Z)) (n : Z) : list (option Z) :=
  take (Z.to_nat n) b ++ replicate (Z.to_nat n - length b) None.

(** The [realloc] of [Add]: the size is changed before it is known to work. *)
Definition pos_grow `{Memory} (v : posvect) : outcome (posvect * bool) :=
  n <- (match fBuffer v with
        | Some _ => assert_int (fBufferSize v * 2);;; Ok (fBufferSize v * 2)
        | None => Ok (fBufferSize v)
        end);;
  if pos_realloc n then
    Ok ({| fSize := fSize v; fBufferSize := n;
           fBuffer := Some (grown (match fBuffer v with Some b => b | None => [] end) n) |}, true)
  else Ok ({| fSize := fSize v; fBufferSize := n; fBuffer := fBuffer v |}, false).

Definition pos_full (v : posvect) : bool :=
  match fBuffer v with None => true | Some _ => fSize v =? fBufferSize v end.

Definition Add `{Memory} (v : posvect) (pos : Z) : outcome (posvect * bool) :=
  let! (v, ok) := (if pos_full v then pos_grow v else Ok (v, true)) in
  if negb ok then Ok (v, false)
  else
    match fBuffer v with
    | None => Fault
    | Some b =>
      b <- wr b (fSize v) (Some pos);;
      Ok ({| fSize := fSize v + 1; fBufferSize := fBufferSize v; fBuffer := Some b |}, true)
    end.

Definition ItemAt (v : posvect) (index : Z) : outcome Z :=
  match fBuffer v with None => Fault | Some b => c <- rd b index;; cell c end.

Definition CountItems (v : posvect) : Z := fSize v.

(** ** Searching without case *)

(** The turns of [strcasestr]; [left] is [end - tmp]. *)
Fixpoint strcasestr_loop (s t : list Z) (left : Z) : outcome (option Z) :=
  match s with
  | [] => Ok None
  | _ :: s' =>
    if left <? 0 then Ok None
    else
      c <- strncasecmp (s ++ [0]) 0 (t ++ [0]) 0 (length t);;
      if c =? 0 then Ok (Some 0)
      else r <- strcasestr_loop s' t (left - 1);; Ok (Z.succ <$> r)
  end.

Definition strcasestr (haystack needle : list Z) : outcome (option Z) :=
  if zlen needle =? 0 then Ok (Some 0)
  else if zlen haystack <? zlen needle then Ok None
  else strcasestr_loop haystack needle (zlen haystack - zlen needle).

(** [strrstr] and [strrcasestr]: from the end, with the comparison [eq]; the
    byte at [tmp] is read before [tmp] is compared with the start. *)
Fixpoint strr_loop (eq : Z -> outcome bool) (haystack : list Z) (n : nat) : outcome (option Z) :=
  let tmp := Z.of_nat n - 1 in
  b <- rd haystack tmp;;
  if (b =? 0) || (tmp <? 0) then Ok None
  else
    e <- eq tmp;;
    if (e : bool) then Ok (Some tmp)
    else match n with O => Ok None | S n => strr_loop eq haystack n end.

Definition strr_search (eq : Z -> outcome bool) (haystack needle : list Z) : outcome (option Z) :=
  if zlen needle =? 0 then Ok (Some 0)
  else if zlen haystack <? zlen needle then Ok None
  else strr_loop eq (haystack ++ [0]) (S (Z.to_nat (zlen haystack - zlen needle))).

Definition strrstr (haystack needle : list Z) : outcome (option Z) :=
  strr_search (fun i => c <- strncmp (drop (Z.to_nat i) haystack ++ [0]) (needle ++ [0]) (length needle);; Ok (c =? 0))
    haystack needle.

Definition strrcasestr (haystack needle : list Z) : outcome (option Z) :=
  strr_search (fun i => c <- strncasecmp (haystack ++ [0]) i (needle ++ [0]) 0 (length needle);; Ok (c =? 0))
    haystack needle.

(** The length of the prefix of [s] without bytes of [set]. *)
Fixpoint strcspn (s set : list Z) : Z :=
  match s with
  | [] => 0
  | b :: s => if bool_decide (b ∈ set) then 0 else 1 + strcspn s set
  end.

(** [strcspn(p + offset, c)] *)
Definition strcspn_at (h : sheap) (p offset : Z) (set : cptr) : outcome Z :=
  s <- cstr h (In p offset);; t <- cstr h set;; Ok (strcspn s t).

Section Replace.
Context `{Memory} `{Members}.

Definition __IFindAfter (h : sheap) (p : Z) (string : cptr) (offset : Z) : outcome Z :=
  s <- cstr h (In (String p) offset);;
  t <- cstr h string;;
  r <- strcasestr s t;;
  match r with Some i => Ok (offset + i) | None => Ok B_ERROR end.

Definition __IFindBefore (h : sheap) (p : Z) (string : cptr) (offset length : Z) : outcome Z :=
  if p =? NULL then Ok B_ERROR
  else find_before (fun i => a <- text h (In p i);; b <- text h string;;
                             c <- strncasecmp a 0 b 0 (size_of length a);; Ok (c =? 0))
         (Z.to_nat (offset - length + 1)).

Definition IFindFirst (h : sheap) (p : Z) (string : cptr) : outcome Z :=
  if is_null string then Ok B_BAD_VALUE else __IFindAfter h p string 0.

Definition IFindFirst_string (h : sheap) (p q : Z) : outcome Z := __IFindAfter h p (In (String q) 0) 0.

Definition IFindFirst_from (h : sheap) (p : Z) (string : cptr) (fromOffset : Z) : outcome Z :=
  if is_null string then Ok B_BAD_VALUE
  else if fromOffset <? 0 then Ok B_ERROR
  else l <- Length h p;; __IFindAfter h p string (min_clamp0 fromOffset l).

Definition IFindLast (h : sheap) (p : Z) (string : cptr) : outcome Z :=
  if is_null string then Ok B_BAD_VALUE
  else l <- Length h p;; n <- c_strlen h string;; __IFindBefore h p string l (i32 n).

Definition IFindLast_before (h : sheap) (p : Z) (string : cptr) (beforeOffset : Z) : outcome Z :=
  if is_null string then Ok B_BAD_VALUE
  else if beforeOffset <? 0 then Ok B_ERROR
  else l <- Length h p;; n <- c_strlen h string;; __IFindBefore h p string (min_clamp0 beforeOffset l) (i32 n).

(** ** Building the result *)

(** The pieces before the positions [i], ..., [i + n - 1], each followed by
    [with]; [oldString] and [newString] are offsets. *)
Fixpoint copy_loop (n : nat) (i : Z) (v : posvect) (searchLength : Z) (with_ : cptr) (withLength : Z)
  (h : sheap) (p newData oldString newString lastPos : Z) : outcome (sheap * Z * Z * Z) :=
  match n with
  | O => Ok (h, oldString, newString, lastPos)
  | S n =>
    pos <- ItemAt v i;;
    let length := pos - lastPos in
    let! (h, oldString, newString) :=
      (if 0 <? length then
         h <- memcpy h newData newString (In p oldString) length;;
         Ok (h, oldString + length, newString + length)
       else Ok (h, oldString, newString)) in
    h <- memcpy h newData newString with_ withLength;;
    copy_loop n (i + 1) v searchLength with_ withLength h p newData
      (oldString + searchLength) (newString + withLength) (pos + searchLength)
  end.

Definition __ReplaceAtPositions (h : sheap) (p : Z) (positions : posvect) (searchLength : Z)
  (with_ : cptr) (withLength : Z) : outcome (sheap * Z) :=
  length <- Length h p;;
  let count := u32 (CountItems positions) in
  let newLength := i32 (length + count * (withLength - searchLength)) in
  if newLength =? 0 then ignore (__Resize h p 0)
  else
    let! (h, newData) := __Allocate h newLength in
    if newData =? NULL then Ok (h, p)
    else
      let! (h, oldString, newString, lastPos) :=
        copy_loop (Z.to_nat count) 0 positions searchLength with_ withLength h p newData 0 0 0 in
      l <- Length h p;;
      let length := l + 1 - lastPos in
      h <- (if 0 <? length then memcpy h newData newString (In p oldString) length else Ok h);;
      let! (h, _) := __FreePrivateData h p in
      Ok (h, newData).

(** The search of [__DoReplace]; what [Add] answers is ignored. *)
Fixpoint positions_loop (fuel : nat) (find : Z -> outcome Z) (findLen maxReplaceCount lastSrcPos : Z) (v : posvect)
  : outcome posvect :=
  match fuel with
  | O => NoFuel
  | S fuel =>
    if 0 <? maxReplaceCount then
      srcPos <- find lastSrcPos;;
      if 0 <=? srcPos then
        let! (v, _) := Add v srcPos in
        lastSrcPos <- add_int srcPos findLen;;
        positions_loop fuel find findLen (maxReplaceCount - 1) lastSrcPos v
      else Ok v
    else Ok v
  end.

Definition __DoReplace (h : sheap) (p : Z) (findThis replaceWith : cptr) (maxReplaceCount fromOffset : Z)
  (ignoreCase : bool) : outcome (sheap * Z) :=
  l <- Length h p;;
  if is_null findThis || (maxReplaceCount <=? 0) || (fromOffset <? 0) || (l <=? fromOffset) then Ok (h, p)
  else
    n <- c_strlen h findThis;;
    let findLen := i32 n in
    if findLen =? 0 then Ok (h, p)
    else
      let find := if ignoreCase then __IFindAfter h p findThis else __FindAfter h p findThis in
      let replaceWith := if is_null replaceWith then lit [] else replaceWith in
      n <- c_strlen h replaceWith;;
      let replaceLen := i32 n in
      positions <- positions_loop (S (Z.to_nat l)) find findLen maxReplaceCount fromOffset posvect0;;
      __ReplaceAtPositions h p positions findLen replaceWith replaceLen.

(** [__MakeWritable] and the replacement, where something is found. *)
Definition detach_replace (h : sheap) (p : Z) (findThis replaceWith : cptr) (maxReplaceCount fromOffset : Z)
  (ignoreCase : bool) : outcome (sheap * Z) :=
  let! (h, p, st) := __MakeWritable h p in
  if negb (st =? B_OK) then Ok (h, p)
  else __DoReplace h p findThis replaceWith maxReplaceCount fromOffset ignoreCase.

Definition RemoveAll (h : sheap) (p : Z) (string : cptr) : outcome (sheap * Z) :=
  l <- Length h p;;
  if is_null string || (l =? 0) then Ok (h, p)
  else
    i <- FindFirst h p string;;
    if i <? 0 then Ok (h, p) else detach_replace h p string (lit []) REPLACE_ALL 0 false.

(** [string.String()] is taken after the object has moved. *)
Definition RemoveAll_string (h : sheap) (p : Z) (string : sref) : outcome (sheap * Z) :=
  n <- Length h (data_of p string);;
  l <- Length h p;;
  if (n =? 0) || (l =? 0) then Ok (h, p)
  else
    i <- FindFirst_string h p (data_of p string);;
    if i <? 0 then Ok (h, p)
    else
      let! (h, p, st) := __MakeWritable h p in
      if negb (st =? B_OK) then Ok (h, p)
      else __DoReplace h p (In (String (data_of p string)) 0) (lit []) REPLACE_ALL 0 false.

Definition ReplaceFirst (h : sheap) (p : Z) (replaceThis withThis : cptr) : outcome (sheap * Z) :=
  if is_null replaceThis || is_null withThis then Ok (h, p)
  else
    i <- FindFirst h p replaceThis;;
    if i <? 0 then Ok (h, p) else detach_replace h p replaceThis withThis 1 0 false.

(** The copy at the end of [ReplaceLast] and [IReplaceLast]. *)
Definition replace_at (h : sheap) (p : Z) (withThis : cptr) (pos replaceThisLength : Z) : outcome (sheap * Z) :=
  if 0 <=? pos then
    n <- c_strlen h withThis;;
    let withThisLength := i32 n in
    let difference := withThisLength - replaceThisLength in
    let! (h, p, ok) :=
      (if 0 <? difference then
         let! (h, p, r) := __OpenAtBy h p pos difference in Ok (h, p, negb (r =? NULL))
       else if difference <? 0 then
         let! (h, p, r) := __ShrinkAtBy h p pos (- difference) in Ok (h, p, negb (r =? NULL))
       else let! (h, p, st) := __MakeWritable h p in Ok (h, p, st =? B_OK)) in
    if (ok : bool) then h <- memcpy h p pos withThis withThisLength;; Ok (h, p) else Ok (h, p)
  else Ok (h, p).

Definition ReplaceLast (h : sheap) (p : Z) (replaceThis withThis : cptr) : outcome (sheap * Z) :=
  if is_null replaceThis || is_null withThis then Ok (h, p)
  else
    n <- c_strlen h replaceThis;;
    l <- Length h p;;
    pos <- __FindBefore h p replaceThis l (i32 n);;
    replace_at h p withThis pos (i32 n).

Definition IReplaceLast (h : sheap) (p : Z) (replaceThis withThis : cptr) : outcome (sheap * Z) :=
  if is_null replaceThis || is_null withThis then Ok (h, p)
  else
    n <- c_strlen h replaceThis;;
    l <- Length h p;;
    pos <- __IFindBefore h p replaceThis l (i32 n);;
    replace_at h p withThis pos (i32 n).

(** The length is read again after [__MakeWritable]. *)
Definition replace_from (h : sheap) (p : Z) (replaceThis withThis : cptr) (maxReplaceCount fromOffset : Z)
  (ignoreCase : bool) : outcome (sheap * Z) :=
  let! (h, p, st) := __MakeWritable h p in
  if negb (st =? B_OK) then Ok (h, p)
  else
    l <- Length h p;;
    __DoReplace h p replaceThis withThis maxReplaceCount (min_clamp0 fromOffset l) ignoreCase.

Definition ReplaceAll (h : sheap) (p : Z) (replaceThis withThis : cptr) (fromOffset : Z) : outcome (sheap * Z) :=
  if is_null replaceThis || is_null withThis then Ok (h, p)
  else
    i <- FindFirst h p replaceThis;;
    if i <? 0 then Ok (h, p) else replace_from h p replaceThis withThis REPLACE_ALL fromOffset false.

Definition Replace (h : sheap) (p : Z) (replaceThis withThis : cptr) (maxReplaceCount fromOffset : Z)
  : outcome (sheap * Z) :=
  if is_null replaceThis || is_null withThis || (maxReplaceCount <=? 0) then Ok (h, p)
  else
    i <- FindFirst h p replaceThis;;
    if i <? 0 then Ok (h, p) else replace_from h p replaceThis withThis maxReplaceCount fromOffset false.

Definition IReplaceFirst (h : sheap) (p : Z) (replaceThis withThis : cptr) : outcome (sheap * Z) :=
  if is_null replaceThis || is_null withThis then Ok (h, p)
  else
    i <- IFindFirst h p replaceThis;;
    if i <? 0 then Ok (h, p) else detach_replace h p replaceThis withThis 1 0 true.

Definition IReplaceAll (h : sheap) (p : Z) (replaceThis withThis : cptr) (fromOffset : Z) : outcome (sheap * Z) :=
  if is_null replaceThis || is_null withThis then Ok (h, p)
  else
    i <- IFindFirst h p replaceThis;;
    if i <? 0 then Ok (h, p) else replace_from h p replaceThis withThis REPLACE_ALL fromOffset true.

(** The test is that of [Replace], with case. *)
Definition IReplace (h : sheap) (p : Z) (replaceThis withThis : cptr) (maxReplaceCount fromOffset : Z)
  : outcome (sheap * Z) :=
  if is_null replaceThis || is_null withThis || (maxReplaceCount <=? 0) then Ok (h, p)
  else
    i <- FindFirst h p replaceThis;;
    if i <? 0 then Ok (h, p) else replace_from h p replaceThis withThis maxReplaceCount fromOffset true.

Definition ReplaceAllChars (h : sheap) (p : Z) (replaceThis withThis : cptr) (fromCharOffset : Z) : outcome (sheap * Z) :=
  n <- count_bytes_at h (In p 0) fromCharOffset;; ReplaceAll h p replaceThis withThis n.

Definition ReplaceChars (h : sheap) (p : Z) (replaceThis withThis : cptr) (maxReplaceCount fromCharOffset : Z)
  : outcome (sheap * Z) :=
  n <- count_bytes_at h (In p 0) fromCharOffset;; Replace h p replaceThis withThis maxReplaceCount n.

(** *** One byte without case: [tmp] is a string of it *)

Definition IReplaceFirst_char (h : sheap) (p replaceThis withThis : Z) : outcome (sheap * Z) :=
  pos <- __IFindAfter h p (Ext [replaceThis; 0] 0) 0;; replace_found h p pos withThis.

Definition IReplaceLast_char (h : sheap) (p replaceThis withThis : Z) : outcome (sheap * Z) :=
  l <- Length h p;;
  pos <- __IFindBefore h p (Ext [replaceThis; 0] 0) l 1;; replace_found h p pos withThis.

Fixpoint ireplace_loop (fuel : nat) (h : sheap) (p : Z) (tmp : cptr) (withThis : Z) (count : option Z) (pos : Z)
  : outcome sheap :=
  match fuel with
  | O => NoFuel
  | S fuel =>
    if match count with Some n => 0 <? n | None => true end && (0 <=? pos) then
      h <- store1 h p pos withThis;;
      pos <- __IFindAfter h p tmp (pos + 1);;
      ireplace_loop fuel h p tmp withThis (match count with Some n => Some (n - 1) | None => None end) pos
    else Ok h
  end.

(** [IReplace], and [IReplaceAll] for [None]. *)
Definition ireplace_char (h : sheap) (p replaceThis withThis : Z) (count : option Z) (fromOffset : Z)
  : outcome (sheap * Z) :=
  let tmp := Ext [replaceThis; 0] 0 in
  l <- Length h p;;
  let fromOffset := min_clamp0 fromOffset l in
  pos <- __IFindAfter h p tmp fromOffset;;
  if match count with Some n => 0 <? n | None => true end && (0 <=? pos) then
    let! (h, p, st) := __MakeWritable h p in
    if st =? B_OK then
      h <- ireplace_loop (S (Z.to_nat l)) h p tmp withThis count pos;; Ok (h, p)
    else Ok (h, p)
  else Ok (h, p).

Definition IReplaceAll_char (h : sheap) (p replaceThis withThis fromOffset : Z) : outcome (sheap * Z) :=
  ireplace_char h p replaceThis withThis None fromOffset.

Definition IReplace_char (h : sheap) (p replaceThis withThis maxReplaceCount fromOffset : Z) : outcome (sheap * Z) :=
  ireplace_char h p replaceThis withThis (Some maxReplaceCount) fromOffset.

(** ** Sets of bytes *)

Fixpoint set_char_loop (fuel : nat) (h : sheap) (p : Z) (setOfBytes : cptr) (with_ length offset : Z)
  : outcome sheap :=
  match fuel with
  | O => NoFuel
  | S fuel =>
    pos <- strcspn_at h p offset setOfBytes;;
    let offset := offset + pos in
    if length <=? offset then Ok h
    else
      h <- store1 h p offset with_;;
      set_char_loop fuel h p setOfBytes with_ length (offset + 1)
  end.

Definition ReplaceSet_char (h : sheap) (p : Z) (setOfBytes : cptr) (with_ : Z) : outcome (sheap * Z) :=
  if is_null setOfBytes then Ok (h, p)
  else
    l <- Length h p;;
    k <- strcspn_at h p 0 setOfBytes;;
    if l <=? k then Ok (h, p)
    else
      let! (h, p, st) := __MakeWritable h p in
      if negb (st =? B_OK) then Ok (h, p)
      else
        l <- Length h p;;
        h <- set_char_loop (S (Z.to_nat l)) h p setOfBytes with_ l 0;; Ok (h, p).

(** [None]: [Add] has failed. *)
Fixpoint set_positions (fuel : nat) (h : sheap) (p : Z) (setOfBytes : cptr) (len offset : Z) (v : posvect)
  : outcome (option posvect) :=
  match fuel with
  | O => NoFuel
  | S fuel =>
    if offset <? len then
      pos <- strcspn_at h p offset setOfBytes;;
      if len <=? pos + offset then Ok (Some v)
      else
        let! (v, ok) := Add v (offset + pos) in
        if negb ok then Ok None else set_positions fuel h p setOfBytes len (offset + (pos + 1)) v
    else Ok (Some v)
  end.

Definition ReplaceSet (h : sheap) (p : Z) (setOfBytes with_ : cptr) : outcome (sheap * Z) :=
  if is_null setOfBytes || is_null with_ then Ok (h, p)
  else
    l <- Length h p;;
    k <- strcspn_at h p 0 setOfBytes;;
    if l <=? k then Ok (h, p)
    else
      n <- c_strlen h with_;;
      let withLen := i32 n in
      if withLen =? 1 then m <- text h with_;; c <- rd m 0;; ReplaceSet_char h p setOfBytes c
      else
        let! (h, p, st) := __MakeWritable h p in
        if negb (st =? B_OK) then Ok (h, p)
        else
          len <- Length h p;;
          v <- set_positions (S (Z.to_nat len)) h p setOfBytes len 0 posvect0;;
          match v with
          | None => Ok (h, p)
          | Some v => __ReplaceAtPositions h p v 1 with_ withLen
          end.

Definition RemoveSet (h : sheap) (p : Z) (setOfBytesToRemove : cptr) : outcome (sheap * Z) :=
  ReplaceSet h p setOfBytesToRemove (lit []).

(** *** Sets of characters *)

(** The inner loop: is the character one of the [n] of the set from [j] on? *)
Fixpoint in_char_set (n : nat) (h : sheap) (setString j : Z) (sourceChar : cptr) (charLength : Z) : outcome bool :=
  match n with
  | O => Ok false
  | S n =>
    let! (setChar, l) := CharAt h setString j true in
    m <- (if charLength =? match l with Some l => l | None => 0 end then
            a <- text h sourceChar;; b <- text h setChar;; c <- memcmp a b charLength;; Ok (c =? 0)
          else Ok false);;
    if (m : bool) then Ok true else in_char_set n h setString (j + 1) sourceChar charLength
  end.

(** [n] characters from [i] on. *)
Fixpoint char_set_loop (n : nat) (i : Z) (setCharCount : Z) (with_ : cptr) (withLength : Z)
  (h : sheap) (p setString result : Z) : outcome (sheap * Z) :=
  match n with
  | O => Ok (h, result)
  | S n =>
    let! (sourceChar, l) := CharAt h p i true in
    let charLength := match l with Some l => l | None => 0 end in
    m <- in_char_set (Z.to_nat setCharCount) h setString 0 sourceChar charLength;;
    let! (h, result) :=
      (if (m : bool) then Append_max h result with_ withLength
       else Append_max h result sourceChar charLength) in
    char_set_loop n (i + 1) setCharCount with_ withLength h p setString result
  end.

Definition ReplaceCharsSet (h : sheap) (p : Z) (setOfChars with_ : cptr) : outcome (sheap * Z) :=
  if is_null setOfChars || is_null with_ then Ok (h, p)
  else
    m <- text h setOfChars;;
    setCharCount <- UTF8CountChars (Some m) (-1);;
    n <- c_strlen h setOfChars;;
    if setCharCount =? n then ReplaceSet h p setOfChars with_
    else
      let! (h, setString) := BString_cstr h setOfChars in
      let! (h, result) := BString_new h in
      withLength <- c_strlen h with_;;
      charCount <- CountChars h p;;
      let! (h, result) :=
        char_set_loop (Z.to_nat charCount) 0 setCharCount with_ (i32 withLength) h p setString result in
      let! (h, p) := assign_string h p result in
      h <- BString_delete h result;;
      h <- BString_delete h setString;;
      Ok (h, p).

Definition RemoveCharsSet (h : sheap) (p : Z) (setOfCharsToRemove : cptr) : outcome (sheap * Z) :=
  ReplaceCharsSet h p setOfCharsToRemove (lit []).

(** ** Escaping *)

Fixpoint escape_positions (fuel : nat) (h : sheap) (p : Z) (set : cptr) (length offset : Z) (v : posvect)
  : outcome (option posvect) :=
  match fuel with
  | O => NoFuel
  | S fuel =>
    if offset <? length then
      pos <- strcspn_at h p offset set;;
      if pos <? length - offset then
        let! (v, ok) := Add v (offset + pos) in
        if negb ok then Ok None else escape_positions fuel h p set length (offset + (pos + 1)) v
      else escape_positions fuel h p set length (offset + (pos + 1)) v
    else Ok (Some v)
  end.

Fixpoint escape_loop (n : nat) (i : Z) (v : posvect) (escapeChar : Z)
  (h : sheap) (p newData oldString newString lastPos : Z) : outcome (sheap * Z * Z * Z) :=
  match n with
  | O => Ok (h, oldString, newString, lastPos)
  | S n =>
    pos <- ItemAt v i;;
    let length := pos - lastPos in
    let! (h, oldString, newString) :=
      (if 0 <? length then
         h <- memcpy h newData newString (In p oldString) length;;
         Ok (h, oldString + length, newString + length)
       else Ok (h, oldString, newString)) in
    h <- store1 h newData newString escapeChar;;
    b <- load h p oldString;;
    h <- store1 h newData (newString + 1) b;;
    escape_loop n (i + 1) v escapeChar h p newData (oldString + 1) (newString + 2) (pos + 1)
  end.

Definition __DoCharacterEscape (h : sheap) (p : Z) (string set : cptr) (escapeChar : Z) : outcome (sheap * Z) :=
  n <- string_length h string;;
  let! (h, p, st) := __MakeWritable_to h p (i32 n) false in
  if negb (st =? B_OK) then Ok (h, p)
  else
    length <- Length h p;;
    h <- memcpy h p 0 string length;;
    v <- escape_positions (S (Z.to_nat length)) h p set length 0 posvect0;;
    match v with
    | None => Ok (h, p)
    | Some positions =>
      let count := u32 (CountItems positions) in
      let newLength := i32 (length + count) in
      if newLength =? 0 then ignore (__Resize h p 0)
      else
        let! (h, newData) := __Allocate h newLength in
        if newData =? NULL then Ok (h, p)
        else
          let! (h, oldString, newString, lastPos) :=
            escape_loop (Z.to_nat count) 0 positions escapeChar h p newData 0 0 0 in
          l <- Length h p;;
          let length := l + 1 - lastPos in
          h <- (if 0 <? length then memcpy h newData newString (In p oldString) length else Ok h);;
          let! (h, _) := __FreePrivateData h p in
          Ok (h, newData)
    end.

Definition __DoCharacterDeescape (h : sheap) (p : Z) (string : cptr) (escapeChar : Z) : outcome (sheap * Z) :=
  n <- string_length h string;;
  let! (h, p, st) := __MakeWritable_to h p (i32 n) false in
  if negb (st =? B_OK) then Ok (h, p)
  else
    length <- Length h p;;
    h <- memcpy h p 0 string length;;
    __DoReplace h p (Ext [escapeChar; 0] 0) (lit []) REPLACE_ALL 0 false.

Definition CharacterEscape_of (h : sheap) (p : Z) (original set : cptr) (escapeWith : Z) : outcome (sheap * Z) :=
  if negb (is_null set) then __DoCharacterEscape h p original set escapeWith else Ok (h, p).

Definition CharacterEscape (h : sheap) (p : Z) (set : cptr) (escapeWith : Z) : outcome (sheap * Z) :=
  l <- Length h p;;
  if negb (is_null set) && (0 <? l) then __DoCharacterEscape h p (In p 0) set escapeWith else Ok (h, p).

Definition CharacterDeescape_of (h : sheap) (p : Z) (original : cptr) (escapeChar : Z) : outcome (sheap * Z) :=
  __DoCharacterDeescape h p original escapeChar.

Definition CharacterDeescape (h : sheap) (p escapeChar : Z) : outcome (sheap * Z) :=
  l <- Length h p;;
  if 0 <? l then __DoCharacterDeescape h p (In p 0) escapeChar else Ok (h, p).

End Replace.

(** ** The specification *)

(** [s] with the first [max] pieces of [m] bytes that [find] finds replaced
    by [w], from left to right. *)
Fixpoint replaced (fuel : nat) (find : list Z -> option Z) (m : Z) (w : list Z) (max : Z) (s : list Z) : list Z :=
  match fuel with
  | O => s
  | S fuel =>
    if max <=? 0 then s
    else
      match find s with
      | Some i => take (Z.to_nat i) s ++ w ++ replaced fuel find m w (max - 1) (drop (Z.to_nat (i + m)) s)
      | None => s
      end
  end.

Definition replace_n (find : list Z -> option Z) (m : Z) (w : list Z) (max : Z) (s : list Z) : list Z :=
  replaced (S (length s)) find m w max s.

(** The positions of these pieces, from [from] on. *)
Fixpoint positions_of (fuel : nat) (find : list Z -> option Z) (m max : Z) (s : list Z) (from : Z) : list Z :=
  match fuel with
  | O => []
  | S fuel =>
    if max <=? 0 then []
    else
      match find (drop (Z.to_nat from) s) with
      | Some i => from + i :: positions_of fuel find m (max - 1) s (from + i + m)
      | None => []
      end
  end.

(** What is built from positions, from [last] on. *)
Fixpoint rebuilt (s w : list Z) (m : Z) (ps : list Z) (last : Z) : list Z :=
  match ps with
  | [] => drop (Z.to_nat last) s
  | pos :: ps =>
    take (Z.to_nat (pos - last)) (drop (Z.to_nat last) s) ++ w ++ rebuilt s w m ps (pos + m)
  end.

(** Positions of pieces that follow each other. *)
Fixpoint chain (m : Z) (ps : list Z) (last len : Z) : Prop :=
  match ps with
  | [] => last <= len
  | pos :: ps => last <= pos /\ chain m ps (pos + m) len
  end.

(** A search that finds pieces of [m] bytes. *)
Definition finds (find : list Z -> option Z) (m : Z) : Prop :=
  0 < m /\ forall s i, find s = Some i -> 0 <= i /\ i + m <= zlen s.

Lemma chain_last m ps last len : 0 < m -> chain m ps last len -> last <= len.
Proof.
  intros Hm. revert last. induction ps as [|pos ps IH]; intros last; [done|]. intros [Hp Hc]. apply IH in Hc. lia.
Qed.

Lemma positions_chain fuel find m max s from :
  finds find m -> 0 <= from <= zlen s -> chain m (positions_of fuel find m max s from) from (zlen s).
Proof.
  intros [Hm Hf]. revert max from. induction fuel as [|fuel IH]; intros max from Hr; [apply Hr|].
  cbn [positions_of]. destruct (max <=? 0); [apply Hr|].
  destruct (find (drop (Z.to_nat from) s)) as [i|] eqn:E; [|apply Hr].
  destruct (Hf _ _ E) as [Hi Hl]. unfold zlen in Hl. rewrite length_drop in Hl. cbn [chain].
  split; [lia|]. apply IH. unfold zlen in *. lia.
Qed.

Lemma zlen_rebuilt s w m ps last :
  0 < m -> 0 <= last -> chain m ps last (zlen s) ->
  zlen (rebuilt s w m ps last) = zlen s - last + zlen ps * (zlen w - m).
Proof.
  intros Hm. revert last. induction ps as [|pos ps IH]; intros last Hl Hc; cbn [rebuilt].
  - cbn [chain] in Hc. change (zlen (@nil Z)) with 0. unfold zlen in *. rewrite length_drop. lia.
  - destruct Hc as [Hp Hc]. pose proof (chain_last _ _ _ _ Hm Hc). rewrite !zlen_app, IH by (done || lia).
    rewrite zlen_cons. replace (zlen (take _ _)) with (pos - last); [lia|].
    unfold zlen in *. rewrite length_take, length_drop. lia.
Qed.

Lemma zlen_rest {A} (s : list A) n : 0 <= n <= zlen s -> zlen (drop (Z.to_nat n) s) = zlen s - n.
Proof. intros Hn. unfold zlen in *. rewrite length_drop. lia. Qed.

(** Collecting positions and building is replacing. *)
Lemma rebuilt_replaced fuel find m w max s from last :
  finds find m -> 0 <= last <= from -> from <= zlen s ->
  rebuilt s w m (positions_of fuel find m max s from) last
  = take (Z.to_nat (from - last)) (drop (Z.to_nat last) s) ++ replaced fuel find m w max (drop (Z.to_nat from) s).
Proof.
  intros Hf. revert max from last. induction fuel as [|fuel IH]; intros max from last Hl Hr; cbn [positions_of replaced].
  { cbn [rebuilt]. rewrite <- (take_drop (Z.to_nat (from - last)) (drop (Z.to_nat last) s)) at 1. rewrite drop_drop.
    do 2 f_equal. lia. }
  assert (Hsame : drop (Z.to_nat last) s = take (Z.to_nat (from - last)) (drop (Z.to_nat last) s) ++ drop (Z.to_nat from) s).
  { rewrite <- (take_drop (Z.to_nat (from - last)) (drop (Z.to_nat last) s)) at 1. rewrite drop_drop. do 2 f_equal. lia. }
  destruct (max <=? 0); [apply Hsame|].
  destruct (find (drop (Z.to_nat from) s)) as [i|] eqn:E; [|apply Hsame].
  destruct (proj2 Hf _ _ E) as [Hi Hil]. rewrite zlen_rest in Hil by lia. destruct Hf as [Hm Hf]. cbn [rebuilt].
  rewrite (IH (max - 1) (from + i + m) (from + i + m)) by (done || lia).
  rewrite Z.sub_diag. cbn [Z.to_nat take app]. rewrite drop_drop.
  replace (Z.to_nat from + Z.to_nat (i + m))%nat with (Z.to_nat (from + i + m)) by lia.
  rewrite (app_assoc (take (Z.to_nat (from - last)) _)). f_equal.
  replace (Z.to_nat (from + i - last)) with (Z.to_nat (from - last) + Z.to_nat i)%nat by lia.
  rewrite <- take_take_drop, drop_drop. do 3 f_equal. lia.
Qed.

(** Enough fuel gives one result. *)
Lemma replaced_fuel find m w max s fuel fuel' :
  finds find m -> (length s < fuel)%nat -> (length s < fuel')%nat ->
  replaced fuel find m w max s = replaced fuel' find m w max s.
Proof.
  intros [Hm Hf]. revert fuel' max s. induction fuel as [|fuel IH]; intros [|fuel'] max s H1 H2; [lia..|].
  cbn [replaced]. destruct (max <=? 0); [done|]. destruct (find s) as [i|] eqn:E; [|done].
  destruct (Hf _ _ E) as [Hi Hl]. do 2 f_equal. unfold zlen in Hl.
  apply IH; rewrite length_drop; lia.
Qed.

(** ** Positions *)

Definition pv_ok (v : posvect) (ps : list Z) : Prop :=
  fSize v = zlen ps /\
  ((fBuffer v = None /\ ps = [] /\ fBufferSize v = 20) \/
   exists r, fBuffer v = Some (map Some ps ++ r) /\ zlen ps + zlen r = fBufferSize v /\ 20 <= fBufferSize v).

Lemma grown_app ps r n : zlen ps + zlen r <= n ->
  exists r', grown (map Some ps ++ r) n = map Some ps ++ r' /\ zlen ps + zlen r' = n.
Proof.
  intros Hn. unfold grown. rewrite take_ge by (rewrite length_app, length_map; unfold zlen in *; lia).
  rewrite <- app_assoc. eexists. split; [done|]. rewrite zlen_app, zlen_replicate, length_app, length_map.
  unfold zlen in *. lia.
Qed.

Section Spec.
Context `{MemoryOk} `{MembersOk}.

Lemma Add_spec v ps pos :
  pv_ok v ps -> zlen ps < 2 ^ 30 ->
  (exists v', Add v pos = Ok (v', true) /\ pv_ok v' (ps ++ [pos])) \/ exhausted.
Proof.
  intros (Hs & Hb) Hm. unfold Add.
  assert (Hg : (exists v1 r, (if pos_full v then pos_grow v else Ok (v, true)) = Ok (v1, true)
      /\ fSize v1 = zlen ps /\ fBuffer v1 = Some (map Some ps ++ r) /\ zlen ps + zlen r = fBufferSize v1
      /\ 20 <= fBufferSize v1 /\ zlen ps < fBufferSize v1) \/ exhausted).
  { unfold pos_full, pos_grow. destruct Hb as [(-> & -> & ->)|(r & Eb & Hr & Hc)]; [|rewrite Eb].
    - cbn [obind]. destruct (pos_realloc 20) eqn:E; [|right; right; right; eauto]. left.
      eexists _, (replicate 20 None). split; [done|]. rewrite Hs. by vm_compute.
    - destruct (Z.eqb_spec (fSize v) (fBufferSize v)) as [Ef|Ef].
      + rewrite assert_int_ok by (unfold INT_MIN, INT_MAX; lia). cbn [obind].
        destruct (pos_realloc (fBufferSize v * 2)) eqn:E; [|right; right; right; eauto]. left.
        destruct (grown_app ps r (fBufferSize v * 2)) as (r' & Eg & Hr'); [lia|].
        eexists _, r'. split; [done|]. cbn. rewrite Eg. repeat split; (done || lia).
      + left. exists v, r. split; [done|]. pose proof (zlen_nonneg r).
        split; [done|]. split; [done|]. split; [done|]. split; [done|]. lia. }
  destruct Hg as [(v1 & r & -> & Hs1 & Hb1 & Hr1 & Hc1 & Hl1)|Hex]; [|by right]. left.
  cbn [obind negb]. rewrite Hb1, Hs1. destruct r as [|x r]; [zl|].
  rewrite (wr_mid (map Some ps)) by (by rewrite zlen_map). cbn [obind]. eexists. split; [done|].
  split; [cbn; by rewrite zlen_snoc|]. right. exists r. cbn. rewrite zlen_cons in Hr1.
  rewrite map_app, <- app_assoc. split; [done|]. rewrite zlen_snoc. lia.
Qed.

Lemma pos_ItemAt_spec v ps1 pos ps2 : pv_ok v (ps1 ++ pos :: ps2) -> ItemAt v (zlen ps1) = Ok pos.
Proof.
  intros (_ & [(_ & E & _)|(r & Eb & _)]); [by destruct ps1|]. unfold ItemAt. rewrite Eb, map_app, <- app_assoc.
  cbn [map app]. rewrite (rd_mid (map Some ps1)) by (by rewrite zlen_map). done.
Qed.

Lemma positions_loop_spec fuel fuel' fnd find m max s from v ps :
  finds fnd m -> zlen s < 2 ^ 30 ->
  (forall i, 0 <= i <= zlen s -> find i = Ok (match fnd (drop (Z.to_nat i) s) with Some k => i + k | None => B_ERROR end)) ->
  0 <= from <= zlen s -> zlen s - from < Z.of_nat fuel -> zlen s - from < Z.of_nat fuel' -> pv_ok v ps -> zlen ps <= from ->
  (exists v', positions_loop fuel find m max from v = Ok v' /\ pv_ok v' (ps ++ positions_of fuel' fnd m max s from))
  \/ exhausted.
Proof.
  intros Hfn Hm Hfind. revert fuel' max from v ps. induction fuel as [|fuel IH]; intros [|fuel'] max from v ps Hr Hu Hu' Hv Hp; [lia..|].
  cbn [positions_loop positions_of]. destruct (Z.leb_spec max 0) as [Hmx|Hmx].
  { left. rewrite (proj2 (Z.ltb_ge 0 max)) by lia. exists v. by rewrite app_nil_r. }
  rewrite (proj2 (Z.ltb_lt 0 max)) by lia. rewrite Hfind by done. cbn [obind].
  destruct (fnd (drop (Z.to_nat from) s)) as [i|] eqn:E.
  2: { left. change (0 <=? B_ERROR) with false. exists v. by rewrite app_nil_r. }
  destruct (proj2 Hfn _ _ E) as [Hi Hil]. rewrite zlen_rest in Hil by lia. pose proof (proj1 Hfn).
  rewrite (proj2 (Z.leb_le 0 _)) by lia.
  destruct (Add_spec v ps (from + i) Hv) as [(v1 & -> & Hv1)|Hex]; [lia| |by right]. cbn [obind].
  rewrite add_int_ok by (unfold INT_MIN, INT_MAX; lia). cbn [obind].
  destruct (IH fuel' (max - 1) (from + i + m) v1 (ps ++ [from + i])) as [(v' & -> & Hv')|Hex];
    [lia|lia|lia|done|rewrite zlen_snoc; lia| |by right].
  left. exists v'. split; [done|]. by rewrite <- app_assoc in Hv'.
Qed.

(** ** Building the result *)

(** Writing at the end of what is there. *)
Lemma memcpy_next h q O len built rest c t n :
  owned h q O len (map Some built ++ rest) -> 0 <= n <= zlen t -> zlen built + n <= len ->
  reads h c t -> elsewhere O c ->
  exists h' rest', memcpy h q (zlen built) c n = Ok h'
    /\ owned h' q O len (map Some (built ++ take (Z.to_nat n) t) ++ rest') /\ keeps h h' O.
Proof.
  intros Ho Hn Hl Hc He. destruct (owned_good _ _ _ _ _ Ho) as (_ & _ & Hlt). rewrite zlen_app, zlen_map in Hlt.
  destruct (split_at rest n) as (x & b & -> & Hx); [lia|].
  destruct (memcpy_mid h q O len _ x b (zlen built) c t n Ho) as (h' & E & Ho' & Hk);
    [by rewrite zlen_map|done|lia|done|done|lia|].
  exists h', b. rewrite app_assoc, <- map_app in Ho'. done.
Qed.

Lemma copy_loop_spec done_ ps v m c w s h p nw O newLen built rest last :
  0 < m -> pv_ok v (done_ ++ ps) -> chain m ps last (zlen s) -> 0 <= last ->
  owned h nw O newLen (map Some built ++ rest) -> p ∈ O -> holds h p s -> reads h c w -> elsewhere O c ->
  zlen built + zlen (rebuilt s w m ps last) = newLen ->
  exists h' built' rest' last', copy_loop (length ps) (zlen done_) v m c (zlen w) h p nw last (zlen built) last
      = Ok (h', last', zlen built', last')
    /\ built' ++ drop (Z.to_nat last') s = built ++ rebuilt s w m ps last /\ 0 <= last' <= zlen s
    /\ owned h' nw O newLen (map Some built' ++ rest') /\ keeps h h' O.
Proof.
  intros Hm. revert done_ h built rest last. induction ps as [|pos ps IH]; intros done_ h built rest last Hv Hch Hl Ho Hp Hs Hc He Hlen.
  { exists h, built, rest, last. split; [done|]. split; [done|]. cbn in Hch. split; [lia|]. split; [done|apply keeps_refl]. }
  cbn [length copy_loop]. rewrite (pos_ItemAt_spec v done_ pos ps Hv). cbn [obind].
  destruct Hch as [Hpos Hch]. pose proof (chain_last _ _ _ _ Hm Hch) as Hpl. cbn [rebuilt] in Hlen |- *.
  set (piece := take (Z.to_nat (pos - last)) (drop (Z.to_nat last) s)) in *.
  assert (Hpz : zlen piece = pos - last) by (unfold piece, zlen in *; rewrite length_take, length_drop; lia).
  rewrite !zlen_app in Hlen. pose proof (zlen_nonneg w). pose proof (zlen_nonneg (rebuilt s w m ps (pos + m))).
  assert (Hpc : exists h1 rest1, (if 0 <? pos - last then
         h <- memcpy h nw (zlen built) (In p last) (pos - last);;
         Ok (h, last + (pos - last), zlen built + (pos - last))
       else Ok (h, last, zlen built)) = Ok (h1, pos, zlen (built ++ piece))
       /\ owned h1 nw O newLen (map Some (built ++ piece) ++ rest1) /\ keeps h h1 O).
  { destruct (Z.ltb_spec 0 (pos - last)).
    - destruct (memcpy_next h nw O newLen built rest (In p last) (drop (Z.to_nat last) s) (pos - last) Ho) as (h1 & rest1 & -> & Ho1 & Hk1);
        [rewrite zlen_rest; lia|lia|apply reads_at; [done|lia]|done|].
      exists h1, rest1. cbn [obind]. rewrite zlen_app, Hpz. split; [|done]. do 3 f_equal. lia.
    - assert (pos = last) as -> by lia. assert (piece = []) as -> by (destruct piece; [done|zl]). rewrite app_nil_r.
      exists h, rest. split; [done|]. split; [done|apply keeps_refl]. }
  destruct Hpc as (h1 & rest1 & -> & Ho1 & Hk1). cbn [obind].
  destruct (memcpy_next h1 nw O newLen _ rest1 c w (zlen w) Ho1) as (h2 & rest2 & -> & Ho2 & Hk2);
    [lia|rewrite zlen_app; lia|by eapply keeps_reads|done|].
  cbn [obind]. rewrite take_all in Ho2 by lia. rewrite <- zlen_app.
  destruct (IH (done_ ++ [pos]) h2 ((built ++ piece) ++ w) rest2 (pos + m)) as (h3 & b3 & r3 & l3 & E3 & Eb & Hl3 & Ho3 & Hk3).
  - by rewrite <- app_assoc.
  - done.
  - lia.
  - done.
  - done.
  - eapply keeps_holds; [exact (keeps_trans _ _ _ _ Hk1 Hk2)|done|done].
  - eapply keeps_reads; [exact (keeps_trans _ _ _ _ Hk1 Hk2)|done|done].
  - done.
  - rewrite !zlen_app. lia.
  - rewrite zlen_snoc in E3. rewrite E3. exists h3, b3, r3, l3. split; [done|]. rewrite Eb, <- !app_assoc.
    split; [done|]. split; [done|]. split; [done|]. eauto using keeps_trans.
Qed.

(** The rest of the old string and its terminator. *)
Lemma memcpy_last h q O built rest p s last :
  owned h q O (zlen (built ++ drop (Z.to_nat last) s)) (map Some built ++ rest) -> p ∈ O -> holds h p s -> 0 <= last <= zlen s ->
  exists h' rest', memcpy h q (zlen built) (In p last) (zlen s + 1 - last) = Ok h'
    /\ owned h' q O (zlen (built ++ drop (Z.to_nat last) s)) (map Some (built ++ drop (Z.to_nat last) s) ++ Some 0 :: rest')
    /\ keeps h h' O.
Proof.
  intros Ho Hp (Hs & b & r & E & _ & D) Hl. set (u := drop (Z.to_nat last) s) in *.
  assert (Hu : zlen u = zlen s - last) by (by apply zlen_rest).
  destruct (owned_good _ _ _ _ _ Ho) as (_ & _ & Hlt). rewrite !zlen_app, zlen_map in Hlt.
  destruct (split_at rest (zlen u + 1)) as (x & y & -> & Hx); [pose proof (zlen_nonneg u); lia|].
  assert (Es : cells h (In p last) = Ok (map Some u ++ [Some 0] ++ r)).
  { unfold cells. rewrite E. cbn [obind]. rewrite D, from_ok by (rewrite zlen_app, zlen_map; pose proof (zlen_nonneg (Some 0 :: r)); lia).
    rewrite drop_app_le by (rewrite length_map; unfold zlen in *; lia). unfold u. by rewrite skipn_map. }
  unfold memcpy. rewrite (proj2 (Z.eqb_neq _ 0)), (overlap_owned h q O _ _ (In p last) _ _ Ho) by (lia || done).
  rewrite Es. cbn [obind]. rewrite app_assoc, (rdn_mid [] (map Some u ++ [Some 0]) r) by (rewrite ?zlen_snoc, ?zlen_map; done || lia).
  cbn [obind].
  destruct (store_owned h q O _ _ (zlen built) (map Some u ++ [Some 0]) (map Some built ++ (map Some u ++ [Some 0]) ++ y) Ho)
    as (h' & -> & Ho' & Hk').
  - apply wrn_mid; [by rewrite zlen_map|]. rewrite length_app, length_map. cbn [length]. unfold zlen in *. lia.
  - rewrite <- app_assoc, app_assoc, <- map_app, lookup_app_r by (rewrite length_map; unfold zlen; lia).
    rewrite length_map. by replace (_ - _)%nat with 0%nat by (unfold zlen; lia).
  - exists h', y. split; [done|]. split; [|done]. by rewrite <- app_assoc, app_assoc, <- map_app in Ho'.
Qed.

(** The new block replaces the old one. *)
Lemma swap_block h p q F len d :
  owned h q (p :: F) len d -> ~ p ∈ F ->
  exists h', __FreePrivateData h p = Ok (h', NULL) /\ owned h' q F len d /\ keeps h h' F.
Proof.
  intros (b & (Ho & Hq & E) & L & D) Hp. assert (Hqp : q <> p) by (intros ->; apply Hq; by left).
  assert (Ho' : owners_ok h (p :: q :: F)) by (by rewrite perm_swap).
  destruct (owners_block h _ p Ho') as (b' & E' & Hgt & _); [by left|].
  assert (Hs : sole h p (q :: F) b') by (split; [done|]; split; [|done]; by intros [?|?]%elem_of_cons).
  destruct (owners_free h p (q :: F) b' Hs) as [Hof Hk].
  unfold __FreePrivateData, free. rewrite (proj2 (Z.eqb_neq p NULL)) by (unfold NULL, kPrivateDataOffset in *; lia).
  rewrite E'. cbn [negb obind]. eexists. split; [done|]. split; [|by eapply keeps_tail].
  exists b. split; [|done]. split; [done|]. split; [intros ?; apply Hq; by right|]. by rewrite blk_delete_ne.
Qed.

(** A string that has been made writable, as a reader sees it. *)
Lemma owned_string h p F s rest :
  owned h p F (zlen s) (map Some s ++ Some 0 :: rest) -> cstr_ok s -> holds h p s /\ ~ p ∈ F /\ owners_ok h (p :: F).
Proof. intros Ho Hs. destruct (owned_text _ _ _ _ _ Ho Hs). destruct Ho as (b & (? & ? & ?) & _). done. Qed.

Lemma ReplaceAtPositions_spec h p F s rest v ps m c w :
  owned h p F (zlen s) (map Some s ++ Some 0 :: rest) -> cstr_ok s -> pv_ok v ps -> 0 < m -> chain m ps 0 (zlen s) ->
  reads h c w -> elsewhere F c -> zlen s + zlen ps * (zlen w - m) <= INT_MAX -> zlen ps < 2 ^ 30 -> cstr_ok (rebuilt s w m ps 0) ->
  becomes h F (rebuilt s w m ps 0) (__ReplaceAtPositions h p v m c (zlen w)) \/ exhausted.
Proof.
  intros Hown Hs Hv Hm Hch Hc He Hmax Hps Hres. pose proof (zlen_nonneg ps).
  destruct (owned_string _ _ _ _ _ Hown Hs) as (Hh & Hp & Ho).
  unfold __ReplaceAtPositions. rewrite (Length_holds h p s Hh). cbn [obind]. unfold CountItems.
  rewrite (proj1 Hv). assert (Hu : u32 (zlen ps) = zlen ps) by (apply uwrap_id; lia). rewrite !Hu.
  pose proof (zlen_rebuilt s w m ps 0 Hm ltac:(lia) Hch) as Hlen. rewrite Z.sub_0_r in Hlen.
  pose proof (zlen_nonneg (rebuilt s w m ps 0)).
  unfold i32. rewrite swrap_id by (unfold INT_MAX in *; lia). rewrite <- Hlen in Hmax |- *.
  destruct (Z.eqb_spec (zlen (rebuilt s w m ps 0)) 0) as [Hz|Hz].
  { destruct (rebuilt s w m ps 0); [|zl].
    destruct (resize_text h p F _ [] _ Hown) as [(h' & q & E & _ & Hs' & Hk)|Hex]; [done|constructor| |by right].
    left. change (zlen (@nil Z)) with 0 in E. unfold ignore. rewrite E. exists h', q. done. }
  destruct (Allocate_spec h (p :: F) (zlen (rebuilt s w m ps 0)) Ho) as [(h1 & nw & -> & Hnw & Ho1 & Hk1)|[_ Hex]];
    [lia| |by right].
  cbn [obind]. rewrite (proj2 (Z.eqb_neq _ _) Hnw).
  assert (He' : elsewhere (p :: F) c) by (destruct c; [done|done|by right]).
  destruct (copy_loop_spec [] ps v m c w s h1 p nw (p :: F) _ [] _ 0 Hm Hv Hch ltac:(lia) Ho1) as (h2 & b2 & r2 & l2 & E2 & Eb & Hl2 & Ho2 & Hk2);
    [by left|eapply keeps_holds; [done|by left|done]|by eapply keeps_reads|done|done|].
  change (zlen (@nil Z)) with 0 in E2. replace (Z.to_nat (zlen ps)) with (length ps) by (unfold zlen; lia). rewrite E2. cbn [obind].
  pose proof (keeps_trans _ _ _ _ Hk1 Hk2) as Hk12. pose proof (keeps_holds _ _ _ p s Hk12 ltac:(by left) Hh) as Hh2.
  rewrite (Length_holds h2 p s Hh2). cbn [obind]. rewrite (proj2 (Z.ltb_lt 0 _)) by lia.
  cbn [app] in Eb. rewrite <- Eb in Ho2.
  destruct (memcpy_last h2 nw (p :: F) b2 r2 p s l2 Ho2) as (h3 & r3 & -> & Ho3 & Hk3); [by left|done|done|].
  cbn [obind]. destruct (swap_block h3 p nw F _ _ Ho3 Hp) as (h4 & -> & Ho4 & Hk4). cbn [obind]. left.
  rewrite Eb in Ho4. eapply becomes_owned; [done|done|].
  eapply keeps_trans; [|done]. apply (keeps_tail _ _ p). eauto using keeps_trans.
Qed.

Lemma positions_count fuel fnd m max s from :
  finds fnd m -> 0 <= from <= zlen s -> zlen (positions_of fuel fnd m max s from) * m <= zlen s - from.
Proof.
  intros Hf. revert max from. induction fuel as [|fuel IH]; intros max from Hr; cbn [positions_of];
    [change (zlen (@nil Z)) with 0; lia|].
  destruct (max <=? 0); [change (zlen (@nil Z)) with 0; lia|].
  destruct (fnd (drop (Z.to_nat from) s)) as [i|] eqn:E; [|change (zlen (@nil Z)) with 0; lia].
  destruct (proj2 Hf _ _ E) as [Hi Hil]. rewrite zlen_rest in Hil by lia. pose proof (proj1 Hf).
  rewrite zlen_cons. pose proof (IH (max - 1) (from + i + m) ltac:(lia)). lia.
Qed.

Lemma replaced_cstr fuel fnd m w max s : cstr_ok w -> cstr_ok s -> cstr_ok (replaced fuel fnd m w max s).
Proof.
  intros Hw. revert max s. induction fuel as [|fuel IH]; intros max s Hs; [done|]. cbn [replaced].
  destruct (max <=? 0); [done|]. destruct (fnd s) as [i|]; [|done].
  unfold cstr_ok. rewrite !Forall_app. split; [by apply Forall_take|]. split; [done|]. apply IH. by apply Forall_drop.
Qed.

(** The search method for a flag. *)
Definition method (ignoreCase : bool) (fnd : list Z -> option Z) (h : sheap) (p : Z) (c : cptr) (s : list Z) : Prop :=
  forall i, 0 <= i <= zlen s ->
    (if ignoreCase then __IFindAfter h p c else __FindAfter h p c) i
    = Ok (match fnd (drop (Z.to_nat i) s) with Some k => i + k | None => B_ERROR end).

(** How long the result can get. *)
Definition fits (s t w : list Z) : Prop := zlen s < 2 ^ 30 /\ zlen s * (zlen w + 1) <= INT_MAX /\ 0 < zlen t.

Lemma DoReplace_spec h p F s rest c t c' w max from ic fnd :
  owned h p F (zlen s) (map Some s ++ Some 0 :: rest) -> cstr_ok s -> reads h c t -> reads h c' w -> elsewhere F c' ->
  fits s t w -> 0 <= from -> finds fnd (zlen t) -> method ic fnd h p c s -> zlen t <= INT_MAX -> zlen w <= INT_MAX ->
  becomes h F (take (Z.to_nat from) s ++ replace_n fnd (zlen t) w max (drop (Z.to_nat from) s))
    (__DoReplace h p c c' max from ic) \/ exhausted.
Proof.
  intros Hown Hs Hc Hc' He (Hm & Hmax & Ht) Hf Hfn Hmeth Hti Hwi.
  destruct (owned_string _ _ _ _ _ Hown Hs) as (Hh & Hp & Ho). pose proof (zlen_nonneg s). pose proof (zlen_nonneg w).
  assert (Hsame : becomes h F s (Ok (h, p))) by (by apply becomes_same).
  unfold __DoReplace. rewrite (Length_holds h p s Hh). cbn [obind]. rewrite (reads_not_null h c t Hc).
  rewrite (proj2 (Z.ltb_ge from 0)) by lia. cbn [orb].
  destruct (Z.leb_spec max 0) as [Hmx|Hmx]; cbn [orb].
  { left. unfold replace_n. cbn [replaced]. rewrite (proj2 (Z.leb_le max 0)) by lia. by rewrite take_drop. }
  destruct (Z.leb_spec (zlen s) from) as [Hfr|Hfr].
  { left. rewrite (drop_ge s), (take_all s) by (unfold zlen in *; lia). unfold replace_n. cbn [replaced length].
    destruct (max <=? 0); [by rewrite app_nil_r|]. destruct (fnd []) as [i|] eqn:E; [|by rewrite app_nil_r].
    destruct (proj2 Hfn _ _ E) as [Hi Hil]. change (zlen (@nil Z)) with 0 in Hil. lia. }
  rewrite (strlen_reads h c t Hc). cbn [obind]. rewrite i32_len by done. rewrite (proj2 (Z.eqb_neq _ 0)) by lia.
  rewrite (reads_not_null h c' w Hc'), (strlen_reads h c' w Hc'). cbn [obind]. rewrite i32_len by done.
  set (fuel' := S (length (drop (Z.to_nat from) s))).
  destruct (positions_loop_spec (S (Z.to_nat (zlen s))) fuel' fnd (if ic then __IFindAfter h p c else __FindAfter h p c)
              (zlen t) max s from posvect0 []) as [(v & -> & Hv)|Hex];
    [done|lia|done|lia|lia|unfold fuel', zlen in *; rewrite length_drop; lia
    |split; [done|by left]|change (zlen (@nil Z)) with 0; lia| |by right].
  cbn [obind app] in *. pose proof (positions_count fuel' fnd (zlen t) max s from Hfn ltac:(lia)) as Hcnt.
  assert (Hrb : rebuilt s w (zlen t) (positions_of fuel' fnd (zlen t) max s from) 0
      = take (Z.to_nat from) s ++ replace_n fnd (zlen t) w max (drop (Z.to_nat from) s)).
  { rewrite rebuilt_replaced by (done || lia). cbn [drop Z.to_nat]. by rewrite Z.sub_0_r. }
  rewrite <- Hrb. set (ps := positions_of fuel' fnd (zlen t) max s from) in *. pose proof (zlen_nonneg ps).
  eapply ReplaceAtPositions_spec; [done..| |done|done|nia|nia|].
  - pose proof (positions_chain fuel' fnd (zlen t) max s from Hfn ltac:(lia)) as Hch.
    fold ps in Hch. destruct ps as [|pos ps']; cbn [chain] in *; [lia|]. destruct Hch. split; [lia|done].
  - rewrite Hrb. apply Forall_app. split; [by apply cstr_take|]. apply replaced_cstr; [apply Hc'|by apply Forall_drop].
Qed.

(** *** The searches *)

Lemma strstr_finds t : 0 < zlen t -> finds (fun s => strstr s t) (zlen t).
Proof. intros Ht. split; [done|]. intros s i E. by apply occurs_range, strstr_occurs. Qed.

Lemma strstr_method h p s c t : holds h p s -> reads h c t -> method false (fun s => strstr s t) h p c s.
Proof. intros Hh Hc i Hi. by apply FindAfter_eq. Qed.

Lemma strstr_suffix s t i : strstr s t = None -> 0 <= i <= zlen s -> strstr (drop (Z.to_nat i) s) t = None.
Proof.
  intros E Hi. pose proof (strstr_spec s t) as Hn. rewrite E in Hn.
  pose proof (strstr_spec (drop (Z.to_nat i) s) t) as Hs. destruct (strstr (drop (Z.to_nat i) s) t) as [k|]; [|done].
  exfalso. destruct Hs as [Hk _]. apply occurs_range in Hk as Hr. apply (Hn (i + k)).
  apply (occurs_drop s t i); [done|lia|]. by replace (i + k - i) with k by lia.
Qed.

(** Nothing is replaced where nothing is found. *)
Lemma replace_none s t w max i :
  strstr s t = None -> 0 <= i ->
  take (Z.to_nat i) s ++ replace_n (fun s => strstr s t) (zlen t) w max (drop (Z.to_nat i) s) = s.
Proof.
  intros E Hi. unfold replace_n. cbn [replaced]. destruct (max <=? 0); [by rewrite take_drop|].
  destruct (Z.le_ge_cases i (zlen s)).
  - rewrite strstr_suffix by (done || lia). by rewrite take_drop.
  - rewrite (drop_ge s) by (unfold zlen in *; lia). pose proof (strstr_suffix s t (zlen s) E ltac:(pose proof (zlen_nonneg s); lia)) as En.
    rewrite (drop_ge s) in En by (unfold zlen; lia). rewrite En, app_nil_r. by apply take_all.
Qed.

(** The members that replace with case. *)
Lemma replace_from_spec h p F s c t c' w max from :
  string_of h p F s -> reads h c t -> elsewhere F c -> reads h c' w -> elsewhere F c' ->
  fits s t w -> zlen t <= INT_MAX -> zlen w <= INT_MAX ->
  becomes h F (take (Z.to_nat (Z.max 0 from)) s
               ++ replace_n (fun s => strstr s t) (zlen t) w max (drop (Z.to_nat (Z.max 0 from)) s))
    (replace_from h p c c' max from false) \/ exhausted.
Proof.
  intros Hst Hc Hce Hc' He Hfit Ht Hw. unfold replace_from.
  destruct (MakeWritable_spec h p F s Hst) as [(h1 & q & rest & -> & Hown & Hk)|Hex]; [|by right].
  cbn [obind]. change (negb (B_OK =? B_OK)) with false. cbn [obind]. pose proof Hst as [_ [Hs _]].
  destruct (owned_string _ _ _ _ _ Hown Hs) as (Hh & _ & _). rewrite (Length_holds h1 q s Hh). cbn [obind].
  pose proof (zlen_nonneg s). rewrite min_clamp0_eq.
  assert (E : take (Z.to_nat (Z.max 0 from)) s ++ replace_n (fun s => strstr s t) (zlen t) w max (drop (Z.to_nat (Z.max 0 from)) s)
     = take (Z.to_nat (Z.max 0 (Z.min from (zlen s)))) s ++ replace_n (fun s => strstr s t) (zlen t) w max (drop (Z.to_nat (Z.max 0 (Z.min from (zlen s)))) s)).
  { destruct (Z.le_ge_cases from (zlen s)); [by rewrite Z.min_l|]. rewrite Z.min_r by done.
    rewrite !take_all, !drop_ge by (unfold zlen in *; lia). done. }
  rewrite E.
  destruct (DoReplace_spec h1 q F s rest c t c' w max (Z.max 0 (Z.min from (zlen s))) false (fun s => strstr s t) Hown Hs)
    as [(h2 & r & -> & Hs2 & Hk2)|Hex];
    [by eapply keeps_reads|by eapply keeps_reads|done|done|lia|apply strstr_finds, Hfit
    |apply strstr_method; [done|by eapply keeps_reads]|done|done| |by right].
  left. exists h2, r. split; [done|]. split; [done|by eapply keeps_trans].
Qed.

Lemma FindFirst_reads h p s c t : holds h p s -> reads h c t ->
  FindFirst h p c = Ok (match strstr s t with Some i => i | None => B_ERROR end).
Proof. intros Hh Hc. unfold FindFirst. rewrite (reads_not_null h c t Hc). by apply ShortFindAfter_eq. Qed.

Lemma Replace_spec h p F s c t c' w max from :
  string_of h p F s -> reads h c t -> elsewhere F c -> reads h c' w -> elsewhere F c' ->
  fits s t w -> zlen t <= INT_MAX -> zlen w <= INT_MAX ->
  becomes h F (take (Z.to_nat (Z.max 0 from)) s
               ++ replace_n (fun s => strstr s t) (zlen t) w max (drop (Z.to_nat (Z.max 0 from)) s))
    (Replace h p c c' max from) \/ exhausted.
Proof.
  intros Hst Hc Hce Hc' He Hfit Ht Hw. unfold Replace.
  rewrite (reads_not_null h c t Hc), (reads_not_null h c' w Hc'). cbn [orb].
  destruct (Z.leb_spec max 0) as [Hm|Hm].
  { left. unfold replace_n. cbn [replaced]. rewrite (proj2 (Z.leb_le max 0)), take_drop by done. by apply becomes_same. }
  rewrite (FindFirst_reads h p s c t) by (done || apply Hst). cbn [obind].
  destruct (strstr s t) as [i|] eqn:E.
  - apply strstr_occurs, occurs_range in E. rewrite (proj2 (Z.ltb_ge i 0)) by lia. by apply replace_from_spec.
  - change (B_ERROR <? 0) with true. left. rewrite replace_none by (done || lia). by apply becomes_same.
Qed.

Lemma ReplaceAll_spec h p F s c t c' w from :
  string_of h p F s -> reads h c t -> elsewhere F c -> reads h c' w -> elsewhere F c' ->
  fits s t w -> zlen t <= INT_MAX -> zlen w <= INT_MAX ->
  becomes h F (take (Z.to_nat (Z.max 0 from)) s
               ++ replace_n (fun s => strstr s t) (zlen t) w REPLACE_ALL (drop (Z.to_nat (Z.max 0 from)) s))
    (ReplaceAll h p c c' from) \/ exhausted.
Proof.
  intros Hst Hc Hce Hc' He Hfit Ht Hw. unfold ReplaceAll.
  rewrite (reads_not_null h c t Hc), (reads_not_null h c' w Hc'). cbn [orb].
  rewrite (FindFirst_reads h p s c t) by (done || apply Hst). cbn [obind].
  destruct (strstr s t) as [i|] eqn:E.
  - apply strstr_occurs, occurs_range in E. rewrite (proj2 (Z.ltb_ge i 0)) by lia. by apply replace_from_spec.
  - change (B_ERROR <? 0) with true. left. rewrite replace_none by (done || lia). by apply becomes_same.
Qed.

Lemma detach_replace_spec h p F s c t c' w max :
  string_of h p F s -> reads h c t -> elsewhere F c -> reads h c' w -> elsewhere F c' ->
  fits s t w -> zlen t <= INT_MAX -> zlen w <= INT_MAX ->
  becomes h F (replace_n (fun s => strstr s t) (zlen t) w max s) (detach_replace h p c c' max 0 false) \/ exhausted.
Proof.
  intros Hst Hc Hce Hc' He Hfit Ht Hw. pose proof (replace_from_spec h p F s c t c' w max 0 Hst Hc Hce Hc' He Hfit Ht Hw) as Hr.
  change (Z.to_nat (Z.max 0 0)) with 0%nat in Hr. rewrite drop_0 in Hr. rewrite take_0, app_nil_l in Hr.
  destruct Hr as [Hr|Hr]; [left|by right].
  unfold replace_from, detach_replace in *. pose proof (zlen_nonneg s).
  destruct (__MakeWritable h p) as [[[h1 q] st]| | |]; [|done..]. cbn [obind] in *. destruct (negb (st =? B_OK)); [done|].
  destruct (Length h1 q) as [l| | |] eqn:El; cbn [obind] in Hr; [|by destruct Hr as (? & ? & ? & _)..].
  replace (min_clamp0 0 l) with 0 in Hr; [done|]. rewrite min_clamp0_eq. lia.
Qed.

Lemma ReplaceFirst_spec h p F s c t c' w :
  string_of h p F s -> reads h c t -> elsewhere F c -> reads h c' w -> elsewhere F c' ->
  fits s t w -> zlen t <= INT_MAX -> zlen w <= INT_MAX ->
  becomes h F (replace_n (fun s => strstr s t) (zlen t) w 1 s) (ReplaceFirst h p c c') \/ exhausted.
Proof.
  intros Hst Hc Hce Hc' He Hfit Ht Hw. unfold ReplaceFirst.
  rewrite (reads_not_null h c t Hc), (reads_not_null h c' w Hc'). cbn [orb].
  rewrite (FindFirst_reads h p s c t) by (done || apply Hst). cbn [obind].
  destruct (strstr s t) as [i|] eqn:E.
  - apply strstr_occurs, occurs_range in E. rewrite (proj2 (Z.ltb_ge i 0)) by lia. by apply detach_replace_spec.
  - change (B_ERROR <? 0) with true. left. pose proof (replace_none s t w 1 0 E ltac:(lia)) as Hr. change (Z.to_nat 0) with 0%nat in Hr. rewrite drop_0 in Hr. rewrite take_0, app_nil_l in Hr. rewrite Hr. by apply becomes_same.
Qed.

Lemma RemoveAll_spec h p F s c t :
  string_of h p F s -> reads h c t -> elsewhere F c -> fits s t [] -> zlen t <= INT_MAX ->
  becomes h F (replace_n (fun s => strstr s t) (zlen t) [] REPLACE_ALL s) (RemoveAll h p c) \/ exhausted.
Proof.
  intros Hst Hc Hce Hfit Ht. unfold RemoveAll. rewrite (Length_holds h p s) by apply Hst. cbn [obind].
  rewrite (reads_not_null h c t Hc). cbn [orb].
  assert (Hnone : strstr s t = None -> becomes h F (replace_n (fun s => strstr s t) (zlen t) [] REPLACE_ALL s) (Ok (h, p))).
  { intros E. pose proof (replace_none s t [] REPLACE_ALL 0 E ltac:(lia)) as Hr. change (Z.to_nat 0) with 0%nat in Hr. rewrite drop_0 in Hr. rewrite take_0, app_nil_l in Hr. rewrite Hr. by apply becomes_same. }
  destruct (Z.eqb_spec (zlen s) 0) as [Hz|Hz].
  { left. apply Hnone. destruct (strstr s t) eqn:E; [|done]. apply strstr_occurs, occurs_range in E. destruct Hfit as (_ & _ & ?). lia. }
  rewrite (FindFirst_reads h p s c t) by (done || apply Hst). cbn [obind].
  destruct (strstr s t) as [i|] eqn:E; [|by left; apply Hnone].
  apply strstr_occurs, occurs_range in E. rewrite (proj2 (Z.ltb_ge i 0)) by lia.
  apply detach_replace_spec; try done; apply reads_lit; constructor.
Qed.

End Spec.
