(* ===== verification/BStringEscape.v ===== *)
(** Searching without case, sets of bytes, and escaping
    (kits/support/String.cpp): what the functions at the end of
    BStringReplace.v do to the contents, and the round trip through escaping
    and unescaping. *)

From Stdlib Require Import ZArith Lia List Bool.
From stdpp Require Import base tactics list numbers gmap.
From S2P Require Import Prelude CText Utf8 BString BStringShare BStringEdit BStringOps BStringFind BStringReplace.
Local Open Scope Z_scope.
Local Open Scope c_scope.
Import Allocator.

(** ** Without case *)

Lemma tolower_nul b : tolower b = 0 -> b = 0.
Proof. unfold tolower, isupper. destruct (Z.leb_spec 65 b), (Z.leb_spec b 90); simpl; lia. Qed.

Lemma strncasecmp_prefix x s y t r :
  cstr_ok s -> cstr_ok t ->
  exists v, strncasecmp (x ++ s ++ [0]) (zlen x) (y ++ t ++ r) (zlen y) (length t) = Ok v
    /\ (v = 0 <-> is_prefix (map tolower t) (map tolower s) = true).
Proof.
  intros Hs Ht. revert x s y Hs. induction Ht as [|b t Hb Ht IH]; intros x s y Hs; [by exists 0|].
  cbn [length strncasecmp app]. rewrite (rd_mid y (t ++ r) b) by done.
  destruct Hs as [|a s Ha Hs]; cbn [app].
  - rewrite (rd_mid x [] 0) by done. cbn [obind]. change (tolower 0) with 0.
    rewrite (proj2 (Z.eqb_neq 0 (tolower b))) by (intros E; symmetry in E; apply tolower_nul in E; lia).
    cbn [negb]. eexists. split; [done|]. cbn [map is_prefix]. split; [|done]. intros E.
    assert (b = 0) by (apply tolower_nul; lia). lia.
  - rewrite (rd_mid x (s ++ [0]) a) by done. cbn [obind map is_prefix].
    destruct (Z.eqb_spec (tolower a) (tolower b)) as [E|E]; cbn [negb].
    + rewrite (proj2 (Z.eqb_neq a 0)) by lia. rewrite E, Z.eqb_refl. cbn [andb].
      specialize (IH (x ++ [a]) s (y ++ [b]) Hs). by rewrite <- !app_assoc, !zlen_snoc in IH.
    + eexists. split; [done|]. rewrite (proj2 (Z.eqb_neq (tolower b) (tolower a))) by done. split; [lia|done].
Qed.

Lemma is_prefix_long t s : zlen s < zlen t -> is_prefix t s = false.
Proof.
  intros Hl. destruct (is_prefix t s) eqn:E; [|done]. apply is_prefix_spec in E as (b & ->).
  rewrite zlen_app in Hl. pose proof (zlen_nonneg b). lia.
Qed.

(** The repository's [strcasestr] is [strstr] in lower case. *)
Lemma strcasestr_spec s t : cstr_ok s -> cstr_ok t ->
  strcasestr s t = Ok (strstr (map tolower s) (map tolower t)).
Proof.
  intros Hs Ht. unfold strcasestr. destruct (Z.eqb_spec (zlen t) 0) as [Hz|Hz].
  { destruct t; [|zl]. by destruct s. }
  assert (Hnil : forall s, zlen s < zlen t -> strstr (map tolower s) (map tolower t) = None).
  { induction s0 as [|b s0 IH]; intros Hl; cbn [map strstr].
    - by rewrite is_prefix_long by (rewrite zlen_map; done).
    - rewrite is_prefix_long by (rewrite zlen_cons, !zlen_map; rewrite zlen_cons in Hl; done).
      rewrite zlen_cons in Hl. by rewrite IH by lia. }
  destruct (Z.ltb_spec (zlen s) (zlen t)) as [Hl|_]; [by rewrite Hnil|].
  induction Hs as [|b s Hb Hs IH]; cbn [strcasestr_loop].
  { rewrite Hnil; [done|]. pose proof (zlen_nonneg t). change (zlen (@nil Z)) with 0. lia. }
  destruct (Z.ltb_spec (zlen (b :: s) - zlen t) 0) as [Hl|Hl]; [rewrite Hnil by lia; done|].
  destruct (strncasecmp_prefix [] (b :: s) [] t [0]) as (v & E & Hv); [by constructor|done|].
  cbn [app] in E. change (zlen (@nil Z)) with 0 in E. cbn [app]. rewrite E. cbn [obind map strstr] in *.
  destruct (Z.eqb_spec v 0) as [->|Hne]; [by rewrite (proj1 Hv eq_refl)|].
  replace (is_prefix _ _) with false by (symmetry; apply not_true_is_false; by rewrite <- Hv).
  rewrite zlen_cons. replace (zlen s + 1 - zlen t - 1) with (zlen s - zlen t) by lia. by rewrite IH.
Qed.

Definition casestr (s t : list Z) : option Z := strstr (map tolower s) (map tolower t).

Lemma casestr_finds t : 0 < zlen t -> finds (fun s => casestr s t) (zlen t).
Proof.
  intros Ht. split; [done|]. intros s i E. apply strstr_occurs, occurs_range in E. by rewrite !zlen_map in E.
Qed.

Section Escape.
Context `{MemoryOk} `{MembersOk}.

Lemma IFindAfter_eq h p s c t i :
  holds h p s -> reads h c t -> 0 <= i <= zlen s ->
  __IFindAfter h p c i = Ok (match casestr (drop (Z.to_nat i) s) t with Some k => i + k | None => B_ERROR end).
Proof.
  intros Hh Hc Hi. unfold __IFindAfter. rewrite String_data.
  pose proof (reads_at h p s i Hh Hi) as Hr. rewrite (cstr_reads _ _ _ Hr). cbn [obind].
  rewrite (cstr_reads h c t Hc). cbn [obind]. rewrite strcasestr_spec by (apply Hr || apply Hc). cbn [obind].
  unfold casestr. by destruct (strstr _ _).
Qed.

Lemma casestr_method h p s c t : holds h p s -> reads h c t -> method true (fun s => casestr s t) h p c s.
Proof. intros Hh Hc i Hi. by apply IFindAfter_eq. Qed.

(** Replacing without case. *)
Lemma ireplace_from_spec h p F s c t c' w max from :
  string_of h p F s -> reads h c t -> elsewhere F c -> reads h c' w -> elsewhere F c' ->
  fits s t w -> zlen t <= INT_MAX -> zlen w <= INT_MAX -> 0 <= from <= zlen s ->
  becomes h F (take (Z.to_nat from) s ++ replace_n (fun s => casestr s t) (zlen t) w max (drop (Z.to_nat from) s))
    (replace_from h p c c' max from true) \/ exhausted.
Proof.
  intros Hst Hc Hce Hc' He Hfit Ht Hw Hf. unfold replace_from.
  destruct (MakeWritable_spec h p F s Hst) as [(h1 & q & rest & -> & Hown & Hk)|Hex]; [|by right].
  cbn [obind]. change (negb (B_OK =? B_OK)) with false. cbn [obind]. pose proof Hst as [_ [Hs _]].
  destruct (owned_string _ _ _ _ _ Hown Hs) as (Hh & _ & _). rewrite (Length_holds h1 q s Hh). cbn [obind].
  rewrite min_clamp0_eq, Z.min_l, Z.max_r by lia.
  destruct (DoReplace_spec h1 q F s rest c t c' w max from true (fun s => casestr s t) Hown Hs)
    as [(h2 & r & -> & Hs2 & Hk2)|Hex];
    [by eapply keeps_reads|by eapply keeps_reads|done|done|lia|apply casestr_finds, Hfit
    |apply casestr_method; [done|by eapply keeps_reads]|done|done| |by right].
  left. exists h2, r. split; [done|]. split; [done|by eapply keeps_trans].
Qed.

(** ** Sets of bytes *)

Lemma strcspn_split s set :
  exists a b, s = a ++ b /\ strcspn s set = zlen a /\ Forall (fun c => ~ c ∈ set) a
    /\ match b with [] => True | c :: _ => c ∈ set end.
Proof.
  induction s as [|c s IH]; [by exists [], []|]. cbn [strcspn]. case_bool_decide as Hc.
  - exists [], (c :: s). by split.
  - destruct IH as (a & b & -> & -> & Ha & Hb). exists (c :: a), b. rewrite zlen_cons.
    split; [done|]. split; [lia|]. split; [by constructor|done].
Qed.

(** Each byte of the set behind the escape character. *)
Definition escaped (set : list Z) (e : Z) (s : list Z) : list Z :=
  concat (map (fun c => if bool_decide (c ∈ set) then [e; c] else [c]) s).

Lemma escaped_app set e s s' : escaped set e (s ++ s') = escaped set e s ++ escaped set e s'.
Proof. unfold escaped. by rewrite map_app, concat_app. Qed.

Lemma escaped_none set e s : Forall (fun c => ~ c ∈ set) s -> escaped set e s = s.
Proof.
  induction 1 as [|c s Hc Hs IH]; [done|]. unfold escaped in *. cbn [map concat].
  rewrite bool_decide_false by done. cbn [app]. by rewrite IH.
Qed.

Lemma escaped_cons set e c s : c ∈ set -> escaped set e (c :: s) = e :: c :: escaped set e s.
Proof. intros Hc. unfold escaped. cbn [map concat]. by rewrite bool_decide_true. Qed.

Lemma escaped_cstr set e s : cstr_ok s -> 0 < e < 256 -> cstr_ok (escaped set e s).
Proof.
  intros Hs He. induction Hs as [|c s Hc Hs IH]; [constructor|]. unfold escaped in *. cbn [map concat].
  apply Forall_app. split; [|done]. case_bool_decide; repeat constructor; lia.
Qed.

(** The positions of the bytes of the set, from [offset] on. *)
Fixpoint set_at (set s : list Z) (offset : Z) : list Z :=
  match s with
  | [] => []
  | c :: s => if bool_decide (c ∈ set) then offset :: set_at set s (offset + 1) else set_at set s (offset + 1)
  end.

Lemma set_at_none set a b offset : Forall (fun c => ~ c ∈ set) a -> set_at set (a ++ b) offset = set_at set b (offset + zlen a).
Proof.
  intros Ha. revert offset. induction Ha as [|c a Hc Ha IH]; intros offset; [by rewrite Z.add_0_r|].
  cbn [app set_at]. rewrite bool_decide_false by done. rewrite IH, zlen_cons. f_equal. lia.
Qed.

Lemma set_at_len set s offset : zlen (set_at set s offset) <= zlen s.
Proof.
  revert offset. induction s as [|c s IH]; intros offset; cbn [set_at]; [lia|].
  specialize (IH (offset + 1)). case_bool_decide; rewrite ?zlen_cons; lia.
Qed.

Lemma zlen_escaped set e s offset : zlen (escaped set e s) = zlen s + zlen (set_at set s offset).
Proof.
  revert offset. induction s as [|c s IH]; intros offset; [done|]. unfold escaped in *. cbn [map concat set_at].
  rewrite zlen_app, (IH (offset + 1)). case_bool_decide; rewrite !zlen_cons; change (zlen (@nil Z)) with 0; lia.
Qed.

Lemma strcspn_at_spec h p s i c set : holds h p s -> reads h c set -> 0 <= i <= zlen s ->
  strcspn_at h p i c = Ok (strcspn (drop (Z.to_nat i) s) set).
Proof.
  intros Hh Hc Hi. unfold strcspn_at. rewrite (cstr_reads _ _ _ (reads_at h p s i Hh Hi)). cbn [obind].
  by rewrite (cstr_reads h c set Hc).
Qed.

Lemma escape_positions_spec fuel h p s c set offset v ps :
  holds h p s -> reads h c set -> zlen s < 2 ^ 30 -> 0 <= offset <= zlen s + 1 -> Z.max 0 (zlen s - offset) < Z.of_nat fuel ->
  pv_ok v ps -> zlen ps <= offset ->
  (exists v', escape_positions fuel h p c (zlen s) offset v = Ok (Some v')
     /\ pv_ok v' (ps ++ set_at set (drop (Z.to_nat offset) s) offset)) \/ exhausted.
Proof.
  intros Hh Hc Hm. revert offset v ps. induction fuel as [|fuel IH]; intros offset v ps Ho Hf Hv Hp; [lia|].
  cbn [escape_positions]. destruct (Z.ltb_spec offset (zlen s)) as [Hlt|Hge].
  2: { left. exists v. rewrite drop_ge by (unfold zlen in *; lia). by rewrite app_nil_r. }
  rewrite (strcspn_at_spec h p s offset c set) by (done || lia). cbn [obind].
  destruct (strcspn_split (drop (Z.to_nat offset) s) set) as (a & b & E & -> & Ha & Hb).
  assert (Hl : zlen a + zlen b = zlen s - offset) by (rewrite <- zlen_app, <- E; apply zlen_rest; lia).
  assert (Hd : drop (Z.to_nat (offset + (zlen a + 1))) s = tail b).
  { replace (Z.to_nat (offset + (zlen a + 1))) with (Z.to_nat offset + (length a + 1))%nat by (unfold zlen in *; lia).
    rewrite <- drop_drop, E, <- drop_drop, drop_app_length. by destruct b. }
  rewrite E, set_at_none by done. pose proof (zlen_nonneg a). destruct b as [|x b]; cbn [tail set_at] in *.
  - change (zlen (@nil Z)) with 0 in Hl. rewrite (proj2 (Z.ltb_ge (zlen a) _)) by lia.
    destruct (IH (offset + (zlen a + 1)) v ps) as [(v' & -> & Hv')|Hex]; [lia|lia|done|lia| |by right].
    rewrite Hd in Hv'. left. by exists v'.
  - rewrite zlen_cons in Hl. pose proof (zlen_nonneg b). rewrite (proj2 (Z.ltb_lt (zlen a) _)) by lia.
    rewrite bool_decide_true by done.
    destruct (Add_spec v ps (offset + zlen a) Hv) as [(v1 & -> & Hv1)|Hex]; [lia| |by right]. cbn [obind negb].
    destruct (IH (offset + (zlen a + 1)) v1 (ps ++ [offset + zlen a])) as [(v' & -> & Hv')|Hex];
      [lia|lia|done|rewrite zlen_snoc; lia| |by right].
    left. exists v'. split; [done|]. rewrite Hd, <- app_assoc in Hv'. cbn [app] in Hv'.
    by rewrite Z.add_assoc in Hv'.
Qed.

(** One byte more. *)
Lemma store1_next h q O len built rest v :
  owned h q O len (map Some built ++ rest) -> zlen built < len -> byte_ok v ->
  exists h' rest', store1 h q (zlen built) v = Ok h' /\ owned h' q O len (map Some (built ++ [v]) ++ rest') /\ keeps h h' O.
Proof.
  intros Ho Hl Hv. destruct (owned_good _ _ _ _ _ Ho) as (_ & _ & Hlt). rewrite zlen_app, zlen_map in Hlt.
  destruct rest as [|x rest]; [change (zlen (@nil (option Z))) with 0 in Hlt; lia|].
  destruct (store1_mid h q O len (map Some built) x rest (zlen built) v Ho) as (h' & E & Ho' & Hk); [by rewrite zlen_map|done|done|].
  exists h', rest. split; [done|]. split; [|done]. by rewrite map_app, <- app_assoc.
Qed.

Lemma escape_loop_spec set e k : forall done_ v s h p nw O newLen built rest last,
  0 < e < 256 -> cstr_ok k -> s = take (Z.to_nat last) s ++ k -> 0 <= last <= zlen s ->
  pv_ok v (done_ ++ set_at set k last) ->
  owned h nw O newLen (map Some built ++ rest) -> p ∈ O -> holds h p s ->
  zlen built + zlen (escaped set e k) = newLen ->
  exists h' built' rest' last', escape_loop (length (set_at set k last)) (zlen done_) v e h p nw last (zlen built) last
      = Ok (h', last', zlen built', last')
    /\ built' ++ drop (Z.to_nat last') s = built ++ escaped set e k /\ 0 <= last' <= zlen s
    /\ owned h' nw O newLen (map Some built' ++ rest') /\ keeps h h' O.
Proof.
  remember (length k) as n eqn:En. revert k En. induction n as [n IH] using lt_wf_ind.
  intros k En done_ v s h p nw O newLen built rest last He Hk Es Hl Hv Ho Hp Hh Hlen.
  assert (Hd : drop (Z.to_nat last) s = k).
  { rewrite Es at 1. rewrite drop_app_ge, length_take by (rewrite length_take; lia).
    replace (_ - _)%nat with 0%nat by (unfold zlen in Hl; lia). done. }
  destruct (strcspn_split k set) as (a & b & Ek & _ & Ha & Hb).
  rewrite Ek, set_at_none in * by done. rewrite escaped_app, (escaped_none set e a Ha) in *.
  assert (Hab : zlen a + zlen b = zlen s - last) by (rewrite <- zlen_app, <- Hd; apply zlen_rest; lia).
  pose proof (zlen_nonneg a). destruct b as [|x b]; cbn [set_at length escape_loop] in *.
  { exists h, built, rest, last. split; [done|]. rewrite Hd. split; [by rewrite !app_nil_r|]. split; [done|].
    split; [done|apply keeps_refl]. }
  rewrite bool_decide_true in * by done. cbn [length escape_loop].
  rewrite (pos_ItemAt_spec v done_ (last + zlen a) _ Hv). cbn [obind].
  rewrite escaped_cons in * by done. rewrite zlen_app, !zlen_cons in Hlen. rewrite zlen_cons in Hab.
  pose proof (zlen_nonneg b). pose proof (zlen_nonneg (escaped set e b)).
  assert (Hx : x = x /\ 0 < x < 256 /\ cstr_ok b).
  { apply Forall_app in Hk as [_ Hk]. inversion Hk. done. }
  destruct Hx as (_ & Hx & Hkb). replace (last + zlen a - last) with (zlen a) by lia.
  assert (H1' : exists h1 rest1, (if 0 <? zlen a then
         h <- memcpy h nw (zlen built) (In p last) (zlen a);;
         Ok (h, last + zlen a, zlen built + zlen a)
       else Ok (h, last, zlen built)) = Ok (h1, last + zlen a, zlen (built ++ a))
       /\ owned h1 nw O newLen (map Some (built ++ a) ++ rest1) /\ keeps h h1 O).
  { destruct (Z.ltb_spec 0 (zlen a)).
    - destruct (memcpy_next h nw O newLen built rest (In p last) (a ++ x :: b) (zlen a) Ho) as (h1 & rest1 & -> & Ho1 & Hk1);
        [rewrite zlen_app; pose proof (zlen_nonneg (x :: b)); lia|lia|rewrite <- Hd; apply reads_at; [done|lia]|done|].
      exists h1, rest1. cbn [obind]. rewrite zlen_app. split; [done|].
      rewrite take_app_le, take_ge in Ho1 by (unfold zlen; lia). done.
    - destruct a; [|zl]. exists h, rest. change (zlen (@nil Z)) with 0. rewrite app_nil_r, Z.add_0_r.
      split; [done|]. split; [done|apply keeps_refl]. }
  destruct H1' as (h1 & rest1 & -> & Ho1 & Hk1). cbn [obind].
  destruct (store1_next h1 nw O newLen _ rest1 e Ho1) as (h2 & rest2 & -> & Ho2 & Hk2); [rewrite zlen_app; lia|unfold byte_ok; lia|].
  cbn [obind]. pose proof (keeps_trans _ _ _ _ Hk1 Hk2) as Hk12.
  rewrite (string_load h2 p s (last + zlen a) x); [|by eapply keeps_holds| |lia].
  2: { rewrite <- (take_drop (Z.to_nat last) s), Hd. rewrite lookup_app_r by (rewrite length_take; unfold zlen in *; lia).
       rewrite length_take. replace (_ - _)%nat with (length a) by (unfold zlen in *; lia). by rewrite lookup_app_r, Nat.sub_diag. }
  cbn [obind]. replace (zlen (built ++ a) + 1) with (zlen ((built ++ a) ++ [e])) by (by rewrite zlen_snoc).
  destruct (store1_next h2 nw O newLen _ rest2 x Ho2) as (h3 & rest3 & -> & Ho3 & Hk3); [rewrite zlen_snoc, zlen_app; lia|unfold byte_ok; lia|].
  cbn [obind].
  destruct (IH (length b)) with (k := b) (done_ := done_ ++ [last + zlen a]) (v := v) (s := s) (h := h3) (p := p) (nw := nw)
    (O := O) (newLen := newLen) (built := ((built ++ a) ++ [e]) ++ [x]) (rest := rest3) (last := last + zlen a + 1)
    as (h4 & b4 & r4 & l4 & E4 & Eb4 & Hl4 & Ho4 & Hk4).
  - rewrite En, Ek || rewrite En. rewrite length_app. cbn [length]. lia.
  - done.
  - done.
  - done.
  - rewrite <- (take_drop (Z.to_nat (last + zlen a + 1)) s) at 1. f_equal.
    replace (Z.to_nat (last + zlen a + 1)) with (Z.to_nat last + (length a + 1))%nat by (unfold zlen in *; lia).
    by rewrite <- drop_drop, Hd, <- drop_drop, drop_app_length.
  - lia.
  - rewrite <- app_assoc. done.
  - done.
  - done.
  - eapply keeps_holds; [|done|done]. exact (keeps_trans _ _ _ _ Hk12 Hk3).
  - rewrite !zlen_snoc, zlen_app. lia.
  - rewrite !zlen_snoc in E4. replace (zlen (built ++ a) + 2) with (zlen (built ++ a) + 1 + 1) by lia. rewrite E4.
    exists h4, b4, r4, l4. split; [done|]. rewrite Eb4, <- !app_assoc. split; [done|]. split; [done|]. split; [done|].
    eauto using keeps_trans.
Qed.

(** *** Escaping *)

Lemma escaped_len set e s offset : zlen (escaped set e s) = zlen s + zlen (set_at set s offset).
Proof.
  revert offset. induction s as [|c s IH]; intros offset; [done|]. unfold escaped in *. cbn [map concat set_at].
  rewrite zlen_app, zlen_cons, (IH (offset + 1)). case_bool_decide; rewrite !zlen_cons; change (zlen (@nil Z)) with 0; lia.
Qed.

(** The contents of [__DoCharacterEscape] and [__DoCharacterDeescape] at first: a copy of the argument. *)
Lemma copy_argument_spec h p F s0 c s :
  string_of h p F s0 -> reads h c s -> elsewhere F c -> zlen s <= INT_MAX ->
  (exists h1 h2 q rest, __MakeWritable_to h p (zlen s) false = Ok (h1, q, B_OK) /\ Length h1 q = Ok (zlen s)
     /\ memcpy h1 q 0 c (zlen s) = Ok h2
     /\ owned h2 q F (zlen s) (map Some s ++ Some 0 :: rest) /\ keeps h h2 F) \/
  __MakeWritable_to h p (zlen s) false = Ok (h, p, B_NO_MEMORY) /\ exhausted.
Proof.
  intros Hst Hc He Hm. pose proof (zlen_nonneg s).
  destruct (MakeWritable_to_spec h p F s0 (zlen s) false Hst) as [(h1 & q & x & rest & E & Ho & Hx & _ & Hk)|Hex]; [lia| |by right].
  destruct (memcpy_mid h1 q F (zlen s) [] x (Some 0 :: rest) 0 c s (zlen s) Ho) as (h2 & E2 & Ho2 & Hk2);
    [done|done|lia|by eapply keeps_reads|done|lia|].
  left. exists h1, h2, q, rest. split; [done|]. split; [by eapply Length_owned|]. split; [done|].
  rewrite take_all in Ho2 by lia. split; [done|by eapply keeps_trans].
Qed.

(** [CharacterEscape] with a text gives its escaped form. *)
Lemma CharacterEscape_spec h p F s0 c s c' set e :
  string_of h p F s0 -> reads h c s -> elsewhere F c -> reads h c' set -> elsewhere F c' -> zlen s < 2 ^ 30 -> 0 < e < 256 ->
  becomes h F (escaped set e s) (CharacterEscape_of h p c c' e) \/ exhausted.
Proof.
  intros Hst Hc Hce Hc' He' Hm He. unfold CharacterEscape_of, __DoCharacterEscape, string_length.
  rewrite (reads_not_null h c' set Hc'), (reads_not_null h c s Hc), (strlen_reads h c s Hc). cbn [negb obind].
  rewrite i32_len by (unfold INT_MAX; lia).
  destruct (copy_argument_spec h p F s0 c s Hst Hc Hce) as [(h1 & h2 & q & rest & -> & El & Em & Hown & Hk)|[_ Hex]];
    [unfold INT_MAX; lia| |by right].
  cbn [obind]. change (negb (B_OK =? B_OK)) with false. cbn [obind]. rewrite El. cbn [obind]. rewrite Em. cbn [obind].
  pose proof (proj1 Hc) as Hs. destruct (owned_string _ _ _ _ _ Hown Hs) as (Hh & Hq & Ho).
  pose proof (zlen_nonneg s). pose proof (set_at_len set s 0) as Hsl. pose proof (zlen_nonneg (set_at set s 0)).
  destruct (escape_positions_spec (S (Z.to_nat (zlen s))) h2 q s c' set 0 posvect0 [] Hh) as [(v & -> & Hv)|Hex];
    [by eapply keeps_reads|done|lia|lia|split; [done|by left]|change (zlen (@nil Z)) with 0; lia| |by right].
  cbn [obind app Z.to_nat] in *. rewrite drop_0 in Hv. unfold CountItems. rewrite (proj1 Hv).
  assert (Hu : u32 (zlen (set_at set s 0)) = zlen (set_at set s 0)) by (apply uwrap_id; lia). rewrite !Hu.
  rewrite <- (escaped_len set e s 0), i32_len by (rewrite (escaped_len set e s 0); unfold INT_MAX; lia).
  assert (Hok : cstr_ok (escaped set e s)) by (by apply escaped_cstr).
  destruct (Z.eqb_spec (zlen (escaped set e s)) 0) as [Hz|Hz].
  { destruct (escaped set e s); [|zl].
    destruct (resize_text h2 q F _ [] _ Hown) as [(h' & r & E & _ & Hs' & Hk')|Hex]; [done|constructor| |by right].
    left. change (zlen (@nil Z)) with 0 in E. unfold ignore. rewrite E. exists h', r. split; [done|]. split; [done|by eapply keeps_trans]. }
  destruct (Allocate_spec h2 (q :: F) (zlen (escaped set e s)) Ho) as [(h3 & nw & -> & Hnw & Ho3 & Hk3)|[_ Hex]];
    [rewrite (escaped_len set e s 0); unfold INT_MAX; lia| |by right].
  cbn [obind]. rewrite (proj2 (Z.eqb_neq _ _) Hnw).
  assert (Hh3 : holds h3 q s) by (eapply keeps_holds; [done|by left|done]).
  destruct (escape_loop_spec set e s [] v s h3 q nw (q :: F) (zlen (escaped set e s)) []
      (replicate (Z.to_nat (zlen (escaped set e s))) None ++ [Some 0]) 0 He Hs) as (h4 & b4 & r4 & l4 & E4 & Eb & Hl4 & Ho4 & Hk4);
    [done|lia|done|exact Ho3|by left|done|done|].
  change (zlen (@nil Z)) with 0 in E4. replace (Z.to_nat (zlen (set_at set s 0))) with (length (set_at set s 0)) by (unfold zlen; lia).
  rewrite E4. cbn [obind]. pose proof (keeps_trans _ _ _ _ Hk3 Hk4) as Hk34.
  assert (Hh4 : holds h4 q s) by (eapply keeps_holds; [done|by left|done]).
  rewrite (Length_holds h4 q s Hh4). cbn [obind]. rewrite (proj2 (Z.ltb_lt 0 _)) by lia.
  cbn [app] in Eb. rewrite <- Eb in Ho4.
  destruct (memcpy_last h4 nw (q :: F) b4 r4 q s l4 Ho4) as (h5 & r5 & -> & Ho5 & Hk5); [by left|done|done|].
  cbn [obind]. destruct (swap_block h5 q nw F _ _ Ho5 Hq) as (h6 & -> & Ho6 & Hk6). cbn [obind]. left.
  rewrite Eb in Ho6. eapply becomes_owned; [done|done|].
  eapply keeps_trans; [done|]. eapply keeps_trans; [|done]. apply (keeps_tail _ _ q). eauto using keeps_trans.
Qed.

(** *** Unescaping *)

(** The bytes other than [e]. *)
Definition unescaped (e : Z) (s : list Z) : list Z := filter (fun c => c <> e) s.

Lemma unescaped_app e s s' : unescaped e (s ++ s') = unescaped e s ++ unescaped e s'.
Proof. apply filter_app. Qed.

Lemma unescaped_none e s : ~ e ∈ s -> unescaped e s = s.
Proof.
  unfold unescaped. induction s as [|c s IH]; [done|]. intros Hn. rewrite filter_cons_True.
  - f_equal. apply IH. intros ?. apply Hn. by right.
  - intros ->. apply Hn. by left.
Qed.

(** Escaping with a byte that is not in the text loses nothing. *)
Lemma unescaped_escaped set e s : ~ e ∈ s -> unescaped e (escaped set e s) = s.
Proof.
  unfold unescaped, escaped. induction s as [|c s IH]; [done|]. intros Hn. cbn [map concat]. rewrite filter_app.
  assert (Hc : c <> e) by (intros ->; apply Hn; by left).
  rewrite IH by (intros ?; apply Hn; by right). case_bool_decide.
  - rewrite filter_cons_False by tauto. by rewrite filter_cons_True.
  - by rewrite filter_cons_True.
Qed.

Lemma strstr_byte s e :
  strstr s [e] = None /\ unescaped e s = s
  \/ exists a b, s = a ++ e :: b /\ strstr s [e] = Some (zlen a) /\ unescaped e a = a.
Proof.
  induction s as [|c s IH]; [by left|]. cbn [strstr is_prefix]. rewrite andb_true_r.
  destruct (Z.eqb_spec e c) as [<-|Hne]; [right; by exists [], s|].
  unfold unescaped in *. destruct IH as [[-> IH]|(a & b & -> & -> & IH)].
  - left. split; [done|]. rewrite filter_cons_True by congruence. by rewrite IH.
  - right. exists (c :: a), b. split; [done|]. rewrite zlen_cons. split; [done|].
    rewrite filter_cons_True by congruence. by rewrite IH.
Qed.

(** Replacing a byte by nothing. *)
Lemma replaced_unescaped fuel e max s :
  (length s < fuel)%nat -> zlen s <= max -> replaced fuel (fun s => strstr s [e]) 1 [] max s = unescaped e s.
Proof.
  revert max s. induction fuel as [|fuel IH]; intros max s Hf Hm; [lia|]. cbn [replaced].
  destruct (strstr_byte s e) as [[-> ->]|(a & b & -> & -> & Ha)]; [by destruct (max <=? 0)|].
  rewrite zlen_app, zlen_cons in Hm. pose proof (zlen_nonneg a). pose proof (zlen_nonneg b).
  rewrite length_app in Hf. cbn [length] in Hf.
  rewrite (proj2 (Z.leb_gt max 0)) by lia. replace (Z.to_nat (zlen a)) with (length a) by (unfold zlen; lia).
  replace (Z.to_nat (zlen a + 1)) with (length a + 1)%nat by (unfold zlen; lia).
  rewrite take_app_length, <- drop_drop, drop_app_length. cbn [app drop]. rewrite drop_0.
  rewrite IH by lia. rewrite !unescaped_app, Ha. unfold unescaped at 2. rewrite filter_cons_False by tauto.
  done.
Qed.

(** [CharacterDeescape] with a text gives it without the escape character. *)
Lemma CharacterDeescape_spec h p F s0 c s e :
  string_of h p F s0 -> reads h c s -> elsewhere F c -> zlen s < 2 ^ 30 -> 0 < e < 256 ->
  becomes h F (unescaped e s) (CharacterDeescape_of h p c e) \/ exhausted.
Proof.
  intros Hst Hc Hce Hm He. unfold CharacterDeescape_of, __DoCharacterDeescape, string_length.
  rewrite (reads_not_null h c s Hc), (strlen_reads h c s Hc). cbn [obind]. rewrite i32_len by (unfold INT_MAX; lia).
  destruct (copy_argument_spec h p F s0 c s Hst Hc Hce) as [(h1 & h2 & q & rest & -> & El & Em & Hown & Hk)|[_ Hex]];
    [unfold INT_MAX; lia| |by right].
  cbn [obind]. change (negb (B_OK =? B_OK)) with false. cbn [obind]. rewrite El. cbn [obind]. rewrite Em. cbn [obind].
  pose proof (proj1 Hc) as Hs. destruct (owned_string _ _ _ _ _ Hown Hs) as (Hh & _).
  assert (Het : reads h2 (lit [e]) [e]) by (apply reads_lit; constructor; [done|constructor]).
  change (Ext [e; 0] 0) with (lit [e]). change (zlen [e]) with 1 in *.
  destruct (DoReplace_spec h2 q F s rest (lit [e]) [e] (lit []) [] REPLACE_ALL 0 false (fun s => strstr s [e]) Hown Hs Het)
    as [(h3 & r & -> & Hs3 & Hk3)|Hex];
    [apply reads_lit; constructor|done|split; [done|split; [change (zlen (@nil Z)) with 0; unfold INT_MAX; lia|done]]
    |done|by apply strstr_finds|by apply strstr_method|done|done| |by right].
  left. exists h3, r. split; [done|]. split; [|by eapply keeps_trans]. cbn [Z.to_nat] in Hs3.
  change (zlen [e]) with 1 in Hs3. rewrite take_0, drop_0 in Hs3. cbn [app] in Hs3. unfold replace_n in Hs3.
  rewrite replaced_unescaped in Hs3 by (lia || unfold REPLACE_ALL; lia). done.
Qed.

(** *** The round trip *)

Lemma escaped_bound set e s : zlen (escaped set e s) <= 2 * zlen s.
Proof. rewrite (escaped_len set e s 0). pose proof (set_at_len set s 0). lia. Qed.

(** C20: Escaping a text and taking the escape characters out again gives the
    text back. A first string is set to [s], of fewer than 2^29 bytes, with
    [e] before each byte of [set]; a second string, which may share its block
    with the first one at the start, is set from the first one's buffer
    without [e]: it holds [s] where [e] is not in [s], the first string and
    all other strings are unchanged. Where the memory gives out, nothing is
    promised. *)
Theorem escape_roundtrip h p r F sp sr c s c' set e :
  owners_ok h (p :: r :: F) -> holds h p sp -> holds h r sr ->
  reads h c s -> elsewhere F c -> reads h c' set -> elsewhere F c' ->
  zlen s < 2 ^ 29 -> 0 < e < 256 -> ~ e ∈ s ->
  (exists h1 q h2 r', CharacterEscape_of h p c c' e = Ok (h1, q) /\ holds h1 q (escaped set e s)
     /\ CharacterDeescape_of h1 r (In q 0) e = Ok (h2, r')
     /\ string_of h2 r' (q :: F) s /\ holds h2 q (escaped set e s) /\ keeps h h2 F) \/ exhausted.
Proof.
  intros Ho Hp Hr Hc Hce Hc' Hce' Hm He Hn.
  assert (Hw : forall c, elsewhere F c -> elsewhere (r :: F) c) by (intros []; [done..|by right]).
  destruct (CharacterEscape_spec h p (r :: F) sp c s c' set e) as [(h1 & q & E1 & [Ho1 Hq1] & Hk1)|Hex];
    [done|done|by apply Hw|done|by apply Hw|lia|done| |by right].
  assert (Hr1 : holds h1 r sr) by (eapply keeps_holds; [done|by left|done]).
  pose proof (escaped_bound set e s) as Hb.
  destruct (CharacterDeescape_spec h1 r (q :: F) sr (In q 0) (escaped set e s) e) as [(h2 & r' & E2 & Hs2 & Hk2)|Hex];
    [split; [by rewrite perm_swap|done]|by apply holds_reads|by left|lia|done| |by right].
  rewrite unescaped_escaped in Hs2 by done. left. exists h1, q, h2, r'. repeat (split; [done|]).
  split; [eapply keeps_holds; [done|by left|done]|]. eapply keeps_trans; eauto using keeps_tail.
Qed.

End Escape.

(** Two strings with one block; then a text with a quote in it is escaped in
    the second and unescaped in the first. *)
Lemma escape_roundtrip_witness :
  exists h p h' r h1 q h2 p', BString_cstr ∅ (lit [111; 108; 100]) = Ok (h, p) /\ BString_copy h p = Ok (h', r)
    /\ CharacterEscape_of h' r (lit [97; 34; 98]) (lit [34; 39]) 92 = Ok (h1, q) /\ holds h1 q [97; 92; 34; 98]
    /\ CharacterDeescape_of h1 p (In q 0) 92 = Ok (h2, p') /\ string_of h2 p' [q] [97; 34; 98].
Proof.
  destruct (string_alone [111; 108; 100]) as (h & p & E & Ho & Hp); [split; [repeat constructor|done]|].
  destruct (BString_copy_spec h [p] p _ Ho ltac:(by left) Hp) as [(h' & r & Ec & [Ho' Hr] & Hk)|Hex]; [done| |by apply moving_endless in Hex].
  destruct (escape_roundtrip h' r p [] [111; 108; 100] [111; 108; 100] (lit [97; 34; 98]) [97; 34; 98] (lit [34; 39]) [34; 39] 92)
    as [(h1 & q & h2 & p' & E1 & Hq & E2 & Hs & _)|Hex];
    [done|done|by eapply keeps_holds; [|left|]|apply reads_lit; repeat constructor|done|apply reads_lit; repeat constructor
    |done|done|done| | |by apply moving_endless in Hex].
  - by rewrite !elem_of_cons, elem_of_nil; intros [?|[?|[?|?]]].
  - exists h, p, h', r, h1, q, h2, p'. done.
Defined.
