(* ===== verification/BStringWorld.v ===== *)
(** Strings that share memory behave like values (kits/support/String.cpp).

    A program has string objects and calls their members; objects that were
    assigned from each other share a block until one of them is changed.  In
    the specification each object simply has its own contents.
    [strings_are_values] says that nobody can tell the difference, as long as
    memory does not run out. *)

From Stdlib Require Import ZArith Lia List Bool.
From stdpp Require Import base tactics list numbers gmap fin_maps.
From S2P Require Import Prelude CText Utf8 BString BStringShare BStringEdit BStringOps BStringFind BStringReplace.
Local Open Scope Z_scope.
Local Open Scope c_scope.

(** ** Calls *)

Inductive call : Type :=
| New (x : Z) (s : list Z)
| NewMax (x : Z) (s : list Z) (n : Z)
| Copy (x y : Z)
| Delete (x : Z)
| Assign (x y : Z)
| SetText (x : Z) (s : list Z) (n : Z)
| SetChar (x c n : Z)
| AppendText (x : Z) (s : list Z)
| AppendString (x y : Z)
| AppendChar (x c n : Z)
| PrependText (x : Z) (s : list Z)
| PrependString (x y : Z)
| InsertText (x : Z) (s : list Z) (pos : Z)
| TruncateTo (x n : Z)
| RemoveBytes (x from n : Z)
| RemoveEvery (x : Z) (t : list Z)
| ReplaceText (x : Z) (t w : list Z) (max from : Z)
| Lower (x : Z)
| Upper (x : Z)
| AskLength (x : Z)
| AskCompare (x y : Z)
| AskFind (x : Z) (t : list Z) (from : Z).

(** ** The specification: each object has its contents *)

Notation values := (gmap Z (list Z)).

Definition contents (V : values) (x : Z) : list Z := match V !! x with Some s => s | None => [] end.

(** The new contents and what a query answers. *)
Definition value_step (V : values) (c : call) : values * Z :=
  let set x s := (<[x := s]> V, 0) in
  match c with
  | New x s => set x s
  | NewMax x s n => set x (take (Z.to_nat n) s)
  | Copy x y | Assign x y => set x (contents V y)
  | Delete x => (delete x V, 0)
  | SetText x s n => set x (take (Z.to_nat (if n <? 0 then zlen s else n)) s)
  | SetChar x c n => set x (replicate (Z.to_nat n) c)
  | AppendText x s => set x (contents V x ++ s)
  | AppendString x y => set x (contents V x ++ contents V y)
  | AppendChar x c n => set x (contents V x ++ replicate (Z.to_nat n) c)
  | PrependText x s => set x (s ++ contents V x)
  | PrependString x y => set x (contents V y ++ contents V x)
  | InsertText x s pos =>
      set x (take (Z.to_nat pos) (contents V x) ++ drop (Z.to_nat (- pos)) s ++ drop (Z.to_nat pos) (contents V x))
  | TruncateTo x n => set x (take (Z.to_nat n) (contents V x))
  | RemoveBytes x from n =>
      set x (take (Z.to_nat from) (contents V x) ++ drop (Z.to_nat (from + Z.max 0 n)) (contents V x))
  | RemoveEvery x t => set x (replace_n (fun s => strstr s t) (zlen t) [] REPLACE_ALL (contents V x))
  | ReplaceText x t w max from =>
      set x (take (Z.to_nat (Z.max 0 from)) (contents V x)
             ++ replace_n (fun s => strstr s t) (zlen t) w max (drop (Z.to_nat (Z.max 0 from)) (contents V x)))
  | Lower x => set x (map tolower (contents V x))
  | Upper x => set x (map toupper (contents V x))
  | AskLength x => (V, zlen (contents V x))
  | AskCompare x y => (V, strcmp (contents V x) (contents V y))
  | AskFind x t from =>
      (V, if from <? 0 then B_ERROR
          else let i := Z.min from (zlen (contents V x)) in
               match strstr (drop (Z.to_nat i) (contents V x)) t with Some k => i + k | None => B_ERROR end)
  end.

(** What a call may be given: texts of nonzero bytes, objects that exist, and
    lengths that fit an [int32_t]. *)
Definition text_ok (s : list Z) : Prop := cstr_ok s /\ zlen s <= INT_MAX.
Definition is_object (V : values) (x : Z) : Prop := is_Some (V !! x).
Definition room (V : values) : Prop := Z.of_nat (size V) < INT_MAX.

Definition call_ok (V : values) (c : call) : Prop :=
  match c with
  | New x s | NewMax x s _ => ~ is_object V x /\ text_ok s
  | Copy x y => ~ is_object V x /\ is_object V y /\ room V
  | Delete x => is_object V x
  | Assign x y => is_object V x /\ is_object V y /\ room V
  | SetText x s n => is_object V x /\ text_ok s
  | SetChar x c n => is_object V x /\ 0 < c < 256 /\ n <= INT_MAX
  | AppendText x s | PrependText x s => is_object V x /\ text_ok s /\ zlen (contents V x) + zlen s <= INT_MAX
  | AppendString x y | PrependString x y =>
      is_object V x /\ is_object V y /\ x <> y /\ zlen (contents V x) + zlen (contents V y) <= INT_MAX
  | AppendChar x c n => is_object V x /\ 0 < c < 256 /\ zlen (contents V x) + Z.max 0 n <= INT_MAX
  | InsertText x s pos =>
      is_object V x /\ text_ok s /\ zlen (contents V x) + zlen s <= INT_MAX /\ INT_MIN < pos <= zlen (contents V x)
  | TruncateTo x n => is_object V x
  | RemoveBytes x from n => is_object V x /\ 0 <= from
  | RemoveEvery x t => is_object V x /\ text_ok t /\ fits (contents V x) t []
  | ReplaceText x t w max from => is_object V x /\ text_ok t /\ text_ok w /\ fits (contents V x) t w
  | Lower x | Upper x => is_object V x /\ plain (contents V x)
  | AskLength x => is_object V x
  | AskCompare x y => is_object V x /\ is_object V y
  | AskFind x t from => is_object V x /\ text_ok t
  end.

Fixpoint calls_ok (V : values) (cs : list call) : Prop :=
  match cs with
  | [] => True
  | c :: cs => call_ok V c /\ calls_ok (value_step V c).1 cs
  end.

Fixpoint value_run (V : values) (cs : list call) : values * list Z :=
  match cs with
  | [] => (V, [])
  | c :: cs =>
    let '(V, r) := value_step V c in
    let '(V, rs) := value_run V cs in (V, r :: rs)
  end.

(** ** The program: objects with their data pointers *)

Record world : Type := World { mem : sheap; objs : gmap Z Z }.

Definition object (w : world) (x : Z) : outcome Z :=
  match objs w !! x with Some p => Ok p | None => Fault end.

Section World.
Context `{Memory} `{Members}.

Definition construct (w : world) (x : Z) (m : outcome (sheap * Z)) : outcome (world * Z) :=
  let! (h, p) := m in Ok (World h (<[x := p]> (objs w)), 0).

Definition member (w : world) (x : Z) (f : sheap -> Z -> outcome (sheap * Z)) : outcome (world * Z) :=
  p <- object w x;; construct w x (f (mem w) p).

Definition query (w : world) (x : Z) (f : sheap -> Z -> outcome Z) : outcome (world * Z) :=
  p <- object w x;; r <- f (mem w) p;; Ok (w, r).

Definition step (w : world) (c : call) : outcome (world * Z) :=
  match c with
  | New x s => construct w x (BString_cstr (mem w) (lit s))
  | NewMax x s n => construct w x (BString_max (mem w) (lit s) n)
  | Copy x y => q <- object w y;; construct w x (BString_copy (mem w) q)
  | Delete x => p <- object w x;; h <- BString_delete (mem w) p;; Ok (World h (delete x (objs w)), 0)
  | Assign x y => q <- object w y;; member w x (fun h p => assign_string h p q)
  | SetText x s n => member w x (fun h p => SetTo h p (lit s) n)
  | SetChar x c n => member w x (fun h p => SetTo_char h p c n)
  | AppendText x s => member w x (fun h p => Append_cstr h p (lit s))
  | AppendString x y => q <- object w y;; member w x (fun h p => Append_string h p (Other q))
  | AppendChar x c n => member w x (fun h p => Append_char h p c n)
  | PrependText x s => member w x (fun h p => Prepend_cstr h p (lit s))
  | PrependString x y => q <- object w y;; member w x (fun h p => Prepend_string h p (Other q))
  | InsertText x s pos => member w x (fun h p => Insert h p (lit s) pos)
  | TruncateTo x n => member w x (fun h p => Truncate h p n true)
  | RemoveBytes x from n => member w x (fun h p => Remove h p from n)
  | RemoveEvery x t => member w x (fun h p => RemoveAll h p (lit t))
  | ReplaceText x t v max from => member w x (fun h p => Replace h p (lit t) (lit v) max from)
  | Lower x => member w x ToLower
  | Upper x => member w x ToUpper
  | AskLength x => query w x Length
  | AskCompare x y => q <- object w y;; query w x (fun h p => Compare_string h p q)
  | AskFind x t from => query w x (fun h p => FindFirst_from h p (lit t) from)
  end.

Fixpoint run (w : world) (cs : list call) : outcome (world * list Z) :=
  match cs with
  | [] => Ok (w, [])
  | c :: cs => let! (w, r) := step w c in let! (w, rs) := run w cs in Ok (w, r :: rs)
  end.

End World.

(** ** Refinement *)

(** The data pointers of all objects. *)
Definition owners (O : gmap Z Z) : list Z := (map_to_list O).*2.

(** The memory holds the contents of every object, and no block without an
    owner. *)
Definition represents (w : world) (V : values) : Prop :=
  owners_ok (mem w) (owners (objs w)) /\
  forall x, match objs w !! x, V !! x with
            | Some p, Some s => holds (mem w) p s
            | None, None => True
            | _, _ => False
            end.

Lemma owners_insert O x p : O !! x = None -> owners (<[x := p]> O) ≡ₚ p :: owners O.
Proof. intros E. unfold owners. by rewrite map_to_list_insert. Qed.

Lemma owners_delete O x p : O !! x = Some p -> owners O ≡ₚ p :: owners (delete x O).
Proof. intros E. unfold owners. by rewrite <- (map_to_list_delete O x p E). Qed.

Lemma owners_elem O x p : O !! x = Some p -> p ∈ owners O.
Proof. intros E. rewrite (owners_delete O x p E). by left. Qed.

Lemma owners_change O x p q : O !! x = Some p -> owners (<[x := q]> O) ≡ₚ q :: owners (delete x O).
Proof.
  intros E. rewrite <- insert_delete_eq. apply owners_insert, lookup_delete_eq.
Qed.

Lemma owners_size w V : represents w V -> zlen (owners (objs w)) = Z.of_nat (size V).
Proof.
  intros [_ Hx]. unfold zlen, owners. rewrite length_fmap, length_map_to_list. f_equal.
  rewrite <- !size_dom. f_equal. apply set_eq. intros x. rewrite !elem_of_dom. specialize (Hx x).
  destruct (objs w !! x), (V !! x); try done; split; eauto; by intros [? ?].
Qed.

Section Refinement.
Context `{MemoryOk} `{MembersOk}.

Lemma object_of w V x : represents w V -> is_object V x ->
  exists p, object w x = Ok p /\ objs w !! x = Some p /\ V !! x = Some (contents V x) /\ holds (mem w) p (contents V x)
    /\ string_of (mem w) p (owners (delete x (objs w))) (contents V x).
Proof.
  intros [Ho Hx] [s E]. unfold object, contents. specialize (Hx x). rewrite E in Hx |- *.
  destruct (objs w !! x) as [p|] eqn:Ep; [|done]. exists p. do 4 (split; [done|]). split; [|done].
  by rewrite <- (owners_delete (objs w) x p).
Qed.

(** A call that changes one object. *)
Lemma represents_set w V x p h q s :
  represents w V -> objs w !! x = Some p ->
  string_of h q (owners (delete x (objs w))) s -> keeps (mem w) h (owners (delete x (objs w))) ->
  represents (World h (<[x := q]> (objs w))) (<[x := s]> V).
Proof.
  intros [Ho Hx] Ep [Ho' Hh] Hk. split; [cbn; by rewrite (owners_change _ x p)|].
  intros y. cbn. destruct (decide (y = x)) as [->|Hne]; [by rewrite !lookup_insert_eq|].
  rewrite !lookup_insert_ne by done. specialize (Hx y). destruct (objs w !! y) as [r|] eqn:Ey, (V !! y) as [t|]; try done.
  eapply keeps_holds; [done| |done]. apply (owners_elem _ y). by rewrite lookup_delete_ne.
Qed.

Lemma represents_new w V x h q s :
  represents w V -> ~ is_object V x -> string_of h q (owners (objs w)) s -> keeps (mem w) h (owners (objs w)) ->
  represents (World h (<[x := q]> (objs w))) (<[x := s]> V).
Proof.
  intros [Ho Hx] Hn [Ho' Hh] Hk. assert (Ex : objs w !! x = None).
  { specialize (Hx x). destruct (objs w !! x), (V !! x) eqn:E; try done. by destruct Hn; exists l. }
  split; [cbn; by rewrite owners_insert|].
  intros y. cbn. destruct (decide (y = x)) as [->|Hne]; [by rewrite !lookup_insert_eq|].
  rewrite !lookup_insert_ne by done. specialize (Hx y). destruct (objs w !! y) as [r|] eqn:Ey, (V !! y) as [t|]; try done.
  eapply keeps_holds; [done|by eapply owners_elem|done].
Qed.

Lemma member_spec w V x s f :
  represents w V -> is_object V x ->
  (forall p, objs w !! x = Some p -> string_of (mem w) p (owners (delete x (objs w))) (contents V x) ->
     becomes (mem w) (owners (delete x (objs w))) s (f (mem w) p) \/ exhausted) ->
  (exists w', member w x f = Ok (w', 0) /\ represents w' (<[x := s]> V)) \/ exhausted.
Proof.
  intros Hw Hx Hf. destruct (object_of w V x Hw Hx) as (p & Ep & Eo & _ & _ & Hst).
  unfold member, construct. rewrite Ep. cbn [obind].
  destruct (Hf p Eo Hst) as [(h & q & -> & Hs & Hk)|Hex]; [|by right]. left. cbn [obind].
  eexists. split; [done|]. by eapply represents_set.
Qed.

Lemma construct_spec w V x s m :
  represents w V -> ~ is_object V x -> becomes (mem w) (owners (objs w)) s m \/ exhausted ->
  (exists w', construct w x m = Ok (w', 0) /\ represents w' (<[x := s]> V)) \/ exhausted.
Proof.
  intros Hw Hx [(h & q & -> & Hs & Hk)|Hex]; [|by right]. left. unfold construct. cbn [obind].
  eexists. split; [done|]. by apply represents_new.
Qed.

Lemma sets_becomes h p F s r : sets h p F s r -> becomes h F s r \/ exhausted.
Proof. intros [Hb|[_ Hex]]; auto. Qed.

(** Another object than the one that is changed. *)
Lemma other_object w V x y q : represents w V -> x <> y -> objs w !! y = Some q -> q ∈ owners (delete x (objs w)).
Proof. intros _ Hne E. apply (owners_elem _ y). by rewrite lookup_delete_ne. Qed.

Lemma lit_reads h s : text_ok s -> reads h (lit s) s.
Proof. intros [Hs _]. by apply reads_lit. Qed.

Lemma Prepend_spec h p F s c t :
  string_of h p F s -> reads h c t -> elsewhere F c -> zlen s + zlen t <= INT_MAX ->
  sets h p F (t ++ s) (Prepend_cstr h p c).
Proof.
  intros Hst Hc He Hm. unfold Prepend_cstr. pose proof (zlen_nonneg s). pose proof (zlen_nonneg t).
  rewrite (reads_not_null h c t Hc), (strlen_reads h c t Hc). cbn [negb obind]. rewrite i32_len, DoPrepend_eq by lia.
  apply (sets_insert h p F [] s); [done|by eapply reads_not_null|by apply gives_all|done|lia|cbn; lia|apply Hc].
Qed.

Lemma Prepend_string_other h p F s q t :
  string_of h p F s -> q ∈ F -> holds h q t -> zlen s + zlen t <= INT_MAX ->
  sets h p F (t ++ s) (Prepend_string h p (Other q)).
Proof.
  intros Hst Hq Ht Hm. pose proof (zlen_nonneg s). pose proof (zlen_nonneg t).
  unfold Prepend_string. rewrite (Length_holds h q t Ht), String_data. cbn [obind]. rewrite DoPrepend_eq.
  apply (sets_insert h p F [] s); [done|done|by apply gives_all, holds_reads|done|lia|cbn; lia|apply Ht].
Qed.

Lemma set_text_len (s : list Z) n : take (Z.to_nat (if n <? 0 then zlen s else Z.min n (zlen s))) s = take (Z.to_nat (if n <? 0 then zlen s else n)) s.
Proof.
  destruct (n <? 0); [done|]. destruct (Z.le_ge_cases n (zlen s)); [by rewrite Z.min_l|].
  by rewrite Z.min_r, !take_all.
Qed.

(** *** One call *)

Lemma step_mutator w V c :
  represents w V -> call_ok V c -> ~ exhausted ->
  match c with
  | New _ _ | NewMax _ _ _ | Copy _ _ | Delete _ | Assign _ _ | AskLength _ | AskCompare _ _ | AskFind _ _ _ => True
  | _ => exists w', step w c = Ok (w', 0) /\ represents w' (value_step V c).1
  end.
Proof.
  intros Hw Hc Hex.
  assert (Hm : forall x s f, is_object V x ->
     (forall p, string_of (mem w) p (owners (delete x (objs w))) (contents V x) ->
       becomes (mem w) (owners (delete x (objs w))) s (f (mem w) p) \/ exhausted) ->
     exists w', member w x f = Ok (w', 0) /\ represents w' (<[x := s]> V)).
  { intros x s f Hx Hf. destruct (member_spec w V x s f Hw Hx) as [?|?]; [intros p _; apply Hf|done|done]. }
  destruct c; try done; cbn [step value_step fst call_ok] in *.
  - destruct Hc as [Hx Ht]. apply Hm; [done|]. intros p Hst. eapply sets_becomes. rewrite <- set_text_len.
    apply SetTo_spec with (s := contents V x); [done|by apply lit_reads|done|apply Ht].
  - destruct Hc as (Hx & Hb & Hn). apply Hm; [done|]. intros p Hst. by eapply sets_becomes, SetTo_char_spec.
  - destruct Hc as (Hx & Ht & Hl). apply Hm; [done|]. intros p Hst. eapply sets_becomes.
    apply Append_cstr_spec; [done|by apply lit_reads|done|done].
  - destruct Hc as (Hx & Hy & Hne & Hl). destruct (object_of w V y Hw Hy) as (q & -> & Eq & _ & Hh & _). cbn [obind].
    apply Hm; [done|]. intros p Hst. eapply sets_becomes, Append_string_other; [done|by eapply other_object|done|done].
  - destruct Hc as (Hx & Hb & Hn). apply Hm; [done|]. intros p Hst. by eapply sets_becomes, Append_char_spec.
  - destruct Hc as (Hx & Ht & Hl). apply Hm; [done|]. intros p Hst. eapply sets_becomes.
    apply Prepend_spec; [done|by apply lit_reads|done|done].
  - destruct Hc as (Hx & Hy & Hne & Hl). destruct (object_of w V y Hw Hy) as (q & -> & Eq & _ & Hh & _). cbn [obind].
    apply Hm; [done|]. intros p Hst. eapply sets_becomes, Prepend_string_other; [done|by eapply other_object|done|done].
  - destruct Hc as (Hx & Ht & Hl & Hp). apply Hm; [done|]. intros p Hst. eapply sets_becomes.
    apply Insert_spec; [done|by apply lit_reads|done|done|done].
  - apply Hm; [done|]. intros p Hst. by eapply sets_becomes, Truncate_spec.
  - destruct Hc as (Hx & Hf). apply Hm; [done|]. intros p Hst. by apply Remove_spec.
  - destruct Hc as (Hx & Ht & Hf). apply Hm; [done|]. intros p Hst. apply RemoveAll_spec; [done|by apply lit_reads|done|done|apply Ht].
  - destruct Hc as (Hx & Ht & Hw' & Hf). apply Hm; [done|]. intros p Hst.
    apply Replace_spec; [done|by apply lit_reads|done|by apply lit_reads|done|done|apply Ht|apply Hw'].
  - destruct Hc as (Hx & Hp). apply Hm; [done|]. intros p Hst. by apply ToLower_spec.
  - destruct Hc as (Hx & Hp). apply Hm; [done|]. intros p Hst. by apply ToUpper_spec.
Qed.

Lemma step_lifetime w V c :
  represents w V -> call_ok V c -> ~ exhausted ->
  match c with
  | New _ _ | NewMax _ _ _ | Copy _ _ | Delete _ | Assign _ _ =>
      exists w', step w c = Ok (w', 0) /\ represents w' (value_step V c).1
  | _ => True
  end.
Proof.
  intros Hw Hc Hex. pose proof Hw as [Ho Hall].
  assert (Hm : forall x s m, ~ is_object V x -> becomes (mem w) (owners (objs w)) s m \/ exhausted ->
     exists w', construct w x m = Ok (w', 0) /\ represents w' (<[x := s]> V)).
  { intros x s m Hx Hb. by destruct (construct_spec w V x s m Hw Hx Hb). }
  destruct c; try done; cbn [step value_step fst call_ok] in *.
  - destruct Hc as [Hx Ht]. apply Hm; [done|]. apply BString_cstr_spec; [done|by apply lit_reads|done|apply Ht].
  - destruct Hc as [Hx Ht]. apply Hm; [done|]. apply BString_max_spec; [done|by apply lit_reads|done|apply Ht].
  - destruct Hc as (Hx & Hy & Hr). destruct (object_of w V y Hw Hy) as (q & -> & Eq & _ & Hh & _). cbn [obind].
    apply Hm; [done|]. apply BString_copy_spec; [done|by eapply owners_elem|done|]. by rewrite (owners_size w V).
  - destruct (object_of w V x Hw Hc) as (p & -> & Ep & _ & _ & [Ho' _]). cbn [obind].
    destruct (release_spec (mem w) p _ Ho') as (h' & -> & Hoh & Hk). cbn [obind].
    eexists. split; [done|]. split; [done|]. intros y. cbn. destruct (decide (y = x)) as [->|Hne]; [by rewrite !lookup_delete_eq|].
    rewrite !lookup_delete_ne by done. specialize (Hall y). destruct (objs w !! y) as [r|] eqn:Ey, (V !! y); try done.
    eapply keeps_holds; [done| |done]. apply (owners_elem _ y). by rewrite lookup_delete_ne.
  - destruct Hc as (Hx & Hy & Hr). destruct (object_of w V y Hw Hy) as (q & -> & Eq & Vy & Hh & _). cbn [obind].
    destruct (decide (x = y)) as [->|Hne].
    + destruct (member_spec w V y (contents V y) (fun h p => assign_string h p q) Hw Hy) as [?|?]; [|done|done].
      intros p Ep Hst. left. unfold assign_string, SetTo_string. rewrite Eq in Ep. injection Ep as ->.
      rewrite Z.eqb_refl. by apply becomes_same.
    + destruct (member_spec w V x (contents V y) (fun h p => assign_string h p q) Hw Hx) as [?|?]; [|done|done].
      intros p _ Hst. apply SetTo_string_spec with (s := contents V x); [done|by eapply other_object|done|].
      pose proof (owners_size w V Hw) as Hsz. destruct (object_of w V x Hw Hx) as (p' & _ & Ep & _).
      rewrite (owners_delete _ x p' Ep) in Hsz. rewrite zlen_cons in Hsz. unfold room in Hr. lia.
Qed.

Lemma step_asks w V c :
  represents w V -> call_ok V c ->
  match c with
  | AskLength _ | AskCompare _ _ | AskFind _ _ _ => step w c = Ok (w, (value_step V c).2) /\ (value_step V c).1 = V
  | _ => True
  end.
Proof.
  intros Hw Hc. destruct c; try done; cbn [step value_step fst snd call_ok] in *; (split; [|done]); unfold query.
  - destruct (object_of w V x Hw Hc) as (p & -> & _ & _ & Hh & _). cbn [obind]. by rewrite (Length_holds _ _ _ Hh).
  - destruct Hc as [Hx Hy]. destruct (object_of w V y Hw Hy) as (q & -> & _ & _ & Hq & _). cbn [obind].
    destruct (object_of w V x Hw Hx) as (p & -> & _ & _ & Hh & _). cbn [obind]. unfold Compare_string.
    rewrite !String_data, (cstr_reads _ _ _ (holds_reads _ _ _ Hh)). cbn [obind].
    by rewrite (cstr_reads _ _ _ (holds_reads _ _ _ Hq)).
  - destruct Hc as [Hx Ht]. destruct (object_of w V x Hw Hx) as (p & -> & _ & _ & Hh & _). cbn [obind].
    unfold FindFirst_from. cbn [is_null lit]. destruct (Z.ltb_spec from 0) as [Hf|Hf]; [done|].
    rewrite (Length_holds _ _ _ Hh). cbn [obind]. pose proof (zlen_nonneg (contents V x)).
    rewrite min_clamp0_eq, Z.max_r by lia.
    by rewrite (FindAfter_eq _ p (contents V x) _ t) by (done || lia || by apply lit_reads).
Qed.

Lemma step_spec w V c :
  represents w V -> call_ok V c -> ~ exhausted ->
  exists w', step w c = Ok (w', (value_step V c).2) /\ represents w' (value_step V c).1.
Proof.
  intros Hw Hc Hex. pose proof (step_mutator w V c Hw Hc Hex) as H1'. pose proof (step_lifetime w V c Hw Hc Hex) as H2'.
  pose proof (step_asks w V c Hw Hc) as H3'.
  destruct c; try exact H1'; try exact H2'; destruct H3' as [-> ->]; eauto.
Qed.

(** C19: Programs cannot tell that strings share memory, for the calls of
    [call]: making a string from a text, from a text and a maximum or from
    another string, deleting, assigning, and setting it, appending,
    prepending, inserting, truncating, removing, replacing, changing the case,
    length, comparing and searching.  For any sequence of such calls in which
    each one meets its conditions ([call_ok]) - it names objects that exist,
    or a new one for a constructor; texts are bytes other than 0 with a
    terminator, in memory of their own; a string is appended or prepended to
    another object than itself; [Insert]'s position is above INT_MIN and not
    behind the end; [Remove] starts from 0 or later; a text to be searched for
    in [RemoveAll] and [Replace] is not empty and the string is shorter than
    2^30; a case is changed in ASCII text only; the lengths of the results,
    and the number of owners of a block, fit an int32 - and while memory is
    not refused, the calls return, every query answers as if each object had
    contents of its own, and afterwards the memory holds exactly the contents
    of the objects that are left, each block with as many owners as it counts:
    no block is lost, freed too early or changed behind another string's
    back.  The members [Length] and [String], which the repository declares
    without a body, return the length in the block's header and the data
    pointer.  What happens to a string that is appended to itself, a negative
    start and other calls outside these conditions is in BStringCases.v. *)
Theorem strings_are_values w V cs :
  represents w V -> calls_ok V cs -> ~ exhausted ->
  exists w', run w cs = Ok (w', (value_run V cs).2) /\ represents w' (value_run V cs).1.
Proof.
  revert w V. induction cs as [|c cs IH]; intros w V Hw Hc Hex; [exists w; split; done|].
  destruct Hc as [Hc Hcs]. destruct (step_spec w V c Hw Hc Hex) as (w1 & E1 & Hw1).
  destruct (IH w1 _ Hw1 Hcs Hex) as (w2 & E2 & Hw2). exists w2. cbn [run value_run]. rewrite E1. cbn [obind].
  rewrite E2. cbn [obind]. destruct (value_step V c) as [V1 r]. cbn [fst snd] in *.
  by destruct (value_run V1 cs).
Qed.

End Refinement.

(** ** A program *)

Import Allocator.

Definition world0 : world := World ∅ ∅.

Lemma world0_represents : represents world0 ∅.
Proof. split; [intros p|intros x]; cbn; [unfold blk|]; by rewrite !lookup_empty. Qed.

(** "one" is shared, changed in one object, replaced in another. *)
Definition calls1 : list call :=
  [New 1 [111; 110; 101]; Copy 2 1; New 3 [120]; Assign 3 1; AppendString 2 1; ReplaceText 3 [110] [45; 45] 5 0;
   AskCompare 1 3; AppendText 1 [33]; SetText 2 [97; 98; 97; 98] (-1); RemoveEvery 2 [97]; AskFind 2 [98] 1;
   Upper 1; InsertText 3 [120; 121; 122] (-1); RemoveBytes 3 1 2; Delete 1; AskLength 3; TruncateTo 3 2; PrependString 2 3].

Ltac calls_ok_tac :=
  cbn [calls_ok]; vm_compute;
  repeat split; try (intros [? [=]]); try (eexists; reflexivity); try discriminate;
  repeat (constructor; try (split; reflexivity)).

Lemma strings_are_values_witness :
  exists w', run world0 calls1 = Ok (w', (value_run ∅ calls1).2) /\ represents w' (value_run ∅ calls1).1.
Proof.
  apply (strings_are_values world0 ∅ calls1).
  - exact world0_represents.
  - calls_ok_tac.
  - exact moving_endless.
Defined.

(** The contents and answers of this run. *)
Example calls1_result :
  (value_run ∅ calls1).2 = [0; 0; 0; 0; 0; 0; 65; 0; 0; 0; 1; 0; 0; 0; 0; 4; 0; 0]
  /\ (value_run ∅ calls1).1 !! 2 = Some [121; 45; 98; 98].
Proof. by vm_compute. Qed.
