(* ===== verification/BStringCases.v ===== *)
(** Inputs on which [BString] (kits/support/String.cpp) goes wrong: what the
    theorems of the other files exclude, each on a small program. *)

From Stdlib Require Import ZArith Lia List Bool.
From stdpp Require Import base tactics list numbers gmap fin_maps.
From S2P Require Import Prelude CText Utf8 BString BStringShare BStringEdit BStringOps BStringFind BStringReplace BStringWorld.
Local Open Scope Z_scope.
Local Open Scope c_scope.
Import Allocator.

(** A string of its own, and the same one shared by a second object. *)
Definition one (s : list Z) : outcome (sheap * Z) := BString_cstr ∅ (lit s).
Definition two (s : list Z) : outcome (sheap * Z) := let! (h, p) := one s in BString_copy h p.

(** ** Memory that runs out

    [__MakeWritable] gives up its reference before it looks at the copy. *)

Definition no_memory : Memory := {|
  malloc_at h n := None;
  realloc_at h a n := None;
  pos_realloc n := false;
|}.

(** The call of [ToLower] fails quietly; when both objects are deleted, the
    block is freed by the first, and the second uses freed memory. *)
Lemma MakeWritable_forgets :
  (let! (h, p) := two [65] in
   let! (h, p) := ToLower (H := no_memory) h p in
   n <- DataRefCount h p;; Ok n) = Ok 1
  /\ (let! (h, p) := two [65] in
      let! (h, q) := ToLower (H := no_memory) h p in
      h <- BString_delete h q;; BString_delete h p) = Fault.
Proof. split; by vm_compute. Qed.

(** The list of positions notes its new size before [realloc] succeeds; the
    next position is stored behind its end. *)
Definition fixed_positions : Memory := {|
  malloc_at h n := Some (top_block h + 1);
  realloc_at h a n := Some (top_block h + 1);
  pos_realloc n := n <=? 20;
|}.

Lemma PosVect_overruns :
  (let! (h, p) := one (replicate 22 97) in ReplaceAll (H := fixed_positions) h p (lit [97]) (lit [98]) 0) = Fault.
Proof. by vm_compute. Qed.

(** ** A string and itself

    [operator<<] takes the pointer before the block moves. *)
Lemma append_itself : (let! (h, p) := one [97] in Append_string h p Self) = Fault.
Proof. by vm_compute. Qed.

(** [SetTo] of the object itself and a length copies a block onto itself; where it was shared, its
    contents are gone. *)
Lemma set_to_prefix_of_itself :
  (let! (h, p) := one [97; 98] in SetTo_string_max h p Self 1) = Fault
  /\ (let! (h, p) := two [97; 98] in
      let! (h, p, _) := __MakeWritable_to h p 1 false in text h (In p 0)) = Ok [].
Proof. split; by vm_compute. Qed.

(** [CharacterEscape(set, c)] and [CharacterDeescape(c)] do the same. *)
Lemma escape_itself :
  (let! (h, p) := one [97] in CharacterEscape h p (lit [97]) 92) = Fault
  /\ (let! (h, p) := one [97] in CharacterDeescape h p 92) = Fault.
Proof. split; by vm_compute. Qed.

(** ** Sizes

    [__OpenAtBy] moves the bytes before there is room for them: replacing the
    last occurrence by something longer writes outside the block. *)
Lemma OpenAtBy_overruns :
  (let! (h, p) := one [97; 98; 99] in ReplaceLast h p (lit [97]) (lit [120; 121; 122])) = Fault
  /\ exists h p, (let! (h, p) := one [97; 98; 99] in ReplaceLast h p (lit [97]) (lit [120; 121])) = Ok (h, p).
Proof. split; [by vm_compute|]. do 2 eexists. by vm_compute. Qed.

(** A negative offset is not refused: the header is moved. *)
Lemma Remove_negative : (let! (h, p) := one [97; 98] in Remove h p (-1) 1) = Fault.
Proof. by vm_compute. Qed.

Lemma FindLast_overflows : (let! (h, p) := one [97] in FindLast_char_before h p 97 INT_MAX) = Fault.
Proof. by vm_compute. Qed.

(** ** Bytes

    <ctype.h> gets a negative [char] for every byte of a character outside
    ASCII: changing the case and trimming are undefined there. *)
Lemma case_of_utf8 :
  (let! (h, p) := one [195; 164] in ToLower h p) = Fault
  /\ (let! (h, p) := one [195; 164] in Trim h p) = Fault.
Proof. split; by vm_compute. Qed.

(** [IReplace] looks for its string with case first, and so misses one that
    only differs in case; [IReplaceAll] finds it. *)
Lemma IReplace_with_case :
  (let! (h, p) := one [65] in let! (h, p) := IReplace h p (lit [97]) (lit [98]) 1 0 in cstr h (In p 0)) = Ok [65]
  /\ (let! (h, p) := one [65] in let! (h, p) := IReplaceAll h p (lit [97]) (lit [98]) 0 in cstr h (In p 0)) = Ok [98].
Proof. split; by vm_compute. Qed.

(** An escaped escape character is lost: a\b is escaped to a\\b and comes
    back as ab. *)
Lemma deescape_loses :
  (let! (h, p) := one [] in
   let! (h, p) := CharacterEscape_of h p (lit [97; 92; 98]) (lit [92]) 92 in
   e <- cstr h (In p 0);;
   let! (h, p) := CharacterDeescape_of h p (lit e) 92 in
   s <- cstr h (In p 0);; Ok (e, s)) = Ok ([97; 92; 92; 98], [97; 98]).
Proof. by vm_compute. Qed.

(** [strrstr] reads the byte before the string when nothing is found. *)
Lemma strrstr_underruns : strrstr [97; 98] [99] = Fault /\ strrstr [97; 98; 97; 98] [97; 98] = Ok (Some 2).
Proof. split; by vm_compute. Qed.
