(* ===== verification/StringRefs.v ===== *)
(** References to blocks of strings: what making, copying and giving up one
    does to the owners, to the contents that others see and to the counts of
    blocks that can be shared. *)

From Stdlib Require Import ZArith Lia List Bool.
From stdpp Require Import base tactics list numbers gmap.
From S2P Require Import Prelude CText BString BStringShare.
Local Open Scope Z_scope.
Local Open Scope c_scope.

(** A block with a count; one that [LockBuffer] has handed out has -1. *)
Definition shareable (h : sheap) (p : Z) : Prop :=
  exists b n, blk h p = Ok b /\ refs b = Some n /\ 0 < n.

(** Others keep their contents and can still share them. *)
Definition stays (h h' : sheap) (F : list Z) : Prop :=
  keeps h h' F /\ forall p, p ∈ F -> shareable h p -> shareable h' p.

Lemma stays_refl h F : stays h h F.
Proof. split; [apply keeps_refl|done]. Qed.

Lemma stays_trans h h' h'' F : stays h h' F -> stays h' h'' F -> stays h h'' F.
Proof. intros [Hk Hs] [Hk' Hs']. split; [by eapply keeps_trans|eauto]. Qed.

Lemma stays_incl h h' F F' : stays h h' F -> (forall q, q ∈ F' -> q ∈ F) -> stays h h' F'.
Proof. intros [Hk Hs] Hi. split; [by eapply keeps_incl|eauto]. Qed.

Lemma stays_tail h h' p F : stays h h' (p :: F) -> stays h h' F.
Proof. intros Hs. eapply stays_incl; [done|]. intros q Hq. by right. Qed.

Lemma stays_perm h h' F F' : F ≡ₚ F' -> stays h h' F -> stays h h' F'.
Proof. intros E Hs. eapply stays_incl; [done|]. intros q. by rewrite E. Qed.

Lemma stays_holds h h' F q s : stays h h' F -> q ∈ F -> holds h q s -> holds h' q s.
Proof. intros [Hk _]. by apply keeps_holds. Qed.

(** *** What a call leaves alone *)

Definition others (h h' : sheap) (p : Z) : Prop := forall r, r <> p -> blk h' r = blk h r.

Lemma others_trans h h' h'' p : others h h' p -> others h' h'' p -> others h h'' p.
Proof. intros E E' r Hr. by rewrite E', E. Qed.

Lemma put_others h p b : others h (put h p b) p.
Proof. intros r Hr. by apply blk_put_ne. Qed.

Lemma store_others h p i bs h' : store h p i bs = Ok h' -> others h h' p /\ DataRefCount h' p = DataRefCount h p.
Proof.
  unfold store. intros E. apply obind_ok in E as (b & Eb & E). apply obind_ok in E as (d & _ & [= <-]).
  split; [apply put_others|]. unfold DataRefCount. by rewrite blk_put, Eb.
Qed.

Lemma set_length_others h p n h' : set_DataLength h p n = Ok h' -> others h h' p /\ DataRefCount h' p = DataRefCount h p.
Proof.
  unfold set_DataLength. intros E. apply obind_ok in E as (b & Eb & [= <-]).
  split; [apply put_others|]. unfold DataRefCount. by rewrite blk_put, Eb.
Qed.

Lemma set_refs_others h p n h' : set_DataRefCount h p n = Ok h' -> others h h' p /\ DataRefCount h' p = Ok n.
Proof.
  unfold set_DataRefCount. intros E. apply obind_ok in E as (b & Eb & [= <-]).
  split; [apply put_others|]. unfold DataRefCount. by rewrite blk_put.
Qed.

Section Refs.
Context `{MemoryOk} `{MembersOk}.

(** A new block, or none. *)
Definition makes (h h' : sheap) (p : Z) : Prop :=
  p <> NULL /\ others h h' p /\ DataRefCount h' p = Ok 1 /\ blk h p = Fault.

Lemma Allocate_makes h len h' p : __Allocate h len = Ok (h', p) -> (p = NULL /\ h' = h) \/ makes h h' p.
Proof.
  unfold __Allocate. destruct (len <? 0); [intros [= <- <-]; by left|].
  destruct (malloc_at h _) as [a|] eqn:Ea; [|intros [= <- <-]; by left]. intros E. right.
  apply obind_ok in E as (h1 & E1 & E). apply obind_ok in E as (h2 & E2 & E). apply obind_ok in E as (h3 & E3 & [= <- <-]).
  apply store_others in E1 as [O1 _]. apply set_refs_others in E2 as [O2 R2]. apply set_length_others in E3 as [O3 R3].
  destruct (malloc_fresh _ _ _ Ea) as [Ha Hn].
  split; [unfold NULL, kPrivateDataOffset; lia|]. split; [|split; [by rewrite R3|]].
  - eapply others_trans; [apply put_others|]. eauto using others_trans.
  - unfold blk. replace (a + kPrivateDataOffset - kPrivateDataOffset) with a by lia.
    by rewrite Hn.
Qed.

Lemma Clone_makes h c len h' p : __Clone h c len = Ok (h', p) -> (p = NULL /\ h' = h) \/ makes h h' p.
Proof.
  unfold __Clone. intros E. apply obind_ok in E as ([h1 a] & Ea & E).
  destruct (Allocate_makes _ _ _ _ Ea) as [[-> ->]|(Hn & O1 & R1 & Hf)].
  - change (NULL =? NULL) with true in E. injection E as <- <-. by left.
  - rewrite (proj2 (Z.eqb_neq a NULL)) in E by done. right. destruct (negb (is_null c) && (0 <? len)).
    + apply obind_ok in E as (h2 & E2 & [= <- <-]). unfold strncpy in E2.
      destruct (_ || _); [done|]. apply obind_ok in E2 as (src & _ & E2). apply obind_ok in E2 as (x & _ & E2).
      apply store_others in E2 as [O2 R2]. split; [done|]. split; [by eapply others_trans|]. by rewrite R2.
    + injection E as <- <-. done.
Qed.

Lemma Init_makes h c len h' p : __Init h c len = Ok (h', p) -> p <> NULL -> makes h h' p.
Proof.
  unfold __Init. intros E Hp. apply obind_ok in E as ([h1 a] & Ea & E).
  destruct (Clone_makes _ _ _ _ _ Ea) as [[-> ->]|Hm].
  - change (NULL =? NULL) with true in E. by destruct (Clone_makes _ _ _ _ _ E) as [[-> _]|Hm].
  - rewrite (proj2 (Z.eqb_neq a NULL)) in E by apply Hm. by injection E as <- <-.
Qed.

(** A new reference to a string [t], one more than [O]. *)
Definition made (h : sheap) (O : list Z) (t : list Z) (r : outcome (sheap * Z)) : Prop :=
  exists h' p, r = Ok (h', p) /\ owners_ok h' (p :: O) /\ holds h' p t /\ shareable h' p /\ stays h h' O.

Lemma owner_not_null h p O : owners_ok h (p :: O) -> p <> NULL.
Proof.
  intros Ho. destruct (owners_block h (p :: O) p Ho) as (b & _ & Hgt & _); [by left|].
  unfold NULL, kPrivateDataOffset in *. lia.
Qed.

Lemma Init_made h O c len t : becomes h O t (__Init h c len) -> made h O t (__Init h c len).
Proof.
  intros (h' & p & E & [Ho Hh] & Hk). exists h', p. split; [done|]. split; [done|]. split; [done|].
  destruct (Init_makes _ _ _ _ _ E) as (Hn & Oth & R & F); [by eapply owner_not_null|]. split.
  - unfold DataRefCount in R. apply obind_ok in R as (b & Eb & R). unfold cell in R.
    destruct (refs b) eqn:Er; [|done]. injection R as ->. exists b, 1. done.
  - split; [done|]. intros r Hr (b & n & Eb & Hb). exists b, n. rewrite Oth by (intros ->; congruence). done.
Qed.

Lemma new_made h O : owners_ok h O -> made h O [] (BString_new h) \/ exhausted.
Proof. intros Ho. destruct (BString_new_spec h O Ho) as [Hb|Hex]; [left; by apply Init_made|by right]. Qed.

Lemma cstr_made h O c s :
  owners_ok h O -> reads h c s -> elsewhere O c -> zlen s <= INT_MAX -> made h O s (BString_cstr h c) \/ exhausted.
Proof.
  intros Ho Hc He Hm. destruct (BString_cstr_spec h O c s Ho Hc He Hm) as [Hb|Hex]; [left|by right].
  unfold BString_cstr in *. destruct (c_strlen _ _); cbn [obind] in *; [by apply Init_made|..]; by destruct Hb as (? & ? & ? & _).
Qed.

Lemma max_made h O c s n :
  owners_ok h O -> reads h c s -> elsewhere O c -> zlen s <= INT_MAX -> made h O (take (Z.to_nat n) s) (BString_max h c n) \/ exhausted.
Proof.
  intros Ho Hc He Hm. destruct (BString_max_spec h O c s n Ho Hc He Hm) as [Hb|Hex]; [left|by right].
  unfold BString_max in *. destruct (strlen_clamp _ _ _); cbn [obind] in *; [by apply Init_made|..]; by destruct Hb as (? & ? & ? & _).
Qed.

(** *** One reference more, one less *)

Lemma refs_stays h p b n O : blk h p = Ok b -> 0 < n -> stays h (put h p (set_refs b n)) O.
Proof.
  intros E Hn. split; [by apply keeps_refs|]. intros q Hq (b' & m & E' & R' & Hm). destruct (decide (q = p)) as [->|Hne].
  - exists (set_refs b n), n. by rewrite blk_put.
  - exists b', m. by rewrite blk_put_ne.
Qed.

Lemma cnt_le p O : cnt p O <= zlen O.
Proof. unfold cnt, zlen. pose proof (length_filter (.= p) O). lia. Qed.

Lemma add_ref h O p : owners_ok h O -> p ∈ O -> shareable h p -> zlen O < INT_MAX ->
  exists h' n, atomic_add_refs h p 1 = Ok (h', n) /\ owners_ok h' (p :: O) /\ shareable h' p /\ stays h h' O.
Proof.
  intros Ho Hp (b & n & E & R & Hn) Hm. pose proof (cnt_le p O).
  destruct (owners_share h O p b n Ho Hp E R) as [-> Ho']; [lia|lia|].
  unfold atomic_add_refs, DataRefCount, set_DataRefCount. rewrite E. cbn [obind]. rewrite R. cbn [cell obind].
  rewrite refs_up by lia. eexists _, _. split; [done|]. split; [done|]. split; [|apply refs_stays; [done|lia]].
  exists (set_refs b (cnt p O + 1)), (cnt p O + 1). rewrite blk_put. split; [done|]. split; [done|lia].
Qed.

Lemma Increment_spec h O p : owners_ok h O -> p ∈ O -> shareable h p -> zlen O < INT_MAX ->
  exists h', IncrementDataRefCount h p = Ok h' /\ owners_ok h' (p :: O) /\ shareable h' p /\ stays h h' O.
Proof.
  intros Ho Hp Hs Hm. destruct (add_ref h O p Ho Hp Hs Hm) as (h' & n & E & Ho' & Hr).
  unfold IncrementDataRefCount. rewrite (proj2 (Z.eqb_neq p NULL)) by (by eapply owner_not_null). rewrite E.
  exists h'. done.
Qed.

Lemma StringFromData_made h O p t : owners_ok h O -> p ∈ O -> shareable h p -> holds h p t -> zlen O < INT_MAX ->
  exists h', StringFromData h p = Ok (h', p) /\ owners_ok h' (p :: O) /\ holds h' p t /\ shareable h' p /\ stays h h' O.
Proof.
  intros Ho Hp Hs Ht Hm. destruct (add_ref h O p Ho Hp Hs Hm) as (h' & n & E & Ho' & Hr & Hst).
  unfold StringFromData, BString_private. rewrite (proj2 (Z.eqb_neq p NULL)) by (by eapply owner_not_null). rewrite E.
  exists h'. split; [done|]. split; [done|]. split; [by eapply stays_holds|done].
Qed.

Lemma copy_made h O p t : owners_ok h O -> p ∈ O -> holds h p t -> zlen O < INT_MAX ->
  made h O t (BString_copy h p) \/ exhausted.
Proof.
  intros Ho Hp Ht Hm. destruct (BString_copy_spec h O p t Ho Hp Ht Hm) as [Hb|Hex]; [left|by right].
  destruct (owners_block h O p Ho Hp) as (b & E & Hgt & Hn & R & _).
  unfold BString_copy, __IsShareable, __ReferenceCount, DataRefCount in *.
  rewrite (proj2 (Z.eqb_neq p NULL)) in * by (unfold NULL, kPrivateDataOffset in *; lia).
  rewrite E in *. cbn [obind] in *. destruct R as [R|[R _]]; rewrite R in *; cbn [cell obind] in *.
  - rewrite (proj2 (Z.leb_le 0 _)) in * by lia.
    destruct (add_ref h O p Ho Hp) as (h' & n & E' & Ho' & Hs & Hst); [by exists b, (cnt p O); split; [|split; [|lia]]|done|].
    rewrite E'. exists h', p. split; [done|]. split; [done|]. split; [by eapply stays_holds|done].
  - change (0 <=? -1) with false in *. cbv iota in *. destruct (Length h p); cbn [obind] in *;
      [by apply Init_made|..]; by destruct Hb as (? & ? & ? & _).
Qed.

Lemma Decrement_spec h O p : owners_ok h (p :: O) -> shareable h p ->
  exists h', DecrementDataRefCount h p = Ok h' /\ BString_delete h p = Ok h' /\ owners_ok h' O /\ stays h h' O.
Proof.
  intros Ho (b & n & E & R & Hn). pose proof (owner_not_null _ _ _ Ho) as Hp.
  destruct (release_spec h p O Ho) as (h' & Ed & Ho' & Hk). exists h'. revert Ed.
  unfold DecrementDataRefCount, BString_delete, __IsShareable, __ReferenceCount, DataRefCount, atomic_add_refs,
    set_DataRefCount, DataRefCount, __FreePrivateData.
  rewrite (proj2 (Z.eqb_neq p NULL) Hp), E. cbn [obind]. rewrite R. cbn [cell obind negb].
  rewrite (proj2 (Z.leb_le 0 n)) by lia. cbn [negb]. set (h1 := put h p _).
  destruct (Z.eqb_spec n 1) as [->|Hn1]; cbn [obind].
  - destruct (free h1 p) as [h2| | |] eqn:Ef; cbn [obind]; try done. intros [= ->]. do 3 (split; [done|]).
    split; [done|]. intros q Hq (b' & m & E' & R' & Hm). exists b', m.
    assert (Hqp : q <> p).
    { intros ->. destruct (shared_refs h p O b Ho E Hq) as (R2 & ? & _). rewrite R in R2. injection R2 as R2. lia. }
    unfold free in Ef. apply obind_ok in Ef as (b2 & _ & [= <-]). rewrite blk_delete_ne by done. unfold h1. by rewrite blk_put_ne.
  - intros [= <-]. do 3 (split; [done|]). unfold h1. assert (Hm : n <= INT_MAX).
    { destruct (owners_block h (p :: O) p Ho) as (b2 & E2 & _ & Hg & [R2|[R2 _]] & _); [by left| |];
        rewrite E in E2; injection E2 as <-; rewrite R in R2; injection R2 as R2; lia. }
    rewrite refs_int by lia. apply refs_stays; [done|lia].
Qed.

Lemma BString_delete_spec h O p : owners_ok h (p :: O) -> shareable h p ->
  exists h', BString_delete h p = Ok h' /\ owners_ok h' O /\ stays h h' O.
Proof. intros Ho Hs. destruct (Decrement_spec h O p Ho Hs) as (h' & _ & Hd). eauto. Qed.

End Refs.
