(* ===== verification/StringList.v ===== *)
(** Lists of strings, [BStringList] (kits/support/StringList.cpp), and
    [BString::Split] (kits/support/String.cpp).

    A list is a [BList] (BList.v) of the data pointers of strings (BString.v),
    each of which counts as an owner of its block.  The blocks of pointers and
    those of strings are two heaps.  A [BString] that is returned by value is
    made where the caller wants it, and a temporary is deleted at the end of
    its expression. *)

From Stdlib Require Import ZArith Lia List Bool.
From stdpp Require Import base tactics list numbers gmap.
From S2P Require Import Prelude CText Utf8 BList BListOps BString BStringEdit.
Local Open Scope Z_scope.
Local Open Scope c_scope.

(** [operator==] and [operator!=] of two strings, which the repository declares
    and does not define. *)
Class StringEq := {
  string_eq : sheap -> Z -> Z -> outcome bool;
  string_ne : sheap -> Z -> Z -> outcome bool;
}.

Class StringEqOk `{StringEq} : Prop := {
  string_eq_holds h p q s t : BString.holds h p s -> BString.holds h q t ->
    string_eq h p q = Ok (bool_decide (s = t));
  string_ne_holds h p q s t : BString.holds h p s -> BString.holds h q t ->
    string_ne h p q = Ok (bool_decide (s <> t));
}.

Definition B_STRING_LIST_TYPE : Z := 0x5354524c.

Section StringList.
Context `{Realloc} `{Memory} `{Members} `{StringEq}.

(** A call for the value it leads to; the string is deleted after it. *)
Definition with_string {A} (m : outcome (sheap * Z)) (use : sheap -> Z -> outcome A) : outcome (sheap * A) :=
  let! (h, p) := m in
  a <- use h p;;
  h <- BString_delete h p;;
  Ok (h, a).

(** [f] for the items from [i] to [i + n - 1]. *)
Fixpoint refs_loop (f : sheap -> Z -> outcome sheap) (n : nat) (i : Z) (lh : heap) (l : blist) (h : sheap)
  : outcome sheap :=
  match n with
  | O => Ok h
  | S n => p <- BList.ItemAt lh l i;; h <- f h p;; refs_loop f n (i + 1) lh l h
  end.

Definition __IncrementRefCounts (lh : heap) (l : blist) (h : sheap) : outcome sheap :=
  refs_loop IncrementDataRefCount (Z.to_nat (BList.CountItems l)) 0 lh l h.

Definition __DecrementRefCounts (lh : heap) (l : blist) (h : sheap) : outcome sheap :=
  refs_loop DecrementDataRefCount (Z.to_nat (BList.CountItems l)) 0 lh l h.

(** ** Construction and destruction *)

Definition BStringList_new (lh : heap) (count : Z) : outcome (heap * blist) := BList_new lh count.

(** [BList]'s copy constructor assigns to an empty list. *)
Definition BStringList_copy (lh : heap) (other : blist) (h : sheap) : outcome (heap * blist * sheap) :=
  let! (lh, l) := BList_assign lh blist0 other in
  h <- __IncrementRefCounts lh l h;;
  Ok (lh, l, h).

Definition BStringList_delete (lh : heap) (l : blist) (h : sheap) : outcome (heap * sheap) :=
  h <- __DecrementRefCounts lh l h;;
  lh <- BList_delete lh l;;
  Ok (lh, h).

(** [None]: the list itself. *)
Definition assign (lh : heap) (l : blist) (h : sheap) (other : option blist) : outcome (heap * blist * sheap) :=
  match other with
  | None => Ok (lh, l, h)
  | Some other =>
    h <- __DecrementRefCounts lh l h;;
    let! (lh, l) := BList_assign lh l other in
    h <- __IncrementRefCounts lh l h;;
    Ok (lh, l, h)
  end.

(** ** Elements *)

Definition StringAt (lh : heap) (l : blist) (h : sheap) (index : Z) : outcome (sheap * Z) :=
  p <- BList.ItemAt lh l index;; StringFromData h p.

Definition First (lh : heap) (l : blist) (h : sheap) : outcome (sheap * Z) :=
  p <- BList.FirstItem lh l;; StringFromData h p.

Definition Last (lh : heap) (l : blist) (h : sheap) : outcome (sheap * Z) :=
  p <- BList.LastItem lh l;; StringFromData h p.

Definition CountStrings (l : blist) : Z := BList.CountItems l.

Definition IsEmpty (l : blist) : bool := BList.IsEmpty l.

(** ** Adding *)

(** Both [Add]s of a string; [add] is how its pointer goes into the list.  The
    copy makes sure that it can be shared. *)
Definition add_with (add : heap -> blist -> Z -> outcome (heap * blist * bool))
  (lh : heap) (l : blist) (h : sheap) (_string : Z) : outcome (heap * blist * sheap * bool) :=
  let! (h, string) := BString_copy h _string in
  n <- Length h string;;
  m <- Length h _string;;
  if negb (n =? m) then h <- BString_delete h string;; Ok (lh, l, h, false)
  else
    let! (lh, l, ok) := add lh l string in
    if negb ok then h <- BString_delete h string;; Ok (lh, l, h, false)
    else
      h <- IncrementDataRefCount h string;;
      h <- BString_delete h string;;
      Ok (lh, l, h, true).

Definition Add (lh : heap) (l : blist) (h : sheap) (_string : Z) : outcome (heap * blist * sheap * bool) :=
  add_with BList.AddItem lh l h _string.

Definition Add_at (lh : heap) (l : blist) (h : sheap) (_string index : Z) : outcome (heap * blist * sheap * bool) :=
  add_with (fun lh l p => BList.AddItem_at lh l p index) lh l h _string.

(** [list] is another list, or this one for [None]. *)
Definition Add_list (lh : heap) (l : blist) (h : sheap) (list : option blist) : outcome (heap * blist * sheap * bool) :=
  let! (lh, l, ok) := BList.AddList lh l list in
  if negb ok then Ok (lh, l, h, false)
  else
    h <- __IncrementRefCounts lh (match list with Some o => o | None => l end) h;;
    Ok (lh, l, h, true).

Definition Add_list_at (lh : heap) (l : blist) (h : sheap) (list : blist) (index : Z)
  : outcome (heap * blist * sheap * bool) :=
  let! (lh, l, ok) := BList.AddList_at lh l list index in
  if negb ok then Ok (lh, l, h, false)
  else h <- __IncrementRefCounts lh list h;; Ok (lh, l, h, true).

(** ** Removing *)

(** The index is compared with the count after the removal. *)
Definition Remove_at (lh : heap) (l : blist) (h : sheap) (index : Z) : outcome (heap * blist * sheap * Z) :=
  let! (lh, l, privateData) := BList.RemoveItem_at lh l index in
  let! (h, string) := StringFromData h privateData in
  if (index <? 0) || (BList.CountItems l <=? index) then
    let! (h, empty) := BString_new h in
    h <- BString_delete h string;;
    Ok (lh, l, h, empty)
  else
    h <- DecrementDataRefCount h privateData;;
    Ok (lh, l, h, string).

(** [Remove(i);] *)
Definition remove_one (lh : heap) (l : blist) (h : sheap) (i : Z) : outcome (heap * blist * sheap) :=
  let! (lh, l, h, r) := Remove_at lh l h i in
  h <- BString_delete h r;;
  Ok (lh, l, h).

(** With case the element is gone before it is removed from the list, without
    case after. *)
Fixpoint remove_loop (n : nat) (lh : heap) (l : blist) (h : sheap) (string : Z) (result : bool)
  : outcome (heap * blist * sheap * bool) :=
  match n with
  | O => Ok (lh, l, h, result)
  | S n =>
    let! (h, e) := with_string (StringAt lh l h (Z.of_nat n)) (fun h p => string_eq h string p) in
    if (e : bool) then
      let! (lh, l, h) := remove_one lh l h (Z.of_nat n) in
      remove_loop n lh l h string true
    else remove_loop n lh l h string result
  end.

(** [length == element.Length() && string.ICompare(element) == 0] *)
Definition same_icase (h : sheap) (length string element : Z) : outcome bool :=
  n <- Length h element;;
  if length =? n then c <- ICompare_string h string element;; Ok (c =? 0) else Ok false.

Fixpoint remove_icase_loop (n : nat) (lh : heap) (l : blist) (h : sheap) (string length : Z) (result : bool)
  : outcome (heap * blist * sheap * bool) :=
  match n with
  | O => Ok (lh, l, h, result)
  | S n =>
    let! (h, element) := StringAt lh l h (Z.of_nat n) in
    e <- same_icase h length string element;;
    let! (lh, l, h) := (if (e : bool) then remove_one lh l h (Z.of_nat n) else Ok (lh, l, h)) in
    h <- BString_delete h element;;
    remove_icase_loop n lh l h string length (result || e)
  end.

Definition Remove (lh : heap) (l : blist) (h : sheap) (string : Z) (ignoreCase : bool)
  : outcome (heap * blist * sheap * bool) :=
  let count := Z.to_nat (BList.CountItems l) in
  if ignoreCase then
    length <- Length h string;; remove_icase_loop count lh l h string length false
  else remove_loop count lh l h string false.

Fixpoint remove_list_loop (n : nat) (i : Z) (lh : heap) (l : blist) (h : sheap) (list : option blist)
  (ignoreCase removedAnything : bool) : outcome (heap * blist * sheap * bool) :=
  match n with
  | O => Ok (lh, l, h, removedAnything)
  | S n =>
    let! (h, string) := StringAt lh (match list with Some o => o | None => l end) h i in
    let! (lh, l, h, r) := Remove lh l h string ignoreCase in
    h <- BString_delete h string;;
    remove_list_loop n (i + 1) lh l h list ignoreCase (removedAnything || r)
  end.

Definition Remove_list (lh : heap) (l : blist) (h : sheap) (list : option blist) (ignoreCase : bool)
  : outcome (heap * blist * sheap * bool) :=
  let stringCount := CountStrings (match list with Some o => o | None => l end) in
  remove_list_loop (Z.to_nat stringCount) 0 lh l h list ignoreCase false.

Definition Remove_range (lh : heap) (l : blist) (h : sheap) (index count : Z) : outcome (heap * blist * sheap * bool) :=
  let stringCount := BList.CountItems l in
  assert_int (stringCount - index);;;
  end_ <- add_int index (Z.min (stringCount - index) count);;
  if (index <? 0) || (stringCount <? index) then Ok (lh, l, h, false)
  else
    h <- refs_loop DecrementDataRefCount (Z.to_nat (end_ - index)) index lh l h;;
    let! (lh, l, _) := BList.RemoveItems lh l index (end_ - index) in
    Ok (lh, l, h, true).

Definition Replace (lh : heap) (l : blist) (h : sheap) (index string : Z) : outcome (heap * blist * sheap * bool) :=
  if (index <? 0) || (BList.CountItems l <=? index) then Ok (lh, l, h, false)
  else
    old <- BList.ItemAt lh l index;;
    h <- DecrementDataRefCount h old;;
    h <- IncrementDataRefCount h string;;
    let! (lh, l, _) := BList.ReplaceItem lh l index string false in
    Ok (lh, l, h, true).

Definition MakeEmpty (lh : heap) (l : blist) (h : sheap) : outcome (heap * blist * sheap) :=
  h <- __DecrementRefCounts lh l h;;
  let! (lh, l) := BList.MakeEmpty lh l in
  Ok (lh, l, h).

Definition Swap (lh : heap) (l : blist) (indexA indexB : Z) : outcome (heap * blist * bool) :=
  BList.SwapItems lh l indexA indexB.

Definition Move (lh : heap) (l : blist) (fromIndex toIndex : Z) : outcome (heap * blist * bool) :=
  BList.MoveItem lh l fromIndex toIndex.

(** ** Searching and comparing *)

(** The first of [n] items from [i] on for which [same] holds. *)
Fixpoint find_loop (same : sheap -> Z -> outcome bool) (n : nat) (i : Z) (lh : heap) (l : blist) (h : sheap)
  : outcome (sheap * Z) :=
  match n with
  | O => Ok (h, -1)
  | S n =>
    let! (h, e) := with_string (StringAt lh l h i) same in
    if (e : bool) then Ok (h, i) else find_loop same n (i + 1) lh l h
  end.

Definition IndexOf (lh : heap) (l : blist) (h : sheap) (string : Z) (ignoreCase : bool) : outcome (sheap * Z) :=
  let count := Z.to_nat (BList.CountItems l) in
  if ignoreCase then
    length <- Length h string;; find_loop (fun h e => same_icase h length string e) count 0 lh l h
  else find_loop (fun h e => string_eq h string e) count 0 lh l h.

(** The texts of the strings that [func] is called on, for both forms; what it
    returns is not looked at. *)
Fixpoint foreach_loop (n : nat) (i : Z) (lh : heap) (l : blist) (h : sheap) : outcome (sheap * list (list Z)) :=
  match n with
  | O => Ok (h, [])
  | S n =>
    let! (h, s) := with_string (StringAt lh l h i) (fun h p => cstr h (In (String p) 0)) in
    let! (h, r) := foreach_loop n (i + 1) lh l h in
    Ok (h, s :: r)
  end.

Definition DoForEach (lh : heap) (l : blist) (h : sheap) : outcome (sheap * list (list Z)) :=
  foreach_loop (Z.to_nat (BList.CountItems l)) 0 lh l h.

Fixpoint equal_loop (n : nat) (i : Z) (lh : heap) (l other : blist) (h : sheap) : outcome (sheap * bool) :=
  match n with
  | O => Ok (h, true)
  | S n =>
    let! (h, a) := StringAt lh l h i in
    let! (h, b) := StringAt lh other h i in
    d <- string_ne h a b;;
    h <- BString_delete h b;;
    h <- BString_delete h a;;
    if (d : bool) then Ok (h, false) else equal_loop n (i + 1) lh l other h
  end.

Definition equal (lh : heap) (l : blist) (h : sheap) (other : option blist) : outcome (sheap * bool) :=
  let count := BList.CountItems l in
  match other with
  | None => Ok (h, true)
  | Some other =>
    if negb (count =? BList.CountItems other) then Ok (h, false)
    else equal_loop (Z.to_nat count) 0 lh l other h
  end.

Definition HasString (lh : heap) (l : blist) (h : sheap) (string : Z) (ignoreCase : bool) : outcome (sheap * bool) :=
  let! (h, i) := IndexOf lh l h string ignoreCase in Ok (h, 0 <=? i).

Definition not_equal (lh : heap) (l : blist) (h : sheap) (other : option blist) : outcome (sheap * bool) :=
  let! (h, e) := equal lh l h other in Ok (h, negb e).

(** [strnlen] or [strlen] of the separator, and [__Join]: the room is for the
    separators alone. *)
Fixpoint join_length (n : nat) (i : Z) (lh : heap) (l : blist) (h : sheap) (totalLength : Z) : outcome (sheap * Z) :=
  match n with
  | O => Ok (h, totalLength)
  | S n =>
    let! (h, len) := with_string (StringAt lh l h i) Length in
    totalLength <- add_int totalLength len;;
    join_length n (i + 1) lh l h totalLength
  end.

Fixpoint join_loop (n : nat) (i : Z) (lh : heap) (l : blist) (h : sheap) (separator : cptr) (length buffer off : Z)
  : outcome sheap :=
  match n with
  | O => Ok h
  | S n =>
    let! (h, string) := StringAt lh l h i in
    let! (h, off) := (if (0 <? i) && (0 <? length)
                      then h <- memcpy h buffer off separator length;; Ok (h, off + length)
                      else Ok (h, off)) in
    len <- Length h string;;
    h <- memcpy h buffer off (In (String string) 0) len;;
    h <- BString_delete h string;;
    join_loop n (i + 1) lh l h separator length buffer (off + len)
  end.

Definition __Join (lh : heap) (l : blist) (h : sheap) (separator : cptr) (length : Z) : outcome (sheap * Z) :=
  let count := CountStrings l in
  assert_int (length * (count - 1));;;
  let totalLength := length * (count - 1) in
  let! (h, result) := BString_new h in
  let! (h, result, buffer) := LockBuffer h result totalLength in
  if count =? 0 then
    let! (h, r) := BString_new h in h <- BString_delete h result;; Ok (h, r)
  else if count =? 1 then
    let! (h, r) := StringAt lh l h 0 in h <- BString_delete h result;; Ok (h, r)
  else
    let! (h, totalLength) := join_length (Z.to_nat count) 0 lh l h totalLength in
    if buffer =? NULL then Ok (h, result)
    else
      h <- join_loop (Z.to_nat count) 0 lh l h separator length buffer 0;;
      let! (h, result) := UnlockBuffer h result totalLength in
      let! (h, r) := BString_copy h result in
      h <- BString_delete h result;;
      Ok (h, r).

Definition Join (lh : heap) (l : blist) (h : sheap) (separator : cptr) (length : Z) : outcome (sheap * Z) :=
  n <- (if 0 <=? length then m <- text h separator;; strnlen m (Z.to_nat length) else c_strlen h separator);;
  __Join lh l h separator (i32 n).

(** ** Flattening *)

Fixpoint size_loop (n : nat) (i : Z) (lh : heap) (l : blist) (h : sheap) (size : Z) : outcome (sheap * Z) :=
  match n with
  | O => Ok (h, size)
  | S n =>
    let! (h, len) := with_string (StringAt lh l h i) Length in
    len <- add_int len 1;;
    size_loop n (i + 1) lh l h (size + len)
  end.

Definition FlattenedSize (lh : heap) (l : blist) (h : sheap) : outcome (sheap * Z) :=
  size_loop (Z.to_nat (CountStrings l)) 0 lh l h 0.

(** [buf] is the object that the buffer points to the start of. *)
Fixpoint flatten_loop (n : nat) (i : Z) (lh : heap) (l : blist) (h : sheap) (buf : list (option Z)) (off : Z)
  : outcome (sheap * list (option Z)) :=
  match n with
  | O => Ok (h, buf)
  | S n =>
    let! (h, item) := StringAt lh l h i in
    len <- Length h item;;
    storeSize <- add_int len 1;;
    src <- BString.cells h (In (String item) 0);;
    x <- rdn src 0 storeSize;;
    buf <- wrn buf off x;;
    h <- BString_delete h item;;
    flatten_loop n (i + 1) lh l h buf (off + storeSize)
  end.

Definition Flatten (lh : heap) (l : blist) (h : sheap) (buf : list (option Z)) (size : Z)
  : outcome (sheap * list (option Z) * Z) :=
  let count := CountStrings l in
  let! (h, flat) := FlattenedSize lh l h in
  if size <? flat then Ok (h, buf, B_NO_MEMORY)
  else
    let! (h, buf) := flatten_loop (Z.to_nat count) 0 lh l h buf 0 in
    Ok (h, buf, B_OK).

(** A turn consumes at least a byte. *)
Fixpoint unflatten_loop (fuel : nat) (lh : heap) (l : blist) (h : sheap) (buffer : list Z) (size offset : Z)
  : outcome (heap * blist * sheap * Z) :=
  match fuel with
  | O => NoFuel
  | S fuel =>
    if offset <? size then
      let string := Ext buffer offset in
      let restSize := size - offset in
      m <- text h string;;
      read <- strnlen m (Z.to_nat restSize);;
      if read =? restSize then Ok (lh, l, h, B_BAD_VALUE)
      else
        let! (h, tmp) := BString_cstr h string in
        let! (lh, l, h, ok) := Add lh l h tmp in
        h <- BString_delete h tmp;;
        if negb ok then Ok (lh, l, h, B_NO_MEMORY)
        else unflatten_loop fuel lh l h buffer size (offset + (read + 1))
    else Ok (lh, l, h, B_OK)
  end.

Definition Unflatten (lh : heap) (l : blist) (h : sheap) (code : Z) (buffer : list Z) (size : Z)
  : outcome (heap * blist * sheap * Z) :=
  if negb (code =? B_STRING_LIST_TYPE) then Ok (lh, l, h, B_ERROR)
  else
    let! (lh, l, h) := MakeEmpty lh l h in
    unflatten_loop (S (Z.to_nat size)) lh l h buffer size 0.

(** ** Splitting

    The next piece starts one byte behind the start of the separator. *)

Fixpoint split_loop (fuel : nat) (lh : heap) (l : blist) (h : sheap) (p : Z) (separator : cptr)
  (noEmptyStrings : bool) (length index : Z) : outcome (heap * blist * sheap * bool) :=
  match fuel with
  | O => NoFuel
  | S fuel =>
    e <- (if index <? length then FindFirst_from h p separator index else Ok length);;
    let endIndex := if e <? 0 then length else e in
    let! (lh, l, h, ok) :=
      (if (index <? endIndex) || negb noEmptyStrings then
         let! (h, toAppend) := BString_max h (In (String p) index) (endIndex - index) in
         n <- Length h toAppend;;
         let! (lh, l, h, ok) := (if negb (n =? endIndex - index) then Ok (lh, l, h, false) else Add lh l h toAppend) in
         h <- BString_delete h toAppend;;
         Ok (lh, l, h, ok)
       else Ok (lh, l, h, true)) in
    if negb ok then Ok (lh, l, h, false)
    else if endIndex =? length then Ok (lh, l, h, true)
    else split_loop fuel lh l h p separator noEmptyStrings length (endIndex + 1)
  end.

Definition Split (lh : heap) (l : blist) (h : sheap) (p : Z) (separator : cptr) (noEmptyStrings : bool)
  : outcome (heap * blist * sheap * bool) :=
  n <- c_strlen h separator;;
  let separatorLength := i32 n in
  length <- Length h p;;
  if (separatorLength =? 0) || (length =? 0) || (length <? separatorLength) then
    if (length =? 0) && noEmptyStrings then Ok (lh, l, h, true) else Add lh l h p
  else split_loop (S (Z.to_nat length)) lh l h p separator noEmptyStrings length 0.

(** ** Comparing for [Sort] *)

Definition compare_with (compare : sheap -> Z -> Z -> outcome Z) (h : sheap) (a b : Z) : outcome (sheap * Z) :=
  let! (h, x) := StringFromData h a in
  let! (h, y) := StringFromData h b in
  c <- compare h x y;;
  h <- BString_delete h y;;
  h <- BString_delete h x;;
  Ok (h, c).

Definition compare_private_data := compare_with Compare_string.
Definition compare_private_data_ignore_case := compare_with ICompare_string.

End StringList.
