(* ===== verification/StringListOps.v ===== *)
(** What the operations of [BStringList] (StringList.v) do: lists without a
    minimum count refine lists of texts, and each item counts as one owner of
    its block. *)

From Stdlib Require Import ZArith Lia List Bool.
From stdpp Require Import base tactics list numbers gmap.
From S2P Require Import Prelude CText Utf8 BList BListOps BString BStringShare StringRefs BStringEdit StringList.
Local Open Scope Z_scope.
Local Open Scope c_scope.

(** The texts of data pointers, each of which can be shared. *)
Definition strings (h : sheap) (ps : list Z) (ts : list (list Z)) : Prop :=
  Forall2 (fun p t => BString.holds h p t /\ shareable h p) ps ts.

(** A list with the texts [ts]; [G] are the other owners of blocks. *)
Definition slist (lh : heap) (l : blist) (h : sheap) (ps : list Z) (ts : list (list Z)) (G : list Z) : Prop :=
  BList.holds lh l ps /\ owners_ok h (ps ++ G) /\ strings h ps ts.

Lemma strings_stays h h' O ps ts : stays h h' O -> (forall p, p ∈ ps -> p ∈ O) -> strings h ps ts -> strings h' ps ts.
Proof.
  intros Hst Hin Hs. induction Hs as [|p t ps ts [Hp Hq] Hs IH]; constructor.
  - split; [eapply stays_holds; [done| |done]|apply Hst; [|done]]; apply Hin; by left.
  - apply IH. intros q Hq'. apply Hin. by right.
Qed.

Lemma in_left {A} (p : A) ps G : p ∈ ps -> p ∈ ps ++ G.
Proof. intros Hp. apply elem_of_app. by left. Qed.

Lemma slist_stays lh l h h' ps ts G O : slist lh l h ps ts G -> owners_ok h' (ps ++ G) -> stays h h' O -> (forall p, p ∈ ps -> p ∈ O) ->
  slist lh l h' ps ts G.
Proof. intros (Hl & Ho & Hs) Ho' Hst Hin. split; [done|]. split; [done|]. by eapply strings_stays. Qed.

Lemma strings_len h ps ts : strings h ps ts -> length ps = length ts.
Proof. apply Forall2_length. Qed.

Lemma strings_item h ps ts i t : strings h ps ts -> ts !! i = Some t ->
  item_at ps (Z.of_nat i) ∈ ps /\ BString.holds h (item_at ps (Z.of_nat i)) t /\ shareable h (item_at ps (Z.of_nat i))
  /\ ps !! i = Some (item_at ps (Z.of_nat i)).
Proof.
  intros Hs Ht. destruct (Forall2_lookup_r _ _ _ _ _ Hs Ht) as (p & Hp & Hh & Hq).
  assert (E : item_at ps (Z.of_nat i) = p).
  { pose proof (lookup_lt_Some _ _ _ Hp). pose proof (item_lookup ps (Z.of_nat i)) as E. rewrite Nat2Z.id, Hp in E.
    assert (Hr : 0 <= Z.of_nat i < zlen ps) by (unfold zlen; lia). specialize (E Hr). by injection E. }
  rewrite E. split; [by eapply list_elem_of_lookup_2|]. done.
Qed.

Lemma slist_count lh l h ps ts G : slist lh l h ps ts G -> BList.CountItems l = Z.of_nat (length ts).
Proof. intros (Hl & _ & Hs). unfold BList.CountItems. rewrite (holds_count _ _ _ Hl). unfold zlen. by rewrite (strings_len _ _ _ Hs). Qed.

Section Ops.
Context `{Hr : Realloc} `{!ReallocOk} `{!ReallocStays} `{Hm : Memory} `{!MemoryOk} `{Hb : Members} `{!MembersOk} `{He : StringEq} `{!StringEqOk}.

(** *** One element *)

Lemma StringAt_spec lh l h ps ts G O i t :
  slist lh l h ps ts G -> owners_ok h O -> (forall p, p ∈ ps -> p ∈ O) -> zlen O < INT_MAX -> ts !! i = Some t ->
  exists h', StringAt lh l h (Z.of_nat i) = Ok (h', item_at ps (Z.of_nat i)) /\ owners_ok h' (item_at ps (Z.of_nat i) :: O)
    /\ BString.holds h' (item_at ps (Z.of_nat i)) t /\ shareable h' (item_at ps (Z.of_nat i)) /\ stays h h' O.
Proof.
  intros (Hl & _ & Hs) Ho Hin Hmax Ht. unfold StringAt. rewrite (ItemAt_spec _ _ _ _ Hl). cbn [obind].
  destruct (strings_item h ps ts i t Hs Ht) as (Hp & Hh & Hq & _). apply StringFromData_made; auto.
Qed.

(** An element that is looked at. *)
Lemma look_spec {A} lh l h ps ts G i t (use : sheap -> Z -> outcome A) a :
  slist lh l h ps ts G -> zlen (ps ++ G) < INT_MAX -> ts !! i = Some t ->
  (forall h' p, BString.holds h' p t -> stays h h' (ps ++ G) -> use h' p = Ok a) ->
  exists h', with_string (StringAt lh l h (Z.of_nat i)) use = Ok (h', a) /\ slist lh l h' ps ts G /\ stays h h' (ps ++ G).
Proof.
  intros Hsl Hmax Ht Huse. pose proof Hsl as (_ & Ho & _).
  destruct (StringAt_spec lh l h ps ts G (ps ++ G) i t Hsl Ho) as (h1 & E & Ho1 & Hh1 & Hs1 & Hst1); [by intros ?; apply in_left|done|done|].
  unfold with_string. rewrite E. cbn [obind]. rewrite (Huse _ _ Hh1 Hst1). cbn [obind].
  destruct (BString_delete_spec h1 (ps ++ G) _ Ho1 Hs1) as (h2 & -> & Ho2 & Hst2). exists h2. split; [done|].
  pose proof (stays_trans _ _ _ _ Hst1 Hst2) as Hst. split; [|done].
  eapply slist_stays; [done|done|done|]. by intros ?; apply in_left.
Qed.

(** *** Searching *)

Definition same_text (ignoreCase : bool) (t u : list Z) : bool :=
  if ignoreCase then (zlen t =? zlen u) && (strcasecmp t u =? 0) else bool_decide (t = u).

Lemma same_icase_eq h q t p u : BString.holds h q t -> BString.holds h p u ->
  same_icase h (zlen t) q p = Ok (same_text true t u).
Proof.
  intros Hq Hp. unfold same_icase. rewrite (Length_holds h p u Hp). cbn [obind same_text].
  destruct (zlen t =? zlen u); [|done]. unfold ICompare_string. rewrite !String_data.
  rewrite (cstr_reads _ _ _ (holds_reads _ _ _ Hq)), (cstr_reads _ _ _ (holds_reads _ _ _ Hp)). done.
Qed.

Definition text_index (f : list Z -> bool) (ts : list (list Z)) : option nat := fst <$> list_find (fun t => f t = true) ts.

Lemma text_index_cons f t ts : text_index f (t :: ts) = if f t then Some O else S <$> text_index f ts.
Proof.
  unfold text_index. cbn [list_find]. destruct (decide (f t = true)) as [E|E].
  - by rewrite E.
  - destruct (f t); [done|]. destruct (list_find _ ts) as [[k z]|]; done.
Qed.

Lemma find_loop_spec lh l ps ts G (same : sheap -> Z -> outcome bool) f : forall b a h i n,
  slist lh l h ps ts G -> zlen (ps ++ G) < INT_MAX -> ts = a ++ b -> i = Z.of_nat (length a) -> n = length b ->
  (forall h' p t, BString.holds h' p t -> stays h h' (ps ++ G) -> same h' p = Ok (f t)) ->
  exists h', find_loop same n i lh l h = Ok (h', match text_index f b with Some k => i + Z.of_nat k | None => -1 end)
    /\ slist lh l h' ps ts G /\ stays h h' (ps ++ G).
Proof.
  induction b as [|t b IH]; intros a h i n Hsl Hmax Ets -> -> Hsame.
  { exists h. split; [done|]. split; [done|apply stays_refl]. }
  cbn [length find_loop]. assert (Ht : ts !! length a = Some t) by (rewrite Ets; by apply list_lookup_middle).
  destruct (look_spec lh l h ps ts G (length a) t same (f t) Hsl Hmax Ht) as (h1 & -> & Hsl1 & Hst1); [intros; by apply Hsame|].
  cbn [obind]. rewrite text_index_cons. destruct (f t).
  - exists h1. rewrite Z.add_0_r. done.
  - destruct (IH (a ++ [t]) h1 (Z.of_nat (length a) + 1) (length b) Hsl1 Hmax) as (h2 & -> & Hsl2 & Hst2);
      [by rewrite <- app_assoc|rewrite length_app; cbn [length]; lia|done|intros h' p u Hp Hst; apply Hsame; [done|by eapply stays_trans]|].
    exists h2. split; [|split; [done|by eapply stays_trans]]. destruct (text_index f b); cbn; [|done]. do 2 f_equal. lia.
Qed.

Lemma texts_IndexOf_spec lh l h ps ts G q t ic :
  slist lh l h ps ts G -> zlen (ps ++ G) < INT_MAX -> q ∈ G -> BString.holds h q t ->
  exists h', IndexOf lh l h q ic = Ok (h', match text_index (same_text ic t) ts with Some k => Z.of_nat k | None => -1 end)
    /\ slist lh l h' ps ts G /\ stays h h' (ps ++ G).
Proof.
  intros Hsl Hmax Hq Ht. unfold IndexOf. rewrite (slist_count _ _ _ _ _ _ Hsl), Nat2Z.id.
  assert (Hq' : forall h', stays h h' (ps ++ G) -> BString.holds h' q t).
  { intros h' Hst. eapply stays_holds; [done| |done]. apply elem_of_app. by right. }
  destruct ic.
  - rewrite (Length_holds h q t Ht). cbn [obind].
    apply (find_loop_spec lh l ps ts G _ (same_text true t) ts []); try done. intros h' p u Hp Hst. apply same_icase_eq; auto.
  - apply (find_loop_spec lh l ps ts G _ (same_text false t) ts []); try done. intros h' p u Hp Hst. cbn [same_text].
    apply string_eq_holds; auto.
Qed.

(** *** Adding *)

(** A [realloc] for a list that failed. *)
Definition list_exhausted : Prop := exists h p n, BList.realloc_at h p n = None.

Lemma resize_failed lh l xs n lh' l' :
  BList.holds lh l xs -> 0 < n <= MAX_LIST_COUNT -> BList._Resize lh l n = Ok (lh', l', false) -> list_exhausted.
Proof.
  intros (Hmin & _) Hn. unfold BList._Resize, BList.realloc. intros E.
  apply obind_ok in E as ([h1 q] & E1 & E). apply obind_ok in E1 as (old & _ & E1).
  rewrite (proj2 (Z.ltb_ge (n + 1) 0)) in E1 by lia.
  rewrite (proj2 (Z.leb_gt n 0)), (proj2 (Z.ltb_ge MAX_LIST_COUNT n)), Hmin, (proj2 (Z.leb_gt n 0)) in E by lia. cbn [orb] in E.
  destruct (n + 1 =? fItemReal l); [by apply obind_ok in E as (? & _ & [=])|].
  destruct (BList.realloc_at lh (fObjects l) (n + 1)) as [a|] eqn:Ea; [|by exists lh, (fObjects l), (n + 1)].
  injection E1 as <- <-. destruct (BList.realloc_fresh _ _ _ _ Ea) as [Ha _].
  rewrite (proj2 (Z.eqb_neq a BList.NULL)) in E by done. by apply obind_ok in E as (? & _ & [=]).
Qed.

Lemma AddItem_runs lh l xs x : ~ list_exhausted -> BList.holds lh l xs -> zlen xs < MAX_LIST_COUNT ->
  exists lh' l', BList.AddItem lh l x = Ok (lh', l', true) /\ BList.holds lh' l' (xs ++ [x]) /\ frame lh l lh' l'.
Proof.
  intros Hex Hl Hmax. destruct (AddItem_spec lh l xs x Hl Hmax) as [Hs|[E|[_ Hst]]]; [done|exfalso|by apply stays_not_stale in Hst].
  apply Hex. unfold BList.AddItem in E. rewrite (holds_count _ _ _ Hl) in E.
  rewrite (proj2 (Z.leb_gt MAX_LIST_COUNT _)) in E by lia. apply obind_ok in E as ([[h1 l1] ok] & E1 & E).
  destruct ok; [by apply obind_ok in E as (? & _ & [=])|]. eapply resize_failed; [done| |done]. pose proof (zlen_nonneg xs). lia.
Qed.

Lemma insert_at_end xs x : BListOps.insert_at xs (zlen xs) x = xs ++ [x].
Proof. unfold BListOps.insert_at, zlen. by rewrite Nat2Z.id, take_ge, drop_ge by lia. Qed.

Lemma AddItem_at_runs lh l xs x i : ~ list_exhausted -> BList.holds lh l xs -> zlen xs < MAX_LIST_COUNT -> 0 <= i <= zlen xs ->
  exists lh' l', BList.AddItem_at lh l x i = Ok (lh', l', true) /\ BList.holds lh' l' (BListOps.insert_at xs i x) /\ frame lh l lh' l'.
Proof.
  intros Hex Hl Hmax Hi. destruct (AddItem_at_spec lh l xs x i Hl Hi Hmax) as [Hs|[E|[_ Hst]]]; [done|exfalso|by apply stays_not_stale in Hst].
  apply Hex. unfold BList.AddItem_at in E. rewrite (holds_count _ _ _ Hl) in E.
  rewrite (proj2 (Z.ltb_ge i 0)), (proj2 (Z.ltb_ge (zlen xs) i)) in E by lia. cbn [orb] in E.
  destruct (i =? zlen xs) eqn:Ei.
  { destruct (AddItem_runs lh l xs x Hex Hl Hmax) as (? & ? & E2 & _). rewrite E in E2. done. }
  rewrite (proj2 (Z.leb_gt MAX_LIST_COUNT _)) in E by lia. apply obind_ok in E as ([[h1 l1] ok] & E1 & E).
  destruct ok; [apply obind_ok in E as (? & _ & E); by apply obind_ok in E as (? & _ & [=])|].
  eapply resize_failed; [done| |done]. pose proof (zlen_nonneg xs). lia.
Qed.

Definition text_insert (ts : list (list Z)) (i : Z) (t : list Z) : list (list Z) :=
  take (Z.to_nat i) ts ++ t :: drop (Z.to_nat i) ts.

Lemma insert_at_perm xs i x : BListOps.insert_at xs i x ≡ₚ x :: xs.
Proof. unfold BListOps.insert_at. rewrite <- Permutation_middle. by rewrite take_drop. Qed.

Lemma strings_insert h ps ts i p t : strings h ps ts -> BString.holds h p t -> shareable h p ->
  strings h (BListOps.insert_at ps i p) (text_insert ts i t).
Proof.
  intros Hs Hp Hq. apply Forall2_app; [by apply Forall2_take|]. constructor; [done|by apply Forall2_drop].
Qed.

Lemma add_with_spec add lh l h ps ts G q t i : ~ exhausted ->
  slist lh l h ps ts G ->
  (forall p, exists lh' l', add lh l p = Ok (lh', l', true) /\ BList.holds lh' l' (BListOps.insert_at ps i p)) ->
  q ∈ ps ++ G -> BString.holds h q t -> zlen (ps ++ G) + 1 < INT_MAX ->
  exists lh' l' h' p, add_with add lh l h q = Ok (lh', l', h', true)
    /\ slist lh' l' h' (BListOps.insert_at ps i p) (text_insert ts i t) G /\ stays h h' (ps ++ G).
Proof.
  intros Hex (Hl & Ho & Hs) Hadd Hq Ht Hmax. unfold add_with.
  destruct (copy_made h (ps ++ G) q t Ho Hq Ht) as [(h1 & p & -> & Ho1 & Hp1 & Hs1 & Hst1)|?]; [lia| |done].
  cbn [obind]. rewrite (Length_holds h1 p t Hp1), (Length_holds h1 q t) by (by eapply stays_holds). cbn [obind].
  rewrite Z.eqb_refl. cbn [negb]. destruct (Hadd p) as (lh' & l' & -> & Hl'). cbn [obind negb].
  destruct (Increment_spec h1 (p :: ps ++ G) p Ho1) as (h2 & -> & Ho2 & Hs2 & Hst2); [by left|done|rewrite zlen_cons; lia|].
  cbn [obind]. destruct (BString_delete_spec h2 (p :: ps ++ G) p Ho2 Hs2) as (h3 & -> & Ho3 & Hst3). cbn [obind].
  exists lh', l', h3, p. split; [done|].
  pose proof (stays_trans _ _ _ _ Hst2 Hst3) as Hst23.
  assert (Hst : stays h h3 (ps ++ G)) by (eapply stays_trans; [done|by eapply stays_tail]).
  split; [|done]. split; [done|]. split; [by rewrite insert_at_perm|].
  apply strings_insert; [|eapply stays_holds; [exact Hst23|by left|done]|apply Hst23; [by left|done]].
  eapply strings_stays; [exact Hst|intros r; apply in_left|done].
Qed.

(** *** Removing one *)

(** What is returned for the last string is empty, and the list's reference
    to it is lost. *)
Definition lost (i : nat) (ps : list Z) (p : Z) : list Z := if decide (S i = length ps) then [p] else [].

Lemma Remove_at_spec lh l h ps ts G i t : ~ exhausted ->
  slist lh l h ps ts G -> zlen (ps ++ G) + 1 < INT_MAX -> ts !! i = Some t ->
  exists lh' l' h' p r, Remove_at lh l h (Z.of_nat i) = Ok (lh', l', h', r)
    /\ BList.holds lh' l' (delete i ps) /\ owners_ok h' (r :: delete i ps ++ lost i ps p ++ G)
    /\ strings h' (delete i ps) (delete i ts) /\ stays h h' G /\ shareable h' r
    /\ BString.holds h' r (if decide (S i = length ts) then [] else t).
Proof.
  intros Hex (Hl & Ho & Hs) Hmax Ht. destruct (strings_item h ps ts i t Hs Ht) as (Hp & Hh & Hq & Hi).
  set (p := item_at ps (Z.of_nat i)) in *. pose proof (lookup_lt_Some _ _ _ Hi) as Hlt. pose proof (strings_len _ _ _ Hs) as Hlen.
  destruct (RemoveItem_at_spec lh l ps (Z.of_nat i) Hl) as [(lh' & l' & E & Hl' & _)|[_ Hst]]; [unfold zlen; lia| |by apply stays_not_stale in Hst].
  rewrite Nat2Z.id in Hl'. unfold Remove_at. rewrite E. cbn [obind]. fold p.
  assert (Hperm : p :: delete i ps ≡ₚ ps) by (symmetry; by apply delete_Permutation).
  destruct (StringFromData_made h (ps ++ G) p t Ho) as (h1 & -> & Ho1 & Hh1 & Hs1 & Hst1); [by apply in_left|done|done|lia|].
  cbn [obind]. rewrite (proj2 (Z.ltb_ge (Z.of_nat i) 0)) by lia. cbn [orb]. unfold BList.CountItems.
  rewrite (holds_count _ _ _ Hl'). unfold zlen at 1. rewrite length_delete by (by rewrite Hi). unfold lost. rewrite <- Hlen.
  assert (Hdel : forall h', stays h h' (ps ++ G) -> strings h' (delete i ps) (delete i ts)).
  { intros h' Hst. apply Forall2_delete. eapply strings_stays; [exact Hst|intros r; apply in_left|done]. }
  assert (HG : forall h', stays h h' (ps ++ G) -> stays h h' G) by (intros h' Hst; eapply stays_incl; [done|intros r Hr'; apply elem_of_app; by right]).
  destruct (decide (S i = length ps)) as [El|El].
  - rewrite (proj2 (Z.leb_le _ _)) by lia.
    destruct (new_made h1 _ Ho1) as [(h2 & e & -> & Ho2 & He2 & Hse2 & Hst2)|?]; [|done]. cbn [obind].
    rewrite perm_swap in Ho2.
    destruct (BString_delete_spec h2 (e :: ps ++ G) p Ho2) as (h3 & -> & Ho3 & Hst3); [apply Hst2; [by left|done]|]. cbn [obind].
    assert (Hst : stays h h3 (ps ++ G)).
    { eapply stays_trans; [done|]. eapply stays_trans; eapply stays_tail; done. }
    exists lh', l', h3, p, e. split; [done|]. split; [done|].
    split; [|split; [by apply Hdel|split; [by apply HG|split; [apply Hst3; [by left|done]|eapply stays_holds; [exact Hst3|by left|done]]]]].
    cbn [app]. rewrite <- Permutation_middle, app_comm_cons, Hperm. done.
  - rewrite (proj2 (Z.leb_gt _ _)) by lia.
    destruct (Decrement_spec h1 (ps ++ G) p Ho1 Hs1) as (h2 & -> & _ & Ho2 & Hst2). cbn [obind].
    pose proof (stays_trans _ _ _ _ Hst1 Hst2) as Hst. exists lh', l', h2, p, p. split; [done|]. split; [done|].
    split; [cbn [app]; by rewrite app_comm_cons, Hperm|]. split; [by apply Hdel|]. split; [by apply HG|].
    split; [apply Hst; [by apply in_left|done]|]. eapply stays_holds; [exact Hst|by apply in_left|done].
Qed.

Lemma remove_one_spec lh l h ps ts G i t : ~ exhausted ->
  slist lh l h ps ts G -> zlen (ps ++ G) + 1 < INT_MAX -> ts !! i = Some t ->
  exists lh' l' h' p, remove_one lh l h (Z.of_nat i) = Ok (lh', l', h')
    /\ slist lh' l' h' (delete i ps) (delete i ts) (lost i ps p ++ G) /\ stays h h' G.
Proof.
  intros Hex Hsl Hmax Ht. destruct (Remove_at_spec lh l h ps ts G i t Hex Hsl Hmax Ht) as (lh' & l' & h1 & p & r & E & Hl' & Ho1 & Hs1 & Hst1 & Hr1 & _).
  unfold remove_one. rewrite E. cbn [obind]. destruct (BString_delete_spec h1 _ r Ho1 Hr1) as (h2 & -> & Ho2 & Hst2). cbn [obind].
  exists lh', l', h2, p. split; [done|]. split.
  - split; [done|]. split; [done|]. eapply strings_stays; [exact Hst2|intros q; apply in_left|done].
  - eapply stays_trans; [done|]. eapply stays_incl; [done|]. intros q Hq. rewrite !elem_of_app. by right; right.
Qed.

(** *** Removing by text *)

Fixpoint leading (f : list Z -> bool) (ts : list (list Z)) : Z :=
  match ts with t :: ts => if f t then 1 + leading f ts else 0 | [] => 0 end.

(** How many texts at the end satisfy [f]. *)
Definition trailing (f : list Z -> bool) (ts : list (list Z)) : Z := leading f (rev ts).

Definition kept (f : list Z -> bool) (ts : list (list Z)) : list (list Z) := filter (fun t => f t = false) ts.

Lemma kept_snoc f ts t : kept f (ts ++ [t]) = kept f ts ++ (if f t then [] else [t]).
Proof.
  unfold kept. rewrite filter_app. f_equal. destruct (f t) eqn:E; [by rewrite filter_cons_False by congruence|].
  by rewrite filter_cons_True.
Qed.

(** A turn of one of the two loops. *)
Definition removes_turn (loop : nat -> heap -> blist -> sheap -> bool -> outcome (heap * blist * sheap * bool))
  (f : list Z -> bool) (q : Z) (t : list Z) : Prop :=
  (forall lh l h res, loop O lh l h res = Ok (lh, l, h, res)) /\
  forall lh l h ps ts G n u res,
    slist lh l h ps ts G -> zlen (ps ++ G) + 2 < INT_MAX -> q ∈ G -> BString.holds h q t -> ts !! n = Some u ->
    exists lh' l' h' ps' L, loop (S n) lh l h res = loop n lh' l' h' (res || f u)
      /\ slist lh' l' h' ps' (if f u then delete n ts else ts) (L ++ G) /\ stays h h' G
      /\ zlen L = (if f u && bool_decide (S n = length ts) then 1 else 0) /\ zlen ps' + zlen L <= zlen ps.

Lemma removes_spec loop f q t : removes_turn loop f q t -> forall a r lh l h ps G res,
  slist lh l h ps (a ++ r) G -> zlen (ps ++ G) + 2 < INT_MAX -> q ∈ G -> BString.holds h q t ->
  exists lh' l' h' ps' L, loop (length a) lh l h res = Ok (lh', l', h', res || existsb f a)
    /\ slist lh' l' h' ps' (kept f a ++ r) (L ++ G) /\ stays h h' G
    /\ zlen L = (if decide (r = []) then trailing f a else 0) /\ zlen ps' + zlen L <= zlen ps.
Proof.
  intros [H0' Hturn] a. induction a as [|u a IH] using rev_ind; intros r lh l h ps G res Hsl Hmax Hq Ht.
  { exists lh, l, h, ps, []. cbn. rewrite H0', orb_false_r. split; [done|]. split; [done|]. split; [apply stays_refl|].
    change (zlen (@nil Z)) with 0. split; [by destruct (decide _)|lia]. }
  rewrite length_app, Nat.add_comm. cbn [length Nat.add].
  assert (Hu : ((a ++ [u]) ++ r) !! length a = Some u) by (rewrite <- app_assoc; by apply list_lookup_middle).
  destruct (Hturn lh l h ps _ G (length a) u res Hsl Hmax Hq Ht Hu) as (lh1 & l1 & h1 & ps1 & L1 & -> & Hsl1 & Hst1 & HL1 & Hps1).
  assert (Hts : (if f u then delete (length a) ((a ++ [u]) ++ r) else (a ++ [u]) ++ r) = a ++ (if f u then r else u :: r)).
  { rewrite <- app_assoc. destruct (f u); [|done]. cbn [app]. by rewrite delete_middle. }
  rewrite Hts in Hsl1.
  assert (Hmax1 : zlen (ps1 ++ L1 ++ G) + 2 < INT_MAX) by (rewrite !zlen_app in *; lia).
  destruct (IH (if f u then r else u :: r) lh1 l1 h1 ps1 (L1 ++ G) (res || f u) Hsl1 Hmax1)
    as (lh2 & l2 & h2 & ps2 & L2 & -> & Hsl2 & Hst2 & HL2 & Hps2); [apply elem_of_app; by right|by eapply stays_holds|].
  exists lh2, l2, h2, ps2, (L2 ++ L1). split; [|split; [|split; [|split]]].
  - do 2 f_equal. rewrite existsb_app. cbn [existsb]. rewrite orb_false_r, <- orb_assoc. by rewrite (orb_comm (f u)).
  - rewrite <- (app_assoc L2). rewrite kept_snoc, <- app_assoc. by destruct (f u).
  - eapply stays_trans; [done|]. eapply stays_incl; [done|]. intros x Hx. apply elem_of_app. by right.
  - rewrite zlen_app, HL1, HL2. unfold trailing. rewrite rev_unit. cbn [leading]. rewrite length_app, length_app. cbn [length].
    destruct (f u); cbn [andb].
    + destruct (decide (r = [])) as [->|Hr0]; [rewrite bool_decide_true by (cbn [length]; lia); lia|].
      rewrite bool_decide_false; [lia|]. destruct r; [done|cbn [length]; lia].
    + rewrite decide_False by done. by destruct (decide (r = [])).
  - rewrite zlen_app. lia.
Qed.

Lemma zlen_lost i ps p : zlen (lost i ps p) = if bool_decide (S i = length ps) then 1 else 0.
Proof. unfold lost. case_bool_decide; by case_decide. Qed.

Lemma zlen_delete {A} (ps : list A) i p : ps !! i = Some p -> zlen (delete i ps) = zlen ps - 1.
Proof. intros Hi. pose proof (lookup_lt_Some _ _ _ Hi). unfold zlen. rewrite length_delete by (by rewrite Hi). lia. Qed.

Lemma remove_loop_turn q t : ~ exhausted ->
  removes_turn (fun n lh l h res => remove_loop n lh l h q res) (same_text false t) q t.
Proof.
  intros Hex. split; [done|]. intros lh l h ps ts G n u res Hsl Hmax Hq Ht Hu. cbn [remove_loop].
  assert (Hq' : forall h', stays h h' (ps ++ G) -> BString.holds h' q t).
  { intros h' Hst. eapply stays_holds; [done| |done]. apply elem_of_app. by right. }
  destruct (look_spec lh l h ps ts G n u (fun h p => string_eq h q p) (same_text false t u) Hsl) as (h1 & -> & Hsl1 & Hst1);
    [lia|done|intros; cbn [same_text]; apply string_eq_holds; auto|].
  cbn [obind]. assert (HstG : stays h h1 G) by (eapply stays_incl; [exact Hst1|intros x Hx; apply elem_of_app; by right]).
  destruct (same_text false t u); cbn [andb].
  - destruct (remove_one_spec lh l h1 ps ts G n u Hex Hsl1) as (lh2 & l2 & h2 & p & -> & Hsl2 & Hst2); [lia|done|]. cbn [obind].
    pose proof Hsl as (_ & _ & Hs). destruct (strings_item _ _ _ _ _ Hs Hu) as (_ & _ & _ & Hi).
    exists lh2, l2, h2, (delete n ps), (lost n ps p). rewrite orb_true_r. split; [done|]. split; [done|].
    split; [by eapply stays_trans|]. rewrite zlen_lost, (strings_len _ _ _ Hs). split; [done|].
    rewrite (zlen_delete _ _ _ Hi). case_bool_decide; lia.
  - exists lh, l, h1, ps, []. rewrite orb_false_r. split; [done|]. split; [done|]. split; [done|]. split; [done|].
    change (zlen (@nil Z)) with 0. lia.
Qed.

(** Without case a second reference is held while the string is removed. *)
Lemma remove_icase_turn q t : ~ exhausted ->
  removes_turn (fun n lh l h res => remove_icase_loop n lh l h q (zlen t) res) (same_text true t) q t.
Proof.
  intros Hex. split; [done|]. intros lh l h ps ts G n u res Hsl Hmax Hq Ht Hu. cbn [remove_icase_loop].
  pose proof Hsl as (Hl & Ho & Hs). destruct (strings_item _ _ _ _ _ Hs Hu) as (Hin & _ & _ & Hi).
  destruct (StringAt_spec lh l h ps ts G (ps ++ G) n u Hsl Ho) as (h1 & -> & Ho1 & Hh1 & Hs1 & Hst1); [by intros ?; apply in_left|lia|done|].
  cbn [obind]. set (p := item_at ps (Z.of_nat n)) in *.
  rewrite (same_icase_eq h1 q t p u); [|eapply stays_holds; [exact Hst1|apply elem_of_app; by right|done]|done]. cbn [obind].
  assert (HstG : stays h h1 G) by (eapply stays_incl; [exact Hst1|intros x Hx; apply elem_of_app; by right]).
  destruct (same_text true t u); cbn [andb].
  - assert (Hsl1 : slist lh l h1 ps ts (p :: G)).
    { split; [done|]. split; [by rewrite <- Permutation_middle|]. eapply strings_stays; [exact Hst1|intros x; apply in_left|done]. }
    destruct (remove_one_spec lh l h1 ps ts (p :: G) n u Hex Hsl1) as (lh2 & l2 & h2 & p' & -> & (Hl2 & Ho2 & Hs2) & Hst2);
      [rewrite zlen_app, zlen_cons; rewrite zlen_app in Hmax; lia|done|]. cbn [obind].
    rewrite app_assoc, <- Permutation_middle, <- app_assoc in Ho2.
    destruct (BString_delete_spec h2 _ p Ho2) as (h3 & -> & Ho3 & Hst3); [apply Hst2; [by left|done]|]. cbn [obind].
    exists lh2, l2, h3, (delete n ps), (lost n ps p'). rewrite orb_true_r. split; [done|]. split; [|split; [|split]].
    + split; [done|]. split; [done|]. eapply strings_stays; [exact Hst3|intros x; apply in_left|done].
    + eapply stays_trans; [done|]. eapply stays_trans; [by eapply stays_tail|]. eapply stays_incl; [exact Hst3|].
      intros x Hx. rewrite !elem_of_app. by right; right.
    + by rewrite zlen_lost, (strings_len _ _ _ Hs).
    + rewrite zlen_lost, (zlen_delete _ _ _ Hi). case_bool_decide; lia.
  - cbn [obind]. destruct (BString_delete_spec h1 _ p Ho1 Hs1) as (h2 & -> & Ho2 & Hst2). cbn [obind].
    pose proof (stays_trans _ _ _ _ Hst1 Hst2) as Hst. exists lh, l, h2, ps, []. rewrite orb_false_r. split; [done|].
    split; [eapply slist_stays; [done|done|exact Hst|intros x; apply in_left]|].
    split; [eapply stays_incl; [exact Hst|intros x Hx; apply elem_of_app; by right]|]. split; [done|].
    change (zlen (@nil Z)) with 0. lia.
Qed.

Lemma texts_Remove_spec lh l h ps ts G q t ic : ~ exhausted ->
  slist lh l h ps ts G -> zlen (ps ++ G) + 2 < INT_MAX -> q ∈ G -> BString.holds h q t ->
  exists lh' l' h' ps' L, Remove lh l h q ic = Ok (lh', l', h', existsb (same_text ic t) ts)
    /\ slist lh' l' h' ps' (kept (same_text ic t) ts) (L ++ G) /\ stays h h' G
    /\ zlen L = trailing (same_text ic t) ts /\ zlen ps' + zlen L <= zlen ps.
Proof.
  intros Hex Hsl Hmax Hq Ht. unfold Remove. rewrite (slist_count _ _ _ _ _ _ Hsl), Nat2Z.id.
  assert (Hgo : forall loop, removes_turn loop (same_text ic t) q t ->
    exists lh' l' h' ps' L, loop (length ts) lh l h false = Ok (lh', l', h', existsb (same_text ic t) ts)
    /\ slist lh' l' h' ps' (kept (same_text ic t) ts) (L ++ G) /\ stays h h' G
    /\ zlen L = trailing (same_text ic t) ts /\ zlen ps' + zlen L <= zlen ps).
  { intros loop Hturn. destruct (removes_spec loop _ q t Hturn ts [] lh l h ps G false) as (lh' & l' & h' & ps' & L & Hres);
      [by rewrite app_nil_r|done|done|done|]. rewrite app_nil_r in Hres. eauto 6. }
  destruct ic.
  - rewrite (Length_holds h q t Ht). cbn [obind]. apply (Hgo (fun n lh l h res => remove_icase_loop n lh l h q (zlen t) res)).
    by apply remove_icase_turn.
  - apply (Hgo (fun n lh l h res => remove_loop n lh l h q res)). by apply remove_loop_turn.
Qed.

(** *** Removing many *)

Lemma app_in_right {A} (x : A) ps G : x ∈ G -> x ∈ ps ++ G.
Proof. intros Hx. apply elem_of_app. by right. Qed.

Lemma item_at_middle a p b : item_at (a ++ p :: b) (Z.of_nat (length a)) = p.
Proof.
  assert (Hrng : 0 <= Z.of_nat (length a) < zlen (a ++ p :: b)) by (unfold zlen; rewrite length_app; cbn [length]; lia).
  pose proof (item_lookup _ _ Hrng) as E. rewrite Nat2Z.id, list_lookup_middle in E by done. by injection E.
Qed.

(** References of the items in the middle are given up. *)
Lemma decrement_loop lh l b O : forall mid a h,
  BList.holds lh l (a ++ mid ++ b) -> owners_ok h (mid ++ O) -> Forall (shareable h) mid ->
  exists h', refs_loop DecrementDataRefCount (length mid) (Z.of_nat (length a)) lh l h = Ok h' /\ owners_ok h' O /\ stays h h' O.
Proof.
  induction mid as [|p mid IH]; intros a h Hl Ho Hs; cbn [length refs_loop].
  { exists h. split; [done|]. split; [done|apply stays_refl]. }
  inversion Hs as [|? ? Hp Hs']; subst. rewrite (ItemAt_spec _ _ _ _ Hl). cbn [app obind] in *. rewrite item_at_middle.
  destruct (Decrement_spec h (mid ++ O) p Ho Hp) as (h1 & -> & _ & Ho1 & Hst1). cbn [obind].
  destruct (IH (a ++ [p]) h1) as (h2 & E & Ho2 & Hst2).
  - by rewrite <- app_assoc.
  - done.
  - apply Forall_forall. intros q Hq. apply Hst1; [by apply in_left|]. by eapply Forall_forall in Hs'.
  - rewrite length_app in E. cbn [length] in E. replace (Z.of_nat (length a) + 1) with (Z.of_nat (length a + 1)) by lia.
    exists h2. split; [done|]. split; [done|]. eapply stays_trans; [|done]. eapply stays_incl; [done|].
    intros x. apply app_in_right.
Qed.

Lemma strings_shareable h ps ts : strings h ps ts -> Forall (shareable h) ps.
Proof. induction 1 as [|p t ps ts [_ Hp] Hs IH]; by constructor. Qed.

Lemma MakeEmpty_spec lh l h ps ts G :
  slist lh l h ps ts G ->
  exists lh' l' h', MakeEmpty lh l h = Ok (lh', l', h') /\ slist lh' l' h' [] [] G /\ stays h h' G.
Proof.
  intros Hsl. pose proof Hsl as (Hl & Ho & Hs). unfold MakeEmpty, __DecrementRefCounts.
  rewrite (slist_count _ _ _ _ _ _ Hsl), Nat2Z.id, <- (strings_len _ _ _ Hs).
  destruct (decrement_loop lh l [] G ps [] h) as (h' & E & Ho' & Hst); [by rewrite app_nil_r|done|by eapply strings_shareable|].
  cbn [length] in E. change (Z.of_nat 0) with 0 in E. rewrite E. cbn [obind]. unfold BList.MakeEmpty.
  destruct (Resize_zero lh l ps Hl) as [Ht|[_ Hst2]]; [|by apply stays_not_stale in Hst2]. apply total_ok in Ht as ([[lh' l'] ok] & -> & _ & Hl' & _). cbn [obind fst].
  exists lh', l', h'. split; [done|]. split; [|done]. split; [done|]. split; [done|constructor].
Qed.

(** What a negative count removes it does not give up. *)
Definition range_kept {A} (ps : list A) (i n : Z) : list A :=
  take (Z.to_nat i) ps ++ (if n <? 0 then [] else drop (Z.to_nat (i + Z.min (zlen ps - i) n)) ps).

Lemma RemoveItems_runs lh l ps i n :
  BList.holds lh l ps -> 0 <= i <= zlen ps ->
  exists lh' l' ok, BList.RemoveItems lh l i n = Ok (lh', l', ok) /\ BList.holds lh' l' (range_kept ps i n).
Proof.
  intros Hl Hi. destruct (Z.eq_dec i (zlen ps)) as [->|Hne].
  - unfold BList.RemoveItems. rewrite (holds_count _ _ _ Hl), Z.leb_refl, orb_true_r. exists lh, l, false. split; [done|].
    unfold range_kept. rewrite take_ge by (unfold zlen; lia). destruct (Z.ltb_spec n 0); [by rewrite app_nil_r|].
    rewrite drop_ge by (unfold zlen; lia). by rewrite app_nil_r.
  - destruct (RemoveItems_spec lh l ps i n Hl) as [(lh' & l' & -> & Hl' & _)|[_ Hst]]; [lia| |by apply stays_not_stale in Hst]. exists lh', l', true. split; [done|].
    unfold range_kept, remove_count in *. destruct (Z.ltb_spec n 0); [|done].
    by rewrite (drop_ge ps) in Hl' by (unfold zlen; lia).
Qed.

Lemma strings_range h ps ts i n : strings h ps ts -> strings h (range_kept ps i n) (range_kept ts i n).
Proof.
  intros Hs. unfold range_kept. replace (zlen ts) with (zlen ps) by (unfold zlen; by rewrite (strings_len _ _ _ Hs)).
  apply Forall2_app; [by apply Forall2_take|]. destruct (n <? 0); [constructor|by apply Forall2_drop].
Qed.

Lemma split_range {A} (ps : list A) i m : 0 <= i -> 0 <= m ->
  ps = take (Z.to_nat i) ps ++ take (Z.to_nat m) (drop (Z.to_nat i) ps) ++ drop (Z.to_nat (i + m)) ps.
Proof.
  intros Hi Hm'. rewrite <- (take_drop (Z.to_nat i) ps) at 1. f_equal.
  rewrite <- (take_drop (Z.to_nat m) (drop (Z.to_nat i) ps)) at 1. f_equal. rewrite drop_drop. f_equal. lia.
Qed.

Lemma Remove_range_spec lh l h ps ts G i n :
  slist lh l h ps ts G -> 0 <= i <= INT_MAX -> INT_MIN <= n <= INT_MAX ->
  exists lh' l' h' ps' L, Remove_range lh l h i n = Ok (lh', l', h', i <=? zlen ts)
    /\ slist lh' l' h' ps' (if i <=? zlen ts then range_kept ts i n else ts) (L ++ G) /\ stays h h' G
    /\ zlen L = (if (i <=? zlen ts) && (n <? 0) then zlen ts - i else 0) /\ zlen ps' + zlen L <= zlen ps.
Proof.
  intros Hsl Hi Hn. pose proof Hsl as (Hl & Ho & Hs). pose proof (strings_len _ _ _ Hs) as Hlen.
  assert (Hz : zlen ts = zlen ps) by (unfold zlen; lia).
  assert (Hpm : zlen ps <= MAX_LIST_COUNT) by (by destruct Hl as (_ & _ & ? & _)). unfold MAX_LIST_COUNT, B_MAXINT32 in Hpm.
  pose proof (zlen_nonneg ps). unfold Remove_range. unfold BList.CountItems. rewrite (holds_count _ _ _ Hl), Hz.
  rewrite assert_int_ok, add_int_ok by (unfold INT_MIN, INT_MAX in *; lia). cbn [obind].
  rewrite (proj2 (Z.ltb_ge i 0)) by lia. cbn [orb].
  destruct (Z.leb_spec i (zlen ps)) as [Hip|Hip]; cbn [andb].
  2: { rewrite (proj2 (Z.ltb_lt (zlen ps) i)) by lia. exists lh, l, h, ps, []. split; [done|]. split; [done|].
       split; [apply stays_refl|]. change (zlen (@nil Z)) with 0. lia. }
  rewrite (proj2 (Z.ltb_ge (zlen ps) i)) by lia. set (m := Z.min (zlen ps - i) n).
  replace (i + m - i) with m by lia.
  destruct (RemoveItems_runs lh l ps i m Hl) as (lh' & l' & ok & E & Hl'); [lia|].
  destruct (Z.ltb_spec n 0) as [Hneg|Hpos].
  - replace (Z.to_nat m) with 0%nat by lia. cbn [refs_loop obind]. rewrite E. cbn [obind].
    replace m with n in Hl' by lia.
    exists lh', l', h, (range_kept ps i n), (drop (Z.to_nat i) ps). split; [done|].
    assert (Er : range_kept ps i n = take (Z.to_nat i) ps) by (unfold range_kept; rewrite (proj2 (Z.ltb_lt n 0)), app_nil_r by lia; done).
    split; [|split; [apply stays_refl|]].
    + split; [done|]. split; [rewrite Er, app_assoc, take_drop; done|by apply strings_range].
    + rewrite Er. unfold zlen in *. rewrite length_drop, length_take. lia.
  - assert (Er : range_kept ps i n = take (Z.to_nat i) ps ++ drop (Z.to_nat (i + m)) ps)
      by (unfold range_kept; rewrite (proj2 (Z.ltb_ge n 0)) by lia; done).
    assert (Em : range_kept ps i m = range_kept ps i n).
    { rewrite Er. unfold range_kept. rewrite (proj2 (Z.ltb_ge m 0)) by lia. do 3 f_equal. lia. }
    pose proof (split_range ps i m ltac:(lia) ltac:(lia)) as Es. set (mid := take (Z.to_nat m) (drop (Z.to_nat i) ps)) in *.
    assert (Hmid : length mid = Z.to_nat m) by (unfold mid, zlen in *; rewrite length_take, length_drop; lia).
    destruct (decrement_loop lh l (drop (Z.to_nat (i + m)) ps) (range_kept ps i n ++ G) mid (take (Z.to_nat i) ps) h)
      as (h' & E' & Ho' & Hst).
    + by rewrite <- Es.
    + rewrite Er. rewrite Es in Ho at 1. revert Ho. apply owners_ok_proper. solve_Permutation.
    + apply strings_shareable in Hs. rewrite Es in Hs. by apply Forall_app in Hs as [_ [? _]%Forall_app].
    + rewrite Hmid, length_take, Nat.min_l, Z2Nat.id in E' by (unfold zlen in *; lia). rewrite E'. cbn [obind]. rewrite E. cbn [obind].
      exists lh', l', h', (range_kept ps i n), []. split; [done|]. split; [|split; [|change (zlen (@nil Z)) with 0; split; [done|]]].
      * split; [by rewrite <- Em|]. split; [done|]. eapply strings_stays; [exact Hst|intros x; apply in_left|by apply strings_range].
      * eapply stays_incl; [exact Hst|]. intros x. apply app_in_right.
      * rewrite Er. rewrite Es at 3. rewrite !zlen_app. pose proof (zlen_nonneg mid). lia.
Qed.

(** *** Changing the order *)

Lemma insert_perm (ps : list Z) i p q : ps !! i = Some p -> <[i := q]> ps ≡ₚ q :: delete i ps.
Proof.
  intros Hi. rewrite insert_take_drop by (by eapply lookup_lt_Some). rewrite delete_take_drop. by rewrite <- Permutation_middle.
Qed.

Lemma strings_set h ps ts i q t : (i < length ps)%nat -> strings h (delete i ps) (delete i ts) -> length ps = length ts ->
  BString.holds h q t -> shareable h q -> strings h (<[i := q]> ps) (<[i := t]> ts).
Proof.
  intros Hi Hs Hlen Hq Hsh. rewrite !insert_take_drop by lia. rewrite !delete_take_drop in Hs.
  apply Forall2_app_inv in Hs as [H1' H2']; [|rewrite !length_take; lia]. apply Forall2_app; [done|]. by constructor.
Qed.

Lemma texts_Replace_spec lh l h ps ts G i q t :
  slist lh l h ps ts G -> q ∈ G -> BString.holds h q t -> shareable h q -> zlen (ps ++ G) + 2 < INT_MAX -> 0 <= i < zlen ts ->
  exists lh' l' h' ps', Replace lh l h i q = Ok (lh', l', h', true)
    /\ slist lh' l' h' ps' (<[Z.to_nat i := t]> ts) G /\ stays h h' G /\ zlen ps' = zlen ps.
Proof.
  intros Hsl Hq Ht Hsh Hmax Hi. pose proof Hsl as (Hl & Ho & Hs). pose proof (strings_len _ _ _ Hs) as Hlen.
  assert (Hip : 0 <= i < zlen ps) by (unfold zlen in *; lia). pose proof (item_lookup ps i Hip) as Hp. set (p := item_at ps i) in *.
  unfold Replace, BList.CountItems. rewrite (holds_count _ _ _ Hl), (proj2 (Z.ltb_ge i 0)), (proj2 (Z.leb_gt _ _)) by lia. cbn [orb].
  rewrite (ItemAt_spec _ _ _ _ Hl). cbn [obind]. fold p.
  pose proof (delete_Permutation ps _ p Hp) as Hperm. rewrite Hperm in Ho. cbn [app] in Ho.
  assert (Hps : shareable h p) by (eapply Forall_lookup_1; [eapply strings_shareable; done|exact Hp]).
  destruct (Decrement_spec h _ p Ho Hps) as (h1 & -> & _ & Ho1 & Hst1). cbn [obind].
  destruct (Increment_spec h1 _ q Ho1) as (h2 & -> & Ho2 & Hq2 & Hst2);
    [by apply app_in_right|apply Hst1; [by apply app_in_right|done]|rewrite Hperm in Hmax; cbn [app] in Hmax; rewrite zlen_cons in Hmax; lia|].
  cbn [obind]. destruct (ReplaceItem_spec lh l ps i q false Hl Hip) as (lh' & -> & Hl' & _). cbn [obind].
  pose proof (stays_trans _ _ _ _ Hst1 Hst2) as Hst. exists lh', l, h2, (<[Z.to_nat i := q]> ps). split; [done|].
  split; [|split; [eapply stays_incl; [exact Hst|intros x; apply app_in_right]|unfold zlen; by rewrite length_insert]].
  split; [done|]. split; [by rewrite (insert_perm ps _ p q Hp)|].
  apply strings_set; [unfold zlen in *; lia| |done|eapply stays_holds; [exact Hst|by apply app_in_right|done]|done].
  eapply strings_stays; [exact Hst|intros x; apply in_left|by apply Forall2_delete].
Qed.

Definition text_swap (ts : list (list Z)) (i j : nat) : list (list Z) :=
  match ts !! i, ts !! j with Some a, Some b => <[j := a]> (<[i := b]> ts) | _, _ => ts end.

Lemma items_swap_perm (ps : list Z) i j a b : ps !! i = Some a -> ps !! j = Some b -> <[j := a]> (<[i := b]> ps) ≡ₚ ps.
Proof.
  intros Ha Hj. assert (Hb' : <[i := b]> ps !! j = Some b).
  { destruct (decide (i = j)) as [<-|Hne]; [|by rewrite list_lookup_insert_ne]. rewrite list_lookup_insert_eq; [done|by eapply lookup_lt_Some]. }
  etransitivity; [exact (insert_perm _ j b a Hb')|]. symmetry. etransitivity; [exact (delete_Permutation ps i a Ha)|].
  constructor. apply (Permutation_cons_inv (a := b)). rewrite <- (insert_perm ps i a b Ha). exact (delete_Permutation _ j b Hb').
Qed.

Lemma Swap_spec lh l h ps ts G i j :
  slist lh l h ps ts G -> 0 <= i < zlen ts -> 0 <= j < zlen ts ->
  exists lh' ps', Swap lh l i j = Ok (lh', l, true) /\ slist lh' l h ps' (text_swap ts (Z.to_nat i) (Z.to_nat j)) G
    /\ zlen ps' = zlen ps.
Proof.
  intros (Hl & Ho & Hs) Hi Hj. pose proof (strings_len _ _ _ Hs) as Hlen.
  assert (Hip : 0 <= i < zlen ps) by (unfold zlen in *; lia). assert (Hjp : 0 <= j < zlen ps) by (unfold zlen in *; lia).
  pose proof (item_lookup ps i Hip) as Hpi. pose proof (item_lookup ps j Hjp) as Hpj.
  destruct (SwapItems_spec lh l ps i j Hl Hip Hjp) as (lh' & E & Hl' & _). unfold Swap. rewrite E.
  pose proof (items_swap_perm ps _ _ _ _ Hpi Hpj) as Hperm.
  exists lh'. eexists. split; [done|]. split; [|exact (zlen_proper _ _ Hperm)].
  split; [exact Hl'|]. split; [by apply (owners_ok_proper h _ _ (Permutation_app_tail G Hperm))|]. unfold text_swap.
  destruct (Forall2_lookup_l _ _ _ _ _ Hs Hpi) as (a & -> & Ha). destruct (Forall2_lookup_l _ _ _ _ _ Hs Hpj) as (b & -> & Hb').
  apply Forall2_insert; [by apply Forall2_insert|done].
Qed.

Definition text_move (ts : list (list Z)) (i : nat) (j : Z) : list (list Z) :=
  match ts !! i with Some a => text_insert (delete i ts) j a | None => ts end.

Lemma Move_spec lh l h ps ts G i j :
  slist lh l h ps ts G -> 0 <= i < zlen ts -> 0 <= j < zlen ts ->
  exists lh' ps', Move lh l i j = Ok (lh', l, true) /\ slist lh' l h ps' (text_move ts (Z.to_nat i) j) G /\ zlen ps' = zlen ps.
Proof.
  intros (Hl & Ho & Hs) Hi Hj. pose proof (strings_len _ _ _ Hs) as Hlen.
  assert (Hip : 0 <= i < zlen ps) by (unfold zlen in *; lia). assert (Hjp : 0 <= j < zlen ps) by (unfold zlen in *; lia).
  pose proof (item_lookup ps i Hip) as Hpi. destruct (MoveItem_spec lh l ps i j Hl Hip Hjp) as (lh' & E & Hl' & _). unfold Move. rewrite E.
  assert (Hperm : BListOps.insert_at (delete (Z.to_nat i) ps) j (item_at ps i) ≡ₚ ps)
    by (rewrite insert_at_perm; symmetry; by apply delete_Permutation).
  exists lh'. eexists. split; [done|]. split; [|exact (zlen_proper _ _ Hperm)]. split; [exact Hl'|].
  split; [by apply (owners_ok_proper h _ _ (Permutation_app_tail G Hperm))|]. unfold text_move.
  destruct (Forall2_lookup_l _ _ _ _ _ Hs Hpi) as (a & -> & Ha & Hsa). apply strings_insert; [by apply Forall2_delete|done|done].
Qed.

(** *** Every string in turn *)

Lemma foreach_loop_spec lh l ps ts G : forall b a h,
  slist lh l h ps ts G -> zlen (ps ++ G) < INT_MAX -> ts = a ++ b ->
  exists h', foreach_loop (length b) (Z.of_nat (length a)) lh l h = Ok (h', b) /\ slist lh l h' ps ts G /\ stays h h' (ps ++ G).
Proof.
  induction b as [|t b IH]; intros a h Hsl Hmax Ets.
  { exists h. split; [done|]. split; [done|apply stays_refl]. }
  cbn [length foreach_loop]. assert (Ht : ts !! length a = Some t) by (rewrite Ets; by apply list_lookup_middle).
  destruct (look_spec lh l h ps ts G (length a) t (fun h p => cstr h (In (String p) 0)) t Hsl Hmax Ht) as (h1 & -> & Hsl1 & Hst1).
  { intros h' p Hp _. rewrite String_data. by apply cstr_reads, holds_reads. }
  cbn [obind]. destruct (IH (a ++ [t]) h1 Hsl1 Hmax) as (h2 & E & Hsl2 & Hst2); [by rewrite <- app_assoc|].
  rewrite length_app in E. cbn [length] in E. replace (Z.of_nat (length a) + 1) with (Z.of_nat (length a + 1)) by lia.
  rewrite E. exists h2. split; [done|]. split; [done|by eapply stays_trans].
Qed.

Lemma texts_DoForEach_spec lh l h ps ts G :
  slist lh l h ps ts G -> zlen (ps ++ G) < INT_MAX ->
  exists h', DoForEach lh l h = Ok (h', ts) /\ slist lh l h' ps ts G /\ stays h h' (ps ++ G).
Proof.
  intros Hsl Hmax. unfold DoForEach. rewrite (slist_count _ _ _ _ _ _ Hsl), Nat2Z.id.
  by apply (foreach_loop_spec lh l ps ts G ts [] h).
Qed.

End Ops.
