(* ===== verification/StringListRun.v ===== *)
(** Sequences of calls on a list of strings, and the round trip through a
    flattened list (kits/support/StringList.cpp). *)

From Stdlib Require Import ZArith Lia List Bool.
From stdpp Require Import base tactics list numbers gmap.
From S2P Require Import Prelude CText Utf8 BList BListOps BString BStringShare StringRefs BStringEdit BStringFind StringList StringListOps.
Local Open Scope Z_scope.
Local Open Scope c_scope.

(** ** Lists of texts *)

(** A string that is passed is given by its data pointer, and by its text for
    the specification. *)
Inductive list_call : Type :=
| LAdd (q : Z) (t : list Z)
| LAddAt (q : Z) (t : list Z) (i : Z)
| LRemoveAt (i : Z)
| LRemove (q : Z) (t : list Z) (ignoreCase : bool)
| LRemoveRange (i n : Z)
| LReplace (i q : Z) (t : list Z)
| LMakeEmpty
| LSwap (i j : Z)
| LMove (i j : Z)
| LStringAt (i : Z)
| LIndexOf (q : Z) (t : list Z) (ignoreCase : bool)
| LCount
| LEach.

Inductive answer : Type :=
| AVoid
| ABool (b : bool)
| AInt (i : Z)
| AText (t : list Z)
| ATexts (ts : list (list Z)).

(** The texts, and how many references the list has lost. *)
Notation texts := (list (list Z) * Z)%type.

Definition in_range (i n : Z) : bool := (0 <=? i) && (i <? n).

Definition text_at (ts : list (list Z)) (i : Z) : list Z := default [] (ts !! Z.to_nat i).

(** The last string is not returned, and is not given up. *)
Definition value_step (s : texts) (c : list_call) : texts * answer :=
  let '(ts, k) := s in
  match c with
  | LAdd _ t => ((ts ++ [t], k), ABool true)
  | LAddAt _ t i => if in_range i (zlen ts + 1) then ((text_insert ts i t, k), ABool true) else (s, ABool false)
  | LRemoveAt i =>
    if i =? zlen ts - 1 then ((delete (Z.to_nat i) ts, k + 1), AText [])
    else ((delete (Z.to_nat i) ts, k), AText (text_at ts i))
  | LRemove _ t ic => ((kept (same_text ic t) ts, k + trailing (same_text ic t) ts), ABool (existsb (same_text ic t) ts))
  | LRemoveRange i n =>
    if i <=? zlen ts then ((range_kept ts i n, if n <? 0 then k + (zlen ts - i) else k), ABool true) else (s, ABool false)
  | LReplace i _ t => if in_range i (zlen ts) then ((<[Z.to_nat i := t]> ts, k), ABool true) else (s, ABool false)
  | LMakeEmpty => (([], k), AVoid)
  | LSwap i j => ((text_swap ts (Z.to_nat i) (Z.to_nat j), k), ABool true)
  | LMove i j => ((text_move ts (Z.to_nat i) j, k), ABool true)
  | LStringAt i => (s, AText (text_at ts i))
  | LIndexOf _ t ic => (s, AInt (match text_index (same_text ic t) ts with Some i => Z.of_nat i | None => -1 end))
  | LCount => (s, AInt (zlen ts))
  | LEach => (s, ATexts ts)
  end.

Fixpoint value_run (s : texts) (cs : list list_call) : texts * list answer :=
  match cs with
  | [] => (s, [])
  | c :: cs =>
    let '(s, a) := value_step s c in
    let '(s, r) := value_run s cs in (s, a :: r)
  end.

(** What a call asks for.  Indices of removing, of exchanging and of looking
    at a string are inside the list; a string that is stored by [Replace] can
    be shared. *)
Definition call_ok (h : sheap) (F : list Z) (s : texts) (c : list_call) : Prop :=
  let n := zlen s.1 in
  match c with
  | LAdd q t | LAddAt q t _ | LRemove q t _ | LIndexOf q t _ => q ∈ F /\ BString.holds h q t
  | LReplace _ q t => q ∈ F /\ BString.holds h q t /\ shareable h q
  | LRemoveAt i | LStringAt i => 0 <= i < n
  | LRemoveRange i m => 0 <= i <= INT_MAX /\ INT_MIN <= m <= INT_MAX
  | LSwap i j | LMove i j => 0 <= i < n /\ 0 <= j < n
  | LMakeEmpty | LCount | LEach => True
  end.

Fixpoint calls_ok (h : sheap) (F : list Z) (s : texts) (cs : list list_call) : Prop :=
  match cs with
  | [] => True
  | c :: cs => call_ok h F s c /\ calls_ok h F (value_step s c).1 cs
  end.

(** The list, with the lost references and the other owners of strings. *)
Definition list_of (lh : heap) (l : blist) (h : sheap) (F : list Z) (s : texts) : Prop :=
  exists ps L, slist lh l h ps s.1 (L ++ F) /\ zlen L = s.2.

Section Run.
Context `{Hr : Realloc} `{!ReallocOk} `{!ReallocStays} `{Hm : Memory} `{!MemoryOk} `{Hb : Members} `{!MembersOk} `{He : StringEq} `{!StringEqOk}.

(** A string that is returned is looked at and deleted. *)
Definition text_of (h : sheap) (p : Z) : outcome (sheap * answer) :=
  t <- cstr h (In (String p) 0);; h <- BString_delete h p;; Ok (h, AText t).

Definition list_step (lh : heap) (l : blist) (h : sheap) (c : list_call) : outcome (heap * blist * sheap * answer) :=
  let bool m := let! (lh, l, h, b) := m in Ok (lh, l, h, ABool b) in
  match c with
  | LAdd q _ => bool (Add lh l h q)
  | LAddAt q _ i => bool (Add_at lh l h q i)
  | LRemoveAt i => let! (lh, l, h, p) := Remove_at lh l h i in let! (h, a) := text_of h p in Ok (lh, l, h, a)
  | LRemove q _ ic => bool (Remove lh l h q ic)
  | LRemoveRange i n => bool (Remove_range lh l h i n)
  | LReplace i q _ => bool (Replace lh l h i q)
  | LMakeEmpty => let! (lh, l, h) := MakeEmpty lh l h in Ok (lh, l, h, AVoid)
  | LSwap i j => let! (lh, l, b) := Swap lh l i j in Ok (lh, l, h, ABool b)
  | LMove i j => let! (lh, l, b) := Move lh l i j in Ok (lh, l, h, ABool b)
  | LStringAt i => let! (h, p) := StringAt lh l h i in let! (h, a) := text_of h p in Ok (lh, l, h, a)
  | LIndexOf q _ ic => let! (h, i) := IndexOf lh l h q ic in Ok (lh, l, h, AInt i)
  | LCount => Ok (lh, l, h, AInt (CountStrings l))
  | LEach => let! (h, ts) := DoForEach lh l h in Ok (lh, l, h, ATexts ts)
  end.

Fixpoint list_run (lh : heap) (l : blist) (h : sheap) (cs : list list_call) : outcome (heap * blist * sheap * list answer) :=
  match cs with
  | [] => Ok (lh, l, h, [])
  | c :: cs =>
    let! (lh, l, h, a) := list_step lh l h c in
    let! (lh, l, h, r) := list_run lh l h cs in Ok (lh, l, h, a :: r)
  end.

Lemma text_of_spec h O p t : owners_ok h (p :: O) -> shareable h p -> BString.holds h p t ->
  exists h', text_of h p = Ok (h', AText t) /\ owners_ok h' O /\ stays h h' O.
Proof.
  intros Ho Hs Ht. unfold text_of. rewrite String_data, (cstr_reads h _ t) by (by apply holds_reads). cbn [obind].
  destruct (BString_delete_spec h O p Ho Hs) as (h' & -> & Hres). by exists h'.
Qed.

(** What a step has to show. *)
Definition steps_to (F : list Z) (h : sheap) (s : texts) (c : list_call) (r : outcome (heap * blist * sheap * answer)) : Prop :=
  exists lh' l' h', r = Ok (lh', l', h', (value_step s c).2) /\ list_of lh' l' h' F (value_step s c).1 /\ stays h h' F
    /\ zlen (value_step s c).1.1 + (value_step s c).1.2 <= zlen s.1 + s.2 + 1.

Lemma slist_zlen lh l h ps ts G : slist lh l h ps ts G -> zlen ps = zlen ts.
Proof. intros (_ & _ & Hs). unfold zlen. by rewrite (strings_len _ _ _ Hs). Qed.

Lemma stays_right h h' L F : stays h h' (L ++ F) -> stays h h' F.
Proof. intros Hst. eapply stays_incl; [exact Hst|intros x; apply app_in_right]. Qed.

Lemma text_insert_end ts t : text_insert ts (zlen ts) t = ts ++ [t].
Proof. unfold text_insert, zlen. by rewrite Nat2Z.id, take_ge, drop_ge by lia. Qed.

Lemma zlen_text_insert ts i t : zlen (text_insert ts i t) = zlen ts + 1.
Proof. unfold text_insert. rewrite zlen_app, zlen_cons. rewrite <- (take_drop (Z.to_nat i) ts) at 3. rewrite zlen_app. lia. Qed.

Lemma add_step add lh l h F ps L ts q t i : ~ exhausted ->
  slist lh l h ps ts (L ++ F) -> q ∈ F -> BString.holds h q t -> zlen ts + zlen L + zlen F + 3 < INT_MAX ->
  (forall p, exists lh' l', add lh l p = Ok (lh', l', true) /\ BList.holds lh' l' (BListOps.insert_at ps i p)) ->
  exists lh' l' h', add_with add lh l h q = Ok (lh', l', h', true)
    /\ list_of lh' l' h' F (text_insert ts i t, zlen L) /\ stays h h' F.
Proof.
  intros Hex Hsl Hq Ht Hmax Hadd.
  destruct (add_with_spec add lh l h ps ts (L ++ F) q t i Hex Hsl Hadd) as (lh' & l' & h' & p & E & Hsl' & Hst);
    [by apply app_in_right, app_in_right|done|rewrite !zlen_app, (slist_zlen _ _ _ _ _ _ Hsl); lia|].
  exists lh', l', h'. split; [done|]. split; [by exists (BListOps.insert_at ps i p), L|]. by eapply stays_right, stays_right.
Qed.

(** [Add] at an index outside the list. *)
Lemma add_refused lh l h F ps L ts q t i : ~ exhausted ->
  slist lh l h ps ts (L ++ F) -> q ∈ F -> BString.holds h q t -> zlen ts + zlen L + zlen F + 3 < INT_MAX ->
  in_range i (zlen ts + 1) = false ->
  exists h', Add_at lh l h q i = Ok (lh, l, h', false) /\ list_of lh l h' F (ts, zlen L) /\ stays h h' F.
Proof.
  intros Hex Hsl Hq Ht Hmax Hi. pose proof Hsl as (Hl & Ho & Hs). unfold Add_at, add_with.
  destruct (copy_made h _ q t Ho) as [(h1 & p & -> & Ho1 & Hp1 & Hs1 & Hst1)|?];
    [by apply app_in_right, app_in_right|done|rewrite !zlen_app, (slist_zlen _ _ _ _ _ _ Hsl); lia| |done].
  cbn [obind]. rewrite (Length_holds h1 p t Hp1), (Length_holds h1 q t)
    by (eapply stays_holds; [exact Hst1|by apply app_in_right, app_in_right|done]). cbn [obind].
  rewrite Z.eqb_refl. cbn [negb]. unfold AddItem_at. rewrite (holds_count _ _ _ Hl), (slist_zlen _ _ _ _ _ _ Hsl).
  replace ((i <? 0) || (zlen ts <? i)) with true by (unfold in_range in Hi; symmetry; destruct (Z.ltb_spec i 0), (Z.ltb_spec (zlen ts) i);
    cbn [orb]; try done; exfalso; revert Hi; rewrite (proj2 (Z.leb_le 0 i)), (proj2 (Z.ltb_lt i _)) by lia; done).
  cbn [obind negb]. destruct (BString_delete_spec h1 _ p Ho1 Hs1) as (h2 & -> & Ho2 & Hst2). cbn [obind].
  pose proof (stays_trans _ _ _ _ Hst1 Hst2) as Hst. exists h2. split; [done|]. split; [|by eapply stays_right, stays_right].
  exists ps, L. split; [|done]. eapply slist_stays; [done|done|exact Hst|intros x; apply in_left].
Qed.

Lemma remove_at_step lh l h F ps L ts i : ~ exhausted ->
  slist lh l h ps ts (L ++ F) -> zlen ts + zlen L + zlen F + 3 < INT_MAX -> 0 <= i < zlen ts ->
  steps_to F h (ts, zlen L) (LRemoveAt i) (list_step lh l h (LRemoveAt i)).
Proof.
  intros Hex Hsl Hmax Hi. pose proof (slist_zlen _ _ _ _ _ _ Hsl) as Hz. unfold steps_to. cbn [list_step value_step fst snd].
  destruct (lookup_lt_is_Some_2 ts (Z.to_nat i)) as (t & Et); [unfold zlen in Hi; lia|].
  destruct (Remove_at_spec lh l h ps ts (L ++ F) (Z.to_nat i) t Hex Hsl) as (lh' & l' & h1 & p & r & E & Hl' & Ho1 & Hs1 & Hst1 & Hr1 & Ht1);
    [rewrite !zlen_app; lia|done|]. rewrite Z2Nat.id in E by lia. rewrite E. cbn [obind].
  destruct (text_of_spec h1 _ r _ Ho1 Hr1 Ht1) as (h2 & -> & Ho2 & Hst2). cbn [obind].
  assert (Hst : stays h h2 F).
  { eapply stays_trans; [by eapply stays_right|]. eapply stays_incl; [exact Hst2|]. intros x Hx. rewrite !elem_of_app. auto. }
  exists lh', l', h2. pose proof (zlen_lost (Z.to_nat i) ps p) as Hlost. pose proof (zlen_delete ts _ _ Et).
  assert (Hsl' : slist lh' l' h2 (delete (Z.to_nat i) ps) (delete (Z.to_nat i) ts) ((lost (Z.to_nat i) ps p ++ L) ++ F)).
  { split; [done|]. split; [by rewrite <- !app_assoc|]. eapply strings_stays; [exact Hst2|intros x; apply in_left|done]. }
  assert (Ei : (i =? zlen ts - 1) = bool_decide (S (Z.to_nat i) = length ps)).
  { unfold zlen in *. case_bool_decide; [apply Z.eqb_eq; lia|apply Z.eqb_neq; lia]. }
  rewrite Ei in *. destruct (bool_decide_reflect (S (Z.to_nat i) = length ps)) as [El|El]; cbn [fst snd].
  - rewrite decide_True by (unfold zlen in *; lia). split; [done|]. split; [|split; [done|lia]].
    eexists _, _. split; [exact Hsl'|]. rewrite zlen_app, Hlost. cbn [snd]. lia.
  - rewrite decide_False by (unfold zlen in *; lia). split; [unfold text_at; by rewrite Et|]. split; [|split; [done|lia]].
    eexists _, _. split; [exact Hsl'|]. rewrite zlen_app, Hlost. done.
Qed.

Lemma string_at_step lh l h F ps L ts i :
  slist lh l h ps ts (L ++ F) -> zlen ts + zlen L + zlen F + 3 < INT_MAX -> 0 <= i < zlen ts ->
  steps_to F h (ts, zlen L) (LStringAt i) (list_step lh l h (LStringAt i)).
Proof.
  intros Hsl Hmax Hi. pose proof (slist_zlen _ _ _ _ _ _ Hsl) as Hz. unfold steps_to. cbn [list_step value_step fst snd].
  destruct (lookup_lt_is_Some_2 ts (Z.to_nat i)) as (t & Et); [unfold zlen in Hi; lia|]. pose proof Hsl as (_ & Ho & _).
  destruct (StringAt_spec lh l h ps ts (L ++ F) _ (Z.to_nat i) t Hsl Ho) as (h1 & E & Ho1 & Hh1 & Hs1 & Hst1);
    [intros x; apply in_left|rewrite !zlen_app; lia|done|]. rewrite Z2Nat.id in * by lia. rewrite E. cbn [obind].
  destruct (text_of_spec h1 _ _ t Ho1 Hs1 Hh1) as (h2 & -> & Ho2 & Hst2). cbn [obind].
  pose proof (stays_trans _ _ _ _ Hst1 Hst2) as Hst. exists lh, l, h2. unfold text_at. rewrite Et. split; [done|].
  split; [exists ps, L; split; [|done]|split; [by eapply stays_right, stays_right|lia]].
  eapply slist_stays; [done|done|exact Hst|intros x; apply in_left].
Qed.

Lemma value_range {A} (ts : list A) i n : 0 <= i -> zlen (range_kept ts i n) <= zlen ts /\ (n < 0 -> i <= zlen ts -> zlen (range_kept ts i n) = i).
Proof.
  intros Hi. unfold range_kept, zlen. rewrite length_app, length_take. destruct (Z.ltb_spec n 0); [cbn [length]; lia|].
  rewrite length_drop. lia.
Qed.

Lemma remove_steps lh l h F ps L ts c : ~ exhausted ->
  slist lh l h ps ts (L ++ F) -> zlen ts + zlen L + zlen F + 3 < INT_MAX -> call_ok h F (ts, zlen L) c ->
  match c with LRemove _ _ _ | LRemoveRange _ _ | LMakeEmpty | LReplace _ _ _ => True | _ => False end ->
  steps_to F h (ts, zlen L) c (list_step lh l h c).
Proof.
  intros Hex Hsl Hmax Hok Hc. pose proof (slist_zlen _ _ _ _ _ _ Hsl) as Hz. unfold steps_to.
  destruct c as [| | |q t ic|i n|i q t| | | | | | |]; try done; cbn [list_step value_step call_ok fst snd] in *.
  - destruct Hok as [Hq Ht].
    destruct (texts_Remove_spec lh l h ps ts (L ++ F) q t ic Hex Hsl) as (lh' & l' & h' & ps' & L' & -> & Hsl' & Hst & HL & Hle);
      [rewrite !zlen_app; lia|by apply app_in_right|done|]. cbn [obind]. exists lh', l', h'. split; [done|].
    rewrite <- HL. rewrite app_assoc in Hsl'. split; [|split; [by eapply stays_right|]].
    + exists ps', (L' ++ L). rewrite zlen_app. split; [done|cbn [snd]; lia].
    + rewrite <- (slist_zlen _ _ _ _ _ _ Hsl'). cbn [snd]. lia.
  - destruct Hok as [Hi Hn]. destruct (Remove_range_spec lh l h ps ts (L ++ F) i n Hsl Hi Hn) as (lh' & l' & h' & ps' & L' & -> & Hsl' & Hst & HL & Hle).
    cbn [obind]. exists lh', l', h'. rewrite app_assoc in Hsl'. destruct (value_range ts i n) as [Hv1 Hv2]; [lia|].
    destruct (Z.leb_spec i (zlen ts)); cbn [andb fst snd] in *; (split; [done|]); (split; [|split; [by eapply stays_right|]]).
    + exists ps', (L' ++ L). rewrite zlen_app, HL. split; [done|]. cbn [snd]. destruct (n <? 0); lia.
    + destruct (Z.ltb_spec n 0); lia.
    + exists ps', (L' ++ L). rewrite zlen_app, HL. split; [done|cbn [snd]; lia].
    + lia.
  - destruct Hok as (Hq & Ht & Hsh). destruct (in_range i (zlen ts)) eqn:Ei; cbn [fst snd].
    + unfold in_range in Ei. apply andb_true_iff in Ei as [Ei1%Z.leb_le Ei2%Z.ltb_lt].
      destruct (texts_Replace_spec lh l h ps ts (L ++ F) i q t Hsl) as (lh' & l' & h' & ps' & -> & Hsl' & Hst & Hle);
        [by apply app_in_right|done|done|rewrite !zlen_app; lia|lia|]. cbn [obind]. exists lh', l', h'. split; [done|].
      split; [by exists ps', L|]. split; [by eapply stays_right|]. rewrite <- (slist_zlen _ _ _ _ _ _ Hsl'). cbn [snd]. lia.
    + unfold Replace. rewrite (slist_count _ _ _ _ _ _ Hsl). unfold in_range, zlen in Ei.
      replace ((i <? 0) || (Z.of_nat (length ts) <=? i)) with true by (symmetry; revert Ei;
        destruct (Z.leb_spec 0 i), (Z.ltb_spec i (Z.of_nat (length ts))), (Z.ltb_spec i 0), (Z.leb_spec (Z.of_nat (length ts)) i); cbn; (done || lia)).
      cbn [obind]. exists lh, l, h. split; [done|]. split; [by exists ps, L|]. split; [apply stays_refl|lia].
  - destruct (MakeEmpty_spec lh l h ps ts (L ++ F) Hsl) as (lh' & l' & h' & -> & Hsl' & Hst). cbn [obind]. exists lh', l', h'.
    split; [done|]. split; [by exists [], L|]. split; [by eapply stays_right|]. change (zlen (@nil (list Z))) with 0.
    pose proof (zlen_nonneg ts). lia.
Qed.

Lemma text_swap_zlen ts i j : zlen (text_swap ts i j) = zlen ts.
Proof. unfold text_swap, zlen. destruct (ts !! i), (ts !! j); rewrite ?length_insert; done. Qed.

Lemma text_move_zlen ts i j : zlen (text_move ts i j) = zlen ts.
Proof.
  unfold text_move. destruct (ts !! i) as [a|] eqn:E; [|done]. rewrite zlen_text_insert, (zlen_delete ts i a E). lia.
Qed.

Lemma list_step_spec lh l h F s c : ~ exhausted -> ~ list_exhausted ->
  list_of lh l h F s -> zlen s.1 + s.2 + zlen F + 4 < INT_MAX -> call_ok h F s c ->
  steps_to F h s c (list_step lh l h c).
Proof.
  intros Hex Hlex (ps & L & Hsl & HL) Hmax Hok. destruct s as [ts k]. cbn [fst snd] in *. subst k.
  pose proof (slist_zlen _ _ _ _ _ _ Hsl) as Hz. pose proof Hsl as (Hl & _). pose proof (zlen_nonneg F). pose proof (zlen_nonneg L).
  assert (Hroom : zlen ps < MAX_LIST_COUNT) by (unfold INT_MAX, MAX_LIST_COUNT, B_MAXINT32 in *; lia).
  destruct c as [q t|q t i|i|q t ic|i n|i q t| |i j|i j|i|q t ic| |];
    try (apply (remove_steps lh l h F ps L ts); done || lia); cbn [call_ok fst snd] in Hok.
  - destruct Hok as [Hq Ht]. unfold steps_to. cbn [list_step value_step fst snd].
    destruct (add_step BList.AddItem lh l h F ps L ts q t (zlen ts) Hex Hsl Hq Ht) as (lh' & l' & h' & E & Hlo & Hst); [lia| |].
    { intros p. rewrite <- Hz, insert_at_end. destruct (AddItem_runs lh l ps p Hlex Hl Hroom) as (lh' & l' & E & Hl' & _). eauto. }
    unfold Add. rewrite E. cbn [obind]. rewrite text_insert_end in Hlo. exists lh', l', h'. rewrite zlen_snoc. split; [done|]. split; [done|]. split; [done|lia].
  - destruct Hok as [Hq Ht]. unfold steps_to. cbn [list_step value_step fst snd]. destruct (in_range i (zlen ts + 1)) eqn:Ei; cbn [fst snd].
    + unfold in_range in Ei. apply andb_true_iff in Ei as [Ei1%Z.leb_le Ei2%Z.ltb_lt].
      destruct (add_step (fun lh l p => BList.AddItem_at lh l p i) lh l h F ps L ts q t i Hex Hsl Hq Ht) as (lh' & l' & h' & E & Hlo & Hst); [lia| |].
      { intros p. destruct (AddItem_at_runs lh l ps p i Hlex Hl Hroom) as (lh' & l' & E & Hl' & _); [lia|]. eauto. }
      unfold Add_at. rewrite E. cbn [obind]. exists lh', l', h'. rewrite zlen_text_insert. split; [done|]. split; [done|]. split; [done|lia].
    + destruct (add_refused lh l h F ps L ts q t i Hex Hsl Hq Ht) as (h' & -> & Hlo & Hst); [lia|done|]. cbn [obind].
      exists lh, l, h'. split; [done|]. split; [done|]. split; [done|lia].
  - apply (remove_at_step lh l h F ps L ts); done || lia.
  - destruct Hok as [Hi Hj]. unfold steps_to. cbn [list_step value_step fst snd].
    destruct (Swap_spec lh l h ps ts (L ++ F) i j Hsl Hi Hj) as (lh' & ps' & -> & Hsl' & _). cbn [obind]. exists lh', l, h.
    rewrite text_swap_zlen. split; [done|]. split; [by exists ps', L|]. split; [apply stays_refl|lia].
  - destruct Hok as [Hi Hj]. unfold steps_to. cbn [list_step value_step fst snd].
    destruct (Move_spec lh l h ps ts (L ++ F) i j Hsl Hi Hj) as (lh' & ps' & -> & Hsl' & _). cbn [obind]. exists lh', l, h.
    rewrite text_move_zlen. split; [done|]. split; [by exists ps', L|]. split; [apply stays_refl|lia].
  - apply (string_at_step lh l h F ps L ts); done || lia.
  - destruct Hok as [Hq Ht]. unfold steps_to. cbn [list_step value_step fst snd].
    destruct (texts_IndexOf_spec lh l h ps ts (L ++ F) q t ic Hsl) as (h' & -> & Hsl' & Hst); [rewrite !zlen_app; lia|by apply app_in_right|done|].
    cbn [obind]. exists lh, l, h'. split; [done|]. split; [by exists ps, L|]. split; [by eapply stays_right, stays_right|lia].
  - unfold steps_to. cbn [list_step value_step fst snd]. unfold CountStrings. rewrite (slist_count _ _ _ _ _ _ Hsl). exists lh, l, h.
    split; [done|]. split; [by exists ps, L|]. split; [apply stays_refl|lia].
  - unfold steps_to. cbn [list_step value_step fst snd].
    destruct (texts_DoForEach_spec lh l h ps ts (L ++ F) Hsl) as (h' & -> & Hsl' & Hst); [rewrite !zlen_app; lia|]. cbn [obind].
    exists lh, l, h'. split; [done|]. split; [by exists ps, L|]. split; [by eapply stays_right, stays_right|lia].
Qed.

Lemma call_ok_stays h h' F s c : stays h h' F -> call_ok h F s c -> call_ok h' F s c.
Proof.
  intros Hst. pose proof Hst as [_ Hsh].
  destruct c; cbn [call_ok]; try done; [intros [Hq Ht]|intros [Hq Ht]|intros [Hq Ht]|intros (Hq & Ht & Hs)|intros [Hq Ht]];
    repeat split; try done; (by eapply stays_holds) || by apply Hsh.
Qed.

Lemma calls_ok_stays h h' F cs : stays h h' F -> forall s, calls_ok h F s cs -> calls_ok h' F s cs.
Proof. intros Hst. induction cs as [|c cs IH]; intros s; [done|]. intros [Hc Hcs]. split; [by eapply call_ok_stays|by apply IH]. Qed.

(** C21: a list of strings without a minimum count behaves as a list of texts:
    for every sequence of calls that add, remove (by index, by text with and
    without case, by range), replace, move and exchange strings, empty the
    list, search it and go through it, the answers are those of the texts -
    where each call meets its conditions ([call_ok]): an index to remove, look
    at, exchange or move is inside the list (an index outside it is refused by
    [Add] and [Replace], and a range may begin behind the end, but not before
    0); a string that is passed is one the caller owns, and one that
    [Replace] stores has no locked buffer (see [Replace_locked]); strings,
    lost references and calls are together fewer than INT_MAX; memory is not
    refused, neither to the strings nor to the list; and [realloc] of a block
    that need not grow answers with the same address.  C does not promise the
    last ([ReallocStays]): the list's array is shrunk without looking at the
    answer, and where it moves the list is left with a freed pointer, as
    [blist_refines] says.  [==] and [!=] of strings, which are not part of the
    repository, compare the texts.
    Every string of the list counts as one owner of its block; the strings
    that the caller holds, which may share their blocks with the list's, stay
    as they are.  A string that is removed by its index while it is the last
    one is answered with an empty text, and then, as by a range with a
    negative count and by removing the last string by its text, the list loses
    a reference for good: the specification has these answers and counts the
    losses. *)
Theorem string_list_refines lh l h F s cs :
  ~ exhausted -> ~ list_exhausted ->
  list_of lh l h F s -> zlen s.1 + s.2 + zlen F + zlen cs + 3 < INT_MAX -> calls_ok h F s cs ->
  exists lh' l' h', list_run lh l h cs = Ok (lh', l', h', (value_run s cs).2)
    /\ list_of lh' l' h' F (value_run s cs).1 /\ stays h h' F.
Proof.
  intros Hex Hlex. revert lh l h s. induction cs as [|c cs IH]; intros lh l h s Hlo Hmax Hok.
  { exists lh, l, h. split; [done|]. split; [done|apply stays_refl]. }
  destruct Hok as [Hc Hcs]. rewrite zlen_cons in Hmax. pose proof (zlen_nonneg cs).
  destruct (list_step_spec lh l h F s c Hex Hlex Hlo) as (lh1 & l1 & h1 & E1 & Hlo1 & Hst1 & Hle); [lia|done|].
  cbn [list_run value_run]. rewrite E1. cbn [obind]. destruct (value_step s c) as [s1 a]. cbn [fst snd] in *.
  destruct (IH lh1 l1 h1 s1 Hlo1) as (lh2 & l2 & h2 & -> & Hlo2 & Hst2); [lia|by eapply calls_ok_stays|].
  cbn [obind]. destruct (value_run s1 cs) as [s2 r]. cbn [fst snd] in *.
  exists lh2, l2, h2. split; [done|]. split; [done|by eapply stays_trans].
Qed.

(** ** Flattening *)

(** Each text with its terminator. *)
Definition flat (ts : list (list Z)) : list Z := concat (map (fun t => t ++ [0]) ts).

Lemma flat_cons t ts : flat (t :: ts) = t ++ 0 :: flat ts.
Proof. unfold flat. cbn [map concat]. by rewrite <- app_assoc. Qed.

Lemma size_loop_spec lh l ps ts G : forall b a h size,
  slist lh l h ps ts G -> zlen (ps ++ G) < INT_MAX -> Forall (fun t => zlen t < INT_MAX) b -> ts = a ++ b ->
  exists h', size_loop (length b) (Z.of_nat (length a)) lh l h size = Ok (h', size + zlen (flat b))
    /\ slist lh l h' ps ts G /\ stays h h' (ps ++ G).
Proof.
  induction b as [|t b IH]; intros a h size Hsl Hmax Hlen Ets; cbn [length size_loop].
  { exists h. change (zlen (flat [])) with 0. rewrite Z.add_0_r. split; [done|]. split; [done|apply stays_refl]. }
  inversion Hlen as [|? ? Ht Hlen']; subst. pose proof (zlen_nonneg t).
  destruct (look_spec lh l h ps (a ++ t :: b) G (length a) t Length (zlen t) Hsl Hmax) as (h1 & -> & Hsl1 & Hst1);
    [by apply list_lookup_middle|intros; by apply Length_holds|].
  cbn [obind]. rewrite add_int_ok by (unfold INT_MIN, INT_MAX in *; lia). cbn [obind].
  destruct (IH (a ++ [t]) h1 (size + (zlen t + 1)) Hsl1 Hmax Hlen') as (h2 & E & Hsl2 & Hst2); [by rewrite <- app_assoc|].
  rewrite length_app in E. cbn [length] in E. replace (Z.of_nat (length a) + 1) with (Z.of_nat (length a + 1)) by lia.
  rewrite E, flat_cons, zlen_app, zlen_cons. exists h2. split; [do 2 f_equal; lia|]. split; [done|by eapply stays_trans].
Qed.

(** The bytes of an item, with the terminator. *)
Lemma item_bytes h p t : BString.holds h p t ->
  exists src, BString.cells h (In p 0) = Ok src /\ rdn src 0 (zlen t + 1) = Ok (map Some (t ++ [0])).
Proof.
  intros (Ht & b & rest & E & L & D). unfold BString.cells. rewrite E. cbn [obind].
  pose proof (zlen_nonneg (data b)). rewrite from_ok by lia. rewrite drop_0, D. eexists. split; [done|].
  rewrite map_app. cbn [map]. change (Some 0 :: rest) with ([Some 0] ++ rest). rewrite app_assoc.
  apply (rdn_mid []); [done|]. rewrite zlen_snoc, zlen_map. done.
Qed.

Lemma flatten_loop_spec lh l ps ts G : forall b a h done_ rest,
  slist lh l h ps ts G -> zlen (ps ++ G) < INT_MAX -> Forall (fun t => zlen t < INT_MAX) b -> ts = a ++ b ->
  zlen (flat b) <= zlen rest ->
  exists h', flatten_loop (length b) (Z.of_nat (length a)) lh l h (map Some done_ ++ rest) (zlen done_)
      = Ok (h', map Some (done_ ++ flat b) ++ drop (length (flat b)) rest)
    /\ slist lh l h' ps ts G /\ stays h h' (ps ++ G).
Proof.
  induction b as [|t b IH]; intros a h done_ rest Hsl Hmax Hlen Ets Hrest; cbn [length flatten_loop].
  { exists h. change (flat []) with (@nil Z). rewrite app_nil_r, drop_0. split; [done|]. split; [done|apply stays_refl]. }
  inversion Hlen as [|? ? Ht Hlen']; subst. pose proof (zlen_nonneg t). pose proof Hsl as (_ & Ho & _).
  rewrite flat_cons in *. rewrite zlen_app, zlen_cons in Hrest. pose proof (zlen_nonneg (flat b)).
  destruct (StringAt_spec lh l h ps (a ++ t :: b) G (ps ++ G) (length a) t Hsl Ho) as (h1 & -> & Ho1 & Hh1 & Hs1 & Hst1);
    [intros x; apply in_left|done|by apply list_lookup_middle|]. set (p := item_at ps _) in *.
  cbn [obind]. rewrite (Length_holds h1 p t Hh1). cbn [obind]. rewrite add_int_ok by (unfold INT_MIN, INT_MAX in *; lia). cbn [obind].
  rewrite String_data. destruct (item_bytes h1 p t Hh1) as (src & -> & Ex). cbn [obind]. rewrite Ex. cbn [obind].
  rewrite <- (take_drop (length (t ++ [0])) rest).
  rewrite (wrn_mid (map Some done_) (take (length (t ++ [0])) rest)); [|by rewrite zlen_map|].
  2: { rewrite length_map, length_take. unfold zlen in *. rewrite length_app. cbn [length]. lia. }
  cbn [obind]. destruct (BString_delete_spec h1 _ p Ho1 Hs1) as (h2 & -> & Ho2 & Hst2). cbn [obind].
  pose proof (stays_trans _ _ _ _ Hst1 Hst2) as Hst.
  assert (Hsl2 : slist lh l h2 ps (a ++ t :: b) G) by (eapply slist_stays; [done|done|exact Hst|intros x; apply in_left]).
  rewrite app_assoc, <- map_app.
  destruct (IH (a ++ [t]) h2 (done_ ++ t ++ [0]) (drop (length (t ++ [0])) rest) Hsl2 Hmax Hlen') as (h3 & E & Hsl3 & Hst3);
    [by rewrite <- app_assoc|unfold zlen in *; rewrite length_drop, length_app; cbn [length]; lia|].
  rewrite length_app in E. cbn [length] in E. replace (Z.of_nat (length a) + 1) with (Z.of_nat (length a + 1)) by lia.
  replace (zlen done_ + (zlen t + 1)) with (zlen (done_ ++ t ++ [0])) by (rewrite !zlen_app; change (zlen [0]) with 1; lia).
  rewrite E. exists h3. split; [|split; [done|by eapply stays_trans]]. do 2 f_equal.
  rewrite drop_drop, take_drop. f_equal; [f_equal; by rewrite <- !app_assoc|]. f_equal. rewrite !length_app. cbn [length]. lia.
Qed.

Lemma Flatten_spec lh l h ps ts G buf size :
  slist lh l h ps ts G -> zlen (ps ++ G) < INT_MAX -> Forall (fun t => zlen t < INT_MAX) ts ->
  zlen (flat ts) <= size -> size <= zlen buf ->
  exists h', Flatten lh l h buf size = Ok (h', map Some (flat ts) ++ drop (length (flat ts)) buf, B_OK)
    /\ slist lh l h' ps ts G /\ stays h h' (ps ++ G).
Proof.
  intros Hsl Hmax Hlen Hs Hbuf. unfold Flatten, FlattenedSize, CountStrings. rewrite (slist_count _ _ _ _ _ _ Hsl), Nat2Z.id.
  destruct (size_loop_spec lh l ps ts G ts [] h 0 Hsl Hmax Hlen eq_refl) as (h1 & E1 & Hsl1 & Hst1).
  change (Z.of_nat (length (@nil (list Z)))) with 0 in E1. rewrite E1. cbn [obind]. rewrite Z.add_0_l, (proj2 (Z.ltb_ge _ _)) by lia.
  destruct (flatten_loop_spec lh l ps ts G ts [] h1 [] buf Hsl1 Hmax Hlen eq_refl) as (h2 & E2 & Hsl2 & Hst2); [lia|].
  change (Z.of_nat (length (@nil (list Z)))) with 0 in E2. cbn [map app] in E2. change (zlen (@nil Z)) with 0 in E2. rewrite E2. cbn [obind].
  exists h2. split; [done|]. split; [done|by eapply stays_trans].
Qed.

(** The text at an offset of a buffer. *)
Lemma text_buffer h pre m : text h (Ext (pre ++ m) (zlen pre)) = Ok m.
Proof.
  unfold text, BString.cells. pose proof (zlen_nonneg pre). pose proof (zlen_nonneg m).
  rewrite from_ok by (rewrite zlen_app; lia). cbn [obind]. unfold zlen. rewrite Nat2Z.id, drop_app_length.
  by rewrite <- (app_nil_r (map Some m)), known_app, app_nil_r.
Qed.

Lemma unflatten_loop_spec r : ~ exhausted -> ~ list_exhausted -> forall b fuel lh l h ps ts G pre,
  slist lh l h ps ts G -> Forall (fun t => cstr_ok t /\ zlen t < INT_MAX) b ->
  zlen (flat b) < Z.of_nat fuel -> zlen ps + zlen b + zlen G + 3 < INT_MAX ->
  exists lh' l' h' ps', unflatten_loop fuel lh l h (pre ++ flat b ++ r) (zlen pre + zlen (flat b)) (zlen pre) = Ok (lh', l', h', B_OK)
    /\ slist lh' l' h' ps' (ts ++ b) G /\ stays h h' G.
Proof.
  intros Hex Hlex. induction b as [|t b IH]; intros [|fuel] lh l h ps ts G pre Hsl Hb' Hf Hmax;
    [change (zlen (flat [])) with 0 in Hf; lia| |pose proof (zlen_nonneg (flat (t :: b))); lia|]; cbn [unflatten_loop].
  { change (zlen (flat [])) with 0. rewrite Z.add_0_r, Z.ltb_irrefl. exists lh, l, h, ps. rewrite app_nil_r.
    split; [done|]. split; [done|apply stays_refl]. }
  inversion Hb' as [|? ? [Ht Hlen] Hb'']; subst. rewrite flat_cons in *. rewrite zlen_app, zlen_cons in *. rewrite (zlen_cons t b) in Hmax.
  pose proof (zlen_nonneg t). pose proof (zlen_nonneg (flat b)). pose proof (zlen_nonneg b). pose proof Hsl as (Hl & Ho & _).
  rewrite (proj2 (Z.ltb_lt (zlen pre) _)) by lia. rewrite <- app_assoc. cbn [app]. rewrite text_buffer. cbn [obind].
  rewrite strnlen_cstr by done. rewrite Z2Nat.id, Z.min_r by lia. cbn [obind]. rewrite (proj2 (Z.eqb_neq (zlen t) _)) by lia.
  destruct (cstr_made h (ps ++ G) (Ext (pre ++ t ++ 0 :: flat b ++ r) (zlen pre)) t Ho) as [(h1 & p & -> & Ho1 & Hp1 & Hs1 & Hst1)|?];
    [split; [done|]; eexists; apply text_buffer|done|lia| |done]. cbn [obind].
  assert (Hsl1 : slist lh l h1 ps ts (p :: G)).
  { split; [done|]. split; [by rewrite <- Permutation_middle|]. eapply strings_stays; [exact Hst1|intros x; apply in_left|apply Hsl]. }
  assert (Hroom : zlen ps < MAX_LIST_COUNT) by (pose proof (zlen_nonneg G); unfold INT_MAX, MAX_LIST_COUNT, B_MAXINT32 in *; lia).
  destruct (add_with_spec BList.AddItem lh l h1 ps ts (p :: G) p t (zlen ps) Hex Hsl1) as (lh2 & l2 & h2 & q & E & Hsl2 & Hst2).
  { intros x. rewrite insert_at_end. destruct (AddItem_runs lh l ps x Hlex Hl Hroom) as (lh' & l' & E & Hl' & _). eauto. }
  { apply app_in_right. by left. }
  { done. }
  { rewrite zlen_app, zlen_cons. lia. }
  unfold Add. rewrite E. cbn [obind]. rewrite (slist_zlen _ _ _ _ _ _ Hsl), text_insert_end, <- (slist_zlen _ _ _ _ _ _ Hsl) in Hsl2.
  rewrite insert_at_end in Hsl2. destruct Hsl2 as (Hl2 & Ho2 & Hs2). rewrite <- Permutation_middle in Ho2.
  destruct (BString_delete_spec h2 _ p Ho2) as (h3 & -> & Ho3 & Hst3); [apply Hst2; [by apply app_in_right; left|done]|]. cbn [obind negb].
  assert (Hsl3 : slist lh2 l2 h3 (ps ++ [q]) (ts ++ [t]) G).
  { split; [done|]. split; [done|]. eapply strings_stays; [exact Hst3|intros x; apply in_left|done]. }
  destruct (IH fuel lh2 l2 h3 _ _ G (pre ++ t ++ [0]) Hsl3 Hb'') as (lh4 & l4 & h4 & ps4 & E4 & Hsl4 & Hst4); [lia|rewrite zlen_snoc; lia|].
  rewrite !zlen_app in E4. change (zlen [0]) with 1 in E4. rewrite <- !app_assoc in E4. cbn [app] in E4.
  replace (zlen pre + (zlen t + 1) + zlen (flat b)) with (zlen pre + (zlen t + (zlen (flat b) + 1))) in E4 by lia. rewrite E4.
  exists lh4, l4, h4, ps4. rewrite <- app_assoc in Hsl4. split; [done|]. split; [done|].
  eapply stays_trans; [eapply stays_right; exact Hst1|].
  eapply stays_trans; [eapply stays_incl; [exact Hst2|intros x Hx; apply app_in_right; by right]|].
  eapply stays_trans; [eapply stays_right; exact Hst3|done].
Qed.

Lemma strings_cstr h ps ts : strings h ps ts -> Forall (fun t => zlen t < INT_MAX) ts -> Forall (fun t => cstr_ok t /\ zlen t < INT_MAX) ts.
Proof. induction 1 as [|p t ps ts [[Ht _] _] Hs IH]; inversion 1; subst; constructor; auto. Qed.

Lemma stays_app h h' ps G O : stays h h' O -> ps ++ G ≡ₚ O -> stays h h' ps.
Proof. intros Hst E. eapply stays_incl; [exact Hst|]. intros x Hx. rewrite <- E. by apply in_left. Qed.

(** C22: two lists of strings, both made without a minimum count (the
    constructor's default of 20 breaks a list, see [default_list_faults]): the
    first one, of texts shorter than INT_MAX, is flattened into a buffer with
    enough room, and the second one is unflattened from that buffer with the
    type code [B_STRING_LIST_TYPE].  Both succeed, and the second list has the
    texts of the first, whatever it held before and whatever follows in the
    buffer.  The first list's strings and all others are unchanged, and the
    bytes of the buffer behind the result are too.  Memory is not refused, the
    numbers of strings are below INT_MAX, and, as in C21, [realloc] of a block
    that need not grow stays where it is ([ReallocStays]), which the list
    relies on and C does not promise. *)
Theorem flatten_roundtrip lh l l2 h ps ps2 ts ts2 F buf size r :
  ~ exhausted -> ~ list_exhausted ->
  slist lh l h ps ts (ps2 ++ F) -> BList.holds lh l2 ps2 -> strings h ps2 ts2 ->
  Forall (fun t => zlen t < INT_MAX) ts -> zlen (flat ts) <= size <= zlen buf ->
  2 * zlen ps + zlen ps2 + zlen F + 3 < INT_MAX ->
  exists h1 lh2 l2' h2 ps2',
    Flatten lh l h buf size = Ok (h1, map Some (flat ts) ++ drop (length (flat ts)) buf, B_OK)
    /\ Unflatten lh l2 h1 B_STRING_LIST_TYPE (flat ts ++ r) (zlen (flat ts)) = Ok (lh2, l2', h2, B_OK)
    /\ slist lh2 l2' h2 ps2' ts (ps ++ F) /\ strings h2 ps ts /\ stays h h2 F.
Proof.
  intros Hex Hlex Hsl Hl2 Hs2 Hlen Hsize Hmax. pose proof (zlen_nonneg ps). pose proof (zlen_nonneg ps2). pose proof (zlen_nonneg F).
  destruct (Flatten_spec lh l h ps ts (ps2 ++ F) buf size Hsl) as (h1 & E1 & (_ & Ho1 & Hs1) & Hst1);
    [rewrite !zlen_app; lia|done|lia|lia|].
  assert (Hsl2 : slist lh l2 h1 ps2 ts2 (ps ++ F)).
  { split; [done|]. split; [by rewrite app_assoc, (Permutation_app_comm ps2 ps), <- app_assoc|].
    eapply strings_stays; [exact Hst1| |done]. intros x Hx. rewrite !elem_of_app. auto. }
  destruct (MakeEmpty_spec lh l2 h1 ps2 ts2 (ps ++ F) Hsl2) as (lh3 & l3 & h3 & E3 & Hsl3 & Hst3).
  destruct (unflatten_loop_spec r Hex Hlex ts (S (Z.to_nat (zlen (flat ts)))) lh3 l3 h3 [] [] (ps ++ F) [] Hsl3) as (lh4 & l4 & h4 & ps4 & E4 & Hsl4 & Hst4).
  { destruct Hsl as (_ & _ & Hs). by eapply strings_cstr. }
  { pose proof (zlen_nonneg (flat ts)). lia. }
  { change (zlen (@nil Z)) with 0. rewrite zlen_app, <- (slist_zlen _ _ _ _ _ _ Hsl). lia. }
  change (zlen (@nil Z)) with 0 in E4. rewrite Z.add_0_l in E4. cbn [app] in E4, Hsl4.
  exists h1, lh4, l4, h4, ps4. split; [done|]. unfold Unflatten. rewrite Z.eqb_refl. cbn [negb]. rewrite E3. cbn [obind].
  split; [exact E4|]. split; [done|]. pose proof (stays_trans _ _ _ _ Hst3 Hst4) as Hst34. split.
  - eapply strings_stays; [exact Hst34|intros x; apply in_left|done].
  - eapply stays_trans; [by eapply stays_right, stays_right|by eapply stays_right].
Qed.

End Run.

(** ** Examples *)

(** Comparing as [Compare] does. *)
#[export] Instance comparing `{Members} : StringEq := {
  string_eq h p q := c <- Compare_string h p q;; Ok (c =? 0);
  string_ne h p q := c <- Compare_string h p q;; Ok (negb (c =? 0));
}.

#[export] Instance comparing_ok `{MembersOk} : StringEqOk.
Proof.
  assert (Hc : forall h p q s t, BString.holds h p s -> BString.holds h q t -> Compare_string h p q = Ok (strcmp s t)).
  { intros h p q s t Hp Hq. unfold Compare_string. rewrite !String_data.
    rewrite (cstr_reads _ _ _ (holds_reads _ _ _ Hp)). cbn [obind]. by rewrite (cstr_reads _ _ _ (holds_reads _ _ _ Hq)). }
  split; intros h p q s t Hp Hq; cbn; rewrite (Hc h p q s t Hp Hq); cbn [obind]; f_equal; pose proof (strcmp_eq s t) as E.
  - case_bool_decide; [apply Z.eqb_eq; tauto|apply Z.eqb_neq; tauto].
  - case_bool_decide; [apply negb_true_iff, Z.eqb_neq; tauto|apply negb_false_iff, Z.eqb_eq]. apply E. by destruct (decide (s = t)).
Qed.

Import Allocator.

Lemma bump_endless : ~ list_exhausted.
Proof. intros (h & p & n & E). cbn in E. destruct (if p =? BList.NULL then None else h !! p) as [b|]; [destruct (n <=? zlen b)|]; done. Qed.

(** Two strings: "a" and "B". *)
Lemma two_strings : exists h p q, owners_ok h [q; p] /\ BString.holds h p [97] /\ BString.holds h q [66] /\ shareable h p /\ shareable h q.
Proof.
  destruct (cstr_made ∅ [] (lit [97]) [97] no_owners) as [(h & p & _ & Ho & Hp & Hs & _)|E]; [apply reads_lit; repeat constructor|done|done| |by apply moving_endless in E].
  destruct (cstr_made h [p] (lit [66]) [66] Ho) as [(h' & q & _ & Ho' & Hq & Hs' & Hst)|E]; [apply reads_lit; repeat constructor|done|done| |by apply moving_endless in E].
  exists h', p, q. split; [done|]. split; [eapply stays_holds; [exact Hst|by left|done]|]. split; [done|].
  split; [apply Hst; [by left|done]|done].
Qed.

Definition calls1 (p q : Z) : list list_call :=
  [LAdd p [97]; LAdd q [66]; LAddAt p [97] 1; LSwap 0 2; LStringAt 0; LIndexOf q [66] true; LMove 0 1; LRemove p [97] false;
   LReplace 0 p [97]; LAddAt q [66] 5; LEach; LRemoveAt 0; LCount].

Lemma string_list_refines_witness :
  exists h p q lh' l' h', BString.holds h p [97] /\ BString.holds h q [66]
    /\ list_run ∅ blist0 h (calls1 p q) = Ok (lh', l', h',
         [ABool true; ABool true; ABool true; ABool true; AText [66]; AInt 0; ABool true; ABool true;
          ABool true; ABool false; ATexts [[97]]; AText []; AInt 0])
    /\ list_of lh' l' h' [q; p] ([], 2).
Proof.
  destruct two_strings as (h & p & q & Ho & Hp & Hq & Hsp & Hsq).
  destruct (string_list_refines ∅ blist0 h [q; p] ([], 0) (calls1 p q) moving_endless bump_endless) as (lh' & l' & h' & E & Hlo & _).
  - exists [], []. split; [|done]. split; [by apply (holds_empty ∅ blist0)|]. split; [done|constructor].
  - done.
  - unfold calls1. cbn. repeat match goal with |- _ /\ _ => split end; try done; repeat constructor.
  - exists h, p, q, lh', l', h'. done.
Defined.

Definition list_with (p : Z) : heap := <[1 := BList.cells [p] 0]> ∅.
Definition the_list : blist := {| fObjects := 1; fItemCount := 1; fItemReal := 2; fMinimumCount := 0 |}.

Lemma flatten_roundtrip_witness :
  exists h p q h1 lh2 l2' h2 ps2', BString.holds h p [97]
    /\ Flatten (list_with p) the_list h [None; None; Some 9] 3 = Ok (h1, [Some 97; Some 0; Some 9], B_OK)
    /\ Unflatten (list_with p) blist0 h1 B_STRING_LIST_TYPE [97; 0; 9] 2 = Ok (lh2, l2', h2, B_OK)
    /\ slist lh2 l2' h2 ps2' [[97]] [p; q].
Proof.
  destruct two_strings as (h & p & q & Ho & Hp & Hq & Hsp & Hsq).
  destruct (flatten_roundtrip (list_with p) the_list blist0 h [p] [] [[97]] [] [q] [None; None; Some 9] 3 [9] moving_endless bump_endless)
    as (h1 & lh2 & l2' & h2 & ps2' & E1 & E2 & Hsl & _).
  - split; [|split; [by rewrite perm_swap in Ho|constructor; [done|constructor]]].
    split; [done|]. split; [done|]. split; [done|]. right. split; [done|]. by exists O.
  - by apply (holds_empty _ blist0).
  - constructor.
  - repeat constructor.
  - done.
  - done.
  - exists h, p, q, h1, lh2, l2', h2, ps2'. done.
Defined.
