(* ===== verification/StringListCases.v ===== *)
(** Inputs on which [BStringList] and [BString::Split]
    (kits/support/StringList.cpp, String.cpp) go wrong, each on a small
    program. *)

From Stdlib Require Import ZArith Lia List Bool.
From stdpp Require Import base tactics list numbers gmap fin_maps.
From S2P Require Import Prelude CText Utf8 BList BListOps BString BStringShare BStringEdit StringList StringListOps StringListRun.
Local Open Scope Z_scope.
Local Open Scope c_scope.
Import Allocator.

(** An empty list without a minimum count, and "a", "b" in it, in a heap where
    their objects are gone. *)
Definition add_text (lh : heap) (l : blist) (h : sheap) (t : list Z) : outcome (heap * blist * sheap) :=
  let! (h, p) := BString_cstr h (lit t) in
  let! (lh, l, h, _) := Add lh l h p in
  h <- BString_delete h p;;
  Ok (lh, l, h).

Definition ab : outcome (heap * blist * sheap) :=
  let! (lh, l, h) := add_text ∅ blist0 ∅ [97] in add_text lh l h [98].

(** The number of blocks of strings. *)
Definition blocks (h : sheap) : Z := Z.of_nat (size h).

(** The constructor's default count is a minimum count, with which [BList]
    loses its memory (BListOps.v): the second string faults where a block has to
    move to grow. *)
Lemma default_list_faults :
  (let! (lh, l) := BStringList_new ∅ 20 in
   let! (lh, l, h) := add_text lh l ∅ [97] in
   let! (lh, l, h) := add_text lh l h [98] in Ok tt) = Fault.
Proof. by vm_compute. Qed.

(** The last string: an empty one comes back, and when everything has been
    deleted its block is still there. *)
Lemma Remove_last_leaks :
  (let! (lh, l, h) := ab in
   let! (lh, l, h, r) := Remove_at lh l h 1 in
   s <- cstr h (In r 0);;
   h <- BString_delete h r;;
   let! (lh, h) := BStringList_delete lh l h in Ok (s, blocks h)) = Ok ([], 1)
  /\ (let! (lh, l, h) := ab in
      let! (lh, l, h, r) := Remove_at lh l h 0 in
      s <- cstr h (In r 0);;
      h <- BString_delete h r;;
      let! (lh, h) := BStringList_delete lh l h in Ok (s, blocks h)) = Ok ([97], 0).
Proof. split; by vm_compute. Qed.

(** A negative count removes all that follows and gives up nothing. *)
Lemma Remove_range_leaks :
  (let! (lh, l, h) := ab in
   let! (lh, l, h, b) := Remove_range lh l h 0 (-1) in
   let! (lh, h) := BStringList_delete lh l h in Ok (b, CountStrings l, blocks h)) = Ok (true, 0, 2).
Proof. by vm_compute. Qed.

(** There is room for the separators only. *)
Lemma Join_overruns :
  (let! (lh, l, h) := ab in let! (h, p) := Join lh l h (lit [44]) (-1) in Ok tt) = Fault.
Proof. by vm_compute. Qed.

(** A string whose buffer is locked is stored without a copy; when it is
    unlocked and deleted, the list is left with a block that was freed. *)
Lemma Replace_locked :
  (let! (lh, l, h) := ab in
   let! (h, p) := BString_cstr h (lit [99]) in
   let! (h, p, _) := LockBuffer h p 1 in
   let! (lh, l, h, b) := Replace lh l h 0 p in
   let! (h, p) := UnlockBuffer h p 1 in
   h <- BString_delete h p;;
   let! (h, ts) := DoForEach lh l h in Ok ts) = Fault.
Proof. by vm_compute. Qed.

(** "a--b" split at "--": the second piece starts in the separator. *)
Lemma Split_long_separator :
  (let! (h, p) := BString_cstr ∅ (lit [97; 45; 45; 98]) in
   let! (lh, l, h, ok) := Split ∅ blist0 h p (lit [45; 45]) false in
   let! (h, ts) := DoForEach lh l h in Ok (ok, ts)) = Ok (true, [[97]; [45; 98]])
  /\ (let! (h, p) := BString_cstr ∅ (lit [97; 45; 98]) in
      let! (lh, l, h, ok) := Split ∅ blist0 h p (lit [45]) false in
      let! (h, ts) := DoForEach lh l h in Ok (ok, ts)) = Ok (true, [[97]; [98]]).
Proof. split; by vm_compute. Qed.
